(* ===== verification/_CoqProject ===== *)
-Q . S2P
Prelude.v
PropertyId.v
Parsers.v
Method.v
CoderInfo.v
Folder.v
Error.v
Operation.v
Readers.v
ByteSwap.v
Resources.v
FolderGraph.v
PackInfo.v
StreamInfo.v
ScanLocality.v
FilesInfo.v
Aes.v
DecoderPlan.v
DecoderRun.v
Entries.v
FolderDecode.v
FolderRead.v
FolderBounds.v
FileStreams.v
Locations.v
Headers.v
WriteHeader.v
RoundTrip.v
StreamRoundTrip.v
CoderRoundTrip.v
FilesRoundTrip.v
HeaderRoundTrip.v
ArchiveSource.v
PackedSource.v
ArchiveNames.v
EntryReads.v
Archive.v
Sessions.v
Opening.v
Extraction.v
Listing.v
WriteOptions.v
Writers.v
Lzma2Encoder.v
WriteFolders.v
StreamingFolder.v
FolderWriting.v
ArchiveWriter.v
ArchiveWritten.v
WrittenArchive.v
WrittenOpens.v
FolderCodecs.v
WrittenLayouts.v
WrittenStreams.v
FolderServes.v
WrittenReads.v
EncodedOpens.v
EntryRoundTrip.v
ArchiveBuilder.v
ArchiveUpdate.v
Copying.v
Spool.v
Spooled.v
StreamedOutput.v
Volumes.v
VolumesWritten.v
OpenFiles.v
EntryPatterns.v
CommandLine.v
ListingOutput.v
Rewrite.v
ArchiveTest.v
CliExtraction.v
DiskScan.v
Commands.v
