(* ===== verification/Prelude.v ===== *)
(** * r7z: a library and a tool for 7z archives

    r7z (crate under src/) reads, lists, tests, extracts, writes, updates and splits 7z
    archives. This library models its Rust code, function by function, and proves what makes
    it correct. A definition has the name of the function or type it models, [Type_method]
    for a method; the doc comment at the head of each file names its sources.

    ** The program and its model

    _Reading._ A file of bytes is found to be an archive by its signature header; the header
    behind it, plain or itself compressed, describes packed streams, folders (graphs of
    coders) and files. A read decodes a folder, cuts its output into the files'
    streams and compares digests.
    - The bottom: Prelude (results, machine integers, slices, the nom primitives, shared
      lemmas and tactics), PropertyId (src/src/property.rs), Parsers (parsers.rs), Method
      (method.rs), Error (error.rs), Operation (operation.rs), Resources (resources.rs).
    - The header: CoderInfo, Folder and FolderGraph (coder_info.rs, folder.rs), PackInfo
      (pack_info.rs), StreamInfo (stream_info.rs), FilesInfo and Entries (files_info.rs,
      entries.rs), Headers (headers.rs: the resumable scan with its lazily parsed
      sections). ScanLocality holds lemmas on the scanners.
    - Decoding: Aes (aes.rs), ByteSwap (byte_swap.rs), DecoderPlan and DecoderRun
      (codec/plan.rs, codec/sizes.rs, codec.rs), FolderDecode, FolderRead and FolderBounds
      (folder_decode.rs), FileStreams and Locations (file_streams.rs); Readers has the
      specifications of readers and of the loops of the standard library.
    - Archives: ArchiveSource, PackedSource and OpenFiles (archive_source.rs), ArchiveNames,
      EntryReads, Archive, Sessions, Opening, Listing (archive.rs), Extraction
      (extraction.rs and archive.rs).

    _Writing_ (src/src/write/). Options are validated and completed; entries are assigned to
    folders; a folder is a stack of writers; the archive writer is a state machine that ends by
    writing the header and then the signature header at the start.
    - WriteHeader, RoundTrip, StreamRoundTrip, CoderRoundTrip, FilesRoundTrip and
      HeaderRoundTrip (header.rs: every byte of a header, and that the parser above reads it
      back), WriteOptions (model.rs, encode.rs), Lzma2Encoder (lzma2.rs), and from
      mod.rs: Writers, WriteFolders, StreamingFolder, FolderWriting, ArchiveWriter,
      ArchiveWritten, WrittenArchive, ArchiveBuilder, ArchiveUpdate, Copying, Spool, Spooled,
      StreamedOutput, Volumes, VolumesWritten.
    - From the writer to the reader: WrittenOpens and EncodedOpens (the archive opens), FolderCodecs
      (a folder's coders undo its encoders), WrittenLayouts and WrittenStreams (the layouts and
      locations a reader finds), FolderServes and WrittenReads (a folder that decodes serves its
      streams, through to the extraction), EntryRoundTrip (all of it together).

    _The tool_ (src/src/bin/r7z.rs): EntryPatterns, CommandLine, ListingOutput, Rewrite,
    ArchiveTest, CliExtraction, DiskScan, and Commands with [main].

    State is passed explicitly; a Rust [Result] is [result], with [let?] for the question
    mark; a method that takes [&mut self] returns the new state beside its result, also
    when it fails. Integers are in [Z] with their checks, wrap-arounds and saturations
    written out; bytes are [list Z]; text is its list of scalar values. A panic that the code can
    reach is the error [R7zPanic]. Slices carry an address where the code compares
    addresses.

    ** What is shown

    - Round trips: an archive that was written, in any codec, encrypted or not, its header in the
      clear or encoded, opens, and every entry is extracted with the content that was given for
      it ([EntryRoundTrip]). The crates enter as [codecs_agree]: decoders undo encoders, the
      cipher inverts, and memory estimates exist for valid properties; the reader's limits
      must admit the header, the dictionaries and the output. Under it: varints, coders,
      folders, stream descriptors, file listings and whole headers are read back as they were
      written ([HeaderRoundTrip]); written volumes are found again by name ([OpenFiles]); AES
      streams decrypt ([Aes]).
    - What is written: the layout of an archive for every sequence of operations of the
      writer ([WrittenArchive]), of the builder ([ArchiveBuilder]) and of an update
      ([ArchiveUpdate]); what arrives at writers that cannot seek ([StreamedOutput]), in
      volumes ([VolumesWritten]), and in a spool, which behaves as one file whether it is in memory or
      on disk ([Spooled]).
    - Reading: every byte handed out as verified agrees with the digests of the archive, for
      single reads, sessions, traversals and extractions ([FolderRead], [Sessions],
      [Archive], [Extraction]); reads of an intact folder succeed; the plan compiled for a
      folder runs its coder graph ([DecoderPlan], [DecoderRun], [FolderGraph]); iterators
      partition what they iterate over ([FolderDecode], [FileStreams]).
    - Safety and bounds: extraction stays in its directory, names are contained, budgets are
      never exceeded, options that pass validation can be encoded, workers fit the memory.
    - Termination: parsers, scanners, iterations over folders and the signature search
      return within a fuel that is computed from the input's length.
    - The tool: wildcards against a reference language ([EntryPatterns]), what a command
      line can ask for ([CommandLine]), what an update keeps and a deletion drops, down to the bytes of
      the new archive ([Rewrite], [Commands]), which files of the one file system each
      command may change ([Commands]), that a test without a warning means readable ([ArchiveTest]), that existing files are
      overwritten only with consent ([CliExtraction]), the tree of a disk in order ([DiskScan]).

    ** Interfaces

    Code outside src/ is known by type classes, with its documented behaviour as laws that
    the theorems assume and the witnesses discharge: [Nom] (parser primitives), [Crc32],
    [Sha256], [BlockCipher], [Decoders] and [LzmaMemory] (the decoders of lzma-rust2, ppmd and the
    filters), [Encoders] with [encoders_spec], [EncoderLimits], [Entropy] (random bytes), [Host] (memory and
    processors of the machine), [BytesLayout] (the size of a handle of the bytes crate). Readers and writers are classes [Reader], [Write], [Seek] and
    [Writer]; [delivers], [giving], [tracked] and [file_laws] say what they may do,
    short and interrupted operations included. Files and directories are [Destination] and
    [ExtractDir] (cap-std), [TempDir], [VolumeDir], [ArchiveDir] (tempfile),
    [ArchiveFiles] and [FileSystem]; the user is [OverwriteUi].

    ** Fuel

    Recursion that is not structural takes fuel. Parsers get the length of their input plus
    one, and lemmas show that more changes nothing; loops over [usize] counts get the count.
    [io_fuel] and [retries] bound the loops of the standard library that repeat short or
    interrupted reads and writes, which a device can prolong at will; running out is an error of
    its own ([R7zOutOfFuel], [io_out_of_fuel]), so theorems about success hold for every fuel,
    and liveness is stated for enough. [volume_fuel] and [depth_fuel] exceed the number of volumes and
    the depth of a tree.

    ** Not modelled

    - src/scripts/ and src/src/bin/build_n64.rs, parse_flamegraph.rs: development tools.
    - src/src/lib.rs, raw.rs, update.rs: re-exports. Debug and Display implementations;
      texts that the thiserror crate derives are a parameter ([display]).
    - Methods that only fill in a default configuration or password.
    - Progress callbacks, which give nothing back. Cancellation by other threads is
      the parameter [later] where the control is looked at again.
    - What a writer that fails still writes when its buffers are dropped: the parameter
      [abandoned].
    - The dictionary coders themselves, which are crates; output on the standard error; the terminal
      prompt; the text of local times; paths other than Unix paths of valid text. *)

From stdpp Require Import base numbers list option.
From Stdlib Require Import ZArith Lia.

#[global] Open Scope Z_scope.

(** ** Fallible results *)

(** Rust's [Result<A, E>]. *)
Inductive result (A E : Type) : Type :=
| Ok (a : A)
| Err (e : E).

Arguments Ok {A E} a.
Arguments Err {A E} e.

Declare Scope rust_scope.
Delimit Scope rust_scope with rust.
#[global] Open Scope rust_scope.

(** The [?] operator: return the error early, bind the value otherwise. *)
Notation "'let?' p ':=' e 'in' k" :=
  (match e with Ok p => k | Err err => Err err end)
  (at level 10, p strict pattern, e at level 200, k at level 200,
   format "'[v' 'let?'  p  ':='  e  'in' '/' k ']'") : rust_scope.

Definition result_map {A B E} (f : A → B) (r : result A E) : result B E :=
  match r with Ok a => Ok (f a) | Err e => Err e end.

Definition map_err {A E F} (f : E → F) (r : result A E) : result A F :=
  match r with Ok a => Ok a | Err e => Err (f e) end.

(** [Option::ok_or]. *)
Definition ok_or {A E} (o : option A) (e : E) : result A E :=
  match o with Some a => Ok a | None => Err e end.

(** [Result::ok]. *)
Definition result_ok {A E} (r : result A E) : option A :=
  match r with Ok a => Some a | Err _ => None end.

Definition is_ok {A E} (r : result A E) : bool :=
  match r with Ok _ => true | Err _ => false end.

(** [Iterator::try_fold] with a fallible step. *)
Fixpoint try_fold {A B E} (f : B → A → result B E) (acc : B) (l : list A) : result B E :=
  match l with
  | [] => Ok acc
  | x :: xs => let? acc' := f acc x in try_fold f acc' xs
  end.

(** [iter.map(f).collect::<Result<Vec<_>, _>>()]. *)
Fixpoint try_collect {A B E} (f : A → result B E) (l : list A) : result (list B) E :=
  match l with
  | [] => Ok []
  | x :: xs => let? y := f x in let? ys := try_collect f xs in Ok (y :: ys)
  end.

(** ** Machine integers *)

(** Machine integers are [Z] with explicit bounds; the target is 64-bit, so
    [usize] and [u64] have the same range. *)
Abbreviation u8_max := (2 ^ 8 - 1).
Abbreviation u32_max := (2 ^ 32 - 1).
Abbreviation u64_max := (2 ^ 64 - 1).
Abbreviation usize_max := (2 ^ 64 - 1).

Definition is_u8 (v : Z) : Prop := 0 ≤ v < 2 ^ 8.
Definition is_u32 (v : Z) : Prop := 0 ≤ v < 2 ^ 32.
Definition is_u64 (v : Z) : Prop := 0 ≤ v < 2 ^ 64.

(** [usize::try_from(v)] and [u32::try_from(v)]: the value is out of range or
    kept. *)
Definition usize_try_from (v : Z) : option Z :=
  if decide (0 ≤ v ∧ v ≤ usize_max) then Some v else None.
Definition u32_try_from (v : Z) : option Z :=
  if decide (0 ≤ v ∧ v ≤ u32_max) then Some v else None.

(** [checked_add], [checked_mul], [checked_sub] and [saturating_sub] at 64 bits. *)
Definition checked_add (a b : Z) : option Z :=
  if decide (a + b ≤ u64_max) then Some (a + b) else None.
Definition checked_mul (a b : Z) : option Z :=
  if decide (a * b ≤ u64_max) then Some (a * b) else None.
Definition checked_sub (a b : Z) : option Z :=
  if decide (b ≤ a) then Some (a - b) else None.
Definition saturating_sub (a b : Z) : Z := Z.max 0 (a - b).
Definition saturating_add (a b : Z) : Z := Z.min u64_max (a + b).
Definition saturating_mul (a b : Z) : Z := Z.min u64_max (a * b).

(** [usize::div_ceil]. *)
Definition div_ceil (a b : Z) : Z := (a + b - 1) / b.

(** ** Byte strings *)

Abbreviation bytes := (list Z).

Definition zlen {A} (l : list A) : Z := Z.of_nat (length l).

(** [slice.get(a..b)]: [None] out of range. *)
Definition get_range {A} (a b : Z) (l : list A) : option (list A) :=
  if decide (0 ≤ a ∧ a ≤ b ∧ b ≤ zlen l)
  then Some (take (Z.to_nat (b - a)) (drop (Z.to_nat a) l)) else None.

(** [slice.get(i)] at a [usize] index. *)
Definition get {A} (i : Z) (l : list A) : option A :=
  if decide (0 ≤ i) then l !! Z.to_nat i else None.

(** Little-endian integers of [n] bytes: [to_le_bytes] and [from_le_bytes]. *)
Fixpoint to_le_bytes (n : nat) (v : Z) : bytes :=
  match n with
  | O => []
  | S n' => Z.land v 255 :: to_le_bytes n' (Z.shiftr v 8)
  end.
Fixpoint from_le_bytes (l : bytes) : Z :=
  match l with
  | [] => 0
  | b :: bs => Z.lor b (Z.shiftl (from_le_bytes bs) 8)
  end.

(** ** Borrowed slices

    A [&[u8]] (and a [bytes::Bytes]) is its start address with its contents:
    [bytes_subslice] compares the addresses of two slices, so the address is
    part of the model. *)
Record slice := Slice { sl_addr : Z; sl_data : bytes }.

Definition sl_len (s : slice) : Z := zlen (sl_data s).
Definition sl_empty (s : slice) : bool :=
  match sl_data s with [] => true | _ => false end.

(** [&s[n..]] and [&s[..n]]. *)
Definition advance (n : Z) (s : slice) : slice :=
  Slice (sl_addr s + n) (drop (Z.to_nat n) (sl_data s)).
Definition first_bytes (n : Z) (s : slice) : slice :=
  Slice (sl_addr s) (take (Z.to_nat n) (sl_data s)).

(** [s.get(n..)] and [s.get(a..b)]. *)
Definition slice_from (n : Z) (s : slice) : option slice :=
  if decide (0 ≤ n ≤ sl_len s) then Some (advance n s) else None.
Definition slice_range (a b : Z) (s : slice) : option slice :=
  if decide (0 ≤ a ∧ a ≤ b ∧ b ≤ sl_len s)
  then Some (first_bytes (b - a) (advance a s)) else None.

(** [s.split_first()]. *)
Definition split_first (s : slice) : option (Z * slice) :=
  match sl_data s with
  | [] => None
  | b :: _ => Some (b, advance 1 s)
  end.

(** [r] is a tail of [s]. *)
Definition suffix_of (r s : slice) : Prop :=
  ∃ n, 0 ≤ n ≤ sl_len s ∧ r = advance n s.

(** [r] is the part of [b] between two offsets. *)
Definition within (r b : slice) : Prop :=
  ∃ i j, 0 ≤ i ∧ i ≤ j ∧ j ≤ sl_len b ∧ r = first_bytes (j - i) (advance i b).

(** ** The parser interface

    The parsers are written with the [nom] crate. Its error type is modelled as
    it is used; [OutOfFuel] is not a value of the code, it marks a model loop cut
    short, and [fuel_free] below is the proof obligation that it never appears. *)
Inductive ErrorKind := Eof | Satisfy | TooLarge | Verify.

Inductive nom_err :=
| NomError (input : slice) (code : ErrorKind)
| NomFailure (input : slice) (code : ErrorKind)
| NomIncomplete
| OutOfFuel.

Definition IResult (A : Type) : Type := result (slice * A) nom_err.

(** Reference behaviour of the four [nom] functions the code calls, as the
    crate documents them ([take]'s count is a [usize]). *)
Definition ref_take (n : Z) (s : slice) : IResult slice :=
  if decide (0 ≤ n ∧ n ≤ sl_len s) then Ok (advance n s, first_bytes n s)
  else Err (NomError s Eof).
Definition ref_le_uint (n : nat) (s : slice) : IResult Z :=
  if decide (Z.of_nat n ≤ sl_len s)
  then Ok (advance (Z.of_nat n) s, from_le_bytes (take n (sl_data s)))
  else Err (NomError s Eof).
Definition ref_all_consuming {A} (p : slice → IResult A) (s : slice) : IResult A :=
  let? (r, x) := p s in
  if sl_empty r then Ok (r, x) else Err (NomError r Eof).

(** [nom] is a third-party crate: its functions are parameters, with the
    documented behaviour as laws. *)
Class Nom := {
  le_u8 : slice → IResult Z;
  le_u32 : slice → IResult Z;
  nom_take : Z → slice → IResult slice;
  all_consuming : ∀ {A}, (slice → IResult A) → slice → IResult A;
  le_u8_law : ∀ s, le_u8 s = ref_le_uint 1 s;
  le_u32_law : ∀ s, le_u32 s = ref_le_uint 4 s;
  nom_take_law : ∀ n s, nom_take n s = ref_take n s;
  all_consuming_law : ∀ A (p : slice → IResult A) s,
    all_consuming p s = ref_all_consuming p s
}.

(** The laws are satisfiable. *)
#[global] Instance nom_reference : Nom := {|
  le_u8 := ref_le_uint 1;
  le_u32 := ref_le_uint 4;
  nom_take := ref_take;
  all_consuming := @ref_all_consuming;
  le_u8_law := λ _, eq_refl;
  le_u32_law := λ _, eq_refl;
  nom_take_law := λ _ _, eq_refl;
  all_consuming_law := λ _ _ _, eq_refl
|}.

(** ** Bounded loops

    [for _ in 0..n { s = f(s)?; }] for a [u64] bound: recursion on the binary
    digits, so that an early error stops the evaluation at once. *)
Fixpoint repeat_pos {S E} (f : S → result S E) (p : positive) (s : S) : result S E :=
  match p with
  | xH => f s
  | xO q => let? s1 := repeat_pos f q s in repeat_pos f q s1
  | xI q =>
      let? s1 := f s in
      let? s2 := repeat_pos f q s1 in
      repeat_pos f q s2
  end.
Definition repeat_n {S E} (n : Z) (f : S → result S E) (s : S) : result S E :=
  match n with Zpos p => repeat_pos f p s | _ => Ok s end.

Fixpoint repeat_nat {S E} (f : S → result S E) (n : nat) (s : S) : result S E :=
  match n with
  | O => Ok s
  | Datatypes.S n' => let? s1 := f s in repeat_nat f n' s1
  end.

(** ** Tactics *)

(** Split every [let?], [match] and [if] of a hypothesis, keeping the equations,
    and close the branches that return an error. *)
Ltac inv_ok H :=
  repeat match type of H with
  | (match ?e with Ok _ => _ | Err _ => _ end) = Ok _ =>
      let E := fresh "E" in destruct e as [[? ?]|?] eqn:E; [|discriminate H]
  | (match ?e with Ok _ => _ | Err _ => _ end) = Ok _ =>
      let E := fresh "E" in destruct e as [?|?] eqn:E; [|discriminate H]
  end.

(** Parser combinators keep [parses_tail]: one tactic takes the binds, the
    [ok_or] guards and the tests apart; the primitives are in the [tail] hints. *)
Create HintDb tail discriminated.

(** Integer goals about lengths. *)
Ltac zlia :=
  unfold sl_len, zlen, is_u8, is_u32, is_u64 in *; simpl in *;
  rewrite ?length_app, ?length_take, ?length_drop, ?length_replicate in *; lia.

(** ** Checked sums *)

Lemma checked_add_some a b c : checked_add a b = Some c → c = a + b.
Proof. unfold checked_add. case_decide; [by intros [= <-]|done]. Qed.

(** ** Lists *)

Lemma zlen_nonneg {A} (l : list A) : 0 ≤ zlen l.
Proof. unfold zlen. lia. Qed.

Lemma zlen_app {A} (l k : list A) : zlen (l ++ k) = zlen l + zlen k.
Proof. unfold zlen. rewrite length_app. lia. Qed.

Lemma zlen_cons {A} (x : A) l : zlen (x :: l) = 1 + zlen l.
Proof. unfold zlen. cbn. lia. Qed.

Lemma zlen_nil {A} : zlen (@nil A) = 0.
Proof. reflexivity. Qed.

Lemma zlen_map {A B} (f : A → B) l : zlen (map f l) = zlen l.
Proof. unfold zlen. by rewrite length_map. Qed.

Lemma to_nat_zlen {A} (l : list A) : Z.to_nat (zlen l) = length l.
Proof. unfold zlen. lia. Qed.

Lemma get_range_app {A} (l k m : list A) a b :
  a = zlen l → b = zlen l + zlen k → get_range a b (l ++ k ++ m) = Some k.
Proof.
  intros -> ->. unfold get_range, zlen.
  rewrite decide_True by (rewrite !length_app; lia). f_equal.
  replace (Z.to_nat (Z.of_nat (length l))) with (length l) by lia.
  rewrite drop_app_length, Z.add_simpl_l, Nat2Z.id. apply take_app_length.
Qed.

Lemma get_range_length {A} a b (l k : list A) :
  get_range a b l = Some k → zlen k = b - a ∧ 0 ≤ a ∧ a ≤ b ∧ b ≤ zlen l.
Proof.
  unfold get_range. case_decide as Hr; [|done]. intros [= <-].
  unfold zlen in *. rewrite length_take, length_drop. lia.
Qed.

Lemma get_lookup {A} (l : list A) (i : nat) : get (Z.of_nat i) l = l !! i.
Proof. unfold get. by rewrite decide_True, Nat2Z.id by lia. Qed.

Lemma get_lt {A} i (l : list A) x : get i l = Some x → 0 ≤ i < zlen l.
Proof.
  unfold get. case_decide; [|done]. intros Hl%lookup_lt_Some. unfold zlen. lia.
Qed.

Lemma try_fold_app {A B E} (f : B → A → result B E) acc l k :
  try_fold f acc (l ++ k) = (let? acc' := try_fold f acc l in try_fold f acc' k).
Proof.
  revert acc. induction l as [|x l IH]; intros acc; cbn; [done|].
  destruct (f acc x); [apply IH|done].
Qed.

Lemma try_collect_Forall2 {A B E} (f : A → result B E) l ys :
  try_collect f l = Ok ys ↔ Forall2 (λ x y, f x = Ok y) l ys.
Proof.
  revert ys. induction l as [|x l IH]; intros ys; cbn.
  - split; [intros [= <-]; constructor | by inversion 1].
  - split.
    + intros H. destruct (f x) eqn:Ex; [|done].
      destruct (try_collect f l) eqn:El; [|done]. injection H as <-.
      constructor; [done|]. by apply IH.
    + inversion 1 as [|? y ? ys' Hy Hys]; subst. rewrite Hy.
      apply IH in Hys. by rewrite Hys.
Qed.

Lemma try_collect_length {A B E} (f : A → result B E) l ys :
  try_collect f l = Ok ys → length ys = length l.
Proof. intros H%try_collect_Forall2. by symmetry; eapply Forall2_length. Qed.

Lemma filter_ext_in {A} (P Q : A → Prop) `{!∀ x, Decision (P x), !∀ x, Decision (Q x)} (l : list A) :
  (∀ x, x ∈ l → P x ↔ Q x) → filter P l = filter Q l.
Proof.
  induction l as [|x l IH]; intros HPQ; [done|]. rewrite !filter_cons.
  rewrite IH by (intros y Hy; apply HPQ; by right).
  pose proof (HPQ x ltac:(left)). repeat case_decide; try done; tauto.
Qed.

(** ** Slices *)

Lemma advance_0 s : advance 0 s = s.
Proof. destruct s. unfold advance. cbn. f_equal. lia. Qed.

Lemma advance_advance m n s : 0 ≤ m → 0 ≤ n → advance m (advance n s) = advance (n + m) s.
Proof.
  intros. unfold advance. cbn. rewrite drop_drop. f_equal; [lia|].
  f_equal. lia.
Qed.

Lemma sl_len_nonneg s : 0 ≤ sl_len s.
Proof. apply zlen_nonneg. Qed.

Lemma sl_len_advance n s : 0 ≤ n ≤ sl_len s → sl_len (advance n s) = sl_len s - n.
Proof. intros. unfold sl_len, zlen in *. cbn. rewrite length_drop. lia. Qed.

Lemma sl_len_first n s : 0 ≤ n ≤ sl_len s → sl_len (first_bytes n s) = n.
Proof. intros. unfold sl_len, zlen in *. cbn. rewrite length_take. lia. Qed.

Lemma advance_app a (x y : bytes) n :
  n = zlen x → advance n (Slice a (x ++ y)) = Slice (a + zlen x) y.
Proof.
  intros ->. unfold advance. cbn. by rewrite to_nat_zlen, drop_app_length.
Qed.

Lemma first_bytes_app a (x y : bytes) n :
  n = zlen x → first_bytes n (Slice a (x ++ y)) = Slice a x.
Proof.
  intros ->. unfold first_bytes. cbn. by rewrite to_nat_zlen, take_app_length.
Qed.

Lemma suffix_of_refl s : suffix_of s s.
Proof. exists 0. split; [pose proof (sl_len_nonneg s); lia|]. by rewrite advance_0. Qed.

Lemma suffix_of_trans a b c : suffix_of a b → suffix_of b c → suffix_of a c.
Proof.
  intros (m & Hm & ->) (n & Hn & ->). exists (n + m).
  rewrite sl_len_advance in Hm by done.
  split; [lia|]. apply advance_advance; lia.
Qed.

Lemma suffix_of_advance n s : 0 ≤ n ≤ sl_len s → suffix_of (advance n s) s.
Proof. by exists n. Qed.

Lemma suffix_of_len r s : suffix_of r s → sl_len r ≤ sl_len s.
Proof. intros (n & Hn & ->). rewrite sl_len_advance by done. lia. Qed.

#[global] Instance suffix_of_preorder : PreOrder suffix_of.
Proof. split; [exact suffix_of_refl | exact suffix_of_trans]. Qed.

(** ** Well-behaved parsers

    A parser result is well behaved when the remaining input is a tail of the
    input and no model loop ran out of fuel. *)
Definition parses_tail {A} (s : slice) (res : IResult A) : Prop :=
  match res with
  | Ok (r, _) => suffix_of r s
  | Err OutOfFuel => False
  | Err _ => True
  end.

Lemma parses_tail_bind {A B} s (p : IResult A) (k : slice → A → IResult B) :
  parses_tail s p →
  (∀ r x, suffix_of r s → parses_tail r (k r x)) →
  parses_tail s (let? (r, x) := p in k r x).
Proof.
  intros Hp Hk. destruct p as [[r x]|[]]; cbn in *; try done.
  specialize (Hk r x Hp). destruct (k r x) as [[r' y]|[]]; cbn in *; try done.
  by etransitivity.
Qed.

Lemma parses_tail_map {A B} s (p : IResult A) (f : A → B) :
  parses_tail s p → parses_tail s (let? (r, x) := p in Ok (r, f x)).
Proof. by destruct p as [[r x]|[]]. Qed.

Lemma parses_tail_weaken {A} r s (p : IResult A) :
  suffix_of r s → parses_tail r p → parses_tail s p.
Proof.
  destruct p as [[r' y]|[]]; cbn; try done. intros ??. by etransitivity.
Qed.

Lemma ref_le_uint_tail n s : parses_tail s (ref_le_uint n s).
Proof.
  unfold ref_le_uint. case_decide; cbn; [|done].
  apply suffix_of_advance. lia.
Qed.

Lemma ref_take_tail n s : parses_tail s (ref_take n s).
Proof. unfold ref_take. case_decide; cbn; [|done]. by apply suffix_of_advance. Qed.

Lemma le_u8_tail `{Nom} s : parses_tail s (le_u8 s).
Proof. rewrite le_u8_law. apply ref_le_uint_tail. Qed.

Lemma le_u32_tail `{Nom} s : parses_tail s (le_u32 s).
Proof. rewrite le_u32_law. apply ref_le_uint_tail. Qed.

Lemma nom_take_tail `{Nom} n s : parses_tail s (nom_take n s).
Proof. rewrite nom_take_law. apply ref_take_tail. Qed.

Lemma le_u8_cons `{Nom} a b l : le_u8 (Slice a (b :: l)) = Ok (Slice (a + 1) l, b).
Proof.
  rewrite le_u8_law. unfold ref_le_uint.
  rewrite decide_True by zlia. cbn. by rewrite Z.lor_0_r.
Qed.

Lemma le_u8_nil `{Nom} a : le_u8 (Slice a []) = Err (NomError (Slice a []) Eof).
Proof. rewrite le_u8_law. unfold ref_le_uint. by rewrite decide_False by zlia. Qed.

Lemma nom_take_app `{Nom} a n x y :
  n = zlen x → nom_take n (Slice a (x ++ y)) = Ok (Slice (a + n) y, Slice a x).
Proof.
  intros ->. pose proof (zlen_nonneg x).
  rewrite nom_take_law. unfold ref_take.
  rewrite decide_True by zlia. by rewrite advance_app, first_bytes_app.
Qed.

Lemma nom_take_inv `{Nom} n s r x :
  nom_take n s = Ok (r, x) →
  0 ≤ n ≤ sl_len s ∧ r = advance n s ∧ x = first_bytes n s.
Proof.
  rewrite nom_take_law. unfold ref_take.
  case_decide; [|done]. by intros [= <- <-].
Qed.

(** ** Bounded loops *)

Lemma repeat_nat_add {S E} (f : S → result S E) m n s :
  repeat_nat f (m + n)%nat s = (let? s1 := repeat_nat f m s in repeat_nat f n s1).
Proof.
  revert s. induction m as [|m IH]; intros s; cbn; [done|].
  destruct (f s); [apply IH|done].
Qed.

Lemma repeat_pos_nat {S E} (f : S → result S E) p s :
  repeat_pos f p s = repeat_nat f (Pos.to_nat p) s.
Proof.
  revert s. induction p as [p IH|p IH|]; intros s; cbn [repeat_pos].
  - rewrite Pos2Nat.inj_xI. cbn [repeat_nat]. destruct (f s) as [s1|]; [|done].
    rewrite IH. replace (2 * Pos.to_nat p)%nat with (Pos.to_nat p + Pos.to_nat p)%nat by lia.
    rewrite repeat_nat_add. destruct (repeat_nat _ _ _); [apply IH|done].
  - rewrite Pos2Nat.inj_xO, IH.
    replace (2 * Pos.to_nat p)%nat with (Pos.to_nat p + Pos.to_nat p)%nat by lia.
    rewrite repeat_nat_add. destruct (repeat_nat _ _ _); [apply IH|done].
  - change (Pos.to_nat 1) with 1%nat. cbn. by destruct (f s).
Qed.

Lemma repeat_n_nat {S E} n (f : S → result S E) s :
  repeat_n n f s = repeat_nat f (Z.to_nat n) s.
Proof. destruct n; [done| |done]. cbn. apply repeat_pos_nat. Qed.

Lemma repeat_n_of_nat {S E} (n : nat) (f : S → result S E) s :
  repeat_n (Z.of_nat n) f s = repeat_nat f n s.
Proof. by rewrite repeat_n_nat, Nat2Z.id. Qed.

(** A loop invariant, kept by every step, holds at the end. *)
Lemma repeat_nat_ind {S E} (f : S → result S E) (P : nat → S → Prop) n i s s' :
  (∀ j t t', P j t → f t = Ok t' → P (Datatypes.S j) t') →
  P i s → repeat_nat f n s = Ok s' → P (i + n)%nat s'.
Proof.
  intros Hstep. revert i s. induction n as [|n IH]; cbn; intros i s Hs Hr.
  - rewrite Nat.add_0_r. by injection Hr as <-.
  - destruct (f s) as [s1|] eqn:Ef; [|done].
    replace (i + Datatypes.S n)%nat with (Datatypes.S i + n)%nat by lia.
    eapply IH; [|done]. by eapply Hstep.
Qed.

(** Two loops over related states end in related states or fail with related
    errors. *)
Lemma repeat_nat_sim {S T E F} (f : S → result S E) (g : T → result T F)
    (R : S → T → Prop) (Q : E → F → Prop) n s t :
  (∀ x y, R x y → match f x, g y with
                  | Ok x', Ok y' => R x' y'
                  | Err e, Err e' => Q e e'
                  | _, _ => False
                  end) →
  R s t →
  match repeat_nat f n s, repeat_nat g n t with
  | Ok s', Ok t' => R s' t'
  | Err e, Err e' => Q e e'
  | _, _ => False
  end.
Proof.
  intros Hstep. revert s t. induction n as [|n IH]; cbn; intros s t Hst; [done|].
  pose proof (Hstep s t Hst) as H. destruct (f s), (g t); try done. by apply IH.
Qed.

(** ** Little-endian integers *)

Lemma length_to_le_bytes n v : length (to_le_bytes n v) = n.
Proof. revert v. induction n; cbn; auto. Qed.

Lemma zlen_to_le_bytes n v : zlen (to_le_bytes n v) = Z.of_nat n.
Proof. unfold zlen. by rewrite length_to_le_bytes. Qed.

Lemma land_255 v : Z.land v 255 = v mod 2 ^ 8.
Proof. change 255 with (Z.ones 8). by rewrite Z.land_ones by lia. Qed.

(** The low byte and the rest of a word occupy disjoint bits. *)
Lemma land_low_high k b x :
  0 ≤ k → 0 ≤ b < 2 ^ k → Z.land b (2 ^ k * x) = 0.
Proof.
  intros Hk Hb. apply Z.bits_inj'. intros i Hi. rewrite Z.land_spec, Z.bits_0.
  destruct (decide (i < k)).
  - rewrite (Z.mul_comm (2 ^ k)), Z.mul_pow2_bits_low by lia. apply andb_false_r.
  - rewrite <- (Z.mod_small b (2 ^ k)), Z.mod_pow2_bits_high by lia. done.
Qed.

Lemma lor_low_high k b x :
  0 ≤ k → 0 ≤ b < 2 ^ k → Z.lor b (2 ^ k * x) = b + 2 ^ k * x.
Proof.
  intros Hk Hb. pose proof (land_low_high k b x Hk Hb) as H0.
  rewrite <- Z.lxor_lor by done. by rewrite Z.add_nocarry_lxor.
Qed.

Lemma lor_shiftl8 b x : is_u8 b → Z.lor b (Z.shiftl x 8) = b + 2 ^ 8 * x.
Proof.
  intros Hb. rewrite Z.shiftl_mul_pow2, (Z.mul_comm x) by lia.
  by apply lor_low_high.
Qed.

Lemma from_to_le_bytes n v : from_le_bytes (to_le_bytes n v) = v mod 2 ^ (8 * Z.of_nat n).
Proof.
  revert v. induction n as [|n IH]; intros v; cbn [to_le_bytes from_le_bytes].
  { cbn. by rewrite Z.mod_1_r. }
  rewrite IH, land_255, lor_shiftl8 by (apply Z.mod_pos_bound; lia).
  rewrite Z.shiftr_div_pow2 by lia.
  replace (8 * Z.of_nat (S n)) with (8 + 8 * Z.of_nat n) by lia.
  rewrite Z.pow_add_r by lia.
  by rewrite Z.rem_mul_r by (try apply Z.pow_nonzero; lia).
Qed.

Lemma from_to_le_bytes_id n v :
  0 ≤ v < 2 ^ (8 * Z.of_nat n) → from_le_bytes (to_le_bytes n v) = v.
Proof. intros. rewrite from_to_le_bytes. by apply Z.mod_small. Qed.

Lemma to_le_bytes_u8 n v : Forall is_u8 (to_le_bytes n v).
Proof.
  revert v. induction n; cbn [to_le_bytes]; constructor; [|done].
  rewrite land_255. apply Z.mod_pos_bound. lia.
Qed.

Lemma from_le_bytes_bound l :
  Forall is_u8 l → 0 ≤ from_le_bytes l < 2 ^ (8 * zlen l).
Proof.
  induction 1 as [|b l Hb Hl IH]; cbn [from_le_bytes]; [by vm_compute|].
  rewrite lor_shiftl8 by done. unfold is_u8 in Hb.
  pose proof (zlen_nonneg l) as Hn.
  replace (8 * zlen (b :: l)) with (8 + 8 * zlen l) by (rewrite zlen_cons; lia).
  rewrite Z.pow_add_r by lia. change (2 ^ 8) with 256 in *.
  generalize dependent (2 ^ (8 * zlen l)). intros. lia.
Qed.

Lemma to_from_le_bytes l : Forall is_u8 l → to_le_bytes (length l) (from_le_bytes l) = l.
Proof.
  induction 1 as [|b l Hb Hl IH]; cbn [length to_le_bytes from_le_bytes]; [done|].
  rewrite lor_shiftl8, land_255 by done. unfold is_u8 in Hb. f_equal.
  - rewrite (Z.mul_comm (2 ^ 8)), Z.mod_add by lia. by apply Z.mod_small.
  - rewrite Z.shiftr_div_pow2, (Z.mul_comm (2 ^ 8)), Z.div_add by lia.
    rewrite Z.div_small, Z.add_0_l by done. exact IH.
Qed.

(** A loop that keeps what it reads and one that does not, over the same input. *)
Lemma repeat_n_erase {S T E} n (f : S → result S E) (g : T → result T E) (h : S → T) s :
  (∀ x, result_map h (f x) = g (h x)) →
  result_map h (repeat_n n f s) = repeat_n n g (h s).
Proof.
  intros Hfg. rewrite !repeat_n_nat. revert s. generalize (Z.to_nat n) as k.
  induction k as [|k IH]; intros s; cbn; [done|].
  rewrite <- Hfg. destruct (f s); cbn; [apply IH|done].
Qed.

(** A loop over parser states keeps the tail property of its step. *)
Lemma repeat_n_tail {S} n (f : slice * S → IResult S) s x :
  (∀ r y, parses_tail r (f (r, y))) → parses_tail s (repeat_n n f (s, x)).
Proof.
  intros Hf. rewrite repeat_n_nat. revert s x. generalize (Z.to_nat n) as k.
  induction k as [|k IH]; intros s x; cbn [repeat_nat]; [apply suffix_of_refl|].
  pose proof (Hf s x) as H. destruct (f (s, x)) as [[r y]|[]]; cbn in *; try done.
  by eapply parses_tail_weaken.
Qed.

#[export] Hint Resolve le_u8_tail le_u32_tail nom_take_tail : tail.

Ltac parse_tail_step :=
  match goal with
  | |- parses_tail _ _ => solve [eauto 4 with tail]
  | |- parses_tail ?s (Ok (?s, _)) => apply suffix_of_refl
  | |- parses_tail _ (Err _) => exact I
  | |- parses_tail _ (match ok_or ?o _ with _ => _ end) =>
      destruct o eqn:?; cbn [ok_or]
  | |- parses_tail _ (match (match ok_or ?o _ with _ => _ end) with _ => _ end) =>
      destruct o eqn:?; cbn [ok_or]
  | |- parses_tail _ (if ?b then _ else _) => destruct b eqn:?
  | |- parses_tail _ (match (if ?b then _ else _) with _ => _ end) => destruct b eqn:?
  | |- parses_tail _ (repeat_n _ _ (_, _)) =>
      apply repeat_n_tail; intros ? ?; cbv beta iota
  | |- parses_tail _ (match Ok _ with _ => _ end) => cbv beta iota
  | |- parses_tail _ (match Err _ with _ => _ end) => exact I
  | |- parses_tail _ (match ?x with Ok _ => _ | Err _ => _ end) =>
      first [apply parses_tail_bind; [|intros ? ? ?] | destruct x eqn:?]
  | |- parses_tail _ (match ?x with pair _ _ => _ end) => destruct x
  end.
Ltac parse_tail := repeat (cbv beta zeta; parse_tail_step).

(** ** Cutting lists *)

Lemma take_split {A} m n (l : list A) : take (m + n) l = take m l ++ take n (drop m l).
Proof. by rewrite take_take_drop. Qed.

(** [&list[a..b]] of a list that has them. *)
Definition sub_list {A} (a b : Z) (l : list A) : list A :=
  take (Z.to_nat (b - a)) (drop (Z.to_nat a) l).

Lemma zlen_sub_list {A} a b (l : list A) :
  0 ≤ a → a ≤ b → b ≤ zlen l → zlen (sub_list a b l) = b - a.
Proof. intros. unfold sub_list, zlen in *. rewrite length_take, length_drop. lia. Qed.

Lemma sub_list_empty {A} a b (l : list A) : b ≤ a → sub_list a b l = [].
Proof. intros. unfold sub_list. by replace (Z.to_nat (b - a)) with 0%nat by lia. Qed.

Lemma sub_list_step {A} a r b (l : list A) :
  0 ≤ a → 0 ≤ r → a + r ≤ b → sub_list a b l = sub_list a (a + r) l ++ sub_list (a + r) b l.
Proof.
  intros. unfold sub_list. replace (b - a) with (r + (b - (a + r))) by lia.
  replace (a + r - a) with r by lia.
  rewrite !Z2Nat.inj_add by lia. rewrite take_split, drop_drop. done.
Qed.
