(* ===== verification/PropertyId.v ===== *)
(** * Property tags (src/src/property.rs)

    The [Property] enum with its discriminants, [Property::from_u8],
    [Property::parse] and [find_next_property_id]; the combinator [tag_loop]
    for the [loop { let (i, tag) = Property::parse(input)?; ... }] shape all
    the block parsers share, with its termination and simulation lemmas. *)

From stdpp Require Import base numbers list option.
From Stdlib Require Import ZArith Lia.
From S2P Require Import Prelude.

(** ** The enum *)

Inductive PropertyId :=
| P_END | P_Header | P_ArchiveProperties | P_AdditionalStreamsInfo
| P_MainStreamsInfo | P_FilesInfo | P_PackInfo | P_UnPackInfo | P_SubStreamsInfo
| P_Size | P_CRC | P_Folder | P_CodersUnPackSize | P_NumUnPackStream
| P_EmptyStream | P_EmptyFile | P_Anti | P_Name | P_CTime | P_ATime | P_MTime
| P_Attributes | P_Comment | P_EncodedHeader | P_StartPos | P_Dummy.

#[global] Instance PropertyId_eq_dec : EqDecision PropertyId.
Proof. solve_decision. Defined.

(** The discriminants: [tag as u64]. *)
Definition PropertyId_tag (p : PropertyId) : Z :=
  match p with
  | P_END => 0 | P_Header => 1 | P_ArchiveProperties => 2
  | P_AdditionalStreamsInfo => 3 | P_MainStreamsInfo => 4 | P_FilesInfo => 5
  | P_PackInfo => 6 | P_UnPackInfo => 7 | P_SubStreamsInfo => 8 | P_Size => 9
  | P_CRC => 10 | P_Folder => 11 | P_CodersUnPackSize => 12
  | P_NumUnPackStream => 13 | P_EmptyStream => 14 | P_EmptyFile => 15
  | P_Anti => 16 | P_Name => 17 | P_CTime => 18 | P_ATime => 19 | P_MTime => 20
  | P_Attributes => 21 | P_Comment => 22 | P_EncodedHeader => 23
  | P_StartPos => 24 | P_Dummy => 25
  end.

Definition PropertyId_all : list PropertyId :=
  [P_END; P_Header; P_ArchiveProperties; P_AdditionalStreamsInfo;
   P_MainStreamsInfo; P_FilesInfo; P_PackInfo; P_UnPackInfo; P_SubStreamsInfo;
   P_Size; P_CRC; P_Folder; P_CodersUnPackSize; P_NumUnPackStream;
   P_EmptyStream; P_EmptyFile; P_Anti; P_Name; P_CTime; P_ATime; P_MTime;
   P_Attributes; P_Comment; P_EncodedHeader; P_StartPos; P_Dummy].

(** [Property::from_u8]: the variant with that discriminant. *)
Definition PropertyId_from_u8 (value : Z) : option PropertyId :=
  List.find (λ p, Z.eqb (PropertyId_tag p) value) PropertyId_all.

#[global] Arguments PropertyId_from_u8 : simpl never.

(** [Property::parse]. *)
Definition PropertyId_parse (input : slice) : IResult PropertyId :=
  let? (b, rest) := ok_or (split_first input) (NomError input Eof) in
  let? p := ok_or (PropertyId_from_u8 b) (NomError input Satisfy) in
  Ok (rest, p).

(** [find_next_property_id]. *)
Definition find_next_property_id (input : slice) (offset : Z) : IResult PropertyId :=
  let? rest := ok_or (slice_from offset input) (NomError input Eof) in
  let? (b, tail) := ok_or (split_first rest) (NomError rest Eof) in
  let? p := ok_or (PropertyId_from_u8 b) (NomError rest Satisfy) in
  Ok (tail, p).

(** ** The tag loop

    [body input i tag st] is one iteration after the tag: [input] still starts
    with the tag byte, [i] is the input after it. *)
Fixpoint tag_loop {S} (fuel : nat)
    (body : slice → slice → PropertyId → S → IResult S)
    (input : slice) (st : S) : IResult S :=
  match fuel with
  | O => Err OutOfFuel
  | Datatypes.S fuel' =>
      let? (i, tag) := PropertyId_parse input in
      match tag with
      | P_END => Ok (i, st)
      | _ => let? (input', st') := body input i tag st in tag_loop fuel' body input' st'
      end
  end.

(** Every iteration consumes the tag byte, so the input length bounds the number
    of iterations. *)
Definition run_tag_loop {S} (body : slice → slice → PropertyId → S → IResult S)
    (input : slice) (st : S) : IResult S :=
  tag_loop (Datatypes.S (length (sl_data input))) body input st.

(** ** Lemmas: tags *)

Lemma PropertyId_from_tag p : PropertyId_from_u8 (PropertyId_tag p) = Some p.
Proof. by destruct p. Qed.

Lemma PropertyId_from_u8_tag v p : PropertyId_from_u8 v = Some p → v = PropertyId_tag p.
Proof. intros H%List.find_some. symmetry. apply Z.eqb_eq, H. Qed.

Lemma PropertyId_parse_tag a p rest :
  PropertyId_parse (Slice a (PropertyId_tag p :: rest)) = Ok (Slice (a + 1) rest, p).
Proof. by destruct p. Qed.

Lemma PropertyId_parse_inv s i p :
  PropertyId_parse s = Ok (i, p) →
  ∃ rest, sl_data s = PropertyId_tag p :: rest ∧ i = advance 1 s.
Proof.
  unfold PropertyId_parse, split_first. destruct (sl_data s) as [|b rest] eqn:Es; [done|].
  cbn. destruct (PropertyId_from_u8 b) as [q|] eqn:Eq; [|done].
  intros [= <- <-]. apply PropertyId_from_u8_tag in Eq as ->. by eexists.
Qed.

Lemma PropertyId_parse_advance s i p :
  PropertyId_parse s = Ok (i, p) → i = advance 1 s ∧ 1 ≤ sl_len s.
Proof.
  intros (rest & Hs & ->)%PropertyId_parse_inv. split; [done|].
  unfold sl_len. rewrite Hs. zlia.
Qed.

Lemma PropertyId_parse_tail s : parses_tail s (PropertyId_parse s).
Proof.
  destruct (PropertyId_parse s) as [[i p]|e] eqn:E.
  - apply PropertyId_parse_advance in E as [-> ?]. cbn. apply suffix_of_advance. lia.
  - unfold PropertyId_parse in E. destruct (split_first s) as [[b r]|]; cbn in E;
      [destruct (PropertyId_from_u8 b); cbn in E|]; by simplify_eq.
Qed.

(** ** Lemmas: the tag loop *)

(** What an iteration must do: consume from the input after the tag, and never
    run out of fuel itself. *)
Definition tag_body_ok {S} (body : slice → slice → PropertyId → S → IResult S) : Prop :=
  ∀ input tag st, PropertyId_parse input = Ok (advance 1 input, tag) → tag ≠ P_END →
    parses_tail (advance 1 input) (body input (advance 1 input) tag st).

Section TagLoop.
Context {S : Type} (body : slice → slice → PropertyId → S → IResult S).
Context (Hbody : tag_body_ok body).

Lemma tag_loop_step input i tag st input' st' fuel :
  PropertyId_parse input = Ok (i, tag) → tag ≠ P_END →
  body input i tag st = Ok (input', st') →
  tag_loop (Datatypes.S fuel) body input st = tag_loop fuel body input' st'.
Proof. intros Hp Ht Hb. cbn. rewrite Hp. by destruct tag; rewrite ?Hb. Qed.

Lemma tag_body_shrinks input i tag st input' st' :
  PropertyId_parse input = Ok (i, tag) → tag ≠ P_END →
  body input i tag st = Ok (input', st') →
  suffix_of input' input ∧ sl_len input' < sl_len input.
Proof.
  intros Hp Ht Hb. pose proof (PropertyId_parse_advance _ _ _ Hp) as [-> Hl].
  pose proof (Hbody input tag st Hp Ht) as H. rewrite Hb in H. cbn in H.
  split.
  - etransitivity; [done|]. apply suffix_of_advance. lia.
  - apply suffix_of_len in H. rewrite sl_len_advance in H by lia. lia.
Qed.

(** The loop terminates within the given fuel and stops in a tail of the input. *)
Lemma tag_loop_tail fuel input st :
  (length (sl_data input) < fuel)%nat → parses_tail input (tag_loop fuel body input st).
Proof.
  revert input st. induction fuel as [|fuel IH]; intros input st Hf; [lia|]. cbn.
  pose proof (PropertyId_parse_tail input) as Ht.
  destruct (PropertyId_parse input) as [[i tag]|[]] eqn:Ep; cbn in *; try done.
  destruct (decide (tag = P_END)) as [->|Hne]; [done|].
  assert (parses_tail input (let? (input', st') := body input i tag st in
    tag_loop fuel body input' st')); [|by destruct tag].
  pose proof (PropertyId_parse_advance _ _ _ Ep) as [-> Hl].
  pose proof (Hbody input tag st Ep Hne) as H.
  destruct (body input _ tag st) as [[input' st']|[]] eqn:Eb; cbn in *; try done.
  destruct (tag_body_shrinks _ _ _ _ _ _ Ep Hne Eb) as [Hsuf Hlt].
  eapply parses_tail_weaken; [done|]. apply IH. zlia.
Qed.

Lemma run_tag_loop_tail input st : parses_tail input (run_tag_loop body input st).
Proof. apply tag_loop_tail. lia. Qed.

(** More fuel than the input length changes nothing. *)
Lemma tag_loop_fuel f g input st :
  (length (sl_data input) < f)%nat → (length (sl_data input) < g)%nat →
  tag_loop f body input st = tag_loop g body input st.
Proof.
  revert g input st. induction f as [|f IH]; intros [|g] input st Hf Hg; [lia..|].
  cbn. destruct (PropertyId_parse input) as [[i tag]|] eqn:Ep; [|done].
  destruct (decide (tag = P_END)) as [->|Hne]; [done|].
  destruct (body input i tag st) as [[input' st']|] eqn:Eb; [|by destruct tag].
  destruct (tag_body_shrinks _ _ _ _ _ _ Ep Hne Eb) as [_ Hlt].
  rewrite (IH g) by zlia. by destruct tag.
Qed.

Lemma run_tag_loop_step input i tag st input' st' :
  PropertyId_parse input = Ok (i, tag) → tag ≠ P_END →
  body input i tag st = Ok (input', st') →
  run_tag_loop body input st = run_tag_loop body input' st'.
Proof.
  intros Hp Ht Hb. unfold run_tag_loop.
  destruct (tag_body_shrinks _ _ _ _ _ _ Hp Ht Hb) as [_ Hlt].
  erewrite tag_loop_step by done. apply tag_loop_fuel; zlia.
Qed.
End TagLoop.

Lemma run_tag_loop_end {S} (body : slice → slice → PropertyId → S → IResult S) a rest st :
  run_tag_loop body (Slice a (0 :: rest)) st = Ok (Slice (a + 1) rest, st).
Proof. done. Qed.

(** Parsers that accept the same inputs, leave the same rest and return related
    values; their errors may differ. *)
Definition ok_agree {A B} (R : A → B → Prop) (p : IResult A) (q : IResult B) : Prop :=
  match p, q with
  | Ok (r, x), Ok (r', y) => r = r' ∧ R x y
  | Err _, Err _ => True
  | _, _ => False
  end.

Lemma ok_agree_bind {A B C D} (R : A → B → Prop) (Q : C → D → Prop) p q k l :
  ok_agree R p q →
  (∀ r x y, p = Ok (r, x) → q = Ok (r, y) → R x y → ok_agree Q (k r x) (l r y)) →
  ok_agree Q (let? (r, x) := p in k r x) (let? (r, y) := q in l r y).
Proof.
  intros H Hk. destruct p as [[r x]|], q as [[r' y]|]; cbn in *; try done.
  destruct H as [-> HR]. by apply Hk.
Qed.

Lemma ok_agree_refl {A} (p : IResult A) : ok_agree eq p p.
Proof. by destruct p as [[]|]. Qed.

Lemma tag_loop_agree {S T} (R : S → T → Prop) (P : slice → Prop)
    (body : slice → slice → PropertyId → S → IResult S)
    (body' : slice → slice → PropertyId → T → IResult T) fuel input s t :
  (∀ r s, suffix_of r s → P s → P r) → tag_body_ok body →
  (∀ input tag s t, P input → PropertyId_parse input = Ok (advance 1 input, tag) →
     tag ≠ P_END → R s t →
     ok_agree R (body input (advance 1 input) tag s) (body' input (advance 1 input) tag t)) →
  P input → R s t →
  ok_agree R (tag_loop fuel body input s) (tag_loop fuel body' input t).
Proof.
  intros Hsuf Htl Hb. revert input s t.
  induction fuel as [|fuel IH]; intros input s t HP HR; [done|].
  cbn. destruct (PropertyId_parse input) as [[i tag]|] eqn:Ep; [|done].
  pose proof (PropertyId_parse_advance _ _ _ Ep) as [-> Hlen].
  destruct (decide (tag = P_END)) as [->|Hne]; [done|].
  assert (ok_agree R
    (let? (input', s') := body input (advance 1 input) tag s in tag_loop fuel body input' s')
    (let? (input', t') := body' input (advance 1 input) tag t in tag_loop fuel body' input' t'));
    [|by destruct tag].
  eapply ok_agree_bind; [by apply Hb|]. intros r x y Hr _ Hxy. apply IH; [|done].
  pose proof (Htl input tag s Ep Hne) as Ht. rewrite Hr in Ht. cbn in Ht.
  eapply Hsuf; [|done]. etransitivity; [done|]. apply suffix_of_advance. lia.
Qed.

Lemma run_tag_loop_agree {S T} (R : S → T → Prop) (P : slice → Prop)
    (body : slice → slice → PropertyId → S → IResult S)
    (body' : slice → slice → PropertyId → T → IResult T) input s t :
  (∀ r s, suffix_of r s → P s → P r) → tag_body_ok body → P input → R s t →
  (∀ input tag s t, P input → P (advance 1 input) →
     PropertyId_parse input = Ok (advance 1 input, tag) → tag ≠ P_END → R s t →
     ok_agree R (body input (advance 1 input) tag s) (body' input (advance 1 input) tag t)) →
  ok_agree R (run_tag_loop body input s) (run_tag_loop body' input t).
Proof.
  intros Hsuf Hok HP HR Hb. apply (tag_loop_agree _ P); try done.
  intros i tag x y Hi Hp Hne Hxy. apply Hb; try done. eapply Hsuf; [|done].
  apply suffix_of_advance. apply PropertyId_parse_advance in Hp as [_ ?]. lia.
Qed.

(** An invariant of the iterations holds at the end of a successful loop. *)
Lemma run_tag_loop_inv {S} (I : S → Prop)
    (body : slice → slice → PropertyId → S → IResult S) input st r st' :
  (∀ input tag st r st', I st → body input (advance 1 input) tag st = Ok (r, st') → I st') →
  I st → run_tag_loop body input st = Ok (r, st') → I st'.
Proof.
  intros Hb. unfold run_tag_loop. generalize (Datatypes.S (length (sl_data input))) as fuel.
  intros fuel. revert input st. induction fuel as [|fuel IH]; intros input st HI; [done|].
  cbn. destruct (PropertyId_parse input) as [[i tag]|] eqn:Ep; [|done].
  apply PropertyId_parse_advance in Ep as [-> _].
  destruct (decide (tag = P_END)) as [->|Hne]; [by intros [= _ <-]|].
  destruct (body input (advance 1 input) tag st) as [[j st1]|] eqn:Eb; [|by destruct tag].
  intros H. assert (tag_loop fuel body j st1 = Ok (r, st')) by (by destruct tag).
  eapply IH; [|done]. by eapply Hb.
Qed.

(** A successful loop is matched by a more permissive one. *)
Lemma run_tag_loop_ok_sim {S T} (R : S → T → Prop)
    (body : slice → slice → PropertyId → S → IResult S)
    (body' : slice → slice → PropertyId → T → IResult T) input s t r s' :
  (∀ input tag s t r s', R s t → body input (advance 1 input) tag s = Ok (r, s') →
     ∃ t', body' input (advance 1 input) tag t = Ok (r, t') ∧ R s' t') →
  R s t → run_tag_loop body input s = Ok (r, s') →
  ∃ t', run_tag_loop body' input t = Ok (r, t') ∧ R s' t'.
Proof.
  intros Hb. unfold run_tag_loop. generalize (Datatypes.S (length (sl_data input))) as fuel.
  intros fuel. revert input s t. induction fuel as [|fuel IH]; intros input s t HR; [done|].
  cbn. destruct (PropertyId_parse input) as [[i tag]|] eqn:Ep; [|done].
  apply PropertyId_parse_advance in Ep as [-> _].
  destruct (decide (tag = P_END)) as [->|Hne]; [intros [= <- <-]; by exists t|].
  destruct (body input (advance 1 input) tag s) as [[j s1]|] eqn:Eb; [|by destruct tag].
  destruct (Hb _ _ _ _ _ _ HR Eb) as (t1 & -> & HR1).
  intros H. assert (tag_loop fuel body j s1 = Ok (r, s')) as Hs by (by destruct tag).
  destruct (IH _ _ _ HR1 Hs) as (t' & Ht & HR'). exists t'. by destruct tag.
Qed.

Lemma ok_agree_map_l {A B C} (R : A → B → Prop) (Q : C → B → Prop) (f : A → C) p q :
  ok_agree R p q → (∀ x y, R x y → Q (f x) y) →
  ok_agree Q (let? (r, x) := p in Ok (r, f x)) q.
Proof. intros H Hf. destruct p as [[]|], q as [[]|]; cbn in *; naive_solver. Qed.

Lemma ok_agree_weaken {A B} (R Q : A → B → Prop) p q :
  (∀ x y, R x y → Q x y) → ok_agree R p q → ok_agree Q p q.
Proof. intros H. destruct p as [[]|], q as [[]|]; cbn; naive_solver. Qed.

Lemma ok_agree_guard {A B T} (R : A → B → Prop) (o : option T) e e' k l :
  (∀ x, o = Some x → ok_agree R (k x) (l x)) →
  ok_agree R (let? x := ok_or o e in k x) (let? x := ok_or o e' in l x).
Proof. intros H. destruct o; cbn; [by apply H|done]. Qed.

#[export] Hint Resolve PropertyId_parse_tail run_tag_loop_tail : tail.
