(* ===== verification/Parsers.v ===== *)
(** * Primitive parsers (src/src/parsers.rs)

    [usize_cap], [bytes_subslice], the 7z variable-length integer
    ([sevenzip_varuint64_encode] / [sevenzip_varuint64_decode]), [bitmap_is_set]
    and [scan_digests].

    The integer codec is loops over a mask in the code; [varuint_decode_spec] and
    [varuint_encode_spec] are its closed forms, and the round trip, the
    canonicity and the exact error condition follow from them. *)

From stdpp Require Import base numbers list option.
From Stdlib Require Import ZArith Lia.
From S2P Require Import Prelude PropertyId.

(** ** Definitions *)

(** [Bytes::new()]. *)
Definition Bytes_new : slice := Slice 0 [].

Definition bytes_subslice (backing s error_input : slice) : result slice nom_err :=
  if sl_empty s then Ok Bytes_new else
  let invalid_backing := NomFailure error_input Verify in
  let? offset := ok_or (checked_sub (sl_addr s) (sl_addr backing)) invalid_backing in
  let? end_ := ok_or (e ← checked_add offset (sl_len s);
                      if decide (e ≤ sl_len backing) then Some e else None)
                     invalid_backing in
  Ok (first_bytes (end_ - offset) (advance offset backing)).

Definition usize_cap (n max : Z) : Z :=
  Z.min (default usize_max (usize_try_from n)) max.

(** The encoder's loop: [first] is [result[0]], [extra] the bytes pushed after
    it, [fuel] the iterations left ([mask] starts at 0x80 and is halved). *)
Fixpoint varuint_encode_loop (fuel : nat) (value mask first : Z) (extra : bytes) : bytes :=
  match fuel with
  | O => first :: extra
  | S fuel' =>
      if decide (value < mask) then Z.lor first value :: extra
      else
        let first := Z.lor first mask in
        let extra := extra ++ [Z.land value 255] in
        let value := Z.shiftr value 8 in
        let mask := Z.shiftr mask 1 in
        if decide (mask = 0) then first :: extra
        else varuint_encode_loop fuel' value mask first extra
  end.

Definition sevenzip_varuint64_encode (value : Z) : bytes :=
  varuint_encode_loop 8 value 128 0 [].

(** The decoder's loop [for i in 0..8]: [n] iterations are left. *)
Fixpoint varuint_decode_loop (n : nat) (i : Z) (input : slice)
    (first_byte value mask consumed : Z) : IResult Z :=
  match n with
  | O => Ok (advance consumed input, value)
  | S n' =>
      if decide (Z.land first_byte mask = 0) then
        Ok (advance consumed input,
            value + Z.shiftl (Z.land first_byte (mask - 1)) (8 * i))
      else
        match get consumed (sl_data input) with
        | None => Err (NomError input Eof)
        | Some next =>
            varuint_decode_loop n' (i + 1) input first_byte
              (Z.lor value (Z.shiftl next (8 * i))) (Z.shiftr mask 1) (consumed + 1)
        end
  end.

Definition sevenzip_varuint64_decode (input : slice) : IResult Z :=
  match sl_data input with
  | [] => Err (NomError input Eof)
  | first_byte :: _ => varuint_decode_loop 8 0 input first_byte 0 128 1
  end.

Definition bitmap_is_set (bitmap : bytes) (index : Z) : bool :=
  match get (index / 8) bitmap with
  | None => false
  | Some b => bool_decide (Z.land (Z.shiftr b (7 - index mod 8)) 1 = 1)
  end.

(** [(0..num).filter(|&i| bitmap_is_set(bitmap, i)).count()]. *)
Definition count_set (bitmap : bytes) (num : Z) : Z :=
  zlen (filter (λ i, bitmap_is_set bitmap i = true) (seqZ 0 num)).

(** A size-prefixed block is skipped: [take(usize::try_from(size)?)]. *)
Definition skip_sized `{Nom} (input : slice) : IResult unit :=
  let? (i, size) := sevenzip_varuint64_decode input in
  let? sz := ok_or (usize_try_from size) (NomError input TooLarge) in
  let? (i, _) := nom_take sz i in
  Ok (i, tt).

Definition scan_digests `{Nom} (input : slice) (num : Z) : IResult unit :=
  let? (input, all_defined) := le_u8 input in
  if decide (all_defined ≠ 0) then
    let? crc_bytes := ok_or (checked_mul num 4) (NomError input TooLarge) in
    let? (input, _) := nom_take crc_bytes input in
    Ok (input, tt)
  else
    let num_bytes := div_ceil num 8 in
    let? (input, bitmap) := nom_take num_bytes input in
    let num_defined := count_set (sl_data bitmap) num in
    let? crc_bytes := ok_or (checked_mul num_defined 4) (NomError input TooLarge) in
    let? (input, _) := nom_take crc_bytes input in
    Ok (input, tt).

(** ** Reference form of the variable-length integer *)

(** The number of bytes after the first one: its leading one bits. *)
Fixpoint lead_ones_from (n : nat) (b mask : Z) : nat :=
  match n with
  | O => O
  | S n' => if decide (Z.land b mask = 0) then O
            else S (lead_ones_from n' b (Z.shiftr mask 1))
  end.
Definition lead_ones (b : Z) : nat := lead_ones_from 8 b 128.

(** The value bits of the first byte. *)
Definition varuint_high (b : Z) : Z :=
  if decide (lead_ones b = 8%nat) then 0
  else Z.land b (2 ^ (7 - Z.of_nat (lead_ones b)) - 1).

(** What the decoder computes: [lead_ones b] little-endian bytes, then the value
    bits of the first byte [b] above them. *)
Definition varuint_decode_spec (input : slice) : IResult Z :=
  match sl_data input with
  | [] => Err (NomError input Eof)
  | b :: l =>
      let k := lead_ones b in
      if decide (k ≤ length l)%nat then
        Ok (advance (1 + Z.of_nat k) input,
            from_le_bytes (take k l) + Z.shiftl (varuint_high b) (8 * Z.of_nat k))
      else Err (NomError input Eof)
  end.

(** The number of extra bytes the encoder writes: the least [k] with
    [v < 2 ^ (7 + 7 k)], and 8 when there is none. *)
Definition varuint_extra (v : Z) : nat :=
  if decide (v < 2 ^ 7) then 0 else if decide (v < 2 ^ 14) then 1
  else if decide (v < 2 ^ 21) then 2 else if decide (v < 2 ^ 28) then 3
  else if decide (v < 2 ^ 35) then 4 else if decide (v < 2 ^ 42) then 5
  else if decide (v < 2 ^ 49) then 6 else if decide (v < 2 ^ 56) then 7 else 8.

(** [k] leading one bits. *)
Definition lead_mask (k : nat) : Z := 256 - 2 ^ (8 - Z.of_nat k).

Definition varuint_encode_spec (v : Z) : bytes :=
  let k := varuint_extra v in
  (lead_mask k + v / 2 ^ (8 * Z.of_nat k)) :: to_le_bytes k v.

(** ** The decoder *)

Lemma from_le_bytes_snoc l x :
  from_le_bytes (l ++ [x]) = Z.lor (from_le_bytes l) (Z.shiftl x (8 * zlen l)).
Proof.
  induction l as [|b l IH]; cbn [app from_le_bytes].
  - change (8 * zlen []) with 0. by rewrite Z.shiftl_0_l, Z.lor_0_r, Z.lor_0_l, Z.shiftl_0_r.
  - rewrite IH, Z.shiftl_lor, Z.shiftl_shiftl, Z.lor_assoc by (pose proof (zlen_nonneg l); lia).
    by rewrite zlen_cons, Z.mul_add_distr_l, Z.add_comm.
Qed.

(** The loop from iteration [i] on, once [i] extra bytes are read. *)
Lemma varuint_decode_loop_spec n i a b l :
  (n + i = 8)%nat → (i ≤ length l)%nat →
  let k := lead_ones_from n b (2 ^ (7 - Z.of_nat i)) in
  varuint_decode_loop n (Z.of_nat i) (Slice a (b :: l)) b
    (from_le_bytes (take i l)) (2 ^ (7 - Z.of_nat i)) (1 + Z.of_nat i) =
  if decide (i + k ≤ length l)%nat then
    Ok (advance (1 + Z.of_nat (i + k)) (Slice a (b :: l)),
        from_le_bytes (take (i + k) l) +
        Z.shiftl (if decide (i + k = 8)%nat then 0
                  else Z.land b (2 ^ (7 - Z.of_nat (i + k)) - 1)) (8 * Z.of_nat (i + k)))
  else Err (NomError (Slice a (b :: l)) Eof).
Proof.
  revert i. induction n as [|n IH]; intros i Hn Hi k.
  { subst k. cbn [lead_ones_from varuint_decode_loop]. rewrite Nat.add_0_r.
    rewrite decide_True by done. rewrite (decide_True (P := i = 8%nat)) by lia.
    by rewrite Z.shiftl_0_l, Z.add_0_r. }
  subst k. cbn [lead_ones_from varuint_decode_loop sl_data].
  case_decide as Hb.
  { rewrite Nat.add_0_r, decide_True by done.
    by rewrite (decide_False (P := i = 8%nat)) by lia. }
  replace (1 + Z.of_nat i) with (Z.of_nat (S i)) by lia. rewrite get_lookup. cbn [lookup list_lookup].
  assert (Hsh : Z.shiftr (2 ^ (7 - Z.of_nat i)) 1 = 2 ^ (7 - Z.of_nat (S i)) ∨ n = 0%nat).
  { destruct (decide (n = 0%nat)); [by right|left].
    rewrite Z.shiftr_div_pow2, <- Z.pow_sub_r by lia. f_equal. lia. }
  destruct (l !! i) as [x|] eqn:Ex.
  - replace (Z.lor _ _) with (from_le_bytes (take (S i) l)).
    2:{ rewrite (take_S_r _ _ x) by done. rewrite from_le_bytes_snoc. f_equal. f_equal.
        unfold zlen. rewrite length_take. lia. }
    apply lookup_lt_Some in Ex.
    destruct Hsh as [Hsh| ->].
    + specialize (IH (S i) ltac:(lia) ltac:(lia)). cbn zeta in IH.
      replace (Z.of_nat i + 1) with (Z.of_nat (S i)) by lia.
      replace (Z.of_nat (S i) + 1) with (1 + Z.of_nat (S i)) by lia.
      rewrite Hsh, IH. by rewrite <- Nat.add_succ_comm.
    + cbn [lead_ones_from varuint_decode_loop].
      rewrite !decide_True by lia. rewrite Z.shiftl_0_l, Z.add_0_r.
      replace (i + 1)%nat with (S i) by lia. do 3 f_equal. lia.
  - apply lookup_ge_None in Ex. by rewrite decide_False by lia.
Qed.

Theorem varuint_decode_closed input :
  sevenzip_varuint64_decode input = varuint_decode_spec input.
Proof.
  destruct input as [a [|b l]]; [done|].
  unfold sevenzip_varuint64_decode, varuint_decode_spec. cbn [sl_data].
  exact (varuint_decode_loop_spec 8 0 a b l eq_refl (Nat.le_0_l _)).
Qed.

Lemma lead_ones_from_le n b m : (lead_ones_from n b m ≤ n)%nat.
Proof. revert m. induction n; intros; cbn; [lia|]. case_decide; [lia|]. specialize (IHn (Z.shiftr m 1)). lia. Qed.

Lemma lead_ones_le b : (lead_ones b ≤ 8)%nat.
Proof. apply lead_ones_from_le. Qed.

Lemma varuint_decode_tail input : parses_tail input (sevenzip_varuint64_decode input).
Proof.
  rewrite varuint_decode_closed. unfold varuint_decode_spec.
  destruct (sl_data input) as [|b l] eqn:E; [done|]. case_decide; [|done].
  apply suffix_of_advance. unfold sl_len. rewrite E. zlia.
Qed.

(** ** The encoder *)

(** A goal about a mask index [i ≤ 7], by evaluation at each value. *)
Ltac small_cases i :=
  let H := fresh in
  assert (H : (i ≤ 7)%nat) by lia;
  revert H; clear; intros H;
  do 8 (destruct i as [|i]; [reflexivity|]); exfalso; lia.

Lemma to_le_bytes_snoc k v :
  to_le_bytes k v ++ [Z.land (Z.shiftr v (8 * Z.of_nat k)) 255] = to_le_bytes (S k) v.
Proof.
  revert v. induction k as [|k IH]; intros v; cbn [to_le_bytes app].
  - by rewrite Z.shiftr_0_r.
  - f_equal. etransitivity; [|exact (IH (Z.shiftr v 8))]. rewrite Z.shiftr_shiftr by lia.
    do 4 f_equal. lia.
Qed.

(** One more iteration of the encoder. *)
Lemma varuint_encode_loop_step n i v :
  (n + i = 7)%nat → 0 ≤ v →
  varuint_encode_loop (S n) (Z.shiftr v (8 * Z.of_nat i)) (2 ^ (7 - Z.of_nat i))
    (lead_mask i) (to_le_bytes i v) =
  if decide (v < 2 ^ (7 + 7 * Z.of_nat i)) then
    (lead_mask i + v / 2 ^ (8 * Z.of_nat i)) :: to_le_bytes i v
  else if decide (i = 7%nat) then 255 :: to_le_bytes 8 v
  else
    varuint_encode_loop n (Z.shiftr v (8 * Z.of_nat (S i))) (2 ^ (7 - Z.of_nat (S i)))
      (lead_mask (S i)) (to_le_bytes (S i) v).
Proof.
  intros Hn Hv. cbn [varuint_encode_loop].
  rewrite Z.shiftr_div_pow2 by lia.
  assert (Hlt : v / 2 ^ (8 * Z.of_nat i) < 2 ^ (7 - Z.of_nat i) ↔
                v < 2 ^ (7 + 7 * Z.of_nat i)).
  { replace (7 + 7 * Z.of_nat i) with (7 - Z.of_nat i + 8 * Z.of_nat i) by lia.
    rewrite Z.pow_add_r by lia. pose proof (Z.pow_pos_nonneg 2 (8 * Z.of_nat i)).
    split; intros.
    - destruct (Z.lt_ge_cases v (2 ^ (7 - Z.of_nat i) * 2 ^ (8 * Z.of_nat i))); [done|].
      exfalso. assert (2 ^ (7 - Z.of_nat i) ≤ v / 2 ^ (8 * Z.of_nat i)); [|lia].
      apply Z.div_le_lower_bound; lia.
    - apply Z.div_lt_upper_bound; lia. }
  assert (Hmask : lead_mask i = 2 ^ (7 - Z.of_nat i) * (2 * (2 ^ Z.of_nat i - 1))).
  { small_cases i. }
  assert (0 ≤ v / 2 ^ (8 * Z.of_nat i)) by (apply Z.div_pos; lia).
  destruct (decide (v < _)) as [Hs|Hs].
  - rewrite decide_True by (by apply Hlt). f_equal.
    rewrite Z.lor_comm, Hmask, lor_low_high by (try split; try lia; by apply Hlt).
    lia.
  - rewrite decide_False by (by rewrite Hlt).
    assert (Hor : Z.lor (lead_mask i) (2 ^ (7 - Z.of_nat i)) = lead_mask (S i)).
    { small_cases i. }
    rewrite Hor, <- Z.shiftr_div_pow2, to_le_bytes_snoc, Z.shiftr_shiftr by lia.
    rewrite Z.shiftr_div_pow2 by lia. change (2 ^ 1) with 2.
    destruct (decide (i = 7%nat)) as [->|Hi7]; [done|].
    assert (Hd : 2 ^ (7 - Z.of_nat i) / 2 = 2 ^ (7 - Z.of_nat (S i))).
    { change 2 with (2 ^ 1) at 2. rewrite <- Z.pow_sub_r by lia. f_equal. lia. }
    rewrite Hd, decide_False by (apply Z.pow_nonzero; lia).
    do 2 f_equal. lia.
Qed.

Theorem varuint_encode_closed v :
  is_u64 v → sevenzip_varuint64_encode v = varuint_encode_spec v.
Proof.
  intros [Hv Hv64]. unfold sevenzip_varuint64_encode, varuint_encode_spec, varuint_extra.
  pose proof (varuint_encode_loop_step 7 0 v eq_refl Hv) as E0.
  pose proof (varuint_encode_loop_step 6 1 v eq_refl Hv) as E1.
  pose proof (varuint_encode_loop_step 5 2 v eq_refl Hv) as E2.
  pose proof (varuint_encode_loop_step 4 3 v eq_refl Hv) as E3.
  pose proof (varuint_encode_loop_step 3 4 v eq_refl Hv) as E4.
  pose proof (varuint_encode_loop_step 2 5 v eq_refl Hv) as E5.
  pose proof (varuint_encode_loop_step 1 6 v eq_refl Hv) as E6.
  pose proof (varuint_encode_loop_step 0 7 v eq_refl Hv) as E7.
  rewrite Z.shiftr_0_r in E0.
  change (varuint_encode_loop 8 v 128 0 []) with
    (varuint_encode_loop 8 v (2 ^ (7 - Z.of_nat 0)) (lead_mask 0) (to_le_bytes 0 v)).
  rewrite E0, E1, E2, E3, E4, E5, E6, E7. clear E0 E1 E2 E3 E4 E5 E6 E7.
  change (7 + 7 * Z.of_nat 0) with 7. change (7 + 7 * Z.of_nat 1) with 14.
  change (7 + 7 * Z.of_nat 2) with 21. change (7 + 7 * Z.of_nat 3) with 28.
  change (7 + 7 * Z.of_nat 4) with 35. change (7 + 7 * Z.of_nat 5) with 42.
  change (7 + 7 * Z.of_nat 6) with 49. change (7 + 7 * Z.of_nat 7) with 56.
  repeat (case_decide; [done|]). case_decide; [|done]. f_equal.
  by rewrite Z.div_small by (split; [done|exact Hv64]).
Qed.

(** ** The first byte

    [k] leading ones and a [7 - k]-bit value determine the first byte, checked
    on the 256 bytes by evaluation. *)
Definition first_byte_ok (k : nat) (t : Z) : bool :=
  bool_decide (lead_ones (lead_mask k + t) = k ∧ varuint_high (lead_mask k + t) = t).

Lemma first_byte_all :
  forallb (λ k, forallb (first_byte_ok k) (seqZ 0 (2 ^ (7 - Z.of_nat k)))) (seq 0 8) = true.
Proof. by vm_compute. Qed.

Lemma first_byte k t :
  (k < 8)%nat → 0 ≤ t < 2 ^ (7 - Z.of_nat k) →
  lead_ones (lead_mask k + t) = k ∧ varuint_high (lead_mask k + t) = t.
Proof.
  intros Hk Ht. pose proof first_byte_all as H. rewrite forallb_forall in H.
  specialize (H k ltac:(apply in_seq; lia)). rewrite forallb_forall in H.
  specialize (H t ltac:(apply list_elem_of_In, elem_of_seqZ; lia)).
  by apply bool_decide_eq_true in H.
Qed.

Lemma varuint_extra_spec v :
  is_u64 v →
  let k := varuint_extra v in
  (k ≤ 8)%nat ∧
  0 ≤ v / 2 ^ (8 * Z.of_nat k) < (if decide (k = 8%nat) then 1 else 2 ^ (7 - Z.of_nat k)) ∧
  ∀ j, (j < k)%nat → 2 ^ (7 + 7 * Z.of_nat j) ≤ v.
Proof.
  intros [Hv Hv64] k. subst k. unfold varuint_extra.
  repeat case_decide; (split; [lia|]); (split; [split; [apply Z.div_pos; lia|]|]);
    try (cbn [decide]; apply Z.div_lt_upper_bound; [lia|];
         rewrite <- ?Z.pow_add_r by lia; cbn in *; lia);
    intros j Hj; do 8 (destruct j as [|j]; [cbn in *; lia|]); lia.
Qed.

(** ** Round trip and canonicity *)

Lemma first_byte_enc v :
  is_u64 v →
  let k := varuint_extra v in
  let b := lead_mask k + v / 2 ^ (8 * Z.of_nat k) in
  lead_ones b = k ∧ varuint_high b = v / 2 ^ (8 * Z.of_nat k).
Proof.
  intros Hv k b. destruct (varuint_extra_spec v Hv) as (Hk & Ht & _).
  fold k in Hk, Ht. subst b. case_decide as H8.
  - rewrite H8 in *. replace (v / _) with 0 by lia. by vm_compute.
  - apply first_byte; lia.
Qed.

Lemma varuint_roundtrip `{Nom} a v rest :
  is_u64 v →
  sevenzip_varuint64_decode (Slice a (sevenzip_varuint64_encode v ++ rest)) =
    Ok (Slice (a + zlen (sevenzip_varuint64_encode v)) rest, v).
Proof.
  intros Hv. rewrite varuint_decode_closed, varuint_encode_closed by done.
  unfold varuint_decode_spec, varuint_encode_spec. cbn [sl_data app].
  destruct (first_byte_enc v Hv) as [Hlead Hhigh]. cbn zeta in Hlead, Hhigh.
  rewrite Hlead, Hhigh. set (k := varuint_extra v).
  rewrite decide_True by (rewrite length_app, length_to_le_bytes; lia).
  rewrite take_app_length' by (by rewrite length_to_le_bytes).
  rewrite from_to_le_bytes, Z.shiftl_mul_pow2 by lia.
  rewrite zlen_cons, zlen_to_le_bytes.
  rewrite app_comm_cons, advance_app by (rewrite zlen_cons, zlen_to_le_bytes; lia).
  rewrite zlen_cons, zlen_to_le_bytes. do 2 f_equal.
  pose proof (Z.div_mod v (2 ^ (8 * Z.of_nat k)) ltac:(apply Z.pow_nonzero; lia)). lia.
Qed.

Lemma varuint_encode_u8 v : is_u64 v → Forall is_u8 (sevenzip_varuint64_encode v).
Proof.
  intros Hv. rewrite varuint_encode_closed by done. unfold varuint_encode_spec.
  destruct (varuint_extra_spec v Hv) as (Hk & Ht & _). cbn zeta in *.
  constructor; [|apply to_le_bytes_u8]. revert Ht.
  generalize (v / 2 ^ (8 * Z.of_nat (varuint_extra v))). intros t Ht.
  unfold lead_mask, is_u8. destruct (decide (varuint_extra v = 8%nat)) as [E|E].
  - rewrite E. change (2 ^ (8 - Z.of_nat 8)) with 1. lia.
  - replace (8 - Z.of_nat (varuint_extra v)) with (1 + (7 - Z.of_nat (varuint_extra v))) by lia.
    rewrite Z.pow_add_r by lia. change (2 ^ 8) with (2 ^ 1 * 2 ^ 7).
    assert (2 ^ (7 - Z.of_nat (varuint_extra v)) ≤ 2 ^ 7) by (apply Z.pow_le_mono_r; lia). lia.
Qed.

Lemma varuint_encode_len v :
  is_u64 v → zlen (sevenzip_varuint64_encode v) = 1 + Z.of_nat (varuint_extra v).
Proof.
  intros. rewrite varuint_encode_closed by done. unfold varuint_encode_spec.
  by rewrite zlen_cons, zlen_to_le_bytes.
Qed.

Lemma varuint_encode_len_bounds v :
  is_u64 v → 1 ≤ zlen (sevenzip_varuint64_encode v) ≤ 9.
Proof.
  intros Hv. rewrite varuint_encode_len by done.
  destruct (varuint_extra_spec v Hv) as (Hk & _). lia.
Qed.

Lemma varuint_high_bound b :
  0 ≤ varuint_high b < 2 ^ (7 - Z.of_nat (lead_ones b)) ∨
  lead_ones b = 8%nat ∧ varuint_high b = 0.
Proof.
  unfold varuint_high. case_decide; [by right|left].
  pose proof (lead_ones_le b).
  replace (2 ^ (7 - Z.of_nat (lead_ones b)) - 1) with (Z.ones (7 - Z.of_nat (lead_ones b)))
    by (rewrite Z.ones_equiv; lia).
  rewrite Z.land_ones by lia. apply Z.mod_pos_bound, Z.pow_pos_nonneg; lia.
Qed.

(** The least [k] that fits: any [k] that fits is at least [varuint_extra]. *)
Lemma varuint_extra_le v k :
  is_u64 v → v < 2 ^ (7 + 7 * Z.of_nat k) → (varuint_extra v ≤ k)%nat.
Proof.
  intros Hv Hlt. destruct (varuint_extra_spec v Hv) as (_ & _ & Hmin).
  destruct (decide (varuint_extra v ≤ k)%nat) as [|Hgt]; [done|].
  specialize (Hmin k ltac:(lia)). lia.
Qed.

Lemma varuint_decode_inv s r v :
  Forall is_u8 (sl_data s) → sevenzip_varuint64_decode s = Ok (r, v) →
  ∃ k : nat, (k ≤ 8)%nat ∧ 1 + Z.of_nat k ≤ sl_len s ∧ r = advance (1 + Z.of_nat k) s ∧
    is_u64 v ∧ ((k < 8)%nat → v < 2 ^ (7 + 7 * Z.of_nat k)).
Proof.
  rewrite varuint_decode_closed. unfold varuint_decode_spec, sl_len.
  destruct (sl_data s) as [|b l]; [done|]. intros Hb%Forall_inv_tail.
  case_decide as Hk; [|done]. intros [= <- <-]. exists (lead_ones b).
  pose proof (lead_ones_le b) as H8. split; [done|]. split; [zlia|]. split; [done|].
  pose proof (from_le_bytes_bound (take (lead_ones b) l) ltac:(by apply Forall_take)) as Hlow.
  unfold zlen in Hlow. rewrite length_take_le in Hlow by done.
  rewrite Z.shiftl_mul_pow2 by lia.
  destruct (varuint_high_bound b) as [Hh|[E8 ->]].
  - assert (from_le_bytes (take (lead_ones b) l) +
        varuint_high b * 2 ^ (8 * Z.of_nat (lead_ones b)) < 2 ^ (7 + 7 * Z.of_nat (lead_ones b)))
      as Hlt.
    { destruct (decide (lead_ones b = 8%nat)) as [E8|].
      { rewrite E8 in Hh. exfalso. change (2 ^ (7 - Z.of_nat 8)) with 0 in Hh. lia. }
      replace (7 + 7 * Z.of_nat (lead_ones b))
        with ((7 - Z.of_nat (lead_ones b)) + 8 * Z.of_nat (lead_ones b)) by lia.
      rewrite Z.pow_add_r by lia. nia. }
    split; [|done]. split; [nia|]. etransitivity; [exact Hlt|].
    apply Z.pow_lt_mono_r; [lia..|].
    destruct (decide (lead_ones b = 8%nat)) as [E8|]; [|lia].
    rewrite E8 in Hh. exfalso. change (2 ^ (7 - Z.of_nat 8)) with 0 in Hh. lia.
  - rewrite E8 in *. split; [|lia]. change (8 * Z.of_nat 8) with 64 in *. unfold is_u64. lia.
Qed.

(** The encoder's output is the shortest encoding of its value. *)
Lemma varuint_decode_canonical s r v :
  Forall is_u8 (sl_data s) → sevenzip_varuint64_decode s = Ok (r, v) →
  is_u64 v ∧ zlen (sevenzip_varuint64_encode v) ≤ sl_len s - sl_len r.
Proof.
  intros Hs (k & Hk & Hl & -> & Hv & Hlt)%varuint_decode_inv; [|done].
  split; [done|]. rewrite varuint_encode_len, sl_len_advance by (try done; lia).
  destruct (decide (k = 8%nat)) as [->|].
  - destruct (varuint_extra_spec v Hv) as (? & _). lia.
  - pose proof (varuint_extra_le v k Hv ltac:(apply Hlt; lia)). lia.
Qed.

(** ** Subslices *)

Lemma first_bytes_advance i j s r :
  first_bytes (j - i) (advance i s) = r → sl_data r = take (Z.to_nat (j - i)) (drop (Z.to_nat i) (sl_data s)).
Proof. by intros <-. Qed.

(** A slice of the backing buffer is found at its own bytes. *)
Lemma bytes_subslice_within b s e :
  sl_len b ≤ usize_max → within s b →
  ∃ r, bytes_subslice b s e = Ok r ∧ sl_data r = sl_data s.
Proof.
  intros Hb (i & j & Hi & Hij & Hj & Hs). unfold bytes_subslice.
  destruct (sl_empty s) eqn:Ee.
  { exists Bytes_new. split; [done|]. unfold sl_empty in Ee. by destruct (sl_data s). }
  assert (Hlen : sl_len s = j - i).
  { rewrite Hs. apply sl_len_first. rewrite sl_len_advance by lia. lia. }
  assert (Haddr : sl_addr s = sl_addr b + i) by (by rewrite Hs).
  unfold checked_sub. rewrite decide_True by lia. cbn [ok_or].
  unfold checked_add. rewrite decide_True by lia. cbn [mbind option_bind].
  rewrite decide_True by lia. cbn [ok_or]. eexists. split; [done|].
  rewrite Hlen, Haddr, Hs. cbn. f_equal; [lia|]. f_equal. lia.
Qed.

Lemma bytes_subslice_verify b s e err :
  bytes_subslice b s e = Err err → err = NomFailure e Verify.
Proof.
  unfold bytes_subslice. destruct (sl_empty s); [done|].
  destruct (checked_sub _ _); cbn; [|congruence].
  destruct (checked_add _ _); cbn; [|congruence]. case_decide; cbn; congruence.
Qed.

Lemma within_suffix r s : suffix_of r s → within r s.
Proof.
  intros (n & Hn & ->). exists n, (sl_len s). split_and!; try lia.
  unfold first_bytes, advance. cbn. f_equal. rewrite take_ge; [done|].
  rewrite length_drop. zlia.
Qed.

Lemma within_trans a b c : within a b → within b c → within a c.
Proof.
  intros (i & j & Hi & Hij & Hj & ->) (i' & j' & Hi' & Hij' & Hj' & ->).
  rewrite sl_len_first in Hj by (rewrite sl_len_advance by lia; lia).
  exists (i' + i), (i' + j). split_and!; try lia.
  unfold first_bytes, advance. cbn. f_equal; [lia|].
  rewrite skipn_firstn_comm, take_take, drop_drop. f_equal; [lia|]. f_equal; lia.
Qed.

Lemma within_refl s : within s s.
Proof. apply within_suffix. reflexivity. Qed.

Lemma within_first n s : 0 ≤ n ≤ sl_len s → within (first_bytes n s) s.
Proof.
  intros. exists 0, n. split_and!; try lia. by rewrite advance_0, Z.sub_0_r.
Qed.

Lemma within_suffix_trans a b c : within a b → suffix_of b c → within a c.
Proof. intros H ?%within_suffix. by eapply within_trans. Qed.

(** ** Bitmaps and digests *)

Lemma count_set_bounds m num : 0 ≤ count_set m num ≤ Z.max 0 num.
Proof.
  unfold count_set, zlen. pose proof (length_filter (λ i, bitmap_is_set m i = true) (seqZ 0 num)).
  rewrite length_seqZ in *. lia.
Qed.

#[export] Hint Resolve varuint_decode_tail : tail.

Lemma skip_sized_tail `{Nom} s : parses_tail s (skip_sized s).
Proof. unfold skip_sized. parse_tail. Qed.

Lemma scan_digests_tail `{Nom} s num : parses_tail s (scan_digests s num).
Proof. unfold scan_digests. parse_tail. Qed.

#[export] Hint Resolve skip_sized_tail scan_digests_tail : tail.

(** ** Byte inputs *)

Definition byte_slice (s : slice) : Prop := Forall is_u8 (sl_data s).

Lemma byte_slice_advance n s : byte_slice s → byte_slice (advance n s).
Proof. by apply Forall_drop. Qed.

Lemma byte_slice_suffix r s : suffix_of r s → byte_slice s → byte_slice r.
Proof. intros (n & _ & ->). apply byte_slice_advance. Qed.

Lemma byte_slice_within r s : within r s → byte_slice s → byte_slice r.
Proof. intros (i & j & _ & _ & _ & ->) ?. by apply Forall_take, Forall_drop. Qed.

Lemma parses_byte_slice {A} s r (x : A) p :
  parses_tail s p → p = Ok (r, x) → byte_slice s → byte_slice r.
Proof. intros H ->. by apply byte_slice_suffix. Qed.

Lemma varuint_decode_u64 s r v :
  byte_slice s → sevenzip_varuint64_decode s = Ok (r, v) → is_u64 v ∧ byte_slice r.
Proof.
  intros Hs E. split; [by eapply varuint_decode_canonical|].
  by eapply parses_byte_slice; [apply varuint_decode_tail| |].
Qed.

(** A slice as the language guarantees it: bytes, at most [usize::MAX] of them. *)
Definition valid_slice (s : slice) : Prop := byte_slice s ∧ sl_len s ≤ usize_max.

Lemma valid_slice_suffix r s : suffix_of r s → valid_slice s → valid_slice r.
Proof.
  intros Hr [Hb Hl]. split; [by eapply byte_slice_suffix|].
  apply suffix_of_len in Hr. lia.
Qed.

(** ** Locality

    A local parser reads a prefix of its input: on any other input that starts
    with the same bytes it takes the same bytes and returns a related value. *)
Definition local2 {A B} (R : A → B → Prop) (p : slice → IResult A) (q : slice → IResult B) :
    Prop :=
  ∀ s r x, p s = Ok (r, x) →
    ∃ n, 0 ≤ n ≤ sl_len s ∧ r = advance n s ∧
      ∀ t, n ≤ sl_len t → take (Z.to_nat n) (sl_data t) = take (Z.to_nat n) (sl_data s) →
        ∃ y, q t = Ok (advance n t, y) ∧ R x y.

Abbreviation local p := (local2 eq p p).

Lemma take_take_le {A} m n (l k : list A) :
  (m ≤ n)%nat → take n l = take n k → take m l = take m k.
Proof.
  intros Hmn Heq. replace m with (m `min` n)%nat by lia. by rewrite <- !take_take, Heq.
Qed.

Lemma local2_ret {A B} (R : A → B → Prop) x y :
  R x y → local2 R (λ s, Ok (s, x)) (λ s, Ok (s, y)).
Proof.
  intros HR s r x' [= <- <-]. exists 0. pose proof (sl_len_nonneg s).
  split; [lia|]. split; [by rewrite advance_0|]. intros t _ _. exists y.
  by rewrite advance_0.
Qed.

Lemma local2_err {A B} (R : A → B → Prop) e q : local2 R (λ s, Err (e s)) q.
Proof. by intros s r x. Qed.

Lemma local2_bind {A B C D} (R : A → B → Prop) (Q : C → D → Prop) p q k l :
  local2 R p q → (∀ x y, R x y → local2 Q (λ s, k s x) (λ s, l s y)) →
  local2 Q (λ s, let? (r, x) := p s in k r x) (λ s, let? (r, y) := q s in l r y).
Proof.
  intros Hp Hk s r c Hs. destruct (p s) as [[r1 x]|] eqn:Ep; [|done].
  apply Hp in Ep as (n & Hn & -> & Hq).
  (* the two prefixes are read one after the other *)
  assert (∃ y, R x y) as [y0 Hy0].
  { destruct (Hq s ltac:(lia) eq_refl) as (y & _ & Hy). by exists y. }
  destruct (Hk x y0 Hy0 _ _ _ Hs) as (m & Hm & -> & _).
  rewrite sl_len_advance in Hm by done.
  exists (n + m). split; [lia|]. split; [by rewrite advance_advance by lia|].
  intros t Ht Heq.
  assert (Z.to_nat n ≤ Z.to_nat (n + m))%nat as Hle by lia.
  destruct (Hq t ltac:(lia) (take_take_le _ _ _ _ Hle Heq)) as (y & -> & Hy).
  destruct (Hk x y Hy _ _ _ Hs) as (m' & Hm' & Hadv & Hl).
  rewrite sl_len_advance in Hm' by done.
  assert (m' = m) as ->.
  { rewrite !advance_advance in Hadv by lia. injection Hadv. lia. }
  destruct (Hl (advance n t)) as (d & Hd & HQ).
  - rewrite sl_len_advance by lia. lia.
  - cbn. rewrite !take_drop_commute. f_equal.
    replace (Z.to_nat n + Z.to_nat m)%nat with (Z.to_nat (n + m)) by lia. done.
  - exists d. rewrite Hd, advance_advance by lia. done.
Qed.

Lemma local2_guard {A B T} (R : A → B → Prop) (o : option T) e e' k l :
  (∀ x, o = Some x → local2 R (λ s, k s x) (λ s, l s x)) →
  local2 R (λ s, let? x := ok_or o (e s) in k s x) (λ s, let? x := ok_or o (e' s) in l s x).
Proof. intros Hk. destruct o as [x|]; cbn; [by apply Hk|apply local2_err]. Qed.

Lemma local2_result {A B T} (R : A → B → Prop) (o o' : slice → result T nom_err) k l :
  (∀ s t, result_ok (o s) = result_ok (o' t)) →
  (∀ x, local2 R (λ s, k s x) (λ s, l s x)) →
  local2 R (λ s, let? x := o s in k s x) (λ s, let? x := o' s in l s x).
Proof.
  intros Ho Hk s r a Hs. destruct (o s) as [x|] eqn:Eo; [|done].
  destruct (Hk x s r a Hs) as (n & Hn & Hr & Hl). exists n. split; [done|]. split; [done|].
  intros t. specialize (Ho s t). rewrite Eo in Ho.
  destruct (o' t); cbn in Ho; [|done]. injection Ho as ->. apply Hl.
Qed.

Lemma repeat_n_local2 {S T} (R : S → T → Prop) n f g x y :
  (∀ x y, R x y → local2 R (λ s, f (s, x)) (λ s, g (s, y))) → R x y →
  local2 R (λ s, repeat_n n f (s, x)) (λ s, repeat_n n g (s, y)).
Proof.
  intros Hf. assert (∀ k x y, R x y →
    local2 R (λ s, repeat_nat f k (s, x)) (λ s, repeat_nat g k (s, y))) as Hk.
  { induction k as [|k IH]; intros x' y' Hxy; cbn [repeat_nat]; [by apply local2_ret|].
    intros s r z Hs. destruct (f (s, x')) as [[r1 z1]|] eqn:Ef; [|done].
    assert (local2 R (λ s, let? (r, x) := f (s, x') in repeat_nat f k (r, x))
                     (λ s, let? (r, y) := g (s, y') in repeat_nat g k (r, y))) as Hb.
    { eapply local2_bind; [by apply Hf|apply IH]. }
    destruct (Hb s r z) as (n' & Hn & Hr & Ht); [by rewrite Ef|].
    exists n'. split; [done|]. split; [done|]. intros t Hl He.
    destruct (Ht t Hl He) as (w & Hw & HR). exists w. split; [|done].
    by destruct (g (t, y')) as [[? ?]|]. }
  intros Hxy s r z. rewrite repeat_n_nat. intros Hs.
  destruct (Hk _ _ _ Hxy s r z Hs) as (m & Hm & Hr & Ht). exists m.
  split; [done|]. split; [done|]. intros t. rewrite repeat_n_nat. apply Ht.
Qed.

Definition same_data (x y : slice) : Prop := sl_data x = sl_data y.

Lemma nom_take_local `{Nom} n : local2 same_data (nom_take n) (nom_take n).
Proof.
  intros s r x (Hn & -> & ->)%nom_take_inv. exists n. split; [done|]. split; [done|].
  intros t Ht Heq. exists (first_bytes n t). rewrite nom_take_law. unfold ref_take.
  by rewrite decide_True by lia.
Qed.

Lemma ref_le_uint_local n : local (ref_le_uint n).
Proof.
  intros s r x. unfold ref_le_uint. case_decide as Hl; [|done]. intros [= <- <-].
  exists (Z.of_nat n). split; [lia|]. split; [done|]. intros t Ht Heq.
  rewrite decide_True by done. rewrite Nat2Z.id in Heq. rewrite Heq. by eexists.
Qed.

Lemma le_u8_local `{Nom} : local le_u8.
Proof.
  intros s r x. rewrite le_u8_law. intros (n & ? & ? & Ht)%ref_le_uint_local.
  exists n. split; [done|]. split; [done|]. intros t. rewrite le_u8_law. apply Ht.
Qed.

Lemma varuint_decode_local : local sevenzip_varuint64_decode.
Proof.
  intros s r x. rewrite varuint_decode_closed. unfold varuint_decode_spec, sl_len.
  destruct (sl_data s) as [|b l] eqn:Es; [done|]. case_decide as Hk; [|done].
  intros [= <- <-]. exists (1 + Z.of_nat (lead_ones b)). split; [zlia|]. split; [done|].
  intros t Ht Heq. rewrite varuint_decode_closed. unfold varuint_decode_spec.
  replace (Z.to_nat (1 + Z.of_nat (lead_ones b))) with (S (lead_ones b)) in Heq by lia.
  destruct (sl_data t) as [|b' l'] eqn:Et; [done|].
  rewrite !firstn_cons in Heq. injection Heq as -> Hl.
  rewrite decide_True by zlia. rewrite Hl. by eexists.
Qed.

(** ** Properties *)

(** The variable-length integers: every 64-bit value encodes to one to nine
    bytes that decode to it, whatever follows them. *)
Theorem varuint_encoding_decodes a v rest :
  is_u64 v →
  1 ≤ zlen (sevenzip_varuint64_encode v) ≤ 9 ∧
  Forall is_u8 (sevenzip_varuint64_encode v) ∧
  sevenzip_varuint64_decode (Slice a (sevenzip_varuint64_encode v ++ rest)) =
    Ok (Slice (a + zlen (sevenzip_varuint64_encode v)) rest, v).
Proof.
  intros Hv. split; [|split; [by apply varuint_encode_u8|by apply varuint_roundtrip]].
  rewrite varuint_encode_len by done. destruct (varuint_extra_spec v Hv) as (? & _). lia.
Qed.

(** Any bytes the integer decoder accepts hold a 64-bit value, whose own
    encoding is no longer than the bytes consumed: the encoder is canonical and the
    shift of the high bits never overflows. *)
Theorem varuint_decoding_bounded s r v :
  byte_slice s → sevenzip_varuint64_decode s = Ok (r, v) →
  suffix_of r s ∧ is_u64 v ∧ zlen (sevenzip_varuint64_encode v) ≤ sl_len s - sl_len r.
Proof.
  intros Hs Hd. pose proof (varuint_decode_tail s) as Ht. rewrite Hd in Ht. split; [exact Ht|].
  by apply varuint_decode_canonical.
Qed.

(** ** Witnesses *)

Lemma varuint_encoding_decodes_witness :
  sevenzip_varuint64_decode (Slice 0 (sevenzip_varuint64_encode 300 ++ [7])) = Ok (Slice 2 [7], 300).
Proof. apply (varuint_encoding_decodes 0 300 [7]). unfold is_u64. lia. Defined.

Lemma varuint_decoding_bounded_witness :
  suffix_of (Slice 3 [9]) (Slice 0 [192; 5; 0; 9]) ∧ is_u64 5 ∧
  zlen (sevenzip_varuint64_encode 5) ≤ 3.
Proof.
  apply (varuint_decoding_bounded (Slice 0 [192; 5; 0; 9]) (Slice 3 [9]) 5).
  - repeat constructor; vm_compute; done.
  - reflexivity.
Defined.
