(* ===== verification/Method.v ===== *)
(** * The method registry (src/src/method.rs)

    The method identities with their on-disk ids, names, kinds, support status
    and stream arity, and the lookups by id, by identity and by name. *)

From stdpp Require Import base numbers list option strings.
From Stdlib Require Import ZArith Lia.

From S2P Require Import Prelude.

(** ** Types *)

Inductive MethodKind := Compression | Filter | Crypto.

Inductive SevenZMethod :=
 | Copy | Lzma | Lzma2 | BZip2 | Ppmd | Deflate | Deflate64 | Bcj | Bcj2
 | Arm | Arm64 | ArmThumb | Ia64 | Ppc | Sparc | Riscv | Delta | Swap2
 | Swap4 | Zstd | Brotli | Lz4 | Lz5 | Lizard | FastLzma2 | Lzham
 | SevenZAes | Aes256Cbc.

Inductive MethodStatus := Tested | Partial | Unsupported | Blocked | Untested.

#[global] Instance SevenZMethod_eq_dec : EqDecision SevenZMethod.
Proof. solve_decision. Defined.

Record MethodInfo := {
  mi_method : SevenZMethod;
  mi_id : bytes;
  mi_name : String.string;
  mi_kind : MethodKind;
  mi_decode : MethodStatus;
  mi_encode : MethodStatus;
  mi_stream_arity : Z * Z
}.

(** [MethodStatus::is_implemented]. *)
Definition MethodStatus_is_implemented (s : MethodStatus) : bool :=
  match s with Tested | Partial => true | _ => false end.

(** ** Identifiers *)

Definition CODEC_LZMA : bytes := [3; 1; 1].
Definition CODEC_LZMA2 : bytes := [33].
Definition CODEC_BCJ_X86 : bytes := [3; 3; 1; 3].
Definition CODEC_BCJ2 : bytes := [3; 3; 1; 27].
Definition CODEC_BCJ_ARM : bytes := [3; 3; 5; 1].
Definition CODEC_BCJ_ARM64 : bytes := [10].
Definition CODEC_BCJ_ARM_THUMB : bytes := [3; 3; 7; 1].
Definition CODEC_BCJ_IA64 : bytes := [3; 3; 4; 1].
Definition CODEC_BCJ_PPC : bytes := [3; 3; 2; 5].
Definition CODEC_BCJ_SPARC : bytes := [3; 3; 8; 5].
Definition CODEC_BCJ_RISCV : bytes := [11].
Definition CODEC_COPY : bytes := [0].
Definition CODEC_AES_256_SHA_256 : bytes := [6; 241; 7; 1].
Definition CODEC_DEFLATE : bytes := [4; 1; 8].
Definition CODEC_BZIP2 : bytes := [4; 2; 2].
Definition CODEC_PPMD : bytes := [3; 4; 1].
Definition CODEC_DEFLATE64 : bytes := [4; 1; 9].
Definition CODEC_DELTA : bytes := [3].
Definition CODEC_SWAP2 : bytes := [2; 3; 2].
Definition CODEC_SWAP4 : bytes := [2; 3; 4].
Definition ID_ZSTD : bytes := [4; 247; 17; 1].
Definition ID_BROTLI : bytes := [4; 247; 17; 2].
Definition ID_LZ4 : bytes := [4; 247; 17; 4].
Definition ID_LZ5 : bytes := [4; 247; 17; 5].
Definition ID_LIZARD : bytes := [4; 247; 17; 6].
Definition ID_FAST_LZMA2 : bytes := CODEC_LZMA2.
Definition ID_LZHAM : bytes := [4; 247; 16; 1].
Definition ID_AES256CBC : bytes := [6; 240; 1; 129].

(** ** The registry *)

(** The 28 entries, in two halves. *)


Definition METHOD_REGISTRY_DATA_1 : list MethodInfo := (
  [{| mi_method := Copy; mi_id := CODEC_COPY; mi_name := "Copy"; mi_kind := Compression;
      mi_decode := Tested; mi_encode := Tested; mi_stream_arity := (1, 1) |};
   {| mi_method := Lzma; mi_id := CODEC_LZMA; mi_name := "LZMA"; mi_kind := Compression;
      mi_decode := Tested; mi_encode := Tested; mi_stream_arity := (1, 1) |};
   {| mi_method := Lzma2; mi_id := CODEC_LZMA2; mi_name := "LZMA2"; mi_kind := Compression;
      mi_decode := Tested; mi_encode := Tested; mi_stream_arity := (1, 1) |};
   {| mi_method := BZip2; mi_id := CODEC_BZIP2; mi_name := "BZip2"; mi_kind := Compression;
      mi_decode := Tested; mi_encode := Unsupported; mi_stream_arity := (1, 1) |};
   {| mi_method := Ppmd; mi_id := CODEC_PPMD; mi_name := "PPMd"; mi_kind := Compression;
      mi_decode := Tested; mi_encode := Tested; mi_stream_arity := (1, 1) |};
   {| mi_method := Deflate; mi_id := CODEC_DEFLATE; mi_name := "Deflate"; mi_kind := Compression;
      mi_decode := Tested; mi_encode := Unsupported; mi_stream_arity := (1, 1) |};
   {| mi_method := Deflate64; mi_id := CODEC_DEFLATE64; mi_name := "Deflate64"; mi_kind := Compression;
      mi_decode := Tested; mi_encode := Unsupported; mi_stream_arity := (1, 1) |};
   {| mi_method := Bcj; mi_id := CODEC_BCJ_X86; mi_name := "BCJ"; mi_kind := Filter;
      mi_decode := Tested; mi_encode := Tested; mi_stream_arity := (1, 1) |};
   {| mi_method := Bcj2; mi_id := CODEC_BCJ2; mi_name := "BCJ2"; mi_kind := Filter;
      mi_decode := Partial; mi_encode := Unsupported; mi_stream_arity := (4, 1) |};
   {| mi_method := Arm; mi_id := CODEC_BCJ_ARM; mi_name := "ARM"; mi_kind := Filter;
      mi_decode := Tested; mi_encode := Unsupported; mi_stream_arity := (1, 1) |};
   {| mi_method := Arm64; mi_id := CODEC_BCJ_ARM64; mi_name := "ARM64"; mi_kind := Filter;
      mi_decode := Tested; mi_encode := Unsupported; mi_stream_arity := (1, 1) |};
   {| mi_method := ArmThumb; mi_id := CODEC_BCJ_ARM_THUMB; mi_name := "ARMT"; mi_kind := Filter;
      mi_decode := Tested; mi_encode := Unsupported; mi_stream_arity := (1, 1) |};
   {| mi_method := Ia64; mi_id := CODEC_BCJ_IA64; mi_name := "IA64"; mi_kind := Filter;
      mi_decode := Tested; mi_encode := Unsupported; mi_stream_arity := (1, 1) |};
   {| mi_method := Ppc; mi_id := CODEC_BCJ_PPC; mi_name := "PPC"; mi_kind := Filter;
      mi_decode := Tested; mi_encode := Unsupported; mi_stream_arity := (1, 1) |}])%string.

Definition METHOD_REGISTRY_DATA_2 : list MethodInfo := (
  [{| mi_method := Sparc; mi_id := CODEC_BCJ_SPARC; mi_name := "SPARC"; mi_kind := Filter;
      mi_decode := Tested; mi_encode := Unsupported; mi_stream_arity := (1, 1) |};
   {| mi_method := Riscv; mi_id := CODEC_BCJ_RISCV; mi_name := "RISCV"; mi_kind := Filter;
      mi_decode := Tested; mi_encode := Unsupported; mi_stream_arity := (1, 1) |};
   {| mi_method := Delta; mi_id := CODEC_DELTA; mi_name := "Delta"; mi_kind := Filter;
      mi_decode := Tested; mi_encode := Unsupported; mi_stream_arity := (1, 1) |};
   {| mi_method := Swap2; mi_id := CODEC_SWAP2; mi_name := "Swap2"; mi_kind := Filter;
      mi_decode := Tested; mi_encode := Unsupported; mi_stream_arity := (1, 1) |};
   {| mi_method := Swap4; mi_id := CODEC_SWAP4; mi_name := "Swap4"; mi_kind := Filter;
      mi_decode := Tested; mi_encode := Unsupported; mi_stream_arity := (1, 1) |};
   {| mi_method := Zstd; mi_id := ID_ZSTD; mi_name := "ZSTD"; mi_kind := Compression;
      mi_decode := Unsupported; mi_encode := Unsupported; mi_stream_arity := (1, 1) |};
   {| mi_method := Brotli; mi_id := ID_BROTLI; mi_name := "BROTLI"; mi_kind := Compression;
      mi_decode := Unsupported; mi_encode := Unsupported; mi_stream_arity := (1, 1) |};
   {| mi_method := Lz4; mi_id := ID_LZ4; mi_name := "LZ4"; mi_kind := Compression;
      mi_decode := Unsupported; mi_encode := Unsupported; mi_stream_arity := (1, 1) |};
   {| mi_method := Lz5; mi_id := ID_LZ5; mi_name := "LZ5"; mi_kind := Compression;
      mi_decode := Unsupported; mi_encode := Unsupported; mi_stream_arity := (1, 1) |};
   {| mi_method := Lizard; mi_id := ID_LIZARD; mi_name := "LIZARD"; mi_kind := Compression;
      mi_decode := Unsupported; mi_encode := Unsupported; mi_stream_arity := (1, 1) |};
   {| mi_method := FastLzma2; mi_id := ID_FAST_LZMA2; mi_name := "FLZMA2"; mi_kind := Compression;
      mi_decode := Tested; mi_encode := Tested; mi_stream_arity := (1, 1) |};
   {| mi_method := Lzham; mi_id := ID_LZHAM; mi_name := "LZHAM"; mi_kind := Compression;
      mi_decode := Unsupported; mi_encode := Unsupported; mi_stream_arity := (1, 1) |};
   {| mi_method := SevenZAes; mi_id := CODEC_AES_256_SHA_256; mi_name := "7zAES"; mi_kind := Crypto;
      mi_decode := Tested; mi_encode := Tested; mi_stream_arity := (1, 1) |};
   {| mi_method := Aes256Cbc; mi_id := ID_AES256CBC; mi_name := "AES256CBC"; mi_kind := Crypto;
      mi_decode := Unsupported; mi_encode := Unsupported; mi_stream_arity := (1, 1) |}])%string.

Definition METHOD_REGISTRY : list MethodInfo :=
  METHOD_REGISTRY_DATA_1 ++ METHOD_REGISTRY_DATA_2.

Definition ALL_METHODS : list SevenZMethod := map mi_method METHOD_REGISTRY.

(** ** Lookups *)

Definition method_info (id : bytes) : option MethodInfo :=
  List.find (λ info, bool_decide (mi_id info = id)) METHOD_REGISTRY.

Definition method_from_id (id : bytes) : option SevenZMethod :=
  mi_method <$> method_info id.

(** [SevenZMethod::info]; [None] is the panic of its [expect]. *)
Definition SevenZMethod_info (m : SevenZMethod) : option MethodInfo :=
  List.find (λ info, bool_decide (mi_method info = m)) METHOD_REGISTRY.

Definition SevenZMethod_stream_arity (m : SevenZMethod) : option (Z * Z) :=
  mi_stream_arity <$> SevenZMethod_info m.
Definition SevenZMethod_id (m : SevenZMethod) : option bytes :=
  mi_id <$> SevenZMethod_info m.
Definition SevenZMethod_name (m : SevenZMethod) : option String.string :=
  mi_name <$> SevenZMethod_info m.
Definition SevenZMethod_kind (m : SevenZMethod) : option MethodKind :=
  mi_kind <$> SevenZMethod_info m.
Definition SevenZMethod_decode_status (m : SevenZMethod) : option MethodStatus :=
  mi_decode <$> SevenZMethod_info m.
Definition SevenZMethod_encode_status (m : SevenZMethod) : option MethodStatus :=
  mi_encode <$> SevenZMethod_info m.

Definition MethodInfo_can_decode (i : MethodInfo) : bool :=
  MethodStatus_is_implemented (mi_decode i).
Definition MethodInfo_can_encode (i : MethodInfo) : bool :=
  MethodStatus_is_implemented (mi_encode i).

(** [str::bytes]. *)
Definition str_bytes (s : String.string) : bytes :=
  map (λ c, Z.of_N (Ascii.N_of_ascii c)) (String.list_ascii_of_string s).

(** [u8::to_ascii_lowercase]. *)
Definition to_ascii_lowercase (b : Z) : Z :=
  if decide (65 ≤ b ≤ 90) then b + 32 else b.

(** The name without dashes, underscores and spaces, in lower case. *)
Definition normalize_name (name : bytes) : bytes :=
  map to_ascii_lowercase (filter (λ b, b ≠ 45 ∧ b ≠ 95 ∧ b ≠ 32) name).

Definition method_from_name (name : bytes) : option SevenZMethod :=
  mi_method <$>
    List.find (λ info, bool_decide (normalize_name (str_bytes (mi_name info))
                                    = normalize_name name)) METHOD_REGISTRY.

(** ** Lemmas *)

Lemma find_some_bool {A} (P : A → Prop) `{!∀ x, Decision (P x)} l x :
  List.find (λ x, bool_decide (P x)) l = Some x → x ∈ l ∧ P x.
Proof.
  intros [Hin HP]%List.find_some. split; [by apply list_elem_of_In|].
  by apply bool_decide_eq_true in HP.
Qed.

(** Every identity has its own entry, so [SevenZMethod::info] never panics. *)
Lemma SevenZMethod_info_total m :
  ∃ i, SevenZMethod_info m = Some i ∧ mi_method i = m ∧ i ∈ METHOD_REGISTRY.
Proof.
  destruct (SevenZMethod_info m) as [i|] eqn:E; [|by destruct m].
  exists i. split; [done|]. apply find_some_bool in E as [??]. done.
Qed.

Lemma method_from_id_sound id m :
  method_from_id id = Some m → SevenZMethod_id m = Some id.
Proof.
  unfold method_from_id. intros (i & Hi & ->)%fmap_Some.
  unfold method_info in Hi. apply find_some_bool in Hi as [Hin <-].
  unfold METHOD_REGISTRY in Hin. cbn in Hin.
  repeat (apply elem_of_cons in Hin as [->|Hin]; [reflexivity|]).
  by apply not_elem_of_nil in Hin.
Qed.

(** Two identities share an id only when one is the fast encoder of the other. *)
Lemma method_from_id_complete m id :
  SevenZMethod_id m = Some id →
  method_from_id id = Some (match m with FastLzma2 => Lzma2 | _ => m end).
Proof. destruct m; intros [= <-]; reflexivity. Qed.

Lemma registry_names_distinct :
  NoDup (map (λ i, normalize_name (str_bytes (mi_name i))) METHOD_REGISTRY).
Proof. apply (bool_decide_eq_true_1 _). by vm_compute. Qed.

Lemma find_unique {A B} `{EqDecision B} (f : A → B) l x :
  NoDup (map f l) → x ∈ l → List.find (λ y, bool_decide (f y = f x)) l = Some x.
Proof.
  induction l as [|y l IH]; intros Hnd Hin; [by apply not_elem_of_nil in Hin|].
  cbn in *. apply NoDup_cons in Hnd as [Hy Hnd].
  apply elem_of_cons in Hin as [<-|Hin]; [by rewrite bool_decide_eq_true_2|].
  case_bool_decide as E; [|by apply IH].
  destruct Hy. rewrite E. apply list_elem_of_In, in_map, list_elem_of_In, Hin.
Qed.

Lemma method_from_name_iff s m name :
  SevenZMethod_name m = Some name →
  method_from_name s = Some m ↔ normalize_name s = normalize_name (str_bytes name).
Proof.
  intros (i & Hi & ->)%fmap_Some. apply find_some_bool in Hi as [Hin <-].
  unfold method_from_name. split.
  - intros (j & Hj & Hm)%fmap_Some. apply find_some_bool in Hj as [Hjin <-].
    enough (i = j) as -> by done.
    assert (H : NoDup (map mi_method METHOD_REGISTRY)) by
      (apply (bool_decide_eq_true_1 _); by vm_compute).
    pose proof (find_unique mi_method _ _ H Hin) as E1.
    pose proof (find_unique mi_method _ _ H Hjin) as E2.
    rewrite Hm in E1. congruence.
  - intros ->. by rewrite (find_unique _ _ _ registry_names_distinct Hin).
Qed.

(** Every method has one input and one output except BCJ2. *)
Lemma stream_arity_cases m :
  SevenZMethod_stream_arity m = Some (if decide (m = Bcj2) then (4, 1) else (1, 1)).
Proof. by destruct m. Qed.

(** ** Properties *)

(** The registry names every method: each has an on-disk id and a name, the id
    is looked up to the method itself (the id that Fast LZMA2 shares, to LZMA2),
    and a name is looked up to a method exactly when it is that method's name up to
    case and separators. *)
Theorem method_registry_complete m :
  ∃ id name, SevenZMethod_id m = Some id ∧ SevenZMethod_name m = Some name ∧
    method_from_id id = Some (match m with FastLzma2 => Lzma2 | _ => m end) ∧
    (∀ m', method_from_id id = Some m' → SevenZMethod_id m' = Some id) ∧
    ∀ s, method_from_name s = Some m ↔ normalize_name s = normalize_name (str_bytes name).
Proof.
  destruct (SevenZMethod_info_total m) as (i & Hi & _ & _).
  assert (SevenZMethod_id m = Some (mi_id i)) as Hid by (unfold SevenZMethod_id; by rewrite Hi).
  assert (SevenZMethod_name m = Some (mi_name i)) as Hname by (unfold SevenZMethod_name; by rewrite Hi).
  exists (mi_id i), (mi_name i). split; [done|]. split; [done|].
  split; [by apply method_from_id_complete|]. split; [intros m'; apply method_from_id_sound|].
  intros s. by apply method_from_name_iff.
Qed.
