(* ===== verification/CoderInfo.v ===== *)
(** * Coder blocks (src/src/coder_info.rs)

    [CoderInfoRef::parse], the borrowed form the scanners use, and
    [CoderInfo::parse], the owned form. *)

From stdpp Require Import base numbers list option.
From Stdlib Require Import ZArith Lia.
From S2P Require Import Prelude PropertyId Parsers.

(** ** Types *)

(** [codec_id] is an [ArrayVec<u8, 15>], [properties] a [SmallVec]: byte lists. *)
Record CoderInfo := {
  codec_id : bytes;
  num_in_streams : Z;
  num_out_streams : Z;
  properties : option bytes
}.

Record CoderInfoRef := {
  ref_codec_id : slice;
  ref_num_in_streams : Z;
  ref_num_out_streams : Z;
  ref_properties : option slice
}.

#[global] Instance CoderInfo_eq_dec : EqDecision CoderInfo.
Proof. solve_decision. Defined.

(** ** Operations *)

Definition CoderInfoRef_parse `{Nom} (input : slice) : IResult CoderInfoRef :=
  let? (input, flags) := le_u8 input in
  let codec_id_size := Z.land flags 15 in
  let is_complex := negb (Z.land flags 16 =? 0) in
  let has_attributes := negb (Z.land flags 32 =? 0) in
  let? (input, codec_id) := nom_take codec_id_size input in
  let? (input, streams) :=
    (if is_complex then
       let? (input, num_in) := sevenzip_varuint64_decode input in
       let? (input, num_out) := sevenzip_varuint64_decode input in
       Ok (input, (num_in, num_out))
     else Ok (input, (1, 1))) in
  let? (input, properties) :=
    (if has_attributes then
       let? (input, prop_size) := sevenzip_varuint64_decode input in
       let? size := ok_or (usize_try_from prop_size) (NomError input TooLarge) in
       let? (input, properties) := nom_take size input in
       Ok (input, Some properties)
     else Ok (input, None)) in
  Ok (input, {| ref_codec_id := codec_id;
                ref_num_in_streams := fst streams;
                ref_num_out_streams := snd streams;
                ref_properties := properties |}).

(** [ArrayVec::<u8, 15>::try_from]. *)
Definition ArrayVec15_try_from (s : slice) : option bytes :=
  if decide (sl_len s ≤ 15) then Some (sl_data s) else None.

Definition CoderInfo_parse `{Nom} (input : slice) : IResult CoderInfo :=
  let? (input, parsed) := CoderInfoRef_parse input in
  let? codec_id := ok_or (ArrayVec15_try_from (ref_codec_id parsed))
                         (NomError input TooLarge) in
  let properties := sl_data <$> ref_properties parsed in
  Ok (input, {| codec_id := codec_id;
                num_in_streams := ref_num_in_streams parsed;
                num_out_streams := ref_num_out_streams parsed;
                properties := properties |}).

(** The owned form of a borrowed coder. *)
Definition CoderInfo_of_ref (c : CoderInfoRef) : CoderInfo :=
  {| codec_id := sl_data (ref_codec_id c);
     num_in_streams := ref_num_in_streams c;
     num_out_streams := ref_num_out_streams c;
     properties := sl_data <$> ref_properties c |}.

(** ** Lemmas *)

Lemma CoderInfoRef_parse_tail `{Nom} s : parses_tail s (CoderInfoRef_parse s).
Proof. unfold CoderInfoRef_parse. parse_tail. Qed.

(** The id length is a 4-bit field, so the 15-byte [ArrayVec] never overflows. *)
Lemma CoderInfoRef_id_len `{Nom} s r c :
  CoderInfoRef_parse s = Ok (r, c) → sl_len (ref_codec_id c) ≤ 15.
Proof.
  unfold CoderInfoRef_parse. intros H0.
  destruct (le_u8 s) as [[i flags]|]; [|done].
  destruct (nom_take (Z.land flags 15) i) as [[i' cid]|] eqn:Et; [|done].
  apply nom_take_inv in Et as (Hl & -> & ->).
  match type of H0 with (match ?e with _ => _ end) = _ => destruct e as [[? ?]|] end; [|done].
  match type of H0 with (match ?e with _ => _ end) = _ => destruct e as [[? ?]|] end; [|done].
  injection H0 as _ <-. cbn [ref_codec_id]. rewrite sl_len_first by done.
  change 15 with (Z.ones 4). rewrite Z.land_ones by lia.
  pose proof (Z.mod_pos_bound flags (2 ^ 4) ltac:(lia)). change (2 ^ 4) with 16 in *.
  change (Z.ones 4) with 15. lia.
Qed.

(** The two parsers are one: the owned one fails exactly when the borrowed one
    does, with the same error, and returns its owned form. *)
Lemma CoderInfo_parse_ref `{Nom} s :
  CoderInfo_parse s =
    (let? (r, c) := CoderInfoRef_parse s in Ok (r, CoderInfo_of_ref c)).
Proof.
  unfold CoderInfo_parse. destruct (CoderInfoRef_parse s) as [[r c]|] eqn:E; [|done].
  apply CoderInfoRef_id_len in E. unfold ArrayVec15_try_from.
  by rewrite decide_True by done.
Qed.

Lemma CoderInfo_parse_tail `{Nom} s : parses_tail s (CoderInfo_parse s).
Proof. rewrite CoderInfo_parse_ref. apply parses_tail_map, CoderInfoRef_parse_tail. Qed.

#[export] Hint Resolve CoderInfoRef_parse_tail CoderInfo_parse_tail : tail.

(** What the parser guarantees of a coder read from bytes. *)
Record coder_wf (c : CoderInfo) : Prop := {
  wf_id_len : zlen (codec_id c) ≤ 15;
  wf_id_bytes : Forall is_u8 (codec_id c);
  wf_num_in : is_u64 (num_in_streams c);
  wf_num_out : is_u64 (num_out_streams c);
  wf_properties : ∀ p, properties c = Some p → Forall is_u8 p ∧ is_u64 (zlen p)
}.

Lemma CoderInfo_parse_wf `{Nom} s r c :
  byte_slice s → CoderInfo_parse s = Ok (r, c) → coder_wf c.
Proof.
  rewrite CoderInfo_parse_ref. intros Hs Hp.
  destruct (CoderInfoRef_parse s) as [[r' c']|] eqn:E; [|done]. injection Hp as <- <-.
  pose proof (CoderInfoRef_id_len _ _ _ E) as Hid. unfold CoderInfoRef_parse in E.
  destruct (le_u8 s) as [[i flags]|] eqn:E1; [|done].
  assert (byte_slice i) as Hi by (by eapply parses_byte_slice; [apply le_u8_tail| |]).
  destruct (nom_take _ i) as [[i1 cid]|] eqn:E2; [|done].
  apply nom_take_inv in E2 as (Hl & -> & ->).
  assert (byte_slice (advance (Z.land flags 15) i)) as Hi1 by (by apply byte_slice_advance).
  destruct (if negb (Z.land flags 16 =? 0) then _ else _) as [[i2 st]|] eqn:E3; [|done].
  assert (byte_slice i2 ∧ is_u64 (fst st) ∧ is_u64 (snd st)) as (Hi2 & Hin & Hout).
  { destruct (negb _); [|injection E3 as <- <-; split; [done|cbn; unfold is_u64; lia]].
    destruct (sevenzip_varuint64_decode _) as [[j n]|] eqn:Ej; [|done].
    apply varuint_decode_u64 in Ej as [? ?]; [|done].
    destruct (sevenzip_varuint64_decode j) as [[k m]|] eqn:Ek; [|done].
    apply varuint_decode_u64 in Ek as [? ?]; [|done]. by injection E3 as <- <-. }
  destruct (if negb (Z.land flags 32 =? 0) then _ else _) as [[i3 pr]|] eqn:E4; [|done].
  injection E as <- <-. split; cbn; try done.
  { apply Forall_take, Hi. }
  intros p (q & -> & ->)%fmap_Some. destruct (negb (Z.land flags 32 =? 0)); [|done].
  destruct (sevenzip_varuint64_decode i2) as [[j n]|] eqn:Ej; [|done].
  apply varuint_decode_u64 in Ej as [Hn Hj]; [|done].
  destruct (usize_try_from n) eqn:En; cbn in E4; [|done].
  unfold usize_try_from in En. case_decide; [|done]. injection En as <-.
  destruct (nom_take n j) as [[k m]|] eqn:Ek; [|done]. injection E4 as <- ->.
  apply nom_take_inv in Ek as (? & -> & Hq). subst q. split; [apply Forall_take, Hj|].
  pose proof (sl_len_first n j ltac:(done)) as Hlen. unfold sl_len in Hlen.
  rewrite Hlen. done.
Qed.

(** ** Locality *)

Lemma CoderInfoRef_parse_local `{Nom} :
  local2 (λ c d, CoderInfo_of_ref c = CoderInfo_of_ref d) CoderInfoRef_parse CoderInfoRef_parse.
Proof.
  unfold CoderInfoRef_parse. eapply local2_bind; [apply le_u8_local|]. intros flags ? <-.
  cbv zeta. eapply local2_bind; [apply nom_take_local|]. intros cid cid' Hcid.
  eapply local2_bind with (R := eq).
  { destruct (negb _); [|by apply local2_ret].
    eapply local2_bind; [apply varuint_decode_local|]. intros a ? <-.
    eapply local2_bind; [apply varuint_decode_local|]. intros b ? <-. by apply local2_ret. }
  intros st ? <-. eapply local2_bind with (R := λ p q, sl_data <$> p = sl_data <$> q).
  { destruct (negb _); [|by apply local2_ret].
    eapply local2_bind; [apply varuint_decode_local|]. intros sz ? <-.
    apply local2_guard. intros n _. eapply local2_bind; [apply nom_take_local|].
    intros p q Hpq. apply local2_ret. cbn. by rewrite Hpq. }
  intros p q Hpq. apply local2_ret. unfold CoderInfo_of_ref. cbn. by rewrite Hcid, Hpq.
Qed.

Lemma CoderInfo_parse_local `{Nom} : local CoderInfo_parse.
Proof.
  intros s r c. rewrite CoderInfo_parse_ref.
  destruct (CoderInfoRef_parse s) as [[r' c']|] eqn:E; [|done]. intros [= <- <-].
  apply CoderInfoRef_parse_local in E as (n & Hn & Hr & Ht). exists n.
  split; [done|]. split; [done|]. intros t Hl Heq.
  destruct (Ht t Hl Heq) as (d & Hd & HR). exists (CoderInfo_of_ref d).
  by rewrite CoderInfo_parse_ref, Hd.
Qed.
