(* ===== verification/Folder.v ===== *)
(** * Folder blocks (src/src/folder.rs, parsing)

    [Folder::parse], [scan_folder] and the stream counting they share. The two
    walk the same bytes: one keeps what it reads, the other only counts. *)

From stdpp Require Import base numbers list option.
From Stdlib Require Import ZArith Lia.
From S2P Require Import Prelude PropertyId Parsers CoderInfo.

(** ** Types *)

Definition MAX_FOLDER_STREAMS : Z := 16384.

Record Folder := {
  coders : list CoderInfo;
  bind_pairs : list (Z * Z);
  packed_indices : list Z
}.

#[global] Instance Folder_eq_dec : EqDecision Folder.
Proof. solve_decision. Defined.

Record FolderStreamCounts := { inputs : Z; outputs : Z }.

Definition FolderStreamCounts_default : FolderStreamCounts :=
  {| inputs := 0; outputs := 0 |}.

(** ** Checks *)

Definition checked_coder_count (input : slice) (count : Z) : result Z nom_err :=
  let? count := ok_or (usize_try_from count) (NomFailure input TooLarge) in
  if decide (1 ≤ count ∧ count ≤ MAX_FOLDER_STREAMS) then Ok count
  else Err (NomFailure input TooLarge).

Definition FolderStreamCounts_add_coder (self : FolderStreamCounts) (input : slice)
    (num_inputs num_outputs : Z) : result FolderStreamCounts nom_err :=
  let too_large := NomFailure input TooLarge in
  let? i := ok_or (checked_add (inputs self) num_inputs) too_large in
  let? o := ok_or (checked_add (outputs self) num_outputs) too_large in
  if decide (MAX_FOLDER_STREAMS < i ∨ MAX_FOLDER_STREAMS < o) then Err too_large
  else Ok {| inputs := i; outputs := o |}.

Definition FolderStreamCounts_layout (self : FolderStreamCounts) (input : slice) :
    result (Z * Z) nom_err :=
  let? num_bind_pairs := ok_or (checked_sub (outputs self) 1) (NomFailure input Verify) in
  let? num_packed := ok_or (checked_sub (inputs self) num_bind_pairs)
                           (NomFailure input Verify) in
  Ok (num_bind_pairs, num_packed).

Definition checked_stream_index (input : slice) (index total : Z) : result unit nom_err :=
  if decide (index < total) then Ok tt else Err (NomFailure input Verify).

(** ** Parsing *)

(** One iteration of each loop of [Folder::parse]. *)
Definition parse_coder_step `{Nom} (st : slice * (list CoderInfo * FolderStreamCounts)) :
    IResult (list CoderInfo * FolderStreamCounts) :=
  let '(input, (coders, counts)) := st in
  let? (i, coder) := CoderInfo_parse input in
  let? counts := FolderStreamCounts_add_coder counts i
                   (num_in_streams coder) (num_out_streams coder) in
  Ok (i, (coders ++ [coder], counts)).

Definition parse_bind_step (counts : FolderStreamCounts) (st : slice * list (Z * Z)) :
    IResult (list (Z * Z)) :=
  let '(input, bind_pairs) := st in
  let? (i, in_idx) := sevenzip_varuint64_decode input in
  let? _ := checked_stream_index i in_idx (inputs counts) in
  let? (i, out_idx) := sevenzip_varuint64_decode i in
  let? _ := checked_stream_index i out_idx (outputs counts) in
  Ok (i, bind_pairs ++ [(in_idx, out_idx)]).

Definition parse_packed_step (counts : FolderStreamCounts) (st : slice * list Z) :
    IResult (list Z) :=
  let '(input, packed_indices) := st in
  let? (i, idx) := sevenzip_varuint64_decode input in
  let? _ := checked_stream_index i idx (inputs counts) in
  Ok (i, packed_indices ++ [idx]).

Definition Folder_parse `{Nom} (input : slice) : IResult Folder :=
  let? (input, num_coders) := sevenzip_varuint64_decode input in
  let? num_coders := checked_coder_count input num_coders in
  let? (input, cs) :=
    repeat_n num_coders parse_coder_step (input, ([], FolderStreamCounts_default)) in
  let '(coders, stream_counts) := cs in
  let? lay := FolderStreamCounts_layout stream_counts input in
  let '(num_bind_pairs, num_packed) := lay in
  let? (input, bind_pairs) :=
    repeat_n num_bind_pairs (parse_bind_step stream_counts) (input, []) in
  let? (input, packed_indices) :=
    (if decide (num_packed ≠ 1) then
       repeat_n num_packed (parse_packed_step stream_counts) (input, [])
     else Ok (input, [])) in
  Ok (input, {| coders := coders; bind_pairs := bind_pairs;
                packed_indices := packed_indices |}).

(** [Folder::total_out_streams]; [None] is a panic, of the [expect] or of the
    overflow check of [sum]. *)
Definition Folder_total_out_streams (f : Folder) : option Z :=
  foldl (λ acc c, acc ← acc; n ← usize_try_from (num_out_streams c); checked_add acc n)
        (Some 0) (coders f).

(** ** Scanning *)

Definition scan_coder_step `{Nom} (st : slice * FolderStreamCounts) :
    IResult FolderStreamCounts :=
  let '(input, counts) := st in
  let? (remaining, coder) := CoderInfoRef_parse input in
  let? counts := FolderStreamCounts_add_coder counts remaining
                   (ref_num_in_streams coder) (ref_num_out_streams coder) in
  Ok (remaining, counts).

Definition scan_bind_step (counts : FolderStreamCounts) (st : slice * unit) : IResult unit :=
  let '(input, _) := st in
  let? (i, in_idx) := sevenzip_varuint64_decode input in
  let? _ := checked_stream_index i in_idx (inputs counts) in
  let? (i, out_idx) := sevenzip_varuint64_decode i in
  let? _ := checked_stream_index i out_idx (outputs counts) in
  Ok (i, tt).

Definition scan_packed_step (counts : FolderStreamCounts) (st : slice * unit) : IResult unit :=
  let '(input, _) := st in
  let? (i, idx) := sevenzip_varuint64_decode input in
  let? _ := checked_stream_index i idx (inputs counts) in
  Ok (i, tt).

Definition scan_folder `{Nom} (input : slice) : IResult Z :=
  let? (input, num_coders) := sevenzip_varuint64_decode input in
  let? num_coders := checked_coder_count input num_coders in
  let? (input, stream_counts) :=
    repeat_n num_coders scan_coder_step (input, FolderStreamCounts_default) in
  let? lay := FolderStreamCounts_layout stream_counts input in
  let '(num_bind_pairs, num_packed) := lay in
  let? (input, _) := repeat_n num_bind_pairs (scan_bind_step stream_counts) (input, tt) in
  let? (input, _) :=
    (if decide (num_packed ≠ 1) then
       repeat_n num_packed (scan_packed_step stream_counts) (input, tt)
     else Ok (input, tt)) in
  let? total_out := ok_or (usize_try_from (outputs stream_counts))
                          (NomError input TooLarge) in
  Ok (input, total_out).

(** ** Lemmas: tails *)

Ltac unfold_checks :=
  unfold checked_coder_count, FolderStreamCounts_add_coder, FolderStreamCounts_layout,
    checked_stream_index.

Lemma Folder_parse_tail `{Nom} s : parses_tail s (Folder_parse s).
Proof.
  unfold Folder_parse, parse_coder_step, parse_bind_step, parse_packed_step.
  unfold_checks. parse_tail.
Qed.

Lemma scan_folder_tail `{Nom} s : parses_tail s (scan_folder s).
Proof.
  unfold scan_folder, scan_coder_step, scan_bind_step, scan_packed_step.
  unfold_checks. parse_tail.
Qed.

#[export] Hint Resolve Folder_parse_tail scan_folder_tail : tail.

(** ** Lemmas: the shape of a parsed folder *)

Definition sum_in (cs : list CoderInfo) : Z := foldr (λ c n, num_in_streams c + n) 0 cs.
Definition sum_out (cs : list CoderInfo) : Z := foldr (λ c n, num_out_streams c + n) 0 cs.

Lemma sum_in_app l k : sum_in (l ++ k) = sum_in l + sum_in k.
Proof. unfold sum_in, sum_out. induction l; cbn; lia. Qed.
Lemma sum_out_app l k : sum_out (l ++ k) = sum_out l + sum_out k.
Proof. unfold sum_in, sum_out. induction l; cbn; lia. Qed.

(** What [Folder::parse] guarantees of its result. *)
Record folder_wf (f : Folder) : Prop := {
  wf_coder_count : 1 ≤ zlen (coders f) ≤ MAX_FOLDER_STREAMS;
  wf_coders : Forall coder_wf (coders f);
  wf_inputs : sum_in (coders f) ≤ MAX_FOLDER_STREAMS;
  wf_outputs : 1 ≤ sum_out (coders f) ≤ MAX_FOLDER_STREAMS;
  wf_bind_count : zlen (bind_pairs f) = sum_out (coders f) - 1;
  wf_bind_pairs : Forall (λ p, 0 ≤ fst p < sum_in (coders f)
                               ∧ 0 ≤ snd p < sum_out (coders f)) (bind_pairs f);
  wf_bind_le : zlen (bind_pairs f) ≤ sum_in (coders f);
  wf_packed_count :
    zlen (packed_indices f) =
      (let n := sum_in (coders f) - zlen (bind_pairs f) in if decide (n = 1) then 0 else n);
  wf_packed : Forall (λ i, 0 ≤ i < sum_in (coders f)) (packed_indices f)
}.

Lemma add_coder_inv self s i o c :
  FolderStreamCounts_add_coder self s i o = Ok c →
  inputs c = inputs self + i ∧ outputs c = outputs self + o ∧
  inputs c ≤ MAX_FOLDER_STREAMS ∧ outputs c ≤ MAX_FOLDER_STREAMS.
Proof.
  unfold FolderStreamCounts_add_coder, checked_add.
  repeat (case_decide; cbn; [|done]). case_decide; [done|]. intros [= <-]; cbn. lia.
Qed.

Lemma layout_inv self s b p :
  FolderStreamCounts_layout self s = Ok (b, p) →
  1 ≤ outputs self ∧ b = outputs self - 1 ∧ b ≤ inputs self ∧ p = inputs self - b.
Proof.
  unfold FolderStreamCounts_layout, checked_sub.
  repeat (case_decide; cbn; [|done]). intros [= <- <-]. lia.
Qed.

Lemma layout_err self s e : FolderStreamCounts_layout self s = Err e → e = NomFailure s Verify.
Proof.
  unfold FolderStreamCounts_layout, checked_sub.
  repeat (case_decide; cbn; [|congruence]). congruence.
Qed.

(** The loop invariants. *)
Lemma coder_loop_inv `{Nom} n s r cs counts :
  byte_slice s →
  repeat_nat parse_coder_step n (s, ([], FolderStreamCounts_default)) = Ok (r, (cs, counts)) →
  byte_slice r ∧ length cs = n ∧ Forall coder_wf cs ∧
  counts = {| inputs := sum_in cs; outputs := sum_out cs |} ∧
  sum_in cs ≤ MAX_FOLDER_STREAMS ∧ sum_out cs ≤ MAX_FOLDER_STREAMS.
Proof.
  intros Hs Hr.
  apply (repeat_nat_ind _ (λ j '(r, (cs, counts)),
    byte_slice r ∧ length cs = j ∧ Forall coder_wf cs ∧
    counts = {| inputs := sum_in cs; outputs := sum_out cs |} ∧
    sum_in cs ≤ MAX_FOLDER_STREAMS ∧ sum_out cs ≤ MAX_FOLDER_STREAMS)) with (i := 0%nat) in Hr;
    [done| |done].
  clear. intros j [s [cs counts]] [s' [cs' counts']] (Hs & Hl & Hwf & -> & Hi & Ho) Hf.
  unfold parse_coder_step in Hf.
  destruct (CoderInfo_parse s) as [[i c]|] eqn:Ec; [|done].
  destruct (FolderStreamCounts_add_coder _ _ _ _) as [k|] eqn:Ek; [|done].
  injection Hf as <- <- <-. apply add_coder_inv in Ek as (Hki & Hko & ? & ?).
  cbn in Hki, Hko. destruct k as [ki ko]; cbn in *. subst ki ko.
  pose proof (CoderInfo_parse_wf _ _ _ Hs Ec).
  rewrite length_app, sum_in_app, sum_out_app, Forall_app, Forall_singleton. cbn.
  rewrite !Z.add_0_r. split_and!; try done; [|lia].
  by eapply parses_byte_slice; [apply CoderInfo_parse_tail| |].
Qed.

Lemma checked_stream_index_ok s i t u : checked_stream_index s i t = Ok u → i < t.
Proof. unfold checked_stream_index. by case_decide. Qed.

Lemma bind_loop_inv counts n s r ps :
  byte_slice s → repeat_nat (parse_bind_step counts) n (s, []) = Ok (r, ps) →
  byte_slice r ∧ length ps = n ∧
  Forall (λ p, 0 ≤ fst p < inputs counts ∧ 0 ≤ snd p < outputs counts) ps.
Proof.
  intros Hs Hr.
  apply (repeat_nat_ind _ (λ j '(r, ps), byte_slice r ∧ length ps = j ∧
    Forall (λ p, 0 ≤ fst p < inputs counts ∧ 0 ≤ snd p < outputs counts) ps))
    with (i := 0%nat) in Hr; [done| |done].
  clear. intros j [s ps] [s' ps'] (Hs & Hl & Hwf) Hf. unfold parse_bind_step in Hf.
  destruct (sevenzip_varuint64_decode s) as [[i x]|] eqn:Ex; [|done].
  apply varuint_decode_u64 in Ex as [[Hx _] Hi]; [|done].
  destruct (checked_stream_index i x _) as [u|] eqn:Eu; [|done].
  destruct (sevenzip_varuint64_decode i) as [[k y]|] eqn:Ey; [|done].
  apply varuint_decode_u64 in Ey as [[Hy _] Hk]; [|done].
  destruct (checked_stream_index k y _) as [u'|] eqn:Eu'; [|done].
  injection Hf as <- <-. apply checked_stream_index_ok in Eu, Eu'.
  rewrite length_app, Forall_app, Forall_singleton. cbn. split_and!; try done. lia.
Qed.

Lemma packed_loop_inv counts n s r ps :
  byte_slice s → repeat_nat (parse_packed_step counts) n (s, []) = Ok (r, ps) →
  byte_slice r ∧ length ps = n ∧ Forall (λ i, 0 ≤ i < inputs counts) ps.
Proof.
  intros Hs Hr.
  apply (repeat_nat_ind _ (λ j '(r, ps), byte_slice r ∧ length ps = j ∧
    Forall (λ i, 0 ≤ i < inputs counts) ps)) with (i := 0%nat) in Hr; [done| |done].
  clear. intros j [s ps] [s' ps'] (Hs & Hl & Hwf) Hf. unfold parse_packed_step in Hf.
  destruct (sevenzip_varuint64_decode s) as [[i x]|] eqn:Ex; [|done].
  apply varuint_decode_u64 in Ex as [[Hx _] Hi]; [|done].
  destruct (checked_stream_index i x _) as [u|] eqn:Eu; [|done].
  injection Hf as <- <-. apply checked_stream_index_ok in Eu.
  rewrite length_app, Forall_app, Forall_singleton. cbn. split_and!; try done. lia.
Qed.

Lemma checked_coder_count_ok s n m :
  checked_coder_count s n = Ok m → m = n ∧ 1 ≤ n ≤ MAX_FOLDER_STREAMS.
Proof.
  unfold checked_coder_count, usize_try_from. case_decide; cbn; [|done].
  case_decide; [|done]. by intros [= <-].
Qed.

Lemma Folder_parse_wf `{Nom} s r f :
  byte_slice s → Folder_parse s = Ok (r, f) → folder_wf f ∧ byte_slice r.
Proof.
  intros Hs Hp. split; [|by eapply parses_byte_slice; [apply Folder_parse_tail| |]].
  unfold Folder_parse in Hp.
  destruct (sevenzip_varuint64_decode s) as [[s1 n]|] eqn:En; [|done].
  apply varuint_decode_u64 in En as [_ Hs1]; [|done].
  destruct (checked_coder_count s1 n) as [n'|] eqn:En'; [|done].
  apply checked_coder_count_ok in En' as [-> Hn]. rewrite repeat_n_nat in Hp.
  destruct (repeat_nat parse_coder_step _ _) as [[s2 [cs counts]]|] eqn:Ec; [|done].
  apply coder_loop_inv in Ec as (Hs2 & Hlen & Hcs & -> & Hin & Hout); [|done].
  destruct (FolderStreamCounts_layout _ s2) as [[nb np]|] eqn:El; [|done].
  apply layout_inv in El as (Ho1 & -> & Hle & ->). cbn in *. rewrite repeat_n_nat in Hp.
  destruct (repeat_nat (parse_bind_step _) _ _) as [[s3 bps]|] eqn:Eb; [|done].
  apply bind_loop_inv in Eb as (Hs3 & Hlb & Hb); [|done]. cbn in Hb.
  destruct (if decide _ then _ else _) as [[s4 pk]|] eqn:Ep; [|done].
  assert (zlen pk = (let n := sum_in cs - zlen bps in if decide (n = 1) then 0 else n) ∧
    Forall (λ i, 0 ≤ i < sum_in cs) pk) as [Hpl Hpk].
  { cbn zeta. unfold zlen. rewrite Hlb. destruct (decide (_ ≠ 1)).
    - rewrite repeat_n_nat in Ep. apply packed_loop_inv in Ep as (_ & -> & Hpk); [|done].
      rewrite decide_False by lia. split; [lia|done].
    - injection Ep as <- <-. by rewrite decide_True by lia. }
  injection Hp as <- <-.
  split; cbn [coders bind_pairs packed_indices]; try done; unfold zlen; lia.
Qed.

(** No overflow and no panic in [total_out_streams] of a parsed folder. *)
Lemma total_out_streams_sum f :
  Forall coder_wf (coders f) → sum_out (coders f) ≤ MAX_FOLDER_STREAMS →
  Folder_total_out_streams f = Some (sum_out (coders f)).
Proof.
  unfold Folder_total_out_streams. intros Hwf.
  change (sum_out (coders f)) with (0 + sum_out (coders f)) at 2.
  assert (0 ≤ 0) as H0 by lia. revert H0.
  replace (sum_out (coders f) ≤ MAX_FOLDER_STREAMS)
    with (0 + sum_out (coders f) ≤ MAX_FOLDER_STREAMS) by (f_equal; lia).
  generalize 0 as acc. induction Hwf as [|c cs Hc Hcs IH]; cbn; intros acc H0 Hb.
  { f_equal. lia. }
  assert (0 ≤ sum_out cs).
  { clear -Hcs. induction Hcs as [|d ds [_ _ _ Hd _] _ IH]; cbn; [done|].
    unfold is_u64 in Hd. unfold sum_out in IH. lia. }
  destruct Hc as [_ _ _ Hc _]. unfold is_u64, MAX_FOLDER_STREAMS, sum_out in *.
  unfold usize_try_from. rewrite decide_True by lia. cbn.
  unfold checked_add at 2. rewrite decide_True by lia. rewrite IH by lia.
  f_equal. lia.
Qed.

(** ** Lemmas: the scanner is the parser, erased *)

Lemma scan_coder_step_erase `{Nom} st :
  result_map (λ '(r, (_, counts)), (r, counts)) (parse_coder_step st) =
  scan_coder_step (let '(r, (_, counts)) := st in (r, counts)).
Proof.
  destruct st as [s [cs counts]]. unfold parse_coder_step, scan_coder_step.
  rewrite CoderInfo_parse_ref. destruct (CoderInfoRef_parse s) as [[r c]|]; cbn; [|done].
  by destruct (FolderStreamCounts_add_coder _ _ _ _).
Qed.

Lemma scan_bind_step_erase counts st :
  result_map (λ '(r, _), (r, tt)) (parse_bind_step counts st) =
  scan_bind_step counts (let '(r, _) := st in (r, tt)).
Proof.
  destruct st as [s ps]. unfold parse_bind_step, scan_bind_step.
  destruct (sevenzip_varuint64_decode s) as [[i x]|]; cbn; [|done].
  destruct (checked_stream_index _ _ _); cbn; [|done].
  destruct (sevenzip_varuint64_decode i) as [[k y]|]; cbn; [|done].
  by destruct (checked_stream_index _ _ _).
Qed.

Lemma scan_packed_step_erase counts st :
  result_map (λ '(r, _), (r, tt)) (parse_packed_step counts st) =
  scan_packed_step counts (let '(r, _) := st in (r, tt)).
Proof.
  destruct st as [s ps]. unfold parse_packed_step, scan_packed_step.
  destruct (sevenzip_varuint64_decode s) as [[i x]|]; cbn; [|done].
  by destruct (checked_stream_index _ _ _).
Qed.

Lemma coder_loop_counts `{Nom} n s r cs counts :
  repeat_n n parse_coder_step (s, ([], FolderStreamCounts_default)) = Ok (r, (cs, counts)) →
  counts = {| inputs := sum_in cs; outputs := sum_out cs |}.
Proof.
  rewrite repeat_n_nat. intros Hr.
  apply (repeat_nat_ind _ (λ j '(r, (cs, counts)),
    counts = {| inputs := sum_in cs; outputs := sum_out cs |})) with (i := 0%nat) in Hr;
    [done| |done].
  clear. intros j [s [cs counts]] [s' [cs' counts']] -> Hf. unfold parse_coder_step in Hf.
  destruct (CoderInfo_parse s) as [[i c]|] eqn:Ec; [|done].
  destruct (FolderStreamCounts_add_coder _ _ _ _) as [k|] eqn:Ek; [|done].
  injection Hf as <- <- <-. apply add_coder_inv in Ek as (Hki & Hko & _).
  destruct k as [ki ko]. cbn in Hki, Hko. subst ki ko.
  rewrite sum_in_app, sum_out_app. unfold sum_in at 3, sum_out at 3. cbn.
  by rewrite !Z.add_0_r.
Qed.

Lemma scan_folder_erase `{Nom} s :
  scan_folder s =
    (let? (r, f) := Folder_parse s in
     let? t := ok_or (usize_try_from (sum_out (coders f))) (NomError r TooLarge) in
     Ok (r, t)).
Proof.
  unfold scan_folder, Folder_parse.
  destruct (sevenzip_varuint64_decode s) as [[s1 n]|]; [|done].
  destruct (checked_coder_count s1 n) as [n'|]; [|done].
  pose proof (repeat_n_erase n' _ _ _ (s1, ([], FolderStreamCounts_default))
    scan_coder_step_erase) as Hc. cbn beta iota in Hc. rewrite <- Hc. clear Hc.
  destruct (repeat_n _ parse_coder_step _) as [[s2 [cs counts]]|] eqn:Ec; [|done].
  apply coder_loop_counts in Ec. cbn [result_map].
  destruct (FolderStreamCounts_layout _ s2) as [[nb np]|]; [|done].
  pose proof (repeat_n_erase nb _ _ _ (s2, []) (scan_bind_step_erase counts)) as Hb.
  cbn beta iota in Hb. rewrite <- Hb. clear Hb.
  destruct (repeat_n nb _ _) as [[s3 bps]|]; [|done]. cbn [result_map].
  pose proof (repeat_n_erase np _ _ _ (s3, []) (scan_packed_step_erase counts)) as Hk.
  cbn beta iota in Hk. rewrite <- Hk. clear Hk. subst counts.
  case_decide; [|done]. by destruct (repeat_n np _ _) as [[s4 pk]|].
Qed.

(** [scan_folder] accepts, rejects and consumes exactly as [Folder::parse], and
    returns its output stream count. *)
Lemma scan_folder_parse `{Nom} s :
  byte_slice s →
  match Folder_parse s with
  | Ok (r, f) => ∃ t, Folder_total_out_streams f = Some t ∧ scan_folder s = Ok (r, t)
  | Err e => scan_folder s = Err e
  end.
Proof.
  intros Hs. rewrite scan_folder_erase. destruct (Folder_parse s) as [[r f]|e] eqn:Ep; [|done].
  apply Folder_parse_wf in Ep as [Hwf _]; [|done]. exists (sum_out (coders f)).
  split; [apply total_out_streams_sum; apply Hwf|].
  pose proof (wf_outputs f Hwf) as Ho. unfold MAX_FOLDER_STREAMS in Ho.
  unfold usize_try_from. by rewrite decide_True by lia.
Qed.

(** ** Lemmas: locality *)

Lemma result_ok_checked_stream_index s t i n :
  result_ok (checked_stream_index s i n) = result_ok (checked_stream_index t i n).
Proof. unfold checked_stream_index. by case_decide. Qed.

Lemma result_ok_checked_coder_count s t n :
  result_ok (checked_coder_count s n) = result_ok (checked_coder_count t n).
Proof.
  unfold checked_coder_count. destruct (usize_try_from n); cbn; [|done]. by case_decide.
Qed.

Lemma result_ok_add_coder c s t i o :
  result_ok (FolderStreamCounts_add_coder c s i o) =
  result_ok (FolderStreamCounts_add_coder c t i o).
Proof.
  unfold FolderStreamCounts_add_coder. destruct (checked_add _ _); cbn; [|done].
  destruct (checked_add _ _); cbn; [|done]. by case_decide.
Qed.

Lemma result_ok_layout c s t :
  result_ok (FolderStreamCounts_layout c s) = result_ok (FolderStreamCounts_layout c t).
Proof.
  unfold FolderStreamCounts_layout. destruct (checked_sub _ _); cbn; [|done].
  by destruct (checked_sub _ _).
Qed.

(** [Folder::parse] depends on the bytes it consumes only. *)
Lemma Folder_parse_local `{Nom} : local Folder_parse.
Proof.
  unfold Folder_parse. eapply local2_bind; [apply varuint_decode_local|]. intros n ? <-.
  apply local2_result; [intros; apply result_ok_checked_coder_count|]. intros n'.
  eapply local2_bind.
  { apply (repeat_n_local2 eq); [|done]. intros [cs counts] ? <-. unfold parse_coder_step.
    eapply local2_bind; [apply CoderInfo_parse_local|]. intros c ? <-.
    apply local2_result; [intros; apply result_ok_add_coder|]. intros. by apply local2_ret. }
  intros [cs counts] ? <-.
  apply local2_result; [intros; apply result_ok_layout|]. intros [nb np].
  eapply local2_bind.
  { apply (repeat_n_local2 eq); [|done]. intros l ? <-. unfold parse_bind_step.
    eapply local2_bind; [apply varuint_decode_local|]. intros a ? <-.
    apply local2_result; [intros; apply result_ok_checked_stream_index|]. intros _.
    eapply local2_bind; [apply varuint_decode_local|]. intros b ? <-.
    apply local2_result; [intros; apply result_ok_checked_stream_index|]. intros _.
    by apply local2_ret. }
  intros bps ? <-. eapply local2_bind with (R := eq); [|intros pk ? <-; by apply local2_ret].
  case_decide; [|by apply local2_ret].
  apply (repeat_n_local2 eq); [|done]. intros l ? <-. unfold parse_packed_step.
  eapply local2_bind; [apply varuint_decode_local|]. intros a ? <-.
  apply local2_result; [intros; apply result_ok_checked_stream_index|]. intros _.
  by apply local2_ret.
Qed.

(** ** Properties *)

(** C39. What [Folder::parse] accepts of any bytes is well formed, and what follows it is left:
    between one and 16,384 coders with ids of at most fifteen bytes and streams within the
    limit, one bind pair less than outputs and no more than inputs, every stream index in
    range, and as many packed indices as there are more inputs than bind pairs, or none
    where that is one. *)
Theorem parsed_folder_well_formed `{Nom} s r f :
  byte_slice s → Folder_parse s = Ok (r, f) → folder_wf f ∧ suffix_of r s.
Proof.
  intros Hs Hp. split; [by eapply Folder_parse_wf|].
  pose proof (Folder_parse_tail s) as Ht. by rewrite Hp in Ht.
Qed.

(** The allocation-free folder scan accepts exactly the blocks the parser
    accepts, leaves the same rest and counts the outputs of the parsed folder. *)
Theorem folder_scan_matches_parse `{Nom} s :
  byte_slice s →
  match Folder_parse s with
  | Ok (r, f) => ∃ t, Folder_total_out_streams f = Some t ∧ scan_folder s = Ok (r, t)
  | Err e => scan_folder s = Err e
  end.
Proof. apply scan_folder_parse. Qed.

(** ** Witnesses *)

(** A two-coder folder: LZMA2 with a property byte, then BCJ. *)
Definition sample_folder_block : slice :=
  Slice 0 [2; 33; 33; 1; 24; 4; 3; 3; 1; 3; 1; 0; 99].
Definition sample_folder_parsed : Folder :=
  {| coders := [ {| codec_id := [33]; num_in_streams := 1; num_out_streams := 1;
                    properties := Some [24] |};
                 {| codec_id := [3; 3; 1; 3]; num_in_streams := 1; num_out_streams := 1;
                    properties := None |} ];
     bind_pairs := [(1, 0)]; packed_indices := [] |}.

Lemma parsed_folder_well_formed_witness :
  folder_wf sample_folder_parsed ∧ suffix_of (Slice 12 [99]) sample_folder_block.
Proof.
  apply (parsed_folder_well_formed sample_folder_block (Slice 12 [99]) sample_folder_parsed).
  - repeat constructor; vm_compute; done.
  - vm_compute. reflexivity.
Defined.

Lemma folder_scan_matches_parse_witness :
  scan_folder sample_folder_block = Ok (Slice 12 [99], 2).
Proof.
  pose proof (folder_scan_matches_parse sample_folder_block) as Hs.
  assert (Folder_parse sample_folder_block = Ok (Slice 12 [99], sample_folder_parsed)) as E
    by (vm_compute; reflexivity).
  rewrite E in Hs. destruct Hs as (t & Ht & Hscan).
  - repeat constructor; vm_compute; done.
  - vm_compute in Ht. injection Ht as <-. exact Hscan.
Defined.
