(* ===== verification/Error.v ===== *)
(** * Errors (src/src/error.rs)

    [R7zError], the error type of everything above the block parsers. *)

From stdpp Require Import base numbers list option strings.
From S2P Require Import Prelude.

(** [std::io::ErrorKind], the kinds the code looks at or makes. *)
Inductive IoErrorKind := Interrupted | UnexpectedEof | InvalidData | NotFound | AlreadyExists | OtherKind.

(** The last two errors are not values of the code: [R7zOutOfFuel] marks a model
    loop cut short and [R7zPanic] a panic (a failed [expect], an arithmetic
    overflow, a slice out of range); the model comes with proofs that neither is
    returned. A [std::io::Error] is a kind with a message, or wraps the marker of a
    cancelled read, that of a cancelled encoder ([lzma_rust2::EncoderCancelled]) or another
    error of the crate. *)
Inductive R7zError :=
| Cancelled
| Parse
| InvalidFolderGraph
| ArchiveMismatch
| InvalidRawFolderLayout
| InvalidProperty (tag : Z)
| UnsupportedCodec (id : bytes)
| Crc
| Io (error : IoError)
| Decompression
| PasswordRequired
| WrongPassword
| UnsafePath (path : bytes)
| EntryNotFound (name : bytes)
| Directory
| InvalidOptions (what : string)
| LimitExceeded (what : string)
| ResourceLimitExceeded (resource : string) (limit : Z)
| R7zOutOfFuel
| R7zPanic
with IoError :=
| IoKind (kind : IoErrorKind) (message : string)
| IoCancelledRead
| IoEncoderCancelled
| IoOther (error : R7zError).

#[global] Instance IoErrorKind_eq_dec : EqDecision IoErrorKind.
Proof. solve_decision. Defined.

Ltac decide_args :=
  match goal with
  | |- Decision (?c ?x1 ?x2 = ?c ?y1 ?y2) =>
      destruct (decide (x1 = y1)); [|right; congruence];
      destruct (decide (x2 = y2)); [left; congruence|right; congruence]
  | |- Decision (?c ?x = ?c ?y) => destruct (decide (x = y)); [left|right]; congruence
  end.

Fixpoint R7zError_dec (a b : R7zError) {struct a} : Decision (a = b)
with IoError_dec (a b : IoError) {struct a} : Decision (a = b).
Proof.
  - destruct a, b; try (right; discriminate); try (left; reflexivity);
      lazymatch goal with
      | |- Decision (Io ?x = Io ?y) => destruct (IoError_dec x y); [left|right]; congruence
      | _ => decide_args
      end.
  - destruct a, b; try (right; discriminate); try (left; reflexivity);
      lazymatch goal with
      | |- Decision (IoOther ?x = IoOther ?y) => destruct (R7zError_dec x y); [left|right]; congruence
      | _ => decide_args
      end.
Defined.
#[global] Instance R7zError_eq_dec : EqDecision R7zError := R7zError_dec.
#[global] Instance IoError_eq_dec : EqDecision IoError := IoError_dec.

(** [impl From<std::io::Error> for R7zError]. *)
Definition R7zError_from (error : IoError) : R7zError :=
  match error with IoCancelledRead => Cancelled | error => Io error end.

(** [std::io::Error::kind]: a wrapping error is of kind [Other]. *)
Definition IoError_kind (error : IoError) : IoErrorKind :=
  match error with IoKind kind _ => kind | _ => OtherKind end.

(** The result is one the code returns: no panic, and no loop cut short. *)
Definition returns {A} (r : result A R7zError) : Prop :=
  match r with
  | Ok _ => True
  | Err e => e ≠ R7zOutOfFuel ∧ e ≠ R7zPanic
  end.

Lemma returns_bind {A B} (r : result A R7zError) (k : A → result B R7zError) :
  returns r → (∀ a, r = Ok a → returns (k a)) → returns (let? a := r in k a).
Proof. destruct r; cbn; auto. Qed.

Lemma returns_ok_or {A} (o : option A) e :
  e ≠ R7zOutOfFuel → e ≠ R7zPanic → returns (ok_or o e).
Proof. by destruct o. Qed.

(** Take the binds of a goal apart; the equations of the steps are kept. *)
Ltac returns_step :=
  match goal with
  | |- returns (Ok _) => exact I
  | |- returns (Err _) => split; discriminate
  | |- returns (ok_or _ _) => apply returns_ok_or; discriminate
  | |- returns (match ?e with Ok _ => _ | Err _ => _ end) =>
      let H := fresh "E" in
      apply (returns_bind e); [|intros ? H]
  | |- returns (if ?b then _ else _) => destruct b
  | |- returns (let '(_, _) := ?x in _) => destruct x
  | |- returns (match ?x with Some _ => _ | None => _ end) => destruct x eqn:?
  | |- returns (match ?x with nil => _ | cons _ _ => _ end) => destruct x eqn:?
  end.
