(* ===== verification/Operation.v ===== *)
(** * Progress and cancellation (src/src/operation.rs)

    The cooperative control of one archive operation, the readers it steers, and
    the errors that carry a cancellation through [std::io]. *)

From stdpp Require Import base numbers list option strings.
From Stdlib Require Import ZArith Lia.
From S2P Require Import Prelude Error.

Definition CHECK_INTERVAL : Z := 64 * 1024.

Inductive OperationPhase := PhaseRead | PhaseWrite | PhaseCopyOutput.

(** What a read session has verified. *)
Inductive ReadVerification := CompleteFolders | SelectedEntries | Incomplete.

Definition ReadVerification_combine (self other : ReadVerification) : ReadVerification :=
  match self, other with
  | Incomplete, _ | _, Incomplete => Incomplete
  | SelectedEntries, _ | _, SelectedEntries => SelectedEntries
  | CompleteFolders, CompleteFolders => CompleteFolders
  end.

(** The cancellation flag is shared with other threads: [ct_others k] says whether
    one of them has set it by the time of the [k]-th load. A flag once seen stays
    set. The progress callback says whether it breaks; the count it is given grows
    with every call, so a function of the report covers a callback with state. *)
Record OperationControl := {
  ct_cancelled : bool;
  ct_progress : option (OperationPhase → Z → bool);
  ct_others : nat → bool;
  ct_loads : nat
}.

Definition OperationControl_cancel (self : OperationControl) : OperationControl :=
  {| ct_cancelled := true; ct_progress := ct_progress self;
     ct_others := ct_others self; ct_loads := ct_loads self |}.

Definition OperationControl_is_cancelled (self : OperationControl) : bool * OperationControl :=
  let cancelled := ct_cancelled self || ct_others self (ct_loads self) in
  (cancelled, {| ct_cancelled := cancelled; ct_progress := ct_progress self;
                 ct_others := ct_others self; ct_loads := S (ct_loads self) |}).

Definition OperationControl_check (self : OperationControl) :
    result unit R7zError * OperationControl :=
  let '(cancelled, self) := OperationControl_is_cancelled self in
  (if cancelled then Err Cancelled else Ok tt, self).

Record OperationMonitor := {
  om_phase : OperationPhase;
  om_control : option OperationControl;
  om_processed : Z;
  om_reported : Z
}.

Definition OperationMonitor_new (control : option OperationControl) : OperationMonitor :=
  {| om_phase := PhaseRead; om_control := control; om_processed := 0; om_reported := 0 |}.
Definition OperationMonitor_default : OperationMonitor := OperationMonitor_new None.

Definition set_control (self : OperationMonitor) (control : OperationControl) : OperationMonitor :=
  {| om_phase := om_phase self; om_control := Some control;
     om_processed := om_processed self; om_reported := om_reported self |}.
Definition set_counts (self : OperationMonitor) (processed reported : Z) : OperationMonitor :=
  {| om_phase := om_phase self; om_control := om_control self;
     om_processed := processed; om_reported := reported |}.

Definition OperationMonitor_for_phase (self : OperationMonitor) (phase : OperationPhase) :
    OperationMonitor :=
  {| om_phase := phase; om_control := om_control self;
     om_processed := om_processed self; om_reported := om_reported self |}.

Definition OperationMonitor_check (self : OperationMonitor) :
    result unit R7zError * OperationMonitor :=
  match om_control self with
  | None => (Ok tt, self)
  | Some control =>
      let '(checked, control) := OperationControl_check control in
      (checked, set_control self control)
  end.

Definition OperationMonitor_buffer_size (self : OperationMonitor) (requested : Z) : Z :=
  match om_control self with
  | Some _ => Z.min requested CHECK_INTERVAL
  | None => requested
  end.

(** [self.processed - self.reported] cannot underflow: [monitor_ok]. *)
Definition OperationMonitor_advance (self : OperationMonitor) (n : Z) :
    result unit R7zError * OperationMonitor :=
  match om_control self with
  | None => (Ok tt, self)
  | Some control =>
      let processed := saturating_add (om_processed self) n in
      let due := bool_decide (CHECK_INTERVAL ≤ processed - om_reported self) in
      let reported := if due then processed else om_reported self in
      let broken := due && match ct_progress control with
                           | Some callback => callback (om_phase self) processed
                           | None => false
                           end in
      let control := if broken then OperationControl_cancel control else control in
      let '(checked, control) := OperationControl_check control in
      (checked, set_control (set_counts self processed reported) control)
  end.

(** ** Errors through [std::io] *)

Definition read_io_error (error : R7zError) : IoError :=
  match error with Cancelled => IoCancelledRead | error => IoOther error end.

Definition restore_callback_error (error : R7zError) : R7zError :=
  match error with Io IoCancelledRead => Cancelled | error => error end.

Definition restore_read_error (error : IoError) : R7zError :=
  match error with
  | IoCancelledRead => Cancelled
  | IoOther error => error
  | error => Io error
  end.

(** ** Readers *)

(** [std::io::Read] over a state: a buffer length gives the bytes put into it. *)
Class Reader (S : Type) := reader_read : S → Z → result bytes IoError * S.

(** The contract of [Read::read]: no more bytes than the buffer holds. *)
Definition reader_ok (S : Type) `{Reader S} : Prop :=
  ∀ s n c s', 0 ≤ n → reader_read s n = (Ok c, s') → zlen c ≤ n.

(** The bytes a reader gives over some calls, failed ones included. *)
Inductive yields {S : Type} `{Reader S} : S → bytes → S → Prop :=
| yields_none s : yields s [] s
| yields_some s n c s1 d s2 :
    0 < n → reader_read s n = (Ok c, s1) → yields s1 d s2 → yields s (c ++ d) s2
| yields_err s n e s1 d s2 :
    0 < n → reader_read s n = (Err e, s1) → yields s1 d s2 → yields s d s2.

Definition OperationMonitor_read {S : Type} `{Reader S} (self : OperationMonitor) (reader : S)
    (buffer : Z) : result bytes R7zError * OperationMonitor * S :=
  match OperationMonitor_check self with
  | (Err e, self) => (Err e, self, reader)
  | (Ok _, self) =>
      match reader_read reader (OperationMonitor_buffer_size self buffer) with
      | (Err e, reader) => (Err (restore_read_error e), self, reader)
      | (Ok chunk, reader) =>
          let '(advanced, self) := OperationMonitor_advance self (zlen chunk) in
          (let? _ := advanced in Ok chunk, self, reader)
      end
  end.

(** ** Lemmas *)

Lemma yields_app {S : Type} `{Reader S} (s s1 s2 : S) d1 d2 :
  yields s d1 s1 → yields s1 d2 s2 → yields s (d1 ++ d2) s2.
Proof.
  induction 1; intros; [done| |].
  - rewrite <- app_assoc. eapply yields_some; eauto.
  - eapply yields_err; eauto.
Qed.

Lemma yields_one {S : Type} `{Reader S} (s s1 : S) n c :
  0 < n → reader_read s n = (Ok c, s1) → yields s c s1.
Proof. intros. rewrite <- (app_nil_r c). by eapply yields_some; [| |constructor]. Qed.

Lemma yields_fail {S : Type} `{Reader S} (s s1 : S) n e :
  0 < n → reader_read s n = (Err e, s1) → yields s [] s1.
Proof. intros. by eapply yields_err; [| |constructor]. Qed.

(** A cancellation that leaves a reader as an I/O error is the cancellation again. *)
Lemma read_error_restored e :
  (∀ x, e ≠ Io x) → restore_read_error (read_io_error e) = e ∧
  R7zError_from (read_io_error e) = match e with Cancelled => Cancelled | _ => Io (IoOther e) end.
Proof. intros H. split; by destruct e. Qed.

Record monitor_ok (m : OperationMonitor) : Prop := {
  mo_reported : 0 ≤ om_reported m;
  mo_processed : om_reported m ≤ om_processed m ≤ u64_max
}.

Lemma monitor_check_ok m r m' :
  monitor_ok m → OperationMonitor_check m = (r, m') → monitor_ok m'.
Proof.
  intros [Hr Hp]. unfold OperationMonitor_check. destruct (om_control m); [|by intros [= <- <-]].
  destruct (OperationControl_check _). by intros [= <- <-].
Qed.

(** At most one report per [CHECK_INTERVAL] bytes, and what is unreported stays
    below it. *)
Lemma monitor_advance_ok m n r m' :
  monitor_ok m → 0 ≤ n → OperationMonitor_advance m n = (r, m') →
  monitor_ok m' ∧
  (om_control m ≠ None → om_processed m' - om_reported m' < CHECK_INTERVAL) ∧
  (om_reported m' ≠ om_reported m →
     om_reported m + CHECK_INTERVAL ≤ om_reported m' ∧ om_reported m' = om_processed m').
Proof.
  intros [Hr Hp] Hn. unfold OperationMonitor_advance. destruct (om_control m) as [c|] eqn:Ec.
  2:{ intros [= <- <-]. done. }
  destruct (OperationControl_check _) as [ch c']. intros [= <- <-]. cbn.
  unfold saturating_add. case_bool_decide as Hd; unfold CHECK_INTERVAL in *; split; try split; cbn; lia.
Qed.

(** Once cancelled, an operation stays cancelled. *)
Lemma cancelled_sticky m m' :
  OperationMonitor_check m = (Err Cancelled, m') →
  ∃ m'', OperationMonitor_check m' = (Err Cancelled, m'').
Proof.
  unfold OperationMonitor_check, OperationControl_check, OperationControl_is_cancelled.
  destruct (om_control m) as [c|]; [|done]. destruct (ct_cancelled c || _) eqn:E; [|done].
  intros [= <-]. cbn. eexists. reflexivity.
Qed.
