(* ===== verification/Readers.v ===== *)
(** * Readers and what they deliver

    The loops of [std::io] the program drives its readers with, and the abstract
    specification of a reader: it [delivers] a sequence of bytes, whatever the
    buffer lengths it is asked for, however short its reads, and with at most [m]
    interruptions. The readers of the program are proved to deliver the transform
    of what their inner reader delivers, so chains of them compose. *)

From stdpp Require Import base numbers list option strings.
From Stdlib Require Import ZArith Lia.
From S2P Require Import Prelude Error Operation.

(** ** The loops of the standard library *)

Definition interrupted (e : IoError) : bool := bool_decide (IoError_kind e = Interrupted).

(** The marker of a loop cut short. *)
Definition io_out_of_fuel : IoError := IoOther R7zOutOfFuel.

Section loops.
  Context {S : Type} `{Reader S}.

(** One read, retried while interrupted. *)
Fixpoint read_retry (fuel : nat) (reader : S) (n : Z) : result bytes IoError * S :=
  match fuel with
  | O => (Err io_out_of_fuel, reader)
  | Datatypes.S fuel =>
      match reader_read reader n with
      | (Err e, reader) => if interrupted e then read_retry fuel reader n else (Err e, reader)
      | (Ok chunk, reader) => (Ok chunk, reader)
      end
  end.

(** [Read::read_exact]. *)
Fixpoint read_exact (fuel : nat) (reader : S) (n : Z) (acc : bytes) : result bytes IoError * S :=
  match fuel with
  | O => (Err io_out_of_fuel, reader)
  | Datatypes.S fuel =>
      if decide (n ≤ 0) then (Ok acc, reader) else
      match reader_read reader n with
      | (Ok [], reader) => (Err (IoKind UnexpectedEof "failed to fill whole buffer"), reader)
      | (Ok chunk, reader) => read_exact fuel reader (n - zlen chunk) (acc ++ chunk)
      | (Err e, reader) => if interrupted e then read_exact fuel reader n acc else (Err e, reader)
      end
  end.

(** [Read::read_to_end], with the buffer lengths the library chooses. *)
Fixpoint read_to_end (fuel : nat) (sizes : nat → Z) (reader : S) (acc : bytes) :
    result bytes IoError * S :=
  match fuel with
  | O => (Err io_out_of_fuel, reader)
  | Datatypes.S fuel =>
      match reader_read reader (sizes fuel) with
      | (Ok [], reader) => (Ok acc, reader)
      | (Ok chunk, reader) => read_to_end fuel sizes reader (acc ++ chunk)
      | (Err e, reader) => if interrupted e then read_to_end fuel sizes reader acc else (Err e, reader)
      end
  end.

End loops.

(** [std::io::Take]. *)
Record Take (S : Type) := { tk_inner : S; tk_limit : Z }.
Arguments tk_inner {S}. Arguments tk_limit {S}.

#[global] Instance Take_read {S} `{Reader S} : Reader (Take S) := λ self n,
  if decide (tk_limit self = 0) then (Ok [], self) else
  match reader_read (tk_inner self) (Z.min n (tk_limit self)) with
  | (Ok chunk, inner) =>
      (Ok chunk, {| tk_inner := inner; tk_limit := tk_limit self - zlen chunk |})
  | (Err e, inner) => (Err e, {| tk_inner := inner; tk_limit := tk_limit self |})
  end.

(** ** The specification *)

(** What one read of [n > 0] bytes may do to a reader that still has [data] to give:
    give a part of it, none only at the end, or be interrupted. *)
Inductive read_step {S : Type} `{Reader S} (I : nat → S → bytes → Prop) (m : nat) (s : S)
    (data : bytes) (n : Z) : Prop :=
| read_gives c rest s' m' :
    reader_read s n = (Ok c, s') → zlen c ≤ n → data = c ++ rest → (c = [] → data = []) →
    (m' ≤ m)%nat → I m' s' rest → read_step I m s data n
| read_interrupted e s' m' :
    reader_read s n = (Err e, s') → interrupted e = true → (m' < m)%nat → I m' s' data →
    read_step I m s data n.

Definition reader_inv {S : Type} `{Reader S} (I : nat → S → bytes → Prop) : Prop :=
  ∀ m s data n, I m s data → 0 < n → read_step I m s data n.

(** The greatest such relation. *)
Definition delivers {S : Type} `{Reader S} (m : nat) (s : S) (data : bytes) : Prop :=
  ∃ I, reader_inv I ∧ I m s data.

Section delivers.
  Context {S : Type} `{Reader S}.
  Implicit Types s : S.

Lemma read_step_mono (I J : nat → S → bytes → Prop) m s data n :
  (∀ m s d, I m s d → J m s d) → read_step I m s data n → read_step J m s data n.
Proof. intros HIJ []; [eapply read_gives|eapply read_interrupted]; eauto. Qed.

Lemma delivers_read m s data n :
  delivers m s data → 0 < n → read_step delivers m s data n.
Proof.
  intros (I & HI & Hs) Hn. eapply read_step_mono, HI; [|done|done]. intros. by exists I.
Qed.

Lemma delivers_inv : reader_inv delivers.
Proof. intros m s data n. apply delivers_read. Qed.

(** What a reader gave is the beginning of what it delivers. *)
Lemma yields_delivers m s data d s' :
  delivers m s data → yields s d s' → ∃ rest m', data = d ++ rest ∧ (m' ≤ m)%nat ∧ delivers m' s' rest.
Proof.
  intros Hs Hy. revert m data Hs.
  induction Hy as [s|s n c s1 d s2 Hn Hr _ IH|s n e s1 d s2 Hn Hr _ IH]; intros m data Hs.
  - by exists data, m.
  - destruct (delivers_read _ _ _ _ Hs Hn) as [c' rest s' m' Hr' Hc -> He Hm Hd|e s' m' Hr' Hi Hm Hd];
      rewrite Hr in Hr'; [|done]. injection Hr' as <- <-.
    destruct (IH _ _ Hd) as (r & m2 & -> & ? & ?). exists r, m2.
    split_and!; [by rewrite app_assoc|lia|done].
  - destruct (delivers_read _ _ _ _ Hs Hn) as [c' rest s' m' Hr' Hc -> He Hm Hd|e' s' m' Hr' Hi Hm Hd];
      rewrite Hr in Hr'; [done|]. injection Hr' as <- <-.
    destruct (IH _ _ Hd) as (r & m2 & -> & ? & ?). exists r, m2. split_and!; [done|lia|done].
Qed.

Lemma read_retry_delivers fuel m s data n :
  delivers m s data → (m < fuel)%nat → 0 < n →
  ∃ c rest s' m', read_retry fuel s n = (Ok c, s') ∧ zlen c ≤ n ∧ data = c ++ rest ∧
    (c = [] → data = []) ∧ (m' ≤ m)%nat ∧ delivers m' s' rest.
Proof.
  revert m s. induction fuel as [|fuel IH]; intros m s Hs Hf Hn; [lia|]. cbn.
  destruct (delivers_read _ _ _ _ Hs Hn) as [c rest s' m' -> Hc -> He Hm Hr|e s' m' -> -> Hm Hr].
  - by exists c, rest, s', m'.
  - destruct (IH m' s' Hr ltac:(lia) Hn) as (c & rest & s2 & m2 & ? & ? & ? & ? & ? & ?).
    exists c, rest, s2, m2. split_and!; try done. lia.
Qed.

Lemma read_exact_delivers fuel m s data n acc :
  delivers m s data → (m + Z.to_nat n < fuel)%nat → n ≤ zlen data →
  ∃ s' m', read_exact fuel s n acc = (Ok (acc ++ take (Z.to_nat n) data), s') ∧
    (m' ≤ m)%nat ∧ delivers m' s' (drop (Z.to_nat n) data).
Proof.
  revert m s data n acc. induction fuel as [|fuel IH]; intros m s data n acc Hs Hf Hn; [lia|]. cbn.
  case_decide as H0.
  { replace (Z.to_nat n) with 0%nat by lia. rewrite take_0, drop_0, app_nil_r. by exists s, m. }
  destruct (delivers_read _ _ _ n Hs ltac:(lia)) as [c rest s' m' -> Hc -> He Hm Hr|e s' m' -> -> Hm Hr].
  - destruct c as [|b c].
    { rewrite He in Hn by done. change (zlen (@nil Z)) with 0 in Hn. lia. }
    rewrite zlen_app in Hn. remember (b :: c) as ch eqn:Ech.
    assert (1 ≤ zlen ch) by (subst; unfold zlen; cbn; lia).
    destruct (IH m' s' rest (n - zlen ch) (acc ++ ch) Hr ltac:(lia) ltac:(lia))
      as (s2 & m2 & Hx & Hm2 & Hd).
    exists s2, m2. replace (Z.to_nat n) with (length ch + Z.to_nat (n - zlen ch))%nat
      by (unfold zlen in *; lia).
    rewrite take_app_add, drop_app_add. split_and!; [|lia|done]. subst ch.
    rewrite Hx. by rewrite <- app_assoc.
  - destruct (IH m' s' data n acc Hr ltac:(lia) Hn) as (s2 & m2 & ? & ? & ?).
    exists s2, m2. split_and!; [done|lia|done].
Qed.

Lemma read_exact_short fuel m s data n acc :
  delivers m s data → (m + Z.to_nat n < fuel)%nat → zlen data < n →
  ∃ s', read_exact fuel s n acc =
    (Err (IoKind UnexpectedEof "failed to fill whole buffer"), s').
Proof.
  revert m s data n acc. induction fuel as [|fuel IH]; intros m s data n acc Hs Hf Hn; [lia|]. cbn.
  pose proof (zlen_nonneg data). rewrite decide_False by lia.
  destruct (delivers_read _ _ _ n Hs ltac:(lia)) as [c rest s' m' -> Hc -> He Hm Hr|e s' m' -> -> Hm Hr].
  - destruct c as [|b c]; [by eexists|]. rewrite zlen_app in Hn.
    assert (1 ≤ zlen (b :: c)) by (unfold zlen; cbn; lia).
    apply (IH m' s' rest); [done|lia|lia].
  - apply (IH m' s' data); [done|lia|done].
Qed.

Lemma read_to_end_delivers fuel sizes m s data acc :
  (∀ k, 0 < sizes k) → delivers m s data → (m + length data < fuel)%nat →
  ∃ s', read_to_end fuel sizes s acc = (Ok (acc ++ data), s').
Proof.
  intros Hsz. revert m s data acc. induction fuel as [|fuel IH]; intros m s data acc Hs Hf; [lia|].
  cbn. destruct (delivers_read _ _ _ _ Hs (Hsz fuel)) as [c rest s' m' -> Hc -> He Hm Hr|e s' m' -> -> Hm Hr].
  - destruct c as [|b c].
    { exists s'. specialize (He eq_refl). by rewrite He, app_nil_r. }
    rewrite length_app in Hf. cbn in Hf.
    destruct (IH m' s' rest (acc ++ b :: c) Hr ltac:(lia)) as (s2 & ->). exists s2.
    by rewrite <- app_assoc.
  - apply (IH m' s' data); [done|lia].
Qed.

End delivers.

(** A reader that never gives more bytes than the buffer holds, now and after any reads. *)
Definition bounded_inv {S : Type} `{Reader S} (I : S → Prop) : Prop :=
  ∀ s n res s', I s → 0 ≤ n → reader_read s n = (res, s') →
    I s' ∧ match res with Ok c => zlen c ≤ n | Err _ => True end.

Definition bounded {S : Type} `{Reader S} (s : S) : Prop := ∃ I, bounded_inv I ∧ I s.

Lemma bounded_read {S : Type} `{Reader S} (s : S) n res s' :
  bounded s → 0 ≤ n → reader_read s n = (res, s') →
  bounded s' ∧ match res with Ok c => zlen c ≤ n | Err _ => True end.
Proof.
  intros (I & HI & Hs) Hn Hr. destruct (HI _ _ _ _ Hs Hn Hr) as [Hs' Hc]. split; [by exists I|done].
Qed.

Lemma bounded_bounded {S : Type} `{Reader S} : bounded_inv (S := S) bounded.
Proof. exact bounded_read. Qed.

Lemma reader_ok_bounded {S : Type} `{Reader S} (s : S) : reader_ok S → bounded s.
Proof.
  intros Hok. exists (λ _, True). split; [|done]. intros s1 n [c|e] s2 _ Hn Hr; split; try done.
  by eapply Hok.
Qed.

Lemma yields_bounded {S : Type} `{Reader S} (s : S) d s' : bounded s → yields s d s' → bounded s'.
Proof.
  intros Hb Hy. induction Hy as [s|s n c s1 d s2 Hn Hr _ IH|s n e s1 d s2 Hn Hr _ IH]; [done| |].
  - apply IH. eapply bounded_read; [exact Hb| |exact Hr]. lia.
  - apply IH. eapply bounded_read; [exact Hb| |exact Hr]. lia.
Qed.

Lemma Take_bounded {S : Type} `{Reader S} (s : S) limit :
  bounded s → 0 ≤ limit → bounded {| tk_inner := s; tk_limit := limit |}.
Proof.
  intros Hs Hl. exists (λ t, bounded (tk_inner t) ∧ 0 ≤ tk_limit t). split; [|done].
  intros [inner l] n res s' [Hi Hl'] Hn. unfold reader_read at 1, Take_read. cbn [tk_inner tk_limit] in *.
  case_decide as H0; [intros [= <- <-]; split; [by split|rewrite zlen_nil; lia]|].
  destruct (reader_read inner (Z.min n l)) as [[c|e] inner'] eqn:Er; intros [= <- <-]; cbn.
  - destruct (bounded_read inner (Z.min n l) _ _ Hi ltac:(lia) Er) as [? Hc]. cbn in Hc. split; [split; [done|lia]|lia].
  - by destruct (bounded_read inner (Z.min n l) _ _ Hi ltac:(lia) Er).
Qed.

(** A reader that reports its end only after exactly [left] bytes, whatever is below
    it does. *)
Definition ends_inv {S : Type} `{Reader S} (I : S → Z → Prop) : Prop :=
  ∀ s left n res s', I s left → 0 < n → reader_read s n = (res, s') →
    match res with
    | Ok c => I s' (left - zlen c) ∧ (c = [] → left = 0)
    | Err _ => I s' left
    end.

Definition ends_at {S : Type} `{Reader S} (s : S) (left : Z) : Prop := ∃ I, ends_inv I ∧ I s left.

Lemma ends_at_read {S : Type} `{Reader S} (s : S) left n c s' :
  ends_at s left → 0 < n → reader_read s n = (Ok c, s') →
  ends_at s' (left - zlen c) ∧ (c = [] → left = 0).
Proof.
  intros (I & HI & Hs) Hn Hr. destruct (HI _ _ _ _ _ Hs Hn Hr) as [Hs' Hc].
  split; [by exists I|done].
Qed.

Lemma read_to_end_ends {S : Type} `{Reader S} fuel sizes (s : S) acc left out s' :
  (∀ k, 0 < sizes k) → ends_at s left → read_to_end fuel sizes s acc = (Ok out, s') →
  zlen out = zlen acc + left.
Proof.
  intros Hsz (I & HI & Hs). revert s acc left Hs.
  induction fuel as [|fuel IH]; intros s acc left Hs; cbn; [done|].
  destruct (reader_read s (sizes fuel)) as [[c|e] s2] eqn:Er;
    pose proof (HI _ _ _ _ _ Hs (Hsz fuel) Er) as Hst; cbn in Hst.
  - destruct Hst as [Hs2 Hc]. destruct c as [|b c].
    + intros [= <- <-]. rewrite (Hc eq_refl). lia.
    + intros Hout%(IH _ _ _ Hs2). rewrite zlen_app in Hout. lia.
  - destruct (interrupted e); [by apply IH|done].
Qed.

(** Bounding a reader cuts what it delivers. *)
Lemma Take_delivers {S} `{Reader S} m s data limit :
  delivers m s data → 0 ≤ limit →
  delivers m {| tk_inner := s; tk_limit := limit |} (take (Z.to_nat limit) data).
Proof.
  intros Hs Hl. exists (λ m t d, 0 ≤ tk_limit t ∧
    ∃ data, delivers m (tk_inner t) data ∧ d = take (Z.to_nat (tk_limit t)) data).
  split; [|by split; [|exists data]]. clear.
  intros m [s limit] d n (Hl & data & Hs & ->) Hn. cbn in *.
  destruct (decide (limit = 0)) as [->|Hne].
  { eapply (read_gives _ _ _ _ _ [] _ _ m); [|unfold zlen; cbn; lia|done|done|done|].
    - unfold reader_read, Take_read. cbn [tk_limit tk_inner]. by rewrite decide_True by done.
    - split; [done|]. by exists data. }
  pose proof (delivers_read m s data (Z.min n limit) Hs ltac:(lia)) as Hst.
  destruct Hst as [c rest s' m' Hr Hc -> He Hm Hd|e s' m' Hr Hi Hm Hd].
  - eapply (read_gives _ _ _ _ _ c (take (Z.to_nat (limit - zlen c)) rest)
      {| tk_inner := s'; tk_limit := limit - zlen c |} m'); try done.
    + unfold reader_read at 1, Take_read. cbn [tk_limit tk_inner]. by rewrite decide_False, Hr by done.
    + lia.
    + rewrite take_app_ge by (unfold zlen in Hc; lia). do 2 f_equal. unfold zlen. lia.
    + intros Hc0. rewrite He by done. by rewrite take_nil.
    + cbn. split; [lia|]. by exists rest.
  - eapply (read_interrupted _ _ _ _ _ e {| tk_inner := s'; tk_limit := limit |} m'); try done.
    + unfold reader_read at 1, Take_read. cbn [tk_limit tk_inner]. by rewrite decide_False, Hr by done.
    + cbn. split; [lia|]. by exists data.
Qed.

(** ** A reader over bytes *)

(** Every well-behaved reader over bytes: what the environment does to each read. *)
Inductive ReadEvent := Interrupt | AtMost (k : nat).

Record ScriptReader := { sr_data : bytes; sr_script : list ReadEvent }.

(** Without a script, a read fills its buffer: [std::io::Cursor], [&[u8]]. *)
#[global] Instance ScriptReader_read : Reader ScriptReader := λ self n,
  let give k script :=
    (Ok (take (Z.to_nat (Z.min k n)) (sr_data self)),
     {| sr_data := drop (Z.to_nat (Z.min k n)) (sr_data self); sr_script := script |}) in
  match sr_script self with
  | [] => give n []
  | Interrupt :: script =>
      (Err (IoKind Interrupted ""), {| sr_data := sr_data self; sr_script := script |})
  | AtMost k :: script => give (Z.of_nat (Datatypes.S k)) script
  end.

Lemma ScriptReader_delivers data script :
  delivers (length script) {| sr_data := data; sr_script := script |} data.
Proof.
  exists (λ m s d, m = length (sr_script s) ∧ d = sr_data s). split; [|done].
  assert (∀ k n (d : bytes), 1 ≤ k → 0 < n →
    zlen (take (Z.to_nat (Z.min k n)) d) ≤ n ∧ (take (Z.to_nat (Z.min k n)) d = [] → d = [])) as Hg.
  { intros k n d Hk Hn. split; [unfold zlen; rewrite length_take; lia|].
    intros Ht. destruct d; [done|]. destruct (Z.to_nat (Z.min k n)) eqn:E; [lia|done]. }
  intros m [d script'] data' n [-> ->] Hn. cbn [sr_data sr_script].
  destruct script' as [|[|k] script'].
  - destruct (Hg n n d ltac:(lia) Hn).
    eapply (read_gives _ _ _ _ _ (take (Z.to_nat (Z.min n n)) d) (drop (Z.to_nat (Z.min n n)) d));
      [reflexivity|done|by rewrite take_drop|done| |]; [|done]; cbn; lia.
  - eapply (read_interrupted _ _ _ _ _ (IoKind Interrupted "")); [reflexivity|done| |]; [|done].
    cbn. lia.
  - destruct (Hg (Z.of_nat (Datatypes.S k)) n d ltac:(lia) Hn).
    eapply (read_gives _ _ _ _ _ (take (Z.to_nat (Z.min (Z.of_nat (Datatypes.S k)) n)) d)
      (drop (Z.to_nat (Z.min (Z.of_nat (Datatypes.S k)) n)) d));
      [reflexivity|done|by rewrite take_drop|done| |]; [|done]; cbn; lia.
Qed.
