(* ===== verification/ByteSwap.v ===== *)
(** * The byte-swap filters (src/src/byte_swap.rs)

    The reader of the Swap2 and Swap4 methods, with its pending bytes across short
    reads, small buffers and interrupted reads, and its refinement of the swap of
    the whole stream. *)

From stdpp Require Import base numbers list option strings.
From Stdlib Require Import ZArith Lia.
From S2P Require Import Prelude Error Operation Readers.

Definition MAX_SWAP_WIDTH : Z := 4.

(** [swap_groups_scalar]: the whole groups are reversed, an incomplete last one is
    kept. Other widths are unreachable. *)
Fixpoint swap_groups2 (b : bytes) : bytes :=
  match b with x :: y :: r => y :: x :: swap_groups2 r | _ => b end.
Fixpoint swap_groups4 (b : bytes) : bytes :=
  match b with x :: y :: z :: w :: r => w :: z :: y :: x :: swap_groups4 r | _ => b end.
Definition swap_groups (b : bytes) (width : Z) : bytes :=
  if decide (width = 2) then swap_groups2 b
  else if decide (width = 4) then swap_groups4 b else b.

(** [pending] is an array of four bytes. *)
Record ByteSwapReader (S : Type) := {
  bs_inner : S;
  bs_width : Z;
  bs_pending : bytes;
  bs_pending_len : Z;
  bs_pending_output_position : Z;
  bs_pending_output_length : Z;
  bs_eof : bool
}.
Arguments bs_inner {S}. Arguments bs_width {S}. Arguments bs_pending {S}.
Arguments bs_pending_len {S}. Arguments bs_pending_output_position {S}.
Arguments bs_pending_output_length {S}. Arguments bs_eof {S}.

(** [array[at..at + b.len()].copy_from_slice(b)]. *)
Definition copy_at (pos : Z) (b array : bytes) : bytes :=
  take (Z.to_nat pos) array ++ b ++ drop (Z.to_nat pos + length b) array.

Section ops.
  Context {S : Type} `{Reader S}.

Definition ByteSwapReader_new (inner : S) (width : Z) : ByteSwapReader S :=
  {| bs_inner := inner; bs_width := width; bs_pending := [0; 0; 0; 0]; bs_pending_len := 0;
     bs_pending_output_position := 0; bs_pending_output_length := 0; bs_eof := false |}.

Definition set_pending (self : ByteSwapReader S) (pending : bytes) (len : Z) : ByteSwapReader S :=
  {| bs_inner := bs_inner self; bs_width := bs_width self; bs_pending := pending;
     bs_pending_len := len; bs_pending_output_position := bs_pending_output_position self;
     bs_pending_output_length := bs_pending_output_length self; bs_eof := bs_eof self |}.
Definition set_output (self : ByteSwapReader S) (position length : Z) : ByteSwapReader S :=
  {| bs_inner := bs_inner self; bs_width := bs_width self; bs_pending := bs_pending self;
     bs_pending_len := bs_pending_len self; bs_pending_output_position := position;
     bs_pending_output_length := length; bs_eof := bs_eof self |}.
Definition set_inner (self : ByteSwapReader S) (inner : S) (eof : bool) : ByteSwapReader S :=
  {| bs_inner := inner; bs_width := bs_width self; bs_pending := bs_pending self;
     bs_pending_len := bs_pending_len self;
     bs_pending_output_position := bs_pending_output_position self;
     bs_pending_output_length := bs_pending_output_length self; bs_eof := eof |}.

Definition drain_pending_output (self : ByteSwapReader S) (buf : Z) : bytes * ByteSwapReader S :=
  let remaining := bs_pending_output_length self - bs_pending_output_position self in
  let read := Z.min remaining buf in
  let start := bs_pending_output_position self in
  let out := sub_list start (start + read) (bs_pending self) in
  let position := start + read in
  (out, if decide (position = bs_pending_output_length self) then set_output self 0 0
        else set_output self position (bs_pending_output_length self)).

(** The loop of [read_small]: it fills a group unless the stream ends. *)
Fixpoint fill_group (fuel : nat) (self : ByteSwapReader S) :
    result unit IoError * ByteSwapReader S :=
  match fuel with
  | O => (Err io_out_of_fuel, self)
  | Datatypes.S fuel =>
      if decide (bs_pending_len self < bs_width self ∧ bs_eof self = false) then
        match reader_read (bs_inner self) (bs_width self - bs_pending_len self) with
        | (Err e, inner) => (Err e, set_inner self inner (bs_eof self))
        | (Ok [], inner) => fill_group fuel (set_inner self inner true)
        | (Ok chunk, inner) =>
            fill_group fuel
              (set_pending (set_inner self inner (bs_eof self))
                 (copy_at (bs_pending_len self) chunk (bs_pending self))
                 (bs_pending_len self + zlen chunk))
        end
      else (Ok tt, self)
  end.

Definition loop_fuel : nat := 6.

Definition read_small (self : ByteSwapReader S) (buf : Z) :
    result bytes IoError * ByteSwapReader S :=
  if decide (0 < bs_pending_output_length self) then
    let '(out, self) := drain_pending_output self buf in (Ok out, self)
  else
    match fill_group loop_fuel self with
    | (Err e, self) => (Err e, self)
    | (Ok _, self) =>
        if decide (bs_pending_len self = 0) then (Ok [], self) else
        let pending :=
          if decide (bs_pending_len self = bs_width self)
          then copy_at 0 (swap_groups (sub_list 0 (bs_width self) (bs_pending self)) (bs_width self))
                 (bs_pending self)
          else bs_pending self in
        let self := set_output (set_pending self pending 0)
                      (bs_pending_output_position self) (bs_pending_len self) in
        let '(out, self) := drain_pending_output self buf in (Ok out, self)
    end.

(** The loop of [read]; [buf] is the filled part of a buffer of length [n]. *)
Fixpoint read_loop (fuel : nat) (self : ByteSwapReader S) (n : Z) (buf : bytes) :
    result bytes IoError * ByteSwapReader S :=
  match fuel with
  | O => (Err io_out_of_fuel, self)
  | Datatypes.S fuel =>
      if bs_eof self then (Ok buf, self) else
      match reader_read (bs_inner self) (n - zlen buf) with
      | (Err e, inner) =>
          (Err e, set_pending (set_inner self inner (bs_eof self))
                    (copy_at 0 buf (bs_pending self)) (zlen buf))
      | (Ok chunk, inner) =>
          let self := set_inner self inner (bool_decide (chunk = [])) in
          let buf := buf ++ chunk in
          let complete := zlen buf / bs_width self * bs_width self in
          if decide (0 < complete) then
            let tail := sub_list complete (zlen buf) buf in
            (Ok (swap_groups (sub_list 0 complete buf) (bs_width self)),
             set_pending self (copy_at 0 tail (bs_pending self)) (zlen buf - complete))
          else if bs_eof self then (Ok buf, self)
          else read_loop fuel self n buf
      end
  end.

#[global] Instance ByteSwapReader_read : Reader (ByteSwapReader S) := λ self n,
  if decide (n = 0) then (Ok [], self) else
  if decide (0 < bs_pending_output_length self) then
    let '(out, self) := drain_pending_output self n in (Ok out, self)
  else if decide (n < bs_width self) then read_small self n
  else
    let buf := sub_list 0 (bs_pending_len self) (bs_pending self) in
    read_loop loop_fuel (set_pending self (bs_pending self) 0) n buf.

End ops.

(** ** Lemmas *)

Lemma swap_groups2_app a b k :
  length a = (2 * k)%nat → swap_groups2 (a ++ b) = swap_groups2 a ++ swap_groups2 b.
Proof.
  revert a. induction k as [|k IH]; intros a Ha; [by destruct a|].
  destruct a as [|x [|y a]]; cbn in Ha; try lia. cbn. rewrite IH by lia. done.
Qed.

Lemma swap_groups4_app a b k :
  length a = (4 * k)%nat → swap_groups4 (a ++ b) = swap_groups4 a ++ swap_groups4 b.
Proof.
  revert a. induction k as [|k IH]; intros a Ha; [by destruct a|].
  destruct a as [|x [|y [|z [|w a]]]]; cbn in Ha; try lia. cbn. rewrite IH by lia. done.
Qed.

Definition swap_width (w : Z) : Prop := w = 2 ∨ w = 4.

Lemma swap_groups_app a b w k :
  swap_width w → zlen a = w * k → swap_groups (a ++ b) w = swap_groups a w ++ swap_groups b w.
Proof.
  intros Hw Ha. pose proof (zlen_nonneg a). unfold zlen in *.
  assert (0 ≤ k) by (destruct Hw; nia).
  unfold swap_groups. destruct Hw as [-> | ->]; cbn.
  - apply (swap_groups2_app _ _ (Z.to_nat k)). lia.
  - apply (swap_groups4_app _ _ (Z.to_nat k)). lia.
Qed.

Lemma swap_groups2_short a : (length a < 2)%nat → swap_groups2 a = a.
Proof. destruct a as [|x [|y a]]; cbn; done || lia. Qed.
Lemma swap_groups4_short a : (length a < 4)%nat → swap_groups4 a = a.
Proof. destruct a as [|x [|y [|z [|w a]]]]; cbn; done || lia. Qed.

(** An incomplete group is kept. *)
Lemma swap_groups_short a w : swap_width w → zlen a < w → swap_groups a w = a.
Proof.
  unfold zlen, swap_groups. intros [-> | ->] Ha; cbn;
    [apply swap_groups2_short|apply swap_groups4_short]; lia.
Qed.

Lemma length_swap_groups2 n a : (length a ≤ n)%nat → length (swap_groups2 a) = length a.
Proof.
  revert a. induction n as [|n IH]; intros [|x [|y a]] Hn; cbn in *; try done; [lia|].
  by rewrite IH by lia.
Qed.
Lemma length_swap_groups4 n a : (length a ≤ n)%nat → length (swap_groups4 a) = length a.
Proof.
  revert a. induction n as [|n IH]; intros [|x [|y [|z [|w a]]]] Hn; cbn in *; try done; [lia|].
  by rewrite IH by lia.
Qed.
Lemma zlen_swap_groups a w : zlen (swap_groups a w) = zlen a.
Proof.
  unfold zlen, swap_groups. f_equal. case_decide; [by eapply length_swap_groups2|].
  case_decide; [by eapply length_swap_groups4|done].
Qed.

Lemma sub_array_app (a b : bytes) : sub_list 0 (zlen a) (a ++ b) = a.
Proof. unfold sub_list, zlen. rewrite drop_0, Z.sub_0_r, Nat2Z.id, take_app_length. done. Qed.

Lemma sub_array_copy (b array : bytes) : sub_list 0 (zlen b) (copy_at 0 b array) = b.
Proof.
  unfold copy_at. change (Z.to_nat 0) with 0%nat. rewrite take_0, app_nil_l.
  apply sub_array_app.
Qed.

Lemma sub_array_tail (a b : bytes) : sub_list (zlen a) (zlen a + zlen b) (a ++ b) = b.
Proof.
  unfold sub_list, zlen. rewrite Nat2Z.id, drop_app_length.
  replace (Z.to_nat _) with (length b) by lia. by rewrite firstn_all.
Qed.

(** Copying after a prefix that is in place extends it. *)
Lemma sub_array_extend array len c :
  0 ≤ len → len ≤ zlen array →
  sub_list 0 (len + zlen c) (copy_at len c array) = sub_list 0 len array ++ c.
Proof.
  intros Hl Ha. unfold sub_list, copy_at, zlen in *. rewrite !drop_0, !Z.sub_0_r.
  replace (Z.to_nat (len + Z.of_nat (length c)))
    with (length (take (Z.to_nat len) array) + length c)%nat by (rewrite length_take; lia).
  rewrite take_app_add, take_app_length. done.
Qed.

Lemma zlen_copy_at array len c :
  0 ≤ len → len + zlen c ≤ zlen array → zlen (copy_at len c array) = zlen array.
Proof.
  intros. unfold copy_at, zlen in *. rewrite !length_app, length_take, length_drop. lia.
Qed.

(** The part before [complete] and the tail make up the buffer. *)
Lemma sub_array_split (buf : bytes) c :
  0 ≤ c → c ≤ zlen buf → sub_list 0 c buf ++ sub_list c (zlen buf) buf = buf.
Proof.
  intros. unfold sub_list, zlen in *. rewrite drop_0, Z.sub_0_r.
  rewrite (take_ge (drop _ _)) by (rewrite length_drop; lia). apply take_drop.
Qed.

(** ** Refinement *)

Section refine.
  Context {S : Type} `{Reader S}.
  Implicit Types self : ByteSwapReader S.

(** The inner reader still has [rest]; nothing follows once its end was seen. *)
Definition inner_has (m : nat) self (rest : bytes) : Prop :=
  delivers m (bs_inner self) rest ∧ (bs_eof self = true → rest = []).

Record bs_shape self : Prop := {
  bh_width : swap_width (bs_width self);
  bh_pending : zlen (bs_pending self) = 4
}.

(** Between reads: either some output of a group is left, or raw bytes of an
    incomplete group are pending. *)
Inductive swaps (m : nat) self (d : bytes) : Prop :=
| swaps_output rest :
    bs_shape self → bs_pending_len self = 0 →
    0 ≤ bs_pending_output_position self < bs_pending_output_length self →
    bs_pending_output_length self ≤ 4 → inner_has m self rest →
    d = sub_list (bs_pending_output_position self) (bs_pending_output_length self)
          (bs_pending self) ++ swap_groups rest (bs_width self) → swaps m self d
| swaps_raw rest :
    bs_shape self → bs_pending_output_position self = 0 → bs_pending_output_length self = 0 →
    0 ≤ bs_pending_len self < bs_width self → inner_has m self rest →
    d = swap_groups (sub_list 0 (bs_pending_len self) (bs_pending self) ++ rest) (bs_width self) →
    swaps m self d.

(** The output of a group is drained in order. *)
Lemma drain_step m self rest n out self' :
  bs_shape self → bs_pending_len self = 0 →
  0 ≤ bs_pending_output_position self < bs_pending_output_length self →
  bs_pending_output_length self ≤ 4 → inner_has m self rest → 0 < n →
  drain_pending_output self n = (out, self') →
  zlen out ≤ n ∧ out ≠ [] ∧ ∃ tail,
    sub_list (bs_pending_output_position self) (bs_pending_output_length self) (bs_pending self)
      ++ swap_groups rest (bs_width self) = out ++ tail ∧ swaps m self' tail.
Proof.
  intros Hsh Hpl Hpos Hlen Hin Hn. pose proof Hsh as [Hw H4].
  unfold drain_pending_output. intros [= <- <-].
  set (pos := bs_pending_output_position self) in *.
  set (len := bs_pending_output_length self) in *.
  set (r := Z.min (len - pos) n).
  assert (zlen (sub_list pos (pos + r) (bs_pending self)) = r) as Hz.
  { rewrite zlen_sub_list; lia. }
  split; [lia|]. split.
  { intros Hnil. rewrite Hnil in Hz. change (zlen (@nil Z)) with 0 in Hz. lia. }
  rewrite (sub_list_step pos r len) by lia. rewrite <- app_assoc. eexists. split; [reflexivity|].
  case_decide as Hd.
  - eapply (swaps_raw _ _ _ rest); cbn; try done.
    + rewrite Hpl. destruct Hw; lia.
    + by rewrite Hpl, !sub_list_empty by lia.
  - eapply (swaps_output _ _ _ rest); cbn; try done; lia.
Qed.

(** Filling a group: it ends with a whole group, or with the end of the stream, or
    interrupted with what was read kept. *)
Lemma fill_group_step fuel m self rest d :
  ((if bs_eof self then 0 else Z.to_nat (bs_width self - bs_pending_len self) + 1) < fuel)%nat →
  bs_shape self → bs_pending_output_position self = 0 → bs_pending_output_length self = 0 →
  0 ≤ bs_pending_len self ≤ bs_width self → inner_has m self rest →
  d = sub_list 0 (bs_pending_len self) (bs_pending self) ++ rest →
  ∃ r self' m' rest', fill_group fuel self = (r, self') ∧ bs_width self' = bs_width self ∧
    bs_shape self' ∧ bs_pending_output_position self' = 0 ∧ bs_pending_output_length self' = 0 ∧
    0 ≤ bs_pending_len self' ≤ bs_width self ∧ inner_has m' self' rest' ∧
    d = sub_list 0 (bs_pending_len self') (bs_pending self') ++ rest' ∧ (m' ≤ m)%nat ∧
    match r with
    | Ok _ => bs_pending_len self' = bs_width self ∨ (bs_eof self' = true ∧ rest' = [])
    | Err e => interrupted e = true ∧ (m' < m)%nat ∧ bs_pending_len self' < bs_width self
    end.
Proof.
  revert m self rest. induction fuel as [|fuel IH]; intros m self rest Hf Hsh Hop Hol Hpl Hin Hd; [lia|].
  pose proof Hsh as [Hw H4]. destruct Hin as [Hdel Heof]. cbn [fill_group]. case_decide as Hc.
  2:{ exists (Ok tt), self, m, rest. split_and!; try done; try lia.
      destruct (decide (bs_pending_len self = bs_width self)); [by left|right].
      assert (bs_eof self = true) as He by (destruct (bs_eof self); [done|lia]). auto. }
  destruct Hc as [Hc He]. rewrite He in Hf.
  destruct (delivers_read _ _ _ (bs_width self - bs_pending_len self) Hdel ltac:(lia))
    as [c rest' inner m' -> Hcn -> Hc0 Hm Hd'|e inner m' -> Hi Hm Hd'].
  - destruct c as [|b c].
    + pose proof (Hc0 eq_refl) as Hr0. rewrite app_nil_l in Hr0. subst rest'.
      destruct (IH m' (set_inner self inner true) []) as (r & s2 & m2 & rest2 & Hrun & Hx);
        try done.
      * cbn. lia.
      * exists r, s2, m2, rest2. split; [exact Hrun|]. cbn in Hx.
        destruct Hx as (? & ? & ? & ? & ? & ? & ? & Hm2 & ?). split_and!; try done; try lia.
        destruct r; naive_solver lia.
    + remember (b :: c) as ch eqn:Ech. assert (1 ≤ zlen ch) by (subst; unfold zlen; cbn; lia).
      destruct (IH m' (set_pending (set_inner self inner (bs_eof self))
                 (copy_at (bs_pending_len self) ch (bs_pending self))
                 (bs_pending_len self + zlen ch)) rest') as (r & s2 & m2 & rest2 & Hrun & Hx);
        cbn; rewrite ?He; try done; try lia.
      * split; cbn; [done|]. rewrite zlen_copy_at; destruct Hw; lia.
      * rewrite sub_array_extend by (destruct Hw; lia). by rewrite Hd, app_assoc.
      * exists r, s2, m2, rest2. rewrite He, Ech in *. split; [exact Hrun|]. cbn in Hx.
        destruct Hx as (? & ? & ? & ? & ? & ? & ? & Hm2 & ?). split_and!; try done; try lia.
        destruct r; naive_solver lia.
  - exists (Err e), (set_inner self inner (bs_eof self)), m', rest. cbn.
    split_and!; try done; lia.
Qed.

(** A read of less than a group. *)
Lemma read_small_step m self d n :
  swaps m self d → bs_pending_output_length self = 0 → 0 < n →
  ∃ r self', read_small self n = (r, self') ∧
  match r with
  | Ok c => zlen c ≤ n ∧ (c = [] → d = []) ∧
      ∃ rest m', d = c ++ rest ∧ (m' ≤ m)%nat ∧ swaps m' self' rest
  | Err e => interrupted e = true ∧ ∃ m', (m' < m)%nat ∧ swaps m' self' d
  end.
Proof.
  intros Hs Hol Hn. destruct Hs as [rest ? ? ? ? ? ?|rest Hsh Hop _ Hpl Hin ->]; [lia|].
  unfold read_small. rewrite decide_False by lia. pose proof Hsh as [Hw H4].
  destruct (fill_group_step loop_fuel m self rest
    (sub_list 0 (bs_pending_len self) (bs_pending self) ++ rest))
    as (r & s' & m' & rest' & -> & Hww & Hsh' & Hop' & Hol' & Hpl' & Hin' & Hd & Hm & Hr); try done.
  { unfold loop_fuel. destruct (bs_eof self); [lia|]. destruct Hw; lia. }
  { lia. }
  rewrite Hd. destruct r as [[]|e].
  2:{ destruct Hr as (Hi & Hm' & Hlt). do 2 eexists. split; [reflexivity|]. split; [done|].
      exists m'. split; [done|]. rewrite <- Hww. eapply swaps_raw; try done; lia. }
  case_decide as H0.
  { do 2 eexists. split; [reflexivity|]. split; [unfold zlen; cbn; lia|].
    destruct Hr as [Hr|[_ ->]]; [destruct Hw; lia|].
    rewrite H0, sub_list_empty by lia. cbn.
    assert (swap_groups [] (bs_width self) = []) as -> by (destruct Hw as [-> | ->]; done).
    split; [done|]. exists [], m'. split_and!; [done|lia|].
    eapply (swaps_raw _ _ _ []); try done; [lia|].
    rewrite H0, sub_list_empty, Hww by lia. destruct Hw as [-> | ->]; done. }
  set (pending := if decide (bs_pending_len s' = bs_width s') then _ else _).
  assert (zlen pending = 4 ∧
    swap_groups (sub_list 0 (bs_pending_len s') (bs_pending s') ++ rest') (bs_width self) =
    sub_list 0 (bs_pending_len s') pending ++ swap_groups rest' (bs_width self)) as [Hp4 Hsw].
  { pose proof Hsh' as [_ H4']. unfold pending. rewrite Hww. case_decide as Hfull.
    - assert (zlen (sub_list 0 (bs_width self) (bs_pending s')) = bs_width self) as Hz
        by (rewrite zlen_sub_list; destruct Hw; lia).
      split.
      + rewrite zlen_copy_at; [done|lia|]. rewrite zlen_swap_groups. destruct Hw; lia.
      + rewrite Hfull. rewrite (swap_groups_app _ _ _ 1) by (done || lia). f_equal.
        rewrite <- (sub_array_copy (swap_groups (sub_list 0 (bs_width self) (bs_pending s'))
          (bs_width self)) (bs_pending s')) at 1. by rewrite zlen_swap_groups, Hz.
    - split; [done|]. destruct Hr as [Hr|[_ ->]]; [lia|]. rewrite app_nil_r.
      rewrite swap_groups_short by (try done; rewrite zlen_sub_list; destruct Hw; lia).
      assert (swap_groups [] (bs_width self) = []) as -> by (destruct Hw as [-> | ->]; done).
      by rewrite app_nil_r. }
  rewrite Hsw. destruct (drain_pending_output _ n) as [out s2] eqn:Edrain.
  apply (drain_step m' _ rest') in Edrain; cbn; try done; try lia.
  2:{ split; cbn; [by rewrite Hww|done]. }
  2:{ pose proof Hsh' as [[?|?] _]; lia. }
  cbn in Edrain. rewrite Hop', Hww in Edrain.
  destruct Edrain as (Hle & Hne & tail & -> & Hsw').
  do 2 eexists. split; [reflexivity|]. split; [done|]. split; [done|].
  exists tail, m'. split_and!; [done|lia|done].
Qed.

(** A read of at least a group, with the raw bytes [buf] in the buffer. *)
Lemma read_loop_step fuel m self n buf rest :
  ((if bs_eof self then 0 else Z.to_nat (bs_width self - zlen buf) + 1) < fuel)%nat →
  bs_shape self → bs_pending_len self = 0 →
  bs_pending_output_position self = 0 → bs_pending_output_length self = 0 →
  zlen buf < bs_width self → bs_width self ≤ n → inner_has m self rest →
  ∃ r self', read_loop fuel self n buf = (r, self') ∧
  match r with
  | Ok c => zlen c ≤ n ∧ (c = [] → buf ++ rest = []) ∧
      ∃ tail m', swap_groups (buf ++ rest) (bs_width self) = c ++ tail ∧ (m' ≤ m)%nat ∧ swaps m' self' tail
  | Err e => interrupted e = true ∧ ∃ m', (m' < m)%nat ∧ swaps m' self' (swap_groups (buf ++ rest) (bs_width self))
  end.
Proof.
  revert m self buf rest.
  induction fuel as [|fuel IH]; intros m self buf rest Hf Hsh Hpl Hop Hol Hb Hn Hin; [lia|].
  pose proof Hsh as [Hw H4]. pose proof Hin as [Hdel Heof]. cbn [read_loop].
  pose proof (zlen_nonneg buf) as Hb0.
  assert (∀ m' inner eof, delivers m' inner [] →
    swaps m' (set_inner self inner eof) []) as Hend.
  { intros m' inner eof Hi. eapply (swaps_raw _ _ _ []); try done; cbn; [lia|].
    rewrite Hpl, sub_list_empty by lia. destruct Hw as [-> | ->]; done. }
  destruct (bs_eof self) eqn:He.
  { rewrite Heof in * by done. do 2 eexists. split; [reflexivity|]. split; [lia|].
    rewrite app_nil_r. split; [done|]. exists [], m. rewrite app_nil_r. split_and!; [|lia|].
    - by apply swap_groups_short.
    - specialize (Hend m (bs_inner self) true Hdel). destruct self; cbn in *; by subst. }
  destruct (delivers_read _ _ _ (n - zlen buf) Hdel ltac:(lia))
    as [c rest' inner m' -> Hcn -> Hc0 Hm Hd'|e inner m' -> Hi Hm Hd'].
  2:{ do 2 eexists. split; [reflexivity|]. split; [done|]. exists m'. split; [done|].
      eapply (swaps_raw _ _ _ rest); cbn; try done.
      - split; cbn; [done|]. rewrite zlen_copy_at; destruct Hw; lia.
      - by rewrite sub_array_copy. }
  rewrite zlen_app. cbn [bs_width set_inner bs_eof]. set (w := bs_width self) in *.
  rewrite app_assoc. set (full := buf ++ c) in *.
  replace (zlen buf + zlen c) with (zlen full) by (unfold full; by rewrite zlen_app).
  pose proof (zlen_nonneg full) as Hfull0.
  assert (0 < w) as Hw0 by (destruct Hw; lia).
  pose proof (Z.div_mod (zlen full) w ltac:(lia)) as Hdm.
  pose proof (Z.mod_pos_bound (zlen full) w Hw0) as Hmod.
  set (complete := zlen full / w * w) in *.
  assert (zlen full ≤ n) as Hfn by (unfold full; rewrite zlen_app; lia).
  assert (0 ≤ zlen full / w) by (apply Z.div_pos; lia).
  case_decide as Hcomp.
  - do 2 eexists. split; [reflexivity|].
    assert (zlen (sub_list 0 complete full) = complete) as Hz by (rewrite zlen_sub_list; nia).
    assert (zlen (sub_list complete (zlen full) full) = zlen full - complete) as Hzt
      by (rewrite zlen_sub_list; nia).
    cbv beta iota. fold w. rewrite zlen_swap_groups, Hz. split; [nia|]. split.
    { intros Hnil. apply (f_equal zlen) in Hnil. rewrite zlen_swap_groups, Hz in Hnil.
      change (zlen (@nil Z)) with 0 in Hnil. lia. }
    exists (swap_groups (sub_list complete (zlen full) full ++ rest') w), m'. split_and!; [|done|].
    + rewrite <- (swap_groups_app _ _ _ (zlen full / w)) by (try done; rewrite Hz; unfold complete; ring).
      by rewrite app_assoc, sub_array_split by nia.
    + eapply (swaps_raw _ _ _ rest'); cbn; try done.
      * split; cbn; [done|]. rewrite zlen_copy_at; rewrite ?Hzt; destruct Hw; nia.
      * fold w. nia.
      * split; [done|]. cbn. intros Hc%bool_decide_eq_true. subst c. by rewrite app_nil_l in Hc0; apply Hc0.
      * rewrite <- Hzt, sub_array_copy. done.
  - assert (zlen full < w) as Hlt by nia.
    case_bool_decide as Hc.
    + subst c. specialize (Hc0 eq_refl). rewrite app_nil_l in Hc0. subst rest'.
      do 2 eexists. split; [reflexivity|]. rewrite app_nil_r. split; [done|]. split; [done|].
      exists [], m'. rewrite app_nil_r. split_and!; [by apply swap_groups_short|done|].
      apply Hend. done.
    + destruct (IH m' (set_inner self inner false) full rest') as (r & s2 & Hrun & Hx); cbn; try done.
      * assert (1 ≤ zlen c) by (destruct c; [done|unfold zlen; cbn; lia]).
        unfold full in *. rewrite zlen_app in *. fold w. lia.
      * exists r, s2. split; [done|]. cbn in Hx. fold w in Hx. destruct r as [c'|e].
        -- destruct Hx as (? & ? & tail & m2 & ? & ? & ?). split_and!; try done.
           exists tail, m2. split_and!; [done|lia|done].
        -- destruct Hx as (? & m2 & ? & ?). split; [done|]. exists m2. split; [lia|done].
Qed.

Lemma swaps_inv : reader_inv swaps.
Proof.
  intros m self d n Hs Hn.
  assert (∀ r self', reader_read self n = (r, self') →
    match r with
    | Ok c => zlen c ≤ n ∧ (c = [] → d = []) ∧
        ∃ rest m', d = c ++ rest ∧ (m' ≤ m)%nat ∧ swaps m' self' rest
    | Err e => interrupted e = true ∧ ∃ m', (m' < m)%nat ∧ swaps m' self' d
    end → read_step swaps m self d n) as Hfin.
  { intros [c|e] self' Hr Hx.
    - destruct Hx as (? & ? & rest & m' & -> & ? & ?). by eapply read_gives.
    - destruct Hx as (? & m' & ? & ?). by eapply read_interrupted. }
  unfold reader_read, ByteSwapReader_read in Hfin. rewrite decide_False in Hfin by lia.
  case_decide as Ho.
  - destruct Hs as [rest Hsh Hpl Hpos Hlen Hin ->|]; [|lia].
    destruct (drain_pending_output self n) as [out s2] eqn:Ed. eapply Hfin; [reflexivity|].
    eapply drain_step in Ed as (? & ? & tail & -> & ?); try done.
    split_and!; try done. by exists tail, m.
  - assert (bs_pending_output_length self = 0) as Hol by (destruct Hs; lia).
    case_decide as Hsm.
    + destruct (read_small_step m self d n Hs Hol Hn) as (r & s2 & Hr & Hx). by eapply Hfin.
    + destruct Hs as [rest ? ? ? ? ? ?|rest Hsh Hop _ Hpl Hin ->]; [lia|].
      pose proof Hsh as [Hw H4].
      assert (zlen (sub_list 0 (bs_pending_len self) (bs_pending self)) = bs_pending_len self) as Hz
        by (rewrite zlen_sub_list; destruct Hw; lia).
      destruct (read_loop_step loop_fuel m (set_pending self (bs_pending self) 0) n
        (sub_list 0 (bs_pending_len self) (bs_pending self)) rest) as (r & s2 & Hr & Hx); cbn; try done; try lia.
      { unfold loop_fuel. rewrite Hz. destruct (bs_eof self); [lia|]. destruct Hw; lia. }
      eapply Hfin; [exact Hr|]. cbn in Hx. destruct r as [c|e]; [|done].
      destruct Hx as (? & Hnil & ?). split_and!; try done. intros Hc. rewrite Hnil by done.
      destruct Hw as [-> | ->]; done.
Qed.

End refine.

Lemma swap_groups2_involutive n a : (length a ≤ n)%nat → swap_groups2 (swap_groups2 a) = a.
Proof.
  revert a. induction n as [|n IH]; intros [|x [|y a]] Hn; cbn in *; try done; [lia|].
  by rewrite IH by lia.
Qed.
Lemma swap_groups4_involutive n a : (length a ≤ n)%nat → swap_groups4 (swap_groups4 a) = a.
Proof.
  revert a. induction n as [|n IH]; intros [|x [|y [|z [|w a]]]] Hn; cbn in *; try done; [lia|].
  by rewrite IH by lia.
Qed.

Lemma ByteSwapReader_delivers {S} `{Reader S} (inner : S) m data w :
  swap_width w → delivers m inner data →
  delivers m (ByteSwapReader_new inner w) (swap_groups data w).
Proof.
  intros Hw Hd. exists swaps. split; [apply swaps_inv|]. eapply (swaps_raw _ _ _ data); cbn; try done.
  destruct Hw; lia.
Qed.

(** ** Properties *)

(** C31. The byte-swap filter refines the swap of the whole stream: over any reader
    that delivers some bytes, in however short reads, with interruptions and for
    buffers of any lengths, it delivers those bytes with every whole group reversed
    and an incomplete last group kept, and no interruption loses a byte. Swapping
    twice gives the stream back. *)
Theorem byte_swap_delivers {S} `{Reader S} (inner : S) m data w :
  swap_width w → delivers m inner data →
  delivers m (ByteSwapReader_new inner w) (swap_groups data w) ∧
  swap_groups (swap_groups data w) w = data.
Proof.
  intros Hw Hd. split.
  - by apply ByteSwapReader_delivers.
  - unfold swap_groups. destruct Hw as [-> | ->]; cbn;
      [by eapply swap_groups2_involutive|by eapply swap_groups4_involutive].
Qed.

(** ** Bounds *)

Lemma zlen_sub_list_le {A} a b (l : list A) : zlen (sub_list a b l) ≤ Z.max 0 (b - a).
Proof. unfold sub_list, zlen. rewrite length_take. lia. Qed.

Section bounds.
  Context {S : Type} `{Reader S}.
  Implicit Types self : ByteSwapReader S.

(** No more raw bytes are pending than a group has. *)
Definition swap_bounded self : Prop :=
  bounded (bs_inner self) ∧ 0 ≤ bs_pending_len self ≤ bs_width self ∧ 0 < bs_width self.

Lemma drain_bounded self n out self' :
  0 ≤ n → drain_pending_output self n = (out, self') → zlen out ≤ n ∧ (swap_bounded self → swap_bounded self').
Proof.
  intros Hn. unfold drain_pending_output. set (k := Z.min _ n).
  pose proof (zlen_sub_list_le (bs_pending_output_position self) (bs_pending_output_position self + k)
    (bs_pending self)) as Hz.
  intros [= <- <-]. split; [unfold k in *; lia|]. by case_decide.
Qed.

Lemma fill_group_bounded fuel self res self' :
  swap_bounded self → fill_group fuel self = (res, self') → swap_bounded self'.
Proof.
  revert self. induction fuel as [|fuel IH]; intros self Hs; cbn [fill_group]; [by intros [= <- <-]|].
  case_decide as Hd; [|by intros [= <- <-]]. pose proof Hs as (Hb & Hp & Hw).
  destruct (reader_read (bs_inner self) _) as [[c|e] inner] eqn:Er;
    apply bounded_read in Er as [Hb' Hc]; try done; try lia.
  - destruct c as [|x c]; [by apply IH|]. set (chunk := x :: c) in *. pose proof (zlen_nonneg chunk).
    apply IH. split_and!; cbn; (done || lia).
  - by intros [= <- <-].
Qed.

Lemma read_small_bounded self n res self' :
  0 ≤ n → swap_bounded self → read_small self n = (res, self') →
  swap_bounded self' ∧ match res with Ok c => zlen c ≤ n | Err _ => True end.
Proof.
  intros Hn Hs. unfold read_small. case_decide as Ho.
  { destruct (drain_pending_output self n) as [out s'] eqn:Ed. apply drain_bounded in Ed as [? Hk]; [|done].
    intros [= <- <-]. split; [by apply Hk|done]. }
  destruct (fill_group loop_fuel self) as [[[]|e] s1] eqn:Ef; apply fill_group_bounded in Ef; try done;
    [|by intros [= <- <-]].
  case_decide as H0; [intros [= <- <-]; rewrite zlen_nil; by split|].
  destruct (drain_pending_output _ n) as [out s'] eqn:Ed. apply drain_bounded in Ed as [? Hk]; [|done].
  intros [= <- <-]. split; [|done]. apply Hk. destruct Ef as (? & ? & ?). split_and!; cbn; (done || lia).
Qed.

Lemma read_loop_bounded fuel self n buf res self' :
  bounded (bs_inner self) → 0 < bs_width self → bs_pending_len self = 0 →
  zlen buf ≤ n → zlen buf ≤ bs_width self →
  read_loop fuel self n buf = (res, self') →
  swap_bounded self' ∧ match res with Ok c => zlen c ≤ n | Err _ => True end.
Proof.
  revert self buf. induction fuel as [|fuel IH]; intros self buf Hb Hw Hp Hn Hl; cbn [read_loop].
  { intros [= <- <-]. split; [|done]. split_and!; (done || lia). }
  destruct (bs_eof self); [intros [= <- <-]; split; [split_and!; (done || lia)|done]|].
  pose proof (zlen_nonneg buf).
  destruct (reader_read (bs_inner self) _) as [[c|e] inner] eqn:Er;
    apply bounded_read in Er as [Hb' Hc]; try done; try lia.
  2:{ intros [= <- <-]. split; [|done]. split_and!; cbn; (done || lia). }
  pose proof (zlen_nonneg c). cbv zeta. set (buf2 := buf ++ c) in *.
  assert (zlen buf2 ≤ n) by (unfold buf2; rewrite zlen_app; lia). pose proof (zlen_nonneg buf2).
  set (s1 := set_inner self inner _). change (bs_width s1) with (bs_width self).
  pose proof (Z.mul_div_le (zlen buf2) (bs_width self) Hw).
  pose proof (Z.mul_succ_div_gt (zlen buf2) (bs_width self) Hw).
  case_decide as Hcomp.
  - intros [= <- <-]. rewrite zlen_swap_groups.
    pose proof (zlen_sub_list_le 0 (zlen buf2 / bs_width self * bs_width self) buf2).
    split; [split_and!; cbn; (done || lia)|lia].
  - assert (zlen buf2 < bs_width self) by nia.
    destruct (bs_eof s1); [intros [= <- <-]; split; [split_and!; cbn; (done || lia)|done]|].
    apply IH; cbn; (done || lia).
Qed.

Lemma ByteSwapReader_bounded (inner : S) width :
  bounded inner → 0 < width → bounded (ByteSwapReader_new inner width).
Proof.
  intros Hi Hw. exists swap_bounded. split; [|split_and!; cbn; (done || lia)].
  intros self n res self' Hs Hn. unfold reader_read at 1, ByteSwapReader_read.
  case_decide as H0; [intros [= <- <-]; split; [done|rewrite zlen_nil; lia]|].
  case_decide as Ho.
  { destruct (drain_pending_output self n) as [out s'] eqn:Ed. apply drain_bounded in Ed as [? Hk]; [|done].
    intros [= <- <-]. split; [by apply Hk|done]. }
  case_decide; [by apply read_small_bounded|]. destruct Hs as (Hb & Hp & Hw').
  pose proof (zlen_sub_list_le 0 (bs_pending_len self) (bs_pending self)).
  apply read_loop_bounded; cbn; (done || lia).
Qed.

End bounds.

(** ** Witnesses *)

Definition sample_swap_source : ScriptReader :=
  {| sr_data := [1; 2; 3; 4; 5; 6; 7]; sr_script := [AtMost 0; Interrupt; AtMost 1; Interrupt] |}.

Lemma byte_swap_delivers_witness :
  swap_groups [1; 2; 3; 4; 5; 6; 7] 4 = [4; 3; 2; 1; 5; 6; 7] ∧
  delivers 4 (ByteSwapReader_new sample_swap_source 4) (swap_groups [1; 2; 3; 4; 5; 6; 7] 4) ∧
  swap_groups (swap_groups [1; 2; 3; 4; 5; 6; 7] 4) 4 = [1; 2; 3; 4; 5; 6; 7].
Proof.
  split; [vm_compute; reflexivity|].
  apply (byte_swap_delivers sample_swap_source 4 [1; 2; 3; 4; 5; 6; 7] 4);
    [right; reflexivity|apply (ScriptReader_delivers [1; 2; 3; 4; 5; 6; 7]
      [AtMost 0; Interrupt; AtMost 1; Interrupt])].
Defined.

(** The reader run on the sample: every byte arrives in spite of the interruptions. *)
Example byte_swap_run :
  fst (read_to_end 20 (λ k, 1 + Z.of_nat (k mod 5)) (ByteSwapReader_new sample_swap_source 4) []) =
  Ok [4; 3; 2; 1; 5; 6; 7].
Proof. vm_compute. reflexivity. Qed.
