(* ===== verification/Resources.v ===== *)
(** * Resource budgets (src/src/resources.rs)

    The limits of an archive operation and the counters its nested steps share.
    A charge returns the charged budget; on an error nothing is assigned. *)

From stdpp Require Import base numbers list option strings relations.
From Stdlib Require Import ZArith Lia.
From S2P Require Import Prelude Error Operation.

(** ** Limits *)

Definition DEFAULT_METADATA_BYTES : Z := 64 * 1024 * 1024.
Definition DEFAULT_OPEN_VOLUMES : Z := 128.

Record ResourceLimits := {
  max_signature_scan_bytes : Z;
  max_metadata_bytes : Z;
  max_decoder_working_set_bytes : option Z;
  max_encoder_working_set_bytes : option Z;
  max_total_decoded_bytes : option Z;
  max_total_kdf_cycles : option Z;
  max_retained_output_bytes : option Z;
  max_temporary_storage_bytes : option Z;
  max_volume_count : option Z;
  max_open_volumes : Z
}.

Definition ResourceLimits_default : ResourceLimits :=
  {| max_signature_scan_bytes := DEFAULT_METADATA_BYTES;
     max_metadata_bytes := DEFAULT_METADATA_BYTES;
     max_decoder_working_set_bytes := None; max_encoder_working_set_bytes := None;
     max_total_decoded_bytes := None; max_total_kdf_cycles := None;
     max_retained_output_bytes := None; max_temporary_storage_bytes := None;
     max_volume_count := None; max_open_volumes := DEFAULT_OPEN_VOLUMES |}.

(** ** Counters *)

Definition resource_limit (resource : string) (limit : Z) : R7zError :=
  ResourceLimitExceeded resource limit.

(** [limit.is_some_and(|limit| total > limit)]. *)
Definition over (limit : option Z) (total : Z) : bool :=
  match limit with Some limit => bool_decide (limit < total) | None => false end.

(** Without a limit the counter saturates. *)
Definition next_total (used amount : Z) (limit : option Z) (resource : string) : result Z R7zError :=
  match checked_add used amount with
  | None => match limit with
            | None => Ok u64_max
            | Some limit => Err (resource_limit resource limit)
            end
  | Some total =>
      if over limit total then Err (resource_limit resource (default u64_max limit)) else Ok total
  end.

Record KdfBudget := { kb_used : Z; kb_limit : option Z }.
Definition KdfBudget_new (limit : option Z) : KdfBudget := {| kb_used := 0; kb_limit := limit |}.
Definition KdfBudget_charge (self : KdfBudget) (cycles : Z) : result KdfBudget R7zError :=
  let? used := next_total (kb_used self) cycles (kb_limit self) "AES KDF cycles" in
  Ok {| kb_used := used; kb_limit := kb_limit self |}.

Record VolumeCountBudget := { vc_created : Z; vc_limit : option Z }.
Definition VolumeCountBudget_new (limit : option Z) : VolumeCountBudget :=
  {| vc_created := 0; vc_limit := limit |}.
Definition VolumeCountBudget_charge (self : VolumeCountBudget) (count : Z) :
    result VolumeCountBudget R7zError :=
  let exceeded := resource_limit "archive volume count" (default u64_max (vc_limit self)) in
  match checked_add (vc_created self) count with
  | None => Err exceeded
  | Some created =>
      if over (vc_limit self) created then Err exceeded
      else Ok {| vc_created := created; vc_limit := vc_limit self |}
  end.

Record OpenVolumeBudget := { ov_open : Z; ov_limit : Z }.
Definition OpenVolumeBudget_new (limit : Z) : OpenVolumeBudget :=
  {| ov_open := 0; ov_limit := limit |}.
Definition OpenVolumeBudget_charge (self : OpenVolumeBudget) : result OpenVolumeBudget R7zError :=
  let exceeded := resource_limit "open archive volumes" (ov_limit self) in
  match checked_add (ov_open self) 1 with
  | None => Err exceeded
  | Some opened =>
      if decide (ov_limit self < opened) then Err exceeded
      else Ok {| ov_open := opened; ov_limit := ov_limit self |}
  end.
Definition OpenVolumeBudget_release (self : OpenVolumeBudget) : OpenVolumeBudget :=
  {| ov_open := saturating_sub (ov_open self) 1; ov_limit := ov_limit self |}.

Record TemporaryStorageBudget := { ts_written : Z; ts_limit : option Z }.
Definition TemporaryStorageBudget_new (limit : option Z) : TemporaryStorageBudget :=
  {| ts_written := 0; ts_limit := limit |}.
Definition TemporaryStorageBudget_check_write (self : TemporaryStorageBudget) (b : Z) :
    result unit R7zError :=
  result_map (λ _, tt) (next_total (ts_written self) b (ts_limit self) "temporary storage").
Definition TemporaryStorageBudget_charge_write (self : TemporaryStorageBudget) (b : Z) :
    result TemporaryStorageBudget R7zError :=
  let? written := next_total (ts_written self) b (ts_limit self) "temporary storage" in
  Ok {| ts_written := written; ts_limit := ts_limit self |}.

Record RetainedOutputBudget := { ro_retained : Z; ro_limit : option Z }.
Definition RetainedOutputBudget_new (limit : option Z) : RetainedOutputBudget :=
  {| ro_retained := 0; ro_limit := limit |}.
Definition RetainedOutputBudget_resized_total (self : RetainedOutputBudget) (current next : Z) :
    result Z R7zError :=
  let retained := saturating_sub (ro_retained self) current in
  next_total retained next (ro_limit self) "retained output".
Definition RetainedOutputBudget_check_resize (self : RetainedOutputBudget) (current next : Z) :
    result unit R7zError :=
  result_map (λ _, tt) (RetainedOutputBudget_resized_total self current next).
Definition RetainedOutputBudget_resize (self : RetainedOutputBudget) (current next : Z) :
    result RetainedOutputBudget R7zError :=
  let? retained := RetainedOutputBudget_resized_total self current next in
  Ok {| ro_retained := retained; ro_limit := ro_limit self |}.
Definition RetainedOutputBudget_reserve (self : RetainedOutputBudget) (b : Z) :
    result RetainedOutputBudget R7zError :=
  RetainedOutputBudget_resize self 0 b.
Definition RetainedOutputBudget_release (self : RetainedOutputBudget) (b : Z) : RetainedOutputBudget :=
  {| ro_retained := saturating_sub (ro_retained self) b; ro_limit := ro_limit self |}.

(** ** The budget of an operation *)

Record OperationBudget := {
  ob_monitor : OperationMonitor;
  ob_limits : ResourceLimits;
  ob_metadata : Z;
  ob_decoded : Z;
  ob_peak_decoder_working_set : Z;
  ob_kdf : KdfBudget;
  ob_temporary_storage : TemporaryStorageBudget;
  ob_retained_output : RetainedOutputBudget;
  ob_open_volumes : OpenVolumeBudget;
  ob_volume_count : VolumeCountBudget
}.

Definition OperationBudget_new (limits : ResourceLimits) : OperationBudget :=
  {| ob_monitor := OperationMonitor_default; ob_limits := limits; ob_metadata := 0; ob_decoded := 0; ob_peak_decoder_working_set := 0;
     ob_kdf := KdfBudget_new (max_total_kdf_cycles limits);
     ob_temporary_storage := TemporaryStorageBudget_new (max_temporary_storage_bytes limits);
     ob_retained_output := RetainedOutputBudget_new (max_retained_output_bytes limits);
     ob_open_volumes := OpenVolumeBudget_new (max_open_volumes limits);
     ob_volume_count := VolumeCountBudget_new (max_volume_count limits) |}.

(** Field updates. *)
Definition set_counters (b : OperationBudget) (metadata decoded peak : Z) : OperationBudget :=
  {| ob_monitor := ob_monitor b; ob_limits := ob_limits b; ob_metadata := metadata; ob_decoded := decoded;
     ob_peak_decoder_working_set := peak; ob_kdf := ob_kdf b;
     ob_temporary_storage := ob_temporary_storage b; ob_retained_output := ob_retained_output b;
     ob_open_volumes := ob_open_volumes b; ob_volume_count := ob_volume_count b |}.
Definition set_kdf (b : OperationBudget) (k : KdfBudget) : OperationBudget :=
  {| ob_monitor := ob_monitor b; ob_limits := ob_limits b; ob_metadata := ob_metadata b; ob_decoded := ob_decoded b;
     ob_peak_decoder_working_set := ob_peak_decoder_working_set b; ob_kdf := k;
     ob_temporary_storage := ob_temporary_storage b; ob_retained_output := ob_retained_output b;
     ob_open_volumes := ob_open_volumes b; ob_volume_count := ob_volume_count b |}.
Definition set_retained (b : OperationBudget) (r : RetainedOutputBudget) : OperationBudget :=
  {| ob_monitor := ob_monitor b; ob_limits := ob_limits b; ob_metadata := ob_metadata b; ob_decoded := ob_decoded b;
     ob_peak_decoder_working_set := ob_peak_decoder_working_set b; ob_kdf := ob_kdf b;
     ob_temporary_storage := ob_temporary_storage b; ob_retained_output := r;
     ob_open_volumes := ob_open_volumes b; ob_volume_count := ob_volume_count b |}.
Definition set_open_volumes (b : OperationBudget) (v : OpenVolumeBudget) : OperationBudget :=
  {| ob_monitor := ob_monitor b; ob_limits := ob_limits b; ob_metadata := ob_metadata b; ob_decoded := ob_decoded b;
     ob_peak_decoder_working_set := ob_peak_decoder_working_set b; ob_kdf := ob_kdf b;
     ob_temporary_storage := ob_temporary_storage b; ob_retained_output := ob_retained_output b;
     ob_open_volumes := v; ob_volume_count := ob_volume_count b |}.

Definition set_monitor (b : OperationBudget) (m : OperationMonitor) : OperationBudget :=
  {| ob_monitor := m; ob_limits := ob_limits b; ob_metadata := ob_metadata b;
     ob_decoded := ob_decoded b;
     ob_peak_decoder_working_set := ob_peak_decoder_working_set b; ob_kdf := ob_kdf b;
     ob_temporary_storage := ob_temporary_storage b; ob_retained_output := ob_retained_output b;
     ob_open_volumes := ob_open_volumes b; ob_volume_count := ob_volume_count b |}.

Definition with_control (self : OperationBudget) (control : option OperationControl) :
    OperationBudget := set_monitor self (OperationMonitor_new control).

Record SpoolBudget := {
  sb_temporary_storage : TemporaryStorageBudget;
  sb_retained_output : RetainedOutputBudget
}.
Record WriterOperation := { wo_kdf : KdfBudget; wo_monitor : OperationMonitor }.
Record WriterBudgets := {
  wb_operation : WriterOperation;
  wb_spool : SpoolBudget;
  wb_open_volumes : OpenVolumeBudget;
  wb_volume_count : VolumeCountBudget
}.

Definition into_writer_budgets (self : OperationBudget) : WriterBudgets :=
  {| wb_operation := {| wo_kdf := ob_kdf self;
                        wo_monitor := OperationMonitor_for_phase (ob_monitor self) PhaseWrite |};
     wb_spool := {| sb_temporary_storage := ob_temporary_storage self;
                    sb_retained_output := ob_retained_output self |};
     wb_open_volumes := ob_open_volumes self; wb_volume_count := ob_volume_count self |}.

(** The subtractions below cannot underflow: [budget_ok]. *)
Definition decoded_remaining (self : OperationBudget) : option Z :=
  (λ limit, limit - ob_decoded self) <$> max_total_decoded_bytes (ob_limits self).
Definition metadata_remaining (self : OperationBudget) : Z :=
  max_metadata_bytes (ob_limits self) - ob_metadata self.

Definition metadata_limit_error (self : OperationBudget) : R7zError :=
  ResourceLimitExceeded "metadata" (max_metadata_bytes (ob_limits self)).

Definition charge_metadata (self : OperationBudget) (b : Z) : result OperationBudget R7zError :=
  match checked_add (ob_metadata self) b with
  | None => Err (metadata_limit_error self)
  | Some used =>
      if decide (max_metadata_bytes (ob_limits self) < used) then Err (metadata_limit_error self)
      else Ok (set_counters self used (ob_decoded self) (ob_peak_decoder_working_set self))
  end.

Definition map_metadata_error (self : OperationBudget) (error : R7zError) : R7zError :=
  if decide (error = LimitExceeded "metadata") then metadata_limit_error self else error.

Definition decoded_limit_error (self : OperationBudget) : R7zError :=
  ResourceLimitExceeded "total decoded output"
    (default u64_max (max_total_decoded_bytes (ob_limits self))).

Definition next_decoded (self : OperationBudget) (b : Z) : result Z R7zError :=
  let limit := max_total_decoded_bytes (ob_limits self) in
  match checked_add (ob_decoded self) b with
  | None => match limit with None => Ok u64_max | Some _ => Err (decoded_limit_error self) end
  | Some decoded => if over limit decoded then Err (decoded_limit_error self) else Ok decoded
  end.

Definition set_decoded (self : OperationBudget) (decoded : Z) : OperationBudget :=
  set_counters self (ob_metadata self) decoded (ob_peak_decoder_working_set self).

Definition charge_decoded (self : OperationBudget) (b : Z) : result OperationBudget R7zError :=
  let? decoded := next_decoded self b in Ok (set_decoded self decoded).

(** The errors that come before any output was produced. *)
Definition before_output (error : R7zError) : bool :=
  match error with
  | PasswordRequired => true
  | ResourceLimitExceeded resource _ => bool_decide (resource = "AES KDF cycles"%string)
  | _ => false
  end.

(** [start] keeps what it did to the budget when it fails. *)
Definition with_eager_decoded_output {T} (self : OperationBudget) (b : Z)
    (start : OperationBudget → result T R7zError * OperationBudget) :
    result T R7zError * OperationBudget :=
  match next_decoded self b with
  | Err e => (Err e, self)
  | Ok next_total =>
      match start self with
      | (Ok output, self) => (Ok output, set_decoded self next_total)
      | (Err error, self) =>
          (Err error, if before_output error then self else set_decoded self next_total)
      end
  end.

Definition MAX_DECODER_WORKING_SET_BYTES : Z := 512 * 1024 * 1024.

Definition admit_decoder_working_set (self : OperationBudget) (b : Z) :
    result OperationBudget R7zError :=
  let limit := match max_decoder_working_set_bytes (ob_limits self) with
               | None => MAX_DECODER_WORKING_SET_BYTES
               | Some configured => Z.min configured MAX_DECODER_WORKING_SET_BYTES
               end in
  if decide (limit < b) then Err (ResourceLimitExceeded "decoder working set" limit)
  else Ok (set_counters self (ob_metadata self) (ob_decoded self)
                        (Z.max (ob_peak_decoder_working_set self) b)).

Definition charge_kdf_cycles (self : OperationBudget) (cycles : Z) : result OperationBudget R7zError :=
  let? kdf := KdfBudget_charge (ob_kdf self) cycles in Ok (set_kdf self kdf).

Definition with_retained_output_reservation {T} (self : OperationBudget) (b : Z)
    (operation : OperationBudget → result T R7zError * OperationBudget) :
    result T R7zError * OperationBudget :=
  match RetainedOutputBudget_reserve (ob_retained_output self) b with
  | Err e => (Err e, self)
  | Ok retained =>
      let '(res, self) := operation (set_retained self retained) in
      (res, set_retained self (RetainedOutputBudget_release (ob_retained_output self) b))
  end.

Definition charge_open_volume (self : OperationBudget) : result OperationBudget R7zError :=
  let? v := OpenVolumeBudget_charge (ob_open_volumes self) in Ok (set_open_volumes self v).
Definition release_open_volume (self : OperationBudget) : OperationBudget :=
  set_open_volumes self (OpenVolumeBudget_release (ob_open_volumes self)).

(** ** Invariants *)

Definition limit_ok (limit : option Z) : Prop := from_option is_u64 True limit.
Definition under (limit : option Z) (v : Z) : Prop := is_u64 v ∧ over limit v = false.

Record limits_ok (l : ResourceLimits) : Prop := {
  lk_metadata : is_u64 (max_metadata_bytes l);
  lk_working_set : limit_ok (max_decoder_working_set_bytes l);
  lk_decoded : limit_ok (max_total_decoded_bytes l);
  lk_kdf : limit_ok (max_total_kdf_cycles l);
  lk_retained : limit_ok (max_retained_output_bytes l);
  lk_temporary : limit_ok (max_temporary_storage_bytes l);
  lk_count : limit_ok (max_volume_count l);
  lk_open : 1 ≤ max_open_volumes l ≤ usize_max
}.

(** Every counter is within its limit, and the limits are the operation's. *)
Record budget_ok (b : OperationBudget) : Prop := {
  bo_limits : limits_ok (ob_limits b);
  bo_metadata : 0 ≤ ob_metadata b ≤ max_metadata_bytes (ob_limits b);
  bo_decoded : under (max_total_decoded_bytes (ob_limits b)) (ob_decoded b);
  bo_peak : 0 ≤ ob_peak_decoder_working_set b ≤ MAX_DECODER_WORKING_SET_BYTES ∧
            from_option (λ l, ob_peak_decoder_working_set b ≤ l) True (max_decoder_working_set_bytes (ob_limits b));
  bo_kdf : under (kb_limit (ob_kdf b)) (kb_used (ob_kdf b)) ∧
           kb_limit (ob_kdf b) = max_total_kdf_cycles (ob_limits b);
  bo_retained : under (ro_limit (ob_retained_output b)) (ro_retained (ob_retained_output b)) ∧
                ro_limit (ob_retained_output b) = max_retained_output_bytes (ob_limits b);
  bo_open : 0 ≤ ov_open (ob_open_volumes b) ≤ ov_limit (ob_open_volumes b) ∧
            ov_limit (ob_open_volumes b) = max_open_volumes (ob_limits b);
  bo_temporary : under (ts_limit (ob_temporary_storage b)) (ts_written (ob_temporary_storage b)) ∧
                 ts_limit (ob_temporary_storage b) = max_temporary_storage_bytes (ob_limits b);
  bo_volumes : under (vc_limit (ob_volume_count b)) (vc_created (ob_volume_count b)) ∧
               vc_limit (ob_volume_count b) = max_volume_count (ob_limits b)
}.

(** The ways an operation changes its budget. *)
Inductive budget_step : OperationBudget → OperationBudget → Prop :=
| step_metadata b n b' : is_u64 n → charge_metadata b n = Ok b' → budget_step b b'
| step_decoded b n b' : is_u64 n → charge_decoded b n = Ok b' → budget_step b b'
| step_working_set b n b' : is_u64 n → admit_decoder_working_set b n = Ok b' → budget_step b b'
| step_kdf b n b' : is_u64 n → charge_kdf_cycles b n = Ok b' → budget_step b b'
| step_reserve b n r : is_u64 n → RetainedOutputBudget_reserve (ob_retained_output b) n = Ok r →
    budget_step b (set_retained b r)
| step_release b n : is_u64 n →
    budget_step b (set_retained b (RetainedOutputBudget_release (ob_retained_output b) n))
| step_open b b' : charge_open_volume b = Ok b' → budget_step b b'
| step_close b : budget_step b (release_open_volume b)
| step_monitor b m : budget_step b (set_monitor b m).

Lemma over_spec limit v :
  over limit v = false ↔ match limit with Some l => v ≤ l | None => True end.
Proof.
  destruct limit as [l|]; cbn; [|done]. rewrite bool_decide_eq_false. lia.
Qed.

Lemma next_total_under used amount limit res total :
  is_u64 used → is_u64 amount → limit_ok limit → next_total used amount limit res = Ok total →
  under limit total ∧ total = Z.min u64_max (used + amount).
Proof.
  unfold next_total, checked_add, is_u64. intros Hu Ha Hl. case_decide as Hd.
  - destruct (over limit _) eqn:Eo; [done|]. intros [= <-]. split; [split; [unfold is_u64; lia|done]|lia].
  - destruct limit; [done|]. intros [= <-]. split; [split; [unfold is_u64; lia|done]|lia].
Qed.

Lemma under_less limit v w : under limit v → 0 ≤ w ≤ v → under limit w.
Proof.
  intros [Hv Ho] Hw. split; [unfold is_u64 in *; lia|]. apply over_spec in Ho. apply over_spec.
  destruct limit; [lia|done].
Qed.

Lemma budget_new_ok limits : limits_ok limits → budget_ok (OperationBudget_new limits).
Proof.
  intros Hl. assert (∀ o, limit_ok o → under o 0) as H0.
  { intros o Ho. split; [done|]. apply over_spec. destruct o; [|done]. cbn in Ho. unfold is_u64 in Ho. lia. }
  pose proof (lk_working_set _ Hl) as Hw. destruct Hl.
  split; cbn; try done; try (split; [|done]); auto; unfold is_u64 in *; try lia.
  split; [done|]. destruct (max_decoder_working_set_bytes limits); [|done]. cbn in *. unfold is_u64 in *. lia.
Qed.

Lemma budget_step_ok b b' : budget_ok b → budget_step b b' → budget_ok b'.
Proof.
  intros [Hl Hm Hd [Hp Hpc] [Hk Hke] [Hr Hre] [Ho Hoe] Htmp Hvol] Hs.
  destruct Hs as [b n b' Hn Hc|b n b' Hn Hc|b n b' Hn Hc|b n b' Hn Hc|b n r Hn Hc|b n Hn|b b' Hc|b|b m].
  - unfold charge_metadata, checked_add in Hc. repeat case_decide; try done. injection Hc as <-.
    split; cbn; try done. unfold is_u64 in Hn. lia.
  - unfold charge_decoded in Hc. destruct (next_decoded b n) as [d|] eqn:E; [|done]. injection Hc as <-.
    split; cbn; try done.
    unfold next_decoded in E. assert (next_total (ob_decoded b) n (max_total_decoded_bytes (ob_limits b)) "" =
      Ok d) as Ht.
    { unfold next_total. destruct (checked_add _ n); [by destruct (over _ _)|].
      by destruct (max_total_decoded_bytes (ob_limits b)). }
    apply next_total_under in Ht as [? _]; [done|by destruct Hd|done|apply Hl].
  - unfold admit_decoder_working_set in Hc. case_decide as Hlim; [done|]. injection Hc as <-.
    split; cbn; try done. unfold is_u64 in Hn. destruct (max_decoder_working_set_bytes (ob_limits b)); cbn in *; lia.
  - unfold charge_kdf_cycles, KdfBudget_charge in Hc. destruct (next_total _ _ _ _) eqn:E; [|done].
    injection Hc as <-. split; cbn; try done. split; [|done].
    apply next_total_under in E as [? _]; [done|by destruct Hk|done|rewrite Hke; apply Hl].
  - unfold RetainedOutputBudget_reserve, RetainedOutputBudget_resize,
      RetainedOutputBudget_resized_total in Hc. destruct (next_total _ _ _ _) eqn:E; [|done].
    injection Hc as <-. split; cbn; try done. split; [|done].
    apply next_total_under in E as [? _]; [done| |done|rewrite Hre; apply Hl].
    destruct Hr as [Hr _]. unfold saturating_sub, is_u64 in *. lia.
  - split; cbn; try done. split; [|done]. eapply under_less; [exact Hr|]. destruct Hr as [Hr _].
    unfold saturating_sub, is_u64 in *. lia.
  - unfold charge_open_volume, OpenVolumeBudget_charge, checked_add in Hc.
    repeat (case_decide; cbn in Hc; try done). injection Hc as <-. split; cbn; try done. lia.
  - split; cbn; try done. unfold saturating_sub. lia.
  - by split.
Qed.

Lemma budget_step_limits b b' : budget_step b b' → ob_limits b' = ob_limits b.
Proof.
  destruct 1 as [b n b' _ Hc|b n b' _ Hc|b n b' _ Hc|b n b' _ Hc| | |b b' Hc| |]; try done.
  - unfold charge_metadata in Hc. destruct (checked_add _ _); [|done]. case_decide; [done|]. by injection Hc as <-.
  - unfold charge_decoded in Hc. destruct (next_decoded b n); [|done]. by injection Hc as <-.
  - unfold admit_decoder_working_set in Hc. case_decide; [done|]. by injection Hc as <-.
  - unfold charge_kdf_cycles in Hc. destruct (KdfBudget_charge _ _); [|done]. by injection Hc as <-.
  - unfold charge_open_volume in Hc. destruct (OpenVolumeBudget_charge _); [|done]. by injection Hc as <-.
Qed.

Lemma charge_metadata_all b amounts :
  Forall is_u64 amounts → is_u64 (max_metadata_bytes (ob_limits b)) →
  0 ≤ ob_metadata b ≤ max_metadata_bytes (ob_limits b) →
  let total := ob_metadata b + foldr Z.add 0 amounts in
  try_fold charge_metadata b amounts =
    if decide (total ≤ max_metadata_bytes (ob_limits b))
    then Ok (set_counters b total (ob_decoded b) (ob_peak_decoder_working_set b))
    else Err (metadata_limit_error b).
Proof.
  intros Ha Hl. revert b Hl. induction Ha as [|n l Hn Hl' IH]; intros b Hl Hb; cbn.
  - rewrite Z.add_0_r, decide_True by lia. by destruct b.
  - assert (0 ≤ foldr Z.add 0 l) as Hpos.
    { clear -Hl'. induction Hl' as [|m l Hm _ IH]; cbn; [done|]. unfold is_u64 in Hm. lia. }
    unfold charge_metadata at 1, checked_add. unfold is_u64 in *.
    destruct (decide (ob_metadata b + n ≤ max_metadata_bytes (ob_limits b))) as [Hle|Hgt].
    + rewrite decide_True by lia. rewrite decide_False by lia. rewrite IH by (cbn; lia). cbn.
      by rewrite Z.add_assoc.
    + rewrite (decide_False (P := ob_metadata b + (n + _) ≤ _)) by lia.
      case_decide; [|done]. by rewrite decide_True by lia.
Qed.

(** ** Properties *)

(** C36. No counter of an operation ever exceeds its limit, whatever the nested work
    charges, releases or fails to charge, and the limits stay the ones that were set; the
    working set of the decoders stays within the configured limit and within 512 MiB. So
    what remains of the metadata and of the decoded output never underflows. *)
Theorem budgets_within_limits limits b :
  limits_ok limits → rtc budget_step (OperationBudget_new limits) b →
  budget_ok b ∧ ob_limits b = limits ∧ 0 ≤ metadata_remaining b ∧
  ∀ left, decoded_remaining b = Some left → 0 ≤ left.
Proof.
  intros Hl Hr. assert (budget_ok b ∧ ob_limits b = ob_limits (OperationBudget_new limits)) as [Hb Hlim].
  { pose proof (budget_new_ok limits Hl) as H0.
    induction Hr as [|x y z Hs _ IH]; [done|]. rewrite <- (budget_step_limits _ _ Hs). apply IH. by eapply budget_step_ok. }
  split; [done|]. split; [done|]. destruct Hb as [_ Hm [_ Hd] _ _ _ _ _ _]. unfold metadata_remaining, decoded_remaining.
  split; [lia|]. intros left (l & El & ->)%fmap_Some. apply over_spec in Hd. rewrite El in Hd. lia.
Qed.

(** The metadata of nested steps is charged exactly: charging amounts one after
    the other succeeds if and only if their sum fits in what is left, the counter
    then being the sum, and fails with the documented error otherwise. *)
Theorem metadata_charged_exactly b amounts :
  budget_ok b → Forall is_u64 amounts →
  try_fold charge_metadata b amounts =
    if decide (foldr Z.add 0 amounts ≤ metadata_remaining b)
    then Ok (set_counters b (ob_metadata b + foldr Z.add 0 amounts) (ob_decoded b)
               (ob_peak_decoder_working_set b))
    else Err (ResourceLimitExceeded "metadata" (max_metadata_bytes (ob_limits b))).
Proof.
  intros Hb Ha. rewrite charge_metadata_all; [|done|apply Hb|apply Hb].
  unfold metadata_remaining. by repeat case_decide; try lia.
Qed.

(** A retained-output reservation is balanced: after an operation that leaves
    the retained output as it found it, the budget is what it was before the
    reservation, whether the operation succeeded or not; and an operation that does
    not fit is not started. *)
Theorem reservation_balanced {T} b n (operation : OperationBudget → result T R7zError * OperationBudget) :
  budget_ok b → is_u64 n →
  (∀ x, ob_retained_output (snd (operation x)) = ob_retained_output x) →
  (∀ l, ro_limit (ob_retained_output b) = Some l → ro_retained (ob_retained_output b) + n ≤ l →
     fst (with_retained_output_reservation b n operation) =
       fst (operation (set_retained b {| ro_retained := ro_retained (ob_retained_output b) + n;
                                         ro_limit := Some l |})) ∧
     ob_retained_output (snd (with_retained_output_reservation b n operation)) = ob_retained_output b) ∧
  (∀ l, ro_limit (ob_retained_output b) = Some l → l < ro_retained (ob_retained_output b) + n →
     with_retained_output_reservation b n operation =
       (Err (ResourceLimitExceeded "retained output" l), b)).
Proof.
  intros Hb Hn Hop. destruct (bo_retained b Hb) as [[Hr _] Hle]. pose proof (lk_retained _ (bo_limits b Hb)) as Hlk.
  unfold with_retained_output_reservation, RetainedOutputBudget_reserve, RetainedOutputBudget_resize,
    RetainedOutputBudget_resized_total, next_total, checked_add. unfold is_u64 in *.
  assert (saturating_sub (ro_retained (ob_retained_output b)) 0 = ro_retained (ob_retained_output b)) as ->
    by (unfold saturating_sub; lia).
  split; intros l El Hl; rewrite El in *; rewrite <- Hle in Hlk; cbn in Hlk; unfold is_u64 in Hlk.
  - rewrite decide_True by lia. cbn [over]. rewrite bool_decide_eq_false_2 by lia.
    destruct (operation _) as [res b'] eqn:Eo. split; [done|]. cbn [snd ob_retained_output set_retained].
    pose proof (Hop (set_retained b {| ro_retained := ro_retained (ob_retained_output b) + n;
      ro_limit := Some l |})) as Hx. rewrite Eo in Hx. cbn in Hx. rewrite Hx.
    unfold RetainedOutputBudget_release, saturating_sub. cbn. destruct (ob_retained_output b) as [r o].
    cbn in *. subst o. f_equal. lia.
  - case_decide; [|done]. cbn [over]. by rewrite bool_decide_eq_true_2 by lia.
Qed.

(** ** Witnesses *)

Definition sample_limits : ResourceLimits :=
  {| max_signature_scan_bytes := 100; max_metadata_bytes := 1000;
     max_decoder_working_set_bytes := None; max_encoder_working_set_bytes := None;
     max_total_decoded_bytes := Some 50; max_total_kdf_cycles := None;
     max_retained_output_bytes := Some 64; max_temporary_storage_bytes := None;
     max_volume_count := None; max_open_volumes := 2 |}.

Lemma sample_limits_ok : limits_ok sample_limits.
Proof. split; vm_compute; try (split; congruence); done. Defined.

Lemma sample_budget_ok : budget_ok (OperationBudget_new sample_limits).
Proof. apply budget_new_ok, sample_limits_ok. Defined.

Definition sample_charged : OperationBudget :=
  set_counters (OperationBudget_new sample_limits) 400 0 0.

Lemma budgets_within_limits_witness :
  budget_ok sample_charged ∧ metadata_remaining sample_charged = 600.
Proof.
  destruct (budgets_within_limits sample_limits sample_charged) as [Hb _].
  - exact sample_limits_ok.
  - apply rtc_once, (step_metadata _ 400); [vm_compute; split; congruence|vm_compute; reflexivity].
  - split; [exact Hb|reflexivity].
Defined.

Lemma metadata_charged_exactly_witness :
  try_fold charge_metadata (OperationBudget_new sample_limits) [300; 100] = Ok sample_charged ∧
  try_fold charge_metadata (OperationBudget_new sample_limits) [300; 701] =
    Err (ResourceLimitExceeded "metadata" 1000).
Proof.
  split.
  - rewrite (metadata_charged_exactly (OperationBudget_new sample_limits) [300; 100]).
    + vm_compute. reflexivity.
    + exact sample_budget_ok.
    + repeat constructor; vm_compute; congruence.
  - rewrite (metadata_charged_exactly (OperationBudget_new sample_limits) [300; 701]).
    + vm_compute. reflexivity.
    + exact sample_budget_ok.
    + repeat constructor; vm_compute; congruence.
Defined.

Lemma reservation_balanced_witness :
  ob_retained_output (snd (with_retained_output_reservation (OperationBudget_new sample_limits) 60
    (λ b, (Err Cancelled : result unit R7zError, b)))) = RetainedOutputBudget_new (Some 64).
Proof.
  destruct (reservation_balanced (OperationBudget_new sample_limits) 60
    (λ b, (Err Cancelled : result unit R7zError, b))) as [H _].
  - exact sample_budget_ok.
  - vm_compute. split; congruence.
  - reflexivity.
  - apply (H 64); [reflexivity|vm_compute; congruence].
Defined.
