(* ===== verification/FolderGraph.v ===== *)
(** * Folder graphs (src/src/folder.rs, validation)

    [Folder::graph]: stream owners, bindings, the final output, the packed
    inputs and the execution order of the coders (Kahn's algorithm with a
    stack), and the BCJ2 channel layout read off the graph. *)

From stdpp Require Import base numbers list option sets.
From Stdlib Require Import ZArith Lia.
From S2P Require Import Prelude PropertyId Parsers Method CoderInfo Folder Error.

(** ** Types

    [CoderIndex], [InputStreamIndex], [OutputStreamIndex] and
    [PackedStreamIndex] wrap a [usize] that indexes a vector: [nat]. *)

Record StreamArity := { ar_inputs : nat; ar_outputs : nat }.

Record StreamOwners := { own_inputs : list nat; own_outputs : list nat }.

Record Bindings := {
  bound_inputs : list bool;
  bound_outputs : list bool;
  input_sources : list (option nat);
  edges : list (list nat);
  indegree : list nat
}.

Record FolderGraph := {
  fg_execution_order : list nat;
  fg_packed_inputs : list (nat * nat);
  fg_final_output : nat;
  fg_input_owners : list nat;
  fg_output_owners : list nat;
  fg_input_sources : list (option nat)
}.

(** ** Stream indices and owners *)

(** [InputStreamIndex::from_raw] and [OutputStreamIndex::from_raw]. *)
Definition StreamIndex_from_raw (raw : Z) (total : nat) : result nat R7zError :=
  let? index := ok_or (usize_try_from raw) InvalidFolderGraph in
  if decide (index < Z.of_nat total) then Ok (Z.to_nat index)
  else Err InvalidFolderGraph.

Definition in_stream_limit (n : Z) : Prop := 1 ≤ n ≤ MAX_FOLDER_STREAMS.
#[global] Instance in_stream_limit_dec n : Decision (in_stream_limit n).
Proof. unfold in_stream_limit. apply _. Defined.

(** [StreamArity::try_from]; the lookup of a known method's arity cannot fail. *)
Definition StreamArity_try_from (coder : CoderInfo) : result StreamArity R7zError :=
  let actual := (num_in_streams coder, num_out_streams coder) in
  let checked :=
    let? inputs := ok_or (usize_try_from (fst actual)) InvalidFolderGraph in
    let? outputs := ok_or (usize_try_from (snd actual)) InvalidFolderGraph in
    if decide (in_stream_limit inputs ∧ in_stream_limit outputs)
    then Ok {| ar_inputs := Z.to_nat inputs; ar_outputs := Z.to_nat outputs |}
    else Err InvalidFolderGraph in
  match method_from_id (codec_id coder) ≫= SevenZMethod_stream_arity with
  | Some expected =>
      if decide (actual ≠ expected) then Err InvalidFolderGraph else checked
  | None => checked
  end.

Definition StreamOwners_total_step (totals : Z * Z) (arity : StreamArity) :
    result (Z * Z) R7zError :=
  let limit (n : Z) := if decide (n ≤ MAX_FOLDER_STREAMS) then Some n else None in
  let? inputs := ok_or (checked_add (fst totals) (Z.of_nat (ar_inputs arity)) ≫= limit)
                       InvalidFolderGraph in
  let? outputs := ok_or (checked_add (snd totals) (Z.of_nat (ar_outputs arity)) ≫= limit)
                        InvalidFolderGraph in
  Ok (inputs, outputs).

Definition StreamOwners_from_coders (coders : list CoderInfo) : result StreamOwners R7zError :=
  let? arities := try_collect StreamArity_try_from coders in
  let? _ := try_fold StreamOwners_total_step (0, 0) arities in
  Ok {| own_inputs := concat (imap (λ index a, replicate (ar_inputs a) index) arities);
        own_outputs := concat (imap (λ index a, replicate (ar_outputs a) index) arities) |}.

(** ** Bindings *)

Definition Bindings_bind (self : Bindings) (raw_input raw_output : Z)
    (owners : StreamOwners) : result Bindings R7zError :=
  let bad := InvalidFolderGraph in
  let? input := StreamIndex_from_raw raw_input (length (own_inputs owners)) in
  let? output := StreamIndex_from_raw raw_output (length (own_outputs owners)) in
  let? input_bound := ok_or (bound_inputs self !! input) bad in
  let? output_bound := ok_or (bound_outputs self !! output) bad in
  if input_bound || output_bound then Err bad else
  let? source := ok_or (own_outputs owners !! output) bad in
  let? target := ok_or (own_inputs owners !! input) bad in
  if decide (source = target) then Err bad else
  let? _ := ok_or (input_sources self !! input) bad in
  let? out_edges := ok_or (edges self !! source) bad in
  let? degree := ok_or (indegree self !! target) bad in
  Ok {| bound_inputs := <[input := true]> (bound_inputs self);
        bound_outputs := <[output := true]> (bound_outputs self);
        input_sources := <[input := Some output]> (input_sources self);
        edges := <[source := out_edges ++ [target]]> (edges self);
        indegree := <[target := S degree]> (indegree self) |}.

Definition Bindings_new (pairs : list (Z * Z)) (owners : StreamOwners)
    (coder_count : nat) : result Bindings R7zError :=
  let? expected_pairs := ok_or (checked_sub (zlen (own_outputs owners)) 1) InvalidFolderGraph in
  if decide (zlen pairs ≠ expected_pairs) then Err InvalidFolderGraph else
  try_fold (λ self '(input, output), Bindings_bind self input output owners)
    {| bound_inputs := replicate (length (own_inputs owners)) false;
       bound_outputs := replicate (length (own_outputs owners)) false;
       input_sources := replicate (length (own_inputs owners)) None;
       edges := replicate coder_count [];
       indegree := replicate coder_count 0%nat |}
    pairs.

(** The indices whose flag is unset, in order. *)
Definition unbound_indices (bound : list bool) : list nat :=
  filter (λ i, bound !! i = Some false) (seq 0 (length bound)).

Definition Bindings_final_output (self : Bindings) : result nat R7zError :=
  match unbound_indices (bound_outputs self) with
  | [output] => Ok output
  | _ => Err InvalidFolderGraph
  end.

(** One explicit packed index: in range, unbound and not seen before. *)
Fixpoint packed_loop (bound : list bool) (seen : list bool) (packed : nat)
    (indices : list Z) : result (list (nat * nat)) R7zError :=
  match indices with
  | [] => Ok []
  | raw :: rest =>
      let? input := StreamIndex_from_raw raw (length bound) in
      let is_unbound := bool_decide (bound !! input = Some false) in
      let is_new := bool_decide (seen !! input = Some false) in
      if is_unbound && is_new then
        let? tl := packed_loop bound (<[input := true]> seen) (S packed) rest in
        Ok ((packed, input) :: tl)
      else Err InvalidFolderGraph
  end.

Definition Bindings_packed_inputs (self : Bindings) (explicit : list Z) :
    result (list (nat * nat)) R7zError :=
  let unbound := unbound_indices (bound_inputs self) in
  match explicit with
  | [] => match unbound with
          | [input] => Ok [(0%nat, input)]
          | _ => Err InvalidFolderGraph
          end
  | indices =>
      if decide (length indices = length unbound) then
        packed_loop (bound_inputs self) (replicate (length (bound_inputs self)) false)
          0 indices
      else Err InvalidFolderGraph
  end.

(** ** Execution order *)

(** The inner loop over the targets of a node; the head of [ready] is the top
    of the stack. *)
Definition relax_step (st : list nat * list nat) (next : nat) :
    result (list nat * list nat) R7zError :=
  let '(degrees, ready) := st in
  let? degree := ok_or (degrees !! next) InvalidFolderGraph in
  match degree with
  | O => Err InvalidFolderGraph
  | S d => Ok (<[next := d]> degrees, if decide (d = 0%nat) then next :: ready else ready)
  end.

Fixpoint execution_loop (fuel : nat) (edges : list (list nat))
    (degrees ready order : list nat) : result (list nat) R7zError :=
  match ready with
  | [] => Ok order
  | node :: ready =>
      match fuel with
      | O => Err R7zOutOfFuel
      | S fuel =>
          let? targets := ok_or (edges !! node) InvalidFolderGraph in
          let? st := try_fold relax_step (degrees, ready) targets in
          let '(degrees, ready) := st in
          execution_loop fuel edges degrees ready (order ++ [node])
      end
  end.

(** The nodes of degree zero, the last one on top. *)
Definition initial_ready (degrees : list nat) : list nat :=
  rev (filter (λ i, degrees !! i = Some 0%nat) (seq 0 (length degrees))).

Definition Bindings_execution_order (self : Bindings) : result (list nat) R7zError :=
  let n := length (indegree self) in
  let? order := execution_loop n (edges self) (indegree self)
                  (initial_ready (indegree self)) [] in
  if decide (length order = n) then Ok order else Err InvalidFolderGraph.

(** ** The graph *)

Definition Folder_graph (f : Folder) : result FolderGraph R7zError :=
  let? owners := StreamOwners_from_coders (coders f) in
  let? bindings := Bindings_new (bind_pairs f) owners (length (coders f)) in
  let? final_output := Bindings_final_output bindings in
  let? packed_inputs := Bindings_packed_inputs bindings (packed_indices f) in
  let? execution_order := Bindings_execution_order bindings in
  Ok {| fg_execution_order := execution_order;
        fg_packed_inputs := packed_inputs;
        fg_final_output := final_output;
        fg_input_owners := own_inputs owners;
        fg_output_owners := own_outputs owners;
        fg_input_sources := input_sources bindings |}.

(** ** Kahn's algorithm *)

(** A schedule of [E]: every node comes after its predecessors. *)
Definition topological (E : list (nat * nat)) (order : list nat) : Prop :=
  ∀ i u v, order !! i = Some v → (u, v) ∈ E → ∃ j, (j < i)%nat ∧ order !! j = Some u.

(** A relation with a rank that grows along its edges has no cycle. *)
Definition acyclic (E : list (nat * nat)) : Prop :=
  ∃ rank : nat → nat, ∀ u v, (u, v) ∈ E → (rank u < rank v)%nat.

(** The successors of a node and the number of its predecessors not yet done. *)
Definition targets_of (E : list (nat * nat)) (s : nat) : list nat :=
  (filter (λ e, e.1 = s) E).*2.
Definition deg_of (E : list (nat * nat)) (done : list nat) (v : nat) : nat :=
  length (filter (λ e, e.2 = v ∧ e.1 ∉ done) E).
Definition occ (v : nat) (ts : list nat) : nat := length (filter (λ t, t = v) ts).

#[global] Arguments occ : simpl never.

Lemma occ_cons v t ts : occ v (t :: ts) = if decide (t = v) then S (occ v ts) else occ v ts.
Proof. unfold occ. rewrite filter_cons. by case_decide. Qed.

Lemma occ_pos v ts : (0 < occ v ts)%nat ↔ v ∈ ts.
Proof.
  induction ts as [|t ts IH].
  - split; [unfold occ; cbn; lia|by intros ?%not_elem_of_nil].
  - rewrite occ_cons, elem_of_cons. case_decide; [split; [by left|lia]|].
    rewrite IH. split; [by right|by intros [->|]].
Qed.

Lemma deg_of_0 E done v : deg_of E done v = 0%nat ↔ ∀ u, (u, v) ∈ E → u ∈ done.
Proof.
  unfold deg_of. rewrite length_zero_iff_nil. split.
  - intros Hf u Hu. destruct (decide (u ∈ done)) as [|Hn]; [done|].
    assert (Hin : (u, v) ∈ filter (λ e, e.2 = v ∧ e.1 ∉ done) E)
      by (apply list_elem_of_filter; done).
    rewrite Hf in Hin. by apply not_elem_of_nil in Hin.
  - intros H. destruct (filter _ E) as [|[u w] l] eqn:Ef; [done|].
    assert (Hin : (u, w) ∈ filter (λ e, e.2 = v ∧ e.1 ∉ done) E) by (rewrite Ef; left).
    apply list_elem_of_filter in Hin as [[Hw Hu] Hin]. cbn in *. subst. by destruct Hu; apply H.
Qed.

Lemma deg_of_snoc E done u v :
  u ∉ done → deg_of E done v = (deg_of E (done ++ [u]) v + occ v (targets_of E u))%nat.
Proof.
  intros Hu. unfold deg_of, targets_of.
  induction E as [|[a b] E IH]; [done|]. rewrite !filter_cons. cbn [fst snd].
  destruct (decide (a = u)) as [->|Hau].
  - rewrite (decide_False (P := b = v ∧ u ∉ done ++ [u])) by set_solver.
    rewrite fmap_cons, occ_cons. cbn [fst snd]. destruct (decide (b = v)).
    + rewrite decide_True by done. cbn [length]. lia.
    + rewrite decide_False by naive_solver. lia.
  - destruct (decide (b = v ∧ a ∉ done)).
    + rewrite decide_True by set_solver. cbn [length]. lia.
    + rewrite decide_False by set_solver. lia.
Qed.

(** The inner loop takes each degree down by the occurrences of its node and
    stacks the nodes that reach zero. *)
Lemma relax_fold n base ts degrees ready :
  (∀ v, v ∈ ts → v < n)%nat →
  (∀ v, (v < n)%nat → degrees !! v = Some (base v + occ v ts)%nat) →
  length degrees = n →
  ∃ degrees' new,
    try_fold relax_step (degrees, ready) ts = Ok (degrees', new ++ ready) ∧
    length degrees' = n ∧
    (∀ v, (v < n)%nat → degrees' !! v = Some (base v)) ∧
    NoDup new ∧ (∀ v, v ∈ new ↔ v ∈ ts ∧ base v = 0%nat).
Proof.
  revert degrees ready. induction ts as [|t ts IH]; intros degrees ready Hn Hd Hl; cbn.
  - exists degrees, []. split_and!; try done.
    + intros v Hv. rewrite Hd by done. unfold occ; cbn. f_equal. lia.
    + by constructor.
    + intros v. rewrite elem_of_nil. naive_solver.
  - assert (Ht : (t < n)%nat) by (apply Hn; left).
    rewrite (Hd t Ht). cbn. rewrite occ_cons, decide_True, Nat.add_succ_r by done.
    set (d := (base t + occ t ts)%nat).
    destruct (IH (<[t:=d]> degrees) (if decide (d = 0%nat) then t :: ready else ready))
      as (degrees' & new & Hf & Hl' & Hd' & Hnd & Hnew).
    { intros v Hv. apply Hn. by right. }
    { intros v Hv. destruct (decide (v = t)) as [->|Hne].
      - by rewrite list_lookup_insert_eq by lia.
      - rewrite list_lookup_insert_ne by done. rewrite Hd by done.
        by rewrite occ_cons, decide_False by done. }
    { by rewrite length_insert. }
    rewrite Hf. case_decide as Hz.
    + exists degrees', (new ++ [t]). rewrite <- app_assoc. split_and!; try done.
      * apply NoDup_app. split_and!; [done| |apply NoDup_singleton].
        intros v [Hv _]%Hnew ->%list_elem_of_singleton. apply occ_pos in Hv. lia.
      * intros v. rewrite elem_of_app, Hnew, list_elem_of_singleton, elem_of_cons.
        split; [intros [[? ?]| ->]; [naive_solver|split; [by left|lia]]|].
        intros [[->|?] ?]; [by right|by left].
    + exists degrees', new. split_and!; try done.
      intros v. rewrite Hnew, elem_of_cons. split; [naive_solver|].
      intros [[->|?] ?]; [|done]. split; [|done]. apply occ_pos. lia.
Qed.

Section Kahn.
Context (n : nat) (E : list (nat * nat)).
Context (Hrange : ∀ u v, (u, v) ∈ E → (u < n)%nat ∧ (v < n)%nat).

(** The loop invariant: degrees count the predecessors not yet in the order,
    and the nodes without any are those already stacked. *)
Record kahn_inv (degrees ready order : list nat) : Prop := {
  ki_nodup : NoDup (order ++ ready);
  ki_len : length degrees = n;
  ki_deg : ∀ v, (v < n)%nat → degrees !! v = Some (deg_of E order v);
  ki_ready : ∀ v, v ∈ order ++ ready ↔ (v < n)%nat ∧ deg_of E order v = 0%nat;
  ki_topo : topological E order
}.

Lemma targets_range u v : v ∈ targets_of E u → (u < n)%nat ∧ (v < n)%nat.
Proof.
  unfold targets_of. intros ([a b] & -> & Hin)%list_elem_of_fmap.
  apply list_elem_of_filter in Hin as [Ha Hin]. cbn in *. subst. by apply Hrange.
Qed.

Lemma topological_snoc order node :
  topological E order → deg_of E order node = 0%nat → topological E (order ++ [node]).
Proof.
  intros Ht H0 i u v Hi Huv. rewrite deg_of_0 in H0.
  assert (∃ j, (j < i)%nat ∧ order !! j = Some u) as (j & Hj & Hu).
  { apply lookup_snoc_Some in Hi as [[Hl Hi]|[-> ->]].
    - by eapply Ht.
    - apply H0, list_elem_of_lookup in Huv as [j Hj]. exists j.
      split; [by eapply lookup_lt_Some|done]. }
  exists j. split; [done|]. by apply lookup_app_l_Some.
Qed.

(** One iteration of the outer loop. *)
Lemma kahn_step degrees node ready order :
  kahn_inv degrees (node :: ready) order →
  ∃ degrees' ready',
    try_fold relax_step (degrees, ready) (targets_of E node) = Ok (degrees', ready') ∧
    kahn_inv degrees' ready' (order ++ [node]).
Proof.
  intros [Hnd Hl Hd Hr Ht].
  assert (node ∈ order ++ node :: ready) as Hin by (rewrite elem_of_app, elem_of_cons; auto).
  apply Hr in Hin as [Hlt H0].
  assert (node ∉ order) as Hno.
  { apply NoDup_app in Hnd as (_ & Hdis & _). intros Hin. apply (Hdis node Hin). left. }
  destruct (relax_fold n (deg_of E (order ++ [node])) (targets_of E node) degrees ready)
    as (degrees' & new & Hf & Hl' & Hd' & Hndn & Hnew).
  { intros v Hv. by eapply targets_range. }
  { intros v Hv. by rewrite Hd, (deg_of_snoc E order node v Hno) by done. }
  { done. }
  exists degrees', (new ++ ready). split; [done|].
  assert (Hfresh : ∀ v, v ∈ new → v ∉ order ++ node :: ready).
  { intros v [Hv _]%Hnew [_ Hz]%Hr. apply occ_pos in Hv.
    rewrite (deg_of_snoc E order node v Hno) in Hz. lia. }
  split; try done.
  - rewrite <- app_assoc. cbn [app].
    assert (Hp : order ++ node :: new ++ ready ≡ₚ new ++ order ++ node :: ready) by solve_Permutation.
    rewrite Hp. apply NoDup_app. done.
  - intros v. split.
    + intros Hv. assert (v ∈ order ++ node :: ready ∨ v ∈ new) as [Hv'|Hv'] by set_solver.
      * apply Hr in Hv' as [? Hz]. split; [done|].
        rewrite (deg_of_snoc E order node v Hno) in Hz. lia.
      * apply Hnew in Hv' as [Ht' Hb]. split; [|done]. by eapply targets_range.
    + intros [Hv Hz]. destruct (decide (v ∈ targets_of E node)) as [Hi|Hi].
      * assert (v ∈ new) by (by apply Hnew). set_solver.
      * assert (v ∈ order ++ node :: ready); [|set_solver].
        apply Hr. split; [done|]. rewrite (deg_of_snoc E order node v Hno), Hz.
        destruct (occ v (targets_of E node)) eqn:Eo; [done|].
        exfalso. apply Hi, occ_pos. lia.
  - by apply topological_snoc.
Qed.

Lemma kahn_order_bound degrees ready order :
  kahn_inv degrees ready order → (length order + length ready ≤ n)%nat.
Proof.
  intros [Hnd _ _ Hr _]. rewrite <- length_app, <- (length_seq n 0).
  apply NoDup_incl_length; [by apply NoDup_ListNoDup|].
  intros v Hv. apply in_seq. apply list_elem_of_In, Hr in Hv. lia.
Qed.

Context (edges : list (list nat)).
Context (Hedges : ∀ u, (u < n)%nat → edges !! u = Some (targets_of E u)).

(** The loop stops within the fuel, with nothing left on the stack. *)
Lemma execution_loop_inv fuel degrees ready order :
  kahn_inv degrees ready order → (n ≤ fuel + length order)%nat →
  ∃ degrees' order', execution_loop fuel edges degrees ready order = Ok order' ∧
    kahn_inv degrees' [] order'.
Proof.
  revert degrees ready order. induction fuel as [|fuel IH];
    intros degrees [|node ready] order Hinv Hf; cbn; [by exists degrees, order| |by exists degrees, order|].
  - apply kahn_order_bound in Hinv. cbn in Hinv. lia.
  - assert (node < n)%nat as Hn.
    { apply (ki_ready _ _ _ Hinv). rewrite elem_of_app, elem_of_cons. auto. }
    rewrite (Hedges _ Hn). cbn.
    destruct (kahn_step _ _ _ _ Hinv) as (degrees' & ready' & Hrel & Hinv').
    rewrite Hrel. apply (IH degrees'); [done|]. rewrite length_app. cbn. lia.
Qed.

Lemma kahn_init degrees :
  length degrees = n → (∀ v, (v < n)%nat → degrees !! v = Some (deg_of E [] v)) →
  kahn_inv degrees (initial_ready degrees) [].
Proof.
  intros Hl Hd. split; try done.
  - cbn. unfold initial_ready.
    apply NoDup_ListNoDup, NoDup_rev, NoDup_ListNoDup, NoDup_filter.
    apply NoDup_seq.
  - intros v. cbn. unfold initial_ready.
    rewrite list_elem_of_In, <- in_rev, <- list_elem_of_In, list_elem_of_filter, elem_of_seq, Hl.
    split.
    + intros [Hv Hr]. split; [lia|]. rewrite Hd in Hv by lia. by injection Hv.
    + intros [Hv Hz]. split; [|lia]. by rewrite Hd, Hz.
Qed.

(** The order found is a schedule of all the nodes, and one is found exactly
    when the graph has no cycle. *)
Lemma kahn_complete degrees order :
  kahn_inv degrees [] order → length order = n ↔ acyclic E.
Proof.
  intros [Hnd _ _ Hr Ht]. rewrite app_nil_r in *. split.
  - intros Hlen.
    assert (Hall : ∀ v, (v < n)%nat → v ∈ order).
    { intros v Hv. apply list_elem_of_In, (NoDup_length_incl (l := order) (l' := seq 0 n)).
      - by apply NoDup_ListNoDup.
      - rewrite length_seq. lia.
      - intros w Hw. apply list_elem_of_In, Hr in Hw. apply in_seq. lia.
      - apply in_seq. lia. }
    exists (λ v, default 0%nat (fst <$> list_find (eq v) order)). intros u v Huv.
    destruct (Hrange u v Huv) as [Hu Hv].
    apply Hall, list_elem_of_lookup in Hv as [i Hi].
    assert (Hpos : ∀ w k, order !! k = Some w → list_find (eq w) order = Some (k, w)).
    { intros w k Hk. apply list_find_Some. split_and!; [done|done|].
      intros m y Hm Hlt ->. pose proof (NoDup_lookup _ _ _ _ Hnd Hm Hk). lia. }
    destruct (Ht i u v Hi Huv) as (j & Hj & Hu'). by rewrite (Hpos _ _ Hi), (Hpos _ _ Hu').
  - intros [rank Hrank].
    assert (Hall : ∀ m v, (rank v < m)%nat → (v < n)%nat → v ∈ order).
    { induction m as [|m IH]; intros v Hm Hv; [lia|]. apply Hr. split; [done|].
      apply deg_of_0. intros u Huv. apply IH; [|apply (Hrange u v Huv)].
      specialize (Hrank u v Huv). lia. }
    apply Nat.le_antisymm.
    + rewrite <- (length_seq n 0). apply NoDup_incl_length; [by apply NoDup_ListNoDup|].
      intros w Hw. apply list_elem_of_In, Hr in Hw. apply in_seq. lia.
    + rewrite <- (length_seq n 0) at 1. apply NoDup_incl_length; [apply seq_NoDup|].
      intros w Hw. apply in_seq in Hw. apply list_elem_of_In, (Hall (S (rank w))); lia.
Qed.
End Kahn.

(** ** Bindings in closed form *)

(** The owners of the streams, coder by coder. *)
Definition owners_of (cs : list CoderInfo) : StreamOwners :=
  {| own_inputs := concat (imap (λ i c, replicate (Z.to_nat (num_in_streams c)) i) cs);
     own_outputs := concat (imap (λ i c, replicate (Z.to_nat (num_out_streams c)) i) cs) |}.

(** A bind pair as stream indices, and its edge from the coder that writes the
    stream to the coder that reads it. *)
Definition resolve (pairs : list (Z * Z)) : list (nat * nat) :=
  map (λ p, (Z.to_nat p.1, Z.to_nat p.2)) pairs.

Definition pair_edge (owners : StreamOwners) (p : nat * nat) : nat * nat :=
  (own_outputs owners !!! p.2, own_inputs owners !!! p.1).

Definition pairs_in_range (owners : StreamOwners) (pairs : list (Z * Z)) : Prop :=
  Forall (λ p, 0 ≤ p.1 < zlen (own_inputs owners) ∧ 0 ≤ p.2 < zlen (own_outputs owners)) pairs.

(** No stream is bound twice and no coder is bound to itself. *)
Record pairs_ok (owners : StreamOwners) (pairs : list (Z * Z)) : Prop := {
  po_range : pairs_in_range owners pairs;
  po_inputs : NoDup (resolve pairs).*1;
  po_outputs : NoDup (resolve pairs).*2;
  po_loops : Forall (λ p, (pair_edge owners p).1 ≠ (pair_edge owners p).2) (resolve pairs)
}.

#[global] Instance pairs_ok_dec owners pairs : Decision (pairs_ok owners pairs).
Proof.
  refine (cast_if (decide (pairs_in_range owners pairs ∧ NoDup (resolve pairs).*1
    ∧ NoDup (resolve pairs).*2
    ∧ Forall (λ p, (pair_edge owners p).1 ≠ (pair_edge owners p).2) (resolve pairs))));
    [by destruct_and!; split|intros []; naive_solver].
Defined.

Definition source_of (ps : list (nat * nat)) (i : nat) : option nat :=
  snd <$> List.find (λ p, bool_decide (p.1 = i)) ps.

(** The state after binding the pairs [ps]. *)
Definition bindings_of (owners : StreamOwners) (n : nat) (ps : list (nat * nat)) : Bindings :=
  let E := map (pair_edge owners) ps in
  {| bound_inputs := map (λ i, bool_decide (i ∈ ps.*1)) (seq 0 (length (own_inputs owners)));
     bound_outputs := map (λ o, bool_decide (o ∈ ps.*2)) (seq 0 (length (own_outputs owners)));
     input_sources := map (source_of ps) (seq 0 (length (own_inputs owners)));
     edges := map (targets_of E) (seq 0 n);
     indegree := map (deg_of E []) (seq 0 n) |}.

Lemma map_seq_lookup {A} (f : nat → A) n i : (i < n)%nat → map f (seq 0 n) !! i = Some (f i).
Proof.
  intros Hi. change (map f (seq 0 n)) with (f <$> seq 0 n).
  rewrite list_lookup_fmap, lookup_seq_lt by done. done.
Qed.

Lemma map_seq_insert {A} (f g : nat → A) n i x :
  (i < n)%nat → g i = x → (∀ j, j ≠ i → g j = f j) →
  <[i := x]> (map f (seq 0 n)) = map g (seq 0 n).
Proof.
  intros Hi <- Hg. apply list_eq. intros j.
  destruct (decide (j < n)%nat) as [Hj|Hj].
  - rewrite (map_seq_lookup g) by done. destruct (decide (j = i)) as [->|Hne].
    + by rewrite list_lookup_insert_eq by (rewrite length_map, length_seq; done).
    + by rewrite list_lookup_insert_ne, map_seq_lookup, Hg by done.
  - rewrite !lookup_ge_None_2; rewrite ?length_insert, ?length_map, ?length_seq; [done|lia..].
Qed.

Lemma map_seq_const {A} (f : nat → A) n x : (∀ i, f i = x) → replicate n x = map f (seq 0 n).
Proof.
  intros Hf. apply list_eq. intros j. destruct (decide (j < n)%nat) as [Hj|Hj].
  - by rewrite map_seq_lookup, lookup_replicate_2, Hf by done.
  - rewrite !lookup_ge_None_2; rewrite ?length_replicate, ?length_map, ?length_seq; [done|lia..].
Qed.

Lemma source_of_snoc ps i o j :
  i ∉ ps.*1 → source_of (ps ++ [(i, o)]) j = if decide (j = i) then Some o else source_of ps j.
Proof.
  intros Hi. unfold source_of. induction ps as [|[a b] ps IH]; cbn in *.
  - case_decide; case_bool_decide; naive_solver.
  - apply not_elem_of_cons in Hi as [Hne Hi].
    case_bool_decide as Ea; [|by apply IH]. cbn in *. case_decide; congruence.
Qed.

Lemma targets_of_snoc E u v s :
  targets_of (E ++ [(u, v)]) s = if decide (s = u) then targets_of E s ++ [v] else targets_of E s.
Proof.
  unfold targets_of. rewrite filter_app, fmap_app, filter_cons. cbn [fst].
  repeat case_decide; try congruence; cbn; by rewrite ?app_nil_r.
Qed.

Lemma deg_of_edge E u v w :
  deg_of (E ++ [(u, v)]) [] w = if decide (w = v) then S (deg_of E [] w) else deg_of E [] w.
Proof.
  unfold deg_of. rewrite filter_app, length_app, filter_cons. cbn [fst snd].
  pose proof (not_elem_of_nil u). repeat case_decide; try naive_solver; cbn; lia.
Qed.

Record owners_wf (owners : StreamOwners) (n : nat) : Prop := {
  ow_in_max : zlen (own_inputs owners) ≤ MAX_FOLDER_STREAMS;
  ow_out_max : zlen (own_outputs owners) ≤ MAX_FOLDER_STREAMS;
  ow_in : Forall (λ c, c < n)%nat (own_inputs owners);
  ow_out : Forall (λ c, c < n)%nat (own_outputs owners)
}.

Lemma StreamIndex_from_raw_ok raw total i :
  StreamIndex_from_raw raw total = Ok i → 0 ≤ raw < Z.of_nat total ∧ i = Z.to_nat raw.
Proof.
  unfold StreamIndex_from_raw, usize_try_from. repeat (case_decide; cbn; [|done]).
  intros [= <-]. lia.
Qed.

Lemma StreamIndex_from_raw_spec raw total :
  Z.of_nat total ≤ MAX_FOLDER_STREAMS →
  StreamIndex_from_raw raw total =
    if decide (0 ≤ raw < Z.of_nat total) then Ok (Z.to_nat raw) else Err InvalidFolderGraph.
Proof.
  unfold StreamIndex_from_raw, usize_try_from, MAX_FOLDER_STREAMS. intros.
  repeat case_decide; cbn; repeat case_decide; try done; lia.
Qed.

(** What [Bindings::bind] asks of a pair, after the pairs [ps]. *)
Definition can_bind (owners : StreamOwners) (ps : list (nat * nat)) (p : Z * Z) : Prop :=
  (0 ≤ p.1 < zlen (own_inputs owners) ∧ 0 ≤ p.2 < zlen (own_outputs owners)) ∧
  (Z.to_nat p.1 ∉ ps.*1) ∧ (Z.to_nat p.2 ∉ ps.*2) ∧
  (own_outputs owners !!! Z.to_nat p.2) ≠ (own_inputs owners !!! Z.to_nat p.1).

#[global] Instance can_bind_dec owners ps p : Decision (can_bind owners ps p).
Proof. unfold can_bind. apply _. Defined.

Lemma resolve_snoc pairs p :
  resolve (pairs ++ [p]) = resolve pairs ++ [(Z.to_nat p.1, Z.to_nat p.2)].
Proof. apply map_app. Qed.

Lemma NoDup_snoc {A} (l : list A) x : NoDup (l ++ [x]) ↔ NoDup l ∧ x ∉ l.
Proof.
  rewrite (Permutation_app_comm l [x]). cbn. rewrite NoDup_cons. naive_solver.
Qed.

Lemma pairs_ok_snoc owners pairs p :
  pairs_ok owners (pairs ++ [p]) ↔
  pairs_ok owners pairs ∧ can_bind owners (resolve pairs) p.
Proof.
  assert (pairs_ok owners (pairs ++ [p]) ↔
    pairs_in_range owners (pairs ++ [p]) ∧ NoDup (resolve (pairs ++ [p])).*1 ∧
    NoDup (resolve (pairs ++ [p])).*2 ∧
    Forall (λ p, (pair_edge owners p).1 ≠ (pair_edge owners p).2) (resolve (pairs ++ [p])))
    as -> by (split; [intros []; done|intros (?&?&?&?); by split]).
  assert (pairs_ok owners pairs ↔
    pairs_in_range owners pairs ∧ NoDup (resolve pairs).*1 ∧ NoDup (resolve pairs).*2 ∧
    Forall (λ p, (pair_edge owners p).1 ≠ (pair_edge owners p).2) (resolve pairs))
    as -> by (split; [intros []; done|intros (?&?&?&?); by split]).
  unfold can_bind, pairs_in_range. rewrite resolve_snoc, !fmap_app.
  cbn [fmap list_fmap fst snd]. rewrite !NoDup_snoc, !Forall_app, !Forall_singleton.
  unfold pair_edge at 2 4. cbn [fst snd]. tauto.
Qed.

Lemma pairs_ok_prefix owners a b : pairs_ok owners (a ++ b) → pairs_ok owners a.
Proof.
  induction b as [|p b IH] using rev_ind; [by rewrite app_nil_r|].
  rewrite app_assoc. intros [? _]%pairs_ok_snoc; by apply IH.
Qed.

Section Binding.
Context (owners : StreamOwners) (n : nat) (Hwf : owners_wf owners n).

(** Binding one more pair. *)
Lemma bind_spec ps input output :
  Bindings_bind (bindings_of owners n ps) input output owners =
  if decide (can_bind owners ps (input, output))
  then Ok (bindings_of owners n (ps ++ [(Z.to_nat input, Z.to_nat output)]))
  else Err InvalidFolderGraph.
Proof.
  destruct Hwf as [Hmi Hmo Hwi Hwo]. unfold can_bind, zlen in *. cbn [fst snd].
  unfold Bindings_bind. rewrite !StreamIndex_from_raw_spec by done.
  destruct (decide (0 ≤ input < _)) as [Hri|]; [|by rewrite decide_False by naive_solver].
  destruct (decide (0 ≤ output < _)) as [Hro|]; [|by rewrite decide_False by naive_solver].
  cbn [bindings_of bound_inputs bound_outputs input_sources edges indegree].
  rewrite !map_seq_lookup by lia. cbn [ok_or].
  case_bool_decide as Hi; [by rewrite decide_False by naive_solver|].
  case_bool_decide as Ho; [by rewrite decide_False by naive_solver|]. cbn [orb].
  destruct (lookup_lt_is_Some_2 (own_outputs owners) (Z.to_nat output) ltac:(lia)) as [s Hs].
  destruct (lookup_lt_is_Some_2 (own_inputs owners) (Z.to_nat input) ltac:(lia)) as [t Ht].
  pose proof (list_lookup_total_correct _ _ _ Hs) as Hs'.
  pose proof (list_lookup_total_correct _ _ _ Ht) as Ht'. rewrite Hs, Ht. cbn [ok_or].
  destruct (decide (s = t)) as [->|Hst].
  { rewrite decide_False; [done|]. rewrite Hs', Ht'. naive_solver. }
  pose proof (Forall_lookup_1 _ _ _ _ Hwo Hs) as Hsn.
  pose proof (Forall_lookup_1 _ _ _ _ Hwi Ht) as Htn. cbn in Hsn, Htn.
  rewrite !map_seq_lookup by done. cbn [ok_or].
  rewrite decide_True by (rewrite Hs', Ht'; done). unfold bindings_of.
  assert (Hedge : map (pair_edge owners) (ps ++ [(Z.to_nat input, Z.to_nat output)]) =
    map (pair_edge owners) ps ++ [(s, t)]).
  { rewrite map_app. cbn. unfold pair_edge at 2. cbn [fst snd]. by rewrite Hs', Ht'. }
  rewrite Hedge. do 2 f_equal; apply map_seq_insert; try done; try lia.
  all: intros; rewrite ?source_of_snoc, ?targets_of_snoc, ?deg_of_edge by done; try by case_decide.
  all: rewrite fmap_app; cbn [fmap list_fmap fst snd];
    first [apply bool_decide_eq_true_2|apply bool_decide_ext];
    rewrite elem_of_app, list_elem_of_singleton; naive_solver.
Qed.

Lemma bind_all done rest :
  pairs_ok owners done →
  try_fold (λ self '(input, output), Bindings_bind self input output owners)
    (bindings_of owners n (resolve done)) rest =
  if decide (pairs_ok owners (done ++ rest))
  then Ok (bindings_of owners n (resolve (done ++ rest))) else Err InvalidFolderGraph.
Proof.
  revert done. induction rest as [|[i o] rest IH]; intros done Hok; cbn [try_fold].
  { rewrite app_nil_r. by rewrite decide_True by done. }
  rewrite bind_spec. replace (done ++ (i, o) :: rest) with ((done ++ [(i, o)]) ++ rest)
    by (by rewrite <- app_assoc).
  destruct (decide (can_bind _ _ _)) as [Hc|Hc].
  - rewrite <- (IH (done ++ [(i, o)])) by (by apply pairs_ok_snoc).
    by rewrite resolve_snoc.
  - rewrite decide_False; [done|]. intros Hall.
    apply Hc, (pairs_ok_snoc owners done (i, o)).
    exact (pairs_ok_prefix owners _ rest Hall).
Qed.

(** [Bindings::new] succeeds exactly on a full set of valid pairs. *)
Lemma Bindings_new_spec pairs :
  Bindings_new pairs owners n =
  if decide (zlen pairs = zlen (own_outputs owners) - 1 ∧ pairs_ok owners pairs)
  then Ok (bindings_of owners n (resolve pairs)) else Err InvalidFolderGraph.
Proof.
  unfold Bindings_new, checked_sub. pose proof (zlen_nonneg pairs).
  destruct (decide (1 ≤ _)); cbn [ok_or]; [|by rewrite decide_False by lia].
  destruct (decide (zlen pairs ≠ _)); [by rewrite decide_False by tauto|].
  assert (pairs_ok owners []) as H0 by (split; constructor).
  pose proof (bind_all [] pairs H0) as Hall. cbn [app] in Hall.
  transitivity (if decide (pairs_ok owners pairs)
    then Ok (bindings_of owners n (resolve pairs)) else Err InvalidFolderGraph).
  - rewrite <- Hall. f_equal. unfold bindings_of. cbn.
    f_equal; by apply map_seq_const.
  - repeat case_decide; tauto.
Qed.
End Binding.

(** ** Unbound streams *)

Lemma unbound_bound_by (os : list nat) total :
  unbound_indices (map (λ i, bool_decide (i ∈ os)) (seq 0 total)) =
  filter (λ i, i ∉ os) (seq 0 total).
Proof.
  unfold unbound_indices. rewrite length_map, length_seq.
  apply filter_ext_in. intros i Hi%elem_of_seq. rewrite map_seq_lookup by lia.
  split; [by intros [= ?%bool_decide_eq_false]|intros ?; by rewrite bool_decide_eq_false_2].
Qed.

Lemma length_filter_split {A} (P : A → Prop) `{!∀ x, Decision (P x)} (l : list A) :
  (length (filter P l) + length (filter (λ x, ¬ P x) l))%nat = length l.
Proof.
  induction l as [|x l IH]; [done|]. rewrite !filter_cons.
  destruct (decide (P x)); [rewrite decide_False by tauto|rewrite decide_True by tauto];
    cbn [length]; lia.
Qed.

(** Each bound index takes one place among all the indices. *)
Lemma unbound_count (os : list nat) total :
  NoDup os → (∀ o, o ∈ os → (o < total)%nat) →
  (length (filter (λ i, i ∉ os) (seq 0 total)) + length os)%nat = total.
Proof.
  intros Hnd Hlt. pose proof (length_filter_split (λ i, i ∈ os) (seq 0 total)) as H.
  rewrite length_seq in H.
  assert (filter (λ i, i ∈ os) (seq 0 total) ≡ₚ os) as Hp.
  { apply NoDup_Permutation; [apply NoDup_filter, NoDup_seq|done|].
    intros i. rewrite list_elem_of_filter, elem_of_seq. specialize (Hlt i).
    split; [tauto|]. intros Hi. specialize (Hlt Hi). split; [done|lia]. }
  rewrite Hp in H. lia.
Qed.

Lemma resolve_range owners pairs :
  pairs_in_range owners pairs →
  (∀ i, i ∈ (resolve pairs).*1 → (i < length (own_inputs owners))%nat) ∧
  (∀ o, o ∈ (resolve pairs).*2 → (o < length (own_outputs owners))%nat).
Proof.
  unfold pairs_in_range, resolve. rewrite Forall_forall. intros Hr.
  split; intros x ([a b] & -> & Hin)%list_elem_of_fmap;
    apply list_elem_of_fmap in Hin as (p & [= -> ->] & Hp);
    specialize (Hr p Hp); unfold zlen in Hr; cbn; lia.
Qed.

(** A full set of bind pairs leaves one output: the sole unbound one. *)
Lemma final_output_spec owners n pairs :
  zlen pairs = zlen (own_outputs owners) - 1 → pairs_ok owners pairs →
  ∃ o, Bindings_final_output (bindings_of owners n (resolve pairs)) = Ok o ∧
    ∀ j, (j < length (own_outputs owners))%nat ∧ j ∉ (resolve pairs).*2 ↔ j = o.
Proof.
  intros Hlen [Hr _ Ho _]. apply resolve_range in Hr as [_ Hr].
  pose proof (unbound_count _ _ Ho Hr) as Hc. unfold Bindings_final_output.
  cbn [bindings_of bound_outputs]. rewrite unbound_bound_by.
  assert (length (resolve pairs).*2 = length pairs) as Hl2
    by (rewrite length_fmap; apply length_map). rewrite Hl2 in Hc.
  unfold zlen in Hlen.
  destruct (filter _ (seq 0 _)) as [|o [|o' l]] eqn:Ef; cbn in Hc; [lia| |lia].
  exists o. split; [done|]. intros j.
  rewrite <- list_elem_of_singleton, <- Ef, list_elem_of_filter, elem_of_seq.
  split; [intros [? ?]; split; [done|lia]|intros [? ?]; split; [lia|done]].
Qed.

(** The packed inputs: explicit indices name each unbound input once. *)
Definition packed_ok (bound : list nat) (total : nat) (explicit : list Z) : Prop :=
  let unbound := filter (λ i, i ∉ bound) (seq 0 total) in
  match explicit with
  | [] => length unbound = 1%nat
  | _ => length explicit = length unbound ∧
         Forall (λ raw, 0 ≤ raw < Z.of_nat total ∧ Z.to_nat raw ∉ bound) explicit ∧
         NoDup (map Z.to_nat explicit)
  end.

#[global] Instance packed_ok_dec bound total explicit : Decision (packed_ok bound total explicit).
Proof. destruct explicit; cbn; apply _. Defined.

Definition packed_result (bound : list nat) (total : nat) (explicit : list Z) :
    list (nat * nat) :=
  let inputs := match explicit with
                | [] => filter (λ i, i ∉ bound) (seq 0 total)
                | _ => map Z.to_nat explicit
                end in
  zip (seq 0 (length inputs)) inputs.

Lemma not_elem_rest (x : nat) prev rest :
  Forall (λ r, Z.to_nat r ∉ x :: prev) rest ↔
  (x ∉ map Z.to_nat rest) ∧ Forall (λ r, Z.to_nat r ∉ prev) rest.
Proof.
  rewrite !Forall_forall. setoid_rewrite not_elem_of_cons. split.
  - intros H. split; [|by intros r Hr'; apply H].
    intros (r & Hr1 & Hr2)%list_elem_of_fmap. by destruct (H r Hr2).
  - intros [H1 H2] r Hr'. split; [|by apply H2]. intros He. apply H1.
    apply list_elem_of_fmap. by exists r.
Qed.

Lemma packed_loop_spec (bound : list nat) total (prev : list nat) k indices :
  Z.of_nat total ≤ MAX_FOLDER_STREAMS →
  packed_loop (map (λ i, bool_decide (i ∈ bound)) (seq 0 total))
    (map (λ i, bool_decide (i ∈ prev)) (seq 0 total)) k indices =
  if decide (Forall (λ raw, 0 ≤ raw < Z.of_nat total ∧ Z.to_nat raw ∉ bound) indices ∧
             NoDup (map Z.to_nat indices) ∧ Forall (λ raw, Z.to_nat raw ∉ prev) indices)
  then Ok (zip (seq k (length indices)) (map Z.to_nat indices))
  else Err InvalidFolderGraph.
Proof.
  intros Hmax. revert prev k. induction indices as [|raw rest IH]; intros prev k.
  { cbn. rewrite decide_True; [done|]. split_and!; constructor. }
  cbn [packed_loop]. rewrite length_map, length_seq, StreamIndex_from_raw_spec by done.
  assert (Hcons : (Forall (λ r, 0 ≤ r < Z.of_nat total ∧ Z.to_nat r ∉ bound) (raw :: rest) ∧
     NoDup (map Z.to_nat (raw :: rest)) ∧ Forall (λ r, Z.to_nat r ∉ prev) (raw :: rest)) ↔
    ((0 ≤ raw < Z.of_nat total ∧ Z.to_nat raw ∉ bound) ∧ Z.to_nat raw ∉ prev) ∧
     Forall (λ r, 0 ≤ r < Z.of_nat total ∧ Z.to_nat r ∉ bound) rest ∧
     NoDup (map Z.to_nat rest) ∧ Forall (λ r, Z.to_nat r ∉ Z.to_nat raw :: prev) rest).
  { rewrite !Forall_cons. cbn [map]. rewrite NoDup_cons, not_elem_rest. tauto. }
  destruct (decide (0 ≤ raw < _)) as [Hr|]; [|by rewrite decide_False by (rewrite Hcons; tauto)].
  rewrite !map_seq_lookup by lia.
  destruct (decide (Z.to_nat raw ∈ bound)) as [Hb|Hb].
  { rewrite (bool_decide_eq_true_2 (Z.to_nat raw ∈ bound)) by done. cbn.
    by rewrite decide_False by (rewrite Hcons; tauto). }
  rewrite (bool_decide_eq_false_2 (Z.to_nat raw ∈ bound)) by done.
  destruct (decide (Z.to_nat raw ∈ prev)) as [Hp|Hp].
  { rewrite (bool_decide_eq_true_2 (Z.to_nat raw ∈ prev)) by done. cbn.
    by rewrite decide_False by (rewrite Hcons; tauto). }
  rewrite (bool_decide_eq_false_2 (Z.to_nat raw ∈ prev)) by done. cbn [andb].
  rewrite !bool_decide_eq_true_2 by done. cbn [andb].
  rewrite (map_seq_insert _ (λ i, bool_decide (i ∈ Z.to_nat raw :: prev))); [|lia| |].
  2:{ apply bool_decide_eq_true_2. left. }
  2:{ intros j Hj. apply bool_decide_ext. rewrite elem_of_cons. naive_solver. }
  rewrite IH. cbn [map length seq zip zip_with].
  destruct (decide (Forall _ rest ∧ _)) as [Hd|Hd].
  - by rewrite decide_True by (rewrite Hcons; tauto).
  - by rewrite decide_False by (rewrite Hcons; tauto).
Qed.

Lemma packed_inputs_spec owners n pairs explicit :
  zlen (own_inputs owners) ≤ MAX_FOLDER_STREAMS →
  Bindings_packed_inputs (bindings_of owners n (resolve pairs)) explicit =
  if decide (packed_ok (resolve pairs).*1 (length (own_inputs owners)) explicit)
  then Ok (packed_result (resolve pairs).*1 (length (own_inputs owners)) explicit)
  else Err InvalidFolderGraph.
Proof.
  intros Hmax. unfold Bindings_packed_inputs. cbn [bindings_of bound_inputs].
  rewrite unbound_bound_by. destruct explicit as [|raw rest].
  - case_decide as Hp; cbn in Hp; unfold packed_result;
      destruct (filter _ _) as [|i [|i' l]]; done.
  - set (ex := raw :: rest). rewrite length_map, length_seq.
    assert (packed_result (resolve pairs).*1 (length (own_inputs owners)) ex =
      zip (seq 0 (length ex)) (map Z.to_nat ex)) as ->
      by (unfold packed_result, ex; by rewrite length_map).
    rewrite (map_seq_const (λ i, bool_decide (i ∈ @nil nat)) _ false)
      by (intros i; by apply bool_decide_eq_false_2, not_elem_of_nil).
    rewrite packed_loop_spec by done.
    assert (Forall (λ r, Z.to_nat r ∉ @nil nat) ex) as Hn
      by (apply Forall_forall; intros ? _; apply not_elem_of_nil).
    destruct (decide (packed_ok _ _ ex)) as [Hp|Hp]; unfold packed_ok, ex in Hp; fold ex in Hp;
      repeat case_decide; tauto.
Qed.

Lemma pair_edges_range owners n pairs :
  owners_wf owners n → pairs_ok owners pairs →
  ∀ u v, (u, v) ∈ map (pair_edge owners) (resolve pairs) → (u < n)%nat ∧ (v < n)%nat.
Proof.
  intros [_ _ Hwi Hwo] [Hr _ _ _]. apply resolve_range in Hr as [Hi Ho].
  intros u v ([i o] & [= -> ->] & Hin)%list_elem_of_fmap. cbn [fst snd].
  pose proof (list_elem_of_fmap_2 fst _ _ Hin) as Hi'.
  pose proof (list_elem_of_fmap_2 snd _ _ Hin) as Ho'. cbn in Hi', Ho'.
  rewrite Forall_lookup in Hwi, Hwo. split.
  - destruct (lookup_lt_is_Some_2 _ _ (Ho _ Ho')) as [s Hs].
    rewrite (list_lookup_total_correct _ _ _ Hs). by eapply Hwo.
  - destruct (lookup_lt_is_Some_2 _ _ (Hi _ Hi')) as [t Ht].
    rewrite (list_lookup_total_correct _ _ _ Ht). by eapply Hwi.
Qed.

(** The order is a schedule of every coder, found exactly without a cycle. *)
Lemma execution_order_spec owners n pairs :
  owners_wf owners n → pairs_ok owners pairs →
  let E := map (pair_edge owners) (resolve pairs) in
  let b := bindings_of owners n (resolve pairs) in
  (acyclic E ∧ ∃ order, Bindings_execution_order b = Ok order ∧
     order ≡ₚ seq 0 n ∧ topological E order) ∨
  (¬ acyclic E ∧ Bindings_execution_order b = Err InvalidFolderGraph).
Proof.
  intros Hwf Hok E b. pose proof (pair_edges_range _ _ _ Hwf Hok) as Hrange. fold E in Hrange.
  assert (Hlen : length (indegree b) = n) by (cbn; by rewrite length_map, length_seq).
  assert (Hinit : kahn_inv n E (indegree b) (initial_ready (indegree b)) []).
  { apply kahn_init; [done|]. intros v Hv. by apply map_seq_lookup. }
  destruct (execution_loop_inv n E Hrange (edges b)
    ltac:(intros u Hu; by apply map_seq_lookup) n _ _ _ Hinit ltac:(lia))
    as (degrees' & order & Hloop & Hinv).
  pose proof (kahn_complete n E Hrange _ _ Hinv) as Hc.
  unfold Bindings_execution_order. rewrite Hlen, Hloop.
  case_decide as Hl; [left|right; tauto]. split; [tauto|]. exists order.
  destruct Hinv as [Hnd _ _ Hr Ht]. rewrite app_nil_r in *. split_and!; [done| |done].
  symmetry.
  apply submseteq_length_Permutation; [|rewrite length_seq; lia].
  apply NoDup_submseteq; [apply NoDup_seq|]. intros v [_ Hv]%elem_of_seq.
  apply list_elem_of_In, (NoDup_length_incl (l := order) (l' := seq 0 n)).
  - by apply NoDup_ListNoDup.
  - rewrite length_seq. lia.
  - intros w Hw. apply list_elem_of_In, Hr in Hw. apply in_seq. lia.
  - apply in_seq. lia.
Qed.

(** ** Owners in closed form *)

(** What [StreamArity::try_from] asks of a coder. *)
Definition arity_ok (c : CoderInfo) : Prop :=
  match method_from_id (codec_id c) ≫= SevenZMethod_stream_arity with
  | Some expected => (num_in_streams c, num_out_streams c) = expected
  | None => True
  end ∧ in_stream_limit (num_in_streams c) ∧ in_stream_limit (num_out_streams c).

Lemma StreamArity_try_from_spec c :
  (arity_ok c ∧ StreamArity_try_from c =
     Ok {| ar_inputs := Z.to_nat (num_in_streams c);
           ar_outputs := Z.to_nat (num_out_streams c) |}) ∨
  (¬ arity_ok c ∧ StreamArity_try_from c = Err InvalidFolderGraph).
Proof.
  unfold arity_ok, StreamArity_try_from, in_stream_limit, usize_try_from, MAX_FOLDER_STREAMS.
  cbn [fst snd]. destruct (_ ≫= _) as [expected|].
  - destruct (decide (_ ≠ expected)) as [Hne|Heq]; [right; tauto|].
    repeat case_decide; cbn; repeat case_decide; first [left; split; [|done]; split; [|lia]; by apply dec_stable|right; split; [lia|done]].
  - repeat case_decide; cbn; repeat case_decide; first [left; split; [|done]; split; [done|lia]|right; split; [lia|done]].
Qed.

Definition arity_of (c : CoderInfo) : StreamArity :=
  {| ar_inputs := Z.to_nat (num_in_streams c); ar_outputs := Z.to_nat (num_out_streams c) |}.

Lemma arities_spec cs :
  (Forall arity_ok cs ∧ try_collect StreamArity_try_from cs = Ok (map arity_of cs)) ∨
  (¬ Forall arity_ok cs ∧ try_collect StreamArity_try_from cs = Err InvalidFolderGraph).
Proof.
  induction cs as [|c cs IH]; cbn; [left; split; [constructor|done]|].
  rewrite Forall_cons. destruct (StreamArity_try_from_spec c) as [[Hc ->]|[Hc ->]];
    [|right; split; [tauto|done]].
  destruct IH as [[Hcs ->]|[Hcs ->]]; [by left|right; split; [tauto|done]].
Qed.

Lemma arity_ok_nonneg c : arity_ok c → 1 ≤ num_in_streams c ∧ 1 ≤ num_out_streams c.
Proof. intros (_ & [? _] & [? _]). done. Qed.

Lemma sums_nonneg cs : Forall arity_ok cs → 0 ≤ sum_in cs ∧ 0 ≤ sum_out cs.
Proof.
  unfold sum_in, sum_out. induction 1 as [|c cs [? ?]%arity_ok_nonneg _ IH]; cbn; lia.
Qed.

Lemma totals_spec cs i o :
  Forall arity_ok cs → 0 ≤ i ≤ MAX_FOLDER_STREAMS → 0 ≤ o ≤ MAX_FOLDER_STREAMS →
  try_fold StreamOwners_total_step (i, o) (map arity_of cs) =
  if decide (i + sum_in cs ≤ MAX_FOLDER_STREAMS ∧ o + sum_out cs ≤ MAX_FOLDER_STREAMS)
  then Ok (i + sum_in cs, o + sum_out cs) else Err InvalidFolderGraph.
Proof.
  intros Hcs. revert i o. induction Hcs as [|c cs Hc Hcs IH]; intros i o Hi Ho.
  { cbn. rewrite !Z.add_0_r, decide_True by lia. done. }
  apply arity_ok_nonneg in Hc as [Hci Hco]. pose proof (sums_nonneg cs Hcs) as [? ?].
  change (sum_in (c :: cs)) with (num_in_streams c + sum_in cs).
  change (sum_out (c :: cs)) with (num_out_streams c + sum_out cs).
  cbn [map try_fold StreamOwners_total_step fst snd arity_of ar_inputs ar_outputs].
  unfold StreamOwners_total_step, checked_add, arity_of. cbn [fst snd ar_inputs ar_outputs].
  rewrite !Z2Nat.id by lia. unfold MAX_FOLDER_STREAMS in *.
  destruct (decide (i + num_in_streams c ≤ u64_max)); cbn [mbind option_bind];
    [|cbn; by rewrite decide_False by lia].
  destruct (decide (i + num_in_streams c ≤ 16384)); cbn [ok_or];
    [|by rewrite decide_False by lia].
  destruct (decide (o + num_out_streams c ≤ u64_max)); cbn [mbind option_bind];
    [|cbn; by rewrite decide_False by lia].
  destruct (decide (o + num_out_streams c ≤ 16384)); cbn [ok_or];
    [|by rewrite decide_False by lia].
  rewrite IH by lia. repeat case_decide; try lia; [|done]. do 2 f_equal; lia.
Qed.

Definition coders_ok (cs : list CoderInfo) : Prop :=
  Forall arity_ok cs ∧ sum_in cs ≤ MAX_FOLDER_STREAMS ∧ sum_out cs ≤ MAX_FOLDER_STREAMS.

Lemma owners_spec cs :
  (coders_ok cs ∧ StreamOwners_from_coders cs = Ok (owners_of cs)) ∨
  (¬ coders_ok cs ∧ StreamOwners_from_coders cs = Err InvalidFolderGraph).
Proof.
  unfold coders_ok, StreamOwners_from_coders.
  destruct (arities_spec cs) as [[Hcs ->]|[Hcs ->]]; [|right; split; [tauto|done]].
  rewrite totals_spec by (try done; by vm_compute).
  rewrite !Z.add_0_l. case_decide; [left|right; split; [tauto|done]].
  split; [done|]. unfold owners_of. change (map arity_of cs) with (arity_of <$> cs).
  by rewrite !imap_fmap.
Qed.

Lemma zlen_concat_replicate (f : CoderInfo → Z) cs g :
  (∀ c, c ∈ cs → 0 ≤ f c) →
  zlen (concat (imap (λ i c, replicate (Z.to_nat (f c)) (g i)) cs) : list nat) =
  foldr (λ c n, f c + n) 0 cs.
Proof.
  revert g. induction cs as [|c cs IH]; intros g Hf; [done|]. cbn.
  rewrite zlen_app. unfold compose. cbn beta.
  rewrite (IH (λ i, g (S i))) by (intros; apply Hf; by right).
  unfold zlen. rewrite length_replicate. pose proof (Hf c ltac:(left)). lia.
Qed.

Lemma owners_lengths cs :
  Forall arity_ok cs → zlen (own_inputs (owners_of cs)) = sum_in cs ∧
                       zlen (own_outputs (owners_of cs)) = sum_out cs.
Proof.
  intros Hcs. rewrite Forall_forall in Hcs.
  split; apply (zlen_concat_replicate _ _ id); intros c Hc;
    pose proof (arity_ok_nonneg c (Hcs c Hc)); lia.
Qed.

Lemma owners_of_wf cs : coders_ok cs → owners_wf (owners_of cs) (length cs).
Proof.
  intros (Hcs & Hi & Ho). destruct (owners_lengths cs Hcs) as [Hli Hlo].
  assert (Hb : ∀ h : CoderInfo → nat,
    Forall (λ k, k < length cs)%nat (concat (imap (λ i c, replicate (h c) i) cs))).
  { intros h. apply Forall_concat, Forall_lookup. intros i l Hl.
    rewrite list_lookup_imap in Hl. apply fmap_Some in Hl as (c & Hc & ->).
    apply Forall_replicate. by eapply lookup_lt_Some. }
  split; [lia|lia|apply Hb|apply Hb].
Qed.

(** ** The graph of a folder *)

(** The edge list of the coders: one edge per bind pair. *)
Definition coder_edges (f : Folder) : list (nat * nat) :=
  map (pair_edge (owners_of (coders f))) (resolve (bind_pairs f)).

(** A valid folder graph: known coders have their arity, streams stay under the
    limit, the bind pairs join every output but one to a distinct input of
    another coder, without a cycle, and the packed indices name the free inputs. *)
Record graph_valid (f : Folder) : Prop := {
  gv_coders : coders_ok (coders f);
  gv_count : zlen (bind_pairs f) = sum_out (coders f) - 1;
  gv_pairs : pairs_ok (owners_of (coders f)) (bind_pairs f);
  gv_packed : packed_ok (resolve (bind_pairs f)).*1
                (length (own_inputs (owners_of (coders f)))) (packed_indices f);
  gv_acyclic : acyclic (coder_edges f)
}.

(** What the graph promises its clients. *)
Record graph_spec (f : Folder) (g : FolderGraph) : Prop := {
  gs_all : fg_execution_order g ≡ₚ seq 0 (length (coders f));
  gs_order : topological (coder_edges f) (fg_execution_order g);
  gs_final : ∀ o, (o < length (fg_output_owners g))%nat ∧ o ∉ (resolve (bind_pairs f)).*2
                  ↔ o = fg_final_output g;
  gs_packed : (fg_packed_inputs g).*1 = seq 0 (length (fg_packed_inputs g)) ∧
    (fg_packed_inputs g).*2 ≡ₚ
      filter (λ i, i ∉ (resolve (bind_pairs f)).*1) (seq 0 (length (fg_input_owners g)));
  gs_places : match packed_indices f with
              | [] => length (fg_packed_inputs g) = 1%nat
              | _ => (fg_packed_inputs g).*2 = map Z.to_nat (packed_indices f)
              end;
  gs_sources : ∀ i o, fg_input_sources g !! i = Some (Some o) ↔ (i, o) ∈ resolve (bind_pairs f);
  gs_inputs : fg_input_owners g = own_inputs (owners_of (coders f));
  gs_outputs : fg_output_owners g = own_outputs (owners_of (coders f))
}.

Lemma source_of_spec ps i o : NoDup ps.*1 → source_of ps i = Some o ↔ (i, o) ∈ ps.
Proof.
  unfold source_of. induction ps as [|[a b] ps IH]; cbn; intros Hnd.
  { split; [done|by intros ?%not_elem_of_nil]. }
  apply NoDup_cons in Hnd as [Ha Hnd]. rewrite elem_of_cons.
  case_bool_decide as He; cbn.
  - subst a. split; [intros [= ->]; by left|]. intros [[= ->]|Hin]; [done|].
    destruct Ha. by apply (list_elem_of_fmap_2 fst) in Hin.
  - rewrite (IH Hnd). split; [by right|]. intros [[= -> ->]|]; done.
Qed.

Lemma packed_result_spec bound total explicit :
  packed_ok bound total explicit →
  (packed_result bound total explicit).*1 = seq 0 (length (packed_result bound total explicit)) ∧
  (packed_result bound total explicit).*2 ≡ₚ filter (λ i, i ∉ bound) (seq 0 total).
Proof.
  intros Hok. unfold packed_result. rewrite length_zip_with, length_seq, Nat.min_id.
  rewrite fst_zip, snd_zip by (rewrite length_seq; done). split; [done|].
  destruct explicit as [|raw rest]; [done|]. destruct Hok as (Hl & Hall & Hnd).
  apply submseteq_length_Permutation; [|rewrite length_map, Hl; done].
  apply NoDup_submseteq; [done|]. intros i (r & -> & Hr)%list_elem_of_fmap.
  rewrite Forall_forall in Hall. destruct (Hall r Hr) as [? ?].
  apply list_elem_of_filter. split; [done|]. apply elem_of_seq. lia.
Qed.

(** The packed stream at a place feeds the input that the packed index at that place names. *)
Lemma packed_result_places bound total explicit :
  packed_ok bound total explicit →
  match explicit with
  | [] => length (packed_result bound total explicit) = 1%nat
  | _ => (packed_result bound total explicit).*2 = map Z.to_nat explicit
  end.
Proof.
  intros Hok. unfold packed_result. destruct explicit as [|raw rest].
  - cbn in Hok. by rewrite length_zip_with, length_seq, Nat.min_id.
  - by rewrite snd_zip by (rewrite length_seq; done).
Qed.

Lemma Folder_graph_cases f :
  (graph_valid f ∧ ∃ g, Folder_graph f = Ok g ∧ graph_spec f g) ∨
  (¬ graph_valid f ∧ Folder_graph f = Err InvalidFolderGraph).
Proof.
  unfold Folder_graph. destruct (owners_spec (coders f)) as [[Hcs ->]|[Hcs ->]];
    [|right; split; [by intros []|done]].
  pose proof (owners_of_wf _ Hcs) as Hwf.
  destruct (owners_lengths _ (proj1 Hcs)) as [Hli Hlo].
  rewrite (Bindings_new_spec _ _ Hwf), Hlo.
  case_decide as Hp; [|right; split; [intros []; tauto|done]]. destruct Hp as [Hcount Hpairs].
  rewrite <- Hlo in Hcount.
  destruct (final_output_spec _ (length (coders f)) _ Hcount Hpairs) as (o & -> & Hfinal).
  rewrite packed_inputs_spec by (apply Hwf).
  case_decide as Hpk; [|right; split; [intros []; tauto|done]].
  destruct (execution_order_spec _ _ _ Hwf Hpairs) as [(Hac & order & -> & Hperm & Htopo)|(Hac & ->)];
    [left|right; split; [intros []; tauto|done]].
  split; [by split; [| lia| | |]|]. eexists. split; [done|].
  split; cbn [fg_execution_order fg_final_output fg_packed_inputs fg_input_owners
    fg_output_owners fg_input_sources bindings_of input_sources]; try done.
  - by apply packed_result_spec.
  - by apply packed_result_places.
  - intros i j. destruct Hpairs as [Hr Hi _ _]. apply resolve_range in Hr as [Hr _].
    rewrite <- source_of_spec by done. destruct (decide (i < length (own_inputs (owners_of (coders f))))%nat).
    + rewrite map_seq_lookup by done. split; [by intros [= ->]|by intros ->].
    + rewrite lookup_ge_None_2 by (rewrite length_map, length_seq; lia).
      split; [done|]. rewrite source_of_spec by done.
      intros Hin%(list_elem_of_fmap_2 fst). by apply Hr in Hin.
Qed.

(** ** BCJ2 channels *)

Record Bcj2Coder := { bc_index : nat; bc_output : nat }.
Record Bcj2Channel := { ch_coders : list Bcj2Coder; ch_packed : nat }.
Record Bcj2Layout := {
  bl_main : Bcj2Channel; bl_call : Bcj2Channel; bl_jump : Bcj2Channel; bl_control : Bcj2Channel
}.

(** The first position of a value, and the slot of a packed input. *)
Definition position (x : nat) (l : list nat) : option nat :=
  fst <$> list_find (λ y, y = x) l.

Definition packed_slot (g : FolderGraph) (input : nat) : result nat R7zError :=
  ok_or (fst <$> List.find (λ p, bool_decide (p.2 = input)) (fg_packed_inputs g))
        InvalidFolderGraph.

(** The loop of [bcj2_channel]: back along the sources to a packed input. *)
Fixpoint bcj2_channel_loop (fuel : nat) (g : FolderGraph) (f : Folder) (bcj2 input : nat)
    (acc : list Bcj2Coder) : result (list Bcj2Coder * nat) R7zError :=
  match fuel with
  | O => Err R7zOutOfFuel
  | S fuel =>
      let? source := ok_or (fg_input_sources g !! input) InvalidFolderGraph in
      match source with
      | None => let? packed := packed_slot g input in Ok (acc, packed)
      | Some output =>
          let? coder := ok_or (fg_output_owners g !! output) InvalidFolderGraph in
          let? info := ok_or (coders f !! coder) InvalidFolderGraph in
          let? arity := StreamArity_try_from info in
          if decide (coder = bcj2 ∨ ar_inputs arity ≠ 1%nat ∨ ar_outputs arity ≠ 1%nat)
          then Err InvalidFolderGraph
          else
            let? input := ok_or (position coder (fg_input_owners g)) InvalidFolderGraph in
            bcj2_channel_loop fuel g f bcj2 input
              (acc ++ [{| bc_index := coder; bc_output := output |}])
      end
  end.

Definition bcj2_channel (g : FolderGraph) (f : Folder) (bcj2 input : nat) :
    result Bcj2Channel R7zError :=
  let? found := bcj2_channel_loop (S (length (coders f))) g f bcj2 input [] in
  let '(cs, packed) := found in
  Ok {| ch_coders := rev cs; ch_packed := packed |}.

Definition indices_where {A} (P : A → Prop) `{!∀ x, Decision (P x)} (l : list A) : list nat :=
  map fst (filter (λ p, P p.2) (imap (λ i x, (i, x)) l)).

Definition bcj2_layout (g : FolderGraph) (f : Folder) : result (option Bcj2Layout) R7zError :=
  match indices_where (λ c, codec_id c = CODEC_BCJ2) (coders f) with
  | [] => Ok None
  | index :: more =>
      if decide (more ≠ [] ∨ fg_output_owners g !! fg_final_output g ≠ Some index)
      then Err InvalidFolderGraph
      else
        match indices_where (λ owner, owner = index) (fg_input_owners g) with
        | [main; call; jump; control] =>
            let? m := bcj2_channel g f index main in
            let? c := bcj2_channel g f index call in
            let? j := bcj2_channel g f index jump in
            let? k := bcj2_channel g f index control in
            let channel_coders := map bc_index
              (ch_coders m ++ ch_coders c ++ ch_coders j ++ ch_coders k) in
            if decide (NoDup channel_coders ∧
                       Forall (λ coder, coder = index ∨ coder ∈ channel_coders)
                              (seq 0 (length (coders f))))
            then Ok (Some {| bl_main := m; bl_call := c; bl_jump := j; bl_control := k |})
            else Err InvalidFolderGraph
        | _ => Err InvalidFolderGraph
        end
  end.

(** The links of a channel, from the coder next to BCJ2 back to the packed
    input: the stream into [input] is the coder's output, and so on. *)
Fixpoint channel_links (g : FolderGraph) (input : nat) (cs : list Bcj2Coder) (packed : nat) :
    Prop :=
  match cs with
  | [] => fg_input_sources g !! input = Some None ∧ (packed, input) ∈ fg_packed_inputs g
  | c :: rest =>
      fg_input_sources g !! input = Some (Some (bc_output c)) ∧
      fg_output_owners g !! bc_output c = Some (bc_index c) ∧
      ∃ next, fg_input_owners g !! next = Some (bc_index c) ∧ channel_links g next rest packed
  end.

Lemma position_Some x l i : position x l = Some i → l !! i = Some x.
Proof.
  unfold position. intros ([j y] & Hf & ->)%fmap_Some.
  apply list_find_Some in Hf as (Hl & -> & _). done.
Qed.

Lemma bcj2_channel_loop_links fuel g f bcj2 input acc cs packed :
  bcj2_channel_loop fuel g f bcj2 input acc = Ok (cs, packed) →
  ∃ tl, cs = acc ++ tl ∧ channel_links g input tl packed ∧ Forall (λ c, bc_index c ≠ bcj2) tl.
Proof.
  revert input acc. induction fuel as [|fuel IH]; intros input acc; cbn; [done|].
  destruct (fg_input_sources g !! input) as [[output|]|] eqn:Es; cbn; [| |done].
  - destruct (fg_output_owners g !! output) as [coder|] eqn:Eo; cbn; [|done].
    destruct (coders f !! coder) as [info|]; cbn; [|done].
    destruct (StreamArity_try_from info) as [ar|]; [|done].
    case_decide as Hd; [done|]. destruct (position coder _) as [next|] eqn:Ep; cbn; [|done].
    intros (tl & -> & Hlinks & Hall)%IH.
    exists ({| bc_index := coder; bc_output := output |} :: tl). rewrite <- app_assoc.
    split_and!; [done| |constructor; [tauto|done]]. cbn. split_and!; [done|done|].
    exists next. split; [by apply position_Some|done].
  - unfold packed_slot. destruct (List.find _ _) as [[slot i]|] eqn:Ef; cbn; [|done].
    intros [= <- <-]. exists []. rewrite app_nil_r. split_and!; [done| |constructor].
    apply List.find_some in Ef as [Hin Hi]. cbn in *.
    apply bool_decide_eq_true in Hi as ->.
    split; [done|]. by apply list_elem_of_In.
Qed.

(** The channel walk only goes backward in the schedule, so it stops. *)
Lemma bcj2_channel_loop_stops fuel g f bcj2 input acc pos c :
  graph_spec f g → graph_valid f →
  fg_input_owners g !! input = Some c → fg_execution_order g !! pos = Some c →
  (pos < fuel)%nat →
  bcj2_channel_loop fuel g f bcj2 input acc ≠ Err R7zOutOfFuel.
Proof.
  intros Hg Hv. revert input acc pos c.
  induction fuel as [|fuel IH]; intros input acc pos c Hown Hpos Hlt; [lia|]. cbn.
  destruct (fg_input_sources g !! input) as [[output|]|] eqn:Es; cbn; [| |done].
  2:{ unfold packed_slot. by destruct (List.find _ _). }
  destruct (fg_output_owners g !! output) as [coder|] eqn:Eo; cbn; [|done].
  destruct (coders f !! coder) as [info|]; cbn; [|done].
  destruct (StreamArity_try_from_spec info) as [[_ ->]|[_ ->]]; [|done].
  case_decide as Hd; [done|]. destruct (position coder _) as [next|] eqn:Ep; cbn; [|done].
  assert (Hedge : (coder, c) ∈ coder_edges f).
  { apply (gs_sources _ _ Hg) in Es. unfold coder_edges.
    apply list_elem_of_fmap. exists (input, output). split; [|done].
    unfold pair_edge. cbn [fst snd]. rewrite <- (gs_inputs _ _ Hg), <- (gs_outputs _ _ Hg).
    by rewrite (list_lookup_total_correct _ _ _ Hown), (list_lookup_total_correct _ _ _ Eo). }
  destruct (gs_order _ _ Hg pos coder c Hpos Hedge) as (j & Hj & Hcj).
  apply (IH next _ j coder); [by apply position_Some|done|lia].
Qed.

Lemma bcj2_channel_stops g f bcj2 input :
  graph_spec f g → graph_valid f → bcj2_channel g f bcj2 input ≠ Err R7zOutOfFuel.
Proof.
  intros Hg Hv. unfold bcj2_channel.
  assert (bcj2_channel_loop (S (length (coders f))) g f bcj2 input [] ≠ Err R7zOutOfFuel).
  { destruct (fg_input_owners g !! input) as [c|] eqn:Ec.
    - assert (c ∈ fg_execution_order g) as [pos Hpos]%list_elem_of_lookup.
      { rewrite (gs_all _ _ Hg), elem_of_seq. split; [lia|].
        rewrite (gs_inputs _ _ Hg) in Ec. pose proof (owners_of_wf _ (gv_coders _ Hv)) as Hwf.
        pose proof (Forall_lookup_1 _ _ _ _ (ow_in _ _ Hwf) Ec). done. }
      eapply bcj2_channel_loop_stops; [done|done|done|done|].
      apply lookup_lt_Some in Hpos. rewrite (gs_all _ _ Hg), length_seq in Hpos. lia.
    - cbn. destruct (fg_input_sources g !! input) as [[o|]|] eqn:Es; cbn; [| |done].
      + apply (gs_sources _ _ Hg) in Es. destruct (gv_pairs _ Hv) as [Hr _ _ _].
        apply resolve_range in Hr as [Hr _].
        apply (list_elem_of_fmap_2 fst), Hr in Es. rewrite <- (gs_inputs _ _ Hg) in Es.
        apply lookup_ge_None in Ec. cbn in Es. lia.
      + unfold packed_slot. by destruct (List.find _ _). }
  destruct (bcj2_channel_loop _ _ _ _ _ _) as [[cs p]|]; [done|]. by intros [= ->].
Qed.

Lemma bcj2_channel_links g f bcj2 input ch :
  bcj2_channel g f bcj2 input = Ok ch →
  channel_links g input (rev (ch_coders ch)) (ch_packed ch) ∧
  Forall (λ c, bc_index c ≠ bcj2) (ch_coders ch).
Proof.
  unfold bcj2_channel. destruct (bcj2_channel_loop _ _ _ _ _ _) as [[cs p]|] eqn:El; [|done].
  intros [= <-]. cbn. apply bcj2_channel_loop_links in El as (tl & -> & Hl & Hall).
  rewrite app_nil_l, rev_involutive. split; [done|]. by apply Forall_rev.
Qed.

(** A BCJ2 layout: its four channels start at the four inputs of the one BCJ2
    coder, which writes the final output, and share out all the other coders. *)
Lemma bcj2_layout_spec g f l :
  bcj2_layout g f = Ok (Some l) →
  ∃ b main call jump control,
    codec_id <$> (coders f !! b) = Some CODEC_BCJ2 ∧
    fg_output_owners g !! fg_final_output g = Some b ∧
    indices_where (λ o, o = b) (fg_input_owners g) = [main; call; jump; control] ∧
    channel_links g main (rev (ch_coders (bl_main l))) (ch_packed (bl_main l)) ∧
    channel_links g call (rev (ch_coders (bl_call l))) (ch_packed (bl_call l)) ∧
    channel_links g jump (rev (ch_coders (bl_jump l))) (ch_packed (bl_jump l)) ∧
    channel_links g control (rev (ch_coders (bl_control l))) (ch_packed (bl_control l)) ∧
    let others := map bc_index (ch_coders (bl_main l) ++ ch_coders (bl_call l) ++
                                ch_coders (bl_jump l) ++ ch_coders (bl_control l)) in
    NoDup others ∧ (b ∉ others) ∧ ∀ c, (c < length (coders f))%nat → c = b ∨ c ∈ others.
Proof.
  unfold bcj2_layout. destruct (indices_where _ (coders f)) as [|b more] eqn:Eb; [done|].
  case_decide as Hd; [done|].
  assert (Hb : codec_id <$> (coders f !! b) = Some CODEC_BCJ2).
  { assert (b ∈ indices_where (λ c, codec_id c = CODEC_BCJ2) (coders f)) as Hin
      by (rewrite Eb; left).
    unfold indices_where in Hin. apply list_elem_of_fmap in Hin as ([i c] & -> & Hin).
    apply list_elem_of_filter in Hin as [Hc Hin]. cbn in *.
    apply elem_of_lookup_imap in Hin as (j & c' & [= -> ->] & Hl). by rewrite Hl, <- Hc. }
  destruct (indices_where _ (fg_input_owners g))
    as [|m [|c [|j [|k [|]]]]] eqn:Ei; try done.
  destruct (bcj2_channel g f b m) as [cm|] eqn:Em; [|done].
  destruct (bcj2_channel g f b c) as [cc|] eqn:Ec; [|done].
  destruct (bcj2_channel g f b j) as [cj|] eqn:Ej; [|done].
  destruct (bcj2_channel g f b k) as [ck|] eqn:Ek; [|done].
  case_decide as Hs; [|done]. intros [= <-]. destruct Hs as [Hnd Hall].
  apply bcj2_channel_links in Em as [? Hm], Ec as [? Hc], Ej as [? Hj], Ek as [? Hk].
  exists b, m, c, j, k. cbn [bl_main bl_call bl_jump bl_control].
  split_and!; try done; [by apply dec_stable; tauto| |].
  - intros (x & -> & Hx)%list_elem_of_fmap.
    pose proof (Forall_app_2 _ _ _ Hm (Forall_app_2 _ _ _ Hc (Forall_app_2 _ _ _ Hj Hk))) as Hf.
    rewrite Forall_forall in Hf. by apply (Hf x Hx).
  - intros x Hx. rewrite Forall_forall in Hall. apply Hall, elem_of_seq. lia.
Qed.

(** ** Properties *)

(** C32. Building the graph of a folder decides its validity, for every folder: it
    succeeds exactly when known coders have their arities, the streams are within
    the limit, the bind pairs join distinct streams of distinct coders without a
    cycle and the packed indices name the free inputs. The graph then has every
    coder once, each after the coders it reads from, the output no pair binds, and
    the free inputs as its packed inputs, each packed stream at the input that the packed
    index of the same place names, or at the only free input if there are no indices. *)
Theorem folder_graph_decides f :
  (graph_valid f ∧ ∃ g, Folder_graph f = Ok g ∧ graph_spec f g) ∨
  (¬ graph_valid f ∧ Folder_graph f = Err InvalidFolderGraph).
Proof. apply Folder_graph_cases. Qed.

(** A recognised BCJ2 folder is one BCJ2 coder that owns the final output and
    has four inputs, each fed by a chain of simple coders from a packed stream, the
    chains using every other coder once. *)
Theorem bcj2_layout_sound f g :
  Folder_graph f = Ok g →
  bcj2_layout g f ≠ Err R7zOutOfFuel ∧
  ∀ l, bcj2_layout g f = Ok (Some l) →
  ∃ b main call jump control,
    codec_id <$> (coders f !! b) = Some CODEC_BCJ2 ∧
    fg_output_owners g !! fg_final_output g = Some b ∧
    indices_where (λ o, o = b) (fg_input_owners g) = [main; call; jump; control] ∧
    channel_links g main (rev (ch_coders (bl_main l))) (ch_packed (bl_main l)) ∧
    channel_links g call (rev (ch_coders (bl_call l))) (ch_packed (bl_call l)) ∧
    channel_links g jump (rev (ch_coders (bl_jump l))) (ch_packed (bl_jump l)) ∧
    channel_links g control (rev (ch_coders (bl_control l))) (ch_packed (bl_control l)) ∧
    let others := map bc_index (ch_coders (bl_main l) ++ ch_coders (bl_call l) ++
                                ch_coders (bl_jump l) ++ ch_coders (bl_control l)) in
    NoDup others ∧ (b ∉ others) ∧ ∀ c, (c < length (coders f))%nat → c = b ∨ c ∈ others.
Proof.
  intros Hg. split; [|intros l; apply bcj2_layout_spec].
  destruct (Folder_graph_cases f) as [(Hv & g' & Hg' & Hs)|[_ Hg']]; [|congruence].
  rewrite Hg in Hg'. injection Hg' as <-.
  pose proof (λ b i, bcj2_channel_stops g f b i Hs Hv) as Hch.
  unfold bcj2_layout. destruct (indices_where _ (coders f)) as [|b more]; [done|].
  case_decide; [done|]. destruct (indices_where _ (fg_input_owners g)) as [|m [|c [|j [|k [|]]]]]; try done.
  pose proof (Hch b m). destruct (bcj2_channel g f b m); [|congruence].
  pose proof (Hch b c). destruct (bcj2_channel g f b c); [|congruence].
  pose proof (Hch b j). destruct (bcj2_channel g f b j); [|congruence].
  pose proof (Hch b k). destruct (bcj2_channel g f b k); [|congruence].
  by case_decide.
Qed.

(** ** Witnesses *)

Definition sample_coder (id : bytes) (ins : Z) : CoderInfo :=
  {| codec_id := id; num_in_streams := ins; num_out_streams := 1; properties := None |}.

(** BCJ2 over three LZMA coders and a raw range-coder stream. *)
Definition sample_bcj2 : Folder :=
  {| coders := [sample_coder CODEC_BCJ2 4; sample_coder [3; 1; 1] 1; sample_coder [3; 1; 1] 1;
                sample_coder [3; 1; 1] 1];
     bind_pairs := [(0, 1); (1, 2); (2, 3)]; packed_indices := [4; 5; 6; 3] |}.

Definition sample_bcj2_graph : FolderGraph :=
  {| fg_execution_order := [3%nat; 2%nat; 1%nat; 0%nat];
     fg_packed_inputs := [(0%nat, 4%nat); (1%nat, 5%nat); (2%nat, 6%nat); (3%nat, 3%nat)];
     fg_final_output := 0; fg_input_owners := [0; 0; 0; 0; 1; 2; 3]%nat;
     fg_output_owners := [0; 1; 2; 3]%nat;
     fg_input_sources := [Some 1%nat; Some 2%nat; Some 3%nat; None; None; None; None] |}.

Lemma bcj2_layout_sound_witness :
  ∃ l, bcj2_layout sample_bcj2_graph sample_bcj2 = Ok (Some l) ∧
    map bc_index (ch_coders (bl_call l)) = [2%nat] ∧
    ∃ b, codec_id <$> (coders sample_bcj2 !! b) = Some CODEC_BCJ2 ∧
      fg_output_owners sample_bcj2_graph !! fg_final_output sample_bcj2_graph = Some b.
Proof.
  destruct (bcj2_layout sample_bcj2_graph sample_bcj2) as [[l|]|e] eqn:E;
    [|vm_compute in E; discriminate E..].
  exists l. split; [reflexivity|]. split; [vm_compute in E; injection E as <-; reflexivity|].
  destruct (bcj2_layout_sound sample_bcj2 sample_bcj2_graph) as [_ Hl]; [vm_compute; reflexivity|].
  destruct (Hl l E) as (b & m & c & j & k & Hb & Ho & _). exists b. split; [exact Hb|exact Ho].
Defined.
