(* ===== verification/PackInfo.v ===== *)
(** * Packed and unpacked stream blocks (src/src/pack_info.rs)

    [PackInfo::parse], [UnpackInfo::parse_with_external] with its lazily parsed
    folders, their scanning counterparts, and the digest tables. *)

From stdpp Require Import base numbers list option sets.
From Stdlib Require Import ZArith Lia.
From S2P Require Import Prelude PropertyId Parsers CoderInfo Folder Error FolderGraph.

(** ** Types *)

Inductive FolderLocation :=
| Inline
| External (index : Z).

(** The bytes that hold the folder blocks: the header or an external stream. *)
Inductive FolderSource :=
| SourceInline (b : slice)
| SourceExternal (b : slice).

Record PackInfo := {
  pack_pos : Z;
  num_pack_streams : Z;
  pack_size : list Z;
  pack_digests : list (option Z)
}.

Record UnpackInfo := {
  num_folders : Z;
  folder_data : slice;
  folder_offsets : list Z;
  unpack_sizes : list Z;
  unpack_digests : list (option Z)
}.

(** ** Digest tables *)

(** The bitmap read when the digests are not all defined. *)
Definition digest_bitmap `{Nom} (input : slice) (all_defined num : Z) : IResult bytes :=
  if decide (all_defined = 0) then
    let? (rest, bm) := nom_take (div_ceil num 8) input in Ok (rest, sl_data bm)
  else Ok (input, []).

Definition digest_defined (all_defined : Z) (bitmap : bytes) (i : Z) : bool :=
  bool_decide (all_defined ≠ 0) || bitmap_is_set bitmap i.

(** One iteration of [(0..num_streams).try_fold(...)]; the state holds [i]. *)
Definition digest_step `{Nom} (is_defined : Z → bool)
    (st : slice * (Z * list (option Z))) : IResult (Z * list (option Z)) :=
  let '(input, (i, crcs)) := st in
  if is_defined i then
    let? (input, crc) := le_u32 input in
    Ok (input, (i + 1, crcs ++ [Some crc]))
  else Ok (input, (i + 1, crcs ++ [None])).

Definition parse_digests `{Nom} (input : slice) (num_streams : Z) : IResult (list (option Z)) :=
  let? (input, all_defined) := le_u8 input in
  let? (input, bitmap) := digest_bitmap input all_defined num_streams in
  let? (input, st) :=
    repeat_n num_streams (digest_step (digest_defined all_defined bitmap)) (input, (0, [])) in
  Ok (input, snd st).

(** ** PackInfo *)

(** One iteration of [for _ in 0..n { let (i, size) = decode(input)?; push; }]. *)
Definition push_varuint_step (st : slice * list Z) : IResult (list Z) :=
  let '(input, sizes) := st in
  let? (i, size) := sevenzip_varuint64_decode input in
  Ok (i, sizes ++ [size]).

(** [resize(n, None)] on an empty vector. *)
Definition default_digests (digests : list (option Z)) (n : nat) : list (option Z) :=
  match digests with [] => replicate n None | _ => digests end.

(** The fixed part up to the sizes; [orig_input] starts with the tag. *)
Definition pack_info_head (input : slice) : IResult (Z * Z) :=
  let orig_input := input in
  let? (input, property_id) := PropertyId_parse input in
  if decide (property_id ≠ P_PackInfo) then Err (NomFailure orig_input Satisfy) else
  let? (input, pack_pos) := sevenzip_varuint64_decode input in
  let? (input, num_pack_streams) := sevenzip_varuint64_decode input in
  let? (input, size_marker) := PropertyId_parse input in
  if decide (size_marker ≠ P_Size) then Err (NomFailure input Satisfy) else
  Ok (input, (pack_pos, num_pack_streams)).

Definition pack_info_body `{Nom} (num_pack_streams : Z) (input i : slice) (tag : PropertyId)
    (digests : list (option Z)) : IResult (list (option Z)) :=
  match tag with
  | P_CRC =>
      let? n := ok_or (usize_try_from num_pack_streams) (NomError i TooLarge) in
      parse_digests i n
  | _ => let? (i, _) := skip_sized i in Ok (i, digests)
  end.

Definition PackInfo_parse `{Nom} (input : slice) : IResult PackInfo :=
  let? (input, head) := pack_info_head input in
  let '(pack_pos, num_pack_streams) := head in
  let? (input, pack_size) := repeat_n num_pack_streams push_varuint_step (input, []) in
  let? (input, digests) := run_tag_loop (pack_info_body num_pack_streams) input [] in
  Ok (input, {| pack_pos := pack_pos; num_pack_streams := num_pack_streams;
                pack_size := pack_size;
                pack_digests := default_digests digests (length pack_size) |}).

Definition skip_varuint_step (st : slice * unit) : IResult unit :=
  let '(input, _) := st in
  let? (i, _) := sevenzip_varuint64_decode input in
  Ok (i, tt).

Definition scan_pack_info_body `{Nom} (num_pack_streams : Z) (input i : slice)
    (tag : PropertyId) (_ : unit) : IResult unit :=
  match tag with
  | P_CRC => scan_digests i num_pack_streams
  | _ => skip_sized i
  end.

Definition scan_pack_info `{Nom} (input : slice) : IResult unit :=
  let? (input, head) := pack_info_head input in
  let '(_, num_pack_streams) := head in
  let? (input, _) := repeat_n num_pack_streams skip_varuint_step (input, tt) in
  let? n := ok_or (usize_try_from num_pack_streams) (NomError input TooLarge) in
  run_tag_loop (scan_pack_info_body n) input tt.

(** ** Folder declarations and sources *)

Definition parse_folder_declaration `{Nom} (input : slice) : IResult (Z * FolderLocation) :=
  let original := input in
  let? (input, tag) := PropertyId_parse input in
  if decide (tag ≠ P_UnPackInfo) then Err (NomFailure original Satisfy) else
  let? (input, marker) := PropertyId_parse input in
  if decide (marker ≠ P_Folder) then Err (NomFailure input Satisfy) else
  let? (input, count) := sevenzip_varuint64_decode input in
  let? (input, flag) := le_u8 input in
  if decide (flag = 0) then Ok (input, (count, Inline))
  else if decide (flag = 1) then
    let? (input, raw_index) := sevenzip_varuint64_decode input in
    let? index := ok_or (usize_try_from raw_index) (NomFailure input TooLarge) in
    Ok (input, (count, External index))
  else Err (NomFailure input Verify).

Definition FolderSource_resolve (input : slice) (location : FolderLocation)
    (external_data : list slice) : IResult FolderSource :=
  match location with
  | Inline => Ok (input, SourceInline input)
  | External index =>
      let? data := ok_or (get index external_data) (NomFailure input Eof) in
      Ok (input, SourceExternal data)
  end.

Definition FolderSource_bytes (self : FolderSource) : slice :=
  match self with SourceInline b | SourceExternal b => b end.

Definition FolderSource_remaining_header (self : FolderSource) (input : slice) (consumed : Z) :
    result slice nom_err :=
  match self with
  | SourceInline _ => ok_or (slice_from consumed input) (NomFailure input Eof)
  | SourceExternal _ => Ok input
  end.

Definition FolderSource_backing (self : FolderSource) (inline : slice) : slice :=
  match self with SourceInline _ => inline | SourceExternal b => b end.

(** The error kind [scan_folder_blocks] keeps of a parser error. *)
Definition error_code (e : nom_err) : ErrorKind :=
  match e with
  | NomError _ k | NomFailure _ k => k
  | NomIncomplete | OutOfFuel => Eof
  end.

(** One folder; the state is the rest, the output count and the offsets. *)
Definition folder_block_step `{Nom} (data : slice)
    (st : slice * Z * option (list Z)) : result (slice * Z * option (list Z)) ErrorKind :=
  let '(folders, total, offsets) := st in
  let? offsets :=
    match offsets with
    | Some l => let? o := ok_or (u32_try_from (sl_len data - sl_len folders)) TooLarge in
                Ok (Some (l ++ [o]))
    | None => Ok None
    end in
  let? (remaining, out_streams) := map_err error_code (scan_folder folders) in
  let? total := ok_or (checked_add total out_streams) TooLarge in
  Ok (remaining, total, offsets).

Definition scan_folder_blocks `{Nom} (data : slice) (count : Z) (offsets : option (list Z)) :
    result (Z * Z * option (list Z)) ErrorKind :=
  let? st := repeat_n count (folder_block_step data) (data, 0, offsets) in
  let '(folders, total, offsets) := st in
  let consumed := sl_len data - sl_len folders in
  let? offsets :=
    match offsets with
    | Some l => let? o := ok_or (u32_try_from consumed) TooLarge in Ok (Some (l ++ [o]))
    | None => Ok None
    end in
  Ok (consumed, total, offsets).

(** ** UnpackInfo *)

Definition unpack_info_body `{Nom} (num_folders total_out_streams : Z) (input i : slice)
    (tag : PropertyId) (st : list Z * list (option Z)) : IResult (list Z * list (option Z)) :=
  let '(sizes, digests) := st in
  match tag with
  | P_CodersUnPackSize =>
      let? (i, sizes) := repeat_n total_out_streams push_varuint_step (i, sizes) in
      Ok (i, (sizes, digests))
  | P_CRC =>
      let? n := ok_or (usize_try_from num_folders) (NomError i TooLarge) in
      let? (i, crcs) := parse_digests i n in
      Ok (i, (sizes, crcs))
  | _ => let? (i, _) := skip_sized i in Ok (i, (sizes, digests))
  end.

Definition UnpackInfo_parse_with_external `{Nom} (input backing : slice)
    (external_data : list slice) : IResult UnpackInfo :=
  let? (input, decl) := parse_folder_declaration input in
  let '(num_folders, location) := decl in
  let? (input, source) := FolderSource_resolve input location external_data in
  let bytes := FolderSource_bytes source in
  let? blocks := map_err (NomFailure input) (scan_folder_blocks bytes num_folders (Some [])) in
  let '(consumed, total_out_streams, offsets) := blocks in
  let folder_offsets := default [] offsets in
  let? folder_data :=
    bytes_subslice (FolderSource_backing source backing) (first_bytes consumed bytes) input in
  let? input := FolderSource_remaining_header source input consumed in
  let? (input, st) :=
    run_tag_loop (unpack_info_body num_folders total_out_streams) input ([], []) in
  let '(unpack_sizes, digests) := st in
  Ok (input, {| num_folders := num_folders; folder_data := folder_data;
                folder_offsets := folder_offsets; unpack_sizes := unpack_sizes;
                unpack_digests := default_digests digests (length folder_offsets - 1) |}).

Definition UnpackInfo_parse `{Nom} (input backing : slice) : IResult UnpackInfo :=
  UnpackInfo_parse_with_external input backing [].

Definition UnpackInfo_folder_bytes (self : UnpackInfo) (idx : Z) : result slice R7zError :=
  let? start := ok_or (get idx (folder_offsets self)) Parse in
  let? end_ := ok_or (get (idx + 1) (folder_offsets self)) Parse in
  if decide (end_ < start ∨ sl_len (folder_data self) < end_) then Err Parse
  else Ok (first_bytes (end_ - start) (advance start (folder_data self))).

Definition UnpackInfo_parse_folder_with_graph `{Nom} (self : UnpackInfo) (idx : Z) :
    result (Folder * FolderGraph) R7zError :=
  let? bytes := UnpackInfo_folder_bytes self idx in
  let? (_, folder) := map_err (λ _, Parse) (all_consuming Folder_parse bytes) in
  let? graph := Folder_graph folder in
  Ok (folder, graph).

Definition UnpackInfo_parse_folder `{Nom} (self : UnpackInfo) (idx : Z) :
    result Folder R7zError :=
  result_map fst (UnpackInfo_parse_folder_with_graph self idx).

Definition UnpackInfo_num_folders_usize (self : UnpackInfo) : Z :=
  zlen (folder_offsets self) - 1.

Definition scan_unpack_info_body `{Nom} (nf total_out_streams : Z) (input i : slice)
    (tag : PropertyId) (_ : unit) : IResult unit :=
  match tag with
  | P_CodersUnPackSize =>
      let? (i, _) := repeat_n total_out_streams skip_varuint_step (i, tt) in Ok (i, tt)
  | P_CRC => scan_digests i nf
  | _ => skip_sized i
  end.

Definition scan_unpack_info_with_external `{Nom} (input : slice) (external_data : list slice) :
    IResult Z :=
  let? (input, decl) := parse_folder_declaration input in
  let '(num_folders, location) := decl in
  let? (input, source) := FolderSource_resolve input location external_data in
  let? blocks := map_err (NomFailure input)
                   (scan_folder_blocks (FolderSource_bytes source) num_folders None) in
  let '(consumed, total_out_streams, _) := blocks in
  let? input := FolderSource_remaining_header source input consumed in
  let? nf := ok_or (usize_try_from num_folders) (NomError input TooLarge) in
  let? (input, _) := run_tag_loop (scan_unpack_info_body nf total_out_streams) input tt in
  Ok (input, nf).

(** ** Lemmas: tails *)

Lemma parse_digests_tail `{Nom} s n : parses_tail s (parse_digests s n).
Proof. unfold parse_digests, digest_bitmap, digest_step. parse_tail. Qed.

Lemma pack_info_head_tail s : parses_tail s (pack_info_head s).
Proof. unfold pack_info_head. parse_tail. Qed.

Lemma push_varuints_tail n s l : parses_tail s (repeat_n n push_varuint_step (s, l)).
Proof. unfold push_varuint_step. parse_tail. Qed.

Lemma skip_varuints_tail n s l : parses_tail s (repeat_n n skip_varuint_step (s, l)).
Proof. unfold skip_varuint_step. parse_tail. Qed.

#[export] Hint Resolve parse_digests_tail pack_info_head_tail
  push_varuints_tail skip_varuints_tail : tail.

Lemma pack_info_body_ok `{Nom} n : tag_body_ok (pack_info_body n).
Proof. intros input tag st _ _. unfold pack_info_body. destruct tag; parse_tail. Qed.

Lemma scan_pack_info_body_ok `{Nom} n : tag_body_ok (scan_pack_info_body n).
Proof. intros input tag st _ _. unfold scan_pack_info_body. destruct tag; parse_tail. Qed.

#[export] Hint Resolve pack_info_body_ok scan_pack_info_body_ok : tail.

Lemma PackInfo_parse_tail `{Nom} s : parses_tail s (PackInfo_parse s).
Proof. unfold PackInfo_parse. parse_tail. Qed.

Lemma scan_pack_info_tail `{Nom} s : parses_tail s (scan_pack_info s).
Proof. unfold scan_pack_info. parse_tail. Qed.

Lemma parse_folder_declaration_tail `{Nom} s : parses_tail s (parse_folder_declaration s).
Proof. unfold parse_folder_declaration. parse_tail. Qed.

Lemma FolderSource_resolve_tail s l e : parses_tail s (FolderSource_resolve s l e).
Proof. unfold FolderSource_resolve. destruct l; parse_tail. Qed.

#[export] Hint Resolve PackInfo_parse_tail scan_pack_info_tail parse_folder_declaration_tail
  FolderSource_resolve_tail : tail.

Lemma unpack_info_body_ok `{Nom} n t : tag_body_ok (unpack_info_body n t).
Proof. intros input tag [a b] _ _. unfold unpack_info_body. destruct tag; parse_tail. Qed.

Lemma scan_unpack_info_body_ok `{Nom} n t : tag_body_ok (scan_unpack_info_body n t).
Proof. intros input tag st _ _. unfold scan_unpack_info_body. destruct tag; parse_tail. Qed.

#[export] Hint Resolve unpack_info_body_ok scan_unpack_info_body_ok : tail.

(** The rest of the header after the folder blocks. *)
Lemma remaining_header_suffix src s c r :
  FolderSource_remaining_header src s c = Ok r → suffix_of r s.
Proof.
  unfold FolderSource_remaining_header, slice_from. destruct src; [|by intros [= <-]].
  case_decide; cbn; [|done]. intros [= <-]. by apply suffix_of_advance.
Qed.

Lemma remaining_header_err src s c e :
  FolderSource_remaining_header src s c = Err e → e = NomFailure s Eof.
Proof.
  unfold FolderSource_remaining_header. destruct src; [|done].
  destruct (slice_from _ _); cbn; congruence.
Qed.

Lemma map_failure_tail {A B} s t (r : result A ErrorKind) e :
  map_err (NomFailure s) r = Err e → parses_tail t (Err e : IResult B).
Proof. destruct r; cbn; [done|]. by intros [= <-]. Qed.

(** The errors of the folder block steps, none of which is a fuel error. *)
Ltac folder_source_tail :=
  match goal with
  | H : map_err (NomFailure _) _ = Err _ |- _ => by eapply map_failure_tail
  | H : bytes_subslice _ _ _ = Err _ |- _ => apply bytes_subslice_verify in H as ->; done
  | H : FolderSource_remaining_header _ _ _ = Err _ |- _ =>
      apply remaining_header_err in H as ->; done
  | H : FolderSource_remaining_header _ _ _ = Ok _ |- _ =>
      eapply parses_tail_weaken; [by eapply remaining_header_suffix|parse_tail]
  end.

Lemma UnpackInfo_parse_tail `{Nom} s b e : parses_tail s (UnpackInfo_parse_with_external s b e).
Proof. unfold UnpackInfo_parse_with_external. parse_tail; folder_source_tail. Qed.

Lemma scan_unpack_info_tail `{Nom} s e : parses_tail s (scan_unpack_info_with_external s e).
Proof. unfold scan_unpack_info_with_external. parse_tail; folder_source_tail. Qed.

#[export] Hint Resolve UnpackInfo_parse_tail scan_unpack_info_tail : tail.

(** ** Lemmas: the folder blocks *)

(** [offs] cuts [data] into the blocks of the folders [fs]. *)
Record folder_chain `{Nom} (data : slice) (offs : list Z) (fs : list Folder) : Prop := {
  fc_len : length offs = S (length fs);
  fc_first : offs !! 0%nat = Some 0;
  fc_blocks : ∀ k f, fs !! k = Some f → ∃ a b,
    offs !! k = Some a ∧ offs !! S k = Some b ∧ 0 ≤ a ≤ b ∧ b ≤ sl_len data ∧
    Folder_parse (advance a data) = Ok (advance b data, f)
}.

(** The output streams of the folders. *)
Definition sum_outs (fs : list Folder) : Z := foldr (λ f n, sum_out (coders f) + n) 0 fs.

Lemma sum_outs_app l k : sum_outs (l ++ k) = sum_outs l + sum_outs k.
Proof. unfold sum_outs. induction l; cbn; lia. Qed.

Lemma scan_folder_inv `{Nom} s r t :
  scan_folder s = Ok (r, t) → ∃ f, Folder_parse s = Ok (r, f) ∧ t = sum_out (coders f).
Proof.
  rewrite scan_folder_erase. destruct (Folder_parse s) as [[r' f]|]; [|done].
  unfold usize_try_from. case_decide; cbn; [|done]. intros [= <- <-]. by exists f.
Qed.

Lemma folder_chain_snoc `{Nom} data offs fs n m f :
  folder_chain data (offs ++ [n]) fs → 0 ≤ n ≤ m → m ≤ sl_len data →
  Folder_parse (advance n data) = Ok (advance m data, f) →
  folder_chain data ((offs ++ [n]) ++ [m]) (fs ++ [f]).
Proof.
  intros [Hl H0 Hb] Hn Hm Hf. split.
  - rewrite !length_app in *. cbn in *. lia.
  - by apply lookup_app_l_Some.
  - intros k g Hk. apply lookup_snoc_Some in Hk as [[Hlt Hk]|[-> ->]].
    + destruct (Hb k g Hk) as (a & b & Ha & Hb' & ? & ? & ?).
      exists a, b. split_and!; first [lia|done|by apply lookup_app_l_Some].
    + exists n, m. rewrite length_app in Hl. cbn in Hl.
      split_and!; [| |lia|lia|lia|done].
      * apply lookup_app_l_Some. rewrite lookup_app_r by lia.
        by replace (length fs - length offs)%nat with 0%nat by lia.
      * rewrite lookup_app_r by (rewrite length_app; cbn; lia). rewrite length_app. cbn.
        by replace (S (length fs) - (length offs + 1))%nat with 0%nat by lia.
Qed.

Lemma u32_try_from_Some v o : u32_try_from v = Some o → o = v ∧ 0 ≤ v ≤ u32_max.
Proof. unfold u32_try_from. case_decide; [|done]. by intros [= <-]. Qed.

Lemma checked_add_Some a b c : checked_add a b = Some c → c = a + b.
Proof. unfold checked_add. case_decide; [|done]. by intros [= <-]. Qed.

Lemma advance_inj m n s : advance m s = advance n s → m = n.
Proof. intros H. injection H. lia. Qed.

(** The blocks of a successful walk that records offsets. *)
Lemma scan_folder_blocks_chain `{Nom} data count consumed total offs :
  scan_folder_blocks data count (Some []) = Ok (consumed, total, offs) →
  ∃ l fs, offs = Some l ∧ folder_chain data l fs ∧ length fs = Z.to_nat count ∧
    total = sum_outs fs ∧ last l = Some consumed ∧ 0 ≤ consumed ≤ sl_len data ∧
    consumed ≤ u32_max.
Proof.
  unfold scan_folder_blocks. rewrite repeat_n_nat.
  destruct (repeat_nat _ _ _) as [[[folders tot] o]|] eqn:Er; [|done].
  apply (repeat_nat_ind _ (λ j '(folders, tot, o), ∃ n l fs,
    folders = advance n data ∧ 0 ≤ n ≤ sl_len data ∧ o = Some l ∧
    folder_chain data (l ++ [n]) fs ∧ length fs = j ∧ tot = sum_outs fs)) with (i := 0%nat) in Er.
  - destruct Er as (n & l & fs & -> & Hn & -> & Hch & Hlen & ->).
    rewrite sl_len_advance by done. replace (sl_len data - (sl_len data - n)) with n by lia.
    destruct (u32_try_from n) as [o'|] eqn:Eu; cbn; [|done]. intros [= <- <- <-].
    apply u32_try_from_Some in Eu as [-> ?]. exists (l ++ [n]), fs. rewrite last_snoc.
    split_and!; done || lia.
  - clear. intros j [[folders tot] o] [[folders' tot'] o'] (n & l & fs & -> & Hn & -> & Hch & <- & ->).
    unfold folder_block_step. rewrite sl_len_advance by done.
    replace (sl_len data - (sl_len data - n)) with n by lia.
    destruct (u32_try_from n) as [u|] eqn:Eu; cbn; [|done].
    apply u32_try_from_Some in Eu as [-> ?].
    destruct (scan_folder (advance n data)) as [[r t]|] eqn:Es; cbn; [|done].
    destruct (checked_add _ _) as [t'|] eqn:Ea; cbn; [|done]. intros [= <- <- <-].
    apply checked_add_Some in Ea as ->. apply scan_folder_inv in Es as (f & Hf & ->).
    pose proof (Folder_parse_tail (advance n data)) as Ht. rewrite Hf in Ht.
    destruct Ht as (m & Hm & ->). rewrite sl_len_advance in Hm by done.
    rewrite advance_advance in * by lia.
    exists (n + m), (l ++ [n]), (fs ++ [f]). split_and!; try done; try lia.
    + apply folder_chain_snoc; try done; lia.
    + rewrite length_app. cbn. lia.
    + rewrite sum_outs_app. cbn. lia.
  - exists 0, [], []. split_and!; try done; [by rewrite advance_0|].
    pose proof (sl_len_nonneg data). lia.
Qed.

Lemma folder_chain_mono `{Nom} data offs fs i j a b :
  folder_chain data offs fs → offs !! i = Some a → offs !! j = Some b → (i ≤ j)%nat → a ≤ b.
Proof.
  intros Hc Ha. revert b. induction j as [|j IH]; intros b Hb Hij.
  - assert (i = 0%nat) as -> by lia. rewrite Ha in Hb. injection Hb as ->. lia.
  - destruct (decide (i = S j)) as [->|]; [rewrite Ha in Hb; injection Hb as ->; lia|].
    pose proof (lookup_lt_Some _ _ _ Hb) as Hlt. rewrite (fc_len _ _ _ Hc) in Hlt.
    destruct (lookup_lt_is_Some_2 fs j ltac:(lia)) as [f Hf].
    destruct (fc_blocks _ _ _ Hc j f Hf) as (c & d & Hc' & Hd & ? & _).
    rewrite Hb in Hd. injection Hd as <-. specialize (IH c Hc' ltac:(lia)). lia.
Qed.

(** A block read from its own bytes alone. *)
Lemma folder_block_alone `{Nom} data a b f t :
  0 ≤ a ≤ b → b ≤ sl_len data → Folder_parse (advance a data) = Ok (advance b data, f) →
  sl_data t = take (Z.to_nat (b - a)) (drop (Z.to_nat a) (sl_data data)) →
  ∃ r, all_consuming Folder_parse t = Ok (r, f).
Proof.
  intros Hab Hb Hf Ht. apply Folder_parse_local in Hf as (n & Hn & Hadv & Hloc).
  rewrite sl_len_advance in Hn by lia. rewrite advance_advance in Hadv by lia.
  apply advance_inj in Hadv. assert (n = b - a) as -> by lia.
  assert (Hlen : sl_len t = b - a).
  { unfold sl_len, zlen in *. rewrite Ht, length_take, length_drop. lia. }
  destruct (Hloc t) as (f' & Hf' & <-); [lia| |].
  { rewrite Ht, take_take. cbn. f_equal. lia. }
  rewrite all_consuming_law. unfold ref_all_consuming. rewrite Hf'.
  unfold sl_empty. cbn. rewrite drop_ge by (unfold sl_len, zlen in Hlen; lia). by eexists.
Qed.

(** The folders of a scanned block list parse, lazily, to what the scan saw. *)
Lemma chain_parse_folder `{Nom} data u fs consumed :
  folder_chain data (folder_offsets u) fs → last (folder_offsets u) = Some consumed →
  consumed ≤ sl_len data → sl_data (folder_data u) = take (Z.to_nat consumed) (sl_data data) →
  ∀ k : nat,
    UnpackInfo_parse_folder_with_graph u (Z.of_nat k) =
    match fs !! k with
    | Some f => let? g := Folder_graph f in Ok (f, g)
    | None => Err Parse
    end.
Proof.
  intros Hc Hlast Hcons Hdata k. unfold UnpackInfo_parse_folder_with_graph, UnpackInfo_folder_bytes.
  replace (Z.of_nat k + 1) with (Z.of_nat (S k)) by lia. rewrite !get_lookup.
  destruct (fs !! k) as [f|] eqn:Ef.
  - destruct (fc_blocks _ _ _ Hc k f Ef) as (a & b & Ha & Hb & Hab & Hbl & Hf).
    rewrite Ha, Hb. cbn [ok_or].
    assert (b ≤ consumed) as Hbc.
    { rewrite last_lookup in Hlast. eapply folder_chain_mono; [done|exact Hb|exact Hlast|].
      apply lookup_lt_Some in Hb. lia. }
    assert (0 ≤ consumed) by lia.
    assert (sl_len (folder_data u) = consumed) as Hl.
    { unfold sl_len, zlen in *. rewrite Hdata, length_take. lia. }
    rewrite decide_False by lia. cbv beta iota.
    destruct (folder_block_alone data a b f (first_bytes (b - a) (advance a (folder_data u))))
      as (r & ->); try done.
    cbn. rewrite Hdata.
    replace (Z.to_nat consumed) with (Z.to_nat a + Z.to_nat (consumed - a))%nat by lia.
    rewrite <- take_drop_commute, take_take. f_equal. lia.
  - apply lookup_ge_None in Ef. destruct (folder_offsets u !! k); cbn; [|done].
    rewrite lookup_ge_None_2; [done|]. rewrite (fc_len _ _ _ Hc). lia.
Qed.

Lemma parse_folder_declaration_u64 `{Nom} s r nf loc :
  byte_slice s → parse_folder_declaration s = Ok (r, (nf, loc)) → is_u64 nf.
Proof.
  intros Hs. unfold parse_folder_declaration.
  pose proof (PropertyId_parse_tail s) as T1.
  destruct (PropertyId_parse s) as [[i1 t1]|]; [|done]. case_decide; [done|]. cbn in T1.
  pose proof (PropertyId_parse_tail i1) as T2.
  destruct (PropertyId_parse i1) as [[i2 t2]|]; [|done]. case_decide; [done|]. cbn in T2.
  destruct (sevenzip_varuint64_decode i2) as [[i3 n]|] eqn:E3; [|done].
  apply varuint_decode_u64 in E3 as [Hn _];
    [|eapply byte_slice_suffix; [|done]; by etransitivity].
  destruct (le_u8 i3) as [[i4 fl]|]; [|done]. case_decide; [by intros [= _ <- _]|].
  case_decide; [|done]. destruct (sevenzip_varuint64_decode i4) as [[i5 x]|]; [|done].
  destruct (usize_try_from x); cbn; [|done]. by intros [= _ <- _].
Qed.

(** What a successful [UnpackInfo::parse_with_external] went through. *)
Lemma UnpackInfo_parse_inv `{Nom} s backing ext r u :
  valid_slice s → sl_len backing ≤ usize_max → Forall (λ e, sl_len e ≤ usize_max) ext →
  within s backing →
  UnpackInfo_parse_with_external s backing ext = Ok (r, u) →
  ∃ data fs consumed,
    folder_chain data (folder_offsets u) fs ∧ last (folder_offsets u) = Some consumed ∧
    0 ≤ consumed ≤ sl_len data ∧
    sl_data (folder_data u) = take (Z.to_nat consumed) (sl_data data) ∧
    num_folders u = zlen fs ∧ is_u64 (num_folders u).
Proof.
  intros Hs Hback Hext Hw. unfold UnpackInfo_parse_with_external.
  destruct (parse_folder_declaration s) as [[s1 [nf loc]]|] eqn:Ed; [|done].
  assert (suffix_of s1 s) as Hs1.
  { pose proof (parse_folder_declaration_tail s) as Ht. by rewrite Ed in Ht. }
  apply parse_folder_declaration_u64 in Ed as Hnf; [|apply Hs].
  destruct (FolderSource_resolve s1 loc ext) as [[s2 src]|] eqn:Er; [|done].
  destruct (map_err _ _) as [[[consumed total] offs]|] eqn:Eb; [|done].
  destruct (scan_folder_blocks _ nf _) as [[[c' t'] o']|] eqn:Escan; [|done].
  injection Eb as -> -> ->.
  apply scan_folder_blocks_chain in Escan as (l & fs & -> & Hch & Hlen & Htot & Hlast & Hc & _).
  destruct (bytes_subslice _ _ _) as [fd|] eqn:Esub; [|done].
  destruct (FolderSource_remaining_header _ _ _) as [s3|] eqn:Erem; [|done].
  destruct (run_tag_loop _ _ _) as [[s4 [us dg]]|] eqn:Eloop; [|done].
  intros [= <- <-]. exists (FolderSource_bytes src), fs, consumed. cbn [default].
  cbn [folder_offsets folder_data num_folders].
  split_and!; try done; try lia; try (unfold is_u64 in Hnf; unfold zlen; lia).
  destruct (bytes_subslice_within (FolderSource_backing src backing)
    (first_bytes consumed (FolderSource_bytes src)) s2) as (x & Hx & Hxd).
  - destruct loc as [|ix]; cbn in Er; [by injection Er as _ <-|].
    destruct (get ix ext) as [d|] eqn:Eg; cbn in Er; [|done]. injection Er as _ <-. cbn.
    rewrite Forall_forall in Hext. apply Hext. unfold get in Eg.
    case_decide; [|done]. by eapply list_elem_of_lookup_2.
  - destruct loc as [|ix]; cbn in Er.
    + injection Er as _ <-. cbn in *. eapply within_trans; [by apply within_first|].
      eapply within_trans; [by apply within_suffix|done].
    + destruct (get ix ext); cbn in Er; [|done]. injection Er as _ <-. cbn. by apply within_first.
  - rewrite Hx in Esub. injection Esub as ->. rewrite Hxd. done.
Qed.

(** ** Lemmas: the scanners agree with the parsers *)

(** How many of the streams [i .. i + n) are marked defined. *)
Definition count_defined (is_defined : Z → bool) (i : Z) (n : nat) : Z :=
  zlen (filter (λ j, is_defined j = true) (seqZ i (Z.of_nat n))).

Lemma count_defined_S d i n :
  count_defined d i (S n) = (if d i then 1 else 0) + count_defined d (i + 1) n.
Proof.
  unfold count_defined. rewrite seqZ_cons by lia. rewrite filter_cons.
  replace (Z.pred (Z.of_nat (S n))) with (Z.of_nat n) by lia.
  replace (Z.succ i) with (i + 1) by lia.
  destruct (d i); [rewrite decide_True by done; by rewrite zlen_cons|by rewrite decide_False].
Qed.

Lemma count_defined_nonneg d i n : 0 ≤ count_defined d i n.
Proof. apply zlen_nonneg. Qed.

(** The digest loop reads four bytes for each defined stream. *)
Lemma digest_loop_spec `{Nom} d n s i crcs :
  if decide (4 * count_defined d i n ≤ sl_len s) then
    ∃ crcs', repeat_nat (digest_step d) n (s, (i, crcs)) =
               Ok (advance (4 * count_defined d i n) s, (i + Z.of_nat n, crcs ++ crcs')) ∧
             length crcs' = n
  else ∃ e, repeat_nat (digest_step d) n (s, (i, crcs)) = Err e.
Proof.
  revert s i crcs. induction n as [|n IH]; intros s i crcs.
  { rewrite decide_True by (cbn; apply sl_len_nonneg). exists []. cbn.
    by rewrite Z.add_0_r, app_nil_r, advance_0. }
  rewrite count_defined_S. cbn [repeat_nat digest_step].
  pose proof (count_defined_nonneg d (i + 1) n) as Hn.
  destruct (d i).
  - rewrite le_u32_law. unfold ref_le_uint. cbn [Z.of_nat].
    destruct (decide (Z.of_nat 4 ≤ sl_len s)) as [H4|H4].
    + specialize (IH (advance (Z.of_nat 4) s) (i + 1)
        (crcs ++ [Some (from_le_bytes (take 4 (sl_data s)))])).
      rewrite sl_len_advance in IH by lia. case_decide; case_decide; try lia; [|done].
      destruct IH as (crcs' & -> & Hl). eexists (_ :: crcs'). split; [|cbn; by rewrite Hl].
      rewrite <- app_assoc, advance_advance by lia. do 2 f_equal; [f_equal; lia|].
      f_equal. lia.
    + rewrite decide_False by lia. by eexists.
  - specialize (IH s (i + 1) (crcs ++ [None])). case_decide; case_decide; try lia; [|done].
    destruct IH as (crcs' & -> & Hl). eexists (_ :: crcs'). split; [|cbn; by rewrite Hl].
    rewrite <- app_assoc. do 3 f_equal. lia.
Qed.

Lemma nom_take_le `{Nom} n s : 0 ≤ n ≤ sl_len s → nom_take n s = Ok (advance n s, first_bytes n s).
Proof. intros. rewrite nom_take_law. unfold ref_take. by rewrite decide_True. Qed.

Lemma nom_take_gt `{Nom} n s : sl_len s < n → nom_take n s = Err (NomError s Eof).
Proof. intros. rewrite nom_take_law. unfold ref_take. by rewrite decide_False by lia. Qed.

(** Reading the digests against skipping them, once the bitmap is known. *)
Lemma digests_agree `{Nom} d num s :
  valid_slice s → 0 ≤ num →
  ok_agree (λ crcs _, zlen crcs = num)
    (let? (input, st) := repeat_n num (digest_step d) (s, (0, [])) in Ok (input, snd st))
    (let? crc_bytes := ok_or (checked_mul (count_defined d 0 (Z.to_nat num)) 4)
                             (NomError s TooLarge) in
     let? (input, _) := nom_take crc_bytes s in Ok (input, tt)).
Proof.
  intros [_ Hs] Hnum. rewrite repeat_n_nat.
  pose proof (digest_loop_spec d (Z.to_nat num) s 0 []) as Hl.
  pose proof (count_defined_nonneg d 0 (Z.to_nat num)) as Hc.
  unfold checked_mul. rewrite (Z.mul_comm _ 4).
  case_decide as Hd.
  - destruct Hl as (crcs & -> & Hlen). rewrite decide_True by lia. cbn [ok_or].
    rewrite nom_take_le by lia. cbn. split; [done|]. unfold zlen. lia.
  - destruct Hl as (e & ->). case_decide; cbn [ok_or]; [|done].
    by rewrite nom_take_gt by lia.
Qed.

Lemma count_defined_all d n : (∀ i, d i = true) → count_defined d 0 (Z.to_nat n) = Z.max 0 n.
Proof.
  intros Hd. unfold count_defined, zlen.
  assert (∀ l : list Z, filter (λ j, d j = true) l = l) as ->.
  { induction l as [|x l IH]; [done|]. rewrite filter_cons, decide_True by done. by rewrite IH. }
  rewrite length_seqZ. lia.
Qed.

Lemma digest_scan_agree `{Nom} num s :
  valid_slice s → 0 ≤ num →
  ok_agree (λ crcs _, zlen crcs = num) (parse_digests s num) (scan_digests s num).
Proof.
  intros Hs Hnum. unfold parse_digests, scan_digests.
  pose proof (le_u8_tail s) as Ht. destruct (le_u8 s) as [[s1 ad]|]; [|done]. cbn in Ht.
  apply (valid_slice_suffix _ _ Ht) in Hs. unfold digest_bitmap.
  destruct (decide (ad = 0)) as [->|Had].
  - rewrite decide_False by (by intros []). pose proof (nom_take_tail (div_ceil num 8) s1) as Ht1.
    destruct (nom_take _ s1) as [[s2 m]|]; [|done]. cbn in Ht1.
    apply (valid_slice_suffix _ _ Ht1) in Hs.
    assert (count_set (sl_data m) num =
            count_defined (digest_defined 0 (sl_data m)) 0 (Z.to_nat num)) as ->.
    { unfold count_set, count_defined. rewrite Z2Nat.id by done. f_equal. }
    by apply digests_agree.
  - rewrite decide_True by done.
    assert (num = count_defined (digest_defined ad []) 0 (Z.to_nat num)) as Hcnt.
    { rewrite count_defined_all; [lia|]. intros i. unfold digest_defined.
      by rewrite bool_decide_eq_true_2 by done. }
    rewrite Hcnt at 2. by apply digests_agree.
Qed.

Lemma ok_agree_map_r {A B C} (R : A → B → Prop) (Q : A → C → Prop) p q f :
  ok_agree R p q → (∀ x y, R x y → Q x (f y)) →
  ok_agree Q p (let? (r, y) := q in Ok (r, f y)).
Proof. intros H Hf. destruct p as [[]|], q as [[]|]; cbn in *; naive_solver. Qed.

(** Reading [n] integers against skipping them. *)
Lemma varuints_agree n s l :
  0 ≤ n →
  ok_agree (λ sizes _, zlen sizes = zlen l + n)
    (repeat_n n push_varuint_step (s, l)) (repeat_n n skip_varuint_step (s, tt)).
Proof.
  intros Hn. rewrite !repeat_n_nat. pose proof (repeat_nat_sim push_varuint_step skip_varuint_step
    (λ st st', fst st = fst st') (λ _ _, True) (Z.to_nat n) (s, l) (s, tt)) as Hsim.
  pose proof (λ s', repeat_nat_ind push_varuint_step (λ j st, zlen (snd st) = zlen l + Z.of_nat j)
    (Z.to_nat n) 0 (s, l) s') as Hlen.
  lapply Hsim; [clear Hsim; intros Hsim|].
  2:{ intros [a b] [a' []] [= <-]. unfold push_varuint_step, skip_varuint_step.
      by destruct (sevenzip_varuint64_decode a) as [[]|]. }
  specialize (Hsim eq_refl).
  destruct (repeat_nat push_varuint_step _ _) as [[r sizes]|],
    (repeat_nat skip_varuint_step _ _) as [[r' []]|]; cbn in *; try done.
  split; [done|]. specialize (Hlen (r, sizes)). cbn in Hlen. rewrite Z2Nat.id in Hlen by done.
  apply Hlen; [|lia|done]. intros j [a b] [a' b'] Hj. unfold push_varuint_step.
  destruct (sevenzip_varuint64_decode a) as [[]|]; [|done]. intros [= <- <-].
  cbn in *. rewrite zlen_app, zlen_cons, zlen_nil. lia.
Qed.

(** What both walks of a [PackInfo] block rely on. *)
Record pack_info_wf (p : PackInfo) : Prop := {
  pw_num : is_u64 (num_pack_streams p);
  pw_sizes : zlen (pack_size p) = num_pack_streams p;
  pw_digests : zlen (pack_digests p) = num_pack_streams p
}.

Lemma pack_info_head_u64 s r p n :
  byte_slice s → pack_info_head s = Ok (r, (p, n)) → is_u64 p ∧ is_u64 n.
Proof.
  intros Hs. unfold pack_info_head. pose proof (PropertyId_parse_tail s) as Ht.
  destruct (PropertyId_parse s) as [[s1 t]|]; [|done]. cbn in Ht.
  apply (byte_slice_suffix _ _ Ht) in Hs. case_decide; [done|].
  destruct (sevenzip_varuint64_decode s1) as [[s2 a]|] eqn:E1; [|done].
  apply varuint_decode_u64 in E1 as [Ha Hs2]; [|done].
  destruct (sevenzip_varuint64_decode s2) as [[s3 b]|] eqn:E2; [|done].
  apply varuint_decode_u64 in E2 as [Hb Hs3]; [|done].
  destruct (PropertyId_parse s3) as [[s4 m]|]; [|done]. case_decide; [done|].
  by intros [= _ <- <-].
Qed.

Lemma usize_try_from_u64 n : is_u64 n → usize_try_from n = Some n.
Proof. intros [? ?]. unfold usize_try_from. by rewrite decide_True by lia. Qed.

Lemma pack_info_body_agree `{Nom} n input tag digests :
  is_u64 n → valid_slice (advance 1 input) → digests = [] ∨ zlen digests = n →
  ok_agree (λ ds _, ds = [] ∨ zlen ds = n)
    (pack_info_body n input (advance 1 input) tag digests)
    (scan_pack_info_body n input (advance 1 input) tag ()).
Proof.
  intros Hn Hi Hd. unfold pack_info_body, scan_pack_info_body.
  assert (ok_agree (λ ds (_ : unit), ds = [] ∨ zlen ds = n)
    (let? (i, _) := skip_sized (advance 1 input) in Ok (i, digests))
    (skip_sized (advance 1 input))) as Hskip
    by (by destruct (skip_sized _) as [[r []]|]).
  destruct tag; try done. rewrite usize_try_from_u64 by done. cbn [ok_or].
  eapply ok_agree_weaken; [|apply digest_scan_agree; [done|by destruct Hn]].
  intros ds y Hl. by right.
Qed.

(** The scanner accepts what the parser accepts and leaves the same rest. *)
Lemma pack_info_agree `{Nom} s :
  valid_slice s →
  ok_agree (λ p _, pack_info_wf p) (PackInfo_parse s) (scan_pack_info s).
Proof.
  intros Hs. unfold PackInfo_parse, scan_pack_info.
  pose proof (pack_info_head_tail s) as Ht.
  destruct (pack_info_head s) as [[s1 [pos n]]|] eqn:Eh; [|done]. cbn in Ht.
  apply pack_info_head_u64 in Eh as [_ Hn]; [|apply Hs].
  apply (valid_slice_suffix _ _ Ht) in Hs.
  eapply ok_agree_bind with (R := λ sizes _, zlen sizes = n).
  { eapply ok_agree_weaken; [|apply varuints_agree, Hn]. intros x y Hx. cbn in Hx. done. }
  intros s2 sizes _ Hp _ Hsizes. rewrite usize_try_from_u64 by done. cbn [ok_or].
  pose proof (push_varuints_tail n s1 []) as Ht2. rewrite Hp in Ht2. cbn in Ht2.
  apply (valid_slice_suffix _ _ Ht2) in Hs.
  apply (ok_agree_map_l (λ ds _, ds = [] ∨ zlen ds = n) _ (λ digests,
    {| pack_pos := pos; num_pack_streams := n; pack_size := sizes;
       pack_digests := default_digests digests (length sizes) |})).
  - apply (run_tag_loop_agree _ valid_slice); [apply valid_slice_suffix|apply pack_info_body_ok
      |done|by left|].
    intros input tag ds [] _ Hi _ _ Hds. by apply pack_info_body_agree.
  - intros ds y Hds. split; cbn [num_pack_streams pack_size pack_digests]; [done|done|].
    destruct ds as [|d ds]; cbn; [|by destruct Hds].
    unfold zlen in *. by rewrite length_replicate.
Qed.

(** Recording the offsets only matters past 4 GiB of folder blocks. *)
Lemma scan_folder_blocks_agree `{Nom} data n :
  sl_len data ≤ u32_max →
  match scan_folder_blocks data n (Some []), scan_folder_blocks data n None with
  | Ok (c, t, Some l), Ok (c', t', None) => c = c' ∧ t = t' ∧ 0 ≤ c ≤ sl_len data
  | Err e, Err e' => e = e'
  | _, _ => False
  end.
Proof.
  intros Hdata. unfold scan_folder_blocks. rewrite !repeat_n_nat.
  assert (Hu : ∀ r, suffix_of r data →
    u32_try_from (sl_len data - sl_len r) = Some (sl_len data - sl_len r)
    ∧ 0 ≤ sl_len data - sl_len r ≤ sl_len data).
  { intros r Hr%suffix_of_len. pose proof (sl_len_nonneg r). unfold u32_try_from.
    rewrite decide_True by lia. split; [done|lia]. }
  pose proof (repeat_nat_sim (folder_block_step data) (folder_block_step data)
    (λ st st', match st, st' with
               | (r, t, Some _), (r', t', None) => r = r' ∧ t = t' ∧ suffix_of r data
               | _, _ => False end) eq (Z.to_nat n) (data, 0, Some []) (data, 0, None)) as Hsim.
  lapply Hsim; [clear Hsim; intros Hsim|].
  - specialize (Hsim ltac:(split_and!; reflexivity)).
    destruct (repeat_nat _ _ (data, 0, Some _)) as [[[r t] [l|]]|],
      (repeat_nat _ _ (data, 0, None)) as [[[r' t'] [l'|]]|]; try done.
    destruct Hsim as (<- & <- & Hr). destruct (Hu r Hr) as [-> ?]. cbn. split_and!; lia || done.
  - intros [[r t] [l|]] [[r' t'] [l'|]] Hst; try done. destruct Hst as (<- & <- & Hr).
    unfold folder_block_step. destruct (Hu r Hr) as [-> _]. cbn [ok_or].
    pose proof (scan_folder_tail r) as Ht. destruct (scan_folder r) as [[r' o]|]; cbn; [|done].
    cbn in Ht. destruct (checked_add t o); cbn; [|done]. split_and!; try done. by etransitivity.
Qed.

Record unpack_info_wf (u : UnpackInfo) : Prop := {
  uw_num : is_u64 (num_folders u);
  uw_offsets : UnpackInfo_num_folders_usize u = num_folders u;
  uw_digests : zlen (unpack_digests u) = num_folders u
}.

Lemma unpack_info_body_agree `{Nom} nf total input tag st :
  is_u64 nf → 0 ≤ total → valid_slice (advance 1 input) → snd st = [] ∨ zlen (snd st) = nf →
  ok_agree (λ x _, snd x = [] ∨ zlen (snd x) = nf)
    (unpack_info_body nf total input (advance 1 input) tag st)
    (scan_unpack_info_body nf total input (advance 1 input) tag ()).
Proof.
  intros Hn Ht Hi Hd. destruct st as [sizes digests]. unfold unpack_info_body, scan_unpack_info_body.
  assert (ok_agree (λ x (_ : unit), snd x = [] ∨ zlen (snd x) = nf)
    (let? (i, _) := skip_sized (advance 1 input) in Ok (i, (sizes, digests)))
    (skip_sized (advance 1 input))) as Hskip
    by (by destruct (skip_sized _) as [[r []]|]).
  destruct tag; try done.
  - rewrite usize_try_from_u64 by done. cbn [ok_or].
    apply (ok_agree_map_l (λ crcs _, zlen crcs = nf) _ (λ crcs, (sizes, crcs))).
    + apply digest_scan_agree; [done|by destruct Hn].
    + intros x y Hx. by right.
  - eapply ok_agree_bind; [by apply (varuints_agree total _ sizes)|]. intros r x y _ _ _. done.
Qed.

Lemma sum_outs_nonneg fs : (∀ f, f ∈ fs → 0 ≤ sum_out (coders f)) → 0 ≤ sum_outs fs.
Proof.
  unfold sum_outs. induction fs as [|f fs IH]; cbn; intros H; [lia|].
  pose proof (H f ltac:(left)). specialize (IH (λ g Hg, H g ltac:(by right))). lia.
Qed.

Lemma folder_chain_outs `{Nom} data offs fs :
  byte_slice data → folder_chain data offs fs → 0 ≤ sum_outs fs.
Proof.
  intros Hd Hc. apply sum_outs_nonneg. intros f [k Hk]%list_elem_of_lookup.
  destruct (fc_blocks _ _ _ Hc k f Hk) as (a & b & _ & _ & _ & _ & Hf).
  apply Folder_parse_wf in Hf as [Hwf _]; [|by apply byte_slice_advance].
  pose proof (wf_outputs _ Hwf). lia.
Qed.

Lemma folder_source_within s loc ext s' src backing :
  FolderSource_resolve s loc ext = Ok (s', src) → within s backing → valid_slice s →
  sl_len backing ≤ usize_max → Forall valid_slice ext →
  s' = s ∧ within (FolderSource_bytes src) (FolderSource_backing src backing) ∧
  valid_slice (FolderSource_bytes src) ∧ sl_len (FolderSource_backing src backing) ≤ usize_max ∧
  (FolderSource_bytes src = s ∨ FolderSource_bytes src ∈ ext).
Proof.
  unfold FolderSource_resolve. destruct loc as [|ix].
  { intros [= <- <-] ? Hs ? _. cbn. split_and!; try done. by left. }
  destruct (get ix ext) as [d|] eqn:Eg; cbn; [|done]. intros [= <- <-] _ _ _ Hext. cbn.
  unfold get in Eg. case_decide; [|done]. apply list_elem_of_lookup_2 in Eg.
  rewrite Forall_forall in Hext. destruct (Hext d Eg) as [? ?].
  split_and!; try done; [apply within_refl|by right].
Qed.

Lemma remaining_header_agree src s c r :
  FolderSource_remaining_header src s c = Ok r → valid_slice s → valid_slice r.
Proof. intros Hr%remaining_header_suffix. by apply valid_slice_suffix. Qed.

(** The scanner accepts what the parser accepts, below 4 GiB of folder blocks. *)
Lemma unpack_info_agree `{Nom} s backing ext :
  valid_slice s → sl_len backing ≤ usize_max → within s backing →
  Forall valid_slice ext → sl_len s ≤ u32_max → Forall (λ e, sl_len e ≤ u32_max) ext →
  ok_agree (λ u nf, unpack_info_wf u ∧ nf = num_folders u)
    (UnpackInfo_parse_with_external s backing ext) (scan_unpack_info_with_external s ext).
Proof.
  intros Hs Hback Hw Hext Hs32 Hext32.
  unfold UnpackInfo_parse_with_external, scan_unpack_info_with_external.
  pose proof (parse_folder_declaration_tail s) as Ht.
  destruct (parse_folder_declaration s) as [[s1 [nf loc]]|] eqn:Ed; [|done]. cbn in Ht.
  apply parse_folder_declaration_u64 in Ed as Hnf; [|apply Hs].
  apply (valid_slice_suffix _ _ Ht) in Hs. pose proof (suffix_of_len _ _ Ht) as Hlen1.
  destruct (FolderSource_resolve s1 loc ext) as [[s2 src]|] eqn:Er; [|done].
  apply (folder_source_within _ _ _ _ _ backing) in Er
    as (-> & Hsw & Hsv & Hsb & Hsrc); try done; [|by eapply within_trans; [apply within_suffix|]].
  assert (sl_len (FolderSource_bytes src) ≤ u32_max) as Hsrc32.
  { destruct Hsrc as [->|Hin]; [lia|]. rewrite Forall_forall in Hext32. by apply Hext32. }
  pose proof (scan_folder_blocks_agree (FolderSource_bytes src) nf Hsrc32) as Hblocks.
  destruct (scan_folder_blocks _ nf (Some [])) as [[[c t] [l|]]|] eqn:Escan,
    (scan_folder_blocks _ nf None) as [[[c' t'] [l'|]]|]; try done.
  destruct Hblocks as (<- & <- & Hc). cbn [map_err].
  apply scan_folder_blocks_chain in Escan as (l' & fs & [= <-] & Hch & Hfs & -> & Hlast & _).
  pose proof (folder_chain_outs _ _ _ (proj1 Hsv) Hch) as Htot.
  destruct (bytes_subslice_within (FolderSource_backing src backing)
    (first_bytes c (FolderSource_bytes src)) s1) as (fd & Hfd & _); [done| |].
  { eapply within_trans; [|done]. by apply within_first. }
  rewrite Hfd. destruct (FolderSource_remaining_header src s1 c) as [s3|] eqn:Erem; [|done].
  rewrite usize_try_from_u64 by done. cbn [ok_or].
  eapply ok_agree_bind with (R := λ x _, snd x = [] ∨ zlen (snd x) = nf).
  - apply (run_tag_loop_agree _ valid_slice); [apply valid_slice_suffix|apply unpack_info_body_ok
      |by eapply remaining_header_agree|by left|].
    intros input tag st [] _ Hi _ _ Hst. by apply unpack_info_body_agree.
  - intros r [sizes digests] _ _ _ Hd. cbn in Hd |- *. split; [done|]. split; [|done].
    assert (zlen l = 1 + nf) as Hl.
    { unfold zlen. rewrite (fc_len _ _ _ Hch). destruct Hnf. lia. }
    split; cbn; [done|unfold UnpackInfo_num_folders_usize; cbn; lia|].
    destruct digests as [|d ds]; cbn; [|by destruct Hd].
    unfold zlen in *. rewrite length_replicate. destruct Hnf. lia.
Qed.

(** ** Properties *)

(** Folders are parsed on demand and nothing is lost: the offsets recorded by
    the scan cut the folder data into the blocks of its folders, as many as
    declared, and parsing the k-th folder later returns the k-th folder with its
    graph, and an error past the last. *)
Theorem folders_parse_on_demand `{Nom} s backing ext r u :
  valid_slice s → sl_len backing ≤ usize_max → Forall (λ e, sl_len e ≤ usize_max) ext →
  within s backing → UnpackInfo_parse_with_external s backing ext = Ok (r, u) →
  ∃ data fs, folder_chain data (folder_offsets u) fs ∧ num_folders u = zlen fs ∧
    ∀ k : nat, UnpackInfo_parse_folder_with_graph u (Z.of_nat k) =
      match fs !! k with
      | Some f => let? g := Folder_graph f in Ok (f, g)
      | None => Err Parse
      end.
Proof.
  intros Hs Hb He Hw Hp.
  destruct (UnpackInfo_parse_inv s backing ext r u Hs Hb He Hw Hp)
    as (data & fs & c & Hc & Hl & Hr & Hd & Hn & _).
  exists data, fs. split; [done|]. split; [done|].
  apply (chain_parse_folder data u fs c); [done|done|lia|done].
Qed.

(** ** Witnesses *)

(** Two Copy folders, inline, with their unpack sizes. *)
Definition sample_unpack_block : slice :=
  Slice 64 [7; 11; 2; 0; 1; 1; 0; 1; 1; 0; 12; 5; 6; 0; 9].

Lemma folders_parse_on_demand_witness :
  ∃ r u, UnpackInfo_parse_with_external sample_unpack_block sample_unpack_block [] = Ok (r, u) ∧
    ∃ data fs, folder_chain data (folder_offsets u) fs ∧ num_folders u = zlen fs ∧
    ∀ k : nat, UnpackInfo_parse_folder_with_graph u (Z.of_nat k) =
      match fs !! k with
      | Some f => let? g := Folder_graph f in Ok (f, g)
      | None => Err Parse
      end.
Proof.
  destruct (UnpackInfo_parse_with_external sample_unpack_block sample_unpack_block [])
    as [[r u]|e] eqn:E; [|vm_compute in E; discriminate E].
  exists r, u. split; [reflexivity|].
  apply (folders_parse_on_demand sample_unpack_block sample_unpack_block [] r u).
  - split; [repeat constructor; vm_compute; done|vm_compute; done].
  - vm_compute. done.
  - constructor.
  - apply within_refl.
  - exact E.
Defined.
