(* ===== verification/StreamInfo.v ===== *)
(** * Stream descriptors (src/src/stream_info.rs)

    [SubstreamInfo::parse], [StreamInfo::parse_with_external], the query for
    external folder data, and the scanning counterparts. *)

From stdpp Require Import base numbers list option sets.
From Stdlib Require Import ZArith Lia.
From S2P Require Import Prelude PropertyId Parsers CoderInfo Folder Error FolderGraph PackInfo.

(** ** Types *)

(** [(64 * 1024 * 1024) / size_of::<Option<u32>>()]; the option takes 8 bytes. *)
Definition MAX_SUBSTREAM_DIGESTS : Z := 64 * 1024 * 1024 / 8.

Record SubstreamInfo := {
  num_unpack_streams_per_folder : list Z;
  substream_sizes : list Z;
  substream_digests : list (option Z)
}.

Record StreamInfo := {
  si_pack_info : option PackInfo;
  si_unpack_info : option UnpackInfo;
  si_substream_info : option SubstreamInfo
}.

(** ** Substreams *)

(** One count of [counts.iter().try_fold(0usize, ...)]. *)
Definition substream_total_step (input : slice) (total count : Z) : result Z nom_err :=
  let? count := ok_or (usize_try_from count) (NomError input TooLarge) in
  ok_or (checked_add total count) (NomError input TooLarge).

Definition checked_substream_total (input : slice) (counts : list Z) : result Z nom_err :=
  try_fold (substream_total_step input) 0 counts.

Definition check_substream_digest_limit (input : slice) (total : Z) : result unit nom_err :=
  if decide (MAX_SUBSTREAM_DIGESTS < total) then Err (NomError input TooLarge) else Ok tt.

Definition substream_size_step (input : slice) (total count : Z) : result Z nom_err :=
  let? count := ok_or (usize_try_from count) (NomError input TooLarge) in
  ok_or (checked_add total (saturating_sub count 1)) (NomError input TooLarge).

Definition checked_substream_size_count (input : slice) (counts : list Z) : result Z nom_err :=
  try_fold (substream_size_step input) 0 counts.

Definition parse_stream_digests `{Nom} (input : slice) (num : Z) : IResult (list (option Z)) :=
  let? (input, all_defined) := le_u8 input in
  let? (input, bitmap) := digest_bitmap input all_defined num in
  let num_defined := if decide (all_defined ≠ 0) then num else count_set bitmap num in
  let? crc_bytes := ok_or (checked_mul num_defined 4) (NomError input TooLarge) in
  if decide (sl_len input < crc_bytes) then Err (NomError input Eof) else
  let? (input, st) :=
    repeat_n num (digest_step (digest_defined all_defined bitmap)) (input, (0, [])) in
  Ok (input, snd st).

Definition substream_body `{Nom} (num_folders : Z) (input i : slice) (tag : PropertyId)
    (st : SubstreamInfo) : IResult SubstreamInfo :=
  match tag with
  | P_NumUnPackStream =>
      let? (i, counts) := repeat_n num_folders push_varuint_step (i, []) in
      let? _ := checked_substream_total i counts in
      Ok (i, {| num_unpack_streams_per_folder := counts;
                substream_sizes := substream_sizes st;
                substream_digests := substream_digests st |})
  | P_Size =>
      let? sizes_to_read :=
        checked_substream_size_count i (num_unpack_streams_per_folder st) in
      if decide (sl_len i < sizes_to_read) then Err (NomError i Eof) else
      let? (i, sizes) := repeat_n sizes_to_read push_varuint_step (i, substream_sizes st) in
      Ok (i, {| num_unpack_streams_per_folder := num_unpack_streams_per_folder st;
                substream_sizes := sizes;
                substream_digests := substream_digests st |})
  | P_CRC =>
      let? total := checked_substream_total i (num_unpack_streams_per_folder st) in
      let? _ := check_substream_digest_limit i total in
      let? (i, crcs) := parse_stream_digests i total in
      Ok (i, {| num_unpack_streams_per_folder := num_unpack_streams_per_folder st;
                substream_sizes := substream_sizes st;
                substream_digests := crcs |})
  | _ => let? (i, _) := skip_sized i in Ok (i, st)
  end.

(** The tag that starts a block. *)
Definition expect_tag (expected : PropertyId) (input : slice) : IResult unit :=
  let? (i, tag) := PropertyId_parse input in
  if decide (tag ≠ expected) then Err (NomFailure input Satisfy) else Ok (i, tt).

Definition SubstreamInfo_parse `{Nom} (input : slice) (num_folders : Z) :
    IResult SubstreamInfo :=
  let? (input, _) := expect_tag P_SubStreamsInfo input in
  run_tag_loop (substream_body num_folders) input
    {| num_unpack_streams_per_folder := replicate (Z.to_nat num_folders) 1;
       substream_sizes := []; substream_digests := [] |}.

(** The scanner keeps the two totals only. *)
Definition scan_count_step (st : slice * (Z * Z)) : IResult (Z * Z) :=
  let '(input, (sizes_to_read, total_streams)) := st in
  let? (i, n) := sevenzip_varuint64_decode input in
  let too_large := NomError input TooLarge in
  let? nu := ok_or (usize_try_from n) too_large in
  let? sizes_to_read := ok_or (checked_add sizes_to_read (saturating_sub nu 1)) too_large in
  let? total_streams := ok_or (checked_add total_streams nu) too_large in
  Ok (i, (sizes_to_read, total_streams)).

Definition scan_substream_body `{Nom} (num_folders : Z) (input i : slice) (tag : PropertyId)
    (st : Z * Z) : IResult (Z * Z) :=
  let '(sizes_to_read, total_streams) := st in
  match tag with
  | P_NumUnPackStream => repeat_n num_folders scan_count_step (i, (0, 0))
  | P_Size =>
      if decide (sl_len i < sizes_to_read) then Err (NomError i Eof) else
      let? (i, _) := repeat_n sizes_to_read skip_varuint_step (i, tt) in Ok (i, st)
  | P_CRC =>
      let? _ := check_substream_digest_limit i total_streams in
      let? (i, _) := scan_digests i total_streams in Ok (i, st)
  | _ => let? (i, _) := skip_sized i in Ok (i, st)
  end.

Definition scan_substream_info `{Nom} (input : slice) (num_folders : Z) : IResult unit :=
  let? (input, _) := expect_tag P_SubStreamsInfo input in
  let? (input, _) := run_tag_loop (scan_substream_body num_folders) input (0, num_folders) in
  Ok (input, tt).

(** ** Stream descriptors *)

(** [StreamInfo::uses_external_folder_data]; the fuel bounds the tags read. *)
Fixpoint uses_external_loop `{Nom} (fuel : nat) (input : slice) : IResult bool :=
  match fuel with
  | O => Err OutOfFuel
  | S fuel =>
      let? (after_tag, tag) := PropertyId_parse input in
      match tag with
      | P_END => Ok (after_tag, false)
      | P_UnPackInfo =>
          let? (remaining, decl) := parse_folder_declaration input in
          Ok (remaining, match snd decl with External _ => true | Inline => false end)
      | P_PackInfo =>
          let? (input, _) := scan_pack_info input in uses_external_loop fuel input
      | P_SubStreamsInfo =>
          let? (input, _) := scan_substream_info input 0 in uses_external_loop fuel input
      | _ =>
          let? (remaining, size) := sevenzip_varuint64_decode after_tag in
          let? size := ok_or (usize_try_from size) (NomFailure remaining TooLarge) in
          let? (input, _) := nom_take size remaining in
          uses_external_loop fuel input
      end
  end.

Definition StreamInfo_uses_external_folder_data `{Nom} (input : slice) : IResult bool :=
  uses_external_loop (S (length (sl_data input))) input.

Definition StreamInfo_packed_folders (self : StreamInfo) : result (PackInfo * UnpackInfo) R7zError :=
  match si_pack_info self, si_unpack_info self with
  | Some pack, Some unpack => Ok (pack, unpack)
  | _, _ => Err Parse
  end.

Definition stream_info_body `{Nom} (backing : slice) (external_data : list slice)
    (input i : slice) (tag : PropertyId) (st : StreamInfo) : IResult StreamInfo :=
  match tag with
  | P_PackInfo =>
      let? (i, pi) := PackInfo_parse input in
      Ok (i, {| si_pack_info := Some pi; si_unpack_info := si_unpack_info st;
                si_substream_info := si_substream_info st |})
  | P_UnPackInfo =>
      let? (i, ui) := UnpackInfo_parse_with_external input backing external_data in
      Ok (i, {| si_pack_info := si_pack_info st; si_unpack_info := Some ui;
                si_substream_info := si_substream_info st |})
  | P_SubStreamsInfo =>
      let num_folders := from_option UnpackInfo_num_folders_usize 0 (si_unpack_info st) in
      let? (i, si) := SubstreamInfo_parse input num_folders in
      Ok (i, {| si_pack_info := si_pack_info st; si_unpack_info := si_unpack_info st;
                si_substream_info := Some si |})
  | _ => let? (i, _) := skip_sized i in Ok (i, st)
  end.

Definition StreamInfo_parse_with_external `{Nom} (input backing : slice)
    (external_data : list slice) : IResult StreamInfo :=
  run_tag_loop (stream_info_body backing external_data) input
    {| si_pack_info := None; si_unpack_info := None; si_substream_info := None |}.

Definition StreamInfo_parse `{Nom} (input backing : slice) : IResult StreamInfo :=
  StreamInfo_parse_with_external input backing [].

Definition scan_stream_info_body `{Nom} (external_data : list slice)
    (input i : slice) (tag : PropertyId) (num_folders : Z) : IResult Z :=
  match tag with
  | P_PackInfo => let? (i, _) := scan_pack_info input in Ok (i, num_folders)
  | P_UnPackInfo => scan_unpack_info_with_external input external_data
  | P_SubStreamsInfo =>
      let? (i, _) := scan_substream_info input num_folders in Ok (i, num_folders)
  | _ => let? (i, _) := skip_sized i in Ok (i, num_folders)
  end.

Definition scan_stream_info_with_external `{Nom} (input : slice) (external_data : list slice) :
    IResult unit :=
  let? (input, _) := run_tag_loop (scan_stream_info_body external_data) input 0 in
  Ok (input, tt).

(** ** Lemmas: tails *)

Lemma checked_total_err s l acc e :
  try_fold (substream_total_step s) acc l = Err e → e = NomError s TooLarge.
Proof.
  revert acc. induction l as [|c l IH]; intros acc; cbn; [done|].
  unfold substream_total_step at 1. destruct (usize_try_from c); cbn; [|congruence].
  destruct (checked_add _ _); cbn; [apply IH|congruence].
Qed.

Lemma checked_size_count_err s l acc e :
  try_fold (substream_size_step s) acc l = Err e → e = NomError s TooLarge.
Proof.
  revert acc. induction l as [|c l IH]; intros acc; cbn; [done|].
  unfold substream_size_step at 1. destruct (usize_try_from c); cbn; [|congruence].
  destruct (checked_add _ _); cbn; [apply IH|congruence].
Qed.

Lemma parse_stream_digests_tail `{Nom} s n : parses_tail s (parse_stream_digests s n).
Proof. unfold parse_stream_digests, digest_bitmap, digest_step. parse_tail. Qed.

#[export] Hint Resolve parse_stream_digests_tail : tail.

Ltac checked_total_tail :=
  match goal with
  | H : checked_substream_total _ _ = Err _ |- _ => apply checked_total_err in H as ->; done
  | H : checked_substream_size_count _ _ = Err _ |- _ =>
      apply checked_size_count_err in H as ->; done
  end.

Lemma substream_body_ok `{Nom} n : tag_body_ok (substream_body n).
Proof.
  intros input tag st _ _. unfold substream_body, check_substream_digest_limit.
  destruct tag; parse_tail; checked_total_tail.
Qed.

Lemma scan_substream_body_ok `{Nom} n : tag_body_ok (scan_substream_body n).
Proof.
  intros input tag [a b] _ _.
  unfold scan_substream_body, check_substream_digest_limit, scan_count_step.
  destruct tag; parse_tail.
Qed.

#[export] Hint Resolve substream_body_ok scan_substream_body_ok : tail.

(** A block parser takes its tag first. *)
Lemma SubstreamInfo_parse_after_tag `{Nom} s i tag n :
  PropertyId_parse s = Ok (i, tag) → parses_tail i (SubstreamInfo_parse s n).
Proof.
  intros Hp. unfold SubstreamInfo_parse, expect_tag. rewrite Hp.
  case_decide; [done|]. parse_tail.
Qed.

Lemma scan_substream_info_after_tag `{Nom} s i tag n :
  PropertyId_parse s = Ok (i, tag) → parses_tail i (scan_substream_info s n).
Proof.
  intros Hp. unfold scan_substream_info, expect_tag. rewrite Hp.
  case_decide; [done|]. parse_tail.
Qed.

Lemma pack_info_head_after_tag s i tag :
  PropertyId_parse s = Ok (i, tag) → parses_tail i (pack_info_head s).
Proof. intros Hp. unfold pack_info_head. rewrite Hp. case_decide; [done|]. parse_tail. Qed.

Lemma PackInfo_parse_after_tag `{Nom} s i tag :
  PropertyId_parse s = Ok (i, tag) → parses_tail i (PackInfo_parse s).
Proof.
  intros Hp. unfold PackInfo_parse. apply parses_tail_bind; [by eapply pack_info_head_after_tag|].
  intros r x Hr. parse_tail.
Qed.

Lemma scan_pack_info_after_tag `{Nom} s i tag :
  PropertyId_parse s = Ok (i, tag) → parses_tail i (scan_pack_info s).
Proof.
  intros Hp. unfold scan_pack_info. apply parses_tail_bind; [by eapply pack_info_head_after_tag|].
  intros r x Hr. parse_tail.
Qed.

Lemma folder_declaration_after_tag `{Nom} s i tag :
  PropertyId_parse s = Ok (i, tag) → parses_tail i (parse_folder_declaration s).
Proof.
  intros Hp. unfold parse_folder_declaration. rewrite Hp. case_decide; [done|]. parse_tail.
Qed.

Lemma UnpackInfo_parse_after_tag `{Nom} s i tag b e :
  PropertyId_parse s = Ok (i, tag) → parses_tail i (UnpackInfo_parse_with_external s b e).
Proof.
  intros Hp. unfold UnpackInfo_parse_with_external.
  apply parses_tail_bind; [by eapply folder_declaration_after_tag|].
  intros r x Hr. parse_tail; folder_source_tail.
Qed.

Lemma scan_unpack_info_after_tag `{Nom} s i tag e :
  PropertyId_parse s = Ok (i, tag) → parses_tail i (scan_unpack_info_with_external s e).
Proof.
  intros Hp. unfold scan_unpack_info_with_external.
  apply parses_tail_bind; [by eapply folder_declaration_after_tag|].
  intros r x Hr. parse_tail; folder_source_tail.
Qed.

#[export] Hint Resolve SubstreamInfo_parse_after_tag scan_substream_info_after_tag
  PackInfo_parse_after_tag scan_pack_info_after_tag folder_declaration_after_tag
  UnpackInfo_parse_after_tag scan_unpack_info_after_tag : tail.

Lemma stream_info_body_ok `{Nom} b e : tag_body_ok (stream_info_body b e).
Proof.
  intros input tag st Hp _. unfold stream_info_body.
  destruct tag; parse_tail.
Qed.

Lemma scan_stream_info_body_ok `{Nom} e : tag_body_ok (scan_stream_info_body e).
Proof.
  intros input tag st Hp _. unfold scan_stream_info_body.
  destruct tag; parse_tail.
Qed.

#[export] Hint Resolve stream_info_body_ok scan_stream_info_body_ok : tail.

Lemma StreamInfo_parse_tail `{Nom} s b e : parses_tail s (StreamInfo_parse_with_external s b e).
Proof. unfold StreamInfo_parse_with_external. parse_tail. Qed.

Lemma scan_stream_info_tail `{Nom} s e : parses_tail s (scan_stream_info_with_external s e).
Proof. unfold scan_stream_info_with_external. parse_tail. Qed.

#[export] Hint Resolve StreamInfo_parse_tail scan_stream_info_tail : tail.

(** ** Lemmas: the totals *)

Definition total_streams (counts : list Z) : Z := foldr Z.add 0 counts.
Definition total_sizes (counts : list Z) : Z := foldr (λ c n, Z.max 0 (c - 1) + n) 0 counts.

Lemma total_streams_app l k : total_streams (l ++ k) = total_streams l + total_streams k.
Proof. unfold total_streams. induction l; cbn in *; lia. Qed.
Lemma total_sizes_app l k : total_sizes (l ++ k) = total_sizes l + total_sizes k.
Proof. unfold total_sizes. induction l; cbn in *; lia. Qed.

Lemma totals_bounds counts :
  Forall is_u64 counts → 0 ≤ total_sizes counts ≤ total_streams counts.
Proof.
  unfold total_sizes, total_streams, is_u64. induction 1; cbn; lia.
Qed.

Lemma checked_substream_total_spec s counts :
  Forall is_u64 counts →
  checked_substream_total s counts =
    if decide (total_streams counts ≤ u64_max) then Ok (total_streams counts)
    else Err (NomError s TooLarge).
Proof.
  intros Hc. unfold checked_substream_total.
  assert (∀ acc, 0 ≤ acc ≤ u64_max → try_fold (substream_total_step s) acc counts =
    if decide (acc + total_streams counts ≤ u64_max) then Ok (acc + total_streams counts)
    else Err (NomError s TooLarge)) as H; [|by rewrite H by lia].
  induction Hc as [|c cs Hc Hcs IH]; intros acc Hacc.
  { cbn. rewrite decide_True by (unfold total_streams; cbn; lia).
    unfold total_streams. cbn. by rewrite Z.add_0_r. }
  change (total_streams (c :: cs)) with (c + total_streams cs).
  pose proof (totals_bounds cs Hcs). unfold is_u64 in Hc. cbn [try_fold].
  unfold substream_total_step at 1. rewrite usize_try_from_u64 by (unfold is_u64; lia).
  cbn [ok_or]. unfold checked_add. case_decide; cbn [ok_or].
  - rewrite IH by lia. repeat case_decide; try lia; [|done]. f_equal. lia.
  - by rewrite decide_False by lia.
Qed.

Lemma checked_size_count_spec s counts :
  Forall is_u64 counts → total_streams counts ≤ u64_max →
  checked_substream_size_count s counts = Ok (total_sizes counts).
Proof.
  intros Hc Hmax. unfold checked_substream_size_count.
  assert (∀ acc, 0 ≤ acc → acc + total_sizes counts ≤ u64_max →
    try_fold (substream_size_step s) acc counts = Ok (acc + total_sizes counts)) as H.
  2:{ pose proof (totals_bounds counts Hc). rewrite H by lia. by rewrite Z.add_0_l. }
  clear Hmax. induction Hc as [|c cs Hc Hcs IH]; intros acc Hacc Hle.
  { cbn. unfold total_sizes. cbn. by rewrite Z.add_0_r. }
  change (total_sizes (c :: cs)) with (Z.max 0 (c - 1) + total_sizes cs) in *.
  pose proof (totals_bounds cs Hcs). unfold is_u64 in Hc. cbn [try_fold].
  unfold substream_size_step at 1. rewrite usize_try_from_u64 by (unfold is_u64; lia).
  cbn [ok_or]. unfold checked_add, saturating_sub. rewrite decide_True by lia. cbn [ok_or].
  rewrite IH by lia. f_equal. lia.
Qed.

(** Counting the streams while reading them against reading then counting. *)
Lemma scan_count_spec n s acc :
  byte_slice s → Forall is_u64 acc → total_streams acc ≤ u64_max →
  match repeat_nat push_varuint_step n (s, acc) with
  | Ok (r, cs) =>
      Forall is_u64 cs ∧
      if decide (total_streams cs ≤ u64_max)
      then repeat_nat scan_count_step n (s, (total_sizes acc, total_streams acc)) =
           Ok (r, (total_sizes cs, total_streams cs))
      else total_streams acc ≤ total_streams cs ∧
           is_ok (repeat_nat scan_count_step n (s, (total_sizes acc, total_streams acc))) = false
  | Err _ =>
      is_ok (repeat_nat scan_count_step n (s, (total_sizes acc, total_streams acc))) = false
  end.
Proof.
  revert s acc. induction n as [|n IH]; intros s acc Hs Hacc Hmax.
  { cbn. split; [done|]. by rewrite decide_True. }
  cbn [repeat_nat push_varuint_step scan_count_step].
  destruct (sevenzip_varuint64_decode s) as [[i c]|] eqn:Ec; [|done].
  apply varuint_decode_u64 in Ec as [Hc Hi]; [|done]. rewrite usize_try_from_u64 by done.
  cbn [ok_or]. pose proof (totals_bounds acc Hacc) as Hb. unfold checked_add, saturating_sub.
  assert (Hcs : total_streams (acc ++ [c]) = total_streams acc + c)
    by (rewrite total_streams_app; unfold total_streams; cbn; lia).
  assert (Hsz : total_sizes (acc ++ [c]) = total_sizes acc + Z.max 0 (c - 1))
    by (rewrite total_sizes_app; unfold total_sizes; cbn; lia).
  assert (Hacc' : Forall is_u64 (acc ++ [c])) by (rewrite Forall_app, Forall_singleton; done).
  unfold is_u64 in Hc.
  destruct (decide (total_streams acc + c ≤ u64_max)) as [Hle|Hgt].
  - specialize (IH i (acc ++ [c]) Hi Hacc' ltac:(lia)). rewrite Hcs, Hsz in IH.
    rewrite decide_True by lia. cbn [ok_or].
    destruct (repeat_nat push_varuint_step n _) as [[r cs]|]; [|done].
    destruct IH as [? IH]. split; [done|]. case_decide; [done|]. split; [lia|apply IH].
  - assert (∀ r cs, repeat_nat push_varuint_step n (i, acc ++ [c]) = Ok (r, cs) →
      Forall is_u64 cs ∧ total_streams acc + c ≤ total_streams cs) as Hmono.
    { intros r cs Hr.
      apply (repeat_nat_ind push_varuint_step (λ _ st, byte_slice (fst st) ∧
        Forall is_u64 (snd st) ∧ total_streams acc + c ≤ total_streams (snd st)))
        with (i := 0%nat) in Hr; [naive_solver| |cbn [fst snd]; rewrite Hcs; split_and!; done || lia].
      clear. intros _ [s l] [s' l'] (Hs & Hl & Ht) Hst. cbn [push_varuint_step fst snd] in *.
      destruct (sevenzip_varuint64_decode s) as [[j x]|] eqn:Ex; [|done].
      apply varuint_decode_u64 in Ex as [Hx Hj]; [|done]. injection Hst as <- <-.
      rewrite Forall_app, Forall_singleton, total_streams_app. unfold is_u64 in *.
      change (total_streams [x]) with (x + 0). split_and!; try done; lia. }
    case_decide; cbn [ok_or]; [|]; destruct (repeat_nat push_varuint_step n _) as [[r cs]|];
      try done; destruct (Hmono _ _ eq_refl) as [? ?];
      (split; [done|]); rewrite decide_False by lia; (split; [lia|done]).
Qed.

(** ** Lemmas: the scanners agree with the parsers *)

Lemma stream_digests_scan_agree `{Nom} num s :
  valid_slice s → 0 ≤ num →
  ok_agree (λ crcs _, zlen crcs = num) (parse_stream_digests s num) (scan_digests s num).
Proof.
  intros Hs Hnum. unfold parse_stream_digests, scan_digests.
  pose proof (le_u8_tail s) as Ht. destruct (le_u8 s) as [[s1 ad]|]; [|done]. cbn in Ht.
  apply (valid_slice_suffix _ _ Ht) in Hs. unfold digest_bitmap.
  assert (Hcheck : ∀ s2 nd d, valid_slice s2 → nd = count_defined d 0 (Z.to_nat num) →
    ok_agree (λ crcs (_ : unit), zlen crcs = num)
      (let? crc_bytes := ok_or (checked_mul nd 4) (NomError s2 TooLarge) in
       if decide (sl_len s2 < crc_bytes) then Err (NomError s2 Eof) else
       let? (input, st) := repeat_n num (digest_step d) (s2, (0, [])) in Ok (input, snd st))
      (let? crc_bytes := ok_or (checked_mul nd 4) (NomError s2 TooLarge) in
       let? (input, _) := nom_take crc_bytes s2 in Ok (input, tt))).
  { intros s2 nd d Hs2 ->. pose proof (digests_agree d num s2 Hs2 Hnum) as Hag.
    unfold checked_mul in *. case_decide; cbn [ok_or] in *; [|done].
    case_decide; [by rewrite nom_take_gt by lia|]. done. }
  destruct (decide (ad = 0)) as [->|Had].
  - rewrite !decide_False by (by intros []).
    pose proof (nom_take_tail (div_ceil num 8) s1) as Ht1.
    destruct (nom_take _ s1) as [[s2 m]|]; [|done]. cbn in Ht1.
    apply (valid_slice_suffix _ _ Ht1) in Hs. apply Hcheck; [done|].
    unfold count_set, count_defined. by rewrite Z2Nat.id by done.
  - rewrite !decide_True by done. apply Hcheck; [done|].
    rewrite count_defined_all; [lia|]. intros i. unfold digest_defined.
    by rewrite bool_decide_eq_true_2 by done.
Qed.

(** What the scanner keeps of a [SubstreamInfo] in progress. *)
Definition substream_rel (st : SubstreamInfo) (totals : Z * Z) : Prop :=
  let counts := num_unpack_streams_per_folder st in
  Forall is_u64 counts ∧ total_streams counts ≤ u64_max ∧
  totals = (total_sizes counts, total_streams counts).

Lemma substream_body_agree `{Nom} n input tag st totals :
  valid_slice (advance 1 input) → substream_rel st totals →
  ok_agree substream_rel (substream_body n input (advance 1 input) tag st)
    (scan_substream_body n input (advance 1 input) tag totals).
Proof.
  intros Hi Hst. destruct totals as [a b]. pose proof Hst as (Hc & Hmax & [= Ha Hb]).
  pose proof (totals_bounds _ Hc) as Hbd. unfold substream_body, scan_substream_body.
  assert (ok_agree substream_rel
    (let? (i, _) := skip_sized (advance 1 input) in Ok (i, st))
    (let? (i, _) := skip_sized (advance 1 input) in Ok (i, (a, b)))) as Hskip
    by (by destruct (skip_sized _) as [[r []]|]).
  destruct tag; try done.
  - rewrite checked_size_count_spec by done. rewrite <- Ha. case_decide; [done|].
    eapply ok_agree_bind; [apply (varuints_agree a _ (substream_sizes st)); lia|].
    intros r x y _ _ _. done.
  - rewrite checked_substream_total_spec, decide_True by done. rewrite <- Hb.
    destruct (check_substream_digest_limit _ _); [|done].
    eapply ok_agree_bind; [apply stream_digests_scan_agree; [done|lia]|].
    intros r x y _ _ _. done.
  - rewrite !repeat_n_nat.
    pose proof (scan_count_spec (Z.to_nat n) (advance 1 input) [] (proj1 Hi)
      ltac:(constructor) ltac:(by vm_compute)) as Hcount. cbn [total_sizes total_streams foldr] in Hcount.
    destruct (repeat_nat push_varuint_step _ _) as [[r cs]|].
    2:{ by destruct (repeat_nat scan_count_step _ _). }
    destruct Hcount as [Hcs Hcount]. rewrite checked_substream_total_spec by done.
    case_decide as Hle; [rewrite Hcount; done|].
    by destruct (repeat_nat scan_count_step _ _) as [|]; [destruct Hcount|].
Qed.

Lemma substream_info_agree `{Nom} s n :
  valid_slice s → 0 ≤ n ≤ u64_max →
  ok_agree (λ _ _, True) (SubstreamInfo_parse s n) (scan_substream_info s n).
Proof.
  intros Hs Hn. unfold SubstreamInfo_parse, scan_substream_info, expect_tag.
  pose proof (PropertyId_parse_tail s) as Ht.
  destruct (PropertyId_parse s) as [[s1 t]|]; [|done]. case_decide; [done|]. cbn in Ht.
  apply (valid_slice_suffix _ _ Ht) in Hs.
  apply (ok_agree_map_r substream_rel _ _ _ (λ _, tt)); [|done].
  apply (run_tag_loop_agree _ valid_slice); [apply valid_slice_suffix|apply substream_body_ok|done| |].
  - unfold substream_rel. cbn [num_unpack_streams_per_folder].
    assert (∀ k, total_streams (replicate k 1) = Z.of_nat k ∧ total_sizes (replicate k 1) = 0)
      as Hrep.
    { induction k as [|k [IH1 IH2]]; [done|]. cbn [replicate].
      change (total_streams (1 :: replicate k 1)) with (1 + total_streams (replicate k 1)).
      change (total_sizes (1 :: replicate k 1)) with (0 + total_sizes (replicate k 1)). lia. }
    destruct (Hrep (Z.to_nat n)) as [-> ->]. split_and!; [|lia|f_equal; lia].
    apply Forall_replicate. by vm_compute.
  - intros input tag st totals _ Hi _ _ Hst. by apply substream_body_agree.
Qed.

(** The parsed descriptor against the folder count the scanner keeps. *)
Definition stream_rel (st : StreamInfo) (nf : Z) : Prop :=
  nf = from_option UnpackInfo_num_folders_usize 0 (si_unpack_info st) ∧ is_u64 nf ∧
  (∀ p, si_pack_info st = Some p → pack_info_wf p) ∧
  (∀ u, si_unpack_info st = Some u → unpack_info_wf u).

(** What a caller of the scanner knows of its buffers. *)
Record stream_input_ok (s backing : slice) (ext : list slice) : Prop := {
  so_valid : valid_slice s;
  so_backing : sl_len backing ≤ usize_max;
  so_within : within s backing;
  so_small : sl_len s ≤ u32_max;
  so_ext : Forall (λ e, valid_slice e ∧ sl_len e ≤ u32_max) ext
}.

Lemma stream_input_ok_suffix r s backing ext :
  suffix_of r s → stream_input_ok s backing ext → stream_input_ok r backing ext.
Proof.
  intros Hr [Hv Hb Hw Hs He]. split; [by eapply valid_slice_suffix|done| | |done].
  - eapply within_trans; [by apply within_suffix|done].
  - apply suffix_of_len in Hr. lia.
Qed.

Lemma stream_info_body_agree `{Nom} backing ext input tag st nf :
  stream_input_ok input backing ext → stream_input_ok (advance 1 input) backing ext →
  stream_rel st nf →
  ok_agree stream_rel (stream_info_body backing ext input (advance 1 input) tag st)
    (scan_stream_info_body ext input (advance 1 input) tag nf).
Proof.
  intros Hin Hi Hst. pose proof Hst as (Hnf & Hu & Hp & Hun).
  unfold stream_info_body, scan_stream_info_body.
  assert (ok_agree stream_rel
    (let? (i, _) := skip_sized (advance 1 input) in Ok (i, st))
    (let? (i, _) := skip_sized (advance 1 input) in Ok (i, nf))) as Hskip
    by (by destruct (skip_sized _) as [[r []]|]).
  destruct tag; try done.
  - eapply ok_agree_bind; [apply pack_info_agree, Hin|]. intros r p [] _ _ Hwf.
    cbn. split_and!; try done. unfold stream_rel. cbn. split_and!; try done. by intros ? [= <-].
  - pose proof (so_ext _ _ _ Hin) as He. rewrite Forall_and in He. destruct He as [He1 He2].
    eapply ok_agree_map_l with (f := λ ui, {| si_pack_info := si_pack_info st;
      si_unpack_info := Some ui; si_substream_info := si_substream_info st |});
      [by apply unpack_info_agree; destruct Hin|].
    intros u n [Hwf ->]. unfold stream_rel. cbn. destruct Hwf as [Hw1 Hw2 Hw3].
    split_and!; [done|apply Hw1..|done|by intros ? [= <-]].
  - rewrite <- Hnf. eapply ok_agree_bind; [apply substream_info_agree; [apply Hin|]|].
    { destruct Hu. lia. }
    intros r x [] _ _ _. done.
Qed.

(** The scanner of a stream descriptor accepts what the parser accepts. *)
Lemma stream_info_agree `{Nom} s backing ext :
  stream_input_ok s backing ext →
  ok_agree (λ st _, (∀ p, si_pack_info st = Some p → pack_info_wf p) ∧
                    (∀ u, si_unpack_info st = Some u → unpack_info_wf u))
    (StreamInfo_parse_with_external s backing ext) (scan_stream_info_with_external s ext).
Proof.
  intros Hs. unfold StreamInfo_parse_with_external, scan_stream_info_with_external.
  apply (ok_agree_map_r stream_rel _ _ _ (λ _, tt)); [|by intros st nf (_ & _ & ? & ?)].
  apply (run_tag_loop_agree _ (λ r, stream_input_ok r backing ext));
    [intros r r'; apply stream_input_ok_suffix|apply stream_info_body_ok|done| |].
  - unfold stream_rel. cbn. split_and!; done || by vm_compute.
  - intros input tag st nf Hin Hi _ _ Hst. by apply stream_info_body_agree.
Qed.

(** ** Properties *)

(** The allocation-free scan of a stream descriptor accepts exactly what the
    parser accepts and stops where the parser stops, for inputs below 4 GiB; and a
    parsed descriptor has as many packed sizes, packed digests, folder offsets and
    folder digests as it declares. *)
Theorem stream_scan_matches_parse `{Nom} s backing ext :
  stream_input_ok s backing ext →
  match StreamInfo_parse_with_external s backing ext, scan_stream_info_with_external s ext with
  | Ok (r, st), Ok (r', _) =>
      r = r' ∧ (∀ p, si_pack_info st = Some p → pack_info_wf p) ∧
      (∀ u, si_unpack_info st = Some u → unpack_info_wf u)
  | Err _, Err _ => True
  | _, _ => False
  end.
Proof.
  intros Hs. pose proof (stream_info_agree s backing ext Hs) as Ha.
  destruct (StreamInfo_parse_with_external s backing ext) as [[r st]|],
    (scan_stream_info_with_external s ext) as [[r' []]|]; exact Ha.
Qed.

(** ** Witnesses *)

(** A descriptor of one Copy folder, and its end. *)
Definition sample_stream_block : slice :=
  Slice 64 [6; 0; 1; 9; 4; 0; 7; 11; 1; 0; 1; 1; 0; 12; 4; 0; 8; 0; 0; 77].

Lemma stream_scan_matches_parse_witness :
  scan_stream_info_with_external sample_stream_block [] = Ok (Slice 83 [77], tt) ∧
  ∃ st p, StreamInfo_parse_with_external sample_stream_block sample_stream_block [] =
            Ok (Slice 83 [77], st) ∧ si_pack_info st = Some p ∧ pack_info_wf p.
Proof.
  assert (stream_input_ok sample_stream_block sample_stream_block []) as Hok.
  { split; [split; [repeat constructor; vm_compute; done|vm_compute; done]|vm_compute; done
           |apply within_refl|vm_compute; done|constructor]. }
  pose proof (stream_scan_matches_parse sample_stream_block sample_stream_block [] Hok) as Hs.
  split; [vm_compute; reflexivity|].
  destruct (StreamInfo_parse_with_external sample_stream_block sample_stream_block [])
    as [[r st]|e] eqn:E; [|vm_compute in E; discriminate E].
  destruct (scan_stream_info_with_external sample_stream_block []) as [[r' x]|e'];
    [|destruct Hs]. destruct Hs as (_ & Hp & _).
  destruct (si_pack_info st) as [p|] eqn:Ep.
  - exists st, p. split; [vm_compute in E; injection E as <- _; reflexivity|].
    split; [exact Ep|apply Hp; reflexivity].
  - exfalso. vm_compute in E. injection E as _ <-. discriminate Ep.
Defined.
