(* ===== verification/ScanLocality.v ===== *)
(** * Locality of the scanners

    The scanners of the stream descriptors depend only on the bytes they consume:
    a section scanned inside a longer header scans to its very end when it is cut
    out. *)

From stdpp Require Import base numbers list option.
From Stdlib Require Import ZArith Lia.
From S2P Require Import Prelude PropertyId Parsers CoderInfo Folder PackInfo StreamInfo.

(** ** The tag loop *)

Lemma PropertyId_parse_local : local PropertyId_parse.
Proof.
  intros s r p Hp. apply PropertyId_parse_inv in Hp as (rest & Hs & ->). exists 1.
  split; [unfold sl_len; rewrite Hs; zlia|]. split; [done|]. intros t Ht He.
  exists p. split; [|done]. destruct t as [a d].
  rewrite Hs in He. cbn [sl_data] in He. unfold sl_len in Ht; cbn [sl_data] in Ht.
  destruct d as [|b d]; [unfold zlen in Ht; cbn in Ht; lia|].
  cbn in He. injection He as ->. by rewrite PropertyId_parse_tag.
Qed.

(** One iteration depends on the bytes it consumes, the tag included. *)
Definition tag_body_local {S} (body : slice → slice → PropertyId → S → IResult S) : Prop :=
  ∀ s tag st r x, tag ≠ P_END → PropertyId_parse s = Ok (advance 1 s, tag) →
    body s (advance 1 s) tag st = Ok (r, x) →
    ∃ n, 1 ≤ n ≤ sl_len s ∧ r = advance n s ∧
      ∀ t, n ≤ sl_len t → take (Z.to_nat n) (sl_data t) = take (Z.to_nat n) (sl_data s) →
        body t (advance 1 t) tag st = Ok (advance n t, x).

(** An iteration that reads after the tag. *)
Lemma after_tag_local {A} (q : slice → IResult A) s tag r x :
  local q → PropertyId_parse s = Ok (advance 1 s, tag) → q (advance 1 s) = Ok (r, x) →
  ∃ n, 1 ≤ n ≤ sl_len s ∧ r = advance n s ∧
    ∀ t, n ≤ sl_len t → take (Z.to_nat n) (sl_data t) = take (Z.to_nat n) (sl_data s) →
      q (advance 1 t) = Ok (advance n t, x).
Proof.
  intros Hq Hp Hr. apply PropertyId_parse_advance in Hp as [_ Hl].
  apply Hq in Hr as (m & Hm & -> & Ht). rewrite sl_len_advance in Hm by lia.
  exists (1 + m). rewrite advance_advance by lia. split; [lia|]. split; [done|].
  intros t Hlt He. destruct (Ht (advance 1 t)) as (y & -> & <-).
  - rewrite sl_len_advance; lia.
  - unfold advance. cbn [sl_data]. rewrite !take_drop_commute. f_equal.
    by replace (Z.to_nat 1 + Z.to_nat m)%nat with (Z.to_nat (1 + m)) by lia.
  - by rewrite advance_advance by lia.
Qed.

(** An iteration that reads from the tag on. *)
Lemma from_tag_local {A} (q : slice → IResult A) s r x :
  local q → 1 ≤ sl_len s → parses_tail (advance 1 s) (q s) → q s = Ok (r, x) →
  ∃ n, 1 ≤ n ≤ sl_len s ∧ r = advance n s ∧
    ∀ t, n ≤ sl_len t → take (Z.to_nat n) (sl_data t) = take (Z.to_nat n) (sl_data s) →
      q t = Ok (advance n t, x).
Proof.
  intros Hq Hl Htail Hr. rewrite Hr in Htail. cbn in Htail. apply suffix_of_len in Htail.
  apply Hq in Hr as (n & Hn & -> & Ht). rewrite !sl_len_advance in Htail by lia.
  exists n. split; [lia|]. split; [done|]. intros t Hlt He.
  by destruct (Ht t Hlt He) as (y & -> & <-).
Qed.

Lemma run_tag_loop_local {S} (body : slice → slice → PropertyId → S → IResult S) st :
  tag_body_ok body → tag_body_local body → local (λ s, run_tag_loop body s st).
Proof.
  intros Hok Hloc. assert (∀ fuel s st r x, tag_loop fuel body s st = Ok (r, x) →
    ∃ n, 0 ≤ n ≤ sl_len s ∧ r = advance n s ∧
      ∀ t, n ≤ sl_len t → take (Z.to_nat n) (sl_data t) = take (Z.to_nat n) (sl_data s) →
        run_tag_loop body t st = Ok (advance n t, x)) as H.
  2:{ intros s r x Hr. destruct (H _ _ _ _ _ Hr) as (n & ? & ? & Ht). exists n.
      split; [done|]. split; [done|]. intros t ? ?. exists x. by rewrite Ht. }
  clear st. induction fuel as [|fuel IH]; intros s st r x; [done|]. cbn [tag_loop].
  destruct (PropertyId_parse s) as [[i tag]|] eqn:Ep; [|done].
  destruct (PropertyId_parse_advance _ _ _ Ep) as [-> Hl].
  destruct (decide (tag = P_END)) as [->|Hne].
  { intros [= <- <-]. exists 1. split; [lia|]. split; [done|]. intros t Ht He.
    apply PropertyId_parse_local in Ep as (n & Hn & Ha & Hp).
    assert (n = 1) as -> by (injection Ha; lia).
    destruct (Hp t Ht He) as (? & Hpt & <-). unfold run_tag_loop. cbn. by rewrite Hpt. }
  intros Hr. assert (match body s (advance 1 s) tag st with
    Ok (s', st') => tag_loop fuel body s' st' | Err e => Err e end = Ok (r, x)) as Hr'
    by (by destruct tag). clear Hr.
  destruct (body s _ tag st) as [[s' st']|] eqn:Eb; [|done].
  destruct (Hloc _ _ _ _ _ Hne Ep Eb) as (n & Hn & -> & Hbt).
  destruct (IH _ _ _ _ Hr') as (m & Hm & -> & Hlt). rewrite sl_len_advance in Hm by lia.
  exists (n + m). rewrite advance_advance by lia. split; [lia|]. split; [done|].
  intros t Ht He.
  assert (PropertyId_parse t = Ok (advance 1 t, tag)) as Hpt.
  { apply PropertyId_parse_local in Ep as (k & Hk & Ha & Hp).
    assert (k = 1) as -> by (injection Ha; lia).
    destruct (Hp t) as (? & -> & <-); [lia| |done].
    eapply take_take_le; [|exact He]. lia. }
  assert (body t (advance 1 t) tag st = Ok (advance n t, st')) as Hbt'.
  { apply Hbt; [lia|]. eapply take_take_le; [|exact He]. lia. }
  rewrite (run_tag_loop_step _ Hok _ _ _ _ _ _ Hpt Hne Hbt').
  rewrite Hlt; [by rewrite advance_advance by lia|rewrite sl_len_advance by lia; lia|].
  unfold advance. cbn [sl_data]. rewrite !take_drop_commute. f_equal.
  by replace (Z.to_nat n + Z.to_nat m)%nat with (Z.to_nat (n + m)) by lia.
Qed.

(** ** Lemmas: the primitives *)

(** Locality does not look at errors. *)
Lemma local_ext {A} (p q : slice → IResult A) :
  (∀ s, result_ok (p s) = result_ok (q s)) → local q → local p.
Proof.
  intros He Hq s r x Hs. pose proof (He s) as Hes. rewrite Hs in Hes. cbn in Hes.
  destruct (q s) as [[r' x']|] eqn:Eq; [|done]. injection Hes as <- <-.
  apply Hq in Eq as (n & Hn & -> & Ht). exists n. split; [done|]. split; [done|].
  intros t Hl Htk. destruct (Ht t Hl Htk) as (y & Hy & <-). exists x. split; [|done].
  specialize (He t). rewrite Hy in He. destruct (p t) as [[? ?]|]; cbn in He; congruence.
Qed.

Lemma skip_sized_local `{Nom} : local skip_sized.
Proof.
  eapply (local_ext _ (λ s, let? (i, size) := sevenzip_varuint64_decode s in
    let? sz := ok_or (usize_try_from size) (NomError i TooLarge) in
    let? (i, _) := nom_take sz i in Ok (i, tt))).
  { intros s. unfold skip_sized. destruct (sevenzip_varuint64_decode s) as [[i size]|]; [|done].
    by destruct (usize_try_from size). }
  eapply local2_bind; [apply varuint_decode_local|]. intros size ? <-.
  apply local2_guard. intros sz _. eapply local2_bind; [apply nom_take_local|].
  intros. by apply local2_ret.
Qed.

Lemma scan_digests_local `{Nom} n : local (λ s, scan_digests s n).
Proof.
  unfold scan_digests. eapply local2_bind; [apply le_u8_local|]. intros flag ? <-.
  case_decide.
  - apply local2_guard. intros k _. eapply local2_bind; [apply nom_take_local|].
    intros. by apply local2_ret.
  - cbv zeta. eapply local2_bind; [apply nom_take_local|]. intros b b' Hb.
    unfold same_data in Hb. rewrite Hb. apply local2_guard. intros k _.
    eapply local2_bind; [apply nom_take_local|]. intros. by apply local2_ret.
Qed.

Lemma skip_varuints_local n : local (λ s, repeat_n n skip_varuint_step (s, tt)).
Proof.
  apply (repeat_n_local2 eq); [|done]. intros [] ? <-. unfold skip_varuint_step.
  eapply local2_bind; [apply varuint_decode_local|]. intros. by apply local2_ret.
Qed.

Lemma varuint_decode_shrinks s r v :
  sevenzip_varuint64_decode s = Ok (r, v) → sl_len r < sl_len s.
Proof.
  rewrite varuint_decode_closed. unfold varuint_decode_spec.
  destruct (sl_data s) as [|b l] eqn:Es; [done|]. case_decide as Hk; [|done].
  intros [= <- <-].
  assert (1 + Z.of_nat (lead_ones b) ≤ sl_len s) by (unfold sl_len; rewrite Es; zlia).
  rewrite sl_len_advance by lia. lia.
Qed.

(** Each integer takes at least a byte. *)
Lemma skip_varuints_len n s r :
  0 ≤ n → repeat_n n skip_varuint_step (s, tt) = Ok (r, tt) → sl_len r ≤ sl_len s - n.
Proof.
  intros Hn. rewrite repeat_n_nat. replace n with (Z.of_nat (Z.to_nat n)) at 2 by lia.
  generalize (Z.to_nat n) as k. clear Hn. intros k. revert s.
  induction k as [|k IH]; intros s; cbn [repeat_nat]; [intros [= <-]; lia|].
  unfold skip_varuint_step at 1.
  destruct (sevenzip_varuint64_decode s) as [[s1 v]|] eqn:E; [|done]. intros Hr.
  apply IH in Hr. apply varuint_decode_shrinks in E. lia.
Qed.

(** A branch of a tag body that reads after the tag with a local parser. *)
Ltac after_tag q :=
  match goal with
  | Hp : PropertyId_parse ?s = Ok _ |- _ = Ok _ → _ =>
      let Hb := fresh in
      intros Hb; apply (after_tag_local q s _ _ _) with (2 := Hp) (3 := Hb)
  end.

(** ** Lemmas: pack descriptors *)

Lemma expect_tag_local p : local (expect_tag p).
Proof.
  unfold expect_tag.
  eapply (local_ext _ (λ s, let? (i, tag) := PropertyId_parse s in
    if decide (tag ≠ p) then Err (NomFailure i Satisfy) else Ok (i, tt))).
  { intros s. destruct (PropertyId_parse s) as [[i tag]|]; [|done]. by case_decide. }
  eapply local2_bind; [apply PropertyId_parse_local|]. intros tag ? <-.
  case_decide; [apply local2_err|by apply local2_ret].
Qed.

Lemma pack_info_head_local : local pack_info_head.
Proof.
  eapply (local_ext _ (λ s, let? (i, tag) := PropertyId_parse s in
    if decide (tag ≠ P_PackInfo) then Err (NomFailure i Satisfy) else
    let? (i, pos) := sevenzip_varuint64_decode i in
    let? (i, n) := sevenzip_varuint64_decode i in
    let? (i, marker) := PropertyId_parse i in
    if decide (marker ≠ P_Size) then Err (NomFailure i Satisfy) else Ok (i, (pos, n)))).
  { intros s. unfold pack_info_head. destruct (PropertyId_parse s) as [[i tag]|]; [|done].
    by case_decide. }
  eapply local2_bind; [apply PropertyId_parse_local|]. intros tag ? <-.
  case_decide; [apply local2_err|].
  eapply local2_bind; [apply varuint_decode_local|]. intros pos ? <-.
  eapply local2_bind; [apply varuint_decode_local|]. intros n ? <-.
  eapply local2_bind; [apply PropertyId_parse_local|]. intros marker ? <-.
  case_decide; [apply local2_err|by apply local2_ret].
Qed.

Lemma scan_pack_info_body_local `{Nom} n : tag_body_local (scan_pack_info_body n).
Proof.
  intros s tag st r x Hne Hp. unfold scan_pack_info_body.
  destruct tag; try done;
    first [after_tag skip_sized; apply skip_sized_local
          |after_tag (λ s, scan_digests s n); apply scan_digests_local].
Qed.

Lemma scan_pack_info_local `{Nom} : local scan_pack_info.
Proof.
  unfold scan_pack_info. eapply local2_bind; [apply pack_info_head_local|].
  intros [pos n] ? <-. eapply local2_bind; [apply skip_varuints_local|]. intros [] ? <-.
  apply local2_guard. intros n' _.
  apply run_tag_loop_local; [apply scan_pack_info_body_ok|apply scan_pack_info_body_local].
Qed.

(** ** Lemmas: unpack descriptors *)

Lemma scan_folder_local `{Nom} : local scan_folder.
Proof.
  unfold scan_folder. eapply local2_bind; [apply varuint_decode_local|]. intros n ? <-.
  apply local2_result; [intros; apply result_ok_checked_coder_count|]. intros n'.
  eapply local2_bind.
  { apply (repeat_n_local2 eq); [|done]. intros counts ? <-. unfold scan_coder_step.
    eapply local2_bind; [apply CoderInfoRef_parse_local|].
    intros c d Hcd. injection Hcd as _ Hi Ho _. rewrite <- Hi, <- Ho.
    apply local2_result; [intros; apply result_ok_add_coder|]. intros. by apply local2_ret. }
  intros counts ? <-.
  apply local2_result; [intros; apply result_ok_layout|]. intros [nb np].
  eapply local2_bind.
  { apply (repeat_n_local2 eq); [|done]. intros l ? <-. unfold scan_bind_step.
    eapply local2_bind; [apply varuint_decode_local|]. intros a ? <-.
    apply local2_result; [intros; apply result_ok_checked_stream_index|]. intros _.
    eapply local2_bind; [apply varuint_decode_local|]. intros b ? <-.
    apply local2_result; [intros; apply result_ok_checked_stream_index|]. intros _.
    by apply local2_ret. }
  intros [] ? <-. eapply local2_bind with (R := eq).
  - case_decide; [|by apply local2_ret].
    apply (repeat_n_local2 eq); [|done]. intros l ? <-. unfold scan_packed_step.
    eapply local2_bind; [apply varuint_decode_local|]. intros a ? <-.
    apply local2_result; [intros; apply result_ok_checked_stream_index|]. intros _.
    by apply local2_ret.
  - intros [] ? <-. apply local2_guard. intros t _. by apply local2_ret.
Qed.

Lemma folder_blocks_local `{Nom} d n s tot s' tot' o :
  repeat_nat (folder_block_step d) n (s, tot, None) = Ok (s', tot', o) →
  o = None ∧ ∃ k, 0 ≤ k ≤ sl_len s ∧ s' = advance k s ∧
    ∀ d' t, k ≤ sl_len t → take (Z.to_nat k) (sl_data t) = take (Z.to_nat k) (sl_data s) →
      repeat_nat (folder_block_step d') n (t, tot, None) = Ok (advance k t, tot', None).
Proof.
  revert s tot. induction n as [|n IH]; intros s tot; cbn [repeat_nat].
  { intros [= <- <- <-]. split; [done|]. exists 0. pose proof (sl_len_nonneg s).
    rewrite advance_0. split; [lia|]. split; [done|]. intros. by rewrite advance_0. }
  unfold folder_block_step at 1.
  destruct (scan_folder s) as [[s1 outs]|] eqn:Ef; cbn [map_err]; [|done].
  destruct (checked_add tot outs) as [tot1|] eqn:Et; cbn [ok_or]; [|done].
  intros Hr. apply IH in Hr as (-> & m & Hm & -> & Ht). split; [done|].
  apply scan_folder_local in Ef as (k & Hk & -> & Hf). rewrite sl_len_advance in Hm by done.
  exists (k + m). rewrite advance_advance by lia. split; [lia|]. split; [done|].
  intros d' t Hl He. unfold folder_block_step at 1.
  destruct (Hf t) as (? & -> & <-); [lia|eapply take_take_le; [|exact He]; lia|].
  cbn [map_err]. rewrite Et. cbn [ok_or].
  rewrite Ht; [by rewrite advance_advance by lia|rewrite sl_len_advance by lia; lia|].
  unfold advance. cbn [sl_data]. rewrite !take_drop_commute. f_equal.
  by replace (Z.to_nat k + Z.to_nat m)%nat with (Z.to_nat (k + m)) by lia.
Qed.

(** The folder blocks of an inline declaration. *)
Definition inline_blocks `{Nom} (n : Z) (s : slice) : IResult Z :=
  let? blocks := map_err (NomFailure s) (scan_folder_blocks s n None) in
  let '(consumed, total, _) := blocks in
  let? s := ok_or (slice_from consumed s) (NomFailure s Eof) in
  Ok (s, total).

Lemma inline_blocks_local `{Nom} n : local (inline_blocks n).
Proof.
  intros s r x. unfold inline_blocks, scan_folder_blocks. rewrite repeat_n_nat.
  destruct (repeat_nat _ _ _) as [[[s' tot'] o]|] eqn:Eb; cbn [map_err]; [|done].
  apply folder_blocks_local in Eb as (-> & k & Hk & -> & Ht).
  rewrite sl_len_advance by done. cbn [map_err].
  replace (sl_len s - (sl_len s - k)) with k by lia.
  unfold slice_from. rewrite decide_True by lia. cbn [ok_or]. intros [= <- <-].
  exists k. split; [done|]. split; [done|]. intros t Hl He.
  rewrite repeat_n_nat. rewrite (Ht t t Hl He). cbn [map_err].
  rewrite sl_len_advance by lia. cbn [map_err].
  replace (sl_len t - (sl_len t - k)) with k by lia.
  rewrite decide_True by lia. cbn [ok_or]. by eexists.
Qed.

Lemma parse_folder_declaration_local `{Nom} : local parse_folder_declaration.
Proof.
  eapply (local_ext _ (λ s, let? (i, tag) := PropertyId_parse s in
    if decide (tag ≠ P_UnPackInfo) then Err (NomFailure i Satisfy) else
    let? (i, marker) := PropertyId_parse i in
    if decide (marker ≠ P_Folder) then Err (NomFailure i Satisfy) else
    let? (i, count) := sevenzip_varuint64_decode i in
    let? (i, flag) := le_u8 i in
    if decide (flag = 0) then Ok (i, (count, Inline))
    else if decide (flag = 1) then
      let? (i, raw_index) := sevenzip_varuint64_decode i in
      let? index := ok_or (usize_try_from raw_index) (NomFailure i TooLarge) in
      Ok (i, (count, External index))
    else Err (NomFailure i Verify))).
  { intros s. unfold parse_folder_declaration.
    destruct (PropertyId_parse s) as [[i tag]|]; [|done]. by case_decide. }
  eapply local2_bind; [apply PropertyId_parse_local|]. intros tag ? <-.
  case_decide; [apply local2_err|].
  eapply local2_bind; [apply PropertyId_parse_local|]. intros marker ? <-.
  case_decide; [apply local2_err|].
  eapply local2_bind; [apply varuint_decode_local|]. intros count ? <-.
  eapply local2_bind; [apply le_u8_local|]. intros flag ? <-.
  case_decide; [by apply local2_ret|]. case_decide; [|apply local2_err].
  eapply local2_bind; [apply varuint_decode_local|]. intros index ? <-.
  apply local2_guard. intros i _. by apply local2_ret.
Qed.

Lemma scan_unpack_info_body_local `{Nom} nf total : tag_body_local (scan_unpack_info_body nf total).
Proof.
  intros s tag [] r [] Hne Hp. unfold scan_unpack_info_body.
  destruct tag; try done;
    first [after_tag skip_sized; apply skip_sized_local
          |after_tag (λ s, scan_digests s nf); apply scan_digests_local
          |after_tag (λ s, let? (i, _) := repeat_n total skip_varuint_step (s, tt) in Ok (i, tt))].
  eapply local2_bind; [apply skip_varuints_local|]. intros. by apply local2_ret.
Qed.

Lemma scan_unpack_info_local `{Nom} ext : local (λ s, scan_unpack_info_with_external s ext).
Proof.
  unfold scan_unpack_info_with_external.
  eapply local2_bind; [apply parse_folder_declaration_local|]. intros [n loc] ? <-.
  assert (∀ total, local (λ s,
    let? nf := ok_or (usize_try_from n) (NomError s TooLarge) in
    let? (s, _) := run_tag_loop (scan_unpack_info_body nf total) s tt in Ok (s, nf))) as Hrest.
  { intros total. apply local2_guard. intros nf _. eapply local2_bind;
      [apply run_tag_loop_local;
        [apply scan_unpack_info_body_ok|apply scan_unpack_info_body_local]|].
    intros. by apply local2_ret. }
  destruct loc as [|index]; cbn [FolderSource_resolve].
  - eapply (local_ext _ (λ s, let? (s, total) := inline_blocks n s in
      let? nf := ok_or (usize_try_from n) (NomError s TooLarge) in
      let? (s, _) := run_tag_loop (scan_unpack_info_body nf total) s tt in Ok (s, nf))).
    { intros s. unfold inline_blocks. cbn [FolderSource_bytes].
      destruct (scan_folder_blocks s n None) as [[[c t] o]|]; cbn [map_err]; [|done].
      cbn [FolderSource_remaining_header]. by destruct (slice_from c s). }
    eapply local2_bind; [apply inline_blocks_local|]. intros total ? <-. apply Hrest.
  - destruct (get index ext) as [data|]; cbn [ok_or]; [|apply local2_err].
    cbn [FolderSource_bytes FolderSource_remaining_header].
    destruct (scan_folder_blocks data n None) as [[[c t] o]|]; cbn [map_err];
      [apply Hrest|apply local2_err].
Qed.

(** ** Lemmas: substream and stream descriptors *)

Lemma scan_count_step_local c : local (λ s, scan_count_step (s, c)).
Proof.
  destruct c as [sizes total].
  eapply (local_ext _ (λ s, let? (i, n) := sevenzip_varuint64_decode s in
    let? nu := ok_or (usize_try_from n) (NomError i TooLarge) in
    let? sizes := ok_or (checked_add sizes (saturating_sub nu 1)) (NomError i TooLarge) in
    let? total := ok_or (checked_add total nu) (NomError i TooLarge) in
    Ok (i, (sizes, total)))).
  { intros s. unfold scan_count_step.
    destruct (sevenzip_varuint64_decode s) as [[i n]|]; [|done].
    destruct (usize_try_from n) as [nu|]; [|done]. cbn [ok_or].
    destruct (checked_add sizes _); [|done]. cbn [ok_or]. by destruct (checked_add total nu). }
  eapply local2_bind; [apply varuint_decode_local|]. intros n ? <-.
  apply local2_guard; intros ? _. apply local2_guard; intros ? _. apply local2_guard; intros ? _.
  by apply local2_ret.
Qed.

Lemma scan_sizes_local n s r :
  PropertyId_parse s = Ok (advance 1 s, P_Size) →
  (if decide (sl_len (advance 1 s) < n) then Err (NomError (advance 1 s) Eof) else
   let? (i, _) := repeat_n n skip_varuint_step (advance 1 s, tt) in Ok (i, tt)) = Ok (r, tt) →
  ∃ k, 1 ≤ k ≤ sl_len s ∧ r = advance k s ∧
    ∀ t, k ≤ sl_len t → take (Z.to_nat k) (sl_data t) = take (Z.to_nat k) (sl_data s) →
      (if decide (sl_len (advance 1 t) < n) then Err (NomError (advance 1 t) Eof) else
       let? (i, _) := repeat_n n skip_varuint_step (advance 1 t, tt) in Ok (i, tt))
      = Ok (advance k t, tt).
Proof.
  intros Hp Hr. case_decide as Hlen; [done|].
  destruct (PropertyId_parse_advance _ _ _ Hp) as [_ Hl].
  destruct (repeat_n n skip_varuint_step (advance 1 s, tt)) as [[i []]|] eqn:Er; [|done].
  injection Hr as <-.
  destruct (after_tag_local (λ s, repeat_n n skip_varuint_step (s, tt)) s P_Size i tt)
    with (2 := Hp) (3 := Er) as (k & Hk & -> & Ht); [apply skip_varuints_local|].
  exists k. split; [done|]. split; [done|]. intros t Hlt He. rewrite (Ht t Hlt He).
  rewrite decide_False; [done|]. rewrite sl_len_advance in Hlen |- * by lia.
  destruct (decide (0 ≤ n)); [|lia]. apply skip_varuints_len in Er; [|done].
  rewrite !sl_len_advance in Er by lia. lia.
Qed.

Lemma scan_substream_body_local `{Nom} nf : tag_body_local (scan_substream_body nf).
Proof.
  intros s tag [sizes total] r x Hne Hp. unfold scan_substream_body.
  assert (local (λ s, let? (i, _) := skip_sized s in Ok (i, (sizes, total)))) as Hskip.
  { eapply local2_bind; [apply skip_sized_local|]. intros. by apply local2_ret. }
  destruct tag; try done;
    try (after_tag (λ s, let? (i, _) := skip_sized s in Ok (i, (sizes, total))); exact Hskip).
  - (* sizes *)
    intros Hr.
    destruct (scan_sizes_local sizes s r Hp) as (k & Hk & -> & Ht).
    { destruct (decide _); [done|]. destruct (repeat_n _ _ _) as [[i []]|]; [|done]. congruence. }
    assert (x = (sizes, total)) as ->.
    { destruct (decide _); [done|]. destruct (repeat_n _ _ _) as [[i []]|]; [|done]. congruence. }
    exists k. split; [done|]. split; [done|]. intros t Hl He. specialize (Ht t Hl He).
    case_decide; [done|].
    destruct (repeat_n _ _ (advance 1 t, tt)) as [[i []]|] eqn:E in Ht; [|done].
    injection Ht as <-. by rewrite E.
  - (* digests *)
    after_tag (λ s, let? _ := check_substream_digest_limit s total in
      let? (i, _) := scan_digests s total in Ok (i, (sizes, total))).
    apply local2_result; [|intros _].
    { intros a b. unfold check_substream_digest_limit. by case_decide. }
    eapply local2_bind; [apply scan_digests_local|]. intros. by apply local2_ret.
  - (* stream counts *)
    after_tag (λ s, repeat_n nf scan_count_step (s, (0, 0))).
    apply (repeat_n_local2 eq); [|done]. intros c ? <-. apply scan_count_step_local.
Qed.

Lemma scan_substream_info_local `{Nom} nf : local (λ s, scan_substream_info s nf).
Proof.
  unfold scan_substream_info. eapply local2_bind; [apply expect_tag_local|]. intros [] ? <-.
  eapply local2_bind;
    [apply run_tag_loop_local; [apply scan_substream_body_ok|apply scan_substream_body_local]|].
  intros. by apply local2_ret.
Qed.

Lemma scan_stream_info_body_local `{Nom} ext : tag_body_local (scan_stream_info_body ext).
Proof.
  intros s tag nf r x Hne Hp Hb.
  destruct (PropertyId_parse_advance _ _ _ Hp) as [_ Hl].
  pose proof (scan_stream_info_body_ok ext s tag nf Hp Hne) as Htail.
  unfold scan_stream_info_body in *.
  assert (local (λ s, let? (i, _) := skip_sized s in Ok (i, nf))) as Hskip.
  { eapply local2_bind; [apply skip_sized_local|]. intros. by apply local2_ret. }
  destruct tag; try done;
    try (revert Hb; after_tag (λ s, let? (i, _) := skip_sized s in Ok (i, nf)); exact Hskip).
  - apply (from_tag_local (λ s, let? (i, _) := scan_pack_info s in Ok (i, nf))); try done.
    eapply local2_bind; [apply scan_pack_info_local|]. intros. by apply local2_ret.
  - apply (from_tag_local (λ s, scan_unpack_info_with_external s ext)); try done.
    apply scan_unpack_info_local.
  - apply (from_tag_local (λ s, let? (i, _) := scan_substream_info s nf in Ok (i, nf))); try done.
    eapply local2_bind; [apply scan_substream_info_local|]. intros. by apply local2_ret.
Qed.

(** The stream scanner depends on the bytes it consumes only. *)
Lemma scan_stream_info_local `{Nom} ext : local (λ s, scan_stream_info_with_external s ext).
Proof.
  unfold scan_stream_info_with_external.
  eapply local2_bind;
    [apply run_tag_loop_local; [apply scan_stream_info_body_ok|apply scan_stream_info_body_local]|].
  intros. by apply local2_ret.
Qed.

(** Cut out of its header, a scanned section scans to its end. *)
Lemma scan_stream_info_cut `{Nom} ext s r :
  scan_stream_info_with_external s ext = Ok (r, tt) →
  ∃ n, 0 ≤ n ≤ sl_len s ∧ r = advance n s ∧
    scan_stream_info_with_external (first_bytes n s) ext
    = Ok (advance n (first_bytes n s), tt).
Proof.
  intros Hs. apply scan_stream_info_local in Hs as (n & Hn & -> & Ht). exists n.
  split; [done|]. split; [done|]. destruct (Ht (first_bytes n s)) as ([] & -> & _); [| |done].
  - rewrite sl_len_first by done. lia.
  - unfold first_bytes. cbn [sl_data]. rewrite take_take. f_equal. lia.
Qed.

(** ** Lemmas: more external data

    A scan that succeeds without external streams makes no use of any. *)

Lemma scan_unpack_info_no_external `{Nom} s ext r n :
  scan_unpack_info_with_external s [] = Ok (r, n) →
  scan_unpack_info_with_external s ext = Ok (r, n).
Proof.
  unfold scan_unpack_info_with_external.
  destruct (parse_folder_declaration s) as [[s1 [nf [|index]]]|]; [done| |done].
  cbn [FolderSource_resolve]. unfold get. case_decide; cbn [ok_or]; [|done].
  by rewrite lookup_nil.
Qed.

Lemma scan_stream_info_no_external `{Nom} s ext r :
  scan_stream_info_with_external s [] = Ok (r, tt) →
  scan_stream_info_with_external s ext = Ok (r, tt).
Proof.
  unfold scan_stream_info_with_external, run_tag_loop.
  assert (∀ fuel s st r x, tag_loop fuel (scan_stream_info_body []) s st = Ok (r, x) →
    tag_loop fuel (scan_stream_info_body ext) s st = Ok (r, x)) as Hloop.
  { induction fuel as [|fuel IH]; intros s' st r' x; [done|]. cbn [tag_loop].
    destruct (PropertyId_parse s') as [[i tag]|]; [|done].
    destruct (decide (tag = P_END)) as [->|Hne]; [done|]. intros Hr.
    assert (match scan_stream_info_body [] s' i tag st with
      Ok (s2, st2) => tag_loop fuel (scan_stream_info_body []) s2 st2 | Err e => Err e end
      = Ok (r', x)) as Hr' by (by destruct tag). clear Hr.
    assert (match scan_stream_info_body ext s' i tag st with
      Ok (s2, st2) => tag_loop fuel (scan_stream_info_body ext) s2 st2 | Err e => Err e end
      = Ok (r', x)); [|by destruct tag].
    destruct (scan_stream_info_body [] s' i tag st) as [[s2 st2]|] eqn:Eb; [|done].
    assert (scan_stream_info_body ext s' i tag st = Ok (s2, st2)) as ->; [|by apply IH].
    destruct tag; try done. by apply scan_unpack_info_no_external. }
  destruct (tag_loop _ (scan_stream_info_body []) s 0) as [[r' x]|] eqn:E; [|done].
  intros [= <-]. by rewrite (Hloop _ _ _ _ _ E).
Qed.
