(* ===== verification/FilesInfo.v ===== *)
(** * File listings (src/src/files_info.rs, and the names of src/src/entries.rs)

    [FilesInfo::parse_with_external] with its property loop, the name iterator,
    the entry classification, UTF-16 names, and the scanning counterpart. *)

From stdpp Require Import base numbers list option sets.
From Stdlib Require Import ZArith Lia.
From S2P Require Import Prelude PropertyId Parsers PackInfo.

(** ** UTF-16 names

    A [String] is the list of its scalar values; [u16] units are [Z]. *)

Definition REPLACEMENT_CHARACTER : Z := 65533.

Definition is_surrogate (u : Z) : bool := bool_decide (55296 ≤ u ∧ u < 57344).
Definition is_low_surrogate (u : Z) : bool := bool_decide (56320 ≤ u ∧ u < 57344).

(** [char::decode_utf16(units).map(|c| c.unwrap_or(REPLACEMENT_CHARACTER))]. *)
Fixpoint decode_utf16_lossy (units : list Z) : list Z :=
  match units with
  | [] => []
  | u :: rest =>
      if is_surrogate u then
        if is_low_surrogate u then REPLACEMENT_CHARACTER :: decode_utf16_lossy rest
        else
          match rest with
          | u2 :: rest2 =>
              if is_low_surrogate u2 then
                (65536 + Z.lor (Z.shiftl (Z.land u 1023) 10) (Z.land u2 1023))
                  :: decode_utf16_lossy rest2
              else REPLACEMENT_CHARACTER :: decode_utf16_lossy rest
          | [] => [REPLACEMENT_CHARACTER]
          end
      else u :: decode_utf16_lossy rest
  end.

(** [data.as_chunks::<2>()], each pair as its little-endian unit, with the rest. *)
Fixpoint as_units (data : bytes) : list Z * bytes :=
  match data with
  | a :: b :: rest => let '(us, r) := as_units rest in (Z.lor a (Z.shiftl b 8) :: us, r)
  | r => ([], r)
  end.

Definition decode_name (data : bytes) : list Z := decode_utf16_lossy (fst (as_units data)).

(** ** Types *)

(** [EntryKind<S>] of entries.rs. *)
Inductive EntryKind (S : Type) :=
| K_File (s : S)
| K_Symlink (s : S)
| K_EmptyFile
| K_EmptySymlink
| K_Directory
| K_Anti.

Arguments K_File {S} s.
Arguments K_Symlink {S} s.
Arguments K_EmptyFile {S}.
Arguments K_EmptySymlink {S}.
Arguments K_Directory {S}.
Arguments K_Anti {S}.

Record FilesInfo := {
  fi_num_files : Z;
  name_data : slice;
  ctimes : list (option Z);
  atimes : list (option Z);
  mtimes : list (option Z);
  start_positions : list (option Z);
  attributes : list (option Z);
  empty_streams : slice;
  empty_files : slice;
  anti_items : slice;
  empty_stream_ordinals : list (option Z)
}.

(** ** Names *)

Record FilesInfoNameSlices := {
  ns_data : slice; ns_count : Z; ns_position : Z; ns_index : Z
}.

(** The inner [while]: forward to the next null unit from [position]; the fuel
    is the data length. Returns the name, if one ends, and the new position. *)
Fixpoint name_end (fuel : nat) (data : bytes) (position : Z) : option Z * Z :=
  match fuel with
  | O => (None, position)
  | S fuel =>
      if decide (position + 1 < zlen data) then
        let is_null := bool_decide (get position data = Some 0
                                    ∧ get (position + 1) data = Some 0) in
        let position := position + 2 in
        if is_null then (Some (position - 2), position) else name_end fuel data position
      else (None, position)
  end.

(** [next]: the item, when the iterator is not exhausted, and the new state. *)
Definition FilesInfoNameSlices_next (self : FilesInfoNameSlices) :
    option (option slice) * FilesInfoNameSlices :=
  if decide (ns_count self ≤ ns_index self) then (None, self) else
  let data := ns_data self in
  let self1 := {| ns_data := data; ns_count := ns_count self;
                  ns_position := ns_position self; ns_index := ns_index self + 1 |} in
  if decide (sl_empty data = true ∨ sl_len data ≤ ns_position self + 1) then (Some None, self1)
  else
    let start := ns_position self in
    let '(found, position) := name_end (length (sl_data data)) (sl_data data) start in
    (Some (e ← found; Some (first_bytes (e - start) (advance start data))),
     {| ns_data := data; ns_count := ns_count self;
        ns_position := position; ns_index := ns_index self + 1 |}).

Definition FilesInfo_name_slices (self : FilesInfo) : FilesInfoNameSlices :=
  {| ns_data := name_data self; ns_count := fi_num_files self;
     ns_position := 0; ns_index := 0 |}.

(** [Iterator::nth]: drop [n] items, then take one; with the state it leaves. *)
Fixpoint name_slices_nth (n : nat) (names : FilesInfoNameSlices) :
    option (option slice) * FilesInfoNameSlices :=
  let '(item, names) := FilesInfoNameSlices_next names in
  match n, item with
  | _, None => (None, names)
  | O, _ => (item, names)
  | S n, _ => name_slices_nth n names
  end.

(** The items in order, at most [fuel] of them. *)
Fixpoint name_slices_collect (fuel : nat) (self : FilesInfoNameSlices) : list (option slice) :=
  match fuel with
  | O => []
  | S fuel =>
      match FilesInfoNameSlices_next self with
      | (None, _) => []
      | (Some item, self) => item :: name_slices_collect fuel self
      end
  end.

Definition FilesInfo_name (self : FilesInfo) (i : nat) : option (list Z) :=
  item ← fst (name_slices_nth i (FilesInfo_name_slices self));
  data ← item;
  Some (decode_name (sl_data data)).

Definition FilesInfo_names (self : FilesInfo) : list (list Z) :=
  omap (fmap (λ d, decode_name (sl_data d)))
    (name_slices_collect (Z.to_nat (fi_num_files self)) (FilesInfo_name_slices self)).

(** ** Entry classification *)

Definition FilesInfo_is_empty_stream (self : FilesInfo) (i : Z) : bool :=
  bitmap_is_set (sl_data (empty_streams self)) i.

Definition FilesInfo_empty_stream_ordinal (self : FilesInfo) (i : Z) : option Z :=
  mjoin (get i (empty_stream_ordinals self)).

Definition FilesInfo_is_empty_file (self : FilesInfo) (i : Z) : bool :=
  match FilesInfo_empty_stream_ordinal self i with
  | None => false
  | Some empty_idx => bitmap_is_set (sl_data (empty_files self)) empty_idx
  end.

Definition FilesInfo_is_anti (self : FilesInfo) (i : Z) : bool :=
  match FilesInfo_empty_stream_ordinal self i with
  | None => false
  | Some empty_idx => bitmap_is_set (sl_data (anti_items self)) empty_idx
  end.

(** [0o170_000] is 61440, [0o120_000] is 40960. *)
Definition FilesInfo_is_symlink (self : FilesInfo) (i : Z) : bool :=
  match mjoin (get i (attributes self)) with
  | Some attrs => bool_decide (Z.land (Z.shiftr attrs 16) 61440 = 40960)
  | None => false
  end.

Definition FilesInfo_entry_kind (self : FilesInfo) (i : Z) : EntryKind unit :=
  match FilesInfo_is_anti self i, FilesInfo_is_empty_stream self i,
        FilesInfo_is_symlink self i, FilesInfo_is_empty_file self i with
  | true, _, _, _ => K_Anti
  | false, false, false, _ => K_File tt
  | false, false, true, _ => K_Symlink tt
  | false, true, true, _ => K_EmptySymlink
  | false, true, false, true => K_EmptyFile
  | false, true, false, false => K_Directory
  end.

Definition FilesInfo_is_directory (self : FilesInfo) (i : Z) : bool :=
  match FilesInfo_entry_kind self i with K_Directory => true | _ => false end.

(** ** Property values *)

Record DefinedProperty := { dp_all_defined : Z; dp_bitmap : slice; dp_values : slice }.

Definition external_property_data (error_input index_bytes : slice)
    (external_data : list slice) : result slice nom_err :=
  let? (remaining, index) :=
    map_err (λ _, NomError error_input Verify) (sevenzip_varuint64_decode index_bytes) in
  if negb (sl_empty remaining) then Err (NomError error_input Verify) else
  let? index := ok_or (usize_try_from index) (NomError error_input TooLarge) in
  ok_or (get index external_data) (NomError error_input Eof).

Definition property_data (error_input payload backing : slice) (external_data : list slice) :
    result slice nom_err :=
  let? (external, data) := ok_or (split_first payload) (NomError error_input Eof) in
  if decide (external = 0) then bytes_subslice backing data error_input
  else external_property_data error_input data external_data.

Definition DefinedProperty_parse (error_input block : slice) (num_values : Z)
    (backing : slice) (external_data : list slice) : result DefinedProperty nom_err :=
  let? (all_defined, payload) := ok_or (split_first block) (NomError error_input Eof) in
  let bitmap_len := if decide (all_defined = 0) then div_ceil num_values 8 else 0 in
  let? rest := ok_or (slice_from bitmap_len payload) (NomError error_input Eof) in
  let bitmap := first_bytes bitmap_len payload in
  let? values := property_data error_input rest backing external_data in
  Ok {| dp_all_defined := all_defined; dp_bitmap := bitmap; dp_values := values |}.

(** One of the [0..num_names] steps: past the next null unit. *)
Fixpoint skip_name (units : list Z) : option (list Z) :=
  match units with
  | [] => None
  | u :: rest => if decide (u = 0) then Some rest else skip_name rest
  end.

Definition validate_name_data (data : bytes) (num_names : Z) (error_input : slice) :
    result unit nom_err :=
  let '(units, remainder) := as_units data in
  match repeat_n num_names (λ us, ok_or (skip_name us) tt) units, remainder with
  | Ok [], [] => Ok tt
  | _, _ => Err (NomError error_input Verify)
  end.

(** One value of [w] bytes; the state is the index, the position and the values. *)
Definition defined_value_step (w : nat) (error_input : slice) (all_defined : Z)
    (bitmap data : bytes) (st : Z * Z * list (option Z)) :
    result (Z * Z * list (option Z)) nom_err :=
  let '(index, pos, values) := st in
  let is_defined := bool_decide (all_defined ≠ 0) || bitmap_is_set bitmap index in
  if is_defined then
    let? raw := ok_or (get_range pos (pos + Z.of_nat w) data) (NomError error_input Eof) in
    Ok (index + 1, pos + Z.of_nat w, values ++ [Some (from_le_bytes raw)])
  else Ok (index + 1, pos, values ++ [None]).

Definition parse_defined_values (w : nat) (error_input : slice) (all_defined : Z)
    (bitmap data : bytes) (num_values : Z) : result (list (option Z)) nom_err :=
  let? st := repeat_n num_values (defined_value_step w error_input all_defined bitmap data)
               (0, 0, []) in
  let '(_, pos, values) := st in
  if decide (pos ≠ zlen data) then Err (NomError error_input Verify) else Ok values.

Definition parse_defined_u64_values := parse_defined_values 8.
Definition parse_defined_u32_values := parse_defined_values 4.

(** ** The listing *)

(** The loop of [empty_stream_ordinals]: [n] files left, from index [i]. *)
Fixpoint ordinals_loop (empty_streams : bytes) (n : nat) (i next_empty : Z) :
    list (option Z) :=
  match n with
  | O => []
  | S n =>
      if bitmap_is_set empty_streams i
      then Some next_empty :: ordinals_loop empty_streams n (i + 1) (next_empty + 1)
      else None :: ordinals_loop empty_streams n (i + 1) next_empty
  end.

Definition compute_empty_stream_ordinals (empty_streams : bytes) (num_files : Z) :
    list (option Z) :=
  ordinals_loop empty_streams (Z.to_nat num_files) 0 0.

(** The tags that may appear once, and their masks [1 << tag]. *)
Definition seen_mask (tag : PropertyId) : option Z :=
  match tag with
  | P_Name | P_CTime | P_ATime | P_MTime | P_StartPos | P_Attributes
  | P_EmptyStream | P_EmptyFile | P_Anti => Some (Z.shiftl 1 (PropertyId_tag tag))
  | _ => None
  end.

Definition SeenFileProperties_register (self : Z) (tag : PropertyId) (input : slice) :
    result Z nom_err :=
  match seen_mask tag with
  | None => Ok self
  | Some property_mask =>
      if decide (Z.land self property_mask ≠ 0) then Err (NomError input Verify)
      else Ok (Z.lor self property_mask)
  end.

(** Setters for the listing in progress. *)
Definition set_files (f : FilesInfo) (tag : PropertyId) (data : slice)
    (values : list (option Z)) : FilesInfo :=
  let pick (t : PropertyId) {A} (x y : A) : A := if decide (tag = t) then x else y in
  {| fi_num_files := fi_num_files f;
     name_data := pick P_Name data (name_data f);
     ctimes := pick P_CTime values (ctimes f);
     atimes := pick P_ATime values (atimes f);
     mtimes := pick P_MTime values (mtimes f);
     start_positions := pick P_StartPos values (start_positions f);
     attributes := pick P_Attributes values (attributes f);
     empty_streams := pick P_EmptyStream data (empty_streams f);
     empty_files := pick P_EmptyFile data (empty_files f);
     anti_items := pick P_Anti data (anti_items f);
     empty_stream_ordinals := empty_stream_ordinals f |}.

(** One property, its block already taken. *)
Definition file_property (backing : slice) (external_data : list slice) (n : Z)
    (input block : slice) (tag : PropertyId) (files : FilesInfo) : result FilesInfo nom_err :=
  match tag with
  | P_Name =>
      let? data := property_data input block backing external_data in
      let? _ := validate_name_data (sl_data data) n input in
      Ok (set_files files tag data [])
  | P_CTime | P_ATime | P_MTime | P_StartPos =>
      let? property := DefinedProperty_parse input block n backing external_data in
      let? values := parse_defined_u64_values input (dp_all_defined property)
                       (sl_data (dp_bitmap property)) (sl_data (dp_values property)) n in
      Ok (set_files files tag Bytes_new values)
  | P_Attributes =>
      let? property := DefinedProperty_parse input block n backing external_data in
      let? values := parse_defined_u32_values input (dp_all_defined property)
                       (sl_data (dp_bitmap property)) (sl_data (dp_values property)) n in
      Ok (set_files files tag Bytes_new values)
  | P_EmptyStream | P_EmptyFile | P_Anti =>
      let? data := bytes_subslice backing block input in
      Ok (set_files files tag data [])
  | _ => Ok files
  end.

Definition files_info_body `{Nom} (backing : slice) (external_data : list slice) (n : Z)
    (input i : slice) (tag : PropertyId) (st : FilesInfo * Z) : IResult (FilesInfo * Z) :=
  let '(files, seen) := st in
  let? seen := SeenFileProperties_register seen tag i in
  let? (remaining, size) := sevenzip_varuint64_decode i in
  let? size := ok_or (usize_try_from size) (NomError i TooLarge) in
  let? (remaining, block) := nom_take size remaining in
  let? files := file_property backing external_data n i block tag files in
  Ok (remaining, (files, seen)).

(** The tag and the file count that open the block. *)
Definition files_info_head (input : slice) : IResult (Z * Z) :=
  let orig_input := input in
  let? (input, tag) := PropertyId_parse input in
  if decide (tag ≠ P_FilesInfo) then Err (NomFailure orig_input Satisfy) else
  let? (input, num_files) := sevenzip_varuint64_decode input in
  let? n := ok_or (usize_try_from num_files) (NomError input TooLarge) in
  Ok (input, (num_files, n)).

Definition FilesInfo_empty (num_files : Z) : FilesInfo :=
  {| fi_num_files := num_files; name_data := Bytes_new; ctimes := []; atimes := [];
     mtimes := []; start_positions := []; attributes := []; empty_streams := Bytes_new;
     empty_files := Bytes_new; anti_items := Bytes_new; empty_stream_ordinals := [] |}.

Definition FilesInfo_parse_with_external `{Nom} (input backing : slice)
    (external_data : list slice) : IResult FilesInfo :=
  let? (input, head) := files_info_head input in
  let '(num_files, n) := head in
  let? (input, st) := run_tag_loop (files_info_body backing external_data n) input
                        (FilesInfo_empty num_files, 0) in
  let files := fst st in
  Ok (input, {| fi_num_files := fi_num_files files; name_data := name_data files;
                ctimes := ctimes files; atimes := atimes files; mtimes := mtimes files;
                start_positions := start_positions files; attributes := attributes files;
                empty_streams := empty_streams files; empty_files := empty_files files;
                anti_items := anti_items files;
                empty_stream_ordinals :=
                  compute_empty_stream_ordinals (sl_data (empty_streams files)) n |}).

Definition FilesInfo_parse `{Nom} (input backing : slice) : IResult FilesInfo :=
  FilesInfo_parse_with_external input backing [].

(** ** Scanning *)

(** The external flag of a property block, where it has one. *)
Definition external_flag (num_files : Z) (tag : PropertyId) (block : bytes) : option Z :=
  match tag with
  | P_Name => get 0 block
  | P_CTime | P_ATime | P_MTime | P_StartPos | P_Attributes =>
      let layout_start :=
        match get 0 block with
        | Some value => if decide (value = 0) then 2 + div_ceil num_files 8 else 2
        | None => usize_max
        end in
      index ← checked_sub layout_start 1; get index block
  | _ => None
  end.

Definition scan_files_info_body `{Nom} (num_files : Z) (input i : slice) (tag : PropertyId)
    (uses_external_data : bool) : IResult bool :=
  let? (i', size) := sevenzip_varuint64_decode i in
  let? sz := ok_or (usize_try_from size) (NomError i TooLarge) in
  let? (i', block) := nom_take sz i' in
  let flagged := match external_flag num_files tag (sl_data block) with
                 | Some flag => bool_decide (flag ≠ 0)
                 | None => false
                 end in
  Ok (i', uses_external_data || flagged).

Definition scan_files_info_with_external `{Nom} (input : slice) : IResult (Z * bool) :=
  let? (input, head) := files_info_head input in
  let '(num_files, n) := head in
  let? (input, uses_external_data) := run_tag_loop (scan_files_info_body n) input false in
  Ok (input, (num_files, uses_external_data)).

(** ** Lemmas: tails *)

Lemma files_info_head_tail s : parses_tail s (files_info_head s).
Proof. unfold files_info_head. parse_tail. Qed.

Lemma register_err seen tag s e :
  SeenFileProperties_register seen tag s = Err e → e = NomError s Verify.
Proof.
  unfold SeenFileProperties_register. destruct (seen_mask tag); [|done].
  case_decide; congruence.
Qed.

Definition not_fuel (e : nom_err) : Prop := e ≠ OutOfFuel.

Lemma external_property_data_err a b c e :
  external_property_data a b c = Err e → not_fuel e.
Proof.
  unfold external_property_data, not_fuel.
  destruct (sevenzip_varuint64_decode b) as [[r x]|]; cbn; [|congruence].
  destruct (negb _); [congruence|]. destruct (usize_try_from x); cbn; [|congruence].
  destruct (get _ _); cbn; congruence.
Qed.

Lemma property_data_err a b c d e : property_data a b c d = Err e → not_fuel e.
Proof.
  unfold property_data. destruct (split_first b) as [[x y]|]; cbn; [|by intros [= <-]].
  case_decide; [by intros ->%bytes_subslice_verify|apply external_property_data_err].
Qed.

Lemma DefinedProperty_parse_err a b n c d e : DefinedProperty_parse a b n c d = Err e → not_fuel e.
Proof.
  unfold DefinedProperty_parse. destruct (split_first b) as [[x y]|]; cbn; [|by intros [= <-]].
  destruct (slice_from _ y); cbn; [|by intros [= <-]].
  destruct (property_data _ _ _ _) eqn:Ep; [done|]. intros [= <-]. by eapply property_data_err.
Qed.

Lemma parse_defined_values_err w a ad m d n e : parse_defined_values w a ad m d n = Err e → not_fuel e.
Proof.
  unfold parse_defined_values. rewrite repeat_n_nat. generalize (0, 0, @nil (option Z)).
  generalize (Z.to_nat n) as k. induction k as [|k IH]; intros st; cbn.
  - destruct st as [[i p] l]. case_decide; congruence.
  - destruct (defined_value_step w a ad m d st) eqn:Es; [apply IH|]. intros [= <-].
    destruct st as [[i p] l]. cbn in Es. destruct (_ || _); [|done].
    destruct (get_range _ _ _); cbn in Es; by simplify_eq.
Qed.

Lemma file_property_err b ext n i block tag f e :
  file_property b ext n i block tag f = Err e → not_fuel e.
Proof.
  assert (Hsub : ∀ k : slice → FilesInfo, (let? data := bytes_subslice b block i in Ok (k data)) = Err e → not_fuel e).
  { intros k. destruct (bytes_subslice _ _ _) eqn:Eb; [done|].
    apply bytes_subslice_verify in Eb as ->. by intros [= <-]. }
  assert (Hval : ∀ w (k : list (option Z) → FilesInfo), (let? p := DefinedProperty_parse i block n b ext in
    let? values := parse_defined_values w i (dp_all_defined p) (sl_data (dp_bitmap p))
      (sl_data (dp_values p)) n in Ok (k values)) = Err e → not_fuel e).
  { intros w k. destruct (DefinedProperty_parse _ _ _ _ _) as [p|] eqn:Ep;
      [|intros [= <-]; by eapply DefinedProperty_parse_err].
    destruct (parse_defined_values _ _ _ _ _ _) eqn:Ev; [done|].
    intros [= <-]. by eapply parse_defined_values_err. }
  unfold file_property, parse_defined_u64_values, parse_defined_u32_values.
  destruct tag; try done; try apply Hsub; try apply Hval.
  destruct (property_data _ _ _ _) as [d|] eqn:Ep; [|intros [= <-]; by eapply property_data_err].
  unfold validate_name_data. destruct (as_units _) as [us r].
  destruct (repeat_n _ _ _) as [[|]|], r; by intros [= <-].
Qed.

Lemma files_info_body_ok `{Nom} b ext n : tag_body_ok (files_info_body b ext n).
Proof.
  intros input tag [files seen] _ _. unfold files_info_body.
  destruct (SeenFileProperties_register _ _ _) as [seen'|] eqn:Es;
    [|apply register_err in Es as ->; done].
  parse_tail. match goal with
  | H : file_property _ _ _ _ _ _ _ = Err ?e |- _ =>
      apply file_property_err in H; by destruct e
  end.
Qed.

Lemma scan_files_info_body_ok `{Nom} n : tag_body_ok (scan_files_info_body n).
Proof. intros input tag st _ _. unfold scan_files_info_body. parse_tail. Qed.

#[export] Hint Resolve files_info_head_tail files_info_body_ok scan_files_info_body_ok : tail.

Lemma FilesInfo_parse_tail `{Nom} s b e : parses_tail s (FilesInfo_parse_with_external s b e).
Proof. unfold FilesInfo_parse_with_external. parse_tail. Qed.

Lemma scan_files_info_tail `{Nom} s : parses_tail s (scan_files_info_with_external s).
Proof. unfold scan_files_info_with_external. parse_tail. Qed.

#[export] Hint Resolve FilesInfo_parse_tail scan_files_info_tail : tail.

(** ** Lemmas: UTF-16 *)

(** [char::encode_utf16] and the scalar values. *)
Definition is_scalar (c : Z) : Prop := 0 ≤ c < 55296 ∨ 57344 ≤ c < 1114112.

Definition encode_utf16_char (c : Z) : list Z :=
  if decide (c < 65536) then [c]
  else [55296 + Z.shiftr (c - 65536) 10; 56320 + Z.land (c - 65536) 1023].

Definition encode_utf16 (s : list Z) : list Z := concat (map encode_utf16_char s).

Lemma land_1023 x : Z.land x 1023 = x mod 1024.
Proof. change 1023 with (Z.ones 10). by rewrite Z.land_ones by lia. Qed.

Lemma decode_encode_char c rest :
  is_scalar c →
  decode_utf16_lossy (encode_utf16_char c ++ rest) = c :: decode_utf16_lossy rest.
Proof.
  intros Hc. unfold encode_utf16_char. destruct (decide (c < 65536)) as [Hlt|Hge].
  - cbn. unfold is_surrogate. by rewrite bool_decide_eq_false_2 by (unfold is_scalar in Hc; lia).
  - set (x := c - 65536). assert (Hx : 0 ≤ x < 1048576) by (unfold is_scalar in Hc; lia).
    rewrite Z.shiftr_div_pow2, land_1023 by lia. change (2 ^ 10) with 1024.
    pose proof (Z.mod_pos_bound x 1024 ltac:(lia)) as Hm.
    assert (Hd : 0 ≤ x / 1024 < 1024).
    { split; [apply Z.div_pos; lia|apply Z.div_lt_upper_bound; lia]. }
    cbn [app decode_utf16_lossy]. unfold is_surrogate, is_low_surrogate.
    rewrite bool_decide_eq_true_2 by lia. rewrite bool_decide_eq_false_2 by lia.
    rewrite bool_decide_eq_true_2 by lia. f_equal.
    rewrite !land_1023.
    replace (55296 + x / 1024) with (x / 1024 + 54 * 1024) by lia.
    replace (56320 + x mod 1024) with (x mod 1024 + 55 * 1024) by lia.
    rewrite !Z.mod_add, !(Z.mod_small _ 1024) by lia.
    rewrite Z.lor_comm, Z.shiftl_mul_pow2, Z.mul_comm, lor_low_high by lia.
    change (2 ^ 10) with 1024. pose proof (Z.div_mod x 1024 ltac:(lia)). lia.
Qed.

Lemma decode_encode_utf16 s :
  Forall is_scalar s → decode_utf16_lossy (encode_utf16 s) = s.
Proof.
  unfold encode_utf16. induction 1 as [|c s Hc Hs IH]; [done|]. cbn [map concat].
  by rewrite decode_encode_char, IH.
Qed.

(** ** Lemmas: name blocks *)

(** A stored name: whole units, none of them null. *)
Definition raw_name_ok (b : bytes) : Prop := ∃ us, as_units b = (us, []) ∧ 0 ∉ us.

Definition encode_names (names : list bytes) : bytes :=
  concat (map (λ b, b ++ [0; 0]) names).

Lemma pair_ind (P : bytes → Prop) :
  P [] → (∀ x, P [x]) → (∀ a b l, P l → P (a :: b :: l)) → ∀ l, P l.
Proof.
  intros H0 H1 H2 l. assert (P l ∧ ∀ x, P (x :: l)) as [? _]; [|done].
  induction l as [|y l [IH1 IH2]]; split; auto.
Qed.

Lemma as_units_cons a b l :
  as_units (a :: b :: l) = (Z.lor a (Z.shiftl b 8) :: fst (as_units l), snd (as_units l)).
Proof. cbn. by destruct (as_units l). Qed.

Lemma as_units_app a b us :
  as_units a = (us, []) → as_units (a ++ b) = (us ++ fst (as_units b), snd (as_units b)).
Proof.
  revert us. induction a as [|x|x y a IH] using pair_ind; intros us.
  - intros [= <-]. cbn. by destruct (as_units b).
  - done.
  - rewrite as_units_cons. intros [= <- Hr]. cbn [app]. rewrite as_units_cons.
    rewrite (IH (fst (as_units a))) by (rewrite <- Hr; by destruct (as_units a)). done.
Qed.

Lemma unit_zero a b : Z.lor a (Z.shiftl b 8) = 0 ↔ a = 0 ∧ b = 0.
Proof.
  rewrite Z.lor_eq_0_iff, Z.shiftl_mul_pow2 by lia. lia.
Qed.

Lemma as_units_length b us : as_units b = (us, []) → length b = (2 * length us)%nat.
Proof.
  revert us. induction b as [|x|x y b IH] using pair_ind; intros us; [by intros [= <-]|done|].
  rewrite as_units_cons. intros [= <- Hr]. cbn.
  rewrite (IH (fst (as_units b))) by (rewrite <- Hr; by destruct (as_units b)). lia.
Qed.

Lemma skip_name_app us rest : 0 ∉ us → skip_name (us ++ 0 :: rest) = Some rest.
Proof.
  induction us as [|u us IH]; cbn; [done|]. rewrite not_elem_of_cons.
  intros [Hne Hus]. rewrite decide_False by done. by apply IH.
Qed.

Lemma skip_name_split d rest :
  skip_name (fst (as_units d)) = Some rest →
  ∃ b d', d = b ++ [0; 0] ++ d' ∧ raw_name_ok b ∧ as_units d' = (rest, snd (as_units d)).
Proof.
  induction d as [|x|x y d IH] using pair_ind; [done|done|].
  rewrite as_units_cons. cbn [fst snd skip_name].
  destruct (decide (Z.lor x (Z.shiftl y 8) = 0)) as [Hz|Hz].
  - apply unit_zero in Hz as [-> ->]. intros [= <-]. exists [], d. split; [done|].
    split; [exists []; split; [done|apply not_elem_of_nil]|]. by destruct (as_units d).
  - intros (b & d' & -> & (us & Hus & H0) & Hd')%IH. exists (x :: y :: b), d'.
    split; [done|]. split; [|done]. exists (Z.lor x (Z.shiftl y 8) :: us).
    rewrite as_units_cons, Hus. split; [done|]. apply not_elem_of_cons. split; [congruence|done].
Qed.

(** A name block is valid exactly when it holds that many terminated names. *)
Lemma validate_name_data_spec data n e :
  0 ≤ n →
  validate_name_data data n e = Ok tt ↔
  ∃ names, Forall raw_name_ok names ∧ zlen names = n ∧ data = encode_names names.
Proof.
  intros Hn. unfold validate_name_data. split.
  - destruct (as_units data) as [units r] eqn:Eu. rewrite repeat_n_nat.
    destruct (repeat_nat _ _ _) as [[|]|] eqn:Er; [|by destruct r|by destruct r].
    destruct r; [|done]. intros _.
    assert (∀ k data units, as_units data = (units, []) →
      repeat_nat (λ us, ok_or (skip_name us) tt) k units = Ok [] →
      ∃ names, Forall raw_name_ok names ∧ length names = k ∧ data = encode_names names) as Hk.
    { clear. induction k as [|k IH]; intros data units Hu Hr; cbn in Hr.
      - injection Hr as ->. apply as_units_length in Hu. exists [].
        split_and!; [constructor|done|]. by destruct data.
      - destruct (skip_name units) as [rest|] eqn:Es; cbn in Hr; [|done].
        assert (skip_name (fst (as_units data)) = Some rest) as Hs by (by rewrite Hu).
        apply skip_name_split in Hs as (b & d' & -> & Hb & Hd'). rewrite Hu in Hd'. cbn in Hd'.
        destruct (IH _ _ Hd' Hr) as (names & Hnames & <- & ->).
        exists (b :: names). split_and!; [by constructor|done|].
        unfold encode_names. cbn. by rewrite <- app_assoc. }
    destruct (Hk _ _ _ Eu Er) as (names & ? & Hl & ?). exists names.
    split_and!; [done|unfold zlen; lia|done].
  - intros (names & Hnames & <- & ->).
    assert (∃ units, as_units (encode_names names) = (units, []) ∧
      repeat_nat (λ us, ok_or (skip_name us) tt) (length names) units = Ok []) as (us & -> & Hr).
    { induction Hnames as [|b names Hb Hns IHn]; [by exists []|].
      destruct Hb as (us & Hus & H0), IHn as (units & IH & Hr); [unfold zlen in *; lia|].
      exists (us ++ 0 :: units). split.
      - unfold encode_names. cbn. rewrite <- app_assoc.
        rewrite (as_units_app _ _ us Hus). cbn [app]. rewrite as_units_cons.
        fold (encode_names names). by rewrite IH.
      - cbn [repeat_nat length]. by rewrite skip_name_app. }
    unfold zlen. rewrite repeat_n_of_nat, Hr. done.
Qed.

(** ** Lemmas: the name iterator *)

Lemma get_app_r {A} (pre l : list A) i : 0 ≤ i → get (zlen pre + i) (pre ++ l) = get i l.
Proof.
  intros Hi. unfold get, zlen. rewrite !decide_True by lia.
  rewrite lookup_app_r by lia. f_equal. lia.
Qed.

Lemma name_end_spec fuel pre b post :
  raw_name_ok b → (length b < fuel)%nat →
  name_end fuel (pre ++ b ++ 0 :: 0 :: post) (zlen pre) =
    (Some (zlen pre + zlen b), zlen pre + zlen b + 2).
Proof.
  intros (us & Hus & H0). revert fuel pre us Hus H0.
  induction b as [|x|x y b IH] using pair_ind; intros fuel pre us Hus H0 Hf;
    [|done|]; destruct fuel as [|fuel]; try (cbn in Hf; lia); cbn [name_end].
  - rewrite decide_True by (rewrite !zlen_app, !zlen_cons; pose proof (zlen_nonneg post);
      change (zlen (@nil Z)) with 0; lia).
    pose proof (get_app_r pre ([] ++ 0 :: 0 :: post) 0 ltac:(lia)) as E0.
    rewrite Z.add_0_r in E0. rewrite E0, get_app_r by lia.
    change (zlen (@nil Z)) with 0. rewrite bool_decide_eq_true_2 by done. f_equal; [f_equal|]; lia.
  - rewrite as_units_cons in Hus. injection Hus as <- Hr. apply not_elem_of_cons in H0 as [Hu H0].
    rewrite decide_True by (rewrite !zlen_app, !zlen_cons; pose proof (zlen_nonneg b);
      pose proof (zlen_nonneg post); lia).
    pose proof (get_app_r pre ((x :: y :: b) ++ 0 :: 0 :: post) 0 ltac:(lia)) as E0.
    rewrite Z.add_0_r in E0. rewrite E0, get_app_r by lia.
    rewrite bool_decide_eq_false_2.
    2:{ cbn. intros [[= ->] [= ->]]. apply Hu. done. }
    specialize (IH fuel (pre ++ [x; y]) (fst (as_units b))).
    rewrite <- app_assoc in IH. cbn [app] in IH. rewrite zlen_app in IH.
    change (zlen [x; y]) with 2 in IH. cbn [app]. rewrite IH; [|by destruct (as_units b); cbn in *; subst|done|cbn in Hf; lia].
    rewrite !zlen_cons. f_equal; [f_equal|]; lia.
Qed.

Lemma first_bytes_mid a (pre b post : bytes) :
  first_bytes (zlen b) (advance (zlen pre) (Slice a (pre ++ b ++ post))) = Slice (a + zlen pre) b.
Proof. rewrite advance_app by done. by apply first_bytes_app. Qed.

(** One step of the iterator on a well-formed name block. *)
Lemma name_slices_next_spec a pre b post count index :
  raw_name_ok b → index < count →
  FilesInfoNameSlices_next {| ns_data := Slice a (pre ++ b ++ 0 :: 0 :: post);
    ns_count := count; ns_position := zlen pre; ns_index := index |} =
  (Some (Some (Slice (a + zlen pre) b)),
   {| ns_data := Slice a ((pre ++ b ++ [0; 0]) ++ post); ns_count := count;
      ns_position := zlen (pre ++ b ++ [0; 0]); ns_index := index + 1 |}).
Proof.
  intros Hb Hi. unfold FilesInfoNameSlices_next. cbn [ns_count ns_index ns_data ns_position].
  rewrite decide_False by lia.
  rewrite decide_False.
  2:{ intros [He|He].
      - unfold sl_empty in He. cbn in He. by destruct pre, b.
      - unfold sl_len in He. cbn in He. rewrite !zlen_app, !zlen_cons in He.
        pose proof (zlen_nonneg b). pose proof (zlen_nonneg post). lia. }
  cbn [sl_data]. rewrite name_end_spec; [|done|rewrite !length_app; cbn; lia].
  cbn [mbind option_bind]. rewrite Z.add_simpl_l, first_bytes_mid.
  rewrite <- !app_assoc. cbn [app]. rewrite !zlen_app. change (zlen [0; 0]) with 2.
  by rewrite Z.add_assoc.
Qed.

Lemma name_slices_collect_spec a pre names index :
  Forall raw_name_ok names →
  map (fmap sl_data) (name_slices_collect (length names)
    {| ns_data := Slice a (pre ++ encode_names names); ns_count := index + zlen names;
       ns_position := zlen pre; ns_index := index |}) = map Some names.
Proof.
  intros Hn. revert pre index. induction Hn as [|b names Hb Hn IH]; intros pre index; [done|].
  cbn [length name_slices_collect]. rewrite zlen_cons.
  assert (encode_names (b :: names) = b ++ 0 :: 0 :: encode_names names) as ->
    by (unfold encode_names; cbn; by rewrite <- app_assoc).
  rewrite name_slices_next_spec by (try done; pose proof (zlen_nonneg names); lia).
  cbn [map fmap option_fmap option_map sl_data]. f_equal.
  replace (index + (1 + zlen names)) with ((index + 1) + zlen names) by lia. apply IH.
Qed.

(** Every name of a valid block is iterated, in order and decoded. *)
Lemma FilesInfo_names_spec f names :
  Forall raw_name_ok names → sl_data (name_data f) = encode_names names →
  fi_num_files f = zlen names →
  FilesInfo_names f = map decode_name names.
Proof.
  intros Hn Hd Hc. unfold FilesInfo_names, FilesInfo_name_slices. rewrite Hc, to_nat_zlen.
  destruct (name_data f) as [a data]. cbn in Hd. subst data.
  pose proof (name_slices_collect_spec a [] names 0 Hn) as H.
  rewrite Z.add_0_l in H. cbn [app zlen length Z.of_nat] in H.
  change (zlen (@nil Z)) with 0 in H.
  revert H. generalize (name_slices_collect (length names)
    {| ns_data := Slice a (encode_names names); ns_count := zlen names;
       ns_position := 0; ns_index := 0 |}).
  clear. revert names. intros names l. revert names.
  induction l as [|[s|] l IH]; intros [|b names]; cbn; try done.
  intros [= <- H]. f_equal. by apply IH.
Qed.

(** ** Lemmas: the empty-stream ordinals *)

Lemma count_set_S m k : 0 ≤ k → count_set m (k + 1) = count_set m k + if bitmap_is_set m k then 1 else 0.
Proof.
  intros Hk. unfold count_set. rewrite seqZ_app by lia. rewrite filter_app, zlen_app, Z.add_0_l.
  change (seqZ k 1) with [k]. rewrite filter_cons.
  by destruct (bitmap_is_set m k); [rewrite decide_True by done|rewrite decide_False by done].
Qed.

Lemma ordinals_loop_spec m n i k :
  0 ≤ i → ordinals_loop m n i (count_set m i) !! k =
    if decide (k < n)%nat then
      Some (if bitmap_is_set m (i + Z.of_nat k)
            then Some (count_set m (i + Z.of_nat k)) else None)
    else None.
Proof.
  revert i k. induction n as [|n IH]; intros i k Hi; [done|]. cbn [ordinals_loop].
  pose proof (count_set_S m i Hi) as HS.
  destruct k as [|k].
  - rewrite Z.add_0_r, decide_True by lia. by destruct (bitmap_is_set m i).
  - replace (i + Z.of_nat (S k)) with (i + 1 + Z.of_nat k) by lia.
    destruct (bitmap_is_set m i).
    + cbn [lookup list_lookup]. rewrite <- HS, IH by lia. repeat case_decide; done || lia.
    + cbn [lookup list_lookup]. rewrite Z.add_0_r in HS. rewrite <- HS, IH by lia.
      repeat case_decide; done || lia.
Qed.

(** The ordinal of an empty stream is the number of empty streams before it. *)
Lemma empty_stream_ordinals_spec m n k :
  compute_empty_stream_ordinals m n !! k =
    if decide (Z.of_nat k < n) then
      Some (if bitmap_is_set m (Z.of_nat k) then Some (count_set m (Z.of_nat k)) else None)
    else None.
Proof.
  unfold compute_empty_stream_ordinals. change 0 with (count_set m 0) at 2.
  rewrite ordinals_loop_spec by lia. rewrite Z.add_0_l.
  destruct (decide (Z.of_nat k < n)); [rewrite decide_True by lia|rewrite decide_False by lia]; done.
Qed.

(** ** Lemmas: the parser against the scanner *)

Lemma external_property_data_nil a b d : external_property_data a b [] ≠ Ok d.
Proof.
  unfold external_property_data.
  destruct (sevenzip_varuint64_decode b) as [[r x]|]; cbn; [|done].
  destruct (negb _); [done|]. destruct (usize_try_from x); cbn; [|done].
  unfold get. case_decide; cbn; [|done]. by rewrite lookup_nil.
Qed.

Lemma property_data_inline i p b d :
  property_data i p b [] = Ok d → ∃ rest, sl_data p = 0 :: rest.
Proof.
  unfold property_data, split_first. destruct (sl_data p) as [|x rest]; cbn; [done|].
  case_decide; [subst; by exists rest|]. by intros ?%external_property_data_nil.
Qed.

Lemma defined_property_flag i block n b p :
  0 ≤ n ≤ u64_max →
  DefinedProperty_parse i block n b [] = Ok p →
  (index ← checked_sub (match get 0 (sl_data block) with
                        | Some value => if decide (value = 0) then 2 + div_ceil n 8 else 2
                        | None => usize_max end) 1; get index (sl_data block)) = Some 0.
Proof.
  intros Hn. unfold DefinedProperty_parse, split_first.
  destruct (sl_data block) as [|ad rest] eqn:Eb; cbn; [done|].
  destruct (slice_from _ _) as [r|] eqn:Es; cbn; [|done].
  destruct (property_data i r b []) as [v|] eqn:Ep; [|done]. intros _.
  apply property_data_inline in Ep as [tl Htl].
  assert (Hc : 0 ≤ div_ceil n 8) by (apply Z.div_pos; lia).
  unfold slice_from in Es. case_decide as Hr; [|done]. injection Es as <-.
  set (bl := if decide (ad = 0) then div_ceil n 8 else 0) in *.
  rewrite advance_advance in Htl by lia. cbn in Htl. rewrite Eb in Htl.
  assert (Hlk : get (1 + bl) (ad :: rest) = Some 0).
  { unfold get. rewrite decide_True by lia.
    rewrite <- (Nat.add_0_r (Z.to_nat (1 + bl))), <- lookup_drop.
    by rewrite Htl. }
  change (get 0 (ad :: rest)) with (Some ad). cbv iota.
  unfold checked_sub, bl in *. destruct (decide (ad = 0)).
  - rewrite decide_True by lia. cbn [mbind option_bind].
    by replace (2 + div_ceil n 8 - 1) with (1 + div_ceil n 8) by lia.
  - rewrite decide_True by lia. done.
Qed.

(** A block the parser accepts without external data has no external flag. *)
Lemma file_property_flag b n i block tag f f' :
  0 ≤ n ≤ u64_max →
  file_property b [] n i block tag f = Ok f' →
  external_flag n tag (sl_data block) = None ∨ external_flag n tag (sl_data block) = Some 0.
Proof.
  intros Hn. unfold file_property, external_flag. destruct tag; try (by left).
  - destruct (property_data _ _ _ _) as [d|] eqn:Ep; [|done]. intros _. right.
    apply property_data_inline in Ep as [rest ->]. done.
  - destruct (DefinedProperty_parse _ _ _ _ _) eqn:Ep; [|done]. intros _. right.
    by eapply defined_property_flag.
  - destruct (DefinedProperty_parse _ _ _ _ _) eqn:Ep; [|done]. intros _. right.
    by eapply defined_property_flag.
  - destruct (DefinedProperty_parse _ _ _ _ _) eqn:Ep; [|done]. intros _. right.
    by eapply defined_property_flag.
  - destruct (DefinedProperty_parse _ _ _ _ _) eqn:Ep; [|done]. intros _. right.
    by eapply defined_property_flag.
  - destruct (DefinedProperty_parse _ _ _ _ _) eqn:Ep; [|done]. intros _. right.
    by eapply defined_property_flag.
Qed.

Lemma files_info_head_inv s r num n :
  byte_slice s → files_info_head s = Ok (r, (num, n)) → n = num ∧ is_u64 num.
Proof.
  intros Hs. unfold files_info_head. pose proof (PropertyId_parse_tail s) as Ht.
  destruct (PropertyId_parse s) as [[s1 t]|]; [|done]. cbn in Ht. case_decide; [done|].
  destruct (sevenzip_varuint64_decode s1) as [[s2 a]|] eqn:E; [|done].
  apply varuint_decode_u64 in E as [Ha _]; [|by eapply byte_slice_suffix].
  rewrite usize_try_from_u64 by done. cbn. by intros [= _ <- <-].
Qed.

(** The property loop keeps the file count. *)
Lemma set_files_num f tag d v : fi_num_files (set_files f tag d v) = fi_num_files f.
Proof. done. Qed.

Lemma file_property_num b ext n i block tag f f' :
  file_property b ext n i block tag f = Ok f' → fi_num_files f' = fi_num_files f.
Proof.
  unfold file_property. intros H.
  destruct tag; try (by injection H as <-);
    repeat match type of H with
    | (match ?x with Ok _ => _ | Err _ => _ end) = _ => destruct x; [|done]
    end; by injection H as <-.
Qed.

(** The scanner accepts every listing the parser accepts, counts its files, and
    asks for external data only when the parser needs it. *)
Lemma files_info_scan `{Nom} s backing ext r f :
  byte_slice s → FilesInfo_parse_with_external s backing ext = Ok (r, f) →
  ∃ b, scan_files_info_with_external s = Ok (r, (fi_num_files f, b)) ∧ (ext = [] → b = false).
Proof.
  intros Hs. unfold FilesInfo_parse_with_external, scan_files_info_with_external.
  destruct (files_info_head s) as [[s1 [num n]]|] eqn:Eh; [|done].
  apply files_info_head_inv in Eh as [-> Hn]; [|done].
  destruct (run_tag_loop _ _ _) as [[s2 [files seen]]|] eqn:El; [|done].
  intros [= <- <-]. cbn [fi_num_files fst].
  apply (run_tag_loop_ok_sim (λ (st : FilesInfo * Z) b,
    fi_num_files (fst st) = num ∧ (ext = [] → b = false)) _ (scan_files_info_body num) _ _ false)
    in El as (b & -> & Hnum & Hb).
  - exists b. cbn in Hnum. by rewrite Hnum.
  - clear -Hn. intros input tag [f seen] b r [f' seen'] [Hnum Hb].
    unfold files_info_body, scan_files_info_body.
    destruct (SeenFileProperties_register _ _ _); [|done].
    destruct (sevenzip_varuint64_decode _) as [[i1 size]|]; [|done].
    destruct (usize_try_from size); cbn [ok_or]; [|done].
    destruct (nom_take _ _) as [[i2 block]|]; [|done].
    destruct (file_property _ _ _ _ _ _ _) as [f1|] eqn:Ef; [|done].
    intros [= <- <- <-]. eexists. split; [done|]. cbn in *. split.
    + by rewrite (file_property_num _ _ _ _ _ _ _ _ Ef).
    + intros ->. rewrite Hb by done.
      apply file_property_flag in Ef as [->| ->]; [done|done|]. destruct Hn. lia.
  - by split.
Qed.

(** ** Lemmas: what a parsed listing guarantees *)

Definition names_ok (d : bytes) (n : Z) : Prop :=
  d = [] ∨ ∃ names, Forall raw_name_ok names ∧ zlen names = n ∧ d = encode_names names.

Definition column_ok {A} (n : Z) (l : list A) : Prop := l = [] ∨ zlen l = n.

Record files_wf (f : FilesInfo) : Prop := {
  fw_num : is_u64 (fi_num_files f);
  fw_names : names_ok (sl_data (name_data f)) (fi_num_files f);
  fw_ctimes : column_ok (fi_num_files f) (ctimes f);
  fw_atimes : column_ok (fi_num_files f) (atimes f);
  fw_mtimes : column_ok (fi_num_files f) (mtimes f);
  fw_starts : column_ok (fi_num_files f) (start_positions f);
  fw_attributes : column_ok (fi_num_files f) (attributes f)
}.

Lemma parse_defined_values_len w a ad m d n vs :
  0 ≤ n → parse_defined_values w a ad m d n = Ok vs → zlen vs = n.
Proof.
  intros Hn. unfold parse_defined_values. rewrite repeat_n_nat.
  destruct (repeat_nat _ _ _) as [[[i p] l]|] eqn:Er; [|done]. case_decide; [done|].
  intros [= <-].
  apply (repeat_nat_ind _ (λ j '(_, _, l), zlen l = Z.of_nat j)) with (i := 0%nat) in Er;
    [lia| |done].
  clear. intros j [[i p] l] [[i' p'] l'] Hl. unfold defined_value_step.
  destruct (_ || _); [destruct (get_range _ _ _); cbn; [|done]|];
    intros [= _ _ <-]; rewrite zlen_app, zlen_cons, zlen_nil; lia.
Qed.

Lemma file_property_wf b ext n i block tag f f' :
  is_u64 n → fi_num_files f = n → files_wf f →
  file_property b ext n i block tag f = Ok f' → files_wf f'.
Proof.
  intros Hn Hf [Hnum Hnames Hc Ha Hm Hs Hat] Hp.
  assert (Hval : ∀ w, (let? p := DefinedProperty_parse i block n b ext in
    let? values := parse_defined_values w i (dp_all_defined p) (sl_data (dp_bitmap p))
      (sl_data (dp_values p)) n in Ok (set_files f tag Bytes_new values)) = Ok f' →
    ∃ vs, zlen vs = n ∧ f' = set_files f tag Bytes_new vs).
  { intros w. destruct (DefinedProperty_parse _ _ _ _ _) as [p|]; [|done].
    destruct (parse_defined_values _ _ _ _ _ _) as [vs|] eqn:Ev; [|done]. intros [= <-].
    exists vs. split; [|done]. eapply parse_defined_values_len; [|done]. by destruct Hn. }
  unfold file_property in Hp. destruct tag; try (by injection Hp as <-; split).
  - destruct (bytes_subslice _ _ _); [|done]. injection Hp as <-. by split.
  - destruct (bytes_subslice _ _ _); [|done]. injection Hp as <-. by split.
  - destruct (bytes_subslice _ _ _); [|done]. injection Hp as <-. by split.
  - destruct (property_data _ _ _ _) as [d|]; [|done].
    destruct (validate_name_data _ _ _) as [[]|] eqn:Ev; [|done]. injection Hp as <-.
    apply validate_name_data_spec in Ev; [|by destruct Hn].
    split; try done. right. cbn. by rewrite Hf.
  - apply Hval in Hp as (vs & Hvs & ->). split; try done. right. cbn. by rewrite Hf.
  - apply Hval in Hp as (vs & Hvs & ->). split; try done. right. cbn. by rewrite Hf.
  - apply Hval in Hp as (vs & Hvs & ->). split; try done. right. cbn. by rewrite Hf.
  - apply Hval in Hp as (vs & Hvs & ->). split; try done. right. cbn. by rewrite Hf.
  - apply Hval in Hp as (vs & Hvs & ->). split; try done. right. cbn. by rewrite Hf.
Qed.

Lemma FilesInfo_parse_wf `{Nom} s backing ext r f :
  byte_slice s → FilesInfo_parse_with_external s backing ext = Ok (r, f) →
  files_wf f ∧
  empty_stream_ordinals f =
    compute_empty_stream_ordinals (sl_data (empty_streams f)) (fi_num_files f).
Proof.
  intros Hs. unfold FilesInfo_parse_with_external.
  destruct (files_info_head s) as [[s1 [num n]]|] eqn:Eh; [|done].
  apply files_info_head_inv in Eh as [-> Hn]; [|done].
  destruct (run_tag_loop _ _ _) as [[s2 [files seen]]|] eqn:El; [|done].
  apply (run_tag_loop_inv (λ st, fi_num_files (fst st) = num ∧ files_wf (fst st))) in El
    as [Hnum Hwf].
  - intros [= _ <-]. cbn in *. split; [by destruct Hwf|by rewrite Hnum].
  - clear -Hn. intros input tag [f seen] r [f' seen'] [Hnum Hwf]. unfold files_info_body.
    destruct (SeenFileProperties_register _ _ _); [|done].
    destruct (sevenzip_varuint64_decode _) as [[i1 size]|]; [|done].
    destruct (usize_try_from size); cbn [ok_or]; [|done].
    destruct (nom_take _ _) as [[i2 block]|]; [|done].
    destruct (file_property _ _ _ _ _ _ _) as [f1|] eqn:Ef; [|done].
    intros [= _ <- _]. cbn in *. split.
    + by rewrite (file_property_num _ _ _ _ _ _ _ _ Ef).
    + by eapply file_property_wf.
  - cbn. split; [done|]. split; cbn; try done; by left.
Qed.

(** ** Properties *)

(** A name block is accepted exactly when it is the given number of names, each
    of whole UTF-16 units without a NUL and ended by one: no name is missing, no
    byte is left over. *)
Theorem name_block_validated data n e :
  0 ≤ n →
  validate_name_data data n e = Ok tt ↔
  ∃ names, Forall raw_name_ok names ∧ zlen names = n ∧ data = encode_names names.
Proof. apply validate_name_data_spec. Qed.

(** A parsed listing is well formed, and its names are those of its name block
    in order: the iterator cuts the block at the terminators and yields one decoded
    name per file, when the listing has names. *)
Theorem parsed_names_listed `{Nom} s backing ext r f :
  byte_slice s → FilesInfo_parse_with_external s backing ext = Ok (r, f) →
  files_wf f ∧
  (sl_data (name_data f) ≠ [] →
   ∃ names, Forall raw_name_ok names ∧ zlen names = fi_num_files f ∧
     sl_data (name_data f) = encode_names names ∧ FilesInfo_names f = map decode_name names).
Proof.
  intros Hs Hp. destruct (FilesInfo_parse_wf s backing ext r f Hs Hp) as [Hwf _].
  split; [done|]. intros Hne.
  destruct (fw_names f Hwf) as [Hnil|(names & Hok & Hlen & Hd)]; [by destruct Hne|].
  exists names. split; [done|]. split; [done|]. split; [done|]. by apply FilesInfo_names_spec.
Qed.

(** The scan of the file section that avoids building the listing accepts what
    the parser accepts, stops where it stops, counts the files it counts, and says
    that nothing is external when the parser needed nothing external. *)
Theorem files_scan_matches_parse `{Nom} s backing ext r f :
  byte_slice s → FilesInfo_parse_with_external s backing ext = Ok (r, f) →
  ∃ b, scan_files_info_with_external s = Ok (r, (fi_num_files f, b)) ∧ (ext = [] → b = false).
Proof. apply files_info_scan. Qed.

(** The ordinal of a file without data is the number of such files before it,
    so that the empty-file and anti-item bitmaps are indexed within range; a file
    with data has none. *)
Theorem empty_stream_ordinals_count `{Nom} s backing ext r f k :
  byte_slice s → FilesInfo_parse_with_external s backing ext = Ok (r, f) →
  0 ≤ k < fi_num_files f →
  FilesInfo_empty_stream_ordinal f k =
    if FilesInfo_is_empty_stream f k
    then Some (zlen (filter (λ i, FilesInfo_is_empty_stream f i = true) (seqZ 0 k))) else None.
Proof.
  intros Hs Hp Hk. destruct (FilesInfo_parse_wf s backing ext r f Hs Hp) as [_ Ho].
  unfold FilesInfo_empty_stream_ordinal. rewrite Ho. unfold get. rewrite decide_True by lia.
  rewrite empty_stream_ordinals_spec, Z2Nat.id, decide_True by lia.
  unfold FilesInfo_is_empty_stream, count_set. by destruct (bitmap_is_set _ k).
Qed.

(** ** Witnesses *)

(** Two names, and three files of which the first and the last have no data. *)
Definition sample_names : bytes := [97; 0; 0; 0; 98; 0; 99; 0; 0; 0].
Definition sample_files_block : slice :=
  Slice 64 [5; 3; 14; 1; 160; 17; 13; 0; 97; 0; 0; 0; 98; 0; 0; 0; 99; 0; 0; 0; 0; 55].

Lemma name_block_validated_witness :
  ∃ names, Forall raw_name_ok names ∧ zlen names = 2 ∧ sample_names = encode_names names.
Proof.
  apply (name_block_validated sample_names 2 (Slice 0 [])); [lia|vm_compute; reflexivity].
Defined.

Lemma parsed_names_listed_witness :
  ∃ r f, FilesInfo_parse_with_external sample_files_block sample_files_block [] = Ok (r, f) ∧
    files_wf f ∧ ∃ names, Forall raw_name_ok names ∧ zlen names = fi_num_files f ∧
      FilesInfo_names f = map decode_name names.
Proof.
  destruct (FilesInfo_parse_with_external sample_files_block sample_files_block [])
    as [[r f]|e] eqn:E; [|vm_compute in E; discriminate E].
  exists r, f. split; [reflexivity|].
  destruct (parsed_names_listed sample_files_block sample_files_block [] r f) as [Hwf Hn].
  - repeat constructor; vm_compute; done.
  - exact E.
  - split; [exact Hwf|]. destruct Hn as (names & H1 & H2 & _ & H3).
    + vm_compute in E. injection E as _ <-. discriminate.
    + exists names. split; [exact H1|split; [exact H2|exact H3]].
Defined.

Lemma files_scan_matches_parse_witness :
  scan_files_info_with_external sample_files_block = Ok (Slice 85 [55], (3, false)).
Proof.
  destruct (FilesInfo_parse_with_external sample_files_block sample_files_block [])
    as [[r f]|e] eqn:E; [|vm_compute in E; discriminate E].
  destruct (files_scan_matches_parse sample_files_block sample_files_block [] r f) as (b & Hs & Hb).
  - repeat constructor; vm_compute; done.
  - exact E.
  - rewrite Hs, Hb by reflexivity. vm_compute in E. injection E as <- <-. reflexivity.
Defined.

Lemma empty_stream_ordinals_count_witness :
  ∃ r f, FilesInfo_parse_with_external sample_files_block sample_files_block [] = Ok (r, f) ∧
    FilesInfo_empty_stream_ordinal f 2 = Some 1.
Proof.
  destruct (FilesInfo_parse_with_external sample_files_block sample_files_block [])
    as [[r f]|e] eqn:E; [|vm_compute in E; discriminate E].
  exists r, f. split; [reflexivity|].
  rewrite (empty_stream_ordinals_count sample_files_block sample_files_block [] r f 2).
  - vm_compute in E. injection E as _ <-. vm_compute. reflexivity.
  - repeat constructor; vm_compute; done.
  - exact E.
  - vm_compute in E. injection E as _ <-. vm_compute. split; congruence.
Defined.
