(* ===== verification/Aes.v ===== *)
(** * AES-256-SHA-256 (src/src/aes.rs)

    The coder properties, the key derivation, and the streaming CBC reader and
    writer with their padding, over an arbitrary hash and block cipher. *)

From stdpp Require Import base numbers list option strings.
From Stdlib Require Import ZArith Lia.
From S2P Require Import Prelude Parsers Error Operation Readers FilesInfo Resources.

(** ** The cryptography the code calls *)

(** SHA-256 of all that an incremental hasher was fed. *)
Class Sha256 := {
  sha256 : bytes → bytes;
  sha256_len : ∀ b, zlen (sha256 b) = 32
}.

(** The [cbc] crate over [Aes256]: a key and an initialization vector give an
    encryptor or decryptor, whose state every block changes. *)
Class BlockCipher := {
  cbc_enc : Type;
  cbc_dec : Type;
  enc_new : bytes → bytes → cbc_enc;
  dec_new : bytes → bytes → cbc_dec;
  encrypt_block : cbc_enc → bytes → bytes * cbc_enc;
  decrypt_block : cbc_dec → bytes → bytes * cbc_dec
}.

Fixpoint run_blocks {C} (step : C → bytes → bytes * C) (st : C) (blocks : list bytes) :
    list bytes * C :=
  match blocks with
  | [] => ([], st)
  | b :: blocks =>
      let '(out, st) := step st b in
      let '(outs, st) := run_blocks step st blocks in (out :: outs, st)
  end.

Definition is_block (b : bytes) : Prop := zlen b = 16.

(** The documented behaviour of CBC: blocks encrypt to blocks, and decrypting with
    the same key and vector gives them back. *)
Definition cbc_inverse `{BlockCipher} : Prop :=
  ∀ key iv blocks, zlen key = 32 → is_block iv → Forall is_block blocks →
    let out := fst (run_blocks encrypt_block (enc_new key iv) blocks) in
    Forall is_block out ∧ fst (run_blocks decrypt_block (dec_new key iv) out) = blocks.

(** ** Properties *)

Definition MAX_AES_NUM_CYCLES_POWER : Z := 24.
Definition CIPHERTEXT_BUFFER_SIZE : Z := 8192.

Record AesProperties := { ap_num_cycles_power : Z; ap_salt : bytes; ap_iv : bytes }.

Definition bool_to_Z (b : bool) : Z := if b then 1 else 0.

(** An initialization vector padded with zeros to its 16 bytes. *)
Definition pad_iv (iv : bytes) : bytes := iv ++ replicate (16 - length iv) 0.

Definition AesProperties_parse (props : bytes) : result AesProperties R7zError :=
  match props with
  | [] => Err Decompression
  | byte0 :: props =>
      let num_cycles_power := Z.land byte0 63 in
      let has_salt := negb (Z.land (Z.shiftr byte0 7) 1 =? 0) in
      let has_iv := negb (Z.land (Z.shiftr byte0 6) 1 =? 0) in
      let? (sizes, rest) :=
        (if has_salt || has_iv then
           match props with
           | [] => Err Decompression
           | byte1 :: rest =>
               Ok ((bool_to_Z has_salt + Z.shiftr byte1 4, bool_to_Z has_iv + Z.land byte1 15), rest)
           end
         else Ok ((0, 0), props)) in
      let '(salt_size, iv_size) := sizes in
      if decide (zlen rest < salt_size + iv_size) then Err Decompression else
      Ok {| ap_num_cycles_power := num_cycles_power;
            ap_salt := take (Z.to_nat salt_size) rest;
            ap_iv := pad_iv (take (Z.to_nat iv_size) (drop (Z.to_nat salt_size) rest)) |}
  end.

(** The assertions panic. *)
Definition encode_aes_properties (num_cycles_power : Z) (salt iv : bytes) : result bytes R7zError :=
  if decide (16 < zlen salt ∨ 16 < zlen iv) then Err R7zPanic else
  let has_salt := negb (bool_decide (salt = [])) in
  let has_iv := negb (bool_decide (iv = [])) in
  let byte0 := Z.lor (Z.lor (Z.land num_cycles_power 63) (if has_salt then 128 else 0))
                     (if has_iv then 64 else 0) in
  Ok ([byte0] ++
      if has_salt || has_iv then
        let salt_extra := saturating_sub (zlen salt) (bool_to_Z has_salt) in
        let iv_extra := saturating_sub (zlen iv) (bool_to_Z has_iv) in
        [Z.lor (Z.shiftl salt_extra 4) iv_extra] ++ salt ++ iv
      else []).

(** ** Key derivation *)

Definition check_control (control : option OperationControl) :
    result unit R7zError * option OperationControl :=
  match control with
  | None => (Ok tt, None)
  | Some control => let '(r, control) := OperationControl_check control in (r, Some control)
  end.

Definition password_bytes (password : list Z) : bytes :=
  concat (map (to_le_bytes 2) (encode_utf16 password)).

(** The rounds of the loop, from the [i]-th on; [hashed] is what the hasher was fed. *)
Fixpoint derive_rounds (rounds : nat) (i : Z) (prefix hashed : bytes)
    (control : option OperationControl) : result bytes R7zError * option OperationControl :=
  match rounds with
  | O => (Ok hashed, control)
  | S rounds =>
      let '(checked, control) :=
        if decide (i mod 1024 = 0) then check_control control else (Ok tt, control) in
      match checked with
      | Err e => (Err e, control)
      | Ok _ => derive_rounds rounds (i + 1) prefix (hashed ++ prefix ++ to_le_bytes 8 i) control
      end
  end.

Definition derive_key_with_control `{Sha256} (password : list Z) (salt : bytes)
    (num_cycles_power : Z) (control : option OperationControl) :
    result bytes R7zError * option OperationControl :=
  match check_control control with
  | (Err e, control) => (Err e, control)
  | (Ok _, control) =>
      if decide (num_cycles_power = 63) then
        let total := salt ++ password_bytes password in
        let key := take 32 total in
        (Ok (key ++ replicate (32 - length key) 0), control)
      else if decide (MAX_AES_NUM_CYCLES_POWER < num_cycles_power) then (Err Decompression, control)
      else
        let rounds := Z.to_nat (Z.shiftl 1 num_cycles_power) in
        match derive_rounds rounds 0 (salt ++ password_bytes password) [] control with
        | (Err e, control) => (Err e, control)
        | (Ok hashed, control) =>
            match check_control control with
            | (Err e, control) => (Err e, control)
            | (Ok _, control) => (Ok (sha256 hashed), control)
            end
        end
  end.

(** The cycles a derivation is charged (src/src/codec.rs, [aes_coder_reader]). *)
Definition kdf_cycles (num_cycles_power : Z) : result Z R7zError :=
  if decide (num_cycles_power = 63) then Ok 0
  else if decide (num_cycles_power ≤ MAX_AES_NUM_CYCLES_POWER)
  then Ok (Z.shiftl 1 num_cycles_power) else Err Decompression.

(** ** Decryption *)

Definition encrypted_size_for_plaintext (size : Z) : result Z R7zError :=
  if decide (size = 0) then Ok 16
  else let? size := ok_or (checked_add size 15) Decompression in Ok (size / 16 * 16).

(** [ad_retries] bounds, in the model, how often one read is retried when it is
    interrupted. *)
Record Aes256CbcDecryptReader `{BlockCipher} (S : Type) := {
  ad_inner : S;
  ad_cipher : cbc_dec;
  ad_plaintext : bytes;
  ad_plaintext_position : Z;
  ad_plaintext_length : Z;
  ad_plaintext_size : option Z;
  ad_plaintext_read : Z;
  ad_ciphertext_size : option Z;
  ad_ciphertext_read : Z;
  ad_expected_ciphertext_size : option Z;
  ad_finished : bool;
  ad_retries : nat
}.
Arguments ad_inner {_ S}. Arguments ad_cipher {_ S}. Arguments ad_plaintext {_ S}.
Arguments ad_plaintext_position {_ S}. Arguments ad_plaintext_length {_ S}.
Arguments ad_plaintext_size {_ S}. Arguments ad_plaintext_read {_ S}.
Arguments ad_ciphertext_size {_ S}. Arguments ad_ciphertext_read {_ S}.
Arguments ad_expected_ciphertext_size {_ S}. Arguments ad_finished {_ S}.
Arguments ad_retries {_ S}.

Section decrypt.
  Context `{BlockCipher} {S : Type} `{Reader S}.
Abbreviation reader := (Aes256CbcDecryptReader S).

Definition Aes256CbcDecryptReader_new (retries : nat) (inner : S) (key iv : bytes)
    (ciphertext_size plaintext_size : option Z) : result reader R7zError :=
  if match ciphertext_size with Some size => bool_decide (size mod 16 ≠ 0) | None => false end
  then Err Decompression else
  let? padded_plaintext_size :=
    match plaintext_size with
    | None => Ok None
    | Some size => result_map Some (encrypted_size_for_plaintext size)
    end in
  let mismatch :=
    match ciphertext_size, padded_plaintext_size with
    | Some ciphertext, Some padded =>
        bool_decide (ciphertext ≠ padded ∧ ¬ (plaintext_size = Some 0 ∧ ciphertext = 0))
    | _, _ => false
    end in
  if mismatch then Err Decompression else
  Ok {| ad_inner := inner; ad_cipher := dec_new key iv; ad_plaintext := replicate 16 0;
        ad_plaintext_position := 0; ad_plaintext_length := 0;
        ad_plaintext_size := plaintext_size; ad_plaintext_read := 0;
        ad_ciphertext_size := ciphertext_size; ad_ciphertext_read := 0;
        ad_expected_ciphertext_size :=
          match ciphertext_size with Some size => Some size | None => padded_plaintext_size end;
        ad_finished := false; ad_retries := retries |}.

Definition set_source (self : reader) (inner : S) (finished : bool) : reader :=
  {| ad_inner := inner; ad_cipher := ad_cipher self; ad_plaintext := ad_plaintext self;
     ad_plaintext_position := ad_plaintext_position self;
     ad_plaintext_length := ad_plaintext_length self;
     ad_plaintext_size := ad_plaintext_size self; ad_plaintext_read := ad_plaintext_read self;
     ad_ciphertext_size := ad_ciphertext_size self; ad_ciphertext_read := ad_ciphertext_read self;
     ad_expected_ciphertext_size := ad_expected_ciphertext_size self;
     ad_finished := finished; ad_retries := ad_retries self |}.

Definition set_block (self : reader) (cipher : cbc_dec) (plaintext : bytes) (length read : Z) : reader :=
  {| ad_inner := ad_inner self; ad_cipher := cipher; ad_plaintext := plaintext;
     ad_plaintext_position := 0; ad_plaintext_length := length;
     ad_plaintext_size := ad_plaintext_size self; ad_plaintext_read := ad_plaintext_read self;
     ad_ciphertext_size := ad_ciphertext_size self; ad_ciphertext_read := read;
     ad_expected_ciphertext_size := ad_expected_ciphertext_size self;
     ad_finished := ad_finished self; ad_retries := ad_retries self |}.

Definition set_read (self : reader) (position read : Z) : reader :=
  {| ad_inner := ad_inner self; ad_cipher := ad_cipher self; ad_plaintext := ad_plaintext self;
     ad_plaintext_position := position; ad_plaintext_length := ad_plaintext_length self;
     ad_plaintext_size := ad_plaintext_size self; ad_plaintext_read := read;
     ad_ciphertext_size := ad_ciphertext_size self; ad_ciphertext_read := ad_ciphertext_read self;
     ad_expected_ciphertext_size := ad_expected_ciphertext_size self;
     ad_finished := ad_finished self; ad_retries := ad_retries self |}.

Definition invalid_data (message : string) : IoError := IoKind InvalidData message.

Definition read_block (self : reader) : result bool IoError * reader :=
  if ad_finished self then (Ok false, self) else
  if decide (ad_expected_ciphertext_size self = Some (ad_ciphertext_read self)) then
    match read_retry (ad_retries self) (ad_inner self) 1 with
    | (Err e, inner) => (Err e, set_source self inner false)
    | (Ok [], inner) => (Ok false, set_source self inner true)
    | (Ok _, inner) =>
        (Err (invalid_data "AES stream exceeds its declared plaintext size"),
         set_source self inner false)
    end
  else
    match read_retry (ad_retries self) (ad_inner self) 1 with
    | (Err e, inner) => (Err e, set_source self inner false)
    | (Ok [], inner) =>
        if decide (ad_expected_ciphertext_size self ≠ None ∧
                   ¬ (ad_ciphertext_size self = None ∧ ad_plaintext_size self = Some 0 ∧
                      ad_ciphertext_read self = 0))
        then (Err (IoKind UnexpectedEof "truncated AES stream"), set_source self inner false)
        else (Ok false, set_source self inner true)
    | (Ok first, inner) =>
        match read_exact (ad_retries self + 16) inner 15 [] with
        | (Err e, inner) => (Err e, set_source self inner false)
        | (Ok rest, inner) =>
            let '(plaintext, cipher) := decrypt_block (ad_cipher self) (first ++ rest) in
            match checked_add (ad_ciphertext_read self) 16 with
            | None => (Err (invalid_data "AES stream too large"), set_source self inner false)
            | Some read =>
                let length := match ad_plaintext_size self with
                              | None => 16
                              | Some size => Z.min (saturating_sub size (ad_plaintext_read self)) 16
                              end in
                (Ok true, set_block (set_source self inner false) cipher plaintext length read)
            end
        end
    end.

(** [while self.plaintext_position == self.plaintext_length]: only a block past the
    declared size is empty, and the next call ends the stream. *)
Fixpoint next_block (fuel : nat) (self : reader) : result bool IoError * reader :=
  match fuel with
  | O => (Err io_out_of_fuel, self)
  | Datatypes.S fuel =>
      if decide (ad_plaintext_position self = ad_plaintext_length self) then
        match read_block self with
        | (Err e, self) => (Err e, self)
        | (Ok false, self) => (Ok false, self)
        | (Ok true, self) => next_block fuel self
        end
      else (Ok true, self)
  end.

#[global] Instance Aes256CbcDecryptReader_read : Reader reader := λ self output,
  if decide (output = 0) then (Ok [], self) else
  match next_block 4 self with
  | (Err e, self) => (Err e, self)
  | (Ok false, self) => (Ok [], self)
  | (Ok true, self) =>
      let length := Z.min output (ad_plaintext_length self - ad_plaintext_position self) in
      let out := take (Z.to_nat length) (drop (Z.to_nat (ad_plaintext_position self)) (ad_plaintext self)) in
      let position := ad_plaintext_position self + length in
      match checked_add (ad_plaintext_read self) length with
      | None => (Err (invalid_data "AES output too large"), set_read self position (ad_plaintext_read self))
      | Some read => (Ok out, set_read self position read)
      end
  end.

End decrypt.

(** ** Encryption *)

(** [std::io::Write], as far as the encoders use it. *)
Class Writer (W : Type) := {
  write_all : W → bytes → result unit IoError * W;
  writer_flush : W → result unit IoError * W
}.

(** The blocks of a plaintext: cut every 16 bytes, the last padded with zeros. *)
Fixpoint pad_blocks (fuel : nat) (data : bytes) : list bytes :=
  match fuel, data with
  | _, [] => []
  | O, _ => []
  | S fuel, _ =>
      let b := take 16 data in
      (b ++ replicate (16 - length b) 0) :: pad_blocks fuel (drop 16 data)
  end.

(** An empty plaintext takes one block. *)
Definition plaintext_blocks (data : bytes) : list bytes :=
  match data with [] => [replicate 16 0] | _ => pad_blocks (length data) data end.

Definition encrypt_aes256_cbc_zero_pad `{BlockCipher} (data key iv : bytes) : bytes :=
  concat (fst (run_blocks encrypt_block (enc_new key iv) (plaintext_blocks data))).

(** [ew_pending] and [ew_ciphertext] are the filled parts of the two arrays. *)
Record Aes256CbcEncryptWriter `{BlockCipher} (W : Type) := {
  ew_inner : W;
  ew_cipher : cbc_enc;
  ew_pending : bytes;
  ew_ciphertext : bytes;
  ew_plaintext_size : Z;
  ew_encrypted_block : bool
}.
Arguments ew_inner {_ W}. Arguments ew_cipher {_ W}. Arguments ew_pending {_ W}.
Arguments ew_ciphertext {_ W}. Arguments ew_plaintext_size {_ W}.
Arguments ew_encrypted_block {_ W}.

Section encrypt.
  Context `{BlockCipher} {W : Type} `{Writer W}.
Abbreviation writer := (Aes256CbcEncryptWriter W).

Definition Aes256CbcEncryptWriter_new (inner : W) (key iv : bytes) : writer :=
  {| ew_inner := inner; ew_cipher := enc_new key iv; ew_pending := []; ew_ciphertext := [];
     ew_plaintext_size := 0; ew_encrypted_block := false |}.

Definition set_sink (self : writer) (inner : W) (ciphertext : bytes) : writer :=
  {| ew_inner := inner; ew_cipher := ew_cipher self; ew_pending := ew_pending self;
     ew_ciphertext := ciphertext; ew_plaintext_size := ew_plaintext_size self;
     ew_encrypted_block := ew_encrypted_block self |}.
Definition set_pending_block (self : writer) (pending : bytes) : writer :=
  {| ew_inner := ew_inner self; ew_cipher := ew_cipher self; ew_pending := pending;
     ew_ciphertext := ew_ciphertext self; ew_plaintext_size := ew_plaintext_size self;
     ew_encrypted_block := ew_encrypted_block self |}.
Definition set_plaintext_size (self : writer) (size : Z) : writer :=
  {| ew_inner := ew_inner self; ew_cipher := ew_cipher self; ew_pending := ew_pending self;
     ew_ciphertext := ew_ciphertext self; ew_plaintext_size := size;
     ew_encrypted_block := ew_encrypted_block self |}.

Definition flush_ciphertext (self : writer) : result unit IoError * writer :=
  if decide (ew_ciphertext self = []) then (Ok tt, self) else
  match write_all (ew_inner self) (ew_ciphertext self) with
  | (Err e, inner) => (Err e, set_sink self inner (ew_ciphertext self))
  | (Ok _, inner) => (Ok tt, set_sink self inner [])
  end.

Definition encrypt_pending (self : writer) : result unit IoError * writer :=
  let block := ew_pending self ++ replicate (16 - length (ew_pending self)) 0 in
  let '(block, cipher) := encrypt_block (ew_cipher self) block in
  let self := {| ew_inner := ew_inner self; ew_cipher := cipher; ew_pending := [];
                 ew_ciphertext := ew_ciphertext self ++ block;
                 ew_plaintext_size := ew_plaintext_size self; ew_encrypted_block := true |} in
  if decide (zlen (ew_ciphertext self) = CIPHERTEXT_BUFFER_SIZE) then flush_ciphertext self
  else (Ok tt, self).

(** The loop of [write]; every turn takes at least a byte of the input. *)
Fixpoint write_loop (fuel : nat) (self : writer) (input : bytes) : result unit IoError * writer :=
  match fuel with
  | O => (Err io_out_of_fuel, self)
  | S fuel =>
      match input with
      | [] => (Ok tt, self)
      | _ =>
          let copied := Nat.min (16 - length (ew_pending self)) (length input) in
          let self := set_pending_block self (ew_pending self ++ take copied input) in
          let input := drop copied input in
          if decide (length (ew_pending self) = 16%nat) then
            match encrypt_pending self with
            | (Err e, self) => (Err e, self)
            | (Ok _, self) => write_loop fuel self input
            end
          else write_loop fuel self input
      end
  end.

Definition Aes256CbcEncryptWriter_write (self : writer) (input : bytes) :
    result Z IoError * writer :=
  match checked_add (ew_plaintext_size self) (zlen input) with
  | None => (Err (IoKind InvalidData "encrypted stream too large"), self)
  | Some plaintext_size =>
      match write_loop (S (length input)) self input with
      | (Err e, self) => (Err e, self)
      | (Ok _, self) => (Ok (zlen input), set_plaintext_size self plaintext_size)
      end
  end.

Definition Aes256CbcEncryptWriter_flush (self : writer) : result unit IoError * writer :=
  match flush_ciphertext self with
  | (Err e, self) => (Err e, self)
  | (Ok _, self) =>
      let '(flushed, inner) := writer_flush (ew_inner self) in
      (flushed, set_sink self inner (ew_ciphertext self))
  end.

Definition Aes256CbcEncryptWriter_finish (self : writer) : result (W * Z) IoError :=
  let '(pended, self) :=
    if decide (ew_pending self ≠ [] ∨ ew_encrypted_block self = false)
    then encrypt_pending self else (Ok tt, self) in
  let? _ := pended in
  let '(flushed, self) := flush_ciphertext self in
  let? _ := flushed in
  let '(flushed, inner) := writer_flush (ew_inner self) in
  let? _ := flushed in
  Ok (inner, ew_plaintext_size self).

End encrypt.

(** ** Lemmas: properties *)

Lemma byte0_fields p s i :
  0 ≤ p < 64 →
  let b := Z.lor (Z.lor (Z.land p 63) (if s : bool then 128 else 0)) (if i : bool then 64 else 0) in
  Z.land b 63 = p ∧ negb (Z.land (Z.shiftr b 7) 1 =? 0) = s ∧ negb (Z.land (Z.shiftr b 6) 1 =? 0) = i.
Proof.
  intros Hp.
  assert (forallb (λ k, forallb (λ s, forallb (λ i,
    let p := Z.of_nat k in
    let b := Z.lor (Z.lor (Z.land p 63) (if s : bool then 128 else 0)) (if i : bool then 64 else 0) in
    (Z.land b 63 =? p) && Bool.eqb (negb (Z.land (Z.shiftr b 7) 1 =? 0)) s &&
    Bool.eqb (negb (Z.land (Z.shiftr b 6) 1 =? 0)) i) [true; false]) [true; false]) (seq 0 64) = true)
    as Hall by (vm_compute; reflexivity).
  rewrite forallb_forall in Hall. specialize (Hall (Z.to_nat p) ltac:(apply in_seq; lia)).
  rewrite forallb_forall in Hall. specialize (Hall s ltac:(destruct s; cbn; auto)).
  rewrite forallb_forall in Hall. specialize (Hall i ltac:(destruct i; cbn; auto)).
  cbv zeta in Hall. rewrite Z2Nat.id in Hall by lia.
  apply andb_prop in Hall as [[Ha Hb]%andb_prop Hc].
  apply Z.eqb_eq in Ha. apply eqb_prop in Hb, Hc. done.
Qed.

Lemma byte1_fields s i :
  0 ≤ s < 16 → 0 ≤ i < 16 →
  let b := Z.lor (Z.shiftl s 4) i in Z.shiftr b 4 = s ∧ Z.land b 15 = i.
Proof.
  intros Hs Hi.
  assert (forallb (λ j, forallb (λ k,
    let b := Z.lor (Z.shiftl (Z.of_nat j) 4) (Z.of_nat k) in
    (Z.shiftr b 4 =? Z.of_nat j) && (Z.land b 15 =? Z.of_nat k)) (seq 0 16)) (seq 0 16) = true)
    as Hall by (vm_compute; reflexivity).
  rewrite forallb_forall in Hall. specialize (Hall (Z.to_nat s) ltac:(apply in_seq; lia)).
  rewrite forallb_forall in Hall. specialize (Hall (Z.to_nat i) ltac:(apply in_seq; lia)).
  cbv zeta in Hall. rewrite !Z2Nat.id in Hall by lia.
  by apply andb_prop in Hall as [Ha%Z.eqb_eq Hb%Z.eqb_eq].
Qed.

Lemma aes_properties_back power salt iv :
  0 ≤ power < 64 → zlen salt ≤ 16 → zlen iv ≤ 16 →
  ∃ b, encode_aes_properties power salt iv = Ok b ∧
    AesProperties_parse b =
      Ok {| ap_num_cycles_power := power; ap_salt := salt; ap_iv := pad_iv iv |}.
Proof.
  intros Hp Hs Hi. unfold encode_aes_properties. rewrite decide_False by lia.
  eexists. split; [reflexivity|].
  set (hs := negb (bool_decide (salt = []))). set (hi := negb (bool_decide (iv = []))).
  cbn [app]. unfold AesProperties_parse.
  destruct (byte0_fields power hs hi Hp) as (-> & -> & ->).
  pose proof (zlen_nonneg salt). pose proof (zlen_nonneg iv).
  assert (hs = false → salt = []) as Hs0 by (unfold hs; case_bool_decide; done).
  assert (hi = false → iv = []) as Hi0 by (unfold hi; case_bool_decide; done).
  assert (hs = true → 1 ≤ zlen salt) as Hs1.
  { unfold hs. case_bool_decide; [done|]. intros _. destruct salt; [done|unfold zlen; cbn; lia]. }
  assert (hi = true → 1 ≤ zlen iv) as Hi1.
  { unfold hi. case_bool_decide; [done|]. intros _. destruct iv; [done|unfold zlen; cbn; lia]. }
  clearbody hs hi. destruct (hs || hi) eqn:Eor.
  2:{ apply orb_false_iff in Eor as [-> ->]. rewrite Hs0, Hi0 by done. done. }
  cbn [app]. set (se := saturating_sub (zlen salt) (bool_to_Z hs)).
  set (ie := saturating_sub (zlen iv) (bool_to_Z hi)).
  assert (bool_to_Z hs + se = zlen salt ∧ 0 ≤ se < 16) as [Hse Hse2].
  { unfold se, saturating_sub. destruct hs; cbn; [specialize (Hs1 eq_refl); lia|].
    rewrite Hs0 by done. done. }
  assert (bool_to_Z hi + ie = zlen iv ∧ 0 ≤ ie < 16) as [Hie Hie2].
  { unfold ie, saturating_sub. destruct hi; cbn; [specialize (Hi1 eq_refl); lia|].
    rewrite Hi0 by done. done. }
  destruct (byte1_fields se ie Hse2 Hie2) as [-> ->]. rewrite Hse, Hie.
  rewrite zlen_app, decide_False by lia. do 2 f_equal.
  - unfold zlen. by rewrite Nat2Z.id, take_app_length.
  - unfold zlen. by rewrite !Nat2Z.id, drop_app_length, firstn_all.
Qed.

(** ** Lemmas: key derivation *)

Lemma derive_rounds_none rounds i prefix hashed :
  derive_rounds rounds i prefix hashed None =
    (Ok (hashed ++ concat (map (λ k, prefix ++ to_le_bytes 8 (i + Z.of_nat k)) (seq 0 rounds))), None).
Proof.
  revert i hashed. induction rounds as [|rounds IH]; intros i hashed; cbn; [by rewrite app_nil_r|].
  assert ((if decide (i mod 1024 = 0) then (Ok tt, None) else (Ok tt, None)) =
    (@Ok unit R7zError tt, @None OperationControl)) as -> by by case_decide.
  rewrite IH, Z.add_0_r, <- !app_assoc. do 2 f_equal. rewrite <- seq_shift, map_map.
  do 3 f_equal. f_equal. apply map_ext. intros k.
  replace (i + Z.of_nat (S k)) with (i + 1 + Z.of_nat k) by lia. reflexivity.
Qed.

(** Without a control the derivation is the documented hash. *)
Lemma derive_key_spec `{Sha256} password salt power :
  0 ≤ power ≤ MAX_AES_NUM_CYCLES_POWER →
  derive_key_with_control password salt power None =
    (Ok (sha256 (concat (map (λ k, (salt ++ password_bytes password) ++ to_le_bytes 8 (Z.of_nat k))
                          (seq 0 (Z.to_nat (2 ^ power)))))), None).
Proof.
  unfold MAX_AES_NUM_CYCLES_POWER. intros Hp. unfold derive_key_with_control. cbn [check_control].
  rewrite !decide_False by (unfold MAX_AES_NUM_CYCLES_POWER; lia).
  rewrite derive_rounds_none. cbn [check_control]. by rewrite Z.shiftl_mul_pow2, Z.mul_1_l by lia.
Qed.

(** ** Lemmas: the blocks *)

Lemma run_blocks_snoc {C} (step : C → bytes → bytes * C) st bs b :
  run_blocks step st (bs ++ [b]) =
    let '(outs, st) := run_blocks step st bs in
    let '(out, st) := step st b in (outs ++ [out], st).
Proof.
  revert st. induction bs as [|x bs IH]; intros st; cbn.
  - by destruct (step st b).
  - destruct (step st x) as [o st1]. rewrite IH. destruct (run_blocks step st1 bs) as [os st2].
    by destruct (step st2 b).
Qed.

Lemma length_run_blocks {C} (step : C → bytes → bytes * C) st bs :
  length (fst (run_blocks step st bs)) = length bs.
Proof.
  revert st. induction bs as [|x bs IH]; intros st; cbn; [done|].
  destruct (step st x) as [o st1]. specialize (IH st1). destruct (run_blocks step st1 bs).
  cbn in *. lia.
Qed.

Lemma zlen_concat_blocks bs : Forall is_block bs → zlen (concat bs) = 16 * zlen bs.
Proof.
  induction 1 as [|b bs Hb _ IH]; [done|]. cbn. rewrite zlen_app, IH, Hb. unfold zlen. cbn. lia.
Qed.

(** The last block, padded. *)
Definition pad_block (p : bytes) : bytes := p ++ replicate (16 - length p) 0.

Lemma pad_block_block p : (length p ≤ 16)%nat → is_block (pad_block p).
Proof. intros. unfold is_block, pad_block, zlen. rewrite length_app, length_replicate. lia. Qed.

Lemma pad_block_full p : length p = 16%nat → pad_block p = p.
Proof. intros Hp. unfold pad_block. rewrite Hp. cbn. by rewrite app_nil_r. Qed.

Lemma pad_blocks_spec fuel bs p :
  Forall is_block bs → (length p < 16)%nat → (length (concat bs ++ p) ≤ fuel)%nat →
  pad_blocks fuel (concat bs ++ p) = bs ++ match p with [] => [] | _ => [pad_block p] end.
Proof.
  intros Hbs Hp. revert fuel. induction Hbs as [|b bs Hb Hbs IH]; intros fuel Hf; cbn [concat app].
  - destruct p as [|x p]; [by destruct fuel|]. destruct fuel; [cbn in Hf; lia|].
    cbn [pad_blocks]. rewrite take_ge by lia. rewrite drop_ge by lia. by destruct fuel.
  - assert (length b = 16%nat) as Hlb by (unfold is_block, zlen in Hb; lia).
    cbn [concat] in Hf. rewrite <- app_assoc in *. rewrite length_app in Hf.
    destruct fuel as [|fuel]; [lia|]. destruct b as [|x b]; [done|].
    cbn [pad_blocks app]. change (x :: b ++ concat bs ++ p) with ((x :: b) ++ concat bs ++ p).
    rewrite <- Hlb, take_app_length, drop_app_length, Nat.sub_diag. cbn [replicate].
    rewrite app_nil_r, IH by lia. done.
Qed.

Lemma plaintext_blocks_spec bs p :
  Forall is_block bs → (length p < 16)%nat →
  plaintext_blocks (concat bs ++ p) =
    bs ++ if decide (p ≠ [] ∨ bs = []) then [pad_block p] else [].
Proof.
  intros Hbs Hp. unfold plaintext_blocks. destruct (concat bs ++ p) as [|x l] eqn:E.
  - apply app_eq_nil in E as [Hc ->]. destruct Hbs as [|b bs Hb _]; [done|].
    cbn in Hc. apply app_eq_nil in Hc as [-> _]. done.
  - rewrite <- E, pad_blocks_spec by done. f_equal. destruct p; case_decide as Hd; try done.
    + destruct Hd as [? | ->]; done.
    + exfalso. apply Hd. by left.
Qed.

(** Padding adds less than a block, but one block to nothing. *)
Lemma plaintext_blocks_ok data :
  Forall is_block (plaintext_blocks data) ∧
  take (length data) (concat (plaintext_blocks data)) = data ∧
  (length data ≤ length (concat (plaintext_blocks data)))%nat ∧
  encrypted_size_for_plaintext (zlen data) =
    (let? _ := ok_or (checked_add (zlen data) 15) Decompression in
     Ok (16 * zlen (plaintext_blocks data))).
Proof.
  assert (∃ bs p, data = concat bs ++ p ∧ Forall is_block bs ∧ (length p < 16)%nat) as
    (bs & p & -> & Hbs & Hp).
  { remember (length data) as n eqn:Hn. revert data Hn.
    induction (lt_wf n) as [n _ IH]. intros data Hn.
    destruct (decide (n < 16)%nat); [exists [], data; split_and!; [done|done|lia]|].
    destruct (IH (n - 16)%nat ltac:(lia) (drop 16 data)) as (bs & p & Hd & Hbs & Hp);
      [rewrite length_drop; lia|].
    exists (take 16 data :: bs), p. cbn. rewrite <- app_assoc, <- Hd, take_drop.
    split_and!; [done| |done]. constructor; [|done].
    unfold is_block, zlen. rewrite length_take. lia. }
  rewrite plaintext_blocks_spec by done.
  assert (Forall is_block (bs ++ if decide (p ≠ [] ∨ bs = []) then [pad_block p] else [])) as Hall.
  { apply Forall_app. split; [done|]. case_decide; [|done]. constructor; [|done].
    apply pad_block_block. lia. }
  assert (take (length (concat bs ++ p))
    (concat (bs ++ if decide (p ≠ [] ∨ bs = []) then [pad_block p] else [])) = concat bs ++ p) as Ht.
  { rewrite concat_app, length_app, take_app_add. f_equal. case_decide as Hd.
    - cbn. rewrite app_nil_r. unfold pad_block. apply take_app_length.
    - cbn. rewrite take_nil. destruct p; [done|]. exfalso. apply Hd. by left. }
  split; [done|]. split; [done|]. split.
  { apply (f_equal length) in Ht. rewrite length_take in Ht. lia. }
  pose proof (zlen_concat_blocks bs Hbs) as Hc. unfold encrypted_size_for_plaintext.
  pose proof (zlen_nonneg bs). pose proof (zlen_nonneg p).
  rewrite !zlen_app, Hc.
  destruct (decide (16 * zlen bs + zlen p = 0)) as [Hz0|Hz0].
  - assert (zlen bs = 0 ∧ zlen p = 0) as [Hb0 Hp0] by lia. rewrite Hb0, Hp0. cbn.
    rewrite decide_True; [done|]. right. destruct bs; [done|unfold zlen in Hb0; cbn in Hb0; lia].
  - unfold checked_add. destruct (decide (16 * zlen bs + zlen p + 15 ≤ u64_max)); [|done]. cbn. f_equal.
    assert (0 ≤ zlen p < 16) by (unfold zlen; lia). case_decide as Hd.
    + change (zlen [pad_block p]) with 1. destruct (decide (p = [])) as [->|Hpne].
      * destruct Hd as [? | ->]; [done|]. exfalso. by apply Hz0.
      * assert (1 ≤ zlen p) by (destruct p; [done|unfold zlen; cbn; lia]).
        replace (16 * zlen bs + zlen p + 15) with ((zlen bs + 1) * 16 + (zlen p - 1)) by lia.
        rewrite Z.div_add_l, Z.div_small by lia. lia.
    + assert (p = []) as -> by (destruct p; [done|exfalso; apply Hd; by left]).
      change (zlen (@nil Z)) with 0. change (zlen (@nil bytes)) with 0.
      replace (16 * zlen bs + 0 + 15) with (zlen bs * 16 + 15) by lia.
      rewrite Z.div_add_l, Z.div_small by lia. lia.
Qed.

(** ** The writer *)

(** A sink that takes everything: [contents] is what it holds. *)
Record accepts {W} `{Writer W} (contents : W → bytes) : Prop := {
  ac_write : ∀ w b, ∃ w', write_all w b = (Ok tt, w') ∧ contents w' = contents w ++ b;
  ac_flush : ∀ w, ∃ w', writer_flush w = (Ok tt, w') ∧ contents w' = contents w
}.

Section writer.
  Context `{BlockCipher} {W : Type} `{Writer W} (contents : W → bytes) (key iv base : bytes).
  Hypothesis sink : accepts contents.

(** The writer was given [data]: its whole blocks are encrypted, the rest pends. *)
Record wrote (data : bytes) (self : Aes256CbcEncryptWriter W) (bs : list bytes) : Prop := {
  wr_blocks : Forall is_block bs;
  wr_data : data = concat bs ++ ew_pending self;
  wr_cipher : ew_cipher self = snd (run_blocks encrypt_block (enc_new key iv) bs);
  wr_out : contents (ew_inner self) ++ ew_ciphertext self =
           base ++ concat (fst (run_blocks encrypt_block (enc_new key iv) bs));
  wr_some : ew_encrypted_block self = negb (bool_decide (bs = []))
}.

Lemma flush_ciphertext_spec data self bs :
  wrote data self bs →
  ∃ self', flush_ciphertext self = (Ok tt, self') ∧ wrote data self' bs ∧
    ew_ciphertext self' = [] ∧ ew_pending self' = ew_pending self ∧
    ew_plaintext_size self' = ew_plaintext_size self.
Proof.
  intros [Hb Hd Hc Ho Hs]. unfold flush_ciphertext. case_decide as He.
  - exists self. by split_and!.
  - destruct (ac_write _ sink (ew_inner self) (ew_ciphertext self)) as (w & -> & Hw).
    eexists. split; [reflexivity|]. split_and!; try done. split; cbn; try done.
    by rewrite Hw, app_nil_r.
Qed.

Lemma encrypt_pending_spec data self bs :
  wrote data self bs → (length (ew_pending self) ≤ 16)%nat →
  ∃ self', encrypt_pending self = (Ok tt, self') ∧
    wrote (concat bs ++ pad_block (ew_pending self)) self' (bs ++ [pad_block (ew_pending self)]) ∧
    ew_pending self' = [] ∧ ew_plaintext_size self' = ew_plaintext_size self.
Proof.
  intros [Hb Hd Hc Ho Hs] Hp. unfold encrypt_pending. fold (pad_block (ew_pending self)).
  destruct (encrypt_block (ew_cipher self) _) as [block cipher] eqn:Eb.
  set (self1 := {| ew_inner := ew_inner self |}).
  assert (wrote (concat bs ++ pad_block (ew_pending self)) self1
    (bs ++ [pad_block (ew_pending self)])) as Hw1.
  { rewrite Hc in Eb. split; cbn.
    - apply Forall_app. split; [done|]. constructor; [|done]. by apply pad_block_block.
    - by rewrite concat_app, app_nil_r; cbn; rewrite app_nil_r.
    - rewrite run_blocks_snoc. destruct (run_blocks encrypt_block _ bs) as [os st].
      cbn in Eb. by rewrite Eb.
    - rewrite run_blocks_snoc. destruct (run_blocks encrypt_block _ bs) as [os st].
      cbn in Eb, Ho. rewrite Eb. cbn. rewrite app_assoc, Ho, concat_app. cbn.
      by rewrite app_nil_r, app_assoc.
    - by destruct bs. }
  case_decide.
  - destruct (flush_ciphertext_spec _ _ _ Hw1) as (s2 & -> & ? & ? & ? & ?). by exists s2.
  - by exists self1.
Qed.

Lemma wrote_pending data self bs p :
  wrote data self bs → wrote (concat bs ++ p) (set_pending_block self p) bs.
Proof. intros [Hb Hd Hc Ho Hs]. by split. Qed.

Lemma write_loop_spec fuel data self bs input :
  (length input < fuel)%nat → wrote data self bs → (length (ew_pending self) < 16)%nat →
  ∃ self' bs', write_loop fuel self input = (Ok tt, self') ∧ wrote (data ++ input) self' bs' ∧
    (length (ew_pending self') < 16)%nat ∧ ew_plaintext_size self' = ew_plaintext_size self.
Proof.
  revert data self bs input.
  induction fuel as [|fuel IH]; intros data self bs input Hf Hw Hp; [lia|]. cbn [write_loop].
  destruct input as [|x input]; [exists self, bs; rewrite app_nil_r; by split_and!|].
  remember (x :: input) as inp eqn:Einp. assert (0 < length inp)%nat by (subst; cbn; lia).
  set (copied := Nat.min (16 - length (ew_pending self)) (length inp)).
  assert (1 ≤ copied)%nat by lia.
  assert (length (ew_pending self ++ take copied inp) = length (ew_pending self) + copied)%nat as Hl
    by (rewrite length_app, length_take; lia).
  pose proof (wrote_pending _ _ _ (ew_pending self ++ take copied inp) Hw) as Hw1.
  assert (data ++ inp = (concat bs ++ ew_pending self ++ take copied inp) ++ drop copied inp) as Hsplit.
  { rewrite (wr_data _ _ _ Hw), <- !app_assoc, take_drop. done. }
  rewrite Einp. rewrite <- Einp. cbn [ew_pending set_pending_block]. case_decide as Hfull.
  - destruct (encrypt_pending_spec _ _ _ Hw1 ltac:(cbn; lia)) as (s2 & -> & Hw2 & Hp2 & Hs2).
    cbn [ew_pending set_pending_block] in Hw2. rewrite pad_block_full in Hw2 by done.
    destruct (IH _ s2 _ (drop copied inp) ltac:(rewrite length_drop; lia) Hw2 ltac:(rewrite Hp2; cbn; lia))
      as (s3 & bs3 & -> & Hw3 & ? & Hs3).
    exists s3, bs3. rewrite Hsplit. split_and!; try done. by rewrite Hs3, Hs2.
  - destruct (IH _ _ _ (drop copied inp) ltac:(rewrite length_drop; lia) Hw1 ltac:(cbn; lia))
      as (s3 & bs3 & -> & Hw3 & ? & Hs3).
    exists s3, bs3. by rewrite Hsplit.
Qed.

(** Everything written in turn. *)
Fixpoint write_chunks (self : Aes256CbcEncryptWriter W) (chunks : list bytes) :
    result (Aes256CbcEncryptWriter W) IoError :=
  match chunks with
  | [] => Ok self
  | c :: chunks =>
      match Aes256CbcEncryptWriter_write self c with
      | (Ok _, self) => write_chunks self chunks
      | (Err e, _) => Err e
      end
  end.

Lemma write_chunks_spec data self bs chunks :
  wrote data self bs → (length (ew_pending self) < 16)%nat →
  ew_plaintext_size self = zlen data → zlen (data ++ concat chunks) ≤ u64_max →
  ∃ self' bs', write_chunks self chunks = Ok self' ∧ wrote (data ++ concat chunks) self' bs' ∧
    (length (ew_pending self') < 16)%nat ∧ ew_plaintext_size self' = zlen (data ++ concat chunks).
Proof.
  revert data self bs. induction chunks as [|c chunks IH]; intros data self bs Hw Hp Hs Hm; cbn.
  { exists self, bs. by rewrite app_nil_r. }
  unfold Aes256CbcEncryptWriter_write. cbn in Hm. rewrite app_assoc, zlen_app, zlen_app in Hm.
  pose proof (zlen_nonneg (concat chunks)). rewrite Hs. unfold checked_add.
  rewrite decide_True by lia.
  destruct (write_loop_spec (S (length c)) data self bs c ltac:(lia) Hw Hp)
    as (s2 & bs2 & -> & Hw2 & Hp2 & Hs2).
  destruct (IH (data ++ c) (set_plaintext_size s2 (zlen data + zlen c)) bs2) as (s3 & bs3 & -> & Hw3 & ? & ?).
  - by destruct Hw2; split.
  - done.
  - cbn. by rewrite zlen_app.
  - rewrite zlen_app, zlen_app. lia.
  - exists s3, bs3. by rewrite app_assoc.
Qed.

Lemma finish_spec data self bs :
  wrote data self bs → (length (ew_pending self) < 16)%nat → ew_plaintext_size self = zlen data →
  ∃ w, Aes256CbcEncryptWriter_finish self = Ok (w, zlen data) ∧
    contents w = base ++ encrypt_aes256_cbc_zero_pad data key iv.
Proof.
  intros Hw Hp Hs. unfold Aes256CbcEncryptWriter_finish, encrypt_aes256_cbc_zero_pad.
  rewrite (wr_data _ _ _ Hw), plaintext_blocks_spec by (done || apply Hw).
  rewrite <- (wr_data _ _ _ Hw), <- Hs.
  assert (ew_pending self ≠ [] ∨ bs = [] ↔
    ew_pending self ≠ [] ∨ ew_encrypted_block self = false) as Hiff.
  { rewrite (wr_some _ _ _ Hw). case_bool_decide; cbn; naive_solver. }
  destruct (decide (ew_pending self ≠ [] ∨ bs = [])) as [Hd|Hd].
  - rewrite (decide_True (P := _ ∨ ew_encrypted_block self = false)) by by apply Hiff.
    destruct (encrypt_pending_spec _ _ _ Hw ltac:(lia)) as (s2 & -> & Hw2 & Hp2 & Hs2).
    destruct (flush_ciphertext_spec _ _ _ Hw2) as (s3 & -> & Hw3 & Hc3 & Hp3 & Hs3).
    destruct (ac_flush _ sink (ew_inner s3)) as (w & -> & Hcw). exists w.
    split; [by rewrite Hs3, Hs2|]. rewrite Hcw.
    pose proof (wr_out _ _ _ Hw3) as Ho. by rewrite Hc3, app_nil_r in Ho.
  - rewrite (decide_False (P := _ ∨ ew_encrypted_block self = false)) by by rewrite <- Hiff.
    destruct (flush_ciphertext_spec _ _ _ Hw) as (s3 & -> & Hw3 & Hc3 & Hp3 & Hs3).
    destruct (ac_flush _ sink (ew_inner s3)) as (w & -> & Hcw). exists w.
    split; [by rewrite Hs3|]. rewrite Hcw, app_nil_r.
    pose proof (wr_out _ _ _ Hw3) as Ho. by rewrite Hc3, app_nil_r in Ho.
Qed.

(** The streaming writer is the one-shot encryption of all that was written. *)
Lemma encrypt_writer_spec inner chunks :
  contents inner = base → zlen (concat chunks) ≤ u64_max →
  ∃ self w, write_chunks (Aes256CbcEncryptWriter_new inner key iv) chunks = Ok self ∧
    Aes256CbcEncryptWriter_finish self = Ok (w, zlen (concat chunks)) ∧
    contents w = base ++ encrypt_aes256_cbc_zero_pad (concat chunks) key iv.
Proof.
  intros Hi Hm.
  destruct (write_chunks_spec [] (Aes256CbcEncryptWriter_new inner key iv) [] chunks)
    as (s2 & bs2 & -> & Hw2 & Hp2 & Hs2); cbn; try done; try lia.
  { split; cbn; try done. by rewrite Hi. }
  destruct (finish_spec _ _ _ Hw2 Hp2 Hs2) as (w & Hf & Hc). by exists s2, w.
Qed.

End writer.

(** ** The reader *)

Section reader.
  Context `{BlockCipher} {S : Type} `{Reader S} (size total : Z).
  Hypothesis size_fits : size ≤ u64_max.
  Hypothesis total_fits : total ≤ u64_max.

(** The reader still has [d] to give: the rest of the current block, then the blocks
    [cbs] that its inner reader still has, decrypted and cut to the declared size. *)
Record decrypts (self : Aes256CbcDecryptReader S) (d : bytes) (cbs : list bytes) : Prop := {
  de_inner : ∃ m, delivers m (ad_inner self) (concat cbs) ∧ (m < ad_retries self)%nat;
  de_blocks : Forall is_block cbs;
  de_plain : Forall is_block (fst (run_blocks decrypt_block (ad_cipher self) cbs));
  de_block : is_block (ad_plaintext self);
  de_position : 0 ≤ ad_plaintext_position self ≤ ad_plaintext_length self;
  de_length : ad_plaintext_length self ≤ 16;
  de_size : ad_plaintext_size self = Some size;
  de_read : 0 ≤ ad_plaintext_read self ∧ ad_plaintext_read self + zlen d = size;
  de_total : ad_expected_ciphertext_size self = Some total ∧ 0 ≤ ad_ciphertext_read self ∧
    ad_ciphertext_read self + 16 * zlen cbs = total;
  de_data : d = sub_list (ad_plaintext_position self) (ad_plaintext_length self) (ad_plaintext self) ++
    take (Z.to_nat (zlen d - (ad_plaintext_length self - ad_plaintext_position self)))
      (concat (fst (run_blocks decrypt_block (ad_cipher self) cbs)));
  de_excess : 16 * zlen cbs ≤ zlen d - (ad_plaintext_length self - ad_plaintext_position self) + 16;
  de_finished : ad_finished self = true → cbs = []
}.


Lemma plain_blocks_cons cipher cb cbs :
  fst (run_blocks decrypt_block cipher (cb :: cbs)) =
    fst (decrypt_block cipher cb) ::
    fst (run_blocks decrypt_block (snd (decrypt_block cipher cb)) cbs).
Proof. cbn. destruct (decrypt_block cipher cb). cbn. by destruct (run_blocks _ _ cbs). Qed.

(** At the end of the blocks the stream ends, with nothing left to give. *)
Lemma read_block_end self d :
  decrypts self d [] → ad_plaintext_position self = ad_plaintext_length self →
  d = [] ∧ ∃ self', read_block self = (Ok false, self') ∧ decrypts self' d [].
Proof.
  intros Hs Hp. pose proof Hs as [(m & Hd & Hm) Hb Hpl Hbk Hpos Hlen Hsz Hrd (He & Ht0 & Ht) Hdt Hex Hfin].
  assert (d = []) as Hd0.
  { rewrite Hdt. rewrite sub_list_empty by lia. cbn. by rewrite take_nil. }
  split; [done|]. subst d. unfold read_block.
  destruct (ad_finished self); [by exists self|].
  rewrite decide_True by (rewrite He; f_equal; unfold zlen in Ht; cbn in Ht; lia).
  destruct (read_retry_delivers (ad_retries self) m (ad_inner self) (concat []) 1 Hd Hm ltac:(lia))
    as (c & rest & s' & m' & -> & Hc & Hcr & Hce & Hm' & Hd').
  symmetry in Hcr. apply app_eq_nil in Hcr as [-> ->]. eexists. split; [reflexivity|].
  split; cbn; try done. exists m'. split; [done|lia].
Qed.

(** A block is read whole, whatever the reads, and decrypted. *)
Lemma read_block_next self d cb cbs :
  decrypts self d (cb :: cbs) → ad_plaintext_position self = ad_plaintext_length self →
  ∃ self', read_block self = (Ok true, self') ∧ decrypts self' d cbs ∧
    ad_plaintext_position self' = 0 ∧ ad_plaintext_length self' = Z.min (zlen d) 16.
Proof.
  intros Hs Hp. pose proof Hs as [(m & Hd & Hm) Hb Hpl Hbk Hpos Hlen Hsz Hrd (He & Ht0 & Ht) Hdt Hex Hfin].
  pose proof (zlen_nonneg cbs) as Hn. pose proof (zlen_nonneg d) as Hdn.
  assert (zlen (cb :: cbs) = zlen cbs + 1) as Hlc by (unfold zlen; cbn; lia).
  inversion Hb as [|? ? Hcb Hcbs]; subst. unfold is_block in Hcb.
  unfold read_block. destruct (ad_finished self); [by specialize (Hfin eq_refl)|].
  rewrite decide_False by (rewrite He; intros [= Heq]; lia).
  destruct (read_retry_delivers (ad_retries self) m (ad_inner self) (concat (cb :: cbs)) 1 Hd Hm ltac:(lia))
    as (c & rest & s1 & m1 & -> & Hc & Hcr & Hce & Hm1 & Hd1).
  cbn [concat] in Hcr. destruct c as [|x c].
  { specialize (Hce eq_refl). apply (f_equal zlen) in Hce. cbn [concat] in Hce. rewrite zlen_app in Hce. pose proof (zlen_nonneg (concat cbs)).
    change (zlen (@nil Z)) with 0 in Hce. lia. }
  assert (c = []) as -> by (destruct c; [done|unfold zlen in Hc; cbn in Hc; lia]).
  destruct cb as [|y cb]; [done|]. cbn in Hcr. injection Hcr as -> Hrest.
  assert (length cb = 15%nat) as Hl15 by (unfold zlen in Hcb; cbn in Hcb; lia).
  destruct (read_exact_delivers (ad_retries self + 16) m1 s1 rest 15 [] Hd1 ltac:(lia))
    as (s2 & m2 & -> & Hm2 & Hd2).
  { rewrite <- Hrest, zlen_app. pose proof (zlen_nonneg (concat cbs)). unfold zlen in *. lia. }
  change (Z.to_nat 15) with 15%nat in *. rewrite <- Hrest in Hd2 |- *.
  rewrite <- Hl15 in Hd2 |- *. rewrite take_app_length, drop_app_length in *. cbn [app].
  rewrite plain_blocks_cons in Hpl, Hdt.
  destruct (decrypt_block (ad_cipher self) (x :: cb)) as [pb cipher] eqn:Ed. cbn [fst snd] in *.
  unfold checked_add. rewrite decide_True by lia. rewrite Hsz.
  inversion Hpl as [|? ? Hpb Hpbs]; subst.
  assert (saturating_sub size (ad_plaintext_read self) = zlen d) as -> by (unfold saturating_sub; lia).
  eexists. split; [reflexivity|]. split; [|done].
  rewrite sub_list_empty in Hdt by lia. rewrite app_nil_l in Hdt.
  rewrite Hp, Z.sub_diag, Z.sub_0_r in Hdt. cbn [concat] in Hdt.
  split; cbn; try done; try lia.
  - exists m2. split; [done|lia].
  - split_and!; [done|lia|lia].
  - unfold is_block in Hpb. rewrite Hdt at 1. unfold sub_list. rewrite drop_0, !Z.sub_0_r.
    assert (length pb = 16%nat) as Hl by (unfold zlen in Hpb; lia).
    destruct (decide (zlen d ≤ 16)).
    + replace (Z.min (zlen d) 16) with (zlen d) by lia. rewrite Z.sub_diag. cbn.
      rewrite app_nil_r. rewrite take_app_le by lia. done.
    + replace (Z.min (zlen d) 16) with 16 by lia. rewrite (take_app_ge pb) by lia.
      rewrite (take_ge pb) by lia. do 2 f_equal. lia.
Qed.

(** Some block is current, unless the stream is at its end. *)
Lemma next_block_spec self d cbs :
  decrypts self d cbs →
  (d = [] ∧ ∃ self' cbs', next_block 4 self = (Ok false, self') ∧ decrypts self' d cbs') ∨
  (∃ self' cbs', next_block 4 self = (Ok true, self') ∧ decrypts self' d cbs' ∧
     ad_plaintext_position self' < ad_plaintext_length self').
Proof.
  assert (∀ fuel self d, decrypts self d [] → ad_plaintext_position self = ad_plaintext_length self →
    d = [] ∧ ∃ self' cbs', next_block (Datatypes.S fuel) self = (Ok false, self') ∧ decrypts self' d cbs')
    as Hend.
  { intros fuel s1 d1 Hs Hp. destruct (read_block_end s1 d1 Hs Hp) as (? & s2 & Hr & Hs2).
    split; [done|]. exists s2, []. cbn [next_block]. by rewrite decide_True, Hr by done. }
  intros Hs. destruct (decide (ad_plaintext_position self = ad_plaintext_length self)) as [Hp|Hp].
  2:{ right. exists self, cbs. cbn [next_block]. rewrite decide_False by done.
      split_and!; [done..|]. pose proof (de_position _ _ _ Hs). lia. }
  destruct cbs as [|cb cbs]; [left; by apply Hend|].
  destruct (read_block_next self d cb cbs Hs Hp) as (s2 & Hr & Hs2 & Hp2 & Hl2).
  pose proof (zlen_nonneg d). destruct (decide (d = [])) as [Hd0|Hdne].
  - left. split; [done|].
    assert (cbs = []) as ->.
    { pose proof (de_excess _ _ _ Hs) as Hex. rewrite Hp, Hd0, zlen_cons, zlen_nil in Hex.
      destruct cbs as [|b bs]; [done|].
      rewrite zlen_cons in Hex. pose proof (zlen_nonneg bs). lia. }
    destruct (Hend 2%nat s2 d Hs2) as (_ & s3 & cbs3 & Hn & Hs3); [rewrite Hp2, Hl2, Hd0; done|].
    exists s3, cbs3. split; [|done]. change 4%nat with (Datatypes.S 3). cbn [next_block].
    rewrite decide_True, Hr by done. exact Hn.
  - right. assert (0 < zlen d) by (destruct d; [done|unfold zlen; cbn; lia]).
    exists s2, cbs. split_and!; [|done|lia]. change 4%nat with (Datatypes.S 3). cbn [next_block].
    rewrite decide_True, Hr by done. change 3%nat with (Datatypes.S 2). cbn [next_block].
    by rewrite decide_False by lia.
Qed.

Lemma decrypts_inv : reader_inv (λ m self d, ∃ cbs, decrypts self d cbs).
Proof.
  intros m self d n (cbs & Hs) Hn.
  destruct (next_block_spec self d cbs Hs) as [(Hd0 & s2 & cbs2 & Hr & Hs2)|(s2 & cbs2 & Hr & Hs2 & Hlt)].
  - eapply (read_gives _ _ _ _ _ [] d s2 m); try done; [|unfold zlen; cbn; lia|by exists cbs2].
    unfold reader_read, Aes256CbcDecryptReader_read. by rewrite decide_False, Hr by lia.
  - pose proof Hs2 as [Hi Hb Hpl Hbk Hpos Hlen Hsz Hrd Ht Hdt Hex Hfin].
    set (pos := ad_plaintext_position s2) in *. set (len := ad_plaintext_length s2) in *.
    set (k := Z.min n (len - pos)).
    assert (zlen (sub_list pos (pos + k) (ad_plaintext s2)) = k) as Hk.
    { unfold is_block in Hbk. rewrite zlen_sub_list; lia. }
    rewrite (sub_list_step pos k len) in Hdt by lia. rewrite <- app_assoc in Hdt.
    set (rest := sub_list (pos + k) len (ad_plaintext s2) ++ _) in Hdt.
    assert (zlen d = k + zlen rest) as Hdl by (rewrite Hdt at 1; rewrite zlen_app; lia).
    pose proof (zlen_nonneg rest).
    eapply (read_gives _ _ _ _ _ (sub_list pos (pos + k) (ad_plaintext s2)) rest
      (set_read s2 (pos + k) (ad_plaintext_read s2 + k)) m); try done.
    + unfold reader_read, Aes256CbcDecryptReader_read. rewrite decide_False, Hr by lia.
      fold pos len k. unfold checked_add. rewrite decide_True by lia. do 2 f_equal.
      unfold sub_list. by replace (pos + k - pos) with k by lia.
    + lia.
    + intros Hnil. rewrite Hnil in Hk. change (zlen (@nil Z)) with 0 in Hk. lia.
    + exists cbs2. split; cbn; fold pos len; try done; try lia.
      unfold rest at 1. f_equal. f_equal. f_equal. lia.
Qed.

End reader.

(** A reader opened on an encryption, with the size of the data, delivers the data. *)
Lemma decrypt_reader_delivers `{BlockCipher} {S} `{Reader S} key iv data (inner : S) m retries
    ciphertext_size :
  cbc_inverse → zlen key = 32 → is_block iv →
  let ciphertext := encrypt_aes256_cbc_zero_pad data key iv in
  zlen data + 16 ≤ u64_max → delivers m inner ciphertext → (m < retries)%nat →
  ciphertext_size = None ∨ ciphertext_size = Some (zlen ciphertext) →
  ∃ reader,
    Aes256CbcDecryptReader_new retries inner key iv ciphertext_size (Some (zlen data)) = Ok reader ∧
    delivers 0 reader data.
Proof.
  intros Hinv Hkey Hiv ciphertext Hmax Hd Hm Hcs.
  destruct (plaintext_blocks_ok data) as (Hpb & Htake & Hle & Henc).
  destruct (Hinv key iv _ Hkey Hiv Hpb) as [Hcb Hback].
  set (cbs := fst (run_blocks encrypt_block (enc_new key iv) (plaintext_blocks data))) in *.
  assert (zlen cbs = zlen (plaintext_blocks data)) as Hlc
    by (unfold zlen, cbs; by rewrite length_run_blocks).
  assert (zlen ciphertext = 16 * zlen (plaintext_blocks data)) as Hlen.
  { unfold ciphertext, encrypt_aes256_cbc_zero_pad. fold cbs. by rewrite zlen_concat_blocks, Hlc. }
  pose proof (zlen_nonneg data) as Hd0. pose proof (zlen_nonneg (plaintext_blocks data)) as Hb0.
  unfold checked_add in Henc. rewrite decide_True in Henc by lia. cbn [ok_or] in Henc.
  unfold Aes256CbcDecryptReader_new. rewrite Henc. cbn [result_map].
  assert ((match ciphertext_size with Some size => bool_decide (size mod 16 ≠ 0) | None => false end)
    = false) as ->.
  { destruct Hcs as [-> | ->]; [done|]. apply bool_decide_eq_false. intros Hn. apply Hn.
    rewrite Hlen, Z.mul_comm. by apply Z_mod_mult. }
  assert ((match ciphertext_size with
    | Some ciphertext0 => bool_decide (ciphertext0 ≠ 16 * zlen (plaintext_blocks data) ∧
        ¬ (Some (zlen data) = Some 0 ∧ ciphertext0 = 0))
    | None => false end) = false) as Hmis.
  { destruct Hcs as [-> | ->]; [done|]. apply bool_decide_eq_false. lia. }
  assert (16 * zlen (plaintext_blocks data) ≤ zlen data + 16) as Hexc.
  { unfold encrypted_size_for_plaintext in Henc. case_decide as Hz; [injection Henc; lia|].
    unfold checked_add in Henc. rewrite decide_True in Henc by lia. injection Henc as Heq.
    pose proof (Z.div_le_upper_bound (zlen data + 15) 16 ((zlen data + 15) / 16) ltac:(lia)).
    pose proof (Z.mul_div_le (zlen data + 15) 16 ltac:(lia)). lia. }
  eexists. split.
  { rewrite Hmis. reflexivity. }
  exists (λ m self d, ∃ cbs, decrypts (zlen data) (16 * zlen (plaintext_blocks data)) self d cbs).
  split; [apply decrypts_inv; lia|]. exists cbs.
  split; cbn; try done; try lia.
  - exists m. split; [|done]. exact Hd.
  - by rewrite Hback.
  - destruct Hcs as [-> | ->]; rewrite ?Hlen, Hlc; split_and!; (done || lia).
  - rewrite Hback, Z.sub_0_r. unfold zlen. by rewrite Nat2Z.id, Htake.
Qed.

(** ** Properties *)

(** C30. The AES streams round-trip: what the streaming writer makes of data given to
    it in any chunks is the one-shot encryption of their concatenation, padded to
    whole blocks; and a reader opened on that ciphertext with the declared
    plaintext size, through any short or interrupted reads and for buffers of any
    lengths, delivers exactly the data, without the padding. *)
Theorem aes_stream_round_trip `{BlockCipher} {W S} `{Writer W} `{Reader S} (contents : W → bytes)
    key iv sink chunks (inner : S) m retries ciphertext_size :
  cbc_inverse → zlen key = 32 → is_block iv → accepts contents → contents sink = [] →
  let data := concat chunks in
  let ciphertext := encrypt_aes256_cbc_zero_pad data key iv in
  zlen data + 16 ≤ u64_max → delivers m inner ciphertext → (m < retries)%nat →
  ciphertext_size = None ∨ ciphertext_size = Some (zlen ciphertext) →
  ∃ writer sink' reader,
    write_chunks (Aes256CbcEncryptWriter_new sink key iv) chunks = Ok writer ∧
    Aes256CbcEncryptWriter_finish writer = Ok (sink', zlen data) ∧ contents sink' = ciphertext ∧
    Aes256CbcDecryptReader_new retries inner key iv ciphertext_size (Some (zlen data)) = Ok reader ∧
    delivers 0 reader data.
Proof.
  intros Hinv Hkey Hiv Hsink Hs0 data ciphertext Hmax Hd Hm Hcs.
  destruct (encrypt_writer_spec contents key iv [] Hsink sink chunks Hs0) as (w & s' & Hw & Hf & Hc);
    [fold data; lia|].
  destruct (decrypt_reader_delivers key iv data inner m retries ciphertext_size)
    as (r & Hr & Hrd); [done..|].
  by exists w, s', r.
Qed.

(** The properties a folder's AES coder stores read back: encoding a cycle
    power, a salt and an initialization vector of at most 16 bytes never panics, and
    parsing the bytes gives the power and the salt, and the vector padded with zeros
    to its 16 bytes. *)
Theorem aes_properties_read_back power salt iv :
  0 ≤ power < 64 → zlen salt ≤ 16 → zlen iv ≤ 16 →
  ∃ b, encode_aes_properties power salt iv = Ok b ∧
    AesProperties_parse b =
      Ok {| ap_num_cycles_power := power; ap_salt := salt; ap_iv := pad_iv iv |} ∧
    zlen (pad_iv iv) = 16.
Proof.
  intros Hp Hs Hi. destruct (aes_properties_back power salt iv Hp Hs Hi) as (b & ? & ?).
  exists b. split_and!; try done. unfold pad_iv, zlen in *.
  rewrite length_app, length_replicate. lia.
Qed.

(** ** Witnesses *)

(** A cipher for the examples: every block is masked with a counter. *)
Definition mask_block (st : Z) (b : bytes) : bytes * Z := (map (Z.lxor st) b, st + 1).
Definition counter_cipher : BlockCipher :=
  {| cbc_enc := Z; cbc_dec := Z; enc_new := λ key _, default 0 (head key);
     dec_new := λ key _, default 0 (head key);
     encrypt_block := mask_block; decrypt_block := mask_block |}.

Lemma mask_block_inverse st blocks :
  Forall is_block blocks →
  Forall is_block (fst (run_blocks mask_block st blocks)) ∧
  fst (run_blocks mask_block st (fst (run_blocks mask_block st blocks))) = blocks.
Proof.
  intros Hb. revert st. induction Hb as [|b blocks Hb _ IH]; intros st; [done|].
  cbn. specialize (IH (st + 1)). destruct (run_blocks mask_block (st + 1) blocks) as [outs st'].
  cbn in *. destruct IH as [Ho Hr]. destruct (run_blocks mask_block (st + 1) outs) as [os st2].
  cbn in *. subst. split.
  - constructor; [|done]. unfold is_block in *. by rewrite zlen_map.
  - f_equal. rewrite map_map. rewrite <- (map_id b) at 2. apply map_ext. intros x.
    by rewrite <- Z.lxor_assoc, Z.lxor_nilpotent, Z.lxor_0_l.
Qed.

Lemma counter_cipher_inverse : @cbc_inverse counter_cipher.
Proof. intros key iv blocks _ _ Hb. exact (mask_block_inverse _ _ Hb). Qed.

(** A vector of bytes takes all that is written to it. *)
Definition vec_writer : Writer bytes :=
  {| write_all := λ w b, (Ok tt, w ++ b); writer_flush := λ w, (Ok tt, w) |}.

Lemma vec_writer_accepts : @accepts bytes vec_writer id.
Proof. split; intros; by eexists. Qed.

Lemma aes_stream_round_trip_witness :
  let _ := counter_cipher in let _ := vec_writer in
  let key := replicate 32 7 in let iv := replicate 16 0 in
  let source := {| sr_data := encrypt_aes256_cbc_zero_pad [1; 2; 3; 4; 5] key iv;
                   sr_script := [AtMost 2; Interrupt; AtMost 0] |} in
  ∃ writer sink' reader,
    write_chunks (Aes256CbcEncryptWriter_new [] key iv) [[1; 2]; [3; 4; 5]] = Ok writer ∧
    Aes256CbcEncryptWriter_finish writer = Ok (sink', 5) ∧
    sink' = encrypt_aes256_cbc_zero_pad [1; 2; 3; 4; 5] key iv ∧
    Aes256CbcDecryptReader_new 4 source key iv (Some 16) (Some 5) = Ok reader ∧
    delivers 0 reader [1; 2; 3; 4; 5].
Proof.
  intros c w key iv source.
  apply (@aes_stream_round_trip counter_cipher bytes ScriptReader vec_writer _ id key iv []
    [[1; 2]; [3; 4; 5]] source 3 4 (Some 16)).
  - exact counter_cipher_inverse.
  - reflexivity.
  - reflexivity.
  - exact vec_writer_accepts.
  - reflexivity.
  - vm_compute. discriminate.
  - exact (ScriptReader_delivers _ [AtMost 2; Interrupt; AtMost 0]).
  - lia.
  - right. vm_compute. reflexivity.
Defined.

Lemma aes_properties_read_back_witness :
  ∃ b, encode_aes_properties 19 [1; 2; 3] [9; 9] = Ok b ∧
    AesProperties_parse b =
      Ok {| ap_num_cycles_power := 19; ap_salt := [1; 2; 3]; ap_iv := pad_iv [9; 9] |} ∧
    zlen (pad_iv [9; 9]) = 16.
Proof. apply (aes_properties_read_back 19 [1; 2; 3] [9; 9]); [lia|vm_compute; discriminate..]. Defined.
