(* ===== verification/DecoderPlan.v ===== *)
(** * Decoder plans (src/src/codec/plan.rs, src/src/codec/sizes.rs, src/src/codec.rs)

    From a folder graph to an executable plan: the properties of every coder are
    parsed, its input and output sizes resolved, the memory of the decoders summed
    and admitted by the budget before a reader is opened, and the packed inputs
    bound to the topology. *)

From stdpp Require Import base numbers list option sets strings.
From Stdlib Require Import ZArith Lia.
From S2P Require Import Prelude Parsers Method CoderInfo Folder Error Operation Readers Resources FolderGraph FilesInfo Aes.

(** ** Limits *)

Definition MAX_LZMA_DICTIONARY_BYTES : Z := 256 * 1024 * 1024.
Definition MAX_PPMD_MEMORY_BYTES : Z := 256 * 1024 * 1024.
Definition MAX_MATERIALIZED_OUTPUT_BYTES : Z := 512 * 1024 * 1024.
Definition MAX_BCJ2_OUTPUT_BYTES : Z := 256 * 1024 * 1024.
Definition OTHER_CODER_WORKING_SET_BYTES : Z := 2 * 1024 * 1024.
Definition DECODER_OVERHEAD_BYTES : Z := 128 * 1024.
Definition AES_CBC_WORKING_SET_BYTES : Z := 1024.
Definition BCJ_READER_WORKING_SET_BYTES : Z := 4096.
Definition DELTA_READER_WORKING_SET_BYTES : Z := 256.
Definition BCJ2_READER_WORKING_SET_BYTES : Z := 4 * 256 * 1024.
Definition MAX_FOLDER_CODERS : Z := 64.
Definition MAX_BUFFERED_PACKED_FOLDER_BYTES : Z := 512 * 1024 * 1024.
Definition MAX_BCJ2_WORKING_BYTES : Z := 512 * 1024 * 1024.

(** The memory estimates of the [lzma-rust2] crate, in KiB; the first checks the
    properties byte. *)
Class LzmaMemory := {
  lzma_get_memory_usage_by_props : Z → Z → option Z;
  lzma2_get_memory_usage : Z → Z;
  lzma_memory_u32 : ∀ d p m, lzma_get_memory_usage_by_props d p = Some m → is_u32 m;
  lzma2_memory_u32 : ∀ d, is_u32 (lzma2_get_memory_usage d)
}.

(** ** Properties of the coders (src/src/codec.rs) *)

Definition lzma2_dict_size (props : option bytes) : result Z R7zError :=
  match props with
  | None => Err (resource_limit "LZMA dictionary" MAX_LZMA_DICTIONARY_BYTES)
  | Some [p] =>
      if decide (40 < p) then Err Decompression
      else if decide (p = 40) then Err (resource_limit "LZMA dictionary" MAX_LZMA_DICTIONARY_BYTES)
      else
        let dict_size := Z.shiftl (Z.lor 2 (Z.land p 1)) (Z.shiftr p 1 + 11) in
        if decide (MAX_LZMA_DICTIONARY_BYTES < dict_size)
        then Err (resource_limit "LZMA dictionary" MAX_LZMA_DICTIONARY_BYTES)
        else Ok dict_size
  | Some _ => Err Decompression
  end.

Definition branch_start_pos (props : option bytes) (alignment : Z) : result Z R7zError :=
  let? pos :=
    match default [] props with
    | [] => Ok 0
    | [a; b; c; d] => Ok (from_le_bytes [a; b; c; d])
    | _ => Err Decompression
    end in
  if decide (pos mod alignment ≠ 0) then Err Decompression else Ok pos.

Definition ppmd_properties (props : bytes) : result (Z * Z) R7zError :=
  match props with
  | [order; a; b; c; d] =>
      let mem_size := from_le_bytes [a; b; c; d] in
      if decide (MAX_PPMD_MEMORY_BYTES < mem_size)
      then Err (resource_limit "PPMd memory" MAX_PPMD_MEMORY_BYTES)
      else Ok (order, mem_size)
  | _ => Err Decompression
  end.

Definition growth_safe_output_limit (available : Z) : Z := available / 2.

Definition validate_folder_coder_count (folder : Folder) : result unit R7zError :=
  if decide (MAX_FOLDER_CODERS < zlen (coders folder))
  then Err (LimitExceeded "folder coder count") else Ok tt.

Definition bcj2_output_size (unpack_size : Z) : result Z R7zError :=
  let? output_size := ok_or (usize_try_from unpack_size) Parse in
  if decide (MAX_BCJ2_OUTPUT_BYTES < output_size)
  then Err (resource_limit "BCJ2 output" MAX_BCJ2_OUTPUT_BYTES) else Ok output_size.

Definition ensure_bcj2_working_budget (output_size decoder_memory : Z) : result unit R7zError :=
  let? committed := ok_or (checked_add output_size decoder_memory) Decompression in
  if decide (MAX_BCJ2_WORKING_BYTES < committed)
  then Err (resource_limit "BCJ2 working buffers" MAX_BCJ2_WORKING_BYTES) else Ok tt.

(** ** Sizes (src/src/codec/sizes.rs) *)

Inductive OutputSize := Known (size : Z) | Unknown.

#[global] Instance OutputSize_eq_dec : EqDecision OutputSize.
Proof. solve_decision. Defined.

Definition OutputSize_reconcile (self other : OutputSize) : result OutputSize R7zError :=
  match self, other with
  | Known a, Known b => if decide (a ≠ b) then Err Parse else Ok (Known a)
  | Unknown, size => Ok size
  | size, _ => Ok size
  end.

Definition OutputSize_require (self : OutputSize) : result Z R7zError :=
  match self with
  | Known size => Ok size
  | Unknown => Err (InvalidOptions "coder requires an output size")
  end.

Record CoderOutputSizes := { os_declared : list Z; os_final_index : nat; os_final_size : Z }.

(** [Folder::total_out_streams] of a folder that has a graph does not panic. *)
Definition total_out_streams (folder : Folder) : result Z R7zError :=
  ok_or (Folder_total_out_streams folder) R7zPanic.

Definition CoderOutputSizes_partial (folder : Folder) (graph : FolderGraph) (final_size : Z)
    (declared : list Z) : result CoderOutputSizes R7zError :=
  let? total := total_out_streams folder in
  if decide (total < zlen declared) then Err InvalidFolderGraph else
  let final_index := fg_final_output graph in
  if match declared !! final_index with
     | Some size => bool_decide (size ≠ final_size)
     | None => false
     end
  then Err Parse
  else Ok {| os_declared := declared; os_final_index := final_index; os_final_size := final_size |}.

Definition CoderOutputSizes_complete (folder : Folder) (graph : FolderGraph) (final_size : Z)
    (declared : list Z) : result CoderOutputSizes R7zError :=
  let? total := total_out_streams folder in
  if decide (zlen declared ≠ total) then Err InvalidFolderGraph
  else CoderOutputSizes_partial folder graph final_size declared.

Definition CoderOutputSizes_get (self : CoderOutputSizes) (index : nat) : OutputSize :=
  if decide (index = os_final_index self) then Known (os_final_size self)
  else match os_declared self !! index with Some size => Known size | None => Unknown end.

(** ** Memory *)

Definition WorkingSet_decoder (memory_kib : Z) : result Z R7zError :=
  let? n := ok_or (checked_mul memory_kib 1024) Decompression in
  ok_or (checked_add n DECODER_OVERHEAD_BYTES) Decompression.

Definition WorkingSet_add (self other : Z) : result Z R7zError :=
  ok_or (checked_add self other) Decompression.

Definition WorkingSet_admit (self : Z) (budget : OperationBudget) :
    result (Z * OperationBudget) R7zError :=
  let? budget := admit_decoder_working_set budget self in Ok (self, budget).

Definition WorkingSet_output_limit (self : Z) : result Z R7zError :=
  ok_or (growth_safe_output_limit <$> checked_sub MAX_MATERIALIZED_OUTPUT_BYTES self)
        (resource_limit "decoder working set" MAX_MATERIALIZED_OUTPUT_BYTES).

(** ** Coders *)

Record LzmaProperties := { lp_props : Z; lp_dictionary : Z; lp_memory : Z }.

Definition LzmaProperties_parse `{LzmaMemory} (b : bytes) : result LzmaProperties R7zError :=
  match b with
  | [props; a; b; c; d] =>
      let dictionary := from_le_bytes [a; b; c; d] in
      if decide (MAX_LZMA_DICTIONARY_BYTES < dictionary)
      then Err (resource_limit "LZMA dictionary" MAX_LZMA_DICTIONARY_BYTES) else
      let? memory_kib := ok_or (lzma_get_memory_usage_by_props dictionary props) Decompression in
      let? memory := WorkingSet_decoder memory_kib in
      Ok {| lp_props := props; lp_dictionary := dictionary; lp_memory := memory |}
  | _ => Err Decompression
  end.

Inductive CoderPlan :=
| PlanCopy
| PlanLzma (properties : LzmaProperties)
| PlanLzma2 (dictionary : Z)
| PlanX86 | PlanArm | PlanArmThumb | PlanIa64 | PlanPpc | PlanSparc
| PlanArm64 (position : Z)
| PlanRiscv (position : Z)
| PlanDeflate
| PlanBzip2
| PlanPpmd (order memory size : Z)
| PlanDeflate64
| PlanDelta (distance : Z)
| PlanSwap (width : Z)
| PlanAes (properties : AesProperties).

Definition no_properties (coder : CoderInfo) : result unit R7zError :=
  match properties coder with None | Some [] => Ok tt | Some _ => Err Decompression end.

Definition CoderPlan_compile `{LzmaMemory} (coder : CoderInfo) (size : OutputSize) :
    result CoderPlan R7zError :=
  let props := ok_or (properties coder) Decompression in
  let plain plan := let? _ := no_properties coder in Ok plan in
  match method_info (codec_id coder) with
  | Some info =>
      if MethodInfo_can_decode info then
        match mi_method info with
        | Copy => plain PlanCopy
        | Lzma => let? b := props in let? p := LzmaProperties_parse b in Ok (PlanLzma p)
        | Lzma2 => let? d := lzma2_dict_size (properties coder) in Ok (PlanLzma2 d)
        | Bcj => plain PlanX86
        | Arm => plain PlanArm
        | ArmThumb => plain PlanArmThumb
        | Ia64 => plain PlanIa64
        | Ppc => plain PlanPpc
        | Sparc => plain PlanSparc
        | Arm64 => let? pos := branch_start_pos (properties coder) 4 in Ok (PlanArm64 pos)
        | Riscv => let? pos := branch_start_pos (properties coder) 2 in Ok (PlanRiscv pos)
        | Deflate => plain PlanDeflate
        | BZip2 => plain PlanBzip2
        | Ppmd =>
            let? b := props in
            let? (order, memory) := ppmd_properties b in
            let? size := OutputSize_require size in
            Ok (PlanPpmd order memory size)
        | Deflate64 => plain PlanDeflate64
        | Delta =>
            let? b := props in
            match b with [distance] => Ok (PlanDelta (distance + 1)) | _ => Err Decompression end
        | Swap2 => plain (PlanSwap 2)
        | Swap4 => plain (PlanSwap 4)
        | SevenZAes => let? b := props in let? p := AesProperties_parse b in Ok (PlanAes p)
        | _ => Err (UnsupportedCodec (codec_id coder))
        end
      else Err (UnsupportedCodec (codec_id coder))
  | None => Err (UnsupportedCodec (codec_id coder))
  end.

Definition CoderPlan_working_set `{LzmaMemory} (self : CoderPlan) : result Z R7zError :=
  match self with
  | PlanLzma p => Ok (lp_memory p)
  | PlanLzma2 dictionary => WorkingSet_decoder (lzma2_get_memory_usage dictionary)
  | PlanPpmd _ memory _ => ok_or (checked_add memory DECODER_OVERHEAD_BYTES) Decompression
  | PlanAes _ => ok_or (checked_add AES_CBC_WORKING_SET_BYTES DECODER_OVERHEAD_BYTES) Decompression
  | PlanCopy | PlanSwap _ => Ok 0
  | PlanX86 | PlanArm | PlanArmThumb | PlanIa64 | PlanPpc | PlanSparc =>
      Ok BCJ_READER_WORKING_SET_BYTES
  | PlanDelta _ => Ok DELTA_READER_WORKING_SET_BYTES
  | PlanArm64 _ | PlanRiscv _ => Ok BCJ_READER_WORKING_SET_BYTES
  | PlanDeflate | PlanBzip2 | PlanDeflate64 => Ok OTHER_CODER_WORKING_SET_BYTES
  end.

Definition CoderPlan_preserves_size (self : CoderPlan) : bool :=
  match self with
  | PlanCopy | PlanX86 | PlanArm | PlanArmThumb | PlanIa64 | PlanPpc | PlanSparc
  | PlanArm64 _ | PlanRiscv _ | PlanDelta _ | PlanSwap _ => true
  | _ => false
  end.

Record SizedCoder := { sc_coder : CoderPlan; sc_output : OutputSize }.
Record DecodeStep := { ds_coder : CoderPlan; ds_input : OutputSize; ds_output : OutputSize }.

Definition SizedCoder_compile `{LzmaMemory} (coder : CoderInfo) (output : OutputSize) :
    result SizedCoder R7zError :=
  let? plan := CoderPlan_compile coder output in Ok {| sc_coder := plan; sc_output := output |}.

Definition SizedCoder_bind_size (self : SizedCoder) (input : OutputSize) : result DecodeStep R7zError :=
  let? output :=
    (if CoderPlan_preserves_size (sc_coder self) then OutputSize_reconcile (sc_output self) input
     else Ok (sc_output self)) in
  Ok {| ds_coder := sc_coder self; ds_input := input; ds_output := output |}.

(** The sum of the working sets of some steps, from a total on. *)
Definition add_working_sets `{LzmaMemory} (total : Z) (steps : list DecodeStep) : result Z R7zError :=
  try_fold (λ total step, let? w := CoderPlan_working_set (ds_coder step) in WorkingSet_add total w)
    total steps.

(** ** Plans *)

Record Bcj2Slots := { sl_main : nat; sl_call : nat; sl_jump : nat; sl_control : nat }.

Inductive Topology :=
| Chain (steps : list DecodeStep)
| TopologyBcj2 (main call jump control : list DecodeStep) (slots : Bcj2Slots) (output_size : Z).

Record DecoderPlan := { dp_topology : Topology; dp_memory : Z; dp_inputs : list Z }.

Definition decoder_topology (folder : Folder) (graph : FolderGraph) :
    result (option Bcj2Layout) R7zError :=
  let? layout := bcj2_layout graph folder in
  match layout with
  | Some layout =>
      let? bcj2 := ok_or (List.find (λ c, bool_decide (codec_id c = CODEC_BCJ2)) (coders folder))
                         InvalidFolderGraph in
      let? _ := no_properties bcj2 in
      Ok (Some layout)
  | None =>
      match List.find (λ c, bool_decide (method_from_id (codec_id c) = None)) (coders folder) with
      | Some coder => Err (UnsupportedCodec (codec_id coder))
      | None =>
          if forallb (λ c, bool_decide (num_in_streams c = 1 ∧ num_out_streams c = 1)) (coders folder)
          then Ok None else Err InvalidFolderGraph
      end
  end.

(** [PackedLayout::size]. *)
Definition PackedLayout_size (sizes : list Z) (slot : nat) : result Z R7zError :=
  let? size := ok_or (sizes !! slot) InvalidFolderGraph in ok_or (usize_try_from size) Parse.

(** The coders against the stream, the last first: a size-preserving coder passes
    its output size on to the coder before it. *)
Fixpoint compile_steps `{LzmaMemory} (folder : Folder) (sizes : CoderOutputSizes)
    (order : list nat) (next_input : OutputSize) : result (list SizedCoder) R7zError :=
  match order with
  | [] => Ok []
  | index :: order =>
      let? coder := ok_or (coders folder !! index) InvalidFolderGraph in
      let? output := OutputSize_reconcile (CoderOutputSizes_get sizes index) next_input in
      let? step := SizedCoder_compile coder output in
      let next_input := if CoderPlan_preserves_size (sc_coder step) then output else Unknown in
      let? steps := compile_steps folder sizes order next_input in
      Ok (step :: steps)
  end.

(** With the stream, every step takes the output size of the one before it. *)
Fixpoint bind_sizes (steps : list SizedCoder) (input_size : OutputSize) :
    result (list DecodeStep) R7zError :=
  match steps with
  | [] => Ok []
  | step :: steps =>
      let? step := SizedCoder_bind_size step input_size in
      let? steps := bind_sizes steps (ds_output step) in
      Ok (step :: steps)
  end.

Definition compile_chain `{LzmaMemory} (folder : Folder) (graph : FolderGraph)
    (sizes : CoderOutputSizes) (inputs : list Z) (budget : OperationBudget) :
    result (DecoderPlan * OperationBudget) R7zError :=
  match inputs with
  | [packed_size] =>
      let? steps := compile_steps folder sizes (rev (fg_execution_order graph)) Unknown in
      let? steps := bind_sizes (rev steps) (Known packed_size) in
      let? memory := add_working_sets 0 steps in
      let? (memory, budget) := WorkingSet_admit memory budget in
      Ok ({| dp_topology := Chain steps; dp_memory := memory; dp_inputs := inputs |}, budget)
  | _ => Err InvalidFolderGraph
  end.

(** The coders of one channel of a BCJ2 folder, from its packed stream. *)
Fixpoint channel_steps `{LzmaMemory} (folder : Folder) (sizes : CoderOutputSizes)
    (channel_coders : list Bcj2Coder) (input_size : OutputSize) : result (list DecodeStep) R7zError :=
  match channel_coders with
  | [] => Ok []
  | channel_coder :: channel_coders =>
      let? coder := ok_or (coders folder !! bc_index channel_coder) InvalidFolderGraph in
      let? sized := SizedCoder_compile coder (CoderOutputSizes_get sizes (bc_output channel_coder)) in
      let? step := SizedCoder_bind_size sized input_size in
      let? steps := channel_steps folder sizes channel_coders (ds_output step) in
      Ok (step :: steps)
  end.

Definition compile_channel `{LzmaMemory} (folder : Folder) (sizes : CoderOutputSizes)
    (inputs : list Z) (channel : Bcj2Channel) : result (list DecodeStep) R7zError :=
  let? size := PackedLayout_size inputs (ch_packed channel) in
  channel_steps folder sizes (ch_coders channel) (Known size).

(** What a channel puts out: its last coder's output or its packed stream. *)
Definition channel_output (inputs : list Z) (channel : list DecodeStep * nat) : result Z R7zError :=
  match last (fst channel) with
  | Some coder => OutputSize_require (ds_output coder)
  | None => PackedLayout_size inputs (snd channel)
  end.

Definition compile_bcj2 `{LzmaMemory} (folder : Folder) (layout : Bcj2Layout) (unpack_size : Z)
    (sizes : CoderOutputSizes) (inputs : list Z) (budget : OperationBudget) :
    result (DecoderPlan * OperationBudget) R7zError :=
  let? output_size := bcj2_output_size unpack_size in
  let slots := {| sl_main := ch_packed (bl_main layout); sl_call := ch_packed (bl_call layout);
                  sl_jump := ch_packed (bl_jump layout); sl_control := ch_packed (bl_control layout) |} in
  let? main := compile_channel folder sizes inputs (bl_main layout) in
  let? call := compile_channel folder sizes inputs (bl_call layout) in
  let? jump := compile_channel folder sizes inputs (bl_jump layout) in
  let? control := compile_channel folder sizes inputs (bl_control layout) in
  let data_channels := [(main, sl_main slots); (call, sl_call slots); (jump, sl_jump slots)] in
  let? declared :=
    try_fold (λ total channel,
      let? output := channel_output inputs channel in
      ok_or (checked_add total output) Decompression) 0 data_channels in
  if decide (declared ≠ unpack_size) then Err Decompression else
  let? memory := add_working_sets 0 (main ++ call ++ jump ++ control) in
  let? memory := WorkingSet_add memory BCJ2_READER_WORKING_SET_BYTES in
  let? _ := ensure_bcj2_working_budget output_size memory in
  let? memory := WorkingSet_add memory output_size in
  let? (memory, budget) := WorkingSet_admit memory budget in
  Ok ({| dp_topology := TopologyBcj2 main call jump control slots output_size;
         dp_memory := memory; dp_inputs := inputs |}, budget).

Definition DecoderPlan_with_output_sizes `{LzmaMemory} (folder : Folder) (graph : FolderGraph)
    (unpack_size : Z) (sizes : CoderOutputSizes) (packed_sizes : list Z) (budget : OperationBudget) :
    result (DecoderPlan * OperationBudget) R7zError :=
  let? _ := validate_folder_coder_count folder in
  if decide (length (fg_packed_inputs graph) ≠ length packed_sizes) then Err InvalidFolderGraph else
  let? topology := decoder_topology folder graph in
  match topology with
  | None => compile_chain folder graph sizes packed_sizes budget
  | Some layout => compile_bcj2 folder layout unpack_size sizes packed_sizes budget
  end.

Definition DecoderPlan_compile_with_budget `{LzmaMemory} (folder : Folder) (graph : FolderGraph)
    (unpack_size : Z) (sizes packed_sizes : list Z) (budget : OperationBudget) :
    result (DecoderPlan * OperationBudget) R7zError :=
  let? sizes := CoderOutputSizes_complete folder graph unpack_size sizes in
  DecoderPlan_with_output_sizes folder graph unpack_size sizes packed_sizes budget.

(** ** The shape of a chain *)

(** A later size says at least what an earlier one does. *)
Definition size_refines (a b : OutputSize) : Prop := ∀ n, a = Known n → b = Known n.

Lemma reconcile_refines a b c :
  OutputSize_reconcile a b = Ok c → size_refines a c ∧ size_refines b c ∧ (c = a ∨ c = b).
Proof.
  unfold size_refines, OutputSize_reconcile. intros H. destruct a as [x|], b as [y|];
    [case_decide; [done|]|..]; injection H as <-; naive_solver.
Qed.

(** Coders with one input and one output own the streams of their own index. *)
Definition simple_coders (f : Folder) : Prop :=
  Forall (λ c, num_in_streams c = 1 ∧ num_out_streams c = 1) (coders f).

Lemma imap_replicate_seq (n : CoderInfo → Z) cs k :
  Forall (λ c, n c = 1) cs →
  concat (imap (λ i c, replicate (Z.to_nat (n c)) (k + i)%nat) cs) = seq k (length cs).
Proof.
  intros H. revert k. induction H as [|c cs Hc _ IH]; intros k; [done|]. cbn.
  rewrite Hc, Nat.add_0_r. change (replicate (Z.to_nat 1) k) with [k]. cbn [app]. f_equal.
  rewrite <- IH. f_equal. apply imap_ext. intros. cbn. f_equal. lia.
Qed.

Lemma simple_owners f :
  simple_coders f →
  own_inputs (owners_of (coders f)) = seq 0 (length (coders f)) ∧
  own_outputs (owners_of (coders f)) = seq 0 (length (coders f)).
Proof.
  intros H. split; [rewrite <- (imap_replicate_seq num_in_streams _ 0)
    |rewrite <- (imap_replicate_seq num_out_streams _ 0)]; try reflexivity;
    eapply Forall_impl; [exact H| |exact H|]; naive_solver.
Qed.

(** The schedule of a graph of simple coders with one packed stream: each coder
    reads the output of the one before it. *)
Record chain_order (f : Folder) (g : FolderGraph) : Prop := {
  co_first : ∃ i, fg_packed_inputs g = [(0%nat, i)] ∧ head (fg_execution_order g) = Some i;
  co_bound : ∀ k a b, fg_execution_order g !! k = Some a → fg_execution_order g !! S k = Some b →
    (b, a) ∈ resolve (bind_pairs f);
  co_last : last (fg_execution_order g) = Some (fg_final_output g)
}.

Section chain_order.
  Context (f : Folder) (g : FolderGraph).
  Context (Hg : graph_spec f g) (Hv : graph_valid f) (Hsimple : simple_coders f).
  Context (Hone : length (fg_packed_inputs g) = 1%nat).
  Abbreviation order := (fg_execution_order g).
  Abbreviation pairs := (resolve (bind_pairs f)).
  Abbreviation n := (length (coders f)).

Lemma order_range k a : order !! k = Some a → (a < n)%nat.
Proof.
  intros H%list_elem_of_lookup_2. rewrite (gs_all _ _ Hg), elem_of_seq in H. lia.
Qed.

Lemma order_nodup : NoDup order.
Proof. rewrite (gs_all _ _ Hg). apply NoDup_seq. Qed.

Lemma pair_is_edge b a : (b, a) ∈ pairs → (a, b) ∈ coder_edges f.
Proof.
  intros Hin. unfold coder_edges. apply list_elem_of_fmap. exists (b, a). split; [|done].
  unfold pair_edge. cbn [fst snd]. destruct (simple_owners f Hsimple) as [Hi Ho].
  destruct (gv_pairs _ Hv) as [Hr _ _ _]. apply resolve_range in Hr as [Hri Hro].
  rewrite Hi in Hri. rewrite Ho in Hro. rewrite length_seq in Hri, Hro. rewrite Hi, Ho.
  rewrite (list_lookup_total_correct _ _ a), (list_lookup_total_correct _ _ b); [done| |];
    apply lookup_seq; split; try done.
  - by apply Hri, (list_elem_of_fmap_2 fst _ (b, a)).
  - by apply Hro, (list_elem_of_fmap_2 snd _ (b, a)).
Qed.

Lemma packed_unbound : ∃ i, fg_packed_inputs g = [(0%nat, i)] ∧
  ∀ x, (x < n)%nat → x ∉ pairs.*1 → x = i.
Proof.
  destruct (gs_packed _ _ Hg) as [H1 H2].
  destruct (fg_packed_inputs g) as [|[s i] [|]] eqn:E; cbn in Hone; try done.
  cbn in H1. injection H1 as ->. exists i. split; [done|]. intros x Hx Hnb.
  assert (x ∈ [i]) as ?%list_elem_of_singleton; [|done]. rewrite H2.
  apply list_elem_of_filter. split; [done|]. apply elem_of_seq.
  rewrite (gs_inputs _ _ Hg), (proj1 (simple_owners f Hsimple)), length_seq. lia.
Qed.

(** A coder whose input is bound comes after the one that writes it. *)
Lemma bound_before k b a : order !! k = Some b → (b, a) ∈ pairs →
  ∃ j, (j < k)%nat ∧ order !! j = Some a.
Proof. intros Hk Hin. apply (gs_order _ _ Hg _ _ _ Hk). by apply pair_is_edge. Qed.

Lemma source_unique a b b' : (b, a) ∈ pairs → (b', a) ∈ pairs → b = b'.
Proof.
  destruct (gv_pairs _ Hv) as [_ _ Hnd _]. intros H1 H2.
  apply list_elem_of_lookup in H1 as [i Hi], H2 as [j Hj].
  assert (i = j) as ->; [|congruence].
  eapply NoDup_lookup; [exact Hnd| |]; rewrite list_lookup_fmap;
    [rewrite Hi|rewrite Hj]; done.
Qed.

Lemma chain_adjacent k a b :
  order !! k = Some a → order !! S k = Some b → (b, a) ∈ pairs.
Proof.
  destruct packed_unbound as (i & _ & Hun).
  assert (Hbnd : ∀ k x, order !! k = Some x → x = i ∨ ∃ o j, (x, o) ∈ pairs ∧ (j < k)%nat ∧ order !! j = Some o).
  { intros k' x Hx. destruct (decide (x ∈ pairs.*1)) as [Hin|Hin].
    - apply list_elem_of_fmap in Hin as ([x' o] & -> & Hin). right.
      destruct (bound_before _ _ _ Hx Hin) as (j & ? & ?). by exists o, j.
    - left. apply Hun; [by eapply order_range|done]. }
  assert (H0 : ∀ x, order !! 0%nat = Some x → x = i).
  { intros x Hx. destruct (Hbnd _ _ Hx) as [|(o & j & _ & Hj & _)]; [done|lia]. }
  revert k a b. induction k as [k IH] using lt_wf_ind. intros a b Ha Hb.
  destruct (Hbnd _ _ Hb) as [->|(o & j & Hin & Hj & Ho)].
  { destruct (order !! 0%nat) as [x|] eqn:Ex; [|by rewrite lookup_ge_None in Ex;
      apply lookup_lt_Some in Hb; lia].
    rewrite (H0 x eq_refl) in Ex. pose proof (NoDup_lookup _ _ _ _ order_nodup Ex Hb). lia. }
  destruct (decide (j = k)) as [->|Hne]; [by simplify_eq|].
  destruct (lookup_lt_is_Some_2 order (S j)) as [b' Hb'].
  { apply lookup_lt_Some in Hb. lia. }
  assert (b' = b) as ->; [by eapply source_unique, Hin; eapply IH, Hb'; [lia|]|].
  pose proof (NoDup_lookup _ _ _ _ order_nodup Hb Hb'). lia.
Qed.

Lemma graph_chain_order : chain_order f g.
Proof.
  assert (Hl : length order = n) by (rewrite (gs_all _ _ Hg); apply length_seq).
  destruct packed_unbound as (i & Hi & Hun).
  assert (Hne : (0 < n)%nat).
  { destruct (gs_final _ _ Hg (fg_final_output g)) as [_ Hf]. destruct (Hf eq_refl) as [Hlt _].
    rewrite (gs_outputs _ _ Hg), (proj2 (simple_owners f Hsimple)), length_seq in Hlt. lia. }
  split; [|apply chain_adjacent|].
  - exists i. split; [done|]. rewrite head_lookup.
    destruct (lookup_lt_is_Some_2 order 0) as [x Hx]; [lia|]. rewrite Hx. f_equal.
    apply Hun; [by eapply order_range|]. intros ([x' o] & -> & Hin)%list_elem_of_fmap.
    destruct (bound_before _ _ _ Hx Hin) as (j & ? & _). lia.
  - rewrite last_lookup. destruct (lookup_lt_is_Some_2 order (pred (length order))) as [x Hx]; [lia|].
    rewrite Hx. f_equal. apply (gs_final _ _ Hg). split.
    { rewrite (gs_outputs _ _ Hg), (proj2 (simple_owners f Hsimple)), length_seq. by eapply order_range. }
    intros ([b x'] & -> & Hin)%list_elem_of_fmap. cbn in Hx.
    assert (b ∈ order) as [k Hk]%list_elem_of_lookup.
    { rewrite (gs_all _ _ Hg), elem_of_seq. split; [lia|].
      destruct (gv_pairs _ Hv) as [Hr _ _ _]. apply resolve_range in Hr as [Hri _].
      rewrite (proj1 (simple_owners f Hsimple)), length_seq in Hri.
      by apply Hri, (list_elem_of_fmap_2 fst _ (b, x')). }
    destruct (bound_before _ _ _ Hk Hin) as (j & Hj & Hxj).
    pose proof (NoDup_lookup _ _ _ _ order_nodup Hx Hxj). apply lookup_lt_Some in Hk. lia.
Qed.

End chain_order.

(** ** What compilation guarantees *)

Section compiled.
  Context `{LzmaMemory}.

(** Only PPMd looks at its output size. *)
Lemma compile_any_size c o o' p :
  CoderPlan_compile c o = Ok p → CoderPlan_preserves_size p = true → CoderPlan_compile c o' = Ok p.
Proof.
  unfold CoderPlan_compile. cbv zeta. destruct (method_info (codec_id c)) as [info|]; [|done].
  destruct (MethodInfo_can_decode info); [|done]. destruct (mi_method info); try done.
  destruct (ok_or (properties c) _) as [b|]; [|done]. destruct (ppmd_properties b) as [[]|]; [|done].
  destruct (OutputSize_require o); [|done]. by intros [= <-].
Qed.

(** A planned step of the coder [i] with the output [o]: its compiled plan, with an
    output size that agrees with the folder's table and, when it keeps the size, with
    its input. *)
Record step_of (f : Folder) (sizes : CoderOutputSizes) (i o : nat) (s : DecodeStep) : Prop := {
  so_plan : ∃ c, coders f !! i = Some c ∧ CoderPlan_compile c (ds_output s) = Ok (ds_coder s);
  so_size : size_refines (CoderOutputSizes_get sizes o) (ds_output s);
  so_keeps : CoderPlan_preserves_size (ds_coder s) = true → size_refines (ds_input s) (ds_output s)
}.

Record sized_of (f : Folder) (sizes : CoderOutputSizes) (i o : nat) (s : SizedCoder) : Prop := {
  zo_plan : ∃ c, coders f !! i = Some c ∧ CoderPlan_compile c (sc_output s) = Ok (sc_coder s);
  zo_size : size_refines (CoderOutputSizes_get sizes o) (sc_output s)
}.

(** The steps from [input] on: each takes what the one before it gives. *)
Fixpoint linked (input : OutputSize) (steps : list DecodeStep) : Prop :=
  match steps with
  | [] => True
  | s :: steps => ds_input s = input ∧ linked (ds_output s) steps
  end.

Lemma bind_size_spec f sizes i o z input s :
  sized_of f sizes i o z → SizedCoder_bind_size z input = Ok s →
  step_of f sizes i o s ∧ ds_input s = input ∧ ds_coder s = sc_coder z ∧
  size_refines (sc_output z) (ds_output s) ∧
  (CoderPlan_preserves_size (sc_coder z) = true → ds_output s = sc_output z ∨ ds_output s = input).
Proof.
  intros [(c & Hc & Hp) Hz]. unfold SizedCoder_bind_size.
  destruct (CoderPlan_preserves_size (sc_coder z)) eqn:Ek.
  - destruct (OutputSize_reconcile _ _) as [out|] eqn:Er; [|done]. intros [= <-]. cbn.
    apply reconcile_refines in Er as (H1 & H2 & Hor). split_and!; try done. split; cbn.
    + exists c. split; [done|]. by eapply compile_any_size.
    + intros n Hn. by apply H1, Hz.
    + done.
  - intros [= <-]. cbn. split_and!; try done; [split; cbn; [by exists c|done|congruence]|].
    by intros n.
Qed.

(** Back to front: a coder that keeps the size passes on its own output size. *)
Fixpoint inferred (next : OutputSize) (sized : list SizedCoder) : Prop :=
  match sized with
  | [] => True
  | s :: sized =>
      size_refines next (sc_output s) ∧
      inferred (if CoderPlan_preserves_size (sc_coder s) then sc_output s else Unknown) sized
  end.

Lemma compile_steps_spec f sizes order next sized :
  compile_steps f sizes order next = Ok sized →
  Forall2 (λ i, sized_of f sizes i i) order sized ∧ inferred next sized.
Proof.
  revert next sized. induction order as [|i order IH]; intros next sized; cbn.
  { intros [= <-]. by split; [constructor|]. }
  destruct (coders f !! i) as [c|] eqn:Ec; cbn [ok_or]; [|done].
  destruct (OutputSize_reconcile _ _) as [out|] eqn:Er; [|done].
  unfold SizedCoder_compile. destruct (CoderPlan_compile c out) as [p|] eqn:Ep; [|done]. cbn.
  destruct (compile_steps _ _ _ _) as [rest|] eqn:Es; [|done]. intros [= <-].
  apply IH in Es as [Hall Hinf]. apply reconcile_refines in Er as (H1 & H2 & _).
  split; [constructor; [|done]; split; cbn; [by exists c|done]|by split].
Qed.

Lemma bind_sizes_spec f sizes order sized input steps :
  Forall2 (λ i, sized_of f sizes i i) order sized → bind_sizes sized input = Ok steps →
  Forall2 (λ i, step_of f sizes i i) order steps ∧ linked input steps ∧
  Forall2 (λ z s, ds_coder s = sc_coder z ∧ size_refines (sc_output z) (ds_output s) ∧
    (CoderPlan_preserves_size (sc_coder z) = true →
     ds_output s = sc_output z ∨ ds_output s = ds_input s)) sized steps.
Proof.
  intros Hall. revert input steps. induction Hall as [|i z order sized Hz _ IH]; intros input steps; cbn.
  { intros [= <-]. by split_and!. }
  destruct (SizedCoder_bind_size z input) as [s|] eqn:Eb; [|done].
  destruct (bind_sizes sized (ds_output s)) as [rest|] eqn:Er; [|done]. intros [= <-].
  apply (bind_size_spec _ _ _ _ _ _ _ Hz) in Eb as (Hs & <- & Hc & Hr & Hk).
  apply IH in Er as (H1 & H2 & H3). split_and!; by try constructor.
Qed.

(** The sizes inferred from the end and those passed on from the start agree. *)
Lemma inferred_rev_adjacent next sized k z z' :
  inferred next (rev sized) → sized !! k = Some z → sized !! S k = Some z' →
  CoderPlan_preserves_size (sc_coder z') = true → size_refines (sc_output z') (sc_output z).
Proof.
  assert (Hfw : ∀ l next k z z', inferred next l → l !! k = Some z' → l !! S k = Some z →
    CoderPlan_preserves_size (sc_coder z') = true → size_refines (sc_output z') (sc_output z)).
  { induction l as [|y l IH]; intros nx [|j] a a' Hi Ha' Ha Hp; cbn in *; try done.
    - injection Ha' as ->. destruct l as [|y' l]; cbn in Ha; [done|]. injection Ha as ->.
      destruct Hi as [_ [Hi _]]. by rewrite Hp in Hi.
    - destruct Hi as [_ Hi]. by eapply IH. }
  intros Hi Hz Hz'. pose proof (lookup_lt_Some _ _ _ Hz') as Hlt. rewrite rev_alt in Hi.
  change (rev_append sized []) with (reverse sized) in Hi.
  apply (Hfw _ next (length sized - S (S k))%nat z z' Hi); rewrite reverse_lookup by lia.
  - rewrite <- Hz'. f_equal. lia.
  - rewrite <- Hz. f_equal. lia.
Qed.

(** ** Memory *)

(** The working set of every step, and their sum. *)
Definition working_sets (steps : list DecodeStep) (ws : list Z) : Prop :=
  Forall2 (λ s w, CoderPlan_working_set (ds_coder s) = Ok w) steps ws.
Definition sum_all (ws : list Z) : Z := foldr Z.add 0 ws.

Lemma add_working_sets_spec total steps m :
  add_working_sets total steps = Ok m → ∃ ws, working_sets steps ws ∧ m = total + sum_all ws.
Proof.
  unfold add_working_sets, working_sets, sum_all. revert total.
  induction steps as [|s steps IH]; intros total; cbn [try_fold].
  { intros [= <-]. exists []. split; [constructor|cbn; lia]. }
  destruct (CoderPlan_working_set (ds_coder s)) as [w|] eqn:Ew; cbn [ok_or]; [|done].
  unfold WorkingSet_add at 1, checked_add. case_decide; cbn [ok_or]; [|done].
  intros (ws & Hws & ->)%IH. exists (w :: ws). split; [by constructor|cbn; lia].
Qed.

(** Memory the budget has admitted, under its limit and the program's. *)
Record admitted (memory : Z) (budget budget' : OperationBudget) : Prop := {
  ad_cap : memory ≤ MAX_DECODER_WORKING_SET_BYTES;
  ad_limit : ∀ l, max_decoder_working_set_bytes (ob_limits budget) = Some l → memory ≤ l;
  ad_budget : budget' = set_counters budget (ob_metadata budget) (ob_decoded budget)
                          (Z.max (ob_peak_decoder_working_set budget) memory)
}.

Lemma WorkingSet_admit_spec memory budget m budget' :
  WorkingSet_admit memory budget = Ok (m, budget') → m = memory ∧ admitted memory budget budget'.
Proof.
  unfold WorkingSet_admit, admit_decoder_working_set. case_decide as Hd; [done|].
  intros [= <- <-]. split; [done|].
  destruct (max_decoder_working_set_bytes (ob_limits budget)) as [l|] eqn:El;
    (split; [lia| |done]); intros l' Hl'; rewrite El in Hl'; [|done].
  injection Hl' as <-. lia.
Qed.

(** ** Chains *)

(** A chain of [f]: its coders in the order the bind pairs give them, from the one
    packed stream to the final output, every step taking what the one before it
    gives. *)
Record chain_plan (f : Folder) (g : FolderGraph) (sizes : CoderOutputSizes)
    (packed_size final_size : Z) (steps : list DecodeStep) : Prop := {
  cp_order : chain_order f g;
  cp_steps : Forall2 (λ i, step_of f sizes i i) (fg_execution_order g) steps;
  cp_linked : linked (Known packed_size) steps;
  cp_keeps : Forall (λ s, CoderPlan_preserves_size (ds_coder s) = true →
                          ds_input s = ds_output s) steps;
  cp_final : ds_output <$> last steps = Some (Known final_size)
}.

Lemma Forall2_rev {A B} (P : A → B → Prop) l k : Forall2 P l k → Forall2 P (rev l) (rev k).
Proof. rewrite !rev_alt. apply Forall2_reverse. Qed.

Lemma linked_lookup input steps k s t :
  linked input steps → steps !! k = Some s → steps !! S k = Some t → ds_input t = ds_output s.
Proof.
  revert input k. induction steps as [|u steps IH]; intros input [|k] Hl Hs Ht; cbn in *; try done;
    destruct Hl as [_ Hl].
  - injection Hs as ->. destruct steps as [|v steps]; [done|]. injection Ht as ->. apply Hl.
  - by eapply IH.
Qed.

Lemma compile_chain_spec f g unpack_size sizes inputs budget plan budget' :
  chain_order f g → os_final_index sizes = fg_final_output g → os_final_size sizes = unpack_size →
  compile_chain f g sizes inputs budget = Ok (plan, budget') →
  ∃ packed_size steps ws, inputs = [packed_size] ∧ dp_inputs plan = inputs ∧
    dp_topology plan = Chain steps ∧ chain_plan f g sizes packed_size unpack_size steps ∧
    working_sets steps ws ∧ dp_memory plan = sum_all ws ∧ admitted (dp_memory plan) budget budget'.
Proof.
  intros Ho Hfi Hfs. unfold compile_chain.
  destruct inputs as [|packed_size [|]]; try done.
  destruct (compile_steps _ _ _ _) as [sized|] eqn:Ec; [|done].
  destruct (bind_sizes _ _) as [steps|] eqn:Eb; [|done].
  destruct (add_working_sets 0 steps) as [m|] eqn:Em; [|done].
  destruct (WorkingSet_admit m budget) as [[m' b]|] eqn:Ea; [|done]. intros [= <- <-].
  apply compile_steps_spec in Ec as [Hz Hinf]. apply Forall2_rev in Hz.
  rewrite rev_involutive in Hz. rewrite <- (rev_involutive sized) in Hinf.
  apply (bind_sizes_spec _ _ _ _ _ _ Hz) in Eb as (Hs & Hl & Hzs).
  apply add_working_sets_spec in Em as (ws & Hws & ->).
  apply WorkingSet_admit_spec in Ea as [-> Ha].
  exists packed_size, steps, ws. cbn [dp_topology dp_memory dp_inputs]. split_and!; try done.
  split; [done|done|done| |].
  - apply Forall_lookup_2. intros k s Hk Hp.
    destruct (Forall2_lookup_r _ _ _ _ _ Hzs Hk) as (z & Hzk & Hc & Href & Hor).
    rewrite Hc in Hp. specialize (Hor Hp).
    destruct (ds_input s) as [n|] eqn:Ei.
    { destruct (Forall2_lookup_r _ _ _ _ _ Hs Hk) as (i & _ & [_ _ Hkeep]).
      rewrite Hc in Hkeep. symmetry. apply (Hkeep Hp n). done. }
    destruct Hor as [->| ->]; [|done].
    destruct (sc_output z) as [n|] eqn:Eo; [|done]. exfalso.
    destruct k as [|k].
    { destruct steps as [|s0 steps]; [done|]. injection Hk as ->. destruct Hl as [Hl _]. congruence. }
    destruct (lookup_lt_is_Some_2 (rev sized) k) as [z0 Hz0].
    { apply lookup_lt_Some in Hzk. lia. }
    destruct (Forall2_lookup_l _ _ _ _ _ Hzs Hz0) as (s0 & Hs0 & _ & Href0 & _).
    rewrite (linked_lookup _ _ _ _ _ Hl Hs0 Hk) in Ei.
    rewrite (Href0 n) in Ei; [done|].
    eapply inferred_rev_adjacent; [exact Hinf|exact Hz0|exact Hzk|exact Hp|exact Eo].
  - destruct Ho as [_ _ Hlast]. rewrite last_lookup in Hlast. rewrite last_lookup.
    destruct (Forall2_lookup_l _ _ _ _ _ Hs Hlast) as (s & Hk & [_ Hsz _]).
    rewrite (Forall2_length _ _ _ Hs) in Hk. rewrite Hk. cbn. f_equal. apply Hsz.
    unfold CoderOutputSizes_get. by rewrite decide_True, Hfs.
Qed.

(** ** BCJ2 *)

(** A channel: its coders from its packed stream on, and the bytes it gives. *)
Record channel_plan (f : Folder) (sizes : CoderOutputSizes) (inputs : list Z)
    (channel : Bcj2Channel) (steps : list DecodeStep) : Prop := {
  hp_steps : Forall2 (λ c, step_of f sizes (bc_index c) (bc_output c)) (ch_coders channel) steps;
  hp_linked : ∃ size, inputs !! ch_packed channel = Some size ∧ linked (Known size) steps
}.

Definition channel_gives (inputs : list Z) (channel : Bcj2Channel) (steps : list DecodeStep)
    (size : Z) : Prop :=
  match last steps with
  | Some s => ds_output s = Known size
  | None => inputs !! ch_packed channel = Some size
  end.

(** The plan of a BCJ2 folder: its three data channels give as many bytes as the
    folder, and the memory counts every coder, the BCJ2 buffers and the output. *)
Record bcj2_plan (f : Folder) (sizes : CoderOutputSizes) (inputs : list Z) (unpack_size memory : Z)
    (layout : Bcj2Layout) (main call jump control : list DecodeStep) : Prop := {
  bp_main : channel_plan f sizes inputs (bl_main layout) main;
  bp_call : channel_plan f sizes inputs (bl_call layout) call;
  bp_jump : channel_plan f sizes inputs (bl_jump layout) jump;
  bp_control : channel_plan f sizes inputs (bl_control layout) control;
  bp_total : ∃ m c j, channel_gives inputs (bl_main layout) main m ∧
    channel_gives inputs (bl_call layout) call c ∧ channel_gives inputs (bl_jump layout) jump j ∧
    m + c + j = unpack_size;
  bp_output : unpack_size ≤ MAX_BCJ2_OUTPUT_BYTES;
  bp_memory : ∃ ws, working_sets (main ++ call ++ jump ++ control) ws ∧
    memory = sum_all ws + BCJ2_READER_WORKING_SET_BYTES + unpack_size ∧ memory ≤ MAX_BCJ2_WORKING_BYTES
}.

Lemma PackedLayout_size_spec inputs slot n : PackedLayout_size inputs slot = Ok n → inputs !! slot = Some n.
Proof.
  unfold PackedLayout_size, usize_try_from. destruct (inputs !! slot) as [s|]; cbn [ok_or]; [|done].
  case_decide; cbn [ok_or]; [|done]. by intros [= ->].
Qed.

Lemma channel_steps_spec f sizes cs input steps :
  channel_steps f sizes cs input = Ok steps →
  Forall2 (λ c, step_of f sizes (bc_index c) (bc_output c)) cs steps ∧ linked input steps.
Proof.
  revert input steps. induction cs as [|c cs IH]; intros input steps; cbn.
  { intros [= <-]. by split. }
  destruct (coders f !! bc_index c) as [co|] eqn:Ec; cbn [ok_or]; [|done].
  unfold SizedCoder_compile. destruct (CoderPlan_compile co _) as [p|] eqn:Ep; [|done].
  destruct (SizedCoder_bind_size _ input) as [s|] eqn:Eb; [|done].
  destruct (channel_steps f sizes cs (ds_output s)) as [rest|] eqn:Er; [|done]. intros [= <-].
  apply IH in Er as [Hall Hl].
  eapply (bind_size_spec f sizes (bc_index c) (bc_output c)) in Eb as (Hs & Hi & _);
    [|by split; [exists co|intros n]].
  split; [by constructor|by split].
Qed.

Lemma compile_channel_spec f sizes inputs channel steps :
  compile_channel f sizes inputs channel = Ok steps → channel_plan f sizes inputs channel steps.
Proof.
  unfold compile_channel. destruct (PackedLayout_size inputs _) as [n|] eqn:En; [|done].
  intros [Hs Hl]%channel_steps_spec. split; [done|]. exists n.
  split; [by apply PackedLayout_size_spec|done].
Qed.

Lemma channel_output_spec inputs channel steps n :
  channel_output inputs (steps, ch_packed channel) = Ok n → channel_gives inputs channel steps n.
Proof.
  unfold channel_output, channel_gives. cbn [fst snd]. destruct (last steps) as [s|].
  - destruct (ds_output s); cbn; [|done]. by intros [= ->].
  - apply PackedLayout_size_spec.
Qed.

Lemma compile_bcj2_spec f layout unpack_size sizes inputs budget plan budget' :
  compile_bcj2 f layout unpack_size sizes inputs budget = Ok (plan, budget') →
  ∃ main call jump control slots, dp_inputs plan = inputs ∧
    dp_topology plan = TopologyBcj2 main call jump control slots unpack_size ∧
    bcj2_plan f sizes inputs unpack_size (dp_memory plan) layout main call jump control ∧
    [sl_main slots; sl_call slots; sl_jump slots; sl_control slots] =
      map ch_packed [bl_main layout; bl_call layout; bl_jump layout; bl_control layout] ∧
    admitted (dp_memory plan) budget budget'.
Proof.
  unfold compile_bcj2, bcj2_output_size, usize_try_from.
  case_decide; cbn [ok_or]; [|done]. case_decide as Hout; [done|].
  destruct (compile_channel f sizes inputs (bl_main layout)) as [main|] eqn:Em; [|done].
  destruct (compile_channel f sizes inputs (bl_call layout)) as [call|] eqn:Ec; [|done].
  destruct (compile_channel f sizes inputs (bl_jump layout)) as [jump|] eqn:Ej; [|done].
  destruct (compile_channel f sizes inputs (bl_control layout)) as [control|] eqn:Ek; [|done].
  cbv zeta. cbn [sl_main sl_call sl_jump try_fold].
  destruct (channel_output inputs (main, _)) as [m|] eqn:Om; [|done].
  unfold checked_add at 1. case_decide; cbn [ok_or]; [|done].
  destruct (channel_output inputs (call, _)) as [c|] eqn:Oc; [|done].
  unfold checked_add at 1. case_decide; cbn [ok_or]; [|done].
  destruct (channel_output inputs (jump, _)) as [j|] eqn:Oj; [|done].
  unfold checked_add at 1. case_decide; cbn [ok_or]; [|done].
  case_decide as Hsum; [done|].
  destruct (add_working_sets 0 _) as [mem|] eqn:Ew; [|done].
  apply add_working_sets_spec in Ew as (ws & Hws & ->).
  unfold WorkingSet_add, checked_add. case_decide; cbn [ok_or]; [|done].
  unfold ensure_bcj2_working_budget, checked_add. case_decide; cbn [ok_or]; [|done].
  case_decide as Hb; [done|]. case_decide; cbn [ok_or]; [|done].
  destruct (WorkingSet_admit _ budget) as [[mem b]|] eqn:Ea; [|done]. intros [= <- <-].
  apply WorkingSet_admit_spec in Ea as [-> Ha].
  eexists main, call, jump, control, _. cbn [dp_topology dp_inputs dp_memory].
  split_and!; try done.
  split; try by apply compile_channel_spec.
  - exists m, c, j. split_and!; [by apply channel_output_spec..|lia].
  - lia.
  - exists ws. split_and!; [done|lia|lia].
Qed.

(** ** Both *)

Definition plan_sound (f : Folder) (g : FolderGraph) (sizes : CoderOutputSizes) (packed : list Z)
    (unpack_size : Z) (plan : DecoderPlan) : Prop :=
  match dp_topology plan with
  | Chain steps =>
      ∃ size ws, packed = [size] ∧ chain_plan f g sizes size unpack_size steps ∧
        working_sets steps ws ∧ dp_memory plan = sum_all ws
  | TopologyBcj2 main call jump control slots output_size =>
      ∃ layout, bcj2_layout g f = Ok (Some layout) ∧ output_size = unpack_size ∧
        [sl_main slots; sl_call slots; sl_jump slots; sl_control slots] =
          map ch_packed [bl_main layout; bl_call layout; bl_jump layout; bl_control layout] ∧
        bcj2_plan f sizes packed unpack_size (dp_memory plan) layout main call jump control
  end.

Lemma decoder_topology_spec f g t :
  decoder_topology f g = Ok t →
  match t with Some l => bcj2_layout g f = Ok (Some l) | None => simple_coders f end.
Proof.
  unfold decoder_topology. destruct (bcj2_layout g f) as [[l|]|] eqn:El; [..|done].
  - destruct (List.find _ _); cbn [ok_or]; [|done]. destruct (no_properties _); [|done].
    by intros [= <-].
  - destruct (List.find _ _); [done|]. destruct (forallb _ _) eqn:Ef; [|done]. intros [= <-].
    apply Forall_forall. intros c Hc%list_elem_of_In. rewrite forallb_forall in Ef.
    by apply Ef, bool_decide_eq_true in Hc.
Qed.

Lemma partial_sizes f g unpack_size declared sizes :
  CoderOutputSizes_partial f g unpack_size declared = Ok sizes →
  os_final_index sizes = fg_final_output g ∧ os_final_size sizes = unpack_size ∧
  os_declared sizes = declared.
Proof.
  unfold CoderOutputSizes_partial. destruct (total_out_streams f); [|done].
  case_decide; [done|]. cbv zeta. destruct (match _ with Some _ => _ | None => _ end); [done|].
  by intros [= <-].
Qed.

Lemma compiled_plan_spec f g unpack_size declared sizes packed budget plan budget' :
  Folder_graph f = Ok g →
  CoderOutputSizes_partial f g unpack_size declared = Ok sizes →
  DecoderPlan_with_output_sizes f g unpack_size sizes packed budget = Ok (plan, budget') →
  dp_inputs plan = packed ∧ length packed = length (fg_packed_inputs g) ∧
  zlen (coders f) ≤ MAX_FOLDER_CODERS ∧ plan_sound f g sizes packed unpack_size plan ∧
  admitted (dp_memory plan) budget budget'.
Proof.
  intros Hg Hsz. apply partial_sizes in Hsz as (Hfi & Hfs & _).
  destruct (Folder_graph_cases f) as [(Hv & g' & Hg' & Hs)|[_ Hg']]; [|congruence].
  rewrite Hg in Hg'. injection Hg' as <-.
  unfold DecoderPlan_with_output_sizes, validate_folder_coder_count.
  case_decide as Hc; [done|]. case_decide as Hlen; [done|].
  destruct (decoder_topology f g) as [t|] eqn:Et; [|done]. apply decoder_topology_spec in Et.
  unfold plan_sound. destruct t as [layout|]; intros Hcomp.
  - apply (compile_bcj2_spec f layout unpack_size) in Hcomp as (main & call & jump & control & slots & Hi & -> & Hp & Hsl & Ha).
    split_and!; [done|done|lia| |done]. by exists layout.
  - assert (length (fg_packed_inputs g) = 1%nat) as Hone.
    { rewrite Hlen. unfold compile_chain in Hcomp. by destruct packed as [|? [|]]. }
    apply (compile_chain_spec f g unpack_size) in Hcomp as (size & steps & ws & Hp & Hi & -> & Hcp & Hws & Hm & Ha);
      [|by apply graph_chain_order|done|done].
    split_and!; [done|done|lia| |done]. by exists size, ws.
Qed.

(** ** Properties *)

(** C27. A decoder plan that compiles runs the folder's graph. The coders of a chain
    stand in the order the bind pairs give them, from the one packed stream to the
    final output; each is compiled from its own properties, takes as input what the
    one before it puts out, has the size the folder's table declares, and the last
    has the size of the folder; the sizes on both sides of a length-preserving filter
    are the same, inferred from either end. The channels of a BCJ2 folder run the
    recognised layout in the same way, and its three data channels together give
    exactly the folder's bytes. In both cases the memory of the plan is the sum of its
    decoders' working sets, which the budget has admitted. *)
Theorem compiled_plan_sound f g unpack_size declared sizes packed budget plan budget' :
  Folder_graph f = Ok g →
  CoderOutputSizes_partial f g unpack_size declared = Ok sizes →
  DecoderPlan_with_output_sizes f g unpack_size sizes packed budget = Ok (plan, budget') →
  dp_inputs plan = packed ∧ length packed = length (fg_packed_inputs g) ∧
  zlen (coders f) ≤ MAX_FOLDER_CODERS ∧ plan_sound f g sizes packed unpack_size plan ∧
  admitted (dp_memory plan) budget budget'.
Proof. apply compiled_plan_spec. Qed.

End compiled.

(** ** Witnesses *)

(** An estimate of one MiB for every dictionary and valid properties byte. *)
Definition flat_memory : LzmaMemory.
Proof.
  refine {| lzma_get_memory_usage_by_props := λ _ p, if decide (p < 225) then Some 1024 else None;
            lzma2_get_memory_usage := λ _, 1024 |}.
  - intros d p m. case_decide; [|done]. intros [= <-]. by compute.
  - intros _. by compute.
Defined.

(** BCJ over LZMA, the filter declared first. *)
Definition sample_filtered : Folder :=
  {| coders := [sample_coder CODEC_BCJ_X86 1;
                {| codec_id := CODEC_LZMA; num_in_streams := 1; num_out_streams := 1;
                   properties := Some [93; 0; 0; 16; 0] |}];
     bind_pairs := [(0, 1)]; packed_indices := [] |}.

Definition sample_filtered_graph : FolderGraph :=
  {| fg_execution_order := [1%nat; 0%nat]; fg_packed_inputs := [(0%nat, 1%nat)];
     fg_final_output := 0; fg_input_owners := [0; 1]%nat; fg_output_owners := [0; 1]%nat;
     fg_input_sources := [Some 1%nat; None] |}.

Definition sample_sizes : CoderOutputSizes :=
  {| os_declared := []; os_final_index := 0; os_final_size := 100 |}.

Definition sample_plan : DecoderPlan :=
  {| dp_topology := Chain
       [{| ds_coder := PlanLzma {| lp_props := 93; lp_dictionary := 2 ^ 20; lp_memory := 1179648 |};
           ds_input := Known 60; ds_output := Known 100 |};
        {| ds_coder := PlanX86; ds_input := Known 100; ds_output := Known 100 |}];
     dp_memory := 1183744; dp_inputs := [60] |}.

(** The LZMA size is inferred through the filter, from the folder's. *)
Lemma compiled_plan_sound_witness :
  ∃ budget', @DecoderPlan_with_output_sizes flat_memory sample_filtered sample_filtered_graph 100
      sample_sizes [60] (OperationBudget_new ResourceLimits_default) = Ok (sample_plan, budget') ∧
    @plan_sound flat_memory sample_filtered sample_filtered_graph sample_sizes [60] 100 sample_plan ∧
    admitted 1183744 (OperationBudget_new ResourceLimits_default) budget'.
Proof.
  eexists. split; [vm_compute; reflexivity|].
  destruct (@compiled_plan_sound flat_memory sample_filtered sample_filtered_graph 100 [] sample_sizes
    [60] (OperationBudget_new ResourceLimits_default) sample_plan
    (set_counters (OperationBudget_new ResourceLimits_default) 0 0 1183744))
    as (_ & _ & _ & Hp & Ha); [vm_compute; reflexivity..|].
  split; [exact Hp|exact Ha].
Defined.
