(* ===== verification/DecoderRun.v ===== *)
(** * Running a decoder plan (src/src/codec.rs, src/src/codec/plan.rs)

    From an admitted plan to the decoded bytes: binding the packed inputs, opening
    one reader per coder, the reader that enforces a declared size, the buffered
    BCJ2 path, and the one-shot [decompress_folder]. The decoders of the third-party
    crates are a class: what their constructors and reads do, and the streams they
    document to decode. *)

From stdpp Require Import base numbers list option strings.
From Stdlib Require Import ZArith Lia.
From S2P Require Import Prelude Method CoderInfo Folder Error Operation Readers ByteSwap Resources FolderGraph Aes DecoderPlan.

(** ** Exact sizes *)

Inductive OutputEnd := Sized | Terminated.

Record ExactSizeReader (S : Type) := { es_inner : S; es_remaining : Z; es_end : OutputEnd }.
Arguments es_inner {S}. Arguments es_remaining {S}. Arguments es_end {S}.

Definition ExactSizeReader_sized {S} (inner : S) (size : Z) : ExactSizeReader S :=
  {| es_inner := inner; es_remaining := size; es_end := Sized |}.
Definition ExactSizeReader_terminated {S} (inner : S) (size : Z) : ExactSizeReader S :=
  {| es_inner := inner; es_remaining := size; es_end := Terminated |}.

#[global] Instance ExactSizeReader_read {S} `{Reader S} : Reader (ExactSizeReader S) := λ self n,
  let set_inner inner remaining :=
    {| es_inner := inner; es_remaining := remaining; es_end := es_end self |} in
  if decide (n = 0) then (Ok [], self) else
  if decide (es_remaining self = 0) then
    match es_end self with
    | Sized => (Ok [], self)
    | Terminated =>
        match reader_read (es_inner self) 1 with
        | (Err e, inner) => (Err e, set_inner inner (es_remaining self))
        | (Ok [], inner) => (Ok [], set_inner inner (es_remaining self))
        | (Ok _, inner) =>
            (Err (IoKind InvalidData "decoder exceeded declared unpack size"),
             set_inner inner (es_remaining self))
        end
    end
  else
    match reader_read (es_inner self) (Z.min (es_remaining self) n) with
    | (Err e, inner) => (Err e, set_inner inner (es_remaining self))
    | (Ok [], inner) =>
        (Err (IoKind UnexpectedEof "decoder ended before declared unpack size"),
         set_inner inner (es_remaining self))
    | (Ok chunk, inner) => (Ok chunk, set_inner inner (es_remaining self - zlen chunk))
    end.

(** ** The crates' decoders *)

(** The decoders whose constructor can fail, and those whose cannot. *)
Inductive CheckedDecoder :=
| LzmaReader (size props dict : Z)
| Ppmd7Decoder (order memory : Z).

Inductive PlainDecoder :=
| Lzma2Reader (dict : Z)
| BcjReader (filter : SevenZMethod) (position : Z)
| DeflateDecoder | Bzip2Decoder | Deflate64Decoder
| DeltaReader (distance : Z).

Class Decoders := {
  foreign : Type → Type;
  foreign_read {S} `{Reader S} : Reader (foreign S);
  foreign_try_new {S} `{Reader S} : CheckedDecoder → S → option (foreign S);
  foreign_new {S} `{Reader S} : PlainDecoder → S → foreign S;
  bcj2 : Type → Type;
  bcj2_read {S} `{Reader S} : Reader (bcj2 S);
  bcj2_try_new {S} `{Reader S} : list S → Z → option (bcj2 S);
  bcj2_finish {S} `{Reader S} : bcj2 S → bool
}.
#[global] Existing Instance foreign_read.
#[global] Existing Instance bcj2_read.

(** ** Readers of a chain *)

(** The reader one coder makes of its input, and its boxed form. *)
Inductive CodecReader `{Decoders} `{BlockCipher} (S : Type) :=
| CrInput (input : S)
| CrForeign (decoder : foreign S)
| CrSwap (reader : ByteSwapReader S)
| CrAes (reader : Aes256CbcDecryptReader S).
Arguments CrInput {_ _ S}. Arguments CrForeign {_ _ S}.
Arguments CrSwap {_ _ S}. Arguments CrAes {_ _ S}.

Inductive StageReader `{Decoders} `{BlockCipher} (S : Type) :=
| Unchecked (reader : CodecReader S)
| Checked (reader : ExactSizeReader (CodecReader S)).
Arguments Unchecked {_ _ S}. Arguments Checked {_ _ S}.

Definition lift_read {A B C} (f : A → B) (r : C * A) : C * B := (fst r, f (snd r)).

#[global] Instance CodecReader_read `{Decoders} `{BlockCipher} {S} `{Reader S} :
    Reader (CodecReader S) := λ self n,
  match self with
  | CrInput r => lift_read CrInput (reader_read r n)
  | CrForeign r => lift_read CrForeign (reader_read r n)
  | CrSwap r => lift_read CrSwap (reader_read r n)
  | CrAes r => lift_read CrAes (reader_read r n)
  end.

#[global] Instance StageReader_read `{Decoders} `{BlockCipher} {S} `{Reader S} :
    Reader (StageReader S) := λ self n,
  match self with
  | Unchecked r => lift_read Unchecked (reader_read r n)
  | Checked r => lift_read Checked (reader_read r n)
  end.

(** A chain of [n] coders over a bounded packed input: [Box<dyn Read>]. *)
Fixpoint chain_reader `{Decoders} `{BlockCipher} (R : Type) (n : nat) : Type :=
  match n with
  | O => Take R
  | S n => StageReader (chain_reader R n)
  end.

Fixpoint chain_read `{Decoders} `{BlockCipher} {R} `{Reader R} (n : nat) : Reader (chain_reader R n) :=
  match n with
  | O => Take_read
  | S n => @StageReader_read _ _ _ (chain_read n)
  end.
#[global] Existing Instance chain_read.

Record BoxRead `{Decoders} `{BlockCipher} (R : Type) := {
  bx_depth : nat;
  bx_reader : chain_reader R bx_depth
}.
Arguments bx_depth {_ _ R}. Arguments bx_reader {_ _ R}.

#[global] Instance BoxRead_read `{Decoders} `{BlockCipher} {R} `{Reader R} : Reader (BoxRead R) :=
  λ self n, lift_read (λ r, {| bx_depth := bx_depth self; bx_reader := r |})
                      (reader_read (bx_reader self) n).

(** ** Opening (src/src/codec/plan.rs) *)

Section open.
  Context `{Decoders} `{BlockCipher} `{Sha256}.
  (** How often an interrupted AES read is retried, in the model. *)
  Context (retries : nat).

Definition known_size (size : OutputSize) : option Z :=
  match size with Known n => Some n | Unknown => None end.

Definition aes_coder_reader {S} `{Reader S} (props : AesProperties) (input : S)
    (input_size unpack_size : OutputSize) (password : option (list Z)) (budget : OperationBudget) :
    result (Aes256CbcDecryptReader S) R7zError * OperationBudget :=
  match password with
  | None => (Err PasswordRequired, budget)
  | Some password =>
      match (let? cycles := kdf_cycles (ap_num_cycles_power props) in
             charge_kdf_cycles budget cycles) with
      | Err e => (Err e, budget)
      | Ok budget =>
          let monitor := ob_monitor budget in
          let '(key, control) := derive_key_with_control password (ap_salt props)
                                   (ap_num_cycles_power props) (om_control monitor) in
          let budget := set_monitor budget
            match control with Some control => set_control monitor control | None => monitor end in
          (let? key := key in
           Aes256CbcDecryptReader_new retries input key (ap_iv props)
             (known_size input_size) (known_size unpack_size), budget)
      end
  end.

Definition checked_reader {S} (reader : CodecReader S) (output : OutputSize) : StageReader S :=
  match output with
  | Known size => Checked (ExactSizeReader_terminated reader size)
  | Unknown => Unchecked reader
  end.

(** The filter or decompressor of a plan whose constructor cannot fail. *)
Definition plain_decoder (self : CoderPlan) : option PlainDecoder :=
  match self with
  | PlanLzma2 dictionary => Some (Lzma2Reader dictionary)
  | PlanX86 => Some (BcjReader Bcj 0)
  | PlanArm => Some (BcjReader Arm 0)
  | PlanArmThumb => Some (BcjReader ArmThumb 0)
  | PlanIa64 => Some (BcjReader Ia64 0)
  | PlanPpc => Some (BcjReader Ppc 0)
  | PlanSparc => Some (BcjReader Sparc 0)
  | PlanArm64 position => Some (BcjReader Arm64 position)
  | PlanRiscv position => Some (BcjReader Riscv position)
  | PlanDeflate => Some DeflateDecoder
  | PlanBzip2 => Some Bzip2Decoder
  | PlanDeflate64 => Some Deflate64Decoder
  | PlanDelta distance => Some (DeltaReader distance)
  | _ => None
  end.

Definition CoderPlan_open {S} `{Reader S} (self : CoderPlan) (input : S)
    (input_size output : OutputSize) (password : option (list Z)) (budget : OperationBudget) :
    result (StageReader S) R7zError * OperationBudget :=
  match self with
  | PlanCopy =>
      (Ok match output with
          | Known size => Checked (ExactSizeReader_terminated (CrInput input) size)
          | Unknown => Unchecked (CrInput input)
          end, budget)
  | PlanLzma properties =>
      let size := match output with Known size => size | Unknown => u64_max end in
      (let? reader := ok_or (foreign_try_new
                        (LzmaReader size (lp_props properties) (lp_dictionary properties)) input)
                        Decompression in
       Ok (checked_reader (CrForeign reader) output), budget)
  | PlanPpmd order memory size =>
      (let? reader := ok_or (foreign_try_new (Ppmd7Decoder order memory) input) Decompression in
       Ok (Checked (ExactSizeReader_sized (CrForeign reader) size)), budget)
  | PlanSwap width => (Ok (checked_reader (CrSwap (ByteSwapReader_new input width)) output), budget)
  | PlanAes properties =>
      let '(reader, budget) := aes_coder_reader properties input input_size output password budget in
      (let? reader := reader in Ok (checked_reader (CrAes reader) output), budget)
  | self =>
      (Ok match plain_decoder self with
          | Some decoder => checked_reader (CrForeign (foreign_new decoder input)) output
          | None => Unchecked (CrInput input)
          end, budget)
  end.

Definition DecodeStep_open {S} `{Reader S} (self : DecodeStep) (input : S)
    (password : option (list Z)) (budget : OperationBudget) :
    result (StageReader S) R7zError * OperationBudget :=
  CoderPlan_open (ds_coder self) input (ds_input self) (ds_output self) password budget.

Context {R : Type} `{Reader R}.

(** One reader per step, each over the one before it. *)
Fixpoint open_steps (steps : list DecodeStep) {n} (reader : chain_reader R n)
    (password : option (list Z)) (budget : OperationBudget) :
    result (BoxRead R) R7zError * OperationBudget :=
  match steps with
  | [] => (Ok {| bx_depth := n; bx_reader := reader |}, budget)
  | step :: steps =>
      match DecodeStep_open step reader password budget with
      | (Err e, budget) => (Err e, budget)
      | (Ok reader, budget) => open_steps steps (n := S n) reader password budget
      end
  end.

(** ** Binding *)

Record PackedInput (R : Type) := { pi_reader : R; pi_size : Z }.
Arguments pi_reader {R}. Arguments pi_size {R}.

Record BoundInput (R : Type) := { bi_input : Take R; bi_coders : list DecodeStep }.
Arguments bi_input {R}. Arguments bi_coders {R}.

Record BoundBcj2 (R : Type) := {
  bb_main : BoundInput R; bb_call : BoundInput R; bb_jump : BoundInput R; bb_control : BoundInput R;
  bb_output_size : Z
}.
Arguments bb_main {R}. Arguments bb_call {R}. Arguments bb_jump {R}. Arguments bb_control {R}.
Arguments bb_output_size {R}.

Inductive BoundTopology (R : Type) :=
| BoundChain (steps : list DecodeStep) (input : Take R)
| BoundBcj2Topology (bound : BoundBcj2 R).
Arguments BoundChain {R}. Arguments BoundBcj2Topology {R}.

Record ReadyDecoder (R : Type) := { rd_topology : BoundTopology R; rd_memory : Z }.
Arguments rd_topology {R}. Arguments rd_memory {R}.

(** [PackedLayout::bind]: the readers, bounded to the planned sizes. *)
Definition PackedLayout_bind (sizes : list Z) (inputs : list (PackedInput R)) :
    result (list (option (Take R))) R7zError :=
  if decide (length inputs ≠ length sizes) then Err InvalidFolderGraph else
  if existsb (λ p, bool_decide (pi_size (fst p) ≠ snd p)) (zip inputs sizes) then Err Parse else
  Ok (map (λ p, Some {| tk_inner := pi_reader (fst p); tk_limit := snd p |}) (zip inputs sizes)).

Definition BoundInputs_take (self : list (option (Take R))) (slot : nat) :
    result (Take R * list (option (Take R))) R7zError :=
  match self !! slot with
  | Some (Some reader) => Ok (reader, <[slot := None]> self)
  | _ => Err InvalidFolderGraph
  end.

Definition DecoderPlan_bind (self : DecoderPlan) (inputs : list (PackedInput R)) :
    result (ReadyDecoder R) R7zError :=
  let? inputs := PackedLayout_bind (dp_inputs self) inputs in
  let? bound :=
    match dp_topology self with
    | Chain steps =>
        let? (input, _) := BoundInputs_take inputs 0 in Ok (BoundChain steps input)
    | TopologyBcj2 main call jump control slots output_size =>
        let? (main_input, inputs) := BoundInputs_take inputs (sl_main slots) in
        let? (call_input, inputs) := BoundInputs_take inputs (sl_call slots) in
        let? (jump_input, inputs) := BoundInputs_take inputs (sl_jump slots) in
        let? (control_input, _) := BoundInputs_take inputs (sl_control slots) in
        Ok (BoundBcj2Topology
          {| bb_main := {| bi_input := main_input; bi_coders := main |};
             bb_call := {| bi_input := call_input; bi_coders := call |};
             bb_jump := {| bi_input := jump_input; bi_coders := jump |};
             bb_control := {| bi_input := control_input; bi_coders := control |};
             bb_output_size := output_size |})
    end in
  Ok {| rd_topology := bound; rd_memory := dp_memory self |}.

Definition BoundInput_open (self : BoundInput R) (password : option (list Z))
    (budget : OperationBudget) : result (BoxRead R) R7zError * OperationBudget :=
  open_steps (bi_coders self) (n := 0) (bi_input self) password budget.

(** The eager output of a decoder that produces its bytes before they are asked
    for: BCJ2, or AES before size-preserving filters only. *)
Fixpoint eager_chain_size (rev_steps : list DecodeStep) : option Z :=
  match rev_steps with
  | [] => None
  | step :: before =>
      match ds_coder step, ds_output step with
      | PlanAes _, Known size => Some size
      | coder, _ => if CoderPlan_preserves_size coder then eager_chain_size before else None
      end
  end.

Definition ReadyDecoder_eager_output_size (self : ReadyDecoder R) : option Z :=
  match rd_topology self with
  | BoundBcj2Topology bcj2 => Some (bb_output_size bcj2)
  | BoundChain steps _ => eager_chain_size (rev steps)
  end.

End open.
Arguments pi_reader {R}. Arguments pi_size {R}.
Arguments bi_input {R}. Arguments bi_coders {R}.
Arguments bb_main {R}. Arguments bb_call {R}. Arguments bb_jump {R}. Arguments bb_control {R}.
Arguments bb_output_size {R}.
Arguments BoundChain {R}. Arguments BoundBcj2Topology {R}.
Arguments rd_topology {R}. Arguments rd_memory {R}.

(** ** Reading a folder *)

(** [std::io::Cursor<Vec<u8>>]. *)
Record Cursor := { cu_data : bytes; cu_position : Z }.
#[global] Instance Cursor_read : Reader Cursor := λ self n,
  let chunk := take (Z.to_nat n) (drop (Z.to_nat (cu_position self)) (cu_data self)) in
  (Ok chunk, {| cu_data := cu_data self; cu_position := cu_position self + zlen chunk |}).

Inductive FolderReader `{Decoders} `{BlockCipher} (R : Type) :=
| Stream (reader : BoxRead R)
| Buffered (reader : Cursor).
Arguments Stream {_ _ R}. Arguments Buffered {_ _ R}.

#[global] Instance FolderReader_read `{Decoders} `{BlockCipher} {R} `{Reader R} :
    Reader (FolderReader R) := λ self n,
  match self with
  | Stream reader => lift_read Stream (reader_read reader n)
  | Buffered reader => lift_read Buffered (reader_read reader n)
  end.

Definition monitor_check (budget : OperationBudget) : result unit R7zError * OperationBudget :=
  let '(r, monitor) := OperationMonitor_check (ob_monitor budget) in (r, set_monitor budget monitor).
Definition monitor_advance (budget : OperationBudget) (n : Z) :
    result unit R7zError * OperationBudget :=
  let '(r, monitor) := OperationMonitor_advance (ob_monitor budget) n in
  (r, set_monitor budget monitor).

(** A state-passing step that can fail. *)
Notation "'do?' ( p , s ) ':=' e 'in' k" :=
  (match e with (Err err, s) => (Err err, s) | (Ok p, s) => k end)
  (at level 10, p pattern, s name, e at level 100, k at level 200) : rust_scope.

Section start.
  Context `{Decoders} `{BlockCipher} `{Sha256} {R : Type} `{Reader R}.
  Context (retries : nat).

(** The BCJ2 output, read into its buffer; every round but the last reads a byte. *)
Fixpoint bcj2_loop (fuel : nat) (reader : bcj2 (BoxRead R)) (output : bytes) (output_size : Z)
    (budget : OperationBudget) : result (bytes * bcj2 (BoxRead R)) R7zError * OperationBudget :=
  match fuel with
  | O => (Err R7zOutOfFuel, budget)
  | S fuel =>
      if decide (zlen output < output_size) then
        do? (_, budget) := monitor_check budget in
        let before := zlen output in
        match reader_read reader
                (OperationMonitor_buffer_size (ob_monitor budget) (output_size - before)) with
        | (Err _, _) => (Err Decompression, budget)
        | (Ok chunk, reader) =>
            do? (_, budget) := monitor_advance budget (zlen chunk) in
            if decide (zlen chunk = 0) then (Ok (output, reader), budget)
            else bcj2_loop fuel reader (output ++ chunk) output_size budget
        end
      else (Ok (output, reader), budget)
  end.

Definition ReadyDecoder_start (self : ReadyDecoder R) (password : option (list Z))
    (budget : OperationBudget) : result (FolderReader R) R7zError * OperationBudget :=
  match rd_topology self with
  | BoundChain steps input =>
      do? (reader, budget) := open_steps retries steps (n := 0) input password budget in
      (Ok (Stream reader), budget)
  | BoundBcj2Topology bcj2 =>
      do? (_, budget) := monitor_check budget in
      do? (main, budget) := BoundInput_open retries (bb_main bcj2) password budget in
      do? (call, budget) := BoundInput_open retries (bb_call bcj2) password budget in
      do? (jump, budget) := BoundInput_open retries (bb_jump bcj2) password budget in
      do? (control, budget) := BoundInput_open retries (bb_control bcj2) password budget in
      match bcj2_try_new [main; call; jump; control] (bb_output_size bcj2) with
      | None => (Err Decompression, budget)
      | Some reader =>
          do? (read, budget) :=
            bcj2_loop (S (Z.to_nat (bb_output_size bcj2))) reader [] (bb_output_size bcj2) budget in
          let '(output, reader) := read in
          if decide (zlen output ≠ bb_output_size bcj2) then (Err Decompression, budget) else
          if bcj2_finish reader then
            do? (_, budget) := monitor_check budget in
            (Ok (Buffered {| cu_data := output; cu_position := 0 |}), budget)
          else (Err Decompression, budget)
      end
  end.

(** [read_to_end_bounded], without the growth of the vector's capacity: it stays
    within [max_len], and an allocation that fails is that error too. *)
Fixpoint read_to_end_bounded {S} `{Reader S} (fuel : nat) (input : S) (output : bytes)
    (max_len : Z) (resource : string) : result bytes R7zError :=
  match fuel with
  | O => Err R7zOutOfFuel
  | Datatypes.S fuel =>
      match reader_read input 8192 with
      | (Err _, _) => Err Decompression
      | (Ok chunk, input) =>
          if decide (zlen chunk = 0) then Ok output else
          if decide (max_len < zlen output + zlen chunk) then Err (resource_limit resource max_len)
          else read_to_end_bounded fuel input (output ++ chunk) max_len resource
      end
  end.

Definition ReadyDecoder_materialize (self : ReadyDecoder R) (password : option (list Z))
    (budget : OperationBudget) : result bytes R7zError * OperationBudget :=
  match WorkingSet_output_limit (rd_memory self) with
  | Err e => (Err e, budget)
  | Ok limit =>
      do? (reader, budget) := ReadyDecoder_start self password budget in
      (read_to_end_bounded (S (S (Z.to_nat limit))) reader [] limit "materialized output", budget)
  end.

(** [FolderReader::read_bounded_to_vec]; the capacity hint steers allocation only. *)
Definition FolderReader_read_bounded_to_vec (fuel : nat) (sizes : nat → Z) (self : FolderReader R)
    (read_limit : Z) : result bytes R7zError :=
  match self with
  | Stream reader =>
      map_err Io (fst (read_to_end fuel sizes {| tk_inner := reader; tk_limit := read_limit |} []))
  | Buffered reader =>
      let output := drop (Z.to_nat (Z.min (cu_position reader) (zlen (cu_data reader)))) (cu_data reader) in
      Ok (take (Z.to_nat read_limit) output)
  end.

End start.

Section decompress.
  Context `{LzmaMemory} `{Decoders} `{BlockCipher} `{Sha256}.

Definition prepare_folder_decoder {R} `{Reader R} (folder : Folder)
    (packed_streams : list (PackedInput R)) (unpack_size : Z) (coder_unpack_sizes : list Z)
    (budget : OperationBudget) : result (ReadyDecoder R * OperationBudget) R7zError :=
  let? graph := Folder_graph folder in
  let? sizes := CoderOutputSizes_partial folder graph unpack_size coder_unpack_sizes in
  let? (plan, budget) :=
    DecoderPlan_with_output_sizes folder graph unpack_size sizes (map pi_size packed_streams) budget in
  let? ready := DecoderPlan_bind plan packed_streams in
  Ok (ready, budget).

Definition decompress_folder_with_password_and_sizes (folder : Folder) (packed_data : bytes)
    (unpack_size : Z) (coder_unpack_sizes : list Z) (password : option (list Z)) :
    result bytes R7zError :=
  let? (ready, budget) :=
    prepare_folder_decoder folder
      [{| pi_reader := {| cu_data := packed_data; cu_position := 0 |}; pi_size := zlen packed_data |}]
      unpack_size coder_unpack_sizes (OperationBudget_new ResourceLimits_default) in
  fst (ReadyDecoder_materialize 1 ready password budget).

Definition decompress_folder_with_password (folder : Folder) (packed_data : bytes)
    (unpack_size : Z) (password : option (list Z)) : result bytes R7zError :=
  decompress_folder_with_password_and_sizes folder packed_data unpack_size [] password.

Definition decompress_folder (folder : Folder) (packed_data : bytes) (unpack_size : Z) :
    result bytes R7zError :=
  decompress_folder_with_password folder packed_data unpack_size None.

End decompress.

(** ** Lemmas: readers *)

Lemma lift_delivers {A B} `{Reader A} `{Reader B} (f : A → B) m a data :
  (∀ a n, reader_read (f a) n = lift_read f (reader_read a n)) →
  delivers m a data → delivers m (f a) data.
Proof.
  intros Hf Ha. exists (λ m b d, ∃ a, b = f a ∧ delivers m a d). split; [|by exists a].
  clear m a data Ha. intros m b d n (a & -> & Ha) Hn.
  destruct (delivers_read _ _ _ _ Ha Hn) as [c rest a' m' Hr Hc -> He Hm Hd|e a' m' Hr Hi Hm Hd].
  - eapply (read_gives _ _ _ _ _ c rest (f a')); try done; [by rewrite Hf, Hr|by exists a'].
  - eapply (read_interrupted _ _ _ _ _ e (f a')); try done; [by rewrite Hf, Hr|by exists a'].
Qed.

Lemma prefix_of_app {A} (c rest d extra : list A) :
  d ++ extra = c ++ rest → (length c ≤ length d)%nat → ∃ d2, d = c ++ d2 ∧ rest = d2 ++ extra.
Proof.
  intros He Hl. exists (drop (length c) d).
  assert (c = take (length c) d) as Hc.
  { rewrite <- (take_app_le _ extra), He by done. by rewrite take_app_length. }
  split; [rewrite Hc at 1; by rewrite take_drop|].
  rewrite <- (drop_app_length c rest), <- He. by rewrite drop_app_le.
Qed.

(** Enforcing the size of a stream that has it changes nothing; [Sized] drops what
    is past it. *)
Lemma ExactSizeReader_delivers {S} `{Reader S} m (inner : S) data extra en :
  delivers m inner (data ++ extra) → (en = Terminated → extra = []) →
  delivers m {| es_inner := inner; es_remaining := zlen data; es_end := en |} data.
Proof.
  intros Hd Hen. exists (λ m r d, es_end r = en ∧ es_remaining r = zlen d ∧
    delivers m (es_inner r) (d ++ extra)). split; [|done]. clear Hd.
  intros m' [inner' rem en'] d n (Hen' & Hrem & Hd) Hn. cbn in *. subst en' rem.
  destruct (decide (zlen d = 0)) as [H0|H0].
  - assert (d = []) as -> by (destruct d; [done|unfold zlen in H0; cbn in H0; lia]).
    destruct en.
    + eapply (read_gives _ _ _ _ _ [] [] _ m'); [|unfold zlen; cbn; lia|done|done|done|].
      * unfold reader_read, ExactSizeReader_read. cbn [es_remaining es_end].
        rewrite decide_False, decide_True by (done || lia). reflexivity.
      * done.
    + rewrite (Hen eq_refl) in *. cbn in Hd.
      destruct (delivers_read _ _ _ 1 Hd ltac:(lia)) as [c rest s' m2 Hr Hc He Hnil Hm Hd2|e s' m2 Hr Hi Hm Hd2].
      * symmetry in He. apply app_nil in He as [-> ->].
        eapply (read_gives _ _ _ _ _ [] [] _ m2); [|unfold zlen; cbn; lia|done|done|done|].
        -- unfold reader_read at 1, ExactSizeReader_read. cbn [es_remaining es_end es_inner].
           rewrite decide_False, decide_True, Hr by (done || lia). reflexivity.
        -- done.
      * eapply (read_interrupted _ _ _ _ _ e _ m2); [|done|done|].
        -- unfold reader_read at 1, ExactSizeReader_read. cbn [es_remaining es_end es_inner].
           rewrite decide_False, decide_True, Hr by (done || lia). reflexivity.
        -- done.
  - pose proof (zlen_nonneg d).
    destruct (delivers_read _ _ _ (Z.min (zlen d) n) Hd ltac:(lia)) as
      [c rest s' m2 Hr Hc He Hnil Hm Hd2|e s' m2 Hr Hi Hm Hd2].
    + assert (c ≠ []) as Hne.
      { intros ->. specialize (Hnil eq_refl). apply app_nil in Hnil as [-> _]. done. }
      destruct (prefix_of_app _ _ _ _ He ltac:(unfold zlen in Hc; lia)) as (d2 & -> & ->).
      eapply (read_gives _ _ _ _ _ c d2 {| es_inner := s'; es_remaining := zlen d2; es_end := en |} m2);
        [|lia|done|done|done|done].
      unfold reader_read at 1, ExactSizeReader_read. cbn [es_remaining es_end es_inner].
      rewrite decide_False, decide_False, Hr by (done || lia). destruct c as [|b c]; [done|].
      rewrite zlen_app. do 2 f_equal. f_equal. lia.
    + eapply (read_interrupted _ _ _ _ _ e _ m2); [|done|done|].
      * unfold reader_read at 1, ExactSizeReader_read. cbn [es_remaining es_end es_inner].
        rewrite decide_False, decide_False, Hr by (done || lia). reflexivity.
      * done.
Qed.

Lemma delivers_mono {S} `{Reader S} m m' (s : S) data :
  (m ≤ m')%nat → delivers m s data → delivers m' s data.
Proof.
  intros Hle Hs. exists (λ m s d, ∃ m0, (m0 ≤ m)%nat ∧ delivers m0 s d). split; [|by exists m].
  clear. intros m s d n (m0 & Hle & Hs) Hn.
  destruct (delivers_read _ _ _ _ Hs Hn) as [c rest s' m' Hr Hc He Hnil Hm Hd|e s' m' Hr Hi Hm Hd].
  - eapply (read_gives _ _ _ _ _ c rest s' m'); try done; [lia|by exists m'].
  - eapply (read_interrupted _ _ _ _ _ e s' m'); try done; [lia|by exists m'].
Qed.

Lemma Cursor_delivers data : delivers 0 {| cu_data := data; cu_position := 0 |} data.
Proof.
  exists (λ m c d, 0 ≤ cu_position c ∧ d = drop (Z.to_nat (cu_position c)) (cu_data c)).
  split; [|by cbn].
  intros m [all pos] d n [Hp ->] Hn. cbn in *.
  eapply (read_gives _ _ _ _ _ (take (Z.to_nat n) (drop (Z.to_nat pos) all))
    (drop (Z.to_nat n) (drop (Z.to_nat pos) all)) _ m).
  - reflexivity.
  - unfold zlen. rewrite length_take. lia.
  - by rewrite take_drop.
  - intros Ht. destruct (drop (Z.to_nat pos) all); [done|].
    by destruct (Z.to_nat n) eqn:E; [lia|].
  - done.
  - cbn. pose proof (zlen_nonneg (take (Z.to_nat n) (drop (Z.to_nat pos) all))). split; [lia|].
    rewrite drop_drop. unfold zlen in *. rewrite length_take.
    destruct (decide (Z.to_nat n ≤ length (drop (Z.to_nat pos) all))%nat) as [Hl|Hl].
    + f_equal. lia.
    + rewrite length_drop in *. rewrite !drop_ge by lia. done.
Qed.

(** ** Lemmas: opening *)

Lemma derive_rounds_control rounds i prefix hashed :
  ∃ b, derive_rounds rounds i prefix hashed None = (Ok b, None).
Proof. eexists. apply derive_rounds_none. Qed.

(** Without a control a supported derivation gives a 32-byte key. *)
Lemma derive_key_key `{Sha256} password salt power :
  0 ≤ power ≤ MAX_AES_NUM_CYCLES_POWER ∨ power = 63 →
  ∃ key, derive_key_with_control password salt power None = (Ok key, None) ∧ zlen key = 32.
Proof.
  intros [Hp| ->].
  - rewrite derive_key_spec by done. eexists. split; [done|]. apply sha256_len.
  - unfold derive_key_with_control. cbn [check_control]. rewrite decide_True by done.
    eexists. split; [done|]. unfold zlen. rewrite length_app, length_replicate, length_take. lia.
Qed.

(** The streams the crates document to decode. *)
Record decoders_spec `{Decoders} (plain_decodes : PlainDecoder → bytes → bytes → Prop)
    (checked_decodes : CheckedDecoder → bytes → bytes → Prop) : Prop := {
  dc_plain {S} `{Reader S} decoder m (s : S) data out :
    plain_decodes decoder data out → delivers m s data → delivers m (foreign_new decoder s) out;
  dc_checked {S} `{Reader S} decoder m (s : S) data out :
    checked_decodes decoder data out → delivers m s data →
    ∃ reader extra, foreign_try_new decoder s = Some reader ∧ delivers m reader (out ++ extra) ∧
      match decoder with LzmaReader _ _ _ => extra = [] | Ppmd7Decoder _ _ => True end
}.

Section runs.
  Context `{Decoders} `{BlockCipher} `{Sha256}.
  Context (plain_decodes : PlainDecoder → bytes → bytes → Prop)
          (checked_decodes : CheckedDecoder → bytes → bytes → Prop).
  Context (Hdec : decoders_spec plain_decodes checked_decodes) (Hcbc : cbc_inverse).
  Context (retries : nat) (password : option (list Z)).

(** What one step makes of [data]. *)
Definition plan_decodes (plan : CoderPlan) (output : OutputSize) (data out : bytes) : Prop :=
  match plan with
  | PlanCopy => out = data
  | PlanSwap width => swap_width width ∧ out = swap_groups data width
  | PlanAes p =>
      output = Known (zlen out) ∧ zlen out + 16 ≤ u64_max ∧ is_block (ap_iv p) ∧
      (0 ≤ ap_num_cycles_power p ≤ MAX_AES_NUM_CYCLES_POWER ∨ ap_num_cycles_power p = 63) ∧
      ∃ pw key, password = Some pw ∧
        derive_key_with_control pw (ap_salt p) (ap_num_cycles_power p) None = (Ok key, None) ∧
        data = encrypt_aes256_cbc_zero_pad out key (ap_iv p)
  | PlanLzma p =>
      checked_decodes (LzmaReader (match output with Known size => size | Unknown => u64_max end)
                         (lp_props p) (lp_dictionary p)) data out
  | PlanPpmd order memory size => size = zlen out ∧ checked_decodes (Ppmd7Decoder order memory) data out
  | plan => ∃ decoder, plain_decoder plan = Some decoder ∧ plain_decodes decoder data out
  end.

Record step_runs (s : DecodeStep) (data out : bytes) : Prop := {
  sr_decodes : plan_decodes (ds_coder s) (ds_output s) data out;
  sr_input : ∀ n, ds_input s = Known n → n = zlen data;
  sr_output : ∀ n, ds_output s = Known n → n = zlen out
}.

Fixpoint steps_run (steps : list DecodeStep) (data out : bytes) : Prop :=
  match steps with
  | [] => out = data
  | s :: steps => ∃ mid, step_runs s data mid ∧ steps_run steps mid out
  end.

(** A budget that neither cancels nor limits key derivation. *)
Definition unhindered (budget : OperationBudget) : Prop :=
  om_control (ob_monitor budget) = None ∧ kb_limit (ob_kdf budget) = None.

Lemma charge_kdf_unhindered budget n :
  unhindered budget → ∃ budget', charge_kdf_cycles budget n = Ok budget' ∧ unhindered budget' ∧
    om_control (ob_monitor budget') = None.
Proof.
  intros [Hc Hk]. unfold charge_kdf_cycles, KdfBudget_charge, next_total. rewrite Hk.
  destruct (checked_add _ n); cbn; eexists; (split; [reflexivity|]); done.
Qed.

Lemma checked_reader_delivers {S} `{Reader S} m (reader : CodecReader S) output out :
  delivers m reader out → (∀ n, output = Known n → n = zlen out) →
  delivers m (checked_reader reader output) out.
Proof.
  intros Hd Hn. destruct output as [n|]; cbn.
  - rewrite (Hn n eq_refl). apply (lift_delivers Checked); [done|].
    apply (ExactSizeReader_delivers m reader out []); [by rewrite app_nil_r|done].
  - by apply (lift_delivers Unchecked).
Qed.

Lemma aes_coder_reader_spec {S} `{Reader S} p m (input : S) input_size output data out budget :
  plan_decodes (PlanAes p) output data out → (∀ n, input_size = Known n → n = zlen data) →
  delivers m input data → (m < retries)%nat → unhindered budget →
  ∃ reader budget', aes_coder_reader retries p input input_size output password budget =
      (Ok reader, budget') ∧ delivers 0 reader out ∧ unhindered budget'.
Proof.
  intros (-> & Hmax & Hiv & Hpow & pw & key & -> & Hkey & ->) Hin Hd Hm [Hc Hk].
  unfold aes_coder_reader.
  assert (∃ n, kdf_cycles (ap_num_cycles_power p) = Ok n) as [n ->].
  { unfold kdf_cycles. case_decide; [by eexists|]. destruct Hpow; [|done].
    rewrite decide_True by lia. by eexists. }
  cbn [ok_or]. destruct (charge_kdf_unhindered budget n) as (b & -> & Hb & Hbc); [done|].
  rewrite Hbc, Hkey.
  destruct (derive_key_key pw (ap_salt p) (ap_num_cycles_power p) Hpow) as (key' & Hkey' & Hlen).
  rewrite Hkey in Hkey'. injection Hkey' as <-.
  destruct (decrypt_reader_delivers key (ap_iv p) out input m retries (known_size input_size))
    as (reader & Hr & Hrd); [done..| |].
  { destruct input_size as [k|]; [|by left]. right. cbn. by rewrite (Hin k). }
  exists reader, (set_monitor b (ob_monitor b)). cbn [known_size]. rewrite Hr.
  split_and!; [done|done|]. by destruct Hb.
Qed.

Lemma step_open_delivers {S} `{Reader S} s m (input : S) data out budget :
  step_runs s data out → delivers m input data → (m < retries)%nat → unhindered budget →
  ∃ reader budget' m', DecodeStep_open retries s input password budget = (Ok reader, budget') ∧
    delivers m' reader out ∧ (m' ≤ m)%nat ∧ unhindered budget'.
Proof.
  intros [Hd Hi Ho] Hdel Hm Hb. unfold DecodeStep_open.
  assert (Hplain : ∀ decoder, plain_decodes decoder data out →
    delivers m (checked_reader (CrForeign (foreign_new decoder input)) (ds_output s)) out).
  { intros decoder Hdc. apply checked_reader_delivers; [|done].
    apply (lift_delivers CrForeign); [done|]. by eapply (dc_plain _ _ Hdec). }
  destruct (ds_coder s) as [|p|dict| | | | | | |pos|pos| | |order memory size| |dist|width|p] eqn:Ec;
    cbn [plan_decodes CoderPlan_open plain_decoder] in *;
    try (destruct Hd as (decoder & [= <-] & Hd); eexists _, budget, m;
         (split_and!; [reflexivity|by apply Hplain|done|done])).
  - subst out. eexists _, budget, m. split_and!; [reflexivity| |done|done].
    assert (delivers m (CrInput input : CodecReader S) data) by by apply (lift_delivers CrInput).
    destruct (ds_output s) as [n|] eqn:Eo.
    + rewrite (Ho n eq_refl). apply (lift_delivers Checked); [done|].
      apply (ExactSizeReader_delivers m _ data []); [by rewrite app_nil_r|done].
    + by apply (lift_delivers Unchecked).
  - destruct (dc_checked _ _ Hdec _ _ _ _ _ Hd Hdel) as (r & extra & Hr & Hrd & ->).
    rewrite Hr. cbn [ok_or]. eexists _, budget, m. split_and!; [reflexivity| |done|done].
    apply checked_reader_delivers; [|done]. rewrite app_nil_r in Hrd. by apply (lift_delivers CrForeign).
  - destruct Hd as [-> Hd].
    destruct (dc_checked _ _ Hdec _ _ _ _ _ Hd Hdel) as (r & extra & Hr & Hrd & _).
    rewrite Hr. cbn [ok_or]. eexists _, budget, m. split_and!; [reflexivity| |done|done].
    apply (lift_delivers Checked); [done|]. apply (ExactSizeReader_delivers m _ out extra); [|done].
    by apply (lift_delivers CrForeign).
  - destruct Hd as [Hw ->]. eexists _, budget, m. split_and!; [reflexivity| |done|done].
    apply checked_reader_delivers; [|done]. apply (lift_delivers CrSwap); [done|].
    by apply ByteSwapReader_delivers.
  - destruct (aes_coder_reader_spec p m input (ds_input s) (ds_output s) data out budget)
      as (r & b & -> & Hr & Hb'); [done..|].
    eexists _, b, 0%nat. split_and!; [reflexivity| |lia|done].
    apply checked_reader_delivers; [|done]. by apply (lift_delivers CrAes).
Qed.

Context {R : Type} `{Reader R}.

Lemma open_steps_delivers steps n (reader : chain_reader R n) m data out budget :
  steps_run steps data out → delivers m reader data → (m < retries)%nat → unhindered budget →
  ∃ r budget' m', open_steps retries steps reader password budget = (Ok r, budget') ∧
    delivers m' r out ∧ (m' ≤ m)%nat ∧ unhindered budget'.
Proof.
  revert n reader m data budget.
  induction steps as [|s steps IH]; intros n reader m data budget Hrun Hd Hm Hb; cbn in Hrun |- *.
  { subst out. eexists _, budget, m. split_and!; [reflexivity| |done|done].
    by apply (lift_delivers (λ r, {| bx_depth := n; bx_reader := r |})). }
  destruct Hrun as (mid & Hs & Hrun).
  destruct (step_open_delivers s m reader data mid budget) as (r & b & m' & -> & Hr & Hle & Hb'); [done..|].
  destruct (IH (Datatypes.S n) r m' mid b) as (r2 & b2 & m2 & -> & ? & ? & ?); [done|done|lia|done|].
  exists r2, b2, m2. split_and!; try done. lia.
Qed.

End runs.

(** ** Lemmas: bounds *)

Lemma lift_bounded {A B} `{Reader A} `{Reader B} (f : A → B) a :
  (∀ a n, reader_read (f a) n = lift_read f (reader_read a n)) → bounded a → bounded (f a).
Proof.
  intros Hf Ha. exists (λ b, ∃ a, b = f a ∧ bounded a). split; [|by exists a].
  intros b n res b' (a' & -> & Hb) Hn Hr. rewrite Hf in Hr.
  destruct (reader_read a' n) as [res' a2] eqn:E. cbn in Hr. injection Hr as <- <-.
  destruct (bounded_read _ _ _ _ Hb Hn E) as [? ?]. split; [by exists a2|done].
Qed.

Lemma ExactSizeReader_bounded {S} `{Reader S} (inner : S) size en :
  bounded inner → 0 ≤ size → bounded {| es_inner := inner; es_remaining := size; es_end := en |}.
Proof.
  intros Hi Hs. exists (λ r, bounded (es_inner r) ∧ 0 ≤ es_remaining r). split; [|done].
  intros [r rem e] n res s' [Hr Hrem] Hn. unfold reader_read at 1, ExactSizeReader_read.
  cbn [es_inner es_remaining es_end] in *.
  case_decide as H0; [intros [= <- <-]; split; [done|rewrite zlen_nil; lia]|].
  case_decide as H1.
  - destruct e; [intros [= <- <-]; split; [done|rewrite zlen_nil; lia]|].
    destruct (reader_read r 1) as [res1 r1] eqn:Er.
    destruct (bounded_read _ 1 _ _ Hr ltac:(lia) Er) as [Hb1 _].
    destruct res1 as [[|? ?]|]; intros [= <- <-]; (split; [done|]); rewrite ?zlen_nil; (done || lia).
  - destruct (reader_read r (Z.min rem n)) as [res1 r1] eqn:Er.
    destruct (bounded_read _ (Z.min rem n) _ _ Hr ltac:(lia) Er) as [Hb1 Hc].
    destruct res1 as [[|? ?]|]; intros [= <- <-]; (split; [split; cbn; [done|lia]|]); (done || lia).
Qed.

Lemma Aes_bounded `{BlockCipher} {S} `{Reader S} (r : Aes256CbcDecryptReader S) : bounded r.
Proof.
  exists (λ _, True). split; [|done]. intros self n res s' _ Hn.
  unfold reader_read at 1, Aes256CbcDecryptReader_read.
  case_decide; [intros [= <- <-]; split; [done|rewrite zlen_nil; lia]|].
  destruct (next_block 4 self) as [[[]|e] s1]; [|intros [= <- <-]; split; [done|rewrite zlen_nil; lia]|by intros [= <- <-]].
  cbv zeta. destruct (checked_add _ _); intros [= <- <-]; (split; [done|]); [|done].
  unfold zlen. rewrite length_take. lia.
Qed.

Lemma Cursor_bounded (c : Cursor) : bounded c.
Proof.
  exists (λ _, True). split; [|done]. intros s n res s' _ Hn [= <- <-]. split; [done|].
  unfold zlen. rewrite length_take. lia.
Qed.

(** The crates' decoders keep the contract of [Read::read] over inputs that do. *)
Record decoders_bounded `{Decoders} : Prop := {
  db_new : ∀ S `{Reader S} p (s : S), bounded s → bounded (foreign_new p s);
  db_try_new : ∀ S `{Reader S} p (s : S) d, bounded s → foreign_try_new p s = Some d → bounded d
}.

(** What a coder of a plan that compiled says of its output. *)
Definition step_sized (s : DecodeStep) : Prop :=
  (∀ size, ds_output s = Known size → 0 ≤ size) ∧
  match ds_coder s with
  | PlanPpmd _ _ size => 0 ≤ size
  | PlanSwap width => 0 < width
  | _ => True
  end.

Section bounds.
  Context `{Decoders} `{BlockCipher} `{Sha256} {R : Type} `{Reader R}.
  Context (retries : nat) (password : option (list Z)) (Hdec : decoders_bounded).

Lemma checked_reader_bounded {S} `{Reader S} (r : CodecReader S) output :
  bounded r → (∀ size, output = Known size → 0 ≤ size) → bounded (checked_reader r output).
Proof.
  intros Hr Hs. destruct output as [size|]; cbn.
  - apply (lift_bounded Checked); [done|]. apply ExactSizeReader_bounded; [done|by apply Hs].
  - by apply (lift_bounded Unchecked).
Qed.

Lemma step_open_bounded {S} `{Reader S} s (input : S) budget reader budget' :
  step_sized s → bounded input →
  DecodeStep_open retries s input password budget = (Ok reader, budget') → bounded reader.
Proof.
  intros [Ho Hc] Hi. unfold DecodeStep_open.
  assert (Hplain : ∀ p, bounded (checked_reader (CrForeign (foreign_new p input)) (ds_output s))).
  { intros p. apply checked_reader_bounded; [|done].
    apply (lift_bounded CrForeign); [done|]. by apply db_new. }
  assert (Hck : ∀ r : CodecReader S, bounded r → bounded (checked_reader r (ds_output s)))
    by (intros; by apply checked_reader_bounded).
  destruct (ds_coder s) as [|p|dict| | | | | | |pos|pos| | |order memory n| |dist|width|p];
    cbn [CoderPlan_open plain_decoder]; try (intros [= <- <-]; apply Hplain).
  - intros [= <- <-]. destruct (ds_output s) eqn:E; cbn.
    + apply (lift_bounded Checked); [done|]. apply ExactSizeReader_bounded; [|by apply Ho].
      by apply (lift_bounded CrInput).
    + apply (lift_bounded Unchecked); [done|]. by apply (lift_bounded CrInput).
  - destruct (foreign_try_new _ _) as [d|] eqn:E; cbn [ok_or]; [|done]. intros [= <- <-]. apply Hck.
    apply (lift_bounded CrForeign); [done|]. by eapply db_try_new.
  - destruct (foreign_try_new _ _) as [d|] eqn:E; cbn [ok_or]; [|done]. intros [= <- <-].
    apply (lift_bounded Checked); [done|]. apply ExactSizeReader_bounded; [|done].
    apply (lift_bounded CrForeign); [done|]. by eapply db_try_new.
  - intros [= <- <-]. apply Hck. apply (lift_bounded CrSwap); [done|]. by apply ByteSwapReader_bounded.
  - destruct (aes_coder_reader _ _ _ _ _ _ _) as [[r|] b]; [|done]. intros [= <- <-]. apply Hck.
    apply (lift_bounded CrAes); [done|]. apply Aes_bounded.
Qed.

Lemma open_steps_bounded steps n (reader : chain_reader R n) budget r budget' :
  Forall step_sized steps → bounded reader →
  open_steps retries steps reader password budget = (Ok r, budget') → bounded r.
Proof.
  intros Hall. revert n reader budget. induction Hall as [|s steps Hs _ IH]; intros n reader budget Hr; cbn [open_steps].
  - intros [= <- <-]. by apply (lift_bounded (λ r, {| bx_depth := n; bx_reader := r |})).
  - destruct (DecodeStep_open _ s reader password budget) as [[r1|] b] eqn:E; [|done].
    eapply IH. by eapply step_open_bounded.
Qed.

End bounds.

(** ** Lemmas: sizes *)

Lemma lift_ends {A B} `{Reader A} `{Reader B} (f : A → B) a left :
  (∀ a n, reader_read (f a) n = lift_read f (reader_read a n)) →
  ends_at a left → ends_at (f a) left.
Proof.
  intros Hf (I & HI & Ha). exists (λ b l, ∃ a, b = f a ∧ I a l). split; [|by exists a].
  intros b l n res b' (a' & -> & Hi) Hn Hr. rewrite Hf in Hr.
  destruct (reader_read a' n) as [res' a2] eqn:E. cbn in Hr. injection Hr as <- <-.
  pose proof (HI _ _ _ _ _ Hi Hn E) as Hst. cbn [fst snd]. destruct res' as [c|e].
  - destruct Hst as [? ?]. split; [by exists a2|done].
  - by exists a2.
Qed.

Lemma ExactSizeReader_ends {S} `{Reader S} (self : ExactSizeReader S) :
  ends_at self (es_remaining self).
Proof.
  exists (λ s l, es_remaining s = l). split; [|done].
  intros [inner rem en] l n res s' <- Hn. unfold reader_read at 1, ExactSizeReader_read.
  cbn [es_remaining es_end es_inner]. rewrite decide_False by lia. case_decide as H0.
  - subst rem. destruct en; [by intros [= <- <-]|].
    destruct (reader_read inner 1) as [[[|b c]|e] inner']; intros [= <- <-]; cbn; try done; split; done.
  - destruct (reader_read inner _) as [[[|b c]|e] inner']; intros [= <- <-]; by cbn [es_remaining].
Qed.

Lemma Cursor_ends data : ends_at {| cu_data := data; cu_position := 0 |} (zlen data).
Proof.
  exists (λ c l, 0 ≤ cu_position c ∧ l = zlen (drop (Z.to_nat (cu_position c)) (cu_data c))).
  split; [|by cbn].
  intros [d pos] l n res s' [Hp ->] Hn [= <- <-]. cbn [cu_position cu_data] in *.
  set (rest := drop (Z.to_nat pos) d) in *.
  pose proof (zlen_nonneg (take (Z.to_nat n) rest)). split; [split; [lia|]|].
  - unfold rest, zlen in *. rewrite !length_drop, length_take, length_drop in *. lia.
  - intros Ht. assert (length (take (Z.to_nat n) rest) = 0%nat) as Hl by by rewrite Ht.
    rewrite length_take in Hl. unfold zlen. lia.
Qed.

Section sizes.
  Context `{Decoders} `{BlockCipher} `{Sha256} {R : Type} `{Reader R}.
  Context (retries : nat) (password : option (list Z)).

(** A step that knows its size opens a reader that enforces it. *)
Lemma step_open_ends {S} `{Reader S} s (input : S) size budget reader budget' :
  ds_output s = Known size → (∀ o m n, ds_coder s = PlanPpmd o m n → n = size) →
  DecodeStep_open retries s input password budget = (Ok reader, budget') → ends_at reader size.
Proof.
  intros Ho Hppmd. unfold DecodeStep_open. rewrite Ho.
  assert (Hck : ∀ r : CodecReader S, ends_at (checked_reader r (Known size)) size).
  { intros r. cbn. apply (lift_ends Checked); [done|]. apply ExactSizeReader_ends. }
  destruct (ds_coder s) as [|p|dict| | | | | | |pos|pos| | |order memory n| |dist|width|p] eqn:Ec;
    cbn [CoderPlan_open plain_decoder]; try (intros [= <- <-]; apply Hck).
  - destruct (foreign_try_new _ _); cbn [ok_or]; [|done]. intros [= <- <-]. apply Hck.
  - destruct (foreign_try_new _ _); cbn [ok_or]; [|done]. intros [= <- <-].
    rewrite (Hppmd _ _ _ eq_refl). apply (lift_ends Checked); [done|]. apply ExactSizeReader_ends.
  - destruct (aes_coder_reader _ _ _ _ _ _ _) as [[r|] b]; [|done]. intros [= <- <-]. apply Hck.
Qed.

Lemma open_steps_ends steps n (reader : chain_reader R n) size budget r budget' :
  ds_output <$> last steps = Some (Known size) →
  Forall (λ s, ∀ o m k, ds_coder s = PlanPpmd o m k → ds_output s = Known k) steps →
  open_steps retries steps reader password budget = (Ok r, budget') → ends_at r size.
Proof.
  intros Hlast Hppmd. revert n reader budget Hlast.
  induction Hppmd as [|s steps Hs Hall IH]; intros n reader budget Hlast; [done|].
  cbn [open_steps]. destruct (DecodeStep_open _ s reader password budget) as [[r1|] b] eqn:E; [|done].
  destruct steps as [|s2 steps].
  - cbn in Hlast |- *. intros [= <- <-]. injection Hlast as Hlast.
    apply (lift_ends (λ r, {| bx_depth := Datatypes.S n; bx_reader := r |})); [done|].
    eapply step_open_ends; [exact Hlast| |exact E].
    intros o m k Hk. rewrite (Hs o m k Hk) in Hlast. by injection Hlast.
  - intros Ho. eapply IH; [|exact Ho]. by rewrite last_cons_cons in Hlast.
Qed.

Lemma read_to_end_bounded_ends {S} `{Reader S} fuel (s : S) acc left limit res out :
  ends_at s left → read_to_end_bounded fuel s acc limit res = Ok out →
  zlen out = zlen acc + left ∧ (zlen acc ≤ limit → zlen out ≤ limit).
Proof.
  revert s acc left. induction fuel as [|fuel IH]; intros s acc left Hs; cbn [read_to_end_bounded]; [done|].
  destruct (reader_read s 8192) as [[c|e] s2] eqn:Er; [|done].
  destruct (ends_at_read _ _ 8192 _ _ Hs ltac:(lia) Er) as [Hs2 Hc].
  case_decide as Hz0.
  - assert (c = []) as -> by (destruct c; [done|unfold zlen in Hz0; cbn in Hz0; lia]).
    intros [= <-]. rewrite (Hc eq_refl), Z.add_0_r. done.
  - case_decide; [done|]. intros [Hz Hl]%(IH _ _ _ Hs2). rewrite zlen_app in Hz, Hl.
    split; [lia|]. intros. apply Hl. lia.
Qed.

End sizes.

Lemma compile_ppmd_size `{LzmaMemory} c o order memory k :
  CoderPlan_compile c o = Ok (PlanPpmd order memory k) → o = Known k.
Proof.
  unfold CoderPlan_compile. cbv zeta. destruct (method_info (codec_id c)) as [info|]; [|done].
  destruct (MethodInfo_can_decode info); [|done].
  destruct (mi_method info); try done; try (by destruct (no_properties c));
    try (by destruct (lzma2_dict_size (properties c)));
    try (by destruct (branch_start_pos (properties c) _));
    (destruct (ok_or (properties c) _) as [b|]; [|done]).
  - by destruct (LzmaProperties_parse b).
  - destruct (ppmd_properties b) as [[]|]; [|done].
    destruct o as [n|]; cbn; [|done]. by intros [= _ _ ->].
  - by destruct b as [|? [|]].
  - by destruct (AesProperties_parse b).
Qed.

Section sound.
  Context `{LzmaMemory} `{Decoders} `{BlockCipher} `{Sha256} {R : Type} `{Reader R}.
  Context (retries : nat) (password : option (list Z)).

Lemma step_of_ppmd f sizes i o s : step_of f sizes i o s →
  ∀ order m k, ds_coder s = PlanPpmd order m k → ds_output s = Known k.
Proof. intros [(c & _ & Hc) _ _] order m k Hk. rewrite Hk in Hc. by apply compile_ppmd_size in Hc. Qed.

Lemma chain_steps_ppmd f g sizes size unpack_size steps :
  chain_plan f g sizes size unpack_size steps →
  Forall (λ s, ∀ o m k, ds_coder s = PlanPpmd o m k → ds_output s = Known k) steps.
Proof.
  intros [_ Hs _ _ _]. apply Forall_lookup_2. intros k s Hk.
  destruct (Forall2_lookup_r _ _ _ _ _ Hs Hk) as (i & _ & Hst). by eapply step_of_ppmd.
Qed.

(** The bound inputs are the given readers, cut to the planned sizes. *)
Lemma PackedLayout_bind_spec sizes (inputs : list (PackedInput R)) bound :
  PackedLayout_bind sizes inputs = Ok bound → map pi_size inputs = sizes ∧
  bound = map (λ i, Some {| tk_inner := pi_reader i; tk_limit := pi_size i |}) inputs.
Proof.
  unfold PackedLayout_bind. case_decide as Hl; [done|].
  destruct (existsb _ _) eqn:Ee; [done|]. intros [= <-]. revert sizes Hl Ee.
  induction inputs as [|i inputs IH]; intros [|z sizes] Hl Ee; try done.
  cbn in Hl, Ee. apply orb_false_iff in Ee as [Hz Ee]. apply bool_decide_eq_false in Hz.
  assert (pi_size i = z) as <- by (destruct (decide (pi_size i = z)); tauto).
  destruct (IH sizes) as [Hb1 Hb2]; [lia|done|]. cbn. by rewrite Hb1, Hb2.
Qed.

Lemma bind_chain plan (inputs : list (PackedInput R)) ready steps :
  dp_topology plan = Chain steps → DecoderPlan_bind plan inputs = Ok ready →
  ∃ i rest, inputs = i :: rest ∧ map pi_size inputs = dp_inputs plan ∧
    ready = {| rd_topology := BoundChain steps {| tk_inner := pi_reader i; tk_limit := pi_size i |};
               rd_memory := dp_memory plan |}.
Proof.
  intros Ht. unfold DecoderPlan_bind. destruct (PackedLayout_bind _ _) as [bound|] eqn:Eb; [|done].
  rewrite Ht. apply PackedLayout_bind_spec in Eb as [Hs ->].
  destruct inputs as [|i rest]; [done|]. cbn. intros [= <-]. by exists i, rest.
Qed.

Lemma bcj2_loop_size fuel reader output size budget out reader' budget' :
  bcj2_loop (R := R) fuel reader output size budget = (Ok (out, reader'), budget') →
  zlen output ≤ zlen out.
Proof.
  revert reader output budget. induction fuel as [|fuel IH]; intros reader output budget;
    cbn [bcj2_loop]; [done|]. case_decide; [|by intros [= <- _ _]].
  destruct (monitor_check budget) as [[[]|] b]; [|done]. cbv zeta.
  destruct (reader_read reader _) as [[c|] r2]; [|done].
  destruct (monitor_advance b _) as [[[]|] b2]; [|done].
  case_decide; [by intros [= <- _ _]|]. intros Hz%IH. rewrite zlen_app in Hz.
  pose proof (zlen_nonneg c). lia.
Qed.

Lemma start_ends f g sizes packed unpack_size plan inputs ready budget reader budget' :
  plan_sound f g sizes packed unpack_size plan → DecoderPlan_bind plan inputs = Ok ready →
  ReadyDecoder_start retries ready password budget = (Ok reader, budget') →
  ends_at reader unpack_size.
Proof.
  unfold plan_sound. destruct (dp_topology plan) as [steps|main call jump control slots size] eqn:Et.
  - intros (size & ws & _ & Hc & _) Hb. destruct (bind_chain _ _ _ _ Et Hb) as (i & rest & _ & _ & ->).
    unfold ReadyDecoder_start. cbn [rd_topology].
    destruct (open_steps _ _ _ _ _) as [[r|] b] eqn:Eo; [|done]. intros [= <- <-].
    apply (lift_ends Stream); [done|]. eapply open_steps_ends; [| |exact Eo].
    + apply (cp_final _ _ _ _ _ _ Hc).
    + by eapply chain_steps_ppmd.
  - intros (layout & _ & -> & _ & _). unfold DecoderPlan_bind.
    destruct (PackedLayout_bind _ _) as [bound|]; [|done]. rewrite Et.
    destruct (BoundInputs_take bound _) as [[? ?]|]; [|done].
    destruct (BoundInputs_take l _) as [[? ?]|]; [|done].
    destruct (BoundInputs_take l0 _) as [[? ?]|]; [|done].
    destruct (BoundInputs_take l1 _) as [[? ?]|]; [|done].
    intros [= <-]. unfold ReadyDecoder_start. cbn [rd_topology bb_main bb_call bb_jump bb_control bb_output_size].
    destruct (monitor_check budget) as [[[]|] b0]; [|done].
    destruct (BoundInput_open _ _ _ b0) as [[?|] b1]; [|done].
    destruct (BoundInput_open _ _ _ b1) as [[?|] b2]; [|done].
    destruct (BoundInput_open _ _ _ b2) as [[?|] b3]; [|done].
    destruct (BoundInput_open _ _ _ b3) as [[?|] b4]; [|done].
    destruct (bcj2_try_new _ _) as [reader2|]; [|done].
    destruct (bcj2_loop _ _ _ _ _) as [[[output reader3]|] b5]; [|done]. cbv beta iota.
    case_decide as Hl; [done|]. destruct (bcj2_finish reader3); [|done].
    destruct (monitor_check b5) as [[[]|] b6]; [|done]. intros [= <- <-].
    apply (lift_ends Buffered); [done|]. rewrite <- Hl. apply Cursor_ends.
Qed.

(** A chain started on a reader of its packed bytes delivers what they decode to. *)
Lemma started_chain_delivers plain_decodes checked_decodes plan steps (inputs : list (PackedInput R))
    i m packed extra out ready budget :
  decoders_spec plain_decodes checked_decodes → cbc_inverse →
  dp_topology plan = Chain steps → DecoderPlan_bind plan inputs = Ok ready → head inputs = Some i →
  delivers m (pi_reader i) (packed ++ extra) → pi_size i = zlen packed →
  steps_run plain_decodes checked_decodes password steps packed out → (m < retries)%nat →
  unhindered budget →
  ∃ reader budget' m', ReadyDecoder_start retries ready password budget = (Ok reader, budget') ∧
    delivers m' reader out ∧ (m' ≤ m)%nat ∧ unhindered budget' ∧ rd_memory ready = dp_memory plan.
Proof.
  intros Hdec Hcbc Ht Hb Hi Hd Hsz Hrun Hm Hu.
  destruct (bind_chain _ _ _ _ Ht Hb) as (i' & rest & -> & _ & ->). injection Hi as ->.
  unfold ReadyDecoder_start. cbn [rd_topology rd_memory].
  assert (delivers m ({| tk_inner := pi_reader i; tk_limit := pi_size i |} : chain_reader R 0) packed) as Hp.
  { rewrite <- (take_app_length packed extra). rewrite Hsz.
    replace (length packed) with (Z.to_nat (zlen packed)) by (unfold zlen; lia).
    apply Take_delivers; [done|apply zlen_nonneg]. }
  destruct (open_steps_delivers plain_decodes checked_decodes Hdec Hcbc retries password steps 0 _ m
    packed out budget Hrun Hp Hm Hu) as (r & b & m' & -> & Hr & Hle & Hb').
  exists (Stream r), b, m'. split_and!; try done. by apply (lift_delivers Stream).
Qed.

End sound.

Lemma read_to_end_bounded_delivers {S} `{Reader S} fuel (s : S) data acc limit res :
  delivers 0 s data → (length data < fuel)%nat → zlen acc + zlen data ≤ limit →
  read_to_end_bounded fuel s acc limit res = Ok (acc ++ data).
Proof.
  revert s data acc. induction fuel as [|fuel IH]; intros s data acc Hs Hf Hl; [lia|].
  cbn [read_to_end_bounded].
  destruct (delivers_read _ _ _ 8192 Hs ltac:(lia)) as [c rest s' m' -> Hc -> He Hm Hr|e s' m' _ _ Hm _];
    [|lia].
  assert (m' = 0%nat) as -> by lia. rewrite zlen_app in Hl. rewrite length_app in Hf.
  pose proof (zlen_nonneg rest). case_decide as Hc0.
  - assert (c = []) as -> by (destruct c; [done|unfold zlen in Hc0; cbn in Hc0; lia]).
    by rewrite (He eq_refl), app_nil_r.
  - rewrite decide_False by lia. rewrite app_assoc. apply IH; [done| |rewrite zlen_app; lia].
    unfold zlen in Hc0. lia.
Qed.

Lemma decompress_chain `{LzmaMemory} `{Decoders} `{BlockCipher} `{Sha256}
    plain_decodes checked_decodes folder packed_data unpack_size sizes password graph table plan budget
    steps out :
  decoders_spec plain_decodes checked_decodes → cbc_inverse →
  Folder_graph folder = Ok graph →
  CoderOutputSizes_partial folder graph unpack_size sizes = Ok table →
  DecoderPlan_with_output_sizes folder graph unpack_size table [zlen packed_data]
    (OperationBudget_new ResourceLimits_default) = Ok (plan, budget) →
  dp_topology plan = Chain steps →
  steps_run plain_decodes checked_decodes password steps packed_data out →
  2 * zlen out + dp_memory plan ≤ MAX_MATERIALIZED_OUTPUT_BYTES →
  decompress_folder_with_password_and_sizes folder packed_data unpack_size sizes password = Ok out.
Proof.
  intros Hdec Hcbc Hg Ht Hp Htop Hrun Hlim.
  unfold decompress_folder_with_password_and_sizes, prepare_folder_decoder. cbn [map pi_size].
  rewrite Hg, Ht, Hp. cbv beta iota.
  destruct (compiled_plan_spec _ _ _ _ _ _ _ _ _ Hg Ht Hp) as (Hin & _ & _ & _ & Ha).
  set (input := {| pi_reader := {| cu_data := packed_data; cu_position := 0 |};
                   pi_size := zlen packed_data |}).
  assert (∃ ready, DecoderPlan_bind plan [input] = Ok ready) as [ready Hready].
  { unfold DecoderPlan_bind, PackedLayout_bind. rewrite Hin, Htop. cbn.
    rewrite bool_decide_eq_false_2 by tauto. cbn. by eexists. }
  rewrite Hready. cbv beta iota.
  assert (unhindered budget) as Hu by (destruct Ha as [_ _ ->]; done).
  destruct (started_chain_delivers 1 password plain_decodes checked_decodes plan steps [input] input 0
    packed_data [] out ready budget) as (reader & b & m & Hs & Hd & Hm & _ & Hmem); try done.
  { rewrite app_nil_r. apply Cursor_delivers. } { lia. }
  unfold ReadyDecoder_materialize, WorkingSet_output_limit, checked_sub. rewrite Hmem.
  pose proof (zlen_nonneg out). rewrite decide_True by lia.
  cbn [fmap option_fmap option_map ok_or]. rewrite Hs. cbn [fst].
  assert (m = 0%nat) as -> by lia. unfold growth_safe_output_limit.
  assert (zlen out ≤ (MAX_MATERIALIZED_OUTPUT_BYTES - dp_memory plan) / 2)
    by (apply Z.div_le_lower_bound; lia).
  apply (read_to_end_bounded_delivers _ reader out []); [done| |by cbn].
  unfold zlen in *. lia.
Qed.

(** ** Properties *)

(** A folder that decodes gives exactly its declared size: whatever the
    decompressors, the filters and the cipher make of the packed bytes, and whatever
    the tables and the password, a successful one-shot decode returns as many bytes as
    the folder declares, twice that and the decoders' memory together within the limit
    on materialized output. *)
Theorem decoded_folder_size_exact `{LzmaMemory} `{Decoders} `{BlockCipher} `{Sha256} folder packed_data
    unpack_size sizes password out :
  decompress_folder_with_password_and_sizes folder packed_data unpack_size sizes password = Ok out →
  zlen out = unpack_size ∧
  ∃ graph table plan budget, Folder_graph folder = Ok graph ∧
    CoderOutputSizes_partial folder graph unpack_size sizes = Ok table ∧
    DecoderPlan_with_output_sizes folder graph unpack_size table [zlen packed_data]
      (OperationBudget_new ResourceLimits_default) = Ok (plan, budget) ∧
    2 * zlen out + dp_memory plan ≤ MAX_MATERIALIZED_OUTPUT_BYTES.
Proof.
  unfold decompress_folder_with_password_and_sizes, prepare_folder_decoder. cbn [map pi_size].
  destruct (Folder_graph folder) as [g|] eqn:Eg; [|done].
  destruct (CoderOutputSizes_partial folder g unpack_size sizes) as [table|] eqn:Et; [|done].
  destruct (DecoderPlan_with_output_sizes _ _ _ _ _ _) as [[plan b]|] eqn:Ep; [|done].
  destruct (DecoderPlan_bind plan _) as [ready|] eqn:Eb; [|done]. cbv beta iota.
  destruct (compiled_plan_spec _ _ _ _ _ _ _ _ _ Eg Et Ep) as (_ & _ & _ & Hsound & _).
  assert (rd_memory ready = dp_memory plan) as Hmem.
  { unfold DecoderPlan_bind in Eb. destruct (PackedLayout_bind _ _); [|done].
    destruct (match dp_topology plan with Chain _ => _ | TopologyBcj2 _ _ _ _ _ _ => _ end); [|done].
    by injection Eb as <-. }
  unfold ReadyDecoder_materialize, WorkingSet_output_limit, checked_sub. rewrite Hmem.
  case_decide as Hle; cbn [fmap option_fmap option_map ok_or]; [|done].
  destruct (ReadyDecoder_start _ ready password b) as [[reader|] b2] eqn:Es; [|done]. cbn [fst].
  pose proof (start_ends 1 password _ _ _ _ _ _ _ _ _ _ _ Hsound Eb Es) as Hends.
  unfold growth_safe_output_limit. intros [Hz Hl]%(read_to_end_bounded_ends _ _ _ _ _ _ _ Hends).
  change (zlen (@nil Z)) with 0 in Hz, Hl. split; [lia|]. exists g, table, plan, b. split_and!; try done.
  pose proof (Z.mul_div_le (MAX_MATERIALIZED_OUTPUT_BYTES - dp_memory plan) 2 ltac:(lia)).
  assert (0 ≤ (MAX_MATERIALIZED_OUTPUT_BYTES - dp_memory plan) / 2) by (apply Z.div_pos; lia).
  specialize (Hl ltac:(lia)). lia.
Qed.

(** C26. Decoding runs the chain: when the decompressors decode the streams they
    document and the cipher inverts its encryption, and the packed bytes pass through
    the steps of the folder's plan (copied, decompressed, filtered, byte-swapped,
    decrypted under the key derived from the password) into some bytes that fit the
    limits, the one-shot decode returns exactly those bytes. *)
Theorem folder_decodes_through_its_chain `{LzmaMemory} `{Decoders} `{BlockCipher} `{Sha256}
    plain_decodes checked_decodes folder packed_data unpack_size sizes password graph table plan budget
    steps out :
  decoders_spec plain_decodes checked_decodes → cbc_inverse →
  Folder_graph folder = Ok graph →
  CoderOutputSizes_partial folder graph unpack_size sizes = Ok table →
  DecoderPlan_with_output_sizes folder graph unpack_size table [zlen packed_data]
    (OperationBudget_new ResourceLimits_default) = Ok (plan, budget) →
  dp_topology plan = Chain steps →
  steps_run plain_decodes checked_decodes password steps packed_data out →
  2 * zlen out + dp_memory plan ≤ MAX_MATERIALIZED_OUTPUT_BYTES →
  decompress_folder_with_password_and_sizes folder packed_data unpack_size sizes password = Ok out.
Proof. apply decompress_chain. Qed.

(** ** Witnesses *)

(** Decompressors of stored data, a hash and the cipher of the AES file. *)
Definition stored_decoders : Decoders := {|
  foreign := λ S, S; foreign_read := λ _ r, r;
  foreign_try_new := λ _ _ _ s, Some s; foreign_new := λ _ _ _ s, s;
  bcj2 := λ S, list S; bcj2_read := λ _ _ s _, (Ok [], s);
  bcj2_try_new := λ _ _ inputs _, Some inputs; bcj2_finish := λ _ _ _, true
|}.

#[local] Existing Instances flat_memory stored_decoders counter_cipher.

Lemma stored_decoders_spec : decoders_spec (λ _ data out, out = data) (λ _ data out, out = data).
Proof.
  split.
  - by intros S rd decoder m s data out ->.
  - intros S rd decoder m s data out -> Hd. exists s, []. rewrite app_nil_r.
    split_and!; [done|done|by destruct decoder].
Qed.

Definition flat_hash : Sha256.
Proof. by refine {| sha256 := λ _, replicate 32 0 |}. Defined.

#[local] Existing Instance flat_hash.

(** Swapped bytes under AES, with the key made of the password alone. *)
Definition sample_encrypted : Folder :=
  {| coders := [{| codec_id := CODEC_AES_256_SHA_256; num_in_streams := 1; num_out_streams := 1;
                   properties := Some [63] |}; sample_coder CODEC_SWAP2 1];
     bind_pairs := [(1, 0)]; packed_indices := [] |}.

Definition sample_encrypted_steps : list DecodeStep :=
  [{| ds_coder := PlanAes {| ap_num_cycles_power := 63; ap_salt := []; ap_iv := replicate 16 0 |};
      ds_input := Known 16; ds_output := Known 5 |};
   {| ds_coder := PlanSwap 2; ds_input := Known 5; ds_output := Known 5 |}].

Definition sample_key : bytes := [97; 0; 98; 0] ++ replicate 28 0.
Definition sample_packed : bytes :=
  encrypt_aes256_cbc_zero_pad [2; 1; 4; 3; 5] sample_key (replicate 16 0).

Lemma sample_steps_run :
  steps_run (λ _ data out, out = data)
    (λ _ data out, out = data) (Some [97; 98]) sample_encrypted_steps sample_packed [1; 2; 3; 4; 5].
Proof.
  exists [2; 1; 4; 3; 5]. split; [|exists [1; 2; 3; 4; 5]; split; [|reflexivity]].
  - split; [|intros n [= <-]; reflexivity..]. split; [reflexivity|]. split; [by compute|].
    split; [reflexivity|]. split; [right; reflexivity|]. exists [97; 98], sample_key.
    split_and!; [reflexivity|vm_compute; reflexivity|reflexivity].
  - split; [|intros n [= <-]; reflexivity..]. split; [by left|reflexivity].
Qed.

Definition sample_compiled : result (DecoderPlan * OperationBudget) R7zError :=
  let? graph := Folder_graph sample_encrypted in
  let? table := CoderOutputSizes_partial sample_encrypted graph 5 [] in
  DecoderPlan_with_output_sizes sample_encrypted graph 5 table [16]
    (OperationBudget_new ResourceLimits_default).

Lemma folder_decodes_through_its_chain_witness :
  decompress_folder_with_password_and_sizes sample_encrypted sample_packed 5 [] (Some [97; 98]) = Ok [1; 2; 3; 4; 5].
Proof.
  destruct (Folder_graph sample_encrypted) as [graph|] eqn:Eg; [|vm_compute in Eg; discriminate Eg].
  destruct (CoderOutputSizes_partial sample_encrypted graph 5 []) as [table|] eqn:Et;
    [|vm_compute in Eg; injection Eg as <-; vm_compute in Et; discriminate Et].
  destruct sample_compiled as [[plan b]|] eqn:Ec; [|vm_compute in Ec; discriminate Ec].
  assert (dp_topology plan = Chain sample_encrypted_steps ∧ dp_memory plan = 132096) as [Htop Hmem]
    by (vm_compute in Ec; injection Ec as <- <-; split; reflexivity).
  unfold sample_compiled in Ec. rewrite Eg, Et in Ec.
  refine (folder_decodes_through_its_chain (λ _ data out, out = data) (λ _ data out, out = data) sample_encrypted sample_packed 5 []
    (Some [97; 98]) graph table plan b sample_encrypted_steps [1; 2; 3; 4; 5] stored_decoders_spec
    counter_cipher_inverse Eg Et Ec Htop sample_steps_run _).
  rewrite Hmem. by compute.
Defined.

Lemma decoded_folder_size_exact_witness :
  zlen [1; 2; 3; 4; 5] = 5 ∧ ∃ graph, Folder_graph sample_encrypted = Ok graph.
Proof.
  destruct (Folder_graph sample_encrypted) as [graph|] eqn:Eg; [|vm_compute in Eg; discriminate Eg].
  destruct (CoderOutputSizes_partial sample_encrypted graph 5 []) as [table|] eqn:Et;
    [|vm_compute in Eg; injection Eg as <-; vm_compute in Et; discriminate Et].
  destruct sample_compiled as [[plan b]|] eqn:Ec; [|vm_compute in Ec; discriminate Ec].
  assert (dp_topology plan = Chain sample_encrypted_steps ∧ dp_memory plan = 132096) as [Htop Hmem]
    by (vm_compute in Ec; injection Ec as <- <-; split; reflexivity).
  unfold sample_compiled in Ec. rewrite Eg, Et in Ec.
  destruct (decoded_folder_size_exact sample_encrypted sample_packed 5 [] (Some [97; 98])
    [1; 2; 3; 4; 5]) as (Hz & g & _).
  { refine (decompress_chain (λ _ data out, out = data) (λ _ data out, out = data) sample_encrypted
      sample_packed 5 [] (Some [97; 98]) graph table plan b sample_encrypted_steps [1; 2; 3; 4; 5]
      stored_decoders_spec counter_cipher_inverse Eg Et Ec Htop sample_steps_run _).
    rewrite Hmem. by compute. }
  split; [exact Hz|by exists graph].
Defined.
