(* ===== verification/Entries.v ===== *)
(** * Entries and selections (src/src/entries.rs)

    Raw entry names, the binding of streams to entry kinds, the entry iterator
    and the validated entry selection. *)

From stdpp Require Import base numbers list option sets strings sorting.
From Stdlib Require Import ZArith Lia.
From S2P Require Import Prelude PropertyId Parsers Error FilesInfo.

(** ** Raw names *)

(** [RawEntryName::from_utf16le]; the name is its bytes. *)
Definition RawEntryName_from_utf16le (b : bytes) : result bytes R7zError :=
  if decide (zlen b mod 2 ≠ 0) then
    Err (InvalidOptions "UTF-16LE name has odd byte length")
  else if decide (0 ∈ fst (as_units b)) then
    Err (InvalidOptions "UTF-16LE name contains a null terminator")
  else Ok b.

Definition RawEntryName_display (name : bytes) : list Z := decode_name name.

(** The text is given by its scalar values, as [str::encode_utf16] sees them. *)
Definition RawEntryName_matches_text (name : bytes) (text : list Z) : bool :=
  bool_decide (fst (as_units name) = encode_utf16 text).

(** ** Entry kinds *)

Inductive EntryType := T_File | T_Directory | T_EmptyFile | T_Anti | T_Symlink | T_EmptySymlink.

Definition EntryKind_entry_type {S} (k : EntryKind S) : EntryType :=
  match k with
  | K_File _ => T_File
  | K_Symlink _ => T_Symlink
  | K_EmptySymlink => T_EmptySymlink
  | K_EmptyFile => T_EmptyFile
  | K_Directory => T_Directory
  | K_Anti => T_Anti
  end.

Definition FilesInfo_entry_type (self : FilesInfo) (i : Z) : EntryType :=
  EntryKind_entry_type (FilesInfo_entry_kind self i).

Definition EntryKind_has_stream {S} (k : EntryKind S) : bool :=
  match k with K_File _ | K_Symlink _ => true | _ => false end.

Definition EntryKind_bind {S T} (k : EntryKind S) (stream : S → result T R7zError) :
    result (EntryKind T) R7zError :=
  match k with
  | K_File input => let? t := stream input in Ok (K_File t)
  | K_Symlink input => let? t := stream input in Ok (K_Symlink t)
  | K_EmptyFile => Ok K_EmptyFile
  | K_EmptySymlink => Ok K_EmptySymlink
  | K_Directory => Ok K_Directory
  | K_Anti => Ok K_Anti
  end.

(** ** Entries *)

Record EntryMetadata := {
  em_index : Z;
  em_name : option slice;
  em_modified : option Z;
  em_attributes : option Z
}.

Record Entry (S : Type) := { en_metadata : EntryMetadata; en_kind : EntryKind S }.

Arguments en_metadata {S} e.
Arguments en_kind {S} e.
Arguments Build_Entry {S}.

Definition Entry_bind {S T} (e : Entry S) (stream : S → result T R7zError) :
    result (Entry T) R7zError :=
  let? kind := EntryKind_bind (en_kind e) stream in
  Ok {| en_metadata := en_metadata e; en_kind := kind |}.

(** [indices] is the range [it_start .. it_end]. *)
Record Entries := {
  it_files : option FilesInfo;
  it_start : Z;
  it_end : Z;
  it_names : option FilesInfoNameSlices
}.

Definition Entries_new (files : option FilesInfo) (count : Z) : Entries :=
  {| it_files := files; it_start := 0; it_end := count;
     it_names := FilesInfo_name_slices <$> files |}.

Definition Entries_kind (self : Entries) (index : Z) : EntryKind unit :=
  match it_files self with
  | None => K_File tt
  | Some files => FilesInfo_entry_kind files index
  end.

Definition Entries_stream_count (self : Entries) : Z :=
  zlen (filter (λ i, EntryKind_has_stream (Entries_kind self i) = true)
               (seqZ (it_start self) (it_end self - it_start self))).

Definition entry_at (self : Entries) (index : Z) (name : option slice) : Entry unit :=
  {| en_metadata :=
       {| em_index := index;
          em_name := name;
          em_modified := files ← it_files self; mjoin (get index (mtimes files));
          em_attributes := files ← it_files self; mjoin (get index (attributes files)) |};
     en_kind := Entries_kind self index |}.

(** [Iterator::nth]; [Range::nth] past the end empties the range. *)
Definition Entries_nth (self : Entries) (n : nat) : option (Entry unit) * Entries :=
  let index := it_start self + Z.of_nat n in
  if decide (index < it_end self) then
    let '(name, names) :=
      match it_names self with
      | None => (None, None)
      | Some names => let '(item, names) := name_slices_nth n names in
                      (mjoin item, Some names)
      end in
    (Some (entry_at self index name),
     {| it_files := it_files self; it_start := index + 1; it_end := it_end self;
        it_names := names |})
  else
    (None, {| it_files := it_files self; it_start := it_end self; it_end := it_end self;
              it_names := it_names self |}).

Definition Entries_next (self : Entries) : option (Entry unit) * Entries := Entries_nth self 0.

(** ** Selections *)

Inductive EntrySelection :=
| Sel_Empty
| Sel_All (start end_ : Z)
| Sel_Selected (indices : list Z) (position : Z).

(** [is_sorted] and [windows(2).any(|pair| pair[0] == pair[1])]. *)
Fixpoint is_sorted (l : list Z) : bool :=
  match l with
  | x :: ((y :: _) as rest) => bool_decide (x ≤ y) && is_sorted rest
  | _ => true
  end.
Fixpoint has_adjacent_duplicate (l : list Z) : bool :=
  match l with
  | x :: ((y :: _) as rest) => bool_decide (x = y) || has_adjacent_duplicate rest
  | _ => false
  end.

Definition EntrySelection_new (indices : option (list Z)) (count : Z) :
    result EntrySelection R7zError :=
  match indices with
  | None => Ok (Sel_All 0 count)
  | Some [] => Ok Sel_Empty
  | Some indices =>
      if existsb (λ index, bool_decide (count ≤ index)) indices then
        Err (InvalidOptions "selected entry index out of bounds")
      else
        let indices := if is_sorted indices then indices else merge_sort Z.le indices in
        if has_adjacent_duplicate indices then
          Err (InvalidOptions "duplicate selected entry index")
        else Ok (Sel_Selected indices 0)
  end.

Definition EntrySelection_next (self : EntrySelection) : option Z * EntrySelection :=
  match self with
  | Sel_Empty => (None, Sel_Empty)
  | Sel_All start end_ =>
      if decide (start < end_) then (Some start, Sel_All (start + 1) end_) else (None, self)
  | Sel_Selected indices position =>
      match get position indices with
      | None => (None, self)
      | Some index => (Some index, Sel_Selected indices (position + 1))
      end
  end.

Definition EntrySelection_remaining (self : EntrySelection) : Z :=
  match self with
  | Sel_Empty => 0
  | Sel_All start end_ => Z.max 0 (end_ - start)
  | Sel_Selected indices position => zlen indices - position
  end.

(** The items an iteration yields, at most [fuel] of them. *)
Fixpoint EntrySelection_collect (fuel : nat) (self : EntrySelection) : list Z :=
  match fuel with
  | O => []
  | S fuel =>
      match EntrySelection_next self with
      | (None, _) => []
      | (Some index, self) => index :: EntrySelection_collect fuel self
      end
  end.

(** The selection after so many calls of [next]. *)
Fixpoint EntrySelection_after (n : nat) (self : EntrySelection) : EntrySelection :=
  match n with O => self | S n => EntrySelection_after n (snd (EntrySelection_next self)) end.

Fixpoint Entries_collect (fuel : nat) (self : Entries) : list (Entry unit) :=
  match fuel with
  | O => []
  | S fuel =>
      match Entries_next self with
      | (None, _) => []
      | (Some e, self) => e :: Entries_collect fuel self
      end
  end.

(** ** Lemmas: names *)

Lemma from_utf16le_spec b :
  RawEntryName_from_utf16le b = Ok b ↔ raw_name_ok b.
Proof.
  unfold RawEntryName_from_utf16le, raw_name_ok.
  assert (Hodd : zlen b mod 2 = 0 ↔ snd (as_units b) = []).
  { induction b as [|x|x y b IH] using pair_ind; [done|done|].
    rewrite as_units_cons. cbn [snd]. rewrite <- IH, !zlen_cons.
    replace (1 + (1 + zlen b)) with (zlen b + 1 * 2) by lia. by rewrite Z.mod_add. }
  destruct (as_units b) as [us r] eqn:E. cbn in *. split.
  - case_decide as Ho; [done|]. case_decide; [done|]. intros _. exists us.
    split; [|done]. f_equal. by apply Hodd.
  - intros (us' & [= -> ->] & H0). rewrite !decide_False; [done|done|].
    intros Hn. apply Hn, Hodd. done.
Qed.

(** ** Lemmas: selections *)

Lemma is_sorted_Sorted l : is_sorted l = true ↔ Sorted Z.le l.
Proof.
  induction l as [|x [|y l] IH]; cbn in *.
  - split; [constructor|done].
  - split; [by repeat constructor|done].
  - rewrite andb_true_iff, IH, bool_decide_eq_true. split.
    + intros [Hxy Hs]. constructor; [done|]. by constructor.
    + intros Hs. apply Sorted_inv in Hs as [Hs Hh]. by inversion Hh.
Qed.

Lemma no_adjacent_duplicate l :
  Sorted Z.le l → has_adjacent_duplicate l = false ↔ NoDup l.
Proof.
  intros Hs. apply Sorted_StronglySorted in Hs; [|apply _].
  induction Hs as [|x l Hs IH Hx]; [split; [constructor|done]|].
  rewrite NoDup_cons. destruct l as [|y l]; cbn.
  - split; [|done]. intros _. split; [apply not_elem_of_nil|constructor].
  - rewrite orb_false_iff, bool_decide_eq_false. cbn in IH. rewrite IH.
    split; [|intros [Hnin Hnd]; split; [|done]; intros ->; apply Hnin; left].
    intros [Hne Hnd]. split; [|done]. intros Hin.
    apply Forall_cons in Hx as [Hxy Hx].
    apply elem_of_cons in Hin as [->|Hin]; [done|].
    inversion Hs as [|? ? ? Hy]; subst. rewrite Forall_forall in Hy. specialize (Hy x Hin).
    apply Hne. lia.
Qed.

Definition sorted_indices (indices : list Z) : list Z :=
  if is_sorted indices then indices else merge_sort Z.le indices.

Lemma sorted_indices_spec indices :
  Sorted Z.le (sorted_indices indices) ∧ sorted_indices indices ≡ₚ indices.
Proof.
  unfold sorted_indices. destruct (is_sorted indices) eqn:E.
  - split; [by apply is_sorted_Sorted|done].
  - split; [apply Sorted_merge_sort, _|apply merge_sort_Permutation].
Qed.

(** A selection is accepted exactly when it names distinct entries in range. *)
Lemma EntrySelection_new_spec indices count :
  indices ≠ [] →
  (∃ sel, EntrySelection_new (Some indices) count = Ok sel) ↔
  NoDup indices ∧ Forall (λ i, i < count) indices.
Proof.
  intros Hne. unfold EntrySelection_new. destruct indices as [|i0 l]; [done|].
  set (indices := i0 :: l) in *. fold (sorted_indices indices).
  destruct (sorted_indices_spec indices) as [Hs Hp].
  assert (has_adjacent_duplicate (sorted_indices indices) = false ↔ NoDup indices) as Hd
    by (rewrite (no_adjacent_duplicate _ Hs); by rewrite Hp).
  assert (Hex : existsb (λ index, bool_decide (count ≤ index)) indices = false ↔
    Forall (λ i, i < count) indices).
  { rewrite Forall_forall. split.
    - intros He i Hi. destruct (decide (count ≤ i)); [|lia].
      assert (existsb (λ index, bool_decide (count ≤ index)) indices = true) as Ht; [|congruence].
      apply existsb_exists. exists i. rewrite bool_decide_eq_true.
      split; [by apply list_elem_of_In|done].
    - intros Hall. apply not_true_is_false. intros (i & Hi & Hb)%existsb_exists.
      apply bool_decide_eq_true in Hb. apply list_elem_of_In, Hall in Hi. lia. }
  destruct (existsb _ _).
  - split; [by intros [? ?]|]. intros [_ Hall]. by apply Hex in Hall.
  - destruct (has_adjacent_duplicate _).
    + split; [by intros [? ?]|]. intros [Hnd _]. by apply Hd in Hnd.
    + split; [|eauto]. intros _. split; [by apply Hd|by apply Hex].
Qed.

(** An accepted selection yields its entries in archive order. *)
Lemma selected_collect fuel (pre post : list Z) :
  (length post ≤ fuel)%nat →
  EntrySelection_collect fuel (Sel_Selected (pre ++ post) (zlen pre)) = post.
Proof.
  revert fuel pre. induction post as [|x post IH]; intros [|fuel] pre Hf; cbn in Hf; try done; try lia.
  - cbn [EntrySelection_collect EntrySelection_next]. rewrite app_nil_r.
    unfold get, zlen. rewrite decide_True by lia. rewrite Nat2Z.id, lookup_ge_None_2; [done|lia].
  - cbn [EntrySelection_collect EntrySelection_next].
    pose proof (get_app_r pre (x :: post) 0 ltac:(lia)) as E. rewrite Z.add_0_r in E.
    rewrite E. cbn. f_equal. specialize (IH fuel (pre ++ [x]) ltac:(lia)).
    rewrite <- app_assoc, zlen_app in IH. done.
Qed.

Lemma EntrySelection_collect_spec fuel indices count sel :
  EntrySelection_new (Some indices) count = Ok sel → (length indices ≤ fuel)%nat →
  Sorted Z.le (EntrySelection_collect fuel sel) ∧
  EntrySelection_collect fuel sel ≡ₚ indices ∧
  EntrySelection_remaining sel = zlen indices.
Proof.
  unfold EntrySelection_new. destruct indices as [|i0 l].
  { intros [= <-] _. assert (EntrySelection_collect fuel Sel_Empty = []) as -> by by destruct fuel.
    split_and!; [constructor|done|done]. }
  set (indices := i0 :: l). fold (sorted_indices indices).
  destruct (existsb _ _); [done|]. destruct (has_adjacent_duplicate _); [done|].
  intros [= <-] Hf. destruct (sorted_indices_spec indices) as [Hs Hp].
  assert (length indices = length (sorted_indices indices)) as Hl by (by rewrite Hp).
  pose proof (selected_collect fuel [] (sorted_indices indices) ltac:(lia)) as Hc. cbn [app] in Hc.
  change (zlen (@nil Z)) with 0 in Hc. rewrite Hc.
  split_and!; [done|done|]. cbn. unfold zlen. rewrite <- Hl. lia.
Qed.

(** What an iteration has yet to yield. *)
Definition left_to_yield (sel : EntrySelection) (rest : list Z) : Prop :=
  match sel with
  | Sel_Empty => rest = []
  | Sel_All start end_ => rest = seqZ start (end_ - start)
  | Sel_Selected indices position => ∃ done_, indices = done_ ++ rest ∧ position = zlen done_
  end.

Lemma left_next sel rest :
  left_to_yield sel rest →
  fst (EntrySelection_next sel) = head rest ∧ EntrySelection_remaining sel = zlen rest ∧
  left_to_yield (snd (EntrySelection_next sel)) (tail rest).
Proof.
  destruct sel as [|start end_|indices position]; cbn.
  - by intros ->.
  - intros ->. unfold zlen. rewrite length_seqZ. case_decide as Hlt.
    + rewrite seqZ_cons by lia. cbn. split_and!; [done|lia|]. f_equal; lia.
    + rewrite seqZ_nil by lia. cbn. split_and!; [done|lia|]. rewrite seqZ_nil by lia. done.
  - intros (done_ & -> & ->). rewrite zlen_app. unfold get. rewrite decide_True by apply zlen_nonneg.
    rewrite to_nat_zlen, lookup_app_r, Nat.sub_diag by lia. destruct rest as [|x rest]; cbn.
    + split_and!; [done|rewrite zlen_nil; lia|]. by exists done_.
    + split_and!; [done|rewrite zlen_cons; lia|]. exists (done_ ++ [x]). by rewrite <- app_assoc, zlen_app.
Qed.

Lemma left_after n : ∀ sel rest, left_to_yield sel rest →
  fst (EntrySelection_next (EntrySelection_after n sel)) = rest !! n ∧
  EntrySelection_remaining (EntrySelection_after n sel) = zlen (drop n rest).
Proof.
  induction n as [|n IH]; intros sel rest (Hh & Hr & Ht)%left_next; cbn [EntrySelection_after].
  - rewrite drop_0. split; [|done]. rewrite Hh. by destruct rest.
  - destruct (IH _ _ Ht) as [-> ->]. destruct rest; cbn; [by rewrite drop_nil|done].
Qed.

Lemma Sorted_le_lt l : Sorted Z.le l → NoDup l → StronglySorted Z.lt l.
Proof.
  intros Hs Hd. apply Sorted_StronglySorted in Hs; [|apply _]. induction Hs as [|x l Hs IH Hx]; [constructor|].
  apply NoDup_cons in Hd as [Hn Hd]. constructor; [by apply IH|]. rewrite Forall_forall in *. intros y Hy. specialize (Hx y Hy).
  enough (x ≠ y) by lia. by intros ->.
Qed.

Lemma seqZ_increasing a n : StronglySorted Z.lt (seqZ a n).
Proof. apply Sorted_le_lt; [|apply NoDup_seqZ]. apply StronglySorted_Sorted. unfold seqZ.
  generalize 0%nat. induction (Z.to_nat n) as [|k IH]; intros j; cbn; constructor; [apply IH|].
  apply Forall_fmap, Forall_forall. intros i Hi%elem_of_seq. cbn. lia.
Qed.

Lemma EntrySelection_order indices count sel :
  EntrySelection_new indices count = Ok sel →
  ∃ order, StronglySorted Z.lt order ∧ order ≡ₚ default (seqZ 0 count) indices ∧ left_to_yield sel order.
Proof.
  unfold EntrySelection_new. destruct indices as [[|i0 l]|].
  - intros [= <-]. exists []. split_and!; [constructor|done|done].
  - set (indices := i0 :: l). fold (sorted_indices indices).
    destruct (existsb _ _); [done|]. destruct (has_adjacent_duplicate _) eqn:Ed; [done|]. intros [= <-].
    destruct (sorted_indices_spec indices) as [Hs Hp]. exists (sorted_indices indices). split_and!; [|done|by exists []].
    apply Sorted_le_lt; [done|]. by apply no_adjacent_duplicate.
  - intros [= <-]. exists (seqZ 0 count). split_and!; [apply seqZ_increasing|done|]. cbn. by rewrite Z.sub_0_r.
Qed.

Lemma EntrySelection_accepts indices count :
  let wanted := default (seqZ 0 count) indices in
  is_ok (EntrySelection_new indices count) = true ↔ NoDup wanted ∧ Forall (λ i, i < count) wanted.
Proof.
  intros wanted. destruct indices as [[|i0 l]|].
  - split; [|done]. intros _. split; constructor.
  - unfold wanted. cbn [default from_option id]. rewrite <- EntrySelection_new_spec by done.
    destruct (EntrySelection_new _ _) as [sel|]; cbn; [split; [by eexists|done]|split; [done|by intros [? ?]]].
  - split; [|done]. intros _. split; [apply NoDup_seqZ|]. apply Forall_forall. intros i Hi%elem_of_seqZ. lia.
Qed.

(** ** Lemmas: the entry iterator *)

Lemma Entries_stream_count_spec self :
  Entries_stream_count self =
  zlen (filter (λ e, EntryKind_has_stream (en_kind e) = true)
    (map (λ i, entry_at self i None) (seqZ (it_start self) (it_end self - it_start self)))).
Proof.
  unfold Entries_stream_count. generalize (seqZ (it_start self) (it_end self - it_start self)).
  induction l as [|i l IH]; [done|]. cbn [map]. rewrite !filter_cons. cbn [en_kind entry_at].
  case_decide; [|done]. rewrite !zlen_cons. by rewrite IH.
Qed.

(** ** Properties *)

(** C40. A selection is accepted exactly when its indices are distinct and in range, in any
    order; no indices given means all entries. It then yields each of them once, in increasing
    order, and at any moment counts what is left. *)
Theorem entry_selection_valid indices count :
  let wanted := default (seqZ 0 count) indices in
  (is_ok (EntrySelection_new indices count) = true ↔ NoDup wanted ∧ Forall (λ i, i < count) wanted) ∧
  ∀ sel, EntrySelection_new indices count = Ok sel →
    ∃ order, StronglySorted Z.lt order ∧ order ≡ₚ wanted ∧
      ∀ n, fst (EntrySelection_next (EntrySelection_after n sel)) = order !! n ∧
           EntrySelection_remaining (EntrySelection_after n sel) = zlen (drop n order).
Proof.
  intros wanted. split; [apply EntrySelection_accepts|]. intros sel Hs.
  destruct (EntrySelection_order _ _ _ Hs) as (order & Hsort & Hp & Hl). exists order. split_and!; [done..|].
  intros n. exact (left_after n _ _ Hl).
Qed.

(** A raw name is accepted exactly when it is whole UTF-16 units without a NUL,
    the condition under which a name block can hold it; it is kept as it is. *)
Theorem raw_name_accepted b n :
  RawEntryName_from_utf16le b = Ok n ↔ n = b ∧ raw_name_ok b.
Proof.
  rewrite <- from_utf16le_spec. unfold RawEntryName_from_utf16le.
  repeat case_decide; try (split; [done|by intros [_ ?]]). split; [by intros [= ->]|by intros [-> _]].
Qed.

(** ** Witnesses *)

Lemma entry_selection_valid_witness :
  ∃ sel, EntrySelection_new (Some [7; 2; 5]) 8 = Ok sel ∧
    EntrySelection_remaining (EntrySelection_after 2 sel) = 1 ∧
    ∃ order, StronglySorted Z.lt order ∧ order ≡ₚ [7; 2; 5] ∧ fst (EntrySelection_next (EntrySelection_after 2 sel)) = order !! 2%nat.
Proof.
  destruct (entry_selection_valid (Some [7; 2; 5]) 8) as [_ Hs].
  exists (Sel_Selected [2; 5; 7] 0). split; [vm_compute; reflexivity|]. split; [reflexivity|].
  destruct (Hs (Sel_Selected [2; 5; 7] 0)) as (order & Hsort & Hp & Hn); [vm_compute; reflexivity|].
  exists order. split; [exact Hsort|]. split; [exact Hp|]. apply (Hn 2%nat).
Defined.
