(* ===== verification/FolderDecode.v ===== *)
(** * Folder layouts (src/src/folder_decode.rs and src/src/byte_range.rs)

    The planning half of folder decoding: the packed streams and substreams of
    each folder as byte ranges, the iteration over the folders of a stream
    descriptor with its completeness check, and the digest state. *)

From stdpp Require Import base numbers list option sets strings.
From Stdlib Require Import ZArith Lia.
From S2P Require Import Prelude PropertyId Parsers CoderInfo Folder Error FolderGraph PackInfo StreamInfo.

(** ** Byte ranges *)

(** [ByteRange<Space>]; the space is a phantom type. *)
Record ByteRange := { br_start : Z; br_end : Z }.

(** [from_range]: the assertion fails by a panic. *)
Definition ByteRange_from_range (start end_ : Z) : result ByteRange R7zError :=
  if decide (start ≤ end_) then Ok {| br_start := start; br_end := end_ |} else Err R7zPanic.

Definition ByteRange_len (r : ByteRange) : Z := br_end r - br_start r.

(** The operator [+] on [u64]: its overflow is a panic. *)
Definition add_u64 (a b : Z) : result Z R7zError := ok_or (checked_add a b) R7zPanic.

(** ** Digests

    [crc32fast] is a third-party crate: its hash is a parameter, and its
    streaming hasher has hashed the bytes fed to it, in order. *)
Class Crc32 := {
  crc32 : bytes → Z;
  crc32_u32 : ∀ b, is_u32 (crc32 b)
}.

Inductive DigestState := Absent | Checking (expected : Z) (hashed : bytes).

Definition DigestState_new (digest : option Z) : DigestState :=
  match digest with None => Absent | Some expected => Checking expected [] end.

Definition DigestState_update (self : DigestState) (b : bytes) : DigestState :=
  match self with
  | Absent => Absent
  | Checking expected hashed => Checking expected (hashed ++ b)
  end.

Definition DigestState_finish `{Crc32} (self : DigestState) : result unit R7zError :=
  match self with
  | Absent => Ok tt
  | Checking expected hashed => if decide (expected = crc32 hashed) then Ok tt else Err Crc
  end.

(** ** Packed streams *)

Record PackedStream := { ps_range : ByteRange; ps_crc : option Z }.

Record PackedStreams := {
  pst_sizes : list Z; pst_digests : list (option Z); pst_start : Z
}.

(** The [scan] of [PackedStreams::iter], collected; [index] counts the streams. *)
Fixpoint packed_streams_scan (digests : list (option Z)) (offset : Z) (index : nat)
    (sizes : list Z) : result (list PackedStream) R7zError :=
  match sizes with
  | [] => Ok []
  | size :: rest =>
      let? end_ := add_u64 offset size in
      let? range := ByteRange_from_range offset end_ in
      let? tl := packed_streams_scan digests end_ (S index) rest in
      Ok ({| ps_range := range; ps_crc := mjoin (digests !! index) |} :: tl)
  end.

Definition PackedStreams_iter (self : PackedStreams) : result (list PackedStream) R7zError :=
  packed_streams_scan (pst_digests self) (pst_start self) 0 (pst_sizes self).

(** ** Substreams *)

Record FolderStreamLayout := {
  fl_explicit_sizes : list Z; fl_final_size : option Z; fl_digests : list (option Z)
}.

Definition sum_sizes_step (total size : Z) : result Z R7zError :=
  ok_or (checked_add total size) Parse.

Definition FolderStreamLayout_new (decoded_len stream_count : Z) (explicit_sizes : list Z)
    (digests : list (option Z)) : result FolderStreamLayout R7zError :=
  if decide (zlen explicit_sizes ≠ saturating_sub stream_count 1 ∨
             (digests ≠ [] ∧ zlen digests ≠ stream_count)) then Err Parse
  else
    let? explicit_total := try_fold sum_sizes_step 0 explicit_sizes in
    let? remaining := ok_or (checked_sub decoded_len explicit_total) Parse in
    Ok {| fl_explicit_sizes := explicit_sizes;
          fl_final_size := if decide (stream_count ≠ 0) then Some remaining else None;
          fl_digests := digests |}.

Definition FolderStreamLayout_len (self : FolderStreamLayout) : Z :=
  zlen (fl_explicit_sizes self) + (if decide (is_Some (fl_final_size self)) then 1 else 0).

Record Substream := { ss_range : ByteRange; ss_digest : option Z }.

Record Substreams := { sub_layout : FolderStreamLayout; sub_position : Z; sub_offset : Z }.

Definition FolderStreamLayout_streams (self : FolderStreamLayout) : Substreams :=
  {| sub_layout := self; sub_position := 0; sub_offset := 0 |}.

(** [Substreams::next], with the state it leaves. *)
Definition Substreams_next (self : Substreams) :
    result (option Substream * Substreams) R7zError :=
  let layout := sub_layout self in
  if decide (sub_position self = FolderStreamLayout_len layout) then Ok (None, self) else
  match (match get (sub_position self) (fl_explicit_sizes layout) with
         | Some size => Some size
         | None => fl_final_size layout
         end) with
  | None => Ok (None, self)
  | Some size =>
      let? end_ := add_u64 (sub_offset self) size in
      let? range := ByteRange_from_range (sub_offset self) end_ in
      Ok (Some {| ss_range := range; ss_digest := mjoin (get (sub_position self) (fl_digests layout)) |},
          {| sub_layout := layout; sub_position := sub_position self + 1; sub_offset := end_ |})
  end.

(** The items of the iterator, at most [fuel] of them. *)
Fixpoint Substreams_collect (fuel : nat) (self : Substreams) :
    result (list Substream) R7zError :=
  match fuel with
  | O => Ok []
  | S fuel =>
      let? (item, self) := Substreams_next self in
      match item with
      | None => Ok []
      | Some s => let? tl := Substreams_collect fuel self in Ok (s :: tl)
      end
  end.

(** ** Folders *)

(** [FolderState<LaidOut>]. *)
Record FolderLayout := {
  lo_folder : Folder;
  lo_graph : FolderGraph;
  lo_streams : PackedStreams;
  lo_coder_sizes : list Z;
  lo_unpack_size : Z;
  lo_crc : option Z;
  lo_layout : FolderStreamLayout
}.

Record FolderPlans := {
  fp_pack_info : PackInfo;
  fp_unpack_info : UnpackInfo;
  fp_substream_info : option SubstreamInfo;
  fp_folder_index : Z;
  fp_pack_index : Z;
  fp_output_base : Z;
  fp_pack_offset : Z;
  fp_stream_size_base : Z;
  fp_stream_digest_base : Z;
  fp_finished : bool
}.

Definition FolderPlans_new (pack : PackInfo) (unpack : UnpackInfo)
    (substream_info : option SubstreamInfo) : FolderPlans :=
  {| fp_pack_info := pack; fp_unpack_info := unpack; fp_substream_info := substream_info;
     fp_folder_index := 0; fp_pack_index := 0; fp_output_base := 0; fp_pack_offset := 0;
     fp_stream_size_base := 0; fp_stream_digest_base := 0; fp_finished := false |}.

Definition FolderPlans_validate_complete (self : FolderPlans) : result unit R7zError :=
  let pack := fp_pack_info self in
  let unpack := fp_unpack_info self in
  let pack_count := zlen (pack_size pack) in
  let folder_count := UnpackInfo_num_folders_usize unpack in
  let substreams_complete :=
    match fp_substream_info self with
    | None => true
    | Some info => bool_decide (
        zlen (num_unpack_streams_per_folder info) = folder_count ∧
        zlen (substream_sizes info) = fp_stream_size_base self ∧
        (substream_digests info = [] ∨
         zlen (substream_digests info) = fp_stream_digest_base self))
    end in
  if decide (fp_pack_index self ≠ pack_count ∨
             num_pack_streams pack ≠ pack_count ∨
             num_folders unpack ≠ folder_count ∨
             fp_output_base self ≠ zlen (unpack_sizes unpack) ∨
             (pack_digests pack ≠ [] ∧ zlen (pack_digests pack) ≠ pack_count) ∨
             (unpack_digests unpack ≠ [] ∧ zlen (unpack_digests unpack) ≠ folder_count) ∨
             substreams_complete = false)
  then Err Parse else Ok tt.

Definition FolderPlans_folder_stream_count (self : FolderPlans) : result Z R7zError :=
  match fp_substream_info self with
  | None => Ok 1
  | Some info =>
      let? count := ok_or (get (fp_folder_index self) (num_unpack_streams_per_folder info))
                          Parse in
      ok_or (usize_try_from count) Parse
  end.

Definition FolderPlans_next_folder `{Nom} (self : FolderPlans) :
    result (FolderLayout * FolderPlans) R7zError :=
  let unpack := fp_unpack_info self in
  let pack := fp_pack_info self in
  let? (folder, graph) := UnpackInfo_parse_folder_with_graph unpack (fp_folder_index self) in
  let? pack_end := ok_or (checked_add (fp_pack_index self) (zlen (fg_packed_inputs graph))) Parse in
  let? pack_sizes := ok_or (get_range (fp_pack_index self) pack_end (pack_size pack)) Parse in
  let? outs := ok_or (Folder_total_out_streams folder) R7zPanic in
  let? output_end := ok_or (checked_add (fp_output_base self) outs) Parse in
  let? coder_sizes :=
    ok_or (get_range (fp_output_base self) output_end (unpack_sizes unpack)) Parse in
  let? unpack_size := ok_or (coder_sizes !! fg_final_output graph) Parse in
  let? stream_count := FolderPlans_folder_stream_count self in
  let explicit_count := saturating_sub stream_count 1 in
  let? stream_size_end := ok_or (checked_add (fp_stream_size_base self) explicit_count) Parse in
  let? explicit_stream_sizes :=
    match fp_substream_info self with
    | Some info =>
        ok_or (get_range (fp_stream_size_base self) stream_size_end (substream_sizes info)) Parse
    | None => Ok []
    end in
  let? stream_digest_end := ok_or (checked_add (fp_stream_digest_base self) stream_count) Parse in
  let? stream_digests :=
    match fp_substream_info self with
    | Some info =>
        match substream_digests info with
        | [] => Ok []
        | digests =>
            ok_or (get_range (fp_stream_digest_base self) stream_digest_end digests) Parse
        end
    | None =>
        Ok (default [] (get_range (fp_folder_index self) (fp_folder_index self + 1)
                                  (unpack_digests unpack)))
    end in
  let? layout :=
    FolderStreamLayout_new unpack_size stream_count explicit_stream_sizes stream_digests in
  let? pack_offset := try_fold sum_sizes_step (fp_pack_offset self) pack_sizes in
  let streams :=
    {| pst_sizes := pack_sizes;
       pst_digests := default [] (get_range (fp_pack_index self)
                        (Z.min pack_end (zlen (pack_digests pack))) (pack_digests pack));
       pst_start := fp_pack_offset self |} in
  let crc := mjoin (get (fp_folder_index self) (unpack_digests unpack)) in
  Ok ({| lo_folder := folder; lo_graph := graph; lo_streams := streams;
         lo_coder_sizes := coder_sizes; lo_unpack_size := unpack_size; lo_crc := crc;
         lo_layout := layout |},
      {| fp_pack_info := pack; fp_unpack_info := unpack;
         fp_substream_info := fp_substream_info self;
         fp_folder_index := fp_folder_index self + 1; fp_pack_index := pack_end;
         fp_output_base := output_end; fp_pack_offset := pack_offset;
         fp_stream_size_base := stream_size_end; fp_stream_digest_base := stream_digest_end;
         fp_finished := fp_finished self |}).

Definition FolderPlans_finish (self : FolderPlans) : FolderPlans :=
  {| fp_pack_info := fp_pack_info self; fp_unpack_info := fp_unpack_info self;
     fp_substream_info := fp_substream_info self; fp_folder_index := fp_folder_index self;
     fp_pack_index := fp_pack_index self; fp_output_base := fp_output_base self;
     fp_pack_offset := fp_pack_offset self; fp_stream_size_base := fp_stream_size_base self;
     fp_stream_digest_base := fp_stream_digest_base self; fp_finished := true |}.

(** [Iterator::next]; a failing step ends the iteration. *)
Definition FolderPlans_next `{Nom} (self : FolderPlans) :
    option (result FolderLayout R7zError) * FolderPlans :=
  if fp_finished self then (None, self)
  else if decide (fp_folder_index self = UnpackInfo_num_folders_usize (fp_unpack_info self))
  then
    (match FolderPlans_validate_complete self with Ok _ => None | Err e => Some (Err e) end,
     FolderPlans_finish self)
  else
    match FolderPlans_next_folder self with
    | Ok (layout, self) => (Some (Ok layout), self)
    | Err e => (Some (Err e), FolderPlans_finish self)
    end.

(** [for folder in plans { let folder = folder?; ... }]: the layouts up to the
    end or the first error, with the state left. *)
Fixpoint FolderPlans_collect `{Nom} (fuel : nat) (self : FolderPlans) :
    result (list FolderLayout * FolderPlans) R7zError :=
  match fuel with
  | O => Err R7zOutOfFuel
  | S fuel =>
      match FolderPlans_next self with
      | (None, self) => Ok ([], self)
      | (Some (Err e), _) => Err e
      | (Some (Ok layout), self) =>
          let? (tl, self) := FolderPlans_collect fuel self in Ok (layout :: tl, self)
      end
  end.

(** ** Layout lists *)

Record FolderLayouts := { fls_plans : FolderPlans; fls_stream_count : Z }.

Record PreflightedFolderLayouts := { pf_layouts : FolderLayouts; pf_output_size : Z }.

Definition substream_count (folder_count : Z) (substream_info : option SubstreamInfo) :
    result Z R7zError :=
  match substream_info with
  | None => Ok folder_count
  | Some info =>
      if decide (zlen (num_unpack_streams_per_folder info) = folder_count) then
        try_fold (λ total count,
                    let? count := ok_or (usize_try_from count) Parse in
                    ok_or (checked_add total count) Parse)
                 0 (num_unpack_streams_per_folder info)
      else Err Parse
  end.

Definition over_limit (limit : option Z) (n : Z) : bool :=
  match limit with Some l => bool_decide (l < n) | None => false end.

(** The loop of [validate] over the folders: the total output size. *)
Fixpoint validate_loop `{Nom} (fuel : nat) (limit : option Z) (self : FolderPlans)
    (output_size : Z) : result (Z * FolderPlans) R7zError :=
  match fuel with
  | O => Err R7zOutOfFuel
  | S fuel =>
      match FolderPlans_next self with
      | (None, self) => Ok (output_size, self)
      | (Some (Err e), _) => Err e
      | (Some (Ok folder), self) =>
          let? output_size := ok_or (checked_add output_size (lo_unpack_size folder)) Parse in
          if over_limit limit output_size then Err (LimitExceeded "metadata")
          else validate_loop fuel limit self output_size
      end
  end.

(** One step per folder and one for the completeness check. *)
Definition plans_fuel (unpack : UnpackInfo) : nat := S (S (length (folder_offsets unpack))).

Definition FolderLayouts_validate `{Nom} (pack : PackInfo) (unpack : UnpackInfo)
    (substream_info : option SubstreamInfo) (limit : option Z) :
    result PreflightedFolderLayouts R7zError :=
  let? packed_bytes := try_fold sum_sizes_step 0 (pack_size pack) in
  if over_limit limit packed_bytes then Err (LimitExceeded "metadata") else
  let plans := FolderPlans_new pack unpack substream_info in
  let? (output_size, preflight) := validate_loop (plans_fuel unpack) limit plans 0 in
  let? stream_count := substream_count (UnpackInfo_num_folders_usize unpack) substream_info in
  if decide (stream_count ≠ fp_stream_digest_base preflight) then Err Parse else
  Ok {| pf_layouts := {| fls_plans := plans; fls_stream_count := stream_count |};
        pf_output_size := output_size |}.

Definition FolderLayouts_preflight `{Nom} (pack : PackInfo) (unpack : UnpackInfo)
    (substream_info : option SubstreamInfo) (metadata_limit : Z) :
    result PreflightedFolderLayouts R7zError :=
  FolderLayouts_validate pack unpack substream_info (Some metadata_limit).

Definition FolderLayouts_for_streams (streams : StreamInfo) : result FolderLayouts R7zError :=
  let? (pack, unpack) := StreamInfo_packed_folders streams in
  let folder_count := UnpackInfo_num_folders_usize unpack in
  if decide (num_pack_streams pack ≠ zlen (pack_size pack) ∨
             (pack_digests pack ≠ [] ∧ zlen (pack_digests pack) ≠ zlen (pack_size pack)) ∨
             num_folders unpack ≠ folder_count ∨
             (unpack_digests unpack ≠ [] ∧ zlen (unpack_digests unpack) ≠ folder_count))
  then Err Parse
  else
    let? stream_count := substream_count folder_count (si_substream_info streams) in
    Ok {| fls_plans := FolderPlans_new pack unpack (si_substream_info streams);
          fls_stream_count := stream_count |}.

(** ** Specification *)

(** The ranges cover [a, b) in order, without a gap or an overlap. *)
Fixpoint tiles (a : Z) (rs : list ByteRange) (b : Z) : Prop :=
  match rs with
  | [] => a = b
  | r :: rs => br_start r = a ∧ a ≤ br_end r ∧ tiles (br_end r) rs b
  end.

(** The ranges of consecutive streams of the given sizes. *)
Fixpoint ranges_from (a : Z) (sizes : list Z) : list ByteRange :=
  match sizes with
  | [] => []
  | size :: rest => {| br_start := a; br_end := a + size |} :: ranges_from (a + size) rest
  end.

Definition sum_z (l : list Z) : Z := foldr Z.add 0 l.

(** The sizes of all the substreams of a layout. *)
Definition layout_sizes (l : FolderStreamLayout) : list Z :=
  fl_explicit_sizes l ++ match fl_final_size l with Some s => [s] | None => [] end.

(** ** Lemmas: ranges *)

Lemma sum_z_app l k : sum_z (l ++ k) = sum_z l + sum_z k.
Proof. induction l as [|x l IH]; cbn; [done|]. unfold sum_z in IH |- *. rewrite IH. lia. Qed.

Lemma sum_z_nonneg l : Forall is_u64 l → 0 ≤ sum_z l.
Proof.
  unfold sum_z. induction 1 as [|x l Hx Hl IH]; cbn; [done|]. unfold is_u64 in Hx. lia.
Qed.

Lemma sum_sizes_spec acc l s :
  try_fold sum_sizes_step acc l = Ok s → acc ≤ u64_max → s = acc + sum_z l ∧ s ≤ u64_max.
Proof.
  revert acc. induction l as [|x l IH]; intros acc; cbn.
  { intros [= <-] ?. unfold sum_z; cbn. lia. }
  unfold sum_sizes_step at 1, checked_add. case_decide; cbn; [|done].
  intros Hf ?. apply IH in Hf; [|lia]. unfold sum_z in *. cbn. lia.
Qed.

Lemma sum_sizes_total acc l :
  Forall is_u64 l → 0 ≤ acc → acc + sum_z l ≤ u64_max →
  try_fold sum_sizes_step acc l = Ok (acc + sum_z l).
Proof.
  intros Hl. revert acc. induction Hl as [|x l Hx Hl IH]; intros acc Hacc Hs; cbn in *.
  { f_equal. unfold sum_z; cbn. lia. }
  pose proof (sum_z_nonneg _ Hl) as Hn. unfold is_u64 in Hx.
  unfold sum_sizes_step at 1, checked_add. fold (sum_z l) in Hs |- *.
  rewrite decide_True by lia. cbn. rewrite IH by lia. f_equal. lia.
Qed.

Lemma sum_sizes_error acc l e : try_fold sum_sizes_step acc l = Err e → e = Parse.
Proof.
  revert acc. induction l as [|x l IH]; intros acc; cbn; [done|].
  unfold sum_sizes_step at 1. destruct (checked_add acc x); cbn; [apply IH|congruence].
Qed.

Lemma ranges_from_length a l : length (ranges_from a l) = length l.
Proof. revert a. induction l; intros; cbn; auto. Qed.

Lemma ranges_from_tiles a l : Forall is_u64 l → tiles a (ranges_from a l) (a + sum_z l).
Proof.
  intros Hl. revert a. induction Hl as [|x l Hx Hl IH]; intros a; cbn; [lia|].
  split_and!; [done|unfold is_u64 in Hx; lia|].
  unfold sum_z in IH |- *. cbn. rewrite Z.add_assoc. apply IH.
Qed.

Lemma ranges_from_app a l k :
  ranges_from a (l ++ k) = ranges_from a l ++ ranges_from (a + sum_z l) k.
Proof.
  revert a. induction l as [|x l IH]; intros a; cbn; [by rewrite Z.add_0_r|].
  by rewrite IH, Z.add_assoc.
Qed.

Lemma tiles_app a b c rs ss : tiles a rs b → tiles b ss c → tiles a (rs ++ ss) c.
Proof.
  revert a. induction rs as [|r rs IH]; intros a; cbn; [by intros ->|].
  intros (? & ? & ?) ?. auto.
Qed.

(** The step both iterators take: no panic while the end stays a [u64]. *)
Lemma range_step a size :
  0 ≤ size → a + size ≤ u64_max →
  add_u64 a size = Ok (a + size) ∧
  ByteRange_from_range a (a + size) = Ok {| br_start := a; br_end := a + size |}.
Proof.
  intros. unfold add_u64, checked_add, ByteRange_from_range.
  by rewrite !decide_True by lia.
Qed.

Lemma packed_streams_scan_spec ds a i sizes :
  Forall is_u64 sizes → a + sum_z sizes ≤ u64_max →
  ∃ out, packed_streams_scan ds a i sizes = Ok out ∧
    map ps_range out = ranges_from a sizes ∧
    map ps_crc out = map (λ k, mjoin (ds !! k)) (seq i (length sizes)).
Proof.
  intros Hs. revert a i. induction Hs as [|x l Hx Hl IH]; intros a i Hsum; cbn.
  { by exists []. }
  pose proof (sum_z_nonneg _ Hl). unfold sum_z, is_u64 in *. cbn in Hsum.
  destruct (range_step a x) as [-> ->]; [lia..|].
  destruct (IH (a + x) (S i)) as (out & -> & Hr & Hd); [lia|].
  eexists. split_and!; [done| |]; cbn; by f_equal.
Qed.

(** ** Lemmas: substreams *)

Lemma Substreams_collect_S fuel s :
  Substreams_collect (S fuel) s =
  (let? (item, s) := Substreams_next s in
   match item with
   | None => Ok []
   | Some x => let? tl := Substreams_collect fuel s in Ok (x :: tl)
   end).
Proof. done. Qed.

Lemma Substreams_collect_from n l a k :
  Forall is_u64 (layout_sizes l) → (is_Some (fl_final_size l) ∨ fl_explicit_sizes l = []) →
  (k + n = length (layout_sizes l))%nat → a + sum_z (drop k (layout_sizes l)) ≤ u64_max →
  ∃ out, Substreams_collect (S n) {| sub_layout := l; sub_position := Z.of_nat k;
                                     sub_offset := a |} = Ok out ∧
    map ss_range out = ranges_from a (drop k (layout_sizes l)) ∧
    map ss_digest out = map (λ i, mjoin (fl_digests l !! i)) (seq k n).
Proof.
  intros Hs Hf. revert a k.
  assert (FolderStreamLayout_len l = zlen (layout_sizes l)) as Hlen.
  { unfold FolderStreamLayout_len, layout_sizes. rewrite zlen_app.
    by destruct (fl_final_size l). }
  induction n as [|n IH]; intros a k Hk Hsum.
  { exists []. cbn [Substreams_collect]. unfold Substreams_next; cbn [sub_position sub_layout].
    rewrite Hlen. unfold zlen. rewrite decide_True by lia.
    by rewrite drop_ge by lia. }
  destruct (lookup_lt_is_Some_2 (layout_sizes l) k ltac:(lia)) as [x Hx].
  rewrite (drop_S _ _ _ Hx) in Hsum |- *.
  assert (0 ≤ x) as Hx0 by (eapply Forall_lookup_1 in Hs; [|exact Hx]; unfold is_u64 in Hs; lia).
  assert (0 ≤ sum_z (drop (S k) (layout_sizes l))) as Hrest
    by (by apply sum_z_nonneg, Forall_drop).
  unfold sum_z in Hsum, Hrest. cbn [foldr] in Hsum.
  rewrite Substreams_collect_S.
  unfold Substreams_next; cbn [sub_position sub_layout sub_offset].
  rewrite Hlen. unfold zlen. rewrite decide_False by lia.
  rewrite !get_lookup.
  assert (match fl_explicit_sizes l !! k with Some s => Some s | None => fl_final_size l end
          = Some x) as ->.
  { unfold layout_sizes in Hx. destruct (fl_explicit_sizes l !! k) eqn:Ee.
    - rewrite (lookup_app_l_Some _ _ _ _ Ee) in Hx. done.
    - rewrite lookup_app_r in Hx by (by apply lookup_ge_None).
      destruct (fl_final_size l); [|done].
      apply lookup_lt_Some in Hx as Hlt. cbn in Hlt.
      replace (k - length (fl_explicit_sizes l))%nat with 0%nat in Hx by lia. done. }
  destruct (range_step a x) as [-> ->]; [lia..|].
  destruct (IH (a + x) (S k)) as (out & Hout & Hr & Hd); [lia|unfold sum_z; lia|].
  replace (Z.of_nat k + 1) with (Z.of_nat (S k)) by lia.
  rewrite Hout. eexists. split_and!; [done| |]; cbn; by f_equal.
Qed.

(** What [FolderStreamLayout::new] accepts, and the layout it makes. *)
Lemma FolderStreamLayout_new_inv D n es ds l :
  FolderStreamLayout_new D n es ds = Ok l → Forall is_u64 es → is_u64 D → is_u64 n →
  fl_explicit_sizes l = es ∧ fl_digests l = ds ∧ zlen (layout_sizes l) = n ∧
  Forall is_u64 (layout_sizes l) ∧ (is_Some (fl_final_size l) ∨ fl_explicit_sizes l = []) ∧
  sum_z (layout_sizes l) = (if decide (n = 0) then 0 else D) ∧
  (ds = [] ∨ zlen ds = n).
Proof.
  unfold FolderStreamLayout_new, saturating_sub. intros Hn Hes HD Hcount.
  destruct (decide _) as [|Hg] in Hn; [done|].
  apply Decidable.not_or in Hg as [Hlen Hds]. apply dec_stable in Hlen.
  destruct (try_fold _ _ _) as [total|] eqn:Et in Hn; [|done].
  apply sum_sizes_spec in Et as [-> Htotal]; [|lia]. unfold checked_sub in Hn.
  destruct (decide (0 + sum_z es ≤ D)) as [Hle|] in Hn; [|done]. injection Hn as <-.
  pose proof (sum_z_nonneg _ Hes) as Hes0. unfold is_u64 in Hcount, HD. cbn -[sum_z].
  assert (ds = [] ∨ zlen ds = n) as Hds'.
  { destruct (decide (ds = [])); [by left|right]. apply dec_stable. tauto. }
  destruct (decide (n = 0)) as [->|Hn0].
  - assert (es = []) as -> by (destruct es; [done|rewrite zlen_cons in Hlen;
      pose proof (zlen_nonneg es); lia]).
    rewrite decide_False by tauto. unfold layout_sizes; cbn. split_and!; auto.
  - rewrite decide_True by done. unfold layout_sizes; cbn [fl_explicit_sizes fl_final_size].
    rewrite zlen_app, sum_z_app, zlen_cons, zlen_nil, Hlen.
    assert (sum_z [D - (0 + sum_z es)] = D - sum_z es) as -> by (unfold sum_z at 1; cbn; lia).
    split_and!; [done|done|lia| |by left|lia|done].
    apply Forall_app; split; [done|]. constructor; [|done]. unfold is_u64. lia.
Qed.

(** The substreams of an accepted layout tile the decoded bytes. *)
Lemma FolderStreamLayout_substreams D n es ds l :
  FolderStreamLayout_new D n es ds = Ok l → Forall is_u64 es → is_u64 D → is_u64 n →
  ∃ out, Substreams_collect (S (Z.to_nat n)) (FolderStreamLayout_streams l) = Ok out ∧
    zlen out = n ∧ FolderStreamLayout_len l = n ∧
    tiles 0 (map ss_range out) (if decide (n = 0) then 0 else D) ∧
    map ss_digest out = map (λ i, mjoin (ds !! i)) (seq 0 (Z.to_nat n)).
Proof.
  intros Hl Hes HD Hn.
  destruct (FolderStreamLayout_new_inv _ _ _ _ _ Hl Hes HD Hn)
    as (He & <- & Hlen & Hu & Hf & Hsum & _).
  destruct (Substreams_collect_from (Z.to_nat n) l 0 0 Hu Hf) as (out & Ho & Hr & Hd).
  { unfold zlen in Hlen. lia. }
  { rewrite drop_0, Hsum. unfold is_u64 in HD. case_decide; lia. }
  rewrite drop_0 in Hr. exists out. split_and!; [exact Ho| | | |exact Hd].
  - rewrite <- Hlen, <- (zlen_map ss_range), Hr. unfold zlen. by rewrite ranges_from_length.
  - rewrite <- Hlen. unfold FolderStreamLayout_len, layout_sizes. rewrite zlen_app.
    by destruct (fl_final_size l).
  - rewrite Hr, <- Hsum. by apply ranges_from_tiles.
Qed.

(** ** Lemmas: the folder plans *)

Lemma get_range_take {A} a b (l k : list A) :
  get_range a b l = Some k → take (Z.to_nat b) l = take (Z.to_nat a) l ++ k.
Proof.
  unfold get_range. case_decide as Hr; [|done]. intros [= <-].
  replace (Z.to_nat b) with (Z.to_nat a + Z.to_nat (b - a))%nat by lia.
  by rewrite take_take_drop.
Qed.

Lemma get_range_Forall {A} (P : A → Prop) a b l k :
  get_range a b l = Some k → Forall P l → Forall P k.
Proof.
  unfold get_range. case_decide; [|done]. intros [= <-] ?. by apply Forall_take, Forall_drop.
Qed.

Lemma checked_add_inv a b c : checked_add a b = Some c → c = a + b ∧ c ≤ u64_max.
Proof. unfold checked_add. case_decide; [|done]. by intros [= <-]. Qed.

(** The substreams a substream descriptor gives folder [k]: one without it. *)
Definition stream_count_of (sub : option SubstreamInfo) (k : nat) : option Z :=
  match sub with
  | None => Some 1
  | Some info => num_unpack_streams_per_folder info !! k
  end.

(** What a produced layout says of folder [k], with the packed bytes before it. *)
Record layout_spec `{Nom} (unpack : UnpackInfo) (sub : option SubstreamInfo) (k : nat)
    (packed_before : Z) (l : FolderLayout) : Prop := {
  ls_folder : UnpackInfo_parse_folder_with_graph unpack (Z.of_nat k) = Ok (lo_folder l, lo_graph l);
  ls_packed : length (pst_sizes (lo_streams l)) = length (fg_packed_inputs (lo_graph l));
  ls_start : pst_start (lo_streams l) = packed_before;
  ls_end : packed_before + sum_z (pst_sizes (lo_streams l)) ≤ u64_max;
  ls_outs : Folder_total_out_streams (lo_folder l) = Some (zlen (lo_coder_sizes l));
  ls_size : lo_coder_sizes l !! fg_final_output (lo_graph l) = Some (lo_unpack_size l);
  ls_crc : lo_crc l = mjoin (unpack_digests unpack !! k);
  ls_streams : ∃ n, stream_count_of sub k = Some n ∧ is_u64 n ∧
    FolderStreamLayout_new (lo_unpack_size l) n (fl_explicit_sizes (lo_layout l))
      (fl_digests (lo_layout l)) = Ok (lo_layout l)
}.

(** The state of the iteration after the layouts [ls]: each slice of the
    descriptors handed out so far is a prefix of the whole. *)
Record plans_at `{Nom} (pack : PackInfo) (unpack : UnpackInfo) (sub : option SubstreamInfo)
    (ls : list FolderLayout) (st : FolderPlans) : Prop := {
  pa_pack : fp_pack_info st = pack;
  pa_unpack : fp_unpack_info st = unpack;
  pa_sub : fp_substream_info st = sub;
  pa_index : fp_folder_index st = zlen ls;
  pa_packs : concat (map (λ l, pst_sizes (lo_streams l)) ls)
             = take (Z.to_nat (fp_pack_index st)) (pack_size pack);
  pa_pack_index : 0 ≤ fp_pack_index st ≤ zlen (pack_size pack);
  pa_outs : concat (map lo_coder_sizes ls)
            = take (Z.to_nat (fp_output_base st)) (unpack_sizes unpack);
  pa_out_base : 0 ≤ fp_output_base st ≤ zlen (unpack_sizes unpack);
  pa_offset : fp_pack_offset st = sum_z (concat (map (λ l, pst_sizes (lo_streams l)) ls));
  pa_offset_max : fp_pack_offset st ≤ u64_max;
  pa_explicit : ∀ info, sub = Some info →
    concat (map (λ l, fl_explicit_sizes (lo_layout l)) ls)
    = take (Z.to_nat (fp_stream_size_base st)) (substream_sizes info) ∧
    0 ≤ fp_stream_size_base st ≤ zlen (substream_sizes info);
  pa_digests : ∀ info, sub = Some info → substream_digests info ≠ [] →
    concat (map (λ l, fl_digests (lo_layout l)) ls)
    = take (Z.to_nat (fp_stream_digest_base st)) (substream_digests info) ∧
    0 ≤ fp_stream_digest_base st ≤ zlen (substream_digests info);
  pa_count : fp_stream_digest_base st
             = sum_z (map (λ l, FolderStreamLayout_len (lo_layout l)) ls);
  pa_layouts : ∀ k l, ls !! k = Some l →
    layout_spec unpack sub k
      (sum_z (concat (map (λ l, pst_sizes (lo_streams l)) (take k ls)))) l
}.

Lemma plans_at_new `{Nom} pack unpack sub :
  plans_at pack unpack sub [] (FolderPlans_new pack unpack sub).
Proof.
  split; try done; cbn; intros; pose proof (zlen_nonneg (pack_size pack));
    pose proof (zlen_nonneg (unpack_sizes unpack)); try lia.
  - pose proof (zlen_nonneg (substream_sizes info)). split; [done|lia].
  - pose proof (zlen_nonneg (substream_digests info)). split; [done|lia].
Qed.

Lemma FolderStreamLayout_new_len D n es ds l :
  FolderStreamLayout_new D n es ds = Ok l → 0 ≤ n →
  fl_explicit_sizes l = es ∧ fl_digests l = ds ∧ FolderStreamLayout_len l = n.
Proof.
  unfold FolderStreamLayout_new, saturating_sub. intros Hn Hc.
  destruct (decide _) as [|Hg] in Hn; [done|].
  apply Decidable.not_or in Hg as [Hlen _]. apply dec_stable in Hlen.
  destruct (try_fold _ _ _) as [total|] in Hn; [|done].
  destruct (checked_sub _ _) in Hn; [|done]. injection Hn as <-.
  unfold FolderStreamLayout_len; cbn [fl_explicit_sizes fl_digests fl_final_size].
  split_and!; [done..|]. destruct (decide (n = 0)) as [->|].
  - destruct (decide (0 ≠ 0)); [done|]. rewrite decide_False by (by intros [? ?]). lia.
  - destruct (decide (n ≠ 0)); [|done]. rewrite decide_True by done. lia.
Qed.

Lemma folder_stream_count_inv st n :
  FolderPlans_folder_stream_count st = Ok n → 0 ≤ fp_folder_index st →
  stream_count_of (fp_substream_info st) (Z.to_nat (fp_folder_index st)) = Some n ∧ is_u64 n.
Proof.
  unfold FolderPlans_folder_stream_count, stream_count_of. intros Hn Hi.
  destruct (fp_substream_info st) as [info|]; [|by injection Hn as <-; split].
  unfold get in Hn. rewrite decide_True in Hn by done.
  destruct (num_unpack_streams_per_folder info !! _) as [c|]; cbn in Hn; [|done].
  unfold usize_try_from in Hn. case_decide; cbn in Hn; [|done]. injection Hn as <-.
  split; [done|]. unfold is_u64. lia.
Qed.

(** Everything a successful [next_folder] has checked. *)
Lemma next_folder_inv `{Nom} st l st' :
  FolderPlans_next_folder st = Ok (l, st') → 0 ≤ fp_folder_index st →
  fp_pack_offset st ≤ u64_max →
  let sub := fp_substream_info st in
  ∃ n,
    UnpackInfo_parse_folder_with_graph (fp_unpack_info st) (fp_folder_index st)
      = Ok (lo_folder l, lo_graph l) ∧
    stream_count_of sub (Z.to_nat (fp_folder_index st)) = Some n ∧ is_u64 n ∧
    get_range (fp_pack_index st) (fp_pack_index st') (pack_size (fp_pack_info st))
      = Some (pst_sizes (lo_streams l)) ∧
    fp_pack_index st' = fp_pack_index st + zlen (fg_packed_inputs (lo_graph l)) ∧
    pst_start (lo_streams l) = fp_pack_offset st ∧
    fp_pack_offset st' = fp_pack_offset st + sum_z (pst_sizes (lo_streams l)) ∧
    fp_pack_offset st' ≤ u64_max ∧
    Folder_total_out_streams (lo_folder l) = Some (fp_output_base st' - fp_output_base st) ∧
    get_range (fp_output_base st) (fp_output_base st') (unpack_sizes (fp_unpack_info st))
      = Some (lo_coder_sizes l) ∧
    lo_coder_sizes l !! fg_final_output (lo_graph l) = Some (lo_unpack_size l) ∧
    lo_crc l = mjoin (get (fp_folder_index st) (unpack_digests (fp_unpack_info st))) ∧
    FolderStreamLayout_new (lo_unpack_size l) n (fl_explicit_sizes (lo_layout l))
      (fl_digests (lo_layout l)) = Ok (lo_layout l) ∧
    (∀ info, sub = Some info →
      get_range (fp_stream_size_base st) (fp_stream_size_base st') (substream_sizes info)
      = Some (fl_explicit_sizes (lo_layout l))) ∧
    (∀ info, sub = Some info → substream_digests info ≠ [] →
      get_range (fp_stream_digest_base st) (fp_stream_digest_base st') (substream_digests info)
      = Some (fl_digests (lo_layout l))) ∧
    fp_stream_digest_base st' = fp_stream_digest_base st + n ∧
    fp_pack_info st' = fp_pack_info st ∧ fp_unpack_info st' = fp_unpack_info st ∧
    fp_substream_info st' = sub ∧ fp_folder_index st' = fp_folder_index st + 1 ∧
    fp_finished st' = fp_finished st.
Proof.
  unfold FolderPlans_next_folder. intros Hn Hi Hoff.
  destruct (UnpackInfo_parse_folder_with_graph _ _) as [[f g]|] eqn:Ef; [|done].
  destruct (checked_add _ (zlen _)) as [pe|] eqn:Epe; cbn [ok_or] in Hn; [|done].
  destruct (get_range _ pe _) as [ps|] eqn:Eps; cbn [ok_or] in Hn; [|done].
  destruct (Folder_total_out_streams f) as [outs|] eqn:Eo; cbn [ok_or] in Hn; [|done].
  destruct (checked_add _ outs) as [oe|] eqn:Eoe; cbn [ok_or] in Hn; [|done].
  destruct (get_range _ oe _) as [cs|] eqn:Ecs; cbn [ok_or] in Hn; [|done].
  destruct (cs !! _) as [us|] eqn:Eus; cbn [ok_or] in Hn; [|done].
  destruct (FolderPlans_folder_stream_count st) as [n|] eqn:En; [|done].
  destruct (checked_add _ (saturating_sub n 1)) as [se|] eqn:Ese; cbn [ok_or] in Hn; [|done].
  destruct (match fp_substream_info st with Some info => _ | None => Ok [] end)
    as [es|] eqn:Ees in Hn; [|done].
  destruct (checked_add _ n) as [de|] eqn:Ede; cbn [ok_or] in Hn; [|done].
  destruct (match fp_substream_info st with Some info => _ | None => _ end)
    as [ds|] eqn:Eds in Hn; [|done].
  destruct (FolderStreamLayout_new us n es ds) as [lay|] eqn:El; [|done].
  destruct (try_fold _ _ ps) as [po|] eqn:Epo; [|done]. injection Hn as <- <-.
  apply checked_add_inv in Epe as [-> _], Eoe as [-> _], Ese as [-> _], Ede as [-> _].
  apply sum_sizes_spec in Epo as [-> Hpo]; [|done].
  apply folder_stream_count_inv in En as [Hc Hu]; [|done].
  destruct (FolderStreamLayout_new_len _ _ _ _ _ El ltac:(unfold is_u64 in Hu; lia))
    as (Hes & Hds & _).
  exists n. cbn -[sum_z]. rewrite Hes, Hds. rewrite Z.add_simpl_l.
  split_and!; try done.
  - intros info Hi'. rewrite Hi' in Ees. by destruct (get_range _ _ (substream_sizes info));
      cbn in Ees; [injection Ees as ->|].
  - intros info Hi' Hne. rewrite Hi' in Eds. destruct (substream_digests info) as [|d ds']; [done|].
    by destruct (get_range _ _ (d :: ds')); cbn in Eds; [injection Eds as ->|].
Qed.

(** Extending a prefix of a list by the next range. *)
Lemma concat_snoc_range {A B} (f : A → list B) ls x a b l :
  concat (map f ls) = take (Z.to_nat a) l → get_range a b l = Some (f x) →
  concat (map f (ls ++ [x])) = take (Z.to_nat b) l ∧ 0 ≤ b ≤ zlen l.
Proof.
  intros Hc Hg. rewrite map_app, concat_app, Hc. cbn. rewrite app_nil_r.
  rewrite (get_range_take _ _ _ _ Hg). apply get_range_length in Hg. split; [done|lia].
Qed.

Lemma next_folder_step `{Nom} pack unpack sub ls st l st' :
  plans_at pack unpack sub ls st → FolderPlans_next_folder st = Ok (l, st') →
  plans_at pack unpack sub (ls ++ [l]) st' ∧ fp_finished st' = fp_finished st.
Proof.
  intros Hat Hn. pose proof (zlen_nonneg ls) as Hls.
  destruct (next_folder_inv _ _ _ Hn) as (n & Hf & Hc & Hu & Hps & Hpi & Hst & Hpo & Hpom &
    Ho & Hcs & Hus & Hcrc & Hlay & Hes & Hds & Hdb & Hpk & Hup & Hsb & Hix & Hfin).
  { rewrite (pa_index _ _ _ _ _ Hat). lia. }
  { apply (pa_offset_max _ _ _ _ _ Hat). }
  destruct Hat as [Ap Au As Ai App Api Aou Aob Aof Aom Aex Adg Act Al].
  rewrite Ap, Au, As in *. rewrite Ai in *.
  destruct (concat_snoc_range (λ l, pst_sizes (lo_streams l)) _ _ _ _ _ App Hps) as [Hp1 Hp2].
  destruct (concat_snoc_range lo_coder_sizes _ _ _ _ _ Aou Hcs) as [Ho1 Ho2].
  destruct (FolderStreamLayout_new_len _ _ _ _ _ Hlay ltac:(unfold is_u64 in Hu; lia))
    as (_ & _ & Hlen).
  split; [|done]. split; try done.
  - rewrite Hix, zlen_app. done.
  - rewrite map_app, concat_app, sum_z_app, Hpo, Aof. cbn. by rewrite app_nil_r.
  - intros info Hinfo. destruct (Aex info Hinfo) as [A1 A2].
    by apply (concat_snoc_range (λ l, fl_explicit_sizes (lo_layout l)) _ _ _ _ _ A1), Hes.
  - intros info Hinfo Hne. destruct (Adg info Hinfo Hne) as [A1 A2].
    by apply (concat_snoc_range (λ l, fl_digests (lo_layout l)) _ _ _ _ _ A1), Hds.
  - rewrite Hdb, Act, map_app, sum_z_app. unfold sum_z at 3. cbn. rewrite Hlen. lia.
  - intros k x Hk. apply lookup_snoc_Some in Hk as [[Hlt Hk]|[-> <-]].
    + rewrite take_app_le by lia. by apply Al.
    + rewrite take_app_length.
      assert (get_range (fp_pack_index st) (fp_pack_index st') (pack_size pack)
              = Some (pst_sizes (lo_streams l))) as Hr by done.
      apply get_range_length in Hr as (Hr & _). apply get_range_length in Hcs as (Hcl & _).
      unfold zlen in Hc, Hf, Hcrc. rewrite Nat2Z.id in Hc. rewrite get_lookup in Hcrc.
      split; try done.
      * unfold zlen in Hr, Hpi. lia.
      * by rewrite Hst, Aof.
      * by rewrite <- Aof, <- Hpo.
      * by rewrite Ho, Hcl.
      * by exists n.
Qed.

Lemma FolderPlans_finish_at `{Nom} pack unpack sub ls st :
  plans_at pack unpack sub ls st → plans_at pack unpack sub ls (FolderPlans_finish st).
Proof. by intros []. Qed.

(** A completed iteration has handed out all of the descriptors. *)
Record plans_complete `{Nom} (pack : PackInfo) (unpack : UnpackInfo) (sub : option SubstreamInfo)
    (ls : list FolderLayout) : Prop := {
  pc_folders : num_folders unpack = zlen ls ∧ zlen ls = UnpackInfo_num_folders_usize unpack;
  pc_packs : concat (map (λ l, pst_sizes (lo_streams l)) ls) = pack_size pack ∧
             num_pack_streams pack = zlen (pack_size pack);
  pc_outs : concat (map lo_coder_sizes ls) = unpack_sizes unpack;
  pc_explicit : ∀ info, sub = Some info →
    concat (map (λ l, fl_explicit_sizes (lo_layout l)) ls) = substream_sizes info;
  pc_digests : ∀ info, sub = Some info → substream_digests info ≠ [] →
    concat (map (λ l, fl_digests (lo_layout l)) ls) = substream_digests info;
  pc_layouts : ∀ k l, ls !! k = Some l →
    layout_spec unpack sub k
      (sum_z (concat (map (λ l, pst_sizes (lo_streams l)) (take k ls)))) l
}.

Lemma take_zlen {A} (l : list A) : take (Z.to_nat (zlen l)) l = l.
Proof. rewrite to_nat_zlen. by apply take_ge. Qed.

Lemma validate_complete_spec `{Nom} pack unpack sub ls st :
  plans_at pack unpack sub ls st → fp_folder_index st = UnpackInfo_num_folders_usize unpack →
  FolderPlans_validate_complete st = Ok tt → plans_complete pack unpack sub ls.
Proof.
  intros Hat Hi Hv. destruct Hat as [Ap Au As Ai App Api Aou Aob Aof Aom Aex Adg Act Al].
  unfold FolderPlans_validate_complete in Hv. rewrite Ap, Au, As in Hv.
  destruct (decide _) as [|Hg] in Hv; [done|].
  apply Decidable.not_or in Hg as [Hp%dec_stable Hg].
  apply Decidable.not_or in Hg as [Hpn%dec_stable Hg].
  apply Decidable.not_or in Hg as [Hf%dec_stable Hg].
  apply Decidable.not_or in Hg as [Ho%dec_stable Hg].
  apply Decidable.not_or in Hg as [_ Hg]. apply Decidable.not_or in Hg as [_ Hg].
  rewrite Ai in Hi. split; try done.
  - lia.
  - split; [|done]. rewrite App, Hp. apply take_zlen.
  - rewrite Aou, Ho. apply take_zlen.
  - intros info ->. apply not_false_is_true, bool_decide_eq_true in Hg as (_ & Hs & _).
    destruct (Aex info eq_refl) as [-> _]. rewrite <- Hs. apply take_zlen.
  - intros info -> Hne. apply not_false_is_true, bool_decide_eq_true in Hg as (_ & _ & Hd).
    destruct (Adg info eq_refl Hne) as [-> _]. destruct Hd as [?|<-]; [done|]. apply take_zlen.
Qed.

Lemma FolderPlans_collect_complete `{Nom} pack unpack sub fuel ls st out st' :
  plans_at pack unpack sub ls st → fp_finished st = false →
  FolderPlans_collect fuel st = Ok (out, st') →
  plans_complete pack unpack sub (ls ++ out) ∧ plans_at pack unpack sub (ls ++ out) st'.
Proof.
  revert ls st out st'. induction fuel as [|fuel IH]; intros ls st out st' Hat Hfin; cbn; [done|].
  unfold FolderPlans_next. rewrite Hfin. rewrite (pa_unpack _ _ _ _ _ Hat).
  case_decide as Hi.
  - destruct (FolderPlans_validate_complete st) as [[]|] eqn:Ev; [|done].
    intros [= <- <-]. rewrite app_nil_r.
    split; [by eapply validate_complete_spec|by apply FolderPlans_finish_at].
  - destruct (FolderPlans_next_folder st) as [[l st1]|] eqn:En; [|done].
    destruct (FolderPlans_collect fuel st1) as [[tl st2]|] eqn:Ec; [|done]. intros [= <- <-].
    apply next_folder_step with (1 := Hat) in En as [Hat1 Hfin1].
    rewrite (app_assoc ls [l] tl : ls ++ l :: tl = _).
    apply (IH _ _ _ _ Hat1); [congruence|done].
Qed.

(** ** Lemmas: the iteration returns *)

Lemma parse_folder_with_graph_returns `{Nom} u k :
  returns (UnpackInfo_parse_folder_with_graph u k).
Proof.
  unfold UnpackInfo_parse_folder_with_graph, UnpackInfo_folder_bytes.
  repeat returns_step.
  - by destruct (all_consuming _ _).
  - destruct (Folder_graph_cases f) as [(_ & g & -> & _)|[_ ->]]; repeat returns_step.
Qed.

Lemma parse_folder_with_graph_inv `{Nom} u k f g :
  byte_slice (folder_data u) → UnpackInfo_parse_folder_with_graph u k = Ok (f, g) →
  folder_wf f ∧ 0 ≤ k < UnpackInfo_num_folders_usize u ∧ Folder_graph f = Ok g.
Proof.
  unfold UnpackInfo_parse_folder_with_graph, UnpackInfo_folder_bytes. intros Hd Hp.
  destruct (get k _) as [a|] eqn:Ea; cbn [ok_or] in Hp; [|done].
  destruct (get (k + 1) _) as [b|] eqn:Eb; cbn [ok_or] in Hp; [|done].
  case_decide as Hr; [done|]. rewrite all_consuming_law in Hp. unfold ref_all_consuming in Hp.
  destruct (Folder_parse _) as [[r f']|] eqn:Ef; cbn in Hp; [|done].
  destruct (sl_empty r); cbn in Hp; [|done].
  destruct (Folder_graph f') as [g'|] eqn:Eg; [|done]. injection Hp as <- <-.
  apply get_lt in Ea, Eb.
  split; [|split; [unfold UnpackInfo_num_folders_usize; lia|done]].
  apply Folder_parse_wf in Ef; [apply Ef|]. by apply Forall_take, byte_slice_advance.
Qed.

Lemma FolderStreamLayout_new_returns D n es ds : returns (FolderStreamLayout_new D n es ds).
Proof.
  unfold FolderStreamLayout_new. repeat returns_step.
  destruct (try_fold _ _ _) eqn:E; [done|]. apply sum_sizes_error in E as ->. by repeat returns_step.
Qed.

Lemma next_folder_returns `{Nom} st :
  byte_slice (folder_data (fp_unpack_info st)) → returns (FolderPlans_next_folder st).
Proof.
  intros Hd. unfold FolderPlans_next_folder. repeat returns_step.
  - apply parse_folder_with_graph_returns.
  - apply parse_folder_with_graph_inv in E as (Hwf & _); [|done].
    by rewrite total_out_streams_sum by apply Hwf.
  - unfold FolderPlans_folder_stream_count. repeat returns_step.
  - apply FolderStreamLayout_new_returns.
  - destruct (try_fold _ _ _) eqn:Et; [done|]. apply sum_sizes_error in Et as ->.
    by repeat returns_step.
Qed.

(** The folders left to visit, counted by the offset table. *)
Definition plans_left (st : FolderPlans) : Z :=
  zlen (folder_offsets (fp_unpack_info st)) - fp_folder_index st.

Lemma next_folder_left `{Nom} st l st' :
  byte_slice (folder_data (fp_unpack_info st)) → FolderPlans_next_folder st = Ok (l, st') →
  fp_unpack_info st' = fp_unpack_info st ∧ plans_left st' = plans_left st - 1 ∧
  0 < plans_left st'.
Proof.
  intros Hd Hn. unfold FolderPlans_next_folder in Hn.
  destruct (UnpackInfo_parse_folder_with_graph _ _) as [[f g]|] eqn:Ef; [|done].
  apply parse_folder_with_graph_inv in Ef as (_ & Hk & _); [|done].
  unfold UnpackInfo_num_folders_usize in Hk.
  repeat match type of Hn with
  | (match ?e with Ok _ => _ | Err _ => _ end) = Ok _ => destruct e; [|discriminate Hn]
  end.
  injection Hn as <- <-. unfold plans_left. cbn. split_and!; [done|lia|lia].
Qed.

Lemma validate_complete_returns st : returns (FolderPlans_validate_complete st).
Proof. unfold FolderPlans_validate_complete. repeat returns_step. Qed.

Lemma FolderPlans_collect_returns `{Nom} fuel st :
  byte_slice (folder_data (fp_unpack_info st)) → 0 ≤ plans_left st < Z.of_nat fuel →
  returns (FolderPlans_collect fuel st).
Proof.
  revert st. induction fuel as [|fuel IH]; intros st Hd Hf; [lia|]. cbn [FolderPlans_collect].
  unfold FolderPlans_next. destruct (fp_finished st); [done|]. case_decide.
  - pose proof (validate_complete_returns st). by destruct (FolderPlans_validate_complete st).
  - pose proof (next_folder_returns st Hd) as Hr.
    destruct (FolderPlans_next_folder st) as [[l st1]|] eqn:En; [|done].
    apply next_folder_left in En as (Hu & Hl & Hp); [|done].
    apply returns_bind; [apply IH; [by rewrite Hu|lia]|]. by intros [].
Qed.

(** [validate] walks the same folders: what it accepts, an iteration yields. *)
Lemma validate_loop_collect `{Nom} fuel limit st size0 size st' :
  validate_loop fuel limit st size0 = Ok (size, st') → size0 ≤ u64_max →
  ∃ ls, FolderPlans_collect fuel st = Ok (ls, st') ∧
    size = size0 + sum_z (map lo_unpack_size ls) ∧ size ≤ u64_max ∧
    (ls ≠ [] → over_limit limit size = false).
Proof.
  revert st size0. induction fuel as [|fuel IH]; intros st size0; cbn; [done|].
  destruct (FolderPlans_next st) as [[[l|e]|] st1]; [|done|].
  - destruct (checked_add _ _) as [s1|] eqn:Es; cbn; [|done].
    apply checked_add_inv in Es as [-> Hs1].
    destruct (over_limit limit (size0 + _)) eqn:Eo; [done|]. intros Hv ?.
    apply IH in Hv as (ls & -> & -> & Hm & Ho); [|done].
    exists (l :: ls). split_and!; [done|unfold sum_z; cbn; lia|done|]. intros _.
    destruct ls; [|by apply Ho]. unfold sum_z. cbn. by rewrite Z.add_0_r.
  - intros [= <- <-] ?. exists []. split_and!; [done|unfold sum_z; cbn; lia|done|done].
Qed.

Lemma validate_loop_returns `{Nom} fuel limit st size :
  byte_slice (folder_data (fp_unpack_info st)) → 0 ≤ plans_left st < Z.of_nat fuel →
  returns (validate_loop fuel limit st size).
Proof.
  revert st size. induction fuel as [|fuel IH]; intros st size Hd Hf; [lia|]. cbn [validate_loop].
  unfold FolderPlans_next. destruct (fp_finished st); [done|]. case_decide.
  - pose proof (validate_complete_returns st). by destruct (FolderPlans_validate_complete st).
  - pose proof (next_folder_returns st Hd) as Hr.
    destruct (FolderPlans_next_folder st) as [[l st1]|] eqn:En; [|done].
    apply next_folder_left in En as (Hu & Hl & Hp); [|done].
    repeat returns_step. apply IH; [by rewrite Hu|lia].
Qed.

(** ** Lemmas: the packed ranges of all folders *)

Lemma packed_ranges_tile `{Nom} unpack sub ls :
  (∀ k l, ls !! k = Some l → layout_spec unpack sub k
     (sum_z (concat (map (λ l, pst_sizes (lo_streams l)) (take k ls)))) l) →
  Forall is_u64 (concat (map (λ l, pst_sizes (lo_streams l)) ls)) →
  ∃ outs, try_collect (λ l, PackedStreams_iter (lo_streams l)) ls = Ok outs ∧
    map ps_range (concat outs)
    = ranges_from 0 (concat (map (λ l, pst_sizes (lo_streams l)) ls)).
Proof.
  induction ls as [|l ls IH] using rev_ind; intros Hl Hu; [by exists []|].
  rewrite map_app, concat_app in Hu |- *. apply Forall_app in Hu as [Hu1 Hu2].
  cbn in Hu2 |- *. rewrite app_nil_r in Hu2 |- *.
  destruct IH as (outs & Ho & Hr); [|done|].
  { intros k x Hk. specialize (Hl k x (lookup_app_l_Some _ _ _ _ Hk)).
    apply lookup_lt_Some in Hk. by rewrite take_app_le in Hl by lia. }
  specialize (Hl (length ls) l). rewrite lookup_app_r, Nat.sub_diag, take_app_length in Hl by lia.
  specialize (Hl eq_refl).
  destruct (packed_streams_scan_spec (pst_digests (lo_streams l))
    (pst_start (lo_streams l)) 0 (pst_sizes (lo_streams l)) Hu2) as (out & Hout & Hor & _).
  { rewrite (ls_start _ _ _ _ _ Hl). apply (ls_end _ _ _ _ _ Hl). }
  exists (outs ++ [out]). split.
  - apply try_collect_Forall2, Forall2_app; [by apply try_collect_Forall2|].
    by constructor.
  - rewrite concat_app, map_app, Hr, ranges_from_app. cbn.
    by rewrite app_nil_r, Hor, (ls_start _ _ _ _ _ Hl).
Qed.

Lemma plans_complete_stream_count `{Nom} pack unpack sub ls st :
  plans_at pack unpack sub ls st →
  fp_stream_digest_base st = sum_z (map (λ l, FolderStreamLayout_len (lo_layout l)) ls).
Proof. by intros []. Qed.

Lemma substream_count_returns n sub : returns (substream_count n sub).
Proof.
  unfold substream_count. destruct sub as [info|]; [|done].
  case_decide as Hl; [clear Hl|by repeat returns_step].
  generalize 0 as acc. induction (num_unpack_streams_per_folder _) as [|c cs IH]; intros acc;
    cbn [try_fold]; repeat returns_step. apply IH.
Qed.

(** What [preflight] accepts iterates to the end. *)
Lemma preflight_collect `{Nom} pack unpack sub limit pf :
  FolderLayouts_preflight pack unpack sub limit = Ok pf →
  fls_plans (pf_layouts pf) = FolderPlans_new pack unpack sub ∧
  ∃ ls st,
    FolderPlans_collect (plans_fuel unpack) (fls_plans (pf_layouts pf)) = Ok (ls, st) ∧
    plans_complete pack unpack sub ls ∧
    pf_output_size pf = sum_z (map lo_unpack_size ls) ∧
    sum_z (pack_size pack) ≤ limit ∧ (ls ≠ [] → pf_output_size pf ≤ limit) ∧
    fls_stream_count (pf_layouts pf)
    = sum_z (map (λ l, FolderStreamLayout_len (lo_layout l)) ls).
Proof.
  unfold FolderLayouts_preflight, FolderLayouts_validate, over_limit at 1. intros Hp.
  destruct (try_fold _ 0 (pack_size pack)) as [pb|] eqn:Epb; [|done].
  apply sum_sizes_spec in Epb as [-> _]; [|lia].
  case_bool_decide as Hlim; [done|].
  destruct (validate_loop _ _ _ _) as [[size st]|] eqn:Ev; [|done].
  destruct (substream_count _ _) as [n|]; [|done]. case_decide as Hn; [done|].
  injection Hp as <-. subst n.
  apply validate_loop_collect in Ev as (ls & Hc & -> & _ & Ho); [|lia].
  eapply (FolderPlans_collect_complete _ _ _ _ []) in Hc as Hcc;
    [|apply plans_at_new|done]. destruct Hcc as [Hcc Hat].
  split; [done|]. exists ls, st. cbn -[sum_z] in Ho |- *. split_and!; [done|done|done|lia| |].
  - intros Hne. specialize (Ho Hne). apply bool_decide_eq_false in Ho. lia.
  - exact (plans_complete_stream_count _ _ _ _ _ Hat).
Qed.

Lemma folder_substreams_collect `{Nom} pack unpack sub fuel ls st k l :
  FolderPlans_collect fuel (FolderPlans_new pack unpack sub) = Ok (ls, st) →
  Forall is_u64 (unpack_sizes unpack) →
  (∀ info, sub = Some info → Forall is_u64 (substream_sizes info)) →
  ls !! k = Some l →
  ∃ n out, stream_count_of sub k = Some n ∧
    Substreams_collect (S (Z.to_nat n)) (FolderStreamLayout_streams (lo_layout l)) = Ok out ∧
    zlen out = n ∧
    tiles 0 (map ss_range out) (if decide (n = 0) then 0 else lo_unpack_size l) ∧
    map ss_digest out = map (λ i, mjoin (fl_digests (lo_layout l) !! i)) (seq 0 (Z.to_nat n)).
Proof.
  intros Hc Hu Hs Hk. eapply (FolderPlans_collect_complete _ _ _ _ []) in Hc as [Hc _];
    [|apply plans_at_new|done].
  destruct Hc as [_ _ Ho He _ Hl]. cbn in Ho, He, Hl.
  destruct (Hl k l Hk) as [_ _ _ _ _ Hsz _ (n & Hn & Hnu & Hnew)].
  assert (is_u64 (lo_unpack_size l)) as HD.
  { rewrite <- Ho in Hu. apply Forall_concat in Hu. rewrite Forall_map in Hu.
    eapply Forall_lookup_1 in Hu; [|exact Hk]. by eapply Forall_lookup_1 in Hu. }
  assert (Forall is_u64 (fl_explicit_sizes (lo_layout l))) as Hes.
  { destruct sub as [info|].
    - specialize (Hs info eq_refl). rewrite <- (He info eq_refl) in Hs.
      apply Forall_concat in Hs. rewrite Forall_map in Hs.
      by eapply Forall_lookup_1 in Hs; [|exact Hk].
    - injection Hn as <-. unfold FolderStreamLayout_new in Hnew.
      destruct (decide _) as [|Hg] in Hnew; [done|].
      apply Decidable.not_or in Hg as [Hg%dec_stable _].
      destruct (fl_explicit_sizes (lo_layout l)) as [|y ys]; [done|].
      rewrite zlen_cons in Hg. pose proof (zlen_nonneg ys).
      unfold saturating_sub in Hg. lia. }
  destruct (FolderStreamLayout_substreams _ _ _ _ _ Hnew Hes HD Hnu)
    as (out & ? & ? & _ & ? & ?).
  by exists n, out.
Qed.

(** ** Properties *)

(** C28. A completed iteration over the folders of a descriptor has handed out
    each packed size, each unpack size, each explicit substream size and each
    substream digest exactly once and in order: the per-folder slices concatenate
    to the whole lists. Each layout is the folder block of its index, with as many
    packed streams as the graph has packed inputs, as many coder sizes as the
    folder has outputs, the final output's size, and packed streams starting after
    the packed bytes of all earlier folders. *)
Theorem folder_plans_partition `{Nom} pack unpack sub fuel ls st :
  FolderPlans_collect fuel (FolderPlans_new pack unpack sub) = Ok (ls, st) →
  plans_complete pack unpack sub ls.
Proof.
  intros Hc. by eapply (FolderPlans_collect_complete _ _ _ _ []) in Hc as [? _];
    [|apply plans_at_new|].
Qed.

(** The packed streams of all folders of a completed iteration are contiguous
    ranges that cover the packed bytes from offset 0 to their total size, in
    order, without a gap or an overlap; iterating over them never panics. *)
Theorem packed_streams_contiguous `{Nom} pack unpack sub fuel ls st :
  FolderPlans_collect fuel (FolderPlans_new pack unpack sub) = Ok (ls, st) →
  Forall is_u64 (pack_size pack) →
  ∃ outs, try_collect (λ l, PackedStreams_iter (lo_streams l)) ls = Ok outs ∧
    tiles 0 (map ps_range (concat outs)) (sum_z (pack_size pack)) ∧
    zlen (concat outs) = num_pack_streams pack.
Proof.
  intros Hc Hu. eapply (FolderPlans_collect_complete _ _ _ _ []) in Hc as [Hc _];
    [|apply plans_at_new|done].
  destruct Hc as [_ [Hp Hn] _ _ _ Hl]. rewrite <- Hp in Hu.
  destruct (packed_ranges_tile _ _ _ Hl Hu) as (outs & Ho & Hr). cbn in Hr, Hp, Hu.
  rewrite Hp in Hr, Hu. exists outs.
  split; [done|]. split; [rewrite Hr; by apply (ranges_from_tiles 0)|].
  rewrite Hn, <- (zlen_map ps_range), Hr. unfold zlen. by rewrite ranges_from_length.
Qed.

(** The substreams of every folder of a completed iteration are contiguous
    ranges that cover the folder's decoded bytes exactly (none when the folder
    has no substreams), as many as the descriptor declares, each with the digest
    of its position; iterating over them never panics. *)
Theorem folder_substreams_tile `{Nom} pack unpack sub fuel ls st k l :
  FolderPlans_collect fuel (FolderPlans_new pack unpack sub) = Ok (ls, st) →
  Forall is_u64 (unpack_sizes unpack) →
  (∀ info, sub = Some info → Forall is_u64 (substream_sizes info)) →
  ls !! k = Some l →
  ∃ n out, stream_count_of sub k = Some n ∧
    Substreams_collect (S (Z.to_nat n)) (FolderStreamLayout_streams (lo_layout l)) = Ok out ∧
    zlen out = n ∧
    tiles 0 (map ss_range out) (if decide (n = 0) then 0 else lo_unpack_size l) ∧
    map ss_digest out = map (λ i, mjoin (fl_digests (lo_layout l) !! i)) (seq 0 (Z.to_nat n)).
Proof. apply folder_substreams_collect. Qed.

(** What [preflight] accepts, the iteration yields in full: the folder
    layouts it returns iterate to the end without an error, the output size is the
    sum of their unpack sizes and within the limit, as are the packed bytes, and the
    stream count is the number of their substreams. *)
Theorem preflight_iterates `{Nom} pack unpack sub limit pf :
  FolderLayouts_preflight pack unpack sub limit = Ok pf →
  ∃ ls st,
    FolderPlans_collect (plans_fuel unpack) (fls_plans (pf_layouts pf)) = Ok (ls, st) ∧
    plans_complete pack unpack sub ls ∧
    pf_output_size pf = sum_z (map lo_unpack_size ls) ∧
    sum_z (pack_size pack) ≤ limit ∧ (ls ≠ [] → pf_output_size pf ≤ limit) ∧
    fls_stream_count (pf_layouts pf)
    = sum_z (map (λ l, FolderStreamLayout_len (lo_layout l)) ls).
Proof. intros Hp. by apply preflight_collect in Hp as [_ ?]. Qed.

(** C38. Preflighting and iterating over any descriptor with folder data of bytes
    terminates without a panic: one step per folder offset is enough fuel. *)
Theorem folder_plans_return `{Nom} pack unpack sub limit :
  byte_slice (folder_data unpack) →
  returns (FolderPlans_collect (plans_fuel unpack) (FolderPlans_new pack unpack sub)) ∧
  returns (FolderLayouts_preflight pack unpack sub limit).
Proof.
  intros Hd.
  assert (0 ≤ plans_left (FolderPlans_new pack unpack sub) < Z.of_nat (plans_fuel unpack))
    as Hf by (unfold plans_left, plans_fuel, zlen; cbn; lia).
  split; [by apply FolderPlans_collect_returns|].
  unfold FolderLayouts_preflight, FolderLayouts_validate. repeat returns_step.
  - destruct (try_fold _ _ _) eqn:E; [done|]. apply sum_sizes_error in E as ->.
    by repeat returns_step.
  - by apply validate_loop_returns.
  - apply substream_count_returns.
Qed.

(** ** Witnesses

    Two folders, each one Copy coder over one packed stream; the first has two
    substreams. *)
Definition sample_pack : PackInfo :=
  {| pack_pos := 0; num_pack_streams := 2; pack_size := [10; 5];
     pack_digests := [Some 1; None] |}.
Definition sample_unpack : UnpackInfo :=
  {| num_folders := 2; folder_data := Slice 100 [1; 1; 0; 1; 1; 0];
     folder_offsets := [0; 3; 6]; unpack_sizes := [10; 5]; unpack_digests := [None; Some 7] |}.
Definition sample_sub : SubstreamInfo :=
  {| num_unpack_streams_per_folder := [2; 1]; substream_sizes := [4]; substream_digests := [] |}.

Definition sample_run : result (list FolderLayout * FolderPlans) R7zError :=
  FolderPlans_collect (plans_fuel sample_unpack)
    (FolderPlans_new sample_pack sample_unpack (Some sample_sub)).
Definition sample_layouts : list FolderLayout := from_option fst [] (result_ok sample_run).
Definition sample_state : FolderPlans :=
  from_option snd (FolderPlans_new sample_pack sample_unpack None) (result_ok sample_run).

Lemma folder_plans_partition_witness :
  plans_complete sample_pack sample_unpack (Some sample_sub) sample_layouts.
Proof.
  apply (folder_plans_partition _ _ _ (plans_fuel sample_unpack) _ sample_state).
  vm_compute. reflexivity.
Defined.

Lemma packed_streams_contiguous_witness :
  ∃ outs, try_collect (λ l, PackedStreams_iter (lo_streams l)) sample_layouts = Ok outs ∧
    tiles 0 (map ps_range (concat outs)) (sum_z (pack_size sample_pack)) ∧
    zlen (concat outs) = num_pack_streams sample_pack.
Proof.
  apply (packed_streams_contiguous sample_pack sample_unpack (Some sample_sub)
           (plans_fuel sample_unpack) sample_layouts sample_state).
  - vm_compute. reflexivity.
  - repeat constructor; vm_compute; done.
Defined.

Lemma folder_substreams_tile_witness :
  ∃ l n out, sample_layouts !! 0%nat = Some l ∧
    stream_count_of (Some sample_sub) 0 = Some n ∧
    Substreams_collect (S (Z.to_nat n)) (FolderStreamLayout_streams (lo_layout l)) = Ok out ∧
    zlen out = n ∧
    tiles 0 (map ss_range out) (if decide (n = 0) then 0 else lo_unpack_size l) ∧
    map ss_digest out = map (λ i, mjoin (fl_digests (lo_layout l) !! i)) (seq 0 (Z.to_nat n)).
Proof.
  destruct (sample_layouts !! 0%nat) as [l|] eqn:E; [|exfalso; vm_compute in E; done].
  destruct (folder_substreams_tile sample_pack sample_unpack (Some sample_sub)
    (plans_fuel sample_unpack) sample_layouts sample_state 0%nat l) as (n & out & H).
  - vm_compute. reflexivity.
  - repeat constructor; vm_compute; done.
  - intros info [= <-]. repeat constructor; vm_compute; done.
  - exact E.
  - exists l, n, out. split; [reflexivity|exact H].
Defined.

Definition sample_preflight : PreflightedFolderLayouts :=
  {| pf_layouts := {| fls_plans := FolderPlans_new sample_pack sample_unpack (Some sample_sub);
                      fls_stream_count := 3 |};
     pf_output_size := 15 |}.

Lemma preflight_iterates_witness :
  ∃ ls st,
    FolderPlans_collect (plans_fuel sample_unpack) (fls_plans (pf_layouts sample_preflight))
    = Ok (ls, st) ∧
    plans_complete sample_pack sample_unpack (Some sample_sub) ls ∧
    pf_output_size sample_preflight = sum_z (map lo_unpack_size ls) ∧
    sum_z (pack_size sample_pack) ≤ 100 ∧ (ls ≠ [] → pf_output_size sample_preflight ≤ 100) ∧
    fls_stream_count (pf_layouts sample_preflight)
    = sum_z (map (λ l, FolderStreamLayout_len (lo_layout l)) ls).
Proof. apply preflight_iterates. vm_compute. reflexivity. Defined.

Lemma folder_plans_return_witness :
  returns (FolderPlans_collect (plans_fuel sample_unpack)
             (FolderPlans_new sample_pack sample_unpack (Some sample_sub))) ∧
  returns (FolderLayouts_preflight sample_pack sample_unpack (Some sample_sub) 100).
Proof. apply folder_plans_return. repeat constructor; vm_compute; done. Defined.
