(* ===== verification/FolderRead.v ===== *)
(** * Reading folders (src/src/folder_decode.rs)

    The reading half of folder decoding: the substreams of a folder read one after
    the other from its decoder, hashed, counted and charged on the way, the checks
    that close a folder, and the folders that hold external header data. *)

From stdpp Require Import base numbers list option strings.
From Stdlib Require Import ZArith Lia.
From S2P Require Import Prelude Folder Error Operation Readers Resources FolderGraph PackInfo StreamInfo Aes DecoderPlan DecoderRun FolderDecode.

(** ** Substreams *)

(** The borrows of [SubstreamReader] are the values they lead to. *)
Record SubstreamReader (S : Type) := {
  su_reader : S;
  su_remaining : Z;
  su_folder_digest : DigestState;
  su_stream_digest : DigestState;
  su_decoded_len : Z;
  su_budget : OperationBudget;
  su_limit_exceeded : bool;
  su_charge_budget : bool
}.
Arguments su_reader {S}. Arguments su_remaining {S}. Arguments su_folder_digest {S}.
Arguments su_stream_digest {S}. Arguments su_decoded_len {S}. Arguments su_budget {S}.
Arguments su_limit_exceeded {S}. Arguments su_charge_budget {S}.

Section substream.
  Context {S : Type} `{Reader S}.
  Implicit Types self : SubstreamReader S.

Definition su_set_budget self (budget : OperationBudget) : SubstreamReader S :=
  {| su_reader := su_reader self; su_remaining := su_remaining self;
     su_folder_digest := su_folder_digest self; su_stream_digest := su_stream_digest self;
     su_decoded_len := su_decoded_len self; su_budget := budget;
     su_limit_exceeded := su_limit_exceeded self; su_charge_budget := su_charge_budget self |}.
Definition su_set_exceeded self : SubstreamReader S :=
  {| su_reader := su_reader self; su_remaining := su_remaining self;
     su_folder_digest := su_folder_digest self; su_stream_digest := su_stream_digest self;
     su_decoded_len := su_decoded_len self; su_budget := su_budget self;
     su_limit_exceeded := true; su_charge_budget := su_charge_budget self |}.
Definition su_set_reader self (reader : S) (remaining : Z) : SubstreamReader S :=
  {| su_reader := reader; su_remaining := remaining;
     su_folder_digest := su_folder_digest self; su_stream_digest := su_stream_digest self;
     su_decoded_len := su_decoded_len self; su_budget := su_budget self;
     su_limit_exceeded := su_limit_exceeded self; su_charge_budget := su_charge_budget self |}.
Definition su_count self (decoded_len : Z) (chunk : bytes) : SubstreamReader S :=
  {| su_reader := su_reader self; su_remaining := su_remaining self;
     su_folder_digest := DigestState_update (su_folder_digest self) chunk;
     su_stream_digest := DigestState_update (su_stream_digest self) chunk;
     su_decoded_len := decoded_len; su_budget := su_budget self;
     su_limit_exceeded := su_limit_exceeded self; su_charge_budget := su_charge_budget self |}.

(** [decoded_remaining] as a limit on one read; nothing left is an error. *)
Definition su_allowed self : option Z :=
  match su_charge_budget self, decoded_remaining (su_budget self) with
  | true, Some remaining => if decide (remaining = 0) then None else Some remaining
  | _, _ => Some usize_max
  end.

#[global] Instance SubstreamReader_read : Reader (SubstreamReader S) := λ self n,
  match monitor_check (su_budget self) with
  | (Err e, budget) => (Err (read_io_error e), su_set_budget self budget)
  | (Ok _, budget) =>
      let self := su_set_budget self budget in
      let limit := Z.min (su_remaining self) n in
      if decide (limit = 0) then (Ok [], self) else
      match su_allowed self with
      | None => (Err (IoKind OtherKind "decoded byte limit exceeded"), su_set_exceeded self)
      | Some allowed =>
          let limit := OperationMonitor_buffer_size (ob_monitor (su_budget self)) (Z.min limit allowed) in
          match reader_read (su_reader self) limit with
          | (Err e, reader) => (Err e, su_set_reader self reader (su_remaining self))
          | (Ok [], reader) => (Err (IoKind UnexpectedEof ""), su_set_reader self reader (su_remaining self))
          | (Ok chunk, reader) =>
              let self := su_set_reader self reader (su_remaining self - zlen chunk) in
              match (if su_charge_budget self
                     then charge_decoded (su_budget self) (zlen chunk) else Ok (su_budget self)) with
              | Err _ => (Err (IoKind InvalidData ""), self)
              | Ok budget =>
                  let self := su_set_budget self budget in
                  match checked_add (su_decoded_len self) (zlen chunk) with
                  | None => (Err (IoKind InvalidData ""), self)
                  | Some decoded_len =>
                      let self := su_count self decoded_len chunk in
                      if su_charge_budget self then
                        match monitor_advance (su_budget self) (zlen chunk) with
                        | (Err e, budget) => (Err (read_io_error e), su_set_budget self budget)
                        | (Ok _, budget) => (Ok chunk, su_set_budget self budget)
                        end
                      else (Ok chunk, self)
                  end
              end
          end
      end
  end.

End substream.

(** ** Consumers *)

(** A callback that is given a reader: it reads as it likes and ends with a value. *)
Inductive Strategy (A : Type) :=
| Finished (res : A)
| ReadNext (n : N) (k : result bytes IoError → Strategy A).
Arguments Finished {A} res.
Arguments ReadNext {A} n k.

(** The callback of a substream says how it went. *)
Abbreviation Consumer := (Strategy (result unit R7zError)).

Fixpoint run_consumer {S A} `{Reader S} (consume : Strategy A) (content : S) : A * S :=
  match consume with
  | Finished res => (res, content)
  | ReadNext n k => let '(res, content) := reader_read content (Z.of_N n) in run_consumer (k res) content
  end.

Fixpoint strategy_map {A B} (f : A → B) (s : Strategy A) : Strategy B :=
  match s with
  | Finished res => Finished (f res)
  | ReadNext n k => ReadNext n (λ res, strategy_map f (k res))
  end.

(** [std::io::copy] into a sink, in chunks of the lengths the library chooses. *)
Fixpoint copy_to_sink {S} `{Reader S} (fuel : nat) (sizes : nat → Z) (reader : S) :
    result unit IoError * S :=
  match fuel with
  | O => (Err io_out_of_fuel, reader)
  | Datatypes.S fuel =>
      match reader_read reader (sizes fuel) with
      | (Ok [], reader) => (Ok tt, reader)
      | (Ok _, reader) => copy_to_sink fuel sizes reader
      | (Err e, reader) => if interrupted e then copy_to_sink fuel sizes reader else (Err e, reader)
      end
  end.

(** ** Active folders *)

Inductive CompletionMode := WholeFolder | SelectedStreams.

Record ActiveFolder (S : Type) := {
  af_reader : S;
  af_streams : Substreams;
  af_digest : DigestState;
  af_decoded_len : Z;
  af_unpack_size : Z;
  af_budgeted_eagerly : bool
}.
Arguments af_reader {S}. Arguments af_streams {S}. Arguments af_digest {S}.
Arguments af_decoded_len {S}. Arguments af_unpack_size {S}. Arguments af_budgeted_eagerly {S}.

(** [Substreams::len]. *)
Definition Substreams_len (self : Substreams) : Z :=
  FolderStreamLayout_len (sub_layout self) - sub_position self.

Section active.
  Context `{Crc32} {S : Type} `{Reader S}.
  (** The rounds and the buffer lengths of [std::io::copy]. *)
  Context (io_fuel : nat) (io_sizes : nat → Z).

Definition ActiveFolder_position (self : ActiveFolder S) : Z := sub_position (af_streams self).

(** The reader of a substream. *)
Definition stream_content (self : ActiveFolder S) (stream : Substream) (budget : OperationBudget) :
    SubstreamReader S :=
  {| su_reader := af_reader self; su_remaining := ByteRange_len (ss_range stream);
     su_folder_digest := af_digest self;
     su_stream_digest := DigestState_new (ss_digest stream);
     su_decoded_len := af_decoded_len self; su_budget := budget;
     su_limit_exceeded := false; su_charge_budget := negb (af_budgeted_eagerly self) |}.

(** What follows the callback: its result, then the rest of the substream. *)
Definition close_stream (self : ActiveFolder S) (streams : Substreams)
    (consumed : result unit R7zError) (content : SubstreamReader S) :
    result (ActiveFolder S) R7zError * OperationBudget :=
  if su_limit_exceeded content then (Err (decoded_limit_error (su_budget content)), su_budget content)
  else match consumed with
  | Err e => (Err (restore_callback_error e), su_budget content)
  | Ok _ =>
      let '(drained, content) := copy_to_sink io_fuel io_sizes content in
      if su_limit_exceeded content
      then (Err (decoded_limit_error (su_budget content)), su_budget content)
      else match drained with
      | Err e => (Err (restore_read_error e), su_budget content)
      | Ok _ =>
          if decide (su_remaining content ≠ 0) then (Err Decompression, su_budget content) else
          (let? _ := DigestState_finish (su_stream_digest content) in
           Ok {| af_reader := su_reader content; af_streams := streams;
                 af_digest := su_folder_digest content;
                 af_decoded_len := su_decoded_len content;
                 af_unpack_size := af_unpack_size self;
                 af_budgeted_eagerly := af_budgeted_eagerly self |}, su_budget content)
      end
  end.

Definition ActiveFolder_read_stream (self : ActiveFolder S) (budget : OperationBudget)
    (consume : Consumer) : result (ActiveFolder S) R7zError * OperationBudget :=
  match Substreams_next (af_streams self) with
  | Err e => (Err e, budget)
  | Ok (None, _) => (Err Parse, budget)
  | Ok (Some stream, streams) =>
      let '(consumed, content) := run_consumer consume (stream_content self stream budget) in
      close_stream self streams consumed content
  end.

(** The same with a callback that updates what it captures. *)
Definition ActiveFolder_read_stream_with {E} (self : ActiveFolder S) (budget : OperationBudget)
    (consume : E → Strategy (result unit R7zError * E)) (env : E) :
    result (ActiveFolder S) R7zError * OperationBudget * E :=
  match Substreams_next (af_streams self) with
  | Err e => (Err e, budget, env)
  | Ok (None, _) => (Err Parse, budget, env)
  | Ok (Some stream, streams) =>
      let '((consumed, env), content) := run_consumer (consume env) (stream_content self stream budget) in
      (close_stream self streams consumed content, env)
  end.

(** Read streams with the given consumers. *)
Fixpoint read_streams (self : ActiveFolder S) (budget : OperationBudget) (consumers : list Consumer) :
    result (ActiveFolder S) R7zError * OperationBudget :=
  match consumers with
  | [] => (Ok self, budget)
  | consume :: consumers =>
      do? (self, budget) := ActiveFolder_read_stream self budget consume in
      read_streams self budget consumers
  end.

(** [|_| Ok(())], for each of [n] streams. *)
Definition ignoring (n : Z) : list Consumer := replicate (Z.to_nat n) (Finished (Ok tt)).

Definition ActiveFolder_skip_to (self : ActiveFolder S) (position : Z) (budget : OperationBudget) :
    result (ActiveFolder S) R7zError * OperationBudget :=
  let current := ActiveFolder_position self in
  if decide (current ≤ position ≤ FolderStreamLayout_len (sub_layout (af_streams self)))
  then read_streams self budget (ignoring (position - current))
  else (Err Parse, budget).

Definition ActiveFolder_finish (self : ActiveFolder S) (mode : CompletionMode)
    (budget : OperationBudget) : result ReadVerification R7zError * OperationBudget :=
  match mode, af_digest self, decide (Substreams_len (af_streams self) ≠ 0) with
  | SelectedStreams, Absent, left _ => (Ok SelectedEntries, budget)
  | _, _, _ =>
      do? (folder, budget) :=
        read_streams self budget (ignoring (Substreams_len (af_streams self))) in
      if decide (af_decoded_len folder ≠ af_unpack_size folder) then (Err Decompression, budget) else
      (match reader_read (af_reader folder) 1 with
       | (Err e, _) => Err (restore_read_error e)
       | (Ok [], _) => let? _ := DigestState_finish (af_digest folder) in Ok CompleteFolders
       | (Ok _, _) => Err Decompression
       end, budget)
  end.

End active.

(** ** Ready and decoded folders *)

Record ReadyFolder (R : Type) := {
  rf_decoder : ReadyDecoder R;
  rf_layout : FolderStreamLayout;
  rf_unpack_size : Z;
  rf_crc : option Z
}.
Arguments rf_decoder {R}. Arguments rf_layout {R}. Arguments rf_unpack_size {R}. Arguments rf_crc {R}.

(** [FolderState<Decoded>]: bytes whose size and folder digest have passed. *)
Record DecodedFolder := { dec_bytes : bytes; dec_layout : FolderStreamLayout }.

Definition FolderLayout_bind `{LzmaMemory} {R} (self : FolderLayout)
    (open : PackedStream → result (PackedInput R) R7zError) (budget : OperationBudget) :
    result (ReadyFolder R) R7zError * OperationBudget :=
  match DecoderPlan_compile_with_budget (lo_folder self) (lo_graph self) (lo_unpack_size self)
          (lo_coder_sizes self) (pst_sizes (lo_streams self)) budget with
  | Err e => (Err e, budget)
  | Ok (plan, budget) =>
      (let? streams := PackedStreams_iter (lo_streams self) in
       let? inputs := try_collect open streams in
       let? decoder := DecoderPlan_bind plan inputs in
       Ok {| rf_decoder := decoder; rf_layout := lo_layout self;
             rf_unpack_size := lo_unpack_size self; rf_crc := lo_crc self |}, budget)
  end.

Definition verify_folder_output `{Crc32} (layout : FolderStreamLayout) (size : Z) (crc : option Z)
    (b : bytes) : result DecodedFolder R7zError :=
  if decide (zlen b ≠ size) then Err Decompression else
  let? _ := DigestState_finish (DigestState_update (DigestState_new crc) b) in
  Ok {| dec_bytes := b; dec_layout := layout |}.

(** [DecodedFolder::streams]: the slices of the substreams; the bounds hold because
    the layout tiles the decoded bytes. *)
Definition DecodedFolder_stream `{Crc32} (self : DecodedFolder) (s : Substream) :
    result bytes R7zError :=
  let? stream := ok_or (get_range (br_start (ss_range s)) (br_end (ss_range s)) (dec_bytes self)) R7zPanic in
  match ss_digest s with
  | Some expected => if decide (crc32 stream ≠ expected) then Err Crc else Ok stream
  | None => Ok stream
  end.

Definition DecodedFolder_streams `{Crc32} (self : DecodedFolder) : result (list bytes) R7zError :=
  let? substreams := Substreams_collect (S (Z.to_nat (FolderStreamLayout_len (dec_layout self))))
                       (FolderStreamLayout_streams (dec_layout self)) in
  try_collect (DecodedFolder_stream self) substreams.

Section ready.
  Context `{Crc32} `{Decoders} `{BlockCipher} `{Sha256} {R : Type} `{Reader R}.
  Context (retries : nat) (io_fuel : nat) (io_sizes : nat → Z).

Definition ReadyFolder_collect (self : ReadyFolder R) (password : option (list Z)) (limit : Z)
    (budget : OperationBudget) : result DecodedFolder R7zError * OperationBudget :=
  match ok_or (usize_try_from (rf_unpack_size self)) (LimitExceeded "metadata"),
        ok_or (checked_add (rf_unpack_size self) 1) (LimitExceeded "metadata") with
  | Err e, _ | Ok _, Err e => (Err e, budget)
  | Ok _, Ok read_limit =>
      if decide (limit < rf_unpack_size self) then (Err (LimitExceeded "metadata"), budget) else
      do? (reader, budget) := ReadyDecoder_start retries (rf_decoder self) password budget in
      (let? b := FolderReader_read_bounded_to_vec io_fuel io_sizes reader read_limit in
       verify_folder_output (rf_layout self) (rf_unpack_size self) (rf_crc self) b, budget)
  end.

Definition ReadyFolder_start (self : ReadyFolder R) (password : option (list Z))
    (budget : OperationBudget) : result (ActiveFolder (FolderReader R)) R7zError * OperationBudget :=
  let eager_output_size := ReadyDecoder_eager_output_size (rf_decoder self) in
  do? (reader, budget) :=
    match eager_output_size with
    | Some size => with_eager_decoded_output budget size
                     (ReadyDecoder_start retries (rf_decoder self) password)
    | None => ReadyDecoder_start retries (rf_decoder self) password budget
    end in
  (Ok {| af_reader := reader; af_streams := FolderStreamLayout_streams (rf_layout self);
         af_digest := DigestState_new (rf_crc self); af_decoded_len := 0;
         af_unpack_size := rf_unpack_size self;
         af_budgeted_eagerly := bool_decide (is_Some eager_output_size) |}, budget).

End ready.

(** ** External folders *)

(** [size_of::<Bytes>()], of the [bytes] crate. *)
Class BytesLayout := { size_of_bytes : Z }.

Definition external_slot_bytes `{BytesLayout} (stream_count : Z) : result Z R7zError :=
  ok_or (checked_mul stream_count size_of_bytes) (LimitExceeded "metadata").

Record ExternalFolderPlan := { ef_folders : FolderLayouts; ef_output_limit : Z }.
Record ExternalFolderCollector := { ec_data : list bytes; ec_remaining : Z }.

Definition ExternalFolderPlan_new `{Nom} `{BytesLayout} (streams : StreamInfo)
    (budget : OperationBudget) : result ExternalFolderPlan R7zError * OperationBudget :=
  match (let? (pack, unpack) := StreamInfo_packed_folders streams in
         let? validated :=
           map_err (map_metadata_error budget)
             (FolderLayouts_preflight pack unpack (si_substream_info streams)
                (metadata_remaining budget)) in
         let? slot_bytes := external_slot_bytes (fls_stream_count (pf_layouts validated)) in
         let? budget := charge_metadata budget slot_bytes in Ok (validated, budget)) with
  | Err e => (Err e, budget)
  | Ok (validated, budget) =>
      match charge_metadata budget (pf_output_size validated) with
      | Err e => (Err e, budget)
      | Ok budget =>
          (Ok {| ef_folders := pf_layouts validated; ef_output_limit := pf_output_size validated |},
           budget)
      end
  end.

Definition ExternalFolderCollector_append `{Crc32} (self : ExternalFolderCollector)
    (folder : DecodedFolder) : result ExternalFolderCollector R7zError :=
  let? remaining := ok_or (checked_sub (ec_remaining self)
                             (FolderStreamLayout_len (dec_layout folder))) Parse in
  let? streams := DecodedFolder_streams folder in
  Ok {| ec_data := ec_data self ++ streams; ec_remaining := remaining |}.

Definition ExternalFolderCollector_finish (self : ExternalFolderCollector) :
    result (list bytes) R7zError :=
  if decide (ec_remaining self = 0) then Ok (ec_data self) else Err Parse.

Section external.
  Context `{Nom} `{Crc32} `{LzmaMemory} `{Decoders} `{BlockCipher} `{Sha256} {R : Type} `{Reader R}.
  Context (retries : nat) (io_fuel : nat) (io_sizes : nat → Z).
  Context (open : PackedStream → result (PackedInput R) R7zError) (password : option (list Z)).

(** The loop of [decode] over the folder plans. *)
Fixpoint external_loop (fuel : nat) (plans : FolderPlans) (output_limit : Z)
    (output : ExternalFolderCollector) (budget : OperationBudget) :
    result (list bytes) R7zError * OperationBudget :=
  match fuel with
  | O => (Err R7zOutOfFuel, budget)
  | S fuel =>
      match FolderPlans_next plans with
      | (Some (Err e), _) => (Err e, budget)
      | (None, _) => (ExternalFolderCollector_finish output, budget)
      | (Some (Ok folder), plans) =>
          do? (ready, budget) := FolderLayout_bind folder open budget in
          do? (decoded, budget) :=
            ReadyFolder_collect retries io_fuel io_sizes ready password output_limit budget in
          match ExternalFolderCollector_append output decoded with
          | Err e => (Err e, budget)
          | Ok output => external_loop fuel plans output_limit output budget
          end
      end
  end.

Definition ExternalFolderPlan_decode (fuel : nat) (self : ExternalFolderPlan)
    (budget : OperationBudget) : result (list bytes) R7zError * OperationBudget :=
  external_loop fuel (fls_plans (ef_folders self)) (ef_output_limit self)
    {| ec_data := []; ec_remaining := fls_stream_count (ef_folders self) |} budget.

End external.

(** ** Lemmas: one read of a substream *)

Definition cancelled (budget : OperationBudget) : Prop :=
  ∃ control, om_control (ob_monitor budget) = Some control ∧ ct_cancelled control = true.

Lemma monitor_check_cases budget r budget' :
  monitor_check budget = (r, budget') →
  (∃ m, budget' = set_monitor budget m) ∧
  match r with Ok _ => ¬ cancelled budget | Err e => e = Cancelled ∧ cancelled budget' end.
Proof.
  unfold monitor_check, OperationMonitor_check, cancelled. destruct (om_control (ob_monitor budget)) as [c|] eqn:Ec.
  2:{ intros [= <- <-]. split; [by eexists|]. by intros (c & [=] & _). }
  unfold OperationControl_check, OperationControl_is_cancelled.
  destruct (ct_cancelled c || _) eqn:E; intros [= <- <-]; (split; [by eexists|]).
  - split; [done|]. eexists. split; [reflexivity|done].
  - intros (c' & [= <-] & Hc). by rewrite Hc in E.
Qed.

Lemma monitor_advance_cases budget n r budget' :
  monitor_advance budget n = (r, budget') →
  (∃ m, budget' = set_monitor budget m) ∧
  match r with Ok _ => True | Err e => cancelled budget' end.
Proof.
  unfold monitor_advance, OperationMonitor_advance, cancelled.
  destruct (om_control (ob_monitor budget)) as [c|] eqn:Ec.
  2:{ intros [= <- <-]. split; [by eexists|done]. }
  cbv zeta. destruct (OperationControl_check _) as [ck c'] eqn:E. intros [= <- <-].
  split; [by eexists|]. unfold OperationControl_check, OperationControl_is_cancelled in E.
  destruct (ct_cancelled _ || _) eqn:E2 in E; injection E as <- <-; [|done].
  eexists. split; [reflexivity|done].
Qed.

Lemma DigestState_update_app st a b :
  DigestState_update (DigestState_update st a) b = DigestState_update st (a ++ b).
Proof. destruct st; cbn; [done|]. by rewrite app_assoc. Qed.

Lemma DigestState_update_nil st : DigestState_update st [] = st.
Proof. destruct st; cbn; [done|]. by rewrite app_nil_r. Qed.

Section substream_lemmas.
  Context {S : Type} `{Reader S}.
  Implicit Types s : SubstreamReader S.

(** What reading [d] from a substream does to it: the bytes come from the folder's
    reader, and are counted, hashed and charged. *)
Record su_after s0 s (d : bytes) : Prop := {
  sa_yields : yields (su_reader s0) d (su_reader s);
  sa_remaining : su_remaining s = su_remaining s0 - zlen d;
  sa_left : 0 ≤ su_remaining s;
  sa_folder : su_folder_digest s = DigestState_update (su_folder_digest s0) d;
  sa_stream : su_stream_digest s = DigestState_update (su_stream_digest s0) d;
  sa_len : su_decoded_len s = su_decoded_len s0 + zlen d;
  sa_charge : su_charge_budget s = su_charge_budget s0;
  sa_limits : ob_limits (su_budget s) = ob_limits (su_budget s0);
  sa_decoded : ob_decoded (su_budget s) =
    if su_charge_budget s0 then Z.min u64_max (ob_decoded (su_budget s0) + zlen d)
    else ob_decoded (su_budget s0);
  sa_budget : budget_ok (su_budget s)
}.

(** A substream that may still be read: its end fits, and the budget is sound. *)
Record su_ready s : Prop := {
  sy_left : 0 ≤ su_remaining s;
  sy_len : 0 ≤ su_decoded_len s;
  sy_end : su_decoded_len s + su_remaining s ≤ u64_max;
  sy_budget : budget_ok (su_budget s);
  sy_bounded : bounded (su_reader s)
}.

Lemma su_after_refl s : su_ready s → su_after s s [].
Proof.
  intros [Hl Hd He Hb _]. split; rewrite ?zlen_nil, ?DigestState_update_nil; try done; try lia.
  - constructor.
  - destruct Hb as [_ _ [Hu _] _ _ _ _]. unfold is_u64 in Hu. destruct (su_charge_budget s); lia.
Qed.

Lemma su_after_trans s0 s1 s2 d1 d2 : su_after s0 s1 d1 → su_after s1 s2 d2 → su_after s0 s2 (d1 ++ d2).
Proof.
  intros [Hy1 Hr1 Hl1 Hf1 Hs1 Hn1 Hc1 Hm1 Hd1 Hb1] [Hy2 Hr2 Hl2 Hf2 Hs2 Hn2 Hc2 Hm2 Hd2 Hb2].
  pose proof (zlen_nonneg d1). pose proof (zlen_nonneg d2).
  split; rewrite ?zlen_app; try congruence; try lia.
  - by eapply yields_app.
  - by rewrite Hf2, Hf1, DigestState_update_app.
  - by rewrite Hs2, Hs1, DigestState_update_app.
  - rewrite Hd2, Hc1, Hd1. destruct (su_charge_budget s0); lia.
Qed.

Lemma su_after_ready s0 s d : su_ready s0 → su_after s0 s d → su_ready s.
Proof.
  intros [Hl Hd He Hb Hbd] [Hy Hr Hl' _ _ Hn _ _ _ Hb']. pose proof (zlen_nonneg d).
  split; try done; try lia. by eapply yields_bounded.
Qed.

Lemma charge_ok b n b' :
  budget_ok b → is_u64 n → charge_decoded b n = Ok b' →
  budget_ok b' ∧ ob_limits b' = ob_limits b ∧ ob_monitor b' = ob_monitor b ∧
  ob_decoded b' = Z.min u64_max (ob_decoded b + n).
Proof.
  intros Hb Hn Hc. split; [eapply budget_step_ok; [exact Hb|]; by eapply step_decoded|].
  unfold charge_decoded, next_decoded, checked_add in Hc. destruct Hb as [_ _ [Hu _] _ _ _ _].
  unfold is_u64 in *. case_decide.
  - destruct (over _ _); [done|]. injection Hc as <-. cbn. split_and!; try done. lia.
  - destruct (max_total_decoded_bytes _); [done|]. injection Hc as <-. cbn. split_and!; try done. lia.
Qed.

Lemma set_monitor_ok b m : budget_ok b → budget_ok (set_monitor b m).
Proof. intros Hb. eapply budget_step_ok; [exact Hb|]. apply step_monitor. Qed.

(** A failed read may have moved the reader. *)
Lemma su_after_reader s reader n :
  su_ready s → 0 < n → (∃ e, reader_read (su_reader s) n = (Err e, reader)) ∨ reader_read (su_reader s) n = (Ok [], reader) →
  su_after s (su_set_reader s reader (su_remaining s)) [].
Proof.
  intros Hs Hn Hr. destruct (su_after_refl s Hs). split; try done. cbn.
  destruct Hr as [[e Hr]|Hr]; [by eapply yields_fail|by eapply yields_one].
Qed.

(** One read: its bytes are counted whatever it returns, and it gives them unless
    the operation was cancelled meanwhile. *)
Lemma substream_read_spec s n res s' :
  su_ready s → 0 ≤ n → reader_read s n = (res, s') →
  ∃ d, su_after s s' d ∧ zlen d ≤ n ∧
    match res with
    | Ok c => c = d ∧ (0 < n → c = [] → su_remaining s = 0)
    | Err _ => d = [] ∨ cancelled (su_budget s')
    end ∧
    (cancelled (su_budget s) → d = [] ∧ cancelled (su_budget s')).
Proof.
  intros Hready Hn. pose proof (su_after_refl s Hready) as Hrefl. destruct Hready as [Hl Hd He Hb Hbd].
  unfold reader_read at 1, SubstreamReader_read.
  destruct (monitor_check (su_budget s)) as [[[]|e] b1] eqn:Em;
    apply monitor_check_cases in Em as [[m ->] Hm].
  2:{ destruct Hm as [_ Hm]. intros [= <- <-]. exists []. rewrite zlen_nil.
      split_and!; [|lia|by right|done]. destruct Hrefl. split; try done. by apply set_monitor_ok. }
  set (s1 := su_set_budget s (set_monitor (su_budget s) m)).
  assert (su_after s s1 []) as H1 by (destruct Hrefl; split; try done; by apply set_monitor_ok).
  assert (Hstop : ∀ e s2, su_after s1 s2 [] → (Err e : result bytes IoError, s2) = (res, s') →
    ∃ d, su_after s s' d ∧ zlen d ≤ n ∧ match res with
      | Ok c => c = d ∧ (0 < n → c = [] → su_remaining s = 0)
      | Err _ => d = [] ∨ cancelled (su_budget s') end ∧
      (cancelled (su_budget s) → d = [] ∧ cancelled (su_budget s'))).
  { intros e s2 H2 [= <- <-]. exists []. rewrite zlen_nil. split_and!; [|lia|by left|done].
    exact (su_after_trans _ _ _ [] [] H1 H2). }
  assert (su_ready s1) as Hr1 by (eapply su_after_ready; [|exact H1]; done).
  case_decide as Hlim.
  { intros [= <- <-]. exists []. rewrite zlen_nil. split_and!; [done|lia|done| |done].
    intros. change (su_remaining s1) with (su_remaining s) in Hlim. lia. }
  destruct (su_allowed s1) as [allowed|] eqn:Ea.
  2:{ apply Hstop. destruct (su_after_refl _ Hr1). split; assumption. }
  set (limit := OperationMonitor_buffer_size _ _).
  assert (0 < allowed ∧ (su_charge_budget s = true → decoded_remaining (su_budget s) ≠ None →
    decoded_remaining (su_budget s) = Some allowed)) as [Hal Hal2].
  { unfold su_allowed in Ea. change (su_charge_budget s1) with (su_charge_budget s) in Ea.
    change (decoded_remaining (su_budget s1)) with (decoded_remaining (su_budget s)) in Ea.
    destruct (su_charge_budget s); [|injection Ea as <-; split; [by compute|done]].
    destruct (decoded_remaining (su_budget s)) as [left|] eqn:Er.
    - case_decide; [done|]. injection Ea as <-. split; [|done].
      unfold decoded_remaining in Er. destruct Hb as [_ _ [_ Hd'%over_spec] _ _ _ _].
      destruct (max_total_decoded_bytes _); cbn in Er; [|done]. injection Er as <-. lia.
    - injection Ea as <-. split; [by compute|done]. }
  assert (0 < limit ≤ Z.min (Z.min (su_remaining s) n) allowed) as Hlimit.
  { unfold limit, OperationMonitor_buffer_size, CHECK_INTERVAL.
    change (su_remaining s1) with (su_remaining s) in Hlim |- *. destruct (om_control _); lia. }
  destruct (reader_read (su_reader s1) limit) as [[[|b0 c]|e] reader] eqn:Er;
    [apply Hstop; eapply su_after_reader; [done| |by right]; lia
    | |apply Hstop; eapply su_after_reader; [done| |left; by exists e]; lia].
  pose proof (proj2 (bounded_read (su_reader s1) limit _ _ Hbd ltac:(lia) Er)) as Hc. cbn [fst snd] in Hc.
  set (chunk := b0 :: c) in *. assert (1 ≤ zlen chunk) as Hc1 by (unfold chunk, zlen; cbn; lia).
  assert (chunk ≠ []) as Hne by done. clearbody chunk. cbv zeta.
  set (s2 := su_set_reader s1 reader (su_remaining s1 - zlen chunk)).
  assert (∃ b2, (if su_charge_budget s2 then charge_decoded (su_budget s2) (zlen chunk)
     else Ok (su_budget s2)) = Ok b2 ∧ budget_ok b2 ∧ ob_limits b2 = ob_limits (su_budget s) ∧
     ob_monitor b2 = m ∧ ob_decoded b2 = if su_charge_budget s
       then Z.min u64_max (ob_decoded (su_budget s) + zlen chunk) else ob_decoded (su_budget s))
    as (b2 & -> & Hb2 & Hlim2 & Hmon2 & Hdec2).
  { change (su_charge_budget s2) with (su_charge_budget s).
    destruct (su_charge_budget s) eqn:Ech.
    2:{ eexists. split; [reflexivity|]. split_and!; try done. by apply set_monitor_ok. }
    assert (is_u64 (zlen chunk)) as Hcu.
    { change (su_remaining s1) with (su_remaining s) in *. unfold is_u64. lia. }
    assert (∃ b2, charge_decoded (su_budget s2) (zlen chunk) = Ok b2) as [b2 Hb2].
    { unfold charge_decoded, next_decoded. change (su_budget s2) with (set_monitor (su_budget s) m).
      specialize (Hal2 eq_refl). unfold decoded_remaining in Hal2.
      destruct Hb as [[_ _ Hlk] _ _ _ _ _ _]. cbn [ob_decoded ob_limits set_monitor].
      destruct (max_total_decoded_bytes (ob_limits (su_budget s))) as [l|]; cbn in Hal2, Hlk.
      - specialize (Hal2 ltac:(done)). injection Hal2 as Hal2. unfold checked_add, is_u64 in *.
        rewrite decide_True by lia. cbn. rewrite bool_decide_eq_false_2 by lia. by eexists.
      - destruct (checked_add _ _); by eexists. }
    rewrite Hb2. exists b2. split; [done|].
    apply charge_ok in Hb2 as (? & ? & ? & ?); [by split_and!|by apply set_monitor_ok|done]. }
  assert (su_decoded_len s + zlen chunk ≤ u64_max) as Hfit
    by (change (su_remaining s1) with (su_remaining s) in *; lia).
  unfold checked_add. change (su_decoded_len (su_set_budget s2 b2)) with (su_decoded_len s).
  rewrite decide_True by done. cbv beta iota.
  set (s3 := su_count (su_set_budget s2 b2) (su_decoded_len s + zlen chunk) chunk).
  assert (su_after s s3 chunk) as H3.
  { split; try done.
    - by eapply yields_one; [|exact Er]; lia.
    - cbn. change (su_remaining s1) with (su_remaining s) in *. lia. }
  assert (∀ b', (∃ m', b' = set_monitor (su_budget s3) m') → su_after s (su_set_budget s3 b') chunk) as H4.
  { intros b' [m' ->]. destruct H3. split; try done. by apply set_monitor_ok. }
  assert (zlen chunk ≤ n) by lia.
  assert (Hnc : cancelled (su_budget s) → False) by done.
  change (su_charge_budget s3) with (su_charge_budget s).
  destruct (su_charge_budget s).
  2:{ intros [= <- <-]. exists chunk. split_and!; try done; intros; tauto. }
  destruct (monitor_advance (su_budget s3) (zlen chunk)) as [[[]|e] b3] eqn:Eadv;
    apply monitor_advance_cases in Eadv as [Hb3 Hcan]; intros [= <- <-]; exists chunk;
    (split; [by apply H4|]); (split; [done|]); (split; [|by intros ?%Hnc]).
  - split; [done|]. intros _ ->. done.
  - by right.
Qed.

(** ** Lemmas: consumers *)

(** The consumer saw these bytes in the reads that succeeded, and ended so. *)
Inductive saw {A} : Strategy A → bytes → A → Prop :=
| saw_finished res : saw (Finished res) [] res
| saw_ok n k c d res : zlen c ≤ Z.of_N n → saw (k (Ok c)) d res → saw (ReadNext n k) (c ++ d) res
| saw_err n k e d res : saw (k (Err e)) d res → saw (ReadNext n k) d res.

Lemma run_consumer_spec {A} (consume : Strategy A) s res s' :
  su_ready s → run_consumer consume s = (res, s') →
  ∃ d seen, su_after s s' d ∧ saw consume seen res ∧ (seen = d ∨ cancelled (su_budget s')) ∧
    (cancelled (su_budget s) → d = [] ∧ cancelled (su_budget s')).
Proof.
  revert s. induction consume as [r|n k IH]; intros s Hs; cbn [run_consumer].
  { intros [= <- <-]. exists [], []. split_and!; [by apply su_after_refl|constructor|by left|done]. }
  destruct (reader_read s (Z.of_N n)) as [r s1] eqn:Er. intros Hrun.
  destruct (substream_read_spec _ _ _ _ Hs (N2Z.is_nonneg n) Er) as (d1 & H1 & Hle & Hr & Hc1).
  destruct (IH r s1 (su_after_ready _ _ _ Hs H1) Hrun) as (d2 & seen & H2 & Hsaw & Hseen & Hc2).
  assert (Hcan : cancelled (su_budget s) → d1 ++ d2 = [] ∧ cancelled (su_budget s')).
  { intros [-> H3]%Hc1. by destruct (Hc2 H3) as [-> ?]. }
  destruct r as [c|e].
  - destruct Hr as [-> _]. exists (d1 ++ d2), (d1 ++ seen).
    split_and!; [by eapply su_after_trans|by constructor| |done].
    destruct Hseen as [->|?]; [by left|by right].
  - exists (d1 ++ d2), seen. split_and!; [by eapply su_after_trans|by eapply saw_err| |done].
    destruct Hseen as [->|?]; [|by right]. destruct Hr as [->|H3]; [by left|].
    right. by apply Hc2.
Qed.

Lemma copy_to_sink_spec fuel sizes s res s' :
  (∀ k, 0 < sizes k) → su_ready s → copy_to_sink fuel sizes s = (res, s') →
  ∃ d, su_after s s' d ∧ (res = Ok tt → su_remaining s' = 0 ∧ ¬ cancelled (su_budget s)).
Proof.
  intros Hsz. revert s res s'. induction fuel as [|fuel IH]; intros s res s' Hs; cbn [copy_to_sink].
  { intros [= <- <-]. exists []. split; [by apply su_after_refl|done]. }
  destruct (reader_read s (sizes fuel)) as [r s1] eqn:Er.
  destruct (substream_read_spec _ _ _ _ Hs (Z.lt_le_incl _ _ (Hsz fuel)) Er) as (d1 & H1 & Hle & Hr & Hc1).
  pose proof (su_after_ready _ _ _ Hs H1) as Hs1.
  assert (Hrec : ∀ res s', copy_to_sink fuel sizes s1 = (res, s') → ∃ d, su_after s s' d ∧
    (res = Ok tt → su_remaining s' = 0 ∧ ¬ cancelled (su_budget s))).
  { intros res2 s2 (d2 & H2 & Hres)%(IH s1 _ _ Hs1). exists (d1 ++ d2).
    split; [by eapply su_after_trans|]. intros [? Hn]%Hres. split; [done|]. intros [_ ?]%Hc1. done. }
  destruct r as [[|b c]|e].
  - destruct Hr as [<- Hend]. intros [= <- <-]. exists []. split; [done|]. intros _.
    destruct H1 as [_ Hrem _ _ _ _ _ _ _ _]. rewrite (Hend (Hsz fuel) eq_refl) in Hrem. split; [done|].
    intros Hcan. unfold reader_read at 1, SubstreamReader_read in Er.
    destruct (monitor_check (su_budget s)) as [[[]|e] b1] eqn:Em; [|done].
    apply monitor_check_cases in Em as [_ Hm]. done.
  - apply Hrec.
  - destruct (interrupted e); [apply Hrec|]. intros [= <- <-]. by exists d1.
Qed.

End substream_lemmas.

(** ** Lemmas: folders *)

Lemma Substreams_next_spec st s st' :
  Substreams_next st = Ok (Some s, st') →
  sub_layout st' = sub_layout st ∧ sub_position st' = sub_position st + 1 ∧
  sub_position st ≠ FolderStreamLayout_len (sub_layout st) ∧
  ss_range s = {| br_start := sub_offset st; br_end := sub_offset st' |} ∧
  sub_offset st ≤ sub_offset st' ≤ u64_max.
Proof.
  unfold Substreams_next. case_decide as Hp; [done|].
  destruct (match get _ _ with Some _ => _ | None => _ end) as [size|]; [|done].
  unfold add_u64, checked_add. case_decide; cbn [ok_or]; [|done].
  unfold ByteRange_from_range. case_decide; [|done]. intros [= <- <-]. cbn. split_and!; (done || lia).
Qed.

(** Going through substreams. *)
Inductive walks : Substreams → list Substream → Substreams → Prop :=
| walks_nil st : walks st [] st
| walks_cons st s st1 ss st2 : Substreams_next st = Ok (Some s, st1) → walks st1 ss st2 →
    walks st (s :: ss) st2.

Lemma walks_app st ss st1 ss' st2 : walks st ss st1 → walks st1 ss' st2 → walks st (ss ++ ss') st2.
Proof. induction 1; intros; [done|]. cbn. by econstructor; [|apply IHwalks]. Qed.

Lemma walks_app_inv st ss ss' st2 :
  walks st (ss ++ ss') st2 → ∃ st1, walks st ss st1 ∧ walks st1 ss' st2.
Proof.
  revert st. induction ss as [|s ss IH]; intros st; cbn; [intros; exists st; split; [constructor|done]|].
  inversion 1; subst. destruct (IH _ ltac:(eassumption)) as (st3 & ? & ?).
  exists st3. split; [by econstructor|done].
Qed.

Lemma walks_spec st ss st' :
  walks st ss st' → sub_position st ≤ FolderStreamLayout_len (sub_layout st) →
  sub_layout st' = sub_layout st ∧ sub_position st' = sub_position st + zlen ss ∧
  sub_position st' ≤ FolderStreamLayout_len (sub_layout st).
Proof.
  induction 1 as [st|st s st1 ss st2 Hn _ IH]; intros Hle; [rewrite zlen_nil; split_and!; (done || lia)|].
  apply Substreams_next_spec in Hn as (Hl1 & Hp1 & Hne & _).
  destruct IH as (Hl & Hp & Hle2); [rewrite Hl1; lia|]. rewrite zlen_cons, Hl, Hl1, Hp, Hp1.
  rewrite Hl1 in Hle2. split_and!; [done|lia|lia].
Qed.

(** Walks of the same length from one state end in the same one. *)
Lemma walks_unique st ss1 st1 ss2 st2 :
  walks st ss1 st1 → walks st ss2 st2 → zlen ss1 = zlen ss2 → st1 = st2.
Proof.
  intros H1. revert ss2. induction H1 as [st|st s st1 ss st' Hn _ IH]; intros ss2 H2 Hl.
  - destruct H2; [done|]. rewrite zlen_cons, zlen_nil in Hl. pose proof (zlen_nonneg ss). lia.
  - destruct H2 as [|st s2 st1' ss2 st2' Hn2 H2]; [rewrite zlen_cons, zlen_nil in Hl; pose proof (zlen_nonneg ss); lia|].
    rewrite Hn in Hn2. injection Hn2 as <- <-. rewrite !zlen_cons in Hl. eapply IH; [exact H2|lia].
Qed.

Lemma next_none_end st st2 :
  Substreams_next st = Ok (None, st2) → 0 ≤ sub_position st →
  sub_position st ≤ FolderStreamLayout_len (sub_layout st) →
  sub_position st = FolderStreamLayout_len (sub_layout st).
Proof.
  unfold Substreams_next. case_decide as Hp; [done|]. intros Hn H0 Hle.
  destruct (get (sub_position st) (fl_explicit_sizes (sub_layout st))) as [size|] eqn:Eg.
  - destruct (add_u64 _ _); [|done]. by destruct (ByteRange_from_range _ _).
  - destruct (fl_final_size (sub_layout st)) as [size|] eqn:Ef.
    + destruct (add_u64 _ _); [|done]. by destruct (ByteRange_from_range _ _).
    + unfold FolderStreamLayout_len in *. rewrite Ef in *. rewrite decide_False in * by by intros [? [=]].
      unfold get in Eg. case_decide; [|unfold zlen in *; lia].
      apply lookup_ge_None in Eg. unfold zlen in *. lia.
Qed.

(** A walk to the end is what the iterator collects. *)
Lemma walks_collect fuel st ss st' :
  walks st ss st' → Substreams_next st' = Ok (None, st') → (length ss < fuel)%nat →
  Substreams_collect fuel st = Ok ss.
Proof.
  intros Hw He. revert fuel. induction Hw as [st|st s st1 ss st2 Hn _ IH]; intros [|fuel] Hf; cbn in *;
    try lia.
  - by rewrite He.
  - rewrite Hn. rewrite IH by (done || lia). done.
Qed.

Section folder_lemmas.
  Context `{Crc32} {S : Type} `{Reader S}.
  Context (io_fuel : nat) (io_sizes : nat → Z) (Hsizes : ∀ k, 0 < io_sizes k).
  Implicit Types self : ActiveFolder S.

Definition active_ok self (budget : OperationBudget) : Prop :=
  af_decoded_len self = sub_offset (af_streams self) ∧ 0 ≤ sub_offset (af_streams self) ∧
  budget_ok budget ∧ bounded (af_reader self).

(** The bytes of a substream have its size and its digest. *)
Definition verified_stream (s : Substream) (d : bytes) : Prop :=
  zlen d = ByteRange_len (ss_range s) ∧ ∀ x, ss_digest s = Some x → crc32 d = x.

(** The consumer saw a beginning of the substream and accepted it. *)
Definition accepted (consume : Consumer) (d : bytes) : Prop :=
  ∃ seen rest, d = seen ++ rest ∧ saw consume seen (Ok tt).

(** From one state of a folder to another, over some substreams. *)
Record folder_reads self (budget : OperationBudget) (consumers : list Consumer)
    (ss : list Substream) (ds : list bytes) self' (budget' : OperationBudget) : Prop := {
  fr_walks : walks (af_streams self) ss (af_streams self');
  fr_verified : Forall2 verified_stream ss ds;
  fr_accepted : Forall2 accepted consumers ds;
  fr_yields : yields (af_reader self) (concat ds) (af_reader self');
  fr_digest : af_digest self' = DigestState_update (af_digest self) (concat ds);
  fr_len : af_decoded_len self' = af_decoded_len self + zlen (concat ds);
  fr_size : af_unpack_size self' = af_unpack_size self;
  fr_eager : af_budgeted_eagerly self' = af_budgeted_eagerly self;
  fr_decoded : ob_decoded budget' = if af_budgeted_eagerly self then ob_decoded budget
    else Z.min u64_max (ob_decoded budget + zlen (concat ds));
  fr_ok : active_ok self' budget'
}.

Lemma DigestState_finish_spec digest d :
  DigestState_finish (DigestState_update (DigestState_new digest) d) = Ok tt ↔
  ∀ x, digest = Some x → crc32 d = x.
Proof.
  destruct digest as [x|]; cbn; [|by split].
  case_decide as Hx; split; try done.
  - by intros _ y [= <-].
  - intros Hy. by specialize (Hy x eq_refl).
Qed.

Lemma stream_content_ready self s streams budget :
  active_ok self budget → Substreams_next (af_streams self) = Ok (Some s, streams) →
  su_ready (stream_content self s budget).
Proof.
  intros (Hlen & Hoff0 & Hb & Hbd) (_ & _ & _ & Hrange & Hoff)%Substreams_next_spec.
  split; cbn; try done; rewrite ?Hrange, ?Hlen; unfold ByteRange_len; cbn; lia.
Qed.

(** A stream that was closed: what its callback read, then what was drained. *)
Lemma close_stream_spec self budget consume s streams c1 seen d1 consumed self' budget' :
  active_ok self budget → Substreams_next (af_streams self) = Ok (Some s, streams) →
  su_after (stream_content self s budget) c1 d1 →
  saw consume seen consumed → (seen = d1 ∨ cancelled (su_budget c1)) →
  close_stream io_fuel io_sizes self streams consumed c1 = (Ok self', budget') →
  ∃ d2, zlen d2 = su_remaining c1 ∧ ¬ cancelled (su_budget c1) ∧
    folder_reads self budget [consume] [s] [d1 ++ d2] self' budget'.
Proof.
  intros (Hlen & Hoff0 & Hb & Hbd) En Hd1 Hsaw Hseen. unfold close_stream.
  pose proof (Substreams_next_spec _ _ _ En) as (_ & _ & _ & Hrange & Hoff).
  set (content := stream_content self s budget) in *.
  pose proof (stream_content_ready _ _ _ budget (conj Hlen (conj Hoff0 (conj Hb Hbd))) En) as Hready. fold content in Hready.
  destruct (su_limit_exceeded c1); [done|]. destruct consumed as [[]|]; [|done].
  destruct (copy_to_sink io_fuel io_sizes c1) as [drained c2] eqn:Ed.
  destruct (copy_to_sink_spec _ _ _ _ _ Hsizes (su_after_ready _ _ _ Hready Hd1) Ed)
    as (d2 & Hd2 & Hend).
  destruct (su_limit_exceeded c2); [done|]. destruct drained as [[]|]; [|done].
  case_decide as Hrem; [done|]. destruct (DigestState_finish (su_stream_digest c2)) as [[]|] eqn:Ef; [|done].
  intros [= <- <-]. destruct (Hend eq_refl) as [Hr0 Hnc]. destruct Hseen as [->|?]; [|done].
  exists d2. split; [destruct Hd2; lia|]. split; [done|].
  pose proof (su_after_trans _ _ _ _ _ Hd1 Hd2) as [Hy Hr _ Hfd Hsd Hn _ Hlim Hdec Hbud].
  rewrite Hsd in Ef. cbn in Ef, Hr, Hfd, Hn, Hdec, Hy. pose proof (proj1 (DigestState_finish_spec _ _) Ef) as Hdig.
  split; cbn [af_streams af_reader af_digest af_decoded_len af_unpack_size
    af_budgeted_eagerly concat]; rewrite ?app_nil_r; try done.
  - by econstructor; [|constructor].
  - constructor; [|constructor]. split; [lia|done].
  - constructor; [|constructor]. by exists d1, d2.
  - rewrite Hdec. by destruct (af_budgeted_eagerly self).
  - split_and!; [|cbn; lia|done|cbn; by eapply yields_bounded]. cbn. rewrite Hn, Hlen.
    assert (zlen (d1 ++ d2) = sub_offset streams - sub_offset (af_streams self)); [|lia].
    rewrite Hrange in Hr. unfold ByteRange_len in Hr. cbn in Hr. lia.
Qed.

Lemma read_stream_spec self budget consume self' budget' :
  active_ok self budget →
  ActiveFolder_read_stream io_fuel io_sizes self budget consume = (Ok self', budget') →
  ∃ s d, folder_reads self budget [consume] [s] [d] self' budget'.
Proof.
  intros Ha. unfold ActiveFolder_read_stream.
  destruct (Substreams_next (af_streams self)) as [[[s|] streams]|] eqn:En; [|done..].
  destruct (run_consumer consume (stream_content self s budget)) as [consumed c1] eqn:Ec.
  destruct (run_consumer_spec _ _ _ _ (stream_content_ready _ _ _ _ Ha En) Ec)
    as (d1 & seen & Hd1 & Hsaw & Hseen & _).
  intros Hclose. destruct (close_stream_spec _ _ _ _ _ _ _ _ _ _ _ Ha En Hd1 Hsaw Hseen Hclose)
    as (d2 & _ & _ & Hf). by exists s, (d1 ++ d2).
Qed.

Lemma folder_reads_refl self budget : active_ok self budget → folder_reads self budget [] [] [] self budget.
Proof.
  intros Ha. split; cbn; rewrite ?DigestState_update_nil, ?zlen_nil; try done; try constructor; try lia.
  destruct Ha as (_ & _ & [_ _ [Hu _] _ _ _ _] & _). unfold is_u64 in Hu.
  destruct (af_budgeted_eagerly self); lia.
Qed.

Lemma folder_reads_trans s1 b1 c1 ss1 ds1 s2 b2 c2 ss2 ds2 s3 b3 :
  folder_reads s1 b1 c1 ss1 ds1 s2 b2 → folder_reads s2 b2 c2 ss2 ds2 s3 b3 →
  folder_reads s1 b1 (c1 ++ c2) (ss1 ++ ss2) (ds1 ++ ds2) s3 b3.
Proof.
  intros [Hw1 Hv1 Ha1 Hy1 Hd1 Hl1 Hs1 He1 Hc1 _] [Hw2 Hv2 Ha2 Hy2 Hd2 Hl2 Hs2 He2 Hc2 Hk2].
  split; rewrite ?concat_app, ?zlen_app; try done; try congruence; try lia.
  - by eapply walks_app.
  - by apply Forall2_app.
  - by apply Forall2_app.
  - by eapply yields_app.
  - by rewrite Hd2, Hd1, DigestState_update_app.
  - rewrite Hc2, Hc1, He1. pose proof (zlen_nonneg (concat ds2)).
    destruct (af_budgeted_eagerly s1); lia.
Qed.

Lemma read_streams_spec self budget consumers self' budget' :
  active_ok self budget →
  read_streams io_fuel io_sizes self budget consumers = (Ok self', budget') →
  ∃ ss ds, folder_reads self budget consumers ss ds self' budget'.
Proof.
  revert self budget. induction consumers as [|consume consumers IH]; intros self budget Ha; cbn [read_streams].
  { intros [= <- <-]. exists [], []. by apply folder_reads_refl. }
  destruct (ActiveFolder_read_stream _ _ self budget consume) as [[s1|] b1] eqn:Er; [|done].
  destruct (read_stream_spec _ _ _ _ _ Ha Er) as (s & d & H1). intros Hrest.
  destruct (IH _ _ (fr_ok _ _ _ _ _ _ _ H1) Hrest) as (ss & ds & H2).
  exists (s :: ss), (d :: ds). exact (folder_reads_trans _ _ [consume] [s] [d] _ _ _ _ _ _ _ H1 H2).
Qed.

(** What closing a stream does to the budget, whatever comes of it. *)
Lemma close_stream_budget self streams consumed content r budget' :
  su_ready content → close_stream io_fuel io_sizes self streams consumed content = (r, budget') →
  budget_ok budget'.
Proof.
  intros Hs. pose proof (sy_budget _ Hs) as Hb. unfold close_stream.
  destruct (su_limit_exceeded content); [by intros [= _ <-]|]. destruct consumed; [|by intros [= _ <-]].
  destruct (copy_to_sink _ _ content) as [drained c2] eqn:Ed.
  destruct (copy_to_sink_spec _ _ _ _ _ Hsizes Hs Ed) as (d & Hd & _). pose proof (sa_budget _ _ _ Hd).
  destruct (su_limit_exceeded c2); [by intros [= _ <-]|]. destruct drained; [|by intros [= _ <-]].
  case_decide; by intros [= _ <-].
Qed.

Lemma read_stream_budget self budget consume r budget' :
  active_ok self budget → ActiveFolder_read_stream io_fuel io_sizes self budget consume = (r, budget') →
  budget_ok budget'.
Proof.
  intros Ha. unfold ActiveFolder_read_stream. pose proof Ha as (_ & _ & Hb & _).
  destruct (Substreams_next (af_streams self)) as [[[s|] streams]|] eqn:En; [|by intros [= _ <-]..].
  destruct (run_consumer consume (stream_content self s budget)) as [consumed c1] eqn:Ec.
  pose proof (stream_content_ready _ _ _ _ Ha En) as Hr.
  destruct (run_consumer_spec _ _ _ _ Hr Ec) as (d1 & seen & Hd1 & _).
  apply close_stream_budget. by eapply su_after_ready.
Qed.

Lemma read_streams_budget self budget consumers r budget' :
  active_ok self budget → read_streams io_fuel io_sizes self budget consumers = (r, budget') →
  budget_ok budget'.
Proof.
  revert self budget. induction consumers as [|consume consumers IH]; intros self budget Ha; cbn [read_streams].
  { intros [= _ <-]. apply Ha. }
  destruct (ActiveFolder_read_stream _ _ self budget consume) as [[s1|] b1] eqn:Er.
  - destruct (read_stream_spec _ _ _ _ _ Ha Er) as (s & d & Hf). apply IH, Hf.
  - intros [= _ <-]. by eapply read_stream_budget.
Qed.

Lemma skip_to_spec self position budget r budget' :
  active_ok self budget → ActiveFolder_skip_to io_fuel io_sizes self position budget = (r, budget') →
  budget_ok budget' ∧
  ∀ self', r = Ok self' → ∃ ss ds, zlen ss = position - ActiveFolder_position self ∧
    folder_reads self budget (ignoring (position - ActiveFolder_position self)) ss ds self' budget'.
Proof.
  intros Ha. unfold ActiveFolder_skip_to. case_decide as Hp; [|intros [= <- <-]; split; [apply Ha|done]].
  intros Hr. split; [by eapply read_streams_budget|]. intros self' ->.
  destruct (read_streams_spec _ _ _ _ _ Ha Hr) as (ss & ds & Hf). exists ss, ds. split; [|done].
  pose proof (Forall2_length _ _ _ (fr_verified _ _ _ _ _ _ _ Hf)) as Hl.
  pose proof (Forall2_length _ _ _ (fr_accepted _ _ _ _ _ _ _ Hf)) as Hl'.
  unfold ignoring in Hl'. rewrite length_replicate in Hl'. unfold zlen. lia.
Qed.

(** A folder that was finished: left where it is, or read to its end. *)
Record finished self (budget : OperationBudget) self' (budget' : OperationBudget)
    (ss : list Substream) (ds : list bytes) : Prop := {
  fd_reads : folder_reads self budget (ignoring (Substreams_len (af_streams self))) ss ds self' budget';
  fd_count : zlen ss = Substreams_len (af_streams self);
  fd_size : af_decoded_len self' = af_unpack_size self';
  fd_digest : DigestState_finish (af_digest self') = Ok tt;
  fd_end : ∃ r', reader_read (af_reader self') 1 = (Ok [], r')
}.

Lemma folder_finish_spec self mode budget r budget' :
  active_ok self budget → sub_position (af_streams self) ≤ FolderStreamLayout_len (sub_layout (af_streams self)) →
  ActiveFolder_finish io_fuel io_sizes self mode budget = (r, budget') →
  budget_ok budget' ∧
  match r with
  | Ok SelectedEntries => mode = SelectedStreams ∧ af_digest self = Absent
  | Ok CompleteFolders => ∃ self' ss ds, finished self budget self' budget' ss ds
  | Ok Operation.Incomplete => False
  | Err _ => True
  end.
Proof.
  intros Ha Hle. unfold ActiveFolder_finish. set (whole := read_streams _ _ _ _ _).
  assert ((let '(r, b) := whole in
     match r with Err e => (Err e, b) | Ok folder =>
      if decide (af_decoded_len folder ≠ af_unpack_size folder) then (Err Decompression, b) else
      (match reader_read (af_reader folder) 1 with
       | (Err e, _) => Err (restore_read_error e)
       | (Ok [], _) => let? _ := DigestState_finish (af_digest folder) in Ok CompleteFolders
       | (Ok _, _) => Err Decompression
       end, b) end) = (r, budget') → budget_ok budget' ∧
     match r with Ok SelectedEntries => False | Ok CompleteFolders => ∃ self' ss ds, finished self budget self' budget' ss ds
     | Ok Operation.Incomplete => False | Err _ => True end) as Hwhole.
  { destruct whole as [[folder|e] b] eqn:Er; subst whole; pose proof (read_streams_budget _ _ _ _ _ Ha Er) as Hb;
      [|by intros [= <- <-]].
    case_decide as Hd; [by intros [= <- <-]|].
    destruct (reader_read (af_reader folder) 1) as [[[|c cs]|e] r'] eqn:E1; [|by intros [= <- <-]..].
    destruct (DigestState_finish (af_digest folder)) as [[]|] eqn:Ed; [|by intros [= <- <-]].
    intros [= <- <-]. split; [done|].
    destruct (read_streams_spec _ _ _ _ _ Ha Er) as (ss & ds & Hf). exists folder, ss, ds. split; try done.
    - pose proof (Forall2_length _ _ _ (fr_verified _ _ _ _ _ _ _ Hf)) as Hl.
      pose proof (Forall2_length _ _ _ (fr_accepted _ _ _ _ _ _ _ Hf)) as Hl'.
      unfold ignoring in Hl'. rewrite length_replicate in Hl'. unfold zlen, Substreams_len in *. lia.
    - by exists r'. }
  destruct mode, (af_digest self) eqn:Edig, (decide (Substreams_len (af_streams self) ≠ 0)); intros Hr;
    try (destruct (Hwhole Hr) as [? Hres]; split; [done|]; by destruct r as [[]|]).
  injection Hr as <- <-. split; [apply Ha|done].
Qed.

End folder_lemmas.

Lemma layout_len_nonneg layout : 0 ≤ FolderStreamLayout_len layout.
Proof.
  unfold FolderStreamLayout_len. pose proof (zlen_nonneg (fl_explicit_sizes layout)).
  destruct (decide _); lia.
Qed.

(** The bytes of a substream in those of the folder. *)
Definition stream_slice (s : Substream) (data : bytes) : bytes :=
  sub_list (br_start (ss_range s)) (br_end (ss_range s)) data.

Lemma walks_slices `{Crc32} st ss st' ds before :
  walks st ss st' → Forall2 verified_stream ss ds → zlen before = sub_offset st → 0 ≤ sub_offset st →
  zlen (before ++ concat ds) = sub_offset st' ∧
  Forall2 (λ s d, stream_slice s (before ++ concat ds) = d) ss ds.
Proof.
  intros Hw. revert ds before. induction Hw as [st|st s st1 ss st2 Hn _ IH]; intros ds before Hv Hb H0.
  { apply Forall2_nil_inv_l in Hv as ->. cbn. rewrite app_nil_r. by split. }
  apply Forall2_cons_inv_l in Hv as (d & ds' & [Hd _] & Hv & ->).
  apply Substreams_next_spec in Hn as (_ & _ & _ & Hr & Ho).
  rewrite Hr in Hd. unfold ByteRange_len in Hd. cbn in Hd.
  destruct (IH ds' (before ++ d) Hv) as [H1 H2]; [rewrite zlen_app; lia|lia|].
  cbn [concat]. rewrite app_assoc. split; [done|]. constructor; [|done].
  unfold stream_slice, sub_list. rewrite Hr. cbn [br_start br_end]. unfold zlen in *.
  rewrite <- app_assoc. rewrite drop_app_length' by lia. apply take_app_length'. lia.
Qed.

Lemma collect_walks fuel st ss :
  Substreams_collect fuel st = Ok ss →
  ∃ st', walks st ss st' ∧ ((length ss < fuel)%nat → ∃ st2, Substreams_next st' = Ok (None, st2)).
Proof.
  revert st ss. induction fuel as [|fuel IH]; intros st ss; cbn [Substreams_collect].
  { intros [= <-]. exists st. split; [constructor|cbn; lia]. }
  destruct (Substreams_next st) as [[[s|] st1]|] eqn:En; [| |done].
  - destruct (Substreams_collect fuel st1) as [tl|] eqn:Et; [|done]. intros [= <-]. cbn.
    destruct (IH _ _ Et) as (st' & Hw & Hend). exists st'. split; [by econstructor|].
    intros. apply Hend. lia.
  - intros [= <-]. exists st. split; [constructor|by exists st1].
Qed.

(** A layout has no more substreams than its length. *)
Lemma walks_bound layout ss st :
  walks (FolderStreamLayout_streams layout) ss st → zlen ss ≤ FolderStreamLayout_len layout.
Proof.
  intros Hw. destruct (walks_spec _ _ _ Hw) as (_ & Hp & Hle); [apply layout_len_nonneg|].
  change (sub_position (FolderStreamLayout_streams layout)) with 0 in Hp.
  change (sub_layout (FolderStreamLayout_streams layout)) with layout in Hle. lia.
Qed.

(** Consecutive slices are the bytes they cover. *)
Lemma slices_concat a ss b data :
  tiles a (map ss_range ss) b → 0 ≤ a → concat (map (λ s, stream_slice s data) ss) = sub_list a b data.
Proof.
  revert a. induction ss as [|s ss IH]; intros a; cbn [map tiles concat].
  { intros <- _. by rewrite sub_list_empty. }
  intros (<- & Hle & Ht) Ha. rewrite (IH _ Ht) by lia. unfold stream_slice.
  assert (br_end (ss_range s) ≤ b) as Hb.
  { clear -Ht. revert Ht. generalize (br_end (ss_range s)). induction (map ss_range ss) as [|r rs IH];
      intros z; cbn; [lia|]. intros (<- & ? & H%IH). lia. }
  unfold sub_list. rewrite <- (take_drop (Z.to_nat (br_end (ss_range s) - br_start (ss_range s)))
    (take (Z.to_nat (b - br_start (ss_range s))) (drop (Z.to_nat (br_start (ss_range s))) data))).
  f_equal.
  - rewrite take_take. f_equal. lia.
  - rewrite skipn_firstn_comm, drop_drop. f_equal; [lia|f_equal; lia].
Qed.

(** ** Lemmas: reading succeeds *)

(** Nothing limits or cancels the reads of a folder. *)
Definition unlimited (budget : OperationBudget) (eager : bool) : Prop :=
  om_control (ob_monitor budget) = None ∧
  (max_total_decoded_bytes (ob_limits budget) = None ∨ eager = true).

(** A consumer that accepts whatever it reads. *)
Inductive willing : Consumer → Prop :=
| willing_finished : willing (Finished (Ok tt))
| willing_read n k : (∀ res, willing (k res)) → willing (ReadNext n k).

Section success.
  Context `{Crc32} {S : Type} `{Reader S}.
  Implicit Types s : SubstreamReader S.

(** The substream still has [d], and the folder [rest] after it. *)
Record su_gives (rest : bytes) s (d : bytes) : Prop := {
  sg_ready : su_ready s;
  sg_reader : delivers 0 (su_reader s) (d ++ rest);
  sg_left : su_remaining s = zlen d;
  sg_free : unlimited (su_budget s) (negb (su_charge_budget s));
  sg_exceeded : su_limit_exceeded s = false
}.

Lemma monitor_check_free budget : om_control (ob_monitor budget) = None →
  monitor_check budget = (Ok tt, set_monitor budget (ob_monitor budget)).
Proof. intros Hc. unfold monitor_check, OperationMonitor_check. by rewrite Hc. Qed.

Lemma monitor_advance_free budget n : om_control (ob_monitor budget) = None →
  monitor_advance budget n = (Ok tt, set_monitor budget (ob_monitor budget)).
Proof. intros Hc. unfold monitor_advance, OperationMonitor_advance. by rewrite Hc. Qed.

Lemma substream_read_gives rest s d n res s' :
  su_gives rest s d → 0 ≤ n → reader_read s n = (res, s') →
  ∃ c d', res = Ok c ∧ d = c ++ d' ∧ su_gives rest s' d' ∧ (0 < n → c = [] → d = []).
Proof.
  intros [Hready Hd Hl [Hfree Hlim] Hex] Hn Hread.
  destruct (substream_read_spec _ _ _ _ Hready Hn Hread) as (d1 & H1 & _).
  pose proof (su_after_ready _ _ _ Hready H1) as Hready'. clear H1.
  unfold reader_read at 1, SubstreamReader_read in Hread. rewrite (monitor_check_free _ Hfree) in Hread.
  set (s1 := su_set_budget s _) in Hread. cbv zeta in Hread.
  change (su_remaining s1) with (su_remaining s) in Hread. rewrite Hl in Hread.
  pose proof (zlen_nonneg d). case_decide as Hz.
  { injection Hread as <- <-. exists [], d. split_and!; [done|done|by split|].
    intros. destruct d; [done|]. rewrite zlen_cons in *. pose proof (zlen_nonneg d). lia. }
  assert (su_allowed s1 = Some usize_max) as Hal.
  { unfold su_allowed, decoded_remaining, s1. cbn.
    destruct Hlim as [-> |Hc]; [by destruct (su_charge_budget s)|]. by destruct (su_charge_budget s). }
  rewrite Hal in Hread. cbn [ob_monitor su_budget s1 su_set_budget set_monitor] in Hread.
  unfold OperationMonitor_buffer_size in Hread. rewrite Hfree in Hread.
  change (su_reader s1) with (su_reader s) in Hread.
  set (limit := Z.min _ usize_max) in Hread.
  assert (0 < limit ≤ zlen d) as Hlimit by (unfold limit; lia). clearbody limit.
  destruct (delivers_read _ _ _ limit Hd ltac:(lia)) as [c rest' r' m' Hr Hc He Hnil Hm Hd'|e r' m' _ _ Hm _];
    [|lia].
  assert (m' = 0%nat) as -> by lia. rewrite Hr in Hread.
  destruct (prefix_of_app _ _ _ _ He ltac:(unfold zlen in *; lia)) as (d2 & -> & ->).
  destruct c as [|b c].
  { specialize (Hnil eq_refl). apply app_nil in Hnil as [Hd2 _]. cbn in *. subst d2.
    unfold zlen in Hlimit. cbn in Hlimit. lia. }
  set (chunk := b :: c) in *. assert (chunk ≠ []) as Hne by done. clearbody chunk. cbv zeta in Hread.
  assert (∃ b2, (if su_charge_budget s then charge_decoded (set_monitor (su_budget s) (ob_monitor (su_budget s))) (zlen chunk)
     else Ok (set_monitor (su_budget s) (ob_monitor (su_budget s)))) = Ok b2 ∧
     unlimited b2 (negb (su_charge_budget s))) as (b2 & Hb2 & Hun).
  { destruct (su_charge_budget s); [|by eexists]. destruct Hlim as [Hlim|]; [|done].
    unfold charge_decoded, next_decoded. cbn [ob_limits set_monitor]. rewrite Hlim.
    destruct (checked_add _ _); eexists; (split; [reflexivity|]); (split; [done|by left]). }
  change (su_charge_budget (su_set_reader s1 r' (zlen (chunk ++ d2) - zlen chunk))) with (su_charge_budget s) in Hread.
  change (su_budget (su_set_reader s1 r' (zlen (chunk ++ d2) - zlen chunk))) with
    (set_monitor (su_budget s) (ob_monitor (su_budget s))) in Hread.
  rewrite Hb2 in Hread. rewrite zlen_app in *.
  change (su_decoded_len (su_set_budget _ _)) with (su_decoded_len s) in Hread.
  pose proof (zlen_nonneg d2).
  unfold checked_add in Hread. rewrite decide_True in Hread by (destruct Hready; lia).
  cbn [su_charge_budget su_count su_set_budget su_set_reader s1] in Hread.
  destruct (su_charge_budget s) eqn:Ech.
  - rewrite monitor_advance_free in Hread by exact (proj1 Hun).
    injection Hread as <- <-. exists chunk, d2. split_and!; try done.
    + split; [done|done|cbn; lia| |done]. cbn. by rewrite Ech.
  - injection Hread as <- <-. exists chunk, d2. split_and!; try done.
    + split; [done|done|cbn; lia| |done]. cbn. by rewrite Ech.
Qed.

Lemma run_willing rest consume s d res s' :
  willing consume → su_gives rest s d → run_consumer consume s = (res, s') →
  res = Ok tt ∧ ∃ c d', d = c ++ d' ∧ su_gives rest s' d'.
Proof.
  intros Hw. revert s d. induction Hw as [|n k Hk IH]; intros s d Hs; cbn [run_consumer].
  { intros [= <- <-]. split; [done|]. by exists [], d. }
  destruct (reader_read s (Z.of_N n)) as [r s1] eqn:Er.
  destruct (substream_read_gives rest s d _ _ _ Hs (N2Z.is_nonneg n) Er) as (c & d1 & -> & -> & Hs1 & _).
  intros Hrun. destruct (IH (Ok c) s1 d1 Hs1 Hrun) as (-> & c2 & d2 & -> & Hs2). split; [done|].
  exists (c ++ c2), d2. by rewrite app_assoc.
Qed.

Lemma copy_gives rest fuel sizes s d :
  (∀ k, 0 < sizes k) → su_gives rest s d → (length d < fuel)%nat →
  ∃ s', copy_to_sink fuel sizes s = (Ok tt, s') ∧ su_gives rest s' [].
Proof.
  intros Hsz. revert s d. induction fuel as [|fuel IH]; intros s d Hs Hf; [lia|]. cbn [copy_to_sink].
  destruct (reader_read s (sizes fuel)) as [r s1] eqn:Er.
  destruct (substream_read_gives rest s d _ _ _ Hs (Z.lt_le_incl _ _ (Hsz fuel)) Er)
    as (c & d1 & -> & -> & Hs1 & Hend).
  destruct c as [|b c].
  - specialize (Hend (Hsz fuel) eq_refl). cbn in Hend. subst d1. by exists s1.
  - apply (IH s1 d1 Hs1). rewrite length_app in Hf. cbn in Hf. lia.
Qed.

Context (io_fuel : nat) (io_sizes : nat → Z) (Hsizes : ∀ k, 0 < io_sizes k).

(** A substream whose callback went well is closed, after any part of it. *)
Lemma close_stream_succeeds {A} (self : ActiveFolder S) budget st streams d rest (consume : Strategy A) res c1 c d1 :
  active_ok self budget → Substreams_next (af_streams self) = Ok (Some st, streams) →
  delivers 0 (af_reader self) (d ++ rest) → verified_stream st d → (length d < io_fuel)%nat →
  su_gives rest (stream_content self st budget) d → run_consumer consume (stream_content self st budget) = (res, c1) →
  d = c ++ d1 → su_gives rest c1 d1 →
  ∃ self' budget', close_stream io_fuel io_sizes self streams (Ok tt) c1 = (Ok self', budget') ∧
    af_streams self' = streams ∧ af_budgeted_eagerly self' = af_budgeted_eagerly self ∧
    delivers 0 (af_reader self') rest ∧ unlimited budget' (af_budgeted_eagerly self).
Proof.
  intros Ha En Hd [Hsz Hdig] Hf Hg Ec -> Hg1. unfold close_stream.
  destruct (run_consumer_spec _ _ _ _ (sg_ready _ _ _ Hg) Ec) as (a1 & seen & Ha1 & _ & _ & _).
  rewrite (sg_exceeded _ _ _ Hg1). rewrite length_app in Hf.
  destruct (copy_gives rest io_fuel io_sizes c1 d1 Hsizes Hg1 ltac:(lia)) as (c2 & Ed & Hg2).
  destruct (copy_to_sink_spec _ _ _ _ _ Hsizes (sg_ready _ _ _ Hg1) Ed) as (a2 & Ha2 & _).
  rewrite Ed, (sg_exceeded _ _ _ Hg2).
  pose proof (su_after_trans _ _ _ _ _ Ha1 Ha2) as [Hy Hr _ _ Hsd _ Hch _ _ _].
  pose proof (sg_left _ _ _ Hg2) as Hl2. change (zlen (@nil Z)) with 0 in Hl2.
  rewrite decide_False by lia. cbv zeta.
  destruct (yields_delivers _ _ _ _ _ Hd Hy) as (rest' & m' & Heq & _ & _).
  assert (a1 ++ a2 = c ++ d1) as Heqd.
  { rewrite (sg_left _ _ _ Hg) in Hr. apply (app_inj_1 _ _ rest' rest); [|done].
    unfold zlen in *. lia. }
  rewrite Hsd, Heqd. cbn [su_stream_digest stream_content].
  rewrite (proj2 (DigestState_finish_spec _ _) Hdig).
  eexists _, _. split; [reflexivity|]. cbn [af_streams af_budgeted_eagerly af_reader].
  split_and!; [done|done| |].
  - by destruct Hg2.
  - destruct Hg2 as [_ _ _ Hfree _]. rewrite Hch in Hfree. cbn in Hfree. by rewrite negb_involutive in Hfree.
Qed.

(** The reader of a substream gives its bytes. *)
Lemma stream_content_gives (self : ActiveFolder S) budget st streams d rest :
  active_ok self budget → Substreams_next (af_streams self) = Ok (Some st, streams) →
  delivers 0 (af_reader self) (d ++ rest) → verified_stream st d → unlimited budget (af_budgeted_eagerly self) →
  su_gives rest (stream_content self st budget) d.
Proof.
  intros (Hlen & Hoff0 & Hb & Hbd) En Hd [Hsz _] Hun.
  pose proof (Substreams_next_spec _ _ _ En) as (_ & _ & _ & Hrange & Hoff).
  rewrite Hrange in Hsz. unfold ByteRange_len in Hsz. cbn [br_start br_end] in Hsz.
  split; cbn; try done; [split; cbn; try done| |]; rewrite ?Hrange, ?Hlen; unfold ByteRange_len; cbn; try lia.
  by rewrite negb_involutive.
Qed.

Lemma read_stream_succeeds (self : ActiveFolder S) budget consume st streams d rest :
  active_ok self budget → Substreams_next (af_streams self) = Ok (Some st, streams) →
  delivers 0 (af_reader self) (d ++ rest) → verified_stream st d →
  unlimited budget (af_budgeted_eagerly self) → willing consume → (length d < io_fuel)%nat →
  ∃ self' budget', ActiveFolder_read_stream io_fuel io_sizes self budget consume = (Ok self', budget') ∧
    af_streams self' = streams ∧ af_budgeted_eagerly self' = af_budgeted_eagerly self ∧
    delivers 0 (af_reader self') rest ∧ unlimited budget' (af_budgeted_eagerly self).
Proof.
  intros Ha En Hd Hv Hun Hw Hf. unfold ActiveFolder_read_stream. rewrite En.
  pose proof (stream_content_gives _ _ _ _ _ _ Ha En Hd Hv Hun) as Hg.
  destruct (run_consumer consume _) as [consumed c1] eqn:Ec.
  destruct (run_willing _ _ _ _ _ _ Hw Hg Ec) as (-> & c & d1 & Heq & Hg1).
  exact (close_stream_succeeds _ _ _ _ _ _ _ _ _ _ _ Ha En Hd Hv Hf Hg Ec Heq Hg1).
Qed.

Lemma read_streams_succeeds (self : ActiveFolder S) budget consumers ss st ds rest :
  active_ok self budget → walks (af_streams self) ss st → Forall2 verified_stream ss ds →
  delivers 0 (af_reader self) (concat ds ++ rest) → unlimited budget (af_budgeted_eagerly self) →
  Forall willing consumers → length consumers = length ss → (length (concat ds) < io_fuel)%nat →
  ∃ self' budget', read_streams io_fuel io_sizes self budget consumers = (Ok self', budget') ∧
    af_streams self' = st ∧ af_budgeted_eagerly self' = af_budgeted_eagerly self ∧
    delivers 0 (af_reader self') rest ∧ unlimited budget' (af_budgeted_eagerly self).
Proof.
  intros Ha Hw Hv Hd Hun Hcs Hl Hf. revert self budget ds consumers Ha Hv Hd Hun Hcs Hl Hf Hw.
  intros self budget ds consumers Ha Hv Hd Hun Hcs Hl Hf Hw.
  remember (af_streams self) as st0 eqn:Est. revert self budget ds consumers Ha Hv Hd Hun Hcs Hl Hf Est.
  induction Hw as [st0|st0 s st1 ss st2 Hn _ IH];
    intros self budget ds consumers Ha Hv Hd Hun Hcs Hl Hf Est.
  { destruct consumers; [|done]. apply Forall2_nil_inv_l in Hv as ->. subst st0.
    by exists self, budget. }
  apply Forall2_cons_inv_l in Hv as (d & ds' & Hvd & Hv & ->).
  destruct consumers as [|consume consumers]; [done|]. apply Forall_cons in Hcs as [Hc Hcs].
  cbn [concat] in *. rewrite <- app_assoc in Hd. rewrite length_app in Hf. subst st0.
  destruct (read_stream_succeeds self budget consume s st1 d (concat ds' ++ rest))
    as (self' & b' & Hr & Hst & He & Hd' & Hun'); [done..|lia|].
  cbn [read_streams]. rewrite Hr. rewrite <- He in Hun' |- *.
  destruct (read_stream_spec io_fuel io_sizes Hsizes _ _ _ _ _ Ha Hr) as (s' & d' & Hfr).
  destruct (IH self' b' ds' consumers (fr_ok _ _ _ _ _ _ _ Hfr) Hv Hd' Hun' Hcs)
    as (self2 & b2 & ? & ? & ? & ? & ?); [by injection Hl|lia|done|].
  by exists self2, b2.
Qed.

End success.

(** ** Lemmas: external folders *)

Section external_lemmas.
  Context `{Nom} `{Crc32} `{LzmaMemory} `{Decoders} `{BlockCipher} `{Sha256} {R : Type} `{Reader R}.
  Context (retries : nat) (io_fuel : nat) (io_sizes : nat → Z).
  Context (open : PackedStream → result (PackedInput R) R7zError) (password : option (list Z)).

(** The substreams of a decoded folder: slices of bytes of the declared size and
    digest, with the digests of their own. *)
Definition verified_folder (layout : FolderLayout) (streams : list bytes) : Prop :=
  ∃ data substreams, zlen data = lo_unpack_size layout ∧
    (∀ x, lo_crc layout = Some x → crc32 data = x) ∧
    Substreams_collect (S (Z.to_nat (FolderStreamLayout_len (lo_layout layout))))
      (FolderStreamLayout_streams (lo_layout layout)) = Ok substreams ∧
    zlen streams = FolderStreamLayout_len (lo_layout layout) ∧
    Forall2 (λ s d, get_range (br_start (ss_range s)) (br_end (ss_range s)) data = Some d ∧
                    ∀ x, ss_digest s = Some x → crc32 d = x) substreams streams.

Lemma verify_folder_output_spec layout size crc b decoded :
  verify_folder_output layout size crc b = Ok decoded →
  decoded = {| dec_bytes := b; dec_layout := layout |} ∧ zlen b = size ∧
  ∀ x, crc = Some x → crc32 b = x.
Proof.
  unfold verify_folder_output. case_decide as Hz; [done|].
  destruct (DigestState_finish _) as [[]|] eqn:Ef; [|done]. intros [= <-].
  split_and!; [done|done|]. exact (proj1 (DigestState_finish_spec _ _) Ef).
Qed.

Lemma DecodedFolder_stream_spec self s d :
  DecodedFolder_stream self s = Ok d →
  get_range (br_start (ss_range s)) (br_end (ss_range s)) (dec_bytes self) = Some d ∧
  ∀ x, ss_digest s = Some x → crc32 d = x.
Proof.
  unfold DecodedFolder_stream. destruct (get_range _ _ _) as [d'|]; cbn [ok_or]; [|done].
  destruct (ss_digest s) as [x|].
  - case_decide as Hx; [done|]. intros [= <-]. split; [done|]. by intros y [= <-].
  - by intros [= <-].
Qed.

Lemma collect_verified ready budget limit decoded budget' layout output output' :
  rf_layout ready = lo_layout layout → rf_unpack_size ready = lo_unpack_size layout →
  rf_crc ready = lo_crc layout →
  ReadyFolder_collect (R := R) retries io_fuel io_sizes ready password limit budget = (Ok decoded, budget') →
  ExternalFolderCollector_append output decoded = Ok output' →
  ∃ streams, verified_folder layout streams ∧ ec_data output' = ec_data output ++ streams ∧
    ec_remaining output' = ec_remaining output - zlen streams ∧ lo_unpack_size layout ≤ limit.
Proof.
  intros Hl Hs Hc. unfold ReadyFolder_collect.
  destruct (ok_or (usize_try_from _) _) as [u|]; [|done].
  destruct (ok_or (checked_add _ 1) _) as [read_limit|]; [|done]. case_decide as Hlim; [done|].
  destruct (ReadyDecoder_start _ _ _ _) as [[reader|] b1]; [|done].
  destruct (FolderReader_read_bounded_to_vec _ _ _ _) as [data|]; [|done].
  intros [= Hv <-] Happ. rewrite Hl, Hs, Hc in Hv. apply verify_folder_output_spec in Hv as (-> & Hz & Hcrc).
  unfold ExternalFolderCollector_append in Happ. cbn [dec_layout] in Happ.
  unfold checked_sub in Happ. case_decide; cbn [ok_or] in Happ; [|done].
  destruct (DecodedFolder_streams _) as [streams'|] eqn:Est; [|done]. injection Happ as <-.
  unfold DecodedFolder_streams in Est. cbn [dec_layout] in Est.
  destruct (Substreams_collect _ _) as [subs|] eqn:Ecol; [|done].
  apply try_collect_Forall2 in Est.
  assert (zlen streams' = FolderStreamLayout_len (lo_layout layout)) as Hlen.
  { destruct (collect_walks _ _ _ Ecol) as (st & Hw & Hend).
    pose proof (walks_bound _ _ _ Hw) as Hbound.
    destruct Hend as [st2 Hend]; [unfold zlen in Hbound; lia|].
    destruct (walks_spec _ _ _ Hw) as (Hl1 & Hp1 & Hle1); [apply layout_len_nonneg|].
    apply next_none_end in Hend; [|rewrite Hp1; cbn; unfold zlen; lia|by rewrite Hl1].
    rewrite Hl1 in Hend. unfold zlen in *. rewrite <- (Forall2_length _ _ _ Est).
    change (sub_layout (FolderStreamLayout_streams (lo_layout layout))) with (lo_layout layout) in *.
    change (sub_position (FolderStreamLayout_streams (lo_layout layout))) with 0 in *. lia. }
  exists streams'. cbn [ec_data ec_remaining]. split_and!; [|done|lia|lia].
  exists data, subs. split_and!; try done. eapply Forall2_impl; [exact Est|].
  intros s d. apply DecodedFolder_stream_spec.
Qed.

Lemma bind_ready layout budget ready budget' :
  FolderLayout_bind layout open budget = (Ok ready, budget') →
  rf_layout ready = lo_layout layout ∧ rf_unpack_size ready = lo_unpack_size layout ∧
  rf_crc ready = lo_crc layout.
Proof.
  unfold FolderLayout_bind. destruct (DecoderPlan_compile_with_budget _ _ _ _ _ _) as [[plan b]|]; [|done].
  destruct (PackedStreams_iter _); [|done]. destruct (try_collect _ _); [|done].
  destruct (DecoderPlan_bind _ _); [|done]. by intros [= <- _].
Qed.

Lemma external_loop_spec fuel plans limit output budget data budget' :
  external_loop retries io_fuel io_sizes open password fuel plans limit output budget = (Ok data, budget') →
  ∃ layouts st streams, FolderPlans_collect fuel plans = Ok (layouts, st) ∧
    Forall2 verified_folder layouts streams ∧ data = ec_data output ++ concat streams ∧
    zlen (concat streams) = ec_remaining output ∧ Forall (λ l, lo_unpack_size l ≤ limit) layouts.
Proof.
  revert plans output budget. induction fuel as [|fuel IH]; intros plans output budget;
    cbn [external_loop FolderPlans_collect]; [done|].
  destruct (FolderPlans_next plans) as [[[layout|]|] plans']; [|done|].
  - destruct (FolderLayout_bind layout open budget) as [[ready|] b1] eqn:Eb; [|done].
    destruct (bind_ready _ _ _ _ Eb) as (Hl & Hs & Hc).
    destruct (ReadyFolder_collect _ _ _ ready password limit b1) as [[decoded|] b2] eqn:Ec; [|done].
    destruct (ExternalFolderCollector_append output decoded) as [output'|] eqn:Ea; [|done].
    destruct (collect_verified _ _ _ _ _ layout _ _ Hl Hs Hc Ec Ea)
      as (streams & Hv & Hd & Hr & Hlim).
    intros Hrest. destruct (IH _ _ _ Hrest) as (ls & st & ss & -> & Hall & -> & Hz & Hlims).
    exists (layout :: ls), st, (streams :: ss). cbn [concat]. rewrite zlen_app, Hd, <- app_assoc.
    split_and!; [done|by constructor|done|lia|by constructor].
  - intros [= Hf <-]. unfold ExternalFolderCollector_finish in Hf. case_decide as Hz; [|done].
    injection Hf as <-. exists [], plans', []. cbn. rewrite app_nil_r. split_and!; try done.
Qed.

End external_lemmas.

(** ** Properties *)

(** C4. A folder read to its end is verified: when the consumers of its first
    substreams accept them and finishing the folder reports it complete, the bytes its
    decoder gave are as many as the folder declares and have the folder's digest if it
    has one; every substream is the slice at its range and has its own digest, the
    skipped ones included; each consumer saw a beginning of its substream, in order and
    without a gap; the decoded bytes are charged to the budget once, unless they were
    charged before; and if the decoder delivers some bytes, they are exactly those. *)
Theorem folder_read_verified `{Crc32} {S} `{Reader S} io_fuel io_sizes (reader : S) layout crc
    unpack_size eager budget consumers folder budget1 budget2 :
  bounded reader → (∀ k, 0 < io_sizes k) → budget_ok budget →
  read_streams io_fuel io_sizes
    {| af_reader := reader; af_streams := FolderStreamLayout_streams layout;
       af_digest := DigestState_new crc; af_decoded_len := 0; af_unpack_size := unpack_size;
       af_budgeted_eagerly := eager |} budget consumers = (Ok folder, budget1) →
  ActiveFolder_finish io_fuel io_sizes folder WholeFolder budget1 = (Ok CompleteFolders, budget2) →
  ∃ data reader' substreams,
    yields reader data reader' ∧ zlen data = unpack_size ∧ (∀ x, crc = Some x → crc32 data = x) ∧
    Substreams_collect (Datatypes.S (Z.to_nat (FolderStreamLayout_len layout)))
      (FolderStreamLayout_streams layout) = Ok substreams ∧
    Forall (λ s, verified_stream s (stream_slice s data)) substreams ∧
    (∀ k consume, consumers !! k = Some consume →
       ∃ s, substreams !! k = Some s ∧ accepted consume (stream_slice s data)) ∧
    ob_decoded budget2 = (if eager then ob_decoded budget
                          else Z.min u64_max (ob_decoded budget + unpack_size)) ∧
    ∀ m delivered, delivers m reader delivered → data = delivered.
Proof.
  intros Hok Hsz Hb Hread Hfin.
  set (active := {| af_reader := reader |}) in Hread.
  assert (active_ok active budget) as Ha by (split_and!; (done || cbn; lia)).
  destruct (read_streams_spec io_fuel io_sizes Hsz _ _ _ _ _ Ha Hread) as (ss1 & ds1 & H1).
  destruct (walks_spec _ _ _ (fr_walks _ _ _ _ _ _ _ H1) (layout_len_nonneg layout)) as (Hl1 & Hp1 & Hle1).
  change (sub_layout (af_streams active)) with layout in *.
  change (sub_position (af_streams active)) with 0 in *.
  destruct (folder_finish_spec io_fuel io_sizes Hsz _ _ _ _ _ (fr_ok _ _ _ _ _ _ _ H1) ltac:(by rewrite Hl1) Hfin)
    as (_ & folder2 & ss2 & ds2 & [H2 Hlen2 Hunp Hdig [r' Hr']]).
  destruct (folder_reads_trans _ _ _ _ _ _ _ _ _ _ _ _ H1 H2) as [Hw Hv Hac Hy Hd Hn Hs He Hc [Hoff _]].
  cbn in Hd, Hn, Hs, Hc. rewrite Hd in Hdig. pose proof (proj1 (DigestState_finish_spec _ _) Hdig) as Hcrc.
  destruct (walks_spec _ _ _ Hw (layout_len_nonneg layout)) as (Hlay & Hpos & _).
  change (sub_layout (af_streams active)) with layout in *.
  change (sub_position (af_streams active)) with 0 in *.
  destruct (walks_slices _ _ _ (ds1 ++ ds2) [] Hw Hv) as [Hz Hslice]; [done|cbn; lia|].
  cbn [app] in Hz, Hslice. set (data := concat (ds1 ++ ds2)) in *.
  exists data, (af_reader folder2), (ss1 ++ ss2). split_and!.
  - done.
  - lia.
  - done.
  - eapply walks_collect; [exact Hw| |].
    + unfold Substreams_next. rewrite decide_True; [done|]. rewrite Hlay, Hpos, zlen_app, Hlen2.
      unfold Substreams_len. rewrite Hl1. lia.
    + rewrite zlen_app in Hpos. unfold Substreams_len in Hlen2. rewrite Hl1 in Hlen2.
      unfold zlen in *. rewrite length_app. lia.
  - apply Forall_lookup_2. intros k s Hk. destruct (Forall2_lookup_l _ _ _ _ _ Hslice Hk) as (d & Hdk & ->).
    destruct (Forall2_lookup_l _ _ _ _ _ Hv Hk) as (d' & Hdk' & Hver). congruence.
  - intros k consume Hk. apply (lookup_app_l_Some _ (ignoring (Substreams_len (af_streams folder)))) in Hk.
    destruct (Forall2_lookup_l _ _ _ _ _ Hac Hk) as (d & Hdk & Hacc).
    destruct (Forall2_lookup_r _ _ _ _ _ Hslice Hdk) as (s & Hsk & Heq). exists s.
    split; [done|]. by rewrite Heq.
  - rewrite Hc. destruct eager; [done|]. do 2 f_equal. lia.
  - intros m D HD. destruct (yields_delivers _ _ _ _ _ HD Hy) as (rest & m' & -> & _ & Hrest).
    destruct (delivers_read _ _ _ 1 Hrest ltac:(lia)) as [c rest' s' m2 Hr2 _ _ Hnil _ _|e s' m2 Hr2 _ _ _];
      rewrite Hr' in Hr2; [|done]. injection Hr2 as <- <-. by rewrite (Hnil eq_refl), app_nil_r.
Qed.

(** C37. A sound folder reads: when the decoder delivers, without an interrupted read, bytes
    of the declared size and digest, the substreams tile them and their slices have their
    digests, and nothing limits or cancels the operation, then any consumers that accept their streams are
    served and the folder finishes as complete. *)
Theorem folder_read_succeeds `{Crc32} {S} `{Reader S} io_fuel io_sizes (reader : S) layout crc
    eager budget consumers data substreams :
  bounded reader → (∀ k, 0 < io_sizes k) → budget_ok budget → unlimited budget eager →
  delivers 0 reader data → (∀ x, crc = Some x → crc32 data = x) →
  Substreams_collect (Datatypes.S (Z.to_nat (FolderStreamLayout_len layout)))
    (FolderStreamLayout_streams layout) = Ok substreams →
  tiles 0 (map ss_range substreams) (zlen data) →
  Forall (λ s, verified_stream s (stream_slice s data)) substreams →
  Forall willing consumers → (length consumers ≤ length substreams)%nat →
  (length data < io_fuel)%nat →
  ∃ folder budget1 budget2,
    read_streams io_fuel io_sizes
      {| af_reader := reader; af_streams := FolderStreamLayout_streams layout;
         af_digest := DigestState_new crc; af_decoded_len := 0; af_unpack_size := zlen data;
         af_budgeted_eagerly := eager |} budget consumers = (Ok folder, budget1) ∧
    ActiveFolder_finish io_fuel io_sizes folder WholeFolder budget1 = (Ok CompleteFolders, budget2).
Proof.
  intros Hok Hsz Hb Hun Hd Hcrc Hcol Ht Hv Hc Hlc Hf.
  set (active := {| af_reader := reader |}).
  assert (active_ok active budget) as Ha by (split_and!; (done || cbn; lia)).
  destruct (collect_walks _ _ _ Hcol) as (st & Hw & Hend).
  pose proof (walks_bound _ _ _ Hw) as Hbound.
  destruct Hend as [st2 Hend]; [unfold zlen in Hbound; lia|].
  assert (concat (map (λ s, stream_slice s data) substreams) = data) as Hcat.
  { rewrite (slices_concat 0 _ _ _ Ht) by lia. unfold sub_list. cbn. rewrite drop_0. apply take_ge. unfold zlen. lia. }
  assert (Forall2 verified_stream substreams (map (λ s, stream_slice s data) substreams)) as Hv2.
  { apply Forall2_fmap_r, Forall_Forall2_diag, Hv. }
  set (k := length consumers) in *. set (slices := map (λ s, stream_slice s data) substreams) in *.
  rewrite <- (take_drop k substreams) in Hw. rewrite <- (take_drop k slices) in Hcat.
  pose proof Hd as Hd0. pose proof Hw as Hwhole.
  apply walks_app_inv in Hw as (st1 & Hw1 & Hw2).
  pose proof (Forall2_take _ _ _ k Hv2) as Hv3. pose proof (Forall2_drop _ _ _ k Hv2) as Hv4.
  rewrite concat_app in Hcat. rewrite <- Hcat in Hf, Hd. rewrite length_app in Hf.
  destruct (read_streams_succeeds io_fuel io_sizes Hsz active budget consumers _ st1 _ _ Ha Hw1 Hv3 Hd Hun Hc)
    as (folder & b1 & Hr & Hst & He & Hd1 & Hun1); [rewrite length_take; lia|lia|].
  destruct (read_streams_spec io_fuel io_sizes Hsz _ _ _ _ _ Ha Hr) as (ss1 & ds1 & H1).
  rewrite <- (app_nil_r (concat _)) in Hd1. rewrite <- Hst in Hw2.
  assert (Substreams_len (af_streams folder) = zlen (drop k substreams)) as Hlen.
  { destruct (walks_spec _ _ _ Hw1) as (Hl1 & Hp1 & Hle1); [apply layout_len_nonneg|].
    rewrite <- Hst in Hl1, Hp1, Hle1. change (sub_layout (FolderStreamLayout_streams layout)) with layout in *.
    destruct (walks_spec _ _ _ Hw2) as (Hl2 & Hp2 & Hle2); [by rewrite Hl1|].
    change (sub_position (FolderStreamLayout_streams layout)) with 0 in *.
    apply next_none_end in Hend; [|rewrite Hp2, Hp1; unfold zlen; lia|by rewrite Hl2].
    unfold Substreams_len. rewrite Hl2, Hl1 in Hend. rewrite Hl1. lia. }
  destruct (read_streams_succeeds io_fuel io_sizes Hsz folder b1 (ignoring (zlen (drop k substreams))) _ st _ []
    (fr_ok _ _ _ _ _ _ _ H1) Hw2 Hv4 Hd1) as (folder2 & b2 & Hr2 & Hst2 & He2 & Hd2 & Hun2).
  { by rewrite He. }
  { apply Forall_replicate. constructor. }
  { unfold ignoring, zlen. rewrite length_replicate. lia. }
  { lia. }
  destruct (read_streams_spec io_fuel io_sizes Hsz _ _ _ _ _ (fr_ok _ _ _ _ _ _ _ H1) Hr2) as (ss2 & ds2 & H2).
  pose proof (folder_reads_trans _ _ _ _ _ _ _ _ _ _ _ _ H1 H2) as H12.
  destruct (walks_slices _ _ _ _ [] (fr_walks _ _ _ _ _ _ _ H12) (fr_verified _ _ _ _ _ _ _ H12))
    as [Hz _]; [done|cbn; lia|].
  rewrite take_drop in Hwhole.
  destruct (walks_slices _ _ _ _ [] Hwhole Hv2) as [Hz' _]; [done|cbn; lia|].
  cbn [app] in Hz, Hz'. rewrite Hst2 in Hz. rewrite <- (take_drop k slices), concat_app, Hcat in Hz'.
  destruct (yields_delivers _ _ _ _ _ Hd0 (fr_yields _ _ _ _ _ _ _ H12)) as (rest & m' & Hdata & _ & _).
  assert (concat (ds1 ++ ds2) = data) as HD.
  { assert (rest = []) as ->; [|by rewrite Hdata, app_nil_r].
    rewrite Hdata, zlen_app in Hz'. apply length_zero_iff_nil. unfold zlen in *. lia. }
  exists folder, b1. unfold ActiveFolder_finish. rewrite Hlen, Hr2.
  pose proof (fr_len _ _ _ _ _ _ _ H12) as Hn. pose proof (fr_size _ _ _ _ _ _ _ H12) as Hs.
  pose proof (fr_digest _ _ _ _ _ _ _ H12) as Hdg. rewrite HD in Hn, Hdg. cbn in Hn, Hs, Hdg.
  rewrite decide_False by lia.
  destruct (delivers_read _ _ _ 1 Hd2 ltac:(lia)) as [c rest' r' m2 -> _ Hc0 _ _ _|e r' m2 _ _ Hm2 _]; [|lia].
  symmetry in Hc0. apply app_nil in Hc0 as [-> _]. rewrite Hdg, (proj2 (DigestState_finish_spec _ _) Hcrc).
  by eexists.
Qed.

(** External header data is verified: decoding the folders that hold it succeeds
    only when every folder of the validated plan decodes, within the admitted size, to
    bytes of its declared size and digest, cut into substreams with their own digests;
    the data are these substreams in order, as many as the plan promised. *)
Theorem external_data_verified `{Nom} `{Crc32} `{LzmaMemory} `{Decoders} `{BlockCipher} `{Sha256} {R}
    `{Reader R} retries io_fuel io_sizes open password fuel plan budget data budget' :
  ExternalFolderPlan_decode retries io_fuel io_sizes open password fuel plan budget = (Ok data, budget') →
  zlen data = fls_stream_count (ef_folders plan) ∧
  ∃ layouts st streams,
    FolderPlans_collect fuel (fls_plans (ef_folders plan)) = Ok (layouts, st) ∧
    Forall2 verified_folder layouts streams ∧ data = concat streams ∧
    Forall (λ l, lo_unpack_size l ≤ ef_output_limit plan) layouts.
Proof.
  intros (layouts & st & streams & Hc & Hv & -> & Hz & Hl)%external_loop_spec. cbn in *.
  split; [done|]. by exists layouts, st, streams.
Qed.

(** ** Witnesses *)

Lemma ScriptReader_ok : reader_ok ScriptReader.
Proof.
  intros [d script] n c s' Hn. unfold reader_read, ScriptReader_read.
  assert (∀ k, zlen (take (Z.to_nat (Z.min k n)) d) ≤ n) as Ht
    by (intros k; unfold zlen; rewrite length_take; lia).
  destruct script as [|[|k] script]; intros Heq; try done; injection Heq as <- _; apply Ht.
Qed.

Definition sum_crc : Crc32.
Proof.
  refine {| crc32 := λ b, foldr Z.add 0 b mod 2 ^ 32 |}.
  intros b. unfold is_u32. apply Z.mod_pos_bound. lia.
Defined.
#[local] Existing Instance sum_crc.

(** Two substreams of 2 and 3 bytes, of which the first is read in part. *)
Definition sample_layout : FolderStreamLayout :=
  {| fl_explicit_sizes := [2]; fl_final_size := Some 3; fl_digests := [Some 3; Some 12] |}.
Definition sample_folder_source : ScriptReader := {| sr_data := [1; 2; 3; 4; 5]; sr_script := [] |}.
Definition sample_consumer : Consumer := ReadNext 1 (λ _, Finished (Ok tt)).
Definition sample_read_budget : OperationBudget := OperationBudget_new ResourceLimits_default.
Definition sample_active : ActiveFolder ScriptReader :=
  {| af_reader := sample_folder_source; af_streams := FolderStreamLayout_streams sample_layout;
     af_digest := DigestState_new (Some 15); af_decoded_len := 0; af_unpack_size := 5;
     af_budgeted_eagerly := false |}.

Lemma sample_read_budget_ok : budget_ok sample_read_budget.
Proof. apply budget_new_ok. split; try exact I; split; by compute. Qed.

Lemma folder_read_verified_witness :
  ∃ data reader', yields sample_folder_source data reader' ∧ zlen data = 5 ∧ crc32 data = 15.
Proof.
  destruct (read_streams 9 (λ _, 8) sample_active sample_read_budget [sample_consumer])
    as [[folder|] b1] eqn:Er; [|vm_compute in Er; discriminate Er].
  destruct (ActiveFolder_finish 9 (λ _, 8) folder WholeFolder b1) as [r b2] eqn:Ef.
  assert (r = Ok CompleteFolders) as ->
    by (vm_compute in Er; injection Er as <- <-; vm_compute in Ef; injection Ef as <- _; reflexivity).
  destruct (folder_read_verified 9 (λ _, 8) sample_folder_source sample_layout (Some 15) 5 false
    sample_read_budget [sample_consumer] folder b1 b2 (reader_ok_bounded _ ScriptReader_ok) (λ _, eq_refl)
    sample_read_budget_ok Er Ef) as (data & reader' & _ & Hy & Hz & Hc & _).
  exists data, reader'. split; [exact Hy|]. split; [exact Hz|]. apply Hc. reflexivity.
Defined.

Lemma folder_read_succeeds_witness :
  ∃ folder budget1 budget2,
    read_streams 9 (λ _, 8) sample_active sample_read_budget [sample_consumer] = (Ok folder, budget1) ∧
    ActiveFolder_finish 9 (λ _, 8) folder WholeFolder budget1 = (Ok CompleteFolders, budget2).
Proof.
  refine (folder_read_succeeds 9 (λ _, 8) sample_folder_source sample_layout (Some 15) false
    sample_read_budget [sample_consumer] [1; 2; 3; 4; 5]
    [{| ss_range := {| br_start := 0; br_end := 2 |}; ss_digest := Some 3 |};
     {| ss_range := {| br_start := 2; br_end := 5 |}; ss_digest := Some 12 |}]
    (reader_ok_bounded _ ScriptReader_ok) _ sample_read_budget_ok _ _ _ _ _ _ _ _ _).
  - exact (λ _, eq_refl).
  - split; [reflexivity|left; reflexivity].
  - exact (ScriptReader_delivers [1; 2; 3; 4; 5] []).
  - intros x [= <-]. reflexivity.
  - vm_compute. reflexivity.
  - split; [reflexivity|split; [by compute|split; [reflexivity|split; [by compute|reflexivity]]]].
  - constructor; [|constructor; [|constructor]]; (split; [reflexivity|intros x [= <-]; reflexivity]).
  - constructor; [|constructor]. constructor. intros res. constructor.
  - cbn. lia.
  - cbn. lia.
Defined.

#[local] Existing Instances flat_memory stored_decoders counter_cipher flat_hash.

Definition sample_area : bytes := [1; 2; 3; 4; 5; 6; 7; 8; 9; 10; 1; 1; 1; 1; 3].
Definition sample_open (s : PackedStream) : result (PackedInput Cursor) R7zError :=
  Ok {| pi_reader := {| cu_data := sample_area; cu_position := br_start (ps_range s) |};
        pi_size := ByteRange_len (ps_range s) |}.
Definition sample_external : ExternalFolderPlan :=
  {| ef_folders := pf_layouts sample_preflight; ef_output_limit := 15 |}.

Lemma external_data_verified_witness :
  ∃ data budget', ExternalFolderPlan_decode 1 30 (λ _, 8) sample_open None 3 sample_external
      sample_read_budget = (Ok data, budget') ∧
    data = [[1; 2; 3; 4]; [5; 6; 7; 8; 9; 10]; [1; 1; 1; 1; 3]] ∧ zlen data = 3.
Proof.
  destruct (ExternalFolderPlan_decode 1 30 (λ _, 8) sample_open None 3 sample_external
    sample_read_budget) as [[data|] b'] eqn:Ed; [|vm_compute in Ed; discriminate Ed].
  exists data, b'. split; [reflexivity|].
  split; [vm_compute in Ed; injection Ed as <- _; reflexivity|].
  exact (proj1 (external_data_verified 1 30 (λ _, 8) sample_open None 3 sample_external
    sample_read_budget data b' Ed)).
Defined.
