(* ===== verification/FolderBounds.v ===== *)
(** * Bounds of folder readers (src/src/codec/plan.rs, src/src/codec.rs, src/src/folder_decode.rs)

    No reader the program opens for a folder returns more bytes than it was asked for:
    the sizes a plan enforces are not negative because they are header fields, and every
    stage of a chain keeps the contract of [Read::read] over the one before it. *)

From stdpp Require Import base numbers list option strings.
From Stdlib Require Import ZArith Lia.
From S2P Require Import Prelude Method CoderInfo Folder Error Operation Readers ByteSwap Resources FolderGraph PackInfo StreamInfo Aes DecoderPlan DecoderRun FolderDecode FolderRead.

(** ** Sizes of a compiled plan *)

Definition sized (o : OutputSize) : Prop := ∀ n, o = Known n → 0 ≤ n.

Definition coder_sized (c : CoderPlan) : Prop :=
  match c with
  | PlanPpmd _ _ size => 0 ≤ size
  | PlanSwap width => 0 < width
  | _ => True
  end.

Lemma sized_unknown : sized Unknown.
Proof. done. Qed.

Lemma sized_known n : 0 ≤ n → sized (Known n).
Proof. by intros ? ? [= <-]. Qed.

#[local] Hint Resolve sized_unknown sized_known : core.

Lemma reconcile_sized a b c : OutputSize_reconcile a b = Ok c → sized a → sized b → sized c.
Proof. by intros (_ & _ & [-> | ->])%reconcile_refines. Qed.

(** Declared sizes that are header fields. *)
Record sizes_ok (s : CoderOutputSizes) : Prop := {
  so_final : 0 ≤ os_final_size s;
  so_declared : Forall is_u64 (os_declared s)
}.

Lemma get_sized s index : sizes_ok s → sized (CoderOutputSizes_get s index).
Proof.
  intros [Hf Hd]. unfold CoderOutputSizes_get. case_decide; [auto|].
  destruct (os_declared s !! index) as [n|] eqn:E; [|auto].
  eapply Forall_lookup_1 in E; [|exact Hd]. destruct E. auto.
Qed.

Section compile.
  Context `{LzmaMemory} (folder : Folder) (sizes : CoderOutputSizes) (Hs : sizes_ok sizes).

Lemma compile_sized coder size plan : CoderPlan_compile coder size = Ok plan → sized size → coder_sized plan.
Proof.
  intros Hc Hz. unfold CoderPlan_compile in Hc. destruct (method_info _) as [info|]; [|done].
  destruct (MethodInfo_can_decode info); [|done].
  destruct (no_properties coder); destruct (mi_method info);
    repeat (match type of Hc with
    | (match ?e with Ok _ => _ | Err _ => _ end) = Ok _ => destruct e eqn:?; [|discriminate Hc]
    | (let '(_, _) := ?p in _) = Ok _ => destruct p
    | (match ?l with [] => _ | _ => _ end) = Ok _ => destruct l
    end); try discriminate Hc; try (injection Hc as <-; cbn; done || lia).
  all: destruct size; cbn in *; try done; simplify_eq; by apply Hz.
Qed.

Lemma SizedCoder_compile_sized coder output s :
  SizedCoder_compile coder output = Ok s → sized output → coder_sized (sc_coder s) ∧ sc_output s = output.
Proof.
  unfold SizedCoder_compile. destruct (CoderPlan_compile coder output) as [p|] eqn:E; [|done].
  intros [= <-] Ho. split; [by eapply compile_sized|done].
Qed.

Lemma bind_size_sized s input step :
  SizedCoder_bind_size s input = Ok step → coder_sized (sc_coder s) → sized (sc_output s) → sized input →
  step_sized step.
Proof.
  unfold SizedCoder_bind_size. intros Hb Hc Ho Hi.
  destruct (CoderPlan_preserves_size (sc_coder s)).
  - destruct (OutputSize_reconcile (sc_output s) input) as [o|] eqn:Er; [|done]. injection Hb as <-.
    split; [|done]. by eapply reconcile_sized.
  - by injection Hb as <-.
Qed.

Lemma compile_steps_sized order next steps :
  compile_steps folder sizes order next = Ok steps → sized next →
  Forall (λ s, coder_sized (sc_coder s) ∧ sized (sc_output s)) steps.
Proof.
  revert next steps. induction order as [|i order IH]; intros next steps; cbn [compile_steps].
  { intros [= <-] _. constructor. }
  destruct (coders folder !! i) as [coder|]; cbn [ok_or]; [|done].
  destruct (OutputSize_reconcile _ next) as [o|] eqn:Er; [|done].
  destruct (SizedCoder_compile coder o) as [s|] eqn:Ec; [|done].
  destruct (compile_steps folder sizes order _) as [ss|] eqn:Es; [|done]. intros [= <-] Hn.
  pose proof (reconcile_sized _ _ _ Er (get_sized _ _ Hs) Hn) as Ho.
  destruct (SizedCoder_compile_sized _ _ _ Ec Ho) as [Hc Heq]. constructor.
  - by rewrite Heq.
  - eapply IH; [exact Es|]. destruct (CoderPlan_preserves_size _); auto.
Qed.

Lemma bind_sizes_sized steps input out :
  bind_sizes steps input = Ok out → sized input →
  Forall (λ s, coder_sized (sc_coder s) ∧ sized (sc_output s)) steps → Forall step_sized out.
Proof.
  intros Hb Hi Hall. revert input out Hb Hi.
  induction Hall as [|s steps [Hc Ho] _ IH]; intros input out; cbn [bind_sizes]; [by intros [= <-]|].
  destruct (SizedCoder_bind_size s input) as [step|] eqn:Eb; [|done].
  destruct (bind_sizes steps (ds_output step)) as [rest|] eqn:Es; [|done]. intros [= <-] Hi.
  pose proof (bind_size_sized _ _ _ Eb Hc Ho Hi) as Hst. constructor; [done|].
  eapply IH; [exact Es|]. exact (proj1 Hst).
Qed.

(** The steps of a chain. *)
Definition plan_sized (plan : DecoderPlan) : Prop :=
  match dp_topology plan with
  | Chain steps => Forall step_sized steps ∧ Forall is_u64 (dp_inputs plan)
  | TopologyBcj2 _ _ _ _ _ output_size => 0 ≤ output_size
  end.

Lemma compile_chain_sized graph inputs budget plan budget' :
  Forall is_u64 inputs → compile_chain folder graph sizes inputs budget = Ok (plan, budget') → plan_sized plan.
Proof.
  intros Hin. unfold compile_chain. destruct inputs as [|packed [|]]; try done.
  destruct (compile_steps _ _ _ _) as [ss|] eqn:Ec; [|done].
  destruct (bind_sizes _ _) as [steps|] eqn:Eb; [|done].
  destruct (add_working_sets _ _) as [m|]; [|done].
  destruct (WorkingSet_admit _ _) as [[m' b]|]; [|done]. intros [= <- _]. unfold plan_sized. cbn.
  split; [|done]. pose proof (proj1 (Forall_singleton _ _) Hin) as [Hp _]. eapply bind_sizes_sized; [exact Eb|auto|].
  apply Forall_rev. by eapply compile_steps_sized.
Qed.

End compile.

Lemma bcj2_size unpack_size n : bcj2_output_size unpack_size = Ok n → n = unpack_size.
Proof.
  unfold bcj2_output_size, usize_try_from. case_decide; cbn [ok_or]; [|done].
  case_decide; [done|]. by intros [= <-].
Qed.

Lemma compile_with_budget_sized `{LzmaMemory} folder graph unpack_size sizes packed budget plan budget' :
  is_u64 unpack_size → Forall is_u64 sizes → Forall is_u64 packed →
  DecoderPlan_compile_with_budget folder graph unpack_size sizes packed budget = Ok (plan, budget') →
  plan_sized plan.
Proof.
  intros Hu Hs Hp. unfold DecoderPlan_compile_with_budget, CoderOutputSizes_complete, CoderOutputSizes_partial.
  destruct (total_out_streams folder) as [total|]; [|done].
  case_decide; [done|]. case_decide; [done|].
  match goal with |- context [if ?c then _ else _] => destruct c; [done|] end.
  unfold DecoderPlan_with_output_sizes. destruct (validate_folder_coder_count folder); [|done].
  case_decide; [done|]. destruct (decoder_topology folder graph) as [[layout|]|]; [| |done].
  - unfold compile_bcj2. destruct (bcj2_output_size unpack_size) as [size|] eqn:Eo; [|done].
    apply bcj2_size in Eo as ->. destruct Hu as [Hu _]. intros Hc.
    repeat match type of Hc with
    | (match ?e with Ok _ => _ | Err _ => _ end) = Ok _ => destruct e as [?|]; [|discriminate Hc]
    | (if ?c then _ else _) = Ok _ => destruct c; [discriminate Hc|]
    | (let '(_, _) := ?p in _) = Ok _ => destruct p
    end.
    by injection Hc as <- _.
  - apply compile_chain_sized; [|done]. split; [|done]. by destruct Hu.
Qed.

(** The plan's memory is admitted, never forgotten. *)
Lemma admit_ok n m b b' : WorkingSet_admit n b = Ok (m, b') → (budget_ok b → budget_ok b') ∧ ob_limits b' = ob_limits b.
Proof.
  unfold WorkingSet_admit, admit_decoder_working_set. case_decide as Hl; [done|]. intros [= _ <-].
  split; [|done]. intros [? ? ? [Hp Hpc] ? ? ? ? ?]. split; try done. cbn in *.
  destruct (max_decoder_working_set_bytes (ob_limits b)); cbn in *; lia.
Qed.

(** ** Folder readers *)

Section readers.
  Context `{Crc32} `{LzmaMemory} `{Decoders} `{BlockCipher} `{Sha256} {R : Type} `{Reader R}.
  Context (retries : nat) (password : option (list Z)).
  Context (Hdec : decoders_bounded) (HR : reader_ok R).

Definition ready_sized (ready : ReadyDecoder R) : Prop :=
  match rd_topology ready with
  | BoundChain steps input => Forall step_sized steps ∧ 0 ≤ tk_limit input
  | BoundBcj2Topology bound => 0 ≤ bb_output_size bound
  end.

Lemma take_slot sizes (inputs : list (PackedInput R)) slots slot input rest :
  PackedLayout_bind sizes inputs = Ok slots → Forall is_u64 sizes →
  BoundInputs_take slots slot = Ok (input, rest) → 0 ≤ tk_limit input.
Proof.
  unfold PackedLayout_bind. case_decide; [done|].
  match goal with |- context [if ?c then _ else _] => destruct c; [done|] end. intros [= <-] Hs.
  unfold BoundInputs_take. rewrite list_lookup_fmap.
  destruct (zip inputs sizes !! slot) as [[i n]|] eqn:E; cbn; [|done]. intros [= <- _]. cbn.
  apply lookup_zip_with_Some in E as (? & ? & [= <- <-] & _ & Hn).
  eapply Forall_lookup_1 in Hn; [|exact Hs]. by destruct Hn.
Qed.

Lemma bind_sized plan inputs ready :
  plan_sized plan → DecoderPlan_bind plan inputs = Ok ready → ready_sized ready.
Proof.
  unfold plan_sized, ready_sized, DecoderPlan_bind. intros Hp Hb.
  destruct (PackedLayout_bind _ _) as [ins|] eqn:Ein; [|done]. destruct (dp_topology plan).
  - destruct (BoundInputs_take _ _) as [[input rest]|] eqn:Et; [|done]. injection Hb as <-.
    destruct Hp as [Hp Hu]. split; [done|]. by eapply take_slot.
  - do 4 (destruct (BoundInputs_take _ _) as [[? ?]|] in Hb; [|discriminate Hb]). by injection Hb as <-.
Qed.

Lemma ReadyDecoder_start_bounded ready budget reader budget' :
  ready_sized ready → ReadyDecoder_start retries ready password budget = (Ok reader, budget') →
  bounded reader.
Proof.
  unfold ready_sized, ReadyDecoder_start. intros Hs. destruct (rd_topology ready) as [steps input|bcj2].
  - destruct (open_steps _ _ _ _ _) as [[r|] b] eqn:Eo; [|done]. intros [= <- _].
    apply (lift_bounded Stream); [done|]. destruct Hs as [Hs Hl].
    eapply open_steps_bounded; [done|exact Hs| |exact Eo].
    destruct input as [r0 limit]. apply (Take_bounded (S := R)); [by apply reader_ok_bounded|done].
  - destruct (monitor_check budget) as [[[]|] b0]; [|done].
    do 4 (destruct (BoundInput_open _ _ _ _) as [[?|] ?]; [|done]).
    destruct (bcj2_try_new _ _) as [r|]; [|done].
    destruct (bcj2_loop _ _ _ _ _) as [[[out r']|] b]; [|done].
    case_decide; [done|]. destruct (bcj2_finish _); [|done].
    destruct (monitor_check b) as [[[]|] b2]; [|done]. intros [= <- _].
    apply (lift_bounded Buffered); [done|]. apply Cursor_bounded.
Qed.

(** The header fields of a layout are 64-bit integers. *)
Record layout_sized (l : FolderLayout) : Prop := {
  lz_unpack : is_u64 (lo_unpack_size l);
  lz_coders : Forall is_u64 (lo_coder_sizes l);
  lz_packed : Forall is_u64 (pst_sizes (lo_streams l))
}.

Lemma FolderLayout_bind_sized layout open budget ready budget' :
  layout_sized layout → FolderLayout_bind layout open budget = (Ok ready, budget') →
  ready_sized (rf_decoder ready).
Proof.
  intros [Hu Hc Hp]. unfold FolderLayout_bind.
  destruct (DecoderPlan_compile_with_budget _ _ _ _ _ _) as [[plan b]|] eqn:Ec; [|done].
  destruct (PackedStreams_iter _) as [ss|]; [|done]. destruct (try_collect open ss) as [ins|]; [|done].
  destruct (DecoderPlan_bind plan ins) as [decoder|] eqn:Eb; [|done]. intros [= <- _]. cbn.
  eapply bind_sized; [|exact Eb]. exact (compile_with_budget_sized _ _ _ _ _ _ _ _ Hu Hc Hp Ec).
Qed.

(** ** Budgets *)

(** A step that keeps a sound budget sound, under the same limits. *)
Definition stays (b b' : OperationBudget) : Prop :=
  (budget_ok b → budget_ok b') ∧ ob_limits b' = ob_limits b.

#[local] Instance stays_preorder : PreOrder stays.
Proof.
  split; [by intros b; split|]. intros b1 b2 b3 [K1 E1] [K2 E2]. split; [auto|congruence].
Qed.

Lemma set_monitor_stays b m : stays b (set_monitor b m).
Proof. split; [apply set_monitor_ok|done]. Qed.

Lemma kdf_cycles_u64 n cycles : kdf_cycles n = Ok cycles → is_u64 cycles.
Proof.
  unfold kdf_cycles. repeat case_decide; try done; intros [= <-]; split; try done.
  - by apply Z.shiftl_nonneg.
  - destruct (decide (n < 0)) as [Hn|Hn].
    + rewrite Z.shiftl_div_pow2 by lia. apply Z.le_lt_trans with 1; [|done]. apply Z.div_le_upper_bound; lia.
    + rewrite Z.shiftl_mul_pow2 by lia. rewrite Z.mul_1_l. apply Z.le_lt_trans with (2 ^ 24); [|done].
      apply Z.pow_le_mono_r; [lia|]. unfold MAX_AES_NUM_CYCLES_POWER in *. lia.
Qed.

Lemma kdf_charge_stays b n cycles b' :
  kdf_cycles n = Ok cycles → charge_kdf_cycles b cycles = Ok b' → stays b b'.
Proof.
  intros Hk%kdf_cycles_u64 Hc. split.
  - intros Hb. eapply budget_step_ok; [exact Hb|]. by eapply step_kdf.
  - unfold charge_kdf_cycles in Hc. destruct (KdfBudget_charge _ _); [|done]. by injection Hc as <-.
Qed.

Lemma monitor_check_stays b r b' : monitor_check b = (r, b') → stays b b'.
Proof. intros [[m ->] _]%monitor_check_cases. apply set_monitor_stays. Qed.

Lemma monitor_advance_stays b n r b' : monitor_advance b n = (r, b') → stays b b'.
Proof. intros [[m ->] _]%monitor_advance_cases. apply set_monitor_stays. Qed.

Lemma CoderPlan_open_stays {S} `{Reader S} plan (input : S) i o b r b' :
  CoderPlan_open retries plan input i o password b = (r, b') → stays b b'.
Proof.
  destruct plan; cbn [CoderPlan_open]; try (by intros [= _ <-]).
  unfold aes_coder_reader. destruct password as [pw|]; [|by intros [= _ <-]].
  destruct (kdf_cycles _) as [cycles|] eqn:Ek; [|by intros [= _ <-]].
  destruct (charge_kdf_cycles b cycles) as [b1|] eqn:Ec; [|by intros [= _ <-]].
  destruct (derive_key_with_control _ _ _ _) as [key control]. intros [= _ <-].
  etrans; [by eapply kdf_charge_stays|apply set_monitor_stays].
Qed.

Lemma open_steps_stays steps n (reader : chain_reader R n) b r b' :
  open_steps retries steps reader password b = (r, b') → stays b b'.
Proof.
  revert n reader b. induction steps as [|s steps IH]; intros n reader b; cbn [open_steps]; [by intros [= _ <-]|].
  destruct (DecodeStep_open retries s reader password b) as [[r1|] b1] eqn:E;
    apply CoderPlan_open_stays in E; [|by intros [= _ <-]].
  intros Hr. etrans; [exact E|by eapply IH].
Qed.

Lemma bcj2_loop_stays fuel reader output size b r b' :
  bcj2_loop (R := R) fuel reader output size b = (r, b') → stays b b'.
Proof.
  revert reader output b. induction fuel as [|fuel IH]; intros reader output b; cbn [bcj2_loop]; [by intros [= _ <-]|].
  case_decide; [|by intros [= _ <-]].
  destruct (monitor_check b) as [[[]|] b1] eqn:Em; apply monitor_check_stays in Em; [|by intros [= _ <-]].
  destruct (reader_read reader _) as [[chunk|] reader']; [|by intros [= _ <-]].
  destruct (monitor_advance b1 _) as [[[]|] b2] eqn:Ea; apply monitor_advance_stays in Ea;
    [|intros [= _ <-]; by etrans].
  case_decide; [intros [= _ <-]; by etrans|]. intros Hr. etrans; [exact Em|]. etrans; [exact Ea|by eapply IH].
Qed.

Lemma ReadyDecoder_start_stays ready b r b' :
  ReadyDecoder_start (R := R) retries ready password b = (r, b') → stays b b'.
Proof.
  unfold ReadyDecoder_start, BoundInput_open. destruct (rd_topology ready) as [steps input|bcj2].
  - destruct (open_steps _ _ _ _ _) as [[o|] b1] eqn:E; apply open_steps_stays in E; by intros [= _ <-].
  - destruct (monitor_check b) as [[[]|] b0] eqn:Em; apply monitor_check_stays in Em; [|by intros [= _ <-]].
    do 4 (destruct (open_steps _ _ _ _ _) as [[?|] ?] eqn:E in |- *; apply open_steps_stays in E;
      apply (transitivity Em) in E; clear Em; rename E into Em; [|by intros [= _ <-]]).
    destruct (bcj2_try_new _ _) as [rd|]; [|by intros [= _ <-]].
    destruct (bcj2_loop _ _ _ _ _) as [[[out rd']|] b5] eqn:El; apply bcj2_loop_stays in El;
      apply (transitivity Em) in El; [|by intros [= _ <-]].
    case_decide; [by intros [= _ <-]|]. destruct (bcj2_finish rd'); [|by intros [= _ <-]].
    destruct (monitor_check b5) as [[[]|] b6] eqn:Ec; apply monitor_check_stays in Ec;
      apply (transitivity El) in Ec; by intros [= _ <-].
Qed.

(** ** Starting a folder *)

Lemma eager_chain_nonneg steps size :
  Forall step_sized steps → eager_chain_size steps = Some size → 0 ≤ size.
Proof.
  induction 1 as [|s steps [Ho _] _ IH]; cbn; [done|].
  destruct (ds_coder s); cbn; try done. destruct (ds_output s); [|done]. intros [= <-]. by apply Ho.
Qed.

Lemma eager_size_nonneg (ready : ReadyDecoder R) size :
  ready_sized ready → ReadyDecoder_eager_output_size ready = Some size → 0 ≤ size.
Proof.
  unfold ready_sized, ReadyDecoder_eager_output_size. destruct (rd_topology ready) as [steps input|bcj2].
  - intros [Hs _]. apply eager_chain_nonneg. by apply Forall_rev.
  - by intros ? [= <-].
Qed.

Lemma next_decoded_ok b n total :
  budget_ok b → 0 ≤ n → next_decoded b n = Ok total → under (max_total_decoded_bytes (ob_limits b)) total.
Proof.
  intros [[_ _ Hl] _ [Hu _] _ _ _ _ _ _] Hn. unfold next_decoded, checked_add, is_u64, u64_max in *.
  case_decide.
  - destruct (over _ _) eqn:Eo; [done|]. intros [= <-]. split; [unfold is_u64; lia|done].
  - destruct (max_total_decoded_bytes (ob_limits b)); [done|]. by intros [= <-].
Qed.

Lemma with_eager_stays {T} b n (start : OperationBudget → result T R7zError * OperationBudget) r b' :
  0 ≤ n → (∀ r b1, start b = (r, b1) → stays b b1) →
  with_eager_decoded_output b n start = (r, b') → stays b b'.
Proof.
  intros Hn Hs. unfold with_eager_decoded_output.
  destruct (next_decoded b n) as [total|] eqn:En; [|by intros [= _ <-]].
  destruct (start b) as [[o|e] b1] eqn:Es; destruct (Hs _ _ eq_refl) as [Hok Hl];
    assert (stays b (set_decoded b1 total)) as Ht
      by (split; [|done]; intros Hb; pose proof (next_decoded_ok _ _ _ Hb Hn En) as Hu;
          destruct (Hok Hb); split; cbn; rewrite ?Hl in *; done).
  - by intros [= _ <-].
  - destruct (before_output e); by intros [= _ <-].
Qed.

Lemma compile_stays folder graph unpack_size sizes packed b plan b' :
  DecoderPlan_compile_with_budget folder graph unpack_size sizes packed b = Ok (plan, b') → stays b b'.
Proof.
  unfold DecoderPlan_compile_with_budget. destruct (CoderOutputSizes_complete _ _ _ _) as [cs|]; [|done].
  unfold DecoderPlan_with_output_sizes. destruct (validate_folder_coder_count folder); [|done].
  case_decide; [done|]. destruct (decoder_topology folder graph) as [[layout|]|]; [| |done]; intros Hc.
  - unfold compile_bcj2 in Hc.
    destruct (bcj2_output_size _); [|done]. do 4 (destruct (compile_channel _ _ _ _) in Hc; [|done]).
    destruct (try_fold _ _ _) in Hc; [|done]. destruct (decide _) in Hc; [done|].
    destruct (add_working_sets _ _); [|done]. destruct (WorkingSet_add _ _) in Hc; [|done].
    destruct (ensure_bcj2_working_budget _ _); [|done]. destruct (WorkingSet_add _ _) in Hc; [|done].
    destruct (WorkingSet_admit _ b) as [[m b1]|] eqn:Ea; [|done]. injection Hc as _ <-. exact (admit_ok _ _ _ _ Ea).
  - unfold compile_chain in Hc. destruct packed as [|? [|]]; try done.
    destruct (compile_steps _ _ _ _); [|done]. destruct (bind_sizes _ _); [|done].
    destruct (add_working_sets _ _); [|done].
    destruct (WorkingSet_admit _ b) as [[m b1]|] eqn:Ea; [|done]. injection Hc as _ <-. exact (admit_ok _ _ _ _ Ea).
Qed.

Lemma FolderLayout_bind_stays layout open b r b' :
  FolderLayout_bind (R := R) layout open b = (r, b') → stays b b'.
Proof.
  unfold FolderLayout_bind. destruct (DecoderPlan_compile_with_budget _ _ _ _ _ _) as [[plan b1]|] eqn:Ec;
    intros [= _ <-]; [|done]. by eapply compile_stays.
Qed.

(** A folder that was started: its reader at the first substream. *)
Record started (ready : ReadyFolder R) (active : ActiveFolder (FolderReader R)) : Prop := {
  sd_streams : af_streams active = FolderStreamLayout_streams (rf_layout ready);
  sd_digest : af_digest active = DigestState_new (rf_crc ready);
  sd_decoded : af_decoded_len active = 0;
  sd_size : af_unpack_size active = rf_unpack_size ready;
  sd_bounded : bounded (af_reader active)
}.

Lemma ReadyFolder_start_spec ready b res b' :
  ready_sized (rf_decoder ready) → ReadyFolder_start retries ready password b = (res, b') →
  stays b b' ∧ match res with Ok active => started ready active | Err _ => True end.
Proof.
  intros Hs. unfold ReadyFolder_start.
  set (start := ReadyDecoder_start retries (rf_decoder ready) password).
  assert (∀ r b1, match ReadyDecoder_eager_output_size (rf_decoder ready) with
     | Some size => with_eager_decoded_output b size start | None => start b end = (r, b1) →
     stays b b1 ∧ match r with Ok reader => bounded reader | Err _ => True end) as Hst.
  { intros r b1. destruct (ReadyDecoder_eager_output_size (rf_decoder ready)) as [size|] eqn:Ee.
    - intros Hw. split; [eapply with_eager_stays; [by eapply eager_size_nonneg| |exact Hw];
        intros; by eapply ReadyDecoder_start_stays|].
      unfold with_eager_decoded_output in Hw. destruct (next_decoded b size); [|by injection Hw as <- _].
      destruct (start b) as [[o|] b2] eqn:E; injection Hw as <- _; [|done].
      by eapply ReadyDecoder_start_bounded.
    - intros Hw. split; [by eapply ReadyDecoder_start_stays|]. destruct r; [|done].
      by eapply ReadyDecoder_start_bounded. }
  destruct (match ReadyDecoder_eager_output_size _ with Some _ => _ | None => _ end) as [[reader|] b1];
    destruct (Hst _ _ eq_refl) as [Hstay Hbd]; intros [= <- <-]; (split; [done|]); [|done]. by split.
Qed.

Lemma started_ok ready active b : started ready active → budget_ok b → active_ok active b.
Proof.
  intros [Hs _ Hd _ Hb] Hok. split_and!; [by rewrite Hs, Hd|by rewrite Hs|done|done].
Qed.

End readers.
