(* ===== verification/FileStreams.v ===== *)
(** * File streams (src/src/file_streams.rs)

    The traversal that gives every archive entry its substream: one iterator over the
    file entries, one over the folders and their substreams, advanced together. *)

From stdpp Require Import base numbers list option strings.
From Stdlib Require Import ZArith Lia Sorted.
From S2P Require Import Prelude Folder Error Resources PackInfo StreamInfo FilesInfo Entries FolderDecode DecoderRun FolderRead.

(** ** State *)

Record StreamLocation := {
  loc_folder_index : Z;
  loc_stream_index : Z;
  loc_folder : FolderLayout;
  loc_stream : Substream
}.

(** [streams] is [Enumerate<Substreams>]: [fst_count] is its counter. *)
Record FolderStreams := {
  fst_index : Z;
  fst_folder : FolderLayout;
  fst_streams : Substreams;
  fst_count : Z
}.

(** [folders] is [Option<Enumerate<FolderLayouts>>]. *)
Record StreamLocations := {
  sl_folders : option (Z * FolderPlans);
  sl_current : option FolderStreams
}.

Record FileStreams := {
  fi_entries : Entries;
  fi_streams : StreamLocations;
  fi_pack_pos : Z
}.

Definition FolderLayouts_pack_pos (self : FolderLayouts) : Z := pack_pos (fp_pack_info (fls_plans self)).

(** ** Operations *)

Definition FileStreams_new (files : option FilesInfo) (num_files : Z) (streams : option StreamInfo) :
    result FileStreams R7zError :=
  let entries := Entries_new files num_files in
  let count := Entries_stream_count entries in
  let? folders :=
    match streams with
    | Some streams =>
        match si_unpack_info streams with
        | Some _ => result_map Some (FolderLayouts_for_streams streams)
        | None => Ok None
        end
    | None => Ok None
    end in
  if decide (match folders with Some folders => fls_stream_count folders | None => 0 end ≠ count)
  then Err Parse else
  Ok {| fi_entries := entries;
        fi_streams := {| sl_folders := (λ folders, (0, fls_plans folders)) <$> folders;
                         sl_current := None |};
        fi_pack_pos := match folders with Some folders => FolderLayouts_pack_pos folders | None => 0 end |}.

(** The default [Iterator::nth] over [Substreams::next]. *)
Fixpoint Substreams_nth (n : nat) (self : Substreams) : result (option Substream * Substreams) R7zError :=
  let? (item, self) := Substreams_next self in
  match n, item with
  | S n, Some _ => Substreams_nth n self
  | _, _ => Ok (item, self)
  end.

Section operations.
  Context `{Nom}.

(** One step of the enumerated folders. *)
Definition next_folder (folders : option (Z * FolderPlans)) :
    option (result FolderStreams R7zError) * option (Z * FolderPlans) :=
  match folders with
  | None => (None, None)
  | Some (index, plans) =>
      match FolderPlans_next plans with
      | (None, plans) => (None, Some (index, plans))
      | (Some (Err e), plans) => (Some (Err e), Some (index + 1, plans))
      | (Some (Ok folder), plans) =>
          (Some (Ok {| fst_index := index; fst_folder := folder;
                       fst_streams := FolderStreamLayout_streams (lo_layout folder); fst_count := 0 |}),
           Some (index + 1, plans))
      end
  end.

(** The [find_map] over the folders after the current one: the folder that holds the
    [n]-th substream from here, and what is left of [n]. *)
Fixpoint find_folder (fuel : nat) (n : nat) (folders : option (Z * FolderPlans)) :
    result (option FolderStreams * nat) R7zError * option (Z * FolderPlans) :=
  match fuel with
  | O => (Err R7zOutOfFuel, folders)
  | S fuel =>
      match next_folder folders with
      | (None, folders) => (Ok (None, n), folders)
      | (Some (Err e), folders) => (Err e, folders)
      | (Some (Ok folder), folders) =>
          let len := Z.to_nat (Substreams_len (fst_streams folder)) in
          if decide (len ≤ n)%nat then find_folder fuel (n - len)%nat folders
          else (Ok (Some folder, n), folders)
      end
  end.

Definition folders_fuel (folders : option (Z * FolderPlans)) : nat :=
  match folders with Some (_, plans) => plans_fuel (fp_unpack_info plans) | None => 1 end.

Definition StreamLocations_nth (self : StreamLocations) (n : nat) :
    result StreamLocation R7zError * StreamLocations :=
  let search n := find_folder (folders_fuel (sl_folders self)) n (sl_folders self) in
  let '(found, folders) :=
    match sl_current self with
    | Some folder =>
        let len := Z.to_nat (Substreams_len (fst_streams folder)) in
        if decide (len ≤ n)%nat then search (n - len)%nat
        else (Ok (Some folder, n), sl_folders self)
    | None => search n
    end in
  match found with
  | Err e => (Err e, {| sl_folders := folders; sl_current := None |})
  | Ok (None, _) => (Err Parse, {| sl_folders := folders; sl_current := None |})
  | Ok (Some current, n) =>
      match Substreams_nth n (fst_streams current) with
      | Err e => (Err e, {| sl_folders := folders; sl_current := Some current |})
      | Ok (None, streams) => (Err Parse, {| sl_folders := folders; sl_current := Some current |})
      | Ok (Some stream, streams) =>
          let index := fst_count current + Z.of_nat n in
          (Ok {| loc_folder_index := fst_index current; loc_stream_index := index;
                 loc_folder := fst_folder current; loc_stream := stream |},
           {| sl_folders := folders;
              sl_current := Some {| fst_index := fst_index current; fst_folder := fst_folder current;
                                    fst_streams := streams; fst_count := index + 1 |} |})
      end
  end.

Definition StreamLocations_advance_by (self : StreamLocations) (count : nat) :
    result unit R7zError * StreamLocations :=
  match count with
  | O => (Ok tt, self)
  | S count => let '(r, self) := StreamLocations_nth self count in (result_map (λ _, tt) r, self)
  end.

(** The folders after the last entry have no substreams. *)
Fixpoint finish_folders (fuel : nat) (folders : option (Z * FolderPlans)) : result unit R7zError :=
  match fuel with
  | O => Err R7zOutOfFuel
  | S fuel =>
      match next_folder folders with
      | (None, _) => Ok tt
      | (Some (Err e), _) => Err e
      | (Some (Ok folder), folders) =>
          let? (item, _) := Substreams_next (fst_streams folder) in
          match item with
          | None => finish_folders fuel folders
          | Some _ => Err Parse
          end
      end
  end.

Definition StreamLocations_finish (self : StreamLocations) : result unit R7zError :=
  if match sl_current self with
     | Some folder => bool_decide (Substreams_len (fst_streams folder) ≠ 0)
     | None => false
     end
  then Err Parse
  else finish_folders (folders_fuel (sl_folders self)) (sl_folders self).

Definition set_streams (self : FileStreams) (entries : Entries) (streams : StreamLocations) : FileStreams :=
  {| fi_entries := entries; fi_streams := streams; fi_pack_pos := fi_pack_pos self |}.

Definition FileStreams_next (self : FileStreams) :
    result (option (Entry StreamLocation)) R7zError * FileStreams :=
  match Entries_next (fi_entries self) with
  | (Some entry, entries) =>
      if EntryKind_has_stream (en_kind entry) then
        let '(r, streams) := StreamLocations_nth (fi_streams self) 0 in
        (let? loc := r in result_map Some (Entry_bind entry (λ _, Ok loc)),
         set_streams self entries streams)
      else
        (result_map Some (Entry_bind entry (λ _, Err Parse)),
         set_streams self entries (fi_streams self))
  | (None, entries) =>
      (let? _ := StreamLocations_finish (fi_streams self) in Ok None,
       set_streams self entries (fi_streams self))
  end.

(** Take [n] entries and count those with a stream. *)
Fixpoint skip_entries (n : nat) (entries : Entries) : nat * Entries :=
  match n with
  | O => (O, entries)
  | S n =>
      match Entries_next entries with
      | (None, entries) => (O, entries)
      | (Some entry, entries) =>
          let '(count, entries) := skip_entries n entries in
          ((if EntryKind_has_stream (en_kind entry) then S count else count), entries)
      end
  end.

Definition FileStreams_nth (self : FileStreams) (n : nat) :
    result (option (Entry StreamLocation)) R7zError * FileStreams :=
  let '(skipped_streams, entries) := skip_entries n (fi_entries self) in
  match StreamLocations_advance_by (fi_streams self) skipped_streams with
  | (Err e, streams) => (Err e, set_streams self entries streams)
  | (Ok _, streams) => FileStreams_next (set_streams self entries streams)
  end.

(** [map_all] with the identity: the entries up to the end or the first error. *)
Fixpoint FileStreams_map_all (fuel : nat) (self : FileStreams) :
    result (list (Entry StreamLocation)) R7zError :=
  match fuel with
  | O => Err R7zOutOfFuel
  | S fuel =>
      match FileStreams_next self with
      | (Err e, _) => Err e
      | (Ok None, _) => Ok []
      | (Ok (Some file), self) =>
          let? files := FileStreams_map_all fuel self in Ok (file :: files)
      end
  end.

(** One item of [map_selected]. *)
Definition map_selected_item (self : FileStreams) (index : Z) :
    result (Entry StreamLocation) R7zError * FileStreams :=
  match checked_sub index (it_start (fi_entries self)) with
  | None => (Err Parse, self)
  | Some skip =>
      let '(file, self) := FileStreams_nth self (Z.to_nat skip) in
      (let? file := file in ok_or file Parse, self)
  end.

Fixpoint FileStreams_map_selected (fuel : nat) (self : FileStreams) (selection : EntrySelection) :
    result (list (Entry StreamLocation)) R7zError :=
  match fuel with
  | O => Err R7zOutOfFuel
  | S fuel =>
      match EntrySelection_next selection with
      | (None, _) => Ok []
      | (Some index, selection) =>
          match map_selected_item self index with
          | (Err e, _) => Err e
          | (Ok file, self) =>
              let? files := FileStreams_map_selected fuel self selection in Ok (file :: files)
          end
      end
  end.

End operations.

(** ** Specification *)

(** The locations of some substreams of a folder, from the [count]-th on. *)
Definition locations (index : Z) (folder : FolderLayout) (count : Z) (ss : list Substream) :
    list StreamLocation :=
  imap (λ i s, {| loc_folder_index := index; loc_stream_index := count + Z.of_nat i;
                  loc_folder := folder; loc_stream := s |}) ss.

Definition at_end (st : Substreams) : Prop :=
  sub_position st = FolderStreamLayout_len (sub_layout st).

(** The substreams of the folders from the [index]-th on, one after the other. *)
Inductive located : Z → list FolderLayout → list StreamLocation → Prop :=
| located_nil index : located index [] []
| located_cons index folder folders ss st locs :
    walks (FolderStreamLayout_streams (lo_layout folder)) ss st → at_end st →
    located (index + 1) folders locs →
    located index (folder :: folders) (locations index folder 0 ss ++ locs).

(** ** Lemmas *)

Section lemmas.
  Context `{Nom}.

(** The folders an iterator still has. *)
Inductive lists : FolderPlans → list FolderLayout → Prop :=
| lists_nil plans plans' : FolderPlans_next plans = (None, plans') → lists plans []
| lists_cons plans folder plans' folders :
    FolderPlans_next plans = (Some (Ok folder), plans') → lists plans' folders →
    lists plans (folder :: folders).

Lemma collect_lists fuel plans ls st :
  FolderPlans_collect fuel plans = Ok (ls, st) → lists plans ls ∧ (length ls < fuel)%nat.
Proof.
  revert plans ls. induction fuel as [|fuel IH]; intros plans ls; cbn [FolderPlans_collect]; [done|].
  destruct (FolderPlans_next plans) as [[[l|]|] plans'] eqn:En; [|done|].
  - destruct (FolderPlans_collect fuel plans') as [[tl st2]|] eqn:Ec; [|done]. intros [= <- <-].
    apply IH in Ec as [Hl Hf]. split; [by econstructor|cbn; lia].
  - intros [= <- <-]. split; [by econstructor|cbn; lia].
Qed.

Lemma FolderPlans_next_unpack plans r plans' :
  FolderPlans_next plans = (r, plans') → fp_unpack_info plans' = fp_unpack_info plans.
Proof.
  unfold FolderPlans_next. destruct (fp_finished plans); [by intros [= _ <-]|].
  case_decide; [by intros [= _ <-]|].
  destruct (FolderPlans_next_folder plans) as [[l p]|] eqn:En; [|by intros [= _ <-]].
  intros [= _ <-]. unfold FolderPlans_next_folder in En.
  destruct (UnpackInfo_parse_folder_with_graph _ _) as [[f g]|]; [|done].
  repeat match type of En with
  | (match ?e with Ok _ => _ | Err _ => _ end) = Ok _ => destruct e; [|discriminate En]
  end.
  by injection En as _ <-.
Qed.

(** What the folder iterator of a traversal still has, with its index. *)
Definition folders_have (folders : option (Z * FolderPlans)) (index : Z) (ls : list FolderLayout) : Prop :=
  (length ls < folders_fuel folders)%nat ∧
  match folders with
  | None => ls = []
  | Some (k, plans) => k = index ∧ lists plans ls
  end.

Lemma next_folder_spec folders index ls :
  folders_have folders index ls →
  match ls with
  | [] => ∃ folders', next_folder folders = (None, folders')
  | folder :: ls => ∃ folders', next_folder folders =
      (Some (Ok {| fst_index := index; fst_folder := folder;
                   fst_streams := FolderStreamLayout_streams (lo_layout folder); fst_count := 0 |}),
       folders') ∧ folders_have folders' (index + 1) ls ∧ folders_fuel folders' = folders_fuel folders
  end.
Proof.
  intros [Hf Hl]. unfold next_folder. destruct folders as [[k plans]|]; [|subst ls; by eexists].
  destruct Hl as [-> Hl]. destruct Hl as [plans plans' Hn|plans folder plans' folders Hn Hl].
  - rewrite Hn. by eexists.
  - rewrite Hn. eexists. split; [reflexivity|]. unfold folders_have. cbn [folders_fuel] in *.
    rewrite (FolderPlans_next_unpack _ _ _ Hn). cbn in Hf. split_and!; [lia|done|done|done].
Qed.

Lemma walks_len st ss st' : walks st ss st' → at_end st' →
  sub_position st ≤ FolderStreamLayout_len (sub_layout st) →
  Substreams_len st = zlen ss.
Proof.
  intros Hw He Hle. destruct (walks_spec _ _ _ Hw Hle) as (Hl & Hp & _).
  unfold at_end, Substreams_len in *. rewrite Hl in He. lia.
Qed.

Lemma Substreams_nth_spec st ss st' n s :
  walks st ss st' → ss !! n = Some s →
  ∃ st2, Substreams_nth n st = Ok (Some s, st2) ∧ walks st2 (drop (S n) ss) st' ∧
    (sub_position st ≤ FolderStreamLayout_len (sub_layout st) →
     sub_position st2 ≤ FolderStreamLayout_len (sub_layout st2)).
Proof.
  intros Hw. revert n. induction Hw as [st|st s' st1 ss st2 Hn Hw IH]; intros [|n] Hs; cbn in *; try done.
  - injection Hs as ->. rewrite Hn. exists st1. split_and!; try done.
    apply Substreams_next_spec in Hn as (-> & -> & ? & _). lia.
  - rewrite Hn. destruct (IH _ Hs) as (st3 & ? & ? & Hle). exists st3. split_and!; try done.
    intros. apply Hle. apply Substreams_next_spec in Hn as (-> & -> & ? & _). lia.
Qed.

Lemma locations_lookup index folder count ss n :
  locations index folder count ss !! n =
  (λ s, {| loc_folder_index := index; loc_stream_index := count + Z.of_nat n;
           loc_folder := folder; loc_stream := s |}) <$> ss !! n.
Proof. unfold locations. by rewrite list_lookup_imap. Qed.

Lemma length_locations index folder count ss : length (locations index folder count ss) = length ss.
Proof. apply length_imap. Qed.

Lemma locations_drop index folder count ss n :
  drop n (locations index folder count ss) =
  locations index folder (count + Z.of_nat (Nat.min n (length ss))) (drop n ss).
Proof.
  apply list_eq. intros i. rewrite lookup_drop, !locations_lookup, lookup_drop.
  destruct (ss !! (n + i)%nat) as [s|] eqn:Es; [|done]. cbn. apply lookup_lt_Some in Es.
  do 2 f_equal. lia.
Qed.

(** A folder in progress, and the substreams it still has. *)
Definition current_has (current : option FolderStreams) (locs : list StreamLocation) : Prop :=
  match current with
  | None => locs = []
  | Some cur => ∃ ss st, walks (fst_streams cur) ss st ∧ at_end st ∧
      sub_position (fst_streams cur) ≤ FolderStreamLayout_len (sub_layout (fst_streams cur)) ∧
      locs = locations (fst_index cur) (fst_folder cur) (fst_count cur) ss
  end.

(** The locations a traversal still has to give. *)
Definition remaining (self : StreamLocations) (locs : list StreamLocation) : Prop :=
  ∃ index ls here later, folders_have (sl_folders self) index ls ∧ located index ls later ∧
    current_has (sl_current self) here ∧ locs = here ++ later.

Lemma fresh_current index folder ss st :
  walks (FolderStreamLayout_streams (lo_layout folder)) ss st → at_end st →
  current_has (Some {| fst_index := index; fst_folder := folder;
    fst_streams := FolderStreamLayout_streams (lo_layout folder); fst_count := 0 |})
    (locations index folder 0 ss).
Proof. intros Hw He. exists ss, st. split_and!; [done|done|apply layout_len_nonneg|done]. Qed.

Lemma current_len cur locs :
  current_has (Some cur) locs → Z.to_nat (Substreams_len (fst_streams cur)) = length locs.
Proof.
  intros (ss & st & Hw & He & Hle & ->). rewrite (walks_len _ _ _ Hw He Hle), length_locations.
  unfold zlen. lia.
Qed.

Lemma find_folder_spec fuel n folders index ls later loc :
  folders_have folders index ls → located index ls later → (length ls < fuel)%nat →
  later !! n = Some loc →
  ∃ cur k folders' here later' index' ls',
    find_folder fuel n folders = (Ok (Some cur, k), folders') ∧
    current_has (Some cur) here ∧ folders_have folders' index' ls' ∧ located index' ls' later' ∧
    here !! k = Some loc ∧ drop n later = drop k here ++ later'.
Proof.
  revert n folders index ls later. induction fuel as [|fuel IH]; intros n folders index ls later Hf Hl Hfuel Hloc; [lia|].
  destruct Hl as [index|index folder ls ss st later Hw He Hl]; [done|].
  destruct (next_folder_spec _ _ _ Hf) as (folders' & Hn & Hf' & Hff). cbn [find_folder]. rewrite Hn.
  cbn [fst_streams]. pose proof (fresh_current index folder ss st Hw He) as Hcur.
  pose proof (current_len _ _ Hcur) as Hlen. cbn [fst_streams] in Hlen. rewrite Hlen.
  case_decide as Hd.
  - rewrite lookup_app_r in Hloc by done.
    destruct (IH _ _ _ _ _ Hf' Hl ltac:(cbn in Hfuel; lia) Hloc)
      as (cur & k & f2 & here & later' & i2 & ls2 & ? & ? & ? & ? & ? & Hdrop).
    exists cur, k, f2, here, later', i2, ls2. split_and!; try done.
    by rewrite drop_app_ge by done.
  - rewrite lookup_app_l in Hloc by lia.
    eexists _, n, folders', _, later, (index + 1), ls. split_and!; [reflexivity|exact Hcur|done..|].
    by rewrite drop_app_le by lia.
Qed.

Lemma StreamLocations_nth_spec self locs n loc :
  remaining self locs → locs !! n = Some loc →
  ∃ self', StreamLocations_nth self n = (Ok loc, self') ∧ remaining self' (drop (S n) locs).
Proof.
  intros (index & ls & here & later & Hf & Hl & Hc & ->) Hloc.
  assert (∃ cur k folders' here' later' index' ls',
    (match sl_current self with
     | Some folder => if decide (Z.to_nat (Substreams_len (fst_streams folder)) ≤ n)%nat
         then find_folder (folders_fuel (sl_folders self))
                (n - Z.to_nat (Substreams_len (fst_streams folder)))%nat (sl_folders self)
         else (Ok (Some folder, n), sl_folders self)
     | None => find_folder (folders_fuel (sl_folders self)) n (sl_folders self)
     end) = (Ok (Some cur, k), folders') ∧
    current_has (Some cur) here' ∧ folders_have folders' index' ls' ∧ located index' ls' later' ∧
    here' !! k = Some loc ∧ drop n (here ++ later) = drop k here' ++ later')
    as (cur & k & folders' & here' & later' & i' & ls' & Hfound & Hc' & Hf' & Hl' & Hloc' & Hdrop).
  { destruct (sl_current self) as [cur|].
    - rewrite (current_len _ _ Hc). case_decide as Hd.
      + rewrite lookup_app_r in Hloc by done.
        destruct (find_folder_spec _ _ _ _ _ _ _ Hf Hl (proj1 Hf) Hloc)
          as (cur2 & k & f2 & here2 & later2 & i2 & ls2 & ? & ? & ? & ? & ? & ?).
        exists cur2, k, f2, here2, later2, i2, ls2. split_and!; try done.
        by rewrite drop_app_ge by done.
      + rewrite lookup_app_l in Hloc by lia. exists cur, n, (sl_folders self), here, later, index, ls.
        split_and!; try done. by rewrite drop_app_le by lia.
    - cbn in Hc. subst here.
      destruct (find_folder_spec _ _ _ _ _ _ _ Hf Hl (proj1 Hf) Hloc)
        as (cur2 & k & f2 & here2 & later2 & i2 & ls2 & ? & ? & ? & ? & ? & ?).
      by exists cur2, k, f2, here2, later2, i2, ls2. }
  unfold StreamLocations_nth. cbv zeta. rewrite Hfound.
  destruct Hc' as (ss & st & Hw & He & Hle & ->).
  rewrite locations_lookup in Hloc'. destruct (ss !! k) as [s|] eqn:Es; [|done].
  injection Hloc' as <-. destruct (Substreams_nth_spec _ _ _ _ _ Hw Es) as (st2 & Hnth & Hw2 & Hle2).
  rewrite Hnth. eexists. split; [reflexivity|].
  exists i', ls', (locations (fst_index cur) (fst_folder cur) (fst_count cur + Z.of_nat k + 1) (drop (S k) ss)), later'.
  cbn [sl_folders sl_current]. split_and!; [done|done| |].
  - exists (drop (S k) ss), st. cbn [fst_streams fst_index fst_folder fst_count]. split_and!; try done. by apply Hle2.
  - rewrite <- (Nat.add_1_r n), <- drop_drop, Hdrop. apply lookup_lt_Some in Es.
    rewrite drop_app_le by (rewrite length_drop, length_locations; lia). f_equal.
    rewrite drop_drop, locations_drop. replace (k + 1)%nat with (S k) by lia. f_equal. lia.
Qed.

Lemma located_cons_inv index folder ls locs :
  located index (folder :: ls) locs → ∃ ss st later,
    walks (FolderStreamLayout_streams (lo_layout folder)) ss st ∧ at_end st ∧
    located (index + 1) ls later ∧ locs = locations index folder 0 ss ++ later.
Proof. inversion 1; subst. by do 3 eexists. Qed.

Lemma finish_folders_spec fuel folders index ls :
  folders_have folders index ls → located index ls [] → (length ls < fuel)%nat →
  finish_folders fuel folders = Ok tt.
Proof.
  revert folders index ls. induction fuel as [|fuel IH]; intros folders index ls Hf Hl Hfuel; [lia|].
  cbn [finish_folders]. pose proof (next_folder_spec _ _ _ Hf) as Hn.
  destruct ls as [|folder ls]; [by destruct Hn as (? & ->)|].
  destruct Hn as (folders' & -> & Hf' & _). cbn [fst_streams].
  apply located_cons_inv in Hl as (ss & st & later & Hw & He & Hl & Heq).
  symmetry in Heq. apply app_nil in Heq as [Hss ->].
  assert (ss = []) as ->
    by (apply length_zero_iff_nil; rewrite <- (length_locations index folder 0 ss), Hss; done).
  inversion Hw; subst. unfold Substreams_next. unfold at_end in He. rewrite decide_True by done.
  cbn in Hfuel. eapply IH; [done|done|lia].
Qed.

Lemma StreamLocations_finish_spec self : remaining self [] → StreamLocations_finish self = Ok tt.
Proof.
  intros (index & ls & here & later & Hf & Hl & Hc & Heq). symmetry in Heq. apply app_nil in Heq as [-> ->].
  unfold StreamLocations_finish. destruct (sl_current self) as [cur|].
  - pose proof (current_len _ _ Hc) as Hlen. cbn in Hlen.
    destruct Hc as (ss & st & Hw & He & Hle & _). pose proof (walks_len _ _ _ Hw He Hle) as Hl0.
    rewrite bool_decide_eq_false_2 by (pose proof (zlen_nonneg ss); lia).
    eapply finish_folders_spec; [done|done|apply Hf].
  - eapply finish_folders_spec; [done|done|apply Hf].
Qed.

(** ** Lemmas: entries *)

Definition carries_stream {S} (e : Entry S) : bool := EntryKind_has_stream (en_kind e).

(** The entries an iterator still has. *)
Inductive enum : Entries → list (Entry unit) → Prop :=
| enum_nil self self' : Entries_next self = (None, self') → enum self []
| enum_cons self e self' es : Entries_next self = (Some e, self') → enum self' es → enum self (e :: es).

(** An entry with its stream. *)
Definition with_stream (e : Entry unit) (loc : StreamLocation) : Entry StreamLocation :=
  {| en_metadata := en_metadata e;
     en_kind := match en_kind e with
                | K_File _ => K_File loc
                | K_Symlink _ => K_Symlink loc
                | K_EmptyFile => K_EmptyFile
                | K_EmptySymlink => K_EmptySymlink
                | K_Directory => K_Directory
                | K_Anti => K_Anti
                end |}.
Definition without_stream (e : Entry unit) : Entry StreamLocation :=
  {| en_metadata := en_metadata e;
     en_kind := match en_kind e with
                | K_EmptyFile => K_EmptyFile
                | K_EmptySymlink => K_EmptySymlink
                | K_Directory => K_Directory
                | _ => K_Anti
                end |}.

(** The entries in order, each stream taken by the next entry that has one. *)
Fixpoint bind_entries (es : list (Entry unit)) (locs : list StreamLocation) : list (Entry StreamLocation) :=
  match es with
  | [] => []
  | e :: es =>
      if carries_stream e then
        match locs with
        | loc :: locs => with_stream e loc :: bind_entries es locs
        | [] => []
        end
      else without_stream e :: bind_entries es locs
  end.

Definition stream_entries (es : list (Entry unit)) : nat :=
  length (filter (λ e, carries_stream e = true) es).

Lemma stream_entries_cons e es :
  stream_entries (e :: es) = ((if carries_stream e then 1 else 0) + stream_entries es)%nat.
Proof. unfold stream_entries. rewrite filter_cons. by destruct (carries_stream e). Qed.

(** The state of a traversal: the entries and the streams it still has to join. *)
Record files_have (self : FileStreams) (es : list (Entry unit)) (locs : list StreamLocation) : Prop := {
  fh_entries : enum (fi_entries self) es;
  fh_streams : remaining (fi_streams self) locs;
  fh_count : length locs = stream_entries es
}.

Lemma Entry_bind_with e loc : carries_stream e = true →
  Entry_bind e (λ _, Ok loc) = Ok (with_stream e loc).
Proof. unfold Entry_bind, carries_stream, with_stream. by destruct (en_kind e). Qed.

Lemma Entry_bind_without e (err : R7zError) : carries_stream e = false →
  Entry_bind e (λ _, Err err) = Ok (without_stream e).
Proof. unfold Entry_bind, carries_stream, without_stream. by destruct (en_kind e). Qed.

Lemma length_bind_entries es locs : length locs = stream_entries es → length (bind_entries es locs) = length es.
Proof.
  revert locs. induction es as [|e es IH]; intros locs; [done|]. rewrite stream_entries_cons. cbn.
  destruct (carries_stream e).
  - destruct locs as [|loc locs]; [done|]. cbn. intros [= Hl]. by rewrite IH.
  - intros Hl. cbn. by rewrite IH.
Qed.

Lemma FileStreams_next_spec self es locs :
  files_have self es locs →
  match es with
  | [] => ∃ self', FileStreams_next self = (Ok None, self')
  | e :: es' => ∃ self' locs',
      FileStreams_next self = (Ok (head (bind_entries es locs)), self') ∧
      head (bind_entries es locs) ≠ None ∧
      bind_entries es' locs' = tail (bind_entries es locs) ∧ files_have self' es' locs' ∧
      fi_entries self' = snd (Entries_next (fi_entries self))
  end.
Proof.
  intros [He Hs Hc]. unfold FileStreams_next. destruct He as [ents ents' Hn|ents e ents' es Hn He]; rewrite Hn.
  - destruct locs; [|done]. rewrite (StreamLocations_finish_spec _ Hs). by eexists.
  - rewrite stream_entries_cons in Hc. cbn [bind_entries]. fold (carries_stream e).
    destruct (carries_stream e) eqn:Ek.
    + destruct locs as [|loc locs]; [done|].
      destruct (StreamLocations_nth_spec _ _ 0 loc Hs eq_refl) as (streams & -> & Hs').
      rewrite (Entry_bind_with _ _ Ek). cbn. eexists _, locs. split_and!; try done.
      split; try done. cbn in Hc. lia.
    + rewrite (Entry_bind_without _ _ Ek). cbn. eexists _, locs. split_and!; try done.
Qed.

Lemma FileStreams_map_all_spec fuel self es locs :
  files_have self es locs → (length es < fuel)%nat →
  FileStreams_map_all fuel self = Ok (bind_entries es locs).
Proof.
  revert self es locs. induction fuel as [|fuel IH]; intros self es locs Hf Hl; [lia|].
  cbn [FileStreams_map_all]. pose proof (FileStreams_next_spec _ _ _ Hf) as Hn.
  destruct es as [|e es]; [by destruct Hn as (? & ->)|].
  destruct Hn as (self' & locs' & -> & Hne & Htl & Hf' & _).
  destruct (bind_entries (e :: es) locs) as [|x xs]; [done|]. cbn [head].
  cbn in Hl. rewrite (IH _ _ _ Hf') by lia. cbn in Htl. by rewrite Htl.
Qed.

Lemma enum_drop n ents es : enum ents es → enum (snd (skip_entries n ents)) (drop n es).
Proof.
  revert ents es. induction n as [|n IH]; intros ents es He; [done|]. cbn [skip_entries].
  destruct He as [ents ents' Hn|ents e ents' es Hn He]; rewrite Hn.
  - cbn. unfold Entries_next, Entries_nth in Hn.
    destruct (decide _) as [|Hd] in Hn; [by destruct (match it_names ents with None => _ | Some _ => _ end)|].
    injection Hn as <-. apply (enum_nil _ (snd (Entries_next {| it_files := it_files ents; it_start := it_end ents;
      it_end := it_end ents; it_names := it_names ents |}))).
    unfold Entries_next, Entries_nth. cbn [it_start it_end]. rewrite decide_False by lia. done.
  - destruct (skip_entries n ents') as [count ents2] eqn:Es. cbn [snd drop].
    specialize (IH ents' es He). by rewrite Es in IH.
Qed.

Lemma skip_entries_count n ents es :
  enum ents es → fst (skip_entries n ents) = stream_entries (take n es).
Proof.
  revert ents es. induction n as [|n IH]; intros ents es He; [done|]. cbn [skip_entries].
  destruct He as [ents ents' Hn|ents e ents' es Hn He]; rewrite Hn; [done|].
  specialize (IH ents' es He). destruct (skip_entries n ents') as [count ents2]. cbn [fst take] in *.
  rewrite stream_entries_cons, IH. unfold carries_stream. by destruct (EntryKind_has_stream _).
Qed.

Lemma stream_entries_split n es :
  stream_entries es = (stream_entries (take n es) + stream_entries (drop n es))%nat.
Proof.
  unfold stream_entries. rewrite <- (take_drop n es) at 1. by rewrite filter_app, length_app.
Qed.

Lemma bind_entries_drop n es locs :
  length locs = stream_entries es →
  bind_entries (drop n es) (drop (stream_entries (take n es)) locs) = drop n (bind_entries es locs).
Proof.
  revert es locs. induction n as [|n IH]; intros es locs Hl; [by rewrite !drop_0|].
  destruct es as [|e es]; [by destruct locs|]. cbn [take drop]. rewrite stream_entries_cons in *.
  cbn [bind_entries]. destruct (carries_stream e).
  - destruct locs as [|loc locs]; [done|]. cbn in Hl |- *. apply IH. lia.
  - cbn in Hl |- *. by apply IH.
Qed.

Lemma advance_by_spec self locs n :
  remaining self locs → (n ≤ length locs)%nat →
  ∃ self', StreamLocations_advance_by self n = (Ok tt, self') ∧ remaining self' (drop n locs).
Proof.
  intros Hr Hn. destruct n as [|n]; [by exists self; rewrite drop_0|]. cbn [StreamLocations_advance_by].
  destruct (lookup_lt_is_Some_2 locs n) as [loc Hloc]; [lia|].
  destruct (StreamLocations_nth_spec _ _ _ _ Hr Hloc) as (self' & -> & Hr'). by exists self'.
Qed.

(** Skipping gives the state after the skipped entries and their streams. *)
Lemma FileStreams_nth_spec self n es locs :
  files_have self es locs →
  ∃ self' locs', FileStreams_nth self n = (Ok (bind_entries es locs !! n), self') ∧
    ((n < length es)%nat → files_have self' (drop (S n) es) locs' ∧
       bind_entries (drop (S n) es) locs' = drop (S n) (bind_entries es locs) ∧
       fi_entries self' = snd (Entries_next (snd (skip_entries n (fi_entries self))))).
Proof.
  intros [He Hs Hc]. unfold FileStreams_nth.
  pose proof (enum_drop n _ _ He) as He'. pose proof (skip_entries_count n _ _ He) as Hcount.
  destruct (skip_entries n (fi_entries self)) as [count ents]. cbn [fst snd] in *. subst count.
  destruct (advance_by_spec _ _ (stream_entries (take n es)) Hs) as (streams & -> & Hs').
  { rewrite Hc, (stream_entries_split n es). lia. }
  assert (files_have (set_streams self ents streams) (drop n es) (drop (stream_entries (take n es)) locs)) as Hf.
  { split; try done. rewrite length_drop, Hc, (stream_entries_split n es). lia. }
  pose proof (FileStreams_next_spec _ _ _ Hf) as Hn.
  pose proof (bind_entries_drop n es locs Hc) as Hdrop.
  destruct (drop n es) as [|e es'] eqn:Ed.
  - destruct Hn as (self' & ->). exists self', []. split.
    + rewrite lookup_ge_None_2; [done|]. rewrite length_bind_entries by done.
      assert (length (drop n es) = 0%nat) as H0 by by rewrite Ed. rewrite length_drop in H0. lia.
    + intros Hlt. assert (length (drop n es) = 0%nat) as H0 by by rewrite Ed. rewrite length_drop in H0. lia.
  - destruct Hn as (self' & locs' & -> & Hne & Htl & Hf' & Hent). rewrite Hdrop in *.
    exists self', locs'. split.
    + by rewrite head_lookup, lookup_drop, Nat.add_0_r.
    + intros _. assert (drop (S n) es = es') as ->.
      { replace (S n) with (n + 1)%nat by lia. rewrite <- drop_drop, Ed. done. }
      split_and!; [done| |done]. rewrite Htl.
      replace (S n) with (n + 1)%nat by lia. rewrite <- drop_drop.
      by destruct (drop n (bind_entries es locs)).
Qed.

Lemma skip_entries_start n ents es :
  enum ents es → (n ≤ length es)%nat →
  it_start (snd (skip_entries n ents)) = it_start ents + Z.of_nat n.
Proof.
  revert ents es. induction n as [|n IH]; intros ents es He Hn; [cbn; lia|]. cbn [skip_entries].
  destruct He as [|ents e ents' es Hne He]; [cbn in Hn; lia|]. rewrite Hne. cbn in Hn.
  specialize (IH ents' es He ltac:(lia)). destruct (skip_entries n ents') as [count ents2]. cbn [snd] in *.
  rewrite IH. unfold Entries_next, Entries_nth in Hne. destruct (decide _) as [Hd|] in Hne; [|done].
  assert (it_start ents' = it_start ents + 1) as ->; [|lia].
  destruct (match it_names ents with None => _ | Some _ => _ end). injection Hne as _ <-. cbn. lia.
Qed.

Lemma enum_start ents e es : enum ents (e :: es) → it_start (snd (Entries_next ents)) = it_start ents + 1.
Proof.
  intros He. pose proof (skip_entries_start 1 ents (e :: es) He ltac:(cbn; lia)) as Hs.
  cbn [skip_entries] in Hs. inversion He as [|? ? ents' ? Hn _]; subst. rewrite Hn in Hs |- *. exact Hs.
Qed.

(** One entry per index, with the kinds the stream count counts. *)
Lemma enum_entries ents n :
  it_end ents = it_start ents + Z.of_nat n →
  ∃ es, enum ents es ∧ length es = n ∧ Entries_collect n ents = es ∧
    Z.of_nat (stream_entries es) = Entries_stream_count ents.
Proof.
  revert ents. induction n as [|n IH]; intros ents Hn.
  - exists []. split_and!; [|done|done|].
    + eapply enum_nil. unfold Entries_next, Entries_nth. rewrite decide_False by lia. reflexivity.
    + unfold Entries_stream_count. by replace (it_end ents - it_start ents) with 0 by lia.
  - destruct (Entries_next ents) as [item ents'] eqn:En. pose proof En as En'.
    unfold Entries_next, Entries_nth in En'. rewrite decide_True in En' by lia.
    destruct (match it_names ents with None => _ | Some _ => _ end) as [name names].
    rewrite Z.add_0_r in En'. injection En' as <- <-.
    destruct (IH {| it_files := it_files ents; it_start := it_start ents + 1; it_end := it_end ents; it_names := names |})
      as (es & He & Hl & Hc & Hs); [cbn; lia|].
    exists (entry_at ents (it_start ents) name :: es). split_and!.
    + by econstructor.
    + cbn. by rewrite Hl.
    + cbn [Entries_collect]. rewrite En. by rewrite Hc.
    + rewrite stream_entries_cons, Nat2Z.inj_add, Hs. unfold Entries_stream_count, carries_stream.
      cbn [it_start it_end en_kind entry_at]. rewrite (seqZ_cons (it_start ents)) by lia.
      rewrite filter_cons. replace (Z.succ (it_start ents)) with (it_start ents + 1) by lia.
      replace (Z.pred (it_end ents - it_start ents)) with (it_end ents - (it_start ents + 1)) by lia.
      change (Entries_kind {| it_files := it_files ents; it_start := it_start ents + 1; it_end := it_end ents; it_names := names |})
        with (Entries_kind ents).
      destruct (EntryKind_has_stream (Entries_kind ents (it_start ents))).
      * rewrite decide_True by done. rewrite zlen_cons. lia.
      * rewrite decide_False by done. lia.
Qed.

(** Selected entries, in increasing order from [pos] on. *)
Lemma map_selected_spec fuel self sel pos es locs items :
  files_have self es locs → bind_entries es locs = drop pos items →
  it_start (fi_entries self) = Z.of_nat pos → length es = (length items - pos)%nat →
  StronglySorted Z.lt (EntrySelection_collect fuel sel) →
  Forall (λ i, Z.of_nat pos ≤ i < zlen items) (EntrySelection_collect fuel sel) →
  (length (EntrySelection_collect fuel sel) < fuel)%nat →
  ∃ out, FileStreams_map_selected fuel self sel = Ok out ∧
    Forall2 (λ i e, items !! Z.to_nat i = Some e) (EntrySelection_collect fuel sel) out.
Proof.
  revert self sel pos es locs. induction fuel as [|fuel IH];
    intros self sel pos es locs Hf Hb Hst Hlen Hsort Hrange Hfuel; cbn [EntrySelection_collect FileStreams_map_selected] in *.
  { cbn in Hfuel. lia. }
  destruct (EntrySelection_next sel) as [[index|] sel']; [|by exists []].
  apply StronglySorted_inv in Hsort as [Hsort Hall]. apply Forall_cons in Hrange as [Hi Hrange].
  unfold map_selected_item, checked_sub. rewrite Hst, decide_True by lia.
  set (skip := Z.to_nat (index - Z.of_nat pos)).
  assert (Z.to_nat index = (pos + skip)%nat) as Hidx by lia.
  destruct (FileStreams_nth_spec self skip es locs Hf) as (self' & locs' & -> & Hnext).
  unfold zlen in Hi. rewrite Hb, lookup_drop, <- Hidx.
  destruct (lookup_lt_is_Some_2 items (Z.to_nat index)) as [e He]; [lia|]. rewrite He. cbn [ok_or].
  destruct Hnext as (Hf' & Hb' & Hent); [lia|].
  destruct (IH self' sel' (S (pos + skip))%nat (drop (S skip) es) locs' Hf') as (out & -> & Hout).
  - rewrite Hb', Hb, drop_drop. f_equal. lia.
  - rewrite Hent. pose proof (enum_drop skip _ _ (fh_entries _ _ _ Hf)) as Hd.
    destruct (drop skip es) as [|x xs] eqn:Ed.
    { assert (length (drop skip es) = 0%nat) as H0 by by rewrite Ed. rewrite length_drop in H0. lia. }
    rewrite (enum_start _ _ _ Hd), (skip_entries_start _ _ _ (fh_entries _ _ _ Hf)), Hst by lia. lia.
  - rewrite length_drop. lia.
  - done.
  - apply Forall_forall. intros i Hin. rewrite Forall_forall in Hrange, Hall.
    specialize (Hrange i Hin). specialize (Hall i Hin). lia.
  - cbn in Hfuel. lia.
  - exists (e :: out). split; [done|]. by constructor.
Qed.

(** The substreams of a folder, walked to the end. *)
Lemma layout_walks layout n out :
  Substreams_collect (S (Z.to_nat n)) (FolderStreamLayout_streams layout) = Ok out → zlen out = n →
  ∃ st, walks (FolderStreamLayout_streams layout) out st ∧ at_end st ∧ FolderStreamLayout_len layout = n.
Proof.
  intros Hc Hn. destruct (collect_walks _ _ _ Hc) as (st & Hw & Hend).
  destruct Hend as [st2 Hend]; [unfold zlen in Hn; lia|]. exists st.
  destruct (walks_spec _ _ _ Hw (layout_len_nonneg layout)) as (Hl & Hp & Hle).
  change (sub_layout (FolderStreamLayout_streams layout)) with layout in *.
  change (sub_position (FolderStreamLayout_streams layout)) with 0 in Hp.
  apply next_none_end in Hend; [|rewrite Hp; pose proof (zlen_nonneg out); lia|by rewrite Hl].
  split_and!; [done|done|]. rewrite Hl in Hend. lia.
Qed.

Lemma located_exists index ls ns :
  Forall2 (λ l n, ∃ out, Substreams_collect (S (Z.to_nat n)) (FolderStreamLayout_streams (lo_layout l)) = Ok out ∧
                         zlen out = n) ls (ns : list Z) →
  ∃ locs, located index ls locs ∧ zlen locs = sum_z ns.
Proof.
  intros Hf. revert index. induction Hf as [|l n ls ns (out & Hc & Hn) _ IH]; intros index.
  { exists []. split; [constructor|done]. }
  destruct (layout_walks _ _ _ Hc Hn) as (st & Hw & He & _). destruct (IH (index + 1)) as (locs & Hl & Hz).
  exists (locations index l 0 out ++ locs). split; [by econstructor|].
  rewrite zlen_app, Hz. unfold zlen. rewrite length_locations. unfold zlen in Hn. unfold sum_z. cbn. lia.
Qed.

Lemma substream_count_sum sub ns total :
  substream_count (zlen ns) sub = Ok total →
  (∀ k n, ns !! k = Some n → stream_count_of sub k = Some n) → total = sum_z ns.
Proof.
  unfold substream_count, stream_count_of. destruct sub as [info|].
  - case_decide as Hl; [|done]. intros Ht Hn.
    assert (num_unpack_streams_per_folder info = ns) as Hns.
    { symmetry. apply list_eq_same_length with (length ns); [unfold zlen in Hl; lia|done|].
      intros k x y _ Hx Hy. specialize (Hn _ _ Hx). congruence. }
    rewrite Hns in Ht. clear Hns Hl Hn.
    assert (∀ acc, try_fold (λ total count, let? count := ok_or (usize_try_from count) Parse in
      ok_or (checked_add total count) Parse) acc ns = Ok total → total = acc + sum_z ns) as Hacc; [|by rewrite (Hacc 0 Ht)].
    clear Ht. induction ns as [|n ns IH]; intros acc; cbn [try_fold].
    + intros [= ->]. unfold sum_z. cbn. lia.
    + unfold usize_try_from. case_decide; [|done]. cbn [ok_or]. unfold checked_add. case_decide; [|done].
      cbn [ok_or]. intros Ht%IH. unfold sum_z in *. cbn. lia.
  - intros [= <-] Hn. induction ns as [|n ns IH]; [done|].
    pose proof (Hn 0%nat n eq_refl) as [= <-]. rewrite zlen_cons, IH by (intros k; apply (Hn (S k))).
    unfold sum_z. cbn. lia.
Qed.

Lemma sorted_strict (l : list Z) : Sorted Z.le l → NoDup l → StronglySorted Z.lt l.
Proof.
  intros Hs. apply Sorted_StronglySorted in Hs; [|intros x y z; lia].
  induction Hs as [|x l Hs IH Hx]; intros Hd; [constructor|].
  apply NoDup_cons in Hd as [Hx' Hd]. constructor; [by apply IH|].
  apply Forall_forall. intros y Hy. rewrite Forall_forall in Hx. specialize (Hx y Hy).
  assert (x ≠ y) by by intros ->. lia.
Qed.

(** A new traversal has every entry and every substream to join. *)
Lemma FileStreams_new_spec files n streams pack unpack ls st fs :
  StreamInfo_packed_folders streams = Ok (pack, unpack) →
  FolderPlans_collect (plans_fuel unpack) (FolderPlans_new pack unpack (si_substream_info streams)) = Ok (ls, st) →
  Forall is_u64 (unpack_sizes unpack) →
  (∀ info, si_substream_info streams = Some info → Forall is_u64 (substream_sizes info)) →
  FileStreams_new files (Z.of_nat n) (Some streams) = Ok fs →
  let es := Entries_collect n (Entries_new files (Z.of_nat n)) in
  fi_entries fs = Entries_new files (Z.of_nat n) ∧ length es = n ∧
  ∃ locs, located 0 ls locs ∧ files_have fs es locs.
Proof.
  intros Hp Hc Hu Hs Hnew es.
  assert (∃ ns, length ns = length ls ∧ ∀ k l nk, ls !! k = Some l → ns !! k = Some nk →
    stream_count_of (si_substream_info streams) k = Some nk ∧
    ∃ out, Substreams_collect (S (Z.to_nat nk)) (FolderStreamLayout_streams (lo_layout l)) = Ok out ∧
           zlen out = nk) as (ns & Hnl & Hns).
  { exists (map (λ l, FolderStreamLayout_len (lo_layout l)) ls). rewrite length_map. split; [done|].
    intros k l nk Hk Hnk.
    destruct (folder_substreams_collect _ _ _ _ _ _ _ _ Hc Hu Hs Hk) as (m & out & Hm & Hout & Hz & _).
    destruct (layout_walks _ _ _ Hout Hz) as (? & _ & _ & Hlen).
    rewrite list_lookup_fmap, Hk in Hnk. injection Hnk as <-. rewrite Hlen. split; [done|]. by exists out. }
  destruct (located_exists 0 ls ns) as (locs & Hloc & Hz).
  { apply Forall2_same_length_lookup. split; [done|]. intros k l nk Hk Hnk. by eapply Hns. }
  destruct (collect_lists _ _ _ _ Hc) as [Hlists Hfuel].
  pose proof (FolderPlans_collect_complete _ _ _ _ [] _ _ _ (plans_at_new _ _ _) eq_refl Hc) as [Hcomp _].
  cbn [app] in Hcomp. destruct (pc_folders _ _ _ _ Hcomp) as [_ Hcount].
  destruct (enum_entries (Entries_new files (Z.of_nat n)) n ltac:(cbn; lia)) as (es' & He & Hle & Hec & Hsc).
  assert (es' = es) as -> by by rewrite <- Hec.
  unfold FileStreams_new, FolderLayouts_for_streams in Hnew. rewrite Hp in Hnew.
  unfold StreamInfo_packed_folders in Hp. destruct (si_pack_info streams) as [p|], (si_unpack_info streams) as [u|]; try done.
  injection Hp as -> ->. destruct (decide _) as [|_] in Hnew; [done|].
  destruct (substream_count _ _) as [total|] eqn:Et in Hnew; [|done]. cbn in Hnew.
  rewrite <- Hcount in Et. replace (zlen ls) with (zlen ns) in Et by (unfold zlen; lia).
  apply substream_count_sum in Et as ->.
  2: { intros k nk Hk. destruct (lookup_lt_is_Some_2 ls k) as [l Hl]; [apply lookup_lt_Some in Hk; lia|].
       by eapply Hns. }
  destruct (decide _) as [|Hd] in Hnew; [done|]. injection Hnew as <-. split_and!; [done|done|].
  exists locs. split; [done|]. split; cbn [fi_entries fi_streams].
  - done.
  - exists 0, ls, [], locs. split_and!; [|done|done|done]. split; [exact Hfuel|]. by cbn.
  - apply dec_stable in Hd. rewrite Hd, <- Hsc in Hz. unfold zlen in Hz. lia.
Qed.

End lemmas.

(** ** Property *)

(** Every entry with a stream gets the next substream of the folders, in order.
    For stream descriptors whose folders iterate to the end, a traversal that is
    accepted joins the file entries with the substreams of all folders: the whole
    traversal returns one entry per file, [nth] returns the entry at that position, and
    a traversal over a selection returns the selected entries in increasing order. *)
Theorem file_streams_in_order `{Nom} files n streams pack unpack ls st fs :
  StreamInfo_packed_folders streams = Ok (pack, unpack) →
  FolderPlans_collect (plans_fuel unpack) (FolderPlans_new pack unpack (si_substream_info streams)) = Ok (ls, st) →
  Forall is_u64 (unpack_sizes unpack) →
  (∀ info, si_substream_info streams = Some info → Forall is_u64 (substream_sizes info)) →
  FileStreams_new files (Z.of_nat n) (Some streams) = Ok fs →
  let es := Entries_collect n (Entries_new files (Z.of_nat n)) in
  ∃ locs, located 0 ls locs ∧ length locs = stream_entries es ∧
    let items := bind_entries es locs in
    length items = n ∧
    FileStreams_map_all (S n) fs = Ok items ∧
    (∀ k, fst (FileStreams_nth fs k) = Ok (items !! k)) ∧
    ∀ indices sel, indices ≠ [] → Forall (λ i, 0 ≤ i) indices →
      EntrySelection_new (Some indices) (Z.of_nat n) = Ok sel →
      ∃ sorted out, sorted ≡ₚ indices ∧ StronglySorted Z.lt sorted ∧
        FileStreams_map_selected (S (length indices)) fs sel = Ok out ∧
        Forall2 (λ i e, items !! Z.to_nat i = Some e) sorted out.
Proof.
  intros Hp Hc Hu Hs Hnew es.
  destruct (FileStreams_new_spec _ _ _ _ _ _ _ _ Hp Hc Hu Hs Hnew) as (Hent & Hlen & locs & Hloc & Hf).
  fold es in Hlen, Hf. pose proof (fh_count _ _ _ Hf) as Hcount. exists locs.
  pose proof (length_bind_entries es locs Hcount) as Hitems.
  split_and!; [done|done|]. intros items. split_and!; [unfold items; lia| | |].
  - apply FileStreams_map_all_spec; [done|lia].
  - intros k. by destruct (FileStreams_nth_spec fs k es locs Hf) as (self' & locs' & -> & _).
  - intros indices sel Hne Hpos Hsel.
    destruct (proj1 (EntrySelection_new_spec indices (Z.of_nat n) Hne) (ex_intro _ _ Hsel)) as [Hnd Hin].
    destruct (EntrySelection_collect_spec (S (length indices)) _ _ _ Hsel) as (Hsort & Hperm & _); [lia|].
    assert (StronglySorted Z.lt (EntrySelection_collect (S (length indices)) sel)) as Hstrong.
    { apply sorted_strict; [done|]. by rewrite Hperm. }
    destruct (map_selected_spec (S (length indices)) fs sel 0 es locs (bind_entries es locs) Hf) as (out & Hout & Hf2).
    + by rewrite drop_0.
    + by rewrite Hent.
    + lia.
    + done.
    + rewrite Hperm. apply Forall_forall. intros i Hi. rewrite Forall_forall in Hpos, Hin.
      specialize (Hpos i Hi). specialize (Hin i Hi). unfold zlen. lia.
    + rewrite Hperm. lia.
    + by exists (EntrySelection_collect (S (length indices)) sel), out.
Qed.

(** ** Witness *)

Definition sample_streams : StreamInfo :=
  {| si_pack_info := Some sample_pack; si_unpack_info := Some sample_unpack;
     si_substream_info := Some sample_sub |}.
Definition sample_traversal : result FileStreams R7zError := FileStreams_new None 3 (Some sample_streams).
Definition sample_start : FileStreams :=
  from_option id {| fi_entries := Entries_new None 3; fi_streams := {| sl_folders := None; sl_current := None |};
                    fi_pack_pos := 0 |} (result_ok sample_traversal).

Lemma file_streams_in_order_witness :
  ∃ items, FileStreams_map_all 4 sample_start = Ok items ∧ length items = 3%nat ∧
    map (λ e, match en_kind e with
              | K_File loc => (loc_folder_index loc, loc_stream_index loc, br_start (ss_range (loc_stream loc)))
              | _ => (-1, -1, -1) end) items
    = [(0, 0, 0); (0, 1, 4); (1, 0, 0)].
Proof.
  destruct (file_streams_in_order None 3 sample_streams sample_pack sample_unpack sample_layouts sample_state
    sample_start) as (locs & _ & _ & Hn & Hall & _).
  - reflexivity.
  - vm_compute. reflexivity.
  - repeat constructor; vm_compute; done.
  - intros info [= <-]. repeat constructor; vm_compute; done.
  - vm_compute. reflexivity.
  - eexists. split; [exact Hall|]. split; [exact Hn|].
    assert (Ok (bind_entries (Entries_collect 3 (Entries_new None (Z.of_nat 3))) locs)
            = FileStreams_map_all 4 sample_start) as E by by rewrite Hall.
    vm_compute in E |- *. injection E as ->. reflexivity.
Defined.
