(* ===== verification/Locations.v ===== *)
(** * Locations of a traversal (src/src/file_streams.rs)

    Whatever becomes of a traversal, every location it has handed out is a substream of
    the folder with its index: the folders are those its plan gives, one after the other,
    whether or not the iteration would get to the end. *)

From stdpp Require Import base numbers list option strings.
From Stdlib Require Import ZArith Lia.
From S2P Require Import Prelude Folder Error Resources PackInfo StreamInfo FilesInfo Entries FolderDecode DecoderRun FolderRead FolderBounds FileStreams.

Section locations.
  Context `{Nom}.

(** ** The folders of a plan *)

(** [plans] after [k] items. *)
Inductive advances : FolderPlans → Z → FolderPlans → Prop :=
| advances_refl plans : advances plans 0 plans
| advances_next plans k plans1 r plans2 :
    advances plans k plans1 → FolderPlans_next plans1 = (Some r, plans2) → advances plans (k + 1) plans2.

(** The [k]-th folder of a plan. *)
Definition folder_of (plans : FolderPlans) (k : Z) (folder : FolderLayout) : Prop :=
  ∃ plans1 plans2, advances plans k plans1 ∧ FolderPlans_next plans1 = (Some (Ok folder), plans2).

Lemma advances_nonneg plans k plans' : advances plans k plans' → 0 ≤ k.
Proof. induction 1; lia. Qed.

Lemma advances_unique plans k a b : advances plans k a → advances plans k b → a = b.
Proof.
  intros Ha. revert b. induction Ha as [plans|plans k a1 r a2 Ha IH Hn]; intros b Hb.
  - remember 0 as k eqn:E. destruct Hb as [|plans k b1 r b2 Hb _]; [done|].
    apply advances_nonneg in Hb. lia.
  - remember (k + 1) as k1 eqn:E. destruct Hb as [|plans k' b1 r' b2 Hb Hn'].
    + apply advances_nonneg in Ha. lia.
    + assert (k' = k) as -> by lia. apply IH in Hb as <-. congruence.
Qed.

Lemma folder_of_unique plans k a b : folder_of plans k a → folder_of plans k b → a = b.
Proof.
  intros (a1 & a2 & Ha & Hna) (b1 & b2 & Hb & Hnb).
  pose proof (advances_unique _ _ _ _ Ha Hb) as <-. congruence.
Qed.

(** The fields of the descriptors are 64-bit integers. *)
Record plans_sized (plans : FolderPlans) : Prop := {
  pz_index : 0 ≤ fp_folder_index plans;
  pz_offset : fp_pack_offset plans ≤ u64_max;
  pz_packed : Forall is_u64 (pack_size (fp_pack_info plans));
  pz_unpack : Forall is_u64 (unpack_sizes (fp_unpack_info plans))
}.

Lemma next_sized plans r plans' :
  plans_sized plans → FolderPlans_next plans = (r, plans') →
  plans_sized plans' ∧ match r with Some (Ok folder) => layout_sized folder | _ => True end.
Proof.
  intros [Hi Ho Hp Hu]. unfold FolderPlans_next.
  assert (plans_sized (FolderPlans_finish plans)) as Hfin by by split.
  destruct (fp_finished plans); [by intros [= <- <-]|]. case_decide.
  { destruct (FolderPlans_validate_complete plans); by intros [= <- <-]. }
  destruct (FolderPlans_next_folder plans) as [[l p]|] eqn:En; [|by intros [= <- <-]]. intros [= <- <-].
  apply next_folder_inv in En; [|done..]. cbv zeta in En.
  destruct En as (n & _ & _ & _ & Hps & _ & _ & _ & Hoff & _ & Hcs & Hus & _ & _ & _ & _ & _ & Hpi & Hui & _ & Hfi & _).
  pose proof (get_range_Forall _ _ _ _ _ Hps Hp). pose proof (get_range_Forall _ _ _ _ _ Hcs Hu) as Hc.
  split; split; rewrite ?Hpi, ?Hui; try done; [lia|]. by eapply Forall_lookup_1 in Hus.
Qed.

Lemma advances_sized plans k plans' : plans_sized plans → advances plans k plans' → plans_sized plans'.
Proof. intros Hs. induction 1 as [|plans k p1 r p2 _ IH Hn]; [done|]. by eapply next_sized; [apply IH|]. Qed.

Lemma folder_of_sized plans k folder : plans_sized plans → folder_of plans k folder → layout_sized folder.
Proof.
  intros Hs (p1 & p2 & Ha & Hn). exact (proj2 (next_sized _ _ _ (advances_sized _ _ _ Hs Ha) Hn)).
Qed.

(** ** Locations *)

Section plan.
  Context (plans : FolderPlans).

(** The substreams of a folder up to its [n]-th. *)
Definition stream_at (folder : FolderLayout) (n : Z) (st : Substreams) : Prop :=
  ∃ ss, walks (FolderStreamLayout_streams (lo_layout folder)) ss st ∧ zlen ss = n.

(** A location of the plan: the [loc_stream_index]-th substream of the [loc_folder_index]-th folder. *)
Record location_ok (loc : StreamLocation) : Prop := {
  lk_folder : folder_of plans (loc_folder_index loc) (loc_folder loc);
  lk_stream : ∃ st st', stream_at (loc_folder loc) (loc_stream_index loc) st ∧
    Substreams_next st = Ok (Some (loc_stream loc), st')
}.

Definition folders_ok (folders : option (Z * FolderPlans)) : Prop :=
  match folders with Some (k, p) => advances plans k p ∨ fp_finished p = true | None => True end.

Definition current_ok (cur : FolderStreams) : Prop :=
  folder_of plans (fst_index cur) (fst_folder cur) ∧ stream_at (fst_folder cur) (fst_count cur) (fst_streams cur).

Definition locations_ok (self : StreamLocations) : Prop :=
  folders_ok (sl_folders self) ∧ match sl_current self with Some cur => current_ok cur | None => True end.

Lemma next_finished p r p' :
  FolderPlans_next p = (r, p') → match r with Some (Ok _) => True | _ => fp_finished p' = true end.
Proof.
  unfold FolderPlans_next. destruct (fp_finished p) eqn:Ef; [by intros [= <- <-]|].
  case_decide; [destruct (FolderPlans_validate_complete p); by intros [= <- <-]|].
  destruct (FolderPlans_next_folder p) as [[l p1]|]; by intros [= <- <-].
Qed.

Lemma next_folder_ok folders r folders' :
  folders_ok folders → next_folder folders = (r, folders') →
  folders_ok folders' ∧ match r with Some (Ok cur) => current_ok cur | _ => True end.
Proof.
  unfold folders_ok, next_folder. destruct folders as [[k p]|]; [|by intros _ [= <- <-]]. intros Ha.
  destruct (FolderPlans_next p) as [o p'] eqn:En. pose proof (next_finished _ _ _ En) as Hf.
  destruct o as [[folder|e]|]; intros [= <- <-]; [|by auto..].
  destruct Ha as [Ha|Hp].
  - split; [left; by econstructor|]. split; [by exists p, p'|]. exists []. split; [constructor|done].
  - unfold FolderPlans_next in En. by rewrite Hp in En.
Qed.

Lemma find_folder_ok fuel n folders r folders' :
  folders_ok folders → find_folder fuel n folders = (r, folders') →
  folders_ok folders' ∧ match r with Ok (Some cur, _) => current_ok cur | _ => True end.
Proof.
  revert n folders. induction fuel as [|fuel IH]; intros n folders Hf; cbn [find_folder]; [by intros [= <- <-]|].
  destruct (next_folder folders) as [o folders1] eqn:En. destruct (next_folder_ok _ _ _ Hf En) as [Hf1 Hc].
  destruct o as [[cur|e]|]; [|by intros [= <- <-]..]. cbv zeta.
  case_decide; [by apply IH|by intros [= <- <-]].
Qed.

Lemma Substreams_nth_ok folder k n st r st' :
  stream_at folder k st → Substreams_nth n st = Ok (Some r, st') →
  stream_at folder (k + Z.of_nat n + 1) st' ∧
  ∃ st1, stream_at folder (k + Z.of_nat n) st1 ∧ Substreams_next st1 = Ok (Some r, st').
Proof.
  assert (Hnext : ∀ k st s st1, stream_at folder k st → Substreams_next st = Ok (Some s, st1) →
    stream_at folder (k + 1) st1).
  { intros k' st1 s st2 (ss & Hw & <-) Hn. exists (ss ++ [s]). rewrite zlen_app. split; [|done].
    eapply walks_app; [exact Hw|]. econstructor; [exact Hn|constructor]. }
  revert k st. induction n as [|n IH]; intros k st Hs; cbn [Substreams_nth].
  - destruct (Substreams_next st) as [[[s|] st1]|] eqn:En; [| |done]; intros [= <- <-].
    rewrite Z.add_0_r. split; [by eapply Hnext|by exists st].
  - destruct (Substreams_next st) as [[[s|] st1]|] eqn:En; [|done..]. intros Hr.
    destruct (IH _ _ (Hnext _ _ _ _ Hs En) Hr) as (H1 & st2 & H2 & H3).
    replace (k + Z.of_nat (S n)) with (k + 1 + Z.of_nat n) by lia. split; [done|by exists st2].
Qed.

Lemma StreamLocations_nth_ok self n r self' :
  locations_ok self → StreamLocations_nth self n = (r, self') →
  locations_ok self' ∧ match r with Ok loc => location_ok loc | Err _ => True end.
Proof.
  intros [Hf Hc]. unfold StreamLocations_nth. cbv zeta.
  assert (∀ found folders,
    match sl_current self with
    | Some folder => if decide (Z.to_nat (Substreams_len (fst_streams folder)) ≤ n)%nat
        then find_folder (folders_fuel (sl_folders self))
               (n - Z.to_nat (Substreams_len (fst_streams folder)))%nat (sl_folders self)
        else (Ok (Some folder, n), sl_folders self)
    | None => find_folder (folders_fuel (sl_folders self)) n (sl_folders self)
    end = (found, folders) →
    folders_ok folders ∧ match found with Ok (Some cur, _) => current_ok cur | _ => True end) as Hfound.
  { intros found folders. destruct (sl_current self) as [cur|]; [|by apply find_folder_ok].
    case_decide; [by apply find_folder_ok|by intros [= <- <-]]. }
  destruct (match sl_current self with Some _ => _ | None => _ end) as [found folders].
  destruct (Hfound _ _ eq_refl) as [Hf' Hc']. destruct found as [[[cur|] k]|e]; [|by intros [= <- <-]..].
  destruct (Substreams_nth k (fst_streams cur)) as [[[s|] st]|e] eqn:En; [|by intros [= <- <-]..].
  intros [= <- <-]. destruct Hc' as [Hfo Hst]. destruct (Substreams_nth_ok _ _ _ _ _ _ Hst En) as (H1 & st1 & H2 & H3).
  split; [by split|]. split; [done|]. by exists st1, st.
Qed.

(** ** Traversals *)

Definition entry_ok (e : Entry StreamLocation) : Prop :=
  match en_kind e with K_File loc | K_Symlink loc => location_ok loc | _ => True end.

Lemma Entry_bind_ok (e : Entry unit) (stream : unit → result StreamLocation R7zError) e' :
  Entry_bind e stream = Ok e' → (∀ loc, stream tt = Ok loc → location_ok loc) → entry_ok e'.
Proof.
  unfold Entry_bind, entry_ok. intros Hb Hs.
  destruct (en_kind e) as [[]|[]| | | |]; cbn in Hb; try (by injection Hb as <-);
    destruct (stream tt) as [loc|]; try done; injection Hb as <-; cbn; by apply Hs.
Qed.

Lemma FileStreams_next_ok self r self' :
  locations_ok (fi_streams self) → FileStreams_next self = (r, self') →
  locations_ok (fi_streams self') ∧ match r with Ok (Some e) => entry_ok e | _ => True end.
Proof.
  intros Hl. unfold FileStreams_next. destruct (Entries_next (fi_entries self)) as [[e|] entries].
  - destruct (EntryKind_has_stream (en_kind e)).
    + destruct (StreamLocations_nth (fi_streams self) 0) as [r0 streams] eqn:En.
      destruct (StreamLocations_nth_ok _ _ _ _ Hl En) as [Hl' Hr]. intros [= <- <-]. split; [done|].
      destruct r0 as [loc|]; cbn; [|done]. destruct (Entry_bind e _) as [e'|] eqn:Eb; cbn; [|done].
      eapply Entry_bind_ok; [exact Eb|]. by intros ? [= <-].
    + intros [= <- <-]. split; [done|]. destruct (Entry_bind e _) as [e'|] eqn:Eb; cbn; [|done].
      by eapply Entry_bind_ok.
  - intros [= <- <-]. split; [done|]. by destruct (StreamLocations_finish _).
Qed.

Lemma FileStreams_nth_ok self n r self' :
  locations_ok (fi_streams self) → FileStreams_nth self n = (r, self') →
  locations_ok (fi_streams self') ∧ match r with Ok (Some e) => entry_ok e | _ => True end.
Proof.
  intros Hl. unfold FileStreams_nth. destruct (skip_entries n (fi_entries self)) as [count entries].
  unfold StreamLocations_advance_by. destruct count as [|count].
  { intros Hn. eapply FileStreams_next_ok; [|exact Hn]. done. }
  destruct (StreamLocations_nth (fi_streams self) count) as [r0 streams] eqn:En.
  destruct (StreamLocations_nth_ok _ _ _ _ Hl En) as [Hl' _].
  destruct r0; cbn; [|by intros [= <- <-]]. intros Hn. eapply FileStreams_next_ok; [|exact Hn]. done.
Qed.

End plan.

(** The folders of a new traversal are those of the stream descriptors. *)
Definition traversal_plans (streams : option StreamInfo) : option FolderPlans :=
  match streams with
  | Some streams =>
      match si_unpack_info streams with
      | Some _ => fls_plans <$> result_ok (FolderLayouts_for_streams streams)
      | None => None
      end
  | None => None
  end.

Lemma FileStreams_new_ok files n streams fs plans :
  FileStreams_new files n streams = Ok fs →
  (∀ p, traversal_plans streams = Some p → plans = p) →
  locations_ok plans (fi_streams fs).
Proof.
  unfold FileStreams_new, traversal_plans. intros Hnew Hp.
  destruct streams as [s|]; [destruct (si_unpack_info s)|].
  - destruct (FolderLayouts_for_streams s) as [fls|]; [|done]. cbn in Hnew, Hp.
    destruct (decide _) in Hnew; [done|]. injection Hnew as <-. split; [|done]. cbn. left.
    rewrite (Hp _ eq_refl). constructor.
  - destruct (decide _) in Hnew; [done|]. injection Hnew as <-. by split.
  - destruct (decide _) in Hnew; [done|]. injection Hnew as <-. by split.
Qed.

End locations.
