(* ===== verification/Headers.v ===== *)
(** * Headers (src/src/headers.rs)

    The signature header, the encoded header, and the archive header: a scan of
    its sections that may be suspended until external definitions are decoded,
    and the sections parsed on first access. *)

From stdpp Require Import base numbers list option sets strings.
From Stdlib Require Import ZArith Lia.
From S2P Require Import Prelude PropertyId Parsers CoderInfo Folder Error FolderGraph PackInfo StreamInfo FilesInfo FolderDecode ScanLocality.

(** ** Archive properties *)

(** The fuel bounds the properties read. *)
Fixpoint scan_archive_properties_loop `{Nom} (fuel : nat) (input : slice) : IResult unit :=
  match fuel with
  | O => Err OutOfFuel
  | S fuel =>
      let? (input, property_id) := sevenzip_varuint64_decode input in
      if decide (property_id = PropertyId_tag P_END) then Ok (input, tt) else
      let? (i, size) := sevenzip_varuint64_decode input in
      let? sz := ok_or (usize_try_from size) (NomError input TooLarge) in
      let? (input, _) := nom_take sz i in
      scan_archive_properties_loop fuel input
  end.

Definition scan_archive_properties `{Nom} (input : slice) : IResult unit :=
  scan_archive_properties_loop (S (length (sl_data input))) input.

(** ** Encoded headers *)

Record EncodedHeader := { eh_pack_info : PackInfo; eh_unpack_info : UnpackInfo }.

Definition EncodedHeader_folder `{Nom} (self : EncodedHeader) (metadata_limit : Z) :
    result FolderLayout R7zError :=
  if decide (num_pack_streams (eh_pack_info self) = 1 ∧
             zlen (pack_size (eh_pack_info self)) = 1 ∧
             num_folders (eh_unpack_info self) = 1 ∧
             UnpackInfo_num_folders_usize (eh_unpack_info self) = 1) then
    let? layouts :=
      FolderLayouts_preflight (eh_pack_info self) (eh_unpack_info self) None metadata_limit in
    let? folder := ok_or (fst (FolderPlans_next (fls_plans (pf_layouts layouts)))) Parse in
    folder
  else Err Parse.

Definition EncodedHeader_parse `{Nom} (input backing : slice) : IResult EncodedHeader :=
  let? (input, pack_info) := PackInfo_parse input in
  let? (input, unpack_info) := UnpackInfo_parse input backing in
  Ok (input, {| eh_pack_info := pack_info; eh_unpack_info := unpack_info |}).

Inductive NextHeader := Plain | Encoded (header : EncodedHeader).

(** [.map_err(|_| R7zError::Parse)]. *)
Definition parsed {A} (p : IResult A) : result (slice * A) R7zError := map_err (λ _, Parse) p.

Definition NextHeader_parse `{Nom} (backing : slice) : result NextHeader R7zError :=
  let? (input, tag) := parsed (PropertyId_parse backing) in
  match tag with
  | P_Header => Ok Plain
  | P_EncodedHeader =>
      let? (_, encoded) := parsed (EncodedHeader_parse input backing) in
      Ok (Encoded encoded)
  | _ => Err Parse
  end.

(** ** The header *)

(** A lazily computed section: not computed yet, or the outcome kept. *)
Abbreviation OnceCell A := (option (result A unit)).

Record Header := {
  hd_data : slice;
  hd_streams_info_range : option (Z * Z);
  hd_files_info_range : option (Z * Z);
  hd_additional_streams_range : option (Z * Z);
  hd_external_folder_data : list slice;
  hd_num_files : Z;
  hd_streams_cache : OnceCell StreamInfo;
  hd_files_cache : OnceCell FilesInfo;
  hd_additional_streams_cache : OnceCell StreamInfo
}.

Record HeaderScan := {
  hs_data : slice;
  hs_position : Z;
  hs_streams_info_range : option (Z * Z);
  hs_files_info_range : option (Z * Z);
  hs_additional_streams_range : option (Z * Z);
  hs_num_files : Z
}.

Record PendingHeader := { ph_scan : HeaderScan; ph_additional : StreamInfo }.

Inductive HeaderProgress :=
| Complete (header : Header) (consumed : Z)
| Pending (pending : PendingHeader).

Inductive HeaderResolution :=
| ResolvedComplete (header : Header)
| RequiresExternalFolders (pending : PendingHeader).

Definition HeaderScan_new (data : slice) : result HeaderScan R7zError :=
  let? (remaining, tag) := parsed (PropertyId_parse data) in
  match tag with
  | P_Header => Ok {| hs_data := data; hs_position := sl_len data - sl_len remaining;
                      hs_streams_info_range := None; hs_files_info_range := None;
                      hs_additional_streams_range := None; hs_num_files := 0 |}
  | _ => Err Parse
  end.

(** The field updates of the scan. *)
Definition set_position (s : HeaderScan) (p : Z) : HeaderScan :=
  {| hs_data := hs_data s; hs_position := p;
     hs_streams_info_range := hs_streams_info_range s;
     hs_files_info_range := hs_files_info_range s;
     hs_additional_streams_range := hs_additional_streams_range s;
     hs_num_files := hs_num_files s |}.
Definition set_streams_range (s : HeaderScan) (main : bool) (r : Z * Z) : HeaderScan :=
  {| hs_data := hs_data s; hs_position := hs_position s;
     hs_streams_info_range := if main then Some r else hs_streams_info_range s;
     hs_files_info_range := hs_files_info_range s;
     hs_additional_streams_range := if main then hs_additional_streams_range s else Some r;
     hs_num_files := hs_num_files s |}.
Definition set_files_range (s : HeaderScan) (r : Z * Z) (count : Z) : HeaderScan :=
  {| hs_data := hs_data s; hs_position := hs_position s;
     hs_streams_info_range := hs_streams_info_range s;
     hs_files_info_range := Some r;
     hs_additional_streams_range := hs_additional_streams_range s;
     hs_num_files := count |}.

(** Suspend at a section that needs the additional streams. *)
Definition HeaderScan_suspend `{Nom} (self : HeaderScan) : result HeaderProgress R7zError :=
  let? range := ok_or (hs_additional_streams_range self) Parse in
  let? bytes := ok_or (slice_range (fst range) (snd range) (hs_data self)) Parse in
  match StreamInfo_parse bytes (hs_data self) with
  | Ok (rest, additional) =>
      if sl_empty rest
      then Ok (Pending {| ph_scan := self; ph_additional := additional |})
      else Err Parse
  | Err _ => Err Parse
  end.

Definition HeaderScan_finish (self : HeaderScan) (external : option (list slice)) : Header :=
  {| hd_data := hs_data self;
     hd_streams_info_range := hs_streams_info_range self;
     hd_files_info_range := hs_files_info_range self;
     hd_additional_streams_range := hs_additional_streams_range self;
     hd_external_folder_data := default [] external;
     hd_num_files := hs_num_files self;
     hd_streams_cache := None; hd_files_cache := None; hd_additional_streams_cache := None |}.

(** The range from the rest [a] to the rest [b] of the backing bytes, as [u32]s. *)
Definition section_range (backing a b : slice) : result (Z * Z) R7zError :=
  let? start := ok_or (u32_try_from (sl_len backing - sl_len a)) Parse in
  let? end_ := ok_or (u32_try_from (sl_len backing - sl_len b)) Parse in
  Ok (start, end_).

(** One section after its tag: the scan goes on from the rest, or is suspended. *)
Definition scan_section `{Nom} (self : HeaderScan) (external : option (list slice))
    (input after_tag : slice) (tag : PropertyId) :
    result (slice * HeaderScan + HeaderProgress) R7zError :=
  let backing := hs_data self in
  let definitions := default [] external in
  match tag with
  | P_MainStreamsInfo | P_AdditionalStreamsInfo =>
      let main := bool_decide (tag = P_MainStreamsInfo) in
      let? suspended :=
        (if decide (main = true ∧ external = None) then
           let? (_, uses) := parsed (StreamInfo_uses_external_folder_data after_tag) in Ok uses
         else Ok false) in
      if suspended then result_map inr (HeaderScan_suspend self) else
      let? (remaining, _) := parsed (scan_stream_info_with_external after_tag definitions) in
      let? range := section_range backing after_tag remaining in
      Ok (inl (remaining, set_streams_range self main range))
  | P_FilesInfo =>
      let? (remaining, found) := parsed (scan_files_info_with_external input) in
      let '(count, uses_external_data) := found in
      if decide (external = None ∧ uses_external_data = true)
      then result_map inr (HeaderScan_suspend self) else
      let? range := section_range backing input remaining in
      Ok (inl (remaining, set_files_range self range count))
  | P_ArchiveProperties =>
      let? (input, _) := parsed (scan_archive_properties after_tag) in Ok (inl (input, self))
  | _ =>
      let? (remaining, size) := parsed (sevenzip_varuint64_decode after_tag) in
      let? size := ok_or (usize_try_from size) Parse in
      let? input := ok_or (slice_from size remaining) Parse in
      Ok (inl (input, self))
  end.

(** The loop of [HeaderScan::advance]. *)
Fixpoint advance_loop `{Nom} (fuel : nat) (external : option (list slice))
    (self : HeaderScan) (input : slice) : result HeaderProgress R7zError :=
  match fuel with
  | O => Err R7zOutOfFuel
  | S fuel =>
      let? (after_tag, tag) := parsed (PropertyId_parse input) in
      match tag with
      | P_END =>
          Ok (Complete (HeaderScan_finish self external)
                       (sl_len (hs_data self) - sl_len after_tag))
      | _ =>
          let? next := scan_section self external input after_tag tag in
          match next with
          | inl (input, self) =>
              advance_loop fuel external
                (set_position self (sl_len (hs_data self) - sl_len input)) input
          | inr progress => Ok progress
          end
      end
  end.

(** Every section takes at least its tag byte. *)
Definition HeaderScan_advance `{Nom} (self : HeaderScan) (external : option (list slice)) :
    result HeaderProgress R7zError :=
  let? input := ok_or (slice_from (hs_position self) (hs_data self)) Parse in
  advance_loop (S (length (sl_data input))) external self input.

Definition HeaderProgress_complete_exact (self : HeaderProgress) : result Header R7zError :=
  match self with
  | Complete header consumed =>
      if decide (consumed = sl_len (hd_data header)) then Ok header else Err Parse
  | Pending _ => Err Parse
  end.

Definition HeaderProgress_into_resolution (self : HeaderProgress) :
    result HeaderResolution R7zError :=
  match self with
  | Pending pending => Ok (RequiresExternalFolders pending)
  | Complete _ _ => result_map ResolvedComplete (HeaderProgress_complete_exact self)
  end.

(** [decode] runs the decoder over the additional streams. *)
Definition PendingHeader_resolve_with `{Nom} (self : PendingHeader)
    (decode : StreamInfo → result (list slice) R7zError) : result Header R7zError :=
  let? external := decode (ph_additional self) in
  let? progress := HeaderScan_advance (ph_scan self) (Some external) in
  HeaderProgress_complete_exact progress.

Definition Header_resolve_archive `{Nom} (backing : slice) : result HeaderResolution R7zError :=
  let? scan := HeaderScan_new backing in
  let? progress := HeaderScan_advance scan None in
  HeaderProgress_into_resolution progress.

(** [&backing[consumed..]]. *)
Definition header_result (backing : slice) (scanned : result HeaderProgress R7zError) :
    IResult Header :=
  match scanned with
  | Ok (Complete header consumed) => Ok (advance consumed backing, header)
  | _ => Err (NomFailure backing Verify)
  end.

Definition Header_parse `{Nom} (backing : slice) : IResult Header :=
  header_result backing
    (let? scan := HeaderScan_new backing in HeaderScan_advance scan None).

Definition Header_parse_with_external `{Nom} (backing : slice) (external : list slice) :
    IResult Header :=
  header_result backing
    (let? scan := HeaderScan_new backing in HeaderScan_advance scan (Some external)).

(** ** Lazy sections *)

(** [self.data.get(start..end)] parsed to its end. *)
Definition parse_section {A} (data : slice) (range : Z * Z) (parse : slice → IResult A)
    (accept : A → bool) : result A unit :=
  let? s := ok_or (slice_range (fst range) (snd range) data) tt in
  match parse s with
  | Ok (rest, value) => if sl_empty rest && accept value then Ok value else Err tt
  | Err _ => Err tt
  end.

Definition compute_streams `{Nom} (self : Header) (range : Z * Z) : result StreamInfo unit :=
  parse_section (hd_data self) range
    (λ s, StreamInfo_parse_with_external s (hd_data self) (hd_external_folder_data self))
    (λ _, true).
Definition compute_files `{Nom} (self : Header) (range : Z * Z) : result FilesInfo unit :=
  parse_section (hd_data self) range
    (λ s, FilesInfo_parse_with_external s (hd_data self) (hd_external_folder_data self))
    (λ info, bool_decide (fi_num_files info = hd_num_files self)).
Definition compute_additional `{Nom} (self : Header) (range : Z * Z) : result StreamInfo unit :=
  parse_section (hd_data self) range (λ s, StreamInfo_parse s (hd_data self)) (λ _, true).

(** [OnceCell::get_or_init]. *)
Definition get_or_init {A} (cell : OnceCell A) (init : result A unit) : result A unit :=
  default init cell.

Definition with_caches (h : Header) (s : OnceCell StreamInfo) (f : OnceCell FilesInfo)
    (a : OnceCell StreamInfo) : Header :=
  {| hd_data := hd_data h; hd_streams_info_range := hd_streams_info_range h;
     hd_files_info_range := hd_files_info_range h;
     hd_additional_streams_range := hd_additional_streams_range h;
     hd_external_folder_data := hd_external_folder_data h; hd_num_files := hd_num_files h;
     hd_streams_cache := s; hd_files_cache := f; hd_additional_streams_cache := a |}.

(** The accessors, with the header whose cell they filled. *)
Definition Header_try_streams_info `{Nom} (self : Header) :
    result (option StreamInfo) R7zError * Header :=
  match hd_streams_info_range self with
  | None => (Ok None, self)
  | Some range =>
      let parsed := get_or_init (hd_streams_cache self) (compute_streams self range) in
      (map_err (λ _, Parse) (result_map Some parsed),
       with_caches self (Some parsed) (hd_files_cache self) (hd_additional_streams_cache self))
  end.

Definition Header_try_files_info `{Nom} (self : Header) :
    result (option FilesInfo) R7zError * Header :=
  match hd_files_info_range self with
  | None => (Ok None, self)
  | Some range =>
      let parsed := get_or_init (hd_files_cache self) (compute_files self range) in
      (map_err (λ _, Parse) (result_map Some parsed),
       with_caches self (hd_streams_cache self) (Some parsed) (hd_additional_streams_cache self))
  end.

Definition Header_try_additional_streams_info `{Nom} (self : Header) :
    result (option StreamInfo) R7zError * Header :=
  match hd_additional_streams_range self with
  | None => (Ok None, self)
  | Some range =>
      let parsed := get_or_init (hd_additional_streams_cache self) (compute_additional self range) in
      (map_err (λ _, Parse) (result_map Some parsed),
       with_caches self (hd_streams_cache self) (hd_files_cache self) (Some parsed))
  end.

Definition Header_streams_info `{Nom} (self : Header) : option StreamInfo * Header :=
  let '(r, self) := Header_try_streams_info self in (mjoin (result_ok r), self).
Definition Header_files_info `{Nom} (self : Header) : option FilesInfo * Header :=
  let '(r, self) := Header_try_files_info self in (mjoin (result_ok r), self).

Definition Header_additional_pack_info `{Nom} (self : Header) :
    result (option PackInfo) R7zError * Header :=
  let '(r, self) := Header_try_additional_streams_info self in
  (result_map (λ streams, streams ≫= si_pack_info) r, self).

(** ** The signature header *)

Record SignatureHeader := {
  sh_signature : bytes;
  sh_major_version : Z;
  sh_minor_version : Z;
  sh_start_header_crc : Z;
  sh_next_header_offset : Z;
  sh_next_header_size : Z;
  sh_next_header_crc : Z
}.

Definition SignatureHeader_start_bytes (self : SignatureHeader) : bytes :=
  to_le_bytes 8 (sh_next_header_offset self) ++ to_le_bytes 8 (sh_next_header_size self) ++
  to_le_bytes 4 (sh_next_header_crc self).

Definition SignatureHeader_validate_start_header_crc `{Crc32} (self : SignatureHeader) :
    result unit R7zError :=
  if decide (crc32 (SignatureHeader_start_bytes self) = sh_start_header_crc self)
  then Ok tt else Err Crc.

(** [input[a..b]] of a slice of at least [b] bytes. *)
Definition sub_bytes (a b : nat) (s : slice) : bytes := take (b - a) (drop a (sl_data s)).

Definition SignatureHeader_parse (input : slice) : IResult SignatureHeader :=
  if decide (sl_len input < 32) then Err (NomError input Eof) else
  Ok (advance 32 input,
      {| sh_signature := sub_bytes 0 6 input;
         sh_major_version := from_le_bytes (sub_bytes 6 7 input);
         sh_minor_version := from_le_bytes (sub_bytes 7 8 input);
         sh_start_header_crc := from_le_bytes (sub_bytes 8 12 input);
         sh_next_header_offset := from_le_bytes (sub_bytes 12 20 input);
         sh_next_header_size := from_le_bytes (sub_bytes 20 28 input);
         sh_next_header_crc := from_le_bytes (sub_bytes 28 32 input) |}).

(** ** Lemmas: parser results *)

Lemma parsed_ok {A} (p : IResult A) x : parsed p = Ok x ↔ p = Ok x.
Proof. unfold parsed, map_err. destruct p; split; congruence. Qed.

Lemma parsed_returns {A} (p : IResult A) : returns (parsed p).
Proof. by destruct p. Qed.

Lemma scan_archive_properties_loop_tail `{Nom} fuel s :
  (length (sl_data s) < fuel)%nat → parses_tail s (scan_archive_properties_loop fuel s).
Proof.
  revert s. induction fuel as [|fuel IH]; intros s Hf; [lia|]. cbn.
  pose proof (varuint_decode_tail s) as Hv.
  destruct (sevenzip_varuint64_decode s) as [[s1 id]|[]] eqn:E; cbn in Hv; try done.
  apply varuint_decode_shrinks in E as Hlt.
  eapply parses_tail_weaken; [done|]. case_decide; [apply suffix_of_refl|].
  apply parses_tail_bind; [apply varuint_decode_tail|]. intros r1 size Hr1.
  destruct (usize_try_from size) as [sz|]; cbn [ok_or]; [|done].
  apply parses_tail_bind; [apply nom_take_tail|]. intros r2 ? Hr2.
  apply IH. apply suffix_of_len in Hr1, Hr2. unfold sl_len, zlen in *. lia.
Qed.

Lemma scan_archive_properties_tail `{Nom} s : parses_tail s (scan_archive_properties s).
Proof. apply scan_archive_properties_loop_tail. lia. Qed.

(** ** Lemmas: one section *)

Lemma HeaderScan_suspend_returns `{Nom} s : returns (HeaderScan_suspend s).
Proof.
  unfold HeaderScan_suspend. repeat returns_step.
  destruct (StreamInfo_parse _ _) as [[r x]|]; [destruct (sl_empty r)|]; done.
Qed.

Lemma section_range_returns b x y : returns (section_range b x y).
Proof. unfold section_range. repeat returns_step. Qed.

Lemma scan_section_returns `{Nom} self ext input after tag :
  returns (scan_section self ext input after tag).
Proof.
  assert (∀ {A B} (f : A → B) r, returns r → returns (result_map f r)) as Hmap
    by (by intros ? ? ? []).
  unfold scan_section. destruct tag; repeat returns_step; cbv beta zeta;
    try apply parsed_returns; try apply section_range_returns;
    try apply Hmap, HeaderScan_suspend_returns; repeat returns_step; try apply parsed_returns.
Qed.

(** What a section that scans on leaves: a tail of the input after the tag. *)
Lemma scan_files_info_after_tag `{Nom} s i tag :
  PropertyId_parse s = Ok (i, tag) → parses_tail i (scan_files_info_with_external s).
Proof.
  intros Hp. unfold scan_files_info_with_external, files_info_head. rewrite Hp.
  case_decide; [done|].
  destruct (sevenzip_varuint64_decode i) as [[i' n]|[]] eqn:E;
    pose proof (varuint_decode_tail i) as Ht; rewrite E in Ht; cbn in Ht |- *; try done.
  destruct (usize_try_from n); cbn; [|done]. eapply parses_tail_weaken; [exact Ht|]. parse_tail.
Qed.

Lemma uses_external_loop_tail `{Nom} fuel s :
  (length (sl_data s) < fuel)%nat → parses_tail s (uses_external_loop fuel s).
Proof.
  revert s. induction fuel as [|fuel IH]; intros s Hf; [lia|]. cbn.
  pose proof (PropertyId_parse_tail s) as Ht.
  destruct (PropertyId_parse s) as [[i tag]|[]] eqn:Ep; cbn in Ht; try done.
  destruct (PropertyId_parse_advance _ _ _ Ep) as [-> Hl].
  eapply parses_tail_weaken; [exact Ht|].
  assert (∀ r, suffix_of r (advance 1 s) → parses_tail r (uses_external_loop fuel r)) as Hrec.
  { intros r Hr. apply IH. apply suffix_of_len in Hr. rewrite sl_len_advance in Hr by lia.
    unfold sl_len, zlen in *. lia. }
  assert (∀ A (p : IResult A), parses_tail (advance 1 s) p →
    parses_tail (advance 1 s) (let? (input, _) := p in uses_external_loop fuel input)) as Hbind.
  { intros A p Hp. apply parses_tail_bind; [done|]. intros r x Hr. by apply Hrec. }
  destruct tag; [apply suffix_of_refl|..];
    try (apply parses_tail_bind; [apply varuint_decode_tail|]; intros r1 size Hr1;
         destruct (usize_try_from size) as [sz|]; cbn [ok_or]; [|done];
         apply parses_tail_bind; [apply nom_take_tail|]; intros r2 ? Hr2;
         apply Hrec; by do 2 (etransitivity; [eassumption|])).
  - by eapply Hbind, scan_pack_info_after_tag.
  - apply (parses_tail_map _ (parse_folder_declaration s)
      (λ d, match snd d with External _ => true | Inline => false end)).
    by eapply folder_declaration_after_tag.
  - by eapply Hbind, scan_substream_info_after_tag.
Qed.

Lemma uses_external_tail `{Nom} s :
  parses_tail s (StreamInfo_uses_external_folder_data s).
Proof. apply uses_external_loop_tail. lia. Qed.

(** The kinds of sections the scan goes on after. *)
Inductive scanned `{Nom} (self : HeaderScan) (ext : option (list slice)) (input : slice) :
    PropertyId → slice → HeaderScan → Prop :=
| ScannedStreams tag (main : bool) r range :
    tag = (if main then P_MainStreamsInfo else P_AdditionalStreamsInfo) →
    (main = true → ext = None → ∃ r',
      StreamInfo_uses_external_folder_data (advance 1 input) = Ok (r', false)) →
    scan_stream_info_with_external (advance 1 input) (default [] ext) = Ok (r, tt) →
    section_range (hs_data self) (advance 1 input) r = Ok range →
    scanned self ext input tag r (set_streams_range self main range)
| ScannedFiles r count uses range :
    scan_files_info_with_external input = Ok (r, (count, uses)) →
    (ext = None → uses = false) →
    section_range (hs_data self) input r = Ok range →
    scanned self ext input P_FilesInfo r (set_files_range self range count)
| ScannedProperties r :
    scan_archive_properties (advance 1 input) = Ok (r, tt) →
    scanned self ext input P_ArchiveProperties r self
| ScannedOther tag r1 size r :
    tag ∉ [P_END; P_MainStreamsInfo; P_AdditionalStreamsInfo; P_FilesInfo; P_ArchiveProperties] →
    sevenzip_varuint64_decode (advance 1 input) = Ok (r1, size) →
    usize_try_from size = Some size → slice_from size r1 = Some r →
    scanned self ext input tag r self.

Lemma scan_section_inl `{Nom} self ext input tag r self' :
  tag ≠ P_END → scan_section self ext input (advance 1 input) tag = Ok (inl (r, self')) →
  scanned self ext input tag r self'.
Proof.
  intros Hne. unfold scan_section. cbv zeta.
  assert (∀ res : result HeaderProgress R7zError,
    result_map (B := slice * HeaderScan + HeaderProgress) inr res ≠ Ok (inl (r, self')))
    as Hinr by (by intros [|]).
  assert (tag ∉ [P_END; P_MainStreamsInfo; P_AdditionalStreamsInfo; P_FilesInfo;
                 P_ArchiveProperties] →
    (let? (remaining, size) := parsed (sevenzip_varuint64_decode (advance 1 input)) in
     let? size := ok_or (usize_try_from size) Parse in
     let? input := ok_or (slice_from size remaining) Parse in
     Ok (inl (B := HeaderProgress) (input, self))) = Ok (inl (r, self')) → scanned self ext input tag r self') as Hother.
  { intros Ht Hr. destruct (parsed _) as [[r1 size]|] eqn:E1 in Hr; [|done].
    destruct (usize_try_from size) as [size'|] eqn:E2; cbn [ok_or] in Hr; [|done].
    destruct (slice_from size' r1) as [r2|] eqn:E3; cbn [ok_or] in Hr; [|done].
    injection Hr as <- <-. apply parsed_ok in E1.
    assert (size' = size) as ->.
    { unfold usize_try_from in E2. case_decide; congruence. }
    by econstructor. }
  assert (∀ main : bool, tag = (if main then P_MainStreamsInfo else P_AdditionalStreamsInfo) →
    (let? suspended :=
      (if decide (main = true ∧ ext = None) then
         let? (_, uses) :=
           parsed (StreamInfo_uses_external_folder_data (advance 1 input)) in Ok uses
       else Ok false) in
    if suspended : bool then result_map inr (HeaderScan_suspend self) else
    let? (remaining, _) :=
      parsed (scan_stream_info_with_external (advance 1 input) (default [] ext)) in
    let? range := section_range (hs_data self) (advance 1 input) remaining in
    Ok (inl (remaining, set_streams_range self main range))) = Ok (inl (r, self')) →
    scanned self ext input tag r self') as Hstreams.
  { intros main Ht Hr. destruct (if decide _ then _ else _) as [susp|] eqn:Es in Hr; [|done].
    destruct susp; [by apply Hinr in Hr|].
    destruct (parsed (scan_stream_info_with_external _ _)) as [[r1 []]|] eqn:E1; [|done].
    destruct (section_range _ _ _) as [range|] eqn:E2; [|done]. injection Hr as <- <-.
    apply parsed_ok in E1. econstructor; [done| |done|done].
    intros -> ->. rewrite decide_True in Es by done.
    destruct (parsed _) as [[r' u]|] eqn:E3 in Es; [|done]. injection Es as ->.
    apply parsed_ok in E3. by exists r'. }
  destruct tag; try done; try (apply Hother; set_solver).
  - intros Hr. destruct (parsed _) as [[r1 []]|] eqn:E1 in Hr; [|done]. injection Hr as <- <-.
    apply parsed_ok in E1. by constructor.
  - apply (Hstreams false eq_refl).
  - apply (Hstreams true eq_refl).
  - intros Hr. destruct (parsed _) as [[r1 [count uses]]|] eqn:E1 in Hr; [|done].
    apply parsed_ok in E1. case_decide as Hs; [by apply Hinr in Hr|].
    destruct (section_range _ _ _) as [range|] eqn:E2; [|done]. injection Hr as <- <-.
    econstructor; [done| |done]. intros ->. destruct uses; tauto.
Qed.

Lemma scanned_suffix `{Nom} self ext input tag r self' :
  PropertyId_parse input = Ok (advance 1 input, tag) → scanned self ext input tag r self' →
  suffix_of r (advance 1 input) ∧ hs_data self' = hs_data self ∧
  hs_position self' = hs_position self.
Proof.
  intros Hp [tag' main r' range _ _ Hs _|r' count uses range Hs _ _|r' Hs|tag' r1 size r' _ Hd _ Hs].
  - pose proof (scan_stream_info_tail (advance 1 input) (default [] ext)) as Ht.
    rewrite Hs in Ht. by destruct main.
  - pose proof (scan_files_info_after_tag _ _ _ Hp) as Ht. by rewrite Hs in Ht.
  - pose proof (scan_archive_properties_tail (advance 1 input)) as Ht. by rewrite Hs in Ht.
  - pose proof (varuint_decode_tail (advance 1 input)) as Ht. rewrite Hd in Ht.
    split; [|done]. etransitivity; [|exact Ht]. unfold slice_from in Hs.
    case_decide; [|done]. injection Hs as <-. by apply suffix_of_advance.
Qed.

(** ** Lemmas: the scan *)

Lemma advance_loop_step `{Nom} fuel ext self input tag :
  PropertyId_parse input = Ok (advance 1 input, tag) → tag ≠ P_END →
  advance_loop (S fuel) ext self input =
  (let? next := scan_section self ext input (advance 1 input) tag in
   match next with
   | inl (input, self) =>
       advance_loop fuel ext (set_position self (sl_len (hs_data self) - sl_len input)) input
   | inr progress => Ok progress
   end).
Proof. intros Hp Hne. cbn [advance_loop]. rewrite Hp. cbn. by destruct tag. Qed.

(** Induction over the sections of a scan that makes progress. *)
Lemma advance_loop_ind `{Nom} ext (P : HeaderScan → slice → result HeaderProgress R7zError → Prop) :
  (∀ self input, is_ok (parsed (PropertyId_parse input)) = false → P self input (Err Parse)) →
  (∀ self input, PropertyId_parse input = Ok (advance 1 input, P_END) → 1 ≤ sl_len input →
    P self input (Ok (Complete (HeaderScan_finish self ext)
                         (sl_len (hs_data self) - sl_len (advance 1 input))))) →
  (∀ self input tag r self' res, PropertyId_parse input = Ok (advance 1 input, tag) →
    1 ≤ sl_len input → tag ≠ P_END → scanned self ext input tag r self' →
    P (set_position self' (sl_len (hs_data self) - sl_len r)) r res → P self input res) →
  (∀ self input tag progress, PropertyId_parse input = Ok (advance 1 input, tag) →
    1 ≤ sl_len input → tag ≠ P_END →
    scan_section self ext input (advance 1 input) tag = Ok (inr progress) →
    P self input (Ok progress)) →
  (∀ self input tag e, PropertyId_parse input = Ok (advance 1 input, tag) → tag ≠ P_END →
    scan_section self ext input (advance 1 input) tag = Err e → P self input (Err e)) →
  ∀ fuel self input, (length (sl_data input) < fuel)%nat →
    P self input (advance_loop fuel ext self input).
Proof.
  intros Herr Hend Hsec Hpend Hfail fuel. induction fuel as [|fuel IH]; intros self input Hf; [lia|].
  destruct (PropertyId_parse input) as [[i tag]|e] eqn:Ep.
  2:{ cbn [advance_loop]. rewrite Ep. cbn. apply Herr. by rewrite Ep. }
  destruct (PropertyId_parse_advance _ _ _ Ep) as [-> Hl].
  destruct (decide (tag = P_END)) as [->|Hne].
  { cbn [advance_loop]. rewrite Ep. cbn [parsed map_err]. by apply Hend. }
  rewrite (advance_loop_step _ _ _ _ _ Ep Hne).
  destruct (scan_section _ _ _ _ _) as [[[r self']|progress]|e] eqn:Es;
    [|by eapply Hpend|by eapply Hfail].
  apply scan_section_inl in Es; [|done].
  destruct (scanned_suffix _ _ _ _ _ _ Ep Es) as (Hr & Hd & _). rewrite Hd.
  eapply Hsec; [done..|]. apply IH. apply suffix_of_len in Hr.
  rewrite sl_len_advance in Hr by lia. unfold sl_len, zlen in *. lia.
Qed.

Lemma advance_loop_returns `{Nom} fuel ext self input :
  (length (sl_data input) < fuel)%nat → returns (advance_loop fuel ext self input).
Proof.
  apply (advance_loop_ind ext (λ _ _ res, returns res)); try done.
  intros s i tag e _ _ Hs. pose proof (scan_section_returns s ext i (advance 1 i) tag) as Hr.
  by rewrite Hs in Hr.
Qed.

(** More fuel than the input length changes nothing. *)
Lemma advance_loop_fuel `{Nom} f g ext self input :
  (length (sl_data input) < f)%nat → (length (sl_data input) < g)%nat →
  advance_loop f ext self input = advance_loop g ext self input.
Proof.
  revert g self input. induction f as [|f IH]; intros [|g] self input Hf Hg; [lia..|].
  destruct (PropertyId_parse input) as [[i tag]|e] eqn:Ep; [|cbn [advance_loop]; by rewrite Ep].
  destruct (PropertyId_parse_advance _ _ _ Ep) as [-> Hl].
  destruct (decide (tag = P_END)) as [->|Hne]; [cbn [advance_loop]; by rewrite Ep|].
  rewrite !(advance_loop_step _ _ _ _ _ Ep Hne).
  destruct (scan_section _ _ _ _ _) as [[[r self']|progress]|e] eqn:Es; [|done..].
  apply scan_section_inl in Es; [|done].
  destruct (scanned_suffix _ _ _ _ _ _ Ep Es) as (Hr & _ & _).
  apply suffix_of_len in Hr. rewrite sl_len_advance in Hr by lia.
  apply IH; unfold sl_len, zlen in *; lia.
Qed.

(** A scanned stream section, cut out of the header, scans to its end. *)
Definition stream_section `{Nom} (data : slice) (defs : list slice) (range : Z * Z) : Prop :=
  let '(a, b) := range in
  0 ≤ a ∧ a ≤ b ∧ b ≤ sl_len data ∧ b ≤ u32_max ∧
  ∃ r, scan_stream_info_with_external (first_bytes (b - a) (advance a data)) defs = Ok (r, tt) ∧
       sl_empty r = true.

(** A scanned file section starts the bytes it was scanned in. *)
Definition files_section `{Nom} (data : slice) (range : Z * Z) (count : Z) : Prop :=
  let '(a, b) := range in
  0 ≤ a ∧ a ≤ b ∧ b ≤ sl_len data ∧
  ∃ uses, scan_files_info_with_external (advance a data) = Ok (advance b data, (count, uses)).

Record scan_ok `{Nom} (defs : list slice) (s : HeaderScan) : Prop := {
  so_streams : ∀ r, hs_streams_info_range s = Some r → stream_section (hs_data s) defs r;
  so_additional : ∀ r, hs_additional_streams_range s = Some r → stream_section (hs_data s) defs r;
  so_files : ∀ r, hs_files_info_range s = Some r → files_section (hs_data s) r (hs_num_files s)
}.

Lemma section_range_inv data a b x y :
  section_range data a b = Ok (x, y) →
  x = sl_len data - sl_len a ∧ y = sl_len data - sl_len b ∧ y ≤ u32_max.
Proof.
  unfold section_range, u32_try_from. case_decide; cbn; [|done].
  case_decide; cbn; [|done]. intros [= <- <-]. lia.
Qed.

Lemma advance_sub data p n :
  0 ≤ p → 0 ≤ n → p + n ≤ sl_len data → sl_len data - sl_len (advance n (advance p data)) = p + n.
Proof. intros. rewrite !sl_len_advance; try rewrite sl_len_advance; lia. Qed.

Lemma sl_empty_len s : sl_len s = 0 → sl_empty s = true.
Proof. destruct s as [a [|b l]]; [done|]. unfold sl_len, zlen. cbn. lia. Qed.

Lemma scanned_ok `{Nom} self ext p tag r self' :
  let input := advance p (hs_data self) in
  scan_ok (default [] ext) self → 0 ≤ p → p + 1 ≤ sl_len (hs_data self) →
  PropertyId_parse input = Ok (advance 1 input, tag) →
  scanned self ext input tag r self' → scan_ok (default [] ext) self'.
Proof.
  intros input Hok Hp Hl Htag Hs.
  assert (sl_len input = sl_len (hs_data self) - p) as Hil by (apply sl_len_advance; lia).
  destruct (scanned_suffix _ _ _ _ _ _ Htag Hs) as (Hr & _ & _).
  destruct Hs as [tag' main r [x y] _ _ Hscan Hrange|r count uses [x y] Hscan _ Hrange|r Hscan
                 |tag' r1 size r _ _ _ _]; [| |done..];
    destruct Hr as (n & Hn & Er); rewrite sl_len_advance in Hn by lia.
  - (* streams *)
    apply section_range_inv in Hrange as (-> & -> & Hmax).
    apply scan_stream_info_cut in Hscan as (n' & Hn' & Hadv & Hcut).
    assert (n' = n) as -> by (rewrite Er in Hadv; injection Hadv; lia).
    assert (stream_section (hs_data self) (default [] ext)
      (sl_len (hs_data self) - sl_len (advance 1 input), sl_len (hs_data self) - sl_len r)) as Hsec.
    { unfold stream_section. rewrite Er in Hmax |- *. unfold input in *.
      rewrite !advance_advance in * by lia. rewrite !sl_len_advance in * by lia.
      split_and!; try lia. exists (advance n (first_bytes n (advance (p + 1) (hs_data self)))).
      replace (sl_len (hs_data self) - (sl_len (hs_data self) - (p + 1))) with (p + 1) by lia.
      replace (sl_len (hs_data self) - (sl_len (hs_data self) - (p + 1 + n)) - (p + 1))
        with n by lia.
      split; [exact Hcut|]. apply sl_empty_len.
      rewrite sl_len_advance; rewrite sl_len_first; try lia; rewrite sl_len_advance; lia. }
    destruct Hok as [H1 H2 H3]. unfold set_streams_range.
    destruct main; split; cbn; try done; by intros ? [= <-].
  - (* files *)
    apply section_range_inv in Hrange as (-> & -> & Hmax).
    destruct Hok as [H1 H2 H3]. split; cbn; try done. intros ? [= <-]. unfold files_section.
    rewrite Er in Hscan |- *. unfold input in *. rewrite !advance_advance in * by lia.
    rewrite !sl_len_advance by lia.
    replace (sl_len (hs_data self) - (sl_len (hs_data self) - p)) with p by lia.
    replace (sl_len (hs_data self) - (sl_len (hs_data self) - (p + (1 + n))))
      with (p + (1 + n)) by lia.
    split_and!; try lia. by exists uses.
Qed.

(** ** Lemmas: what a scan returns *)

Record header_ok `{Nom} (data : slice) (defs : list slice) (h : Header) : Prop := {
  ho_data : hd_data h = data;
  ho_external : hd_external_folder_data h = defs;
  ho_streams : ∀ r, hd_streams_info_range h = Some r → stream_section data defs r;
  ho_additional : ∀ r, hd_additional_streams_range h = Some r → stream_section data defs r;
  ho_files : ∀ r, hd_files_info_range h = Some r → files_section data r (hd_num_files h)
}.

(** No section was accessed yet. *)
Definition caches_empty (h : Header) : Prop :=
  hd_streams_cache h = None ∧ hd_files_cache h = None ∧ hd_additional_streams_cache h = None.

Lemma HeaderScan_suspend_inv `{Nom} s progress :
  HeaderScan_suspend s = Ok progress →
  ∃ p range, progress = Pending p ∧ ph_scan p = s ∧
    hs_additional_streams_range s = Some range ∧
    parse_section (hs_data s) range (λ b, StreamInfo_parse b (hs_data s)) (λ _, true)
    = Ok (ph_additional p).
Proof.
  unfold HeaderScan_suspend, parse_section.
  destruct (hs_additional_streams_range s) as [range|]; cbn [ok_or]; [|done].
  destruct (slice_range _ _ _) as [b|] eqn:Eb; cbn [ok_or]; [|done].
  destruct (StreamInfo_parse b _) as [[r x]|] eqn:Ex; [|done].
  destruct (sl_empty r) eqn:Er; [|done]. intros [= <-].
  eexists _, range. split_and!; [done..|]. rewrite Eb. cbn [ok_or]. by rewrite Ex, Er.
Qed.

Lemma scan_section_inr `{Nom} self ext input after tag progress :
  scan_section self ext input after tag = Ok (inr progress) →
  ext = None ∧ HeaderScan_suspend self = Ok progress.
Proof.
  assert (∀ res : result HeaderProgress R7zError,
    result_map (B := slice * HeaderScan + HeaderProgress) inr res = Ok (inr progress) →
    res = Ok progress) as Hinr by (intros [|]; cbn; congruence).
  unfold scan_section. cbv zeta. destruct tag;
    try (repeat case_match; congruence); intros Hr.
  all: repeat case_match; simplify_eq; destruct_and?;
    (split; [done|by apply Hinr]).
Qed.

(** The outcome of a scan of [data] from position [p] on. *)
Definition progress_ok `{Nom} (data : slice) (ext : option (list slice)) (p : Z)
    (res : result HeaderProgress R7zError) : Prop :=
  match res with
  | Ok (Complete h c) =>
      header_ok data (default [] ext) h ∧ caches_empty h ∧ p < c ≤ sl_len data
  | Ok (Pending pending) =>
      ext = None ∧ hs_data (ph_scan pending) = data ∧ scan_ok [] (ph_scan pending) ∧
      0 ≤ hs_position (ph_scan pending) ≤ sl_len data ∧
      ∃ range, hs_additional_streams_range (ph_scan pending) = Some range ∧
        parse_section data range (λ b, StreamInfo_parse b data) (λ _, true)
        = Ok (ph_additional pending)
  | Err e => e ≠ R7zOutOfFuel ∧ e ≠ R7zPanic
  end.

Lemma advance_loop_ok `{Nom} ext fuel self input :
  (length (sl_data input) < fuel)%nat →
  ∀ p, input = advance p (hs_data self) → 0 ≤ p ≤ sl_len (hs_data self) →
    hs_position self = p → scan_ok (default [] ext) self →
    progress_ok (hs_data self) ext p (advance_loop fuel ext self input).
Proof.
  intros Hf. pose proof (advance_loop_returns fuel ext self input Hf) as Hret.
  revert fuel self input Hf Hret.
  apply (advance_loop_ind ext (λ self input res, returns res →
    ∀ p, input = advance p (hs_data self) → 0 ≤ p ≤ sl_len (hs_data self) →
      hs_position self = p → scan_ok (default [] ext) self →
      progress_ok (hs_data self) ext p res)).
  - done.
  - intros self input Htag Hl _ p -> Hp Hpos [H1 H2 H3]. rewrite sl_len_advance in Hl by done.
    cbn [progress_ok]. rewrite !sl_len_advance by (try rewrite sl_len_advance; lia).
    split_and!; try lia; split; try done.
  - intros self input tag r self' res Htag Hl Hne Hs IH Hret p -> Hp Hpos Hok.
    rewrite sl_len_advance in Hl by done.
    destruct (scanned_suffix _ _ _ _ _ _ Htag Hs) as ((n & Hn & ->) & Hd & Hps).
    rewrite !sl_len_advance in Hn by (try rewrite sl_len_advance; lia).
    assert (progress_ok (hs_data self') ext (p + 1 + n) res) as Hpr.
    { apply (IH Hret (p + 1 + n)); cbn [hs_data hs_position set_position]; rewrite ?Hd.
      - rewrite !advance_advance by lia. f_equal. lia.
      - lia.
      - rewrite !sl_len_advance; try lia; rewrite !sl_len_advance; try lia;
          rewrite !sl_len_advance; lia.
      - assert (scan_ok (default [] ext) self') as [H1 H2 H3]; [|split; done].
        eapply scanned_ok; [exact Hok|..|exact Htag|exact Hs]; lia. }
    rewrite Hd in Hpr. destruct res as [[h c|pd]|e]; cbn in Hpr |- *; try done.
    destruct Hpr as (? & ? & ?). split_and!; try done; lia.
  - intros self input tag progress Htag Hl Hne Hs _ p -> Hp Hpos Hok.
    apply scan_section_inr in Hs as [-> Hs].
    apply HeaderScan_suspend_inv in Hs as (pd & range & -> & <- & Hr & Ha). cbn.
    split_and!; try done; try lia. by exists range.
  - intros self input tag e _ _ Hs Hret. done.
Qed.

Lemma HeaderScan_new_inv data s :
  HeaderScan_new data = Ok s →
  hs_data s = data ∧ hs_position s = 1 ∧ 1 ≤ sl_len data ∧
  hs_streams_info_range s = None ∧ hs_files_info_range s = None ∧
  hs_additional_streams_range s = None.
Proof.
  unfold HeaderScan_new. destruct (parsed _) as [[i tag]|] eqn:Ep; [|done].
  apply parsed_ok, PropertyId_parse_advance in Ep as [-> Hl].
  destruct tag; try done. intros [= <-]. cbn. rewrite sl_len_advance by lia.
  split_and!; try done; lia.
Qed.

Lemma scan_ok_new `{Nom} defs s :
  hs_streams_info_range s = None → hs_files_info_range s = None →
  hs_additional_streams_range s = None → scan_ok defs s.
Proof. intros H1 H2 H3. by split; rewrite ?H1, ?H2, ?H3. Qed.

(** The whole scan of a header. *)
Lemma header_scan_ok `{Nom} data ext :
  progress_ok data ext 1
    (let? scan := HeaderScan_new data in HeaderScan_advance scan ext).
Proof.
  destruct (HeaderScan_new data) as [s|e] eqn:En.
  2:{ unfold HeaderScan_new in En. destruct (parsed _) as [[i tag]|e'] eqn:Ep.
      - cbn. by destruct tag; simplify_eq.
      - pose proof (parsed_returns (PropertyId_parse data)) as Hr. rewrite Ep in Hr.
        by injection En as <-. }
  apply HeaderScan_new_inv in En as (<- & Hpos & Hl & H1 & H2 & H3).
  unfold HeaderScan_advance. rewrite Hpos. unfold slice_from.
  rewrite decide_True by lia. cbn [ok_or].
  apply advance_loop_ok; [lia|done|lia|done|by apply scan_ok_new].
Qed.

(** ** Lemmas: the lazy sections *)

(** What a caller supplies: bytes, and external streams of bytes under 4 GiB. *)
Definition external_ok (ext : list slice) : Prop :=
  Forall (λ e, valid_slice e ∧ sl_len e ≤ u32_max) ext.

Lemma section_slice data a b :
  0 ≤ a → a ≤ b → b ≤ sl_len data →
  slice_range a b data = Some (first_bytes (b - a) (advance a data)) ∧
  within (first_bytes (b - a) (advance a data)) data ∧
  sl_len (first_bytes (b - a) (advance a data)) = b - a.
Proof.
  intros Ha Hab Hb. unfold slice_range. rewrite decide_True by lia. split; [done|].
  split; [by exists a, b|]. apply sl_len_first. rewrite sl_len_advance; lia.
Qed.

Lemma valid_slice_within r s : within r s → valid_slice s → valid_slice r.
Proof.
  intros Hw [Hb Hl]. split; [by eapply byte_slice_within|].
  destruct Hw as (i & j & Hi & Hij & Hj & ->).
  rewrite sl_len_first; [lia|]. rewrite sl_len_advance; lia.
Qed.

(** The full parser accepts every scanned stream section. *)
Lemma stream_section_parse `{Nom} data defs range :
  valid_slice data → external_ok defs → stream_section data defs range →
  ∃ st, parse_section data range (λ s, StreamInfo_parse_with_external s data defs) (λ _, true)
        = Ok st ∧
    (∀ p, si_pack_info st = Some p → pack_info_wf p) ∧
    (∀ u, si_unpack_info st = Some u → unpack_info_wf u).
Proof.
  destruct range as [a b]. intros Hv He (Ha & Hab & Hb & Hmax & r & Hscan & Hr).
  destruct (section_slice data a b Ha Hab Hb) as (Hs & Hw & Hl).
  pose proof (stream_info_agree _ data defs (Build_stream_input_ok _ _ _
    (valid_slice_within _ _ Hw Hv) (proj2 Hv) Hw ltac:(lia) He)) as Hagree.
  rewrite Hscan in Hagree. unfold parse_section. cbn [fst snd]. rewrite Hs. cbn [ok_or].
  destruct (StreamInfo_parse_with_external _ _ _) as [[r' st]|]; [|done].
  destruct Hagree as (-> & Hp & Hu). rewrite Hr. by exists st.
Qed.

Lemma header_streams_accessible `{Nom} data defs h :
  valid_slice data → external_ok defs → header_ok data defs h → caches_empty h →
  ∃ o h', Header_try_streams_info h = (Ok o, h') ∧
    (is_Some o ↔ is_Some (hd_streams_info_range h)) ∧
    (∀ st, o = Some st → (∀ p, si_pack_info st = Some p → pack_info_wf p) ∧
                         (∀ u, si_unpack_info st = Some u → unpack_info_wf u)) ∧
    Header_try_streams_info h' = (Ok o, h').
Proof.
  intros Hv He Hok (Hc & _ & _). unfold Header_try_streams_info.
  destruct (hd_streams_info_range h) as [range|] eqn:Er.
  2:{ exists None, h. rewrite Er. split; [done|]. split; [by split; intros []|]. done. }
  rewrite Hc. cbn [get_or_init default].
  destruct (stream_section_parse data defs range Hv He (ho_streams _ _ _ Hok _ Er))
    as (st & Hst & Hp & Hu).
  unfold compute_streams. rewrite (ho_data _ _ _ Hok), (ho_external _ _ _ Hok), Hst.
  eexists (Some st), _. split; [reflexivity|]. split; [by split; eauto|].
  split; [by intros ? [= <-]|]. cbn. by rewrite Er.
Qed.

Lemma header_additional_accessible `{Nom} data h :
  valid_slice data → header_ok data [] h → caches_empty h →
  ∃ o h', Header_try_additional_streams_info h = (Ok o, h') ∧
    (is_Some o ↔ is_Some (hd_additional_streams_range h)) ∧
    Header_try_additional_streams_info h' = (Ok o, h').
Proof.
  intros Hv Hok (_ & _ & Hc). unfold Header_try_additional_streams_info.
  destruct (hd_additional_streams_range h) as [range|] eqn:Er.
  2:{ exists None, h. rewrite Er. split; [done|]. split; [by split; intros []|]. done. }
  rewrite Hc. cbn [get_or_init default].
  destruct (stream_section_parse data [] range Hv (Forall_nil_2 _)
              (ho_additional _ _ _ Hok _ Er)) as (st & Hst & _).
  unfold compute_additional. rewrite (ho_data _ _ _ Hok). fold StreamInfo_parse.
  unfold StreamInfo_parse. rewrite Hst.
  eexists (Some st), _. split; [reflexivity|]. split; [by split; eauto|]. cbn. by rewrite Er.
Qed.

Lemma header_result_inv backing scanned rest h :
  header_result backing scanned = Ok (rest, h) →
  ∃ c, scanned = Ok (Complete h c) ∧ rest = advance c backing.
Proof. destruct scanned as [[h' c|]|]; cbn; [|done..]. intros [= <- <-]. by exists c. Qed.

(** A file section that parses keeps the scanned count and its tables' lengths. *)
Lemma header_files_wf `{Nom} data defs h f h' :
  valid_slice data → header_ok data defs h → caches_empty h →
  Header_try_files_info h = (Ok (Some f), h') →
  files_wf f ∧ fi_num_files f = hd_num_files h ∧
  Header_try_files_info h' = (Ok (Some f), h').
Proof.
  intros Hv Hok (_ & Hc & _). unfold Header_try_files_info.
  destruct (hd_files_info_range h) as [[a b]|] eqn:Er; [|done]. rewrite Hc.
  cbn [get_or_init default]. destruct (compute_files h (a, b)) as [f'|] eqn:Ef; [|done].
  intros [= <- <-]. cbn. rewrite Er. split_and!; [| |done];
    unfold compute_files, parse_section in Ef; cbn [fst snd] in Ef;
    rewrite (ho_data _ _ _ Hok) in Ef;
    destruct (ho_files _ _ _ Hok _ Er) as (Ha & Hab & Hb & _);
    destruct (section_slice data a b Ha Hab Hb) as (Hs & Hw & _);
    rewrite Hs in Ef; cbn [ok_or] in Ef;
    destruct (FilesInfo_parse_with_external _ _ _) as [[r f2]|] eqn:Ep; try done;
    destruct (sl_empty r); cbn in Ef; try done; case_bool_decide as Hn; simplify_eq; [|done].
  apply FilesInfo_parse_wf in Ep as [? _]; [done|].
  by eapply byte_slice_within, (proj1 Hv).
Qed.

(** ** Lemmas: resumption *)

(** A section that scans without external streams scans the same with any. *)
Lemma scanned_any_external `{Nom} self input tag r self' ext :
  scanned self None input tag r self' → tag ≠ P_END →
  scan_section self (Some ext) input (advance 1 input) tag = Ok (inl (r, self')).
Proof.
  intros [tag' main r' range -> _ Hs Hrange|r' count uses range Hs _ Hrange|r' Hs
         |tag' r1 size r' Ht Hd Hu Hf] Hne; unfold scan_section; cbv zeta.
  - apply (scan_stream_info_no_external _ ext) in Hs. cbn [default] in *.
    apply parsed_ok in Hs. by destruct main; cbn; rewrite Hs, Hrange.
  - apply parsed_ok in Hs. rewrite Hs, decide_False by naive_solver. by rewrite Hrange.
  - apply parsed_ok in Hs. by rewrite Hs.
  - apply parsed_ok in Hd.
    destruct tag'; first [exfalso; apply Ht; rewrite !elem_of_cons; tauto
      |rewrite Hd; cbv beta iota; rewrite Hu; cbn [ok_or]; by rewrite Hf].
Qed.

(** Resuming a suspended scan is scanning on from the start with the external
    streams. *)
Lemma resume_loop `{Nom} ext fuel self input :
  (length (sl_data input) < fuel)%nat →
  ∀ p, input = advance p (hs_data self) → 0 ≤ p ≤ sl_len (hs_data self) → hs_position self = p →
  match advance_loop fuel None self input with
  | Ok (Pending pd) =>
      HeaderScan_advance (ph_scan pd) (Some ext) = advance_loop fuel (Some ext) self input
  | _ => True
  end.
Proof.
  revert self input. induction fuel as [|fuel IH]; intros self input Hf p -> Hp Hpos; [done|].
  destruct (PropertyId_parse (advance p (hs_data self))) as [[i tag]|e] eqn:Ep;
    [|cbn [advance_loop]; by rewrite Ep].
  destruct (PropertyId_parse_advance _ _ _ Ep) as [-> Hl]. rewrite sl_len_advance in Hl by done.
  destruct (decide (tag = P_END)) as [->|Hne]; [cbn [advance_loop]; by rewrite Ep|].
  rewrite !(advance_loop_step _ _ _ _ _ Ep Hne).
  destruct (scan_section self None _ _ _) as [[[r self']|progress]|e] eqn:Es; [| |done].
  - apply scan_section_inl in Es; [|done].
    destruct (scanned_suffix _ _ _ _ _ _ Ep Es) as ((n & Hn & ->) & Hd & _).
    rewrite (scanned_any_external _ _ _ _ _ ext Es Hne).
    rewrite !sl_len_advance in Hn by (try rewrite sl_len_advance; lia).
    assert (advance n (advance 1 (advance p (hs_data self))) = advance (p + 1 + n) (hs_data self))
      as Hadv by (rewrite !advance_advance by lia; f_equal; lia).
    rewrite Hadv. apply IH with (p := p + 1 + n); cbn [hs_data hs_position set_position];
      rewrite ?Hd, ?sl_len_advance by lia; try lia; [|done].
    unfold sl_len, zlen in *. cbn [sl_data advance] in *. rewrite !length_drop in *. lia.
  - apply scan_section_inr in Es as [_ Es].
    apply HeaderScan_suspend_inv in Es as (pd & range & -> & Hpd & _). cbn.
    unfold HeaderScan_advance. rewrite Hpd, Hpos. unfold slice_from. rewrite decide_True by done.
    cbn [ok_or]. rewrite <- (advance_loop_step _ _ _ _ _ Ep Hne).
    apply advance_loop_fuel; [lia|done].
Qed.

(** ** Lemmas: the encoded header *)

(** The first step of an iteration that completes. *)
Lemma FolderPlans_collect_first `{Nom} fuel st l ls st' :
  FolderPlans_collect fuel st = Ok (l :: ls, st') → fst (FolderPlans_next st) = Some (Ok l).
Proof.
  destruct fuel as [|fuel]; cbn [FolderPlans_collect]; [done|].
  destruct (FolderPlans_next st) as [[[x|e]|] st1]; [|done..].
  destruct (FolderPlans_collect fuel st1) as [[tl st2]|]; [|done]. by intros [= -> _ _].
Qed.

(** ** Properties *)

(** C29. Every stream section that the zero-allocation scan of a plain header
    accepts is accepted by the full parser when it is first accessed: neither
    accessor of a parsed header ever fails, a section is there exactly when the scan
    saw it, its descriptors satisfy their invariants, and a second access returns
    the same section and leaves the header as it is. *)
Theorem header_sections_accessible `{Nom} backing rest h :
  valid_slice backing → Header_parse backing = Ok (rest, h) →
  suffix_of rest backing ∧
  (∃ o h', Header_try_streams_info h = (Ok o, h') ∧
     (is_Some o ↔ is_Some (hd_streams_info_range h)) ∧
     (∀ st, o = Some st → (∀ p, si_pack_info st = Some p → pack_info_wf p) ∧
                          (∀ u, si_unpack_info st = Some u → unpack_info_wf u)) ∧
     Header_try_streams_info h' = (Ok o, h')) ∧
  (∃ o h', Header_try_additional_streams_info h = (Ok o, h') ∧
     (is_Some o ↔ is_Some (hd_additional_streams_range h)) ∧
     Header_try_additional_streams_info h' = (Ok o, h')).
Proof.
  intros Hv (c & Hs & ->)%header_result_inv. pose proof (header_scan_ok backing None) as Hok.
  rewrite Hs in Hok. destruct Hok as (Hok & Hc & Hb).
  split; [apply suffix_of_advance; lia|]. split.
  - by eapply header_streams_accessible; [| |exact Hok|]; [|apply Forall_nil_2|].
  - by eapply header_additional_accessible.
Qed.

(** The same for a header parsed with external streams: its main streams,
    whose folders may be defined in them, are accessible, and so is what they hold. *)
Theorem external_header_streams_accessible `{Nom} backing ext rest h :
  valid_slice backing → external_ok ext →
  Header_parse_with_external backing ext = Ok (rest, h) →
  ∃ o h', Header_try_streams_info h = (Ok o, h') ∧
     (is_Some o ↔ is_Some (hd_streams_info_range h)) ∧
     (∀ st, o = Some st → (∀ p, si_pack_info st = Some p → pack_info_wf p) ∧
                          (∀ u, si_unpack_info st = Some u → unpack_info_wf u)) ∧
     Header_try_streams_info h' = (Ok o, h').
Proof.
  intros Hv He (c & Hs & ->)%header_result_inv.
  pose proof (header_scan_ok backing (Some ext)) as Hok. rewrite Hs in Hok.
  destruct Hok as (Hok & Hc & _). by eapply header_streams_accessible; [| |exact Hok|].
Qed.

(** The file listing of a parsed header, when it parses at all, has the count
    the scan reported, a name block of exactly that many names or none, and value
    tables of that length or none; a second access returns the same listing. *)
Theorem header_files_consistent `{Nom} backing ext rest h f h' :
  valid_slice backing → Header_parse_with_external backing ext = Ok (rest, h) →
  Header_try_files_info h = (Ok (Some f), h') →
  files_wf f ∧ fi_num_files f = hd_num_files h ∧
  Header_try_files_info h' = (Ok (Some f), h').
Proof.
  intros Hv (c & Hs & ->)%header_result_inv.
  pose proof (header_scan_ok backing (Some ext)) as Hok. rewrite Hs in Hok.
  destruct Hok as (Hok & Hc & _). by eapply header_files_wf.
Qed.

(** Suspending a header scan loses nothing: resuming it with the decoded
    external streams gives exactly the header that scanning it from the start with
    those streams gives (and fails when that fails or leaves bytes), and the
    descriptor handed to the decoder is the additional section the scan recorded. *)
Theorem suspended_header_resumes `{Nom} data p ext h :
  Header_resolve_archive data = Ok (RequiresExternalFolders p) →
  (PendingHeader_resolve_with p (λ _, Ok ext) = Ok h ↔
   ∃ rest, Header_parse_with_external data ext = Ok (rest, h) ∧ sl_len rest = 0) ∧
  ∃ range, hs_additional_streams_range (ph_scan p) = Some range ∧
    parse_section data range (λ b, StreamInfo_parse b data) (λ _, true) = Ok (ph_additional p).
Proof.
  unfold Header_resolve_archive, Header_parse_with_external, PendingHeader_resolve_with.
  intros Hr. pose proof (header_scan_ok data None) as Hnone.
  pose proof (header_scan_ok data (Some ext)) as Hsome.
  destruct (HeaderScan_new data) as [s|] eqn:En; [|done].
  apply HeaderScan_new_inv in En as (<- & Hpos & Hl & _).
  assert (HeaderScan_advance (ph_scan p) (Some ext) = HeaderScan_advance s (Some ext)) as Heq.
  { unfold HeaderScan_advance at 2. unfold HeaderScan_advance at 1 in Hr. rewrite Hpos in *.
    unfold slice_from in *. rewrite decide_True in * by lia. cbn [ok_or] in *.
    pose proof (resume_loop ext _ s (advance 1 (hs_data s)) (Nat.lt_succ_diag_r _) 1 eq_refl
      ltac:(lia) Hpos) as Hres.
    destruct (advance_loop _ None s _) as [[h' c|pd]|e]; [| |done].
    - cbn in Hr. case_decide; cbn in Hr; congruence.
    - injection Hr as ->. exact Hres. }
  split.
  - rewrite Heq. destruct (HeaderScan_advance s (Some ext)) as [[h' c|pd]|e];
      cbn in Hsome |- *; [|split; [done|by intros (? & ? & _)]..].
    destruct Hsome as (Hok & _ & Hc). rewrite (ho_data _ _ _ Hok). split.
    + case_decide as Hlen; [|done]. intros [= <-]. eexists. split; [done|].
      rewrite sl_len_advance; lia.
    + intros (rest & [= <- <-] & Hrest). rewrite sl_len_advance in Hrest by lia.
      by rewrite decide_True by lia.
  - destruct (HeaderScan_advance s None) as [[h' c|pd]|e]; [| |done].
    + cbn in Hr. case_decide; cbn in Hr; congruence.
    + injection Hr as ->. apply Hnone.
Qed.

(** Resolving an archive header completes without a panic on any bytes, and
    yields a header exactly when [Header::parse] consumes all of them. *)
Theorem header_resolution_complete `{Nom} data :
  returns (Header_resolve_archive data) ∧
  ∀ h, Header_resolve_archive data = Ok (ResolvedComplete h) ↔
       ∃ rest, Header_parse data = Ok (rest, h) ∧ sl_len rest = 0.
Proof.
  unfold Header_resolve_archive, Header_parse. pose proof (header_scan_ok data None) as Hok.
  destruct (HeaderScan_new data) as [s|e].
  2:{ split; [exact Hok|]. intros h. split; [done|by intros (? & ? & _)]. }
  destruct (HeaderScan_advance s None) as [[h' c|pd]|e]; cbn in Hok |- *.
  - destruct Hok as (Hok & _ & Hc). rewrite (ho_data _ _ _ Hok). split.
    + by case_decide.
    + intros h. split.
      * case_decide as Hlen; cbn; [|done]. intros [= <-]. eexists. split; [done|].
        rewrite sl_len_advance; lia.
      * intros (rest & [= <- <-] & Hrest). rewrite sl_len_advance in Hrest by lia.
        by rewrite decide_True by lia.
  - split; [done|]. intros h. split; [done|by intros (? & ? & _)].
  - split; [done|]. intros h. split; [done|by intros (? & ? & _)].
Qed.

(** The folder of an encoded header is the only one of its descriptor, and its
    layout takes the one packed stream and all the coder sizes. *)
Theorem encoded_header_folder_complete `{Nom} h limit l :
  EncodedHeader_folder h limit = Ok l →
  plans_complete (eh_pack_info h) (eh_unpack_info h) None [l] ∧
  lo_unpack_size l ≤ limit ∧ sum_z (pack_size (eh_pack_info h)) ≤ limit.
Proof.
  unfold EncodedHeader_folder. case_decide as Hone; [|done]. destruct Hone as (_ & _ & _ & Hn).
  destruct (FolderLayouts_preflight _ _ _ _) as [pf|] eqn:Ep; [|done].
  apply preflight_collect in Ep as (Hnew & ls & st & Hc & Hcomp & Hsize & Hpack & Hlim & _).
  destruct (pc_folders _ _ _ _ Hcomp) as [_ Hlen]. rewrite Hn in Hlen.
  destruct ls as [|l1 [|l2 ls]]; [done| |rewrite !zlen_cons in Hlen;
    pose proof (zlen_nonneg ls); lia].
  rewrite (FolderPlans_collect_first _ _ _ _ _ Hc). cbn [ok_or]. intros [= ->].
  specialize (Hlim ltac:(done)). rewrite Hsize in Hlim. unfold sum_z in Hlim at 1. cbn in Hlim.
  split_and!; [done|lia|lia].
Qed.

(** Validating the start header compares the stored CRC with the CRC of the
    very bytes 12 to 32 of the input the header was parsed from, and the stored CRC
    is bytes 8 to 12. *)
Theorem signature_crc_covers_input `{Crc32} input rest h :
  byte_slice input → SignatureHeader_parse input = Ok (rest, h) →
  rest = advance 32 input ∧
  sh_signature h = sub_bytes 0 6 input ∧
  SignatureHeader_start_bytes h = sub_bytes 12 32 input ∧
  (SignatureHeader_validate_start_header_crc h = Ok tt ↔
   crc32 (sub_bytes 12 32 input) = from_le_bytes (sub_bytes 8 12 input)).
Proof.
  intros Hb. unfold SignatureHeader_parse. case_decide as Hl; [done|]. intros [= <- <-].
  assert (∀ a b : nat, (a ≤ b ≤ 32)%nat →
    to_le_bytes (b - a) (from_le_bytes (sub_bytes a b input)) = sub_bytes a b input) as Hto.
  { intros a b Hab. assert (length (sub_bytes a b input) = (b - a)%nat) as Hlen.
    { unfold sub_bytes, sl_len, zlen in *. rewrite length_take, length_drop. lia. }
    rewrite <- Hlen at 1. apply to_from_le_bytes. by apply Forall_take, Forall_drop. }
  assert (SignatureHeader_start_bytes
    {| sh_signature := sub_bytes 0 6 input;
       sh_major_version := from_le_bytes (sub_bytes 6 7 input);
       sh_minor_version := from_le_bytes (sub_bytes 7 8 input);
       sh_start_header_crc := from_le_bytes (sub_bytes 8 12 input);
       sh_next_header_offset := from_le_bytes (sub_bytes 12 20 input);
       sh_next_header_size := from_le_bytes (sub_bytes 20 28 input);
       sh_next_header_crc := from_le_bytes (sub_bytes 28 32 input) |}
    = sub_bytes 12 32 input) as Hstart.
  { unfold SignatureHeader_start_bytes; cbn [sh_next_header_offset sh_next_header_size
      sh_next_header_crc].
    pose proof (Hto 12 20 ltac:(lia))%nat as H1. pose proof (Hto 20 28 ltac:(lia))%nat as H2.
    pose proof (Hto 28 32 ltac:(lia))%nat as H3. cbn [Nat.sub] in H1, H2, H3.
    rewrite H1, H2, H3. unfold sub_bytes. cbn [Nat.sub].
    symmetry. rewrite (take_split 8 12), (take_split 8 4), !drop_drop. done. }
  split_and!; [done|done|done|]. unfold SignatureHeader_validate_start_header_crc.
  rewrite Hstart. cbn [sh_start_header_crc]. case_decide; by split.
Qed.

(** ** Witnesses *)

(** A plain header: main streams with one Copy folder, and one file name. *)
Definition sample_header_bytes : slice :=
  Slice 4096 [1; 4; 6; 0; 1; 9; 4; 0; 7; 11; 1; 0; 1; 1; 0; 12; 4; 0; 8; 0; 0;
              5; 1; 17; 5; 0; 97; 0; 0; 0; 0; 0].
(** A header whose file name is in the first of its additional streams. *)
Definition sample_pending_bytes : slice :=
  Slice 4096 [1; 3; 6; 0; 1; 9; 4; 0; 7; 11; 1; 0; 1; 1; 0; 12; 4; 0; 8; 0; 0;
              5; 1; 17; 2; 1; 0; 0; 0].
Definition sample_external : list slice := [Slice 9000 [65; 0; 0; 0]].

Definition empty_header : Header :=
  {| hd_data := Slice 0 []; hd_streams_info_range := None; hd_files_info_range := None;
     hd_additional_streams_range := None; hd_external_folder_data := []; hd_num_files := 0;
     hd_streams_cache := None; hd_files_cache := None; hd_additional_streams_cache := None |}.

Definition parsed_sample (r : IResult Header) : slice * Header :=
  default (Slice 0 [], empty_header) (result_ok r).
Definition sample_plain := parsed_sample (Header_parse sample_header_bytes).
Definition sample_resumed :=
  parsed_sample (Header_parse_with_external sample_pending_bytes sample_external).

Lemma header_sections_accessible_witness :
  suffix_of (fst sample_plain) sample_header_bytes ∧
  (∃ o h', Header_try_streams_info (snd sample_plain) = (Ok o, h') ∧
     (is_Some o ↔ is_Some (hd_streams_info_range (snd sample_plain))) ∧
     (∀ st, o = Some st → (∀ p, si_pack_info st = Some p → pack_info_wf p) ∧
                          (∀ u, si_unpack_info st = Some u → unpack_info_wf u)) ∧
     Header_try_streams_info h' = (Ok o, h')) ∧
  (∃ o h', Header_try_additional_streams_info (snd sample_plain) = (Ok o, h') ∧
     (is_Some o ↔ is_Some (hd_additional_streams_range (snd sample_plain))) ∧
     Header_try_additional_streams_info h' = (Ok o, h')).
Proof.
  apply (header_sections_accessible sample_header_bytes).
  - split; [repeat constructor; vm_compute; done|vm_compute; done].
  - vm_compute. reflexivity.
Defined.

Lemma external_header_streams_accessible_witness :
  ∃ o h', Header_try_streams_info (snd sample_resumed) = (Ok o, h') ∧
     (is_Some o ↔ is_Some (hd_streams_info_range (snd sample_resumed))) ∧
     (∀ st, o = Some st → (∀ p, si_pack_info st = Some p → pack_info_wf p) ∧
                          (∀ u, si_unpack_info st = Some u → unpack_info_wf u)) ∧
     Header_try_streams_info h' = (Ok o, h').
Proof.
  apply (external_header_streams_accessible sample_pending_bytes sample_external
           (fst sample_resumed)).
  - split; [repeat constructor; vm_compute; done|vm_compute; done].
  - repeat constructor; vm_compute; done.
  - vm_compute. reflexivity.
Defined.

Definition sample_files : option FilesInfo * Header :=
  let '(r, h) := Header_try_files_info (snd sample_resumed) in (mjoin (result_ok r), h).

Lemma header_files_consistent_witness :
  ∃ f, fst sample_files = Some f ∧ files_wf f ∧
    fi_num_files f = hd_num_files (snd sample_resumed) ∧
    Header_try_files_info (snd sample_files) = (Ok (Some f), snd sample_files).
Proof.
  destruct (fst sample_files) as [f|] eqn:E; [|exfalso; vm_compute in E; done].
  exists f. split; [reflexivity|].
  apply (header_files_consistent sample_pending_bytes sample_external (fst sample_resumed)).
  - split; [repeat constructor; vm_compute; done|vm_compute; done].
  - vm_compute. reflexivity.
  - vm_compute in E. injection E as <-. vm_compute. reflexivity.
Defined.

Definition sample_pending : PendingHeader :=
  match Header_resolve_archive sample_pending_bytes with
  | Ok (RequiresExternalFolders p) => p
  | _ => {| ph_scan := {| hs_data := Slice 0 []; hs_position := 0; hs_streams_info_range := None;
                          hs_files_info_range := None; hs_additional_streams_range := None;
                          hs_num_files := 0 |};
            ph_additional := {| si_pack_info := None; si_unpack_info := None;
                                si_substream_info := None |} |}
  end.

Lemma suspended_header_resumes_witness :
  PendingHeader_resolve_with sample_pending (λ _, Ok sample_external)
  = Ok (snd sample_resumed).
Proof.
  apply (suspended_header_resumes sample_pending_bytes sample_pending sample_external
           (snd sample_resumed)).
  - vm_compute. reflexivity.
  - exists (fst sample_resumed). split; vm_compute; reflexivity.
Defined.

Definition sample_encoded : EncodedHeader :=
  {| eh_pack_info := {| pack_pos := 0; num_pack_streams := 1; pack_size := [9];
                        pack_digests := [None] |};
     eh_unpack_info := {| num_folders := 1; folder_data := Slice 100 [1; 1; 0];
                          folder_offsets := [0; 3]; unpack_sizes := [9];
                          unpack_digests := [Some 5] |} |}.

Lemma encoded_header_folder_complete_witness :
  ∃ l, EncodedHeader_folder sample_encoded 100 = Ok l ∧
    plans_complete (eh_pack_info sample_encoded) (eh_unpack_info sample_encoded) None [l] ∧
    lo_unpack_size l ≤ 100 ∧ sum_z (pack_size (eh_pack_info sample_encoded)) ≤ 100.
Proof.
  destruct (EncodedHeader_folder sample_encoded 100) as [l|] eqn:E;
    [|exfalso; vm_compute in E; done].
  exists l. split; [reflexivity|]. exact (encoded_header_folder_complete _ _ _ E).
Defined.

Definition zero_crc : Crc32 :=
  {| crc32 := λ _, 0; crc32_u32 := λ _, conj (Z.le_refl 0) eq_refl |}.

Definition sample_signature_bytes : slice :=
  Slice 0 [55; 122; 188; 175; 39; 28; 0; 4; 0; 0; 0; 0; 5; 0; 0; 0; 0; 0; 0; 0;
           7; 0; 0; 0; 0; 0; 0; 0; 1; 2; 3; 4].
Definition sample_signature : SignatureHeader :=
  {| sh_signature := [55; 122; 188; 175; 39; 28]; sh_major_version := 0;
     sh_minor_version := 4; sh_start_header_crc := 0; sh_next_header_offset := 5;
     sh_next_header_size := 7; sh_next_header_crc := 67305985 |}.

Lemma signature_crc_covers_input_witness :
  Slice 32 [] = advance 32 sample_signature_bytes ∧
  sh_signature sample_signature = sub_bytes 0 6 sample_signature_bytes ∧
  SignatureHeader_start_bytes sample_signature = sub_bytes 12 32 sample_signature_bytes ∧
  (@SignatureHeader_validate_start_header_crc zero_crc sample_signature = Ok tt ↔
   @crc32 zero_crc (sub_bytes 12 32 sample_signature_bytes)
   = from_le_bytes (sub_bytes 8 12 sample_signature_bytes)).
Proof.
  apply (@signature_crc_covers_input zero_crc).
  - repeat constructor; vm_compute; done.
  - vm_compute. reflexivity.
Defined.
