(* ===== verification/WriteHeader.v ===== *)
(** * The header writer (src/src/write/header.rs and src/src/write/model.rs)

    The coder blocks, the header and the encoded-header descriptor the archive
    writer emits. A function that extends the buffer [h] is the bytes it appends. *)

From stdpp Require Import base numbers list option strings.
From Stdlib Require Import ZArith Lia.
From S2P Require Import Prelude PropertyId Parsers Method CoderInfo Folder PackInfo StreamInfo FilesInfo FolderDecode.

(** ** The write model *)

Inductive WriteEntryKind := WriteFile | WriteDirectory | WriteAnti.

#[global] Instance WriteEntryKind_eq_dec : EqDecision WriteEntryKind.
Proof. solve_decision. Defined.

(** A [SystemTime] is its distance from the Unix epoch in nanoseconds. *)
Abbreviation SystemTime := Z (only parsing).

Record EntryMeta := {
  em_ctime : option SystemTime;
  em_atime : option SystemTime;
  em_mtime : option SystemTime;
  em_attributes : option Z;
  em_start_pos : option Z
}.

Definition EntryMeta_default : EntryMeta :=
  {| em_ctime := None; em_atime := None; em_mtime := None; em_attributes := None;
     em_start_pos := None |}.

Definition with_attributes (a : Z) : EntryMeta :=
  {| em_ctime := None; em_atime := None; em_mtime := None; em_attributes := Some a;
     em_start_pos := None |}.

(** [mode << 16] drops the bits shifted out of the [u32]. *)
Definition EntryMeta_from_unix_mode (mode : Z) : EntryMeta :=
  with_attributes (Z.lor (Z.shiftl mode 16 mod 2 ^ 32) 32).
Definition EntryMeta_directory_unix_mode (mode : Z) : EntryMeta :=
  with_attributes (Z.lor (Z.shiftl mode 16 mod 2 ^ 32) 16).
Definition EntryMeta_archive_file : EntryMeta := with_attributes 32.
(** [0o120_777]. *)
Definition symlink_mode : Z := 41471.
Definition EntryMeta_symlink : EntryMeta :=
  with_attributes (Z.lor (Z.shiftl symlink_mode 16) 32).
Definition EntryMeta_with_symlink_default (self : EntryMeta) : EntryMeta :=
  {| em_ctime := em_ctime self; em_atime := em_atime self; em_mtime := em_mtime self;
     em_attributes := match em_attributes self with
                      | None => Some (Z.lor (Z.shiftl symlink_mode 16) 32)
                      | Some a => Some a
                      end;
     em_start_pos := em_start_pos self |}.

Inductive WriteEntryStream := EmptyStream | Buffered (data : bytes) | Streaming.

Definition WriteEntryStream_has_stream (self : WriteEntryStream) : bool :=
  match self with EmptyStream => false | _ => true end.
Definition WriteEntryStream_buffered_data (self : WriteEntryStream) : option bytes :=
  match self with Buffered data => Some data | EmptyStream | Streaming => None end.

(** A name is its scalar values. *)
Record WriteEntry := {
  we_name : list Z;
  we_raw_name : option bytes;
  we_kind : WriteEntryKind;
  we_meta : EntryMeta;
  we_stream : WriteEntryStream;
  we_folder_id : Z
}.

Record CompletedFolder := {
  cf_file_indices : list Z;
  cf_pack_sizes : list Z;
  cf_coder_info : bytes;
  cf_coder_unpack_sizes : list Z;
  cf_folder_crc : option Z;
  cf_file_sizes : list Z;
  cf_file_crcs : list (option Z)
}.

(** ** Coder blocks *)

Definition encode_coder_info_copy : bytes := sevenzip_varuint64_encode 1 ++ [1; 0].

Definition encode_coder_info_lzma (props : bytes) : bytes :=
  sevenzip_varuint64_encode 1 ++ [35; 3; 1; 1] ++ sevenzip_varuint64_encode 5 ++ props.

Definition encode_coder_info_lzma2 (props_byte : Z) : bytes :=
  sevenzip_varuint64_encode 1 ++ [33; 33] ++ sevenzip_varuint64_encode 1 ++ [props_byte].

Definition encode_coder_info_ppmd (props : bytes) : bytes :=
  sevenzip_varuint64_encode 1 ++ [35; 3; 4; 1] ++ sevenzip_varuint64_encode 5 ++ props.

Definition encode_coder_info_bcj_lzma2 (props_byte : Z) : bytes :=
  sevenzip_varuint64_encode 2 ++ [33; 33] ++ sevenzip_varuint64_encode 1 ++ [props_byte] ++
  [4; 3; 3; 1; 3] ++ sevenzip_varuint64_encode 1 ++ sevenzip_varuint64_encode 0.

Inductive CoderSpec :=
| SpecCopy | SpecLzma (props : bytes) | SpecLzma2 (prop : Z) | SpecPpmd (props : bytes) | SpecBcj.

(** The bytes one inner coder adds. *)
Definition encode_coder_spec (spec : CoderSpec) : bytes :=
  match spec with
  | SpecCopy => [1; 0]
  | SpecLzma props => [35; 3; 1; 1] ++ sevenzip_varuint64_encode 5 ++ props
  | SpecLzma2 prop => [33; 33] ++ sevenzip_varuint64_encode 1 ++ [prop]
  | SpecPpmd props => [35; 3; 4; 1] ++ sevenzip_varuint64_encode 5 ++ props
  | SpecBcj => [4; 3; 3; 1; 3]
  end.

Definition encode_coder_info_aes_then (inner : list CoderSpec) (aes_props : bytes) : bytes :=
  sevenzip_varuint64_encode (1 + zlen inner) ++ [36; 6; 241; 7; 1] ++
  sevenzip_varuint64_encode (zlen aes_props) ++ aes_props ++
  concat (map encode_coder_spec inner) ++
  concat (map (λ out_idx, sevenzip_varuint64_encode (out_idx + 1) ++
                          sevenzip_varuint64_encode out_idx) (seqZ 0 (zlen inner))).

(** ** Bitmaps and digests *)

(** [out[idx / 8] |= 1 << (7 - idx % 8)] for the true values. *)
Definition set_bit (out : bytes) (idx : nat) : bytes :=
  match out !! (idx / 8)%nat with
  | Some b => <[(idx / 8)%nat := Z.lor b (Z.shiftl 1 (7 - Z.of_nat (idx mod 8)))]> out
  | None => out
  end.

Definition bools_to_bytes (values : list bool) : bytes :=
  foldl (λ out '(idx, value), if value : bool then set_bit out idx else out)
        (replicate (Z.to_nat (div_ceil (zlen values) 8)) 0)
        (zip (seq 0 (length values)) values).

Definition u8_from_bool (b : bool) : Z := if b then 1 else 0.
Definition is_defined {A} (o : option A) : bool := bool_decide (is_Some o).
(** [values.into_iter().flatten()]. *)
Definition flatten {A} (values : list (option A)) : list A := omap id values.

Definition write_optional_crcs (crcs : list (option Z)) : bytes :=
  if negb (existsb is_defined crcs) then [] else
  let all_defined := forallb is_defined crcs in
  [10; u8_from_bool all_defined] ++
  (if all_defined then [] else bools_to_bytes (map is_defined crcs)) ++
  concat (map (to_le_bytes 4) (flatten crcs)).

(** ** Stream descriptors *)

Definition write_pack_info (folders : list CompletedFolder) : bytes :=
  let num_pack_streams := foldr Z.add 0 (map (λ f, zlen (cf_pack_sizes f)) folders) in
  [6] ++ sevenzip_varuint64_encode 0 ++ sevenzip_varuint64_encode num_pack_streams ++ [9] ++
  concat (map (λ f, concat (map sevenzip_varuint64_encode (cf_pack_sizes f))) folders) ++ [0].

Definition write_folder_crcs (folders : list CompletedFolder) : bytes :=
  write_optional_crcs (map cf_folder_crc folders).

Definition write_unpack_info (folders : list CompletedFolder) : bytes :=
  [7; 11] ++ sevenzip_varuint64_encode (zlen folders) ++ [0] ++
  concat (map cf_coder_info folders) ++ [12] ++
  concat (map (λ f, concat (map sevenzip_varuint64_encode (cf_coder_unpack_sizes f))) folders) ++
  write_folder_crcs folders ++ [0].

(** [&file_sizes[..file_sizes.len().saturating_sub(1)]]. *)
Definition all_but_last (sizes : list Z) : list Z := take (length sizes - 1) sizes.

Definition write_substreams_info (folders : list CompletedFolder) : bytes :=
  [8] ++
  (if existsb (λ f, bool_decide (zlen (cf_file_indices f) ≠ 1)) folders
   then [13] ++ concat (map (λ f, sevenzip_varuint64_encode (zlen (cf_file_indices f))) folders)
   else []) ++
  (if existsb (λ f, bool_decide (1 < zlen (cf_file_indices f))) folders
   then [9] ++ concat (map (λ f, concat (map sevenzip_varuint64_encode
                                          (all_but_last (cf_file_sizes f)))) folders)
   else []) ++
  write_optional_crcs (concat (map cf_file_crcs folders)) ++ [0].

(** ** The file listing *)

Definition system_time_to_filetime (t : SystemTime) : Z :=
  if decide (0 ≤ t) then
    let secs := saturating_add (t / 1000000000) 11644473600 in
    let subsec_ticks := (t mod 1000000000) / 100 in
    saturating_add (saturating_mul secs 10000000) subsec_ticks
  else 0.

(** [write_u64_property] and [write_u32_property]: values of [w] bytes. *)
Definition write_property (w : nat) (tag : Z) (values : list (option Z)) : bytes :=
  if negb (existsb is_defined values) then [] else
  let all_defined := forallb is_defined values in
  let bitmap := if all_defined then [] else bools_to_bytes (map is_defined values) in
  let data_len := zlen (filter (λ v, is_Some v) values) * Z.of_nat w in
  let size := 1 + zlen bitmap + 1 + data_len in
  [tag] ++ sevenzip_varuint64_encode size ++ [u8_from_bool all_defined] ++ bitmap ++ [0] ++
  concat (map (to_le_bytes w) (flatten values)).

Definition write_u64_property (tag : Z) (entries : list WriteEntry)
    (value : WriteEntry → option Z) : bytes := write_property 8 tag (map value entries).
Definition write_u32_property (tag : Z) (entries : list WriteEntry)
    (value : WriteEntry → option Z) : bytes := write_property 4 tag (map value entries).
Definition write_time_property (tag : Z) (entries : list WriteEntry)
    (value : WriteEntry → option SystemTime) : bytes :=
  write_u64_property tag entries (λ entry, system_time_to_filetime <$> value entry).

(** A size-prefixed bitmap under its tag. *)
Definition write_bitmap (tag : Z) (values : list bool) : bytes :=
  let b := bools_to_bytes values in [tag] ++ sevenzip_varuint64_encode (zlen b) ++ b.

Definition has_stream (e : WriteEntry) : bool := WriteEntryStream_has_stream (we_stream e).

Definition write_empty_properties (entries : list WriteEntry) : bytes :=
  let empty := map (λ e, negb (has_stream e)) entries in
  if negb (existsb id empty) then [] else
  let streamless := filter (λ e, has_stream e = false) entries in
  let empty_files := map (λ e, bool_decide (we_kind e = WriteFile)) streamless in
  let anti := map (λ e, bool_decide (we_kind e = WriteAnti)) streamless in
  write_bitmap 14 empty ++
  (if existsb id empty_files then write_bitmap 15 empty_files else []) ++
  (if existsb id anti then write_bitmap 16 anti else []).

(** The name of an entry, in UTF-16 code units of two bytes. *)
Definition entry_name_bytes (e : WriteEntry) : bytes :=
  match we_raw_name e with
  | Some raw => raw
  | None => concat (map (to_le_bytes 2) (encode_utf16 (we_name e)))
  end.

Definition write_names (entries : list WriteEntry) : bytes :=
  let name_data := concat (map (λ e, entry_name_bytes e ++ [0; 0]) entries) in
  [17] ++ sevenzip_varuint64_encode (1 + zlen name_data) ++ [0] ++ name_data.

Definition write_files_info (entries : list WriteEntry) : bytes :=
  [5] ++ sevenzip_varuint64_encode (zlen entries) ++
  write_empty_properties entries ++
  write_names entries ++
  write_time_property 18 entries (λ e, em_ctime (we_meta e)) ++
  write_time_property 19 entries (λ e, em_atime (we_meta e)) ++
  write_time_property 20 entries (λ e, em_mtime (we_meta e)) ++
  write_u64_property 24 entries (λ e, em_start_pos (we_meta e)) ++
  write_u32_property 21 entries (λ e, em_attributes (we_meta e)) ++
  [0].

(** ** Headers *)

Definition build_header (entries : list WriteEntry) (folders : list CompletedFolder) : bytes :=
  [1] ++
  (match folders with
   | [] => []
   | _ => [4] ++ write_pack_info folders ++ write_unpack_info folders ++
          write_substreams_info folders ++ [0]
   end) ++
  write_files_info entries ++ [0].

Definition build_encoded_header_descriptor (pack_pos pack_size : Z) (coder_info : bytes)
    (coder_unpack_sizes : list Z) : bytes :=
  [23; 6] ++ sevenzip_varuint64_encode pack_pos ++ sevenzip_varuint64_encode 1 ++ [9] ++
  sevenzip_varuint64_encode pack_size ++ [0] ++
  [7; 11] ++ sevenzip_varuint64_encode 1 ++ [0] ++ coder_info ++ [12] ++
  concat (map sevenzip_varuint64_encode coder_unpack_sizes) ++ [0; 0].

(** ** The signature header (src/src/write/encode.rs) *)

Definition signature_bytes `{Crc32} (next_header_offset : Z) (next_header : bytes) : bytes :=
  let next_header_size := zlen next_header in
  let next_header_crc := crc32 next_header in
  let start_header := to_le_bytes 8 next_header_offset ++ to_le_bytes 8 next_header_size ++
                      to_le_bytes 4 next_header_crc in
  let start_header_crc := crc32 start_header in
  [55; 122; 188; 175; 39; 28] ++ [0] ++ [4] ++ to_le_bytes 4 start_header_crc ++
  to_le_bytes 8 next_header_offset ++ to_le_bytes 8 next_header_size ++
  to_le_bytes 4 next_header_crc.
