(* ===== verification/RoundTrip.v ===== *)
(** * Reading back what the writer writes: the shared toolkit

    What it is for a parser to read an encoding, how that composes, and the
    bitmaps, integers and digest tables that all blocks share. *)

From stdpp Require Import base numbers list option sets.
From Stdlib Require Import ZArith Lia.
From S2P Require Import Prelude PropertyId Parsers PackInfo StreamInfo FilesInfo WriteHeader.

(** ** Reading an encoding *)

(** Concatenations to the right, with the known bytes in front. *)
Ltac norm_app := repeat progress (cbn [app]; rewrite <- ?app_assoc).
Ltac lens := repeat first [rewrite zlen_app | rewrite zlen_cons | rewrite (@zlen_nil Z)].
(** Equal results of two readings: the addresses agree. *)
Ltac same_rest := f_equal; apply pair_equal_spec; split; [f_equal; lens; lia|].

(** [p] reads exactly the bytes [enc], whatever follows, and returns [x]. *)
Definition reads {A} (p : slice → IResult A) (enc : bytes) (x : A) : Prop :=
  ∀ a rest, p (Slice a (enc ++ rest)) = Ok (Slice (a + zlen enc) rest, x).

Lemma reads_ret {A} (x : A) : reads (λ s, Ok (s, x)) [] x.
Proof. intros a rest. by rewrite (@zlen_nil Z), Z.add_0_r. Qed.

Lemma reads_bind {A B} (p : slice → IResult A) (k : slice → A → IResult B) e1 e2 x y :
  reads p e1 x → reads (λ s, k s x) e2 y →
  reads (λ s, let? (r, x) := p s in k r x) (e1 ++ e2) y.
Proof.
  intros Hp Hk a rest. rewrite <- app_assoc, Hp, Hk. by rewrite zlen_app, Z.add_assoc.
Qed.

Lemma reads_map {A B} (p : slice → IResult A) (f : A → B) e x :
  reads p e x → reads (λ s, let? (r, x) := p s in Ok (r, f x)) e (f x).
Proof. intros Hp a rest. by rewrite Hp. Qed.

Lemma reads_le_u8 `{Nom} v : reads le_u8 [v] v.
Proof. intros a rest. cbn. rewrite le_u8_cons. by rewrite zlen_cons, zlen_nil. Qed.

Lemma reads_le_u32 `{Nom} v : is_u32 v → reads le_u32 (to_le_bytes 4 v) v.
Proof.
  intros Hv a rest. pose proof (zlen_to_le_bytes 4 v) as Hl. rewrite le_u32_law.
  unfold ref_le_uint. change 4%nat with (Z.to_nat 4) at 2.
  rewrite decide_True by (unfold sl_len; cbn [sl_data]; rewrite zlen_app;
    pose proof (zlen_nonneg rest); lia).
  change (Z.of_nat 4) with 4. rewrite advance_app by (by rewrite Hl). cbn [sl_data].
  change (Z.to_nat 4) with 4%nat. rewrite <- (length_to_le_bytes 4 v) at 2.
  rewrite take_app_length, from_to_le_bytes_id by (unfold is_u32 in Hv; lia). done.
Qed.

Lemma reads_varuint `{Nom} v :
  is_u64 v → reads sevenzip_varuint64_decode (sevenzip_varuint64_encode v) v.
Proof. intros Hv a rest. by apply varuint_roundtrip. Qed.

Lemma parse_tag_at p b a rest :
  b = PropertyId_tag p → PropertyId_parse (Slice a (b :: rest)) = Ok (Slice (a + 1) rest, p).
Proof. intros ->. apply PropertyId_parse_tag. Qed.

Lemma reads_take `{Nom} (enc : bytes) n a rest :
  n = zlen enc → nom_take n (Slice a (enc ++ rest)) = Ok (Slice (a + n) rest, Slice a enc).
Proof. apply nom_take_app. Qed.

Lemma repeat_n_zlen {A S E} (f : S → result S E) (l : list A) s :
  repeat_n (zlen l) f s = repeat_nat f (length l) s.
Proof. unfold zlen. by rewrite repeat_n_of_nat. Qed.

(** A loop over the encodings of a list. *)
Lemma reads_repeat {S T} (f : slice * S → IResult S) (enc : T → bytes) (upd : S → T → S) l st n :
  (∀ st t, t ∈ l → reads (λ s, f (s, st)) (enc t) (upd st t)) → n = zlen l →
  reads (λ s, repeat_n n f (s, st)) (concat (map enc l)) (foldl upd st l).
Proof.
  intros Hf -> a rest. rewrite repeat_n_zlen. revert st a.
  induction l as [|t l IH]; intros st a; cbn [length repeat_nat map concat foldl app].
  { by rewrite (@zlen_nil Z), Z.add_0_r. }
  pose proof (Hf st t ltac:(left) a (concat (map enc l) ++ rest)) as Ht. cbv beta in Ht.
  rewrite <- app_assoc, Ht, IH by (intros; apply Hf; by right).
  by rewrite zlen_app, Z.add_assoc.
Qed.

Lemma foldl_snoc {A} (acc l : list A) : foldl (λ acc x, acc ++ [x]) acc l = acc ++ l.
Proof.
  revert acc. induction l as [|x l IH]; intros acc; cbn; [by rewrite app_nil_r|].
  by rewrite IH, <- app_assoc.
Qed.

Lemma reads_push_varuints `{Nom} l acc n :
  Forall is_u64 l → n = zlen l →
  reads (λ s, repeat_n n push_varuint_step (s, acc)) (concat (map sevenzip_varuint64_encode l))
        (acc ++ l).
Proof.
  intros Hl Hn. rewrite <- foldl_snoc. apply reads_repeat; [|done].
  intros st v Hv. unfold push_varuint_step.
  apply (reads_map sevenzip_varuint64_decode (λ v, st ++ [v])), reads_varuint.
  rewrite Forall_forall in Hl. by apply Hl.
Qed.

(** ** Tag loops *)

(** The loop over [enc] goes from the state [st] to [st']. *)
Definition loops {S} (body : slice → slice → PropertyId → S → IResult S) (st : S)
    (enc : bytes) (st' : S) : Prop :=
  ∀ a rest, run_tag_loop body (Slice a (enc ++ rest)) st =
            run_tag_loop body (Slice (a + zlen enc) rest) st'.

Lemma loops_nil {S} body (st : S) : loops body st [] st.
Proof. intros a rest. by rewrite (@zlen_nil Z), Z.add_0_r. Qed.

Lemma loops_app {S} body (st st' st'' : S) e1 e2 :
  loops body st e1 st' → loops body st' e2 st'' → loops body st (e1 ++ e2) st''.
Proof.
  intros H1 H2 a rest. by rewrite <- app_assoc, H1, H2, zlen_app, Z.add_assoc.
Qed.

Lemma loops_tag {S} body (st st' : S) p enc :
  tag_body_ok body → p ≠ P_END →
  (∀ a rest, body (Slice a (PropertyId_tag p :: enc ++ rest)) (Slice (a + 1) (enc ++ rest)) p st
             = Ok (Slice (a + 1 + zlen enc) rest, st')) →
  loops body st (PropertyId_tag p :: enc) st'.
Proof.
  intros Hok Hp Hb a rest. cbn [app].
  rewrite (run_tag_loop_step body Hok _ _ _ _ _ _ (PropertyId_parse_tag _ _ _) Hp (Hb a rest)).
  by rewrite zlen_cons, Z.add_assoc.
Qed.

Lemma loops_end {S} body (st st' : S) enc a rest :
  loops body st enc st' →
  run_tag_loop body (Slice a (enc ++ 0 :: rest)) st = Ok (Slice (a + zlen enc + 1) rest, st').
Proof. intros Hl. by rewrite Hl, run_tag_loop_end. Qed.

Lemma loops_run {S} body (st st' : S) enc :
  loops body st enc st' → reads (λ s, run_tag_loop body s st) (enc ++ [0]) st'.
Proof.
  intros Hl a rest. rewrite <- app_assoc, Hl. cbn [app]. rewrite run_tag_loop_end.
  by rewrite zlen_app, zlen_cons, zlen_nil, Z.add_assoc.
Qed.

(** ** Bitmaps *)

Lemma land_1_testbit x k : 0 ≤ k → bool_decide (Z.land (Z.shiftr x k) 1 = 1) = Z.testbit x k.
Proof.
  intros Hk. rewrite (Z.land_ones _ 1) by lia. change (2 ^ 1) with 2. pose proof (Z.bit0_mod (Z.shiftr x k)) as Hb.
  rewrite Z.shiftr_spec, Z.add_0_l in Hb by lia. rewrite <- Hb.
  by destruct (Z.testbit x k).
Qed.

Lemma bitmap_is_set_nat bm (i : nat) :
  bitmap_is_set bm (Z.of_nat i) =
  match bm !! (i / 8)%nat with
  | Some b => Z.testbit b (7 - Z.of_nat (i mod 8))
  | None => false
  end.
Proof.
  unfold bitmap_is_set.
  replace (Z.of_nat i / 8) with (Z.of_nat (i / 8)) by (rewrite Nat2Z.inj_div; done).
  rewrite get_lookup. destruct (bm !! _) as [b|]; [|done].
  replace (Z.of_nat i mod 8) with (Z.of_nat (i mod 8)) by (rewrite Nat2Z.inj_mod; done).
  apply land_1_testbit. pose proof (Nat.mod_upper_bound i 8). lia.
Qed.

Lemma set_bit_length out i : length (set_bit out i) = length out.
Proof. unfold set_bit. destruct (out !! _); [apply length_insert|done]. Qed.

Lemma set_bit_spec out i j :
  (i / 8 < length out)%nat →
  bitmap_is_set (set_bit out i) (Z.of_nat j) =
  bool_decide (i = j) || bitmap_is_set out (Z.of_nat j).
Proof.
  intros Hi. destruct (lookup_lt_is_Some_2 out (i / 8) Hi) as [b Hb].
  rewrite !bitmap_is_set_nat. unfold set_bit. rewrite Hb.
  pose proof (Nat.mod_upper_bound i 8) as H1. pose proof (Nat.mod_upper_bound j 8) as H2.
  pose proof (Nat.div_mod_eq i 8) as E1. pose proof (Nat.div_mod_eq j 8) as E2.
  destruct (decide (i / 8 = j / 8)%nat) as [E|E].
  - rewrite E, list_lookup_insert_eq by (by rewrite <- E). rewrite E in Hb. rewrite Hb.
    rewrite Z.lor_spec, Z.shiftl_1_l, Z.pow2_bits_eqb, orb_comm by lia. f_equal.
    case_bool_decide as Hij; [subst; apply Z.eqb_refl|]. apply Z.eqb_neq. lia.
  - rewrite list_lookup_insert_ne by done. rewrite bool_decide_eq_false_2 by (by intros ->).
    done.
Qed.

Lemma bools_loop vs out k :
  (∀ i : nat, (i < length vs)%nat → ((k + i) / 8 < length out)%nat) →
  let res := foldl (λ out '(idx, value), if value : bool then set_bit out idx else out) out
                   (zip (seq k (length vs)) vs) in
  length res = length out ∧
  ∀ j : nat, bitmap_is_set res (Z.of_nat j) =
    (bitmap_is_set out (Z.of_nat j) ||
     (bool_decide (k ≤ j)%nat && default false (vs !! (j - k)%nat))).
Proof.
  revert out k. induction vs as [|v vs IH]; intros out k Hl; cbn.
  { split; [done|]. intros j. by rewrite andb_false_r, orb_false_r. }
  pose proof (Hl 0%nat ltac:(cbn; lia)) as H0. rewrite Nat.add_0_r in H0.
  set (out' := if v then set_bit out k else out).
  assert (length out' = length out) as Hlen by (unfold out'; destruct v; [apply set_bit_length|done]).
  destruct (IH out' (S k)) as [Hlen' Hset].
  { intros i Hi. rewrite Hlen. replace (S k + i)%nat with (k + S i)%nat by lia.
    apply Hl. cbn. lia. }
  split; [by rewrite Hlen'|]. intros j. rewrite Hset.
  assert (bitmap_is_set out' (Z.of_nat j) =
          bitmap_is_set out (Z.of_nat j) || (bool_decide (k = j) && v)) as ->.
  { unfold out'. destruct v; [|by rewrite andb_false_r, orb_false_r].
    rewrite set_bit_spec by done. by rewrite andb_true_r, orb_comm. }
  rewrite <- orb_assoc. f_equal.
  destruct (decide (k = j)) as [->|Hne].
  - rewrite bool_decide_eq_true_2 by done. rewrite (bool_decide_eq_true_2 (j ≤ j)%nat) by lia.
    rewrite (bool_decide_eq_false_2 (S j ≤ j)%nat) by lia.
    rewrite Nat.sub_diag. cbn. by rewrite orb_false_r.
  - rewrite bool_decide_eq_false_2 by done. cbn [andb orb].
    destruct (decide (k < j)%nat).
    + rewrite !bool_decide_eq_true_2 by lia. by replace (j - k)%nat with (S (j - S k)) by lia.
    + by rewrite !bool_decide_eq_false_2 by lia.
Qed.

Lemma bools_to_bytes_spec vs :
  zlen (bools_to_bytes vs) = div_ceil (zlen vs) 8 ∧
  ∀ j : nat, bitmap_is_set (bools_to_bytes vs) (Z.of_nat j) = default false (vs !! j).
Proof.
  unfold bools_to_bytes. set (out := replicate _ 0).
  assert (0 ≤ div_ceil (zlen vs) 8) as H0.
  { unfold div_ceil. pose proof (zlen_nonneg vs). apply Z.div_pos; lia. }
  assert (zlen out = div_ceil (zlen vs) 8) as Hout.
  { unfold zlen at 1, out. rewrite length_replicate. lia. }
  destruct (bools_loop vs out 0) as [Hl Hs].
  { intros i Hi. change (0 + i)%nat with i. apply Nat2Z.inj_lt. change (Z.of_nat (length out)) with (zlen out).
    rewrite Hout, Nat2Z.inj_div. unfold div_ceil, zlen in *. change (Z.of_nat 8) with 8.
    apply Z.div_lt_upper_bound; [lia|]. pose proof (Z.mod_pos_bound (Z.of_nat (length vs) + 8 - 1) 8).
    pose proof (Z.div_mod (Z.of_nat (length vs) + 8 - 1) 8). lia. }
  split; [unfold zlen; rewrite Hl; exact Hout|]. intros j. rewrite Hs, Nat.sub_0_r.
  rewrite bitmap_is_set_nat. destruct (out !! (j / 8)%nat) as [b|] eqn:Eb; [|done].
  apply lookup_replicate in Eb as [-> _]. by rewrite Z.bits_0.
Qed.

(** ** Digest tables *)

Definition crcs_ok (crcs : list (option Z)) : Prop := Forall (from_option is_u32 True) crcs.

(** A digest table, after its tag. *)
Definition crc_block (crcs : list (option Z)) : bytes :=
  let all_defined := forallb is_defined crcs in
  [u8_from_bool all_defined] ++
  (if all_defined then [] else bools_to_bytes (map is_defined crcs)) ++
  concat (map (to_le_bytes 4) (flatten crcs)).

Lemma write_optional_crcs_some crcs :
  existsb is_defined crcs = true → write_optional_crcs crcs = 10 :: crc_block crcs.
Proof. intros H. unfold write_optional_crcs. by rewrite H. Qed.

Lemma write_optional_crcs_none crcs :
  existsb is_defined crcs = false → write_optional_crcs crcs = [].
Proof. intros H. unfold write_optional_crcs. by rewrite H. Qed.

Lemma reads_digest_loop `{Nom} d crcs i acc :
  crcs_ok crcs →
  (∀ j crc, crcs !! j = Some crc → d (i + Z.of_nat j) = is_defined crc) →
  reads (λ s, repeat_nat (digest_step d) (length crcs) (s, (i, acc)))
        (concat (map (to_le_bytes 4) (flatten crcs))) (i + zlen crcs, acc ++ crcs).
Proof.
  intros Hok. revert i acc. induction Hok as [|crc crcs Hc _ IH]; intros i acc Hd a rest.
  { cbn. by rewrite app_nil_r, !Z.add_0_r. }
  pose proof (Hd 0%nat crc eq_refl) as H0. rewrite Z.add_0_r in H0.
  assert (∀ acc', reads (λ s, repeat_nat (digest_step d) (length crcs) (s, (i + 1, acc')))
    (concat (map (to_le_bytes 4) (flatten crcs))) (i + 1 + zlen crcs, acc' ++ crcs)) as Hr.
  { intros acc'. apply IH. intros j c Hj. rewrite <- Z.add_assoc.
    replace (1 + Z.of_nat j) with (Z.of_nat (S j)) by lia. by apply Hd. }
  cbn [length repeat_nat digest_step]. rewrite H0, zlen_cons, Z.add_assoc.
  destruct crc as [v|].
  - change (is_defined (Some v)) with true. cbv iota.
    change (flatten (Some v :: crcs)) with (v :: flatten crcs). cbn [map concat].
    rewrite <- app_assoc. pose proof (reads_le_u32 v Hc a) as Hv. rewrite Hv, Hr.
    by rewrite <- (app_assoc acc), zlen_app, Z.add_assoc.
  - change (is_defined (@None Z)) with false. cbv iota.
    change (flatten (None :: crcs)) with (flatten crcs). rewrite Hr.
    by rewrite <- (app_assoc acc).
Qed.

(** What both readers of a table see: its flag, its bitmap and which digests it
    has. *)
Lemma crc_block_spec `{Nom} crcs :
  ∃ ad bm, 0 ≤ ad ∧ (ad ≠ 0 ↔ forallb is_defined crcs = true) ∧
  (∀ a rest, le_u8 (Slice a (crc_block crcs ++ rest)) =
     Ok (Slice (a + 1) (tail (crc_block crcs) ++ rest), ad)) ∧
  reads (λ s, digest_bitmap s ad (zlen crcs))
        (if forallb is_defined crcs then [] else bools_to_bytes (map is_defined crcs)) bm ∧
  (∀ j crc, crcs !! j = Some crc → digest_defined ad bm (Z.of_nat j) = is_defined crc).
Proof.
  unfold crc_block. destruct (forallb is_defined crcs) eqn:Ef.
  - exists 1, []. split; [lia|]. split; [done|]. split; [|split].
    + intros a rest. apply reads_le_u8.
    + intros a rest. unfold digest_bitmap. by rewrite decide_False, (@zlen_nil Z), Z.add_0_r by done.
    + intros j crc Hj. unfold digest_defined. rewrite bool_decide_eq_true_2 by done. symmetry.
      rewrite forallb_forall in Ef. apply Ef, list_elem_of_In. by eapply list_elem_of_lookup_2.
  - destruct (bools_to_bytes_spec (map is_defined crcs)) as [Hl Hs].
    exists 0, (bools_to_bytes (map is_defined crcs)). split; [lia|]. split; [done|]. split; [|split].
    + intros a rest. apply reads_le_u8.
    + intros a rest. unfold digest_bitmap. rewrite decide_True by done. rewrite zlen_map in Hl.
      rewrite (reads_take _ _ a rest) by done. cbn. by rewrite Hl.
    + intros j crc Hj. unfold digest_defined. rewrite Hs, list_lookup_fmap, Hj. done.
Qed.

Lemma reads_parse_digests `{Nom} crcs :
  crcs_ok crcs → reads (λ s, parse_digests s (zlen crcs)) (crc_block crcs) crcs.
Proof.
  intros Hok a rest. destruct (crc_block_spec crcs) as (ad & bm & _ & _ & H8 & Hbm & Hd).
  unfold parse_digests. rewrite H8. unfold crc_block at 1. cbn [app tail].
  rewrite <- app_assoc, Hbm. rewrite repeat_n_zlen.
  rewrite (reads_digest_loop _ crcs 0 [] Hok Hd). cbn [snd app]. unfold crc_block.
  by rewrite !zlen_app, !Z.add_assoc.
Qed.

Lemma reads_stream_digests `{Nom} crcs :
  crcs_ok crcs → zlen crcs ≤ MAX_SUBSTREAM_DIGESTS →
  reads (λ s, parse_stream_digests s (zlen crcs)) (crc_block crcs) crcs.
Proof.
  intros Hok Hmax a rest. destruct (crc_block_spec crcs) as (ad & bm & Had & Hall & H8 & Hbm & Hd).
  pose proof (reads_digest_loop _ crcs 0 [] Hok Hd) as Hloop.
  set (enc := concat (map (to_le_bytes 4) (flatten crcs))) in *.
  assert (4 * count_defined (digest_defined ad bm) 0 (length crcs) ≤ zlen enc) as Hcnt.
  { pose proof (digest_loop_spec (digest_defined ad bm) (length crcs) (Slice 0 enc) 0 []) as Hs.
    specialize (Hloop 0 []). rewrite app_nil_r in Hloop.
    case_decide; [done|]. destruct Hs as [e He]. congruence. }
  unfold parse_stream_digests. rewrite H8. unfold crc_block at 1. cbn [app tail].
  rewrite <- app_assoc, Hbm.
  assert ((if decide (ad ≠ 0) then zlen crcs else count_set bm (zlen crcs)) =
          count_defined (digest_defined ad bm) 0 (length crcs)) as ->.
  { unfold count_defined. case_decide as Hne.
    - pose proof (count_defined_all (digest_defined ad bm) (zlen crcs)) as E.
      rewrite to_nat_zlen in E. unfold count_defined in E. pose proof (zlen_nonneg crcs).
      rewrite E; [lia|]. intros i. unfold digest_defined. by rewrite bool_decide_eq_true_2.
    - unfold count_set, digest_defined.
      rewrite (bool_decide_eq_false_2 (ad ≠ 0)) by (rewrite Hne; tauto). done. }
  pose proof (count_defined_nonneg (digest_defined ad bm) 0 (length crcs)) as Hc0.
  assert (count_defined (digest_defined ad bm) 0 (length crcs) ≤ zlen crcs) as Hc1.
  { unfold count_defined, zlen. pose proof (length_filter
      (λ j, digest_defined ad bm j = true) (seqZ 0 (Z.of_nat (length crcs)))) as Hlf.
    rewrite length_seqZ, Nat2Z.id in Hlf. lia. }
  change MAX_SUBSTREAM_DIGESTS with 8388608 in Hmax.
  unfold checked_mul. rewrite decide_True by lia.
  cbn [ok_or]. rewrite decide_False by
    (unfold sl_len; cbn [sl_data]; rewrite zlen_app; pose proof (zlen_nonneg rest); fold enc; lia).
  rewrite repeat_n_zlen. fold enc. rewrite Hloop. cbn [snd app].
  unfold crc_block. fold enc. by rewrite !zlen_app, !Z.add_assoc.
Qed.
