(* ===== verification/StreamRoundTrip.v ===== *)
(** * The stream descriptors the writer emits are read back

    The pack info, unpack info and substream blocks of [WriteHeader] through the
    parsers of [PackInfo] and [StreamInfo]. *)

From stdpp Require Import base numbers list option sets.
From Stdlib Require Import ZArith Lia.
From S2P Require Import Prelude PropertyId Parsers CoderInfo Folder Error FolderGraph PackInfo StreamInfo FilesInfo WriteHeader RoundTrip.

(** ** What the writer is given *)

Definition sum_all {A} (f : A → Z) (l : list A) : Z := foldr Z.add 0 (map f l).
Definition coder_blocks (folders : list CompletedFolder) : bytes :=
  concat (map cf_coder_info folders).
Definition file_count (f : CompletedFolder) : Z := zlen (cf_file_indices f).

(** A folder of the writer: a coder block with an unpack size for each output,
    values in range, a size and a digest for each file. *)
Record folder_ok `{Nom} (f : CompletedFolder) : Prop := {
  fo_coders : reads scan_folder (cf_coder_info f) (zlen (cf_coder_unpack_sizes f));
  fo_pack : Forall is_u64 (cf_pack_sizes f);
  fo_unpack : Forall is_u64 (cf_coder_unpack_sizes f);
  fo_crc : from_option is_u32 True (cf_folder_crc f);
  fo_sizes : Forall is_u64 (cf_file_sizes f);
  fo_num_sizes : zlen (cf_file_sizes f) = file_count f;
  fo_crcs : crcs_ok (cf_file_crcs f);
  fo_num_crcs : zlen (cf_file_crcs f) = file_count f
}.

Record folders_ok `{Nom} (folders : list CompletedFolder) : Prop := {
  fs_all : Forall folder_ok folders;
  fs_blocks : zlen (coder_blocks folders) ≤ u32_max;
  fs_count : is_u64 (zlen folders);
  fs_packs : is_u64 (sum_all (λ f, zlen (cf_pack_sizes f)) folders);
  fs_outs : is_u64 (sum_all (λ f, zlen (cf_coder_unpack_sizes f)) folders);
  fs_files : sum_all file_count folders ≤ MAX_SUBSTREAM_DIGESTS
}.

Lemma sum_all_cons {A} (f : A → Z) x l : sum_all f (x :: l) = f x + sum_all f l.
Proof. done. Qed.

Lemma sum_all_nonneg {A} (f : A → Z) l : (∀ x, 0 ≤ f x) → 0 ≤ sum_all f l.
Proof.
  intros Hf. induction l as [|x l IH]; [done|]. rewrite sum_all_cons. pose proof (Hf x). lia.
Qed.

Lemma zlen_concat_map {A B} (f : A → list B) l : zlen (concat (map f l)) = sum_all (λ x, zlen (f x)) l.
Proof.
  induction l as [|x l IH]; [done|]. cbn [map concat]. by rewrite zlen_app, IH, sum_all_cons.
Qed.

Lemma Forall_concat_map {A B} (P : B → Prop) (f : A → list B) l :
  Forall (λ x, Forall P (f x)) l → Forall P (concat (map f l)).
Proof. induction 1; cbn; [done|]. by apply Forall_app. Qed.

Lemma map_concat_map {A B C} (g : B → list C) (f : A → list B) l :
  concat (map (λ x, concat (map g (f x))) l) = concat (map g (concat (map f l))).
Proof.
  induction l as [|x l IH]; [done|]. cbn. by rewrite IH, map_app, concat_app.
Qed.

Lemma reads_varuints_of `{Nom} {A} (f : A → list Z) l acc :
  Forall (λ x, Forall is_u64 (f x)) l →
  reads (λ s, repeat_n (sum_all (λ x, zlen (f x)) l) push_varuint_step (s, acc))
        (concat (map (λ x, concat (map sevenzip_varuint64_encode (f x))) l))
        (acc ++ concat (map f l)).
Proof.
  intros Hl. rewrite map_concat_map. apply reads_push_varuints.
  - by apply Forall_concat_map.
  - by rewrite zlen_concat_map.
Qed.

Lemma usize_try_from_in n : is_u64 n → usize_try_from n = Some n.
Proof. apply usize_try_from_u64. Qed.

(** ** Pack info *)

Definition pack_info_of (folders : list CompletedFolder) : PackInfo :=
  let sizes := concat (map cf_pack_sizes folders) in
  {| pack_pos := 0; num_pack_streams := zlen sizes; pack_size := sizes;
     pack_digests := replicate (length sizes) None |}.

Lemma pack_info_reads_back `{Nom} folders :
  folders_ok folders → reads PackInfo_parse (write_pack_info folders) (pack_info_of folders).
Proof.
  intros Hok a rest. unfold PackInfo_parse, pack_info_head, write_pack_info.
  fold (sum_all (λ f, zlen (cf_pack_sizes f)) folders). norm_app.
  rewrite (parse_tag_at P_PackInfo 6) by done.
  rewrite decide_False by tauto.
  rewrite (reads_varuint 0) by done.
  rewrite (reads_varuint (sum_all _ _)) by apply fs_packs, Hok.
  norm_app. rewrite (parse_tag_at P_Size 9) by done. rewrite decide_False by tauto.
  rewrite (reads_varuints_of cf_pack_sizes folders []).
  2:{ eapply Forall_impl; [apply fs_all, Hok|]. intros f Hf. apply Hf. }
  cbn [app]. rewrite run_tag_loop_end. cbn [default_digests].
  same_rest. unfold pack_info_of. by rewrite zlen_concat_map.
Qed.

(** ** Unpack info *)

(** The offsets of the coder blocks, the end of the last one included. *)
Fixpoint block_offsets (o : Z) (folders : list CompletedFolder) : list Z :=
  match folders with
  | [] => [o]
  | f :: fs => o :: block_offsets (o + zlen (cf_coder_info f)) fs
  end.

Lemma block_offsets_length o fs : zlen (block_offsets o fs) = 1 + zlen fs.
Proof.
  revert o. induction fs as [|f fs IH]; intros o; [done|]. cbn [block_offsets].
  by rewrite !zlen_cons, IH.
Qed.

Lemma scan_blocks_loop `{Nom} data fs o total l rest a :
  Forall folder_ok fs →
  sl_len data = o + zlen (coder_blocks fs) + zlen rest → 0 ≤ o →
  o + zlen (coder_blocks fs) ≤ u32_max → 0 ≤ total →
  total + sum_all (λ f, zlen (cf_coder_unpack_sizes f)) fs ≤ u64_max →
  ∃ st, repeat_nat (folder_block_step data) (length fs)
          (Slice a (coder_blocks fs ++ rest), total, Some l) = Ok st ∧
  let '(r, t, ls) := st in
  r = Slice (a + zlen (coder_blocks fs)) rest ∧
  t = total + sum_all (λ f, zlen (cf_coder_unpack_sizes f)) fs ∧
  ∃ l', ls = Some (l ++ l') ∧ block_offsets o fs = l' ++ [o + zlen (coder_blocks fs)].
Proof.
  intros Hfs. revert o total l a. induction Hfs as [|f fs Hf Hfs IH]; intros o total l a Hd Ho H32 Ht Hsum.
  { eexists. split; [done|]. cbn. split; [by rewrite Z.add_0_r|]. split; [by rewrite Z.add_0_r|].
    exists []. rewrite app_nil_r. split; [done|]. cbn. by rewrite Z.add_0_r. }
  unfold coder_blocks in *. cbn [map concat] in *. rewrite zlen_app in *. rewrite sum_all_cons in Hsum.
  pose proof (zlen_nonneg (cf_coder_info f)). pose proof (zlen_nonneg (concat (map cf_coder_info fs))).
  pose proof (zlen_nonneg (cf_coder_unpack_sizes f)). pose proof (zlen_nonneg rest).
  pose proof (sum_all_nonneg (λ f, zlen (cf_coder_unpack_sizes f)) fs (λ _, zlen_nonneg _)).
  cbn [length repeat_nat folder_block_step].
  assert (sl_len data - sl_len (Slice a ((cf_coder_info f ++ concat (map cf_coder_info fs)) ++ rest)) = o)
    as -> by (unfold sl_len at 2; cbn [sl_data]; rewrite !zlen_app; lia).
  unfold u32_try_from. rewrite decide_True by lia. cbn [ok_or]. rewrite <- app_assoc.
  rewrite (fo_coders f Hf a). cbn [map_err]. unfold checked_add. rewrite decide_True by lia. cbn [ok_or].
  destruct (IH (o + zlen (cf_coder_info f)) (total + zlen (cf_coder_unpack_sizes f)) (l ++ [o])
    (a + zlen (cf_coder_info f))) as ([[r t] ls] & -> & -> & -> & l' & -> & Hl'); try lia.
  eexists. split; [done|]. cbv beta iota. rewrite sum_all_cons. split; [f_equal; lia|]. split; [lia|].
  exists (o :: l'). rewrite <- app_assoc. split; [done|]. cbn. rewrite Hl'. do 2 f_equal. f_equal. lia.
Qed.

Lemma scan_blocks_read `{Nom} fs a rest :
  folders_ok fs →
  scan_folder_blocks (Slice a (coder_blocks fs ++ rest)) (zlen fs) (Some []) =
  Ok (zlen (coder_blocks fs), sum_all (λ f, zlen (cf_coder_unpack_sizes f)) fs,
      Some (block_offsets 0 fs)).
Proof.
  intros Hok. unfold scan_folder_blocks. rewrite repeat_n_zlen.
  pose proof (zlen_nonneg (coder_blocks fs)). pose proof (fs_blocks _ Hok). pose proof (fs_outs _ Hok) as [??].
  assert (sl_len (Slice a (coder_blocks fs ++ rest)) = zlen (coder_blocks fs) + zlen rest) as Hd
    by apply zlen_app.
  destruct (scan_blocks_loop (Slice a (coder_blocks fs ++ rest)) fs 0 0 [] rest a) as ([[r t] ls] & -> & -> & -> & l' & -> & Hl');
    try lia; [apply Hok|].
  rewrite Hd. unfold sl_len. cbn [sl_data]. rewrite Z.add_simpl_r.
  unfold u32_try_from. rewrite decide_True by lia. cbn [ok_or app]. by rewrite Hl'.
Qed.

(** What the unpack info of the writer's folders holds. *)
Record unpack_info_of (folders : list CompletedFolder) (u : UnpackInfo) : Prop := {
  uo_num : num_folders u = zlen folders;
  uo_data : sl_data (folder_data u) = coder_blocks folders;
  uo_offsets : folder_offsets u = block_offsets 0 folders;
  uo_sizes : unpack_sizes u = concat (map cf_coder_unpack_sizes folders);
  uo_digests : unpack_digests u = map cf_folder_crc folders
}.

Lemma default_digests_all crcs n :
  n = length crcs → default_digests (if existsb is_defined crcs then crcs else []) n = crcs.
Proof.
  intros ->. destruct (existsb is_defined crcs) eqn:E; [by destruct crcs|]. cbn.
  induction crcs as [|c crcs IH]; [done|]. cbn in E |- *. apply orb_false_iff in E as [Ec E].
  rewrite (IH E). destruct c; [done|]. done.
Qed.

Lemma folder_crcs_ok `{Nom} folders : folders_ok folders → crcs_ok (map cf_folder_crc folders).
Proof.
  intros Hok. apply Forall_fmap. eapply Forall_impl; [apply fs_all, Hok|]. intros f Hf. apply Hf.
Qed.

(** The optional digest table of a block, in its tag loop. *)
Lemma loops_optional_crcs `{Nom} {S} body (st st' : S) crcs :
  tag_body_ok body → crcs_ok crcs →
  (existsb is_defined crcs = true → ∀ input,
     reads (λ s, body input s P_CRC st) (crc_block crcs) st') →
  (existsb is_defined crcs = false → st' = st) →
  loops body st (write_optional_crcs crcs) st'.
Proof.
  intros Hbody Hok Hb Hn. destruct (existsb is_defined crcs) eqn:E.
  - rewrite write_optional_crcs_some by done. apply (loops_tag body st st' P_CRC); [done..|].
    intros a rest. by apply Hb.
  - rewrite write_optional_crcs_none, (Hn eq_refl) by done. apply loops_nil.
Qed.

Lemma unpack_loop `{Nom} folders :
  folders_ok folders →
  loops (unpack_info_body (zlen folders) (sum_all (λ f, zlen (cf_coder_unpack_sizes f)) folders))
    ([], [])
    ([12] ++ concat (map (λ f, concat (map sevenzip_varuint64_encode (cf_coder_unpack_sizes f))) folders)
     ++ write_folder_crcs folders)
    (concat (map cf_coder_unpack_sizes folders),
     if existsb is_defined (map cf_folder_crc folders) then map cf_folder_crc folders else []).
Proof.
  intros Hok. rewrite app_assoc. eapply loops_app.
  - apply (loops_tag _ _ (concat (map cf_coder_unpack_sizes folders), []) P_CodersUnPackSize);
      [apply unpack_info_body_ok|done|]. intros a rest. cbn [unpack_info_body].
    rewrite (reads_varuints_of cf_coder_unpack_sizes folders []); [done|].
    eapply Forall_impl; [apply fs_all, Hok|]. intros f Hf. apply Hf.
  - apply loops_optional_crcs; [apply unpack_info_body_ok|by apply folder_crcs_ok| |].
    + intros -> input a rest. cbn [unpack_info_body].
      rewrite usize_try_from_u64 by apply fs_count, Hok. cbn [ok_or].
      rewrite <- (zlen_map cf_folder_crc). by rewrite reads_parse_digests by by apply folder_crcs_ok.
    + by intros ->.
Qed.

Lemma reads_folder_declaration `{Nom} n :
  is_u64 n → reads parse_folder_declaration ([7; 11] ++ sevenzip_varuint64_encode n ++ [0]) (n, Inline).
Proof.
  intros Hn a rest. unfold parse_folder_declaration. norm_app.
  rewrite (parse_tag_at P_UnPackInfo 7) by done. rewrite decide_False by tauto.
  rewrite (parse_tag_at P_Folder 11) by done. rewrite decide_False by tauto.
  rewrite (reads_varuint n) by done. rewrite (reads_le_u8 0 _ rest). cbn [decide].
  rewrite decide_True by done. same_rest. done.
Qed.

Lemma unpack_info_reads_back `{Nom} folders a rest backing ext :
  folders_ok folders → sl_len backing ≤ usize_max →
  within (Slice a (write_unpack_info folders ++ rest)) backing →
  ∃ u, UnpackInfo_parse_with_external (Slice a (write_unpack_info folders ++ rest)) backing ext =
         Ok (Slice (a + zlen (write_unpack_info folders)) rest, u) ∧ unpack_info_of folders u.
Proof.
  intros Hok Hback Hw. pose proof (reads_folder_declaration (zlen folders) (fs_count _ Hok) a) as Hdecl.
  set (head := [7; 11] ++ sevenzip_varuint64_encode (zlen folders) ++ [0]) in *.
  set (tags := [12] ++ concat (map (λ f, concat (map sevenzip_varuint64_encode
    (cf_coder_unpack_sizes f))) folders) ++ write_folder_crcs folders).
  assert (write_unpack_info folders = head ++ coder_blocks folders ++ tags ++ [0]) as Henc.
  { unfold write_unpack_info, head, tags, coder_blocks. by norm_app. }
  pose proof (unpack_loop folders Hok) as Hloop. fold tags in Hloop. clearbody head tags.
  rewrite Henc in *. rewrite <- !app_assoc in *. unfold UnpackInfo_parse_with_external.
  rewrite Hdecl. cbn [FolderSource_resolve FolderSource_bytes FolderSource_backing].
  rewrite scan_blocks_read by done. cbn [map_err].
  set (s1 := Slice (a + zlen head) (coder_blocks folders ++ tags ++ [0] ++ rest)).
  assert (within s1 backing) as Hw1.
  { eapply within_trans; [|exact Hw]. apply within_suffix. exists (zlen head).
    split; [pose proof (zlen_nonneg head); unfold sl_len; cbn [sl_data]; rewrite zlen_app;
      pose proof (zlen_nonneg (coder_blocks folders ++ tags ++ [0] ++ rest)); lia|].
    by rewrite advance_app. }
  assert (0 ≤ zlen (coder_blocks folders) ≤ sl_len s1) as Hlen.
  { unfold s1, sl_len. cbn [sl_data]. rewrite zlen_app.
    pose proof (zlen_nonneg (coder_blocks folders)). pose proof (zlen_nonneg (tags ++ [0] ++ rest)). lia. }
  destruct (bytes_subslice_within backing (first_bytes (zlen (coder_blocks folders)) s1) s1)
    as (fd & -> & Hfd); [done| |].
  { eapply within_trans; [|exact Hw1]. by apply within_first. }
  cbn [FolderSource_remaining_header default]. unfold slice_from. rewrite decide_True by done.
  cbn [ok_or]. unfold s1 at 1. rewrite advance_app by done.
  rewrite (app_assoc tags), (loops_run _ _ _ _ Hloop).
  eexists. split; [same_rest; reflexivity|]. split; cbn; try done.
  - rewrite Hfd. cbn. by rewrite to_nat_zlen, take_app_length.
  - apply default_digests_all. pose proof (block_offsets_length 0 folders) as Hl.
    unfold zlen in Hl. rewrite length_map. lia.
Qed.

(** ** Substreams *)

Definition file_counts (folders : list CompletedFolder) : list Z := map file_count folders.

Definition substream_info_of (folders : list CompletedFolder) : SubstreamInfo :=
  let crcs := concat (map cf_file_crcs folders) in
  {| num_unpack_streams_per_folder := file_counts folders;
     substream_sizes := concat (map (λ f, all_but_last (cf_file_sizes f)) folders);
     substream_digests := if existsb is_defined crcs then crcs else [] |}.

Lemma file_counts_u64 `{Nom} folders :
  folders_ok folders → Forall is_u64 (file_counts folders) ∧ total_streams (file_counts folders) ≤ u64_max.
Proof.
  intros Hok. pose proof (fs_files _ Hok) as Hmax. unfold MAX_SUBSTREAM_DIGESTS in Hmax.
  change (64 * 1024 * 1024 / 8) with 8388608 in Hmax.
  change (total_streams (file_counts folders)) with (sum_all file_count folders).
  split; [|lia]. clear Hok. induction folders as [|f fs IH]; cbn; [done|]. rewrite sum_all_cons in Hmax.
  pose proof (zlen_nonneg (cf_file_indices f)).
  pose proof (sum_all_nonneg file_count fs (λ _, zlen_nonneg _)). unfold file_count in Hmax at 1.
  constructor; [unfold is_u64, file_count; lia|]. apply IH. lia.
Qed.

Lemma sizes_written `{Nom} folders :
  Forall folder_ok folders →
  total_sizes (file_counts folders) = sum_all (λ f, zlen (all_but_last (cf_file_sizes f))) folders.
Proof.
  induction 1 as [|f fs Hf _ IH]; [done|]. unfold file_counts, total_sizes in *. cbn [map foldr].
  rewrite sum_all_cons, IH. f_equal. rewrite <- (fo_num_sizes f Hf). unfold all_but_last, zlen.
  rewrite length_take. lia.
Qed.

Lemma varuints_len l :
  Forall is_u64 l → zlen l ≤ zlen (concat (map sevenzip_varuint64_encode l)).
Proof.
  induction 1 as [|v l Hv _ IH]; [done|]. cbn [map concat]. rewrite zlen_cons, zlen_app.
  rewrite varuint_encode_len by done. lia.
Qed.

Lemma counts_all_one folders :
  existsb (λ f, bool_decide (zlen (cf_file_indices f) ≠ 1)) folders = false →
  file_counts folders = replicate (length folders) 1.
Proof.
  unfold file_counts. induction folders as [|f fs IH]; [done|]. cbn. intros [Hf Hfs]%orb_false_iff.
  rewrite (IH Hfs). f_equal. apply bool_decide_eq_false in Hf. unfold file_count. lia.
Qed.

Lemma no_sizes `{Nom} folders :
  Forall folder_ok folders → existsb (λ f, bool_decide (1 < zlen (cf_file_indices f))) folders = false →
  concat (map (λ f, all_but_last (cf_file_sizes f)) folders) = [].
Proof.
  induction 1 as [|f fs Hf _ IH]; [done|]. cbn. intros [Hc Hfs]%orb_false_iff.
  rewrite (IH Hfs), app_nil_r. apply bool_decide_eq_false in Hc.
  pose proof (fo_num_sizes f Hf) as Hn. unfold file_count, zlen in *. unfold all_but_last.
  by replace (length (cf_file_sizes f) - 1)%nat with 0%nat by lia.
Qed.

Definition substreams_with (counts sizes : list Z) (crcs : list (option Z)) : SubstreamInfo :=
  {| num_unpack_streams_per_folder := counts; substream_sizes := sizes; substream_digests := crcs |}.

Lemma loop_counts `{Nom} folders :
  folders_ok folders →
  loops (substream_body (zlen folders)) (substreams_with (replicate (length folders) 1) [] [])
    (if existsb (λ f, bool_decide (zlen (cf_file_indices f) ≠ 1)) folders
     then [13] ++ concat (map (λ f, sevenzip_varuint64_encode (zlen (cf_file_indices f))) folders)
     else [])
    (substreams_with (file_counts folders) [] []).
Proof.
  intros Hok. destruct (file_counts_u64 folders Hok) as [Hu Hmax]. destruct (existsb _ folders) eqn:E.
  - apply (loops_tag _ _ _ P_NumUnPackStream); [apply substream_body_ok|done|].
    intros a rest. cbn [substream_body]. rewrite <- (map_map _ sevenzip_varuint64_encode).
    fold (file_counts folders). rewrite (reads_push_varuints (file_counts folders) []);
      [|done|by unfold file_counts; rewrite zlen_map].
    rewrite checked_substream_total_spec by done. by rewrite decide_True.
  - rewrite counts_all_one by done. apply loops_nil.
Qed.

Lemma loop_sizes `{Nom} folders n :
  folders_ok folders →
  loops (substream_body n) (substreams_with (file_counts folders) [] [])
    (if existsb (λ f, bool_decide (1 < zlen (cf_file_indices f))) folders
     then [9] ++ concat (map (λ f, concat (map sevenzip_varuint64_encode
                                            (all_but_last (cf_file_sizes f)))) folders)
     else [])
    (substreams_with (file_counts folders)
       (concat (map (λ f, all_but_last (cf_file_sizes f)) folders)) []).
Proof.
  intros Hok. destruct (file_counts_u64 folders Hok) as [Hu Hmax]. pose proof (fs_all _ Hok) as Hall.
  destruct (existsb _ folders) eqn:E; [|rewrite no_sizes by done; apply loops_nil].
  assert (Forall (λ f, Forall is_u64 (all_but_last (cf_file_sizes f))) folders) as Hsz.
  { eapply Forall_impl; [exact Hall|]. intros f Hf. apply Forall_take, Hf. }
  apply (loops_tag _ _ _ P_Size); [apply substream_body_ok|done|].
  intros a rest. cbn [substream_body]. rewrite checked_size_count_spec by done.
  cbn [num_unpack_streams_per_folder substreams_with substream_sizes].
  rewrite sizes_written by done. rewrite decide_False.
  - rewrite (reads_varuints_of (λ f, all_but_last (cf_file_sizes f)) folders []); done.
  - unfold sl_len. cbn [sl_data]. rewrite zlen_app, map_concat_map, <- zlen_concat_map.
    pose proof (varuints_len _ (Forall_concat_map is_u64 _ _ Hsz)). pose proof (zlen_nonneg rest). lia.
Qed.

Lemma substream_info_reads_back `{Nom} folders :
  folders_ok folders →
  reads (λ s, SubstreamInfo_parse s (zlen folders)) (write_substreams_info folders)
        (substream_info_of folders).
Proof.
  intros Hok a rest. destruct (file_counts_u64 folders Hok) as [Hu Hmax].
  assert (crcs_ok (concat (map cf_file_crcs folders))) as Hcrcs.
  { apply Forall_concat_map. eapply Forall_impl; [apply fs_all, Hok|]. intros f Hf. apply Hf. }
  assert (total_streams (file_counts folders) = zlen (concat (map cf_file_crcs folders))) as Htot.
  { change (total_streams (file_counts folders)) with (sum_all file_count folders).
    rewrite zlen_concat_map. pose proof (fs_all _ Hok) as Hall. clear -Hall.
    induction Hall as [|f fs Hf _ IH]; [done|]. by rewrite !sum_all_cons, IH, (fo_num_crcs f Hf). }
  unfold SubstreamInfo_parse, expect_tag, write_substreams_info. norm_app.
  rewrite (parse_tag_at P_SubStreamsInfo 8) by done. rewrite decide_False by tauto.
  rewrite to_nat_zlen. pose proof (loop_counts folders Hok) as H1.
  pose proof (loop_sizes folders (zlen folders) Hok) as H2. unfold substreams_with in H1, H2.
  set (e1 := if existsb (λ f, bool_decide (_ ≠ 1)) folders then _ else _) in *.
  set (e2 := if existsb (λ f, bool_decide (1 < _)) folders then _ else _) in *.
  rewrite H1, H2, (loops_end _ _ (substream_info_of folders)).
  - unfold e1, e2. same_rest. done.
  - apply loops_optional_crcs; [apply substream_body_ok|done| |].
    + intros E input a' rest'. cbn [substream_body num_unpack_streams_per_folder substream_sizes].
      rewrite checked_substream_total_spec, decide_True by done. unfold check_substream_digest_limit.
      rewrite decide_False by (pose proof (fs_files _ Hok) as Hf;
        change (sum_all file_count folders) with (total_streams (file_counts folders)) in Hf; lia).
      rewrite Htot, reads_stream_digests; [|done|].
      * unfold substream_info_of. by rewrite E.
      * pose proof (fs_files _ Hok) as Hf.
        change (sum_all file_count folders) with (total_streams (file_counts folders)) in Hf. lia.
    + intros E. unfold substream_info_of. by rewrite E.
Qed.

(** ** The stream block *)

Definition stream_block (folders : list CompletedFolder) : bytes :=
  write_pack_info folders ++ write_unpack_info folders ++ write_substreams_info folders ++ [0].

Lemma stream_block_reads_back `{Nom} folders a rest backing ext :
  folders_ok folders → sl_len backing ≤ usize_max →
  within (Slice a (stream_block folders ++ rest)) backing →
  ∃ u, StreamInfo_parse_with_external (Slice a (stream_block folders ++ rest)) backing ext =
         Ok (Slice (a + zlen (stream_block folders)) rest,
             {| si_pack_info := Some (pack_info_of folders); si_unpack_info := Some u;
                si_substream_info := Some (substream_info_of folders) |}) ∧
       unpack_info_of folders u.
Proof.
  intros Hok Hback Hw. unfold stream_block in *. norm_app.
  unfold StreamInfo_parse_with_external.
  set (e1 := write_pack_info folders). set (e2 := write_unpack_info folders).
  set (e3 := write_substreams_info folders). set (s2 := Slice (a + zlen e1) (e2 ++ e3 ++ 0 :: rest)).
  assert (within s2 backing) as Hw2.
  { eapply within_trans; [|exact Hw]. apply within_suffix. exists (zlen e1).
    split; [pose proof (zlen_nonneg e1); unfold sl_len; cbn [sl_data]; norm_app; rewrite zlen_app;
      pose proof (zlen_nonneg (e2 ++ e3 ++ 0 :: rest)); fold e1 e2 e3; lia|].
    norm_app. by rewrite advance_app. }
  destruct (unpack_info_reads_back folders (a + zlen e1) (e3 ++ 0 :: rest) backing ext Hok Hback Hw2)
    as (u & Hu & Huo). exists u. split; [|done].
  pose proof (stream_info_body_ok backing ext) as Hbody.
  erewrite (run_tag_loop_step _ Hbody (Slice a (e1 ++ e2 ++ e3 ++ 0 :: rest)));
    [|by apply (parse_tag_at P_PackInfo 6)|done|].
  2:{ cbn [stream_info_body]. unfold e1. by rewrite (pack_info_reads_back folders Hok). }
  fold s2. erewrite (run_tag_loop_step _ Hbody s2);
    [|by apply (parse_tag_at P_UnPackInfo 7)|done|].
  2:{ cbn [stream_info_body]. unfold s2, e2. by rewrite Hu. }
  cbn [si_pack_info si_unpack_info si_substream_info].
  erewrite (run_tag_loop_step _ Hbody);
    [|by apply (parse_tag_at P_SubStreamsInfo 8)|done|].
  2:{ cbn [stream_info_body si_unpack_info from_option]. unfold e3.
      assert (UnpackInfo_num_folders_usize u = zlen folders) as ->.
      { unfold UnpackInfo_num_folders_usize. rewrite (uo_offsets _ _ Huo), block_offsets_length. lia. }
      by rewrite (substream_info_reads_back folders Hok). }
  cbn [si_pack_info si_unpack_info si_substream_info]. rewrite run_tag_loop_end.
  unfold e1, e2, e3. same_rest. done.
Qed.

Lemma block_offsets_at o fs k f :
  fs !! k = Some f →
  ∃ b, b = o + zlen (coder_blocks (take k fs)) ∧
  block_offsets o fs !! k = Some b ∧ block_offsets o fs !! S k = Some (b + zlen (cf_coder_info f)).
Proof.
  revert o k. induction fs as [|g fs IH]; intros o [|k] Hk; [done..| |].
  - injection Hk as ->. exists o. cbn. rewrite Z.add_0_r. split_and!; [done..|].
    by destruct fs.
  - destruct (IH (o + zlen (cf_coder_info g)) k Hk) as (b & -> & H1 & H2). eexists. split; [done|].
    cbn [block_offsets]. rewrite !lookup_cons_S_eq || cbn [lookup].
    assert (o + zlen (coder_blocks (take (S k) (g :: fs))) =
      o + zlen (cf_coder_info g) + zlen (coder_blocks (take k fs))) as ->.
    { unfold coder_blocks. cbn. rewrite zlen_app. lia. }
    by split.
Qed.

(** The bytes of one folder are the coder block it was written with. *)
Lemma folder_bytes_read_back folders u k f :
  unpack_info_of folders u → folders !! k = Some f →
  ∃ s, UnpackInfo_folder_bytes u (Z.of_nat k) = Ok s ∧ sl_data s = cf_coder_info f.
Proof.
  intros Hu Hk. destruct (block_offsets_at 0 folders k f Hk) as (b & Hb & H1 & H2).
  unfold UnpackInfo_folder_bytes. rewrite (uo_offsets _ _ Hu), get_lookup, H1. cbn [ok_or].
  replace (Z.of_nat k + 1) with (Z.of_nat (S k)) by lia. rewrite get_lookup, H2. cbn [ok_or].
  assert (coder_blocks folders = coder_blocks (take k folders) ++ cf_coder_info f ++
          coder_blocks (drop (S k) folders)) as Hsplit.
  { rewrite <- (take_drop_middle folders k f Hk) at 1. unfold coder_blocks.
    by rewrite map_app, concat_app. }
  pose proof (zlen_nonneg (coder_blocks (drop (S k) folders))). pose proof (zlen_nonneg (cf_coder_info f)).
  rewrite decide_False by (unfold sl_len; rewrite (uo_data _ _ Hu), Hsplit, !zlen_app; lia).
  eexists. split; [done|]. cbn. rewrite (uo_data _ _ Hu), Hsplit, Z.add_0_l in *.
  subst b. rewrite to_nat_zlen, drop_app_length. rewrite Z.add_simpl_l, to_nat_zlen.
  apply take_app_length.
Qed.
