(* ===== verification/CoderRoundTrip.v ===== *)
(** * The coder blocks the writer emits are read back

    Every coder block of [WriteHeader] is a chain of simple coders, each coder's
    input bound to the output of the coder before it; [Folder_parse] returns that
    chain. *)

From stdpp Require Import base numbers list option sets.
From Stdlib Require Import ZArith Lia.
From S2P Require Import Prelude PropertyId Parsers CoderInfo Folder Error FolderGraph PackInfo StreamInfo FilesInfo WriteHeader RoundTrip.

(** ** Simple coders *)

(** A coder with one input and one output. *)
Definition simple_coder (id : bytes) (props : option bytes) : CoderInfo :=
  {| codec_id := id; num_in_streams := 1; num_out_streams := 1; properties := props |}.

Definition coder_bytes (c : CoderInfo) : bytes :=
  let id := codec_id c in
  match properties c with
  | None => [zlen id] ++ id
  | Some p => [zlen id + 32] ++ id ++ sevenzip_varuint64_encode (zlen p) ++ p
  end.

(** Coders the writer can name: a short id and properties of representable length. *)
Definition simple_ok (c : CoderInfo) : Prop :=
  num_in_streams c = 1 ∧ num_out_streams c = 1 ∧ zlen (codec_id c) ≤ 15 ∧
  from_option (λ p, is_u64 (zlen p)) True (properties c).

(** The flag byte of an id of at most 15 bytes. *)
Lemma flag_bits n :
  0 ≤ n ≤ 15 →
  Z.land n 15 = n ∧ Z.land n 16 = 0 ∧ Z.land n 32 = 0 ∧
  Z.land (n + 32) 15 = n ∧ Z.land (n + 32) 16 = 0 ∧ Z.land (n + 32) 32 = 32.
Proof.
  intros Hn. assert (∃ k : nat, n = Z.of_nat k ∧ (k < 16)%nat) as (k & -> & Hk)
    by (exists (Z.to_nat n); lia).
  clear Hn. do 16 (destruct k as [|k]; [by vm_compute|]). lia.
Qed.

Lemma reads_simple_coder `{Nom} c : simple_ok c → reads CoderInfo_parse (coder_bytes c) c.
Proof.
  intros (Hi & Ho & Hid & Hp) a rest. destruct c as [id ni no props]. cbn in *. subst ni no.
  pose proof (zlen_nonneg id) as H0.
  destruct (flag_bits (zlen id)) as (F1 & F2 & F3 & F4 & F5 & F6); [lia|].
  unfold CoderInfo_parse, CoderInfoRef_parse, coder_bytes. cbn [codec_id properties].
  destruct props as [p|]; norm_app; rewrite le_u8_cons; rewrite ?F1, ?F2, ?F3, ?F4, ?F5, ?F6;
    cbn [Z.eqb negb]; rewrite (reads_take id) by done.
  - cbn in Hp. rewrite (reads_varuint (zlen p)) by done. rewrite usize_try_from_u64 by done.
    cbn [ok_or]. rewrite (reads_take p) by done. cbn [ref_codec_id ref_num_in_streams fst snd].
    unfold ArrayVec15_try_from, sl_len. cbn [sl_data]. rewrite decide_True by done. cbn. same_rest. done.
  - cbn [ref_codec_id]. unfold ArrayVec15_try_from, sl_len. cbn [sl_data].
    rewrite decide_True by done. cbn. same_rest. done.
Qed.

(** ** Chains *)

Definition chain_binds (n : Z) : list (Z * Z) := map (λ i, (i + 1, i)) (seqZ 0 (n - 1)).

Definition chain_folder (cs : list CoderInfo) : Folder :=
  {| coders := cs; bind_pairs := chain_binds (zlen cs); packed_indices := [] |}.

Definition bind_bytes (b : Z * Z) : bytes :=
  sevenzip_varuint64_encode (fst b) ++ sevenzip_varuint64_encode (snd b).

Definition chain_bytes (cs : list CoderInfo) : bytes :=
  sevenzip_varuint64_encode (zlen cs) ++ concat (map coder_bytes cs) ++
  concat (map bind_bytes (chain_binds (zlen cs))).

Lemma reads_coders `{Nom} cs acc k :
  Forall simple_ok cs → 0 ≤ k → k + zlen cs ≤ MAX_FOLDER_STREAMS →
  reads (λ s, repeat_nat parse_coder_step (length cs) (s, (acc, {| inputs := k; outputs := k |})))
    (concat (map coder_bytes cs))
    (acc ++ cs, {| inputs := k + zlen cs; outputs := k + zlen cs |}).
Proof.
  intros Hcs. revert acc k. induction Hcs as [|c cs Hc _ IH]; intros acc k Hk Hmax a rest.
  { cbn. by rewrite app_nil_r, !Z.add_0_r. }
  pose proof Hc as (Hi & Ho & _). rewrite zlen_cons in *. pose proof (zlen_nonneg cs).
  unfold MAX_FOLDER_STREAMS in Hmax.
  cbn [length repeat_nat parse_coder_step map concat]. rewrite <- app_assoc.
  rewrite (reads_simple_coder c Hc a). rewrite Hi, Ho. unfold FolderStreamCounts_add_coder.
  cbn [inputs outputs]. unfold checked_add. rewrite decide_True by lia. cbn [ok_or].
  unfold MAX_FOLDER_STREAMS. rewrite decide_False by lia.
  rewrite IH by (unfold MAX_FOLDER_STREAMS; lia). rewrite <- app_assoc, zlen_app. cbn [app].
  by rewrite !Z.add_assoc.
Qed.

Lemma reads_binds counts binds acc :
  Forall (λ b, 0 ≤ fst b < inputs counts ∧ 0 ≤ snd b < outputs counts) binds →
  inputs counts ≤ MAX_FOLDER_STREAMS → outputs counts ≤ MAX_FOLDER_STREAMS →
  reads (λ s, repeat_n (zlen binds) (parse_bind_step counts) (s, acc))
    (concat (map bind_bytes binds)) (acc ++ binds).
Proof.
  intros Hb Hi Ho. unfold MAX_FOLDER_STREAMS in *. rewrite <- foldl_snoc. apply reads_repeat; [|done].
  intros st [i o] Hin a rest. rewrite Forall_forall in Hb. destruct (Hb _ Hin) as [? ?]. cbn [fst snd] in *.
  unfold bind_bytes, parse_bind_step, checked_stream_index. cbn [fst snd]. norm_app.
  rewrite (reads_varuint i) by (unfold is_u64; lia). rewrite decide_True by lia.
  rewrite (reads_varuint o) by (unfold is_u64; lia). rewrite decide_True by lia.
  same_rest. done.
Qed.

Lemma chain_reads_back `{Nom} cs :
  Forall simple_ok cs → 1 ≤ zlen cs ≤ MAX_FOLDER_STREAMS →
  reads Folder_parse (chain_bytes cs) (chain_folder cs).
Proof.
  intros Hcs Hn a rest. unfold MAX_FOLDER_STREAMS in Hn. unfold Folder_parse, chain_bytes. norm_app.
  rewrite (reads_varuint (zlen cs)) by (unfold is_u64; lia). unfold checked_coder_count.
  rewrite usize_try_from_u64 by (unfold is_u64; lia). cbn [ok_or].
  unfold MAX_FOLDER_STREAMS. rewrite decide_True by lia. rewrite repeat_n_zlen.
  unfold FolderStreamCounts_default. rewrite reads_coders by (try done; unfold MAX_FOLDER_STREAMS; lia).
  rewrite Z.add_0_l. unfold FolderStreamCounts_layout, checked_sub. cbn [inputs outputs].
  rewrite decide_True by lia. cbn [ok_or]. rewrite decide_True by lia. cbn [ok_or].
  assert (zlen cs - 1 = zlen (chain_binds (zlen cs))) as Hl.
  { unfold chain_binds. rewrite zlen_map. unfold zlen at 2. rewrite length_seqZ. lia. }
  rewrite Hl, reads_binds; cbn [inputs outputs]; try (unfold MAX_FOLDER_STREAMS; lia).
  - rewrite <- Hl. replace (zlen cs - (zlen cs - 1)) with 1 by lia. rewrite decide_False by tauto.
    same_rest. done.
  - apply Forall_forall. intros [i o] Hin. unfold chain_binds in Hin.
    apply list_elem_of_fmap in Hin as (j & [= -> ->] & Hj%elem_of_seqZ). cbn. lia.
Qed.

Lemma chain_scans `{Nom} cs :
  Forall simple_ok cs → 1 ≤ zlen cs ≤ MAX_FOLDER_STREAMS →
  reads scan_folder (chain_bytes cs) (zlen cs).
Proof.
  intros Hcs Hn a rest. rewrite scan_folder_erase, chain_reads_back by done. cbn [chain_folder coders].
  assert (sum_out cs = zlen cs) as ->.
  { clear Hn. induction Hcs as [|c cs (_ & Ho & _) _ IH]; [done|]. unfold sum_out in *. cbn [foldr].
    by rewrite IH, Ho, zlen_cons. }
  unfold MAX_FOLDER_STREAMS in Hn. by rewrite usize_try_from_u64 by (unfold is_u64; lia).
Qed.

(** ** The writer's blocks *)

Definition lzma_coder (props : bytes) : CoderInfo := simple_coder [3; 1; 1] (Some props).
Definition lzma2_coder (prop : Z) : CoderInfo := simple_coder [33] (Some [prop]).
Definition ppmd_coder (props : bytes) : CoderInfo := simple_coder [3; 4; 1] (Some props).
Definition bcj_coder : CoderInfo := simple_coder [3; 3; 1; 3] None.
Definition copy_coder : CoderInfo := simple_coder [0] None.
Definition aes_coder (props : bytes) : CoderInfo := simple_coder [6; 241; 7; 1] (Some props).

Definition spec_coder (spec : CoderSpec) : CoderInfo :=
  match spec with
  | SpecCopy => copy_coder
  | SpecLzma props => lzma_coder props
  | SpecLzma2 prop => lzma2_coder prop
  | SpecPpmd props => ppmd_coder props
  | SpecBcj => bcj_coder
  end.

(** LZMA and PPMd properties are arrays of five bytes. *)
Definition spec_ok (spec : CoderSpec) : Prop :=
  match spec with
  | SpecLzma props | SpecPpmd props => zlen props = 5
  | _ => True
  end.

Lemma encode_coder_spec_bytes spec :
  spec_ok spec → encode_coder_spec spec = coder_bytes (spec_coder spec).
Proof.
  destruct spec; cbn [spec_ok]; intros Hs; try done.
  - unfold coder_bytes. cbn [spec_coder lzma_coder simple_coder properties codec_id]. by rewrite Hs.
  - unfold coder_bytes. cbn [spec_coder ppmd_coder simple_coder properties codec_id]. by rewrite Hs.
Qed.

Lemma spec_coder_ok spec : spec_ok spec → simple_ok (spec_coder spec).
Proof.
  unfold simple_ok. destruct spec; cbn [spec_ok]; intros Hs; cbn; unfold is_u64; rewrite ?Hs;
    split_and!; done.
Qed.

Lemma encode_copy_chain : encode_coder_info_copy = chain_bytes [copy_coder].
Proof. done. Qed.
Lemma encode_lzma_chain props :
  zlen props = 5 → encode_coder_info_lzma props = chain_bytes [lzma_coder props].
Proof.
  intros Hp. unfold chain_bytes, coder_bytes. cbn [map lzma_coder simple_coder properties codec_id].
  rewrite Hp. cbn [concat]. by rewrite !app_nil_r.
Qed.
Lemma encode_lzma2_chain prop : encode_coder_info_lzma2 prop = chain_bytes [lzma2_coder prop].
Proof. done. Qed.
Lemma encode_ppmd_chain props :
  zlen props = 5 → encode_coder_info_ppmd props = chain_bytes [ppmd_coder props].
Proof.
  intros Hp. unfold chain_bytes, coder_bytes. cbn [map ppmd_coder simple_coder properties codec_id].
  rewrite Hp. cbn [concat]. by rewrite !app_nil_r.
Qed.
Lemma encode_bcj_chain prop :
  encode_coder_info_bcj_lzma2 prop = chain_bytes [lzma2_coder prop; bcj_coder].
Proof. done. Qed.
Lemma encode_aes_chain inner aes_props :
  Forall spec_ok inner →
  encode_coder_info_aes_then inner aes_props =
  chain_bytes (aes_coder aes_props :: map spec_coder inner).
Proof.
  intros Hi. unfold encode_coder_info_aes_then, chain_bytes. rewrite zlen_cons, zlen_map. f_equal.
  cbn [map concat]. unfold coder_bytes at 1. cbn [aes_coder simple_coder properties codec_id].
  norm_app. do 5 f_equal. change (zlen [6; 241; 7; 1]) with 4. norm_app. f_equal.
  assert (map encode_coder_spec inner = map coder_bytes (map spec_coder inner)) as ->.
  { rewrite map_map. apply map_ext_in. intros spec Hin%list_elem_of_In.
    rewrite Forall_forall in Hi. by apply encode_coder_spec_bytes, Hi. }
  f_equal. f_equal. unfold chain_binds. rewrite map_map.
  by replace (1 + zlen inner - 1) with (zlen inner) by lia.
Qed.

(** ** The graph of a chain *)

(** Simple coders whose method, when known, has one input and one output. *)
Definition chain_ok (cs : list CoderInfo) : Prop :=
  Forall (λ c, simple_ok c ∧ arity_ok c) cs ∧ 1 ≤ zlen cs ≤ MAX_FOLDER_STREAMS.

Lemma imap_ones (h : CoderInfo → nat) cs k :
  Forall (λ c, h c = 1%nat) cs →
  concat (imap (λ i c, replicate (h c) (k + i)%nat) cs) = seq k (length cs).
Proof.
  intros Hh. revert k. induction Hh as [|c cs Hc _ IH]; intros k; [done|].
  rewrite imap_cons. cbn [concat length seq]. rewrite Hc, Nat.add_0_r. cbn [replicate app]. f_equal.
  rewrite <- IH. f_equal. apply imap_ext. intros i c' _. cbn. f_equal. lia.
Qed.

Lemma chain_owners cs :
  chain_ok cs →
  own_inputs (owners_of cs) = seq 0 (length cs) ∧ own_outputs (owners_of cs) = seq 0 (length cs).
Proof.
  intros [Hcs _]. split; cbn.
  - apply (imap_ones (λ c, Z.to_nat (num_in_streams c)) cs 0).
    eapply Forall_impl; [exact Hcs|]. intros c [(-> & _) _]. done.
  - apply (imap_ones (λ c, Z.to_nat (num_out_streams c)) cs 0).
    eapply Forall_impl; [exact Hcs|]. intros c [(_ & -> & _) _]. done.
Qed.

Lemma chain_binds_seq n :
  resolve (chain_binds (Z.of_nat n)) = map (λ i, (S i, i)) (seq 0 (n - 1)).
Proof.
  unfold resolve, chain_binds. rewrite map_map. unfold seqZ. rewrite map_map.
  replace (Z.to_nat (Z.of_nat n - 1)) with (n - 1)%nat by lia.
  apply map_ext. intros i. cbn. f_equal; lia.
Qed.

Lemma chain_edges cs :
  chain_ok cs → coder_edges (chain_folder cs) = map (λ i, (i, S i)) (seq 0 (length cs - 1)).
Proof.
  intros Hok. destruct (chain_owners cs Hok) as [Hi Ho]. unfold coder_edges.
  cbn [chain_folder coders bind_pairs]. unfold zlen. rewrite chain_binds_seq, map_map.
  apply map_ext_in. intros i Hin%in_seq. unfold pair_edge. rewrite Hi, Ho. cbn [fst snd].
  assert (∀ j, (j < length cs)%nat → seq 0 (length cs) !!! j = j) as Hj.
  { intros j Hj. apply list_lookup_total_correct. by rewrite lookup_seq_lt. }
  by rewrite !Hj by lia.
Qed.

Lemma chain_bound n : (map (λ i : nat, (S i, i)) (seq 0 n)).*1 = seq 1 n.
Proof.
  change (map (λ i : nat, (S i, i)) (seq 0 n)) with ((λ i : nat, (S i, i)) <$> seq 0 n).
  rewrite <- list_fmap_compose. apply fmap_S_seq.
Qed.
Lemma chain_sources n : (map (λ i : nat, (S i, i)) (seq 0 n)).*2 = seq 0 n.
Proof.
  change (map (λ i : nat, (S i, i)) (seq 0 n)) with ((λ i : nat, (S i, i)) <$> seq 0 n).
  rewrite <- list_fmap_compose. apply list_fmap_id.
Qed.

(** The only input of a chain that no coder feeds is the first coder's. *)
Lemma chain_free n : (0 < n)%nat → filter (λ i, i ∉ seq 1 (n - 1)) (seq 0 n) = [0%nat].
Proof.
  intros Hn. destruct n as [|n]; [lia|]. replace (S n - 1)%nat with n by lia. cbn [seq].
  rewrite filter_cons_True by (rewrite elem_of_seq; lia). f_equal.
  destruct (filter _ _) as [|x l] eqn:E; [done|].
  assert (x ∈ filter (λ i, i ∉ seq 1 n) (seq 1 n)) as Hx by (rewrite E; by left).
  by apply list_elem_of_filter in Hx as [? ?].
Qed.

Lemma chain_graph_valid cs : chain_ok cs → graph_valid (chain_folder cs).
Proof.
  intros Hok. destruct (chain_owners cs Hok) as [Hi Ho]. pose proof Hok as [Hcs Hn].
  assert (Forall arity_ok cs) as Har by (eapply Forall_impl; [exact Hcs|]; by intros c []).
  destruct (owners_lengths cs Har) as [Hsi Hso]. rewrite Hi in Hsi. rewrite Ho in Hso.
  assert (zlen (seq 0 (length cs)) = zlen cs) as Hseq by (unfold zlen; by rewrite length_seq).
  rewrite Hseq in Hsi, Hso. pose proof (chain_edges cs Hok) as He.
  split; cbn [chain_folder coders bind_pairs packed_indices].
  - split; [done|]. split; rewrite <- ?Hsi, <- ?Hso; apply Hn.
  - rewrite <- Hso. unfold chain_binds. rewrite zlen_map. unfold zlen at 1. rewrite length_seqZ. lia.
  - split.
    + apply Forall_forall. intros [a b] (j & [= -> ->] & Hj%elem_of_seqZ)%list_elem_of_fmap.
      cbn [fst snd]. rewrite Hi, Ho, Hseq. lia.
    + unfold zlen. rewrite chain_binds_seq, chain_bound. apply NoDup_seq.
    + unfold zlen. rewrite chain_binds_seq, chain_sources. apply NoDup_seq.
    + unfold coder_edges in He. cbn [chain_folder coders bind_pairs] in He.
      apply Forall_forall. intros p Hp. apply (list_elem_of_fmap_2 (pair_edge (owners_of cs))) in Hp.
      change (pair_edge (owners_of cs) <$> resolve (chain_binds (zlen cs)))
        with (map (pair_edge (owners_of cs)) (resolve (chain_binds (zlen cs)))) in Hp. rewrite He in Hp.
      apply list_elem_of_fmap in Hp as (i & Hpi & _). rewrite Hpi. cbn. lia.
  - unfold zlen. rewrite chain_binds_seq, chain_bound, Hi, length_seq. cbn [packed_ok].
    rewrite chain_free; [done|unfold zlen in Hn; lia].
  - rewrite He. exists id. intros u v (i & [= -> ->] & _)%list_elem_of_fmap. cbn. lia.
Qed.

(** A chain has one topological order. *)
Lemma chain_order n order :
  order ≡ₚ seq 0 n → topological (map (λ i, (i, S i)) (seq 0 (n - 1))) order → order = seq 0 n.
Proof.
  intros Hp Ht. assert (Hnd : NoDup order) by (rewrite Hp; apply NoDup_seq).
  assert (Hl : length order = n) by (by rewrite Hp, length_seq).
  assert (Hprev : ∀ p v, order !! p = Some (S v) → ∃ q, (q < p)%nat ∧ order !! q = Some v).
  { intros p v Hv. apply (Ht p v (S v) Hv). apply list_elem_of_fmap. exists v. split; [done|].
    apply list_elem_of_lookup_2 in Hv. rewrite Hp, elem_of_seq in Hv. rewrite elem_of_seq. lia. }
  assert (Hge : ∀ v p, order !! p = Some v → (v ≤ p)%nat).
  { induction v as [|v IH]; intros p Hv; [lia|]. destruct (Hprev p v Hv) as (q & Hq & Hqv).
    apply IH in Hqv. lia. }
  assert (Hle : ∀ k v p, (n = v + S k)%nat → order !! p = Some v → (p ≤ v)%nat).
  { induction k as [|k IH]; intros v p Hk Hv; [apply lookup_lt_Some in Hv; lia|].
    assert (S v ∈ order) as [q Hq]%list_elem_of_lookup by (rewrite Hp, elem_of_seq; lia).
    pose proof (IH (S v) q ltac:(lia) Hq) as Hqv. destruct (Hprev q v Hq) as (p' & Hp' & Hv').
    rewrite (NoDup_lookup order p p' v Hnd Hv Hv'). lia. }
  apply list_eq. intros i. destruct (decide (i < n)%nat) as [Hi|Hi].
  - rewrite lookup_seq_lt by done. destruct (lookup_lt_is_Some_2 order i ltac:(lia)) as [v Hv].
    rewrite Hv. f_equal. pose proof (Hge v i Hv). cbn.
    apply list_elem_of_lookup_2 in Hv as Hin. rewrite Hp, elem_of_seq in Hin.
    pose proof (Hle (n - S v)%nat v i ltac:(lia) Hv). lia.
  - rewrite lookup_ge_None_2 by lia. symmetry. apply lookup_ge_None_2. rewrite length_seq. lia.
Qed.

(** What a chain block reads back as: the chain, decoded from its first coder to
    its last, with the packed stream at its head and the output at its tail. *)
Definition reads_chain `{Nom} (enc : bytes) (cs : list CoderInfo) : Prop :=
  reads Folder_parse enc (chain_folder cs) ∧
  ∃ g, Folder_graph (chain_folder cs) = Ok g ∧
    fg_execution_order g = seq 0 (length cs) ∧ fg_packed_inputs g = [(0%nat, 0%nat)] ∧
    fg_final_output g = (length cs - 1)%nat.

Lemma chain_graph cs :
  chain_ok cs →
  ∃ g, Folder_graph (chain_folder cs) = Ok g ∧
    fg_execution_order g = seq 0 (length cs) ∧ fg_packed_inputs g = [(0%nat, 0%nat)] ∧
    fg_final_output g = (length cs - 1)%nat.
Proof.
  intros Hok. destruct (chain_owners cs Hok) as [Hi Ho]. pose proof Hok as [_ Hn].
  assert (0 < length cs)%nat as Hpos by (unfold zlen in Hn; lia).
  destruct (Folder_graph_cases (chain_folder cs)) as [(_ & g & Hg & Hs)|[Hv _]];
    [|by destruct Hv; apply chain_graph_valid].
  exists g. split; [done|]. destruct Hs as [Hall Hord Hfin [Hp1 Hp2] _ _ Hin Hout].
  rewrite chain_edges in Hord by done. cbn [chain_folder coders bind_pairs] in Hall, Hin, Hout, Hfin, Hp2.
  rewrite Hi in Hin. rewrite Ho in Hout. unfold zlen in Hfin, Hp2.
  rewrite chain_binds_seq, chain_bound, Hin, length_seq, chain_free in Hp2 by done.
  rewrite chain_binds_seq, chain_sources, Hout, length_seq in Hfin.
  split; [by apply chain_order|]. split.
  - symmetry in Hp2. apply Permutation_singleton_l in Hp2.
    destruct (fg_packed_inputs g) as [|[x y] [|]]; try done. cbn in Hp1, Hp2. congruence.
  - symmetry. apply Hfin. rewrite elem_of_seq. lia.
Qed.

Lemma chain_block_reads_back `{Nom} cs : chain_ok cs → reads_chain (chain_bytes cs) cs.
Proof.
  intros Hok. split; [|by apply chain_graph]. destruct Hok as [Hcs Hn].
  apply chain_reads_back; [|done]. eapply Forall_impl; [exact Hcs|]. by intros c [].
Qed.

Lemma spec_coder_arity spec : arity_ok (spec_coder spec).
Proof. destruct spec; split; [reflexivity|by split|reflexivity|by split|reflexivity|by split|reflexivity|by split|reflexivity|by split]. Qed.

Lemma aes_coder_ok props : is_u64 (zlen props) → simple_ok (aes_coder props) ∧ arity_ok (aes_coder props).
Proof. intros Hp. split; [by split_and!|]. split; [reflexivity|by split]. Qed.

Lemma specs_chain_ok specs :
  Forall spec_ok specs → 1 ≤ zlen specs ≤ MAX_FOLDER_STREAMS → chain_ok (map spec_coder specs).
Proof.
  intros Hs Hn. split; [|by rewrite zlen_map]. apply Forall_fmap. eapply Forall_impl; [exact Hs|].
  intros spec Hok. split; [by apply spec_coder_ok|apply spec_coder_arity].
Qed.

(** ** Properties *)

(** The coder block of an encrypted folder parses to the chain the writer
    meant: the cipher, then the inner coders with their properties, each reading
    the output of the one before it. Its graph is accepted, runs the coders in
    that order and reads the packed stream with the cipher. *)
Theorem encrypted_chain_reads_back `{Nom} inner aes_props :
  Forall spec_ok inner → is_u64 (zlen aes_props) → 1 + zlen inner ≤ MAX_FOLDER_STREAMS →
  reads_chain (encode_coder_info_aes_then inner aes_props)
    (aes_coder aes_props :: map spec_coder inner).
Proof.
  intros Hi Ha Hn. rewrite encode_aes_chain by done. apply chain_block_reads_back.
  split; [|rewrite zlen_cons, zlen_map; pose proof (zlen_nonneg inner); lia].
  constructor; [by apply aes_coder_ok|].
  destruct inner as [|spec inner]; [constructor|].
  apply specs_chain_ok; [done|]. rewrite zlen_cons in *. pose proof (zlen_nonneg inner). lia.
Qed.

(** The coder blocks of unencrypted folders parse to their coders with their
    properties, and their graphs are accepted; the BCJ block decompresses first
    and filters last. *)
Theorem plain_chains_read_back `{Nom} props prop :
  zlen props = 5 →
  reads_chain encode_coder_info_copy [copy_coder] ∧
  reads_chain (encode_coder_info_lzma props) [lzma_coder props] ∧
  reads_chain (encode_coder_info_lzma2 prop) [lzma2_coder prop] ∧
  reads_chain (encode_coder_info_ppmd props) [ppmd_coder props] ∧
  reads_chain (encode_coder_info_bcj_lzma2 prop) [lzma2_coder prop; bcj_coder].
Proof.
  intros Hp. rewrite encode_copy_chain, encode_lzma_chain, encode_lzma2_chain, encode_ppmd_chain,
    encode_bcj_chain by done.
  assert (∀ specs, Forall spec_ok specs → 1 ≤ zlen specs ≤ MAX_FOLDER_STREAMS →
    reads_chain (chain_bytes (map spec_coder specs)) (map spec_coder specs)) as Hs.
  { intros specs H1 H2. by apply chain_block_reads_back, specs_chain_ok. }
  split; [apply (Hs [SpecCopy])|split; [apply (Hs [SpecLzma props])|split;
    [apply (Hs [SpecLzma2 prop])|split; [apply (Hs [SpecPpmd props])|apply (Hs [SpecLzma2 prop; SpecBcj])]]]];
    try done; by repeat constructor.
Qed.

(** ** Witnesses *)

Lemma encrypted_chain_reads_back_witness :
  reads_chain (encode_coder_info_aes_then [SpecLzma2 24; SpecBcj] [19; 0])
    [aes_coder [19; 0]; lzma2_coder 24; bcj_coder].
Proof.
  apply (encrypted_chain_reads_back [SpecLzma2 24; SpecBcj] [19; 0]).
  - by repeat constructor.
  - done.
  - done.
Defined.

Lemma plain_chains_read_back_witness :
  reads_chain (encode_coder_info_ppmd [6; 0; 0; 0; 1]) [ppmd_coder [6; 0; 0; 0; 1]] ∧
  reads_chain (encode_coder_info_bcj_lzma2 24) [lzma2_coder 24; bcj_coder].
Proof.
  destruct (plain_chains_read_back [6; 0; 0; 0; 1] 24) as (_ & _ & _ & H1 & H2); [reflexivity|].
  split; [exact H1|exact H2].
Defined.
