(* ===== verification/FilesRoundTrip.v ===== *)
(** * The file listing the writer emits is read back

    [write_files_info] through [FilesInfo_parse_with_external]: the names, the
    times, the attributes and the kind of every entry. *)

From stdpp Require Import base numbers list option sets.
From Stdlib Require Import ZArith Lia.
From S2P Require Import Prelude PropertyId Parsers PackInfo FilesInfo WriteHeader RoundTrip.

(** ** The listing without the addresses of its slices *)

Definition unplaced (s : slice) : slice := Slice 0 (sl_data s).

Definition view (f : FilesInfo) : FilesInfo :=
  {| fi_num_files := fi_num_files f; name_data := unplaced (name_data f);
     ctimes := ctimes f; atimes := atimes f; mtimes := mtimes f;
     start_positions := start_positions f; attributes := attributes f;
     empty_streams := unplaced (empty_streams f); empty_files := unplaced (empty_files f);
     anti_items := unplaced (anti_items f); empty_stream_ordinals := empty_stream_ordinals f |}.

Lemma view_set f tag d vs : view (set_files f tag d vs) = set_files (view f) tag (unplaced d) vs.
Proof. unfold set_files, view. cbn. by destruct tag. Qed.

(** ** The loop over the properties *)

(** None of the properties was seen. *)
Definition unseen (seen : Z) (ps : list PropertyId) : Prop :=
  Forall (λ p, ∃ m, seen_mask p = Some m ∧ Z.land seen m = 0) ps.

Lemma mask_disjoint p q m k :
  seen_mask p = Some m → seen_mask q = Some k → p ≠ q → Z.land m k = 0.
Proof.
  intros Hp Hq Hne. destruct p; try discriminate Hp; destruct q; try discriminate Hq;
    try (by destruct Hne); injection Hp as <-; injection Hq as <-; by vm_compute.
Qed.

Lemma register_unseen seen p ps i :
  p ∉ ps → unseen seen (p :: ps) →
  ∃ seen', SeenFileProperties_register seen p i = Ok seen' ∧ unseen seen' ps.
Proof.
  intros Hp [(m & Hm & H0) Hps]%Forall_cons. unfold SeenFileProperties_register. rewrite Hm.
  rewrite decide_False by tauto. eexists. split; [done|].
  apply Forall_forall. intros q Hq. rewrite Forall_forall in Hps. destruct (Hps q Hq) as (k & Hk & Hz).
  exists k. split; [done|]. rewrite Z.land_lor_distr_l, Hz.
  apply (mask_disjoint p q); [done..|]. by intros ->.
Qed.

Section listing.
  Context `{Nom} (backing : slice) (ext : list slice) (n : Z).
  Hypothesis backing_small : sl_len backing ≤ usize_max.

Let body := files_info_body backing ext n.

(** The loop over [e] takes a listing that looks like [v] to one that looks like
    [v'], the properties [ps] being unseen before and [ps'] after. *)
Definition fills (v : FilesInfo) (ps : list PropertyId) (e : bytes) (v' : FilesInfo)
    (ps' : list PropertyId) : Prop :=
  ∀ a rest f seen, within (Slice a (e ++ rest)) backing → view f = v → unseen seen ps →
  ∃ f' seen', view f' = v' ∧ unseen seen' ps' ∧
    run_tag_loop body (Slice a (e ++ rest)) (f, seen) =
    run_tag_loop body (Slice (a + zlen e) rest) (f', seen').

Lemma within_rest a (e rest : bytes) b :
  within (Slice a (e ++ rest)) b → within (Slice (a + zlen e) rest) b.
Proof.
  intros Hw. eapply within_trans; [|exact Hw]. apply within_suffix. exists (zlen e). split.
  - unfold sl_len. cbn [sl_data]. rewrite zlen_app. pose proof (zlen_nonneg e).
    pose proof (zlen_nonneg rest). lia.
  - by rewrite advance_app.
Qed.

Lemma within_front a (e rest : bytes) b :
  within (Slice a (e ++ rest)) b → within (Slice a e) b.
Proof.
  intros Hw. eapply within_trans; [|exact Hw].
  rewrite <- (first_bytes_app a e rest (zlen e)) at 1 by done. apply within_first.
  unfold sl_len. cbn [sl_data]. rewrite zlen_app. pose proof (zlen_nonneg e).
  pose proof (zlen_nonneg rest). lia.
Qed.

Lemma fills_nil v ps : fills v ps [] v ps.
Proof. intros a rest f seen _ Hf Hs. exists f, seen. by rewrite (@zlen_nil Z), Z.add_0_r. Qed.

Lemma fills_skip v p ps : fills v (p :: ps) [] v ps.
Proof.
  intros a rest f seen _ Hf Hs. exists f, seen. rewrite (@zlen_nil Z), Z.add_0_r.
  split_and!; try done. by apply Forall_cons in Hs as [_ ?].
Qed.

Lemma fills_app v v' v'' ps ps' ps'' e1 e2 :
  fills v ps e1 v' ps' → fills v' ps' e2 v'' ps'' → fills v ps (e1 ++ e2) v'' ps''.
Proof.
  intros H1 H2 a rest f seen Hw Hf Hs. rewrite <- app_assoc in *.
  destruct (H1 a (e2 ++ rest) f seen) as (f1 & s1 & Hf1 & Hs1 & ->); [done..|].
  apply within_rest in Hw.
  destruct (H2 (a + zlen e1) rest f1 s1) as (f2 & s2 & Hf2 & Hs2 & ->); [done..|].
  exists f2, s2. by rewrite zlen_app, Z.add_assoc.
Qed.

(** One property, sized. *)
Lemma fills_tag v p ps block v' :
  p ∉ ps → p ≠ P_END →
  (∀ a i f, within (Slice a block) backing → view f = v →
     ∃ f', file_property backing ext n i (Slice a block) p f = Ok f' ∧ view f' = v') →
  fills v (p :: ps) (PropertyId_tag p :: sevenzip_varuint64_encode (zlen block) ++ block) v' ps.
Proof.
  intros Hp He Hb a rest f seen Hw Hf Hs. norm_app.
  set (len := sevenzip_varuint64_encode (zlen block)) in *. cbn [app] in Hw.
  rewrite <- app_assoc in Hw. change (PropertyId_tag p :: len ++ block ++ rest)
    with ([PropertyId_tag p] ++ len ++ block ++ rest) in Hw.
  apply within_rest, within_rest in Hw. pose proof (within_front _ _ _ _ Hw) as Hwb.
  assert (is_u64 (zlen block)) as Hlen.
  { destruct Hwb as (i & j & Hi & Hij & Hj & E). apply (f_equal sl_len) in E.
    rewrite sl_len_first in E by (rewrite sl_len_advance by lia; lia).
    change (sl_len (Slice _ block)) with (zlen block) in E. unfold is_u64. lia. }
  set (i := Slice (a + 1) (len ++ block ++ rest)).
  destruct (register_unseen seen p ps i Hp Hs) as (seen' & Hreg & Hs').
  destruct (Hb _ i f Hwb Hf) as (f' & Hprop & Hf'). exists f', seen'. split; [done|]. split; [done|].
  erewrite (run_tag_loop_step body (files_info_body_ok backing ext n) _ i);
    [|by apply parse_tag_at|done|].
  2:{ unfold body, files_info_body. rewrite Hreg. unfold i at 1. unfold len at 1.
      rewrite (reads_varuint (zlen block)) by done. rewrite usize_try_from_u64 by done.
      cbn [ok_or]. rewrite (reads_take block) by done. fold len.
      change (zlen [PropertyId_tag p]) with 1 in Hprop. by rewrite Hprop. }
  f_equal. f_equal. lens. lia.
Qed.

(** ** Columns of values *)

(** What a column of values reads back as. *)
Definition column (vs : list (option Z)) : list (option Z) :=
  if existsb is_defined vs then vs else [].

Definition values_ok (w : nat) (vs : list (option Z)) : Prop :=
  Forall (from_option (λ v, 0 ≤ v < 2 ^ (8 * Z.of_nat w)) True) vs.

Definition values_bytes (w : nat) (vs : list (option Z)) : bytes :=
  concat (map (to_le_bytes w) (flatten vs)).

Lemma values_loop w i ad bm vs pre post k acc :
  values_ok w vs →
  (∀ j v, vs !! j = Some v →
     bool_decide (ad ≠ 0) || bitmap_is_set bm (k + Z.of_nat j) = is_defined v) →
  repeat_nat (defined_value_step w i ad bm (pre ++ values_bytes w vs ++ post)) (length vs)
    (k, zlen pre, acc) = Ok (k + zlen vs, zlen (pre ++ values_bytes w vs), acc ++ vs).
Proof.
  intros Hok. revert pre k acc. induction Hok as [|v vs Hv _ IH]; intros pre k acc Hd.
  { cbn. by rewrite !app_nil_r, Z.add_0_r. }
  pose proof (Hd 0%nat v eq_refl) as H0. rewrite Z.add_0_r in H0.
  assert (∀ j v', vs !! j = Some v' →
    bool_decide (ad ≠ 0) || bitmap_is_set bm (k + 1 + Z.of_nat j) = is_defined v') as Hd'.
  { intros j v' Hj. rewrite <- Z.add_assoc. replace (1 + Z.of_nat j) with (Z.of_nat (S j)) by lia.
    by apply Hd. }
  cbn [length repeat_nat]. unfold defined_value_step at 1. rewrite H0, zlen_cons, Z.add_assoc.
  destruct v as [v|].
  - change (is_defined (Some v)) with true. cbv iota. cbn in Hv.
    change (values_bytes w (Some v :: vs)) with (to_le_bytes w v ++ values_bytes w vs).
    rewrite <- (app_assoc (to_le_bytes w v)).
    rewrite (get_range_app pre (to_le_bytes w v)) by (rewrite ?zlen_to_le_bytes; lia).
    cbn [ok_or]. rewrite from_to_le_bytes_id by done.
    specialize (IH (pre ++ to_le_bytes w v) (k + 1) (acc ++ [Some v]) Hd').
    rewrite (zlen_app pre (to_le_bytes w v)), zlen_to_le_bytes in IH.
    repeat rewrite <- app_assoc in IH. exact IH.
  - change (is_defined (@None Z)) with false. cbv iota.
    change (values_bytes w (None :: vs)) with (values_bytes w vs).
    rewrite IH by done. by rewrite <- app_assoc.
Qed.

Lemma flatten_len {A} (vs : list (option A)) : zlen (filter (λ v, is_Some v) vs) = zlen (flatten vs).
Proof.
  induction vs as [|[v|] vs IH]; [done|..].
  - rewrite filter_cons_True by by eexists. change (flatten (Some v :: vs)) with (v :: flatten vs).
    by rewrite !zlen_cons, IH.
  - rewrite filter_cons_False by by intros []. done.
Qed.

Lemma values_bytes_len w vs : zlen (values_bytes w vs) = zlen (flatten vs) * Z.of_nat w.
Proof.
  unfold values_bytes. induction (flatten vs) as [|v l IH]; [done|]. cbn [map concat].
  rewrite zlen_app, zlen_to_le_bytes, IH, zlen_cons. lia.
Qed.

(** The block of a property of values. *)
Definition values_block (w : nat) (vs : list (option Z)) : bytes :=
  let all_defined := forallb is_defined vs in
  [u8_from_bool all_defined] ++ (if all_defined then [] else bools_to_bytes (map is_defined vs)) ++
  [0] ++ values_bytes w vs.

Lemma write_property_some w tag vs :
  existsb is_defined vs = true →
  write_property w tag vs = tag :: sevenzip_varuint64_encode (zlen (values_block w vs)) ++ values_block w vs.
Proof.
  intros E. unfold write_property, values_block. rewrite E. cbn [negb]. norm_app.
  rewrite flatten_len, <- values_bytes_len. do 2 f_equal.
  f_equal. lens. fold (values_bytes w vs). lia.
Qed.

Lemma inline_data a (data : bytes) :
  within (Slice a (0 :: data)) backing → ∀ i,
  ∃ d, property_data i (Slice a (0 :: data)) backing ext = Ok d ∧ sl_data d = data.
Proof.
  intros Hw i. unfold property_data. cbn [split_first sl_data ok_or].
  rewrite decide_True by done. change (advance 1 (Slice a (0 :: data))) with (Slice (a + 1) data).
  apply bytes_subslice_within; [done|]. change (0 :: data) with ([0] ++ data) in Hw.
  rewrite <- (app_nil_r data) in Hw. apply within_rest in Hw. by rewrite app_nil_r in Hw.
Qed.

Lemma values_read_back w a i vs :
  values_ok w vs → zlen vs = n → within (Slice a (values_block w vs)) backing →
  ∃ p, DefinedProperty_parse i (Slice a (values_block w vs)) n backing ext = Ok p ∧
  parse_defined_values w i (dp_all_defined p) (sl_data (dp_bitmap p)) (sl_data (dp_values p)) n = Ok vs.
Proof.
  intros Hok Hn Hw. unfold DefinedProperty_parse, values_block in *. norm_app. cbn [app] in Hw.
  set (ad := u8_from_bool (forallb is_defined vs)) in *.
  set (bm := if forallb is_defined vs then [] else bools_to_bytes (map is_defined vs)) in *.
  cbn [split_first sl_data ok_or].
  change (advance 1 (Slice a (ad :: bm ++ 0 :: values_bytes w vs)))
    with (Slice (a + 1) (bm ++ 0 :: values_bytes w vs)).
  destruct (bools_to_bytes_spec (map is_defined vs)) as [Hl Hs]. rewrite zlen_map, Hn in Hl.
  assert ((if decide (ad = 0) then div_ceil n 8 else 0) = zlen bm) as ->.
  { unfold ad, bm. destruct (forallb is_defined vs); cbn; [done|by rewrite <- Hl]. }
  unfold slice_from. rewrite decide_True by (unfold sl_len; cbn [sl_data]; lens;
    pose proof (zlen_nonneg bm); pose proof (zlen_nonneg (values_bytes w vs)); lia).
  cbn [ok_or]. rewrite advance_app, first_bytes_app by done.
  change (ad :: bm ++ 0 :: values_bytes w vs) with ([ad] ++ bm ++ 0 :: values_bytes w vs) in Hw.
  apply within_rest in Hw. change (zlen [ad]) with 1 in Hw.
  rewrite <- (app_nil_r (bm ++ 0 :: values_bytes w vs)), <- app_assoc in Hw. apply within_rest in Hw.
  rewrite app_nil_r in Hw.
  destruct (inline_data _ _ Hw i) as (d & -> & Hd). eexists. split; [done|].
  cbn [dp_all_defined dp_bitmap dp_values sl_data]. rewrite Hd. unfold parse_defined_values.
  rewrite <- Hn, repeat_n_zlen.
  pose proof (values_loop w i ad bm vs [] [] 0 [] Hok) as Hloop. cbn [app] in Hloop.
  rewrite app_nil_r in Hloop. change (zlen (@nil Z)) with 0 in Hloop. rewrite Hloop; [by rewrite decide_False by tauto|].
  intros j v Hj. unfold ad, bm. destruct (forallb is_defined vs) eqn:Ef.
  - rewrite bool_decide_eq_true_2 by done. cbn. symmetry. rewrite forallb_forall in Ef.
    apply Ef, list_elem_of_In. by eapply list_elem_of_lookup_2.
  - change (0 + Z.of_nat j) with (Z.of_nat j). rewrite Hs, list_lookup_fmap, Hj. done.
Qed.

(** The times, the start positions and the attributes. *)
Definition is_values (w : nat) (p : PropertyId) : Prop :=
  (w = 8%nat ∧ p ∈ [P_CTime; P_ATime; P_MTime; P_StartPos]) ∨ (w = 4%nat ∧ p = P_Attributes).

Lemma fills_values w p ps v vs :
  is_values w p → p ∉ ps → values_ok w vs → zlen vs = n →
  (existsb is_defined vs = false → set_files v p Bytes_new [] = v) →
  fills v (p :: ps) (write_property w (PropertyId_tag p) vs) (set_files v p Bytes_new (column vs)) ps.
Proof.
  intros Hp Hps Hok Hn Hnone. unfold column. destruct (existsb is_defined vs) eqn:E.
  - rewrite write_property_some by done. apply fills_tag; [done|by intros ->; destruct Hp as [[_ Hp]|[_ Hp]]; [set_solver|]|].
    intros a i f Hw Hf. destruct (values_read_back w a i vs Hok Hn Hw) as (q & Hq & Hv).
    exists (set_files f p Bytes_new vs). split; [|rewrite view_set, Hf; done].
    destruct Hp as [[-> Hp]|[-> ->]].
    + rewrite !elem_of_cons, elem_of_nil in Hp.
      destruct_or! Hp; try done; subst; cbn [file_property]; rewrite Hq;
        unfold parse_defined_u64_values; by rewrite Hv.
    + cbn [file_property]. rewrite Hq. unfold parse_defined_u32_values. by rewrite Hv.
  - unfold write_property. rewrite E, Hnone by done. apply fills_skip.
Qed.

(** ** Names and bitmaps *)

Lemma fills_names ps v entries :
  P_Name ∉ ps → zlen entries = n → Forall (λ e, raw_name_ok (entry_name_bytes e)) entries →
  fills v (P_Name :: ps) (write_names entries)
    (set_files v P_Name (Slice 0 (encode_names (map entry_name_bytes entries))) []) ps.
Proof.
  intros Hps Hn Hnames. unfold write_names.
  set (nd := concat (map (λ e, entry_name_bytes e ++ [0; 0]) entries)).
  assert (encode_names (map entry_name_bytes entries) = nd) as ->.
  { unfold encode_names, nd. by rewrite map_map. }
  change ([17] ++ sevenzip_varuint64_encode (1 + zlen nd) ++ [0] ++ nd)
    with (PropertyId_tag P_Name :: sevenzip_varuint64_encode (1 + zlen nd) ++ 0 :: nd).
  rewrite <- (zlen_cons 0 nd). apply fills_tag; [done..|].
  intros a i f Hw Hf. destruct (inline_data a nd Hw i) as (d & Hd & Hdd).
  exists (set_files f P_Name d []). split; [|by rewrite view_set, Hf; unfold unplaced; rewrite Hdd].
  cbn [file_property]. rewrite Hd, Hdd.
  assert (validate_name_data nd n i = Ok tt) as ->; [|done].
  apply validate_name_data_spec; [rewrite <- Hn; apply zlen_nonneg|].
  exists (map entry_name_bytes entries). split; [by apply Forall_fmap|].
  split; [by rewrite zlen_map|]. unfold encode_names, nd. by rewrite map_map.
Qed.

(** What an optional bitmap reads back as. *)
Definition opt_bitmap (vs : list bool) : bytes := if existsb id vs then bools_to_bytes vs else [].

Lemma fills_bitmap p ps v vs :
  p ∈ [P_EmptyStream; P_EmptyFile; P_Anti] → p ∉ ps →
  set_files v p Bytes_new [] = v →
  fills v (p :: ps) (if existsb id vs then write_bitmap (PropertyId_tag p) vs else [])
    (set_files v p (Slice 0 (opt_bitmap vs)) []) ps.
Proof.
  intros Hp Hps Hv. unfold opt_bitmap. destruct (existsb id vs).
  2:{ change (Slice 0 []) with Bytes_new. rewrite Hv. apply fills_skip. }
  unfold write_bitmap. cbn [app]. apply fills_tag; [done|by intros ->; set_solver|].
  intros a i f Hw Hf. destruct (bytes_subslice_within backing (Slice a (bools_to_bytes vs)) i)
    as (d & Hd & Hdd); [done..|].
  exists (set_files f p d []). split; [|by rewrite view_set, Hf; unfold unplaced; rewrite Hdd].
  rewrite !elem_of_cons, elem_of_nil in Hp. destruct_or! Hp; try done; subst; cbn [file_property];
    by rewrite Hd.
Qed.

(** ** The listing *)

Definition empty_bits (entries : list WriteEntry) : list bool :=
  map (λ e, negb (has_stream e)) entries.
Definition streamless (entries : list WriteEntry) : list WriteEntry :=
  filter (λ e, has_stream e = false) entries.
Definition kind_bits (k : WriteEntryKind) (entries : list WriteEntry) : list bool :=
  map (λ e, bool_decide (we_kind e = k)) (streamless entries).

Lemma no_streamless entries : existsb id (empty_bits entries) = false → streamless entries = [].
Proof.
  unfold empty_bits, streamless. induction entries as [|e entries IH]; [done|].
  cbn [map existsb]. intros [He Hs]%orb_false_iff.
  rewrite filter_cons_False by (intros E; cbv beta in E; unfold id in He; rewrite E in He; discriminate He). by apply IH.
Qed.

Lemma write_empty_properties_bits entries :
  write_empty_properties entries =
    (if existsb id (empty_bits entries) then write_bitmap 14 (empty_bits entries) else []) ++
    (if existsb id (kind_bits WriteFile entries) then write_bitmap 15 (kind_bits WriteFile entries) else []) ++
    (if existsb id (kind_bits WriteAnti entries) then write_bitmap 16 (kind_bits WriteAnti entries) else []).
Proof.
  unfold write_empty_properties. fold (empty_bits entries).
  destruct (existsb id (empty_bits entries)) eqn:E; [done|].
  unfold kind_bits. fold (streamless entries). by rewrite !(no_streamless entries E).
Qed.

Definition time_column (f : EntryMeta → option SystemTime) (entries : list WriteEntry) :
    list (option Z) :=
  map (λ e, system_time_to_filetime <$> f (we_meta e)) entries.
Definition meta_column (f : EntryMeta → option Z) (entries : list WriteEntry) : list (option Z) :=
  map (λ e, f (we_meta e)) entries.

(** The listing the entries read back as. *)
Definition listing_of (entries : list WriteEntry) : FilesInfo :=
  {| fi_num_files := zlen entries;
     name_data := Slice 0 (encode_names (map entry_name_bytes entries));
     ctimes := column (time_column em_ctime entries);
     atimes := column (time_column em_atime entries);
     mtimes := column (time_column em_mtime entries);
     start_positions := column (meta_column em_start_pos entries);
     attributes := column (meta_column em_attributes entries);
     empty_streams := Slice 0 (opt_bitmap (empty_bits entries));
     empty_files := Slice 0 (opt_bitmap (kind_bits WriteFile entries));
     anti_items := Slice 0 (opt_bitmap (kind_bits WriteAnti entries));
     empty_stream_ordinals :=
       compute_empty_stream_ordinals (opt_bitmap (empty_bits entries)) (zlen entries) |}.

(** Entries the format can list: names without a NUL unit, metadata in range. *)
Record entry_ok (e : WriteEntry) : Prop := {
  eo_name : raw_name_ok (entry_name_bytes e);
  eo_attributes : from_option is_u32 True (em_attributes (we_meta e));
  eo_start : from_option is_u64 True (em_start_pos (we_meta e))
}.

Lemma filetime_u64 t : is_u64 (system_time_to_filetime t).
Proof.
  unfold system_time_to_filetime, saturating_add, saturating_mul, is_u64. case_decide as Ht; [|lia].
  pose proof (Z.div_pos t 1000000000). pose proof (Z.mod_pos_bound t 1000000000).
  pose proof (Z.div_pos (t mod 1000000000) 100). lia.
Qed.

Lemma time_column_ok f entries : values_ok 8 (time_column f entries).
Proof.
  unfold values_ok, time_column. apply Forall_fmap, Forall_true. intros e. cbn.
  destruct (f (we_meta e)); [apply filetime_u64|done].
Qed.

Lemma listing_loop entries :
  zlen entries = n → Forall entry_ok entries →
  fills (FilesInfo_empty n)
    [P_EmptyStream; P_EmptyFile; P_Anti; P_Name; P_CTime; P_ATime; P_MTime; P_StartPos; P_Attributes]
    (write_empty_properties entries ++ write_names entries ++
     write_time_property 18 entries (λ e, em_ctime (we_meta e)) ++
     write_time_property 19 entries (λ e, em_atime (we_meta e)) ++
     write_time_property 20 entries (λ e, em_mtime (we_meta e)) ++
     write_u64_property 24 entries (λ e, em_start_pos (we_meta e)) ++
     write_u32_property 21 entries (λ e, em_attributes (we_meta e)))
    {| fi_num_files := n;
       name_data := name_data (listing_of entries); ctimes := ctimes (listing_of entries);
       atimes := atimes (listing_of entries); mtimes := mtimes (listing_of entries);
       start_positions := start_positions (listing_of entries);
       attributes := attributes (listing_of entries);
       empty_streams := empty_streams (listing_of entries);
       empty_files := empty_files (listing_of entries);
       anti_items := anti_items (listing_of entries); empty_stream_ordinals := [] |} [].
Proof.
  intros Hn Hok.
  assert (Hcol : ∀ {A} (f : WriteEntry → A), zlen (map f entries) = n) by (intros; by rewrite zlen_map).
  assert (Hnames : Forall (λ e, raw_name_ok (entry_name_bytes e)) entries)
    by (eapply Forall_impl; [exact Hok|]; intros e He; apply He).
  assert (Hattr : values_ok 4 (meta_column em_attributes entries))
    by (apply Forall_fmap; eapply Forall_impl; [exact Hok|]; intros e He; apply He).
  assert (Hstart : values_ok 8 (meta_column em_start_pos entries))
    by (apply Forall_fmap; eapply Forall_impl; [exact Hok|]; intros e He; apply He).
  rewrite write_empty_properties_bits. rewrite <- !app_assoc.
  eapply fills_app; [apply (fills_bitmap P_EmptyStream); [set_solver|set_solver|done]|].
  eapply fills_app; [apply (fills_bitmap P_EmptyFile); [set_solver|set_solver|done]|].
  eapply fills_app; [apply (fills_bitmap P_Anti); [set_solver|set_solver|done]|].
  eapply fills_app; [apply fills_names; [set_solver|done..]|].
  eapply fills_app; [apply (fills_values 8 P_CTime); [left; set_solver|set_solver|apply time_column_ok|apply Hcol|done]|].
  eapply fills_app; [apply (fills_values 8 P_ATime); [left; set_solver|set_solver|apply time_column_ok|apply Hcol|done]|].
  eapply fills_app; [apply (fills_values 8 P_MTime); [left; set_solver|set_solver|apply time_column_ok|apply Hcol|done]|].
  eapply fills_app; [apply (fills_values 8 P_StartPos); [left; set_solver|set_solver|exact Hstart|apply Hcol|done]|].
  apply (fills_values 4 P_Attributes); [by right|set_solver|exact Hattr|apply Hcol|done].
Qed.

End listing.

Lemma files_info_reads_back `{Nom} entries a rest backing ext :
  Forall entry_ok entries → is_u64 (zlen entries) → sl_len backing ≤ usize_max →
  within (Slice a (write_files_info entries ++ rest)) backing →
  ∃ f, FilesInfo_parse_with_external (Slice a (write_files_info entries ++ rest)) backing ext =
         Ok (Slice (a + zlen (write_files_info entries)) rest, f) ∧ view f = listing_of entries.
Proof.
  intros Hok Hn Hback Hw. unfold write_files_info in *.
  pose proof (listing_loop backing ext (zlen entries) Hback entries eq_refl Hok) as Hloop.
  set (props := write_empty_properties entries ++ _) in Hloop.
  set (num := sevenzip_varuint64_encode (zlen entries)) in *.
  assert ([5] ++ num ++ props ++ [0] = [5] ++ num ++ write_empty_properties entries ++
    write_names entries ++ write_time_property 18 entries (λ e, em_ctime (we_meta e)) ++
    write_time_property 19 entries (λ e, em_atime (we_meta e)) ++
    write_time_property 20 entries (λ e, em_mtime (we_meta e)) ++
    write_u64_property 24 entries (λ e, em_start_pos (we_meta e)) ++
    write_u32_property 21 entries (λ e, em_attributes (we_meta e)) ++ [0]) as Henc
    by (unfold props; by norm_app).
  rewrite <- Henc in *. clearbody props. clear Henc. rewrite <- !app_assoc in *.
  unfold FilesInfo_parse_with_external, files_info_head. cbn [app].
  rewrite (parse_tag_at P_FilesInfo 5) by done. rewrite decide_False by tauto.
  unfold num at 1. rewrite (reads_varuint (zlen entries)) by done. fold num.
  rewrite usize_try_from_u64 by done. cbn [ok_or].
  apply within_rest, within_rest in Hw. change (zlen [5]) with 1 in Hw.
  destruct (Hloop (a + 1 + zlen num) (0 :: rest) (FilesInfo_empty (zlen entries)) 0)
    as (f & seen & Hf & _ & Hrun); [done..| |].
  { repeat constructor; eexists; done. }
  rewrite Hrun, run_tag_loop_end. cbn [fst]. eexists. split; [same_rest; reflexivity|].
  unfold view in *. cbn. injection Hf as E1 E2 E3 E4 E5 E6 E7 E8 E9 E10 E11.
  unfold listing_of, unplaced. rewrite E1, E2, E3, E4, E5, E6, E7, E8, E9, E10. done.
Qed.

(** ** What the listing says of each entry *)

(** The name iterator returns the names the entries were given. *)
Lemma listing_names f entries :
  view f = listing_of entries → Forall entry_ok entries →
  FilesInfo_names f = map (λ e, decode_name (entry_name_bytes e)) entries.
Proof.
  intros Hf Hok.
  rewrite (FilesInfo_names_spec f (map entry_name_bytes entries)).
  - by rewrite map_map.
  - apply Forall_fmap. eapply Forall_impl; [exact Hok|]. intros e He. apply He.
  - apply (f_equal (λ f : FilesInfo, sl_data (name_data f))) in Hf. exact Hf.
  - apply (f_equal fi_num_files) in Hf. rewrite zlen_map. exact Hf.
Qed.

Lemma column_get vs i : mjoin (get (Z.of_nat i) (column vs)) = mjoin (vs !! i).
Proof.
  rewrite get_lookup. unfold column. destruct (existsb is_defined vs) eqn:E; [done|].
  rewrite lookup_nil. destruct (vs !! i) as [v|] eqn:Ei; [|done]. cbn.
  destruct v as [v|]; [|done]. exfalso.
  assert (existsb is_defined vs = true) as E'; [|by rewrite E' in E].
  apply existsb_exists. exists (Some v). split; [|done].
  apply list_elem_of_In. by eapply list_elem_of_lookup_2.
Qed.

Lemma opt_bitmap_is_set vs j :
  bitmap_is_set (opt_bitmap vs) (Z.of_nat j) = default false (vs !! j).
Proof.
  unfold opt_bitmap. destruct (existsb id vs) eqn:E; [apply bools_to_bytes_spec|].
  rewrite bitmap_is_set_nat, lookup_nil. destruct (vs !! j) as [[]|] eqn:Ej; [|done..]. cbn.
  assert (existsb id vs = true) as E'; [|by rewrite E' in E].
  apply existsb_exists. exists true. split; [|done].
  apply list_elem_of_In. by eapply list_elem_of_lookup_2.
Qed.

Lemma count_set_bits entries k :
  (k ≤ length entries)%nat →
  count_set (opt_bitmap (empty_bits entries)) (Z.of_nat k) = zlen (streamless (take k entries)).
Proof.
  induction k as [|k IH]; intros Hk; [done|].
  rewrite Nat2Z.inj_succ, <- Z.add_1_r, count_set_S, IH by lia.
  destruct (lookup_lt_is_Some_2 entries k ltac:(lia)) as [e He].
  rewrite (take_S_r _ _ _ He). unfold streamless. rewrite filter_app, zlen_app. f_equal.
  rewrite opt_bitmap_is_set. unfold empty_bits. rewrite list_lookup_fmap, He. cbn.
  by destruct (has_stream e).
Qed.

Lemma filter_lookup_count {A} (P : A → Prop) `{!∀ x, Decision (P x)} (l : list A) i x :
  l !! i = Some x → P x → filter P l !! length (filter P (take i l)) = Some x.
Proof.
  intros Hi HP.
  assert (filter P l = filter P (take i l) ++ x :: filter P (drop (S i) l)) as ->.
  { rewrite <- filter_cons_True, <- filter_app by done. by rewrite take_drop_middle. }
  by rewrite list_lookup_middle.
Qed.

(** The kind the writer means. *)
Definition is_symlink_attributes (a : option Z) : bool :=
  match a with
  | Some attrs => bool_decide (Z.land (Z.shiftr attrs 16) 61440 = 40960)
  | None => false
  end.

Definition written_kind (e : WriteEntry) : EntryKind unit :=
  let symlink := is_symlink_attributes (em_attributes (we_meta e)) in
  if has_stream e then if symlink then K_Symlink tt else K_File tt
  else match we_kind e, symlink with
       | WriteAnti, _ => K_Anti
       | _, true => K_EmptySymlink
       | WriteFile, false => K_EmptyFile
       | WriteDirectory, false => K_Directory
       end.

Lemma listing_ordinal f entries i e :
  view f = listing_of entries → entries !! i = Some e →
  FilesInfo_empty_stream_ordinal f (Z.of_nat i) =
    if has_stream e then None else Some (zlen (streamless (take i entries))).
Proof.
  intros Hf Hi. unfold FilesInfo_empty_stream_ordinal.
  apply (f_equal empty_stream_ordinals) in Hf. cbn in Hf. rewrite Hf, get_lookup.
  apply lookup_lt_Some in Hi as Hlt.
  rewrite empty_stream_ordinals_spec, decide_True by (unfold zlen; lia).
  rewrite opt_bitmap_is_set. unfold empty_bits. rewrite list_lookup_fmap, Hi. cbn.
  destruct (has_stream e); cbn; [done|]. by rewrite count_set_bits by lia.
Qed.

Lemma listing_kind_bit entries k i e :
  entries !! i = Some e → has_stream e = false → 
  bitmap_is_set (opt_bitmap (kind_bits k entries)) (zlen (streamless (take i entries))) =
  bool_decide (we_kind e = k).
Proof.
  intros Hi He. unfold zlen. rewrite opt_bitmap_is_set. unfold kind_bits. rewrite list_lookup_fmap.
  unfold streamless. by rewrite (filter_lookup_count (λ e, has_stream e = false) entries i e Hi He).
Qed.

Lemma listing_entry_kind f entries i e :
  view f = listing_of entries → entries !! i = Some e →
  FilesInfo_entry_kind f (Z.of_nat i) = written_kind e.
Proof.
  intros Hf Hi. unfold FilesInfo_entry_kind, FilesInfo_is_anti, FilesInfo_is_empty_stream,
    FilesInfo_is_symlink, FilesInfo_is_empty_file.
  rewrite (listing_ordinal f entries i e Hf Hi).
  pose proof (f_equal attributes Hf) as Ha. pose proof (f_equal (λ f : FilesInfo, sl_data (empty_streams f)) Hf) as Hs.
  pose proof (f_equal (λ f : FilesInfo, sl_data (empty_files f)) Hf) as He.
  pose proof (f_equal (λ f : FilesInfo, sl_data (anti_items f)) Hf) as Hn. cbn in Ha, Hs, He, Hn.
  rewrite Ha, Hs, He, Hn, column_get, opt_bitmap_is_set.
  unfold meta_column, empty_bits. rewrite !list_lookup_fmap, Hi. cbn.
  fold (is_symlink_attributes (em_attributes (we_meta e))). unfold written_kind.
  destruct (has_stream e) eqn:Eh; cbn; [done|].
  rewrite !(listing_kind_bit entries _ i e Hi Eh).
  destruct (we_kind e); cbn; by destruct (is_symlink_attributes _).
Qed.

(** ** Text names *)

Lemma as_units_encoded us :
  Forall (λ u, 0 ≤ u < 65536) us → as_units (concat (map (to_le_bytes 2) us)) = (us, []).
Proof.
  induction 1 as [|u us Hu _ IH]; [done|].
  change (concat (map (to_le_bytes 2) (u :: us)))
    with (Z.land u 255 :: Z.land (Z.shiftr u 8) 255 :: concat (map (to_le_bytes 2) us)).
  rewrite as_units_cons, IH. cbn [fst snd]. f_equal. f_equal.
  pose proof (from_to_le_bytes_id 2 u Hu) as H2. cbn [to_le_bytes from_le_bytes] in H2.
  by rewrite Z.shiftl_0_l, Z.lor_0_r in H2.
Qed.

Lemma encoded_units c :
  is_scalar c → c ≠ 0 → Forall (λ u, 0 < u < 65536) (encode_utf16_char c).
Proof.
  intros Hc H0. unfold encode_utf16_char, is_scalar in *. case_decide as Hlt.
  - repeat constructor; lia.
  - rewrite land_1023, Z.shiftr_div_pow2 by lia. change (2 ^ 10) with 1024.
    pose proof (Z.mod_pos_bound (c - 65536) 1024). pose proof (Z.div_pos (c - 65536) 1024).
    pose proof (Z.div_lt_upper_bound (c - 65536) 1024 1024). repeat constructor; lia.
Qed.

(** ** Properties *)

(** A text name is stored as UTF-16 without a NUL unit, and the reader decodes
    it to the same characters. *)
Theorem text_name_reads_back e :
  we_raw_name e = None → Forall is_scalar (we_name e) → 0 ∉ we_name e →
  raw_name_ok (entry_name_bytes e) ∧ decode_name (entry_name_bytes e) = we_name e.
Proof.
  intros Hraw Hs H0. unfold entry_name_bytes. rewrite Hraw.
  assert (Forall (λ u, 0 < u < 65536) (encode_utf16 (we_name e))) as Hu.
  { unfold encode_utf16. clear Hraw. induction Hs as [|c cs Hc _ IH]; [constructor|].
    apply not_elem_of_cons in H0 as [Hne H0]. cbn [map concat]. apply Forall_app.
    split; [by apply encoded_units|by apply IH]. }
  assert (as_units (concat (map (to_le_bytes 2) (encode_utf16 (we_name e)))) =
          (encode_utf16 (we_name e), [])) as Hd.
  { apply as_units_encoded. eapply Forall_impl; [exact Hu|]. cbn. lia. }
  split.
  - exists (encode_utf16 (we_name e)). split; [done|]. intros Hin.
    rewrite Forall_forall in Hu. specialize (Hu 0 Hin). lia.
  - unfold decode_name. rewrite Hd. by apply decode_encode_utf16.
Qed.

(** ** Witnesses *)

(** "é" and a smiling face. *)
Definition sample_text_entry : WriteEntry :=
  {| we_name := [233; 128512]; we_raw_name := None; we_kind := WriteFile;
     we_meta := EntryMeta_default; we_stream := EmptyStream; we_folder_id := 0 |}.

Lemma text_name_reads_back_witness :
  decode_name (entry_name_bytes sample_text_entry) = [233; 128512] ∧
  entry_name_bytes sample_text_entry = [233; 0; 61; 216; 0; 222].
Proof.
  split; [|reflexivity].
  apply (text_name_reads_back sample_text_entry); [reflexivity| |apply (bool_decide_eq_true_1 _); reflexivity].
  repeat constructor; unfold is_scalar; lia.
Defined.
