(* ===== verification/HeaderRoundTrip.v ===== *)
(** * The header the writer emits is read back

    [build_header] through the header scan and the lazy accessors of [Headers]. *)

From stdpp Require Import base numbers list option sets.
From Stdlib Require Import ZArith Lia.
From S2P Require Import Prelude PropertyId Parsers CoderInfo Folder Error FolderGraph PackInfo StreamInfo FilesInfo FolderDecode Headers WriteHeader RoundTrip StreamRoundTrip CoderRoundTrip FilesRoundTrip.

(** ** Sections of a buffer *)

Lemma slice_range_mid a (pre mid post : bytes) i j :
  i = zlen pre → j = zlen pre + zlen mid →
  slice_range i j (Slice a (pre ++ mid ++ post)) = Some (Slice (a + zlen pre) mid).
Proof.
  intros -> ->. pose proof (zlen_nonneg pre). pose proof (zlen_nonneg mid). pose proof (zlen_nonneg post).
  unfold slice_range. rewrite decide_True by (unfold sl_len; cbn [sl_data]; lens; lia).
  rewrite advance_app by done. by rewrite first_bytes_app by lia.
Qed.

Lemma sl_len_slice a b : sl_len (Slice a b) = zlen b.
Proof. done. Qed.

Lemma valid_mid a pre mid post :
  valid_slice (Slice a (pre ++ mid ++ post)) → valid_slice (Slice (a + zlen pre) (mid ++ post)).
Proof.
  apply valid_slice_suffix. exists (zlen pre).
  split; [|by rewrite advance_app]. rewrite sl_len_slice. lens.
  pose proof (zlen_nonneg pre). pose proof (zlen_nonneg mid). pose proof (zlen_nonneg post). lia.
Qed.

Lemma section_range_mid a (pre mid post : bytes) b c :
  zlen (pre ++ mid ++ post) ≤ u32_max →
  section_range (Slice a (pre ++ mid ++ post)) (Slice b (mid ++ post)) (Slice c post) =
  Ok (zlen pre, zlen pre + zlen mid).
Proof.
  rewrite !zlen_app. intros H. unfold section_range, u32_try_from. rewrite !sl_len_slice. lens.
  pose proof (zlen_nonneg pre). pose proof (zlen_nonneg mid). pose proof (zlen_nonneg post).
  rewrite !decide_True by lia. cbn [ok_or]. do 2 f_equal; lia.
Qed.

(** ** The stream section *)

Lemma written_folders_inline `{Nom} folders a rest :
  folders_ok folders → valid_slice (Slice a (stream_block folders ++ rest)) →
  ∃ r, StreamInfo_uses_external_folder_data (Slice a (stream_block folders ++ rest)) = Ok (r, false).
Proof.
  intros Hok Hv. unfold StreamInfo_uses_external_folder_data.
  assert (∃ fuel, (length (sl_data (Slice a (stream_block folders ++ rest)))) = S fuel) as [fuel ->].
  { exists (length (tail (stream_block folders ++ rest))). done. }
  unfold stream_block in *. cbn [sl_data]. norm_app. 
  set (tail_bytes := write_unpack_info folders ++ write_substreams_info folders ++ 0 :: rest).
  cbn [uses_external_loop].
  assert (PropertyId_parse (Slice a (write_pack_info folders ++ tail_bytes)) =
    Ok (Slice (a + 1) (tail (write_pack_info folders) ++ tail_bytes), P_PackInfo)) as -> by done.
  assert (scan_pack_info (Slice a (write_pack_info folders ++ tail_bytes)) =
          Ok (Slice (a + zlen (write_pack_info folders)) tail_bytes, tt)) as Hscan.
  { repeat rewrite <- app_assoc in Hv. pose proof (pack_info_agree _ Hv) as Ha.
    change ([0] ++ rest) with (0 :: rest) in Ha. fold tail_bytes in Ha.
    rewrite (pack_info_reads_back folders Hok) in Ha.
    destruct (scan_pack_info _) as [[r []]|]; [|by destruct Ha]. by destruct Ha as [<- _]. }
  rewrite Hscan.
  assert (PropertyId_parse (Slice (a + zlen (write_pack_info folders)) tail_bytes) =
    Ok (Slice (a + zlen (write_pack_info folders) + 1) (tail tail_bytes), P_UnPackInfo)) as -> by done.
  pose proof (reads_folder_declaration (zlen folders) (fs_count _ Hok)
    (a + zlen (write_pack_info folders))) as Hd.
  assert (∃ tl, tail_bytes = ([7; 11] ++ sevenzip_varuint64_encode (zlen folders) ++ [0]) ++ tl)
    as [tl ->] by (eexists; unfold tail_bytes, write_unpack_info; norm_app; reflexivity).
  rewrite Hd. by eexists.
Qed.

Lemma written_streams_scan `{Nom} folders a rest :
  folders_ok folders → valid_slice (Slice a (stream_block folders ++ rest)) →
  zlen (stream_block folders ++ rest) ≤ u32_max →
  scan_stream_info_with_external (Slice a (stream_block folders ++ rest)) [] =
  Ok (Slice (a + zlen (stream_block folders)) rest, tt).
Proof.
  intros Hok Hv H32. pose proof Hv as [_ Hl].
  destruct (stream_block_reads_back folders a rest _ [] Hok Hl (within_refl _)) as (u & Hp & _).
  pose proof (stream_info_agree (Slice a (stream_block folders ++ rest)) _ []
    (Build_stream_input_ok _ _ _ Hv Hl (within_refl _) H32 ltac:(done))) as Ha.
  rewrite Hp in Ha. destruct (scan_stream_info_with_external _ _) as [[r []]|]; [|by destruct Ha].
  by destruct Ha as [<- _].
Qed.

Lemma scan_written_streams `{Nom} self folders a pre post :
  hs_data self = Slice a (pre ++ stream_block folders ++ post) →
  valid_slice (hs_data self) → sl_len (hs_data self) ≤ u32_max → folders_ok folders →
  ∀ input, scan_section self None input (Slice (a + zlen pre) (stream_block folders ++ post))
    P_MainStreamsInfo =
  Ok (inl (Slice (a + zlen pre + zlen (stream_block folders)) post,
           set_streams_range self true (zlen pre, zlen pre + zlen (stream_block folders)))).
Proof.
  intros Hd Hv H32 Hok input. rewrite Hd in Hv, H32. pose proof (valid_mid _ _ _ _ Hv) as Hv'.
  rewrite sl_len_slice in H32. unfold scan_section. cbv zeta. rewrite bool_decide_eq_true_2 by done.
  rewrite decide_True by done.
  destruct (written_folders_inline folders _ post Hok Hv') as [r ->]. cbn [parsed map_err].
  assert (zlen (stream_block folders ++ post) ≤ u32_max) as H32'.
  { rewrite zlen_app in H32. pose proof (zlen_nonneg pre). lia. }
  cbn [default]. rewrite written_streams_scan by done. cbn [parsed map_err].
  rewrite Hd, section_range_mid by done. done.
Qed.

Lemma compute_written_streams `{Nom} h folders a pre post :
  hd_data h = Slice a (pre ++ stream_block folders ++ post) → hd_external_folder_data h = [] →
  valid_slice (hd_data h) → folders_ok folders →
  ∃ u, compute_streams h (zlen pre, zlen pre + zlen (stream_block folders)) =
         Ok {| si_pack_info := Some (pack_info_of folders); si_unpack_info := Some u;
               si_substream_info := Some (substream_info_of folders) |} ∧
       unpack_info_of folders u.
Proof.
  intros Hd He [_ Hl] Hok. unfold compute_streams, parse_section. rewrite He, Hd. cbn [fst snd].
  rewrite slice_range_mid by done. cbn [ok_or].
  destruct (stream_block_reads_back folders (a + zlen pre) []
    (Slice a (pre ++ stream_block folders ++ post)) [] Hok) as (u & Hp & Hu).
  - by rewrite <- Hd.
  - rewrite app_nil_r. eapply within_front with (rest := post). apply within_rest, within_refl.
  - rewrite app_nil_r in Hp. rewrite Hp. by exists u.
Qed.

(** ** The file section *)

Lemma scan_written_files `{Nom} self entries a pre post after :
  hs_data self = Slice a (pre ++ write_files_info entries ++ post) →
  valid_slice (hs_data self) → sl_len (hs_data self) ≤ u32_max →
  Forall entry_ok entries → is_u64 (zlen entries) →
  scan_section self None (Slice (a + zlen pre) (write_files_info entries ++ post)) after P_FilesInfo =
  Ok (inl (Slice (a + zlen pre + zlen (write_files_info entries)) post,
           set_files_range self (zlen pre, zlen pre + zlen (write_files_info entries)) (zlen entries))).
Proof.
  intros Hd Hv H32 Hok Hn. rewrite Hd in Hv, H32. pose proof (valid_mid _ _ _ _ Hv) as Hv'.
  pose proof Hv' as [Hb Hl]. rewrite sl_len_slice in H32.
  destruct (files_info_reads_back entries (a + zlen pre) post _ [] Hok Hn Hl (within_refl _))
    as (f & Hf & Hview).
  destruct (files_info_scan _ _ _ _ _ Hb Hf) as (b & Hs & Hext). specialize (Hext eq_refl).
  unfold scan_section. cbv zeta. rewrite Hs. subst b. cbn [parsed map_err].
  rewrite decide_False by (by intros [_ ?]). rewrite Hd, section_range_mid by done.
  apply (f_equal fi_num_files) in Hview. cbn in Hview. by rewrite Hview.
Qed.

Lemma compute_written_files `{Nom} h entries a pre post :
  hd_data h = Slice a (pre ++ write_files_info entries ++ post) → hd_external_folder_data h = [] →
  hd_num_files h = zlen entries → valid_slice (hd_data h) →
  Forall entry_ok entries → is_u64 (zlen entries) →
  ∃ f, compute_files h (zlen pre, zlen pre + zlen (write_files_info entries)) = Ok f ∧
       view f = listing_of entries.
Proof.
  intros Hd He Hc [_ Hl] Hok Hn. unfold compute_files, parse_section. rewrite He, Hd. cbn [fst snd].
  rewrite slice_range_mid by done. cbn [ok_or].
  destruct (files_info_reads_back entries (a + zlen pre) []
    (Slice a (pre ++ write_files_info entries ++ post)) [] Hok Hn) as (f & Hp & Hf).
  - by rewrite <- Hd.
  - rewrite app_nil_r. eapply within_front with (rest := post). apply within_rest, within_refl.
  - rewrite app_nil_r in Hp. rewrite Hp. exists f. split; [|done]. pose proof (f_equal fi_num_files Hf) as Hnum. cbn in Hnum.
    cbn [sl_empty sl_data]. by rewrite bool_decide_eq_true_2 by congruence.
Qed.

(** ** The header *)

Definition stream_part (folders : list CompletedFolder) : bytes :=
  match folders with [] => [] | _ => [4] ++ stream_block folders end.

Lemma build_header_parts entries folders :
  build_header entries folders = [1] ++ stream_part folders ++ write_files_info entries ++ [0].
Proof. unfold build_header, stream_part, stream_block. by destruct folders; norm_app. Qed.

Lemma advance_files `{Nom} k self entries a pre :
  hs_data self = Slice a (pre ++ write_files_info entries ++ [0]) →
  valid_slice (hs_data self) → sl_len (hs_data self) ≤ u32_max →
  Forall entry_ok entries → is_u64 (zlen entries) →
  ∃ s, advance_loop (S (S k)) None self (Slice (a + zlen pre) (write_files_info entries ++ [0])) =
         Ok (Complete (HeaderScan_finish s None) (sl_len (hs_data self))) ∧
    hs_data s = hs_data self ∧ hs_streams_info_range s = hs_streams_info_range self ∧
    hs_num_files s = zlen entries ∧
    hs_files_info_range s = Some (zlen pre, zlen pre + zlen (write_files_info entries)) ∧
    hs_additional_streams_range s = hs_additional_streams_range self.
Proof.
  intros Hd Hv H32 Hok Hn.
  set (input := Slice (a + zlen pre) (write_files_info entries ++ [0])).
  assert (PropertyId_parse input = Ok (advance 1 input, P_FilesInfo)) as Ht by done.
  rewrite (advance_loop_step _ _ _ _ _ Ht) by done. unfold input at 1.
  rewrite (scan_written_files self entries a pre [0]) by done.
  cbn [advance_loop set_position hs_data]. rewrite (parse_tag_at P_END 0) by done.
  cbn [parsed map_err hs_data set_files_range]. eexists. split; [do 2 f_equal; apply Z.sub_0_r|].
  by split_and!.
Qed.

Lemma advance_header `{Nom} entries folders a :
  let data := Slice a (build_header entries folders) in
  valid_slice data → sl_len data ≤ u32_max → Forall entry_ok entries → is_u64 (zlen entries) →
  folders_ok folders →
  ∃ s, (let? scan := HeaderScan_new data in HeaderScan_advance scan None) =
         Ok (Complete (HeaderScan_finish s None) (sl_len data)) ∧
    hs_data s = data ∧ hs_num_files s = zlen entries ∧
    hs_streams_info_range s = match folders with
                              | [] => None
                              | _ => Some (2, 2 + zlen (stream_block folders))
                              end ∧
    hs_files_info_range s = Some (1 + zlen (stream_part folders),
      1 + zlen (stream_part folders) + zlen (write_files_info entries)) ∧
    hs_additional_streams_range s = None.
Proof.
  intros data Hv H32 Hok Hn Hfs.
  assert (sl_data data = [1] ++ stream_part folders ++ write_files_info entries ++ [0]) as Hdata
    by apply build_header_parts.
  unfold HeaderScan_new. assert (PropertyId_parse data = Ok (advance 1 data, P_Header)) as -> by done.
  cbn [parsed map_err]. set (s0 := {| hs_data := data; hs_position := _ |}).
  assert (hs_position s0 = 1) as Hpos.
  { unfold s0. cbn [hs_position]. rewrite sl_len_advance; [lia|]. unfold sl_len. rewrite Hdata. lens.
    pose proof (zlen_nonneg (stream_part folders)). pose proof (zlen_nonneg (write_files_info entries)). lia. }
  unfold HeaderScan_advance. rewrite Hpos. change (hs_data s0) with data.
  assert (advance 1 data = Slice (a + 1) (stream_part folders ++ write_files_info entries ++ [0])) as Hadv.
  { unfold advance. rewrite Hdata. done. }
  assert (slice_from 1 data = Some (advance 1 data)) as ->.
  { unfold slice_from. rewrite decide_True; [done|]. unfold sl_len. rewrite Hdata. lens.
    pose proof (zlen_nonneg (stream_part folders)). pose proof (zlen_nonneg (write_files_info entries)). lia. }
  cbn [ok_or]. rewrite Hadv. set (l := length _).
  rewrite (advance_loop_fuel (S l) (S (S (S l)))) by (cbn [sl_data]; unfold l; cbn [sl_data]; lia).
  destruct folders as [|f fs].
  - destruct (advance_files (S l) s0 entries a [1]) as (s & Hs & Hsd & Hr & Hc & Hf & Ha); try done.
    change (a + zlen [1]) with (a + 1) in Hs. cbn [stream_part app]. rewrite Hs.
    exists s. split_and!; try done.
  - set (folders := f :: fs) in *. change (stream_part folders) with ([4] ++ stream_block folders) in *.
    rewrite <- (app_assoc [4]). cbn [app].
    assert (Hd : hs_data s0 = Slice a ([1; 4] ++ stream_block folders ++ write_files_info entries ++ [0])).
    { done. }
    set (input := Slice (a + 1) (4 :: _)).
    assert (PropertyId_parse input = Ok (advance 1 input, P_MainStreamsInfo)) as Ht by done.
    rewrite (advance_loop_step _ _ _ _ _ Ht) by done.
    assert (Hi : advance 1 input = Slice (a + 1 + 1) (stream_block folders ++ write_files_info entries ++ [0]))
      by done.
    rewrite <- Z.add_assoc in Hi. change (1 + 1) with (zlen [1; 4]) in Hi. rewrite Hi.
    rewrite (scan_written_streams s0 folders a [1; 4] (write_files_info entries ++ [0])) by done.
    cbv beta iota. set (s1 := set_position _ _).
    assert (hs_data s1 = Slice a (([1; 4] ++ stream_block folders) ++ write_files_info entries ++ [0]))
      as Hd1 by (rewrite <- app_assoc; exact Hd).
    destruct (advance_files l s1 entries a ([1; 4] ++ stream_block folders)) as (s & Hs & Hsd & Hr & Hc & Hf & Ha);
      try done.
    replace (a + zlen [1; 4] + zlen (stream_block folders)) with (a + zlen ([1; 4] ++ stream_block folders))
      by (lens; lia).
    rewrite Hs. exists s. split; [done|]. split; [done|]. split; [done|]. split; [by rewrite Hr|].
    rewrite Hf, Ha. split; [|done]. f_equal; f_equal; lens; lia.
Qed.

(** ** Reading back *)

Lemma header_resolves `{Nom} entries folders a :
  let data := Slice a (build_header entries folders) in
  valid_slice data → sl_len data ≤ u32_max → Forall entry_ok entries → is_u64 (zlen entries) →
  folders_ok folders →
  ∃ h, Header_resolve_archive data = Ok (ResolvedComplete h) ∧
    (match folders with
     | [] => fst (Header_try_streams_info h) = Ok None
     | _ => ∃ u, unpack_info_of folders u ∧
         fst (Header_try_streams_info h) =
           Ok (Some {| si_pack_info := Some (pack_info_of folders); si_unpack_info := Some u;
                       si_substream_info := Some (substream_info_of folders) |})
     end) ∧
    (∃ f, fst (Header_try_files_info h) = Ok (Some f) ∧ view f = listing_of entries) ∧
    hd_additional_streams_range h = None ∧ hd_num_files h = zlen entries.
Proof.
  intros data Hv H32 Hok Hn Hfs.
  destruct (advance_header entries folders a Hv H32 Hok Hn Hfs) as (s & Hs & Hd & Hc & Hr & Hf & Ha).
  fold data in Hs, Hd. set (h := HeaderScan_finish s None) in *. exists h.
  assert (hd_data h = data) as Hdata by exact Hd.
  split_and!; [| | |exact Ha|exact Hc].
  - unfold Header_resolve_archive. destruct (HeaderScan_new data); [|done]. rewrite Hs.
    cbn [HeaderProgress_into_resolution HeaderProgress_complete_exact]. rewrite Hdata.
    by rewrite decide_True by done.
  - unfold Header_try_streams_info. change (hd_streams_info_range h) with (hs_streams_info_range s).
    rewrite Hr. destruct folders as [|f0 fs]; [done|]. set (folders := f0 :: fs) in *.
    destruct (compute_written_streams h folders a [1; 4] (write_files_info entries ++ [0]))
      as (u & Hu & Huo); [|done|by rewrite Hdata|done|].
    { rewrite Hdata. unfold data. rewrite build_header_parts. done. }
    exists u. split; [done|]. cbn [fst]. change (hd_streams_cache h) with (@None (result StreamInfo unit)).
    cbn [get_or_init default]. change (zlen [1; 4]) with 2 in Hu. by rewrite Hu.
  - destruct (compute_written_files h entries a ([1] ++ stream_part folders) [0]) as (f & Hcf & Hview);
      try done.
    { rewrite Hdata. unfold data. rewrite build_header_parts. by norm_app. }
    exists f. split; [|done]. unfold Header_try_files_info.
    change (hd_files_info_range h) with (hs_files_info_range s). rewrite Hf. cbn [fst].
    change (hd_files_cache h) with (@None (result FilesInfo unit)). cbn [get_or_init default].
    rewrite zlen_app in Hcf. change (zlen [1]) with 1 in Hcf. by rewrite Hcf.
Qed.

(** ** Properties *)

(** C3. The header the writer builds resolves, whole and without suspending, and
    both of its sections parse when accessed: the stream section gives back the
    packed sizes, the coder blocks, the unpack sizes, the folder digests and, for
    each folder, the sizes and digests of its files; the file section gives back
    the listing of the entries. *)
Theorem written_header_resolves `{Nom} entries folders a :
  let data := Slice a (build_header entries folders) in
  valid_slice data → sl_len data ≤ u32_max → Forall entry_ok entries → is_u64 (zlen entries) →
  folders_ok folders →
  ∃ h, Header_resolve_archive data = Ok (ResolvedComplete h) ∧
    (match folders with
     | [] => fst (Header_try_streams_info h) = Ok None
     | _ => ∃ u, unpack_info_of folders u ∧
         fst (Header_try_streams_info h) =
           Ok (Some {| si_pack_info := Some (pack_info_of folders); si_unpack_info := Some u;
                       si_substream_info := Some (substream_info_of folders) |})
     end) ∧
    ∃ f, fst (Header_try_files_info h) = Ok (Some f) ∧ view f = listing_of entries.
Proof.
  intros data Hv H32 Hok Hn Hfs. destruct (header_resolves entries folders a Hv H32 Hok Hn Hfs) as (h & Hh & Hs & Hf & _).
  by exists h.
Qed.

(** ** The encoded header *)

Definition encoded_folder (coder_info : bytes) (sizes : list Z) : CompletedFolder :=
  {| cf_file_indices := []; cf_pack_sizes := []; cf_coder_info := coder_info;
     cf_coder_unpack_sizes := sizes; cf_folder_crc := None; cf_file_sizes := [];
     cf_file_crcs := [] |}.

Definition encoded_pack_info (pos size : Z) : PackInfo :=
  {| pack_pos := pos; num_pack_streams := 1; pack_size := [size]; pack_digests := [None] |}.

Lemma reads_encoded_pack `{Nom} pos size :
  is_u64 pos → is_u64 size →
  reads PackInfo_parse ([6] ++ sevenzip_varuint64_encode pos ++ sevenzip_varuint64_encode 1 ++ [9] ++
    sevenzip_varuint64_encode size ++ [0]) (encoded_pack_info pos size).
Proof.
  intros Hp Hs a rest. unfold PackInfo_parse, pack_info_head. norm_app.
  rewrite (parse_tag_at P_PackInfo 6) by done. rewrite decide_False by tauto.
  rewrite (reads_varuint pos) by done. rewrite (reads_varuint 1) by done. norm_app.
  rewrite (parse_tag_at P_Size 9) by done. rewrite decide_False by tauto.
  pose proof (reads_push_varuints [size] [] 1 ltac:(by constructor) eq_refl) as Hr.
  cbn [map concat] in Hr. rewrite app_nil_r in Hr. rewrite Hr.
  norm_app. rewrite run_tag_loop_end. same_rest. done.
Qed.

Lemma encoded_folder_ok `{Nom} coder_info sizes :
  reads scan_folder coder_info (zlen sizes) → Forall is_u64 sizes → is_u64 (zlen sizes) →
  zlen coder_info ≤ u32_max → folders_ok [encoded_folder coder_info sizes].
Proof.
  intros Hr Hs Hn Hl. split; unfold sum_all, coder_blocks; cbn [map concat foldr encoded_folder
    cf_coder_info cf_pack_sizes cf_coder_unpack_sizes cf_file_indices]; rewrite ?app_nil_r, ?Z.add_0_r;
    try done.
  constructor; [|done]. split; try done; by constructor.
Qed.

(** The encoded-header descriptor is read as an encoded header with the
    position, the packed size, the coder block and the unpack sizes it was
    written with. *)
Theorem encoded_descriptor_reads_back `{Nom} pos size coder_info sizes a :
  let data := Slice a (build_encoded_header_descriptor pos size coder_info sizes) in
  is_u64 pos → is_u64 size → reads scan_folder coder_info (zlen sizes) → Forall is_u64 sizes →
  is_u64 (zlen sizes) → zlen coder_info ≤ u32_max → sl_len data ≤ usize_max →
  ∃ u, NextHeader_parse data =
         Ok (Encoded {| eh_pack_info := encoded_pack_info pos size; eh_unpack_info := u |}) ∧
       unpack_info_of [encoded_folder coder_info sizes] u.
Proof.
  intros data Hp Hs Hr Hsz Hn Hl Hlen.
  set (pack := [6] ++ sevenzip_varuint64_encode pos ++ sevenzip_varuint64_encode 1 ++ [9] ++
    sevenzip_varuint64_encode size ++ [0]).
  set (f := encoded_folder coder_info sizes).
  assert (Henc : sl_data data = [23] ++ pack ++ write_unpack_info [f] ++ [0]).
  { unfold data, build_encoded_header_descriptor, pack, write_unpack_info, f. cbn [sl_data map concat
      encoded_folder cf_coder_info cf_coder_unpack_sizes]. rewrite !app_nil_r. norm_app. done. }
  unfold NextHeader_parse.
  assert (PropertyId_parse data = Ok (advance 1 data, P_EncodedHeader)) as -> by done.
  cbn [parsed map_err].
  assert (advance 1 data = Slice (a + 1) (pack ++ write_unpack_info [f] ++ [0])) as ->
    by (unfold advance; rewrite Henc; done).
  unfold EncodedHeader_parse. unfold pack at 1. rewrite (reads_encoded_pack pos size Hp Hs). fold pack.
  destruct (unpack_info_reads_back [f] (a + 1 + zlen pack) [0] data []) as (u & Hu & Huo);
    [by apply encoded_folder_ok|done| |].
  { replace data with (Slice a ([23] ++ pack ++ write_unpack_info [f] ++ [0])) by (by rewrite <- Henc).
    apply within_rest. change (a + 1) with (a + zlen [23]). apply within_rest, within_refl. }
  unfold UnpackInfo_parse. rewrite Hu. cbn [parsed map_err]. by exists u.
Qed.

(** ** The signature header *)

Lemma sub_bytes_mid a (pre mid post : bytes) i j :
  i = length pre → j = (length pre + length mid)%nat →
  sub_bytes i j (Slice a (pre ++ mid ++ post)) = mid.
Proof.
  intros -> ->. unfold sub_bytes. cbn [sl_data]. rewrite drop_app_length.
  replace (length pre + length mid - length pre)%nat with (length mid) by lia. apply take_app_length.
Qed.

Lemma fixed_field a pre v post w i j :
  0 ≤ v < 2 ^ (8 * Z.of_nat w) → i = length pre → j = (length pre + w)%nat →
  from_le_bytes (sub_bytes i j (Slice a (pre ++ to_le_bytes w v ++ post))) = v.
Proof.
  intros Hv Hi Hj. rewrite (sub_bytes_mid a pre (to_le_bytes w v) post) by (rewrite ?length_to_le_bytes; done).
  by apply from_to_le_bytes_id.
Qed.

Lemma signature_reads_back `{Crc32} offset next_header a rest :
  is_u64 offset → is_u64 (zlen next_header) →
  ∃ h, SignatureHeader_parse (Slice a (signature_bytes offset next_header ++ rest)) =
         Ok (Slice (a + 32) rest, h) ∧
    sh_signature h = [55; 122; 188; 175; 39; 28] ∧ sh_major_version h = 0 ∧
    sh_minor_version h = 4 ∧ sh_next_header_offset h = offset ∧
    sh_next_header_size h = zlen next_header ∧ sh_next_header_crc h = crc32 next_header ∧
    SignatureHeader_validate_start_header_crc h = Ok tt.
Proof.
  intros Ho Hn. pose proof (crc32_u32 next_header) as Hc.
  set (start := to_le_bytes 8 offset ++ to_le_bytes 8 (zlen next_header) ++ to_le_bytes 4 (crc32 next_header)).
  pose proof (crc32_u32 start) as Hs.
  assert (zlen (signature_bytes offset next_header) = 32) as Hl by done.
  assert (∀ x, signature_bytes offset next_header ++ x = [55; 122; 188; 175; 39; 28; 0; 4] ++
    to_le_bytes 4 (crc32 start) ++ to_le_bytes 8 offset ++ to_le_bytes 8 (zlen next_header) ++
    to_le_bytes 4 (crc32 next_header) ++ x) as Hb by (intros; unfold signature_bytes; by norm_app).
  unfold SignatureHeader_parse. rewrite decide_False by
    (rewrite sl_len_slice, zlen_app, Hl; pose proof (zlen_nonneg rest); lia).
  rewrite (advance_app a (signature_bytes offset next_header)) by done. rewrite Hl, Hb.
  assert (Hf1 : from_le_bytes (sub_bytes 8 12 (Slice a ([55; 122; 188; 175; 39; 28; 0; 4] ++
    to_le_bytes 4 (crc32 start) ++ to_le_bytes 8 offset ++ to_le_bytes 8 (zlen next_header) ++
    to_le_bytes 4 (crc32 next_header) ++ rest))) = crc32 start) by (by apply fixed_field).
  eexists. split; [reflexivity|]. cbn [sh_signature sh_major_version sh_minor_version
    sh_next_header_offset sh_next_header_size sh_next_header_crc].
  assert (Hf2 : from_le_bytes (sub_bytes 12 20 (Slice a ([55; 122; 188; 175; 39; 28; 0; 4] ++
    to_le_bytes 4 (crc32 start) ++ to_le_bytes 8 offset ++ to_le_bytes 8 (zlen next_header) ++
    to_le_bytes 4 (crc32 next_header) ++ rest))) = offset).
  { rewrite (app_assoc [_; _; _; _; _; _; _; _]). by apply fixed_field. }
  assert (Hf3 : from_le_bytes (sub_bytes 20 28 (Slice a ([55; 122; 188; 175; 39; 28; 0; 4] ++
    to_le_bytes 4 (crc32 start) ++ to_le_bytes 8 offset ++ to_le_bytes 8 (zlen next_header) ++
    to_le_bytes 4 (crc32 next_header) ++ rest))) = zlen next_header).
  { rewrite 2!(app_assoc _ (to_le_bytes _ _)). by apply fixed_field. }
  assert (Hf4 : from_le_bytes (sub_bytes 28 32 (Slice a ([55; 122; 188; 175; 39; 28; 0; 4] ++
    to_le_bytes 4 (crc32 start) ++ to_le_bytes 8 offset ++ to_le_bytes 8 (zlen next_header) ++
    to_le_bytes 4 (crc32 next_header) ++ rest))) = crc32 next_header).
  { rewrite 3!(app_assoc _ (to_le_bytes _ _)). by apply fixed_field. }
  rewrite Hf2, Hf3, Hf4. split_and!; try done.
  unfold SignatureHeader_validate_start_header_crc, SignatureHeader_start_bytes.
  cbn [sh_start_header_crc sh_next_header_offset sh_next_header_size sh_next_header_crc].
  rewrite Hf1. by rewrite decide_True.
Qed.

(** The 32 bytes of the signature header are read back: the magic, the
    version, and the offset, the length and the checksum of the next header; its
    own checksum validates. *)
Theorem written_signature_reads_back `{Crc32} offset next_header a rest :
  is_u64 offset → is_u64 (zlen next_header) →
  ∃ h, SignatureHeader_parse (Slice a (signature_bytes offset next_header ++ rest)) =
         Ok (Slice (a + 32) rest, h) ∧
    sh_signature h = [55; 122; 188; 175; 39; 28] ∧ sh_major_version h = 0 ∧
    sh_minor_version h = 4 ∧ sh_next_header_offset h = offset ∧
    sh_next_header_size h = zlen next_header ∧ sh_next_header_crc h = crc32 next_header ∧
    SignatureHeader_validate_start_header_crc h = Ok tt.
Proof. apply signature_reads_back. Qed.

(** Every folder of a written header parses on demand: its coder block is the
    one it was written with, and its graph is the chain's. *)
Theorem written_folders_parse `{Nom} folders u k f cs :
  unpack_info_of folders u → folders !! k = Some f → cf_coder_info f = chain_bytes cs → chain_ok cs →
  ∃ g, UnpackInfo_parse_folder_with_graph u (Z.of_nat k) = Ok (chain_folder cs, g) ∧
    Folder_graph (chain_folder cs) = Ok g ∧ fg_execution_order g = seq 0 (length cs).
Proof.
  intros Hu Hk Hc Hok. destruct (folder_bytes_read_back folders u k f Hu Hk) as ([x data] & Hb & Hd).
  cbn [sl_data] in Hd. subst data.
  destruct (chain_block_reads_back cs Hok) as (Hr & g & Hg & Ho & _). exists g.
  unfold UnpackInfo_parse_folder_with_graph. rewrite Hb, Hc, all_consuming_law. unfold ref_all_consuming.
  rewrite <- (app_nil_r (chain_bytes cs)), Hr. cbn [sl_empty sl_data map_err]. by rewrite Hg.
Qed.

(** The listing of the entries gives back what each entry was written with:
    its name, whether it is a file, a directory, an anti-item or a link, with or
    without data, its modification time in ticks and its attributes. *)
Theorem written_entries_read_back `{Nom} entries a rest backing ext r f :
  Forall entry_ok entries → is_u64 (zlen entries) → sl_len backing ≤ usize_max →
  within (Slice a (write_files_info entries ++ rest)) backing →
  FilesInfo_parse_with_external (Slice a (write_files_info entries ++ rest)) backing ext = Ok (r, f) →
  sl_data r = rest ∧
  FilesInfo_names f = map (λ e, decode_name (entry_name_bytes e)) entries ∧
  ∀ i e, entries !! i = Some e →
    FilesInfo_entry_kind f (Z.of_nat i) = written_kind e ∧
    mjoin (get (Z.of_nat i) (mtimes f)) = system_time_to_filetime <$> em_mtime (we_meta e) ∧
    mjoin (get (Z.of_nat i) (attributes f)) = WriteHeader.em_attributes (we_meta e).
Proof.
  intros Hok Hn Hl Hw Hp.
  destruct (files_info_reads_back entries a rest backing ext Hok Hn Hl Hw) as (f' & Hf & Hv).
  rewrite Hp in Hf. injection Hf as -> ->. split; [done|]. split; [by apply listing_names|].
  intros i e Hi. split; [by eapply listing_entry_kind|].
  pose proof (f_equal mtimes Hv) as Hm. pose proof (f_equal attributes Hv) as Ha. cbn in Hm, Ha.
  rewrite Hm, Ha, !column_get. unfold time_column, meta_column. by rewrite !list_lookup_fmap, Hi.
Qed.

(** ** Witnesses *)

Definition sample_meta : EntryMeta :=
  {| em_ctime := None; em_atime := None; em_mtime := Some 1000000000;
     em_attributes := Some 32; em_start_pos := None |}.

(** A file with data, a directory and an empty file. *)
Definition sample_entries : list WriteEntry :=
  [ {| we_name := [97]; we_raw_name := None; we_kind := WriteFile; we_meta := sample_meta;
       we_stream := Streaming; we_folder_id := 0 |};
    {| we_name := [100]; we_raw_name := None; we_kind := WriteDirectory;
       we_meta := EntryMeta_default; we_stream := EmptyStream; we_folder_id := 0 |};
    {| we_name := [101]; we_raw_name := None; we_kind := WriteFile;
       we_meta := EntryMeta_default; we_stream := EmptyStream; we_folder_id := 0 |} ].

Definition sample_folder : CompletedFolder :=
  {| cf_file_indices := [0]; cf_pack_sizes := [9]; cf_coder_info := encode_coder_info_lzma2 24;
     cf_coder_unpack_sizes := [5]; cf_folder_crc := None; cf_file_sizes := [5];
     cf_file_crcs := [Some 907060870] |}.

Definition sample_written : slice := Slice 0 (build_header sample_entries [sample_folder]).

Lemma sample_entries_ok : Forall entry_ok sample_entries.
Proof.
  repeat constructor; cbn; try done; (eexists; split; [reflexivity|]);
    apply (bool_decide_eq_true_1 _); reflexivity.
Defined.

Lemma sample_folders_ok : folders_ok [sample_folder].
Proof.
  split; try done. constructor; [|constructor]. split; try done; try by repeat constructor.
  apply (chain_scans [lzma2_coder 24]); [|done]. repeat constructor; done.
Defined.

Lemma sample_written_valid : valid_slice sample_written.
Proof. split; [|done]. apply (bool_decide_eq_true_1 _). by vm_compute. Defined.

Lemma written_header_resolves_witness :
  ∃ h, Header_resolve_archive sample_written = Ok (ResolvedComplete h) ∧
    (∃ u, unpack_info_of [sample_folder] u ∧
       fst (Header_try_streams_info h) =
         Ok (Some {| si_pack_info := Some (pack_info_of [sample_folder]); si_unpack_info := Some u;
                     si_substream_info := Some (substream_info_of [sample_folder]) |})) ∧
    ∃ f, fst (Header_try_files_info h) = Ok (Some f) ∧ view f = listing_of sample_entries.
Proof.
  apply (written_header_resolves sample_entries [sample_folder] 0).
  - exact sample_written_valid.
  - by vm_compute.
  - exact sample_entries_ok.
  - done.
  - exact sample_folders_ok.
Defined.

Lemma encoded_descriptor_reads_back_witness :
  ∃ u, NextHeader_parse (Slice 0 (build_encoded_header_descriptor 9 40 (encode_coder_info_lzma2 24) [120])) =
         Ok (Encoded {| eh_pack_info := encoded_pack_info 9 40; eh_unpack_info := u |}) ∧
       unpack_info_of [encoded_folder (encode_coder_info_lzma2 24) [120]] u.
Proof.
  apply (encoded_descriptor_reads_back 9 40 (encode_coder_info_lzma2 24) [120] 0); try done.
  - apply (chain_scans [lzma2_coder 24]); [|done]. repeat constructor; done.
  - by repeat constructor.
Defined.

Lemma written_signature_reads_back_witness :
  ∃ h, SignatureHeader_parse (Slice 0 (@signature_bytes zero_crc 7 [1; 0] ++ [9])) =
         Ok (Slice 32 [9], h) ∧ sh_next_header_offset h = 7 ∧ sh_next_header_size h = 2.
Proof.
  destruct (@written_signature_reads_back zero_crc 7 [1; 0] 0 [9]) as (h & Hp & _ & _ & _ & Ho & Hs & _);
    [done|done|].
  exists h. split; [exact Hp|]. split; [exact Ho|exact Hs].
Defined.

Definition sample_unpack : UnpackInfo :=
  {| num_folders := 1; folder_data := Slice 0 (encode_coder_info_lzma2 24);
     folder_offsets := [0; 5]; unpack_sizes := [5]; unpack_digests := [None] |}.

Lemma written_folders_parse_witness :
  ∃ g, UnpackInfo_parse_folder_with_graph sample_unpack 0 = Ok (chain_folder [lzma2_coder 24], g) ∧
    Folder_graph (chain_folder [lzma2_coder 24]) = Ok g ∧ fg_execution_order g = [0%nat].
Proof.
  apply (written_folders_parse [sample_folder] sample_unpack 0 sample_folder [lzma2_coder 24]).
  - split; reflexivity.
  - reflexivity.
  - reflexivity.
  - apply (specs_chain_ok [SpecLzma2 24]); [by repeat constructor|done].
Defined.

Definition sample_listing : slice := Slice 0 (write_files_info sample_entries).

Lemma written_entries_read_back_witness :
  ∃ r f, FilesInfo_parse_with_external sample_listing sample_listing [] = Ok (r, f) ∧
    FilesInfo_names f = [[97]; [100]; [101]] ∧
    FilesInfo_entry_kind f 1 = K_Directory ∧ FilesInfo_entry_kind f 2 = K_EmptyFile ∧
    mjoin (get 0 (mtimes f)) = Some 116444736010000000.
Proof.
  destruct (FilesInfo_parse_with_external sample_listing sample_listing []) as [[r f]|e] eqn:E;
    [|vm_compute in E; discriminate E].
  exists r, f. split; [reflexivity|].
  destruct (written_entries_read_back sample_entries 0 [] sample_listing [] r f) as (_ & Hn & He).
  - exact sample_entries_ok.
  - done.
  - by vm_compute.
  - rewrite app_nil_r. apply within_refl.
  - rewrite app_nil_r. exact E.
  - split; [exact Hn|]. destruct (He 1%nat _ eq_refl) as (H1 & _). destruct (He 2%nat _ eq_refl) as (H2 & _).
    destruct (He 0%nat _ eq_refl) as (_ & H0 & _). split; [exact H1|]. split; [exact H2|exact H0].
Defined.
