(* ===== verification/ArchiveSource.v ===== *)
(** * Archive sources (src/src/archive_source.rs)

    Reading a range of an archive held in memory, in a file or in split volumes,
    and the chunked search for its signature header. *)

From stdpp Require Import base numbers list option sets strings.
From Stdlib Require Import ZArith Lia.
From S2P Require Import Prelude Parsers Error Resources PackInfo FolderDecode Headers.

(** ** Sources *)

(** A file or a seekable reader is its contents, which do not change while the
    archive is open. [PositionedFile::read_exact_at] reads exactly [n] bytes or
    fails with the error of the standard library. *)
Definition PositionedFile_read_exact_at (file : bytes) (offset n : Z) : result bytes R7zError :=
  ok_or (get_range offset (offset + n) file) (Io (IoKind UnexpectedEof "failed to fill whole buffer")).

Record VolumeReader := { vr_file : bytes; vr_start : Z; vr_end : Z }.

Inductive ArchiveSource :=
| Kind_Bytes (b : bytes)
| Kind_File (file : bytes) (len : Z)
| Kind_Seekable (reader : bytes) (len : Z)
| Kind_Volumes (readers : list VolumeReader) (len : Z).

Definition ArchiveSource_from_bytes (b : bytes) : ArchiveSource := Kind_Bytes b.
(** [reader.seek(SeekFrom::End(0))] is the length of the contents. *)
Definition ArchiveSource_from_reader (reader : bytes) : ArchiveSource :=
  Kind_Seekable reader (zlen reader).

(** One volume of [from_split_first_volume]. *)
Definition split_volume_step (st : list VolumeReader * Z * OperationBudget) (file : bytes) :
    result (list VolumeReader * Z * OperationBudget) R7zError :=
  let '(readers, len, budget) := st in
  let? budget := charge_open_volume budget in
  let start := len in
  let? len := ok_or (checked_add len (zlen file)) Parse in
  Ok (readers ++ [{| vr_file := file; vr_start := start; vr_end := len |}], len, budget).

(** [volumes] are the contents of [name.001], [name.002], … up to the first that
    does not exist. *)
Definition ArchiveSource_from_split_first_volume (volumes : list bytes)
    (budget : OperationBudget) : result (option ArchiveSource * OperationBudget) R7zError :=
  let? st := try_fold split_volume_step ([], 0, budget) volumes in
  let '(readers, len, budget) := st in
  if decide (1 < zlen readers) then Ok (Some (Kind_Volumes readers len), budget)
  else Ok (None, release_open_volume budget).

Definition ArchiveSource_len (self : ArchiveSource) : result Z R7zError :=
  match self with
  | Kind_Bytes b => Ok (zlen b)
  | Kind_File _ len | Kind_Seekable _ len | Kind_Volumes _ len => Ok len
  end.

(** ** Reading *)

(** The loop over the volumes; every step reads at least one byte, which bounds
    the fuel. *)
Fixpoint read_volumes (fuel : nat) (readers : list VolumeReader) (logical_offset remaining : Z)
    (dst : bytes) : result bytes R7zError :=
  match fuel with
  | O => Err R7zOutOfFuel
  | S fuel =>
      if decide (remaining = 0) then Ok dst else
      let? volume := ok_or (List.find (λ volume,
        bool_decide (vr_start volume ≤ logical_offset ∧ logical_offset < vr_end volume)) readers) Parse in
      let volume_offset := logical_offset - vr_start volume in
      let available := vr_end volume - logical_offset in
      let n := Z.min available remaining in
      let? part := PositionedFile_read_exact_at (vr_file volume) volume_offset n in
      let? logical_offset := ok_or (checked_add logical_offset n) Parse in
      read_volumes fuel readers logical_offset (remaining - n) (dst ++ part)
  end.

Definition ArchiveSource_read_exact_at (self : ArchiveSource) (offset n : Z) : result bytes R7zError :=
  if decide (n = 0) then Ok [] else
  let? end_ := ok_or (checked_add offset n) Parse in
  let? len := ArchiveSource_len self in
  if decide (len < end_) then Err Parse else
  match self with
  | Kind_Bytes b => ok_or (get_range offset end_ b) Parse
  | Kind_File file _ => PositionedFile_read_exact_at file offset n
  | Kind_Seekable reader _ => PositionedFile_read_exact_at reader offset n
  | Kind_Volumes readers _ => read_volumes (S (Z.to_nat n)) readers offset n []
  end.

Definition ArchiveSource_read_range_to_vec (self : ArchiveSource) (range : ByteRange) (limit : Z) :
    result bytes R7zError :=
  let len := ByteRange_len range in
  if decide (limit < len) then Err (LimitExceeded "metadata") else
  let? len := ok_or (usize_try_from len) Parse in
  ArchiveSource_read_exact_at self (br_start range) len.

(** ** The signature *)

Definition SEVEN_Z_MAGIC : bytes := [55; 122; 188; 175; 39; 28].
Definition SIGNATURE_SCAN_CHUNK : Z := 64 * 1024.

(** The windows of six bytes that are the magic, by their offsets. *)
Definition magic_at (data : bytes) (p : Z) : Prop :=
  take 6 (drop (Z.to_nat p) data) = SEVEN_Z_MAGIC.
#[global] Instance magic_at_dec data p : Decision (magic_at data p).
Proof. unfold magic_at. apply _. Defined.

Definition find_magic_offsets (haystack : bytes) : list Z :=
  filter (magic_at haystack) (seqZ 0 (Z.max 0 (zlen haystack - 5))).

Inductive SignatureCandidate :=
| Valid (signature : SignatureHeader)
| BadCrc
| Incomplete.

Definition ArchiveSource_signature_at `{Crc32} (self : ArchiveSource) (offset : Z) :
    result SignatureCandidate R7zError :=
  let? end_ := ok_or (checked_add offset 32) Parse in
  let? len := ArchiveSource_len self in
  if decide (len < end_) then Ok Incomplete else
  let? signature_bytes := ArchiveSource_read_exact_at self offset 32 in
  let? (_, signature) := parsed (SignatureHeader_parse (Slice 0 signature_bytes)) in
  if decide (sh_signature signature ≠ SEVEN_Z_MAGIC) then Ok Incomplete else
  match SignatureHeader_validate_start_header_crc signature with
  | Ok _ => Ok (Valid signature)
  | Err Crc => Ok BadCrc
  | Err err => Err err
  end.

(** The candidates of one buffer: the first valid one, or whether one was bad. *)
Fixpoint candidates_loop `{Crc32} (self : ArchiveSource) (base search_start : Z)
    (positions : list Z) (saw_bad_signature : bool) :
    result (option (Z * SignatureHeader) * bool) R7zError :=
  match positions with
  | [] => Ok (None, saw_bad_signature)
  | pos :: positions =>
      let? pos := ok_or (checked_add search_start pos) Parse in
      let? candidate := ok_or (checked_add base pos) Parse in
      let? found := ArchiveSource_signature_at self candidate in
      match found with
      | Valid signature => Ok (Some (candidate, signature), saw_bad_signature)
      | BadCrc => candidates_loop self base search_start positions true
      | Incomplete => candidates_loop self base search_start positions saw_bad_signature
      end
  end.

(** The last five bytes are carried into the next buffer. *)
Definition carry_tail (carry : bytes) : bytes :=
  if decide (5 ≤ zlen carry) then drop (length carry - 5) carry else carry.

Fixpoint find_signature_loop `{Crc32} (fuel : nat) (self : ArchiveSource) (scan_len offset : Z)
    (carry : bytes) (saw_bad_signature : bool) :
    result (option (Z * SignatureHeader) * bool) R7zError :=
  match fuel with
  | O => Err R7zOutOfFuel
  | S fuel =>
      if decide (offset < scan_len) then
        let remaining := scan_len - offset in
        let? chunk_len := ok_or (usize_try_from (Z.min remaining SIGNATURE_SCAN_CHUNK)) Parse in
        let? chunk := ArchiveSource_read_exact_at self offset chunk_len in
        let carry_len := zlen carry in
        let carry := carry ++ chunk in
        let search_start := saturating_sub carry_len 5 in
        let? base := ok_or (checked_sub offset carry_len) Parse in
        let? found := candidates_loop self base search_start
          (find_magic_offsets (drop (Z.to_nat search_start) carry)) saw_bad_signature in
        match found with
        | (Some hit, saw) => Ok (Some hit, saw)
        | (None, saw_bad_signature) =>
            let? offset := ok_or (checked_add offset chunk_len) Parse in
            find_signature_loop fuel self scan_len offset (carry_tail carry) saw_bad_signature
        end
      else Ok (None, saw_bad_signature)
  end.

(** Every buffer has at least one byte and all but the last a whole chunk. *)
Definition scan_fuel (scan_len : Z) : nat := S (Z.to_nat (scan_len / SIGNATURE_SCAN_CHUNK + 1)).

Definition ArchiveSource_find_signature `{Crc32} (self : ArchiveSource) (limit : Z) :
    result (Z * SignatureHeader) R7zError :=
  let? source_len := ArchiveSource_len self in
  let scan_len := Z.min source_len limit in
  let? found := find_signature_loop (scan_fuel scan_len) self scan_len 0 [] false in
  match found with
  | (Some hit, _) => Ok hit
  | (None, true) => Err Crc
  | (None, false) =>
      if decide (limit < source_len) then Err (ResourceLimitExceeded "signature scan" limit)
      else Err Parse
  end.

(** ** What a source contains *)

(** The source is its contents: it has their length, and every range reads as that
    part of them. *)
Definition source_is (self : ArchiveSource) (data : bytes) : Prop :=
  zlen data ≤ u64_max ∧ ArchiveSource_len self = Ok (zlen data) ∧
  ∀ offset n, 0 ≤ offset → 0 ≤ n →
    ArchiveSource_read_exact_at self offset n =
      if decide (n = 0 ∨ offset + n ≤ zlen data)
      then Ok (take (Z.to_nat n) (drop (Z.to_nat offset) data)) else Err Parse.

Lemma get_range_some {A} a n (l : list A) :
  0 ≤ a → 0 ≤ n → a + n ≤ zlen l →
  get_range a (a + n) l = Some (take (Z.to_nat n) (drop (Z.to_nat a) l)).
Proof.
  intros. unfold get_range. rewrite decide_True by lia. by replace (a + n - a) with n by lia.
Qed.

Lemma bytes_source_is b : zlen b ≤ u64_max → source_is (ArchiveSource_from_bytes b) b.
Proof.
  intros Hb. split; [done|]. split; [done|]. intros offset n Ho Hn.
  unfold ArchiveSource_from_bytes, ArchiveSource_read_exact_at. destruct (decide (n = 0)) as [->|Hne].
  { by rewrite decide_True by (by left). }
  unfold checked_add. destruct (decide (offset + n ≤ zlen b)) as [Hl|Hl].
  - rewrite (decide_True (P := n = 0 ∨ _)) by lia.
    rewrite (decide_True (P := offset + n ≤ u64_max)) by lia. cbn [ok_or ArchiveSource_len].
    rewrite decide_False by lia. by rewrite get_range_some by lia.
  - rewrite (decide_False (P := n = 0 ∨ _)) by lia. destruct (decide (offset + n ≤ u64_max)); [|done].
    cbn [ok_or ArchiveSource_len]. by rewrite decide_True by lia.
Qed.

(** The volumes of a split archive, from a logical offset on. *)
Fixpoint volumes_from (start : Z) (files : list bytes) : list VolumeReader :=
  match files with
  | [] => []
  | f :: fs => {| vr_file := f; vr_start := start; vr_end := start + zlen f |}
               :: volumes_from (start + zlen f) fs
  end.

Lemma find_volume start files logical :
  start ≤ logical → logical < start + zlen (concat files) →
  ∃ pre f post, files = pre ++ f :: post ∧
    List.find (λ volume, bool_decide (vr_start volume ≤ logical ∧ logical < vr_end volume))
      (volumes_from start files) =
      Some {| vr_file := f; vr_start := start + zlen (concat pre);
              vr_end := start + zlen (concat pre) + zlen f |} ∧
    start + zlen (concat pre) ≤ logical < start + zlen (concat pre) + zlen f.
Proof.
  revert start. induction files as [|f fs IH]; intros start Hs Hl; cbn in *.
  { change (zlen []) with 0 in Hl. lia. }
  rewrite zlen_app in Hl. case_bool_decide as Hin; cbn in Hin.
  - exists [], f, fs. cbn. rewrite Z.add_0_r. split_and!; [done|done|lia|lia].
  - destruct (IH (start + zlen f)) as (pre & g & post & -> & Hf & Hr); [lia|lia|].
    exists (f :: pre), g, post. cbn [concat app]. rewrite zlen_app, !Z.add_assoc.
    split_and!; try done; lia.
Qed.

Lemma take_drop_add {A} (l : list A) a m n :
  0 ≤ a → 0 ≤ m → 0 ≤ n →
  take (Z.to_nat (m + n)) (drop (Z.to_nat a) l) =
  take (Z.to_nat m) (drop (Z.to_nat a) l) ++ take (Z.to_nat n) (drop (Z.to_nat (a + m)) l).
Proof.
  intros. rewrite !Z2Nat.inj_add, take_split, drop_drop by lia. done.
Qed.

Lemma read_volumes_concat files fuel logical n dst :
  (Z.to_nat n < fuel)%nat → 0 ≤ logical → 0 ≤ n → zlen (concat files) ≤ u64_max →
  logical + n ≤ zlen (concat files) →
  read_volumes fuel (volumes_from 0 files) logical n dst =
    Ok (dst ++ take (Z.to_nat n) (drop (Z.to_nat logical) (concat files))).
Proof.
  revert logical n dst. induction fuel as [|fuel IH]; intros logical n dst Hf Ho Hn Hmax Hl; [lia|].
  cbn [read_volumes]. case_decide as Hz; [subst n; by rewrite app_nil_r|].
  destruct (find_volume 0 files logical ltac:(lia) ltac:(lia)) as (pre & f & post & Hfiles & -> & Hr).
  cbn [ok_or vr_start vr_end vr_file]. rewrite Z.add_0_l in *.
  set (s := zlen (concat pre)) in *. set (m := Z.min (s + zlen f - logical) n).
  assert (1 ≤ m ∧ m ≤ n ∧ logical - s + m ≤ zlen f) as (Hm1 & Hm2 & Hm3) by lia.
  unfold PositionedFile_read_exact_at. rewrite get_range_some by lia. cbn [ok_or].
  unfold checked_add. rewrite decide_True by lia. cbn [ok_or].
  rewrite IH by lia. rewrite <- app_assoc. do 2 f_equal.
  replace n with (m + (n - m)) at 2 by lia. rewrite take_drop_add by lia. f_equal.
  rewrite Hfiles, concat_app. cbn [concat].
  replace (Z.to_nat logical) with (length (concat pre) + Z.to_nat (logical - s))%nat
    by (unfold s, zlen in *; lia).
  rewrite <- drop_drop, drop_app_length. rewrite drop_app_le by (unfold zlen in *; lia).
  rewrite take_app_le by (rewrite length_drop; unfold zlen in *; lia). done.
Qed.

Lemma split_volumes_spec files readers len budget :
  (∃ b', try_fold split_volume_step (readers, len, budget) files =
    Ok (readers ++ volumes_from len files, len + zlen (concat files), b')) ∧
    len + zlen (concat files) ≤ Z.max len u64_max ∨
  ∃ e, try_fold split_volume_step (readers, len, budget) files = Err e.
Proof.
  revert readers len budget. induction files as [|f fs IH]; intros readers len budget; cbn.
  { left. rewrite app_nil_r, Z.add_0_r. split; [by eexists|lia]. }
  destruct (charge_open_volume budget) as [b|e]; cbn; [|right; by eexists].
  unfold checked_add. case_decide as Hc; cbn; [|right; by eexists].
  destruct (IH (readers ++ [{| vr_file := f; vr_start := len; vr_end := len + zlen f |}])
    (len + zlen f) b) as [[(b' & ->) Hb]|[e ->]]; [|right; by eexists].
  left. rewrite zlen_app, <- app_assoc, Z.add_assoc in *. split; [by eexists|].
  pose proof (zlen_nonneg f). lia.
Qed.

Lemma volumes_source_is files len :
  zlen (concat files) ≤ u64_max → len = zlen (concat files) →
  source_is (Kind_Volumes (volumes_from 0 files) len) (concat files).
Proof.
  intros Hb ->. split; [done|]. split; [done|]. intros offset n Ho Hn.
  unfold ArchiveSource_read_exact_at. destruct (decide (n = 0)) as [->|Hne].
  { by rewrite decide_True by (by left). }
  unfold checked_add. destruct (decide (offset + n ≤ zlen (concat files))) as [Hl|Hl].
  - rewrite (decide_True (P := n = 0 ∨ _)) by lia.
    rewrite (decide_True (P := offset + n ≤ u64_max)) by lia. cbn [ok_or ArchiveSource_len].
    rewrite decide_False by lia. by rewrite read_volumes_concat by lia.
  - rewrite (decide_False (P := n = 0 ∨ _)) by lia. destruct (decide (offset + n ≤ u64_max)); [|done].
    cbn [ok_or ArchiveSource_len]. by rewrite decide_True by lia.
Qed.

(** ** The chunked search *)

(** The candidates of a part of the contents, as offsets into the whole. *)
Definition candidates (data : bytes) (lo hi : Z) : list Z :=
  filter (magic_at data) (seqZ lo (hi - lo)).

Lemma seqZ_shift b n : map (Z.add b) (seqZ 0 n) = seqZ b n.
Proof. pose proof (fmap_add_seqZ b 0 n) as H. by rewrite Z.add_0_r in H. Qed.

Lemma filter_map {A B} (P : B → Prop) `{!∀ x, Decision (P x)} (f : A → B) l :
  filter P (map f l) = map f (filter (λ x, P (f x)) l).
Proof.
  induction l as [|x l IH]; [done|]. cbn [map]. rewrite !filter_cons, IH. by case_decide.
Qed.

(** The windows of a part of the contents are windows of the whole. *)
Lemma magic_offsets_part data b e :
  0 ≤ b → b ≤ e → e ≤ zlen data →
  map (Z.add b) (find_magic_offsets (take (Z.to_nat (e - b)) (drop (Z.to_nat b) data))) =
  candidates data b (Z.max b (e - 5)).
Proof.
  intros Hb Hbe He. unfold find_magic_offsets, candidates.
  assert (zlen (take (Z.to_nat (e - b)) (drop (Z.to_nat b) data)) = e - b) as ->.
  { unfold zlen in *. rewrite length_take, length_drop. lia. }
  rewrite <- (seqZ_shift b). rewrite filter_map.
  replace (Z.max b (e - 5) - b) with (Z.max 0 (e - b - 5)) by lia. f_equal.
  apply filter_ext_in. intros p Hp%elem_of_seqZ. unfold magic_at.
  replace (Z.to_nat (b + p)) with (Z.to_nat b + Z.to_nat p)%nat by lia.
  rewrite skipn_firstn_comm, take_take, drop_drop.
  replace (6 `min` (Z.to_nat (e - b) - Z.to_nat p))%nat with 6%nat by lia. done.
Qed.

Lemma candidates_split data a b c :
  a ≤ b → b ≤ c → candidates data a c = candidates data a b ++ candidates data b c.
Proof.
  intros. unfold candidates. rewrite <- filter_app. f_equal.
  replace (c - a) with ((b - a) + (c - b)) by lia. rewrite seqZ_app by lia. do 2 f_equal. lia.
Qed.

Section search.
  Context `{Crc32} (self : ArchiveSource) (data : bytes).
  Hypothesis is_data : source_is self data.

Lemma candidates_loop_shift base start ps saw :
  0 ≤ base → 0 ≤ start → Forall (λ p, 0 ≤ p ∧ base + start + p ≤ u64_max) ps →
  candidates_loop self base start ps saw =
  candidates_loop self 0 0 (map (Z.add (base + start)) ps) saw.
Proof.
  intros Hb Hs Hps. revert saw. induction Hps as [|p ps [Hp Hm] _ IH]; intros saw; [done|].
  cbn [candidates_loop map]. unfold checked_add.
  rewrite !decide_True by lia. cbn [ok_or]. rewrite !decide_True by lia. cbn [ok_or].
  replace (base + (start + p)) with (0 + (0 + (base + start + p))) by lia.
  destruct (ArchiveSource_signature_at self _) as [[s| |]|e]; [done|apply IH|apply IH|done].
Qed.

Lemma candidates_loop_app ps qs saw :
  candidates_loop self 0 0 (ps ++ qs) saw =
  (let? found := candidates_loop self 0 0 ps saw in
   match found with
   | (Some hit, saw) => Ok (Some hit, saw)
   | (None, saw) => candidates_loop self 0 0 qs saw
   end).
Proof.
  revert saw. induction ps as [|p ps IH]; intros saw; [done|]. cbn [candidates_loop app].
  destruct (checked_add 0 p) as [x|]; [|done]. cbn [ok_or]. destruct (checked_add 0 x); [|done].
  cbn [ok_or]. destruct (ArchiveSource_signature_at self _) as [[s| |]|e]; [done|apply IH|apply IH|done].
Qed.

(** The carried bytes: the last five read so far. *)
Definition carried (offset : Z) : bytes :=
  let b := Z.max 0 (offset - 5) in take (Z.to_nat (offset - b)) (drop (Z.to_nat b) data).

Lemma take_drop_part (a b c : Z) :
  0 ≤ a → a ≤ b → b ≤ c →
  take (Z.to_nat (c - a)) (drop (Z.to_nat a) data) =
  take (Z.to_nat (b - a)) (drop (Z.to_nat a) data) ++
  take (Z.to_nat (c - b)) (drop (Z.to_nat b) data).
Proof.
  intros. replace (c - a) with ((b - a) + (c - b)) by lia. rewrite take_drop_add by lia.
  by replace (a + (b - a)) with b by lia.
Qed.

Lemma zlen_part (a c : Z) :
  0 ≤ a → a ≤ c → c ≤ zlen data → zlen (take (Z.to_nat (c - a)) (drop (Z.to_nat a) data)) = c - a.
Proof. intros. unfold zlen in *. rewrite length_take, length_drop. lia. Qed.

Lemma carry_tail_carried b o :
  0 ≤ b → b ≤ o → o ≤ zlen data → b ≤ Z.max 0 (o - 5) →
  carry_tail (take (Z.to_nat (o - b)) (drop (Z.to_nat b) data)) = carried o.
Proof.
  intros Hb Hbo Ho Hc. pose proof (zlen_part b o Hb Hbo Ho) as Hl. unfold carry_tail, carried.
  rewrite Hl. case_decide as H5; [|by replace (Z.max 0 (o - 5)) with b by lia].
  replace (Z.max 0 (o - 5)) with (o - 5) by lia. rewrite (take_drop_part b (o - 5) o) by lia.
  assert (length (take (Z.to_nat (o - b)) (drop (Z.to_nat b) data)) - 5 =
          length (take (Z.to_nat (o - 5 - b)) (drop (Z.to_nat b) data)))%nat as Hlen.
  { pose proof (zlen_part b (o - 5)) as Hl2. unfold zlen in *. lia. }
  rewrite (take_drop_part b (o - 5) o) in Hlen by lia. rewrite Hlen, drop_app_length.
  done.
Qed.

(** From any point on, the chunks are searched as the rest of the prefix is. *)
Lemma find_signature_loop_spec fuel scan_len offset saw :
  scan_len ≤ zlen data → 0 ≤ offset → offset ≤ Z.max 0 scan_len →
  (Z.to_nat (Z.max 0 (scan_len - offset + SIGNATURE_SCAN_CHUNK - 1) / SIGNATURE_SCAN_CHUNK) < fuel)%nat →
  find_signature_loop fuel self scan_len offset (carried offset) saw =
  candidates_loop self 0 0
    (candidates data (Z.max 0 (offset - 5)) (Z.max (Z.max 0 (offset - 5)) (scan_len - 5))) saw.
Proof.
  destruct is_data as (Hmax & Hlen & Hread). intros Hs. revert offset saw.
  induction fuel as [|fuel IH]; intros offset saw Ho Hos Hf; [lia|]. cbn [find_signature_loop].
  set (b := Z.max 0 (offset - 5)). unfold SIGNATURE_SCAN_CHUNK in *.
  change (64 * 1024) with 65536 in *. case_decide as Hlt.
  2:{ unfold candidates. replace (Z.max b (scan_len - 5) - b) with 0 by lia. done. }
  set (chunk := Z.min (scan_len - offset) 65536). assert (1 ≤ chunk) by lia.
  rewrite (usize_try_from_u64 chunk) by (unfold is_u64; lia). cbn [ok_or]. rewrite Hread by lia.
  rewrite decide_True by lia.
  pose proof (zlen_part b offset ltac:(lia) ltac:(lia) ltac:(lia)) as Hcl. unfold carried. fold b.
  rewrite Hcl. unfold saturating_sub, checked_sub.
  replace (Z.max 0 (offset - b - 5)) with 0 by lia. rewrite decide_True by lia. cbn [ok_or].
  replace (offset - (offset - b)) with b by lia. change (drop (Z.to_nat 0)) with (λ l : bytes, l).
  cbv beta.
  replace (take (Z.to_nat (offset - b)) (drop (Z.to_nat b) data) ++
           take (Z.to_nat chunk) (drop (Z.to_nat offset) data))
    with (take (Z.to_nat (offset + chunk - b)) (drop (Z.to_nat b) data)).
  2:{ rewrite (take_drop_part b offset (offset + chunk)) by lia.
      by replace (offset + chunk - offset) with chunk by lia. }
  rewrite candidates_loop_shift by (try lia; apply Forall_forall; intros p Hp;
    apply list_elem_of_filter in Hp as [_ Hp%elem_of_seqZ];
    rewrite (zlen_part b (offset + chunk)) in Hp by lia; lia).
  rewrite Z.add_0_r, magic_offsets_part by lia.
  rewrite (candidates_split data b (Z.max b (offset + chunk - 5)) (Z.max b (scan_len - 5))) by lia.
  rewrite candidates_loop_app.
  destruct (candidates_loop self 0 0 (candidates data b _) saw) as [[[hit|] saw']|e]; [done| |done].
  unfold checked_add. rewrite decide_True by lia. cbn [ok_or].
  rewrite carry_tail_carried by lia. rewrite IH; [|lia|lia|].
  - f_equal. replace (Z.max b (offset + chunk - 5)) with (Z.max 0 (offset + chunk - 5)) by lia.
    f_equal. lia.
  - destruct (decide (scan_len - offset ≤ 65536)).
    + replace chunk with (scan_len - offset) by lia.
      replace (Z.max 0 (scan_len - (offset + (scan_len - offset)) + 65536 - 1)) with 65535 by lia.
      change (65535 / 65536) with 0.
      assert (1 ≤ Z.max 0 (scan_len - offset + 65536 - 1) / 65536); [|lia].
      apply Z.div_le_lower_bound; lia.
    + replace chunk with 65536 by lia.
      assert (Z.max 0 (scan_len - offset + 65536 - 1) / 65536 =
              Z.max 0 (scan_len - (offset + 65536) + 65536 - 1) / 65536 + 1) as E.
      { rewrite <- Z.div_add by lia. f_equal. lia. }
      assert (0 ≤ Z.max 0 (scan_len - (offset + 65536) + 65536 - 1) / 65536)
        by (apply Z.div_pos; lia). lia.
Qed.

(** What a window that is the magic turns out to be. *)
Definition verdict (q : Z) : SignatureCandidate :=
  if decide (zlen data < q + 32) then Incomplete else
  match SignatureHeader_parse (Slice 0 (take 32 (drop (Z.to_nat q) data))) with
  | Ok (_, s) =>
      if decide (crc32 (SignatureHeader_start_bytes s) = sh_start_header_crc s) then Valid s
      else BadCrc
  | Err _ => Incomplete
  end.

Definition is_valid (c : SignatureCandidate) : Prop :=
  match c with Valid _ => True | _ => False end.

(** A magic window inside the prefix of [scan_len] bytes. *)
Definition is_candidate (scan_len q : Z) : Prop :=
  0 ≤ q ∧ q + 6 ≤ scan_len ∧ magic_at data q.

Lemma signature_at_verdict q :
  0 ≤ q → q + 32 ≤ u64_max → magic_at data q →
  ArchiveSource_signature_at self q = Ok (verdict q).
Proof.
  destruct is_data as (Hmax & Hlen & Hread). intros Hq Hq32 Hm.
  unfold ArchiveSource_signature_at, verdict, checked_add. rewrite decide_True by lia. cbn [ok_or].
  rewrite Hlen. case_decide as Hl; [done|]. rewrite Hread by lia. rewrite decide_True by lia.
  change (Z.to_nat 32) with 32%nat. set (b := take 32 _).
  assert (length b = 32%nat) as Hb by (unfold b, zlen in *; rewrite length_take, length_drop; lia).
  unfold SignatureHeader_parse, sl_len. cbn [sl_data].
  rewrite decide_False by (unfold zlen; lia). cbn [parsed map_err]. rewrite decide_False.
  2:{ intros Hn. apply Hn. cbn [sh_signature]. unfold sub_bytes. cbn [sl_data]. unfold b.
      rewrite drop_0, take_take. exact Hm. }
  unfold SignatureHeader_validate_start_header_crc. by case_decide.
Qed.

(** Searching the candidates in order finds the first valid one. *)
Lemma candidates_loop_spec n a saw :
  0 ≤ a → a + Z.of_nat n + 32 ≤ u64_max →
  match candidates_loop self 0 0 (candidates data a (a + Z.of_nat n)) saw with
  | Ok (Some (p, s), _) => a ≤ p < a + Z.of_nat n ∧ magic_at data p ∧ verdict p = Valid s ∧
      ∀ q, a ≤ q < p → magic_at data q → ¬ is_valid (verdict q)
  | Ok (None, bad) =>
      (∀ q, a ≤ q < a + Z.of_nat n → magic_at data q → ¬ is_valid (verdict q)) ∧
      (bad = true ↔ saw = true ∨
        ∃ q, a ≤ q < a + Z.of_nat n ∧ magic_at data q ∧ verdict q = BadCrc)
  | Err _ => False
  end.
Proof.
  revert a saw. induction n as [|n IH]; intros a saw Ha Hmax; unfold candidates.
  { rewrite seqZ_nil by lia. cbn. split; [lia|]. split; [tauto|]. intros [?|(q & ? & _)]; [done|lia]. }
  rewrite seqZ_cons by lia.
  replace (Z.pred (a + Z.of_nat (S n) - a)) with (Z.succ a + Z.of_nat n - Z.succ a) by lia.
  assert (∀ q, a ≤ q < a + Z.of_nat (S n) ↔ q = a ∨ Z.succ a ≤ q < Z.succ a + Z.of_nat n) as Hsplit by lia.
  rewrite filter_cons. fold (candidates data (Z.succ a) (Z.succ a + Z.of_nat n)).
  assert (∀ saw', (magic_at data a → ¬ is_valid (verdict a)) →
    (saw' = true ↔ saw = true ∨ magic_at data a ∧ verdict a = BadCrc) →
    match candidates_loop self 0 0 (candidates data (Z.succ a) (Z.succ a + Z.of_nat n)) saw' with
    | Ok (Some (p, s), _) => a ≤ p < a + Z.of_nat (S n) ∧ magic_at data p ∧ verdict p = Valid s ∧
        ∀ q, a ≤ q < p → magic_at data q → ¬ is_valid (verdict q)
    | Ok (None, bad) =>
        (∀ q, a ≤ q < a + Z.of_nat (S n) → magic_at data q → ¬ is_valid (verdict q)) ∧
        (bad = true ↔ saw = true ∨
          ∃ q, a ≤ q < a + Z.of_nat (S n) ∧ magic_at data q ∧ verdict q = BadCrc)
    | Err _ => False
    end) as Hstep.
  { intros saw' Hna Hsaw. specialize (IH (Z.succ a) saw' ltac:(lia) ltac:(lia)).
    destruct (candidates_loop self 0 0 _ saw') as [[[[p s]|] bad]|e]; [| |done].
    - destruct IH as (Hp & Hm & Hv & Hq). split_and!; [lia|lia|done|done|]. intros q Hqa.
      destruct (decide (q = a)) as [->|]; [done|]. apply Hq. lia.
    - destruct IH as (Hq & Hbad). split.
      + intros q [->|Hr]%Hsplit; [done|by apply Hq].
      + rewrite Hbad, Hsaw. setoid_rewrite Hsplit. clear -saw.
        split; [intros [[?|[? ?]]|(q & ? & ?)]|intros [?|(q & [->|?] & ? & ?)]]; eauto 8. }
  case_decide as Hm; [|by apply Hstep; naive_solver]. cbn [candidates_loop]. unfold checked_add.
  rewrite !decide_True by lia. cbn [ok_or]. rewrite decide_True by lia. cbn [ok_or].
  replace (0 + (0 + a)) with a by lia. rewrite signature_at_verdict by (done || lia).
  destruct (verdict a) as [s| |] eqn:Hv.
  - split_and!; [lia|lia|done|done|lia].
  - apply Hstep; [intros _ []|naive_solver].
  - apply Hstep; [intros _ []|naive_solver].
Qed.

End search.

Lemma scan_fuel_enough scan_len :
  0 ≤ scan_len →
  (Z.to_nat (Z.max 0 (scan_len - 0 + SIGNATURE_SCAN_CHUNK - 1) / SIGNATURE_SCAN_CHUNK)
   < scan_fuel scan_len)%nat.
Proof.
  intros H. unfold scan_fuel, SIGNATURE_SCAN_CHUNK. change (64 * 1024) with 65536.
  replace (Z.max 0 (scan_len - 0 + 65536 - 1)) with (scan_len + 65535) by lia.
  pose proof (Z.div_le_mono (scan_len + 65535) (scan_len + 1 * 65536) 65536 ltac:(lia) ltac:(lia)) as Hm.
  rewrite Z.div_add in Hm by lia. pose proof (Z.div_pos scan_len 65536 H ltac:(lia)). lia.
Qed.

(** What the search of a source finds. *)
Lemma signature_search `{Crc32} self data limit :
  source_is self data → zlen data + 32 ≤ u64_max → 0 ≤ limit →
  let scan_len := Z.min (zlen data) limit in
  match ArchiveSource_find_signature self limit with
  | Ok (p, s) =>
      is_candidate data scan_len p ∧ verdict data p = Valid s ∧
      ∀ q, q < p → is_candidate data scan_len q → ¬ is_valid (verdict data q)
  | Err e =>
      (∀ q, is_candidate data scan_len q → ¬ is_valid (verdict data q)) ∧
      ((∃ q, is_candidate data scan_len q ∧ verdict data q = BadCrc) ∧ e = Crc ∨
       (¬ ∃ q, is_candidate data scan_len q ∧ verdict data q = BadCrc) ∧
       e = if decide (limit < zlen data) then ResourceLimitExceeded "signature scan" limit else Parse)
  end.
Proof.
  intros Hdata Hmax Hlim scan_len. unfold ArchiveSource_find_signature.
  pose proof Hdata as (_ & -> & _). fold scan_len. pose proof (zlen_nonneg data).
  assert (0 ≤ scan_len ≤ zlen data) as Hscan by (unfold scan_len; lia). clearbody scan_len.
  change (@nil Z) with (carried data 0) at 1.
  rewrite (find_signature_loop_spec self data Hdata) by (try apply scan_fuel_enough; lia).
  change (Z.max 0 (0 - 5)) with 0.
  set (n := Z.to_nat (Z.max 0 (scan_len - 5))).
  assert (Z.of_nat n = Z.max 0 (scan_len - 5)) as Hn by (unfold n; lia). clearbody n.
  assert (∀ q, is_candidate data scan_len q ↔ 0 ≤ q < 0 + Z.of_nat n ∧ magic_at data q) as Hc.
  { intros q. unfold is_candidate. split; intros H'; split_and!; try lia; tauto. }
  replace (Z.max 0 (scan_len - 5)) with (0 + Z.of_nat n) by lia.
  pose proof (candidates_loop_spec self data Hdata n 0 false ltac:(lia) ltac:(lia)) as Hs.
  destruct (candidates_loop self 0 0 _ false) as [[[[p s]|] bad]|e]; [| |done];
    [|destruct bad; [|case_decide]]; setoid_rewrite Hc.
  - destruct Hs as (Hp & Hm & Hv & Hq). split_and!; try done; try lia.
    intros q Hqp [Hq0 Hqm]. apply Hq; [lia|done].
  - destruct Hs as (Hq & Hbad). split; [naive_solver|]. left. split; [|done].
    destruct (proj1 Hbad eq_refl) as [?|(q & ? & ? & ?)]; [done|]. by exists q.
  - destruct Hs as (Hq & Hbad). split; [naive_solver|]. right. split; [|done]. naive_solver.
  - destruct Hs as (Hq & Hbad). split; [naive_solver|]. right. split; [|done]. naive_solver.
Qed.

(** ** Properties *)

(** C35. The chunked search of a source returns the first window of six bytes inside
    the scanned prefix that is the magic and whose signature header has the right
    checksum, wherever the chunk boundaries fall; when there is none it fails, with
    a checksum error if some window had a complete header with a wrong checksum,
    with the scan limit if the source is longer than it, and as malformed
    otherwise. It always returns. *)
Theorem signature_search_finds_first `{Crc32} self data limit :
  source_is self data → zlen data + 32 ≤ u64_max → 0 ≤ limit →
  let scan_len := Z.min (zlen data) limit in
  match ArchiveSource_find_signature self limit with
  | Ok (p, s) =>
      is_candidate data scan_len p ∧ verdict data p = Valid s ∧
      ∀ q, q < p → is_candidate data scan_len q → ¬ is_valid (verdict data q)
  | Err e =>
      (∀ q, is_candidate data scan_len q → ¬ is_valid (verdict data q)) ∧
      ((∃ q, is_candidate data scan_len q ∧ verdict data q = BadCrc) ∧ e = Crc ∨
       (¬ ∃ q, is_candidate data scan_len q ∧ verdict data q = BadCrc) ∧
       e = if decide (limit < zlen data) then ResourceLimitExceeded "signature scan" limit else Parse)
  end.
Proof. apply signature_search. Qed.

Lemma split_volumes_source files budget src budget' :
  ArchiveSource_from_split_first_volume files budget = Ok (Some src, budget') →
  source_is src (concat files).
Proof.
  unfold ArchiveSource_from_split_first_volume. intros Ho.
  destruct (split_volumes_spec files [] 0 budget) as [[(b' & Hf) Hb]|[e Hf]]; rewrite Hf in Ho;
    [|done].
  cbn in Ho, Hb. case_decide; [|done]. injection Ho as <- <-. apply volumes_source_is; lia.
Qed.

(** The volumes of a split archive, when opening them succeeds and there are
    several, read as the one archive that is their concatenation: the same length,
    and the same bytes or the same error at every offset, across volume borders. *)
Theorem split_volumes_read_as_one files budget src budget' :
  ArchiveSource_from_split_first_volume files budget = Ok (Some src, budget') →
  source_is src (concat files).
Proof. apply split_volumes_source. Qed.

(** ** Witnesses *)

(** Three bytes before a signature header. *)
Definition sample_prefixed : bytes := [0; 55; 122] ++ sl_data sample_signature_bytes.

Lemma signature_search_finds_first_witness :
  let _ := zero_crc in
  ArchiveSource_find_signature (ArchiveSource_from_bytes sample_prefixed) 1000 =
    Ok (3, sample_signature) ∧
  is_candidate sample_prefixed 35 3 ∧ verdict sample_prefixed 3 = Valid sample_signature ∧
  ∀ q, q < 3 → is_candidate sample_prefixed 35 q → ¬ is_valid (verdict sample_prefixed q).
Proof.
  intros _crc. assert (ArchiveSource_find_signature (ArchiveSource_from_bytes sample_prefixed) 1000 =
    Ok (3, sample_signature)) as E by (vm_compute; reflexivity).
  split; [exact E|].
  pose proof (signature_search_finds_first (ArchiveSource_from_bytes sample_prefixed)
    sample_prefixed 1000 (bytes_source_is sample_prefixed ltac:(vm_compute; congruence))
    ltac:(vm_compute; congruence) ltac:(lia)) as H.
  cbv zeta in H. rewrite E in H. exact H.
Defined.

Lemma split_volumes_read_as_one_witness :
  source_is (Kind_Volumes (volumes_from 0 [[1; 2]; [3]; [4; 5]]) 5) [1; 2; 3; 4; 5].
Proof.
  apply (split_volumes_read_as_one [[1; 2]; [3]; [4; 5]]
    (OperationBudget_new ResourceLimits_default) _
    (set_open_volumes (OperationBudget_new ResourceLimits_default)
      {| ov_open := 3; ov_limit := 128 |})).
  vm_compute. reflexivity.
Defined.
