(* ===== verification/PackedSource.v ===== *)
(** * Packed sources (src/src/archive_source.rs, src/src/archive.rs)

    Reading a packed stream where the archive holds it: the reader over a range of a
    source, the range of a stream with its digest, and the digests of the additional
    streams. *)

From stdpp Require Import base numbers list option strings.
From Stdlib Require Import ZArith Lia.
From S2P Require Import Prelude Error Operation Readers PackInfo FolderDecode DecoderRun ArchiveSource.

(** ** Checked arithmetic *)

Definition checked_add_u64 (lhs rhs : Z) : result Z R7zError := ok_or (checked_add lhs rhs) Parse.

Definition checked_range_u64 (total_len start len : Z) : result ByteRange R7zError :=
  let? end_ := ok_or (checked_add start len) Parse in
  if decide (end_ ≤ total_len) then ByteRange_from_range start end_ else Err Parse.

(** ** Range readers *)

Record ArchiveRangeReader := { rr_source : ArchiveSource; rr_pos : Z; rr_end : Z }.

#[global] Instance ArchiveRangeReader_read : Reader ArchiveRangeReader := λ self n,
  if decide (rr_end self ≤ rr_pos self ∨ n ≤ 0) then (Ok [], self) else
  let n := Z.min (rr_end self - rr_pos self) n in
  match ArchiveSource_read_exact_at (rr_source self) (rr_pos self) n with
  | Err e => (Err (IoOther e), self)
  | Ok b => (Ok b, {| rr_source := rr_source self; rr_pos := rr_pos self + n; rr_end := rr_end self |})
  end.

Definition ArchiveSource_range_reader (self : ArchiveSource) (range : ByteRange) :
    result ArchiveRangeReader R7zError :=
  let? len := ArchiveSource_len self in
  if decide (len < br_end range) then Err Parse else
  Ok {| rr_source := self; rr_pos := br_start range; rr_end := br_end range |}.

Definition ArchiveSource_packed_input (self : ArchiveSource) (range : ByteRange) :
    result (PackedInput ArchiveRangeReader) R7zError :=
  let? size := ok_or (usize_try_from (ByteRange_len range)) Parse in
  let? reader := ArchiveSource_range_reader self range in
  Ok {| pi_reader := reader; pi_size := size |}.

(** ** Digests of packed bytes *)

Definition CRC_BUFFER : Z := 64 * 1024.

(** The loop of [verify_source_crc]; [hashed] is what the hasher was fed. *)
Fixpoint hash_loop (fuel : nat) (reader : ArchiveRangeReader) (hashed : bytes) : result bytes R7zError :=
  match fuel with
  | O => Err R7zOutOfFuel
  | S fuel =>
      match reader_read reader CRC_BUFFER with
      | (Err e, _) => Err (Io e)
      | (Ok [], _) => Ok hashed
      | (Ok b, reader) => hash_loop fuel reader (hashed ++ b)
      end
  end.

(** Every round but the last reads a whole buffer, or the rest of the range. *)
Definition hash_fuel (range : ByteRange) : nat := S (S (Z.to_nat (ByteRange_len range / CRC_BUFFER))).

Definition verify_source_crc `{Crc32} (source : ArchiveSource) (range : ByteRange) (expected : Z) :
    result unit R7zError :=
  let? reader := ArchiveSource_range_reader source range in
  let? hashed := hash_loop (hash_fuel range) reader [] in
  if decide (crc32 hashed = expected) then Ok tt else Err Crc.

(** ** Packed sources *)

Record PackedSource := { pk_source : ArchiveSource; pk_start : Z }.

Definition PackedSource_new (source : ArchiveSource) (base_offset pack_pos : Z) :
    result PackedSource R7zError :=
  let? start := checked_add_u64 base_offset 32 in
  let? start := checked_add_u64 start pack_pos in
  Ok {| pk_source := source; pk_start := start |}.

Definition PackedSource_range `{Crc32} (self : PackedSource) (stream : PackedStream) :
    result ByteRange R7zError :=
  let? start := checked_add_u64 (pk_start self) (br_start (ps_range stream)) in
  let size := ByteRange_len (ps_range stream) in
  let? len := ArchiveSource_len (pk_source self) in
  let? range := checked_range_u64 len start size in
  match ps_crc stream with
  | Some expected => let? _ := verify_source_crc (pk_source self) range expected in Ok range
  | None => Ok range
  end.

Definition PackedSource_reader `{Crc32} (self : PackedSource) (stream : PackedStream) :
    result (PackedInput ArchiveRangeReader) R7zError :=
  let? range := PackedSource_range self stream in
  ArchiveSource_packed_input (pk_source self) range.

(** ** Additional streams *)

(** The loop of [verify_additional_pack_crcs]; [index] counts the streams. *)
Fixpoint verify_packs `{Crc32} (source : ArchiveSource) (data_start : Z) (digests : list (option Z))
    (sizes : list Z) (index : nat) (pack_offset : Z) : result unit R7zError :=
  match sizes with
  | [] => Ok tt
  | size :: sizes =>
      let? start := checked_add_u64 data_start pack_offset in
      let? len := ArchiveSource_len source in
      let? range := checked_range_u64 len start size in
      let? _ := match mjoin (digests !! index) with
                | Some expected_crc => verify_source_crc source range expected_crc
                | None => Ok tt
                end in
      let? pack_offset := checked_add_u64 pack_offset size in
      verify_packs source data_start digests sizes (S index) pack_offset
  end.

Definition verify_additional_pack_crcs `{Crc32} (source : ArchiveSource) (base_offset : Z)
    (pack_info : PackInfo) : result unit R7zError :=
  let? data_start := checked_add_u64 base_offset 32 in
  let? data_start := checked_add_u64 data_start (pack_pos pack_info) in
  verify_packs source data_start (pack_digests pack_info) (pack_size pack_info) 0 0.

(** ** Lemmas *)

Lemma checked_add_u64_ok a b c : checked_add_u64 a b = Ok c → c = a + b ∧ c ≤ u64_max.
Proof. unfold checked_add_u64, checked_add. case_decide; [|done]. by intros [= <-]. Qed.

Lemma PackedSource_new_ok source base pos ps :
  PackedSource_new source base pos = Ok ps → ps = {| pk_source := source; pk_start := base + 32 + pos |}.
Proof.
  unfold PackedSource_new. destruct (checked_add_u64 base 32) as [a|] eqn:Ea; [|done].
  apply checked_add_u64_ok in Ea as [-> _].
  destruct (checked_add_u64 _ pos) as [b|] eqn:Eb; [|done]. apply checked_add_u64_ok in Eb as [-> _]. by intros [= <-].
Qed.

Section lemmas.
  Context (source : ArchiveSource) (data : bytes) (Hsource : source_is source data).

Lemma source_part a n : 0 ≤ a → 0 < n → a + n ≤ zlen data →
  ArchiveSource_read_exact_at source a n = Ok (sub_list a (a + n) data).
Proof.
  intros Ha Hn Hl. destruct Hsource as (_ & _ & Hr). rewrite Hr, decide_True by lia.
  unfold sub_list. by replace (a + n - a) with n by lia.
Qed.

Lemma checked_range_spec start len range : 0 ≤ start → 0 ≤ len →
  checked_range_u64 (zlen data) start len = Ok range ↔
  range = {| br_start := start; br_end := start + len |} ∧ start + len ≤ zlen data.
Proof.
  intros Hs Hl. unfold checked_range_u64, checked_add, ByteRange_from_range.
  destruct Hsource as (Hmax & _ & _). destruct (decide (start + len ≤ u64_max)); cbn.
  - case_decide as Hd; [rewrite decide_True by lia|]; split; try done.
    + by intros [= <-].
    + by intros [-> _].
    + by intros [_ ?].
  - split; [done|]. intros [_ ?]. lia.
Qed.

(** A reader between two offsets. *)
Definition reads_part (a b : Z) (r : ArchiveRangeReader) : Prop :=
  r = {| rr_source := source; rr_pos := a; rr_end := b |} ∧ 0 ≤ a ∧ b ≤ zlen data.

Lemma range_read a b r n : reads_part a b r → 0 < n →
  ∃ m, 0 ≤ m ≤ n ∧ (m = 0 → b ≤ a) ∧ m = Z.max 0 (Z.min (b - a) n) ∧
    ∃ r', reader_read r n = (Ok (sub_list a (a + m) data), r') ∧ reads_part (a + m) b r'.
Proof.
  intros (-> & Ha & Hb) Hn. exists (Z.max 0 (Z.min (b - a) n)). split_and!; [lia..|].
  unfold reader_read, ArchiveRangeReader_read. cbn [rr_pos rr_end rr_source].
  case_decide as Hd.
  - replace (Z.max 0 (Z.min (b - a) n)) with 0 by lia. rewrite Z.add_0_r, sub_list_empty by lia.
    eexists. split; [reflexivity|]. done.
  - replace (Z.max 0 (Z.min (b - a) n)) with (Z.min (b - a) n) by lia.
    rewrite source_part by lia. eexists. split; [reflexivity|]. split_and!; [done|lia|done].
Qed.

(** The reader of a range delivers that part of the archive, without interruptions. *)
Lemma range_delivers a b :
  0 ≤ a → b ≤ zlen data →
  delivers 0 {| rr_source := source; rr_pos := a; rr_end := b |} (sub_list a b data).
Proof.
  intros Ha Hb. exists (λ _ r d, ∃ a, reads_part a b r ∧ d = sub_list a b data).
  split; [|by exists a]. clear a Ha. intros m r d n (a & Hr & ->) Hn.
  destruct (range_read _ _ _ _ Hr Hn) as (k & Hk & Hend & Heq & r' & Hread & Hr').
  eapply (read_gives _ _ _ _ _ (sub_list a (a + k) data) (sub_list (a + k) b data) r' m); [done| | | |lia|].
  - destruct Hr as (_ & Ha & _). destruct (decide (a ≤ b)).
    + rewrite zlen_sub_list by lia. lia.
    + rewrite sub_list_empty by lia. rewrite zlen_nil. lia.
  - destruct Hr as (_ & Ha & _). destruct (decide (a ≤ b)).
    + apply sub_list_step; lia.
    + by rewrite !sub_list_empty by lia.
  - intros Hnil. destruct (decide (k = 0)) as [->|].
    + by rewrite sub_list_empty by lia.
    + destruct Hr as (_ & Ha & _).
      assert (zlen (sub_list a (a + k) data) = 0) as Hz by by rewrite Hnil.
      rewrite zlen_sub_list in Hz by lia. lia.
  - by exists (a + k).
Qed.

Lemma range_reader_spec a b :
  ArchiveSource_range_reader source {| br_start := a; br_end := b |} =
  (if decide (zlen data < b) then Err Parse else
   Ok {| rr_source := source; rr_pos := a; rr_end := b |}).
Proof. destruct Hsource as (_ & Hl & _). unfold ArchiveSource_range_reader. by rewrite Hl. Qed.

Lemma hash_loop_spec fuel a b r hashed :
  reads_part a b r → a ≤ b → b - a ≤ (Z.of_nat fuel - 1) * CRC_BUFFER →
  hash_loop fuel r hashed = Ok (hashed ++ sub_list a b data).
Proof.
  revert a r hashed. induction fuel as [|fuel IH]; intros a r hashed Hr Hab Hf; cbn [hash_loop].
  { unfold CRC_BUFFER in Hf. lia. }
  destruct (range_read a b r CRC_BUFFER Hr) as (m & Hm & _ & Heq & r' & -> & Hr'); [unfold CRC_BUFFER; lia|].
  pose proof Hr as (_ & Ha & Hb). unfold CRC_BUFFER in *.
  assert (zlen (sub_list a (a + m) data) = m) as Hz by (rewrite zlen_sub_list; lia).
  destruct (decide (m = 0)) as [->|Hne].
  - assert (a = b) as -> by lia. by rewrite !sub_list_empty, app_nil_r by lia.
  - destruct (sub_list a (a + m) data) as [|x l] eqn:Ec; [rewrite zlen_nil in Hz; lia|].
    rewrite (IH _ _ _ Hr') by lia. rewrite <- app_assoc, <- Ec. by rewrite <- sub_list_step by lia.
Qed.

Lemma verify_source_crc_spec `{Crc32} a b expected : 0 ≤ a → a ≤ b → b ≤ zlen data →
  verify_source_crc source {| br_start := a; br_end := b |} expected =
  if decide (crc32 (sub_list a b data) = expected) then Ok tt else Err Crc.
Proof.
  intros Ha Hab Hb. unfold verify_source_crc. rewrite range_reader_spec, decide_False by lia.
  rewrite (hash_loop_spec _ a b); [done|done|done|].
  unfold hash_fuel, ByteRange_len. cbn [br_start br_end].
  pose proof (Z.mul_succ_div_gt (b - a) CRC_BUFFER ltac:(unfold CRC_BUFFER; lia)).
  pose proof (Z.div_pos (b - a) CRC_BUFFER ltac:(lia) ltac:(unfold CRC_BUFFER; lia)).
  unfold CRC_BUFFER in *. lia.
Qed.

(** The stored digest of a stream, if any, is that of these bytes. *)
Definition crc_matches `{Crc32} (crc : option Z) (b : bytes) : Prop :=
  ∀ expected, crc = Some expected → crc32 b = expected.

Lemma PackedSource_range_spec `{Crc32} start stream range :
  let ps := {| pk_source := source; pk_start := start |} in
  let a := start + br_start (ps_range stream) in let b := start + br_end (ps_range stream) in
  0 ≤ start → 0 ≤ br_start (ps_range stream) ≤ br_end (ps_range stream) →
  PackedSource_range ps stream = Ok range ↔
  range = {| br_start := a; br_end := b |} ∧ b ≤ zlen data ∧ crc_matches (ps_crc stream) (sub_list a b data).
Proof.
  intros ps a b Hs Hr. pose proof Hsource as (Hmax & Hl & _).
  unfold PackedSource_range, checked_add_u64, checked_add. cbn [pk_start pk_source ps].
  fold a. destruct (decide (a ≤ u64_max)) as [Hu|Hu]; cbn [ok_or].
  2: { split; [done|]. intros (_ & Hb & _). unfold b in Hb. lia. }
  rewrite Hl. destruct (checked_range_u64 _ _ _) as [r|e] eqn:Er.
  - apply checked_range_spec in Er as [-> Hle]; [|unfold a; lia|unfold ByteRange_len; lia].
    assert (a + ByteRange_len (ps_range stream) = b) as Hab by (unfold a, b, ByteRange_len; lia).
    rewrite Hab in *. unfold crc_matches. destruct (ps_crc stream) as [expected|].
    + rewrite verify_source_crc_spec by (unfold a, b in *; lia). case_decide as Hc.
      * split; [intros [= <-]; split_and!; [done|done|by intros ? [= <-]]|by intros (-> & _)].
      * split; [done|]. intros (_ & _ & Hm). by destruct Hc; apply Hm.
    + split; [by intros [= <-]|by intros (-> & _)].
  - split; [done|]. intros (_ & Hle & _). exfalso.
    assert (checked_range_u64 (zlen data) a (ByteRange_len (ps_range stream)) =
      Ok {| br_start := a; br_end := a + ByteRange_len (ps_range stream) |}) as Hok.
    { apply checked_range_spec; [unfold a; lia|unfold ByteRange_len; lia|].
      split; [done|]. unfold a, b, ByteRange_len in *. lia. }
    congruence.
Qed.

Lemma PackedSource_reader_spec `{Crc32} start stream :
  let ps := {| pk_source := source; pk_start := start |} in
  let a := start + br_start (ps_range stream) in let b := start + br_end (ps_range stream) in
  0 ≤ start → 0 ≤ br_start (ps_range stream) ≤ br_end (ps_range stream) →
  (∀ input, PackedSource_reader ps stream = Ok input →
     b ≤ zlen data ∧ crc_matches (ps_crc stream) (sub_list a b data) ∧
     pi_size input = b - a ∧ delivers 0 (pi_reader input) (sub_list a b data)) ∧
  (b ≤ zlen data → crc_matches (ps_crc stream) (sub_list a b data) →
   ∃ input, PackedSource_reader ps stream = Ok input).
Proof.
  intros ps a b Hs Hr. pose proof Hsource as (Hmax & _ & _).
  assert (∀ range, PackedSource_range ps stream = Ok range → b ≤ zlen data →
    PackedSource_reader ps stream = Ok {| pi_reader := {| rr_source := source; rr_pos := a; rr_end := b |};
                                          pi_size := b - a |}) as Hok.
  { intros range Hrange Hb. unfold PackedSource_reader. rewrite Hrange.
    apply PackedSource_range_spec in Hrange as (-> & _ & _); [|done..].
    unfold ArchiveSource_packed_input, ByteRange_len, usize_try_from. fold a b. cbn [br_start br_end].
    rewrite decide_True by (unfold a, b, usize_max, u64_max in *; lia). cbn [ok_or pk_source ps].
    by rewrite range_reader_spec, decide_False by lia. }
  split.
  - intros input Hin. destruct (PackedSource_range ps stream) as [range|] eqn:Er.
    + pose proof Er as Er'. apply PackedSource_range_spec in Er' as (_ & Hb & Hc); [|done..].
      rewrite (Hok _ eq_refl Hb) in Hin. injection Hin as <-. split_and!; [done|done|done|].
      apply range_delivers; [unfold a; lia|done].
    + unfold PackedSource_reader in Hin. by rewrite Er in Hin.
  - intros Hb Hc. eexists. eapply Hok; [|done]. by apply PackedSource_range_spec.
Qed.

(** The digests of consecutive streams, from an offset on. *)
Lemma verify_packs_spec `{Crc32} start digests sizes index offset :
  0 ≤ start → 0 ≤ offset → Forall is_u64 sizes →
  verify_packs source start digests sizes index offset = Ok tt ↔
  ∀ k size, sizes !! k = Some size →
    let a := start + offset + sum_z (take k sizes) in
    a + size ≤ zlen data ∧ crc_matches (mjoin (digests !! (index + k)%nat)) (sub_list a (a + size) data).
Proof.
  intros Hs. revert index offset. induction sizes as [|size sizes IH]; intros index offset Ho Hsz.
  { split; [|done]. intros _ k size Hk. by rewrite lookup_nil in Hk. }
  apply Forall_cons in Hsz as [[Hsz0 Hsz1] Hsz]. pose proof Hsource as (Hmax & Hl & _).
  assert (∀ k, start + offset + sum_z (take (S k) (size :: sizes)) =
               start + (offset + size) + sum_z (take k sizes)) as Hsum
    by (intros; unfold sum_z; cbn; lia).
  cbn [verify_packs]. unfold checked_add_u64, checked_add.
  destruct (decide (start + offset ≤ u64_max)); cbn [ok_or].
  2: { split; [done|]. intros Hall. destruct (Hall 0%nat size eq_refl) as [Hle _].
       unfold sum_z in Hle. cbn in Hle. lia. }
  rewrite Hl. destruct (checked_range_u64 _ _ _) as [r|e] eqn:Er.
  - apply checked_range_spec in Er as [-> Hle]; [|lia..].
    assert (match mjoin (digests !! index) with
      | Some expected_crc => verify_source_crc source
          {| br_start := start + offset; br_end := start + offset + size |} expected_crc
      | None => Ok tt end = Ok tt ↔
      crc_matches (mjoin (digests !! index)) (sub_list (start + offset) (start + offset + size) data)) as Hcrc.
    { unfold crc_matches. destruct (mjoin (digests !! index)) as [expected|]; [|by split].
      rewrite verify_source_crc_spec by lia. case_decide as Hc.
      - split; [by intros _ ? [= <-]|done].
      - split; [done|]. intros Hm. by destruct Hc; apply Hm. }
    destruct (match mjoin (digests !! index) with Some _ => _ | None => _ end) as [[]|e].
    + destruct (decide (offset + size ≤ u64_max)); [|lia]. cbn [ok_or].
      rewrite IH by (done || lia). pose proof (proj1 Hcrc eq_refl) as Hm. split.
      * intros Hall [|k] size' Hk; cbn [lookup list_lookup] in Hk.
        -- injection Hk as <-. unfold sum_z. cbn. rewrite Z.add_0_r, Nat.add_0_r. done.
        -- cbv zeta. rewrite Hsum. replace (index + S k)%nat with (S index + k)%nat by lia. by apply Hall.
      * intros Hall k size' Hk. specialize (Hall (S k) size' Hk). cbv zeta in Hall. rewrite Hsum in Hall.
        by replace (S index + k)%nat with (index + S k)%nat by lia.
    + split; [done|]. intros Hall. destruct (Hall 0%nat size eq_refl) as [_ Hm].
      unfold sum_z in Hm. cbn in Hm. rewrite Z.add_0_r, Nat.add_0_r in Hm. by apply Hcrc in Hm.
  - split; [done|]. intros Hall. destruct (Hall 0%nat size eq_refl) as [Hle _].
    unfold sum_z in Hle. cbn in Hle. rewrite Z.add_0_r in Hle.
    assert (checked_range_u64 (zlen data) (start + offset) size =
      Ok {| br_start := start + offset; br_end := start + offset + size |}) as Hok
      by (apply checked_range_spec; [lia..|done]).
    congruence.
Qed.

End lemmas.

(** A reader gives no more bytes than asked for, whatever the source. *)
Lemma read_volumes_length fuel readers offset n dst b :
  0 ≤ n → read_volumes fuel readers offset n dst = Ok b → zlen b = zlen dst + n.
Proof.
  revert offset n dst. induction fuel as [|fuel IH]; intros offset n dst Hn; cbn [read_volumes]; [done|].
  case_decide as H0; [intros [= <-]; lia|].
  destruct (List.find _ _) as [v|] eqn:Ef; [|done]. cbn [ok_or].
  apply List.find_some in Ef as [_ Hv]. apply bool_decide_eq_true in Hv.
  destruct (PositionedFile_read_exact_at _ _ _) as [part|] eqn:Ep; [|done].
  destruct (checked_add _ _); [|done]. cbn [ok_or]. intros Hr. apply IH in Hr; [|lia].
  unfold PositionedFile_read_exact_at in Ep. destruct (get_range _ _ _) as [k|] eqn:Eg; [|done].
  injection Ep as <-. apply get_range_length in Eg as [Hk _]. rewrite zlen_app, Hk in Hr. lia.
Qed.

Lemma ArchiveRangeReader_ok : reader_ok ArchiveRangeReader.
Proof.
  intros self n c self' Hn. unfold reader_read, ArchiveRangeReader_read.
  case_decide as Hd; [intros [= <- _]; rewrite zlen_nil; lia|].
  set (m := Z.min (rr_end self - rr_pos self) n). unfold ArchiveSource_read_exact_at.
  destruct (decide (m = 0)); [intros [= <- _]; rewrite zlen_nil; lia|].
  destruct (checked_add _ m) as [end_|] eqn:Ea; [|done]. cbn [ok_or].
  unfold checked_add in Ea. case_decide; [|done]. injection Ea as <-.
  destruct (ArchiveSource_len _); [|done]. case_decide; [done|].
  assert (∀ (file : bytes) k, get_range (rr_pos self) (rr_pos self + m) file = Some k → zlen k ≤ n) as Hg
    by (intros file k Hk%get_range_length; lia).
  destruct (rr_source self); unfold PositionedFile_read_exact_at.
  - destruct (get_range _ _ _) eqn:Eg; [|done]. intros [= <- _]. by eapply Hg.
  - destruct (get_range _ _ _) eqn:Eg; [|done]. intros [= <- _]. by eapply Hg.
  - destruct (get_range _ _ _) eqn:Eg; [|done]. intros [= <- _]. by eapply Hg.
  - destruct (read_volumes _ _ _ _ _) as [k|] eqn:Er; [|done]. intros [= <- _].
    apply read_volumes_length in Er; [|lia]. rewrite Er, zlen_nil. lia.
Qed.
