(* ===== verification/ArchiveNames.v ===== *)
(** * Entry names as paths (src/src/archive.rs)

    The normalization of an entry name into a relative path that can be joined to an
    extraction directory. Names are their Unicode scalar values; a [PathBuf] is the
    list of its components, as on Unix. *)

From stdpp Require Import base numbers list option strings.
From Stdlib Require Import ZArith Lia.
From S2P Require Import Prelude Error.

(** ** Definitions *)

Definition SLASH : Z := 47.
Definition BACKSLASH : Z := 92.
Definition DOT : list Z := [46].
Definition DOTDOT : list Z := [46; 46].

Definition is_separator (c : Z) : bool := bool_decide (c = SLASH ∨ c = BACKSLASH).

(** [name.split(['/', '\\'])]; [part] is the part being read. *)
Fixpoint split_parts (part : list Z) (name : list Z) : list (list Z) :=
  match name with
  | [] => [part]
  | c :: name => if is_separator c then part :: split_parts [] name else split_parts (part ++ [c]) name
  end.
Definition split_name (name : list Z) : list (list Z) := split_parts [] name.

Definition has_parent_component (name : list Z) : bool :=
  existsb (λ part, bool_decide (part = DOTDOT)) (split_name name).

Definition is_ascii_alphabetic (c : Z) : bool :=
  bool_decide (65 ≤ c ∧ c ≤ 90) || bool_decide (97 ≤ c ∧ c ≤ 122).

Definition has_windows_prefix (name : list Z) : bool :=
  match name with
  | c :: d :: _ => (is_ascii_alphabetic c && bool_decide (d = 58)) || bool_decide (c = BACKSLASH ∧ d = BACKSLASH)
  | _ => false
  end.

(** The loop over the parts. *)
Fixpoint push_parts (name : list Z) (parts normalized : list (list Z)) :
    result (list (list Z)) R7zError :=
  match parts with
  | [] => Ok normalized
  | part :: parts =>
      if decide (part = [] ∨ part = DOT) then push_parts name parts normalized
      else if decide (part = DOTDOT) then Err (UnsafePath name)
      else push_parts name parts (normalized ++ [part])
  end.

Definition safe_archive_name (name : list Z) : result (list (list Z)) R7zError :=
  if bool_decide (name = []) || bool_decide (0 ∈ name) ||
     match name with c :: _ => is_separator c | [] => false end ||
     has_windows_prefix name || has_parent_component name
  then Err (UnsafePath name) else
  let? normalized := push_parts name (split_name name) [] in
  if decide (normalized = []) then Err (UnsafePath name) else Ok normalized.

(** ** Specification *)

(** A component that names an entry of its directory. *)
Record normal_component (part : list Z) : Prop := {
  nc_nonempty : part ≠ [];
  nc_dot : part ≠ DOT;
  nc_dotdot : part ≠ DOTDOT;
  nc_chars : Forall (λ c, c ≠ SLASH ∧ c ≠ BACKSLASH ∧ c ≠ 0) part
}.

Definition named (part : list Z) : Prop := part ≠ [] ∧ part ≠ DOT.
#[global] Instance named_dec part : Decision (named part).
Proof. unfold named. apply _. Defined.

(** Where a path leads from a directory that is [depth] levels below some root, when
    its components are followed one by one; [None] above the root. *)
Fixpoint follow (depth : nat) (path : list (list Z)) : option nat :=
  match path with
  | [] => Some depth
  | part :: path =>
      if decide (part = [] ∨ part = DOT) then follow depth path
      else if decide (part = DOTDOT) then
        match depth with O => None | S depth => follow depth path end
      else follow (S depth) path
  end.

(** What the name must not be. *)
Record acceptable (name : list Z) : Prop := {
  ac_nul : 0 ∉ name;
  ac_absolute : ∀ rest, name ≠ SLASH :: rest ∧ name ≠ BACKSLASH :: rest;
  ac_drive : ∀ letter rest, (65 ≤ letter ≤ 90 ∨ 97 ≤ letter ≤ 122) → name ≠ letter :: 58 :: rest;
  ac_parent : DOTDOT ∉ split_name name;
  ac_some : filter named (split_name name) ≠ []
}.

(** ** Lemmas *)

Lemma split_parts_ne part name : split_parts part name ≠ [].
Proof. revert part. induction name as [|c name IH]; intros part; cbn; [done|]. by destruct (is_separator c). Qed.

(** The parts of a name have its characters and no separator. *)
Lemma split_parts_chars (P : Z → Prop) part name :
  Forall P part → Forall P name → Forall (λ c, is_separator c = false) part →
  Forall (Forall (λ c, P c ∧ is_separator c = false)) (split_parts part name).
Proof.
  revert part. induction name as [|c name IH]; intros part Hp Hn Hs; cbn.
  { constructor; [|constructor]. apply Forall_and. by split. }
  apply Forall_cons in Hn as [Hc Hn]. destruct (is_separator c) eqn:Ec.
  - constructor; [apply Forall_and; by split|]. apply IH; [constructor|done|constructor].
  - apply IH; [|done|]; apply Forall_app; split; try done; by constructor.
Qed.

Lemma push_parts_spec name parts normalized :
  push_parts name parts normalized =
  if decide (DOTDOT ∈ parts) then Err (UnsafePath name) else Ok (normalized ++ filter named parts).
Proof.
  revert normalized. induction parts as [|part parts IH]; intros normalized; cbn [push_parts].
  { rewrite decide_False by (by intros ?%elem_of_nil). by rewrite app_nil_r. }
  rewrite filter_cons. destruct (decide (part = [] ∨ part = DOT)) as [Hd|Hd].
  - rewrite IH. rewrite (decide_False (P := named part)) by (unfold named; naive_solver).
    assert (DOTDOT ∈ part :: parts ↔ DOTDOT ∈ parts) as Hin.
    { rewrite elem_of_cons. split; [|by right]. intros [<-|]; [|done]. by destruct Hd as [Hd|Hd]; inversion Hd. }
    repeat case_decide; try done; exfalso; tauto.
  - rewrite (decide_True (P := named part)) by (unfold named; naive_solver).
    destruct (decide (part = DOTDOT)) as [->|Hne].
    + rewrite decide_True by (by left). done.
    + rewrite IH. assert (DOTDOT ∈ part :: parts ↔ DOTDOT ∈ parts) as Hin.
      { rewrite elem_of_cons. split; [|by right]. by intros [|]. }
      repeat case_decide; try (exfalso; tauto); [done|]. by rewrite <- app_assoc.
Qed.

Lemma has_parent_component_spec name : has_parent_component name = true ↔ DOTDOT ∈ split_name name.
Proof.
  unfold has_parent_component. rewrite existsb_exists. split.
  - intros (part & Hin & ->%bool_decide_eq_true). by apply list_elem_of_In.
  - intros Hin. exists DOTDOT. split; [by apply list_elem_of_In|by apply bool_decide_eq_true].
Qed.

Lemma follow_normal depth parts :
  Forall normal_component parts → follow depth parts = Some (depth + length parts)%nat.
Proof.
  intros Hn. revert depth. induction Hn as [|part parts [H1 H2 H3 _] _ IH]; intros depth; cbn.
  { by rewrite Nat.add_0_r. }
  rewrite decide_False by naive_solver. rewrite decide_False by done. rewrite IH. f_equal. lia.
Qed.

Lemma filter_normal name :
  0 ∉ name → DOTDOT ∉ split_name name → Forall normal_component (filter named (split_name name)).
Proof.
  intros H0 Hdd. apply Forall_forall. intros part Hin.
  apply list_elem_of_filter in Hin as [[Hne Hdot] Hin]. split; [done|done|by intros ->|].
  assert (Forall (Forall (λ c, c ≠ 0 ∧ is_separator c = false)) (split_name name)) as Hall.
  { apply split_parts_chars; [constructor| |constructor]. apply Forall_forall. by intros c Hc ->. }
  rewrite Forall_forall in Hall. specialize (Hall _ Hin). eapply Forall_impl; [exact Hall|].
  intros c [Hc Hs]. unfold is_separator in Hs. apply bool_decide_eq_false in Hs. naive_solver.
Qed.

Lemma absolute_spec name :
  match name with c :: _ => is_separator c | [] => false end = false ↔
  ∀ rest, name ≠ SLASH :: rest ∧ name ≠ BACKSLASH :: rest.
Proof.
  destruct name as [|c name]; [by split|]. unfold is_separator. rewrite bool_decide_eq_false. split.
  - intros Hc rest. split; intros [= -> _]; apply Hc; auto.
  - intros Hn Hc. destruct (Hn name) as [H1 H2]. by destruct Hc as [-> | ->].
Qed.

(** A name that does not begin with a separator has a Windows prefix if it begins with a drive. *)
Lemma windows_prefix_spec name :
  (∀ rest, name ≠ SLASH :: rest ∧ name ≠ BACKSLASH :: rest) →
  has_windows_prefix name = false ↔
  ∀ letter rest, (65 ≤ letter ≤ 90 ∨ 97 ≤ letter ≤ 122) → name ≠ letter :: 58 :: rest.
Proof.
  intros Habs. destruct name as [|c [|d name]]; cbn; [by split|by split|].
  rewrite orb_false_iff, andb_false_iff, !bool_decide_eq_false. unfold is_ascii_alphabetic.
  rewrite orb_false_iff, !bool_decide_eq_false. split.
  - intros [[[H1 H2]|Hd] _] letter rest Hl; intros [= -> -> _]; [|done]. destruct Hl; [by apply H1|by apply H2].
  - intros Hn. split; [|intros [-> _]; by destruct (Habs (d :: name))].
    destruct (decide (d = 58)) as [->|]; [left|by right].
    split; intros Hl; apply (Hn c name); [by left|done|by right|done].
Qed.

Lemma safe_archive_name_ok name parts :
  safe_archive_name name = Ok parts ↔ acceptable name ∧ parts = filter named (split_name name).
Proof.
  unfold safe_archive_name. split.
  - destruct (_ || has_parent_component name) eqn:Eg; [done|].
    apply orb_false_iff in Eg as [Eg Hpar]. apply orb_false_iff in Eg as [Eg Hwin].
    apply orb_false_iff in Eg as [Eg Habs]. apply orb_false_iff in Eg as [Hemp Hnul].
    apply bool_decide_eq_false in Hnul.
    assert (DOTDOT ∉ split_name name) as Hdd by (rewrite <- has_parent_component_spec; congruence).
    rewrite push_parts_spec, decide_False by done. cbn [app]. case_decide as Hne; [done|].
    pose proof (proj1 (absolute_spec name) Habs) as Habs2. pose proof (proj1 (windows_prefix_spec name Habs2) Hwin). intros [= <-]. by split.
  - intros [[Hnul Habs Hwin Hdd Hne] ->]. apply (proj2 (windows_prefix_spec name Habs)) in Hwin. pose proof (proj2 (absolute_spec name) Habs) as Habs2.
    assert (name ≠ []) as Hn0 by (intros ->; by apply Hne).
    rewrite bool_decide_eq_false_2 by done. rewrite bool_decide_eq_false_2 by done.
    rewrite Hwin. assert (has_parent_component name = false) as ->.
    { destruct (has_parent_component name) eqn:E; [|done]. by apply has_parent_component_spec in E. }
    rewrite Habs2. cbn [orb].
    rewrite push_parts_spec, decide_False by done. cbn [app]. by rewrite decide_False.
Qed.

Lemma safe_archive_name_err name e : safe_archive_name name = Err e → e = UnsafePath name.
Proof.
  unfold safe_archive_name. destruct (_ || _); [by intros [= <-]|].
  rewrite push_parts_spec. case_decide; [by intros [= <-]|]. case_decide; [by intros [= <-]|done].
Qed.

(** ** Property *)

(** C25. A safe name stays below the directory it is joined to: a name is accepted exactly
    when it has no NUL, does not begin with a slash, a backslash (as UNC prefixes do) or an
    ASCII letter and a colon, has no parent component and names something; its path is then
    its components other than the empty ones and the dots, each an ordinary Unix file name, so
    that following the path goes down one level per component and never up. Every other
    name is an [UnsafePath] error with that name. Paths are those of Unix: only the start of
    a name is searched for a drive, and a later component may be called [C:]. *)
Theorem safe_names_contained name :
  (∀ parts, safe_archive_name name = Ok parts ↔ acceptable name ∧ parts = filter named (split_name name)) ∧
  (∀ parts, safe_archive_name name = Ok parts →
     parts ≠ [] ∧ Forall normal_component parts ∧
     ∀ depth, follow depth parts = Some (depth + length parts)%nat) ∧
  (∀ e, safe_archive_name name = Err e → e = UnsafePath name).
Proof.
  split_and!; [apply safe_archive_name_ok| |apply safe_archive_name_err].
  intros parts [Ha ->]%safe_archive_name_ok.
  pose proof (filter_normal _ (ac_nul _ Ha) (ac_parent _ Ha)) as Hn.
  split_and!; [apply Ha|done|]. intros depth. by apply follow_normal.
Qed.

(** Only a leading drive prefix is rejected: after a dot component one is kept, and is
    then the first component of the path. *)
Example drive_prefix_after_dot :
  safe_archive_name [46; 47; 67; 58; 47; 120] = Ok [[67; 58]; [120]].
Proof. reflexivity. Qed.
