(* ===== verification/EntryReads.v ===== *)
(** * Entry reads (src/src/archive.rs)

    Reading entries through the folder decoder that they share: the decoder's state, the
    forward-only session, the traversals that call back for every entry, and the copy of
    an entry into bounded memory. *)

From stdpp Require Import base numbers list option strings pretty.
From Stdlib Require Import ZArith Lia.
From S2P Require Import Prelude Method Error Operation Readers Resources FilesInfo Aes DecoderPlan DecoderRun Entries FolderDecode FolderRead FolderBounds FileStreams Locations ArchiveSource PackedSource ArchiveNames.

(** ** Copying an entry *)

Definition COPY_CAPACITY : N := 8 * 1024.

(** The error of [EntryReader::read], under the marker [EntryReadError]. *)
Definition entry_read_error (error : IoError) : R7zError :=
  if interrupted error then Io error else
  match error with
  | IoCancelledRead => Cancelled
  | IoOther error => error
  | _ => Decompression
  end.

(** The kind of the wrapping error, which [std::io::copy] looks at. *)
Definition entry_error_kind (error : R7zError) : IoErrorKind :=
  match error with Io error => IoError_kind error | _ => OtherKind end.

(** [copy_entry]: [std::io::copy] through an [EntryReader], with the buffer lengths the
    library chooses. *)
Fixpoint copy_entry {W} `{Writer W} (fuel : nat) (sizes : nat → N) (w : W) (written : Z) :
    Strategy (result Z R7zError * W) :=
  match fuel with
  | O => Finished (Err R7zOutOfFuel, w)
  | S fuel =>
      ReadNext (N.min (sizes fuel) COPY_CAPACITY) (λ res,
        match res with
        | Ok [] => Finished (Ok written, w)
        | Ok chunk =>
            match write_all w chunk with
            | (Err e, w) => Finished (Err (Io e), w)
            | (Ok _, w) => copy_entry fuel sizes w (written + zlen chunk)
            end
        | Err e =>
            let error := entry_read_error e in
            if decide (entry_error_kind error = Interrupted) then copy_entry fuel sizes w written
            else Finished (Err error, w)
        end)
  end.

(** [LimitedOutput]. *)
Record LimitedOutput := { ro_bytes : bytes; ro_limit : option Z; ro_exceeded : bool }.

Definition LimitedOutput_new (limit : option Z) : LimitedOutput :=
  {| ro_bytes := []; ro_limit := limit; ro_exceeded := false |}.

(** [expect] cannot fail: the limit is exceeded only when there is one. *)
Definition LimitedOutput_limit_error (self : LimitedOutput) : R7zError :=
  match ro_limit self with
  | Some limit => ResourceLimitExceeded "retained output" limit
  | None => R7zPanic
  end.

Definition LimitedOutput_write (self : LimitedOutput) (buffer : bytes) :
    result Z IoError * LimitedOutput :=
  let remaining := match ro_limit self with
    | None => zlen buffer
    | Some limit => default usize_max (usize_try_from (saturating_sub limit (zlen (ro_bytes self))))
    end in
  let length := Z.min (zlen buffer) remaining in
  let taken := ro_bytes self ++ take (Z.to_nat length) buffer in
  if decide (length < zlen buffer) then
    let self := {| ro_bytes := taken; ro_limit := ro_limit self; ro_exceeded := true |} in
    if decide (length = 0) then (Err (IoKind OtherKind "retained output limit exceeded"), self)
    else (Ok length, self)
  else (Ok length, {| ro_bytes := taken; ro_limit := ro_limit self; ro_exceeded := ro_exceeded self |}).

(** [Write::write_all]. *)
Fixpoint write_all_loop (fuel : nat) (self : LimitedOutput) (buffer : bytes) :
    result unit IoError * LimitedOutput :=
  match fuel with
  | O => (Err io_out_of_fuel, self)
  | S fuel =>
      match buffer with
      | [] => (Ok tt, self)
      | _ =>
          match LimitedOutput_write self buffer with
          | (Err e, self) => if interrupted e then write_all_loop fuel self buffer else (Err e, self)
          | (Ok n, self) =>
              if decide (n = 0) then (Err (IoKind OtherKind "failed to write whole buffer"), self)
              else write_all_loop fuel self (drop (Z.to_nat n) buffer)
          end
      end
  end.

#[global] Instance LimitedOutput_writer : Writer LimitedOutput :=
  {| write_all := λ self buffer, write_all_loop (S (length buffer)) self buffer;
     writer_flush := λ self, (Ok tt, self) |}.

(** ** Entries to read *)

Definition EntryMetadata_name (self : EntryMetadata) : list Z :=
  match em_name self with
  | Some name => RawEntryName_display (sl_data name)
  | None => str_bytes (String.append "unknown-" (pretty (Z.to_N (em_index self))))
  end.

Record ArchiveEntryInfo := {
  ai_index : Z;
  ai_name : list Z;
  ai_raw_name : option slice;
  ai_safe_name : option (list (list Z));
  ai_entry_type : EntryType
}.

Definition ArchiveEntryInfo_from_metadata (metadata : EntryMetadata) (entry_type : EntryType) :
    ArchiveEntryInfo :=
  let name := EntryMetadata_name metadata in
  {| ai_index := em_index metadata; ai_name := name; ai_raw_name := em_name metadata;
     ai_safe_name := result_ok (safe_archive_name name); ai_entry_type := entry_type |}.

Definition ArchiveEntryInfo_from_entry {S} (entry : Entry S) : ArchiveEntryInfo :=
  ArchiveEntryInfo_from_metadata (en_metadata entry) (EntryKind_entry_type (en_kind entry)).

Inductive EntryContent := ContentEmpty | ContentStream (location : StreamLocation).

Record ReadableEntry := { re_info : ArchiveEntryInfo; re_content : EntryContent }.

Definition ReadableEntry_from_file (file : Entry StreamLocation) : option ReadableEntry :=
  let info := ArchiveEntryInfo_from_entry file in
  match en_kind file with
  | K_File location | K_Symlink location =>
      Some {| re_info := info; re_content := ContentStream location |}
  | K_EmptyFile | K_EmptySymlink => Some {| re_info := info; re_content := ContentEmpty |}
  | K_Directory | K_Anti => None
  end.

(** [std::io::empty()]. *)
Inductive EmptyReader := Empty.
#[global] Instance EmptyReader_read : Reader EmptyReader := λ self n, (Ok [], self).

(** ** The decoder *)

Section decoder.
  Context `{Nom} `{Crc32} `{LzmaMemory} `{Decoders} `{BlockCipher} `{Sha256}.
  (** How often a read is retried, and the rounds and buffer lengths of the copies. *)
  Context (retries io_fuel : nat) (io_sizes : nat → Z).

Record EntryDecoder := {
  ed_verification : ReadVerification;
  ed_source : PackedSource;
  ed_current : option (Z * ActiveFolder (FolderReader ArchiveRangeReader));
  ed_password : option (list Z);
  ed_mode : CompletionMode;
  ed_budget : OperationBudget
}.

Definition ed_set (self : EntryDecoder) (verification : ReadVerification)
    (current : option (Z * ActiveFolder (FolderReader ArchiveRangeReader)))
    (budget : OperationBudget) : EntryDecoder :=
  {| ed_verification := verification; ed_source := ed_source self; ed_current := current;
     ed_password := ed_password self; ed_mode := ed_mode self; ed_budget := budget |}.

(** The folder was taken out of [current]. *)
Definition EntryDecoder_complete (self : EntryDecoder)
    (active : option (Z * ActiveFolder (FolderReader ArchiveRangeReader))) :
    result unit R7zError * EntryDecoder :=
  match active with
  | None => (Ok tt, ed_set self (ed_verification self) None (ed_budget self))
  | Some (_, folder) =>
      match ActiveFolder_finish io_fuel io_sizes folder (ed_mode self) (ed_budget self) with
      | (Ok verification, budget) =>
          (Ok tt, ed_set self (ReadVerification_combine (ed_verification self) verification) None budget)
      | (Err error, budget) => (Err error, ed_set self Operation.Incomplete None budget)
      end
  end.

(** The active folder of a location: the current one, or a new one after the current one
    was completed. *)
Definition EntryDecoder_open (self : EntryDecoder) (location : StreamLocation) :
    result (ActiveFolder (FolderReader ArchiveRangeReader)) R7zError * EntryDecoder :=
  let fresh :=
    match EntryDecoder_complete self (ed_current self) with
    | (Err e, self) => (Err e, self)
    | (Ok _, self) =>
        match FolderLayout_bind (loc_folder location) (PackedSource_reader (ed_source self)) (ed_budget self) with
        | (Err e, budget) => (Err e, ed_set self (ed_verification self) None budget)
        | (Ok ready, budget) =>
            let '(active, budget) := ReadyFolder_start retries ready (ed_password self) budget in
            (active, ed_set self (ed_verification self) None budget)
        end
    end in
  match ed_current self with
  | Some (index, active) =>
      if decide (index = loc_folder_index location)
      then (Ok active, ed_set self (ed_verification self) None (ed_budget self)) else fresh
  | None => fresh
  end.

Definition EntryDecoder_read_stream {E} (self : EntryDecoder) (location : StreamLocation)
    (callback : E → Strategy (result unit R7zError * E)) (env : E) :
    result unit R7zError * EntryDecoder * E :=
  match EntryDecoder_open self location with
  | (Err e, self) => (Err e, self, env)
  | (Ok active, self) =>
      match ActiveFolder_skip_to io_fuel io_sizes active (loc_stream_index location) (ed_budget self) with
      | (Err e, budget) => (Err e, ed_set self (ed_verification self) None budget, env)
      | (Ok active, budget) =>
          match ActiveFolder_read_stream_with io_fuel io_sizes active budget callback env with
          | (Err e, budget, env) => (Err e, ed_set self (ed_verification self) None budget, env)
          | (Ok active, budget, env) =>
              (Ok tt, ed_set self (ed_verification self) (Some (loc_folder_index location, active)) budget, env)
          end
      end
  end.

Definition EntryDecoder_read {E} (self : EntryDecoder) (entry : ReadableEntry)
    (callback : ArchiveEntryInfo → E → Strategy (result unit R7zError * E)) (env : E) :
    result unit R7zError * EntryDecoder * E :=
  let '(checked, budget) := monitor_check (ed_budget self) in
  let self := ed_set self (ed_verification self) (ed_current self) budget in
  let '(res, self, env) :=
    match checked with
    | Err e => (Err e, self, env)
    | Ok _ =>
        match re_content entry with
        | ContentEmpty =>
            let '((res, env), _) := run_consumer (callback (re_info entry) env) Empty in (res, self, env)
        | ContentStream location => EntryDecoder_read_stream self location (callback (re_info entry)) env
        end
    end in
  match res with
  | Err e => (Err e, ed_set self Operation.Incomplete (ed_current self) (ed_budget self), env)
  | Ok _ => (Ok tt, self, env)
  end.

Definition EntryDecoder_finish (self : EntryDecoder) : result ReadVerification R7zError * EntryDecoder :=
  match EntryDecoder_complete self (ed_current self) with
  | (Err e, self) => (Err e, self)
  | (Ok _, self) =>
      let '(checked, budget) := monitor_check (ed_budget self) in
      let self := ed_set self (ed_verification self) None budget in
      (result_map (λ _, ed_verification self) checked, self)
  end.

(** ** Sessions *)

Record ArchiveReadSession := { as_files : FileStreams; as_decoder : EntryDecoder; as_count : Z }.

Definition FileStreams_len (self : FileStreams) : Z :=
  it_end (fi_entries self) - it_start (fi_entries self).

Definition ArchiveReadSession_read_entry {E} (self : ArchiveReadSession) (index : Z)
    (callback : E → Strategy (result unit R7zError * E)) (env : E) :
    result unit R7zError * ArchiveReadSession * E :=
  let next_index := as_count self - FileStreams_len (as_files self) in
  if decide (next_index ≤ index < as_count self) then
    let '(file, files) := FileStreams_nth (as_files self) (Z.to_nat (index - next_index)) in
    let self := {| as_files := files; as_decoder := as_decoder self; as_count := as_count self |} in
    match (let? file := file in
           let? file := ok_or file Parse in
           ok_or (ReadableEntry_from_file file) Directory) with
    | Err e => (Err e, self, env)
    | Ok entry =>
        let '(res, decoder, env) := EntryDecoder_read (as_decoder self) entry (λ _, callback) env in
        (res, {| as_files := files; as_decoder := decoder; as_count := as_count self |}, env)
    end
  else (Err (InvalidOptions "read session requires increasing valid entry indexes"), self, env).

(** The callback captures the writer and the count. *)
Definition ArchiveReadSession_extract_to_writer {W} `{Writer W} (sizes : nat → N)
    (self : ArchiveReadSession) (index : Z) (writer : W) :
    result Z R7zError * ArchiveReadSession * W :=
  let '(res, self, (written, writer)) :=
    ArchiveReadSession_read_entry self index
      (λ '(written, writer), strategy_map (λ '(copied, w),
         match copied with Ok n => (Ok tt, (n, w)) | Err e => (Err e, (written, w)) end)
         (copy_entry io_fuel sizes writer 0)) (0, writer) in
  (let? _ := res in Ok written, self, writer).

Definition ArchiveReadSession_finish (self : ArchiveReadSession) :
    result ReadVerification R7zError * ArchiveReadSession :=
  let '(res, decoder) := EntryDecoder_finish (as_decoder self) in
  (res, {| as_files := as_files self; as_decoder := decoder; as_count := as_count self |}).

End decoder.

(** ** Lemmas: copies *)

Lemma run_map {S A B} `{Reader S} (f : A → B) s (c : S) :
  run_consumer (strategy_map f s) c = (f (fst (run_consumer s c)), snd (run_consumer s c)).
Proof.
  revert c. induction s as [r|n k IH]; intros c; cbn [strategy_map run_consumer]; [done|].
  destruct (reader_read c (Z.of_N n)) as [r c']. apply IH.
Qed.

Lemma saw_map {A B} (f : A → B) s d r : saw (strategy_map f s) d r → ∃ r0, saw s d r0 ∧ r = f r0.
Proof.
  revert d. induction s as [r0|n k IH]; intros d; cbn [strategy_map]; inversion 1; subst.
  - exists r0. split; [constructor|done].
  - destruct (IH _ _ ltac:(eassumption)) as (r0 & ? & ->). exists r0. split; [by constructor|done].
  - destruct (IH _ _ ltac:(eassumption)) as (r0 & ? & ->). exists r0. split; [by eapply saw_err|done].
Qed.

Lemma saw_strategy_map {A B} (f : A → B) s d r : saw s d r → saw (strategy_map f s) d (f r).
Proof.
  revert d. induction s as [r0|n k IH]; intros d; inversion 1; subst; cbn.
  - constructor.
  - constructor; [done|by apply IH].
  - eapply saw_err. by apply IH.
Qed.

(** A sink whose successful writes take everything: [contents] is what it holds. *)
Definition appends {W} `{Writer W} (contents : W → bytes) : Prop :=
  ∀ w b w', write_all w b = (Ok tt, w') → contents w' = contents w ++ b.

Section copy.
  Context {W : Type} `{Writer W} (contents : W → bytes) (Happ : appends contents).
  Context (sizes : nat → N) (Hsizes : ∀ k, (0 < sizes k)%N).

(** A copy writes what it saw, and counts it. *)
Lemma copy_saw fuel (w : W) written seen n w' :
  saw (copy_entry fuel sizes w written) seen (Ok n, w') →
  contents w' = contents w ++ seen ∧ n = written + zlen seen.
Proof.
  revert w written seen. induction fuel as [|fuel IH]; intros w written seen; cbn [copy_entry]; [by inversion 1|].
  inversion 1 as [|? ? c d ? Hc Hs|? ? e d ? Hs]; subst.
  - destruct c as [|b c].
    + inversion Hs; subst. rewrite !app_nil_r, zlen_nil. split; [done|lia].
    + destruct (write_all w (b :: c)) as [[[]|] w1] eqn:Ew; [|by inversion Hs].
      apply IH in Hs as [-> ->]. rewrite (Happ _ _ _ Ew), zlen_app, <- app_assoc. split; [done|lia].
  - cbv zeta in Hs. case_decide; [by apply IH|by inversion Hs].
Qed.

(** A copy ends at the end of the substream. *)
Lemma copy_reads_all {S} `{Reader S} fuel (w : W) written (s : SubstreamReader S) n w' s' :
  su_ready s → run_consumer (copy_entry fuel sizes w written) s = ((Ok n, w'), s') → su_remaining s' = 0.
Proof.
  revert w written s. induction fuel as [|fuel IH]; intros w written s Hs; cbn [copy_entry run_consumer]; [done|].
  set (size := N.min (sizes fuel) COPY_CAPACITY).
  assert (0 < Z.of_N size) as Hpos by (unfold size, COPY_CAPACITY; specialize (Hsizes fuel); lia).
  clearbody size. destruct (reader_read s (Z.of_N size)) as [r s1] eqn:Er.
  destruct (substream_read_spec _ _ _ _ Hs (Z.lt_le_incl _ _ Hpos) Er) as (d & Hd & _ & Hr & _).
  pose proof (su_after_ready _ _ _ Hs Hd) as Hs1. destruct r as [[|b c]|e].
  - destruct Hr as [<- Hend]. cbn. intros [= <- <- <-]. rewrite (sa_remaining _ _ _ Hd), zlen_nil.
    rewrite Hend by done. done.
  - destruct (write_all w (b :: c)) as [[[]|] w1]; [by apply IH|done].
  - cbv zeta. case_decide; [by apply IH|done].
Qed.

End copy.

(** The bounded output takes everything a successful write is given, and never more
    than its limit. *)
Definition within_limit (o : LimitedOutput) : Prop :=
  match ro_limit o with Some limit => zlen (ro_bytes o) ≤ limit | None => True end.

Lemma limited_write o b n o' :
  LimitedOutput_write o b = (Ok n, o') →
  ro_bytes o' = ro_bytes o ++ take (Z.to_nat n) b ∧ 0 ≤ n ≤ zlen b ∧ ro_limit o' = ro_limit o ∧
  (within_limit o → within_limit o').
Proof.
  unfold LimitedOutput_write, within_limit. cbv zeta.
  set (remaining := match ro_limit o with Some _ => _ | None => _ end).
  assert (0 ≤ remaining ∧ match ro_limit o with
    | Some limit => zlen (ro_bytes o) ≤ limit → remaining ≤ limit - zlen (ro_bytes o)
    | None => True end) as [Hrem Hlim].
  { unfold remaining, saturating_sub. pose proof (zlen_nonneg b). destruct (ro_limit o) as [limit|]; [|by split].
    unfold usize_try_from. case_decide; cbn; lia. }
  clearbody remaining. pose proof (zlen_nonneg b).
  assert (Hlen : zlen (take (Z.to_nat (Z.min (zlen b) remaining)) b) = Z.min (zlen b) remaining).
  { unfold zlen in *. rewrite length_take. lia. }
  assert (Hok : n = Z.min (zlen b) remaining → ro_bytes o' = ro_bytes o ++ take (Z.to_nat n) b →
    ro_limit o' = ro_limit o → ro_bytes o' = ro_bytes o ++ take (Z.to_nat n) b ∧ 0 ≤ n ≤ zlen b ∧
    ro_limit o' = ro_limit o ∧ (match ro_limit o with Some limit => zlen (ro_bytes o) ≤ limit | None => True end →
      match ro_limit o' with Some limit => zlen (ro_bytes o') ≤ limit | None => True end)).
  { intros -> Hb Hl. split_and!; [done|lia|lia|done|]. rewrite Hl, Hb, zlen_app, Hlen.
    destruct (ro_limit o); [|done]. intros Hle. specialize (Hlim Hle). lia. }
  case_decide; [case_decide; [done|]|]; intros [= <- <-]; by apply Hok.
Qed.

Lemma limited_write_fails o b e o' :
  LimitedOutput_write o b = (Err e, o') → ro_bytes o' = ro_bytes o ∧ ro_limit o' = ro_limit o.
Proof.
  unfold LimitedOutput_write. cbv zeta. case_decide; [case_decide as Hz; [|done]|done].
  intros [= _ <-]. cbn. by rewrite Hz, app_nil_r.
Qed.

Lemma limited_write_all fuel o b r o' :
  write_all_loop fuel o b = (r, o') →
  (r = Ok tt → ro_bytes o' = ro_bytes o ++ b) ∧ ro_limit o' = ro_limit o ∧ (within_limit o → within_limit o').
Proof.
  revert o b. induction fuel as [|fuel IH]; intros o b; cbn [write_all_loop]; [by intros [= <- <-]|].
  destruct b as [|x b]; [intros [= <- <-]; by rewrite app_nil_r|].
  destruct (LimitedOutput_write o (x :: b)) as [[n|e] o1] eqn:Ew.
  - apply limited_write in Ew as (Hb & Hn & Hl & Hw). case_decide as H0; [by intros [= <- <-]; auto|].
    intros (Hr & Hl' & Hw')%IH. split_and!; [|congruence|auto].
    intros ->%Hr. by rewrite Hb, <- app_assoc, take_drop.
  - apply limited_write_fails in Ew as [Hb Hl]. assert (within_limit o → within_limit o1) as Hw
      by (unfold within_limit; by rewrite Hb, Hl).
    destruct (interrupted e); [|by intros [= <- <-]].
    intros (Hr & Hl' & Hw')%IH. split_and!; [|congruence|auto]. intros ->%Hr. by rewrite Hb.
Qed.

Lemma LimitedOutput_appends : appends ro_bytes.
Proof. intros o b o' Hw. by apply limited_write_all in Hw as [-> _]. Qed.

(** What every successful write keeps, a copy keeps. *)
Lemma copy_keeps {W} `{Writer W} (P : W → Prop) fuel sizes (w : W) written seen r w' :
  (∀ w b r w', write_all w b = (r, w') → P w → P w') →
  saw (copy_entry fuel sizes w written) seen (r, w') → P w → P w'.
Proof.
  intros Hw. revert w written seen. induction fuel as [|fuel IH]; intros w written seen; cbn [copy_entry].
  { by inversion 1. }
  inversion 1 as [|? ? c d ? Hc Hs|? ? e d ? Hs]; subst.
  - destruct c as [|b c]; [by inversion Hs|].
    destruct (write_all w (b :: c)) as [[[]|] w1] eqn:Ew; [|inversion Hs; subst; by eapply Hw].
    intros Hp. eapply IH; [exact Hs|]. by eapply Hw.
  - cbv zeta in Hs. case_decide; [by eapply IH|by inversion Hs].
Qed.

(** ** Lemmas: one substream *)

(** A callback that accepts its substream only after its end. *)
Definition reads_all {E} (consume : Strategy (result unit R7zError * E)) : Prop :=
  ∀ (S : Type) (HS : Reader S) (s : SubstreamReader S) env s',
    su_ready s → run_consumer consume s = ((Ok tt, env), s') → su_remaining s' = 0.

Section substreams.
  Context `{Crc32} {S : Type} `{Reader S}.
  Context (io_fuel : nat) (io_sizes : nat → Z) (Hsizes : ∀ k, 0 < io_sizes k).
  Implicit Types self : ActiveFolder S.

Lemma read_stream_with_spec {E} self budget (consume : E → Strategy (result unit R7zError * E)) env r budget' env' :
  active_ok self budget →
  ActiveFolder_read_stream_with io_fuel io_sizes self budget consume env = (r, budget', env') →
  budget_ok budget' ∧
  ∀ self', r = Ok self' → ∃ s seen rest,
    Substreams_next (af_streams self) = Ok (Some s, af_streams self') ∧
    saw (consume env) seen (Ok tt, env') ∧ (reads_all (consume env) → rest = []) ∧
    folder_reads self budget [strategy_map fst (consume env)] [s] [seen ++ rest] self' budget'.
Proof.
  intros Ha. unfold ActiveFolder_read_stream_with. pose proof Ha as (_ & _ & Hb & _).
  destruct (Substreams_next (af_streams self)) as [[[s|] streams]|] eqn:En; [|by intros [= <- <- <-]..].
  destruct (run_consumer (consume env) (stream_content self s budget)) as [[consumed env1] c1] eqn:Ec.
  pose proof (stream_content_ready _ _ _ _ Ha En) as Hr.
  destruct (run_consumer_spec _ _ _ _ Hr Ec) as (d1 & seen & Hd1 & Hsaw & Hseen & _).
  destruct (close_stream io_fuel io_sizes self streams consumed c1) as [r1 b1] eqn:Eclose.
  intros [= <- <- <-]. split; [eapply close_stream_budget, Eclose; [done|by eapply su_after_ready]|].
  intros self' ->. destruct consumed as [[]|e].
  2:{ unfold close_stream in Eclose. by destruct (su_limit_exceeded c1). }
  assert (saw (strategy_map fst (consume env)) seen (Ok tt)) as Hsaw1.
  { by apply (saw_strategy_map fst (consume env) seen (Ok tt, env1)). }
  destruct (close_stream_spec io_fuel io_sizes Hsizes _ _ _ _ _ _ _ _ _ _ _ Ha En Hd1 Hsaw1 Hseen Eclose)
    as (d2 & Hd2 & Hnc & Hf). destruct Hseen as [->|?]; [|done].
  exists s, d1, d2. split_and!; [|done| |done].
  - pose proof (fr_walks _ _ _ _ _ _ _ Hf) as Hw. inversion Hw as [|? ? st1 ? ? Hn Hw1]; subst.
    inversion Hw1; subst. congruence.
  - intros Hall. specialize (Hall _ _ _ _ _ Hr Ec). rewrite Hall in Hd2.
    apply length_zero_iff_nil. unfold zlen in Hd2. lia.
Qed.

End substreams.

(** ** Lemmas: the decoder *)

(** The callback saw the beginning of a verified stream. *)
Section decoding.
  Context `{Nom} `{Crc32} `{LzmaMemory} `{Decoders} `{BlockCipher} `{Sha256}.
  Context (retries io_fuel : nat) (io_sizes : nat → Z) (Hsizes : ∀ k, 0 < io_sizes k).
  Context (Hdec : decoders_bounded).

(** A folder opened from the packed streams: its decoder before any byte was read. *)
Record opened (source : PackedSource) (password : option (list Z)) (layout : FolderLayout)
    (start : ActiveFolder (FolderReader ArchiveRangeReader)) : Prop := {
  op_run : ∃ b b1 b2 ready,
    FolderLayout_bind layout (PackedSource_reader source) b = (Ok ready, b1) ∧
    ReadyFolder_start retries ready password b1 = (Ok start, b2);
  op_streams : af_streams start = FolderStreamLayout_streams (lo_layout layout);
  op_digest : af_digest start = DigestState_new (lo_crc layout);
  op_decoded : af_decoded_len start = 0;
  op_size : af_unpack_size start = lo_unpack_size layout
}.

(** A folder some substreams of which were read: [data] is all the decoder gave. *)
Record reading (source : PackedSource) (password : option (list Z)) (layout : FolderLayout)
    (active : ActiveFolder (FolderReader ArchiveRangeReader)) (ss : list Substream) (data : bytes) : Prop := {
  rg_start : ∃ start, opened source password layout start ∧ yields (af_reader start) data (af_reader active);
  rg_walks : walks (FolderStreamLayout_streams (lo_layout layout)) ss (af_streams active);
  rg_verified : ∃ ds, Forall2 verified_stream ss ds ∧ data = concat ds;
  rg_digest : af_digest active = DigestState_update (DigestState_new (lo_crc layout)) data;
  rg_len : af_decoded_len active = zlen data;
  rg_size : af_unpack_size active = lo_unpack_size layout
}.

Lemma opened_reading source password layout start :
  opened source password layout start → reading source password layout start [] [].
Proof.
  intros Ho. pose proof Ho as [_ Hs Hd Hl Hz]. split; try done.
  - exists start. split; [done|constructor].
  - rewrite Hs. constructor.
  - by exists [].
  - by rewrite DigestState_update_nil.
Qed.

Lemma reading_step source password layout active ss data b cs ss' ds' active' b' :
  reading source password layout active ss data → folder_reads active b cs ss' ds' active' b' →
  reading source password layout active' (ss ++ ss') (data ++ concat ds').
Proof.
  intros [(start & Ho & Hy) Hw (ds & Hv & ->) Hd Hl Hz] [Hw' Hv' _ Hy' Hd' Hl' Hz' _ _ _]. split.
  - exists start. split; [done|by eapply yields_app].
  - by eapply walks_app.
  - exists (ds ++ ds'). split; [by apply Forall2_app|by rewrite concat_app].
  - by rewrite Hd', Hd, DigestState_update_app.
  - rewrite Hl', Hl, zlen_app. lia.
  - congruence.
Qed.

(** The substreams that were read, as slices. *)
Lemma reading_slices source password layout active ss data :
  reading source password layout active ss data →
  Forall (λ s, verified_stream s (stream_slice s data)) ss.
Proof.
  intros [_ Hw (ds & Hv & ->) _ _ _].
  destruct (walks_slices _ _ _ _ [] Hw Hv) as [_ Hs]; [done|cbn; lia|]. cbn [app] in Hs.
  apply Forall_lookup_2. intros k s Hk. destruct (Forall2_lookup_l _ _ _ _ _ Hs Hk) as (d & Hdk & ->).
  destruct (Forall2_lookup_l _ _ _ _ _ Hv Hk) as (d' & Hdk' & Hver). congruence.
Qed.

Lemma active_ok_budget {S} `{Reader S} (active : ActiveFolder S) b b' :
  active_ok active b → budget_ok b' → active_ok active b'.
Proof. by intros (? & ? & _ & ?) ?. Qed.

Lemma open_spec source password layout b r b1 :
  layout_sized layout → FolderLayout_bind layout (PackedSource_reader source) b = (Ok r, b1) → budget_ok b1 →
  ∀ res b2, ReadyFolder_start retries r password b1 = (res, b2) →
  budget_ok b2 ∧ ∀ active, res = Ok active → opened source password layout active ∧ active_ok active b2.
Proof.
  intros Hz Hb Hok res b2 Hs. pose proof (FolderLayout_bind_sized _ _ _ _ _ Hz Hb) as Hr.
  destruct (ReadyFolder_start_spec retries password Hdec ArchiveRangeReader_ok _ _ _ _ Hr Hs) as [[Hst _] Hres].
  pose proof (Hst Hok) as Hok2. split; [done|]. intros active ->. split; [|by eapply started_ok].
  destruct (bind_ready _ _ _ _ _ Hb) as (Hl & Hu & Hc). destruct Hres as [Hs1 Hd1 Hl1 Hz1 _].
  split; try congruence. by exists b, b1, b2, r.
Qed.

(** A decoder between two reads. *)
Record decoder_ok (plans : FolderPlans) (self : EntryDecoder) : Prop := {
  do_budget : budget_ok (ed_budget self);
  do_current : match ed_current self with
    | None => True
    | Some (index, active) => active_ok active (ed_budget self) ∧
        ∃ layout ss data, folder_of plans index layout ∧
          reading (ed_source self) (ed_password self) layout active ss data
    end
}.

(** The same archive read in the same way; a verification once weakened stays so. *)
Definition same_archive (self self' : EntryDecoder) : Prop :=
  ed_source self' = ed_source self ∧ ed_password self' = ed_password self ∧ ed_mode self' = ed_mode self ∧
  (ed_verification self ≠ CompleteFolders → ed_verification self' ≠ CompleteFolders).

(** The whole folder: as many bytes as it declares, with its digest. *)
Definition whole_folder (source : PackedSource) (password : option (list Z)) (layout : FolderLayout)
    (data : bytes) : Prop :=
  zlen data = lo_unpack_size layout ∧ (∀ x, lo_crc layout = Some x → crc32 data = x) ∧
  ∃ active ss, reading source password layout active ss data.

Lemma reading_position source password layout active ss data :
  reading source password layout active ss data →
  sub_layout (af_streams active) = lo_layout layout ∧ sub_position (af_streams active) = zlen ss ∧
  zlen ss ≤ FolderStreamLayout_len (lo_layout layout).
Proof.
  intros Hr. destruct (walks_spec _ _ _ (rg_walks _ _ _ _ _ _ Hr) (layout_len_nonneg _)) as (Hl & Hp & Hle).
  cbn in Hl, Hp, Hle. split_and!; [done|lia|lia].
Qed.

(** Finishing a folder in which [data] was read: it is left, or it is whole. *)
Lemma finish_reading source password layout active ss data mode b r b' :
  reading source password layout active ss data → active_ok active b →
  ActiveFolder_finish io_fuel io_sizes active mode b = (r, b') →
  budget_ok b' ∧
  match r with
  | Ok SelectedEntries => mode = SelectedStreams ∧ lo_crc layout = None
  | Ok CompleteFolders => ∃ rest, whole_folder source password layout (data ++ rest)
  | Ok Operation.Incomplete => False
  | Err _ => True
  end.
Proof.
  intros Hr Ha Hf. destruct (reading_position _ _ _ _ _ _ Hr) as (Hl & Hp & Hle).
  destruct (folder_finish_spec io_fuel io_sizes Hsizes _ _ _ _ _ Ha ltac:(rewrite Hl, Hp; lia) Hf) as [Hb Hres].
  split; [done|]. destruct r as [[]|]; try done.
  - destruct Hres as (active' & ss' & ds' & [Hreads _ Hsize Hdig _]). exists (concat ds').
    pose proof (reading_step _ _ _ _ _ _ _ _ _ _ _ _ Hr Hreads) as Hr'. split_and!; [| |by eexists _, _].
    + rewrite <- (rg_len _ _ _ _ _ _ Hr'), Hsize. apply (rg_size _ _ _ _ _ _ Hr').
    + rewrite (rg_digest _ _ _ _ _ _ Hr') in Hdig. exact (proj1 (DigestState_finish_spec _ _) Hdig).
  - destruct Hres as [-> Habs]. split; [done|]. rewrite (rg_digest _ _ _ _ _ _ Hr) in Habs.
    by destruct (lo_crc layout).
Qed.

Context (plans : FolderPlans) (Hplans : plans_sized plans).

(** The bytes of the stream at a location, in what its folder's decoder gave. *)
Record holds_stream (loc : StreamLocation) (data b : bytes) : Prop := {
  hs_verified : verified_stream (loc_stream loc) b;
  hs_slice : stream_slice (loc_stream loc) data = b;
  hs_start : 0 ≤ br_start (ss_range (loc_stream loc));
  hs_end : br_end (ss_range (loc_stream loc)) ≤ zlen data
}.

Lemma holds_stream_app loc data b more : holds_stream loc data b → holds_stream loc (data ++ more) b.
Proof.
  intros [Hv Hs Hst He]. split; [done| |done|rewrite zlen_app; pose proof (zlen_nonneg more); lia].
  rewrite <- Hs. unfold stream_slice, sub_list. set (r := ss_range (loc_stream loc)) in *. unfold zlen in He.
  destruct (decide (br_start r ≤ br_end r)) as [Hle|Hgt].
  - rewrite drop_app_le by lia. apply take_app_le. rewrite length_drop. lia.
  - replace (Z.to_nat (br_end r - br_start r)) with 0%nat by lia. done.
Qed.

(** A stream that was read, in the folder the decoder is still reading, ... *)
Definition pending (self : EntryDecoder) (loc : StreamLocation) (b : bytes) : Prop :=
  ∃ active ss data, ed_current self = Some (loc_folder_index loc, active) ∧
    reading (ed_source self) (ed_password self) (loc_folder loc) active ss data ∧ holds_stream loc data b.

(** ... and in a folder that was completed: the whole folder is verified, unless its
    digest is absent and only selected streams were asked for. *)
Definition settled (self : EntryDecoder) (loc : StreamLocation) (b : bytes) : Prop :=
  ∃ active ss data, reading (ed_source self) (ed_password self) (loc_folder loc) active ss data ∧
    holds_stream loc data b ∧
    (whole_folder (ed_source self) (ed_password self) (loc_folder loc) data ∨
     (ed_mode self = SelectedStreams ∧ lo_crc (loc_folder loc) = None ∧ ed_verification self ≠ CompleteFolders)).

Lemma settled_same self self' loc b : same_archive self self' → settled self loc b → settled self' loc b.
Proof.
  intros (Hs & Hp & Hm & Hv) (active & ss & data & Hr & Hh & Hw). exists active, ss, data.
  rewrite Hs, Hp, Hm. split_and!; [done|done|]. destruct Hw as [Hw|(? & ? & ?)]; [by left|right; auto].
Qed.

(** The decoder after its folder was completed. *)
Lemma complete_spec self r self' :
  decoder_ok plans self → EntryDecoder_complete io_fuel io_sizes self (ed_current self) = (r, self') →
  decoder_ok plans self' ∧ ed_current self' = None ∧ same_archive self self' ∧
  (r = Ok tt → ∀ loc b, pending self loc b → settled self' loc b).
Proof.
  intros [Hb Hc]. unfold EntryDecoder_complete, pending. destruct (ed_current self) as [[index active]|].
  2:{ intros [= <- <-]. split_and!; [by split|done|done|]. intros _ loc b (? & ? & ? & [=] & _). }
  destruct Hc as (Ha & layout & ss & data & Hfo & Hr).
  destruct (ActiveFolder_finish io_fuel io_sizes active (ed_mode self) (ed_budget self)) as [r0 b] eqn:Ef.
  destruct (finish_reading _ _ _ _ _ _ _ _ _ _ Hr Ha Ef) as [Hb' Hres].
  destruct r0 as [v|e]; intros [= <- <-]; (split; [by split|]); (split; [done|]);
    (split; [split_and!; [done..|]; cbn; by destruct (ed_verification self), v || done|]); [|done].
  intros _ loc bs (active' & ss' & data' & [= -> ->] & Hr' & Hh).
  destruct (finish_reading _ _ _ _ _ _ _ _ _ _ Hr' Ha Ef) as [_ Hres']. destruct v; [| |done].
  - destruct Hres' as [rest Hw]. pose proof Hw as (_ & _ & active2 & ss2 & Hr2).
    exists active2, ss2, (data' ++ rest). split_and!; [done|by apply holds_stream_app|by left].
  - destruct Hres' as [Hmode Hcrc]. exists active', ss', data'. split_and!; [done|done|]. right.
    split_and!; [done|done|]. cbn. by destruct (ed_verification self).
Qed.

(** The active folder of a location, with what was read of it before. *)
Lemma open_location self loc r self' :
  decoder_ok plans self → location_ok plans loc →
  EntryDecoder_open retries io_fuel io_sizes self loc = (r, self') →
  decoder_ok plans self' ∧ ed_current self' = None ∧ same_archive self self' ∧
  ∀ active, r = Ok active → active_ok active (ed_budget self') ∧
    (∃ ss data, reading (ed_source self) (ed_password self) (loc_folder loc) active ss data) ∧
    ∀ loc' b, pending self loc' b → settled self' loc' b ∨
      (loc_folder_index loc' = loc_folder_index loc ∧ ∃ ss data,
        reading (ed_source self) (ed_password self) (loc_folder loc') active ss data ∧ holds_stream loc' data b).
Proof.
  intros Hok [Hfo _]. unfold EntryDecoder_open.
  set (fresh := match EntryDecoder_complete _ _ self (ed_current self) with (Err _, _) => _ | _ => _ end).
  assert (∀ r self', fresh = (r, self') → decoder_ok plans self' ∧ ed_current self' = None ∧ same_archive self self' ∧
    ∀ active, r = Ok active → active_ok active (ed_budget self') ∧
      (∃ ss data, reading (ed_source self) (ed_password self) (loc_folder loc) active ss data) ∧
      ∀ loc' b, pending self loc' b → settled self' loc' b) as Hfresh.
  { intros r1 self1. unfold fresh.
    destruct (EntryDecoder_complete io_fuel io_sizes self (ed_current self)) as [[[]|e] self2] eqn:Ec;
      destruct (complete_spec _ _ _ Hok Ec) as (Hok2 & Hn & Hsame & Hset); [|by intros [= <- <-]].
    destruct (FolderLayout_bind (loc_folder loc) _ _) as [[ready|e] b] eqn:Eb;
      pose proof (proj1 (FolderLayout_bind_stays _ _ _ _ _ Eb) (do_budget _ _ Hok2)) as Hb.
    2:{ intros [= <- <-]. by split_and!; [split|..]. }
    destruct (ReadyFolder_start retries ready (ed_password self2) b) as [active b2] eqn:Es.
    destruct (open_spec _ _ _ _ _ _ (folder_of_sized _ _ _ Hplans Hfo) Eb Hb _ _ Es) as [Hb2 Hact].
    intros [= <- <-]. split_and!; [by split|done|done|]. intros active' ->.
    destruct (Hact _ eq_refl) as [Hop Ha]. split; [done|]. split; [|by apply Hset]. exists [], [].
    destruct Hsame as (Hsrc & Hpw & _). rewrite <- Hsrc, <- Hpw. by apply opened_reading. }
  destruct (ed_current self) as [[index active]|] eqn:Ecur.
  2:{ intros Hr. destruct (Hfresh _ _ Hr) as (? & ? & ? & Hact). split_and!; [done..|].
      intros active Heq. destruct (Hact _ Heq) as (? & ? & Hp). split_and!; [done..|]. intros. left. by apply Hp. }
  case_decide as Hidx.
  2:{ intros Hr. destruct (Hfresh _ _ Hr) as (? & ? & ? & Hact). split_and!; [done..|].
      intros active' Heq. destruct (Hact _ Heq) as (? & ? & Hp). split_and!; [done..|]. intros. left. by apply Hp. }
  intros [= <- <-].
  destruct Hok as [Hb Hc]. rewrite Ecur in Hc. destruct Hc as (Ha & layout & ss & data & Hfo' & Hr).
  split_and!; [by split|done|by split_and!|]. intros active' [= <-]. split_and!; [done| |].
  - exists ss, data. subst index. by rewrite (folder_of_unique _ _ _ _ Hfo Hfo').
  - intros loc' b (active' & ss' & data' & Hcur & Hr' & Hh). right. rewrite Ecur in Hcur.
    injection Hcur as -> ->. split; [done|]. by exists ss', data'.
Qed.

(** A location that was read: the folder was opened, brought to the stream, and the
    stream was read to its end. *)
Lemma read_stream_inv {E} self loc (callback : E → Strategy (result unit R7zError * E)) env r self' env' :
  decoder_ok plans self → location_ok plans loc →
  EntryDecoder_read_stream retries io_fuel io_sizes self loc callback env = (r, self', env') →
  decoder_ok plans self' ∧ same_archive self self' ∧
  (r = Ok tt → ∃ self1 active cs ss ds active' s seen rest,
    EntryDecoder_open retries io_fuel io_sizes self loc = (Ok active, self1) ∧ same_archive self1 self' ∧
    folder_reads active (ed_budget self1) cs (ss ++ [s]) (ds ++ [seen ++ rest]) active' (ed_budget self') ∧
    zlen ss = loc_stream_index loc - ActiveFolder_position active ∧
    ed_current self' = Some (loc_folder_index loc, active') ∧
    saw (callback env) seen (Ok tt, env') ∧ (reads_all (callback env) → rest = [])).
Proof.
  intros Hok Hloc. unfold EntryDecoder_read_stream.
  destruct (EntryDecoder_open retries io_fuel io_sizes self loc) as [[active|e] self1] eqn:Eo;
    destruct (open_location _ _ _ _ Hok Hloc Eo) as (Hok1 & Hn & Hsame & Hact); [|by intros [= <- <- <-]].
  destruct (Hact _ eq_refl) as (Ha & (ss0 & data0 & Hr0) & _).
  destruct (ActiveFolder_skip_to io_fuel io_sizes active (loc_stream_index loc) (ed_budget self1)) as [r1 b1] eqn:Esk.
  destruct (skip_to_spec io_fuel io_sizes Hsizes _ _ _ _ _ Ha Esk) as [Hb1 Hskip].
  destruct r1 as [active1|e]; [|intros [= <- <- <-]; by split_and!; [split|..]].
  destruct (Hskip _ eq_refl) as (ss1 & ds1 & Hcount & Hreads1).
  destruct (ActiveFolder_read_stream_with io_fuel io_sizes active1 b1 callback env) as [[r2 b2] env2] eqn:Er.
  destruct (read_stream_with_spec io_fuel io_sizes Hsizes _ _ _ _ _ _ _ (fr_ok _ _ _ _ _ _ _ Hreads1) Er) as [Hb2 Hread].
  destruct r2 as [active2|e]; [|intros [= <- <- <-]; by split_and!; [split|..]].
  destruct (Hread _ eq_refl) as (s & seen & rest & Hnext & Hsaw & Hall & Hreads2).
  pose proof (folder_reads_trans _ _ _ _ _ _ _ _ _ _ _ _ Hreads1 Hreads2) as Hreads.
  intros [= <- <- <-]. destruct Hsame as (Hsrc & Hpw & Hmode). split; [|split; [done|]].
  - split; [done|]. cbn. split; [apply Hreads2|].
    eexists (loc_folder loc), _, _. split; [apply Hloc|]. rewrite Hsrc, Hpw. by eapply reading_step.
  - intros _. by exists self1, active, (ignoring (loc_stream_index loc - ActiveFolder_position active) ++ [strategy_map fst (callback env)]), ss1, ds1, active2, s, seen, rest.
Qed.

(** The last of the substreams that were read. *)
Lemma reading_last source password layout active ss0 data0 b cs ss ds s d active' b' :
  reading source password layout active ss0 data0 →
  folder_reads active b cs (ss ++ [s]) (ds ++ [d]) active' b' → verified_stream s d ∧
  stream_slice s (data0 ++ concat (ds ++ [d])) = d ∧
  0 ≤ br_start (ss_range s) ∧ br_end (ss_range s) = zlen (data0 ++ concat (ds ++ [d])) ∧
  ∃ st st', walks (FolderStreamLayout_streams (lo_layout layout)) (ss0 ++ ss) st ∧
    Substreams_next st = Ok (Some s, st').
Proof.
  intros Hr Hreads. pose proof (reading_step _ _ _ _ _ _ _ _ _ _ _ _ Hr Hreads) as Hr2.
  pose proof (fr_verified _ _ _ _ _ _ _ Hreads) as Hv.
  apply Forall2_app_inv in Hv as [Hvs Hv]; [|apply Forall2_length in Hv; rewrite !length_app in Hv; cbn in Hv; lia].
  pose proof (proj1 (proj1 (Forall2_cons _ _ _ _ _) Hv)) as Hvd.
  destruct (rg_verified _ _ _ _ _ _ Hr) as (ds0 & Hv0 & Hcat).
  pose proof (rg_walks _ _ _ _ _ _ Hr2) as Hw. pose proof Hw as Hw'. rewrite app_assoc in Hw'.
  apply walks_app_inv in Hw' as (st & Hw1 & Hw2). inversion Hw2 as [|? ? st1 ? ? Hn Hw3]; subst.
  inversion Hw3; subst. pose proof (Substreams_next_spec _ _ _ Hn) as (_ & _ & _ & Hrange & Hoff).
  assert (Forall2 verified_stream ((ss0 ++ ss) ++ [s]) ((ds0 ++ ds) ++ [d])) as Hall
    by (apply Forall2_app; [by apply Forall2_app|done]).
  rewrite app_assoc in Hw.
  destruct (walks_slices _ _ _ _ [] Hw Hall) as [Hz Hs]; [done|cbn; lia|].
  destruct (walks_slices _ _ _ (ds0 ++ ds) [] Hw1) as [Hz1 _]; [by apply Forall2_app|done|cbn; lia|].
  cbn [app] in Hz, Hs, Hz1.
  apply Forall2_app_inv in Hs as [_ Hs]; [|by eapply Forall2_length, Forall2_app].
  pose proof (proj1 (proj1 (Forall2_cons _ _ _ _ _) Hs)) as Hslice.
  rewrite <- app_assoc, concat_app in Hz, Hslice.
  rewrite Hrange. cbn [br_start br_end]. pose proof (zlen_nonneg (concat (ds0 ++ ds))).
  split_and!; [done|done|lia|lia|]. by exists st, (af_streams active').
Qed.

(** A stream that was read is pending; the streams read before it stay so, or their
    folder was completed. *)
Lemma read_stream_location {E} self loc (callback : E → Strategy (result unit R7zError * E)) env self' env' :
  decoder_ok plans self → location_ok plans loc →
  EntryDecoder_read_stream retries io_fuel io_sizes self loc callback env = (Ok tt, self', env') →
  (∃ seen rest, pending self' loc (seen ++ rest) ∧ saw (callback env) seen (Ok tt, env') ∧
     (reads_all (callback env) → rest = [])) ∧
  ∀ loc' b, pending self loc' b → settled self' loc' b ∨ pending self' loc' b.
Proof.
  intros Hok Hloc Hread. destruct (read_stream_inv _ _ _ _ _ _ _ Hok Hloc Hread) as (Hok' & Hsame & Hinv).
  destruct (Hinv eq_refl) as (self1 & active & cs & ss & ds & active' & s & seen & rest & Ho & Hsame1 & Hreads & Hz & Hcur & Hsaw & Hall).
  destruct (open_location _ _ _ _ Hok Hloc Ho) as (_ & _ & _ & Hact).
  destruct (Hact _ eq_refl) as (_ & (ss0 & data0 & Hr0) & Hpend). pose proof Hsame as (Hsrc & Hpw & _).
  unfold pending at 1 3. rewrite Hsrc, Hpw. split.
  - destruct (reading_last _ _ _ _ _ _ _ _ _ _ _ _ _ _ Hr0 Hreads) as (Hv & Hsl & Hst & Hen & st & st' & Hw & Hn).
    assert (s = loc_stream loc) as ->.
    { destruct Hloc as [_ (st1 & st1' & (ss1 & Hw1 & Hz1) & Hn1)].
      destruct (reading_position _ _ _ _ _ _ Hr0) as (_ & Hp & _). unfold ActiveFolder_position in Hz.
      assert (st1 = st) as -> by (eapply walks_unique; [exact Hw1|exact Hw|rewrite zlen_app; lia]).
      congruence. }
    exists seen, rest. split_and!; [|done|done].
    eexists active', _, _. split_and!; [done|by eapply reading_step|]. split; [done|done|done|lia].
  - intros loc' b Hp. destruct (Hpend _ _ Hp) as [Hset|(Hidx & ss' & data' & Hr' & Hh)].
    + left. by eapply settled_same.
    + right. eexists active', _, _. rewrite Hidx. split_and!; [done|by eapply reading_step|by apply holds_stream_app].
Qed.

Lemma run_empty {A} (s : Strategy A) : saw s [] (fst (run_consumer s Empty)).
Proof.
  induction s as [r|n k IH]; cbn; [constructor|]. apply (saw_ok n k [] []); [rewrite zlen_nil; lia|]. apply IH.
Qed.

(** What a callback was given of an entry. *)
Definition entry_served {E} (self : EntryDecoder) (content : EntryContent)
    (consume : Strategy (result unit R7zError * E)) (env' : E) : Prop :=
  match content with
  | ContentEmpty => saw consume [] (Ok tt, env')
  | ContentStream loc => ∃ seen rest,
      (pending self loc (seen ++ rest) ∨ settled self loc (seen ++ rest)) ∧
      saw consume seen (Ok tt, env') ∧ (reads_all consume → rest = [])
  end.

Definition content_ok (content : EntryContent) : Prop :=
  match content with ContentEmpty => True | ContentStream loc => location_ok plans loc end.

Lemma decoder_ok_budget self budget :
  decoder_ok plans self → stays (ed_budget self) budget →
  decoder_ok plans (ed_set self (ed_verification self) (ed_current self) budget).
Proof.
  intros [Hb Hc] [Hst _]. specialize (Hst Hb). split; [done|]. cbn.
  destruct (ed_current self) as [[index active]|]; [|done]. destruct Hc as [Ha Hc].
  split; [by eapply active_ok_budget|done].
Qed.

(** One entry: the state stays sound whatever happens, and a success is a service. *)
Lemma EntryDecoder_read_spec {E} self entry (callback : ArchiveEntryInfo → E → Strategy (result unit R7zError * E)) env r self' env' :
  decoder_ok plans self → content_ok (re_content entry) →
  EntryDecoder_read retries io_fuel io_sizes self entry callback env = (r, self', env') →
  decoder_ok plans self' ∧ same_archive self self' ∧
  match r with
  | Ok _ => entry_served self' (re_content entry) (callback (re_info entry) env) env' ∧
      ∀ loc' b, pending self loc' b → settled self' loc' b ∨ pending self' loc' b
  | Err _ => ed_verification self' = Operation.Incomplete
  end.
Proof.
  intros Hok Hc. unfold EntryDecoder_read.
  destruct (monitor_check (ed_budget self)) as [checked b] eqn:Em. apply monitor_check_stays in Em.
  pose proof (decoder_ok_budget _ _ Hok Em) as Hok1. set (self1 := ed_set self _ _ b) in *.
  assert (same_archive self self1) as Hsame1 by done.
  assert (Hpend : ∀ loc' b, pending self loc' b → pending self1 loc' b) by done.
  destruct checked as [[]|e]; [|intros [= <- <- <-]; split_and!; [by destruct Hok1; split|done|done]].
  unfold entry_served. destruct (re_content entry) as [|loc].
  - pose proof (run_empty (callback (re_info entry) env)) as Hsaw.
    destruct (run_consumer _ Empty) as [[res env1] e]. cbn in Hsaw.
    destruct res as [[]|err]; intros [= <- <- <-]; (split; [by destruct Hok1; split|]); (split; [done|]); [|done].
    split; [done|]. intros. by right; apply Hpend.
  - destruct (EntryDecoder_read_stream _ _ _ self1 loc _ env) as [[res self2] env1] eqn:Er.
    destruct (read_stream_inv _ _ _ _ _ _ _ Hok1 Hc Er) as (Hok2 & Hsame2 & _).
    destruct res as [[]|err]; intros [= <- <- <-].
    + split_and!; [done|done|..]; destruct (read_stream_location _ _ _ _ _ _ Hok1 Hc Er) as [(seen & rest & Hp & Hsaw & Hall) Hk].
      * exists seen, rest. split_and!; [by left|done|done].
      * intros loc' b' Hp'. by apply Hk, Hpend.
    + split; [by destruct Hok2; split|]. split; [|done]. by destruct Hsame2 as (? & ? & ? & ?).
Qed.

(** Completing the last folder. *)
Lemma EntryDecoder_finish_spec self r self' :
  decoder_ok plans self → EntryDecoder_finish io_fuel io_sizes self = (r, self') →
  decoder_ok plans self' ∧ ed_current self' = None ∧ same_archive self self' ∧
  ∀ v, r = Ok v → v = ed_verification self' ∧ ∀ loc b, pending self loc b → settled self' loc b.
Proof.
  intros Hok. unfold EntryDecoder_finish.
  destruct (EntryDecoder_complete io_fuel io_sizes self (ed_current self)) as [[[]|e] self1] eqn:Ec;
    destruct (complete_spec _ _ _ Hok Ec) as (Hok1 & Hn & Hsame & Hset); [|by intros [= <- <-]].
  destruct (monitor_check (ed_budget self1)) as [checked b] eqn:Em. apply monitor_check_stays in Em.
  pose proof (decoder_ok_budget _ _ Hok1 Em) as [Hb _].
  intros [= <- <-]. split_and!; [by split|done|done|]. intros v Hv. destruct checked; [|done].
  injection Hv as <-. split; [done|]. intros loc bs Hp. specialize (Hset eq_refl _ _ Hp).
  by eapply settled_same, Hset.
Qed.

(** ** Lemmas: sessions *)

(** A session between two requests. *)
Record session_ok (self : ArchiveReadSession) : Prop := {
  so_decoder : decoder_ok plans (as_decoder self);
  so_files : locations_ok plans (fi_streams (as_files self))
}.

Definition session_next (self : ArchiveReadSession) : Z := as_count self - FileStreams_len (as_files self).

Lemma ReadableEntry_content_ok file entry :
  entry_ok plans file → ReadableEntry_from_file file = Some entry →
  content_ok (re_content entry).
Proof.
  unfold entry_ok, ReadableEntry_from_file. destruct (en_kind file); intros ?; by intros [= <-].
Qed.

(** A request: an index out of order changes nothing; whatever happens the session stays
    sound; and a success has served the entry that the traversal has at this index. *)
Lemma read_entry_spec {E} self index (callback : E → Strategy (result unit R7zError * E)) env r self' env' :
  session_ok self → ArchiveReadSession_read_entry retries io_fuel io_sizes self index callback env = (r, self', env') →
  session_ok self' ∧
  (¬ session_next self ≤ index < as_count self →
     r = Err (InvalidOptions "read session requires increasing valid entry indexes") ∧ self' = self ∧ env' = env) ∧
  (r = Ok tt → session_next self ≤ index < as_count self ∧ ∃ file entry,
     fst (FileStreams_nth (as_files self) (Z.to_nat (index - session_next self))) = Ok (Some file) ∧
     ReadableEntry_from_file file = Some entry ∧
     same_archive (as_decoder self) (as_decoder self') ∧
     entry_served (as_decoder self') (re_content entry) (callback env) env').
Proof.
  intros [Hd Hf]. unfold ArchiveReadSession_read_entry, session_next.
  case_decide as Hi; [|by intros [= <- <- <-]].
  destruct (FileStreams_nth (as_files self) _) as [file files] eqn:En.
  destruct (FileStreams_nth_ok _ _ _ _ _ Hf En) as [Hf' He].
  destruct file as [[file|]|e]; cbn [ok_or]; [|intros [= <- <- <-]; split_and!; [by split|tauto|done]..].
  destruct (ReadableEntry_from_file file) as [entry|] eqn:Ee; cbn [ok_or];
    [|intros [= <- <- <-]; split_and!; [by split|tauto|done]].
  cbn [as_decoder as_count].
  destruct (EntryDecoder_read retries io_fuel io_sizes (as_decoder self) entry (λ _, callback) env) as [[res decoder] env1] eqn:Er.
  destruct (EntryDecoder_read_spec _ _ _ _ _ _ _ Hd (ReadableEntry_content_ok _ _ He Ee) Er) as (Hd' & Hsame & Hres).
  intros [= <- <- <-]. split_and!; [by split|tauto|]. intros ->. split; [done|].
  exists file, entry. split_and!; [done|done|done|apply Hres].
Qed.

End decoding.
