(* ===== verification/Archive.v ===== *)
(** * Archives (src/src/archive.rs)

    Opening an archive and reading from it: the header is found, verified and resolved,
    then entries are read one by one in a session, all together in a traversal, into
    memory, or into a directory. *)

From stdpp Require Import base numbers list option strings relations.
From Stdlib Require Import ZArith Lia.
From S2P Require Import Prelude Folder Error Operation Readers Resources PackInfo StreamInfo FilesInfo Aes DecoderPlan DecoderRun Entries FolderDecode FolderRead FolderBounds FileStreams Locations Headers ArchiveSource PackedSource ArchiveNames EntryReads.

(** ** Configurations *)

Record ArchiveReadConfig := {
  rc_options : ResourceLimits;
  rc_password : option (list Z);
  rc_control : option OperationControl
}.

Definition ArchiveReadConfig_new (options : ResourceLimits) : ArchiveReadConfig :=
  {| rc_options := options; rc_password := None; rc_control := None |}.
Definition ArchiveReadConfig_default : ArchiveReadConfig := ArchiveReadConfig_new ResourceLimits_default.
Definition ArchiveReadConfig_with_password (self : ArchiveReadConfig) (password : list Z) : ArchiveReadConfig :=
  {| rc_options := rc_options self; rc_password := Some password; rc_control := rc_control self |}.
Definition ArchiveReadConfig_with_control (self : ArchiveReadConfig) (control : OperationControl) :
    ArchiveReadConfig :=
  {| rc_options := rc_options self; rc_password := rc_password self; rc_control := Some control |}.
Definition ArchiveReadConfig_with_optional_password (self : ArchiveReadConfig)
    (password : option (list Z)) : ArchiveReadConfig :=
  {| rc_options := rc_options self; rc_password := password; rc_control := rc_control self |}.

(** ** Archives *)

(** [identity] is the address of the [Arc] that raw folders are tied to. *)
Record Archive := {
  ar_source : ArchiveSource;
  ar_identity : Z;
  ar_base_offset : Z;
  ar_signature : SignatureHeader;
  ar_encoded_header : option EncodedHeader;
  ar_header : Header
}.

(** [usize::try_from(...).unwrap_or(0)]. *)
Definition Archive_num_files (self : Archive) : Z := default 0 (usize_try_from (hd_num_files (ar_header self))).

Section archive.
  Context `{Nom} `{Crc32} `{LzmaMemory} `{Decoders} `{BlockCipher} `{Sha256} `{BytesLayout}.
  (** Retries of interrupted reads, rounds and buffer lengths of the copies. *)
  Context (retries io_fuel : nat) (io_sizes : nat → Z) (copy_sizes : nat → N).
  (** Where the allocator places a buffer. *)
  Context (address : bytes → Z).

Definition place (b : bytes) : slice := Slice (address b) b.

(** ** Opening *)

Definition decode_metadata_folder (packs : PackedSource) (folder : FolderLayout)
    (password : option (list Z)) (metadata_limit : Z) (budget : OperationBudget) :
    result DecodedFolder R7zError * OperationBudget :=
  do? (ready, budget) := FolderLayout_bind folder (PackedSource_reader packs) budget in
  ReadyFolder_collect retries io_fuel io_sizes ready password metadata_limit budget.

Definition verify_additional_stream_crcs (source : ArchiveSource) (base_offset : Z) (header : Header) :
    result unit R7zError :=
  let? pack_info := fst (Header_additional_pack_info header) in
  match pack_info with
  | Some pack_info => verify_additional_pack_crcs source base_offset pack_info
  | None => Ok tt
  end.

Definition decode_additional_folder_data (source : ArchiveSource) (base_offset : Z)
    (streams : StreamInfo) (budget : OperationBudget) (password : option (list Z)) :
    result (list bytes) R7zError * OperationBudget :=
  do? (plan, budget) := ExternalFolderPlan_new streams budget in
  match PackedSource_new source base_offset (FolderLayouts_pack_pos (ef_folders plan)) with
  | Err e => (Err e, budget)
  | Ok packs =>
      ExternalFolderPlan_decode retries io_fuel io_sizes (PackedSource_reader packs) password
        (plans_fuel (fp_unpack_info (fls_plans (ef_folders plan)))) plan budget
  end.

Definition parse_header_with_external_data (source : ArchiveSource) (base_offset : Z) (b : bytes)
    (budget : OperationBudget) (password : option (list Z)) : result Header R7zError * OperationBudget :=
  match charge_metadata budget (zlen b) with
  | Err e => (Err e, budget)
  | Ok budget =>
      match Header_resolve_archive (place b) with
      | Err e => (Err e, budget)
      | Ok (ResolvedComplete header) =>
          (let? _ := verify_additional_stream_crcs source base_offset header in Ok header, budget)
      | Ok (RequiresExternalFolders pending) =>
          let '(external, budget) :=
            decode_additional_folder_data source base_offset (ph_additional pending) budget password in
          (PendingHeader_resolve_with pending (λ _, result_map (map place) external), budget)
      end
  end.

Definition decode_encoded_header (source : ArchiveSource) (base_offset : Z) (encoded : EncodedHeader)
    (password : option (list Z)) (budget : OperationBudget) : result Header R7zError * OperationBudget :=
  match map_err (map_metadata_error budget) (EncodedHeader_folder encoded (metadata_remaining budget)) with
  | Err e => (Err e, budget)
  | Ok folder =>
      match PackedSource_new source base_offset (pack_pos (eh_pack_info encoded)) with
      | Err e => (Err e, budget)
      | Ok packs =>
          match decode_metadata_folder packs folder password (metadata_remaining budget) budget with
          | (Err e, budget) => (Err (map_metadata_error budget e), budget)
          | (Ok decoded, budget) =>
              parse_header_with_external_data source base_offset (dec_bytes decoded) budget password
          end
      end
  end.

(** [identity] is a fresh address. *)
Definition Archive_from_source_with_budget (source : ArchiveSource) (identity : Z)
    (password : option (list Z)) (options : ResourceLimits) (budget : OperationBudget) :
    result Archive R7zError :=
  let? source_len := ArchiveSource_len source in
  let? (base_offset, signature) := ArchiveSource_find_signature source (max_signature_scan_bytes options) in
  if decide (max_metadata_bytes options < sh_next_header_size signature)
  then Err (ResourceLimitExceeded "metadata" (max_metadata_bytes options)) else
  let? after_signature := checked_add_u64 base_offset 32 in
  let? header_start := checked_add_u64 after_signature (sh_next_header_offset signature) in
  let? header_range := checked_range_u64 source_len header_start (sh_next_header_size signature) in
  let? next_header := ArchiveSource_read_range_to_vec source header_range (max_metadata_bytes options) in
  if decide (crc32 next_header ≠ sh_next_header_crc signature) then Err Crc else
  let? next := NextHeader_parse (place next_header) in
  let? (header, encoded_header) :=
    match next with
    | Plain =>
        let? header := fst (parse_header_with_external_data source base_offset next_header budget password) in
        Ok (header, None)
    | Encoded encoded =>
        let? budget := charge_metadata budget (zlen next_header) in
        let? header := fst (decode_encoded_header source base_offset encoded password budget) in
        Ok (header, Some encoded)
    end in
  Ok {| ar_source := source; ar_identity := identity; ar_base_offset := base_offset;
        ar_signature := signature; ar_encoded_header := encoded_header; ar_header := header |}.

Definition Archive_from_source_with_password (source : ArchiveSource) (identity : Z)
    (password : option (list Z)) (options : ResourceLimits) : result Archive R7zError :=
  Archive_from_source_with_budget source identity password options (OperationBudget_new options).

Definition Archive_from_bytes_with_password (data : bytes) (identity : Z) (password : option (list Z)) :
    result Archive R7zError :=
  Archive_from_source_with_password (ArchiveSource_from_bytes data) identity password ResourceLimits_default.

Definition Archive_from_reader_with_password_and_options (reader : bytes) (identity : Z)
    (password : option (list Z)) (options : ResourceLimits) : result Archive R7zError :=
  Archive_from_source_with_password (ArchiveSource_from_reader reader) identity password options.

(** ** Sections and entries

    The cells of the header only keep what the first access computed, so accesses
    through a shared reference are modelled by their results. *)

Definition Archive_try_files_info (self : Archive) : result (option FilesInfo) R7zError :=
  fst (Header_try_files_info (ar_header self)).
Definition Archive_try_streams_info (self : Archive) : result (option StreamInfo) R7zError :=
  fst (Header_try_streams_info (ar_header self)).
Definition Archive_files_info (self : Archive) : option FilesInfo := fst (Header_files_info (ar_header self)).

Definition Archive_entry (self : Archive) (index : Z) : option ArchiveEntryInfo :=
  ArchiveEntryInfo_from_entry <$> fst (Entries_nth (Entries_new (Archive_files_info self) (Archive_num_files self)) (Z.to_nat index)).

(** All items of [Archive::entries]. *)
Definition Archive_entries (self : Archive) : list ArchiveEntryInfo :=
  map ArchiveEntryInfo_from_entry
    (Entries_collect (Z.to_nat (Archive_num_files self)) (Entries_new (Archive_files_info self) (Archive_num_files self))).

Definition Archive_safe_name (self : Archive) (index : Z) : result (list (list Z)) R7zError :=
  let? entry := ok_or (Archive_entry self index) Parse in safe_archive_name (ai_name entry).
Definition Archive_enclosed_name (self : Archive) (index : Z) : option (list (list Z)) :=
  result_ok (Archive_safe_name self index).

Definition Archive_entry_index_by_name (self : Archive) (name : list Z) : result Z R7zError :=
  match List.find (λ entry, bool_decide (ai_name entry = name)) (Archive_entries self) with
  | Some entry => Ok (ai_index entry)
  | None =>
      match result_ok (safe_archive_name name) with
      | Some requested =>
          match List.find (λ entry, bool_decide (ai_safe_name entry = Some requested)) (Archive_entries self) with
          | Some entry => Ok (ai_index entry)
          | None => Err (EntryNotFound name)
          end
      | None => Err (EntryNotFound name)
      end
  end.

(** ** Reading *)

Definition Archive_file_streams (self : Archive) : result FileStreams R7zError :=
  let? files := Archive_try_files_info self in
  let? streams := Archive_try_streams_info self in
  FileStreams_new files (Archive_num_files self) streams.

(** The decoder of a new read operation. *)
Definition Archive_decoder (self : Archive) (files : FileStreams) (mode : CompletionMode)
    (config : ArchiveReadConfig) : result EntryDecoder R7zError :=
  let? packs := PackedSource_new (ar_source self) (ar_base_offset self) (fi_pack_pos files) in
  Ok {| ed_verification := CompleteFolders; ed_source := packs; ed_current := None;
        ed_password := rc_password config; ed_mode := mode;
        ed_budget := with_control (OperationBudget_new (rc_options config)) (rc_control config) |}.

Definition Archive_read_session_with_options (self : Archive) (config : ArchiveReadConfig) :
    result ArchiveReadSession R7zError :=
  let? files := Archive_file_streams self in
  let? decoder := Archive_decoder self files SelectedStreams config in
  Ok {| as_files := files; as_decoder := decoder; as_count := Archive_num_files self |}.

Definition Archive_extract_to_writer_with_options {W} `{Writer W} (self : Archive) (file_index : Z)
    (writer : W) (config : ArchiveReadConfig) : result Z R7zError * W :=
  match (let? files := Archive_try_files_info self in
         ok_or (fst (Entries_nth (Entries_new files (Archive_num_files self)) (Z.to_nat file_index))) Parse) with
  | Err e => (Err e, writer)
  | Ok entry =>
      match en_kind entry with
      | K_Directory | K_Anti => (Err Directory, writer)
      | K_EmptyFile | K_EmptySymlink => (Ok 0, writer)
      | K_File _ | K_Symlink _ =>
          match Archive_read_session_with_options self config with
          | Err e => (Err e, writer)
          | Ok session =>
              match ArchiveReadSession_extract_to_writer retries io_fuel io_sizes copy_sizes session file_index writer with
              | (Err e, _, writer) => (Err e, writer)
              | (Ok written, session, writer) =>
                  (let? _ := fst (ArchiveReadSession_finish io_fuel io_sizes session) in Ok written, writer)
              end
          end
      end
  end.

Definition Archive_extract_to_memory_with_options (self : Archive) (file_index : Z)
    (config : ArchiveReadConfig) : result bytes R7zError :=
  let '(res, output) :=
    Archive_extract_to_writer_with_options self file_index
      (LimitedOutput_new (max_retained_output_bytes (rc_options config))) config in
  if ro_exceeded output then Err (LimitedOutput_limit_error output) else
  let? _ := res in Ok (ro_bytes output).

Definition Archive_extract_to_memory_by_name_with_options (self : Archive) (name : list Z)
    (config : ArchiveReadConfig) : result bytes R7zError :=
  let? index := Archive_entry_index_by_name self name in
  Archive_extract_to_memory_with_options self index config.

Definition Archive_extract_by_name_with_options {W} `{Writer W} (self : Archive) (name : list Z)
    (writer : W) (config : ArchiveReadConfig) : result Z R7zError * W :=
  match Archive_entry_index_by_name self name with
  | Err e => (Err e, writer)
  | Ok index => Archive_extract_to_writer_with_options self index writer config
  end.

(** The state of a traversal's callbacks is [E]. *)
Definition EntryCallback (E : Type) : Type := ArchiveEntryInfo → E → Strategy (result unit R7zError * E).

(** One file of a traversal: entries without content are passed over. *)
Definition serve_file {E} (decoder : EntryDecoder) (file : Entry StreamLocation)
    (callback : EntryCallback E) (env : E) : result unit R7zError * EntryDecoder * E :=
  match ReadableEntry_from_file file with
  | None => (Ok tt, decoder, env)
  | Some entry => EntryDecoder_read retries io_fuel io_sizes decoder entry callback env
  end.

(** [map_all] collected into a result: up to the first error. *)
Fixpoint serve_all {E} (fuel : nat) (files : FileStreams) (decoder : EntryDecoder)
    (callback : EntryCallback E) (env : E) : result unit R7zError * EntryDecoder * E :=
  match fuel with
  | O => (Err R7zOutOfFuel, decoder, env)
  | S fuel =>
      match FileStreams_next files with
      | (Err e, _) => (Err e, decoder, env)
      | (Ok None, _) => (Ok tt, decoder, env)
      | (Ok (Some file), files) =>
          match serve_file decoder file callback env with
          | (Err e, decoder, env) => (Err e, decoder, env)
          | (Ok _, decoder, env) => serve_all fuel files decoder callback env
          end
      end
  end.

(** [map_selected] in the same way. *)
Fixpoint serve_selected {E} (fuel : nat) (files : FileStreams) (selection : EntrySelection)
    (decoder : EntryDecoder) (callback : EntryCallback E) (env : E) :
    result unit R7zError * EntryDecoder * E :=
  match fuel with
  | O => (Err R7zOutOfFuel, decoder, env)
  | S fuel =>
      match EntrySelection_next selection with
      | (None, _) => (Ok tt, decoder, env)
      | (Some index, selection) =>
          match map_selected_item files index with
          | (Err e, _) => (Err e, decoder, env)
          | (Ok file, files) =>
              match serve_file decoder file callback env with
              | (Err e, decoder, env) => (Err e, decoder, env)
              | (Ok _, decoder, env) => serve_selected fuel files selection decoder callback env
              end
          end
      end
  end.

Definition Archive_stream_entry_selection {E} (self : Archive) (selected : EntrySelection)
    (mode : CompletionMode) (config : ArchiveReadConfig) (callback : EntryCallback E) (env : E) :
    result unit R7zError * E :=
  match (let? files := Archive_file_streams self in
         let? decoder := Archive_decoder self files mode config in Ok (files, decoder)) with
  | Err e => (Err e, env)
  | Ok (files, decoder) =>
      let fuel := S (Z.to_nat (Archive_num_files self)) in
      let '(res, decoder, env) :=
        match selected with
        | Sel_All _ _ => serve_all fuel files decoder callback env
        | selection => serve_selected fuel files selection decoder callback env
        end in
      (let? _ := res in result_map (λ _, tt) (fst (EntryDecoder_finish io_fuel io_sizes decoder)), env)
  end.

Definition Archive_stream_files_impl {E} (self : Archive) (indices : option (list Z))
    (config : ArchiveReadConfig) (callback : EntryCallback E) (env : E) : result unit R7zError * E :=
  match EntrySelection_new indices (Archive_num_files self) with
  | Err e => (Err e, env)
  | Ok Sel_Empty => (Ok tt, env)
  | Ok (Sel_All start end_) =>
      Archive_stream_entry_selection self (Sel_All start end_) WholeFolder config callback env
  | Ok selected => Archive_stream_entry_selection self selected SelectedStreams config callback env
  end.

Definition Archive_stream_files_with_options {E} (self : Archive) (config : ArchiveReadConfig)
    (callback : EntryCallback E) (env : E) : result unit R7zError * E :=
  Archive_stream_files_impl self None config callback env.

Definition Archive_stream_selected_files_with_options {E} (self : Archive) (indices : list Z)
    (config : ArchiveReadConfig) (callback : EntryCallback E) (env : E) : result unit R7zError * E :=
  Archive_stream_files_impl self (Some indices) config callback env.

End archive.

(** ** Specification *)

(** The bytes of the stream at a location, as its folder's decoder gave them from the
    packed streams of the archive: the slice at the stream's range, of the stream's size
    and with its digest. *)
Definition stream_read `{Nom} `{Crc32} `{LzmaMemory} `{Decoders} `{BlockCipher} `{Sha256} (retries : nat)
    (packs : PackedSource) (password : option (list Z)) (loc : StreamLocation) (b : bytes) : Prop :=
  ∃ active ss data, reading retries packs password (loc_folder loc) active ss data ∧ holds_stream loc data b.

(** The same, after the folder was completed: all of it has the size and the digest the
    archive declares; only a folder without a digest may be left after the streams that
    were asked for. *)
Definition stream_verified `{Nom} `{Crc32} `{LzmaMemory} `{Decoders} `{BlockCipher} `{Sha256} (retries : nat)
    (packs : PackedSource) (password : option (list Z)) (mode : CompletionMode) (loc : StreamLocation)
    (b : bytes) : Prop :=
  ∃ active ss data, reading retries packs password (loc_folder loc) active ss data ∧ holds_stream loc data b ∧
    (whole_folder retries packs password (loc_folder loc) data ∨
     (mode = SelectedStreams ∧ lo_crc (loc_folder loc) = None)).

(** A verified stream of an archive, read with a configuration. *)
Definition archive_stream `{Nom} `{Crc32} `{LzmaMemory} `{Decoders} `{BlockCipher} `{Sha256} (retries : nat)
    (self : Archive) (config : ArchiveReadConfig) (mode : CompletionMode) (loc : StreamLocation) (b : bytes) : Prop :=
  ∃ fs packs, Archive_file_streams self = Ok fs ∧
    PackedSource_new (ar_source self) (ar_base_offset self) (fi_pack_pos fs) = Ok packs ∧
    stream_verified retries packs (rc_password config) mode loc b.

(** What a callback was given of an entry's content. *)
Definition content_given {E} (verified : StreamLocation → bytes → Prop) (content : EntryContent)
    (consume : Strategy (result unit R7zError * E)) (env' : E) : Prop :=
  match content with
  | ContentEmpty => saw consume [] (Ok tt, env')
  | ContentStream loc => ∃ seen rest, verified loc (seen ++ rest) ∧ saw consume seen (Ok tt, env') ∧
      (reads_all consume → rest = [])
  end.

(** The callbacks of a traversal, one after the other over the files with content. *)
Inductive files_given {E} (verified : StreamLocation → bytes → Prop) (callback : EntryCallback E) :
    list (Entry StreamLocation) → E → E → Prop :=
| given_nil env : files_given verified callback [] env env
| given_none file files env env' :
    ReadableEntry_from_file file = None → files_given verified callback files env env' →
    files_given verified callback (file :: files) env env'
| given_some file entry files env env1 env' :
    ReadableEntry_from_file file = Some entry →
    content_given verified (re_content entry) (callback (re_info entry) env) env1 →
    files_given verified callback files env1 env' →
    files_given verified callback (file :: files) env env'.

(** The files a traversal goes through. *)
Definition traversed `{Nom} (self : Archive) (indices : option (list Z)) (files : list (Entry StreamLocation)) : Prop :=
  match indices with
  | None => ∃ fs, Archive_file_streams self = Ok fs ∧
      FileStreams_map_all (S (Z.to_nat (Archive_num_files self))) fs = Ok files
  | Some [] => files = []
  | Some indices => ∃ fs sel, Archive_file_streams self = Ok fs ∧
      EntrySelection_new (Some indices) (Archive_num_files self) = Ok sel ∧
      FileStreams_map_selected (S (Z.to_nat (Archive_num_files self))) fs sel = Ok files
  end.

(** The size fields of the stream descriptors are 64-bit integers. *)
Definition sizes_u64 (streams : option StreamInfo) : Prop :=
  ∀ s pack unpack, streams = Some s → si_pack_info s = Some pack → si_unpack_info s = Some unpack →
    Forall is_u64 (pack_size pack) ∧ Forall is_u64 (unpack_sizes unpack).

(** ** Lemmas: traversals *)

Definition no_plans : FolderPlans :=
  FolderPlans_new {| pack_pos := 0; num_pack_streams := 0; pack_size := []; pack_digests := [] |}
    {| num_folders := 0; folder_data := Slice 0 []; folder_offsets := []; unpack_sizes := []; unpack_digests := [] |}
    None.

Lemma plans_new_sized pack unpack sub :
  Forall is_u64 (pack_size pack) → Forall is_u64 (unpack_sizes unpack) → plans_sized (FolderPlans_new pack unpack sub).
Proof. by split. Qed.

Section lemmas.
  Context `{Nom} `{Crc32} `{LzmaMemory} `{Decoders} `{BlockCipher} `{Sha256}.
  Context (retries io_fuel : nat) (io_sizes : nat → Z) (Hsizes : ∀ k, 0 < io_sizes k).
  Context (Hdec : decoders_bounded).

Lemma file_streams_plans self fs :
  Archive_file_streams self = Ok fs → (∀ streams, Archive_try_streams_info self = Ok streams → sizes_u64 streams) →
  ∃ plans, plans_sized plans ∧ locations_ok plans (fi_streams fs).
Proof.
  unfold Archive_file_streams. destruct (Archive_try_files_info self) as [files|]; [|done].
  destruct (Archive_try_streams_info self) as [streams|]; [|done]. intros Hnew Hu. specialize (Hu _ eq_refl).
  exists (default no_plans (traversal_plans streams)). split.
  - unfold traversal_plans. destruct streams as [s|]; [|by apply plans_new_sized].
    destruct (si_unpack_info s) as [u|] eqn:Eu; [|by apply plans_new_sized].
    unfold FolderLayouts_for_streams, StreamInfo_packed_folders. rewrite Eu.
    destruct (si_pack_info s) as [p|] eqn:Ep; [|by apply plans_new_sized].
    destruct (decide _); [by apply plans_new_sized|].
    destruct (substream_count _ _); [|by apply plans_new_sized].
    cbn. destruct (Hu s p u eq_refl Ep Eu). by apply plans_new_sized.
  - eapply FileStreams_new_ok; [exact Hnew|]. by intros p ->.
Qed.

Context (plans : FolderPlans) (Hplans : plans_sized plans).
Abbreviation dec_ok := (decoder_ok retries plans).

(** What was read stays read: in the current folder or in a completed one. *)
Definition read_in (self : EntryDecoder) (loc : StreamLocation) (b : bytes) : Prop :=
  pending retries self loc b ∨ settled retries self loc b.

Definition keeps (self self' : EntryDecoder) : Prop :=
  dec_ok self' ∧ same_archive self self' ∧ ∀ loc b, read_in self loc b → read_in self' loc b.

Lemma keeps_refl self : dec_ok self → keeps self self.
Proof. by intros. Qed.

Lemma same_archive_trans a b c : same_archive a b → same_archive b c → same_archive a c.
Proof. intros (? & ? & ? & ?) (? & ? & ? & ?). split_and!; [congruence..|auto]. Qed.

Lemma keeps_trans a b c : keeps a b → keeps b c → keeps a c.
Proof.
  intros (_ & Hs1 & Hk1) (Hd & Hs2 & Hk2). split_and!; [done|by eapply same_archive_trans|auto].
Qed.

Lemma serve_file_spec {E} self file (callback : EntryCallback E) env self' env' :
  dec_ok self → entry_ok plans file →
  serve_file retries io_fuel io_sizes self file callback env = (Ok tt, self', env') →
  keeps self self' ∧
  match ReadableEntry_from_file file with
  | None => env' = env
  | Some entry => content_given (read_in self') (re_content entry) (callback (re_info entry) env) env'
  end.
Proof.
  intros Hok He. unfold serve_file. destruct (ReadableEntry_from_file file) as [entry|] eqn:Ee.
  2:{ intros [= <- <-]. split; [by apply keeps_refl|done]. }
  intros Hr. pose proof (ReadableEntry_content_ok _ _ _ He Ee) as Hc.
  destruct (EntryDecoder_read_spec _ _ _ Hsizes Hdec _ Hplans _ _ _ _ _ _ _ Hok Hc Hr) as (Hok' & Hsame & Hserved & Hkept).
  split; [|exact Hserved]. split_and!; [done|done|]. intros loc b [Hp|Hs].
  - destruct (Hkept _ _ Hp); [by right|by left].
  - right. by eapply settled_same.
Qed.

Lemma content_given_mono {E} (P Q : StreamLocation → bytes → Prop) content (consume : Strategy (result unit R7zError * E)) env :
  (∀ loc b, P loc b → Q loc b) → content_given P content consume env → content_given Q content consume env.
Proof. intros HPQ. destruct content; cbn; [done|]. intros (seen & rest & Hp & ?). exists seen, rest. auto. Qed.

Lemma files_given_mono {E} (P Q : StreamLocation → bytes → Prop) (callback : EntryCallback E) files env env' :
  (∀ loc b, P loc b → Q loc b) → files_given P callback files env env' → files_given Q callback files env env'.
Proof.
  intros HPQ. induction 1 as [|file files env env' Hn _ IH|file entry files env env1 env' Hs Hc _ IH].
  - constructor.
  - by apply given_none.
  - eapply given_some; [done| |done]. by eapply content_given_mono.
Qed.

(** One more file. *)
Lemma given_file {E} self self1 file (callback : EntryCallback E) files env env1 env' :
  keeps self1 self →
  match ReadableEntry_from_file file with
  | None => env1 = env
  | Some entry => content_given (read_in self1) (re_content entry) (callback (re_info entry) env) env1
  end →
  files_given (read_in self) callback files env1 env' → files_given (read_in self) callback (file :: files) env env'.
Proof.
  intros (_ & _ & Hk) Hf Hrest. destruct (ReadableEntry_from_file file) as [entry|] eqn:Ee.
  - eapply given_some; [exact Ee| |exact Hrest]. by eapply content_given_mono.
  - subst env1. by eapply given_none.
Qed.

Lemma serve_all_spec {E} fuel files self (callback : EntryCallback E) env self' env' :
  dec_ok self → locations_ok plans (fi_streams files) →
  serve_all retries io_fuel io_sizes fuel files self callback env = (Ok tt, self', env') →
  keeps self self' ∧ ∃ items, FileStreams_map_all fuel files = Ok items ∧
    files_given (read_in self') callback items env env'.
Proof.
  revert files self env. induction fuel as [|fuel IH]; intros files self env Hok Hl; cbn [serve_all FileStreams_map_all]; [done|].
  destruct (FileStreams_next files) as [[[file|]|e] files'] eqn:En; [| |done].
  2:{ intros [= <- <-]. split; [by apply keeps_refl|]. exists []. split; [done|constructor]. }
  destruct (FileStreams_next_ok _ _ _ _ Hl En) as [Hl' He].
  destruct (serve_file _ _ _ self file callback env) as [[[[]|e] self1] env1] eqn:Es; [|done].
  destruct (serve_file_spec _ _ _ _ _ _ Hok He Es) as [Hk Hf].
  intros Hr. destruct (IH _ _ _ (proj1 Hk) Hl' Hr) as (Hk' & items & -> & Hg).
  split; [by eapply keeps_trans|]. exists (file :: items). split; [done|]. by eapply given_file.
Qed.

Lemma map_selected_item_ok files index r files' :
  locations_ok plans (fi_streams files) → map_selected_item files index = (r, files') →
  locations_ok plans (fi_streams files') ∧ match r with Ok e => entry_ok plans e | Err _ => True end.
Proof.
  intros Hl. unfold map_selected_item. destruct (checked_sub _ _) as [skip|]; [|by intros [= <- <-]].
  destruct (FileStreams_nth files _) as [file files1] eqn:En.
  destruct (FileStreams_nth_ok _ _ _ _ _ Hl En) as [Hl' He]. intros [= <- <-]. split; [done|].
  by destruct file as [[file|]|].
Qed.

Lemma serve_selected_spec {E} fuel files selection self (callback : EntryCallback E) env self' env' :
  dec_ok self → locations_ok plans (fi_streams files) →
  serve_selected retries io_fuel io_sizes fuel files selection self callback env = (Ok tt, self', env') →
  keeps self self' ∧ ∃ items, FileStreams_map_selected fuel files selection = Ok items ∧
    files_given (read_in self') callback items env env'.
Proof.
  revert files selection self env. induction fuel as [|fuel IH]; intros files selection self env Hok Hl;
    cbn [serve_selected FileStreams_map_selected]; [done|].
  destruct (EntrySelection_next selection) as [[index|] selection'].
  2:{ intros [= <- <-]. split; [by apply keeps_refl|]. exists []. split; [done|constructor]. }
  destruct (map_selected_item files index) as [[file|e] files'] eqn:En; [|done].
  destruct (map_selected_item_ok _ _ _ _ Hl En) as [Hl' He].
  destruct (serve_file _ _ _ self file callback env) as [[[[]|e] self1] env1] eqn:Es; [|done].
  destruct (serve_file_spec _ _ _ _ _ _ Hok He Es) as [Hk Hf].
  intros Hr. destruct (IH _ _ _ _ (proj1 Hk) Hl' Hr) as (Hk' & items & -> & Hg).
  split; [by eapply keeps_trans|]. exists (file :: items). split; [done|]. by eapply given_file.
Qed.

(** The decoder of a new operation. *)
Lemma new_decoder_ok self files mode config decoder :
  limits_ok (rc_options config) → Archive_decoder self files mode config = Ok decoder → dec_ok decoder.
Proof.
  intros Hl. unfold Archive_decoder. destruct (PackedSource_new _ _ _); [|done]. intros [= <-].
  split; [|done]. cbn. by apply set_monitor_ok, budget_new_ok.
Qed.

Lemma settled_verified self loc b :
  settled retries self loc b → stream_verified retries (ed_source self) (ed_password self) (ed_mode self) loc b.
Proof.
  intros (active & ss & data & Hr & Hh & Hw). exists active, ss, data. split_and!; [done|done|].
  destruct Hw as [Hw|(? & ? & _)]; auto.
Qed.

(** A traversal that succeeded, after its last folder was completed. *)
Lemma finish_given {E} self decoder (callback : EntryCallback E) items env env' v decoder' files config mode first :
  Archive_file_streams self = Ok files → Archive_decoder self files mode config = Ok first →
  same_archive first decoder → dec_ok decoder →
  files_given (read_in decoder) callback items env env' →
  EntryDecoder_finish io_fuel io_sizes decoder = (Ok v, decoder') →
  files_given (archive_stream retries self config mode) callback items env env'.
Proof.
  intros Hfs Hdecoder Hsame Hok Hg Hf.
  destruct (EntryDecoder_finish_spec _ _ _ Hsizes _ _ _ _ Hok Hf) as (_ & _ & Hsame' & Hv).
  destruct (Hv _ eq_refl) as [_ Hset]. pose proof (same_archive_trans _ _ _ Hsame Hsame') as (Hsrc & Hpw & Hm & _).
  unfold Archive_decoder in Hdecoder. destruct (PackedSource_new _ _ _) as [packs|] eqn:Ep; [|done].
  injection Hdecoder as <-. cbn in Hsrc, Hpw, Hm.
  eapply files_given_mono; [|exact Hg]. intros loc b Hr. exists files, packs. split_and!; [done|done|].
  rewrite <- Hsrc, <- Hpw, <- Hm. apply settled_verified.
  destruct Hr as [Hp|Hs]; [by apply Hset|by eapply settled_same].
Qed.

End lemmas.

(** A traversal over a selection. *)
Lemma stream_selection_spec `{Nom} `{Crc32} `{LzmaMemory} `{Decoders} `{BlockCipher} `{Sha256} {E}
    retries io_fuel io_sizes self selected mode config (callback : EntryCallback E) env env' :
  (∀ k, 0 < io_sizes k) → decoders_bounded → limits_ok (rc_options config) →
  (∀ streams, Archive_try_streams_info self = Ok streams → sizes_u64 streams) →
  Archive_stream_entry_selection retries io_fuel io_sizes self selected mode config callback env = (Ok tt, env') →
  ∃ fs items, Archive_file_streams self = Ok fs ∧
    (let fuel := S (Z.to_nat (Archive_num_files self)) in
     match selected with
     | Sel_All _ _ => FileStreams_map_all fuel fs
     | selection => FileStreams_map_selected fuel fs selection
     end = Ok items) ∧
    files_given (archive_stream retries self config mode) callback items env env'.
Proof.
  intros Hsizes Hdec Hlim Hu. unfold Archive_stream_entry_selection.
  destruct (Archive_file_streams self) as [fs|] eqn:Efs; [|done].
  destruct (file_streams_plans _ _ Efs Hu) as (plans & Hplans & Hl).
  destruct (Archive_decoder self fs mode config) as [decoder|] eqn:Ed; [|done].
  pose proof (new_decoder_ok retries plans _ _ _ _ _ Hlim Ed) as Hok. cbv zeta.
  set (fuel := S (Z.to_nat (Archive_num_files self))).
  set (served := match selected with Sel_All _ _ => _ | _ => _ end).
  assert (∀ decoder1 env1, served = (Ok tt, decoder1, env1) → keeps retries plans decoder decoder1 ∧ ∃ items,
    match selected with Sel_All _ _ => FileStreams_map_all fuel fs
    | selection => FileStreams_map_selected fuel fs selection end = Ok items ∧
    files_given (read_in retries decoder1) callback items env env1) as Hserved.
  { intros decoder1 env1. unfold served.
    destruct selected; intros Hr; [eapply serve_selected_spec|eapply serve_all_spec|eapply serve_selected_spec]; done. }
  destruct served as [[[[]|e] decoder1] env1]; [|done].
  destruct (Hserved _ _ eq_refl) as ((Hok1 & Hsame & _) & items & Hitems & Hg).
  destruct (EntryDecoder_finish io_fuel io_sizes decoder1) as [[v|e] decoder2] eqn:Ef; intros [= <-].
  exists fs, items. split_and!; [done|done|]. by eapply finish_given.
Qed.

(** ** Lemmas: extraction *)

Lemma skip_entries_kind n ents e ents' :
  Entries_next (snd (skip_entries n ents)) = (Some e, ents') →
  en_kind e = Entries_kind ents (it_start ents + Z.of_nat n) ∧ it_start ents + Z.of_nat n < it_end ents.
Proof.
  revert ents. induction n as [|n IH]; intros ents; cbn [skip_entries].
  - cbn [snd]. unfold Entries_next, Entries_nth. case_decide; [|done].
    destruct (match it_names ents with None => _ | Some _ => _ end). intros [= <- _]. cbn. rewrite Z.add_0_r.
    split; [done|lia].
  - destruct (Entries_next ents) as [[e0|] ents1] eqn:En; unfold Entries_next, Entries_nth in En.
    + destruct (decide _) in En; [|done].
      destruct (match it_names ents with None => _ | Some _ => _ end). injection En as _ <-.
      specialize (IH {| it_files := it_files ents; it_start := it_start ents + 0 + 1; it_end := it_end ents; it_names := o0 |}).
      destruct (skip_entries n _) as [count ents2]. cbn [snd] in *. intros [Hk Hlt]%IH.
      cbn [it_start it_end] in *. rewrite Hk. split; [|lia].
      replace (it_start ents + 0 + 1 + Z.of_nat n) with (it_start ents + Z.of_nat (S n)) by lia. done.
    + destruct (decide _) as [|Hd] in En; [by destruct (match it_names ents with None => _ | Some _ => _ end)|].
      injection En as <-. cbn [snd]. unfold Entries_next, Entries_nth. cbn [it_start it_end].
      rewrite decide_False by lia. done.
Qed.

(** An entry of a traversal has the kind the entry list gives it. *)
Lemma nth_kind `{Nom} fs n file :
  fst (FileStreams_nth fs n) = Ok (Some file) →
  let index := it_start (fi_entries fs) + Z.of_nat n in
  index < it_end (fi_entries fs) ∧
  EntryKind_has_stream (en_kind file) = EntryKind_has_stream (Entries_kind (fi_entries fs) index) ∧
  (en_kind file = K_Directory ↔ Entries_kind (fi_entries fs) index = K_Directory) ∧
  (en_kind file = K_Anti ↔ Entries_kind (fi_entries fs) index = K_Anti).
Proof.
  unfold FileStreams_nth. destruct (skip_entries n (fi_entries fs)) as [count ents] eqn:Es.
  destruct (StreamLocations_advance_by (fi_streams fs) count) as [[[]|] streams]; [|done].
  unfold FileStreams_next. cbn [set_streams fi_entries fi_streams].
  pose proof (skip_entries_kind n (fi_entries fs)) as Hk. rewrite Es in Hk. cbn [snd] in Hk.
  destruct (Entries_next ents) as [[e|] ents']; [|by destruct (StreamLocations_finish streams)].
  destruct (Hk _ _ eq_refl) as [<- Hlt]. intros Hf. split; [done|].
  assert (∃ stream, Entry_bind e stream = Ok file) as [stream Hb].
  { destruct (EntryKind_has_stream (en_kind e)).
    - destruct (StreamLocations_nth streams 0) as [[loc|] streams']; [|done]. cbn in Hf.
      exists (λ _, Ok loc). by destruct (Entry_bind e _); [injection Hf as ->|].
    - exists (λ _, Err Parse). cbn in Hf. by destruct (Entry_bind e _); [injection Hf as ->|]. }
  clear -Hb. unfold Entry_bind in Hb.
  destruct (en_kind e) as [[]|[]| | | |]; cbn in Hb; try destruct (stream tt); try done; injection Hb as <-; cbn; done.
Qed.

Lemma file_streams_entries `{Nom} self fs :
  Archive_file_streams self = Ok fs →
  ∃ files, Archive_try_files_info self = Ok files ∧ fi_entries fs = Entries_new files (Archive_num_files self).
Proof.
  unfold Archive_file_streams. destruct (Archive_try_files_info self) as [files|]; [|done].
  destruct (Archive_try_streams_info self) as [streams|]; [|done]. intros Hnew. exists files. split; [done|].
  unfold FileStreams_new in Hnew.
  destruct (match streams with Some _ => _ | None => _ end) as [folders|]; [|done].
  destruct (decide _); [done|]. by injection Hnew as <-.
Qed.

Section extraction.
  Context `{Nom} `{Crc32} `{LzmaMemory} `{Decoders} `{BlockCipher} `{Sha256}.
  Context (retries io_fuel : nat) (io_sizes : nat → Z) (Hsizes : ∀ k, 0 < io_sizes k).
  Context (copy_sizes : nat → N) (Hcopy : ∀ k, (0 < copy_sizes k)%N) (Hdec : decoders_bounded).
  Context (plans : FolderPlans) (Hplans : plans_sized plans).

(** The callback of [extract_to_writer]. *)
Definition copying {W} `{Writer W} (env : Z * W) : Strategy (result unit R7zError * (Z * W)) :=
  let '(written, writer) := env in
  strategy_map (λ '(copied, w), match copied with Ok n => (Ok tt, (n, w)) | Err e => (Err e, (written, w)) end)
    (copy_entry io_fuel copy_sizes writer 0).

Lemma copying_reads_all {W} `{Writer W} (env : Z * W) : reads_all (copying env).
Proof.
  intros S HS s env' s' Hs. destruct env as [written w]. unfold copying. rewrite run_map.
  destruct (run_consumer (copy_entry io_fuel copy_sizes w 0) s) as [[[n|e] w1] s1] eqn:Er; cbn; [|done].
  intros [= _ <-]. eapply copy_reads_all; [exact Hcopy|exact Hs|exact Er].
Qed.

Lemma copying_saw {W} `{Writer W} (contents : W → bytes) written (w : W) seen n w' :
  appends contents → saw (copying (written, w)) seen (Ok tt, (n, w')) →
  contents w' = contents w ++ seen ∧ n = zlen seen ∧
  ∀ P : W → Prop, (∀ w b r w', write_all w b = (r, w') → P w → P w') → P w → P w'.
Proof.
  intros Happ ([r0 w0] & Hs & Heq)%saw_map. destruct r0 as [m|e]; [|done]. injection Heq as -> ->.
  destruct (copy_saw _ Happ _ _ _ _ _ _ _ Hs) as [Hc Hn]. split_and!; [done|lia|].
  intros P HP. eapply copy_keeps; [exact HP|exact Hs].
Qed.

(** An entry copied to a writer. *)
Lemma extract_to_writer_spec {W} `{Writer W} (contents : W → bytes) self index (w : W) n self' w' :
  appends contents → session_ok retries plans self →
  ArchiveReadSession_extract_to_writer retries io_fuel io_sizes copy_sizes self index w = (Ok n, self', w') →
  session_ok retries plans self' ∧ same_archive (as_decoder self) (as_decoder self') ∧
  ∃ file entry d,
    fst (FileStreams_nth (as_files self) (Z.to_nat (index - session_next self))) = Ok (Some file) ∧
    ReadableEntry_from_file file = Some entry ∧ contents w' = contents w ++ d ∧ n = zlen d ∧
    match re_content entry with
    | ContentEmpty => d = []
    | ContentStream loc => read_in retries (as_decoder self') loc d
    end ∧
    ∀ P : W → Prop, (∀ w b r w', write_all w b = (r, w') → P w → P w') → P w → P w'.
Proof.
  intros Happ Hok. unfold ArchiveReadSession_extract_to_writer.
  destruct (ArchiveReadSession_read_entry _ _ _ self index _ (0, w)) as [[res s1] [m w1]] eqn:Er.
  destruct res as [[]|e]; [|done]. cbn. intros [= <- <- <-].
  destruct (read_entry_spec retries io_fuel io_sizes Hsizes Hdec plans Hplans _ _ _ _ _ _ _ Hok Er)
    as (Hok' & _ & Hres). destruct (Hres eq_refl) as (_ & file & entry & Hf & He & Hsame & Hserved).
  split_and!; [done|done|]. exists file, entry. unfold entry_served in Hserved.
  change (saw _) with (saw (copying (0, w))) in Hserved.
  destruct (re_content entry) as [|loc].
  - destruct (copying_saw _ _ _ _ _ _ Happ Hserved) as (Hc & Hn & HP). exists []. by split_and!.
  - destruct Hserved as (seen & rest & Hr & Hsaw & Hall). rewrite Hall, app_nil_r in Hr by apply (copying_reads_all (0, w)).
    destruct (copying_saw _ _ _ _ _ _ Happ Hsaw) as (Hc & Hn & HP). exists seen. by split_and!.
Qed.

End extraction.

Lemma session_start `{Nom} `{Crc32} `{LzmaMemory} `{Decoders} `{BlockCipher} `{Sha256} retries self config session :
  limits_ok (rc_options config) →
  (∀ streams, Archive_try_streams_info self = Ok streams → sizes_u64 streams) →
  Archive_read_session_with_options self config = Ok session →
  ∃ plans packs, plans_sized plans ∧ session_ok retries plans session ∧ session_next session = 0 ∧
    as_count session = Archive_num_files self ∧ Archive_file_streams self = Ok (as_files session) ∧
    PackedSource_new (ar_source self) (ar_base_offset self) (fi_pack_pos (as_files session)) = Ok packs ∧
    ed_source (as_decoder session) = packs ∧ ed_password (as_decoder session) = rc_password config ∧
    ed_mode (as_decoder session) = SelectedStreams.
Proof.
  intros Hlim Hu. unfold Archive_read_session_with_options.
  destruct (Archive_file_streams self) as [fs|] eqn:Efs; [|done].
  destruct (Archive_decoder self fs SelectedStreams config) as [decoder|] eqn:Ed; [|done]. intros [= <-].
  destruct (file_streams_plans _ _ Efs Hu) as (plans & Hplans & Hl).
  pose proof (new_decoder_ok retries plans _ _ _ _ _ Hlim Ed) as Hok.
  destruct (file_streams_entries _ _ Efs) as (files & _ & He).
  unfold Archive_decoder in Ed. destruct (PackedSource_new _ _ _) as [packs|] eqn:Ep; [|done]. injection Ed as <-.
  exists plans, packs. split_and!; try done.
  unfold session_next, FileStreams_len. cbn [as_count as_files]. rewrite He. cbn. lia.
Qed.

(** An entry of an archive copied to a writer. *)
Lemma extract_with_options_spec `{Nom} `{Crc32} `{LzmaMemory} `{Decoders} `{BlockCipher} `{Sha256} {W} `{Writer W}
    retries io_fuel io_sizes copy_sizes (contents : W → bytes) self index config (w : W) n w' :
  (∀ k, 0 < io_sizes k) → (∀ k, (0 < copy_sizes k)%N) → decoders_bounded → limits_ok (rc_options config) →
  (∀ streams, Archive_try_streams_info self = Ok streams → sizes_u64 streams) → 0 ≤ index → appends contents →
  Archive_extract_to_writer_with_options retries io_fuel io_sizes copy_sizes self index w config = (Ok n, w') →
  ∃ files entry d, Archive_try_files_info self = Ok files ∧
    fst (Entries_nth (Entries_new files (Archive_num_files self)) (Z.to_nat index)) = Some entry ∧
    match en_kind entry with
    | K_Directory | K_Anti => False
    | K_EmptyFile | K_EmptySymlink => d = []
    | K_File _ | K_Symlink _ => ∃ fs file loc, Archive_file_streams self = Ok fs ∧
        fst (FileStreams_nth fs (Z.to_nat index)) = Ok (Some file) ∧
        (en_kind file = K_File loc ∨ en_kind file = K_Symlink loc) ∧
        archive_stream retries self config SelectedStreams loc d
    end ∧ contents w' = contents w ++ d ∧ n = zlen d ∧
    ∀ P : W → Prop, (∀ w b r w', write_all w b = (r, w') → P w → P w') → P w → P w'.
Proof.
  intros Hsizes Hcopy Hdec Hlim Hu Hi Happ. unfold Archive_extract_to_writer_with_options.
  destruct (Archive_try_files_info self) as [files|] eqn:Efi; [|done].
  destruct (fst (Entries_nth _ _)) as [entry|] eqn:En; cbn [ok_or]; [|done].
  set (stream := match Archive_read_session_with_options self config with Ok _ => _ | Err _ => _ end).
  assert (EntryKind_has_stream (en_kind entry) = true → stream = (Ok n, w') → ∃ d,
    (∃ fs file loc, Archive_file_streams self = Ok fs ∧
        fst (FileStreams_nth fs (Z.to_nat index)) = Ok (Some file) ∧
        (en_kind file = K_File loc ∨ en_kind file = K_Symlink loc) ∧
        archive_stream retries self config SelectedStreams loc d) ∧ contents w' = contents w ++ d ∧ n = zlen d ∧
    ∀ P : W → Prop, (∀ w b r w', write_all w b = (r, w') → P w → P w') → P w → P w') as Hstream.
  { intros Hkind. unfold stream.
    destruct (Archive_read_session_with_options self config) as [session|] eqn:Es; [|done].
    destruct (session_start retries _ _ _ Hlim Hu Es)
      as (plans & packs & Hplans & Hok & Hn0 & _ & Hfs & Hpacks & Hsrc & Hpw & Hm).
    destruct (ArchiveReadSession_extract_to_writer _ _ _ _ session index w) as [[[m|] s1] w1] eqn:Ex; [|done].
    destruct (extract_to_writer_spec retries io_fuel io_sizes Hsizes copy_sizes Hcopy Hdec plans Hplans contents
      _ _ _ _ _ _ Happ Hok Ex) as (Hok1 & Hsame & file & rentry & d & Hf & Hr & Hc & Hm1 & Hcontent & HP).
    unfold ArchiveReadSession_finish.
    destruct (EntryDecoder_finish io_fuel io_sizes (as_decoder s1)) as [[v|] decoder2] eqn:Efin; [|done].
    intros [= <- <-]. exists d. split; [|done]. rewrite Hn0, Z.sub_0_r in Hf.
    destruct (nth_kind _ _ _ Hf) as (_ & Hstr & _). destruct (file_streams_entries _ _ Hfs) as (files' & Hfi & He).
    rewrite Efi in Hfi. injection Hfi as <-. rewrite He in Hstr. cbn [Entries_new it_start it_end] in Hstr.
    assert (en_kind entry = Entries_kind (Entries_new files (Archive_num_files self)) (0 + Z.of_nat (Z.to_nat index))) as Hek.
    { unfold Entries_nth in En. destruct (decide _) in En; [|done].
      destruct (match it_names _ with None => _ | Some _ => _ end). cbn in En. by injection En as <-. }
    rewrite <- Hek, Hkind in Hstr.
    destruct (EntryDecoder_finish_spec _ _ _ Hsizes _ _ _ _ (so_decoder _ _ _ Hok1) Efin) as (_ & _ & Hsame2 & Hv).
    pose proof (same_archive_trans _ _ _ Hsame Hsame2) as (Hsrc2 & Hpw2 & Hm2 & _).
    assert (∀ loc, re_content rentry = ContentStream loc → archive_stream retries self config SelectedStreams loc d) as Harch.
    { intros loc Hl. rewrite Hl in Hcontent. exists (as_files session), packs. split_and!; [done|done|].
      rewrite <- Hsrc, <- Hpw, <- Hm, <- Hsrc2, <- Hpw2, <- Hm2. apply settled_verified.
      destruct Hcontent as [Hp|Hs]; [by apply (proj2 (Hv _ eq_refl))|by eapply settled_same]. }
    unfold ReadableEntry_from_file in Hr. destruct (en_kind file) as [loc|loc| | | |] eqn:Ek; try done;
      injection Hr as <-; exists (as_files session), file, loc; (split_and!; [done|done|auto|by apply Harch]). }
  destruct (en_kind entry) as [[]|[]| | | |] eqn:Ek; try done.
  - intros (d & Hd)%Hstream; [|done]. exists files, entry, d. by rewrite Ek.
  - intros (d & Hd)%Hstream; [|done]. exists files, entry, d. by rewrite Ek.
  - intros [= <- <-]. exists files, entry, []. rewrite Ek, app_nil_r. by split_and!.
  - intros [= <- <-]. exists files, entry, []. rewrite Ek, app_nil_r. by split_and!.
Qed.

(** What is copied to the bounded output stays within its limit. *)
Lemma extracted_within (out0 output : LimitedOutput) limit :
  ro_limit out0 = Some limit → zlen (ro_bytes out0) ≤ limit →
  (∀ P : LimitedOutput → Prop, (∀ w b r w', write_all w b = (r, w') → P w → P w') → P out0 → P output) →
  zlen (ro_bytes output) ≤ limit.
Proof.
  intros Hl H0 HP.
  destruct (HP (λ o, ro_limit o = Some limit ∧ within_limit o)) as [Hl' Hw].
  - intros w b r w' (_ & Hl1 & Hw1)%limited_write_all [Hl2 Hw2]. split; [congruence|auto].
  - split; [done|]. unfold within_limit. by rewrite Hl.
  - unfold within_limit in Hw. by rewrite Hl' in Hw.
Qed.

(** ** Properties *)

(** C5. A traversal that succeeds has served every file it went through, in order: each
    callback saw a beginning of its entry's content, accepted it, and its changes reached
    the next one; the content of a stream is the slice at its range of the bytes its
    folder's decoder gave from the packed streams of the archive, of the declared size and
    digest, and a callback that reads to the end has seen all of it. Every folder that was
    visited was completed: its bytes are as many as the archive declares and have the
    folder's digest, except that a traversal of selected entries may leave a folder
    without a digest after the last of them. The files are the entries of the archive in
    order, or the selected ones. *)
Theorem streamed_files_served `{Nom} `{Crc32} `{LzmaMemory} `{Decoders} `{BlockCipher} `{Sha256} {E}
    retries io_fuel io_sizes self indices config (callback : EntryCallback E) env env' :
  (∀ k, 0 < io_sizes k) → decoders_bounded → limits_ok (rc_options config) →
  (∀ streams, Archive_try_streams_info self = Ok streams → sizes_u64 streams) →
  Archive_stream_files_impl retries io_fuel io_sizes self indices config callback env = (Ok tt, env') →
  ∃ files, traversed self indices files ∧
    files_given (archive_stream retries self config match indices with None => WholeFolder | Some _ => SelectedStreams end)
      callback files env env'.
Proof.
  intros Hsizes Hdec Hlim Hu. unfold Archive_stream_files_impl, traversed.
  destruct (EntrySelection_new indices (Archive_num_files self)) as [sel|] eqn:Esel; [|done].
  assert (∀ mode, Archive_stream_entry_selection retries io_fuel io_sizes self sel mode config callback env = (Ok tt, env') → _)
    as Hstream by (intros mode; by apply stream_selection_spec).
  destruct indices as [[|i l]|].
  - injection Esel as <-. intros [= <-]. exists []. split; [done|constructor].
  - destruct sel as [|start stop|l' pos]; [| |].
    + exfalso. cbn in Esel. by repeat case_match.
    + exfalso. cbn in Esel. by repeat case_match.
    + intros (fs & items & Hfs & Hitems & Hg)%Hstream. exists items. split; [|done]. by exists fs, (Sel_Selected l' pos).
  - injection Esel as <-. intros (fs & items & Hfs & Hitems & Hg)%Hstream. exists items. split; [|done]. by exists fs.
Qed.

(** C6. An entry extracted to memory is what the archive says it is: the data stay within
    the retained-output limit; an entry without a stream gives no bytes, and directories
    and anti-items are refused; otherwise the data are the whole stream that the joint
    traversal gives the entry, the slice at its range of the bytes its folder's decoder
    gave from the packed streams of the archive, of the declared size and digest, in a
    folder that was verified to its end if it has a digest of its own. *)
Theorem extracted_entry_verified `{Nom} `{Crc32} `{LzmaMemory} `{Decoders} `{BlockCipher} `{Sha256}
    retries io_fuel io_sizes copy_sizes self index config data :
  (∀ k, 0 < io_sizes k) → (∀ k, (0 < copy_sizes k)%N) → decoders_bounded → limits_ok (rc_options config) →
  (∀ streams, Archive_try_streams_info self = Ok streams → sizes_u64 streams) → 0 ≤ index →
  Archive_extract_to_memory_with_options retries io_fuel io_sizes copy_sizes self index config = Ok data →
  (∀ limit, max_retained_output_bytes (rc_options config) = Some limit → zlen data ≤ limit) ∧
  ∃ files entry, Archive_try_files_info self = Ok files ∧
    fst (Entries_nth (Entries_new files (Archive_num_files self)) (Z.to_nat index)) = Some entry ∧
    match en_kind entry with
    | K_Directory | K_Anti => False
    | K_EmptyFile | K_EmptySymlink => data = []
    | K_File _ | K_Symlink _ => ∃ fs file loc, Archive_file_streams self = Ok fs ∧
        fst (FileStreams_nth fs (Z.to_nat index)) = Ok (Some file) ∧
        (en_kind file = K_File loc ∨ en_kind file = K_Symlink loc) ∧
        archive_stream retries self config SelectedStreams loc data
    end.
Proof.
  intros Hsizes Hcopy Hdec Hlim Hu Hi. unfold Archive_extract_to_memory_with_options.
  set (out0 := LimitedOutput_new (max_retained_output_bytes (rc_options config))).
  destruct (Archive_extract_to_writer_with_options _ _ _ _ self index out0 config) as [res output] eqn:Ex.
  destruct (ro_exceeded output); [done|]. destruct res as [n|e]; [|done]. intros [= <-].
  destruct (extract_with_options_spec _ _ _ _ ro_bytes _ _ _ _ _ _ Hsizes Hcopy Hdec Hlim Hu Hi LimitedOutput_appends Ex)
    as (files & entry & d & Hfiles & Hentry & Hkind & Hd & _ & HP). cbn in Hd. rewrite Hd. split; [|by exists files, entry].
  rewrite <- Hd. intros limit Hl. pose proof (lk_retained _ Hlim) as Hr. rewrite Hl in Hr.
  apply (extracted_within out0 output limit); [done| |exact HP].
  unfold out0. cbn. rewrite zlen_nil. by destruct Hr.
Qed.

(** ** Witnesses *)

#[local] Existing Instances flat_memory stored_decoders counter_cipher flat_hash sum_crc.

Lemma stored_decoders_bounded : decoders_bounded.
Proof. split; [done|]. by intros S rd p s d Hs [= <-]. Qed.

(** An archive of one stored file [a] of four bytes, its folder with a digest. *)
Definition sample_next_header : bytes :=
  [1; 4; 6; 0; 1; 9; 4; 0; 7; 11; 1; 0; 1; 1; 0; 12; 4; 10; 1; 10; 0; 0; 0; 0; 0;
   5; 1; 17; 5; 0; 97; 0; 0; 0; 0; 0].
Definition sample_start_bytes : bytes :=
  to_le_bytes 8 4 ++ to_le_bytes 8 (zlen sample_next_header) ++ to_le_bytes 4 (crc32 sample_next_header).
Definition sample_archive_bytes : bytes :=
  [55; 122; 188; 175; 39; 28; 0; 4] ++ to_le_bytes 4 (crc32 sample_start_bytes) ++ sample_start_bytes ++
  [1; 2; 3; 4] ++ sample_next_header.

Definition sample_layout : BytesLayout := {| size_of_bytes := 32 |}.

Definition sample_opened : result Archive R7zError :=
  @Archive_from_bytes_with_password _ _ _ _ _ _ sample_layout 9 30 (λ _, 8) (λ _, 4096) sample_archive_bytes 0 None.

Definition sample_reader : EntryCallback (list bytes) := λ _ env,
  ReadNext 8 (λ r, match r with Ok b => Finished (Ok tt, env ++ [b]) | Err e => Finished (Err (Io e), env) end).

Lemma sample_limits : limits_ok (rc_options ArchiveReadConfig_default).
Proof. split; try exact I; split; by compute. Qed.

Lemma streamed_files_served_witness :
  ∃ self env files, sample_opened = Ok self ∧ env = [[1; 2; 3; 4]] ∧ traversed self None files ∧
    files_given (archive_stream 9 self ArchiveReadConfig_default WholeFolder) sample_reader files [] env.
Proof.
  destruct sample_opened as [self|] eqn:Eo; [|vm_compute in Eo; discriminate Eo].
  exists self, [[1; 2; 3; 4]].
  destruct (streamed_files_served 9 30 (λ _, 8) self None ArchiveReadConfig_default sample_reader [] [[1; 2; 3; 4]]
    (λ _, eq_refl) stored_decoders_bounded sample_limits) as (files & Ht & Hg).
  - vm_compute in Eo. injection Eo as <-. intros streams Hs. vm_compute in Hs. injection Hs as <-.
    intros s pack unpack [= <-] [= <-] [= <-]. split; repeat constructor; by compute.
  - vm_compute in Eo. injection Eo as <-. vm_compute. reflexivity.
  - exists files. split; [reflexivity|]. split; [reflexivity|]. split; [exact Ht|exact Hg].
Defined.

Lemma extracted_entry_verified_witness :
  ∃ self fs file loc, sample_opened = Ok self ∧ Archive_file_streams self = Ok fs ∧
    fst (FileStreams_nth fs 0) = Ok (Some file) ∧ en_kind file = K_File loc ∧
    archive_stream 9 self ArchiveReadConfig_default SelectedStreams loc [1; 2; 3; 4].
Proof.
  destruct sample_opened as [self|] eqn:Eo; [|vm_compute in Eo; discriminate Eo].
  destruct (extracted_entry_verified 9 30 (λ _, 8) (λ _, 8%N) self 0 ArchiveReadConfig_default [1; 2; 3; 4]
    (λ _, eq_refl) (λ _, eq_refl) stored_decoders_bounded sample_limits) as (_ & files & entry & Hf & He & Hk).
  - vm_compute in Eo. injection Eo as <-. intros streams Hs. vm_compute in Hs. injection Hs as <-.
    intros s pack unpack [= <-] [= <-] [= <-]. split; repeat constructor; by compute.
  - lia.
  - vm_compute in Eo. injection Eo as <-. vm_compute. reflexivity.
  - vm_compute in Eo. injection Eo as <-. vm_compute in Hf. injection Hf as <-. vm_compute in He. injection He as <-.
    cbn in Hk. destruct Hk as (fs & file & loc & Hfs & Hn & Hkind & Hs).
    eexists _, fs, file, loc. split; [reflexivity|]. split; [exact Hfs|]. split; [exact Hn|]. split; [|exact Hs].
    vm_compute in Hfs. injection Hfs as <-. vm_compute in Hn. injection Hn as <-.
    destruct Hkind as [E|E]; [exact E|discriminate E].
Defined.
