(* ===== verification/Sessions.v ===== *)
(** * Read sessions (src/src/archive.rs)

    Everything a session promises, over any sequence of requests: which indices it takes,
    which entry a request is given, and what [finish] says of all that was read. *)

From stdpp Require Import base numbers list option strings sorting.
From Stdlib Require Import ZArith Lia.
From S2P Require Import Prelude Folder Error Operation Readers Resources PackInfo StreamInfo FilesInfo Aes DecoderPlan DecoderRun Entries FolderDecode FolderRead FolderBounds FileStreams Locations Headers ArchiveSource PackedSource ArchiveNames EntryReads Archive.

(** ** Requests *)

(** A request that succeeded, with what it left to its callback. *)
Record request := {
  rq_env : Type;
  rq_index : Z;
  rq_callback : rq_env → Strategy (result unit R7zError * rq_env);
  rq_before : rq_env;
  rq_after : rq_env
}.

(** The content a request was given, of the entry that [items] has at its index. *)
Definition served (verified : StreamLocation → bytes → Prop) (items : list (Entry StreamLocation))
    (q : request) : Prop :=
  ∃ file entry, items !! Z.to_nat (rq_index q) = Some file ∧ ReadableEntry_from_file file = Some entry ∧
    content_given verified (re_content entry) (rq_callback q (rq_before q)) (rq_after q).

Lemma served_mono (P Q : StreamLocation → bytes → Prop) items q :
  (∀ loc b, P loc b → Q loc b) → served P items q → served Q items q.
Proof.
  intros HPQ (file & entry & Hf & He & Hc). exists file, entry. split_and!; [done|done|].
  by eapply content_given_mono.
Qed.

(** The stream tables of an archive: the folders iterate to the end. *)
Definition tables_ok `{Nom} (streams : option StreamInfo) : Prop :=
  ∀ s unpack, streams = Some s → si_unpack_info s = Some unpack →
    ∃ pack ls st, StreamInfo_packed_folders s = Ok (pack, unpack) ∧
      FolderPlans_collect (plans_fuel unpack) (FolderPlans_new pack unpack (si_substream_info s)) = Ok (ls, st) ∧
      Forall is_u64 (pack_size pack) ∧ Forall is_u64 (unpack_sizes unpack) ∧
      (∀ info, si_substream_info s = Some info → Forall is_u64 (substream_sizes info)).

Lemma tables_ok_sizes `{Nom} streams : tables_ok streams → sizes_u64 streams.
Proof.
  intros Ht s pack unpack -> Hp Hu. destruct (Ht s unpack eq_refl Hu) as (pack' & ls & st & Hpf & _ & ? & ? & _).
  unfold StreamInfo_packed_folders in Hpf. rewrite Hp, Hu in Hpf. by injection Hpf as <-.
Qed.

(** The entries a new operation goes over. *)
Lemma file_streams_listed `{Nom} files n streams fs :
  tables_ok streams → FileStreams_new files (Z.of_nat n) streams = Ok fs →
  ∃ es locs, files_have fs es locs ∧ length es = n ∧ fi_entries fs = Entries_new files (Z.of_nat n).
Proof.
  intros Ht Hnew.
  assert (match streams with Some s => match si_unpack_info s with Some _ => True | None => False end | None => False end ∨
    FileStreams_new files (Z.of_nat n) None = Ok fs) as [Hs|Hnone].
  { destruct streams as [s|]; [|by right]. unfold FileStreams_new in Hnew |- *.
    destruct (si_unpack_info s); [by left|by right]. }
  - destruct streams as [s|]; [|done]. destruct (si_unpack_info s) as [unpack|] eqn:Eu; [|done].
    destruct (Ht s unpack eq_refl Eu) as (pack & ls & st & Hp & Hc & _ & Hu & Hss).
    destruct (FileStreams_new_spec _ _ _ _ _ _ _ _ Hp Hc Hu Hss Hnew) as (Hent & Hlen & locs & _ & Hf).
    by exists (Entries_collect n (Entries_new files (Z.of_nat n))), locs.
  - unfold FileStreams_new in Hnone. destruct (decide _) as [|Hd] in Hnone; [done|]. apply dec_stable in Hd.
    injection Hnone as <-.
    destruct (enum_entries (Entries_new files (Z.of_nat n)) n ltac:(cbn; lia)) as (es & He & Hle & _ & Hsc).
    exists es, []. split_and!; [|done|done]. split; cbn [fi_entries fi_streams]; [done| |].
    + exists 0, [], [], []. split_and!; [split; [cbn; lia|done]|constructor|done|done].
    + rewrite <- Hd in Hsc. cbn. lia.
Qed.

Lemma Entries_next_end ents : it_end (snd (Entries_next ents)) = it_end ents.
Proof.
  unfold Entries_next, Entries_nth. case_decide; [|done]. by destruct (match it_names ents with None => _ | Some _ => _ end).
Qed.

Lemma skip_entries_end n ents : it_end (snd (skip_entries n ents)) = it_end ents.
Proof.
  revert ents. induction n as [|n IH]; intros ents; [done|]. cbn [skip_entries].
  pose proof (Entries_next_end ents) as He. destruct (Entries_next ents) as [[e|] ents1]; cbn [snd] in He; [|done].
  specialize (IH ents1). destruct (skip_entries n ents1) as [c ents2]. cbn [snd] in *. congruence.
Qed.

(** The files of a session that stands at index [k] of [items]. *)
Record files_at `{Nom} (items : list (Entry StreamLocation)) (fs : FileStreams) (k : nat) : Prop := {
  fa_rest : ∃ es locs, files_have fs es locs ∧ bind_entries es locs = drop k items ∧ length es = (length items - k)%nat;
  fa_start : it_start (fi_entries fs) = Z.of_nat k;
  fa_end : it_end (fi_entries fs) = Z.of_nat (length items);
  fa_le : (k ≤ length items)%nat
}.

Lemma files_at_nth `{Nom} items fs k n :
  files_at items fs k → (k + n < length items)%nat →
  ∃ fs', FileStreams_nth fs n = (Ok (items !! (k + n)%nat), fs') ∧ files_at items fs' (S (k + n)).
Proof.
  intros [(es & locs & Hf & Hb & Hlen) Hst Hend Hle] Hn.
  destruct (FileStreams_nth_spec fs n es locs Hf) as (fs' & locs' & -> & Hrest).
  destruct Hrest as (Hf' & Hb' & Hent); [lia|]. exists fs'. rewrite Hb, lookup_drop. split; [done|].
  assert (enum (snd (skip_entries n (fi_entries fs))) (drop n es)) as He by apply enum_drop, Hf.
  split.
  - exists (drop (S n) es), locs'. split_and!; [done| |rewrite length_drop; lia].
    rewrite Hb', Hb, drop_drop. f_equal. lia.
  - rewrite Hent. destruct (drop n es) as [|e es'] eqn:Ed; [apply (f_equal length) in Ed; rewrite length_drop in Ed; cbn in Ed; lia|].
    rewrite (enum_start _ _ _ He), (skip_entries_start _ _ _ (fh_entries _ _ _ Hf)), Hst by lia. lia.
  - by rewrite Hent, Entries_next_end, skip_entries_end.
  - lia.
Qed.

(** ** Runs *)

Section runs.
  Context `{Nom} `{Crc32} `{LzmaMemory} `{Decoders} `{BlockCipher} `{Sha256}.
  Context (retries io_fuel : nat) (io_sizes : nat → Z) (Hsizes : ∀ k, 0 < io_sizes k) (Hdec : decoders_bounded).

(** Any sequence of requests and of [finish_folder]s, with the requests that succeeded. *)
Inductive session_run : ArchiveReadSession → list request → ArchiveReadSession → Prop :=
| run_nil self : session_run self [] self
| run_served self q self1 trace self' :
    ArchiveReadSession_read_entry retries io_fuel io_sizes self (rq_index q) (rq_callback q) (rq_before q)
      = (Ok tt, self1, rq_after q) →
    session_run self1 trace self' → session_run self (q :: trace) self'
| run_failed self E index (callback : E → Strategy (result unit R7zError * E)) env e self1 env1 trace self' :
    ArchiveReadSession_read_entry retries io_fuel io_sizes self index callback env = (Err e, self1, env1) →
    session_run self1 trace self' → session_run self trace self'
| run_finished self r self1 trace self' :
    ArchiveReadSession_finish io_fuel io_sizes self = (r, self1) →
    session_run self1 trace self' → session_run self trace self'.

(** What became incomplete stays so. *)
Lemma complete_sticky self current r self' :
  EntryDecoder_complete io_fuel io_sizes self current = (r, self') →
  ed_verification self = Operation.Incomplete → ed_verification self' = Operation.Incomplete.
Proof.
  unfold EntryDecoder_complete. destruct current as [[i folder]|]; [|by intros [= _ <-]].
  destruct (ActiveFolder_finish _ _ _ _ _) as [[v|] b]; intros [= _ <-] Hv; cbn; [|done]. rewrite Hv. by destruct v.
Qed.

Lemma open_sticky self loc r self' :
  EntryDecoder_open retries io_fuel io_sizes self loc = (r, self') →
  ed_verification self = Operation.Incomplete → ed_verification self' = Operation.Incomplete.
Proof.
  unfold EntryDecoder_open.
  set (fresh := match EntryDecoder_complete _ _ self (ed_current self) with (Err _, _) => _ | _ => _ end).
  assert (∀ r self', fresh = (r, self') →
    ed_verification self = Operation.Incomplete → ed_verification self' = Operation.Incomplete) as Hfresh.
  { intros r1 self1. unfold fresh.
    destruct (EntryDecoder_complete io_fuel io_sizes self (ed_current self)) as [[[]|] self2] eqn:Ec;
      pose proof (complete_sticky _ _ _ _ Ec) as Hc; [|by intros [= _ <-]].
    destruct (FolderLayout_bind _ _ _) as [[ready|] b]; [|by intros [= _ <-]].
    destruct (ReadyFolder_start _ _ _ _). by intros [= _ <-]. }
  destruct (ed_current self) as [[index active]|]; [|apply Hfresh].
  case_decide; [|apply Hfresh]. by intros [= _ <-].
Qed.

Lemma read_stream_sticky {E} self loc (callback : E → Strategy (result unit R7zError * E)) env r self' env' :
  EntryDecoder_read_stream retries io_fuel io_sizes self loc callback env = (r, self', env') →
  ed_verification self = Operation.Incomplete → ed_verification self' = Operation.Incomplete.
Proof.
  unfold EntryDecoder_read_stream.
  destruct (EntryDecoder_open retries io_fuel io_sizes self loc) as [[active|] self1] eqn:Eo;
    pose proof (open_sticky _ _ _ _ Eo) as Ho; [|by intros [= _ <- _]].
  destruct (ActiveFolder_skip_to _ _ _ _ _) as [[active1|] b]; [|by intros [= _ <- _]].
  destruct (ActiveFolder_read_stream_with _ _ _ _ _ _) as [[[a|] b1] env1]; by intros [= _ <- _].
Qed.

Lemma read_sticky {E} self entry (callback : ArchiveEntryInfo → E → Strategy (result unit R7zError * E)) env r self' env' :
  EntryDecoder_read retries io_fuel io_sizes self entry callback env = (r, self', env') →
  ed_verification self = Operation.Incomplete → ed_verification self' = Operation.Incomplete.
Proof.
  unfold EntryDecoder_read. destruct (monitor_check (ed_budget self)) as [[[]|] b]; [|by intros [= _ <- _]].
  destruct (re_content entry) as [|loc].
  - destruct (run_consumer _ Empty) as [[[[]|] env1] e]; by intros [= _ <- _].
  - destruct (EntryDecoder_read_stream _ _ _ _ loc _ env) as [[[[]|] self1] env1] eqn:Er;
      [|by intros [= _ <- _]]. intros [= _ <- _]. by apply (read_stream_sticky _ _ _ _ _ _ _ Er).
Qed.

Lemma finish_sticky self r self' :
  EntryDecoder_finish io_fuel io_sizes self = (r, self') →
  ed_verification self = Operation.Incomplete → ed_verification self' = Operation.Incomplete.
Proof.
  unfold EntryDecoder_finish.
  destruct (EntryDecoder_complete _ _ self _) as [[[]|] self1] eqn:Ec; pose proof (complete_sticky _ _ _ _ Ec) as Hc;
    [|by intros [= _ <-]].
  destruct (monitor_check _). by intros [= _ <-].
Qed.

Context (plans : FolderPlans) (Hplans : plans_sized plans) (items : list (Entry StreamLocation)).

(** A session that stands at index [k]. *)
Record session_at (self : ArchiveReadSession) (k : nat) : Prop := {
  sa_ok : session_ok retries plans self;
  sa_files : files_at items (as_files self) k;
  sa_count : as_count self = Z.of_nat (length items)
}.

Lemma session_at_next self k : session_at self k → session_next self = Z.of_nat k.
Proof.
  intros [_ [_ Hst Hend _] Hc]. unfold session_next, FileStreams_len. rewrite Hc, Hst, Hend. lia.
Qed.

(** The effect of a request on its decoder. *)
Definition request_effect {E} (before after : EntryDecoder) (index : Z) (r : result unit R7zError)
    (consume : Strategy (result unit R7zError * E)) (env' : E) : Prop :=
  match r with
  | Ok _ => (∃ file entry, items !! Z.to_nat index = Some file ∧ ReadableEntry_from_file file = Some entry ∧
        content_given (read_in retries after) (re_content entry) consume env') ∧
      ∀ loc b, read_in retries before loc b → read_in retries after loc b
  | Err _ => after = before ∨ ed_verification after = Operation.Incomplete
  end.

Lemma session_request {E} self k index (callback : E → Strategy (result unit R7zError * E)) env r self' env' :
  session_at self k →
  ArchiveReadSession_read_entry retries io_fuel io_sizes self index callback env = (r, self', env') →
  if decide (Z.of_nat k ≤ index < Z.of_nat (length items))
  then session_at self' (S (Z.to_nat index)) ∧ same_archive (as_decoder self) (as_decoder self') ∧
    (ed_verification (as_decoder self) = Operation.Incomplete → ed_verification (as_decoder self') = Operation.Incomplete) ∧
    request_effect (as_decoder self) (as_decoder self') index r (callback env) env'
  else r = Err (InvalidOptions "read session requires increasing valid entry indexes") ∧ self' = self ∧ env' = env.
Proof.
  intros Hat Hread. pose proof (session_at_next _ _ Hat) as Hnext.
  destruct Hat as [[Hd Hl] Hfa Hc]. unfold session_next in Hnext.
  unfold ArchiveReadSession_read_entry in Hread. rewrite Hnext, Hc in Hread.
  case_decide as Hi; [|by injection Hread as <- <- <-].
  destruct (files_at_nth _ _ _ (Z.to_nat (index - Z.of_nat k)) Hfa) as (fs' & Hn & Hfa'); [lia|].
  replace (k + Z.to_nat (index - Z.of_nat k))%nat with (Z.to_nat index) in Hn, Hfa' by lia.
  rewrite Hn in Hread. destruct (FileStreams_nth_ok _ _ _ _ _ Hl Hn) as [Hl' He].
  destruct (lookup_lt_is_Some_2 items (Z.to_nat index)) as [file Hfile]; [lia|].
  rewrite Hfile in Hread, He. cbn [ok_or] in Hread.
  destruct (ReadableEntry_from_file file) as [entry|] eqn:Ee; cbn [ok_or] in Hread.
  2:{ injection Hread as <- <- <-. split_and!; [by split; [split|..]|done|done|by left]. }
  cbn [as_decoder as_count] in Hread.
  destruct (EntryDecoder_read retries io_fuel io_sizes (as_decoder self) entry (λ _, callback) env)
    as [[res decoder] env1] eqn:Er. injection Hread as <- <- <-.
  destruct (EntryDecoder_read_spec retries io_fuel io_sizes Hsizes Hdec plans Hplans _ _ _ _ _ _ _ Hd
    (ReadableEntry_content_ok _ _ _ He Ee) Er) as (Hd' & Hsame & Hres).
  split_and!; [by split; [split|..]|done|exact (read_sticky _ _ _ _ _ _ _ Er)|].
  unfold request_effect. cbn [as_decoder]. destruct res as [[]|e]; [|by right]. destruct Hres as [Hs Hk]. split.
  - exists file, entry. by split_and!.
  - intros loc b [Hp|Hset]; [destruct (Hk _ _ Hp); [by right|by left]|right]. by eapply settled_same.
Qed.

(** The effect of completing the folder. *)
Lemma session_finish self k r self' :
  session_at self k → ArchiveReadSession_finish io_fuel io_sizes self = (r, self') →
  session_at self' k ∧ same_archive (as_decoder self) (as_decoder self') ∧
  (ed_verification (as_decoder self) = Operation.Incomplete → ed_verification (as_decoder self') = Operation.Incomplete) ∧
  (ed_verification (as_decoder self') = Operation.Incomplete ∨
   ∀ loc b, read_in retries (as_decoder self) loc b → settled retries (as_decoder self') loc b) ∧
  (∀ v, r = Ok v → v = ed_verification (as_decoder self')).
Proof.
  intros [[Hd Hl] Hfa Hc]. unfold ArchiveReadSession_finish.
  destruct (EntryDecoder_finish io_fuel io_sizes (as_decoder self)) as [res decoder] eqn:Ef. intros [= <- <-].
  destruct (EntryDecoder_finish_spec _ _ _ Hsizes _ _ _ _ Hd Ef) as (Hd' & _ & Hsame & Hv).
  pose proof (finish_sticky _ _ _ Ef) as Hsticky.
  split_and!; [by split; [split|..]|done|done| |by intros v Hr; apply Hv].
  revert Ef. unfold EntryDecoder_finish.
  destruct (EntryDecoder_complete io_fuel io_sizes (as_decoder self) _) as [[[]|] d1] eqn:Ecomp.
  - destruct (complete_spec _ _ _ Hsizes _ _ _ _ Hd Ecomp) as (_ & _ & Hsame1 & Hset).
    destruct (monitor_check (ed_budget d1)) as [checked b]. intros [= _ <-]. right.
    intros loc bs [Hp|Hs]; [exact (Hset eq_refl _ _ Hp)|by eapply settled_same in Hs].
  - intros [= _ <-]. left. unfold EntryDecoder_complete in Ecomp. destruct (ed_current (as_decoder self)) as [[i f]|]; [|done].
    destruct (ActiveFolder_finish _ _ _ _ _) as [[v|] b]; [done|]. by injection Ecomp as _ <-.
Qed.

Lemma read_in_stream self loc b :
  read_in retries self loc b → stream_read retries (ed_source self) (ed_password self) loc b.
Proof.
  intros [(active & ss & data & _ & Hr & Hh)|(active & ss & data & Hr & Hh & _)]; by exists active, ss, data.
Qed.

Lemma session_run_spec self trace self' :
  session_run self trace self' → ∀ k, session_at self k →
  ∃ k', (k ≤ k')%nat ∧ session_at self' k' ∧ same_archive (as_decoder self) (as_decoder self') ∧
    (ed_verification (as_decoder self) = Operation.Incomplete → ed_verification (as_decoder self') = Operation.Incomplete) ∧
    StronglySorted Z.lt (map rq_index trace) ∧ Forall (λ q, Z.of_nat k ≤ rq_index q) trace ∧
    Forall (served (stream_read retries (ed_source (as_decoder self)) (ed_password (as_decoder self))) items) trace ∧
    (ed_verification (as_decoder self') = Operation.Incomplete ∨
     Forall (served (read_in retries (as_decoder self')) items) trace ∧
     ∀ loc b, read_in retries (as_decoder self) loc b → read_in retries (as_decoder self') loc b).
Proof.
  intros Hrun. induction Hrun as [self|self q self1 trace self' Hq Hrun IH|self E index cb env e self1 env1 trace self' Hq Hrun IH
    |self r self1 trace self' Hf Hrun IH]; intros k Hat.
  - exists k. split_and!; [done|done|done|done|constructor|constructor|constructor|right; by split].
  - pose proof (session_request _ _ _ _ _ _ _ _ Hat Hq) as Hstep. case_decide as Hi; [|by destruct Hstep].
    destruct Hstep as (Hat1 & Hsame1 & Hst1 & (file & entry & Hfile & He & Hc) & Hk).
    destruct (IH _ Hat1) as (k' & Hle & Hat' & Hsame & Hst & Hsort & Hmin & Hserved & Hv).
    pose proof Hsame1 as (Hsrc & Hpw & _). exists k'. split_and!; [lia|done|by eapply same_archive_trans|by auto|..].
    + constructor; [done|]. apply Forall_map. eapply Forall_impl; [exact Hmin|]. cbn. lia.
    + constructor; [lia|]. eapply Forall_impl; [exact Hmin|]. cbn. lia.
    + rewrite <- Hsrc, <- Hpw. constructor; [|done]. exists file, entry. split_and!; [done..|].
      eapply content_given_mono; [|exact Hc]. apply read_in_stream.
    + destruct Hv as [Hv|[Hv Hkeep]]; [by left|right]. split; [|by auto]. constructor; [|done].
      exists file, entry. split_and!; [done..|]. eapply content_given_mono; [|exact Hc]. auto.
  - pose proof (session_request _ _ _ _ _ _ _ _ Hat Hq) as Hstep. case_decide as Hi.
    2:{ destruct Hstep as (_ & -> & _). by apply IH. }
    destruct Hstep as (Hat1 & Hsame1 & Hst1 & Heff).
    destruct (IH _ Hat1) as (k' & Hle & Hat' & Hsame & Hst & Hsort & Hmin & Hserved & Hv).
    pose proof Hsame1 as (Hsrc & Hpw & _). exists k'. split_and!; [lia|done|by eapply same_archive_trans|by auto|done|..].
    + eapply Forall_impl; [exact Hmin|]. cbn. lia.
    + by rewrite <- Hsrc, <- Hpw.
    + destruct Heff as [Heq|Hinc]; [by rewrite <- Heq|left; auto].
  - destruct (session_finish _ _ _ _ Hat Hf) as (Hat1 & Hsame1 & Hst1 & Hkeep1 & _).
    destruct (IH _ Hat1) as (k' & Hle & Hat' & Hsame & Hst & Hsort & Hmin & Hserved & Hv).
    pose proof Hsame1 as (Hsrc & Hpw & _). exists k'. split_and!; [lia|done|by eapply same_archive_trans|by auto|done|done|..].
    + by rewrite <- Hsrc, <- Hpw.
    + destruct Hkeep1 as [Hinc|Hkeep1]; [left; auto|]. destruct Hv as [Hv|[Hv Hkeep]]; [by left|right].
      split; [done|]. intros loc b Hr. apply Hkeep. right. auto.
Qed.

End runs.

(** ** Property *)

(** A stream of an archive, read with a configuration. *)
Definition archive_read `{Nom} `{Crc32} `{LzmaMemory} `{Decoders} `{BlockCipher} `{Sha256} (retries : nat)
    (self : Archive) (config : ArchiveReadConfig) (loc : StreamLocation) (b : bytes) : Prop :=
  ∃ fs packs, Archive_file_streams self = Ok fs ∧
    PackedSource_new (ar_source self) (ar_base_offset self) (fi_pack_pos fs) = Ok packs ∧
    stream_read retries packs (rc_password config) loc b.

(** What a verification says of the folders: all complete, or some left after the
    selected streams. *)
Definition verified_mode (v : ReadVerification) : CompletionMode :=
  match v with CompleteFolders => WholeFolder | _ => SelectedStreams end.

(** A new session stands at the first entry. *)
Lemma session_start_at `{Nom} `{Crc32} `{LzmaMemory} `{Decoders} `{BlockCipher} `{Sha256} retries self config session :
  limits_ok (rc_options config) → (∀ streams, Archive_try_streams_info self = Ok streams → tables_ok streams) →
  0 ≤ Archive_num_files self → Archive_read_session_with_options self config = Ok session →
  ∃ plans packs items, plans_sized plans ∧ session_at retries plans items session 0 ∧
    Archive_file_streams self = Ok (as_files session) ∧
    PackedSource_new (ar_source self) (ar_base_offset self) (fi_pack_pos (as_files session)) = Ok packs ∧
    ed_source (as_decoder session) = packs ∧ ed_password (as_decoder session) = rc_password config ∧
    ed_mode (as_decoder session) = SelectedStreams ∧
    FileStreams_map_all (S (Z.to_nat (Archive_num_files self))) (as_files session) = Ok items ∧
    zlen items = Archive_num_files self.
Proof.
  intros Hlim Ht Hn Hs.
  destruct (session_start retries _ _ _ Hlim (λ streams Hstr, tables_ok_sizes _ (Ht streams Hstr)) Hs)
    as (plans & packs & Hplans & Hok & _ & Hcount & Hfs & Hpacks & Hsrc & Hpw & Hm).
  assert (∃ es locs, files_have (as_files session) es locs ∧ length es = Z.to_nat (Archive_num_files self) ∧
    it_start (fi_entries (as_files session)) = 0 ∧
    it_end (fi_entries (as_files session)) = Archive_num_files self) as (es & locs & Hf & Hlen & Hst & Hend).
  { unfold Archive_file_streams in Hfs. destruct (Archive_try_files_info self) as [files|]; [|done].
    destruct (Archive_try_streams_info self) as [streams|]; [|done].
    rewrite <- (Z2Nat.id (Archive_num_files self)) in Hfs by done.
    destruct (file_streams_listed _ _ _ _ (Ht _ eq_refl) Hfs) as (es & locs & Hf & Hlen & He).
    exists es, locs. rewrite He. split_and!; [done|done|done|]. cbn. lia. }
  pose proof (length_bind_entries es locs (fh_count _ _ _ Hf)) as Hitems.
  exists plans, packs, (bind_entries es locs). split_and!; try done.
  - split; [done| |rewrite Hitems, Hlen; lia]. split; [|done|rewrite Hend, Hitems, Hlen; lia|lia].
    exists es, locs. split_and!; [done|done|lia].
  - apply FileStreams_map_all_spec; [done|lia].
  - unfold zlen. lia.
Qed.

(** What a run of a session promises. *)
Lemma session_run_verified `{Nom} `{Crc32} `{LzmaMemory} `{Decoders} `{BlockCipher} `{Sha256}
    retries io_fuel io_sizes self config session trace session' :
  (∀ k, 0 < io_sizes k) → decoders_bounded → limits_ok (rc_options config) →
  (∀ streams, Archive_try_streams_info self = Ok streams → tables_ok streams) → 0 ≤ Archive_num_files self →
  Archive_read_session_with_options self config = Ok session →
  session_run retries io_fuel io_sizes session trace session' →
  ∃ fs items, Archive_file_streams self = Ok fs ∧
    FileStreams_map_all (S (Z.to_nat (Archive_num_files self))) fs = Ok items ∧ zlen items = Archive_num_files self ∧
    StronglySorted Z.lt (map rq_index trace) ∧
    Forall (served (archive_read retries self config) items) trace ∧
    (∀ E index (callback : E → Strategy (result unit R7zError * E)) env r session'' env',
       ArchiveReadSession_read_entry retries io_fuel io_sizes session' index callback env = (r, session'', env') →
       if decide (session_next session' ≤ index < Archive_num_files self) then session_next session'' = index + 1
       else r = Err (InvalidOptions "read session requires increasing valid entry indexes") ∧
            session'' = session' ∧ env' = env) ∧
    ∀ v session'', ArchiveReadSession_finish io_fuel io_sizes session' = (Ok v, session'') →
      v = Operation.Incomplete ∨ Forall (served (archive_stream retries self config (verified_mode v)) items) trace.
Proof.
  intros Hsizes Hdec Hlim Ht Hn Hs Hrun.
  destruct (session_start_at retries _ _ _ Hlim Ht Hn Hs)
    as (plans & packs & items & Hplans & Hat & Hfs & Hpacks & Hsrc & Hpw & Hm & Hall & Hz).
  destruct (session_run_spec retries io_fuel io_sizes Hsizes Hdec plans Hplans items _ _ _ Hrun 0 Hat)
    as (k' & _ & Hat' & Hsame & _ & Hsort & _ & Hserved & Hv).
  exists (as_files session), items. split_and!; [done|done|done|done|..].
  - eapply Forall_impl; [exact Hserved|]. intros q. apply served_mono. intros loc b Hr.
    rewrite Hsrc, Hpw in Hr. by exists (as_files session), packs.
  - intros E index callback env r session'' env' Hreq.
    pose proof (session_request retries io_fuel io_sizes Hsizes Hdec plans Hplans items _ _ _ _ _ _ _ _ Hat' Hreq) as Hstep.
    rewrite (session_at_next _ _ _ _ _ Hat'). unfold zlen in Hz. rewrite <- Hz. case_decide; [|done].
    destruct Hstep as [Hat'' _]. rewrite (session_at_next _ _ _ _ _ Hat''). lia.
  - intros v session'' Hf.
    destruct (session_finish retries io_fuel io_sizes Hsizes plans items _ _ _ _ Hat' Hf) as (_ & Hsame' & Hst' & Hk & Hveq).
    pose proof (Hveq _ eq_refl) as ->. destruct Hk as [Hk|Hk]; [by left|]. destruct Hv as [Hv|[Hv _]]; [left; auto|right].
    eapply Forall_impl; [exact Hv|]. intros q. apply served_mono. intros loc b Hr. apply Hk in Hr.
    pose proof (same_archive_trans _ _ _ Hsame Hsame') as (Hsrc' & Hpw' & Hm' & _).
    destruct Hr as (active & ss & data & Hr & Hh & Hw). exists (as_files session), packs. split_and!; [done|done|].
    exists active, ss, data. rewrite <- Hsrc, <- Hpw, <- Hsrc', <- Hpw'. split_and!; [done|done|].
    destruct Hw as [Hw|(_ & Hcrc & Hc)]; [by left|right]. split; [|done].
    by destruct (ed_verification (as_decoder session'')).
Qed.

(** C8. In an archive whose folders iterate to the end (each folder's substreams can be
    counted and cut), a session keeps its promises over any sequence of requests, successful
    or not, and of completed folders: the requests that succeed have increasing indices; each was
    given the entry that the traversal of the archive has at its index, and a beginning of
    the bytes its folder's decoder gave, with the declared size and digest; a request out
    of order leaves everything as it was, and any other request uses up its index, also
    when it fails. When the session finishes without reporting an incomplete read, every
    folder it read from was completed, and when it reports complete folders each of them
    was verified to its end. *)
Theorem session_reads_verified `{Nom} `{Crc32} `{LzmaMemory} `{Decoders} `{BlockCipher} `{Sha256}
    retries io_fuel io_sizes self config session trace session' :
  (∀ k, 0 < io_sizes k) → decoders_bounded → limits_ok (rc_options config) →
  (∀ streams, Archive_try_streams_info self = Ok streams → tables_ok streams) → 0 ≤ Archive_num_files self →
  Archive_read_session_with_options self config = Ok session →
  session_run retries io_fuel io_sizes session trace session' →
  ∃ fs items, Archive_file_streams self = Ok fs ∧
    FileStreams_map_all (S (Z.to_nat (Archive_num_files self))) fs = Ok items ∧ zlen items = Archive_num_files self ∧
    StronglySorted Z.lt (map rq_index trace) ∧
    Forall (served (archive_read retries self config) items) trace ∧
    (∀ E index (callback : E → Strategy (result unit R7zError * E)) env r session'' env',
       ArchiveReadSession_read_entry retries io_fuel io_sizes session' index callback env = (r, session'', env') →
       if decide (session_next session' ≤ index < Archive_num_files self) then session_next session'' = index + 1
       else r = Err (InvalidOptions "read session requires increasing valid entry indexes") ∧
            session'' = session' ∧ env' = env) ∧
    ∀ v session'', ArchiveReadSession_finish io_fuel io_sizes session' = (Ok v, session'') →
      v = Operation.Incomplete ∨ Forall (served (archive_stream retries self config (verified_mode v)) items) trace.
Proof. apply session_run_verified. Qed.

(** ** Witness *)

#[local] Existing Instances flat_memory stored_decoders counter_cipher flat_hash sum_crc.

Definition sample_request : request :=
  {| rq_env := list bytes; rq_index := 0;
     rq_callback := λ env, ReadNext 2 (λ r,
       match r with Ok b => Finished (Ok tt, env ++ [b]) | Err e => Finished (Err (Io e), env) end);
     rq_before := []; rq_after := [[1; 2]] |}.

Lemma session_reads_verified_witness :
  ∃ self fs items, sample_opened = Ok self ∧ Archive_file_streams self = Ok fs ∧ zlen items = 1 ∧
    served (archive_stream 9 self ArchiveReadConfig_default WholeFolder) items sample_request.
Proof.
  destruct sample_opened as [self|] eqn:Eo; [|vm_compute in Eo; discriminate Eo].
  destruct (Archive_read_session_with_options self ArchiveReadConfig_default) as [session|] eqn:Es;
    [|exfalso; vm_compute in Eo; injection Eo as <-; vm_compute in Es; discriminate Es].
  destruct (ArchiveReadSession_read_entry 9 30 (λ _, 8) session 0 (rq_callback sample_request) [])
    as [[r session1] env1] eqn:Er.
  assert (r = Ok tt ∧ env1 = [[1; 2]]) as [-> ->].
  { vm_compute in Eo. injection Eo as <-. vm_compute in Es. injection Es as <-. vm_compute in Er.
    injection Er as <- _ <-. split; reflexivity. }
  destruct (ArchiveReadSession_finish 30 (λ _, 8) session1) as [f session2] eqn:Ef.
  assert (f = Ok CompleteFolders) as ->.
  { vm_compute in Eo. injection Eo as <-. vm_compute in Es. injection Es as <-. vm_compute in Er.
    injection Er as <-. vm_compute in Ef. injection Ef as <- _. reflexivity. }
  destruct (session_reads_verified 9 30 (λ _, 8) self ArchiveReadConfig_default session [sample_request] session1
    (λ _, eq_refl) stored_decoders_bounded sample_limits) as (fs & items & Hfs & _ & Hz & _ & _ & _ & Hfin).
  - vm_compute in Eo. injection Eo as <-. intros streams Hs. vm_compute in Hs. injection Hs as <-.
    intros s unpack [= <-] [= <-]. do 3 eexists. split; [reflexivity|]. split; [vm_compute; reflexivity|].
    split; [repeat constructor; by compute|]. split; [repeat constructor; by compute|]. intros info Hi. discriminate Hi.
  - vm_compute in Eo. injection Eo as <-. by compute.
  - exact Es.
  - eapply run_served; [exact Er|constructor].
  - exists self, fs, items. split; [reflexivity|]. split; [exact Hfs|].
    split; [rewrite Hz; vm_compute in Eo; injection Eo as <-; reflexivity|].
    destruct (Hfin _ _ Ef) as [Hd|Hserved]; [discriminate Hd|]. exact (Forall_inv Hserved).
Defined.
