(* ===== verification/Opening.v ===== *)
(** * Opening an archive (src/src/archive.rs)

    What a successfully opened archive was checked against: the signature header, the
    range and the digest of the header it points to, and the folders the header was
    decoded from. *)

From stdpp Require Import base numbers list option strings.
From Stdlib Require Import ZArith Lia.
From S2P Require Import Prelude Parsers Folder Error Operation Readers Resources PackInfo StreamInfo FilesInfo Aes DecoderPlan DecoderRun Entries FolderDecode FolderRead FolderBounds FileStreams Locations Headers ArchiveSource PackedSource ArchiveNames EntryReads Archive.

(** ** Specification *)

(** The additional packed streams of a header lie in the archive and have their digests. *)
Definition additional_packs_ok `{Nom} `{Crc32} (data : bytes) (base : Z) (header : Header) : Prop :=
  ∃ pack_info, fst (Header_additional_pack_info header) = Ok pack_info ∧
  ∀ pack, pack_info = Some pack → Forall is_u64 (pack_size pack) → 0 ≤ pack_pos pack →
  ∀ k size, pack_size pack !! k = Some size →
    let a := base + 32 + pack_pos pack + sum_z (take k (pack_size pack)) in
    a + size ≤ zlen data ∧ crc_matches (mjoin (pack_digests pack !! k)) (sub_list a (a + size) data).

(** The external data of a header: the substreams of every folder that the plan of the pending
    header's additional streams has, in order, each folder verified by its own declared size
    and digests. *)
Definition external_given `{Nom} `{Crc32} (streams : StreamInfo) (external : list bytes) : Prop :=
  ∃ pack unpack layouts st folders,
    StreamInfo_packed_folders streams = Ok (pack, unpack) ∧
    FolderPlans_collect (plans_fuel unpack) (FolderPlans_new pack unpack (si_substream_info streams)) = Ok (layouts, st) ∧
    Forall2 verified_folder layouts folders ∧ external = concat folders.

(** The header that header bytes give: alone, or with external data out of the verified
    folders of its additional streams. *)
Definition header_given `{Nom} `{Crc32} (address : bytes → Z) (data : bytes) (base : Z) (b : bytes)
    (header : Header) : Prop :=
  (Header_resolve_archive (place address b) = Ok (ResolvedComplete header) ∧
     additional_packs_ok data base header) ∨
  ∃ pending external,
    Header_resolve_archive (place address b) = Ok (RequiresExternalFolders pending) ∧
    external_given (ph_additional pending) external ∧
    PendingHeader_resolve_with pending (λ _, Ok (map (place address) external)) = Ok header.

(** ** Lemmas *)

Section opening.
  Context `{Nom} `{Crc32} `{LzmaMemory} `{Decoders} `{BlockCipher} `{Sha256} `{BytesLayout}.
  Context (retries io_fuel : nat) (io_sizes : nat → Z) (address : bytes → Z).
  Context (source : ArchiveSource) (data : bytes) (Hsource : source_is source data).

Lemma additional_ok base header :
  0 ≤ base → verify_additional_stream_crcs source base header = Ok tt → additional_packs_ok data base header.
Proof.
  intros Hb. unfold verify_additional_stream_crcs, additional_packs_ok.
  destruct (fst (Header_additional_pack_info header)) as [[pack|]|]; [|intros _; by eexists|done].
  unfold verify_additional_pack_crcs.
  destruct (checked_add_u64 base 32) as [start|] eqn:E1; [|done]. apply checked_add_u64_ok in E1 as [-> _].
  destruct (checked_add_u64 _ (pack_pos pack)) as [start|] eqn:E2; [|done]. apply checked_add_u64_ok in E2 as [-> _].
  intros Hv. eexists. split; [done|]. intros pack' [= <-] Hsz Hpos.
  rewrite (verify_packs_spec source data Hsource) in Hv; [|lia|lia|done].
  intros k size Hk. specialize (Hv k size Hk). cbn in Hv. by rewrite Z.add_0_r in Hv.
Qed.

Lemma charge_metadata_ok budget n budget' :
  charge_metadata budget n = Ok budget' →
  ob_metadata budget' = ob_metadata budget + n ∧ ob_limits budget' = ob_limits budget ∧
  ob_metadata budget' ≤ max_metadata_bytes (ob_limits budget).
Proof.
  unfold charge_metadata, checked_add. case_decide; [|done]. case_decide; [done|]. intros [= <-]. cbn. split_and!; [done|done|lia].
Qed.

Lemma external_plan_new streams budget plan budget' :
  ExternalFolderPlan_new streams budget = (Ok plan, budget') →
  ∃ pack unpack, StreamInfo_packed_folders streams = Ok (pack, unpack) ∧
    fls_plans (ef_folders plan) = FolderPlans_new pack unpack (si_substream_info streams).
Proof.
  unfold ExternalFolderPlan_new. destruct (StreamInfo_packed_folders streams) as [[pack unpack]|]; [|done].
  destruct (FolderLayouts_preflight _ _ _ _) as [validated|] eqn:Ev; [|done]. cbn [map_err].
  apply preflight_collect in Ev as [Hplans _].
  destruct (external_slot_bytes _); [|done]. destruct (charge_metadata _ _); [|done].
  destruct (charge_metadata _ _); [|done]. intros [= <- _]. by exists pack, unpack.
Qed.

Lemma external_data_given base streams budget password external budget' :
  decode_additional_folder_data retries io_fuel io_sizes source base streams budget password = (Ok external, budget') →
  external_given streams external.
Proof.
  unfold decode_additional_folder_data.
  destruct (ExternalFolderPlan_new _ _) as [[plan|] budget3] eqn:Ep; [|done].
  apply external_plan_new in Ep as (pack & unpack & Hs & Hplans).
  destruct (PackedSource_new _ _ _) as [packs|]; [|done]. unfold ExternalFolderPlan_decode. rewrite Hplans.
  intros (layouts & st & folders & Hc & Hv & -> & _)%external_loop_spec.
  by exists pack, unpack, layouts, st, folders.
Qed.

Lemma parse_header_spec base b budget password header budget' :
  0 ≤ base →
  parse_header_with_external_data retries io_fuel io_sizes address source base b budget password = (Ok header, budget') →
  ob_metadata budget + zlen b ≤ max_metadata_bytes (ob_limits budget) ∧ header_given address data base b header.
Proof.
  intros Hb. unfold parse_header_with_external_data, header_given.
  destruct (charge_metadata budget (zlen b)) as [budget1|] eqn:Ec; [|done].
  apply charge_metadata_ok in Ec as (Hm & _ & Hle).
  destruct (Header_resolve_archive (place address b)) as [[h|pending]|]; [| |done].
  - destruct (verify_additional_stream_crcs source base h) as [[]|] eqn:Ev; [|done]. intros [= <- <-].
    split; [lia|]. left. split; [done|]. by apply additional_ok.
  - destruct (decode_additional_folder_data _ _ _ source base (ph_additional pending) budget1 password)
      as [external budget2] eqn:Ed. intros [= Hr <-]. split; [lia|]. right.
    destruct external as [external|e]; [|by unfold PendingHeader_resolve_with in Hr].
    exists pending, external. split_and!; [done| |by rewrite <- Hr].
    by eapply external_data_given.
Qed.

(** The folder the encoded header is in. *)
Lemma decode_encoded_spec base encoded password budget header budget' :
  0 ≤ base →
  decode_encoded_header retries io_fuel io_sizes address source base encoded password budget = (Ok header, budget') →
  ∃ folder b, EncodedHeader_folder encoded (metadata_remaining budget) = Ok folder ∧
    zlen b = lo_unpack_size folder ∧ crc_matches (lo_crc folder) b ∧ zlen b ≤ metadata_remaining budget ∧
    header_given address data base b header.
Proof.
  intros Hb. unfold decode_encoded_header.
  destruct (EncodedHeader_folder encoded (metadata_remaining budget)) as [folder|] eqn:Ef; cbn [map_err]; [|done].
  destruct (PackedSource_new _ _ _) as [packs|]; [|done]. unfold decode_metadata_folder.
  destruct (FolderLayout_bind folder _ budget) as [[ready|] budget1] eqn:Eb; [|done].
  destruct (bind_ready _ _ _ _ _ Eb) as (Hl & Hu & Hc). unfold ReadyFolder_collect.
  destruct (ok_or (usize_try_from _) _); [|done]. destruct (ok_or (checked_add _ _) _) as [read_limit|]; [|done].
  case_decide as Hlim; [done|]. destruct (ReadyDecoder_start _ _ _ _) as [[reader|] budget2]; [|done].
  destruct (FolderReader_read_bounded_to_vec _ _ _ _) as [out|]; [|done].
  destruct (verify_folder_output _ _ _ out) as [decoded|] eqn:Ev; [|done].
  apply verify_folder_output_spec in Ev as (-> & Hz & Hcrc). cbn [dec_bytes].
  intros [_ Hg]%parse_header_spec; [|done]. exists folder, out. split_and!; [done|congruence| |lia|done].
  intros x Hx. apply Hcrc. congruence.
Qed.

End opening.

Lemma verdict_fields `{Crc32} data p sig :
  Forall is_u8 data → verdict data p = Valid sig →
  0 ≤ sh_next_header_offset sig ∧ 0 ≤ sh_next_header_size sig.
Proof.
  intros Hd. unfold verdict. case_decide; [done|]. unfold SignatureHeader_parse. case_decide; [done|].
  case_decide; [|done]. intros [= <-]. cbn [sh_next_header_offset sh_next_header_size].
  split; apply from_le_bytes_bound, Forall_take, Forall_drop, Forall_take, Forall_drop, Hd.
Qed.

(** ** Property *)

(** C7. An archive that opens was found and verified: its signature header is the first
    one with the right checksum in the scanned prefix of the source; the header it points
    to lies in the source, is no longer than the metadata limit and has the digest the
    signature header declares; and the resolved header is what these bytes give or, for
    an encoded header, what the bytes of its folder give, which have the folder's size and
    digest, both together within the metadata limit. Additional packed streams were verified
    as well; and external data are the substreams of exactly the folders of the header's
    additional streams, each folder with the size and the digests declared for it. *)
Theorem opened_archive_verified `{Nom} `{Crc32} `{LzmaMemory} `{Decoders} `{BlockCipher} `{Sha256} `{BytesLayout}
    retries io_fuel io_sizes address source data identity password options self :
  source_is source data → Forall is_u8 data → zlen data + 32 ≤ u64_max → 0 ≤ max_signature_scan_bytes options →
  Archive_from_source_with_password retries io_fuel io_sizes address source identity password options = Ok self →
  let p := ar_base_offset self in let sig := ar_signature self in
  let scan_len := Z.min (zlen data) (max_signature_scan_bytes options) in
  (is_candidate data scan_len p ∧ verdict data p = Valid sig ∧
   ∀ q, q < p → is_candidate data scan_len q → ¬ is_valid (verdict data q)) ∧
  let start := p + 32 + sh_next_header_offset sig in
  let next := sub_list start (start + sh_next_header_size sig) data in
  start + sh_next_header_size sig ≤ zlen data ∧ zlen next = sh_next_header_size sig ∧
  zlen next ≤ max_metadata_bytes options ∧ crc32 next = sh_next_header_crc sig ∧ ar_source self = source ∧
  match ar_encoded_header self with
  | None => NextHeader_parse (place address next) = Ok Plain ∧ header_given address data p next (ar_header self)
  | Some encoded => NextHeader_parse (place address next) = Ok (Encoded encoded) ∧
      ∃ limit folder b, EncodedHeader_folder encoded limit = Ok folder ∧ zlen b = lo_unpack_size folder ∧
        crc_matches (lo_crc folder) b ∧ zlen next + zlen b ≤ max_metadata_bytes options ∧
        header_given address data p b (ar_header self)
  end.
Proof.
  intros Hsource Hbytes Hmax Hscan. unfold Archive_from_source_with_password, Archive_from_source_with_budget.
  pose proof Hsource as (Hu & Hlen & Hread). rewrite Hlen.
  pose proof (signature_search source data (max_signature_scan_bytes options) Hsource Hmax Hscan) as Hsig. cbv zeta in Hsig.
  destruct (ArchiveSource_find_signature source _) as [[p sig]|]; [|done].
  destruct Hsig as (Hcand & Hverdict & Hfirst). pose proof (verdict_fields _ _ _ Hbytes Hverdict) as [Hoff Hsize].
  pose proof Hcand as (Hp & _). case_decide as Hmeta; [done|].
  destruct (checked_add_u64 p 32) as [a|] eqn:Ea; [|done]. apply checked_add_u64_ok in Ea as [-> _].
  destruct (checked_add_u64 _ (sh_next_header_offset sig)) as [start|] eqn:Es; [|done].
  apply checked_add_u64_ok in Es as [-> _]. set (start := p + 32 + sh_next_header_offset sig).
  destruct (checked_range_u64 _ _ _) as [range|] eqn:Er; [|done].
  apply (checked_range_spec source data Hsource) in Er as [-> Hend]; [|lia|done].
  destruct (ArchiveSource_read_range_to_vec _ _ _) as [next|] eqn:En; [|done].
  assert (next = sub_list start (start + sh_next_header_size sig) data) as ->.
  { revert En. unfold ArchiveSource_read_range_to_vec, ByteRange_len. cbn [br_start br_end]. case_decide; [done|].
    destruct (ok_or (usize_try_from _) _) as [n|] eqn:Eu; [|done]. cbn.
    assert (n = start + sh_next_header_size sig - start) as ->.
    { unfold usize_try_from in Eu. case_decide; [|done]. by injection Eu as <-. }
    rewrite Hread by lia. case_decide; [|done]. by intros [= <-]. }
  assert (zlen (sub_list start (start + sh_next_header_size sig) data) = sh_next_header_size sig) as Hz
    by (rewrite zlen_sub_list; lia).
  set (next := sub_list start _ data) in *. case_decide as Hcrc; [done|].
  destruct (NextHeader_parse (place address next)) as [[|encoded]|] eqn:Eh; [| |done].
  - destruct (parse_header_with_external_data _ _ _ _ _ _ _ _ _) as [[header|] b'] eqn:Ep; [|done].
    intros [= <-]. cbn. apply (parse_header_spec _ _ _ _ _ _ Hsource) in Ep as [_ Hg]; [|lia].
    split_and!; try done.
    change (zlen next ≤ max_metadata_bytes options). lia.
  - destruct (charge_metadata _ (zlen next)) as [budget1|] eqn:Ec; [|done].
    apply charge_metadata_ok in Ec as (Hm & Hl & Hle).
    destruct (decode_encoded_header _ _ _ _ _ _ _ _ _) as [[header|] b'] eqn:Ed; [|done].
    intros [= <-]. cbn. apply (decode_encoded_spec _ _ _ _ _ _ Hsource) in Ed as (folder & b & Hf & Hb & Hc & Hr & Hg); [|lia].
    fold start next. split_and!; try done; [lia|]. exists (metadata_remaining budget1), folder, b. split_and!; try done.
    unfold metadata_remaining in Hr. rewrite Hm, Hl in Hr. cbn in Hr. lia.
Qed.

(** ** Witness *)

#[local] Existing Instances flat_memory stored_decoders counter_cipher flat_hash sum_crc sample_layout.

Lemma opened_archive_verified_witness :
  ∃ self, sample_opened = Ok self ∧ ar_base_offset self = 0 ∧
    sub_list 36 (36 + zlen sample_next_header) sample_archive_bytes = sample_next_header ∧
    crc32 sample_next_header = sh_next_header_crc (ar_signature self) ∧
    header_given (λ _, 4096) sample_archive_bytes 0 sample_next_header (ar_header self).
Proof.
  destruct sample_opened as [self|] eqn:Eo; [|vm_compute in Eo; discriminate Eo]. exists self.
  destruct (opened_archive_verified 9 30 (λ _, 8) (λ _, 4096) (ArchiveSource_from_bytes sample_archive_bytes)
    sample_archive_bytes 0 None ResourceLimits_default self) as (_ & _ & _ & _ & Hcrc & _ & Hh).
  - apply bytes_source_is. by compute.
  - repeat constructor; by compute.
  - by compute.
  - by compute.
  - exact Eo.
  - assert (ar_base_offset self = 0 ∧ ar_encoded_header self = None ∧
      sh_next_header_offset (ar_signature self) = 4 ∧ sh_next_header_size (ar_signature self) = zlen sample_next_header)
      as (Ep & Ee & Eoff & Es) by (vm_compute in Eo; injection Eo as <-; split_and!; reflexivity).
    rewrite Ep, Eoff, Es in Hcrc, Hh. rewrite Ee in Hh. change (0 + 32 + 4) with 36 in Hcrc, Hh.
    assert (sub_list 36 (36 + zlen sample_next_header) sample_archive_bytes = sample_next_header) as En by (vm_compute; reflexivity).
    rewrite En in Hcrc, Hh. split_and!; [reflexivity|exact Ep|exact En|exact Hcrc|exact (proj2 Hh)].
Defined.
