(* ===== verification/Extraction.v ===== *)
(** * Extraction into a directory (src/src/archive.rs, src/src/extraction.rs)

    [extract_all] against a destination that is only known by its operations: where it
    may write, whatever happens, and what it has written when it succeeds. *)

From stdpp Require Import base numbers list option strings relations.
From Stdlib Require Import ZArith Lia.
From S2P Require Import Prelude Folder Error Operation Readers Resources PackInfo StreamInfo FilesInfo Aes DecoderPlan DecoderRun Entries FolderDecode FolderRead FolderBounds FileStreams Locations Headers ArchiveSource PackedSource ArchiveNames EntryReads Archive.

(** ** The destination *)

Abbreviation path := (list (list Z)).

(** The operations of the directory handle ([cap_std::fs::Dir]) and of the files it
    opens; [D] is the state of the file system. *)
Class Destination (D : Type) := {
  dst_file : Type;
  dst_create_dir_all : path → D → result unit IoError * D;
  dst_remove_file : path → D → result unit IoError * D;
  dst_create_new : path → D → result dst_file IoError * D;
  dst_write : dst_file → bytes → D → result Z IoError * D;
  dst_flush : dst_file → D → result unit IoError * D
}.

Definition BUFFER_SIZE : N := 8 * 1024.

Section extraction.
  Context `{Nom} `{Crc32} `{LzmaMemory} `{Decoders} `{BlockCipher} `{Sha256} {D : Type} `{Destination D}.
  Context (retries io_fuel : nat) (io_sizes : nat → Z).

Definition create_file (destination : D) (p : path) : result dst_file IoError * D :=
  match dst_remove_file p destination with
  | (Ok _, destination) => dst_create_new p destination
  | (Err error, destination) =>
      if decide (IoError_kind error = NotFound) then dst_create_new p destination else (Err error, destination)
  end.

(** [BufWriter::flush_buf]: what is left in the buffer, too. A file takes at most what it
    is given. *)
Fixpoint flush_buf (fuel : nat) (file : dst_file) (buffer : bytes) (destination : D) :
    result unit IoError * bytes * D :=
  match fuel with
  | O => (Err io_out_of_fuel, buffer, destination)
  | S fuel =>
      match buffer with
      | [] => (Ok tt, [], destination)
      | _ =>
          match dst_write file buffer destination with
          | (Ok n, destination) =>
              if decide (n ≤ 0) then (Err (IoKind OtherKind "failed to write the buffered data"), buffer, destination)
              else flush_buf fuel file (drop (Z.to_nat n) buffer) destination
          | (Err e, destination) =>
              if interrupted e then flush_buf fuel file buffer destination else (Err e, buffer, destination)
          end
      end
  end.

(** [std::io::copy] into the [BufWriter], which reads whenever its buffer is empty and
    flushes it otherwise, then [BufWriter::flush]. A writer that is dropped tries once
    more to flush its buffer. *)
Fixpoint copy_to_file (fuel : nat) (file : dst_file) (destination : D) : Strategy (result unit R7zError * D) :=
  match fuel with
  | O => Finished (Err R7zOutOfFuel, destination)
  | S fuel =>
      ReadNext BUFFER_SIZE (λ res,
        match res with
        | Ok [] =>
            let '(flushed, destination) := dst_flush file destination in
            Finished (map_err Io flushed, destination)
        | Ok chunk =>
            match flush_buf io_fuel file chunk destination with
            | (Ok _, _, destination) => copy_to_file fuel file destination
            | (Err e, buffer, destination) =>
                let '(_, _, destination) := flush_buf io_fuel file buffer destination in
                Finished (Err (Io e), destination)
            end
        | Err e => if interrupted e then copy_to_file fuel file destination else Finished (Err (Io e), destination)
        end)
  end.

(** [Path::parent], when it is not empty. *)
Definition parent (p : path) : option path :=
  match removelast p with [] => None | p => Some p end.

Definition extract_entry : EntryCallback D := λ info destination,
  match safe_archive_name (ai_name info) with
  | Err e => Finished (Err e, destination)
  | Ok dest_path =>
      let '(created, destination) :=
        match parent dest_path with
        | Some p => dst_create_dir_all p destination
        | None => (Ok tt, destination)
        end in
      match created with
      | Err e => Finished (Err (Io e), destination)
      | Ok _ =>
          match create_file destination dest_path with
          | (Err e, destination) => Finished (Err (Io e), destination)
          | (Ok file, destination) => copy_to_file io_fuel file destination
          end
      end
  end.

(** The directories of the entry list. *)
Fixpoint create_directories (entries : list (Entry unit)) (destination : D) : result unit R7zError * D :=
  match entries with
  | [] => (Ok tt, destination)
  | entry :: entries =>
      match en_kind entry with
      | K_Directory =>
          match safe_archive_name (EntryMetadata_name (en_metadata entry)) with
          | Err e => (Err e, destination)
          | Ok p =>
              match dst_create_dir_all p destination with
              | (Err e, destination) => (Err (R7zError_from e), destination)
              | (Ok _, destination) => create_directories entries destination
              end
          end
      | _ => create_directories entries destination
      end
  end.

(** [destination] is the directory that [open_destination] opened. *)
Definition Archive_extract_all_with_options (self : Archive) (destination : D) (config : ArchiveReadConfig) :
    result unit R7zError * D :=
  match Archive_try_files_info self with
  | Err e => (Err e, destination)
  | Ok files =>
      match create_directories (Entries_collect (Z.to_nat (Archive_num_files self))
              (Entries_new files (Archive_num_files self))) destination with
      | (Err e, destination) => (Err e, destination)
      | (Ok _, destination) =>
          Archive_stream_files_with_options retries io_fuel io_sizes self config extract_entry destination
      end
  end.

End extraction.

(** ** Specification *)

(** A path below the directory it is joined to. *)
Definition safe_path (p : path) : Prop := p ≠ [] ∧ Forall normal_component p.

(** What can happen to a destination that is only changed below itself. *)
Inductive confined {D} `{Destination D} : D → D → Prop :=
| confined_refl d : confined d d
| confined_trans d1 d2 d3 : confined d1 d2 → confined d2 d3 → confined d1 d3
| confined_dir p d : safe_path p → confined d (snd (dst_create_dir_all p d))
| confined_remove p d : safe_path p → confined d (snd (dst_remove_file p d))
| confined_new p d : safe_path p → confined d (snd (dst_create_new p d))
| confined_write p d0 d1 file b d :
    safe_path p → dst_create_new p d0 = (Ok file, d1) → confined d (snd (dst_write file b d))
| confined_flush p d0 d1 file d :
    safe_path p → dst_create_new p d0 = (Ok file, d1) → confined d (snd (dst_flush file d)).

(** Bytes written to a file, in as many writes as it takes. *)
Inductive file_written {D} `{Destination D} (file : dst_file) : bytes → D → D → Prop :=
| written_none d : file_written file [] d d
| written_part b n d d1 d' : 0 < n → dst_write file b d = (Ok n, d1) →
    file_written file (drop (Z.to_nat n) b) d1 d' → file_written file b d d'
| written_retry b e d d1 d' : interrupted e = true → dst_write file b d = (Err e, d1) →
    file_written file b d1 d' → file_written file b d d'
| written_more b c d d1 d' : file_written file b d d1 → file_written file c d1 d' → file_written file (b ++ c) d d'.

(** An entry extracted: its directory, then a new file at its safe path with its
    content. *)
Definition entry_extracted {D} `{Destination D} (info : ArchiveEntryInfo) (content : bytes) (d d' : D) : Prop :=
  ∃ p file d1 d2 d3, safe_archive_name (ai_name info) = Ok p ∧
    match parent p with
    | Some q => dst_create_dir_all q d = (Ok tt, d1)
    | None => d1 = d
    end ∧ create_file d1 p = (Ok file, d2) ∧ file_written file content d2 d3 ∧ dst_flush file d3 = (Ok tt, d').

(** ** Lemmas *)

(** Every outcome a strategy can have. *)
Fixpoint always {A} (P : A → Prop) (s : Strategy A) : Prop :=
  match s with
  | Finished r => P r
  | ReadNext n k => ∀ res, always P (k res)
  end.

Lemma always_run {A S} `{Reader S} (P : A → Prop) (s : Strategy A) (c : S) :
  always P s → P (fst (run_consumer s c)).
Proof.
  revert c. induction s as [r|n k IH]; intros c Hs; cbn [run_consumer]; [done|].
  destruct (reader_read c (Z.of_N n)) as [res c']. by apply IH.
Qed.

(** What the callbacks do to their state is all that happens to it. *)
Section keeping.
  Context `{Nom} `{Crc32} `{LzmaMemory} `{Decoders} `{BlockCipher} `{Sha256} {E : Type}.
  Context (retries io_fuel : nat) (io_sizes : nat → Z).
  Context (R : E → E → Prop) `{!PreOrder R} (callback : EntryCallback E).
  Context (Hcallback : ∀ info env, always (λ out, R env (snd out)) (callback info env)).

Lemma decoder_read_keeps self entry env r self' env' :
  EntryDecoder_read retries io_fuel io_sizes self entry callback env = (r, self', env') → R env env'.
Proof.
  unfold EntryDecoder_read. destruct (monitor_check (ed_budget self)) as [checked b].
  destruct checked; [|by intros [= _ _ <-]]. destruct (re_content entry) as [|location].
  - pose proof (always_run _ _ Empty (Hcallback (re_info entry) env)) as Hr.
    destruct (run_consumer (callback (re_info entry) env) Empty) as [[res env1] c]. by destruct res; intros [= _ _ <-].
  - unfold EntryDecoder_read_stream. destruct (EntryDecoder_open _ _ _ _ location) as [[active|] self1]; [|by intros [= _ _ <-]].
    destruct (ActiveFolder_skip_to _ _ _ _ _) as [[active1|] b1]; [|by intros [= _ _ <-]].
    unfold ActiveFolder_read_stream_with.
    destruct (Substreams_next _) as [[[s|] streams]|]; [|by intros [= _ _ <-]..].
    pose proof (always_run _ _ (stream_content active1 s b1) (Hcallback (re_info entry) env)) as Hr.
    destruct (run_consumer (callback (re_info entry) env) (stream_content active1 s b1)) as [[res env1] c].
    cbn [fst snd] in Hr. destruct (close_stream _ _ _ _ _ _) as [[?|] ?]; by intros [= _ _ <-].
Qed.

Lemma serve_file_keeps self file env r self' env' :
  serve_file retries io_fuel io_sizes self file callback env = (r, self', env') → R env env'.
Proof.
  unfold serve_file. destruct (ReadableEntry_from_file file); [apply decoder_read_keeps|by intros [= _ _ <-]].
Qed.

Lemma serve_all_keeps fuel files self env r self' env' :
  serve_all retries io_fuel io_sizes fuel files self callback env = (r, self', env') → R env env'.
Proof.
  revert files self env. induction fuel as [|fuel IH]; intros files self env; cbn [serve_all]; [by intros [= _ _ <-]|].
  destruct (FileStreams_next files) as [[[file|]|e] files']; [|by intros [= _ _ <-]..].
  destruct (serve_file _ _ _ self file callback env) as [[res self1] env1] eqn:Es. apply serve_file_keeps in Es.
  destruct res; [|by intros [= _ _ <-]]. intros Hr%IH. by etrans.
Qed.

Lemma stream_all_keeps self config env r env' :
  Archive_stream_files_with_options retries io_fuel io_sizes self config callback env = (r, env') → R env env'.
Proof.
  unfold Archive_stream_files_with_options, Archive_stream_files_impl. cbn.
  unfold Archive_stream_entry_selection. destruct (Archive_file_streams self) as [files|]; [|by intros [= _ <-]].
  destruct (Archive_decoder _ _ _ _) as [decoder|]; [|by intros [= _ <-]].
  destruct (serve_all _ _ _ _ files decoder callback env) as [[res d] env1] eqn:Es. apply serve_all_keeps in Es.
  by intros [= _ <-].
Qed.

End keeping.

Lemma safe_archive_name_path name p : safe_archive_name name = Ok p → safe_path p.
Proof.
  intros [Ha ->]%safe_archive_name_ok. split; [apply Ha|]. apply filter_normal; apply Ha.
Qed.

Lemma parent_safe p q : safe_path p → parent p = Some q → safe_path q.
Proof.
  unfold parent. intros [Hne Hn]. destruct (removelast p) as [|x l] eqn:Er; [done|]. intros [= <-]. split; [done|].
  rewrite <- Er. rewrite (app_removelast_last x Hne) in Hn. by apply Forall_app in Hn as [Hn _].
Qed.

Section writing.
  Context {D : Type} `{Destination D} (io_fuel : nat).

Lemma confined_dir' p d r d' : safe_path p → dst_create_dir_all p d = (r, d') → confined d d'.
Proof. intros Hp Hc. pose proof (confined_dir p d Hp) as Hd. by rewrite Hc in Hd. Qed.

Lemma create_file_confined p d r d' :
  safe_path p → create_file d p = (r, d') →
  confined d d' ∧ ∀ file, r = Ok file → ∃ d0, dst_create_new p d0 = (Ok file, d').
Proof.
  intros Hp. unfold create_file. pose proof (confined_remove p d Hp) as Hr.
  destruct (dst_remove_file p d) as [res d1]. cbn [snd] in Hr. pose proof (confined_new p d1 Hp) as Hn.
  assert (∀ r d', dst_create_new p d1 = (r, d') →
    confined d d' ∧ ∀ file, r = Ok file → ∃ d0, dst_create_new p d0 = (Ok file, d')) as Hnew.
  { intros r1 d2 Hc. rewrite Hc in Hn. split; [by eapply confined_trans|]. intros file ->. by exists d1. }
  destruct res; [apply Hnew|]. case_decide; [apply Hnew|]. by intros [= <- <-].
Qed.

Lemma flush_buf_written fuel file buffer d rest d' :
  flush_buf fuel file buffer d = (Ok tt, rest, d') → file_written file buffer d d'.
Proof.
  revert buffer d. induction fuel as [|fuel IH]; intros buffer d; cbn [flush_buf]; [done|].
  destruct buffer as [|b buffer]; [intros [= <- <-]; constructor|].
  destruct (dst_write file (b :: buffer) d) as [[n|e] d1] eqn:Ew.
  - case_decide; [done|]. intros Hf%IH. eapply written_part; [|exact Ew|exact Hf]. lia.
  - destruct (interrupted e) eqn:Ei; [|done]. intros Hf%IH. by eapply written_retry.
Qed.

Lemma copy_to_file_written fuel file d seen d' :
  saw (copy_to_file io_fuel fuel file d) seen (Ok tt, d') →
  ∃ d1, file_written file seen d d1 ∧ dst_flush file d1 = (Ok tt, d').
Proof.
  revert d seen. induction fuel as [|fuel IH]; intros d seen; cbn [copy_to_file]; [by inversion 1|].
  inversion 1 as [|? ? c s ? Hc Hs|? ? e s ? Hs]; subst.
  - destruct c as [|b c].
    + destruct (dst_flush file d) as [[[]|e] d1] eqn:Ef; inversion Hs; subst. exists d. split; [constructor|done].
    + destruct (flush_buf io_fuel file (b :: c) d) as [[[[]|e] rest] d1] eqn:Ef.
      * apply IH in Hs as (d2 & Hw & Hfl). exists d2. split; [|done]. eapply written_more; [|exact Hw].
        by eapply flush_buf_written.
      * destruct (flush_buf io_fuel file rest d1) as [[? ?] ?]. inversion Hs.
  - destruct (interrupted e); [by apply IH|inversion Hs].
Qed.

Lemma copy_to_file_reads_all {S} `{Reader S} fuel file d (s : SubstreamReader S) d' s' :
  su_ready s → run_consumer (copy_to_file io_fuel fuel file d) s = ((Ok tt, d'), s') → su_remaining s' = 0.
Proof.
  revert d s. induction fuel as [|fuel IH]; intros d s Hs; cbn [copy_to_file run_consumer]; [done|].
  destruct (reader_read s (Z.of_N BUFFER_SIZE)) as [r s1] eqn:Er.
  destruct (substream_read_spec _ _ _ _ Hs (N2Z.is_nonneg _) Er) as (c & Hd & _ & Hr & _).
  pose proof (su_after_ready _ _ _ Hs Hd) as Hs1. destruct r as [[|b l]|e].
  - destruct Hr as [<- Hend]. destruct (dst_flush file d) as [[[]|e] d1]; [|done]. cbn. intros [= <- <-].
    rewrite (sa_remaining _ _ _ Hd), zlen_nil, Hend; [done|unfold BUFFER_SIZE; lia|done].
  - destruct (flush_buf io_fuel file (b :: l) d) as [[[[]|e] rest] d1]; [by apply IH|].
    by destruct (flush_buf io_fuel file rest d1) as [[? ?] ?].
  - destruct (interrupted e); [by apply IH|done].
Qed.

Section file.
Context (p : path) (file : dst_file) (d0 d1 : D) (Hp : safe_path p) (Hnew : dst_create_new p d0 = (Ok file, d1)).

Lemma flush_buf_confined fuel buffer d r rest d' : flush_buf fuel file buffer d = (r, rest, d') → confined d d'.
Proof.
  revert buffer d. induction fuel as [|fuel IH]; intros buffer d; cbn [flush_buf]; [intros [= _ _ <-]; constructor|].
  destruct buffer as [|b buffer]; [intros [= _ _ <-]; constructor|].
  pose proof (confined_write p d0 d1 file (b :: buffer) d Hp Hnew) as Hw.
  destruct (dst_write file (b :: buffer) d) as [[n|e] d2]; cbn [snd] in Hw.
  - case_decide; [by intros [= _ _ <-]|]. intros Hf%IH. by eapply confined_trans.
  - destruct (interrupted e); [|by intros [= _ _ <-]]. intros Hf%IH. by eapply confined_trans.
Qed.

Lemma copy_to_file_confined fuel d dstart :
  confined dstart d → always (λ out, confined dstart (snd out)) (copy_to_file io_fuel fuel file d).
Proof.
  revert d. induction fuel as [|fuel IH]; intros d Hd; cbn [copy_to_file always]; [done|]. intros [[|b c]|e].
  - pose proof (confined_flush p d0 d1 file d Hp Hnew) as Hf. destruct (dst_flush file d). by eapply confined_trans.
  - destruct (flush_buf io_fuel file (b :: c) d) as [[[[]|e] rest] d2] eqn:Ef; apply flush_buf_confined in Ef.
    + apply IH. by eapply confined_trans.
    + destruct (flush_buf io_fuel file rest d2) as [[? ?] d3] eqn:Ef2. apply flush_buf_confined in Ef2.
      eapply confined_trans; [exact Hd|]. by eapply confined_trans.
  - destruct (interrupted e); [by apply IH|done].
Qed.

End file.

Lemma extract_entry_confined info d : always (λ out, confined d (snd out)) (extract_entry io_fuel info d).
Proof.
  unfold extract_entry. destruct (safe_archive_name (ai_name info)) as [p|] eqn:Es; [|constructor].
  apply safe_archive_name_path in Es.
  assert (∀ created d1, match parent p with Some q => dst_create_dir_all q d | None => (Ok tt, d) end = (created, d1) →
    confined d d1) as Hdir.
  { intros created d1. destruct (parent p) as [q|] eqn:Eq; [|intros [= _ <-]; constructor].
    intros Hc. eapply confined_dir'; [|exact Hc]. by eapply parent_safe. }
  destruct (match parent p with Some q => _ | None => _ end) as [[[]|e] d1]; specialize (Hdir _ _ eq_refl); [|done].
  destruct (create_file d1 p) as [[file|e] d2] eqn:Ec; destruct (create_file_confined _ _ _ _ Es Ec) as [Hc Hf].
  - destruct (Hf _ eq_refl) as [d0 Hnew]. eapply copy_to_file_confined; [exact Es|exact Hnew|]. by eapply confined_trans.
  - by eapply confined_trans.
Qed.

(** A callback that accepts has extracted all it saw. *)
Lemma extract_entry_saw info d seen d' :
  saw (extract_entry io_fuel info d) seen (Ok tt, d') → entry_extracted info seen d d'.
Proof.
  unfold extract_entry, entry_extracted. destruct (safe_archive_name (ai_name info)) as [p|]; [|by inversion 1].
  assert (∀ d1, match parent p with Some q => dst_create_dir_all q d | None => (Ok tt, d) end = (Ok tt, d1) →
    match parent p with Some q => dst_create_dir_all q d = (Ok tt, d1) | None => d1 = d end) as Hdir.
  { intros d1. destruct (parent p); [done|]. by intros [= ->]. }
  destruct (match parent p with Some q => _ | None => _ end) as [[[]|e] d1]; [|by inversion 1].
  destruct (create_file d1 p) as [[file|e] d2] eqn:Ec; [|by inversion 1].
  intros (d3 & Hw & Hf)%copy_to_file_written. exists p, file, d1, d2, d3. by split_and!; [|apply Hdir|..].
Qed.

Lemma extract_entry_reads_all info d : reads_all (extract_entry io_fuel info d).
Proof.
  intros S HS s d' s' Hs. unfold extract_entry. destruct (safe_archive_name (ai_name info)) as [p|]; [|done].
  destruct (match parent p with Some q => _ | None => _ end) as [[[]|e] d1]; [|done].
  destruct (create_file d1 p) as [[file|e] d2]; [|done]. by apply copy_to_file_reads_all.
Qed.

Lemma create_directories_confined entries d r d' : create_directories entries d = (r, d') → confined d d'.
Proof.
  revert d. induction entries as [|entry entries IH]; intros d; cbn [create_directories]; [intros [= _ <-]; constructor|].
  destruct (en_kind entry); try apply IH.
  destruct (safe_archive_name _) as [p|] eqn:Es; [|intros [= _ <-]; constructor]. apply safe_archive_name_path in Es.
  destruct (dst_create_dir_all p d) as [[[]|e] d1] eqn:Ec; apply (confined_dir' _ _ _ _ Es) in Ec.
  - intros Hr%IH. by eapply confined_trans.
  - by intros [= _ <-].
Qed.

End writing.

(** ** Properties *)

(** C9. Whatever the archive holds and however extraction ends, the destination is only
    changed below itself: every directory that is created, every file that is removed,
    created or written is at a path of normal components (no parent, no absolute part, no
    separator inside a component). *)
Theorem extract_all_confined `{Nom} `{Crc32} `{LzmaMemory} `{Decoders} `{BlockCipher} `{Sha256} {D} `{Destination D}
    retries io_fuel io_sizes self config (d : D) r d' :
  Archive_extract_all_with_options retries io_fuel io_sizes self d config = (r, d') → confined d d'.
Proof.
  unfold Archive_extract_all_with_options. destruct (Archive_try_files_info self) as [files|]; [|intros [= _ <-]; constructor].
  destruct (create_directories _ d) as [[[]|e] d1] eqn:Ed; apply create_directories_confined in Ed; [|by intros [= _ <-]].
  intros Hs. eapply confined_trans; [exact Ed|].
  assert (PreOrder (confined (D := D))) as Hpre by (split; [constructor|intros a b c; apply confined_trans]).
  eapply stream_all_keeps; [exact Hpre| |exact Hs]. apply extract_entry_confined.
Qed.

(** The files of an archive, extracted one after the other. *)
Inductive files_extracted {D} `{Destination D} (verified : StreamLocation → bytes → Prop) :
    list (Entry StreamLocation) → D → D → Prop :=
| extracted_nil d : files_extracted verified [] d d
| extracted_none file files d d' :
    ReadableEntry_from_file file = None → files_extracted verified files d d' →
    files_extracted verified (file :: files) d d'
| extracted_some file entry content files d d1 d' :
    ReadableEntry_from_file file = Some entry →
    match re_content entry with ContentEmpty => content = [] | ContentStream loc => verified loc content end →
    entry_extracted (re_info entry) content d d1 →
    files_extracted verified files d1 d' → files_extracted verified (file :: files) d d'.

Lemma given_extracted {D} `{Destination D} io_fuel verified files (d d' : D) :
  files_given verified (extract_entry io_fuel) files d d' → files_extracted verified files d d'.
Proof.
  induction 1 as [d|file files d d' Hn _ IH|file entry files d d1 d' He Hc _ IH]; [constructor|by constructor|].
  unfold content_given in Hc. destruct (re_content entry) as [|loc] eqn:Ec.
  - eapply (extracted_some _ _ _ []); [exact He|by rewrite Ec|by eapply extract_entry_saw|exact IH].
  - destruct Hc as (seen & rest & Hv & Hs & Hall). rewrite Hall, app_nil_r in Hv by apply extract_entry_reads_all.
    eapply extracted_some; [exact He|rewrite Ec; exact Hv|by eapply extract_entry_saw|exact IH].
Qed.

(** C10. Extraction that succeeds has written every file of the archive: the directories
    of the entry list first, then, in archive order, for each entry with content a new
    file at its safe path, whose bytes are the whole content of the entry, as its folder's
    decoder gave it from the packed streams, of the declared size and digest, in a folder
    verified to its end. *)
Theorem extracted_files_written `{Nom} `{Crc32} `{LzmaMemory} `{Decoders} `{BlockCipher} `{Sha256} {D} `{Destination D}
    retries io_fuel io_sizes self config (d d' : D) :
  (∀ k, 0 < io_sizes k) → decoders_bounded → limits_ok (rc_options config) →
  (∀ streams, Archive_try_streams_info self = Ok streams → sizes_u64 streams) →
  Archive_extract_all_with_options retries io_fuel io_sizes self d config = (Ok tt, d') →
  ∃ files d1 fs items, Archive_try_files_info self = Ok files ∧
    create_directories (Entries_collect (Z.to_nat (Archive_num_files self))
      (Entries_new files (Archive_num_files self))) d = (Ok tt, d1) ∧
    Archive_file_streams self = Ok fs ∧
    FileStreams_map_all (S (Z.to_nat (Archive_num_files self))) fs = Ok items ∧
    files_extracted (archive_stream retries self config WholeFolder) items d1 d'.
Proof.
  intros Hsizes Hdec Hlim Hu. unfold Archive_extract_all_with_options.
  destruct (Archive_try_files_info self) as [files|]; [|done].
  destruct (create_directories _ d) as [[[]|e] d1] eqn:Ed; [|done].
  unfold Archive_stream_files_with_options, Archive_stream_files_impl. cbn [EntrySelection_new].
  intros (fs & items & Hfs & Hitems & Hg)%stream_selection_spec; try done.
  exists files, d1, fs, items. split_and!; try done. by eapply given_extracted.
Qed.

(** ** Witnesses *)

#[local] Existing Instances flat_memory stored_decoders counter_cipher flat_hash sum_crc.

(** A directory in memory: its files with their contents; a file is written at most three
    bytes at a time. *)
Definition memory_dir : Type := list (path * bytes).
Definition remove_path (p : path) (d : memory_dir) : memory_dir := filter (λ f, f.1 ≠ p) d.
#[local] Instance memory_destination : Destination memory_dir := {|
  dst_file := path;
  dst_create_dir_all := λ _ d, (Ok tt, d);
  dst_remove_file := λ p d, if decide (p ∈ d.*1) then (Ok tt, remove_path p d)
                            else (Err (IoKind NotFound "no such file"), d);
  dst_create_new := λ p d, (Ok p, (p, []) :: d);
  dst_write := λ p b d, (Ok (Z.min 3 (zlen b)), map (λ f, if decide (f.1 = p) then (p, f.2 ++ take 3 b) else f) d);
  dst_flush := λ _ d, (Ok tt, d)
|}.

Definition sample_dir : memory_dir := [([[97]], [9; 9]); ([[98]], [7])].

Lemma extract_all_confined_witness :
  ∃ self, sample_opened = Ok self ∧
    confined sample_dir [([[97]], [1; 2; 3; 4]); ([[98]], [7])].
Proof.
  destruct sample_opened as [self|] eqn:Eo; [|vm_compute in Eo; discriminate Eo]. exists self. split; [reflexivity|].
  apply (extract_all_confined 9 30 (λ _, 8) self ArchiveReadConfig_default sample_dir (Ok tt)).
  vm_compute in Eo. injection Eo as <-. vm_compute. reflexivity.
Defined.

Lemma extracted_files_written_witness :
  ∃ self items, sample_opened = Ok self ∧
    files_extracted (archive_stream 9 self ArchiveReadConfig_default WholeFolder) items sample_dir
      [([[97]], [1; 2; 3; 4]); ([[98]], [7])].
Proof.
  destruct sample_opened as [self|] eqn:Eo; [|vm_compute in Eo; discriminate Eo]. exists self.
  destruct (extracted_files_written 9 30 (λ _, 8) self ArchiveReadConfig_default sample_dir
    [([[97]], [1; 2; 3; 4]); ([[98]], [7])] (λ _, eq_refl) stored_decoders_bounded sample_limits)
    as (files & d1 & fs & items & Hf & Hd & _ & _ & Hx).
  - vm_compute in Eo. injection Eo as <-. intros streams Hs. vm_compute in Hs. injection Hs as <-.
    intros s pack unpack [= <-] [= <-] [= <-]. split; repeat constructor; by compute.
  - vm_compute in Eo. injection Eo as <-. vm_compute. reflexivity.
  - exists items. split; [reflexivity|].
    assert (d1 = sample_dir) as ->; [|exact Hx].
    vm_compute in Eo. injection Eo as <-. vm_compute in Hf. injection Hf as <-. vm_compute in Hd. by injection Hd as <-.
Defined.
