(* ===== verification/Listing.v ===== *)
(** * Listings and raw folders (src/src/archive.rs)

    The listing of an archive with its method names and sizes, and the folders that are
    copied out of an archive without being decoded. *)

From stdpp Require Import base numbers list option strings pretty sets.
From Stdlib Require Import ZArith Lia.
From S2P Require Import Prelude Method CoderInfo Folder FolderGraph Error Operation Readers Resources PackInfo StreamInfo FilesInfo Aes DecoderPlan DecoderRun Entries FolderDecode FolderRead FileStreams Locations Headers WriteHeader ArchiveSource PackedSource ArchiveNames EntryReads Archive Sessions.

(** ** Method names *)

(** [u32::is_power_of_two] and [u32::trailing_zeros]. *)
Definition is_power_of_two (size : Z) : bool := bool_decide (0 < size ∧ Z.land size (size - 1) = 0).
Fixpoint trailing_zeros (fuel : nat) (size : Z) : Z :=
  match fuel with
  | O => 0
  | S fuel => if Z.odd size then 0 else 1 + trailing_zeros fuel (Z.shiftr size 1)
  end.

Definition dictionary_bits (size : Z) : option Z :=
  if is_power_of_two size then Some (trailing_zeros 32 size) else None.

Definition lzma_dictionary_bits (props : bytes) : option Z :=
  match props with
  | [_; a; b; c; d] => dictionary_bits (from_le_bytes [a; b; c; d])
  | _ => None
  end.

(** [checked_shl] fails from 32 bits on and drops the bits shifted out. *)
Definition checked_shl (n shift : Z) : option Z :=
  if decide (shift < 32) then Some (Z.shiftl n shift mod 2 ^ 32) else None.

Definition lzma2_dictionary_bits (props : bytes) : option Z :=
  match props with
  | [prop] =>
      (if decide (prop ≤ 39) then checked_shl (Z.lor 2 (Z.land prop 1)) (Z.shiftr prop 1 + 11)
       else if decide (prop = 40) then Some u32_max else None) ≫= dictionary_bits
  | _ => None
  end.

(** [n.to_string()]. *)
Definition decimal (n : Z) : string := pretty (Z.to_N n).

Definition hex_digit (n : Z) : string :=
  match String.get (Z.to_nat n) "0123456789ABCDEF" with Some c => String c EmptyString | None => EmptyString end.
Definition hex_byte (b : Z) : string := String.append (hex_digit (b / 16)) (hex_digit (b mod 16)).

(** [format!("{:02X?}", id)] of a list of bytes. *)
Definition format_id (id : bytes) : string :=
  String.append "[" (String.append (String.concat ", " (map hex_byte id)) "]").

Definition method_text (method : SevenZMethod) : string := default EmptyString (SevenZMethod_name method).

Definition ppmd_method_text (coder : CoderInfo) : option string :=
  match properties coder with
  | Some [order; a; b; c; d] =>
      let mem_size := from_le_bytes [a; b; c; d] in
      let mem_text := match dictionary_bits mem_size with Some bits => decimal bits | None => decimal mem_size end in
      Some (String.append "PPMD:o" (String.append (decimal order) (String.append ":mem" mem_text)))
  | _ => None
  end.

Definition entry_method_name (coder : CoderInfo) : string :=
  match method_from_id (codec_id coder) with
  | Some Lzma =>
      match properties coder ≫= lzma_dictionary_bits with
      | Some bits => String.append "LZMA:" (decimal bits)
      | None => "LZMA"
      end
  | Some Lzma2 =>
      match properties coder ≫= lzma2_dictionary_bits with
      | Some bits => String.append "LZMA2:" (decimal bits)
      | None => "LZMA2"
      end
  | Some Ppmd => default "PPMD" (ppmd_method_text coder)
  | Some SevenZAes =>
      match properties coder ≫= head with
      | Some byte => String.append "7zAES:" (decimal (Z.land byte 63))
      | None => "7zAES"
      end
  | Some method => method_text method
  | None => format_id (codec_id coder)
  end.

Definition archive_method_name (coder : CoderInfo) : string :=
  match method_from_id (codec_id coder) with
  | Some (Lzma | Lzma2) => entry_method_name coder
  | Some Ppmd => "PPMD"
  | Some SevenZAes => "7zAES"
  | Some method => method_text method
  | None => format_id (codec_id coder)
  end.

Definition is_crypto_method_name (name : string) : bool :=
  String.prefix "7zAES" name || String.prefix "AES256CBC" name.

Definition p7zip_method_order (names : list string) : list string :=
  filter (λ name, is_crypto_method_name name = false) names ++ filter (λ name, is_crypto_method_name name = true) names.

Definition folder_method_names (folder : Folder) : list string :=
  p7zip_method_order (map entry_method_name (coders folder)).

(** The names that are not there yet, in the order of the coders. *)
Definition add_names (names : list string) (folder : Folder) : list string :=
  fold_left (λ names name, if decide (name ∈ names) then names else names ++ [name])
    (map archive_method_name (coders folder)) names.

Section listing.
  Context `{Nom} `{Crc32}.

(** The loop over the folder indices. *)
Fixpoint method_names_loop (unpack : UnpackInfo) (count : nat) (idx : Z) (names : list string) :
    result (list string) R7zError :=
  match count with
  | O => Ok names
  | S count =>
      let? folder := UnpackInfo_parse_folder unpack idx in
      method_names_loop unpack count (idx + 1) (add_names names folder)
  end.

Definition archive_method_names (streams : option StreamInfo) : result (list string) R7zError :=
  result_map p7zip_method_order
    match streams ≫= si_unpack_info with
    | Some unpack => method_names_loop unpack (Z.to_nat (UnpackInfo_num_folders_usize unpack)) 0 []
    | None => Ok []
    end.

Definition archive_is_solid (streams : option StreamInfo) : bool :=
  match streams ≫= si_substream_info with
  | Some substreams => existsb (λ streams, bool_decide (1 < streams)) (num_unpack_streams_per_folder substreams)
  | None => false
  end.

Definition folder_is_encrypted (folder : Folder) : bool :=
  existsb (λ coder, bool_decide (codec_id coder = CODEC_AES_256_SHA_256)) (coders folder).

(** A time is its distance from the Unix epoch in nanoseconds. *)
Definition filetime_to_system_time (filetime : Z) : option Z :=
  let secs := filetime / 10000000 in
  let nanos := filetime mod 10000000 * 100 in
  if decide (secs < 11644473600) then None else Some ((secs - 11644473600) * 1000000000 + nanos).

(** ** Listings *)

Inductive ListingEntryKind := L_File | L_Directory | L_Symlink | L_Anti.

Record ArchiveListingEntry := {
  le_index : Z;
  le_path : list Z;
  le_kind : ListingEntryKind;
  le_size : option Z;
  le_packed_size : option Z;
  le_modified : option Z;
  le_attributes : option Z;
  le_crc : option Z;
  le_encrypted : bool;
  le_methods : list string;
  le_block : option Z
}.

Record ArchiveListing := {
  al_archive_type : string;
  al_physical_size : option Z;
  al_headers_size : option Z;
  al_methods : list string;
  al_solid : bool;
  al_blocks : Z;
  al_entries : list ArchiveListingEntry
}.

(** [iter().sum()]. *)
Definition FolderLayout_packed_size (self : FolderLayout) : result Z R7zError :=
  try_fold add_u64 0 (pst_sizes (lo_streams self)).

Definition listing_kind (t : EntryType) : ListingEntryKind :=
  match t with
  | T_File | T_EmptyFile => L_File
  | T_Symlink | T_EmptySymlink => L_Symlink
  | T_Directory => L_Directory
  | T_Anti => L_Anti
  end.

Definition listing_entry (file : Entry StreamLocation) : result ArchiveListingEntry R7zError :=
  let metadata := en_metadata file in
  let entry size packed_size crc encrypted methods block :=
    {| le_index := em_index metadata; le_path := EntryMetadata_name metadata;
       le_kind := listing_kind (EntryKind_entry_type (en_kind file)); le_size := size; le_packed_size := packed_size;
       le_modified := em_modified metadata ≫= filetime_to_system_time; le_attributes := Entries.em_attributes metadata;
       le_crc := crc; le_encrypted := encrypted; le_methods := methods; le_block := block |} in
  match en_kind file with
  | K_File location | K_Symlink location =>
      let folder := lo_folder (loc_folder location) in
      let? packed_size :=
        if decide (loc_stream_index location = 0)
        then result_map Some (FolderLayout_packed_size (loc_folder location)) else Ok None in
      Ok (entry (Some (ByteRange_len (ss_range (loc_stream location)))) packed_size (ss_digest (loc_stream location))
            (folder_is_encrypted folder) (folder_method_names folder) (Some (loc_folder_index location)))
  | K_EmptyFile | K_EmptySymlink => Ok (entry (Some 0) None (Some 0) false [] None)
  | K_Directory => Ok (entry (Some 0) None None false [] None)
  | K_Anti => Ok (entry None None None false [] None)
  end.

(** [map_all] with [listing_entry], collected. *)
Fixpoint list_entries (fuel : nat) (files : FileStreams) : result (list ArchiveListingEntry) R7zError :=
  match fuel with
  | O => Err R7zOutOfFuel
  | S fuel =>
      match FileStreams_next files with
      | (Err e, _) => Err e
      | (Ok None, _) => Ok []
      | (Ok (Some file), files) =>
          let? entry := listing_entry file in
          let? entries := list_entries fuel files in
          Ok (entry :: entries)
      end
  end.

Definition Archive_listing (self : Archive) (physical_size : option Z) : result ArchiveListing R7zError :=
  let physical_size :=
    match physical_size with Some size => Some size | None => result_ok (ArchiveSource_len (ar_source self)) end in
  let? streams := Archive_try_streams_info self in
  let? pack_total :=
    match streams ≫= si_pack_info with
    | Some pack_info => try_fold (λ acc size, ok_or (checked_add acc size) Parse) 0 (pack_size pack_info)
    | None => Ok 0
    end in
  let headers_size := physical_size ≫= λ size, checked_sub size pack_total in
  let? methods := archive_method_names streams in
  let blocks := match streams ≫= si_unpack_info with Some unpack => UnpackInfo_num_folders_usize unpack | None => 0 end in
  let solid := archive_is_solid streams in
  let? files_info := Archive_try_files_info self in
  let? files := FileStreams_new files_info (Archive_num_files self) streams in
  let? entries := list_entries (S (Z.to_nat (Archive_num_files self))) files in
  Ok {| al_archive_type := "7z"; al_physical_size := physical_size; al_headers_size := headers_size;
        al_methods := methods; al_solid := solid; al_blocks := blocks; al_entries := entries |}.

(** ** Raw folders *)

(** The handle is the address of the archive's identity with the folder index. *)
Record RawFolderHandle := { rh_archive_identity : Z; rh_index : Z }.

Record RawFolderBlock := {
  rb_folder_info : bytes;
  rb_packed_streams : list bytes;
  rb_pack_sizes : list Z;
  rb_coder_unpack_sizes : list Z;
  rb_folder_crc : option Z;
  rb_handle : RawFolderHandle
}.

Definition RawFolderHandle_belongs_to (self : RawFolderHandle) (archive : Archive) : bool :=
  bool_decide (rh_archive_identity self = ar_identity archive).

Definition RawFolderHandle_eq (self other : RawFolderHandle) : bool :=
  bool_decide (rh_index self = rh_index other) && bool_decide (rh_archive_identity self = rh_archive_identity other).

Definition ensure_packed_bytes_limit (packed_bytes : Z) : result unit R7zError :=
  if decide (MAX_BUFFERED_PACKED_FOLDER_BYTES < packed_bytes)
  then Err (ResourceLimitExceeded "packed folder buffers" MAX_BUFFERED_PACKED_FOLDER_BYTES) else Ok tt.

Definition ensure_packed_folder_buffer_limit (pack_sizes : list Z) : result unit R7zError :=
  let? packed_bytes := try_fold (λ total size, ok_or (checked_add total size) Parse) 0 pack_sizes in
  ensure_packed_bytes_limit packed_bytes.

(** The default [Iterator::nth]: items before it are dropped, failed ones too. *)
Fixpoint FolderPlans_nth (self : FolderPlans) (n : nat) : option (result FolderLayout R7zError) :=
  match FolderPlans_next self with
  | (None, _) => None
  | (Some item, self) => match n with O => Some item | S n => FolderPlans_nth self n end
  end.

Definition Archive_read_raw_folder_block (self : Archive) (folder_index : Z) : result RawFolderBlock R7zError :=
  let? streams := Archive_try_streams_info self in
  let? streams := ok_or streams Parse in
  let? (_, unpack_info) := StreamInfo_packed_folders streams in
  let? folders := FolderLayouts_for_streams streams in
  let? source := PackedSource_new (ar_source self) (ar_base_offset self) (FolderLayouts_pack_pos folders) in
  let? folder := ok_or (FolderPlans_nth (fls_plans folders) (Z.to_nat folder_index)) Parse in
  let? folder := folder in
  let? packed := PackedStreams_iter (lo_streams folder) in
  let pack_sizes := map (λ stream, ByteRange_len (ps_range stream)) packed in
  let? _ := ensure_packed_folder_buffer_limit pack_sizes in
  let? packed_streams :=
    try_collect (λ stream,
      let? range := PackedSource_range source stream in
      ArchiveSource_read_range_to_vec (ar_source self) range MAX_BUFFERED_PACKED_FOLDER_BYTES) packed in
  let? folder_bytes := UnpackInfo_folder_bytes unpack_info folder_index in
  Ok {| rb_folder_info := sl_data folder_bytes; rb_packed_streams := packed_streams; rb_pack_sizes := pack_sizes;
        rb_coder_unpack_sizes := lo_coder_sizes folder; rb_folder_crc := lo_crc folder;
        rb_handle := {| rh_archive_identity := ar_identity self; rh_index := folder_index |} |}.

Definition Archive_raw_folder (self : Archive) (folder_index : Z) : result RawFolderBlock R7zError :=
  Archive_read_raw_folder_block self folder_index.

End listing.

(** ** Lemmas: numbers *)

Lemma power_of_two_spec size : is_power_of_two size = true ↔ ∃ b, 0 ≤ b ∧ size = 2 ^ b.
Proof.
  unfold is_power_of_two. rewrite bool_decide_eq_true. split.
  - intros [Hpos Hl]. exists (Z.log2 size). pose proof (Z.log2_nonneg size) as Hb. split; [done|].
    pose proof (Z.log2_spec size Hpos) as [Hlo Hhi].
    destruct (decide (size = 2 ^ Z.log2 size)) as [|Hne]; [done|]. exfalso.
    assert (Z.log2 (size - 1) = Z.log2 size) as Hlog by (apply Z.log2_unique; lia).
    assert (Z.testbit (Z.land size (size - 1)) (Z.log2 size) = true) as Hbit.
    { rewrite Z.land_spec, Z.bit_log2 by lia. rewrite <- Hlog at 1.
      pose proof (Z.pow_pos_nonneg 2 (Z.log2 size) ltac:(lia) Hb). by rewrite Z.bit_log2 by lia. }
    by rewrite Hl, Z.bits_0 in Hbit.
  - intros (b & Hb & ->). split; [by apply Z.pow_pos_nonneg|].
    replace (2 ^ b - 1) with (Z.ones b) by (rewrite Z.ones_equiv; lia). rewrite Z.land_ones by done. by apply Z.mod_same, Z.pow_nonzero.
Qed.

Lemma trailing_zeros_pow fuel b : 0 ≤ b < Z.of_nat fuel → trailing_zeros fuel (2 ^ b) = b.
Proof.
  revert b. induction fuel as [|fuel IH]; intros b Hb; [lia|]. cbn [trailing_zeros].
  destruct (decide (b = 0)) as [->|Hne]; [done|].
  replace (2 ^ b) with (2 * 2 ^ (b - 1)) by (rewrite <- Z.pow_succ_r by lia; f_equal; lia).
  rewrite Z.odd_mul. cbn [andb Z.odd]. rewrite Z.shiftr_div_pow2 by lia. change (2 ^ 1) with 2.
  rewrite (Z.mul_comm 2), Z.div_mul by lia. rewrite IH by lia. lia.
Qed.

(** The exponent of a dictionary size, when it is a power of two. *)
Lemma dictionary_bits_spec size b :
  is_u32 size → dictionary_bits size = Some b ↔ 0 ≤ b ∧ size = 2 ^ b.
Proof.
  intros Hs. unfold dictionary_bits, is_u32 in *.
  assert (∀ c, 0 ≤ c → 2 ^ c ≤ 2 ^ 32 - 1 → c < 32) as Hlt.
  { intros c Hc Hle. apply (Z.pow_lt_mono_r_iff 2); lia. }
  destruct (is_power_of_two size) eqn:Ep.
  - apply power_of_two_spec in Ep as (c & Hc & ->). pose proof (Hlt c Hc ltac:(lia)) as Hc32.
    rewrite trailing_zeros_pow by (cbn; lia). split; [by intros [= <-]|].
    intros [Hb Heq]. f_equal. apply (Z.pow_inj_r 2); lia.
  - split; [done|]. intros [Hb ->]. enough (is_power_of_two (2 ^ b) = true) by congruence.
    apply power_of_two_spec. by exists b.
Qed.

(** Times are listed as they were written. *)
Lemma filetime_round_trip filetime time :
  0 ≤ filetime ≤ u64_max → filetime_to_system_time filetime = Some time → system_time_to_filetime time = filetime.
Proof.
  intros Hf. unfold filetime_to_system_time, system_time_to_filetime. case_decide as Hs; [done|]. intros [= <-].
  set (secs := filetime / 10000000) in *. set (ticks := filetime mod 10000000).
  assert (0 ≤ ticks < 10000000) as Ht by (apply Z.mod_pos_bound; lia).
  assert (filetime = 10000000 * secs + ticks) as Hdiv by (apply Z.div_mod; lia).
  rewrite decide_True by lia.
  replace (((secs - 11644473600) * 1000000000 + ticks * 100) / 1000000000) with (secs - 11644473600)
    by (apply (Z.div_unique _ _ _ (ticks * 100)); lia).
  replace (((secs - 11644473600) * 1000000000 + ticks * 100) mod 1000000000) with (ticks * 100)
    by (apply (Z.mod_unique _ _ (secs - 11644473600)); lia).
  rewrite Z.div_mul by lia. unfold saturating_add, saturating_mul. lia.
Qed.

(** ** Lemmas: entries *)

Lemma list_entries_map_all `{Nom} fuel fs items :
  FileStreams_map_all fuel fs = Ok items → list_entries fuel fs = try_collect listing_entry items.
Proof.
  revert fs items. induction fuel as [|fuel IH]; intros fs items; cbn [FileStreams_map_all list_entries]; [done|].
  destruct (FileStreams_next fs) as [[[file|]|e] fs']; [|by intros [= <-]|done].
  destruct (FileStreams_map_all fuel fs') as [tl|] eqn:Et; [|done]. intros [= <-]. cbn [try_collect].
  by rewrite (IH _ _ Et).
Qed.

Lemma packed_size_spec layout :
  Forall is_u64 (pst_sizes (lo_streams layout)) → sum_z (pst_sizes (lo_streams layout)) ≤ u64_max →
  FolderLayout_packed_size layout = Ok (sum_z (pst_sizes (lo_streams layout))).
Proof.
  unfold FolderLayout_packed_size. intros Hu Hs.
  assert (∀ acc, 0 ≤ acc → acc + sum_z (pst_sizes (lo_streams layout)) ≤ u64_max →
    try_fold add_u64 acc (pst_sizes (lo_streams layout)) = Ok (acc + sum_z (pst_sizes (lo_streams layout)))) as Hfold.
  { clear Hs. induction Hu as [|x l [Hx0 Hx1] Hl IH]; intros acc Ha Hs; cbn [try_fold].
    - unfold sum_z. cbn. f_equal. lia.
    - unfold sum_z in *. cbn [foldr] in *. pose proof (sum_z_nonneg l Hl) as Hn. unfold sum_z in Hn.
      unfold add_u64, checked_add. rewrite decide_True by lia. cbn [ok_or]. rewrite IH by lia. f_equal. lia. }
  rewrite Hfold by lia. done.
Qed.

(** The packed size of a folder whose streams are listed: with its first stream. *)
Definition folder_packed (layout : FolderLayout) : Z :=
  if decide (FolderStreamLayout_len (lo_layout layout) = 0) then 0 else sum_z (pst_sizes (lo_streams layout)).

Definition packed_listed (entries : list ArchiveListingEntry) : Z :=
  sum_z (map (λ e, default 0 (le_packed_size e)) entries).

Definition first_packed (loc : StreamLocation) : Z :=
  if decide (loc_stream_index loc = 0) then sum_z (pst_sizes (lo_streams (loc_folder loc))) else 0.

Lemma locations_cons index folder count s ss :
  locations index folder count (s :: ss) =
  {| loc_folder_index := index; loc_stream_index := count; loc_folder := folder; loc_stream := s |}
    :: locations index folder (count + 1) ss.
Proof.
  unfold locations. cbn. f_equal; [f_equal; lia|]. apply imap_ext. intros i x _. cbn. f_equal. lia.
Qed.

Lemma first_packed_later index folder count ss :
  0 < count → sum_z (map first_packed (locations index folder count ss)) = 0.
Proof.
  revert count. induction ss as [|s ss IH]; intros count Hc; [done|]. rewrite locations_cons. cbn [map].
  unfold sum_z in *. cbn [foldr]. rewrite IH by lia. unfold first_packed. cbn [loc_stream_index].
  rewrite decide_False by lia. done.
Qed.

Lemma first_packed_located index ls locs :
  located index ls locs → sum_z (map first_packed locs) = sum_z (map folder_packed ls).
Proof.
  induction 1 as [index|index folder ls ss st locs Hw He _ IH]; [done|].
  rewrite map_app, sum_z_app, IH. cbn [map]. unfold sum_z at 3. cbn [foldr]. fold (sum_z (map folder_packed ls)). f_equal.
  assert (FolderStreamLayout_len (lo_layout folder) = zlen ss) as Hlen.
  { rewrite <- (walks_len _ _ _ Hw He (layout_len_nonneg _)). unfold Substreams_len. cbn [FolderStreamLayout_streams sub_layout sub_position]. lia. }
  unfold folder_packed. destruct ss as [|s ss].
  - rewrite zlen_nil in Hlen. by rewrite decide_True by lia.
  - rewrite zlen_cons in Hlen. pose proof (zlen_nonneg ss). rewrite decide_False by lia.
    rewrite locations_cons. cbn [map]. unfold sum_z at 1. cbn [foldr].
    pose proof (first_packed_later index folder (0 + 1) ss ltac:(lia)) as Hz. unfold sum_z in Hz. rewrite Hz.
    unfold first_packed. cbn [loc_stream_index loc_folder]. rewrite decide_True by done. lia.
Qed.

(** What the listing says of an entry that was joined with its stream. *)
Lemma listing_entry_ok file :
  (∀ loc, en_kind file = K_File loc ∨ en_kind file = K_Symlink loc → 
     Forall is_u64 (pst_sizes (lo_streams (loc_folder loc))) ∧ sum_z (pst_sizes (lo_streams (loc_folder loc))) ≤ u64_max) →
  ∃ e, listing_entry file = Ok e ∧
    default 0 (le_packed_size e) = match en_kind file with K_File loc | K_Symlink loc => first_packed loc | _ => 0 end.
Proof.
  intros Hp. unfold listing_entry, first_packed.
  destruct (en_kind file) as [loc|loc| | | |]; try (eexists; split; [reflexivity|reflexivity]);
    (destruct (Hp loc) as [Hu Hs]; [by auto|]; case_decide;
     [rewrite packed_size_spec by done|]; eexists; split; reflexivity).
Qed.

(** The value of a stream at each entry that has one. *)
Definition stream_value (f : StreamLocation → Z) (file : Entry StreamLocation) : Z :=
  match en_kind file with K_File loc | K_Symlink loc => f loc | _ => 0 end.

Lemma bind_entries_sum f es locs :
  length locs = stream_entries es → sum_z (map (stream_value f) (bind_entries es locs)) = sum_z (map f locs).
Proof.
  revert locs. induction es as [|e es IH]; intros locs Hlen; [by destruct locs|].
  rewrite stream_entries_cons in Hlen. cbn [bind_entries]. unfold carries_stream in *.
  destruct (en_kind e) as [[]|[]| | | |] eqn:Ek; cbn in Hlen |- *;
    try (unfold sum_z in *; cbn; rewrite IH by done; unfold stream_value, without_stream; cbn; by rewrite Ek);
    (destruct locs as [|loc locs]; [done|]; injection Hlen as Hlen; cbn; unfold sum_z in *; cbn; rewrite IH by done;
     unfold stream_value, with_stream; cbn; by rewrite Ek).
Qed.

Lemma listing_entries_collect items :
  (∀ file, file ∈ items → ∃ e, listing_entry file = Ok e ∧
     default 0 (le_packed_size e) = stream_value first_packed file) →
  ∃ entries, try_collect listing_entry items = Ok entries ∧
    packed_listed entries = sum_z (map (stream_value first_packed) items).
Proof.
  induction items as [|file items IH]; intros Hentry; [by exists []|].
  destruct (Hentry file) as (e & He & Hd); [set_solver|]. destruct IH as (entries & Hcol & Hpk); [set_solver|].
  exists (e :: entries). cbn [try_collect]. rewrite He, Hcol. split; [done|].
  unfold packed_listed, sum_z in *. cbn [map foldr]. by rewrite Hpk, Hd.
Qed.

Lemma bind_entries_elem es locs file loc :
  file ∈ bind_entries es locs → en_kind file = K_File loc ∨ en_kind file = K_Symlink loc → loc ∈ locs.
Proof.
  revert locs. induction es as [|e es IH]; intros locs Hin Hk; [by apply not_elem_of_nil in Hin|].
  cbn [bind_entries] in Hin. unfold carries_stream in *.
  destruct (en_kind e) as [[]|[]| | | |] eqn:Ek; cbn in Hin;
    try (apply elem_of_cons in Hin as [->|Hin]; [unfold without_stream in Hk; cbn in Hk; rewrite Ek in Hk; naive_solver|by eapply IH]);
    (destruct locs as [|loc' locs]; [by apply not_elem_of_nil in Hin|]; apply elem_of_cons in Hin as [->|Hin];
     [unfold with_stream in Hk; cbn in Hk; rewrite Ek in Hk; set_solver|apply elem_of_cons; right; by eapply IH]).
Qed.

Lemma located_folder index ls locs loc : located index ls locs → loc ∈ locs → loc_folder loc ∈ ls.
Proof.
  induction 1 as [index|index folder ls ss st locs Hw He _ IH]; intros Hin; [by apply not_elem_of_nil in Hin|].
  apply elem_of_app in Hin as [Hin|Hin]; [|apply elem_of_cons; auto]. apply list_elem_of_lookup in Hin as [i Hi].
  rewrite locations_lookup in Hi. destruct (ss !! i); [|done]. injection Hi as <-. apply elem_of_cons. by left.
Qed.

(** ** Lemmas: method names *)

(** A list without the later occurrences of what it holds. *)
Fixpoint first_seen (names : list string) : list string :=
  match names with [] => [] | name :: names => name :: filter (λ other, other ≠ name) (first_seen names) end.

Lemma first_seen_elem names name : name ∈ first_seen names ↔ name ∈ names.
Proof.
  induction names as [|x names IH]; cbn [first_seen]; [done|].
  rewrite !elem_of_cons, list_elem_of_filter, IH. destruct (decide (name = x)); naive_solver.
Qed.
Lemma first_seen_nodup names : NoDup (first_seen names).
Proof.
  induction names as [|x names IH]; cbn [first_seen]; [constructor|]. constructor; [|by apply NoDup_filter].
  by intros [? _]%list_elem_of_filter.
Qed.

Lemma filter_comm {A} (P Q : A → Prop) `{∀ x, Decision (P x), ∀ x, Decision (Q x)} (l : list A) :
  filter P (filter Q l) = filter Q (filter P l).
Proof. rewrite !list_filter_filter. apply list_filter_iff. tauto. Qed.

Lemma first_seen_filter (P : string → Prop) `{∀ x, Decision (P x)} (names : list string) :
  filter P (first_seen names) = first_seen (filter P names).
Proof.
  induction names as [|x names IH]; cbn [first_seen]; [done|]. rewrite !filter_cons, filter_comm, IH.
  case_decide as Hx; [done|]. rewrite <- IH. apply list_filter_filter_r. intros y Hy ->. contradiction.
Qed.

Lemma filter_not_in_nil (names : list string) : filter (λ name, name ∉ []) names = names.
Proof.
  induction names as [|x names IH]; [done|]. rewrite filter_cons, IH, decide_True; [done|apply not_elem_of_nil].
Qed.

(** Adding names appends those not there yet. *)
Lemma add_name_spec new names :
  fold_left (λ names name, if decide (name ∈ names) then names else names ++ [name]) new names
  = names ++ filter (λ name, name ∉ names) (first_seen new).
Proof.
  revert names. induction new as [|x new IH]; intros names; cbn [fold_left first_seen]; [by rewrite app_nil_r|].
  rewrite filter_cons, IH. case_decide as Hx.
  - rewrite decide_False by tauto. f_equal. rewrite list_filter_filter. apply list_filter_iff. set_solver.
  - rewrite decide_True by done. rewrite <- app_assoc. do 2 f_equal. cbn. f_equal.
    rewrite list_filter_filter. apply list_filter_iff. set_solver.
Qed.

Lemma add_names_spec fs names :
  fold_left add_names fs names
  = fold_left (λ names name, if decide (name ∈ names) then names else names ++ [name])
      (map archive_method_name (concat (map coders fs))) names.
Proof.
  revert names. induction fs as [|f fs IH]; intros names; [done|]. cbn [fold_left map concat].
  by rewrite map_app, fold_left_app, IH.
Qed.

(** A coder of an encryption, by its method. *)
Definition coder_encrypts (coder : CoderInfo) : bool :=
  match method_info (codec_id coder) with Some info => match mi_kind info with Crypto => true | _ => false end | None => false end.

(** The names tell the coders of an encryption from the others. *)
Lemma crypto_name_spec coder : is_crypto_method_name (archive_method_name coder) = coder_encrypts coder.
Proof.
  unfold archive_method_name, entry_method_name, coder_encrypts, method_from_id.
  destruct (method_info (codec_id coder)) as [info|] eqn:Ei; [|done]. cbn.
  unfold method_info in Ei. apply find_some in Ei as [Hin _].
  repeat (destruct Hin as [<-|Hin]; [cbn; try reflexivity; by destruct (properties coder ≫= _)|]). done.
Qed.

Lemma filter_map_names (P : string → Prop) (Q : CoderInfo → Prop) `{∀ x, Decision (P x), ∀ x, Decision (Q x)} (cs : list CoderInfo) :
  (∀ coder, P (archive_method_name coder) ↔ Q coder) →
  filter P (map archive_method_name cs) = map archive_method_name (filter Q cs).
Proof.
  intros He. induction cs as [|c cs IH]; [done|]. cbn [map]. rewrite !filter_cons, IH.
  destruct (decide (Q c)) as [Hq|Hq]; [by rewrite decide_True by (by apply He)|by rewrite decide_False by (by rewrite He)].
Qed.

(** The methods of coders: each once, in the order they are first seen, those of an encryption
    last. *)
Definition methods_listed (cs : list CoderInfo) : list string :=
  first_seen (map archive_method_name (filter (λ coder, coder_encrypts coder = false) cs)) ++
  first_seen (map archive_method_name (filter (λ coder, coder_encrypts coder = true) cs)).

Lemma methods_listed_spec fs :
  p7zip_method_order (fold_left add_names fs []) = methods_listed (concat (map coders fs)).
Proof.
  rewrite add_names_spec, add_name_spec, app_nil_l. unfold p7zip_method_order, methods_listed.
  rewrite filter_not_in_nil. rewrite !first_seen_filter.
  by rewrite !(filter_map_names _ (λ coder, coder_encrypts coder = _)) by (intros; by rewrite crypto_name_spec).
Qed.

Lemma methods_listed_nodup cs : NoDup (methods_listed cs).
Proof.
  apply NoDup_app. split_and!; [apply first_seen_nodup| |apply first_seen_nodup].
  intros name. rewrite !first_seen_elem, !list_elem_of_fmap.
  intros (c&->&[Hc _]%list_elem_of_filter) (c'&He&[Hc' _]%list_elem_of_filter).
  rewrite <- crypto_name_spec in Hc, Hc'. congruence.
Qed.

Lemma methods_listed_elem cs name :
  name ∈ methods_listed cs ↔ ∃ coder, coder ∈ cs ∧ archive_method_name coder = name.
Proof.
  unfold methods_listed. rewrite elem_of_app, !first_seen_elem, !list_elem_of_fmap. setoid_rewrite list_elem_of_filter. split.
  - intros [(c&->&_&?)|(c&->&_&?)]; eauto.
  - intros (c&?&<-). destruct (coder_encrypts c) eqn:E; [right|left]; eauto.
Qed.

Lemma method_names_loop_spec `{Nom} unpack fs idx names :
  (∀ k f, fs !! k = Some f → UnpackInfo_parse_folder unpack (idx + Z.of_nat k) = Ok f) →
  method_names_loop unpack (length fs) idx names = Ok (fold_left add_names fs names).
Proof.
  revert idx names. induction fs as [|f fs IH]; intros idx names Hf; [done|]. cbn [length method_names_loop fold_left].
  pose proof (Hf 0%nat f eq_refl) as H0. rewrite Z.add_0_r in H0. rewrite H0. apply IH. intros k g Hk.
  rewrite <- (Hf (S k) g Hk). f_equal. lia.
Qed.

(** ** Lemmas: the layouts of an archive *)

Lemma try_fold_checked_sum (e : R7zError) sizes acc :
  Forall is_u64 sizes → 0 ≤ acc → acc + sum_z sizes ≤ u64_max →
  try_fold (λ total size, ok_or (checked_add total size) e) acc sizes = Ok (acc + sum_z sizes).
Proof.
  intros Hu. revert acc. induction Hu as [|x l [Hx0 Hx1] Hl IH]; intros acc Ha Hs; cbn [try_fold].
  - unfold sum_z. cbn. f_equal. lia.
  - pose proof (sum_z_nonneg l Hl) as Hn. unfold sum_z in *. cbn [foldr] in *.
    unfold checked_add. rewrite decide_True by lia. cbn [ok_or]. rewrite IH by lia. f_equal. lia.
Qed.

(** The packed sizes of the layouts that the folders iterate to. *)
Lemma layouts_packed `{Nom} pack unpack sub fuel ls st :
  FolderPlans_collect fuel (FolderPlans_new pack unpack sub) = Ok (ls, st) → Forall is_u64 (pack_size pack) →
  plans_complete pack unpack sub ls ∧ sum_z (pack_size pack) ≤ u64_max ∧
  ∀ l, l ∈ ls → Forall is_u64 (pst_sizes (lo_streams l)) ∧ sum_z (pst_sizes (lo_streams l)) ≤ u64_max.
Proof.
  intros Hc Hu.
  destruct (FolderPlans_collect_complete _ _ _ _ [] _ _ _ (plans_at_new _ _ _) eq_refl Hc) as [Hcomp Hat]. cbn [app] in *.
  pose proof (pa_offset _ _ _ _ _ Hat) as Ho. pose proof (pa_offset_max _ _ _ _ _ Hat) as Hm.
  destruct (pc_packs _ _ _ _ Hcomp) as [Hp _]. rewrite Hp in Ho. split_and!; [done|lia|].
  intros l [k Hk]%list_elem_of_lookup. pose proof (pc_layouts _ _ _ _ Hcomp k l Hk) as Hl. rewrite <- Hp in Hu.
  assert (Forall is_u64 (pst_sizes (lo_streams l))) as Hul.
  { apply Forall_concat in Hu. rewrite Forall_map in Hu. by eapply Forall_lookup_1 in Hu. }
  split; [done|]. pose proof (ls_end _ _ _ _ _ Hl).
  enough (0 ≤ sum_z (concat (map (λ l0, pst_sizes (lo_streams l0)) (take k ls)))) by lia.
  apply sum_z_nonneg. rewrite <- (take_drop k ls), map_app, concat_app in Hu. by apply Forall_app in Hu as [Hu _].
Qed.

Lemma layouts_methods `{Nom} s pack unpack ls :
  si_unpack_info s = Some unpack → plans_complete pack unpack (si_substream_info s) ls →
  archive_method_names (Some s) = Ok (methods_listed (concat (map (λ l, coders (lo_folder l)) ls))).
Proof.
  intros Hu Hc. destruct (pc_folders _ _ _ _ Hc) as [_ Hn]. unfold archive_method_names. cbn. rewrite Hu, <- Hn.
  replace (Z.to_nat (zlen ls)) with (length (map lo_folder ls)) by (unfold zlen; rewrite length_map; lia).
  rewrite method_names_loop_spec.
  2:{ intros k f Hk. rewrite list_lookup_fmap in Hk. destruct (ls !! k) as [l|] eqn:El; [|done]. injection Hk as <-.
      unfold UnpackInfo_parse_folder. rewrite Z.add_0_l. by rewrite (ls_folder _ _ _ _ _ (pc_layouts _ _ _ _ Hc k l El)). }
  cbn [result_map]. by rewrite methods_listed_spec, map_map.
Qed.

(** ** Property: listings *)

(** C11. The listing of an archive whose folders iterate to the end exists and accounts for
    all of it: one entry per file in archive order, with the size and digest that any
    verified content of its stream has; every method of every folder, none twice, in the order
    in which the coders of the folders first name it, those of encryption last; the packed size of each folder that owns a stream, once; and the size
    of the headers as what the packed streams leave of the physical size. *)
Theorem listing_accounts_for_archive `{Nom} `{Crc32} self physical fs s unpack :
  0 ≤ Archive_num_files self → Archive_file_streams self = Ok fs →
  Archive_try_streams_info self = Ok (Some s) → si_unpack_info s = Some unpack → tables_ok (Some s) →
  ∃ pack ls st items listing, StreamInfo_packed_folders s = Ok (pack, unpack) ∧
    FolderPlans_collect (plans_fuel unpack) (FolderPlans_new pack unpack (si_substream_info s)) = Ok (ls, st) ∧
    FileStreams_map_all (S (Z.to_nat (Archive_num_files self))) fs = Ok items ∧
    Archive_listing self physical = Ok listing ∧
    zlen (al_entries listing) = Archive_num_files self ∧
    Forall2 (λ file e, listing_entry file = Ok e) items (al_entries listing) ∧
    (∀ i file e loc b, items !! i = Some file → al_entries listing !! i = Some e →
       en_kind file = K_File loc ∨ en_kind file = K_Symlink loc → verified_stream (loc_stream loc) b →
       le_size e = Some (zlen b) ∧ ∀ x, le_crc e = Some x → crc32 b = x) ∧
    al_blocks listing = zlen ls ∧
    al_methods listing = methods_listed (concat (map (λ l, coders (lo_folder l)) ls)) ∧ NoDup (al_methods listing) ∧
    (∀ name, name ∈ al_methods listing ↔
       ∃ l coder, l ∈ ls ∧ coder ∈ coders (lo_folder l) ∧ archive_method_name coder = name) ∧
    packed_listed (al_entries listing) = sum_z (map folder_packed ls) ∧
    al_headers_size listing = al_physical_size listing ≫= λ size, checked_sub size (sum_z (pack_size pack)).
Proof.
  intros Hn Hfs Hs Hu Ht. destruct (Ht s unpack eq_refl Hu) as (pack & ls & st & Hp & Hc & Hps & Hus & Hss).
  destruct (layouts_packed _ _ _ _ _ _ Hc Hps) as (Hcomp & Hsum & Hls).
  assert (si_pack_info s = Some pack) as Hpack.
  { unfold StreamInfo_packed_folders in Hp. rewrite Hu in Hp. destruct (si_pack_info s); [|done]. by injection Hp as ->. }
  unfold Archive_file_streams in Hfs. unfold Archive_listing. rewrite Hs in Hfs |- *. cbn [mbind option_bind].
  rewrite Hpack, Hu. destruct (Archive_try_files_info self) as [files|]; [|done]. rewrite Hfs.
  rewrite try_fold_checked_sum, Z.add_0_l by (done || lia).
  rewrite <- (Z2Nat.id (Archive_num_files self)) in Hfs by done.
  destruct (FileStreams_new_spec _ _ _ _ _ _ _ _ Hp Hc Hus Hss Hfs) as (_ & Hlen & locs & Hloc & Hf).
  set (es := Entries_collect _ _) in *. pose proof (fh_count _ _ _ Hf) as Hcount.
  pose proof (FileStreams_map_all_spec (S (Z.to_nat (Archive_num_files self))) fs es locs Hf ltac:(lia)) as Hall.
  rewrite (list_entries_map_all _ _ _ Hall).
  assert (∀ file, file ∈ bind_entries es locs → ∃ e, listing_entry file = Ok e ∧
    default 0 (le_packed_size e) = stream_value first_packed file) as Hentry.
  { intros file Hin. apply listing_entry_ok. intros loc Hk. apply Hls. eapply located_folder; [exact Hloc|].
    by eapply bind_entries_elem. }
  destruct (listing_entries_collect _ Hentry) as (entries & Hcol & Hpk).
  rewrite Hcol. rewrite (layouts_methods s pack unpack ls Hu Hcomp).
  pose proof (length_bind_entries es locs Hcount) as Hitems.
  apply try_collect_Forall2 in Hcol. pose proof (Forall2_length _ _ _ Hcol) as Hel.
  do 5 eexists. split_and!; [exact Hp|exact Hc|exact Hall|reflexivity|..]; cbn [al_entries al_blocks al_methods al_headers_size al_physical_size].
  - unfold zlen. lia.
  - exact Hcol.
  - intros i file e loc b Hfile He Hk [Hz Hcrc]. pose proof (Forall2_lookup_lr _ _ _ _ _ _ Hcol Hfile He) as Hle.
    unfold listing_entry in Hle. destruct Hk as [Hk|Hk]; rewrite Hk in Hle;
      (destruct (if decide _ then _ else _); [|done]; injection Hle as <-; cbn [le_size le_crc]; split; [by rewrite Hz|done]).
  - symmetry. apply (pc_folders _ _ _ _ Hcomp).
  - reflexivity.
  - apply methods_listed_nodup.
  - intros name. rewrite methods_listed_elem. setoid_rewrite list_elem_of_In. setoid_rewrite in_concat.
    setoid_rewrite in_map_iff. naive_solver.
  - rewrite Hpk, bind_entries_sum by done. by eapply first_packed_located.
  - reflexivity.
Qed.

(** ** Lemmas: raw folders *)

(** A folder that the iteration reaches follows the layouts of the earlier ones. *)
Lemma FolderPlans_nth_at `{Nom} pack unpack sub n : ∀ ls st layout,
  plans_at pack unpack sub ls st → fp_finished st = false → FolderPlans_nth st n = Some (Ok layout) →
  ∃ earlier st', plans_at pack unpack sub (ls ++ earlier ++ [layout]) st' ∧ length earlier = n.
Proof.
  induction n as [|n IH]; intros ls st layout Hat Hfin; cbn [FolderPlans_nth];
    unfold FolderPlans_next; rewrite Hfin; (case_decide; [destruct (FolderPlans_validate_complete st)|]); try done.
  - destruct (FolderPlans_next_folder st) as [[l st1]|] eqn:En; [|done]. intros [= <-].
    destruct (next_folder_step _ _ _ _ _ _ _ Hat En) as [Hat1 _]. by exists [], st1.
  - by destruct n.
  - destruct (FolderPlans_next_folder st) as [[l st1]|] eqn:En; [|by destruct n].
    destruct (next_folder_step _ _ _ _ _ _ _ Hat En) as [Hat1 Hf1]. intros Hn.
    destruct (IH _ _ _ Hat1 ltac:(congruence) Hn) as (earlier & st' & Hat' & Hl). exists (l :: earlier), st'.
    rewrite <- app_assoc in Hat'. cbn. by rewrite Hl.
Qed.

(** The packed streams of a folder, as they are copied out of the source. *)
Section raw.
  Context `{Crc32} (source : ArchiveSource) (data : bytes) (Hsource : source_is source data).

Definition read_packed (start limit : Z) (stream : PackedStream) : result bytes R7zError :=
  let? range := PackedSource_range {| pk_source := source; pk_start := start |} stream in
  ArchiveSource_read_range_to_vec source range limit.

Lemma read_packed_spec start limit a size crc b :
  0 ≤ start → 0 ≤ a → 0 ≤ size →
  read_packed start limit {| ps_range := {| br_start := a; br_end := a + size |}; ps_crc := crc |} = Ok b →
  start + a + size ≤ zlen data ∧ b = sub_list (start + a) (start + a + size) data ∧ zlen b = size ∧ crc_matches crc b.
Proof.
  intros Hs Ha Hz. unfold read_packed. destruct (PackedSource_range _ _) as [range|] eqn:Er; [|done].
  apply (PackedSource_range_spec source data Hsource) in Er as (-> & Hle & Hc); [|done|cbn; lia].
  cbn [ps_range br_start br_end ps_crc] in *. replace (start + (a + size)) with (start + a + size) in * by lia.
  unfold ArchiveSource_read_range_to_vec, ByteRange_len. cbn [br_start br_end]. case_decide; [done|].
  unfold usize_try_from. case_decide; [|done]. cbn [ok_or]. destruct Hsource as (_ & _ & Hread).
  rewrite Hread by lia. case_decide; [|done]. intros [= <-].
  change (take _ _) with (sub_list (start + a) (start + a + size) data).
  split_and!; [done|done| |done]. rewrite zlen_sub_list; lia.
Qed.

Lemma raw_streams_spec start limit ds sizes : ∀ a i packed out,
  0 ≤ start → 0 ≤ a → Forall is_u64 sizes →
  packed_streams_scan ds a i sizes = Ok packed → try_collect (read_packed start limit) packed = Ok out →
  (sizes ≠ [] → start + a + sum_z sizes ≤ zlen data) ∧ map (λ p, ByteRange_len (ps_range p)) packed = sizes ∧
  map zlen out = sizes ∧ concat out = sub_list (start + a) (start + a + sum_z sizes) data ∧
  ∀ k b, out !! k = Some b → crc_matches (mjoin (ds !! (i + k)%nat)) b.
Proof.
  induction sizes as [|size sizes IH]; intros a i packed out Hs Ha Hu; cbn [packed_streams_scan].
  { intros [= <-]. cbn. intros [= <-]. rewrite sub_list_empty by (unfold sum_z; cbn; lia). by split_and!. }
  apply Forall_cons in Hu as [[Hz0 Hz1] Hu]. unfold add_u64, checked_add. case_decide; [|done]. cbn [ok_or].
  unfold ByteRange_from_range. case_decide; [|done].
  destruct (packed_streams_scan ds (a + size) (S i) sizes) as [tl|] eqn:Et; [|done]. intros [= <-].
  cbn [try_collect]. destruct (read_packed start limit _) as [b|] eqn:Er; [|done].
  destruct (try_collect (read_packed start limit) tl) as [bs|] eqn:Ec; [|done]. intros [= <-].
  apply read_packed_spec in Er as (Hle & Hb & Hzb & Hc); [|done..].
  destruct (IH (a + size) _ _ _ Hs ltac:(lia) Hu Et Ec) as (Hend & Hsz & Hlen & Hcat & Hcrc).
  pose proof (sum_z_nonneg sizes Hu) as Hn. unfold sum_z in *. cbn [foldr map concat].
  split_and!.
  - intros _. destruct sizes; [cbn; lia|]. specialize (Hend ltac:(done)). lia.
  - rewrite Hsz. unfold ByteRange_len. cbn. f_equal. lia.
  - by rewrite Hzb, Hlen.
  - rewrite Hcat, Hb. replace (start + (a + size)) with (start + a + size) by lia.
    replace (start + a + (size + foldr Z.add 0 sizes)) with (start + a + size + foldr Z.add 0 sizes) by lia.
    symmetry. apply sub_list_step; lia.
  - intros [|k] c Hk; cbn in Hk; [injection Hk as <-; by rewrite Nat.add_0_r|].
    rewrite Nat.add_succ_r. by apply (Hcrc k).
Qed.

End raw.

(** ** Property: raw folders *)

(** A raw folder is what the archive holds at its index: its coder block is the folder
    block of that index, its packed streams together are the bytes of the source right
    after the packed bytes of all earlier folders, cut into the sizes of the stream table
    that follow theirs, each with its digest; they fit the buffer limit; and the handle
    belongs to this archive. *)
Theorem raw_folder_copied `{Nom} `{Crc32} self index raw data :
  source_is (ar_source self) data → 0 ≤ ar_base_offset self → 0 ≤ index →
  (∀ streams, Archive_try_streams_info self = Ok streams → sizes_u64 streams) →
  (∀ s pack, Archive_try_streams_info self = Ok (Some s) → si_pack_info s = Some pack → 0 ≤ pack_pos pack) →
  Archive_raw_folder self index = Ok raw →
  ∃ s pack unpack block layout earlier rest,
    Archive_try_streams_info self = Ok (Some s) ∧ StreamInfo_packed_folders s = Ok (pack, unpack) ∧
    UnpackInfo_folder_bytes unpack index = Ok block ∧ rb_folder_info raw = sl_data block ∧
    UnpackInfo_parse_folder unpack index = Ok (lo_folder layout) ∧
    zlen earlier = index ∧
    let before := concat (map (λ l, pst_sizes (lo_streams l)) earlier) in
    pack_size pack = before ++ rb_pack_sizes raw ++ rest ∧
    length (rb_pack_sizes raw) = length (fg_packed_inputs (lo_graph layout)) ∧
    sum_z (rb_pack_sizes raw) ≤ MAX_BUFFERED_PACKED_FOLDER_BYTES ∧
    map zlen (rb_packed_streams raw) = rb_pack_sizes raw ∧
    let start := ar_base_offset self + 32 + pack_pos pack + sum_z before in
    (rb_pack_sizes raw ≠ [] → start + sum_z (rb_pack_sizes raw) ≤ zlen data) ∧
    concat (rb_packed_streams raw) = sub_list start (start + sum_z (rb_pack_sizes raw)) data ∧
    (∀ k b, rb_packed_streams raw !! k = Some b → crc_matches (mjoin (pst_digests (lo_streams layout) !! k)) b) ∧
    rb_coder_unpack_sizes raw = lo_coder_sizes layout ∧ rb_folder_crc raw = mjoin (get index (unpack_digests unpack)) ∧
    rh_index (rb_handle raw) = index ∧
    ∀ other, RawFolderHandle_belongs_to (rb_handle raw) other = true ↔ ar_identity other = ar_identity self.
Proof.
  intros Hsource Hbase Hindex Hu Hpos. unfold Archive_raw_folder, Archive_read_raw_folder_block.
  destruct (Archive_try_streams_info self) as [[s|]|]; cbn [ok_or]; [|done..].
  destruct (StreamInfo_packed_folders s) as [[pack unpack]|] eqn:Ep; [|done].
  assert (si_pack_info s = Some pack ∧ si_unpack_info s = Some unpack) as [Hpk Hup].
  { unfold StreamInfo_packed_folders in Ep. destruct (si_pack_info s), (si_unpack_info s); try done. by injection Ep as -> ->. }
  destruct (Hu _ eq_refl s pack unpack eq_refl Hpk Hup) as [Hps _]. specialize (Hpos s pack eq_refl Hpk).
  unfold FolderLayouts_for_streams. rewrite Ep. destruct (decide _); [done|]. destruct (substream_count _ _) as [count|]; [|done].
  cbn [result_map fls_plans FolderLayouts_pack_pos fp_pack_info FolderPlans_new].
  destruct (PackedSource_new _ _ _) as [source|] eqn:Es; [|done]. apply PackedSource_new_ok in Es as ->.
  destruct (FolderPlans_nth _ _) as [[layout|]|] eqn:En; cbn [ok_or]; [|done..].
  destruct (FolderPlans_nth_at pack unpack _ _ [] _ _ (plans_at_new _ _ _) eq_refl En) as (earlier & st & Hat & Hlen).
  cbn [app] in Hat. pose proof (pa_layouts _ _ _ _ _ Hat (length earlier) layout) as Hl.
  rewrite lookup_app_r, Nat.sub_diag, take_app_length in Hl by lia. specialize (Hl eq_refl).
  assert (Z.of_nat (length earlier) = index) as Hidx by lia.
  pose proof (pa_packs _ _ _ _ _ Hat) as Hcat. rewrite map_app, concat_app in Hcat. cbn [map concat] in Hcat.
  rewrite app_nil_r in Hcat. pose proof (take_drop (Z.to_nat (fp_pack_index st)) (pack_size pack)) as Hall.
  rewrite <- Hcat, <- app_assoc in Hall. set (rest := drop _ _) in Hall.
  rewrite <- Hall in Hps. apply Forall_app in Hps as [Hbu Hps]. apply Forall_app in Hps as [Hps _].
  destruct (PackedStreams_iter _) as [packed|] eqn:Ei; [|done]. unfold PackedStreams_iter in Ei.
  rewrite (ls_start _ _ _ _ _ Hl) in Ei. unfold ensure_packed_folder_buffer_limit, ensure_packed_bytes_limit.
  destruct (try_fold _ 0 _) as [total|] eqn:Et; [|done]. case_decide as Hmax; [done|].
  change (λ stream, let? range := _ in _) with (read_packed (ar_source self)
    (ar_base_offset self + 32 + pack_pos pack) MAX_BUFFERED_PACKED_FOLDER_BYTES).
  destruct (try_collect _ packed) as [out|] eqn:Ec; [|done].
  assert (0 ≤ ar_base_offset self + 32 + pack_pos pack) as Hstart by lia.
  destruct (raw_streams_spec (ar_source self) data Hsource _ _ _ _ _ _ _ _ Hstart (sum_z_nonneg _ Hbu) Hps Ei Ec)
    as (Hend & Hsz & Hzs & Hout & Hcrc).
  rewrite Hsz, try_fold_checked_sum in Et; [|done|lia|].
  2:{ pose proof (ls_end _ _ _ _ _ Hl). pose proof (sum_z_nonneg _ Hbu). lia. }
  injection Et as <-. destruct (UnpackInfo_folder_bytes unpack index) as [block|] eqn:Eb; [|done]. intros [= <-].
  exists s, pack, unpack, block, layout, earlier, rest. cbn. rewrite Hsz.
  pose proof (ls_folder _ _ _ _ _ Hl) as Hf. rewrite Hidx in Hf.
  split_and!; try done.
  - unfold UnpackInfo_parse_folder. by rewrite Hf.
  - apply (ls_packed _ _ _ _ _ Hl).
  - rewrite Z.add_0_l in Hmax. unfold sum_z in Hmax. lia.
  - rewrite (ls_crc _ _ _ _ _ Hl), <- (get_lookup _ (length earlier)), Hidx. done.
  - intros other. unfold RawFolderHandle_belongs_to. cbn. rewrite bool_decide_eq_true. by split.
Qed.

(** ** Witnesses *)

#[local] Existing Instances flat_memory stored_decoders counter_cipher flat_hash sum_crc.

Lemma listing_accounts_for_archive_witness :
  ∃ self listing, sample_opened = Ok self ∧ Archive_listing self None = Ok listing ∧
    zlen (al_entries listing) = 1 ∧ packed_listed (al_entries listing) = 4 ∧ al_methods listing = ["Copy"].
Proof.
  destruct sample_opened as [self|] eqn:Eo; [|vm_compute in Eo; discriminate Eo].
  destruct (Archive_file_streams self) as [fs|] eqn:Efs;
    [|exfalso; vm_compute in Eo; injection Eo as <-; vm_compute in Efs; discriminate Efs].
  destruct (Archive_try_streams_info self) as [[s|]|] eqn:Es;
    [|exfalso; vm_compute in Eo; injection Eo as <-; vm_compute in Es; discriminate Es..].
  destruct (si_unpack_info s) as [unpack|] eqn:Eu;
    [|exfalso; vm_compute in Eo; injection Eo as <-; vm_compute in Es; injection Es as <-; discriminate Eu].
  destruct (listing_accounts_for_archive self None fs s unpack) as (pack & ls & st & items & listing & _ & _ & _ & Hl & Hz & _).
  - vm_compute in Eo. injection Eo as <-. by compute.
  - exact Efs.
  - exact Es.
  - exact Eu.
  - vm_compute in Eo. injection Eo as <-. vm_compute in Es. injection Es as <-. intros s unpack' [= <-] [= <-].
    do 3 eexists. split; [reflexivity|]. split; [vm_compute; reflexivity|].
    split; [repeat constructor; by compute|]. split; [repeat constructor; by compute|]. intros info Hi. discriminate Hi.
  - exists self, listing. split; [reflexivity|]. split; [exact Hl|]. split; [rewrite Hz; vm_compute in Eo; injection Eo as <-; reflexivity|].
    vm_compute in Eo. injection Eo as <-. vm_compute in Hl. injection Hl as <-. split; reflexivity.
Defined.

Lemma raw_folder_copied_witness :
  ∃ self raw, sample_opened = Ok self ∧ Archive_raw_folder self 0 = Ok raw ∧
    concat (rb_packed_streams raw) = [1; 2; 3; 4] ∧ rb_folder_info raw = [1; 1; 0] ∧
    ∀ other, RawFolderHandle_belongs_to (rb_handle raw) other = true ↔ ar_identity other = ar_identity self.
Proof.
  destruct sample_opened as [self|] eqn:Eo; [|vm_compute in Eo; discriminate Eo].
  destruct (Archive_raw_folder self 0) as [raw|] eqn:Er;
    [|exfalso; vm_compute in Eo; injection Eo as <-; vm_compute in Er; discriminate Er].
  destruct (raw_folder_copied self 0 raw sample_archive_bytes)
    as (s & pack & unpack & block & layout & earlier & rest & Hs & Hp & _ & _ & _ & He & Hrest).
  - vm_compute in Eo. injection Eo as <-. apply (bytes_source_is sample_archive_bytes). by compute.
  - vm_compute in Eo. injection Eo as <-. by compute.
  - lia.
  - vm_compute in Eo. injection Eo as <-. intros streams Hs. vm_compute in Hs. injection Hs as <-.
    intros s pack unpack [= <-] [= <-] [= <-]. split; repeat constructor; by compute.
  - vm_compute in Eo. injection Eo as <-. intros s pack Hs. vm_compute in Hs. injection Hs as <-. intros [= <-]. by compute.
  - exact Er.
  - exists self, raw. split; [reflexivity|]. split; [exact Er|].
    destruct Hrest as (_ & _ & _ & _ & _ & _ & _ & _ & _ & _ & Hh).
    vm_compute in Eo. injection Eo as <-. vm_compute in Er. injection Er as <-.
    split; [reflexivity|]. split; [reflexivity|exact Hh].
Defined.
