(* ===== verification/WriteOptions.v ===== *)
(** * Write options (src/src/write/model.rs, src/src/write/encode.rs)

    The options an archive is written with, their validation, and the encoder settings
    derived from them. The options types of the encoder crates are known by their
    fields, their presets and memory estimates are parameters. *)

From stdpp Require Import base numbers list option strings.
From Stdlib Require Import ZArith Lia.
From S2P Require Import Prelude Method Folder Error Operation Resources Aes DecoderPlan.

(** ** The options *)

Inductive Codec := CodecCopy | CodecLzma | CodecLzma2 | CodecPpmd | CodecLzma2Bcj.
Inductive HeaderMode := P7zipDefault | PlainHeader | EncodedHeader.
Inductive EncoderThreads := ThreadsAuto | ThreadsSingle | ThreadsFixed (count : Z).
Inductive MatchFinder := Hc4 | Bt4.
Inductive LzmaAlgorithm := AlgorithmFast | AlgorithmNormal.
Inductive CompressionLevel := Store | Fastest | Fast | Normal | Maximum | Ultra.
Inductive SolidMode := Solid | NonSolid | SolidLimit (max_files max_bytes : option Z).

#[global] Instance Codec_eq_dec : EqDecision Codec.
Proof. solve_decision. Defined.
#[global] Instance HeaderMode_eq_dec : EqDecision HeaderMode.
Proof. solve_decision. Defined.
#[global] Instance SolidMode_eq_dec : EqDecision SolidMode.
Proof. solve_decision. Defined.

Record CompressionOptions := {
  co_level : CompressionLevel;
  co_dictionary_size : option Z;
  co_fast_bytes : option Z;
  co_literal_context_bits : option Z;
  co_literal_position_bits : option Z;
  co_position_bits : option Z;
  co_match_finder : option MatchFinder;
  co_lzma_algorithm : option LzmaAlgorithm;
  co_match_cycles : option Z;
  co_solid : SolidMode;
  co_lzma2_chunk_size : option Z;
  co_threads : EncoderThreads;
  co_encoder_memory_limit : option Z
}.

Definition CompressionOptions_default : CompressionOptions :=
  {| co_level := Normal; co_dictionary_size := None; co_fast_bytes := None;
     co_literal_context_bits := None; co_literal_position_bits := None; co_position_bits := None;
     co_match_finder := None; co_lzma_algorithm := None; co_match_cycles := None;
     co_solid := Solid; co_lzma2_chunk_size := None; co_threads := ThreadsAuto;
     co_encoder_memory_limit := None |}.

(** A directory is its path. *)
Inductive SpoolMode :=
| SpoolMemory
| SpoolTempFile (dir : option (list Z))
| SpoolAuto (memory_threshold : Z) (dir : option (list Z)).

Record StreamingOptions := {
  st_control : option OperationControl;
  st_buffer_size : Z;
  st_spool : SpoolMode;
  st_resource_limits : ResourceLimits
}.

Definition StreamingOptions_default : StreamingOptions :=
  {| st_control := None; st_buffer_size := 64 * 1024;
     st_spool := SpoolAuto (16 * 1024 * 1024) None;
     st_resource_limits := ResourceLimits_default |}.

(** A password is its scalar values. *)
Record EncryptionOptions := {
  eo_password : list Z;
  eo_encrypt_header : bool;
  eo_num_cycles_power : Z;
  eo_salt_len : Z;
  eo_iv_len : Z
}.

Definition EncryptionOptions_default_for_password (password : list Z) : EncryptionOptions :=
  {| eo_password := password; eo_encrypt_header := false; eo_num_cycles_power := 19;
     eo_salt_len := 0; eo_iv_len := 16 |}.

Record ArchiveOptions := {
  ao_codec : Codec;
  ao_header_mode : HeaderMode;
  ao_encryption : option EncryptionOptions;
  ao_compression : CompressionOptions;
  ao_streaming : StreamingOptions
}.

Definition ArchiveOptions_default : ArchiveOptions :=
  {| ao_codec := CodecLzma2; ao_header_mode := P7zipDefault; ao_encryption := None;
     ao_compression := CompressionOptions_default; ao_streaming := StreamingOptions_default |}.

(** ** Encoder settings *)

Inductive EncodeMode := ModeFast | ModeNormal.

(** [lzma_rust2::LzmaOptions]. *)
Record LzmaOptions := {
  lz_dict_size : Z;
  lz_lc : Z;
  lz_lp : Z;
  lz_pb : Z;
  lz_mode : EncodeMode;
  lz_nice_len : Z;
  lz_mf : MatchFinder;
  lz_depth_limit : Z
}.

(** What the encoder crates give: the presets of [lzma-rust2] with its memory estimates
    in KiB, and the ranges of [ppmd-rust]. The presets have dictionaries between 4 KiB
    and 64 MiB and the literal and position bits of the format's reference encoder. *)
Class EncoderLimits := {
  lzma_with_preset : Z → LzmaOptions;
  lzma_encoder_memory_usage : LzmaOptions → Z;
  PPMD7_MIN_ORDER : Z;
  PPMD7_MAX_ORDER : Z;
  PPMD7_MIN_MEM_SIZE : Z;
  PPMD7_MAX_MEM_SIZE : Z;
  lzma_memory_usage_u32 : ∀ o, is_u32 (lzma_encoder_memory_usage o);
  lzma_preset_dict : ∀ level, 4096 ≤ lz_dict_size (lzma_with_preset level) ≤ 64 * 1024 * 1024;
  lzma_preset_bits : ∀ level, lz_lc (lzma_with_preset level) = 3 ∧
    lz_lp (lzma_with_preset level) = 0 ∧ lz_pb (lzma_with_preset level) = 2;
  ppmd_orders : 0 ≤ PPMD7_MIN_ORDER ≤ 6 ∧ 6 ≤ PPMD7_MAX_ORDER ≤ u8_max;
  ppmd_memory : 0 ≤ PPMD7_MIN_MEM_SIZE ≤ 2 ^ 20 ∧ 64 * 2 ^ 20 ≤ PPMD7_MAX_MEM_SIZE ≤ u32_max
}.

Record AesSettings := { as_cycles_power : Z; as_salt_len : Z; as_iv_len : Z }.
Record PpmdSettings := { ps_order : Z; ps_memory_size : Z }.

Inductive CodecSettings := SettingsCopy | SettingsLzma | SettingsLzma2
| SettingsPpmd (settings : PpmdSettings) | SettingsLzma2Bcj.

Inductive ThreadRequest := RequestAuto | RequestSingle | RequestFixed (count : Z).

Inductive PreparedCodec := PreparedCopy | PreparedLzma | PreparedLzma2 (threads : ThreadRequest)
| PreparedPpmd (settings : PpmdSettings) | PreparedLzma2Bcj (threads : ThreadRequest).

Record PreparedSettings := { pr_aes : AesSettings; pr_codec : PreparedCodec }.
Record PreparedArchiveOptions := { po_archive : ArchiveOptions; po_settings : PreparedSettings }.
Record PreparedEncryption := { pe_options : EncryptionOptions; pe_settings : AesSettings }.

Definition PreparedArchiveOptions_encryption (self : PreparedArchiveOptions) : option PreparedEncryption :=
  (λ options, {| pe_options := options; pe_settings := pr_aes (po_settings self) |}) <$>
    ao_encryption (po_archive self).

Definition compression_level_preset (level : CompressionLevel) : Z :=
  match level with Store => 0 | Fastest => 1 | Fast => 3 | Normal => 5 | Maximum => 7 | Ultra => 9 end.

Section options.
  Context `{EncoderLimits}.

(** The values p7zip uses at each level. *)
Definition lzma_level_options (level : CompressionLevel) : LzmaOptions :=
  let options := lzma_with_preset (compression_level_preset level) in
  let tuned dict_size nice_len depth_limit :=
    {| lz_dict_size := dict_size; lz_lc := lz_lc options; lz_lp := lz_lp options;
       lz_pb := lz_pb options; lz_mode := lz_mode options; lz_nice_len := nice_len;
       lz_mf := lz_mf options; lz_depth_limit := depth_limit |} in
  match level with
  | Fastest => tuned (Z.shiftl 256 10) 32 16
  | Fast => tuned (Z.shiftl 4 20) 32 16
  | Normal => tuned (Z.shiftl 16 20) 32 32
  | Maximum => tuned (Z.shiftl 32 20) 64 48
  | Ultra => tuned (Z.shiftl 64 20) 64 48
  | Store => options
  end.

Definition lzma_options (compression : CompressionOptions) : LzmaOptions :=
  let options := lzma_level_options (co_level compression) in
  {| lz_dict_size := default (lz_dict_size options) (co_dictionary_size compression);
     lz_lc := default (lz_lc options) (co_literal_context_bits compression);
     lz_lp := default (lz_lp options) (co_literal_position_bits compression);
     lz_pb := default (lz_pb options) (co_position_bits compression);
     lz_mode := match co_lzma_algorithm compression with
                | Some AlgorithmFast => ModeFast
                | Some AlgorithmNormal => ModeNormal
                | None => lz_mode options
                end;
     lz_nice_len := default (lz_nice_len options) (co_fast_bytes compression);
     lz_mf := default (lz_mf options) (co_match_finder compression);
     lz_depth_limit := default (lz_depth_limit options) (co_match_cycles compression) |}.

Definition DEFAULT_LZMA2_CHUNK_SIZE : Z := 64 * 1024 * 1024.
Definition MAX_LZMA2_CHUNK_SIZE : Z := 1024 * 1024 * 1024.

Definition effective_lzma2_chunk_size (compression : CompressionOptions) : Z :=
  let dict := lz_dict_size (lzma_options compression) in
  default (Z.min (Z.max DEFAULT_LZMA2_CHUNK_SIZE dict) MAX_LZMA2_CHUNK_SIZE)
    (co_lzma2_chunk_size compression).

(** [lzma_rust2::Lzma2Options]; the chunk size is always set. *)
Record Lzma2Options := { l2_lzma_options : LzmaOptions; l2_chunk_size : Z }.

Definition lzma2_options (compression : CompressionOptions) : Lzma2Options :=
  {| l2_lzma_options := lzma_options compression;
     l2_chunk_size := effective_lzma2_chunk_size compression |}.

(** [checked_shl] fails for a shift of 32 or more only; bits shifted out are lost. *)
Definition lzma2_prop_size (prop : Z) : option Z :=
  let shift := Z.shiftr prop 1 + 11 in
  if decide (shift < 32) then Some (Z.shiftl (Z.lor 2 (Z.land prop 1)) shift mod 2 ^ 32) else None.

Fixpoint find_lzma2_prop (props : list Z) (dict_size : Z) : result Z R7zError :=
  match props with
  | [] => Err (InvalidOptions "dictionary_size is too large")
  | prop :: props =>
      match lzma2_prop_size prop with
      | None => Err (InvalidOptions "dictionary_size is too large")
      | Some size => if decide (dict_size ≤ size) then Ok prop else find_lzma2_prop props dict_size
      end
  end.

Definition encode_lzma2_dict_size (dict_size : Z) : result Z R7zError :=
  if decide (dict_size < 4096) then Err (InvalidOptions "dictionary_size must be at least 4096 bytes")
  else if decide (dict_size = u32_max) then Ok 40
  else find_lzma2_prop (seqZ 0 40) dict_size.

Definition lzma2_property_byte (compression : CompressionOptions) : result Z R7zError :=
  encode_lzma2_dict_size (lz_dict_size (lzma_options compression)).

(** ** Validation *)

Definition ppmd_memory_size_preset (level : CompressionLevel) : Z :=
  match level with
  | Store | Fastest => Z.shiftl 1 20
  | Fast => Z.shiftl 4 20
  | Normal => Z.shiftl 16 20
  | Maximum => Z.shiftl 32 20
  | Ultra => Z.shiftl 64 20
  end.

Definition ppmd_order (compression : CompressionOptions) : result Z R7zError :=
  let order := default 6 (co_fast_bytes compression) in
  if negb (bool_decide (PPMD7_MIN_ORDER ≤ order ≤ PPMD7_MAX_ORDER))
  then Err (InvalidOptions "PPMd order must be in 2..=64")
  else if decide (order ≤ u8_max) then Ok order else Err (InvalidOptions "PPMd order is too large").

Definition ppmd_settings (compression : CompressionOptions) (order : Z) : result PpmdSettings R7zError :=
  let mem_size := default (ppmd_memory_size_preset (co_level compression)) (co_dictionary_size compression) in
  if negb (bool_decide (PPMD7_MIN_MEM_SIZE ≤ mem_size ≤ PPMD7_MAX_MEM_SIZE))
  then Err (InvalidOptions "PPMd memory size is outside supported range")
  else Ok {| ps_order := order; ps_memory_size := mem_size |}.

(** [i32::try_from]. *)
Definition validate_match_cycles (compression : CompressionOptions) : result unit R7zError :=
  match co_match_cycles compression with
  | Some match_cycles =>
      if decide (match_cycles < 2 ^ 31) then Ok tt else Err (InvalidOptions "match_cycles is too large")
  | None => Ok tt
  end.

Definition validate_lzma_property_bits (compression : CompressionOptions) : result unit R7zError :=
  let lc := default 3 (co_literal_context_bits compression) in
  let lp := default 0 (co_literal_position_bits compression) in
  let pb := default 2 (co_position_bits compression) in
  if decide (8 < lc) then Err (InvalidOptions "literal_context_bits must be in 0..=8")
  else if decide (4 < lp) then Err (InvalidOptions "literal_position_bits must be in 0..=4")
  else if decide (4 < pb) then Err (InvalidOptions "position_bits must be in 0..=4")
  else if decide (4 < lc + lp)
  then Err (InvalidOptions "literal_context_bits + literal_position_bits must be <= 4")
  else Ok tt.

Definition is_lzma2 (codec : Codec) : bool :=
  match codec with CodecLzma2 | CodecLzma2Bcj => true | _ => false end.

Definition validate_lzma2_chunk_size (options : ArchiveOptions) : result unit R7zError :=
  let dict := lz_dict_size (lzma_options (ao_compression options)) in
  let? _ := (if is_lzma2 (ao_codec options) && bool_decide (MAX_LZMA2_CHUNK_SIZE < dict)
             then Err (InvalidOptions "dictionary_size must be <= 1g for LZMA2") else Ok tt) in
  match co_lzma2_chunk_size (ao_compression options) with
  | Some chunk_size =>
      if decide (MAX_LZMA2_CHUNK_SIZE < chunk_size) then Err (InvalidOptions "lzma2_chunk_size must be <= 1g")
      else if decide (chunk_size < dict)
      then Err (InvalidOptions "lzma2_chunk_size must be at least dictionary_size")
      else Ok tt
  | None => Ok tt
  end.

Definition is_defined {A} (o : option A) : bool := match o with Some _ => true | None => false end.

(** The tuning of the LZMA encoders only. *)
Definition lzma_tuned (c : CompressionOptions) : bool :=
  is_defined (co_literal_context_bits c) || is_defined (co_literal_position_bits c) ||
  is_defined (co_position_bits c) || is_defined (co_match_finder c) ||
  is_defined (co_lzma_algorithm c) || is_defined (co_match_cycles c).

Definition codec_methods (codec : Codec) : list SevenZMethod :=
  match codec with
  | CodecCopy => [Copy]
  | CodecLzma => [Lzma]
  | CodecLzma2 => [Lzma2]
  | CodecPpmd => [Ppmd]
  | CodecLzma2Bcj => [Lzma2; Bcj]
  end.

Definition invalid {A} (what : string) : result A R7zError := Err (InvalidOptions what).

Definition validate_compression_options (options : ArchiveOptions) : result CodecSettings R7zError :=
  let c := ao_compression options in
  let codec := ao_codec options in
  if existsb (λ m, negb (from_option MethodStatus_is_implemented false (SevenZMethod_encode_status m)))
       (codec_methods codec)
  then invalid "selected codec is not supported for writing"
  else if decide (st_buffer_size (ao_streaming options) = 0)
  then invalid "streaming buffer_size must be greater than zero"
  else if bool_decide (codec = CodecCopy) &&
          (is_defined (co_dictionary_size c) || is_defined (co_fast_bytes c) || lzma_tuned c ||
           is_defined (co_lzma2_chunk_size c))
  then invalid "Copy codec does not support compression tuning"
  else if match co_dictionary_size c with
          | Some dict => bool_decide (dict < if decide (codec = CodecPpmd) then PPMD7_MIN_MEM_SIZE else 4096)
          | None => false
          end
  then invalid "dictionary_size is too small for selected codec"
  else
  let? order :=
    match codec with
    | CodecPpmd => result_map Some (ppmd_order c)
    | _ => if match co_fast_bytes c with
              | Some fast_bytes => negb (bool_decide (8 ≤ fast_bytes ≤ 273))
              | None => false
              end
           then invalid "fast_bytes must be in 8..=273" else Ok None
    end in
  if bool_decide (codec = CodecPpmd) && is_defined (co_lzma2_chunk_size c)
  then invalid "PPMd does not support lzma2_chunk_size"
  else if bool_decide (codec = CodecPpmd) && lzma_tuned c
  then invalid "PPMd does not support LZMA-specific tuning"
  else
  let? _ := validate_lzma_property_bits c in
  let? _ := validate_match_cycles c in
  let? _ := validate_lzma2_chunk_size options in
  if decide (co_solid c = SolidLimit None None) then invalid "solid limit requires max_files or max_bytes"
  else
  match codec, order with
  | CodecCopy, _ => Ok SettingsCopy
  | CodecLzma, _ => Ok SettingsLzma
  | CodecLzma2, _ => Ok SettingsLzma2
  | CodecPpmd, Some order => result_map SettingsPpmd (ppmd_settings c order)
  | CodecPpmd, None => Err Parse
  | CodecLzma2Bcj, _ => Ok SettingsLzma2Bcj
  end.

Definition MAX_WORKERS : Z := 256.

Definition validate_threads (options : ArchiveOptions) : result ThreadRequest R7zError :=
  match co_threads (ao_compression options) with
  | ThreadsFixed count =>
      if decide (count = 0) then invalid "encoder thread count must be positive"
      else if negb (is_lzma2 (ao_codec options)) then invalid "multiple encoder threads require LZMA2"
      else if decide (MAX_WORKERS < count) then invalid "encoder thread count must be <= 256"
      else Ok (RequestFixed count)
  | ThreadsAuto => Ok RequestAuto
  | ThreadsSingle => Ok RequestSingle
  end.

Definition validate_encryption (options : ArchiveOptions) : result AesSettings R7zError :=
  match ao_encryption options with
  | Some enc =>
      if decide (MAX_AES_NUM_CYCLES_POWER < eo_num_cycles_power enc)
      then invalid "AES num_cycles_power must be <= 24"
      else if decide (16 < eo_salt_len enc) then invalid "AES salt_len must be <= 16"
      else if decide (16 < eo_iv_len enc) then invalid "AES iv_len must be <= 16"
      else if eo_encrypt_header enc && bool_decide (ao_header_mode options = PlainHeader)
      then invalid "encrypt_header requires encoded headers"
      else Ok {| as_cycles_power := eo_num_cycles_power enc; as_salt_len := eo_salt_len enc;
                 as_iv_len := eo_iv_len enc |}
  | None => Ok {| as_cycles_power := 0; as_salt_len := 0; as_iv_len := 0 |}
  end.

Definition validate_archive_options (options : ArchiveOptions) : result PreparedSettings R7zError :=
  let? codec_settings := validate_compression_options options in
  let? threads := validate_threads options in
  let codec := match codec_settings with
               | SettingsCopy => PreparedCopy
               | SettingsLzma => PreparedLzma
               | SettingsLzma2 => PreparedLzma2 threads
               | SettingsPpmd settings => PreparedPpmd settings
               | SettingsLzma2Bcj => PreparedLzma2Bcj threads
               end in
  let? aes := validate_encryption options in
  Ok {| pr_aes := aes; pr_codec := codec |}.

Definition prepare_archive_options (archive : ArchiveOptions) : result PreparedArchiveOptions R7zError :=
  let? settings := validate_archive_options archive in
  Ok {| po_archive := archive; po_settings := settings |}.

Definition ENCODED_OUTPUT_BUFFER_BYTES : Z := 64 * 1024.

Definition validate_encoder_working_set (self : PreparedArchiveOptions) : result unit R7zError :=
  match max_encoder_working_set_bytes (st_resource_limits (ao_streaming (po_archive self))) with
  | None => Ok tt
  | Some limit =>
      let charge estimate :=
        let? estimate := ok_or (checked_add estimate ENCODED_OUTPUT_BUFFER_BYTES)
                           (LimitExceeded "encoder memory") in
        if decide (limit < estimate) then Err (LimitExceeded "encoder memory") else Ok tt in
      match pr_codec (po_settings self) with
      | PreparedLzma =>
          let? estimate :=
            ok_or (checked_mul (lzma_encoder_memory_usage (lzma_options (ao_compression (po_archive self)))) 1024)
              (LimitExceeded "encoder memory") in
          charge estimate
      | PreparedPpmd settings => charge (ps_memory_size settings)
      | PreparedCopy | PreparedLzma2 _ | PreparedLzma2Bcj _ => Ok tt
      end
  end.

End options.

(** ** Validated options can be encoded *)

(** Numbers of the width the code gives them. *)
Record options_ok (c : CompressionOptions) : Prop := {
  ok_dict : from_option is_u32 True (co_dictionary_size c);
  ok_lc : from_option is_u32 True (co_literal_context_bits c);
  ok_lp : from_option is_u32 True (co_literal_position_bits c);
  ok_pb : from_option is_u32 True (co_position_bits c);
  ok_chunk : from_option (λ n, 1 ≤ n ≤ u64_max) True (co_lzma2_chunk_size c)
}.

(** The dictionary a property byte below 40 stands for. *)
Definition prop_dict (p : Z) : Z := (2 + p mod 2) * 2 ^ (p / 2 + 11).

Lemma lzma2_prop_size_spec p : 0 ≤ p < 40 →
  lzma2_prop_size p = Some (prop_dict p) ∧ Z.shiftl (Z.lor 2 (Z.land p 1)) (Z.shiftr p 1 + 11) = prop_dict p ∧
  4096 ≤ prop_dict p ≤ u32_max.
Proof.
  intros Hp. assert (forallb (λ k, let p := Z.of_nat k in
    bool_decide (lzma2_prop_size p = Some (prop_dict p)) &&
    bool_decide (Z.shiftl (Z.lor 2 (Z.land p 1)) (Z.shiftr p 1 + 11) = prop_dict p) &&
    bool_decide (4096 ≤ prop_dict p ≤ u32_max)) (seq 0 40) = true) as Hall by by vm_compute.
  rewrite forallb_forall in Hall. specialize (Hall (Z.to_nat p)).
  rewrite Z2Nat.id in Hall by lia. cbn zeta in Hall.
  rewrite !andb_true_iff, !bool_decide_eq_true in Hall.
  destruct Hall as [[? ?] ?]; [|done]. apply in_seq. lia.
Qed.

Lemma prop_dict_mono p q : 0 ≤ p ≤ q → q < 40 → prop_dict p ≤ prop_dict q.
Proof.
  intros Hp Hq. assert (forallb (λ i, forallb (λ j,
    bool_decide (prop_dict (Z.of_nat i) ≤ prop_dict (Z.of_nat (i + j)))) (seq 0 (40 - i))) (seq 0 40) = true)
    as Hall by by vm_compute.
  rewrite forallb_forall in Hall. specialize (Hall (Z.to_nat p)).
  rewrite forallb_forall in Hall. pose proof (λ H, Hall H (Z.to_nat (q - p))) as Hpq.
  rewrite bool_decide_eq_true in Hpq.
  replace (Z.of_nat (Z.to_nat p + Z.to_nat (q - p))) with q in Hpq by lia.
  rewrite Z2Nat.id in Hpq by lia. apply Hpq; apply in_seq; lia.
Qed.

Lemma find_lzma2_prop_spec k n dict prop :
  0 ≤ k → k + Z.of_nat n ≤ 40 → find_lzma2_prop (seqZ k (Z.of_nat n)) dict = Ok prop →
  k ≤ prop < k + Z.of_nat n ∧ dict ≤ prop_dict prop ∧ ∀ q, k ≤ q < prop → prop_dict q < dict.
Proof.
  revert k. induction n as [|n IH]; intros k Hk Hn; [done|].
  rewrite seqZ_cons by lia. replace (Z.pred (Z.of_nat (S n))) with (Z.of_nat n) by lia. cbn [find_lzma2_prop].
  destruct (lzma2_prop_size_spec k ltac:(lia)) as (-> & _). case_decide as Hd.
  - intros [= <-]. split_and!; [lia|lia|done|]. intros q ?. lia.
  - intros (Hp & ? & Hq)%IH; [|lia..]. split_and!; [lia|lia|done|].
    intros q ?. destruct (decide (q = k)) as [->|]; [lia|]. apply Hq. lia.
Qed.

Lemma find_lzma2_prop_total k n dict :
  0 ≤ k → k + Z.of_nat (S n) ≤ 40 → dict ≤ prop_dict (k + Z.of_nat n) →
  ∃ prop, find_lzma2_prop (seqZ k (Z.of_nat (S n))) dict = Ok prop.
Proof.
  revert k. induction n as [|n IH]; intros k Hk Hn Hd.
  - change (Z.of_nat 1) with 1. rewrite seqZ_cons by lia. cbn [find_lzma2_prop].
    destruct (lzma2_prop_size_spec k ltac:(lia)) as (-> & _).
    rewrite decide_True by (by rewrite Z.add_0_r in Hd). by eexists.
  - rewrite seqZ_cons by lia. replace (Z.pred (Z.of_nat (S (S n)))) with (Z.of_nat (S n)) by lia.
    cbn [find_lzma2_prop]. destruct (lzma2_prop_size_spec k ltac:(lia)) as (-> & _).
    case_decide; [by eexists|]. apply IH; [lia..|]. by replace (Z.succ k + Z.of_nat n) with (k + Z.of_nat (S n)) by lia.
Qed.

(** The property byte of a dictionary of up to 3 GiB: the least that covers it. *)
Lemma encode_lzma2_dict_size_spec dict :
  4096 ≤ dict ≤ 3 * 2 ^ 30 →
  ∃ prop, encode_lzma2_dict_size dict = Ok prop ∧ 0 ≤ prop < 40 ∧ dict ≤ prop_dict prop ∧
    ∀ q, 0 ≤ q < prop → prop_dict q < dict.
Proof.
  intros Hd. unfold encode_lzma2_dict_size. rewrite !decide_False by lia.
  destruct (find_lzma2_prop_total 0 39 dict) as (prop & Hp); [lia..| |].
  { change (prop_dict (0 + Z.of_nat 39)) with (3 * 2 ^ 30). lia. }
  change 40 with (Z.of_nat 40). rewrite Hp. exists prop. split; [done|].
  by apply find_lzma2_prop_spec in Hp as (? & ? & ?); [|lia..].
Qed.

Section validated.
  Context `{EncoderLimits}.

Lemma level_dict level : 4096 ≤ lz_dict_size (lzma_level_options level) ≤ 64 * 1024 * 1024.
Proof.
  pose proof (lzma_preset_dict 0). unfold lzma_level_options.
  destruct level; cbn [lz_dict_size]; rewrite ?Z.shiftl_mul_pow2 by lia; try lia. done.
Qed.

Lemma level_bits level : lz_lc (lzma_level_options level) = 3 ∧ lz_lp (lzma_level_options level) = 0 ∧
  lz_pb (lzma_level_options level) = 2.
Proof. destruct level; apply lzma_preset_bits. Qed.

Lemma encode_status_known codec :
  existsb (λ m, negb (from_option MethodStatus_is_implemented false (SevenZMethod_encode_status m)))
    (codec_methods codec) = false.
Proof. by destruct codec; vm_compute. Qed.

(** What the validation of the compression options leaves. *)
Record compression_valid (options : ArchiveOptions) (settings : CodecSettings) : Prop := {
  cv_buffer : st_buffer_size (ao_streaming options) ≠ 0;
  cv_dict : ao_codec options ≠ CodecPpmd →
    from_option (λ d, 4096 ≤ d) True (co_dictionary_size (ao_compression options));
  cv_bits : validate_lzma_property_bits (ao_compression options) = Ok tt;
  cv_chunk : validate_lzma2_chunk_size options = Ok tt;
  cv_solid : co_solid (ao_compression options) ≠ SolidLimit None None;
  cv_settings : match ao_codec options with
    | CodecCopy => settings = SettingsCopy
    | CodecLzma => settings = SettingsLzma
    | CodecLzma2 => settings = SettingsLzma2
    | CodecPpmd => ∃ order ppmd, settings = SettingsPpmd ppmd ∧
        ppmd_order (ao_compression options) = Ok order ∧ ppmd_settings (ao_compression options) order = Ok ppmd
    | CodecLzma2Bcj => settings = SettingsLzma2Bcj
    end
}.

Lemma validate_compression_options_ok options settings :
  validate_compression_options options = Ok settings → compression_valid options settings.
Proof.
  unfold validate_compression_options, invalid. rewrite encode_status_known. case_decide as Hb; [done|].
  destruct (bool_decide _ && _); [done|].
  destruct (match co_dictionary_size _ with Some _ => _ | None => _ end) eqn:Hd; [done|].
  destruct (match ao_codec options with CodecPpmd => _ | _ => _ end) as [order|] eqn:Ho; [|done].
  destruct (bool_decide _ && _); [done|]. destruct (bool_decide _ && _); [done|].
  destruct (validate_lzma_property_bits _) as [[]|] eqn:Hbits; [|done].
  destruct (validate_match_cycles _) as [[]|]; [|done].
  destruct (validate_lzma2_chunk_size _) as [[]|] eqn:Hchunk; [|done].
  destruct (decide (co_solid _ = _)) as [Hs|Hs]; [done|].
  intros Hset. split; try done.
  - intros Hc. destruct (co_dictionary_size (ao_compression options)) as [d|]; [|done]. cbn.
    rewrite decide_False in Hd by done. apply bool_decide_eq_false in Hd. lia.
  - destruct (ao_codec options); try by destruct order; injection Hset as <-.
    destruct (ppmd_order (ao_compression options)) as [o|]; [|done]. injection Ho as <-.
    cbn in Hset. destruct (ppmd_settings (ao_compression options) o) as [ppmd|] eqn:Hp; [|done].
    injection Hset as <-. by exists o, ppmd.
Qed.

Lemma validate_archive_options_ok options settings :
  validate_archive_options options = Ok settings →
  ∃ codec threads aes, compression_valid options codec ∧ validate_threads options = Ok threads ∧
    validate_encryption options = Ok aes ∧
    settings = {| pr_aes := aes; pr_codec := match codec with
      | SettingsCopy => PreparedCopy | SettingsLzma => PreparedLzma | SettingsLzma2 => PreparedLzma2 threads
      | SettingsPpmd ppmd => PreparedPpmd ppmd | SettingsLzma2Bcj => PreparedLzma2Bcj threads end |}.
Proof.
  unfold validate_archive_options.
  destruct (validate_compression_options options) as [codec|] eqn:Hc; [|done].
  destruct (validate_threads options) as [threads|] eqn:Ht; [|done].
  destruct (validate_encryption options) as [aes|] eqn:He; [|done]. intros [= <-].
  exists codec, threads, aes. split_and!; [by apply validate_compression_options_ok|done..].
Qed.

Lemma options_dict c :
  options_ok c → from_option (λ d, 4096 ≤ d) True (co_dictionary_size c) →
  4096 ≤ lz_dict_size (lzma_options c) ≤ u32_max.
Proof.
  intros [Hd _ _ _ _] Hmin. cbn. pose proof (level_dict (co_level c)).
  destruct (co_dictionary_size c) as [d|]; cbn in *; unfold is_u32 in *; lia.
Qed.

Lemma validate_lzma2_chunk_size_ok options :
  validate_lzma2_chunk_size options = Ok tt →
  let c := ao_compression options in
  (is_lzma2 (ao_codec options) = true → lz_dict_size (lzma_options c) ≤ MAX_LZMA2_CHUNK_SIZE) ∧
  (lz_dict_size (lzma_options c) ≤ MAX_LZMA2_CHUNK_SIZE →
   lz_dict_size (lzma_options c) ≤ effective_lzma2_chunk_size c ≤ MAX_LZMA2_CHUNK_SIZE).
Proof.
  unfold validate_lzma2_chunk_size, effective_lzma2_chunk_size. cbn zeta.
  set (dict := lz_dict_size _). destruct (is_lzma2 _ && _) eqn:Hl; [done|]. intros Hc. split.
  - intros Hi. rewrite Hi, andb_true_l in Hl. apply bool_decide_eq_false in Hl. lia.
  - intros Hd. destruct (co_lzma2_chunk_size (ao_compression options)) as [n|].
    + change (default ?x (Some n)) with n. repeat (case_decide; [done|]). lia.
    + change (default ?x None) with x. lia.
Qed.

End validated.

(** The reader on a property byte of the writer. *)
Lemma prop_read_back prop : 0 ≤ prop < 40 →
  lzma2_dict_size (Some [prop]) =
    if decide (prop_dict prop ≤ MAX_LZMA_DICTIONARY_BYTES) then Ok (prop_dict prop)
    else Err (resource_limit "LZMA dictionary" MAX_LZMA_DICTIONARY_BYTES).
Proof.
  intros Hp. unfold lzma2_dict_size. rewrite !decide_False by lia.
  destruct (lzma2_prop_size_spec prop Hp) as (_ & -> & _).
  destruct (decide (prop_dict prop ≤ MAX_LZMA_DICTIONARY_BYTES));
    [by rewrite decide_False by lia|by rewrite decide_True by lia].
Qed.

Lemma ppmd_settings_ok `{EncoderLimits} c order ppmd :
  ppmd_order c = Ok order → ppmd_settings c order = Ok ppmd →
  PPMD7_MIN_ORDER ≤ ps_order ppmd ≤ PPMD7_MAX_ORDER ∧
  PPMD7_MIN_MEM_SIZE ≤ ps_memory_size ppmd ≤ PPMD7_MAX_MEM_SIZE.
Proof.
  unfold ppmd_order, ppmd_settings. case_bool_decide; [|done]. cbn [negb]. case_decide; [|done].
  intros [= <-]. case_bool_decide; [|done]. by intros [= <-].
Qed.

Lemma property_bits_ok `{EncoderLimits} c :
  options_ok c → validate_lzma_property_bits c = Ok tt →
  0 ≤ lz_lc (lzma_options c) ∧ 0 ≤ lz_lp (lzma_options c) ∧
  lz_lc (lzma_options c) + lz_lp (lzma_options c) ≤ 4 ∧ 0 ≤ lz_pb (lzma_options c) ≤ 4.
Proof.
  intros [_ Hlc Hlp Hpb _]. destruct (level_bits (co_level c)) as (L1 & L2 & L3).
  unfold lzma_options. cbn [lz_lc lz_lp lz_pb]. rewrite L1, L2, L3. unfold validate_lzma_property_bits. cbn zeta.
  assert (∀ d (o : option Z), 0 ≤ d → from_option is_u32 True o → 0 ≤ default d o) as Hd.
  { intros d [v|] ? Hv; [|done]. apply Hv. }
  pose proof (Hd 3 _ ltac:(lia) Hlc). pose proof (Hd 0 _ ltac:(lia) Hlp). pose proof (Hd 2 _ ltac:(lia) Hpb).
  repeat (case_decide; [done|]). intros _. lia.
Qed.

Lemma options_encodable `{EncoderLimits} options settings :
  options_ok (ao_compression options) → validate_archive_options options = Ok settings →
  let c := ao_compression options in
  let dict := lz_dict_size (lzma_options c) in
  (ao_codec options ≠ CodecPpmd → 4096 ≤ dict ≤ u32_max) ∧
  (0 ≤ lz_lc (lzma_options c) ∧ 0 ≤ lz_lp (lzma_options c) ∧
   lz_lc (lzma_options c) + lz_lp (lzma_options c) ≤ 4 ∧ 0 ≤ lz_pb (lzma_options c) ≤ 4) ∧
  (is_lzma2 (ao_codec options) = true →
    ∃ prop, lzma2_property_byte c = Ok prop ∧ 0 ≤ prop < 40 ∧ dict ≤ prop_dict prop ∧
      (∀ q, 0 ≤ q < prop → prop_dict q < dict) ∧
      dict ≤ l2_chunk_size (lzma2_options c) ≤ MAX_LZMA2_CHUNK_SIZE ∧
      lzma2_dict_size (Some [prop]) =
        if decide (prop_dict prop ≤ MAX_LZMA_DICTIONARY_BYTES) then Ok (prop_dict prop)
        else Err (resource_limit "LZMA dictionary" MAX_LZMA_DICTIONARY_BYTES)) ∧
  (ao_codec options = CodecPpmd →
    ∃ ppmd, pr_codec settings = PreparedPpmd ppmd ∧
      PPMD7_MIN_ORDER ≤ ps_order ppmd ≤ PPMD7_MAX_ORDER ∧
      PPMD7_MIN_MEM_SIZE ≤ ps_memory_size ppmd ≤ PPMD7_MAX_MEM_SIZE).
Proof.
  intros Hok (codec & threads & aes & [_ Hd Hbits Hchunk _ Hset] & _ & _ & ->)%validate_archive_options_ok.
  cbn zeta. assert (ao_codec options ≠ CodecPpmd →
    4096 ≤ lz_dict_size (lzma_options (ao_compression options)) ≤ u32_max) as Hdict.
  { intros Hc. by apply options_dict, Hd. }
  split_and!; [done|by apply property_bits_ok..| |].
  - intros Hl. destruct (validate_lzma2_chunk_size_ok _ Hchunk) as [Hmax Hsize]. specialize (Hmax Hl).
    destruct (Hdict ltac:(by destruct (ao_codec options))) as [Hmin _].
    destruct (encode_lzma2_dict_size_spec (lz_dict_size (lzma_options (ao_compression options))))
      as (prop & Hp & Hr & ? & ?); [unfold MAX_LZMA2_CHUNK_SIZE in Hmax; lia|].
    exists prop. split_and!; try done; try lia; try apply (Hsize Hmax). by apply prop_read_back.
  - intros Hc. rewrite Hc in Hset. destruct Hset as (order & ppmd & -> & Ho & Hp). exists ppmd.
    split; [done|]. by eapply ppmd_settings_ok.
Qed.

(** C24. Options that pass validation can be encoded. Every LZMA dictionary is at least
    4 KiB and fits its field; the literal and position bits fit the properties byte. For
    LZMA2 the dictionary has a property byte, the least one whose size covers it, the
    chunks are at least as large as the dictionary, and the reader takes that byte for the
    size it stands for up to its own limit of 256 MiB. PPMd settings are in the range of
    the encoder. *)
Theorem validated_options_encodable `{EncoderLimits} options settings :
  options_ok (ao_compression options) → validate_archive_options options = Ok settings →
  let c := ao_compression options in
  let dict := lz_dict_size (lzma_options c) in
  (ao_codec options ≠ CodecPpmd → 4096 ≤ dict ≤ u32_max) ∧
  (0 ≤ lz_lc (lzma_options c) ∧ 0 ≤ lz_lp (lzma_options c) ∧
   lz_lc (lzma_options c) + lz_lp (lzma_options c) ≤ 4 ∧ 0 ≤ lz_pb (lzma_options c) ≤ 4) ∧
  (is_lzma2 (ao_codec options) = true →
    ∃ prop, lzma2_property_byte c = Ok prop ∧ 0 ≤ prop < 40 ∧ dict ≤ prop_dict prop ∧
      (∀ q, 0 ≤ q < prop → prop_dict q < dict) ∧
      dict ≤ l2_chunk_size (lzma2_options c) ≤ MAX_LZMA2_CHUNK_SIZE ∧
      lzma2_dict_size (Some [prop]) =
        if decide (prop_dict prop ≤ MAX_LZMA_DICTIONARY_BYTES) then Ok (prop_dict prop)
        else Err (resource_limit "LZMA dictionary" MAX_LZMA_DICTIONARY_BYTES)) ∧
  (ao_codec options = CodecPpmd →
    ∃ ppmd, pr_codec settings = PreparedPpmd ppmd ∧
      PPMD7_MIN_ORDER ≤ ps_order ppmd ≤ PPMD7_MAX_ORDER ∧
      PPMD7_MIN_MEM_SIZE ≤ ps_memory_size ppmd ≤ PPMD7_MAX_MEM_SIZE).
Proof. apply options_encodable. Qed.

(** Options the writer accepts for an archive its own reader refuses: a dictionary of
    512 MiB. *)
Definition large_dictionary : ArchiveOptions :=
  {| ao_codec := CodecLzma2; ao_header_mode := P7zipDefault; ao_encryption := None;
     ao_compression :=
       {| co_level := Normal; co_dictionary_size := Some (2 ^ 29); co_fast_bytes := None;
          co_literal_context_bits := None; co_literal_position_bits := None; co_position_bits := None;
          co_match_finder := None; co_lzma_algorithm := None; co_match_cycles := None;
          co_solid := Solid; co_lzma2_chunk_size := None; co_threads := ThreadsAuto;
          co_encoder_memory_limit := None |};
     ao_streaming := StreamingOptions_default |}.

Lemma large_dictionary_unreadable `{EncoderLimits} :
  is_ok (validate_archive_options large_dictionary) = true ∧
  lzma2_property_byte (ao_compression large_dictionary) = Ok 34 ∧
  lzma2_dict_size (Some [34]) = Err (resource_limit "LZMA dictionary" MAX_LZMA_DICTIONARY_BYTES).
Proof. by split_and!; vm_compute. Qed.

(** ** Witnesses *)

(** Preset values of the encoder crates' documentation. *)
Definition sample_encoder_options : LzmaOptions :=
  {| lz_dict_size := 8 * 1024 * 1024; lz_lc := 3; lz_lp := 0; lz_pb := 2; lz_mode := ModeNormal;
     lz_nice_len := 64; lz_mf := Bt4; lz_depth_limit := 0 |}.

Definition sample_encoder_limits : EncoderLimits.
Proof.
  refine (Build_EncoderLimits (λ _, sample_encoder_options) (λ _, 100000) 2 64 2048 4294967259 _ _ _ _ _).
  - done.
  - done.
  - done.
  - lia.
  - lia.
Defined.

Lemma validated_options_encodable_witness :
  ∃ prop, @lzma2_property_byte sample_encoder_limits (ao_compression large_dictionary) = Ok prop ∧ 0 ≤ prop < 40 ∧
    2 ^ 29 ≤ prop_dict prop.
Proof.
  destruct (validated_options_encodable (H := sample_encoder_limits) large_dictionary
    {| pr_aes := {| as_cycles_power := 0; as_salt_len := 0; as_iv_len := 0 |};
       pr_codec := PreparedLzma2 RequestAuto |}) as (_ & _ & Hl & _).
  - by split.
  - vm_compute. reflexivity.
  - destruct (Hl eq_refl) as (prop & ? & ? & Hd & _). exists prop. done.
Defined.
