(* ===== verification/Writers.v ===== *)
(** * Writers and what they receive

    [std::io::Write] with the loops of the standard library the program drives it with,
    and the abstract specification of a writer: a relation [got] between a writer and the
    bytes it has received is [tracked] when every write that succeeds adds what it took.
    The writers of the program are proved to be tracked in terms of the writer below, so
    stacks of them compose. *)

From stdpp Require Import base numbers list option strings.
From Stdlib Require Import ZArith Lia.
From S2P Require Import Prelude Error Operation Readers.

(** ** Writers *)

(** A write says how many bytes of the buffer it took. *)
Class Write (W : Type) := {
  w_write : W → bytes → result Z IoError * W;
  w_flush : W → result unit IoError * W
}.

Inductive SeekFrom := SeekStart (n : Z) | SeekEnd (n : Z).
Class Seek (W : Type) := w_seek : W → SeekFrom → result Z IoError * W.

(** [Write::write_all]. *)
Fixpoint io_write_all {W} `{Write W} (fuel : nat) (w : W) (b : bytes) : result unit IoError * W :=
  match fuel with
  | O => (Err io_out_of_fuel, w)
  | S fuel =>
      match b with
      | [] => (Ok tt, w)
      | _ =>
          match w_write w b with
          | (Ok n, w) =>
              if decide (n = 0) then (Err (IoKind OtherKind "failed to write whole buffer"), w)
              else io_write_all fuel w (drop (Z.to_nat n) b)
          | (Err e, w) => if interrupted e then io_write_all fuel w b else (Err e, w)
          end
      end
  end.

(** [BufWriter]: [bw_buffer] is written before anything else. *)
Record BufWriter (W : Type) := { bw_inner : W; bw_capacity : Z; bw_buffer : bytes }.
Arguments bw_inner {W}. Arguments bw_capacity {W}. Arguments bw_buffer {W}.

Section buf_writer.
  Context (io_fuel : nat) {W : Type} `{Write W}.

Definition BufWriter_with_capacity (capacity : Z) (inner : W) : BufWriter W :=
  {| bw_inner := inner; bw_capacity := capacity; bw_buffer := [] |}.

Definition set_buffer (self : BufWriter W) (inner : W) (buffer : bytes) : BufWriter W :=
  {| bw_inner := inner; bw_capacity := bw_capacity self; bw_buffer := buffer |}.

(** What was written leaves the buffer, also when the flush fails. *)
Fixpoint BufWriter_flush_buf (fuel : nat) (self : BufWriter W) : result unit IoError * BufWriter W :=
  match fuel with
  | O => (Err io_out_of_fuel, self)
  | S fuel =>
      match bw_buffer self with
      | [] => (Ok tt, self)
      | _ =>
          match w_write (bw_inner self) (bw_buffer self) with
          | (Ok n, inner) =>
              if decide (n = 0)
              then (Err (IoKind OtherKind "failed to write the buffered data"), set_buffer self inner (bw_buffer self))
              else BufWriter_flush_buf fuel (set_buffer self inner (drop (Z.to_nat n) (bw_buffer self)))
          | (Err e, inner) =>
              let self := set_buffer self inner (bw_buffer self) in
              if interrupted e then BufWriter_flush_buf fuel self else (Err e, self)
          end
      end
  end.

Definition BufWriter_write (self : BufWriter W) (b : bytes) : result Z IoError * BufWriter W :=
  let spare := bw_capacity self - zlen (bw_buffer self) in
  if decide (zlen b < spare) then (Ok (zlen b), set_buffer self (bw_inner self) (bw_buffer self ++ b)) else
  let '(flushed, self) :=
    if decide (spare < zlen b) then BufWriter_flush_buf io_fuel self else (Ok tt, self) in
  match flushed with
  | Err e => (Err e, self)
  | Ok _ =>
      if decide (bw_capacity self ≤ zlen b)
      then let '(res, inner) := w_write (bw_inner self) b in (res, set_buffer self inner (bw_buffer self))
      else (Ok (zlen b), set_buffer self (bw_inner self) (bw_buffer self ++ b))
  end.

#[global] Instance BufWriter_Write : Write (BufWriter W) := {|
  w_write := BufWriter_write;
  w_flush self :=
    match BufWriter_flush_buf io_fuel self with
    | (Ok _, self) => let '(res, inner) := w_flush (bw_inner self) in (res, set_buffer self inner (bw_buffer self))
    | (Err e, self) => (Err e, self)
    end
|}.

Definition BufWriter_into_inner (self : BufWriter W) : result W IoError :=
  match BufWriter_flush_buf io_fuel self with
  | (Ok _, self) => Ok (bw_inner self)
  | (Err e, _) => Err e
  end.

End buf_writer.

(** ** The specification *)

(** A write takes a part of its buffer; an interrupted one takes nothing. *)
Record tracked {W} `{Write W} (got : W → bytes → Prop) : Prop := {
  tr_write : ∀ w d b n w', got w d → w_write w b = (Ok n, w') →
    0 ≤ n ≤ zlen b ∧ got w' (d ++ take (Z.to_nat n) b);
  tr_interrupted : ∀ w d b e w', got w d → w_write w b = (Err e, w') → interrupted e = true → got w' d;
  tr_flush : ∀ w d w', got w d → w_flush w = (Ok tt, w') → got w' d
}.

Lemma take_drop_zlen (n : Z) (d b : bytes) :
  (d ++ take (Z.to_nat n) b) ++ drop (Z.to_nat n) b = d ++ b.
Proof. by rewrite <- app_assoc, take_drop. Qed.

Section tracked.
  Context {W : Type} `{Write W} (got : W → bytes → Prop) (Hgot : tracked got).

Lemma write_all_tracked fuel w d b w' :
  got w d → io_write_all fuel w b = (Ok tt, w') → got w' (d ++ b).
Proof.
  revert w d b. induction fuel as [|fuel IH]; intros w d b Hw; cbn [io_write_all]; [done|].
  destruct b as [|x b]; [intros [= <-]; by rewrite app_nil_r|].
  destruct (w_write w (x :: b)) as [[n|e] w1] eqn:Ew.
  - destruct (tr_write _ Hgot _ _ _ _ _ Hw Ew) as [Hn Hw1]. case_decide; [done|].
    intros Hr%(IH _ _ _ Hw1). by rewrite take_drop_zlen in Hr.
  - destruct (interrupted e) eqn:Ei; [|done]. apply IH. by eapply tr_interrupted.
Qed.

(** The bytes of a buffered writer: those its inner writer received, then its buffer. *)
Definition buffered_got (w : BufWriter W) (d : bytes) : Prop :=
  ∃ d1, got (bw_inner w) d1 ∧ d = d1 ++ bw_buffer w.

Lemma flush_buf_tracked fuel w d w' :
  buffered_got w d → BufWriter_flush_buf fuel w = (Ok tt, w') →
  got (bw_inner w') d ∧ bw_buffer w' = [].
Proof.
  revert w d. induction fuel as [|fuel IH]; intros w d (d1 & Hw & ->); cbn [BufWriter_flush_buf]; [done|].
  destruct (bw_buffer w) as [|x b] eqn:Eb; [intros [= <-]; by rewrite Eb, app_nil_r|].
  destruct (w_write (bw_inner w) (x :: b)) as [[n|e] w1] eqn:Ew.
  - destruct (tr_write _ Hgot _ _ _ _ _ Hw Ew) as [Hn Hw1]. case_decide; [done|].
    apply IH. exists (d1 ++ take (Z.to_nat n) (x :: b)). split; [done|]. by rewrite take_drop_zlen.
  - destruct (interrupted e) eqn:Ei; [|done]. apply IH. exists d1. split; [by eapply tr_interrupted|done].
Qed.

(** A flush that fails has not been interrupted: those are retried. *)
Lemma flush_buf_not_interrupted fuel w e w' :
  BufWriter_flush_buf fuel w = (Err e, w') → interrupted e = false.
Proof.
  revert w. induction fuel as [|fuel IH]; intros w; cbn [BufWriter_flush_buf]; [by intros [= <- <-]|].
  destruct (bw_buffer w) as [|x b]; [done|]. destruct (w_write (bw_inner w) (x :: b)) as [[n|e1] w1].
  - case_decide; [by intros [= <- <-]|]. apply IH.
  - destruct (interrupted e1) eqn:Ei; [apply IH|]. by intros [= <- <-].
Qed.

Lemma flush_buf_capacity fuel w r w' :
  BufWriter_flush_buf fuel w = (r, w') → bw_capacity w' = bw_capacity w.
Proof.
  revert w. induction fuel as [|fuel IH]; intros w; cbn [BufWriter_flush_buf]; [by intros [= <- <-]|].
  destruct (bw_buffer w) as [|x b]; [by intros [= <- <-]|].
  destruct (w_write (bw_inner w) (x :: b)) as [[n|e] w1].
  - case_decide; [by intros [= <- <-]|]. by intros ->%IH.
  - destruct (interrupted e); [|by intros [= <- <-]]. by intros ->%IH.
Qed.

(** Before a write that goes past the buffer, the buffer is empty. *)
Lemma make_room_tracked io_fuel (b : bytes) w d v :
  let spare := bw_capacity w - zlen (bw_buffer w) in
  buffered_got w d →
  (if decide (spare < zlen b) then BufWriter_flush_buf io_fuel w else (Ok tt, w)) = (Ok tt, v) →
  buffered_got v d ∧ bw_capacity v = bw_capacity w ∧ (bw_capacity v ≤ zlen b → bw_buffer v = []).
Proof.
  intros spare Hw. case_decide as Hs.
  - intros Hf. destruct (flush_buf_tracked _ _ _ _ Hw Hf) as [Hg Hb]. split_and!; [|by eapply flush_buf_capacity|done].
    exists d. by rewrite Hb, app_nil_r.
  - intros [= <-]. split_and!; [done|done|]. intros Hc. apply nil_length_inv.
    pose proof (zlen_nonneg (bw_buffer w)). unfold spare, zlen in *. lia.
Qed.

Lemma buffered_push w d b :
  buffered_got w d → buffered_got (set_buffer w (bw_inner w) (bw_buffer w ++ b)) (d ++ take (Z.to_nat (zlen b)) b).
Proof.
  intros (d1 & Hw & ->). exists d1. split; [done|]. cbn. unfold zlen. by rewrite Nat2Z.id, firstn_all, app_assoc.
Qed.

Lemma buffered_tracked io_fuel : tracked (H := BufWriter_Write io_fuel) buffered_got.
Proof.
  split.
  - intros w d b n w' Hw. cbn [w_write BufWriter_Write]. unfold BufWriter_write. pose proof (zlen_nonneg b).
    case_decide; [intros [= <- <-]; split; [lia|by apply buffered_push]|].
    destruct (if decide (_ < _) then _ else _) as [[[]|e] v] eqn:Ef; [|done].
    destruct (make_room_tracked _ _ _ _ _ Hw Ef) as (Hv & Hcap & Hb).
    destruct (decide (bw_capacity v ≤ zlen b)) as [Hc|Hc]; [|intros [= <- <-]; split; [lia|by apply buffered_push]].
    destruct (w_write (bw_inner v) b) as [[k|e] inner] eqn:Ew; [|done]. intros [= <- <-].
    destruct Hv as (d1 & Hv & ->). destruct (tr_write _ Hgot _ _ _ _ _ Hv Ew) as [Hk Hi]. split; [done|].
    rewrite (Hb Hc), app_nil_r. eexists. split; [exact Hi|]. cbn. by rewrite app_nil_r.
  - intros w d b e w' Hw. cbn [w_write BufWriter_Write]. unfold BufWriter_write. case_decide; [done|].
    destruct (if decide (_ < _) then _ else _) as [[[]|e1] v] eqn:Ef.
    + destruct (make_room_tracked _ _ _ _ _ Hw Ef) as (Hv & Hcap & Hb). destruct (decide (bw_capacity v ≤ zlen b)) as [Hc|Hc]; [|done].
      destruct (w_write (bw_inner v) b) as [[k|e1] inner] eqn:Ew; [done|]. intros [= <- <-] Hi.
      destruct Hv as (d1 & Hv & ->). exists d1. split; [by eapply tr_interrupted|done].
    + intros [= <- <-] Hi. case_decide; [|done]. by rewrite (flush_buf_not_interrupted _ _ _ _ Ef) in Hi.
  - intros w d w' Hw. cbn [w_flush BufWriter_Write].
    destruct (BufWriter_flush_buf io_fuel w) as [[[]|e] v] eqn:Ef; [|done].
    destruct (flush_buf_tracked _ _ _ _ Hw Ef) as [Hg Hb].
    destruct (w_flush (bw_inner v)) as [res inner] eqn:Efl. intros [= -> <-].
    exists d. split; [by eapply tr_flush|]. cbn. by rewrite Hb, app_nil_r.
Qed.

Lemma into_inner_tracked io_fuel w d inner :
  buffered_got w d → BufWriter_into_inner io_fuel w = Ok inner → got inner d.
Proof.
  unfold BufWriter_into_inner. intros Hw. destruct (BufWriter_flush_buf io_fuel w) as [[[]|e] v] eqn:Ef; [|done].
  intros [= <-]. by eapply flush_buf_tracked.
Qed.

End tracked.

Lemma write_all_not_interrupted {W} `{Write W} fuel (w : W) b e w' :
  io_write_all fuel w b = (Err e, w') → interrupted e = false.
Proof.
  revert w b. induction fuel as [|fuel IH]; intros w b; cbn [io_write_all]; [by intros [= <- <-]|].
  destruct b as [|x b]; [done|]. destruct (w_write w (x :: b)) as [[n|e1] w1].
  - case_decide; [by intros [= <- <-]|]. apply IH.
  - destruct (interrupted e1) eqn:Ei; [apply IH|]. by intros [= <- <-].
Qed.

(** ** Files *)

(** What a write of [b] at [pos] leaves of [data]: zeros fill a gap before it. *)
Definition overwrite (pos : Z) (b data : bytes) : bytes :=
  let n := Z.to_nat pos in
  take n data ++ replicate (n - length data) 0 ++ b ++ drop (n + length b) data.

(** A file, or a [Cursor<Vec<u8>>]: its contents, its position, and what happens to each
    write in turn. Without a script, a write takes its whole buffer. *)
Inductive WriteEvent := WriteInterrupt | WriteAtMost (k : nat) | WriteFails (e : IoError).
Record FileOutput := { fo_data : bytes; fo_pos : Z; fo_script : list WriteEvent }.

Definition new_output : FileOutput := {| fo_data := []; fo_pos := 0; fo_script := [] |}.

Definition FileOutput_take (self : FileOutput) (b : bytes) (script : list WriteEvent) :
    result Z IoError * FileOutput :=
  (Ok (zlen b), {| fo_data := overwrite (fo_pos self) b (fo_data self); fo_pos := fo_pos self + zlen b;
                   fo_script := script |}).

#[global] Instance FileOutput_Write : Write FileOutput := {|
  w_write self b :=
    match fo_script self with
    | [] => FileOutput_take self b []
    | WriteInterrupt :: script =>
        (Err (IoKind Interrupted ""), {| fo_data := fo_data self; fo_pos := fo_pos self; fo_script := script |})
    | WriteAtMost k :: script => FileOutput_take self (take (S k) b) script
    | WriteFails e :: script =>
        (Err e, {| fo_data := fo_data self; fo_pos := fo_pos self; fo_script := script |})
    end;
  w_flush self := (Ok tt, self)
|}.

#[global] Instance FileOutput_Seek : Seek FileOutput := λ self p,
  let pos := match p with SeekStart n => n | SeekEnd n => zlen (fo_data self) + n end in
  if decide (pos < 0) then (Err (IoKind OtherKind "invalid seek to a negative position"), self)
  else (Ok pos, {| fo_data := fo_data self; fo_pos := pos; fo_script := fo_script self |}).

(** Any output with contents and a position that behaves as a file does. *)
Record file_laws {W} `{Write W} `{Seek W} (contents : W → bytes) (position : W → Z) : Prop := {
  fl_write : ∀ w b n w', w_write w b = (Ok n, w') →
    0 ≤ n ≤ zlen b ∧ contents w' = overwrite (position w) (take (Z.to_nat n) b) (contents w) ∧
    position w' = position w + n;
  fl_interrupted : ∀ w b e w', w_write w b = (Err e, w') → interrupted e = true →
    contents w' = contents w ∧ position w' = position w;
  fl_flush : ∀ w w', w_flush w = (Ok tt, w') → contents w' = contents w ∧ position w' = position w;
  fl_seek : ∀ w n p w', w_seek w (SeekStart n) = (Ok p, w') → contents w' = contents w ∧ position w' = n
}.

(** What no operation on an output breaks, successful or not. *)
Record preserved {W} `{Write W} `{Seek W} (inv : W → Prop) : Prop := {
  pr_write : ∀ w b r w', inv w → w_write w b = (r, w') → inv w';
  pr_flush : ∀ w r w', inv w → w_flush w = (r, w') → inv w';
  pr_seek : ∀ w p r w', inv w → w_seek w p = (r, w') → inv w'
}.

Lemma preserved_true {W} `{Write W} `{Seek W} : preserved (λ _ : W, True).
Proof. by split. Qed.

Lemma write_all_preserved {W} `{Write W} `{Seek W} inv fuel (w : W) b r w' :
  preserved inv → inv w → io_write_all fuel w b = (r, w') → inv w'.
Proof.
  intros Hp. revert w b. induction fuel as [|fuel IH]; intros w b Hw; cbn [io_write_all]; [by intros [= _ <-]|].
  destruct b as [|x b]; [by intros [= _ <-]|]. destruct (w_write w (x :: b)) as [[n|e] w1] eqn:Ew.
  - pose proof (pr_write _ Hp _ _ _ _ Hw Ew) as Hw1. case_decide; [by intros [= _ <-]|]. by apply IH.
  - pose proof (pr_write _ Hp _ _ _ _ Hw Ew) as Hw1. destruct (interrupted e); [by apply IH|by intros [= _ <-]].
Qed.

Lemma tracked_preserved {W} `{Write W} `{Seek W} (got : W → bytes → Prop) inv :
  tracked got → preserved inv → tracked (λ w d, got w d ∧ inv w).
Proof.
  intros Hg Hp. split.
  - intros w d b n w' [Hw Hi] Ew. destruct (tr_write _ Hg _ _ _ _ _ Hw Ew). split_and!; try done; try lia. by eapply pr_write.
  - intros w d b e w' [Hw Hi] Ew He. split; [by eapply tr_interrupted|by eapply pr_write].
  - intros w d w' [Hw Hi] Ew. split; [by eapply tr_flush|by eapply pr_flush].
Qed.

(** The file holds [base], then what it received since, and is positioned after it. *)
Definition file_got {W} (contents : W → bytes) (position : W → Z) (base : bytes) (w : W) (d : bytes) : Prop :=
  take (length (base ++ d)) (contents w) = base ++ d ∧ position w = zlen (base ++ d).

Lemma overwrite_end pos b data p :
  take (length p) data = p → pos = zlen p → take (length (p ++ b)) (overwrite pos b data) = p ++ b.
Proof.
  intros Ht ->. unfold overwrite, zlen. rewrite Nat2Z.id.
  assert (length p ≤ length data)%nat as Hl by (rewrite <- Ht, length_take; lia).
  replace (length p - length data)%nat with 0%nat by lia. cbn [replicate app]. rewrite Ht.
  rewrite app_assoc. by rewrite take_app_length.
Qed.

Lemma file_tracked {W} `{Write W} `{Seek W} (contents : W → bytes) (position : W → Z) base :
  file_laws contents position → tracked (file_got contents position base).
Proof.
  intros Hl. split.
  - intros w d b n w' [Ht Hp] Hw. destruct (fl_write _ _ Hl _ _ _ _ Hw) as (Hn & Hc & Hp'). split; [done|].
    split.
    + rewrite Hc, app_assoc. by apply overwrite_end.
    + rewrite Hp', Hp, app_assoc, (zlen_app (base ++ d)). unfold zlen in *. rewrite length_take. lia.
  - intros w d b e w' [Ht Hp] Hw Hi. destruct (fl_interrupted _ _ Hl _ _ _ _ Hw Hi) as [Hc Hp'].
    split; [by rewrite Hc|by rewrite Hp'].
  - intros w d w' [Ht Hp] Hw. destruct (fl_flush _ _ Hl _ _ Hw) as [Hc Hp'].
    split; [by rewrite Hc|by rewrite Hp'].
Qed.

Lemma take_take_zlen k (b : bytes) : take (Z.to_nat (zlen (take k b))) b = take k b.
Proof. unfold zlen. rewrite Nat2Z.id, length_take. destruct (decide (k ≤ length b)%nat).
  - by rewrite Nat.min_l by lia.
  - rewrite Nat.min_r, !take_ge by lia. done.
Qed.

Lemma zlen_take_le k (b : bytes) : 0 ≤ zlen (take k b) ≤ zlen b.
Proof. unfold zlen. rewrite length_take. lia. Qed.

Lemma FileOutput_laws : file_laws fo_data fo_pos.
Proof.
  split.
  - intros w b n w'. cbn [w_write FileOutput_Write]. pose proof (zlen_nonneg b).
    destruct (fo_script w) as [|[|k|e] script]; try done; intros [= <- <-].
    + split_and!; [lia|lia| |done]. cbn. unfold zlen. by rewrite Nat2Z.id, firstn_all.
    + pose proof (zlen_take_le (S k) b). split_and!; [lia|lia| |done]. by rewrite take_take_zlen.
  - intros w b e w'. cbn [w_write FileOutput_Write]. by destruct (fo_script w) as [|[|k|e1] script]; intros [= <- <-].
  - by intros w w' [= <-].
  - intros w n p w'. unfold w_seek, FileOutput_Seek. case_decide; [done|]. by intros [= <- <-].
Qed.

(** ** Writing at a position *)

(** The bytes [b] are found at [pos]. *)
Definition holds_at (pos : Z) (b data : bytes) : Prop := take (length b) (drop (Z.to_nat pos) data) = b.

Lemma holds_at_nil pos data : holds_at pos [] data.
Proof. done. Qed.

Lemma holds_at_app pos a b data :
  0 ≤ pos → holds_at pos a data → holds_at (pos + zlen a) b data → holds_at pos (a ++ b) data.
Proof.
  unfold holds_at. intros Hp Ha Hb. rewrite length_app.
  replace (Z.to_nat (pos + zlen a)) with (Z.to_nat pos + length a)%nat in Hb by (unfold zlen; lia).
  rewrite <- drop_drop in Hb. by rewrite <- take_take_drop, Ha, Hb.
Qed.

Lemma holds_at_prefix b data : holds_at 0 b data ↔ take (length b) data = b.
Proof. done. Qed.

(** The part before the written bytes, of length [pos]. *)
Definition before (pos : Z) (data : bytes) : bytes :=
  take (Z.to_nat pos) data ++ replicate (Z.to_nat pos - length data) 0.

Lemma before_length pos data : length (before pos data) = Z.to_nat pos.
Proof. unfold before. rewrite length_app, length_take, length_replicate. lia. Qed.

Lemma overwrite_before pos b data :
  overwrite pos b data = before pos data ++ b ++ drop (Z.to_nat pos + length b) data.
Proof. unfold overwrite, before. by rewrite <- app_assoc. Qed.

Lemma overwrite_overwrite pos d b data :
  0 ≤ pos → overwrite (pos + zlen d) b (overwrite pos d data) = overwrite pos (d ++ b) data.
Proof.
  intros Hp. set (n := Z.to_nat pos). set (rest := drop (n + length d) data).
  assert (overwrite pos d data = (before pos data ++ d) ++ rest) as Hx by by rewrite overwrite_before, app_assoc.
  assert (length (before pos data ++ d) = n + length d)%nat as Hl by by rewrite length_app, before_length.
  assert (Z.to_nat (pos + zlen d) = n + length d)%nat as Hn by (unfold zlen, n; lia).
  assert (before (pos + zlen d) (overwrite pos d data) = before pos data ++ d) as Hb.
  { unfold before at 1. rewrite Hx, Hn, <- Hl, take_app_length.
    set (p := before pos data ++ d). replace (length p - length (p ++ rest))%nat with 0%nat by (rewrite length_app; lia).
    cbn. by rewrite app_nil_r. }
  assert (drop (n + length d + length b) (overwrite pos d data) = drop (length b) rest) as Hd.
  { by rewrite Hx, <- Hl, drop_app_add. }
  rewrite (overwrite_before (pos + zlen d)), Hb, Hn, Hd, (overwrite_before pos (d ++ b)), <- !app_assoc.
  do 3 f_equal. unfold rest. rewrite drop_drop, length_app. f_equal. unfold n. lia.
Qed.

Lemma overwrite_nil pos b data : overwrite pos b (overwrite pos [] data) = overwrite pos b data.
Proof.
  destruct (decide (0 ≤ pos)).
  - pose proof (overwrite_overwrite pos [] b data ltac:(lia)) as H. change (zlen (@nil Z)) with 0 in H.
    by rewrite Z.add_0_r in H.
  - unfold overwrite. replace (Z.to_nat pos) with 0%nat by lia. cbn. by rewrite !drop_0.
Qed.

Lemma holds_at_overwrite pos b data : holds_at pos b (overwrite pos b data).
Proof.
  unfold holds_at. rewrite overwrite_before, <- (before_length pos data), drop_app_length. apply take_app_length.
Qed.

Lemma holds_at_earlier pos d q b data :
  0 ≤ q → q + zlen b ≤ pos → holds_at q b data → holds_at q b (overwrite pos d data).
Proof.
  unfold holds_at. intros Hq Hle Hb. destruct (decide (b = [])) as [->|Hne]; [done|].
  assert (Z.to_nat q + length b ≤ length data)%nat as Hlen.
  { apply (f_equal length) in Hb. rewrite length_take, length_drop in Hb.
    assert (length b ≠ 0)%nat by (by destruct b). lia. }
  rewrite <- Hb at 2. rewrite !take_drop_commute. f_equal. rewrite overwrite_before. unfold before.
  rewrite <- app_assoc, take_app_le by (rewrite length_take; unfold zlen in *; lia).
  rewrite take_take, Nat.min_l; [done|unfold zlen in *; lia].
Qed.

Lemma holds_at_later pos d q b data :
  0 ≤ pos → pos + zlen d ≤ q → holds_at q b data → holds_at q b (overwrite pos d data).
Proof.
  unfold holds_at. intros Hp Hle Hb. rewrite overwrite_before, app_assoc.
  replace (Z.to_nat q) with (length (before pos data ++ d) + (Z.to_nat q - (Z.to_nat pos + length d)))%nat
    by (rewrite length_app, before_length; unfold zlen in *; lia).
  rewrite drop_app_add, drop_drop. rewrite <- Hb at 2. do 2 f_equal. unfold zlen in *. lia.
Qed.

(** What a file received since it was positioned at [pos] over [data]. *)
Definition at_got {W} (contents : W → bytes) (position : W → Z) (pos : Z) (data : bytes) (w : W) (d : bytes) : Prop :=
  (contents w = overwrite pos d data ∨ d = [] ∧ contents w = data) ∧ position w = pos + zlen d.

Lemma at_tracked {W} `{Write W} `{Seek W} (contents : W → bytes) (position : W → Z) pos data :
  file_laws contents position → 0 ≤ pos → tracked (at_got contents position pos data).
Proof.
  intros Hl Hpos. split.
  - intros w d b n w' [Hc Hp] Hw. destruct (fl_write _ _ Hl _ _ _ _ Hw) as (Hn & Hc' & Hp'). split; [done|].
    assert (zlen (take (Z.to_nat n) b) = n) as Hz by (unfold zlen in *; rewrite length_take; lia).
    split; [|rewrite Hp', Hp, zlen_app; lia]. left. rewrite Hc', Hp. destruct Hc as [-> | [-> ->]].
    + by rewrite overwrite_overwrite.
    + change (zlen (@nil Z)) with 0. by rewrite Z.add_0_r.
  - intros w d b e w' [Hc Hp] Hw Hi. destruct (fl_interrupted _ _ Hl _ _ _ _ Hw Hi) as [Hc' Hp'].
    by split; [rewrite Hc'|rewrite Hp'].
  - intros w d w' [Hc Hp] Hw. destruct (fl_flush _ _ Hl _ _ Hw) as [Hc' Hp']. by split; [rewrite Hc'|rewrite Hp'].
Qed.

Lemma at_got_holds {W} (contents : W → bytes) (position : W → Z) pos data w b :
  at_got contents position pos data w b → holds_at pos b (contents w).
Proof. intros [[->|[-> _]] _]; [apply holds_at_overwrite|done]. Qed.

Lemma at_got_earlier {W} (contents : W → bytes) (position : W → Z) pos data w b q x :
  at_got contents position pos data w b → 0 ≤ q → q + zlen x ≤ pos → holds_at q x data → holds_at q x (contents w).
Proof. intros [[->|[_ ->]] _] ? ? ?; [by apply holds_at_earlier|done]. Qed.

Lemma at_got_later {W} (contents : W → bytes) (position : W → Z) pos data w b q x :
  at_got contents position pos data w b → 0 ≤ pos → pos + zlen b ≤ q → holds_at q x data → holds_at q x (contents w).
Proof. intros [[->|[_ ->]] _] ? ? ?; [by apply holds_at_later|done]. Qed.
