(* ===== verification/Lzma2Encoder.v ===== *)
(** * The LZMA2 encoder (src/src/write/lzma2.rs)

    How many workers compress an LZMA2 stream, from the memory the host has, and the
    encoder that starts alone and goes parallel when there is more than one chunk. The
    encoders themselves belong to the [lzma-rust2] and [ppmd-rust] crates. *)

From stdpp Require Import base numbers list option strings.
From Stdlib Require Import ZArith Lia Ascii String.
From S2P Require Import Prelude Folder Error Operation Readers Resources Aes DecoderPlan WriteOptions Writers.

(** ** The encoders of other crates *)

(** Those made without a check and those that check their options. *)
Inductive PlainEncoder := EncodeLzma2 (options : Lzma2Options) | EncodeBcjX86 (start_pos : Z).
Inductive CheckedEncoder := EncodeLzma (options : LzmaOptions)
| EncodeLzma2Mt (options : Lzma2Options) (workers : Z) | EncodePpmd (order memory_size : Z).
Inductive EncoderKind := PlainKind (e : PlainEncoder) | CheckedKind (e : CheckedEncoder).

(** An encoder owns the writer it encodes to; [encoder_props] is the properties byte of
    an LZMA encoder. *)
Class Encoders := {
  encoder : Type → Type;
  #[global] encoder_Write {W} `{Write W} :: Write (encoder W);
  encoder_new {W} `{Write W} : PlainEncoder → W → encoder W;
  encoder_try_new {W} `{Write W} : CheckedEncoder → W → result (encoder W) IoError;
  encoder_props {W} `{Write W} : encoder W → Z;
  encoder_set_cancellation {W} `{Write W} : OperationControl → encoder W → result unit IoError * encoder W;
  encoder_finish {W} `{Write W} : encoder W → result W IoError
}.

(** The properties byte of the LZMA format. *)
Definition lzma_props_byte (o : LzmaOptions) : Z := (lz_pb o * 5 + lz_lp o) * 9 + lz_lc o.

(** What they promise, whatever they write to: once finished, the writer below has
    received an encoding of all the bytes the encoder took; and an LZMA encoder gives the
    properties byte of its options. [J k e base data] is an encoder
    of kind [k] that took [data] and whose writer had received [base]. *)
Record encoding_by `{Encoders} (encodes : EncoderKind → bytes → bytes → Prop) {W} `{Write W}
    (got : W → bytes → Prop) (J : EncoderKind → encoder W → bytes → bytes → Prop) : Prop := {
  eb_new : ∀ k w d, got w d → J (PlainKind k) (encoder_new k w) d [];
  eb_try_new : ∀ k w d e, got w d → encoder_try_new k w = Ok e → J (CheckedKind k) e d [];
  eb_tracked : ∀ k base, tracked (λ e d, J k e base d);
  eb_cancellation : ∀ k e base d c e', J k e base d →
    encoder_set_cancellation c e = (Ok tt, e') → J k e' base d;
  eb_finish : ∀ k e base d w, J k e base d → encoder_finish e = Ok w →
    ∃ stream, encodes k d stream ∧ got w (base ++ stream);
  eb_props : ∀ o e base d, J (CheckedKind (EncodeLzma o)) e base d → encoder_props e = lzma_props_byte o
}.

Definition encoders_spec `{Encoders} (encodes : EncoderKind → bytes → bytes → Prop) : Prop :=
  ∀ W (write : Write W) (got : W → bytes → Prop), tracked got → ∃ J, encoding_by encodes got J.

(** ** The memory of the host *)

(** The text of a file, by the components of its path, and the number of processors. *)
Class Host := {
  host_file : list (list Z) → option (list Z);
  host_parallelism : option Z
}.

Definition text (s : string) : list Z := map (λ a, Z.of_N (N_of_ascii a)) (list_ascii_of_string s).

(** [char::is_whitespace]. *)
Definition is_whitespace (c : Z) : bool :=
  bool_decide (9 ≤ c ≤ 13) || bool_decide (8192 ≤ c ≤ 8202) ||
  bool_decide (c ∈ [32; 133; 160; 5760; 8232; 8233; 8239; 8287; 12288]).

(** The pieces between the characters of which [p] holds. *)
Fixpoint split_on (p : Z → bool) (s : list Z) : list (list Z) :=
  match s with
  | [] => [[]]
  | c :: s =>
      if p c then [] :: split_on p s else
      match split_on p s with
      | w :: ws => (c :: w) :: ws
      | [] => [[c]]
      end
  end.

Definition strip_cr (line : list Z) : list Z :=
  match reverse line with 13 :: l => reverse l | _ => line end.

(** [str::lines]: no line after the last line feed. *)
Definition lines (s : list Z) : list (list Z) :=
  let pieces := split_on (λ c, c =? 10) s in
  map strip_cr (match reverse pieces with [] :: ps => reverse ps | _ => pieces end).

Fixpoint strip_prefix (p s : list Z) : option (list Z) :=
  match p, s with
  | [], _ => Some s
  | a :: p, b :: s => if decide (a = b) then strip_prefix p s else None
  | _, [] => None
  end.

Fixpoint find_map {A B} (f : A → option B) (l : list A) : option B :=
  match l with [] => None | x :: l => match f x with Some y => Some y | None => find_map f l end end.

Definition split_whitespace (s : list Z) : list (list Z) :=
  filter (λ w, w ≠ []) (split_on is_whitespace s).

Fixpoint drop_while (p : Z → bool) (s : list Z) : list Z :=
  match s with c :: s' => if p c then drop_while p s' else s | [] => [] end.
Definition trim (s : list Z) : list Z :=
  reverse (drop_while is_whitespace (reverse (drop_while is_whitespace s))).

Definition digit (c : Z) : option Z := if decide (48 ≤ c ≤ 57) then Some (c - 48) else None.
Fixpoint parse_digits (acc : Z) (s : list Z) : option Z :=
  match s with
  | [] => Some acc
  | c :: s =>
      match digit c with
      | Some d =>
          match checked_mul acc 10 with
          | Some acc => match checked_add acc d with Some acc => parse_digits acc s | None => None end
          | None => None
          end
      | None => None
      end
  end.
(** [str::parse::<u64>]. *)
Definition parse_u64 (s : list Z) : option Z :=
  let s := match s with 43 :: s => s | s => s end in
  match s with [] => None | _ => parse_digits 0 s end.

Section memory.
  Context `{Host}.

Definition host_memory : option Z :=
  match host_file [text "proc"; text "meminfo"] with
  | None => None
  | Some s =>
      match find_map (strip_prefix (text "MemAvailable:")) (lines s) with
      | None => None
      | Some value =>
          match split_whitespace value with
          | w :: _ => match parse_u64 w with Some kib => checked_mul kib 1024 | None => None end
          | [] => None
          end
      end
  end.

Definition cgroup_root : list (list Z) := [text "sys"; text "fs"; text "cgroup"].

Definition host_number (path : list (list Z)) : option Z :=
  match host_file path with Some s => parse_u64 (trim s) | None => None end.

(** From a directory up to the root of the hierarchy; its components are in reverse. *)
Fixpoint cgroup_available (dir : list (list Z)) (available : option Z) : option Z :=
  let file name := cgroup_root ++ reverse dir ++ [text name] in
  let remaining :=
    match host_number (file "memory.max"%string), host_number (file "memory.current"%string) with
    | Some limit, Some current => Some (saturating_sub limit current)
    | _, _ => None
    end in
  let available :=
    match remaining with
    | Some remaining => Some (match available with Some prior => Z.min prior remaining | None => remaining end)
    | None => available
    end in
  match dir with [] => available | _ :: dir => cgroup_available dir available end.

(** A path below the root: leading slashes are dropped, empty and [.] components have
    no effect. *)
Definition cgroup_memory : option Z :=
  match host_file [text "proc"; text "self"; text "cgroup"] with
  | None => None
  | Some s =>
      match find_map (strip_prefix (text "0::")) (lines s) with
      | None => None
      | Some path =>
          let components := filter (λ c, c ≠ [] ∧ c ≠ [46]) (split_on (λ c, c =? 47) path) in
          cgroup_available (reverse components) None
      end
  end.

Definition available_memory : option Z :=
  match host_memory, cgroup_memory with
  | Some host, Some cgroup => Some (Z.min host cgroup)
  | Some value, None | None, Some value => Some value
  | None, None => None
  end.

Definition MIB : Z := 1024 * 1024.
Definition DEFAULT_UNKNOWN_BUDGET : Z := 512 * MIB.
Definition MAX_AUTO_BUDGET : Z := 8 * 1024 * MIB.
Definition WORKER_OVERHEAD : Z := 8 * MIB.

Definition default_budget : Z :=
  match available_memory with
  | None => DEFAULT_UNKNOWN_BUDGET
  | Some available => Z.min (available / 2) MAX_AUTO_BUDGET
  end.

Definition set_memory_limit (c : CompressionOptions) (limit : option Z) : CompressionOptions :=
  {| co_level := co_level c; co_dictionary_size := co_dictionary_size c; co_fast_bytes := co_fast_bytes c;
     co_literal_context_bits := co_literal_context_bits c;
     co_literal_position_bits := co_literal_position_bits c; co_position_bits := co_position_bits c;
     co_match_finder := co_match_finder c; co_lzma_algorithm := co_lzma_algorithm c;
     co_match_cycles := co_match_cycles c; co_solid := co_solid c;
     co_lzma2_chunk_size := co_lzma2_chunk_size c; co_threads := co_threads c;
     co_encoder_memory_limit := limit |}.
Definition set_compression (o : ArchiveOptions) (c : CompressionOptions) : ArchiveOptions :=
  {| ao_codec := ao_codec o; ao_header_mode := ao_header_mode o; ao_encryption := ao_encryption o;
     ao_compression := c; ao_streaming := ao_streaming o |}.

Definition set_default_budget (options : ArchiveOptions) : ArchiveOptions :=
  let compression_limit := default default_budget (co_encoder_memory_limit (ao_compression options)) in
  let limit :=
    match max_encoder_working_set_bytes (st_resource_limits (ao_streaming options)) with
    | None => compression_limit
    | Some limit => Z.min compression_limit limit
    end in
  set_compression options (set_memory_limit (ao_compression options) (Some limit)).

(** ** The number of workers *)

Context `{EncoderLimits}.

Definition chunk_bytes (options : Lzma2Options) : Z :=
  Z.max (l2_chunk_size options) (lz_dict_size (l2_lzma_options options)).

Definition required_bytes (options : Lzma2Options) (workers : Z) : option Z :=
  let chunk := chunk_bytes options in
  m ← checked_mul (lzma_encoder_memory_usage (l2_lzma_options options)) 1024;
  encoder ← checked_add m WORKER_OVERHEAD;
  if decide (workers = 1) then Some encoder else
  pending ← checked_add workers 1;
  slots ← checked_add pending 2;
  input ← checked_mul slots chunk;
  twice ← checked_mul chunk 2;
  output ← checked_mul pending twice;
  encoders ← checked_mul workers encoder;
  total ← checked_add encoders input;
  checked_add total output.

Definition fits (options : Lzma2Options) (budget workers : Z) : bool :=
  match required_bytes options workers with Some b => bool_decide (b ≤ budget) | None => false end.

(** [u32::try_from] of the host's parallelism fails above the range. *)
Definition requested_workers (thread_request : ThreadRequest) : Z :=
  match thread_request with
  | RequestSingle => 1
  | RequestFixed count => count
  | RequestAuto =>
      Z.min (default MAX_WORKERS (n ← host_parallelism; u32_try_from n)) MAX_WORKERS
  end.

Definition known_blocks (options : Lzma2Options) (known_size : option Z) : Z :=
  let blocks := match known_size with
                | None => MAX_WORKERS
                | Some size => Z.max (div_ceil size (chunk_bytes options)) 1
                end in
  Z.min blocks MAX_WORKERS.

Definition select_workers (compression : CompressionOptions) (options : Lzma2Options)
    (known_size : option Z) (thread_request : ThreadRequest) : result Z R7zError :=
  let requested := Z.min (requested_workers thread_request) (known_blocks options known_size) in
  let budget := default default_budget (co_encoder_memory_limit compression) in
  if negb (fits options budget 1) then Err (LimitExceeded "encoder memory") else
  match thread_request with
  | RequestAuto =>
      Ok (default 1 (List.find (fits options budget) (reverse (seqZ 2 (requested - 1)))))
  | _ => if fits options budget requested then Ok requested else Err (LimitExceeded "encoder memory")
  end.

End memory.

(** ** The encoder *)

Section encoder.
  Context `{Host} `{EncoderLimits} `{Encoders} (io_fuel : nat) {W : Type} `{Write W}.

Inductive EncoderState :=
| EncoderBuffered (out : W) (options : Lzma2Options) (workers : Z) (data : bytes)
| EncoderSingle (writer : encoder W)
| EncoderParallel (writer : encoder W).

(** No state is left once starting the encoder has failed. *)
Record Lzma2Encoder := { le_state : option EncoderState; le_control : option OperationControl }.

Definition encoder_io_error (error : IoError) : IoError :=
  match error with IoEncoderCancelled => read_io_error Cancelled | error => error end.

Definition Lzma2Encoder_new (out : W) (compression : CompressionOptions) (known_size : option Z)
    (thread_request : ThreadRequest) : result Lzma2Encoder R7zError :=
  let options := lzma2_options compression in
  let? workers := select_workers compression options known_size thread_request in
  let? state :=
    if decide (workers = 1) then Ok (EncoderSingle (encoder_new (EncodeLzma2 options) out))
    else match known_size with
         | Some _ =>
             result_map EncoderParallel (map_err R7zError_from (encoder_try_new (EncodeLzma2Mt options workers) out))
         | None => Ok (EncoderBuffered out options workers [])
         end in
  Ok {| le_state := Some state; le_control := None |}.

(** An encoder that runs in parallel is told how it is cancelled. *)
Definition Lzma2Encoder_with_control (self : Lzma2Encoder) (control : option OperationControl) :
    result Lzma2Encoder IoError :=
  match le_state self, control with
  | Some (EncoderParallel writer), Some c =>
      let '(set, writer) := encoder_set_cancellation c writer in
      let? _ := set in Ok {| le_state := Some (EncoderParallel writer); le_control := control |}
  | _, _ => Ok {| le_state := le_state self; le_control := control |}
  end.

Definition Lzma2Encoder_start (state : EncoderState) (parallel : bool) (control : option OperationControl) :
    result EncoderState IoError :=
  match state with
  | EncoderBuffered out options workers data =>
      if parallel then
        let? writer := encoder_try_new (EncodeLzma2Mt options workers) out in
        let? writer := match control with
                       | Some c => let '(set, writer) := encoder_set_cancellation c writer in
                                   let? _ := set in Ok writer
                       | None => Ok writer
                       end in
        let '(written, writer) := io_write_all io_fuel writer data in
        let? _ := map_err encoder_io_error written in
        Ok (EncoderParallel writer)
      else
        let '(written, writer) := io_write_all io_fuel (encoder_new (EncodeLzma2 options) out) data in
        let? _ := written in
        Ok (EncoderSingle writer)
  | state => Ok state
  end.

Definition encoder_unavailable : IoError := IoKind OtherKind "encoder is unavailable after an error".

Definition Lzma2Encoder_finish (self : Lzma2Encoder) : result W IoError :=
  let? state := ok_or (le_state self) encoder_unavailable in
  let? state := Lzma2Encoder_start state false (le_control self) in
  match state with
  | EncoderSingle writer => encoder_finish writer
  | EncoderParallel writer => map_err encoder_io_error (encoder_finish writer)
  | EncoderBuffered _ _ _ _ => Err (IoOther R7zPanic)
  end.

Definition set_state (self : Lzma2Encoder) (state : option EncoderState) : Lzma2Encoder :=
  {| le_state := state; le_control := le_control self |}.

(** The write, and the flush, of an encoder that has started. *)
Definition started_write (self : Lzma2Encoder) (state : EncoderState) (b : bytes) :
    result Z IoError * Lzma2Encoder :=
  match state with
  | EncoderSingle writer =>
      let '(res, writer) := w_write writer b in (res, set_state self (Some (EncoderSingle writer)))
  | EncoderParallel writer =>
      let '(res, writer) := w_write writer b in
      (map_err encoder_io_error res, set_state self (Some (EncoderParallel writer)))
  | EncoderBuffered _ _ _ _ => (Err (IoOther R7zPanic), self)
  end.
Definition started_flush (self : Lzma2Encoder) (state : EncoderState) : result unit IoError * Lzma2Encoder :=
  match state with
  | EncoderSingle writer =>
      let '(res, writer) := w_flush writer in (res, set_state self (Some (EncoderSingle writer)))
  | EncoderParallel writer =>
      let '(res, writer) := w_flush writer in
      (map_err encoder_io_error res, set_state self (Some (EncoderParallel writer)))
  | EncoderBuffered _ _ _ _ => (Err (IoOther R7zPanic), self)
  end.

(** A chunk fits [usize]: it is at most 1 GiB. *)
Definition Lzma2Encoder_write (self : Lzma2Encoder) (b : bytes) : result Z IoError * Lzma2Encoder :=
  match le_state self with
  | None => (Err encoder_unavailable, self)
  | Some (EncoderBuffered out options workers data) =>
      let threshold := l2_chunk_size options in
      if decide (saturating_add (zlen data) (zlen b) ≤ threshold)
      then (Ok (zlen b), set_state self (Some (EncoderBuffered out options workers (data ++ b))))
      else match Lzma2Encoder_start (EncoderBuffered out options workers data) true (le_control self) with
           | Err e => (Err e, set_state self None)
           | Ok state => started_write self state b
           end
  | Some state => started_write self state b
  end.

Definition Lzma2Encoder_flush (self : Lzma2Encoder) : result unit IoError * Lzma2Encoder :=
  match le_state self with
  | None => (Err encoder_unavailable, self)
  | Some (EncoderBuffered out options workers data) =>
      match Lzma2Encoder_start (EncoderBuffered out options workers data) false (le_control self) with
      | Err e => (Err e, set_state self None)
      | Ok state => started_flush self state
      end
  | Some state => started_flush self state
  end.

#[global] Instance Lzma2Encoder_Write : Write Lzma2Encoder :=
  {| w_write := Lzma2Encoder_write; w_flush := Lzma2Encoder_flush |}.

End encoder.
Arguments Lzma2Encoder {_} W. Arguments EncoderState {_} W.

(** ** The number of workers is admitted *)

Lemma find_reverse_max (f : Z → bool) k n m :
  List.find f (reverse (seqZ k n)) = Some m →
  k ≤ m < k + n ∧ f m = true ∧ ∀ j, m < j < k + n → f j = false.
Proof.
  destruct (decide (n ≤ 0)) as [Hn|Hn]; [by rewrite seqZ_nil by lia|].
  replace n with (Z.of_nat (Z.to_nat n)) by lia. induction (Z.to_nat n) as [|i IH]; [done|].
  rewrite seqZ_S, reverse_app. cbn [reverse rev_append app List.find].
  destruct (f (k + Z.of_nat i)) eqn:Ef.
  - intros [= <-]. split_and!; [lia|lia|done|]. intros j ?. lia.
  - intros (Hm & Hf & Hj)%IH. split_and!; [lia|lia|done|]. intros j ?.
    destruct (decide (j = k + Z.of_nat i)) as [->|]; [done|]. apply Hj. lia.
Qed.

Lemma find_reverse_none (f : Z → bool) k n :
  List.find f (reverse (seqZ k n)) = None → ∀ j, k ≤ j < k + n → f j = false.
Proof.
  intros Hf j Hj. apply (List.find_none f _ Hf j). apply list_elem_of_In, elem_of_reverse, elem_of_seqZ. lia.
Qed.

Lemma requested_workers_range `{Host} req :
  (∀ n, host_parallelism = Some n → 1 ≤ n) → (∀ n, req = RequestFixed n → 1 ≤ n) → 1 ≤ requested_workers req.
Proof.
  intros Hp Hf. destruct req as [| |n]; cbn; [|done|by apply Hf].
  destruct host_parallelism as [n|]; cbn; [|unfold MAX_WORKERS; lia]. specialize (Hp n eq_refl).
  unfold u32_try_from. case_decide; cbn; unfold MAX_WORKERS; lia.
Qed.

(** No more blocks than it takes to hold the data. *)
Lemma known_blocks_spec options size :
  0 < chunk_bytes options → 0 ≤ size →
  1 ≤ known_blocks options (Some size) ≤ MAX_WORKERS ∧
  (1 < known_blocks options (Some size) → (known_blocks options (Some size) - 1) * chunk_bytes options < size).
Proof.
  intros Hc Hs. unfold known_blocks, div_ceil, MAX_WORKERS. set (c := chunk_bytes options) in *.
  pose proof (Z.div_mod (size + c - 1) c ltac:(lia)). pose proof (Z.mod_pos_bound (size + c - 1) c ltac:(lia)).
  split; [lia|]. intros Hn. nia.
Qed.


(** ** What the encoder emits *)

Section emits.
  Context `{Host} `{EncoderLimits} `{Encoders} (io_fuel : nat) {W : Type} `{Write W}.
  Context (encodes : EncoderKind → bytes → bytes → Prop) (got : W → bytes → Prop) (Hgot : tracked got).
  Context (J : EncoderKind → encoder W → bytes → bytes → Prop) (HJ : encoding_by encodes got J).
  Context (options : Lzma2Options).

(** Either of the encoders of LZMA2. *)
Definition lzma2_encodes (data stream : bytes) : Prop :=
  encodes (PlainKind (EncodeLzma2 options)) data stream ∨
  ∃ workers, encodes (CheckedKind (EncodeLzma2Mt options workers)) data stream.

Definition state_got (state : EncoderState W) (base data : bytes) : Prop :=
  match state with
  | EncoderBuffered out o workers b => o = options ∧ got out base ∧ b = data
  | EncoderSingle writer => J (PlainKind (EncodeLzma2 options)) writer base data
  | EncoderParallel writer => ∃ workers, J (CheckedKind (EncodeLzma2Mt options workers)) writer base data
  end.

Definition lzma2_got (base : bytes) (e : Lzma2Encoder W) (data : bytes) : Prop :=
  match le_state e with None => True | Some state => state_got state base data end.

Lemma start_got state parallel control base data state' :
  state_got state base data → Lzma2Encoder_start io_fuel state parallel control = Ok state' →
  state_got state' base data.
Proof.
  destruct state as [out o workers b|w|w]; cbn [state_got Lzma2Encoder_start]; [|by intros ? [= <-]..].
  intros (-> & Hg & ->). destruct parallel.
  - destruct (encoder_try_new _ out) as [w|] eqn:En; [|done].
    pose proof (eb_try_new _ _ _ HJ _ _ _ _ Hg En) as Hw.
    destruct (match control with Some c => _ | None => _ end) as [w1|] eqn:Ec; [|done].
    assert (J (CheckedKind (EncodeLzma2Mt options workers)) w1 base []) as Hw1.
    { destruct control as [c|]; [|by injection Ec as <-].
      destruct (encoder_set_cancellation c w) as [[[]|] w2] eqn:Es; [|done]. injection Ec as <-.
      by eapply (eb_cancellation _ _ _ HJ). }
    destruct (io_write_all io_fuel w1 data) as [[[]|] w2] eqn:Ew; [|done]. intros [= <-]. exists workers.
    by apply (write_all_tracked _ (eb_tracked _ _ _ HJ _ base) _ _ [] _ _ Hw1 Ew).
  - pose proof (eb_new _ _ _ HJ (EncodeLzma2 options) _ _ Hg) as Hw.
    destruct (io_write_all io_fuel _ data) as [[[]|] w2] eqn:Ew; [|done]. intros [= <-].
    by apply (write_all_tracked _ (eb_tracked _ _ _ HJ _ base) _ _ [] _ _ Hw Ew).
Qed.

Lemma encoder_io_error_interrupted e : interrupted (encoder_io_error e) = interrupted e.
Proof. by destruct e. Qed.

(** Once started, it writes as the encoder it started. *)
Lemma started_write_got self state base data b r self' :
  state_got state base data → started_write self state b = (r, self') →
  match r with
  | Ok n => 0 ≤ n ≤ zlen b ∧ lzma2_got base self' (data ++ take (Z.to_nat n) b)
  | Err e => interrupted e = true → lzma2_got base self' data
  end.
Proof.
  destruct state as [out o workers d|w|w]; cbn [started_write state_got]; [by intros _ [= <- <-]|..].
  - intros Hw. destruct (w_write w b) as [[n|e] w'] eqn:Ew; intros [= <- <-].
    + by apply (tr_write _ (eb_tracked _ _ _ HJ _ base) _ _ _ _ _ Hw Ew).
    + intros Hi. by apply (tr_interrupted _ (eb_tracked _ _ _ HJ _ base) _ _ _ _ _ Hw Ew).
  - intros [k Hw]. destruct (w_write w b) as [[n|e] w'] eqn:Ew; intros [= <- <-].
    + destruct (tr_write _ (eb_tracked _ _ _ HJ _ base) _ _ _ _ _ Hw Ew) as [? ?]. split; [done|]. by exists k.
    + cbn. rewrite encoder_io_error_interrupted. intros Hi. exists k.
      by apply (tr_interrupted _ (eb_tracked _ _ _ HJ _ base) _ _ _ _ _ Hw Ew).
Qed.

Lemma started_flush_got self state base data self' :
  state_got state base data → started_flush self state = (Ok tt, self') → lzma2_got base self' data.
Proof.
  destruct state as [out o workers d|w|w]; cbn [started_flush state_got]; [done|..].
  - intros Hw. destruct (w_flush w) as [res w'] eqn:Ew; intros [= -> <-].
    by apply (tr_flush _ (eb_tracked _ _ _ HJ _ base) _ _ _ Hw Ew).
  - intros [k Hw]. destruct (w_flush w) as [[[]|e] w'] eqn:Ew; [|done]. intros [= <-]. exists k.
    by apply (tr_flush _ (eb_tracked _ _ _ HJ _ base) _ _ _ Hw Ew).
Qed.

Lemma lzma2_write_got base e data b r e' :
  lzma2_got base e data → Lzma2Encoder_write io_fuel e b = (r, e') →
  match r with
  | Ok n => 0 ≤ n ≤ zlen b ∧ lzma2_got base e' (data ++ take (Z.to_nat n) b)
  | Err err => interrupted err = true → lzma2_got base e' data
  end.
Proof.
  unfold lzma2_got at 1, Lzma2Encoder_write. destruct (le_state e) as [state|]; [|by intros _ [= <- <-]].
  intros Hs. destruct state as [out o workers d|w|w]; [|by apply started_write_got..]. case_decide.
  - intros [= <- <-]. pose proof (zlen_nonneg b). split; [lia|]. destruct Hs as (-> & ? & ->).
    unfold lzma2_got. cbn. split_and!; try done. unfold zlen. by rewrite Nat2Z.id, firstn_all.
  - destruct (Lzma2Encoder_start _ _ _ _) as [state|err] eqn:Est; [|by intros [= <- <-]].
    apply started_write_got. by eapply start_got.
Qed.

Lemma lzma2_tracked base : tracked (H := Lzma2Encoder_Write io_fuel) (lzma2_got base).
Proof.
  split.
  - intros e d b n e' He Hw. by apply (lzma2_write_got _ _ _ _ _ _ He Hw).
  - intros e d b err e' He Hw. by apply (lzma2_write_got _ _ _ _ _ _ He Hw).
  - intros e d e'. cbn [w_flush Lzma2Encoder_Write]. unfold lzma2_got at 1, Lzma2Encoder_flush.
    destruct (le_state e) as [state|]; [|done].
    intros Hs. destruct state as [out o workers b|w|w]; [|by apply started_flush_got..].
    destruct (Lzma2Encoder_start _ _ _ _) as [state|err] eqn:Est; [|done].
    apply started_flush_got. by eapply start_got.
Qed.

Lemma lzma2_finish_got base e data w :
  lzma2_got base e data → Lzma2Encoder_finish io_fuel e = Ok w →
  ∃ stream, lzma2_encodes data stream ∧ got w (base ++ stream).
Proof.
  unfold lzma2_got, Lzma2Encoder_finish. destruct (le_state e) as [state|]; [|done]. cbn [ok_or]. intros Hs.
  destruct (Lzma2Encoder_start io_fuel state false (le_control e)) as [state'|] eqn:Est; [|done].
  pose proof (start_got _ _ _ _ _ _ Hs Est) as Hs'. destruct state' as [out o workers b|v|v]; [done|..].
  - intros Hf. destruct (eb_finish _ _ _ HJ _ _ _ _ _ Hs' Hf) as (s & ? & ?). exists s. split; [by left|done].
  - destruct (encoder_finish v) as [w1|] eqn:Hf; [|done]. intros [= <-]. destruct Hs' as [k Hs'].
    destruct (eb_finish _ _ _ HJ _ _ _ _ _ Hs' Hf) as (s & ? & ?). exists s. split; [|done]. right. by exists k.
Qed.

End emits.

Lemma lzma2_new_got `{Host} `{EncoderLimits} `{Encoders} {W} `{Write W} encodes (got : W → bytes → Prop) J
    out base compression known_size request control e e' :
  encoding_by encodes got J → got out base →
  Lzma2Encoder_new out compression known_size request = Ok e → Lzma2Encoder_with_control e control = Ok e' →
  lzma2_got got J (lzma2_options compression) base e' [].
Proof.
  intros HJ Hg. unfold Lzma2Encoder_new. destruct (select_workers _ _ _ _) as [workers|]; [|done].
  set (options := lzma2_options compression).
  destruct (if decide (workers = 1) then _ else _) as [state|] eqn:Es; [|done]. intros [= <-].
  assert (state_got got J options state base []) as Hs.
  { case_decide; [injection Es as <-; by apply (eb_new _ _ _ HJ)|]. destruct known_size.
    - destruct (encoder_try_new _ out) as [w|] eqn:En; [|done]. injection Es as <-. exists workers.
      by apply (eb_try_new _ _ _ HJ _ _ _ _ Hg En).
    - by injection Es as <-. }
  unfold Lzma2Encoder_with_control. cbn [le_state].
  destruct state as [out' o k d|w|w]; [by intros [= <-]..|]. destruct control as [c|]; [|by intros [= <-]].
  destruct (encoder_set_cancellation c w) as [[[]|] w'] eqn:Ec; [|done]. intros [= <-].
  destruct Hs as [k Hs]. exists k. by apply (eb_cancellation _ _ _ HJ _ _ _ _ _ _ Hs Ec).
Qed.

(** ** Witnesses *)

(** A host with eight processors and 2,800,000 KiB available, of which a control group
    two levels down allows as much again. *)
Definition sample_host : Host := {|
  host_file path :=
    if decide (path = [text "proc"; text "meminfo"]) then
      Some (text "MemTotal: 9000000 kB" ++ [10] ++ text "MemAvailable:    2800000 kB" ++ [10])
    else if decide (path = [text "proc"; text "self"; text "cgroup"]) then Some (text "0::/user/app" ++ [10])
    else if decide (path = cgroup_root ++ [text "user"; text "memory.max"]) then Some (text "5734400000" ++ [10])
    else if decide (path = cgroup_root ++ [text "user"; text "memory.current"]) then Some (text "1000" ++ [10])
    else if decide (path = cgroup_root ++ [text "user"; text "app"; text "memory.max"]) then Some (text "max")
    else None;
  host_parallelism := Some 8
|}.

Example sample_memory : @available_memory sample_host = Some 2867200000.
Proof. by vm_compute. Qed.

Example sample_cgroup_memory : @cgroup_memory sample_host = Some 5734399000.
Proof. by vm_compute. Qed.

Definition sample_lzma2 : Lzma2Options := @lzma2_options sample_encoder_limits CompressionOptions_default.

