(* ===== verification/WriteFolders.v ===== *)
(** * Folders of a new archive (src/src/write/mod.rs)

    Which folder the data of each entry goes to: the solid mode of a builder, and an update
    that keeps folders of an existing archive and adds data folders to them. *)

From stdpp Require Import base numbers list option strings gmap sorting.
From Stdlib Require Import ZArith Lia.
From S2P Require Import Prelude PropertyId Parsers Method CoderInfo Folder Error Operation Resources Aes DecoderPlan PackInfo StreamInfo FilesInfo DecoderRun Entries FolderDecode FolderRead Headers ArchiveSource PackedSource EntryReads Archive Sessions Listing WriteHeader WriteOptions.

(** ** Progress within a folder *)

Record FolderProgress := { wp_files : Z; wp_bytes : Z }.
Definition FolderProgress_default : FolderProgress := {| wp_files := 0; wp_bytes := 0 |}.

Definition FolderProgress_record (self : FolderProgress) (size : Z) : result FolderProgress R7zError :=
  let? files := ok_or (checked_add (wp_files self) 1) Parse in
  let? b := ok_or (checked_add (wp_bytes self) size) Parse in
  Ok {| wp_files := files; wp_bytes := b |}.

Definition exceeds (limit : option Z) (n : Z) : bool :=
  match limit with Some limit => bool_decide (limit < n) | None => false end.
Definition reaches (limit : option Z) (n : Z) : bool :=
  match limit with Some limit => bool_decide (limit ≤ n) | None => false end.

Definition FolderProgress_would_exceed (self : FolderProgress) (solid : SolidMode) (size : Z) :
    result bool R7zError :=
  match solid with
  | Solid => Ok false
  | NonSolid => Ok (bool_decide (0 < wp_files self))
  | SolidLimit max_files max_bytes =>
      let? next_files := ok_or (checked_add (wp_files self) 1) Parse in
      let? next_bytes := ok_or (checked_add (wp_bytes self) size) Parse in
      Ok (bool_decide (0 < wp_files self) && (exceeds max_files next_files || exceeds max_bytes next_bytes))
  end.

Definition FolderProgress_reached_limit (self : FolderProgress) (solid : SolidMode) : bool :=
  match solid with
  | Solid => false
  | NonSolid => bool_decide (0 < wp_files self)
  | SolidLimit max_files max_bytes => reaches max_files (wp_files self) || reaches max_bytes (wp_bytes self)
  end.

(** [WriteFolderId::next], of a [usize]. *)
Definition WriteFolderId_next (id : Z) : option Z := checked_add id 1.

(** ** The folders of a builder *)

Definition set_folder_id (e : WriteEntry) (id : Z) : WriteEntry :=
  {| we_name := we_name e; we_raw_name := we_raw_name e; we_kind := we_kind e; we_meta := we_meta e;
     we_stream := we_stream e; we_folder_id := id |}.

Fixpoint assign_solid_folders (solid : SolidMode) (folder_id : Z) (progress : FolderProgress)
    (entries : list WriteEntry) : result (list WriteEntry) R7zError :=
  match entries with
  | [] => Ok []
  | entry :: entries =>
      if negb (has_stream entry) then
        let? (folder_id, progress) :=
          (if bool_decide (solid = NonSolid) && bool_decide (0 < wp_files progress) then
             let? id := ok_or (WriteFolderId_next folder_id) Parse in Ok (id, FolderProgress_default)
           else Ok (folder_id, progress)) in
        let? rest := assign_solid_folders solid folder_id progress entries in
        Ok (set_folder_id entry folder_id :: rest)
      else
        let? data := ok_or (WriteEntryStream_buffered_data (we_stream entry)) Parse in
        let? exceeded := FolderProgress_would_exceed progress solid (zlen data) in
        let? (folder_id, progress) :=
          (if exceeded : bool then
             let? id := ok_or (WriteFolderId_next folder_id) Parse in Ok (id, FolderProgress_default)
           else Ok (folder_id, progress)) in
        let? progress := FolderProgress_record progress (zlen data) in
        let? rest := assign_solid_folders solid folder_id progress entries in
        Ok (set_folder_id entry folder_id :: rest)
  end.

Definition entries_with_solid_folders (entries : list WriteEntry) (solid : SolidMode) :
    result (list WriteEntry) R7zError :=
  assign_solid_folders solid 0 FolderProgress_default entries.

(** ** Preserved entries *)

Inductive PreservedEntryStream :=
| PreservedNone
| PreservedData (data : bytes)
| PreservedPath (path : list Z) (size : Z)
| PreservedRaw (folder : RawFolderHandle) (source_entry : Z) (size : Z) (crc : option Z).

Record PreservedArchiveEntry := {
  pv_name : list Z;
  pv_raw_name : option bytes;
  pv_kind : WriteEntryKind;
  pv_meta : EntryMeta;
  pv_stream : PreservedEntryStream
}.

Inductive StagedFolderData := StagedData (data : bytes) | StagedPath (path : list Z) (size : Z)
| StagedRaw (size : Z) (crc : option Z).
Inductive StagedStream := StagedNone | StagedFolder (id : Z) (data : StagedFolderData).

Record StagedHeaderEntry := {
  sh_name : list Z;
  sh_raw_name : option bytes;
  sh_kind : WriteEntryKind;
  sh_meta : EntryMeta
}.
Record StagedEntry := { sg_header : StagedHeaderEntry; sg_stream : StagedStream }.

Definition StagedEntry_folder_id (self : StagedEntry) : option Z :=
  match sg_stream self with StagedNone => None | StagedFolder id _ => Some id end.

Definition StagedEntry_into_write_entry (self : StagedEntry) : WriteEntry :=
  {| we_name := sh_name (sg_header self); we_raw_name := sh_raw_name (sg_header self);
     we_kind := sh_kind (sg_header self); we_meta := sh_meta (sg_header self);
     we_stream := match sg_stream self with StagedNone => EmptyStream | _ => Streaming end;
     we_folder_id := default 0 (StagedEntry_folder_id self) |}.

Definition staged_stream_size (entry : StagedEntry) : Z :=
  match sg_stream entry with
  | StagedNone => 0
  | StagedFolder _ (StagedData data) => zlen data
  | StagedFolder _ (StagedPath _ size) | StagedFolder _ (StagedRaw size _) => size
  end.

(** The data folder that entries are being added to. *)
Record StagedDataFolder := { sd_id : Z; sd_progress : FolderProgress }.
Record StagedDataFolders := { sf_next : Z; sf_current : option StagedDataFolder }.

Definition StagedDataFolders_new (next : Z) : StagedDataFolders := {| sf_next := next; sf_current := None |}.

Definition StagedDataFolders_assign (self : StagedDataFolders) (solid : SolidMode) (size : Z) :
    result (Z * StagedDataFolders) R7zError :=
  let? needs_new :=
    match sf_current self with
    | Some folder => FolderProgress_would_exceed (sd_progress folder) solid size
    | None => Ok true
    end in
  let? (next, current) :=
    (if needs_new : bool then
       let? next := ok_or (WriteFolderId_next (sf_next self)) Parse in
       Ok (next, Some {| sd_id := sf_next self; sd_progress := FolderProgress_default |})
     else Ok (sf_next self, sf_current self)) in
  let? folder := ok_or current Parse in
  let? progress := FolderProgress_record (sd_progress folder) size in
  Ok (sd_id folder, {| sf_next := next; sf_current := Some {| sd_id := sd_id folder; sd_progress := progress |} |}).

Definition StagedDataFolders_break_folder (self : StagedDataFolders) : StagedDataFolders :=
  {| sf_next := sf_next self; sf_current := None |}.

Definition stage_stream (raw_by_id : gmap Z RawFolderBlock) (solid : SolidMode)
    (data_folders : StagedDataFolders) (stream : PreservedEntryStream) :
    result (StagedStream * StagedDataFolders) R7zError :=
  match stream with
  | PreservedNone => Ok (StagedNone, data_folders)
  | PreservedRaw folder _ size crc =>
      let folder_id := rh_index folder in
      match raw_by_id !! folder_id with
      | Some raw =>
          if RawFolderHandle_eq (rb_handle raw) folder
          then Ok (StagedFolder folder_id (StagedRaw size crc), StagedDataFolders_break_folder data_folders)
          else Err ArchiveMismatch
      | None => Err ArchiveMismatch
      end
  | PreservedData data =>
      let? (folder_id, data_folders) := StagedDataFolders_assign data_folders solid (zlen data) in
      Ok (StagedFolder folder_id (StagedData data), data_folders)
  | PreservedPath path size =>
      let? (folder_id, data_folders) := StagedDataFolders_assign data_folders solid size in
      Ok (StagedFolder folder_id (StagedPath path size), data_folders)
  end.

Fixpoint stage_entries (raw_by_id : gmap Z RawFolderBlock) (solid : SolidMode)
    (data_folders : StagedDataFolders) (entries : list PreservedArchiveEntry) :
    result (list StagedEntry) R7zError :=
  match entries with
  | [] => Ok []
  | entry :: entries =>
      let? (staged, data_folders) := stage_stream raw_by_id solid data_folders (pv_stream entry) in
      let? rest := stage_entries raw_by_id solid data_folders entries in
      Ok ({| sg_header := {| sh_name := pv_name entry; sh_raw_name := pv_raw_name entry;
                             sh_kind := pv_kind entry; sh_meta := pv_meta entry |};
             sg_stream := staged |} :: rest)
  end.

(** Each id where it occurs first. *)
Definition first_occurrences (ids : list Z) : list Z :=
  foldl (λ order id, if decide (id ∈ order) then order else order ++ [id]) [] ids.

(** No folder is resumed once another one has started. *)
Fixpoint folders_contiguous (completed : list Z) (current : option Z) (ids : list Z) : bool :=
  match ids with
  | [] => true
  | id :: ids =>
      if decide (current = Some id) then folders_contiguous completed current ids
      else if decide (id ∈ completed) then false
      else folders_contiguous (id :: completed) (Some id) ids
  end.

Record StagedPreserved := {
  sp_entries : list StagedEntry;
  sp_folder_order : list Z;
  sp_raw_by_id : gmap Z RawFolderBlock
}.

(** The last block given for a folder counts. *)
Definition raw_folders_by_id (raw_folders : list RawFolderBlock) : gmap Z RawFolderBlock :=
  foldl (λ m folder, <[rh_index (rb_handle folder) := folder]> m) ∅ raw_folders.

Definition max_key (m : gmap Z RawFolderBlock) : Z := foldr Z.max 0 (map_to_list m).*1.

Definition stage_preserved_entries (entries : list PreservedArchiveEntry)
    (raw_folders : list RawFolderBlock) (options : ArchiveOptions) : result StagedPreserved R7zError :=
  let raw_by_id := raw_folders_by_id raw_folders in
  let? next_data_folder := ok_or (WriteFolderId_next (max_key raw_by_id)) Parse in
  let? staged_entries := stage_entries raw_by_id (co_solid (ao_compression options))
                           (StagedDataFolders_new next_data_folder) entries in
  let ids := omap StagedEntry_folder_id staged_entries in
  if negb (folders_contiguous [] None ids) then Err InvalidRawFolderLayout else
  Ok {| sp_entries := staged_entries; sp_folder_order := first_occurrences ids; sp_raw_by_id := raw_by_id |}.

(** ** The layout of an update *)

Section update.
  Context `{Nom} `{Crc32} `{LzmaMemory} `{Decoders} `{BlockCipher} `{Sha256}.

(** The source entries of each raw folder, in the order of the new entries. *)
Fixpoint collect_raw_entries (source : Archive) (listing : ArchiveListing) (raw_folders : list RawFolderBlock)
    (raw_entries : gmap Z (list Z)) (entries : list PreservedArchiveEntry) : result (gmap Z (list Z)) R7zError :=
  match entries with
  | [] => Ok raw_entries
  | preserved :: entries =>
      match pv_stream preserved with
      | PreservedRaw folder source_entry size crc =>
          let? source_info :=
            match get source_entry (al_entries listing) with
            | Some info => if decide (le_index info = source_entry) then Ok info else Err InvalidRawFolderLayout
            | None => Err InvalidRawFolderLayout
            end in
          if negb (RawFolderHandle_belongs_to folder source) ||
             negb (existsb (λ raw, RawFolderHandle_eq (rb_handle raw) folder) raw_folders)
          then Err ArchiveMismatch
          else if decide (le_block source_info ≠ Some (rh_index folder) ∨ le_size source_info ≠ Some size ∨
                          le_crc source_info ≠ crc)
          then Err InvalidRawFolderLayout
          else collect_raw_entries source listing raw_folders
                 (<[rh_index folder := default [] (raw_entries !! rh_index folder) ++ [source_entry]]> raw_entries)
                 entries
      | _ => collect_raw_entries source listing raw_folders raw_entries entries
      end
  end.

(** The entries of the source that a folder holds. *)
Definition block_entries (listing : ArchiveListing) (folder_index : Z) : list Z :=
  map le_index (filter (λ info, le_block info = Some folder_index) (al_entries listing)).

Definition validate_raw_folder_update (source : Archive) (entries : list PreservedArchiveEntry)
    (raw_folders : list RawFolderBlock) : result unit R7zError :=
  if existsb (λ folder, negb (RawFolderHandle_belongs_to (rb_handle folder) source)) raw_folders
  then Err ArchiveMismatch else
  let? listing := Archive_listing source None in
  let? raw_entries := collect_raw_entries source listing raw_folders ∅ entries in
  if forallb (λ '(folder_index, found), bool_decide (found = block_entries listing folder_index))
       (map_to_list raw_entries)
  then Ok tt else Err InvalidRawFolderLayout.

End update.

(** ** The folders of a builder respect the solid mode *)

(** The sizes of the files of one folder. *)
Definition total (sizes : list Z) : Z := foldr Z.add 0 sizes.
Definition within_limit (solid : SolidMode) (sizes : list Z) : Prop :=
  match solid with
  | Solid => True
  | NonSolid => zlen sizes ≤ 1
  | SolidLimit max_files max_bytes =>
      zlen sizes ≤ 1 ∨ (exceeds max_files (zlen sizes) = false ∧ exceeds max_bytes (total sizes) = false)
  end.

Definition data_size (e : WriteEntry) : Z := default 0 (zlen <$> WriteEntryStream_buffered_data (we_stream e)).
Definition in_folder (k : Z) (e : WriteEntry) : bool := has_stream e && bool_decide (we_folder_id e = k).
Definition folder_sizes (k : Z) (entries : list WriteEntry) : list Z :=
  map data_size (filter (λ e, in_folder k e = true) entries).

Definition progress_of (sizes : list Z) (p : FolderProgress) : Prop :=
  wp_files p = zlen sizes ∧ wp_bytes p = total sizes.

Lemma total_app l k : total (l ++ k) = total l + total k.
Proof. unfold total. induction l as [|x l IH]; cbn; [done|]. lia. Qed.

Lemma record_progress p sizes size p' :
  progress_of sizes p → FolderProgress_record p size = Ok p' → progress_of (sizes ++ [size]) p'.
Proof.
  intros [Hf Hb]. unfold FolderProgress_record.
  destruct (checked_add (wp_files p) 1) as [f|] eqn:Ef; [|done]. cbn [ok_or].
  destruct (checked_add (wp_bytes p) size) as [b|] eqn:Eb; [|done]. intros [= <-].
  apply checked_add_some in Ef, Eb. unfold progress_of. cbn. rewrite total_app, zlen_app, zlen_cons, zlen_nil.
  cbn. lia.
Qed.

(** A file that is not past the limit can be added; a new folder is only needed for one. *)
Lemma would_exceed_spec p solid sizes size r :
  progress_of sizes p → FolderProgress_would_exceed p solid size = Ok r →
  if r then sizes ≠ [] else within_limit solid (sizes ++ [size]).
Proof.
  intros [Hf Hb] Hw. assert (bool_decide (0 < wp_files p) = true → sizes ≠ []) as Hne.
  { intros H%bool_decide_eq_true ->. rewrite Hf in H. change (zlen (@nil Z)) with 0 in H. lia. }
  assert (bool_decide (0 < wp_files p) = false → zlen (sizes ++ [size]) ≤ 1) as Hle.
  { intros H%bool_decide_eq_false. rewrite Hf in H. rewrite zlen_app, zlen_cons, zlen_nil. lia. }
  destruct solid as [| |f b]; cbn in Hw.
  - by injection Hw as <-.
  - injection Hw as <-. destruct (bool_decide _); [by apply Hne|by apply Hle].
  - destruct (checked_add (wp_files p) 1) as [nf|] eqn:Ef; [|done].
    cbn [ok_or] in Hw. destruct (checked_add (wp_bytes p) size) as [nb|] eqn:Eb; [|done].
    cbn [ok_or] in Hw. injection Hw as <-. apply checked_add_some in Ef, Eb.
    destruct (bool_decide _) eqn:E0; cbn [andb]; [|by left; apply Hle].
    destruct (exceeds f nf) eqn:E1; [by apply Hne|]. destruct (exceeds b nb) eqn:E2; [by apply Hne|]. right.
    rewrite total_app, zlen_app, zlen_cons, zlen_nil. cbn.
    replace (zlen sizes + (1 + 0)) with nf by lia. by replace (total sizes + (size + 0)) with nb by lia.
Qed.

Lemma within_limit_nil solid : within_limit solid [].
Proof. destruct solid; cbn; [done|done|by left]. Qed.
Lemma within_limit_one solid size : within_limit solid [size].
Proof. destruct solid; cbn; [done|done|by left]. Qed.

(** What assigning folders from folder [k] on leaves, when that folder already has files
    of the given sizes. *)
Record assigned (solid : SolidMode) (k : Z) (prior : list Z) (entries out : list WriteEntry) : Prop := {
  as_same : map (λ e, set_folder_id e 0) out = map (λ e, set_folder_id e 0) entries;
  as_from : Forall (λ e, k ≤ we_folder_id e) out;
  as_sorted : StronglySorted Z.le (map we_folder_id out);
  as_limit : ∀ j, k ≤ j → within_limit solid ((if decide (j = k) then prior else []) ++ folder_sizes j out);
  as_used : ∀ j e, k ≤ j → e ∈ out → j < we_folder_id e →
    (if decide (j = k) then prior else []) ++ folder_sizes j out ≠ []
}.

Lemma folder_sizes_later k j out : Forall (λ e, k ≤ we_folder_id e) out → j < k → folder_sizes j out = [].
Proof.
  intros Hf Hj. unfold folder_sizes. induction Hf as [|e out He _ IH]; [done|]. rewrite filter_cons_False; [done|].
  unfold in_folder. rewrite andb_true_iff, bool_decide_eq_true. lia.
Qed.

Lemma folder_sizes_cons j e id out :
  folder_sizes j (set_folder_id e id :: out) =
    (if has_stream e && bool_decide (id = j) then [data_size e] else []) ++ folder_sizes j out.
Proof.
  unfold folder_sizes. rewrite filter_cons. change (in_folder j (set_folder_id e id)) with
    (has_stream e && bool_decide (id = j)). by destruct (has_stream e && bool_decide (id = j)).
Qed.

(** One entry, in the current folder or in the next one. *)
Lemma assigned_step solid k prior k' prior' e entries out :
  let size := if has_stream e then [data_size e] else [] in
  (k' = k ∧ prior' = prior ++ size) ∨ (k' = k + 1 ∧ prior ≠ [] ∧ prior' = size) →
  within_limit solid prior → assigned solid k' prior' entries out →
  assigned solid k prior (e :: entries) (set_folder_id e k' :: out).
Proof.
  intros size Hk Hprior [Hs Hf Hso Hl Hu].
  assert (∀ j, k' ≤ j → (if decide (j = k) then prior else []) ++ folder_sizes j (set_folder_id e k' :: out) =
    (if decide (j = k') then prior' else []) ++ folder_sizes j out) as Hj.
  { intros j Hle. rewrite folder_sizes_cons. fold size. destruct (decide (j = k')) as [->|Hne].
    - rewrite bool_decide_true, andb_true_r by done. fold size. destruct Hk as [[-> ->]|(-> & _ & ->)].
      + rewrite decide_True by done. by rewrite app_assoc.
      + by rewrite decide_False by lia.
    - rewrite bool_decide_false, andb_false_r by done. rewrite decide_False by (destruct Hk as [[-> _]|[-> _]]; lia).
      done. }
  assert (∀ j, k ≤ j < k' → j = k ∧ prior ≠ [] ∧
    (if decide (j = k) then prior else []) ++ folder_sizes j (set_folder_id e k' :: out) = prior) as Hbump.
  { intros j Hle. destruct Hk as [[-> _]|(-> & Hne & _)]; [lia|]. assert (j = k) as -> by lia.
    split_and!; [done|done|]. rewrite decide_True by done. rewrite (folder_sizes_later (k + 1)); [by rewrite app_nil_r| |lia].
    by constructor. }
  split.
  - cbn. by rewrite Hs.
  - constructor; [destruct Hk as [[-> _]|[-> _]]; cbn; lia|]. eapply Forall_impl; [exact Hf|]. intros x.
    destruct Hk as [[-> _]|[-> _]]; lia.
  - cbn. constructor; [done|]. by apply Forall_map.
  - intros j Hle. destruct (decide (k' ≤ j)); [rewrite Hj by done; by apply Hl|].
    destruct (Hbump j ltac:(lia)) as (_ & _ & ->). done.
  - intros j x Hle Hx Hlt. destruct (decide (k' ≤ j)); [|by destruct (Hbump j ltac:(lia)) as (_ & ? & ->)].
    rewrite Hj by done. apply elem_of_cons in Hx as [->|Hx]; [cbn in Hlt; lia|]. by eapply Hu.
Qed.

Lemma assign_solid_folders_spec solid k progress prior entries out :
  progress_of prior progress → within_limit solid prior →
  assign_solid_folders solid k progress entries = Ok out → assigned solid k prior entries out.
Proof.
  revert k progress prior out. induction entries as [|e entries IH]; intros k p prior out Hp Hw; cbn.
  { intros [= <-]. split; cbn; [done|done|apply SSorted_nil| |by intros ? ? _ ?%elem_of_nil].
    intros j _. rewrite app_nil_r. case_decide; [done|apply within_limit_nil]. }
  assert (∀ k' id, ok_or (WriteFolderId_next k) Parse = Ok id → k' = id → k' = k + 1) as Hnext.
  { intros ? id Hn ->. unfold WriteFolderId_next in Hn. destruct (checked_add k 1) eqn:E; [|done].
    injection Hn as <-. by apply checked_add_some. }
  destruct (has_stream e) eqn:Hs; cbn [negb].
  - destruct (WriteEntryStream_buffered_data (we_stream e)) as [data|] eqn:Ed; [|done]. cbn [ok_or].
    assert (data_size e = zlen data) as Hd by (unfold data_size; by rewrite Ed).
    destruct (FolderProgress_would_exceed p solid (zlen data)) as [exceeded|] eqn:Ee; [|done].
    pose proof (would_exceed_spec _ _ _ _ _ Hp Ee) as Hex. destruct exceeded.
    + destruct (ok_or (WriteFolderId_next k) Parse) as [id|] eqn:En; [|done].
      destruct (FolderProgress_record _ _) as [p'|] eqn:Er; [|done].
      destruct (assign_solid_folders solid id p' entries) as [rest|] eqn:Ea; [|done]. intros [= <-].
      apply (assigned_step _ _ _ _ [data_size e]); [|done|].
      * right. rewrite Hs. split_and!; [by eapply Hnext|done|done].
      * eapply IH; [|apply within_limit_one|exact Ea]. rewrite Hd.
        by apply (record_progress FolderProgress_default [] (zlen data)).
    + destruct (FolderProgress_record _ _) as [p'|] eqn:Er; [|done].
      destruct (assign_solid_folders solid k p' entries) as [rest|] eqn:Ea; [|done]. intros [= <-].
      apply (assigned_step _ _ _ _ (prior ++ [data_size e])); [left; by rewrite Hs|done|].
      rewrite Hd. eapply IH; [|done|exact Ea]. by eapply record_progress.
  - destruct (bool_decide (solid = NonSolid) && bool_decide (0 < wp_files p)) eqn:Eb.
    + destruct (ok_or (WriteFolderId_next k) Parse) as [id|] eqn:En; [|done].
      destruct (assign_solid_folders solid id _ entries) as [rest|] eqn:Ea; [|done]. intros [= <-].
      apply andb_true_iff in Eb as [_ Hf]. apply bool_decide_eq_true in Hf.
      apply (assigned_step _ _ _ _ []); [|done|].
      * right. rewrite Hs. split_and!; [by eapply Hnext| |done]. intros ->. destruct Hp as [Hp _].
        change (zlen (@nil Z)) with 0 in Hp. lia.
      * by eapply IH; [|apply within_limit_nil|exact Ea].
    + destruct (assign_solid_folders solid k p entries) as [rest|] eqn:Ea; [|done]. intros [= <-].
      apply (assigned_step _ _ _ _ prior); [left; rewrite Hs; by rewrite app_nil_r|done|]. by eapply IH.
Qed.

(** C22. The folders a builder gives its entries respect the solid mode. The entries keep
    their order and everything but their folder, the folders are used in order, no folder
    is skipped before a later one without holding a file, and each holds what the mode
    allows: one file without solid mode, and with limits no more files and bytes than
    those, unless it is a single file. *)
Theorem solid_folders_within_limits entries solid out :
  entries_with_solid_folders entries solid = Ok out →
  map (λ e, set_folder_id e 0) out = map (λ e, set_folder_id e 0) entries ∧
  StronglySorted Z.le (map we_folder_id out) ∧
  (∀ k, within_limit solid (folder_sizes k out)) ∧
  (∀ k e, 0 ≤ k → e ∈ out → k < we_folder_id e → folder_sizes k out ≠ []).
Proof.
  assert (progress_of [] FolderProgress_default) as Hp by done.
  intros [Hs Hf Hso Hl Hu]%(assign_solid_folders_spec _ _ _ _ _ _ Hp (within_limit_nil solid)).
  assert (∀ j, (if decide (j = 0) then [] else []) ++ folder_sizes j out = folder_sizes j out) as He
    by (intros j; by destruct (decide (j = 0))).
  split_and!; [done|done| |].
  - intros k. destruct (decide (0 ≤ k)); [rewrite <- He; by apply Hl|].
    rewrite (folder_sizes_later 0 k out Hf) by lia. apply within_limit_nil.
  - intros k e Hk Hx Hlt. rewrite <- He. by eapply Hu.
Qed.

(** ** The folders of an update *)

(** Each folder is one run of entries. *)
Definition expand (runs : list (Z * nat)) : list Z := concat (map (λ r, replicate (S r.2) r.1) runs).

Lemma contiguous_runs completed current ids :
  folders_contiguous completed current ids = true →
  ∃ n runs, ids = match current with Some c => replicate n c | None => [] end ++ expand runs ∧
    NoDup runs.*1 ∧ ∀ k, k ∈ runs.*1 → k ∉ completed.
Proof.
  revert completed current. induction ids as [|id ids IH]; intros completed current; cbn.
  { intros _. exists 0%nat, []. split_and!; [by destruct current|constructor|by intros k ?%elem_of_nil]. }
  case_decide as Hc.
  - intros (n & runs & -> & Hd & Hk)%IH. exists (S n), runs. subst current. by split_and!.
  - case_decide as Hm; [done|]. intros (n & runs & -> & Hd & Hk)%IH. exists 0%nat, ((id, n) :: runs).
    split_and!.
    + by destruct current.
    + cbn. constructor; [|done]. intros Hin%Hk. apply Hin, elem_of_cons. by left.
    + cbn. intros k [->|Hin%Hk]%elem_of_cons; [done|]. intros Hx. apply Hin, elem_of_cons. by right.
Qed.

Lemma first_occurrences_known (acc : list Z) k n :
  k ∈ acc → foldl (λ order id, if decide (id ∈ order) then order else order ++ [id]) acc (replicate n k) = acc.
Proof. intros Hk. induction n as [|n IH]; cbn; [done|]. by rewrite decide_True. Qed.

Lemma first_occurrences_expand runs acc :
  NoDup runs.*1 → (∀ k, k ∈ runs.*1 → k ∉ acc) →
  foldl (λ order id, if decide (id ∈ order) then order else order ++ [id]) acc (expand runs) = acc ++ runs.*1.
Proof.
  revert acc. induction runs as [|[k n] runs IH]; intros acc Hd Hk; cbn; [by rewrite app_nil_r|].
  apply NoDup_cons in Hd as [Hn Hd]. rewrite decide_False by (apply Hk, elem_of_cons; by left).
  rewrite foldl_app, first_occurrences_known by (apply elem_of_app; right; by apply list_elem_of_singleton).
  change (concat _) with (expand runs). rewrite IH; [by rewrite <- app_assoc|done|].
  intros j Hj [Ha | ->%list_elem_of_singleton]%elem_of_app; [|done]. apply (Hk j); [|done]. apply elem_of_cons. by right.
Qed.

Lemma raw_folders_by_id_spec raws k raw :
  raw_folders_by_id raws !! k = Some raw → raw ∈ raws ∧ rh_index (rb_handle raw) = k.
Proof.
  unfold raw_folders_by_id. assert (∀ m : gmap Z RawFolderBlock,
    foldl (λ m folder, <[rh_index (rb_handle folder) := folder]> m) m raws !! k = Some raw →
    (raw ∈ raws ∧ rh_index (rb_handle raw) = k) ∨ m !! k = Some raw) as Hg.
  { induction raws as [|r raws IH]; intros m; cbn; [by right|]. intros [[? ?]|Hm]%IH.
    - left. split; [|done]. apply elem_of_cons. by right.
    - apply lookup_insert_Some in Hm as [[<- <-]|[_ ?]]; [|by right]. left. split; [|done]. apply elem_of_cons. by left. }
  by intros [?|?]%Hg.
Qed.

Lemma max_key_spec (m : gmap Z RawFolderBlock) k raw : m !! k = Some raw → k ≤ max_key m.
Proof.
  intros Hm%elem_of_map_to_list. unfold max_key. assert (k ∈ (map_to_list m).*1) as Hk
    by (apply list_elem_of_fmap; by exists (k, raw)).
  induction (map_to_list m).*1 as [|j l IH]; [by apply elem_of_nil in Hk|]. cbn.
  apply elem_of_cons in Hk as [->|Hk]; [lia|]. specialize (IH Hk). lia.
Qed.

Lemma RawFolderHandle_eq_spec a b : RawFolderHandle_eq a b = true → a = b.
Proof.
  unfold RawFolderHandle_eq. rewrite andb_true_iff, !bool_decide_eq_true. destruct a, b. cbn. by intros [-> ->].
Qed.

Definition staged_in (k : Z) (e : StagedEntry) : bool := bool_decide (StagedEntry_folder_id e = Some k).
Definition staged_sizes (k : Z) (entries : list StagedEntry) : list Z :=
  map staged_stream_size (filter (λ e, staged_in k e = true) entries).

(** What an entry is staged as. *)
Definition staged_as (raw_by_id : gmap Z RawFolderBlock) (e : PreservedArchiveEntry) (g : StagedEntry) : Prop :=
  sg_header g = {| sh_name := pv_name e; sh_raw_name := pv_raw_name e; sh_kind := pv_kind e; sh_meta := pv_meta e |} ∧
  match pv_stream e with
  | PreservedNone => sg_stream g = StagedNone
  | PreservedData data => ∃ id, sg_stream g = StagedFolder id (StagedData data) ∧ raw_by_id !! id = None
  | PreservedPath path size => ∃ id, sg_stream g = StagedFolder id (StagedPath path size) ∧ raw_by_id !! id = None
  | PreservedRaw folder _ size crc =>
      sg_stream g = StagedFolder (rh_index folder) (StagedRaw size crc) ∧
      ∃ raw, raw_by_id !! rh_index folder = Some raw ∧ rb_handle raw = folder
  end.

(** The data folders are past every raw folder; the current one holds files of the sizes
    [prior]. *)
Definition data_folders_ok (raw_by_id : gmap Z RawFolderBlock) (df : StagedDataFolders) (prior : list Z) : Prop :=
  max_key raw_by_id < sf_next df ∧
  match sf_current df with
  | Some folder => progress_of prior (sd_progress folder) ∧ max_key raw_by_id < sd_id folder < sf_next df
  | None => prior = []
  end.

Definition current_id (df : StagedDataFolders) : option Z := sd_id <$> sf_current df.

Lemma assign_data_spec raws df prior solid size id df' :
  data_folders_ok raws df prior → StagedDataFolders_assign df solid size = Ok (id, df') →
  current_id df' = Some id ∧ raws !! id = None ∧ max_key raws < id ∧
  ((current_id df = Some id ∧ sf_next df' = sf_next df ∧ data_folders_ok raws df' (prior ++ [size]) ∧
    within_limit solid (prior ++ [size])) ∨
   (id = sf_next df ∧ sf_next df' = sf_next df + 1 ∧ data_folders_ok raws df' [size])).
Proof.
  intros [Hm Hc]. unfold StagedDataFolders_assign.
  assert (∀ k, max_key raws < k → raws !! k = None) as Hnone.
  { intros k Hk. destruct (raws !! k) eqn:E; [|done]. apply max_key_spec in E. lia. }
  assert (∀ next current, ok_or (WriteFolderId_next (sf_next df)) Parse = Ok next →
    Some {| sd_id := sf_next df; sd_progress := FolderProgress_default |} = current →
    (let? folder := ok_or current Parse in
     let? progress := FolderProgress_record (sd_progress folder) size in
     Ok (sd_id folder, {| sf_next := next; sf_current := Some {| sd_id := sd_id folder; sd_progress := progress |} |})) =
      Ok (id, df') →
    current_id df' = Some id ∧ raws !! id = None ∧ max_key raws < id ∧ id = sf_next df ∧ sf_next df' = sf_next df + 1 ∧
    data_folders_ok raws df' [size]) as Hnew.
  { intros next current Hn <-. cbn [ok_or sd_progress sd_id].
    destruct (FolderProgress_record _ size) as [p|] eqn:Er; [|done]. intros [= <- <-].
    unfold WriteFolderId_next in Hn. destruct (checked_add (sf_next df) 1) as [n|] eqn:En; [|done].
    injection Hn as ->. apply checked_add_some in En. split_and!; try done; [by apply Hnone|].
    split; cbn; [lia|]. split; [|lia]. by apply (record_progress FolderProgress_default [] size). }
  destruct (sf_current df) as [folder|] eqn:Ec.
  - destruct Hc as [Hp Hid]. destruct (FolderProgress_would_exceed _ _ _) as [r|] eqn:Ew; [|done].
    pose proof (would_exceed_spec _ _ _ _ _ Hp Ew) as Hw. destruct r.
    + destruct (ok_or (WriteFolderId_next _) _) as [next|] eqn:En; [|done].
      intros (? & ? & ? & ? & ? & ?)%(Hnew _ _ eq_refl eq_refl). split_and!; try done. by right.
    + cbn [ok_or]. destruct (FolderProgress_record _ size) as [p|] eqn:Er; [|done]. intros [= <- <-].
      split_and!; [done|apply Hnone; lia|lia|]. left. unfold current_id. rewrite Ec. split_and!; try done.
      split; cbn; [done|]. split; [|done]. by eapply record_progress.
  - destruct (ok_or (WriteFolderId_next _) _) as [next|] eqn:En; [|done].
    intros (? & ? & ? & ? & ? & ?)%(Hnew _ _ eq_refl eq_refl). split_and!; try done. by right.
Qed.

(** What staging leaves, from a state of the data folders on. *)
Record staged (raws : gmap Z RawFolderBlock) (solid : SolidMode) (df : StagedDataFolders) (prior : list Z)
    (entries : list PreservedArchiveEntry) (out : list StagedEntry) : Prop := {
  sd_as : Forall2 (staged_as raws) entries out;
  sd_limit : ∀ k, raws !! k = None →
    within_limit solid ((if decide (current_id df = Some k) then prior else []) ++ staged_sizes k out);
  sd_fresh : ∀ k, raws !! k = None → k < sf_next df → current_id df ≠ Some k → staged_sizes k out = []
}.

Lemma staged_sizes_cons k g out :
  staged_sizes k (g :: out) = (if staged_in k g then [staged_stream_size g] else []) ++ staged_sizes k out.
Proof. unfold staged_sizes. rewrite filter_cons. by destruct (staged_in k g). Qed.

(** The current folder's id is below the next one. *)
Lemma current_below raws df prior k : data_folders_ok raws df prior → current_id df = Some k → k < sf_next df.
Proof.
  intros [_ Hok] Hc. unfold current_id in Hc. destruct (sf_current df) as [f|]; [|done]. injection Hc as <-. lia.
Qed.

(** An entry with data of its own. *)
Lemma staged_data_step raws solid df prior df' id size e g entries rest :
  data_folders_ok raws df prior → within_limit solid prior →
  StagedDataFolders_assign df solid size = Ok (id, df') → StagedEntry_folder_id g = Some id → staged_stream_size g = size → staged_as raws e g →
  (∀ prior', data_folders_ok raws df' prior' → within_limit solid prior' → staged raws solid df' prior' entries rest) →
  staged raws solid df prior (e :: entries) (g :: rest).
Proof.
  intros Hok Hw Ha Hg Hsize Has Hrest. destruct (assign_data_spec _ _ _ _ _ _ _ Hok Ha) as (Hcur & Hraw & Hmax & Hcases).
  assert (∀ k, staged_sizes k (g :: rest) = (if decide (id = k) then [size] else []) ++ staged_sizes k rest) as Hsz.
  { intros k. rewrite staged_sizes_cons, Hsize. f_equal. unfold staged_in. rewrite Hg.
    destruct (decide (id = k)) as [->|]; [by rewrite bool_decide_true|]. by rewrite bool_decide_false by congruence. }
  destruct Hcases as [(Hc & Hn & Hok' & Hw')|(Hid & Hn & Hok')].
  - destruct (Hrest _ Hok' Hw') as [Ha' Hl Hf]. split; [by constructor| |].
    + intros k Hk. rewrite Hsz, Hc. specialize (Hl k Hk). rewrite Hcur in Hl. destruct (decide (id = k)) as [->|Hne].
      * rewrite !decide_True in * by done. by rewrite app_assoc.
      * rewrite !decide_False in * by congruence. done.
    + intros k Hk Hlt Hne. rewrite Hsz, decide_False by congruence. apply Hf; [done|lia|]. rewrite Hcur. congruence.
  - destruct (Hrest _ Hok' (within_limit_one solid size)) as [Ha' Hl Hf]. split; [by constructor| |].
    + intros k Hk. rewrite Hsz. specialize (Hl k Hk). rewrite Hcur in Hl. destruct (decide (id = k)) as [->|Hne].
      * rewrite (decide_True (P := Some k = Some k)) in Hl by done.
        rewrite (decide_False (P := current_id df = Some k)); [done|]. intros Hc%(current_below _ _ _ _ Hok). lia.
      * rewrite (decide_False (P := Some id = Some k)) in Hl by congruence.
        destruct (decide (current_id df = Some k)) as [Hc|]; [|done]. cbn [app] in *.
        rewrite (Hf k); [by rewrite app_nil_r|done| |rewrite Hcur; congruence].
        apply (current_below _ _ _ _ Hok) in Hc. lia.
    + intros k Hk Hlt Hne. rewrite Hsz, decide_False by lia. apply Hf; [done|lia|]. rewrite Hcur. intros [= ?]. lia.
Qed.

(** An entry kept with its folder ends the current data folder. *)
Lemma staged_raw_step raws solid df prior e g entries rest folder source size crc raw :
  data_folders_ok raws df prior → within_limit solid prior → pv_stream e = PreservedRaw folder source size crc →
  raws !! rh_index folder = Some raw → rb_handle raw = folder → staged_as raws e g →
  StagedEntry_folder_id g = Some (rh_index folder) →
  staged raws solid (StagedDataFolders_break_folder df) [] entries rest →
  staged raws solid df prior (e :: entries) (g :: rest).
Proof.
  intros Hok Hw Hp Hraw Hh Has Hg [Ha Hl Hf].
  assert (∀ k, raws !! k = None → staged_sizes k (g :: rest) = staged_sizes k rest) as Hsz.
  { intros k Hk. rewrite staged_sizes_cons. unfold staged_in. rewrite Hg, bool_decide_false by congruence. done. }
  split.
  - by constructor.
  - intros k Hk. rewrite Hsz by done. specialize (Hl k Hk). cbn in Hl.
    destruct (decide (current_id df = Some k)) as [Hc|]; [|done]. rewrite (Hf k); [by rewrite app_nil_r|done| |done].
    by apply (current_below _ _ _ _ Hok) in Hc.
  - intros k Hk Hlt Hne. rewrite Hsz by done. by apply Hf.
Qed.

Lemma stage_entries_spec raws solid df prior entries out :
  data_folders_ok raws df prior → within_limit solid prior →
  stage_entries raws solid df entries = Ok out → staged raws solid df prior entries out.
Proof.
  revert df prior out. induction entries as [|e entries IH]; intros df prior out Hok Hw; cbn [stage_entries].
  { intros [= <-]. split; [constructor| |done]. intros k _. unfold staged_sizes. cbn. rewrite app_nil_r.
    case_decide; [done|apply within_limit_nil]. }
  destruct (stage_stream raws solid df (pv_stream e)) as [[g df']|] eqn:Es; [|done].
  destruct (stage_entries raws solid df' entries) as [rest|] eqn:Er; [|done]. intros [= <-].
  destruct (pv_stream e) as [|data|path size|folder source size crc] eqn:Ep; cbn [stage_stream] in Es.
  - injection Es as <- <-. destruct (IH df prior rest Hok Hw Er) as [Ha Hl Hf]. split.
    + constructor; [|done]. split; [done|by rewrite Ep].
    + intros k Hk. rewrite staged_sizes_cons. by apply Hl.
    + intros k Hk Hlt Hne. rewrite staged_sizes_cons. by apply Hf.
  - destruct (StagedDataFolders_assign df solid _) as [[id df1]|] eqn:Ea; [|done]. injection Es as <- <-.
    destruct (assign_data_spec _ _ _ _ _ _ _ Hok Ea) as (Hcur & Hraw & _).
    eapply staged_data_step; [done|done|exact Ea|done|done| |]; [|intros; by eapply IH].
    split; [done|]. rewrite Ep. by exists id.
  - destruct (StagedDataFolders_assign df solid _) as [[id df1]|] eqn:Ea; [|done]. injection Es as <- <-.
    destruct (assign_data_spec _ _ _ _ _ _ _ Hok Ea) as (Hcur & Hraw & _).
    eapply staged_data_step; [done|done|exact Ea|done|done| |]; [|intros; by eapply IH].
    split; [done|]. rewrite Ep. by exists id.
  - destruct (raws !! rh_index folder) as [raw|] eqn:Eraw; [|done].
    destruct (RawFolderHandle_eq (rb_handle raw) folder) eqn:Eh; [|done]. injection Es as <- <-.
    apply RawFolderHandle_eq_spec in Eh.
    eapply staged_raw_step; [done|done|exact Ep|exact Eraw|exact Eh| |done|].
    + split; [done|]. rewrite Ep. split; [done|]. by exists raw.
    + eapply IH; [|apply within_limit_nil|exact Er]. split; [apply Hok|done].
Qed.

(** Staging an update keeps every entry with its metadata and gives its stream a
    folder: an entry kept from the source goes to the raw folder its handle names, which
    was supplied; data goes to folders that are none of those, whose files respect the
    solid mode. Each folder is one uninterrupted run of entries, and the folders are
    written in the order in which they first occur. *)
Theorem staged_folders_kept entries raw_folders options st :
  stage_preserved_entries entries raw_folders options = Ok st →
  Forall2 (staged_as (sp_raw_by_id st)) entries (sp_entries st) ∧
  (∀ k raw, sp_raw_by_id st !! k = Some raw → raw ∈ raw_folders ∧ rh_index (rb_handle raw) = k) ∧
  (∀ k, sp_raw_by_id st !! k = None →
    within_limit (co_solid (ao_compression options)) (staged_sizes k (sp_entries st))) ∧
  ∃ runs, omap StagedEntry_folder_id (sp_entries st) = expand runs ∧ NoDup runs.*1 ∧
    sp_folder_order st = runs.*1.
Proof.
  unfold stage_preserved_entries. set (raws := raw_folders_by_id raw_folders).
  destruct (ok_or (WriteFolderId_next (max_key raws)) Parse) as [next|] eqn:En; [|done].
  destruct (stage_entries _ _ _ _) as [out|] eqn:Es; [|done].
  destruct (folders_contiguous [] None (omap StagedEntry_folder_id out)) eqn:Ef; [|done]. intros [= <-]. cbn.
  assert (data_folders_ok raws (StagedDataFolders_new next) []) as Hok.
  { split; [|done]. unfold WriteFolderId_next in En. destruct (checked_add (max_key raws) 1) eqn:E; [|done].
    injection En as <-. apply checked_add_some in E. cbn. lia. }
  destruct (stage_entries_spec _ _ _ _ _ _ Hok (within_limit_nil _) Es) as [Ha Hl _].
  destruct (contiguous_runs _ _ _ Ef) as (_ & runs & Hr & Hd & _). split_and!; [done| | |].
  - intros k raw. apply raw_folders_by_id_spec.
  - intros k Hk. by apply (Hl k).
  - exists runs. split_and!; [done|done|]. rewrite Hr. unfold first_occurrences. cbn [app].
    rewrite first_occurrences_expand; [done|done|]. by intros k _ ?%elem_of_nil.
Qed.

(** ** An update keeps whole folders of its source *)

(** The source entries that are kept from a folder, in the order of the new archive. *)
Definition kept_from (k : Z) (e : PreservedArchiveEntry) : option Z :=
  match pv_stream e with
  | PreservedRaw folder source_entry _ _ => if decide (rh_index folder = k) then Some source_entry else None
  | _ => None
  end.

Section update.
  Context `{Nom} `{Crc32} `{LzmaMemory} `{Decoders} `{BlockCipher} `{Sha256}.

(** A kept entry is the source entry it names, with its size and digest, and its folder was
    supplied. *)
Definition kept_ok (listing : ArchiveListing) (raw_folders : list RawFolderBlock) (e : PreservedArchiveEntry) : Prop :=
  match pv_stream e with
  | PreservedRaw folder source_entry size crc =>
      (∃ info, get source_entry (al_entries listing) = Some info ∧ le_index info = source_entry ∧
        le_block info = Some (rh_index folder) ∧ le_size info = Some size ∧ le_crc info = crc) ∧
      ∃ raw, raw ∈ raw_folders ∧ rb_handle raw = folder
  | _ => True
  end.

Lemma collect_raw_entries_spec source listing raws m entries m' :
  collect_raw_entries source listing raws m entries = Ok m' →
  Forall (kept_ok listing raws) entries ∧
  ∀ k, default [] (m' !! k) = default [] (m !! k) ++ omap (kept_from k) entries.
Proof.
  revert m. induction entries as [|e entries IH]; intros m; cbn [collect_raw_entries].
  { intros [= <-]. split; [constructor|]. intros k. cbn. by rewrite app_nil_r. }
  assert (kept_ok listing raws e → (∀ k, kept_from k e = None) →
    collect_raw_entries source listing raws m entries = Ok m' →
    Forall (kept_ok listing raws) (e :: entries) ∧
    ∀ k, default [] (m' !! k) = default [] (m !! k) ++ omap (kept_from k) (e :: entries)) as Hother.
  { intros He Hk [Hf Hm]%IH. split; [by constructor|]. intros k. cbn. by rewrite Hk. }
  destruct (pv_stream e) as [|data|path size|folder src size crc] eqn:Ep;
    [apply Hother; [by unfold kept_ok; rewrite Ep|intros; unfold kept_from; by rewrite Ep]..|]. clear Hother.
  destruct (get src (al_entries listing)) as [info|] eqn:Eg; [|done]. destruct (decide (le_index info = src)) as [Hi|]; [|done].
  destruct (negb (RawFolderHandle_belongs_to folder source)); [done|]. cbn [orb].
  destruct (existsb _ raws) eqn:Ex; [|done]. cbn [negb]. case_decide as Hd; [done|].
  intros [Hf Hm]%IH. split.
  - constructor; [|done]. unfold kept_ok. rewrite Ep. split.
    + exists info. split_and!; [done|done|apply dec_stable; intros ?; apply Hd; auto..].
    + apply existsb_exists in Ex as (raw & Hin & Hh%RawFolderHandle_eq_spec). exists raw.
      split; [by apply list_elem_of_In|done].
  - intros k. rewrite Hm. cbn. unfold kept_from at 2. rewrite Ep. destruct (decide (rh_index folder = k)) as [->|Hne].
    + rewrite lookup_insert_eq. cbn. by rewrite <- app_assoc.
    + by rewrite lookup_insert_ne.
Qed.

(** An update that is accepted keeps whole folders of its source archive: every folder
    supplied belongs to the source; every kept entry is the source entry it names, in the
    folder it names, with the size and digest of the source's listing; and from each
    folder either nothing is kept or all of its entries are, once each and in their order
    in the source. *)
Theorem update_keeps_whole_folders source entries raw_folders :
  validate_raw_folder_update source entries raw_folders = Ok tt →
  ∃ listing, Archive_listing source None = Ok listing ∧
    (∀ raw, raw ∈ raw_folders → rh_archive_identity (rb_handle raw) = ar_identity source) ∧
    Forall (kept_ok listing raw_folders) entries ∧
    ∀ k, omap (kept_from k) entries = [] ∨ omap (kept_from k) entries = block_entries listing k.
Proof.
  unfold validate_raw_folder_update. destruct (existsb _ raw_folders) eqn:Eb; [done|].
  destruct (Archive_listing source None) as [listing|] eqn:El; [|done].
  destruct (collect_raw_entries _ _ _ _ _) as [m|] eqn:Ec; [|done].
  destruct (forallb _ _) eqn:Ef; [|done]. intros _. exists listing.
  apply collect_raw_entries_spec in Ec as [Hk Hm]. split_and!; [done| |done|].
  - intros raw Hraw%list_elem_of_In. destruct (RawFolderHandle_belongs_to (rb_handle raw) source) eqn:E.
    + unfold RawFolderHandle_belongs_to in E. by apply bool_decide_eq_true in E.
    + assert (existsb (λ folder, negb (RawFolderHandle_belongs_to (rb_handle folder) source)) raw_folders = true)
        as Hx; [|by rewrite Hx in Eb]. apply existsb_exists. exists raw. by rewrite E.
  - intros k. specialize (Hm k). rewrite lookup_empty in Hm. cbn in Hm. rewrite <- Hm.
    destruct (m !! k) as [found|] eqn:E; [|by left]. right. cbn. rewrite forallb_forall in Ef.
    specialize (Ef (k, found)). cbn in Ef. rewrite bool_decide_eq_true in Ef. apply Ef.
    by apply list_elem_of_In, elem_of_map_to_list.
Qed.

End update.

(** ** Witnesses *)

Definition sample_file (name : Z) (data : bytes) : WriteEntry :=
  {| we_name := [name]; we_raw_name := None; we_kind := WriteFile; we_meta := EntryMeta_default;
     we_stream := match data with [] => EmptyStream | _ => Buffered data end; we_folder_id := 0 |}.

(** Two files per folder, five bytes at most: the second folder starts at the third file,
    the third one at the fourth, which is too large for any. *)
Lemma solid_folders_within_limits_witness :
  ∃ out, entries_with_solid_folders
      [sample_file 97 [1]; sample_file 98 [2; 3]; sample_file 99 []; sample_file 100 [4; 5];
       sample_file 101 [6; 7; 8; 9; 10; 11]] (SolidLimit (Some 2) (Some 5)) = Ok out ∧
    map we_folder_id out = [0; 0; 0; 1; 2] ∧ within_limit (SolidLimit (Some 2) (Some 5)) (folder_sizes 0 out).
Proof.
  set (files := [_; _; _; _; _]).
  destruct (entries_with_solid_folders files (SolidLimit (Some 2) (Some 5))) as [out|] eqn:Eo;
    [|vm_compute in Eo; discriminate Eo].
  destruct (solid_folders_within_limits files (SolidLimit (Some 2) (Some 5)) out Eo) as (_ & _ & Hl & _).
  exists out. split; [reflexivity|]. split; [|apply Hl]. vm_compute in Eo. injection Eo as <-. reflexivity.
Defined.

Definition sample_handle : RawFolderHandle := {| rh_archive_identity := 7; rh_index := 0 |}.
Definition sample_block : RawFolderBlock :=
  {| rb_folder_info := [1; 1; 0]; rb_packed_streams := [[1; 2; 3; 4]]; rb_pack_sizes := [4];
     rb_coder_unpack_sizes := [4]; rb_folder_crc := None; rb_handle := sample_handle |}.
Definition sample_preserved (name : Z) (stream : PreservedEntryStream) : PreservedArchiveEntry :=
  {| pv_name := [name]; pv_raw_name := None; pv_kind := WriteFile; pv_meta := EntryMeta_default;
     pv_stream := stream |}.

(** A new file, a kept one, and two new files that cannot join the first. *)
Lemma staged_folders_kept_witness :
  ∃ st, stage_preserved_entries
      [sample_preserved 97 (PreservedData [9]); sample_preserved 98 (PreservedRaw sample_handle 0 4 None);
       sample_preserved 99 (PreservedData [8]); sample_preserved 100 (PreservedPath [120] 3)]
      [sample_block] ArchiveOptions_default = Ok st ∧
    sp_folder_order st = [1; 0; 2] ∧ ∃ runs : list (Z * nat), sp_folder_order st = runs.*1 ∧ NoDup runs.*1.
Proof.
  set (entries := [_; _; _; _]).
  destruct (stage_preserved_entries entries [sample_block] ArchiveOptions_default) as [st|] eqn:Es;
    [|vm_compute in Es; discriminate Es].
  destruct (staged_folders_kept entries [sample_block] ArchiveOptions_default st Es) as (_ & _ & _ & runs & _ & Hd & Hr).
  exists st. split; [reflexivity|]. split; [|by exists runs]. vm_compute in Es. injection Es as <-. reflexivity.
Defined.

#[local] Existing Instances flat_memory stored_decoders counter_cipher flat_hash sum_crc.

(** The only entry of the sample archive, kept with its folder. *)
Definition sample_kept : list PreservedArchiveEntry :=
  [sample_preserved 97 (PreservedRaw {| rh_archive_identity := 0; rh_index := 0 |} 0 4 (Some 10))].
Definition sample_supplied : list RawFolderBlock :=
  [{| rb_folder_info := [1; 1; 0]; rb_packed_streams := [[1; 2; 3; 4]]; rb_pack_sizes := [4];
      rb_coder_unpack_sizes := [4]; rb_folder_crc := Some 10;
      rb_handle := {| rh_archive_identity := 0; rh_index := 0 |} |}].

Lemma update_keeps_whole_folders_witness :
  ∃ self listing, sample_opened = Ok self ∧ Archive_listing self None = Ok listing ∧
    omap (kept_from 0) sample_kept = [0] ∧ block_entries listing 0 = [0].
Proof.
  destruct sample_opened as [self|] eqn:Eo; [|vm_compute in Eo; discriminate Eo].
  destruct (update_keeps_whole_folders self sample_kept sample_supplied) as (listing & Hl & _ & _ & Hk).
  - vm_compute in Eo. injection Eo as <-. vm_compute. reflexivity.
  - exists self, listing. split; [reflexivity|]. split; [exact Hl|]. split; [reflexivity|].
    destruct (Hk 0) as [H0|H0]; [discriminate H0|]. symmetry. exact H0.
Defined.
