(* ===== verification/StreamingFolder.v ===== *)
(** * The folder being written (src/src/write/mod.rs, src/src/write/encode.rs)

    The stack of writers between the data of a folder and the archive: the encoder of the
    codec, the encryption, and the count of packed bytes; and the description of the
    folder once it is complete. *)

From stdpp Require Import base numbers list option strings gmap.
From Stdlib Require Import ZArith Lia.
From S2P Require Import Prelude Folder Error Operation Readers Resources Aes DecoderPlan FolderDecode Listing WriteHeader WriteOptions Writers Lzma2Encoder WriteFolders.

(** ** Key material (src/src/write/encode.rs) *)

(** The random bytes of the operating system. *)
Class Entropy (G : Type) := random_fill : Z → G → option bytes * G.

(** What a writer draws on: its budget and the random bytes. *)
Record WriterContext (G : Type) := { wc_operation : WriterOperation; wc_entropy : G }.
Arguments wc_operation {G}. Arguments wc_entropy {G}.

Record AesMaterial := { am_key : bytes; am_iv : bytes; am_props : bytes }.

Definition set_operation {G} (c : WriterContext G) (kdf : KdfBudget) (monitor : OperationMonitor) : WriterContext G :=
  {| wc_operation := {| wo_kdf := kdf; wo_monitor := monitor |}; wc_entropy := wc_entropy c |}.
Definition set_writer_monitor {G} (c : WriterContext G) (monitor : OperationMonitor) : WriterContext G :=
  set_operation c (wo_kdf (wc_operation c)) monitor.
Definition set_entropy {G} (c : WriterContext G) (g : G) : WriterContext G :=
  {| wc_operation := wc_operation c; wc_entropy := g |}.
Definition wc_monitor {G} (c : WriterContext G) : OperationMonitor := wo_monitor (wc_operation c).

Definition set_monitor_control (m : OperationMonitor) (control : option OperationControl) : OperationMonitor :=
  {| om_phase := om_phase m; om_control := control; om_processed := om_processed m; om_reported := om_reported m |}.

Section material.
  Context `{Sha256} {G : Type} `{Entropy G}.

(** A buffer of [n] random bytes; none are drawn for an empty one. *)
Definition random_bytes (n : Z) (c : WriterContext G) : result bytes R7zError * WriterContext G :=
  if decide (n = 0) then (Ok [], c) else
  let '(filled, g) := random_fill n (wc_entropy c) in (ok_or filled Parse, set_entropy c g).

Definition make_aes_material (encryption : PreparedEncryption) (c : WriterContext G) :
    result AesMaterial R7zError * WriterContext G :=
  let settings := pe_settings encryption in
  match random_bytes (as_salt_len settings) c with
  | (Err e, c) => (Err e, c)
  | (Ok salt, c) =>
  match random_bytes (as_iv_len settings) c with
  | (Err e, c) => (Err e, c)
  | (Ok iv_bytes, c) =>
      let power := as_cycles_power settings in
      let iv := take 16 iv_bytes ++ replicate (16 - length iv_bytes) 0 in
      match (if decide (power < 64) then Some (2 ^ power) else None) with
      | None => (Err Decompression, c)
      | Some cycles =>
          let '(checked, monitor) := OperationMonitor_check (wc_monitor c) in
          let c := set_writer_monitor c monitor in
          match checked with
          | Err e => (Err e, c)
          | Ok _ =>
              match KdfBudget_charge (wo_kdf (wc_operation c)) cycles with
              | Err e => (Err e, c)
              | Ok kdf =>
                  let '(key, control) :=
                    derive_key_with_control (eo_password (pe_options encryption)) salt power (om_control (wc_monitor c)) in
                  let c := set_operation c kdf (set_monitor_control (wc_monitor c) control) in
                  (let? key := key in
                   let? props := encode_aes_properties power salt iv_bytes in
                   Ok {| am_key := key; am_iv := iv; am_props := props |}, c)
              end
          end
      end
  end
  end.

End material.

(** ** Counting and encryption *)

Record CountingWriter (W : Type) := { cw_inner : W; cw_count : Z }.
Arguments cw_inner {W}. Arguments cw_count {W}.

#[global] Instance CountingWriter_Write {W} `{Write W} : Write (CountingWriter W) := {|
  w_write self b :=
    match w_write (cw_inner self) b with
    | (Err e, inner) => (Err e, {| cw_inner := inner; cw_count := cw_count self |})
    | (Ok n, inner) =>
        match checked_add (cw_count self) n with
        | None => (Err (IoKind InvalidData "archive stream too large"),
                   {| cw_inner := inner; cw_count := cw_count self |})
        | Some count => (Ok n, {| cw_inner := inner; cw_count := count |})
        end
    end;
  w_flush self :=
    let '(res, inner) := w_flush (cw_inner self) in (res, {| cw_inner := inner; cw_count := cw_count self |})
|}.

Definition writer_failed : R7zError :=
  InvalidOptions "archive writer cannot be reused after an I/O or encoder failure".

Section folder.
  Context `{Crc32} `{BlockCipher} `{Sha256} `{Host} `{EncoderLimits} `{Encoders} {G : Type} `{Entropy G}.
  Context (io_fuel : nat) {W : Type} `{Write W}.

(** The encrypting writer writes all of its buffer at once. *)
#[global] Instance CountingWriter_Writer : Writer (CountingWriter W) :=
  {| write_all := io_write_all io_fuel; writer_flush := w_flush |}.

Inductive PayloadWriter :=
| PayloadPlain (writer : CountingWriter W)
| PayloadAes (writer : Aes256CbcEncryptWriter (CountingWriter W)) (props : bytes)
| PayloadFailed.

Record EncryptedPayload := { ep_plaintext_size : Z; ep_props : bytes }.
Record PayloadCompletion := { pc_writer : CountingWriter W; pc_encrypted : option EncryptedPayload }.

Definition PayloadWriter_new (out : W) (prepared : PreparedArchiveOptions) (c : WriterContext G) :
    result PayloadWriter R7zError * WriterContext G :=
  let counting := {| cw_inner := out; cw_count := 0 |} in
  match PreparedArchiveOptions_encryption prepared with
  | Some encryption =>
      let '(aes, c) := make_aes_material encryption c in
      (let? aes := aes in
       Ok (PayloadAes (Aes256CbcEncryptWriter_new counting (am_key aes) (am_iv aes)) (am_props aes)), c)
  | None => (Ok (PayloadPlain counting), c)
  end.

Definition PayloadWriter_finish (self : PayloadWriter) : result PayloadCompletion R7zError :=
  match self with
  | PayloadPlain writer => Ok {| pc_writer := writer; pc_encrypted := None |}
  | PayloadAes writer props =>
      let? (writer, plaintext_size) := map_err R7zError_from (Aes256CbcEncryptWriter_finish writer) in
      Ok {| pc_writer := writer;
            pc_encrypted := Some {| ep_plaintext_size := plaintext_size; ep_props := props |} |}
  | PayloadFailed => Err writer_failed
  end.

(** A failure that is not an interruption is final. *)
Definition fail_payload {A} (res : result A IoError) (self : PayloadWriter) : result A IoError * PayloadWriter :=
  match res with
  | Err e => if interrupted e then (res, self) else (res, PayloadFailed)
  | Ok _ => (res, self)
  end.

#[global] Instance PayloadWriter_Write : Write PayloadWriter := {|
  w_write self b :=
    match self with
    | PayloadPlain writer =>
        let '(res, writer) := w_write writer b in fail_payload res (PayloadPlain writer)
    | PayloadAes writer props =>
        let '(res, writer) := Aes256CbcEncryptWriter_write writer b in fail_payload res (PayloadAes writer props)
    | PayloadFailed => (Err (IoOther writer_failed), PayloadFailed)
    end;
  w_flush self :=
    match self with
    | PayloadPlain writer => let '(res, writer) := w_flush writer in fail_payload res (PayloadPlain writer)
    | PayloadAes writer props =>
        let '(res, writer) := Aes256CbcEncryptWriter_flush writer in fail_payload res (PayloadAes writer props)
    | PayloadFailed => (Err (IoOther writer_failed), PayloadFailed)
    end
|}.

(** ** The encoder of a folder *)

#[local] Instance payload_buffer : Write (BufWriter PayloadWriter) := BufWriter_Write io_fuel.
#[local] Instance payload_lzma2 : Write (Lzma2Encoder PayloadWriter) := Lzma2Encoder_Write io_fuel.

Inductive StreamingEncoder :=
| StreamRaw (writer : CountingWriter W) (pack_sizes : list Z) (coder_info : bytes)
    (coder_unpack_sizes : list Z) (folder_crc : option Z)
| StreamCopy (writer : PayloadWriter)
| StreamLzma2 (writer : Lzma2Encoder PayloadWriter)
| StreamLzma (writer : encoder (BufWriter PayloadWriter)) (props : bytes)
| StreamPpmd (writer : encoder (BufWriter PayloadWriter)) (props : bytes)
| StreamBcjLzma2 (writer : encoder (Lzma2Encoder PayloadWriter)).

Record FolderFile := { ff_entry_index : Z; ff_size : Z; ff_crc : option Z }.
Record StreamingFolder := { sw_encoder : StreamingEncoder; sw_files : list FolderFile; sw_unpack_size : Z }.

Definition BCJ_INPUT_CHUNK_BYTES : nat := 4096.

Definition set_encoder (self : StreamingFolder) (e : StreamingEncoder) : StreamingFolder :=
  {| sw_encoder := e; sw_files := sw_files self; sw_unpack_size := sw_unpack_size self |}.

(** [k] is applied to the writer of the encoder, whichever it is. *)
Definition with_encoder {A} (self : StreamingFolder) (k : ∀ V, Write V → V → result A IoError * V) :
    result A IoError * StreamingFolder :=
  match sw_encoder self with
  | StreamRaw w s i u crc => let '(res, w) := k _ _ w in (res, set_encoder self (StreamRaw w s i u crc))
  | StreamCopy w => let '(res, w) := k _ _ w in (res, set_encoder self (StreamCopy w))
  | StreamLzma2 w => let '(res, w) := k _ _ w in (res, set_encoder self (StreamLzma2 w))
  | StreamLzma w props => let '(res, w) := k _ _ w in (res, set_encoder self (StreamLzma w props))
  | StreamPpmd w props => let '(res, w) := k _ _ w in (res, set_encoder self (StreamPpmd w props))
  | StreamBcjLzma2 w => let '(res, w) := k _ _ w in (res, set_encoder self (StreamBcjLzma2 w))
  end.

(** The BCJ filter is given no more than a chunk at a time. *)
#[global] Instance StreamingFolder_Write : Write StreamingFolder := {|
  w_write self b :=
    let b := match sw_encoder self with StreamBcjLzma2 _ => take BCJ_INPUT_CHUNK_BYTES b | _ => b end in
    with_encoder self (λ V _ w, w_write w b);
  w_flush self := with_encoder self (λ V _ w, w_flush w)
|}.

Definition lzma2_encoder (payload : PayloadWriter) (prepared : PreparedArchiveOptions) (known_size : option Z)
    (threads : ThreadRequest) (c : WriterContext G) : result (Lzma2Encoder PayloadWriter) R7zError :=
  let? e := Lzma2Encoder_new payload (ao_compression (po_archive prepared)) known_size threads in
  map_err R7zError_from (Lzma2Encoder_with_control e (om_control (wc_monitor c))).

Definition StreamingFolder_encoded (out : W) (known_size : option Z) (prepared : PreparedArchiveOptions)
    (c : WriterContext G) : result StreamingFolder R7zError * WriterContext G :=
  match validate_encoder_working_set prepared with
  | Err e => (Err e, c)
  | Ok _ =>
      match PayloadWriter_new out prepared c with
      | (Err e, c) => (Err e, c)
      | (Ok payload, c) =>
          let compression := ao_compression (po_archive prepared) in
          let buffered := BufWriter_with_capacity ENCODED_OUTPUT_BUFFER_BYTES payload in
          let encoder :=
            match pr_codec (po_settings prepared) with
            | PreparedCopy => Ok (StreamCopy payload)
            | PreparedLzma2 threads =>
                let? e := lzma2_encoder payload prepared known_size threads c in Ok (StreamLzma2 e)
            | PreparedLzma =>
                let options := lzma_options compression in
                let? writer := map_err R7zError_from (encoder_try_new (EncodeLzma options) buffered) in
                Ok (StreamLzma writer ([encoder_props writer] ++ to_le_bytes 4 (lz_dict_size options)))
            | PreparedPpmd ppmd =>
                let props := [ps_order ppmd] ++ to_le_bytes 4 (ps_memory_size ppmd) in
                let? writer :=
                  map_err (λ _, InvalidOptions "PPMd order or memory size is outside supported range")
                    (encoder_try_new (EncodePpmd (ps_order ppmd) (ps_memory_size ppmd)) buffered) in
                Ok (StreamPpmd writer props)
            | PreparedLzma2Bcj threads =>
                let? e := lzma2_encoder payload prepared known_size threads c in
                Ok (StreamBcjLzma2 (encoder_new (EncodeBcjX86 0) e))
            end in
          (let? encoder := encoder in
           Ok {| sw_encoder := encoder; sw_files := []; sw_unpack_size := 0 |}, c)
      end
  end.

Definition StreamingFolder_record_stream (self : StreamingFolder) (entry_index size checksum : Z) :
    result StreamingFolder R7zError :=
  match sw_encoder self with
  | StreamRaw _ _ _ _ _ => Err Parse
  | _ =>
      let? unpack_size := ok_or (checked_add (sw_unpack_size self) size) Parse in
      Ok {| sw_encoder := sw_encoder self;
            sw_files := sw_files self ++ [{| ff_entry_index := entry_index; ff_size := size; ff_crc := Some checksum |}];
            sw_unpack_size := unpack_size |}
  end.

Definition completed (files : list FolderFile) (pack_sizes : list Z) (coder_info : bytes)
    (coder_unpack_sizes : list Z) (folder_crc : option Z) : CompletedFolder :=
  {| cf_file_indices := map ff_entry_index files; cf_pack_sizes := pack_sizes; cf_coder_info := coder_info;
     cf_coder_unpack_sizes := coder_unpack_sizes; cf_folder_crc := folder_crc;
     cf_file_sizes := map ff_size files; cf_file_crcs := map ff_crc files |}.

(** The end of an encoder: its payload, its coder block, the sizes its coders give, and
    its coders for an encrypted block. *)
Definition finish_encoder (encoder : StreamingEncoder) (unpack_size : Z) (prepared : PreparedArchiveOptions) :
    result (PayloadWriter * bytes * list Z * list CoderSpec) R7zError :=
  let compression := ao_compression (po_archive prepared) in
  let io {A} (r : result A IoError) := map_err R7zError_from r in
  match encoder with
  | StreamRaw _ _ _ _ _ => Err R7zPanic
  | StreamCopy writer => Ok (writer, encode_coder_info_copy, [unpack_size], [SpecCopy])
  | StreamLzma2 writer =>
      let? property := lzma2_property_byte compression in
      let? writer := io (Lzma2Encoder_finish io_fuel writer) in
      Ok (writer, encode_coder_info_lzma2 property, [unpack_size], [SpecLzma2 property])
  | StreamLzma writer props =>
      let? writer := io (encoder_finish writer) in
      let? writer := io (BufWriter_into_inner io_fuel writer) in
      Ok (writer, encode_coder_info_lzma props, [unpack_size], [SpecLzma props])
  | StreamPpmd writer props =>
      let? writer := io (encoder_finish writer) in
      let? writer := io (BufWriter_into_inner io_fuel writer) in
      Ok (writer, encode_coder_info_ppmd props, [unpack_size], [SpecPpmd props])
  | StreamBcjLzma2 writer =>
      let? writer := io (encoder_finish writer) in
      let? writer := io (Lzma2Encoder_finish io_fuel writer) in
      let? property := lzma2_property_byte compression in
      Ok (writer, encode_coder_info_bcj_lzma2 property, [unpack_size; unpack_size], [SpecLzma2 property; SpecBcj])
  end.

Definition StreamingFolder_complete (self : StreamingFolder) (prepared : PreparedArchiveOptions) :
    result (CountingWriter W * CompletedFolder) R7zError :=
  match sw_encoder self with
  | StreamRaw writer pack_sizes coder_info coder_unpack_sizes folder_crc =>
      Ok (writer, completed (sw_files self) pack_sizes coder_info coder_unpack_sizes folder_crc)
  | encoder =>
      let? (writer, coder_info, coder_unpack_sizes, specs) :=
        finish_encoder encoder (sw_unpack_size self) prepared in
      let? completion := PayloadWriter_finish writer in
      let pack_size := cw_count (pc_writer completion) in
      let '(coder_info, coder_unpack_sizes) :=
        match pc_encrypted completion with
        | Some encrypted =>
            (encode_coder_info_aes_then specs (ep_props encrypted),
             ep_plaintext_size encrypted :: coder_unpack_sizes)
        | None => (coder_info, coder_unpack_sizes)
        end in
      Ok (pc_writer completion, completed (sw_files self) [pack_size] coder_info coder_unpack_sizes None)
  end.

(** ** Folders copied from another archive *)

Context {S : Type} `{Reader S}.
(** [File::open], for the entries whose data is in a file. *)
Context (open_file : list Z → result S IoError).

(** The digest of a file, read without retrying interrupted reads. *)
Fixpoint file_crc (fuel : nat) (file : S) (data : bytes) : result Z R7zError :=
  match fuel with
  | O => Err R7zOutOfFuel
  | Datatypes.S fuel =>
      match reader_read file 8192 with
      | (Err e, _) => Err (R7zError_from e)
      | (Ok [], _) => Ok (crc32 data)
      | (Ok chunk, file) => file_crc fuel file (data ++ chunk)
      end
  end.

Definition staged_stream_crc (entry : StagedEntry) : result (option Z) R7zError :=
  match sg_stream entry with
  | StagedNone => Ok None
  | StagedFolder _ (StagedRaw _ crc) => Ok crc
  | StagedFolder _ (StagedData data) => Ok (Some (crc32 data))
  | StagedFolder _ (StagedPath path _) =>
      let? file := map_err R7zError_from (open_file path) in result_map Some (file_crc io_fuel file [])
  end.

(** [slice::chunks] of at least a byte each. *)
Fixpoint chunks (fuel : nat) (n : Z) (b : bytes) : list bytes :=
  match fuel, b with
  | _, [] => []
  | O, _ => [b]
  | Datatypes.S fuel, _ => take (Z.to_nat n) b :: chunks fuel n (drop (Z.to_nat n) b)
  end.

Fixpoint copy_chunks (writer : CountingWriter W) (monitor : OperationMonitor) (parts : list bytes) :
    result (CountingWriter W) R7zError * OperationMonitor :=
  match parts with
  | [] => (Ok writer, monitor)
  | chunk :: parts =>
      match OperationMonitor_check monitor with
      | (Err e, monitor) => (Err e, monitor)
      | (Ok _, monitor) =>
          match io_write_all io_fuel writer chunk with
          | (Err e, _) => (Err (R7zError_from e), monitor)
          | (Ok _, writer) =>
              match OperationMonitor_advance monitor (zlen chunk) with
              | (Err e, monitor) => (Err e, monitor)
              | (Ok _, monitor) => copy_chunks writer monitor parts
              end
          end
      end
  end.

Fixpoint copy_packed (writer : CountingWriter W) (monitor : OperationMonitor) (streams : list (bytes * Z)) :
    result (CountingWriter W) R7zError * OperationMonitor :=
  match streams with
  | [] => (Ok writer, monitor)
  | (packed, size) :: streams =>
      if decide (zlen packed ≠ size) then (Err Parse, monitor) else
      match copy_chunks writer monitor
              (chunks (length packed) (OperationMonitor_buffer_size monitor (Z.max (zlen packed) 1)) packed) with
      | (Err e, monitor) => (Err e, monitor)
      | (Ok writer, monitor) => copy_packed writer monitor streams
      end
  end.

Definition StreamingFolder_raw (writer : CountingWriter W) (raw : RawFolderBlock) (streams : list StagedEntry)
    (file_indices : list Z) (monitor : OperationMonitor) : result StreamingFolder R7zError * OperationMonitor :=
  match OperationMonitor_check monitor with
  | (Err e, monitor) => (Err e, monitor)
  | (Ok _, monitor) =>
      if decide (zlen (rb_packed_streams raw) ≠ zlen (rb_pack_sizes raw)) then (Err Parse, monitor) else
      match copy_packed writer monitor (zip (rb_packed_streams raw) (rb_pack_sizes raw)) with
      | (Err e, monitor) => (Err e, monitor)
      | (Ok writer, monitor) =>
          (let? files := try_collect (λ entry_index,
             let? stream := ok_or (get entry_index streams) Parse in
             let? crc := staged_stream_crc stream in
             Ok {| ff_entry_index := entry_index; ff_size := staged_stream_size stream; ff_crc := crc |}) file_indices in
           Ok {| sw_encoder := StreamRaw writer (rb_pack_sizes raw) (rb_folder_info raw)
                                 (rb_coder_unpack_sizes raw) (rb_folder_crc raw);
                 sw_files := files; sw_unpack_size := 0 |}, monitor)
      end
  end.

End folder.
Arguments PayloadWriter {_} W. Arguments StreamingFolder {_ _} W. Arguments StreamingEncoder {_ _} W.
