(* ===== verification/FolderWriting.v ===== *)
(** * What a written folder holds

    The stack of writers of [StreamingFolder.v] proved to pass on what it is given: the
    packed stream of a completed folder is the encoding of its data, encrypted if the
    archive is, and the folder's description says so. *)

From stdpp Require Import base numbers list option strings gmap.
From Stdlib Require Import ZArith Lia.
From S2P Require Import Prelude Folder Error Operation Readers Resources Aes DecoderPlan FolderDecode Listing WriteHeader WriteOptions Writers Lzma2Encoder WriteFolders StreamingFolder.

(** ** Key material *)

Lemma derive_rounds_any_control `{Sha256} rounds i prefix hashed control h control' :
  derive_rounds rounds i prefix hashed control = (Ok h, control') →
  derive_rounds rounds i prefix hashed None = (Ok h, None).
Proof.
  revert i hashed control. induction rounds as [|rounds IH]; intros i hashed control; cbn [derive_rounds].
  { by intros [= -> _]. }
  destruct (decide _).
  - destruct (check_control control) as [[|] c]; [|done]. cbn [check_control]. apply IH.
  - apply IH.
Qed.

(** The key does not depend on the progress callback. *)
Lemma derive_key_control `{Sha256} password salt power control key control' :
  derive_key_with_control password salt power control = (Ok key, control') →
  derive_key_with_control password salt power None = (Ok key, None).
Proof.
  unfold derive_key_with_control. destruct (check_control control) as [[|] c1]; [|done]. cbn [check_control].
  case_decide; [by intros [= <- _]|]. case_decide; [done|].
  destruct (derive_rounds _ _ _ _ c1) as [[h|] c2] eqn:Ed; [|done].
  rewrite (derive_rounds_any_control _ _ _ _ _ _ _ Ed). destruct (check_control c2) as [[|] c3]; [|done].
  by intros [= <- _].
Qed.

(** The material of a folder: a key derived from the password and some salt, and the
    properties that record the salt and the initialization vector. *)
Definition material_of `{Sha256} (encryption : PreparedEncryption) (m : AesMaterial) : Prop :=
  ∃ salt iv_bytes, let power := as_cycles_power (pe_settings encryption) in
    derive_key_with_control (eo_password (pe_options encryption)) salt power None = (Ok (am_key m), None) ∧
    am_iv m = take 16 iv_bytes ++ replicate (16 - length iv_bytes) 0 ∧
    encode_aes_properties power salt iv_bytes = Ok (am_props m).

Lemma make_aes_material_spec `{Sha256} {G} `{Entropy G} encryption (c : WriterContext G) m c' :
  make_aes_material encryption c = (Ok m, c') → material_of encryption m.
Proof.
  unfold make_aes_material. destruct (random_bytes (as_salt_len _) c) as [[salt|] c1]; [|done].
  destruct (random_bytes (as_iv_len _) c1) as [[iv|] c2]; [|done].
  destruct (if decide (as_cycles_power (pe_settings encryption) < 64) then _ else _); [|done].
  destruct (OperationMonitor_check _) as [[|] mo]; [|done].
  destruct (KdfBudget_charge _ _) as [kdf|]; [|done].
  destruct (derive_key_with_control _ _ _ _) as [[key|] co] eqn:Ek; [|done].
  destruct (encode_aes_properties _ _ _) as [props|] eqn:Ep; [|done]. intros [= <- _].
  exists salt, iv. cbn. by apply derive_key_control in Ek.
Qed.

(** The material for the options: none without encryption. *)
Definition aes_for `{Sha256} (prepared : PreparedArchiveOptions) (aes : option AesMaterial) : Prop :=
  match PreparedArchiveOptions_encryption prepared, aes with
  | None, None => True
  | Some encryption, Some m => material_of encryption m
  | _, _ => False
  end.

Definition packed_of `{BlockCipher} (aes : option AesMaterial) (stream : bytes) : bytes :=
  match aes with None => stream | Some m => encrypt_aes256_cbc_zero_pad stream (am_key m) (am_iv m) end.

(** ** Counting *)

Section counting.
  Context {W : Type} `{Write W} (got : W → bytes → Prop) (Hgot : tracked got).

Definition counting_got (w : CountingWriter W) (d : bytes) : Prop := got (cw_inner w) d ∧ cw_count w = zlen d.

Lemma counting_tracked : tracked counting_got.
Proof.
  split.
  - intros w d b n w' [Hw Hc]. cbn [w_write CountingWriter_Write].
    destruct (w_write (cw_inner w) b) as [[k|e] inner] eqn:Ew; [|done].
    destruct (checked_add (cw_count w) k) as [count|] eqn:Ea; [|done]. intros [= <- <-].
    destruct (tr_write _ Hgot _ _ _ _ _ Hw Ew) as [Hk Hi]. split; [done|]. split; [done|].
    apply checked_add_some in Ea. cbn. rewrite zlen_app. unfold zlen in *. rewrite length_take. lia.
  - intros w d b e w' [Hw Hc]. cbn [w_write CountingWriter_Write].
    destruct (w_write (cw_inner w) b) as [[k|e1] inner] eqn:Ew.
    + destruct (checked_add (cw_count w) k); [done|]. by intros [= <- <-].
    + intros [= <- <-] Hi. split; [by eapply tr_interrupted|done].
  - intros w d w' [Hw Hc]. cbn [w_flush CountingWriter_Write].
    destruct (w_flush (cw_inner w)) as [res inner] eqn:Ew. intros [= -> <-]. split; [by eapply tr_flush|done].
Qed.

End counting.

(** ** Encryption *)

Section encryption.
  Context `{BlockCipher} (io_fuel : nat) {W : Type} `{Write W} (got : W → bytes → Prop) (Hgot : tracked got).
  Context (key iv : bytes).
#[local] Instance aes_sink : Writer W := {| write_all := io_write_all io_fuel; writer_flush := w_flush |}.

(** The writer took [data]: its whole blocks are encrypted, the rest pends. *)
Record aes_wrote (data : bytes) (self : Aes256CbcEncryptWriter W) (bs : list bytes) : Prop := {
  aw_blocks : Forall is_block bs;
  aw_data : data = concat bs ++ ew_pending self;
  aw_cipher : ew_cipher self = snd (run_blocks encrypt_block (enc_new key iv) bs);
  aw_out : ∃ d, got (ew_inner self) d ∧
    d ++ ew_ciphertext self = concat (fst (run_blocks encrypt_block (enc_new key iv) bs));
  aw_some : ew_encrypted_block self = negb (bool_decide (bs = []))
}.

Lemma flush_ciphertext_wrote data self bs self' :
  aes_wrote data self bs → flush_ciphertext self = (Ok tt, self') →
  aes_wrote data self' bs ∧ ew_ciphertext self' = [] ∧ ew_pending self' = ew_pending self ∧
  ew_plaintext_size self' = ew_plaintext_size self.
Proof.
  intros [Hb Hd Hc (d & Hg & Ho) Hs]. unfold flush_ciphertext. case_decide as He.
  - intros [= <-]. split_and!; try done. split; try done. by exists d.
  - destruct (write_all (ew_inner self) (ew_ciphertext self)) as [[[]|e] w] eqn:Ew; [|done]. intros [= <-].
    split_and!; try done. split; try done. exists (d ++ ew_ciphertext self). cbn. rewrite app_nil_r. split; [|done].
    exact (write_all_tracked got Hgot io_fuel _ _ _ _ Hg Ew).
Qed.

Lemma encrypt_pending_wrote data self bs self' :
  aes_wrote data self bs → (length (ew_pending self) ≤ 16)%nat → encrypt_pending self = (Ok tt, self') →
  aes_wrote (concat bs ++ pad_block (ew_pending self)) self' (bs ++ [pad_block (ew_pending self)]) ∧
  ew_pending self' = [] ∧ ew_plaintext_size self' = ew_plaintext_size self.
Proof.
  intros [Hb Hd Hc (d & Hg & Ho) Hs] Hp. unfold encrypt_pending. fold (pad_block (ew_pending self)).
  destruct (encrypt_block (ew_cipher self) (pad_block (ew_pending self))) as [blk cipher] eqn:Eb.
  set (self1 := {| ew_inner := _ |}).
  assert (aes_wrote (concat bs ++ pad_block (ew_pending self)) self1 (bs ++ [pad_block (ew_pending self)])) as Hw1.
  { pose proof (run_blocks_snoc encrypt_block (enc_new key iv) bs (pad_block (ew_pending self))) as Hr.
    destruct (run_blocks encrypt_block (enc_new key iv) bs) as [outs st]. cbn [fst snd] in *. subst st.
    rewrite Eb in Hr. split; cbn.
    - apply Forall_app. split; [done|]. constructor; [by apply pad_block_block|done].
    - rewrite concat_app. cbn. by rewrite !app_nil_r.
    - by rewrite Hr.
    - exists d. split; [done|]. rewrite Hr. cbn. rewrite concat_app. cbn. by rewrite app_nil_r, app_assoc, Ho.
    - rewrite bool_decide_false; [done|]. by destruct bs. }
  case_decide.
  - intros Hf. destruct (flush_ciphertext_wrote _ _ _ _ Hw1 Hf) as (? & _ & ? & ?). by split_and!.
  - by intros [= <-].
Qed.

Lemma write_loop_wrote fuel data self bs input self' :
  aes_wrote data self bs → (length (ew_pending self) < 16)%nat → write_loop fuel self input = (Ok tt, self') →
  ∃ bs', aes_wrote (data ++ input) self' bs' ∧ (length (ew_pending self') < 16)%nat ∧
    ew_plaintext_size self' = ew_plaintext_size self.
Proof.
  revert data self bs input. induction fuel as [|fuel IH]; intros data self bs input Hw Hp; cbn [write_loop]; [done|].
  destruct input as [|x input]; [intros [= <-]; exists bs; by rewrite app_nil_r|].
  remember (x :: input) as inp eqn:Einp. set (copied := Nat.min _ _).
  set (self1 := set_pending_block _ _). assert (aes_wrote (data ++ take copied inp) self1 bs) as Hw1.
  { destruct Hw as [? Hd ? ? ?]. split; try done. rewrite Hd. symmetry. apply app_assoc. }
  assert ((data ++ take copied inp) ++ drop copied inp = data ++ inp) as Happ by (by rewrite <- app_assoc, (take_drop copied inp)).
  assert (length (ew_pending self1) = length (ew_pending self) + copied)%nat as Hlen.
  { cbn. rewrite length_app, length_take. lia. }
  case_decide as Hfull.
  - destruct (encrypt_pending self1) as [[[]|] self2] eqn:Ee; [|done].
    destruct (encrypt_pending_wrote _ _ _ _ Hw1 ltac:(lia) Ee) as (Hw2 & Hp2 & Hs2).
    rewrite (pad_block_full _ Hfull), <- (aw_data _ _ _ Hw1) in Hw2.
    intros Hr. apply (IH _ _ _ _ Hw2) in Hr as (bs' & Hr & ? & Hs3); [|rewrite Hp2; cbn; lia].
    rewrite Happ in Hr. exists bs'. split_and!; [done|done|]. by rewrite Hs3, Hs2.
  - intros Hr. apply (IH _ _ _ _ Hw1) in Hr as (bs' & Hr & ? & Hs3); [|lia].
    rewrite Happ in Hr. exists bs'. by split_and!.
Qed.

Lemma aes_not_interrupted fuel self input e self' :
  write_loop fuel self input = (Err e, self') → interrupted e = false.
Proof.
  assert (∀ s e s', flush_ciphertext s = (Err e, s') → interrupted e = false) as Hf.
  { intros s e1 s'. unfold flush_ciphertext. case_decide; [done|].
    destruct (write_all (ew_inner s) _) as [[[]|e2] w] eqn:Ew; [done|]. intros [= <- _].
    by eapply (write_all_not_interrupted io_fuel). }
  revert self input. induction fuel as [|fuel IH]; intros self input; cbn [write_loop]; [by intros [= <- _]|].
  destruct input; [done|]. case_decide; [|apply IH].
  destruct (encrypt_pending _) as [[[]|e1] s1] eqn:Ee; [apply IH|]. intros [= <- _]. unfold encrypt_pending in Ee.
  destruct (encrypt_block _ _). destruct (decide _); [by eapply Hf|done].
Qed.

(** ** The encrypting writer is tracked *)

Definition aes_got (self : Aes256CbcEncryptWriter W) (data : bytes) : Prop :=
  ∃ bs, aes_wrote data self bs ∧ (length (ew_pending self) < 16)%nat ∧ ew_plaintext_size self = zlen data.

Lemma aes_new_got w : got w [] → aes_got (Aes256CbcEncryptWriter_new w key iv) [].
Proof.
  intros Hw. exists []. split_and!; [|cbn; lia|done]. split; try done. by exists [].
Qed.

Lemma aes_write_got self data b n self' :
  aes_got self data → Aes256CbcEncryptWriter_write self b = (Ok n, self') →
  n = zlen b ∧ aes_got self' (data ++ b).
Proof.
  intros (bs & Hw & Hp & Hs). unfold Aes256CbcEncryptWriter_write.
  destruct (checked_add _ _) as [size|] eqn:Ea; [|done]. apply checked_add_some in Ea.
  destruct (write_loop _ self b) as [[[]|] s1] eqn:El; [|done]. intros [= <- <-]. split; [done|].
  destruct (write_loop_wrote _ _ _ _ _ _ Hw Hp El) as (bs' & Hw' & Hp' & Hs'). exists bs'.
  split_and!; [by destruct Hw'; split|done|]. cbn. rewrite zlen_app. lia.
Qed.

Lemma aes_write_error self b e self' :
  Aes256CbcEncryptWriter_write self b = (Err e, self') → interrupted e = false.
Proof.
  unfold Aes256CbcEncryptWriter_write. destruct (checked_add _ _); [|by intros [= <- _]].
  destruct (write_loop _ self b) as [[[]|] s1] eqn:El; [done|]. intros [= <- _]. by eapply aes_not_interrupted.
Qed.

Lemma aes_flush_got self data self' :
  aes_got self data → Aes256CbcEncryptWriter_flush self = (Ok tt, self') → aes_got self' data.
Proof.
  intros (bs & Hw & Hp & Hs). unfold Aes256CbcEncryptWriter_flush.
  destruct (flush_ciphertext self) as [[[]|] s1] eqn:Ef; [|done].
  destruct (flush_ciphertext_wrote _ _ _ _ Hw Ef) as (Hw1 & Hc1 & Hp1 & Hs1).
  destruct (writer_flush (ew_inner s1)) as [res w] eqn:Ew. intros [= -> <-]. exists bs.
  split_and!; [|by cbn; rewrite Hp1|by cbn; rewrite Hs1]. destruct Hw1 as [? Hd ? (d & Hg & Ho) ?]. split; try done.
  exists d. split; [|done]. cbn. by eapply (tr_flush _ Hgot).
Qed.

(** Once finished, the writer below received the encryption of the data. *)
Lemma aes_finish_got self data w size :
  aes_got self data → Aes256CbcEncryptWriter_finish self = Ok (w, size) →
  size = zlen data ∧ got w (encrypt_aes256_cbc_zero_pad data key iv).
Proof.
  intros (bs & Hw & Hp & Hs). unfold Aes256CbcEncryptWriter_finish, encrypt_aes256_cbc_zero_pad.
  assert (∀ s bs', aes_wrote (concat bs') s bs' → ew_pending s = [] → ew_plaintext_size s = ew_plaintext_size self →
    bs' = plaintext_blocks data →
    (let '(flushed, self) := flush_ciphertext s in
     let? _ := flushed in
     let '(flushed, inner) := writer_flush (ew_inner self) in
     let? _ := flushed in Ok (inner, ew_plaintext_size self)) = Ok (w, size) →
    size = zlen data ∧ got w (concat (fst (run_blocks encrypt_block (enc_new key iv) (plaintext_blocks data))))) as Hend.
  { intros s bs' Hws Hps Hss <-. destruct (flush_ciphertext s) as [[[]|] s1] eqn:Ef; [|done].
    destruct (flush_ciphertext_wrote _ _ _ _ Hws Ef) as (Hw1 & Hc1 & Hp1 & Hs1).
    destruct (writer_flush (ew_inner s1)) as [[[]|] w1] eqn:Ew; [|done]. intros [= <- <-].
    split; [by rewrite Hs1, Hss|]. destruct (aw_out _ _ _ Hw1) as (d & Hg & Ho). rewrite Hc1, app_nil_r in Ho. subst d.
    by eapply (tr_flush _ Hgot). }
  pose proof (plaintext_blocks_spec bs (ew_pending self) (aw_blocks _ _ _ Hw) Hp) as Hpb.
  rewrite <- (aw_data _ _ _ Hw) in Hpb.
  assert (ew_pending self ≠ [] ∨ bs = [] ↔ ew_pending self ≠ [] ∨ ew_encrypted_block self = false) as Hiff.
  { rewrite (aw_some _ _ _ Hw). case_bool_decide; cbn; naive_solver. }
  destruct (decide (ew_pending self ≠ [] ∨ bs = [])) as [Hd|Hd].
  - rewrite (decide_True (P := _ ∨ ew_encrypted_block self = false)) by by apply Hiff.
    destruct (encrypt_pending self) as [[[]|] s1] eqn:Ee; [|done].
    destruct (encrypt_pending_wrote _ _ _ _ Hw ltac:(lia) Ee) as (Hw1 & Hp1 & Hs1).
    apply (Hend s1 (bs ++ [pad_block (ew_pending self)])); [|done|done|by rewrite Hpb].
    rewrite concat_app. cbn. by rewrite app_nil_r.
  - rewrite (decide_False (P := _ ∨ ew_encrypted_block self = false)) by by rewrite <- Hiff.
    assert (ew_pending self = []) as Hnil by (destruct (ew_pending self); [done|exfalso; apply Hd; by left]).
    apply (Hend self bs); [|done|done|by rewrite Hpb, app_nil_r].
    pose proof (aw_data _ _ _ Hw) as Hdata. rewrite Hnil, app_nil_r in Hdata. by rewrite <- Hdata.
Qed.

End encryption.

(** ** The payload *)

Section payload.
  Context `{BlockCipher} (io_fuel : nat) {W : Type} `{Write W} (got : W → bytes → Prop) (Hgot : tracked got).
  Context (aes : option AesMaterial).
Let counting := counting_got got.
#[local] Instance payload_sink : Writer (CountingWriter W) := CountingWriter_Writer io_fuel.

(** The payload took [d]; nothing is known of one that failed. *)
Definition payload_got (p : PayloadWriter W) (d : bytes) : Prop :=
  match p, aes with
  | PayloadPlain w, None => counting w d
  | PayloadAes w props, Some m => props = am_props m ∧ aes_got counting (am_key m) (am_iv m) w d
  | PayloadFailed, _ => True
  | _, _ => False
  end.

Lemma fail_payload_interrupted {A} (res : result A IoError) (p : PayloadWriter W) e p' :
  fail_payload res p = (Err e, p') → interrupted e = true → res = Err e ∧ p' = p.
Proof.
  destruct res as [a|e1]; cbn; [done|]. destruct (interrupted e1) eqn:Ei; intros [= <- <-]; [done|]. by rewrite Ei.
Qed.
Lemma fail_payload_ok {A} (res : result A IoError) (p : PayloadWriter W) a p' :
  fail_payload res p = (Ok a, p') → res = Ok a ∧ p' = p.
Proof. destruct res as [a1|e1]; cbn; [by intros [= <- <-]|]. by destruct (interrupted e1). Qed.

Lemma payload_tracked : tracked (H := PayloadWriter_Write io_fuel) payload_got.
Proof.
  pose proof (counting_tracked got Hgot) as Hc. split.
  - intros p d b n p' Hp. cbn [w_write PayloadWriter_Write]. destruct p as [w|w props|]; [| |done].
    + destruct (w_write w b) as [res w'] eqn:Ew. intros [-> ->]%fail_payload_ok.
      cbn in Hp |- *. destruct aes; [done|]. by apply (tr_write _ Hc _ _ _ _ _ Hp Ew).
    + destruct (Aes256CbcEncryptWriter_write w b) as [res w'] eqn:Ew. intros [-> ->]%fail_payload_ok.
      cbn in Hp |- *. destruct aes as [m|]; [|done]. destruct Hp as [-> Hp].
      destruct (aes_write_got io_fuel counting Hc _ _ _ _ _ _ _ Hp Ew) as [-> Hw]. pose proof (zlen_nonneg b).
      split; [lia|]. split; [done|]. unfold zlen. by rewrite Nat2Z.id, firstn_all.
  - intros p d b e p' Hp. cbn [w_write PayloadWriter_Write]. destruct p as [w|w props|]; [| |by intros [= <- <-]].
    + destruct (w_write w b) as [res w'] eqn:Ew. intros Hf Hi.
      destruct (fail_payload_interrupted _ _ _ _ Hf Hi) as [-> ->]. cbn in Hp |- *. destruct aes; [done|].
      by apply (tr_interrupted _ Hc _ _ _ _ _ Hp Ew).
    + destruct (Aes256CbcEncryptWriter_write w b) as [res w'] eqn:Ew. intros Hf Hi.
      destruct (fail_payload_interrupted _ _ _ _ Hf Hi) as [-> ->].
      by rewrite (aes_write_error io_fuel _ _ _ _ Ew) in Hi.
  - intros p d p' Hp. cbn [w_flush PayloadWriter_Write]. destruct p as [w|w props|]; [| |done].
    + destruct (w_flush w) as [res w'] eqn:Ew. intros [-> ->]%fail_payload_ok. cbn in Hp |- *. destruct aes; [done|].
      by apply (tr_flush _ Hc _ _ _ Hp Ew).
    + destruct (Aes256CbcEncryptWriter_flush w) as [res w'] eqn:Ew. intros [-> ->]%fail_payload_ok.
      cbn in Hp |- *. destruct aes as [m|]; [|done]. destruct Hp as [-> Hp]. split; [done|].
      by apply (aes_flush_got io_fuel counting Hc _ _ _ _ _ Hp Ew).
Qed.

Lemma payload_finish_got p d c :
  payload_got p d → PayloadWriter_finish io_fuel p = Ok c →
  counting (pc_writer c) (packed_of aes d) ∧
  pc_encrypted c = (λ m, {| ep_plaintext_size := zlen d; ep_props := am_props m |}) <$> aes.
Proof.
  intros Hp. destruct p as [w|w props|]; cbn in Hp |- *; destruct aes as [m|]; try done.
  - by intros [= <-].
  - destruct Hp as [-> Hp].
    destruct (Aes256CbcEncryptWriter_finish w) as [[w' size]|] eqn:Ef; [|done]. intros [= <-]. cbn.
    destruct (aes_finish_got io_fuel counting (counting_tracked got Hgot) _ _ _ _ _ _ Hp Ef) as [-> ?]. done.
Qed.

End payload.

Lemma payload_new_got `{BlockCipher} `{Sha256} {G} `{Entropy G} {W} `{Write W} (got : W → bytes → Prop) out
    prepared (c : WriterContext G) p c' :
  got out [] → PayloadWriter_new out prepared c = (Ok p, c') →
  ∃ aes, aes_for prepared aes ∧ payload_got got aes p [].
Proof.
  intros Hg. unfold PayloadWriter_new, aes_for.
  destruct (PreparedArchiveOptions_encryption prepared) as [enc|].
  - destruct (make_aes_material enc c) as [[m|] c1] eqn:Em; [|done]. intros [= <- _]. exists (Some m).
    split; [by eapply make_aes_material_spec|]. split; [done|]. by apply aes_new_got.
  - intros [= <- _]. by exists None.
Qed.

(** ** The folder *)

(** What the codec of the options makes of the data of a folder. *)
Definition folder_stream `{EncoderLimits} (encodes : EncoderKind → bytes → bytes → Prop)
    (prepared : PreparedArchiveOptions) (data stream : bytes) : Prop :=
  let options := lzma2_options (ao_compression (po_archive prepared)) in
  match pr_codec (po_settings prepared) with
  | PreparedCopy => stream = data
  | PreparedLzma => encodes (CheckedKind (EncodeLzma (lzma_options (ao_compression (po_archive prepared))))) data stream
  | PreparedLzma2 _ => lzma2_encodes encodes options data stream
  | PreparedPpmd ppmd => encodes (CheckedKind (EncodePpmd (ps_order ppmd) (ps_memory_size ppmd))) data stream
  | PreparedLzma2Bcj _ => ∃ filtered, encodes (PlainKind (EncodeBcjX86 0)) data filtered ∧
      lzma2_encodes encodes options filtered stream
  end.

(** The coders of the options: their block without encryption, and as inner coders. *)
Definition folder_coders `{EncoderLimits} (prepared : PreparedArchiveOptions) (info : bytes) (specs : list CoderSpec) : Prop :=
  let compression := ao_compression (po_archive prepared) in
  match pr_codec (po_settings prepared) with
  | PreparedCopy => info = encode_coder_info_copy ∧ specs = [SpecCopy]
  | PreparedLzma =>
      let props := [lzma_props_byte (lzma_options compression)] ++ to_le_bytes 4 (lz_dict_size (lzma_options compression)) in
      info = encode_coder_info_lzma props ∧ specs = [SpecLzma props]
  | PreparedLzma2 _ => ∃ p, lzma2_property_byte compression = Ok p ∧ info = encode_coder_info_lzma2 p ∧ specs = [SpecLzma2 p]
  | PreparedPpmd ppmd => let props := [ps_order ppmd] ++ to_le_bytes 4 (ps_memory_size ppmd) in
      info = encode_coder_info_ppmd props ∧ specs = [SpecPpmd props]
  | PreparedLzma2Bcj _ => ∃ p, lzma2_property_byte compression = Ok p ∧ info = encode_coder_info_bcj_lzma2 p ∧
      specs = [SpecLzma2 p; SpecBcj]
  end.

Section folder.
  Context `{BlockCipher} `{Host} `{EncoderLimits} `{Encoders} (io_fuel : nat) {W : Type} `{Write W}.
  Context (encodes : EncoderKind → bytes → bytes → Prop) (got : W → bytes → Prop) (Hgot : tracked got).
  Context (prepared : PreparedArchiveOptions) (aes : option AesMaterial).
#[local] Instance folder_payload : Write (PayloadWriter W) := PayloadWriter_Write io_fuel.
#[local] Instance folder_buffer : Write (BufWriter (PayloadWriter W)) := BufWriter_Write io_fuel.
#[local] Instance folder_lzma2 : Write (Lzma2Encoder (PayloadWriter W)) := Lzma2Encoder_Write io_fuel.
Let payload := payload_got got aes.
Let options := lzma2_options (ao_compression (po_archive prepared)).

Let inv0 := EncoderKind → encoder (PayloadWriter W) → bytes → bytes → Prop.
Let inv1 := EncoderKind → encoder (BufWriter (PayloadWriter W)) → bytes → bytes → Prop.
Let inv2 := EncoderKind → encoder (Lzma2Encoder (PayloadWriter W)) → bytes → bytes → Prop.

(** The invariants of the encoders over the three writers they are put on. *)
Record encoder_invs (J0 : inv0) (J1 : inv1) (J2 : inv2) : Prop := {
  ei_payload : encoding_by encodes payload J0;
  ei_buffered : encoding_by encodes (buffered_got payload) J1;
  ei_lzma2 : encoding_by encodes (lzma2_got payload J0 options []) J2
}.

(** The encoder of a folder took [d]. *)
Definition encoder_got (J0 : inv0) (J1 : inv1) (J2 : inv2) (e : StreamingEncoder W) (d : bytes) : Prop :=
  match e, pr_codec (po_settings prepared) with
  | StreamCopy w, PreparedCopy => payload w d
  | StreamLzma2 w, PreparedLzma2 _ => lzma2_got payload J0 options [] w d
  | StreamLzma w props, PreparedLzma =>
      let o := lzma_options (ao_compression (po_archive prepared)) in
      props = [lzma_props_byte o] ++ to_le_bytes 4 (lz_dict_size o) ∧ J1 (CheckedKind (EncodeLzma o)) w [] d
  | StreamPpmd w props, PreparedPpmd ppmd =>
      props = [ps_order ppmd] ++ to_le_bytes 4 (ps_memory_size ppmd) ∧
      J1 (CheckedKind (EncodePpmd (ps_order ppmd) (ps_memory_size ppmd))) w [] d
  | StreamBcjLzma2 w, PreparedLzma2Bcj _ => J2 (PlainKind (EncodeBcjX86 0)) w [] d
  | _, _ => False
  end.

Definition folder_got (J0 : inv0) (J1 : inv1) (J2 : inv2) (files : list FolderFile) (size : Z) (f : StreamingFolder W) (d : bytes) : Prop :=
  sw_files f = files ∧ sw_unpack_size f = size ∧ encoder_got J0 J1 J2 (sw_encoder f) d.

Lemma invs_exist : encoders_spec encodes → ∃ J0 J1 J2, encoder_invs J0 J1 J2.
Proof.
  intros Hspec. pose proof (payload_tracked io_fuel got Hgot aes) as Hp.
  destruct (Hspec _ folder_payload payload Hp) as [J0 HJ0].
  destruct (Hspec _ folder_buffer (buffered_got payload) (buffered_tracked payload Hp io_fuel)) as [J1 HJ1].
  destruct (Hspec _ folder_lzma2 _ (lzma2_tracked io_fuel encodes payload J0 HJ0 options [])) as [J2 HJ2].
  by exists J0, J1, J2.
Qed.

Section invs.
  Context (J0 : inv0) (J1 : inv1) (J2 : inv2) (HJ : encoder_invs J0 J1 J2).

Lemma folder_tracked files size : tracked (H := StreamingFolder_Write io_fuel) (folder_got J0 J1 J2 files size).
Proof.
  pose proof (payload_tracked io_fuel got Hgot aes) as Hp.
  pose proof (lzma2_tracked io_fuel encodes payload J0 (ei_payload _ _ _ HJ) options []) as Hl.
  pose proof (λ k, eb_tracked _ _ _ (ei_buffered _ _ _ HJ) k []) as HT1.
  pose proof (λ k, eb_tracked _ _ _ (ei_lzma2 _ _ _ HJ) k []) as HT2.
  split.
  - intros f d b n f' (<- & <- & He). cbn [w_write StreamingFolder_Write]. unfold with_encoder, encoder_got in *.
    destruct (sw_encoder f) as [? ? ? ? ?|w|w|w props|w props|w]; [done|..];
      destruct (pr_codec (po_settings prepared)) eqn:Ecodec; try done; destruct (w_write w _) as [res w'] eqn:Ew; intros [= -> <-];
      unfold folder_got, encoder_got; cbn; rewrite Ecodec.
    + by destruct (tr_write _ Hp _ _ _ _ _ He Ew).
    + by destruct (tr_write _ Hl _ _ _ _ _ He Ew).
    + destruct He as [? He]. by destruct (tr_write _ (HT1 _) _ _ _ _ _ He Ew).
    + destruct He as [? He]. by destruct (tr_write _ (HT1 _) _ _ _ _ _ He Ew).
    + destruct (tr_write _ (HT2 _) _ _ _ _ _ He Ew) as [Hn Hw]. pose proof (zlen_take_le BCJ_INPUT_CHUNK_BYTES b).
      split; [lia|]. split_and!; [done|done|]. rewrite take_take, Nat.min_l in Hw; [done|].
      unfold zlen in Hn. rewrite length_take in Hn. lia.
  - intros f d b e f' (<- & <- & He). cbn [w_write StreamingFolder_Write]. unfold with_encoder, encoder_got in *.
    destruct (sw_encoder f) as [? ? ? ? ?|w|w|w props|w props|w]; [done|..];
      destruct (pr_codec (po_settings prepared)) eqn:Ecodec; try done; destruct (w_write w _) as [res w'] eqn:Ew; intros [= -> <-] Hi;
      unfold folder_got, encoder_got; cbn; rewrite Ecodec; split_and!; try done; try apply He.
    + by apply (tr_interrupted _ Hp _ _ _ _ _ He Ew).
    + by apply (tr_interrupted _ Hl _ _ _ _ _ He Ew).
    + by apply (tr_interrupted _ (HT1 _) _ _ _ _ _ (proj2 He) Ew).
    + by apply (tr_interrupted _ (HT1 _) _ _ _ _ _ (proj2 He) Ew).
    + by apply (tr_interrupted _ (HT2 _) _ _ _ _ _ He Ew).
  - intros f d f' (<- & <- & He). cbn [w_flush StreamingFolder_Write]. unfold with_encoder, encoder_got in *.
    destruct (sw_encoder f) as [? ? ? ? ?|w|w|w props|w props|w]; [done|..];
      destruct (pr_codec (po_settings prepared)) eqn:Ecodec; try done; destruct (w_flush w) as [res w'] eqn:Ew; intros [= -> <-];
      unfold folder_got, encoder_got; cbn; rewrite Ecodec; split_and!; try done; try apply He.
    + by apply (tr_flush _ Hp _ _ _ He Ew).
    + by apply (tr_flush _ Hl _ _ _ He Ew).
    + by apply (tr_flush _ (HT1 _) _ _ _ (proj2 He) Ew).
    + by apply (tr_flush _ (HT1 _) _ _ _ (proj2 He) Ew).
    + by apply (tr_flush _ (HT2 _) _ _ _ He Ew).
Qed.

(** The end of the encoder: the payload took the stream of the data. *)
Lemma finish_encoder_got e d size w info sizes specs :
  encoder_got J0 J1 J2 e d → finish_encoder io_fuel e size prepared = Ok (w, info, sizes, specs) →
  ∃ stream, folder_stream encodes prepared d stream ∧ payload w stream ∧ folder_coders prepared info specs ∧
    sizes = replicate (length specs) size.
Proof.
  unfold encoder_got, finish_encoder, folder_stream, folder_coders. fold options.
  destruct e as [? ? ? ? ?|v|v|v props|v props|v]; [done|..]; destruct (pr_codec (po_settings prepared)); try done.
  - intros Hp [= <- <- <- <-]. by exists d.
  - intros Hl. destruct (lzma2_property_byte _) as [p|] eqn:Ep; [|done].
    destruct (Lzma2Encoder_finish io_fuel v) as [w1|] eqn:Ef; [|done]. intros [= <- <- <- <-].
    destruct (lzma2_finish_got io_fuel encodes payload J0 (ei_payload _ _ _ HJ) options _ _ _ _ Hl Ef) as (s & Hs & Hw).
    exists s. split_and!; try done. by exists p.
  - intros [-> Hw]. destruct (encoder_finish v) as [w1|] eqn:Ef; [|done]. cbn [map_err].
    destruct (BufWriter_into_inner io_fuel w1) as [w2|] eqn:Ei; [|done]. intros [= <- <- <- <-].
    destruct (eb_finish _ _ _ (ei_buffered _ _ _ HJ) _ _ _ _ _ Hw Ef) as (s & Hs & Hb). exists s.
    split_and!; try done.
    apply (into_inner_tracked payload (payload_tracked io_fuel got Hgot aes) _ _ _ _ Hb Ei).
  - intros [-> Hw]. destruct (encoder_finish v) as [w1|] eqn:Ef; [|done]. cbn [map_err].
    destruct (BufWriter_into_inner io_fuel w1) as [w2|] eqn:Ei; [|done]. intros [= <- <- <- <-].
    destruct (eb_finish _ _ _ (ei_buffered _ _ _ HJ) _ _ _ _ _ Hw Ef) as (s & Hs & Hb). exists s.
    split_and!; try done.
    apply (into_inner_tracked payload (payload_tracked io_fuel got Hgot aes) _ _ _ _ Hb Ei).
  - intros Hw. destruct (encoder_finish v) as [w1|] eqn:Ef; [|done]. cbn [map_err].
    destruct (Lzma2Encoder_finish io_fuel w1) as [w2|] eqn:El; [|done]. cbn [map_err].
    destruct (lzma2_property_byte _) as [p|] eqn:Ep; [|done]. intros [= <- <- <- <-].
    destruct (eb_finish _ _ _ (ei_lzma2 _ _ _ HJ) _ _ _ _ _ Hw Ef) as (m & Hm & Hl).
    destruct (lzma2_finish_got io_fuel encodes payload J0 (ei_payload _ _ _ HJ) options _ _ _ _ Hl El) as (s & Hs & Hw2).
    exists s. split_and!; try done; [by exists m|by exists p].
Qed.

End invs.
End folder.

(** ** A folder from its start to its completion *)

Definition item_file `{Crc32} (item : Z * bytes) : FolderFile :=
  {| ff_entry_index := item.1; ff_size := zlen item.2; ff_crc := Some (crc32 item.2) |}.
Definition item_data (items : list (Z * bytes)) : bytes := concat items.*2.

(** The completed folder of some entries with their data: its packed stream, and its
    description. *)
Definition folder_done `{Crc32} `{BlockCipher} `{Sha256} `{EncoderLimits}
    (encodes : EncoderKind → bytes → bytes → Prop) (prepared : PreparedArchiveOptions)
    (items : list (Z * bytes)) (packed : bytes) (folder : CompletedFolder) : Prop :=
  ∃ aes stream info specs,
    aes_for prepared aes ∧ folder_stream encodes prepared (item_data items) stream ∧
    packed = packed_of aes stream ∧ folder_coders prepared info specs ∧
    folder = {|
      cf_file_indices := items.*1;
      cf_pack_sizes := [zlen packed];
      cf_coder_info := match aes with None => info | Some m => encode_coder_info_aes_then specs (am_props m) end;
      cf_coder_unpack_sizes :=
        match aes with None => [] | Some _ => [zlen stream] end ++ replicate (length specs) (zlen (item_data items));
      cf_folder_crc := None;
      cf_file_sizes := map zlen items.*2;
      cf_file_crcs := map (λ d, Some (crc32 d)) items.*2 |}.

Section holds.
  Context `{Crc32} `{BlockCipher} `{Sha256} `{Host} `{EncoderLimits} `{Encoders} {G : Type} `{Entropy G}.
  Context (io_fuel : nat) {W : Type} `{Write W}.
  Context (encodes : EncoderKind → bytes → bytes → Prop) (Henc : encoders_spec encodes).
  Context (prepared : PreparedArchiveOptions).

(** A folder that recorded some files and then took more bytes. *)
Definition folder_holds (got : W → bytes → Prop) (items : list (Z * bytes)) (f : StreamingFolder W) (more : bytes) : Prop :=
  ∃ aes J0 J1 J2, aes_for prepared aes ∧ encoder_invs io_fuel encodes got prepared aes J0 J1 J2 ∧
    folder_got got prepared aes J0 J1 J2 (map item_file items) (zlen (item_data items)) f (item_data items ++ more).

Context (got : W → bytes → Prop) (Hgot : tracked got).

Lemma folder_holds_tracked items : tracked (H := StreamingFolder_Write io_fuel) (folder_holds got items).
Proof.
  split.
  - intros f d b n f' (aes & J0 & J1 & J2 & Ha & HJ & Hf) Hw.
    pose proof (folder_tracked io_fuel encodes got Hgot prepared aes J0 J1 J2 HJ (map item_file items)
      (zlen (item_data items))) as Ht.
    destruct (tr_write _ Ht _ _ _ _ _ Hf Hw) as [Hn Hf']. split; [done|].
    exists aes, J0, J1, J2. split_and!; [done|done|]. by rewrite app_assoc.
  - intros f d b e f' (aes & J0 & J1 & J2 & Ha & HJ & Hf) Hw Hi.
    pose proof (folder_tracked io_fuel encodes got Hgot prepared aes J0 J1 J2 HJ (map item_file items)
      (zlen (item_data items))) as Ht.
    exists aes, J0, J1, J2. split_and!; [done|done|]. by apply (tr_interrupted _ Ht _ _ _ _ _ Hf Hw).
  - intros f d f' (aes & J0 & J1 & J2 & Ha & HJ & Hf) Hw.
    pose proof (folder_tracked io_fuel encodes got Hgot prepared aes J0 J1 J2 HJ (map item_file items)
      (zlen (item_data items))) as Ht.
    exists aes, J0, J1, J2. split_and!; [done|done|]. by apply (tr_flush _ Ht _ _ _ Hf Hw).
Qed.

Lemma folder_encoded_holds out known_size (c : WriterContext G) f c' :
  got out [] → StreamingFolder_encoded io_fuel out known_size prepared c = (Ok f, c') → folder_holds got [] f [].
Proof.
  intros Hg. unfold StreamingFolder_encoded. destruct (validate_encoder_working_set prepared) as [|]; [|done].
  destruct (PayloadWriter_new out prepared c) as [[p|] c1] eqn:Ep; [|done].
  destruct (payload_new_got got _ _ _ _ _ Hg Ep) as (aes & Ha & Hp).
  destruct (invs_exist io_fuel encodes got Hgot prepared aes Henc) as (J0 & J1 & J2 & HJ).
  assert (buffered_got (payload_got got aes) (BufWriter_with_capacity ENCODED_OUTPUT_BUFFER_BYTES p) []) as Hb
    by (by exists []).
  destruct (match pr_codec (po_settings prepared) with PreparedCopy => _ | _ => _ end) as [e|] eqn:Ee; [|done].
  intros [= <- _]. exists aes, J0, J1, J2. split_and!; [done|done|]. split_and!; [done|done|].
  unfold encoder_got. cbn [sw_encoder item_data app].
  assert (∀ threads l, lzma2_encoder io_fuel p prepared known_size threads c1 = Ok l →
    lzma2_got (payload_got got aes) J0 (lzma2_options (ao_compression (po_archive prepared))) [] l []) as Hl.
  { intros threads l. unfold lzma2_encoder. destruct (Lzma2Encoder_new _ _ _ _) as [l0|] eqn:E0; [|done].
    destruct (Lzma2Encoder_with_control l0 _) as [l1|] eqn:E1; [|done]. intros [= <-].
    by apply (lzma2_new_got encodes _ J0 _ _ _ _ _ _ _ _ (ei_payload _ _ _ _ _ _ _ _ HJ) Hp E0 E1). }
  destruct (pr_codec (po_settings prepared)) as [| |threads|ppmd|threads].
  - by injection Ee as <-.
  - destruct (encoder_try_new _ _) as [w|] eqn:En; [|done]. injection Ee as <-.
    pose proof (eb_try_new _ _ _ (ei_buffered _ _ _ _ _ _ _ _ HJ) _ _ _ _ Hb En) as Hw.
    split; [|done]. f_equal. f_equal. by apply (eb_props _ _ _ (ei_buffered _ _ _ _ _ _ _ _ HJ) _ _ _ _ Hw).
  - destruct (lzma2_encoder io_fuel p prepared known_size threads c1) as [l|] eqn:El; [|done]. injection Ee as <-. by eapply Hl.
  - destruct (encoder_try_new _ _) as [w|] eqn:En; [|done]. injection Ee as <-. split; [done|].
    by apply (eb_try_new _ _ _ (ei_buffered _ _ _ _ _ _ _ _ HJ) _ _ _ _ Hb En).
  - destruct (lzma2_encoder io_fuel p prepared known_size threads c1) as [l|] eqn:El; [|done]. injection Ee as <-.
    apply (eb_new _ _ _ (ei_lzma2 _ _ _ _ _ _ _ _ HJ)). by eapply Hl.
Qed.

Lemma item_data_snoc items i d : item_data (items ++ [(i, d)]) = item_data items ++ d.
Proof. unfold item_data. rewrite fmap_app, concat_app. cbn. by rewrite app_nil_r. Qed.

(** Recording a stream makes the bytes since the last one a file. *)
Lemma record_stream_holds items f d index f' :
  folder_holds got items f d → StreamingFolder_record_stream f index (zlen d) (crc32 d) = Ok f' →
  folder_holds got (items ++ [(index, d)]) f' [].
Proof.
  intros (aes & J0 & J1 & J2 & Ha & HJ & Hfiles & Hsize & He) Hr.
  exists aes, J0, J1, J2. split_and!; [done|done|]. rewrite app_nil_r, item_data_snoc.
  assert (sw_files f' = map item_file (items ++ [(index, d)]) ∧
    sw_unpack_size f' = zlen (item_data items ++ d) ∧ sw_encoder f' = sw_encoder f) as (H1' & H2' & H3').
  { unfold StreamingFolder_record_stream in Hr. destruct (sw_encoder f) eqn:Ef; [done|..];
      (destruct (checked_add _ _) as [size|] eqn:Ea; [|done]); injection Hr as <-; cbn;
      apply checked_add_some in Ea; rewrite map_app, Hfiles, zlen_app; cbn; (split_and!; [done|lia|done]). }
  split_and!; [done|done|by rewrite H3'].
Qed.

Lemma complete_done items f cw folder :
  folder_holds got items f [] → StreamingFolder_complete io_fuel f prepared = Ok (cw, folder) →
  ∃ packed, folder_done encodes prepared items packed folder ∧ counting_got got cw packed.
Proof.
  intros (aes & J0 & J1 & J2 & Ha & HJ & Hfiles & Hsize & He). rewrite app_nil_r in He.
  unfold StreamingFolder_complete. destruct (sw_encoder f) as [| | | | |] eqn:Ef; [done|..];
    (destruct (finish_encoder io_fuel _ _ prepared) as [[[[w info] sizes] specs]|] eqn:Efin; [|done]);
    (destruct (finish_encoder_got io_fuel encodes got Hgot prepared aes J0 J1 J2 HJ _ _ _ _ _ _ _ He Efin)
      as (stream & Hs & Hw & Hc & Hsz));
    (destruct (PayloadWriter_finish io_fuel w) as [pc|] eqn:Ep; [|done]);
    destruct (payload_finish_got io_fuel got Hgot aes _ _ _ Hw Ep) as [Hcount Henc'];
    intros Hres; exists (packed_of aes stream);
    (split; [|destruct (pc_encrypted pc); injection Hres as <- _; done]);
    exists aes, stream, info, specs; (split_and!; [done..|]); rewrite Hsize in Hsz; rewrite <- (proj2 Hcount);
    subst sizes; rewrite Henc' in Hres; destruct aes as [m|]; injection Hres as _ <-; unfold completed;
    rewrite Hfiles; cbn; (f_equal; unfold fmap; rewrite ?map_map; done).
Qed.

End holds.
