(* ===== verification/ArchiveWriter.v ===== *)
(** * The archive writer (src/src/write/mod.rs, src/src/write/encode.rs)

    The writer as a state machine between folders: ready, with a folder open, or failed for
    good; the builder on top of it; and the writing of an update. *)

From stdpp Require Import base numbers list option strings gmap.
From Stdlib Require Import ZArith Lia.
From S2P Require Import Prelude Folder Error Operation Readers Resources Aes DecoderPlan FolderDecode Archive Listing WriteHeader WriteOptions Writers Lzma2Encoder WriteFolders StreamingFolder.

(** A [Vec<u8>] takes everything. *)
#[global] Instance Vec_Write : Write bytes :=
  {| w_write v b := (Ok (zlen b), v ++ b); w_flush v := (Ok tt, v) |}.

Inductive FolderPlan := Automatic | Preplanned (folder_size : Z).

#[global] Instance FolderPlan_eq_dec : EqDecision FolderPlan.
Proof. solve_decision. Defined.

Section writer.
  Context `{Crc32} `{BlockCipher} `{Sha256} `{Host} `{EncoderLimits} `{Encoders} {G : Type} `{Entropy G}.
  Context (io_fuel : nat).

(** ** The end of an archive *)

(** LZMA over a buffer (src/src/codec.rs). *)
Definition compress_lzma (data : bytes) : result (bytes * bytes) R7zError :=
  let options := lzma_with_preset 6 in
  let decompression {A} (r : result A IoError) : result A R7zError := map_err (λ _, Decompression) r in
  let? writer := decompression (encoder_try_new (EncodeLzma options) ([] : bytes)) in
  let '(written, writer) := io_write_all io_fuel writer data in
  let? _ := decompression written in
  let props_byte := encoder_props writer in
  let? compressed := decompression (encoder_finish writer) in
  Ok ([props_byte] ++ to_le_bytes 4 (lz_dict_size options), compressed).

Record EncodedHeaderBytes := { eh_packed : bytes; eh_coder_info : bytes; eh_unpack_sizes : list Z }.

Definition encode_header_stream (raw_header : bytes) (prepared : PreparedArchiveOptions) (c : WriterContext G) :
    result EncodedHeaderBytes R7zError * WriterContext G :=
  match compress_lzma raw_header with
  | Err e => (Err e, c)
  | Ok (props, compressed) =>
      match PreparedArchiveOptions_encryption prepared with
      | Some encryption =>
          if eo_encrypt_header (pe_options encryption) then
            let '(aes, c) := make_aes_material encryption c in
            (let? aes := aes in
             Ok {| eh_packed := encrypt_aes256_cbc_zero_pad compressed (am_key aes) (am_iv aes);
                   eh_coder_info := encode_coder_info_aes_then [SpecLzma props] (am_props aes);
                   eh_unpack_sizes := [zlen compressed; zlen raw_header] |}, c)
          else (Ok {| eh_packed := compressed; eh_coder_info := encode_coder_info_lzma props;
                      eh_unpack_sizes := [zlen raw_header] |}, c)
      | None => (Ok {| eh_packed := compressed; eh_coder_info := encode_coder_info_lzma props;
                       eh_unpack_sizes := [zlen raw_header] |}, c)
      end
  end.

Definition should_encode_header (options : ArchiveOptions) (entries : list WriteEntry) : bool :=
  match ao_header_mode options with
  | PlainHeader => false
  | EncodedHeader => true
  | P7zipDefault => bool_decide (1 < zlen entries) || match ao_encryption options with Some _ => true | None => false end
  end.

(** An addition of [u64]s that panics when it overflows. *)
Definition add_or_panic (a b : Z) : result Z R7zError := ok_or (checked_add a b) R7zPanic.

Definition checked_sum (sizes : list Z) : result Z R7zError :=
  try_fold (λ acc size, ok_or (checked_add acc size) Parse) 0 sizes.

Definition packed_total (folders : list CompletedFolder) : result Z R7zError :=
  try_fold (λ acc folder, let? size := checked_sum (cf_pack_sizes folder) in
                          ok_or (checked_add acc size) Parse) 0 folders.

Context {W : Type} `{Write W} `{Seek W}.

(** [seek] to a position from the start, and [write_all] there. *)
Definition write_at (pos : Z) (b : bytes) (out : W) : result W R7zError :=
  match w_seek out (SeekStart pos) with
  | (Err e, _) => Err (R7zError_from e)
  | (Ok _, out) =>
      let '(written, out) := io_write_all io_fuel out b in
      let? _ := map_err R7zError_from written in Ok out
  end.

Definition finish_streamed_archive (out : W) (entries : list WriteEntry) (folders : list CompletedFolder)
    (prepared : PreparedArchiveOptions) (c : WriterContext G) : result W R7zError :=
  let '(checked, monitor) := OperationMonitor_check (wc_monitor c) in
  let c := set_writer_monitor c monitor in
  let? _ := checked in
  let? packed_size := packed_total folders in
  let raw_header := build_header entries folders in
  let? (out, next_header, next_header_offset, c) :=
    (if should_encode_header (po_archive prepared) entries then
       let '(encoded, c) := encode_header_stream raw_header prepared c in
       let? encoded := encoded in
       let? pos := add_or_panic 32 packed_size in
       let? out := write_at pos (eh_packed encoded) out in
       let? offset := add_or_panic packed_size (zlen (eh_packed encoded)) in
       Ok (out, build_encoded_header_descriptor packed_size (zlen (eh_packed encoded)) (eh_coder_info encoded)
                  (eh_unpack_sizes encoded), offset, c)
     else Ok (out, raw_header, packed_size, c)) in
  let? pos := add_or_panic 32 next_header_offset in
  let? out := write_at pos next_header out in
  let? out := write_at 0 (signature_bytes next_header_offset next_header) out in
  let '(flushed, out) := w_flush out in
  let? _ := map_err R7zError_from flushed in
  let '(checked, _) := OperationMonitor_check (wc_monitor c) in
  let? _ := checked in Ok out.

(** ** The writer *)

#[local] Instance folder_write : Write (StreamingFolder W) := StreamingFolder_Write io_fuel.

Inductive WriterState :=
| WriterReady (output : W) (completed : list CompletedFolder)
| WriterActive (folder : StreamingFolder W) (completed : list CompletedFolder) (progress : FolderProgress)
| WriterFailed.

Record ArchiveWriter := {
  aw_state : WriterState;
  aw_entries : list WriteEntry;
  aw_prepared : PreparedArchiveOptions;
  aw_context : WriterContext G
}.

Definition set_writer_state (self : ArchiveWriter) (state : WriterState) : ArchiveWriter :=
  {| aw_state := state; aw_entries := aw_entries self; aw_prepared := aw_prepared self; aw_context := aw_context self |}.
Definition set_writer_context (self : ArchiveWriter) (c : WriterContext G) : ArchiveWriter :=
  {| aw_state := aw_state self; aw_entries := aw_entries self; aw_prepared := aw_prepared self; aw_context := c |}.
Definition push_entry (self : ArchiveWriter) (entry : WriteEntry) : ArchiveWriter :=
  {| aw_state := aw_state self; aw_entries := aw_entries self ++ [entry]; aw_prepared := aw_prepared self;
     aw_context := aw_context self |}.

Definition ArchiveWriter_new_prepared (out : W) (prepared : PreparedArchiveOptions) (c : WriterContext G) : ArchiveWriter :=
  {| aw_state := WriterReady out []; aw_entries := []; aw_prepared := prepared; aw_context := c |}.

(** The budget and monitor of a write. *)
Definition writer_budgets (prepared : PreparedArchiveOptions) : WriterBudgets :=
  let streaming := ao_streaming (po_archive prepared) in
  into_writer_budgets (with_control (OperationBudget_new (st_resource_limits streaming)) (st_control streaming)).

Definition ArchiveWriter_new (out : W) (options : ArchiveOptions) (g : G) : result ArchiveWriter R7zError :=
  let? prepared := prepare_archive_options (set_default_budget options) in
  Ok (ArchiveWriter_new_prepared out prepared {| wc_operation := wb_operation (writer_budgets prepared); wc_entropy := g |}).

Definition set_codec (o : ArchiveOptions) (codec : Codec) : ArchiveOptions :=
  {| ao_codec := codec; ao_header_mode := ao_header_mode o; ao_encryption := ao_encryption o;
     ao_compression := ao_compression o; ao_streaming := ao_streaming o |}.

(** A codec that conflicts with the settings changes nothing. *)
Definition ArchiveWriter_set_compression (self : ArchiveWriter) (codec : Codec) : result unit R7zError * ArchiveWriter :=
  match prepare_archive_options (set_default_budget (set_codec (po_archive (aw_prepared self)) codec)) with
  | Err e => (Err e, self)
  | Ok prepared => (Ok tt, {| aw_state := aw_state self; aw_entries := aw_entries self; aw_prepared := prepared;
                              aw_context := aw_context self |})
  end.

Definition ArchiveWriter_check (self : ArchiveWriter) : result unit R7zError * ArchiveWriter :=
  let '(checked, monitor) := OperationMonitor_check (wc_monitor (aw_context self)) in
  (checked, set_writer_context self (set_writer_monitor (aw_context self) monitor)).

Definition ArchiveWriter_next_folder_id (self : ArchiveWriter) : result Z R7zError :=
  match aw_state self with
  | WriterReady _ completed | WriterActive _ completed _ => Ok (zlen completed)
  | WriterFailed => Err writer_failed
  end.

Definition new_entry (name : list Z) (kind : WriteEntryKind) (meta : EntryMeta) (stream : WriteEntryStream)
    (folder_id : Z) : WriteEntry :=
  {| we_name := name; we_raw_name := None; we_kind := kind; we_meta := meta; we_stream := stream;
     we_folder_id := folder_id |}.

Definition ArchiveWriter_append_empty_entry (self : ArchiveWriter) (name : list Z) (kind : WriteEntryKind)
    (meta : EntryMeta) : result unit R7zError * ArchiveWriter :=
  match ArchiveWriter_check self with
  | (Err e, self) => (Err e, self)
  | (Ok _, self) =>
      match ArchiveWriter_next_folder_id self with
      | Err e => (Err e, self)
      | Ok folder_id => (Ok tt, push_entry self (new_entry name kind meta EmptyStream folder_id))
      end
  end.

(** A folder is only opened once the signature header's place is reserved. *)
Definition ArchiveWriter_ensure_streaming_folder (self : ArchiveWriter) (plan : FolderPlan) :
    result unit R7zError * ArchiveWriter :=
  match aw_state self with
  | WriterActive _ _ _ => (Ok tt, self)
  | WriterFailed => (Err writer_failed, self)
  | WriterReady output completed =>
      let failed := set_writer_state self WriterFailed in
      match (if decide (completed = []) then write_at 0 (replicate 32 0) output else Ok output) with
      | Err e => (Err e, failed)
      | Ok output =>
          let known_size := match plan with Automatic => None | Preplanned size => Some size end in
          let '(folder, c) := StreamingFolder_encoded io_fuel output known_size (aw_prepared self) (aw_context self) in
          match folder with
          | Err e => (Err e, set_writer_context failed c)
          | Ok folder =>
              (Ok tt, set_writer_state (set_writer_context self c)
                        (WriterActive folder completed FolderProgress_default))
          end
      end
  end.

Definition ArchiveWriter_seal_streaming_folder (self : ArchiveWriter) : result unit R7zError * ArchiveWriter :=
  let state := aw_state self in
  match ArchiveWriter_check (set_writer_state self WriterFailed) with
  | (Err e, self) => (Err e, self)
  | (Ok _, self) =>
      let sealed :=
        match state with
        | WriterReady output completed => Ok (output, completed)
        | WriterActive folder completed _ =>
            let? (output, folder) := StreamingFolder_complete io_fuel folder (aw_prepared self) in
            Ok (cw_inner output, completed ++ [folder])
        | WriterFailed => Err writer_failed
        end in
      match sealed with
      | Err e => (Err e, self)
      | Ok (output, completed) =>
          match ArchiveWriter_check self with
          | (Err e, self) => (Err e, self)
          | (Ok _, self) => (Ok tt, set_writer_state self (WriterReady output completed))
          end
      end
  end.

Definition ArchiveWriter_new_folder (self : ArchiveWriter) : result unit R7zError * ArchiveWriter :=
  ArchiveWriter_seal_streaming_folder self.

Definition active_folder (self : ArchiveWriter) : result (StreamingFolder W) R7zError :=
  match aw_state self with
  | WriterReady _ _ => Err Parse
  | WriterActive folder _ _ => Ok folder
  | WriterFailed => Err writer_failed
  end.
Definition set_active_folder (self : ArchiveWriter) (folder : StreamingFolder W) : ArchiveWriter :=
  match aw_state self with
  | WriterActive _ completed progress => set_writer_state self (WriterActive folder completed progress)
  | _ => self
  end.

Definition ArchiveWriter_record_stream (self : ArchiveWriter) (index size checksum : Z) :
    result unit R7zError * ArchiveWriter :=
  match active_folder self with
  | Err e => (Err e, self)
  | Ok folder =>
      match StreamingFolder_record_stream folder index size checksum with
      | Err e => (Err e, self)
      | Ok folder => (Ok tt, set_active_folder self folder)
      end
  end.

Definition ArchiveWriter_finish_entry_folder_accounting (self : ArchiveWriter) (size : Z) :
    result unit R7zError * ArchiveWriter :=
  match aw_state self with
  | WriterReady _ _ => (Err Parse, self)
  | WriterFailed => (Err writer_failed, self)
  | WriterActive folder completed progress =>
      match FolderProgress_record progress size with
      | Err e => (Err e, self)
      | Ok progress =>
          let self := set_writer_state self (WriterActive folder completed progress) in
          if FolderProgress_reached_limit progress (co_solid (ao_compression (po_archive (aw_prepared self))))
          then ArchiveWriter_new_folder self else (Ok tt, self)
      end
  end.

(** ** Entries with data *)

Section reading.
  Context {S : Type} `{Reader S}.

Definition ArchiveWriter_read (self : ArchiveWriter) (reader : S) : result bytes R7zError * ArchiveWriter * S :=
  let '(chunk, monitor, reader) :=
    OperationMonitor_read (wc_monitor (aw_context self)) reader
      (st_buffer_size (ao_streaming (po_archive (aw_prepared self)))) in
  (chunk, set_writer_context self (set_writer_monitor (aw_context self) monitor), reader).

(** The loop over the chunks of an entry; [seen] is what the checksum covers. *)
Fixpoint append_chunks (fuel : nat) (self : ArchiveWriter) (reader : S) (chunk seen : bytes) (size : Z) :
    result (bytes * Z) R7zError * ArchiveWriter :=
  match fuel with
  | O => (Err R7zOutOfFuel, self)
  | Datatypes.S fuel =>
      match active_folder self with
      | Err e => (Err e, self)
      | Ok folder =>
          match io_write_all io_fuel folder chunk with
          | (Err e, folder) => (Err (R7zError_from e), set_active_folder self folder)
          | (Ok _, folder) =>
              let self := set_active_folder self folder in
              let seen := seen ++ chunk in
              match checked_add size (zlen chunk) with
              | None => (Err Parse, self)
              | Some size =>
                  match ArchiveWriter_read self reader with
                  | (Err e, self, _) => (Err e, self)
                  | (Ok [], self, _) => (Ok (seen, size), self)
                  | (Ok chunk, self, reader) => append_chunks fuel self reader chunk seen size
                  end
              end
          end
      end
  end.

(** The entry of a stream, with its size and digest in the folder. *)
Definition push_stream (self : ArchiveWriter) (name : list Z) (meta : EntryMeta) (size checksum : Z) :
    result unit R7zError * ArchiveWriter :=
  let index := zlen (aw_entries self) in
  match ArchiveWriter_next_folder_id self with
  | Err e => (Err e, self)
  | Ok folder_id =>
      ArchiveWriter_record_stream (push_entry self (new_entry name WriteFile meta Streaming folder_id)) index size checksum
  end.

Definition ArchiveWriter_append_streaming (self : ArchiveWriter) (name : list Z) (reader : S) (meta : EntryMeta)
    (plan : FolderPlan) : result unit R7zError * ArchiveWriter :=
  match ArchiveWriter_read self reader with
  | (Err e, self, _) => (Err e, self)
  | (Ok [], self, _) =>
      match plan with
      | Preplanned _ =>
          match ArchiveWriter_ensure_streaming_folder self plan with
          | (Err e, self) => (Err e, self)
          | (Ok _, self) => push_stream self name meta 0 (crc32 [])
          end
      | Automatic =>
          match ArchiveWriter_next_folder_id self with
          | Err e => (Err e, self)
          | Ok folder_id => (Ok tt, push_entry self (new_entry name WriteFile meta EmptyStream folder_id))
          end
      end
  | (Ok first, self, reader) =>
      match ArchiveWriter_ensure_streaming_folder self plan with
      | (Err e, self) => (Err e, self)
      | (Ok _, self) =>
          match append_chunks io_fuel self reader first [] 0 with
          | (Err e, self) => (Err e, self)
          | (Ok (seen, size), self) =>
              match push_stream self name meta size (crc32 seen) with
              | (Err e, self) => (Err e, self)
              | (Ok _, self) =>
                  match plan with
                  | Automatic => ArchiveWriter_finish_entry_folder_accounting self size
                  | Preplanned _ => (Ok tt, self)
                  end
              end
          end
      end
  end.

Definition ArchiveWriter_append_file (self : ArchiveWriter) (name : list Z) (reader : S) (meta : EntryMeta) :
    result unit R7zError * ArchiveWriter :=
  let '(res, self) :=
    match aw_state self with
    | WriterReady _ _ | WriterActive _ _ _ => ArchiveWriter_append_streaming self name reader meta Automatic
    | WriterFailed => (Err writer_failed, self)
    end in
  match res with
  | Ok _ => (res, self)
  | Err _ => (res, set_writer_state self WriterFailed)
  end.

Definition ArchiveWriter_append_archive_entry (self : ArchiveWriter) (name : list Z) (kind : WriteEntryKind)
    (meta : EntryMeta) (reader : S) : result unit R7zError * ArchiveWriter :=
  if decide (kind ≠ WriteFile) then (Err (InvalidOptions "only file entries can have stream data"), self)
  else ArchiveWriter_append_file self name reader meta.

End reading.

Definition ArchiveWriter_append_empty_file self name meta := ArchiveWriter_append_empty_entry self name WriteFile meta.
Definition ArchiveWriter_append_directory self name meta := ArchiveWriter_append_empty_entry self name WriteDirectory meta.
Definition ArchiveWriter_append_anti_item self name meta := ArchiveWriter_append_empty_entry self name WriteAnti meta.

Definition ArchiveWriter_finish (self : ArchiveWriter) : result W R7zError :=
  match ArchiveWriter_check self with
  | (Err e, _) => Err e
  | (Ok _, self) =>
      match aw_state self with
      | WriterFailed => Err writer_failed
      | _ =>
          match ArchiveWriter_seal_streaming_folder self with
          | (Err e, _) => Err e
          | (Ok _, self) =>
              match aw_state self with
              | WriterReady out folders =>
                  finish_streamed_archive out (aw_entries self) folders (aw_prepared self) (aw_context self)
              | _ => Err writer_failed
              end
          end
      end
  end.

(** [build_streaming_with_prepared_options]. *)
Fixpoint append_all {S} `{Reader S} (self : ArchiveWriter) (entries : list (list Z * S)) :
    result unit R7zError * ArchiveWriter :=
  match entries with
  | [] => (Ok tt, self)
  | (name, reader) :: entries =>
      match ArchiveWriter_append_file self name reader EntryMeta_default with
      | (Err e, self) => (Err e, self)
      | (Ok _, self) => append_all self entries
      end
  end.

Definition build_streaming_with_prepared_options {S} `{Reader S} (entries : list (list Z * S)) (out : W)
    (prepared : PreparedArchiveOptions) (c : WriterContext G) : result W R7zError :=
  let '(appended, writer) := append_all (ArchiveWriter_new_prepared out prepared c) entries in
  let? _ := appended in ArchiveWriter_finish writer.

Definition build_streaming_with_options {S} `{Reader S} (entries : list (list Z * S)) (out : W)
    (options : ArchiveOptions) (g : G) : result W R7zError :=
  let? prepared := prepare_archive_options (set_default_budget options) in
  build_streaming_with_prepared_options entries out prepared
    {| wc_operation := wb_operation (writer_budgets prepared); wc_entropy := g |}.

End writer.
Arguments ArchiveWriter {_ _} G W. Arguments WriterState {_ _} W.
