(* ===== verification/ArchiveWritten.v ===== *)
(** * What a written archive holds

    The archive writer refined to a log of its entries: whatever operations succeed, each
    entry with data is recorded in exactly one folder, whose packed stream encodes the
    data of its entries, and a finished archive is its signature header, the packed
    streams and the header that describes them. *)

From stdpp Require Import base numbers list option strings gmap.
From Stdlib Require Import ZArith Lia.
From S2P Require Import Prelude Folder Error Operation Readers Resources Aes DecoderPlan FolderDecode Archive Listing WriteHeader WriteOptions Writers Lzma2Encoder WriteFolders StreamingFolder FolderWriting ArchiveWriter.

(** ** The log *)

Record Logged := { lg_name : list Z; lg_kind : WriteEntryKind; lg_meta : EntryMeta; lg_data : option bytes }.

(** The header entry of a logged one; its folder is not written. *)
Definition entry_logged (e : WriteEntry) (l : Logged) : Prop :=
  ∃ id, e = new_entry (lg_name l) (lg_kind l) (lg_meta l)
              (match lg_data l with None => EmptyStream | Some _ => Streaming end) id.

(** The entries with data, by their index. *)
Fixpoint log_items_from (k : Z) (log : list Logged) : list (Z * bytes) :=
  match log with
  | [] => []
  | l :: log => match lg_data l with Some d => [(k, d)] | None => [] end ++ log_items_from (k + 1) log
  end.
Definition log_items (log : list Logged) : list (Z * bytes) := log_items_from 0 log.

Lemma log_items_snoc log l :
  log_items (log ++ [l]) = log_items log ++ match lg_data l with Some d => [(zlen log, d)] | None => [] end.
Proof.
  unfold log_items. replace (zlen log) with (0 + zlen log) by lia. generalize 0 as k.
  induction log as [|x log IH]; intros k; cbn.
  - rewrite app_nil_r. by replace (k + zlen (@nil Logged)) with k by (rewrite zlen_nil; lia).
  - rewrite IH, zlen_cons, app_assoc. by replace (k + 1 + zlen log) with (k + (1 + zlen log)) by lia.
Qed.

Record WrittenFolder := { wf_items : list (Z * bytes); wf_packed : bytes; wf_folder : CompletedFolder }.

Definition packed_streams (folders : list WrittenFolder) : bytes := concat (map wf_packed folders).
Definition written_items (folders : list WrittenFolder) : list (Z * bytes) := concat (map wf_items folders).

(** All that a reader gives before it reports its end. *)
Definition reads_all {S} `{Reader S} (reader : S) (data : bytes) : Prop :=
  ∃ last n next, yields reader data last ∧ 0 < n ∧ reader_read last n = (Ok [], next).

(** A reader that delivers some bytes gives just those. *)
Lemma reads_all_delivers {S} `{Reader S} (reader : S) data m delivered :
  reads_all reader data → delivers m reader delivered → data = delivered.
Proof.
  intros (last & n & next & Hy & Hn & Hr) Hd.
  destruct (yields_delivers _ _ _ _ _ Hd Hy) as (rest & m' & -> & _ & Hl).
  destruct (delivers_read _ _ _ _ Hl Hn) as [c r s' k Hr' _ -> He _ _|e s' k Hr' _ _ _]; rewrite Hr in Hr'; [|done].
  injection Hr' as <- _. by rewrite (He eq_refl), app_nil_r.
Qed.

Section written.
  Context `{Crc32} `{BlockCipher} `{Sha256} `{Host} `{EncoderLimits} `{Encoders} {G : Type} `{Entropy G}.
  Context (io_fuel : nat) {W : Type} `{Write W} `{Seek W} (contents : W → bytes) (position : W → Z).
  Context (Hlaws : file_laws contents position) (inv : W → Prop) (Hinv : preserved inv).
  Context (encodes : EncoderKind → bytes → bytes → Prop) (Henc : encoders_spec encodes).
  Context (prepared : PreparedArchiveOptions).
  Context (Hbuffer : 0 < st_buffer_size (ao_streaming (po_archive prepared))).
#[local] Instance written_folder_write : Write (StreamingFolder W) := StreamingFolder_Write io_fuel.

(** What is written before the folder that is open. *)
Definition written_base (folders : list WrittenFolder) : bytes := replicate 32 0 ++ packed_streams folders.
Definition file_at (folders : list WrittenFolder) (w : W) (d : bytes) : Prop :=
  file_got contents position (written_base folders) w d ∧ inv w.

Lemma file_at_tracked folders : tracked (file_at folders).
Proof. apply tracked_preserved; [by apply file_tracked|exact Hinv]. Qed.

Definition state_holds (state : WriterState W) (folders : list WrittenFolder) (current : list (Z * bytes)) : Prop :=
  match state with
  | WriterReady out completed => completed = map wf_folder folders ∧ current = [] ∧
      inv out ∧ (folders ≠ [] → file_at folders out [])
  | WriterActive f completed _ => completed = map wf_folder folders ∧
      folder_holds io_fuel encodes prepared (file_at folders) current f []
  | WriterFailed => True
  end.

Record writer_holds (self : ArchiveWriter G W) (log : list Logged) (folders : list WrittenFolder)
    (current : list (Z * bytes)) : Prop := {
  wh_prepared : aw_prepared self = prepared;
  wh_entries : Forall2 entry_logged (aw_entries self) log;
  wh_items : log_items log = written_items folders ++ current;
  wh_done : Forall (λ f, folder_done encodes prepared (wf_items f) (wf_packed f) (wf_folder f)) folders;
  wh_state : state_holds (aw_state self) folders current
}.

Lemma holds_new out c : inv out → writer_holds (ArchiveWriter_new_prepared out prepared c) [] [] [].
Proof. by split. Qed.

Lemma holds_check self log folders current r self' :
  writer_holds self log folders current → ArchiveWriter_check self = (r, self') →
  writer_holds self' log folders current ∧ aw_state self' = aw_state self.
Proof.
  intros [? ? ? ? ?]. unfold ArchiveWriter_check. destruct (OperationMonitor_check _). intros [= <- <-].
  by split.
Qed.

Lemma write_at_got pos b out out' :
  0 ≤ pos → write_at io_fuel pos b out = Ok out' → at_got contents position pos (contents out) out' b.
Proof.
  intros Hp. unfold write_at. destruct (w_seek out (SeekStart pos)) as [[p|] out1] eqn:Es; [|done].
  destruct (fl_seek _ _ Hlaws _ _ _ _ Es) as [Hc Hpos].
  destruct (io_write_all io_fuel out1 b) as [[[]|] out2] eqn:Ew; [|done]. intros [= <-].
  assert (at_got contents position pos (contents out) out1 []) as Hg1.
  { split; [by right|]. rewrite Hpos, zlen_nil. lia. }
  pose proof (write_all_tracked _ (at_tracked contents position pos (contents out) Hlaws Hp) _ _ _ _ _ Hg1 Ew) as Hg.
  done.
Qed.

Lemma write_at_preserved pos b out out' : inv out → write_at io_fuel pos b out = Ok out' → inv out'.
Proof.
  intros Hi. unfold write_at. destruct (w_seek out (SeekStart pos)) as [[p|] out1] eqn:Es; [|done].
  pose proof (pr_seek _ Hinv _ _ _ _ Hi Es) as Hi1.
  destruct (io_write_all io_fuel out1 b) as [[[]|] out2] eqn:Ew; [|done]. intros [= <-].
  exact (write_all_preserved _ _ _ _ _ _ Hinv Hi1 Ew).
Qed.

(** A file of which only the start has been written. *)
Lemma write_start out out' : inv out → write_at io_fuel 0 (replicate 32 0) out = Ok out' → file_at [] out' [].
Proof.
  intros Hi Eo. split; [|by eapply write_at_preserved]. apply write_at_got in Eo; [|lia].
  unfold file_got, written_base. cbn -[replicate]. rewrite !app_nil_r. split; [|by destruct Eo as [_ ->]].
  apply (proj1 (holds_at_prefix _ _)), (at_got_holds _ _ _ _ _ _ Eo).
Qed.

Lemma holds_empty_entry self log folders current name kind meta self' :
  writer_holds self log folders current →
  ArchiveWriter_append_empty_entry self name kind meta = (Ok tt, self') →
  writer_holds self' (log ++ [{| lg_name := name; lg_kind := kind; lg_meta := meta; lg_data := None |}]) folders current.
Proof.
  intros Hh. unfold ArchiveWriter_append_empty_entry.
  destruct (ArchiveWriter_check self) as [[[]|] self1] eqn:Ec; [|done].
  destruct (holds_check _ _ _ _ _ _ Hh Ec) as [[? He Hi ? ?] _].
  destruct (ArchiveWriter_next_folder_id self1) as [id|]; [|done]. intros [= <-]. split; try done.
  - apply Forall2_app; [done|]. constructor; [|done]. by exists id.
  - by rewrite log_items_snoc, app_nil_r.
Qed.

Lemma holds_ensure self log folders current plan self' :
  writer_holds self log folders current → ArchiveWriter_ensure_streaming_folder io_fuel self plan = (Ok tt, self') →
  writer_holds self' log folders current ∧ ∃ f completed progress, aw_state self' = WriterActive f completed progress.
Proof.
  intros [Hp He Hi Hd Hs]. unfold ArchiveWriter_ensure_streaming_folder.
  destruct (aw_state self) as [output completed|f completed progress|] eqn:Est; [| |done].
  2:{ intros [= <-]. split; [by split; rewrite ?Est|]. rewrite Est. by do 3 eexists. }
  destruct Hs as (-> & -> & Hinv0 & Hf).
  destruct (if decide _ then _ else _) as [out|] eqn:Eo; [|done]. rewrite Hp.
  destruct (StreamingFolder_encoded io_fuel out _ prepared (aw_context self)) as [[f|] c] eqn:Ef; [|done].
  intros [= <-]. split; [|cbn; by do 3 eexists]. split; try done. cbn. split; [done|].
  assert (file_at folders out []) as Hg.
  { case_decide as Hnil.
    - apply map_eq_nil in Hnil as ->. by eapply write_start.
    - injection Eo as <-. apply Hf. by intros ->. }
  by eapply folder_encoded_holds; [exact Henc|apply file_at_tracked| |].
Qed.

(** The folders once the open one, if any, is completed. *)
Definition sealed (folders : list WrittenFolder) (current : list (Z * bytes)) (folders' : list WrittenFolder) : Prop :=
  folders' = folders ∧ current = [] ∨ ∃ f, folders' = folders ++ [f] ∧ wf_items f = current.

(** Completing the open folder. *)
Lemma holds_seal self log folders current self' :
  writer_holds self log folders current → ArchiveWriter_seal_streaming_folder io_fuel self = (Ok tt, self') →
  ∃ folders' out, writer_holds self' log folders' [] ∧ aw_state self' = WriterReady out (map wf_folder folders') ∧
    sealed folders current folders'.
Proof.
  intros Hh. unfold ArchiveWriter_seal_streaming_folder.
  assert (writer_holds (set_writer_state self WriterFailed) log folders current) as Hh0 by (by destruct Hh; split).
  destruct (ArchiveWriter_check (set_writer_state self WriterFailed)) as [[[]|] self1] eqn:E1; [|done].
  destruct (holds_check _ _ _ _ _ _ Hh0 E1) as [[Hp1 He1 Hi1 Hd1 _] _]. pose proof (wh_state _ _ _ _ Hh) as Hs.
  assert (∀ out folders', match ArchiveWriter_check self1 with
      | (Err e, self) => (Err e, self)
      | (Ok _, self) => (Ok tt, set_writer_state self (WriterReady out (map wf_folder folders')))
      end = (Ok tt, self') →
    log_items log = written_items folders' ++ [] →
    Forall (λ f, folder_done encodes prepared (wf_items f) (wf_packed f) (wf_folder f)) folders' →
    inv out → (folders' ≠ [] → file_at folders' out []) → sealed folders current folders' →
    ∃ folders' out, writer_holds self' log folders' [] ∧ aw_state self' = WriterReady out (map wf_folder folders') ∧
      sealed folders current folders') as Hend.
  { intros out folders'. destruct (ArchiveWriter_check self1) as [[[]|] self2] eqn:E2; [|done]. intros [= <-] Hi' Hd' Ho' Hf' Hsealed.
    unfold ArchiveWriter_check in E2. destruct (OperationMonitor_check _). injection E2 as _ <-.
    exists folders', out. split; [by split|done]. }
  destruct (aw_state self) as [out completed|f completed progress|] eqn:Est; [| |done].
  - destruct Hs as (-> & -> & Ho & Hf). intros Hr. by apply (Hend out folders); [..|left].
  - destruct Hs as (-> & Hf). rewrite Hp1.
    destruct (StreamingFolder_complete io_fuel f prepared) as [[cw cf]|] eqn:Ecf; [|done].
    destruct (complete_done io_fuel encodes prepared (file_at folders) (file_at_tracked _) _ _ _ _ Hf Ecf)
      as (packed & Hdone & Hg & _). intros Hr.
    apply (Hend (cw_inner cw) (folders ++ [{| wf_items := current; wf_packed := packed; wf_folder := cf |}])).
    + rewrite map_app. exact Hr.
    + rewrite Hi1. unfold written_items. rewrite map_app, concat_app. cbn. by rewrite !app_nil_r.
    + apply Forall_app. split; [done|]. by constructor.
    + by destruct Hg.
    + intros _. unfold file_at, file_got, written_base, packed_streams in Hg |- *.
      rewrite map_app, concat_app. cbn [map concat wf_packed]. by rewrite !app_nil_r, app_assoc.
    + right. by eexists.
Qed.

Section reading.
  Context {S : Type} `{Reader S}.

Lemma monitor_read_reads (m m' : OperationMonitor) (reader reader' : S) buffer chunk :
  0 < buffer → OperationMonitor_read m reader buffer = (Ok chunk, m', reader') →
  ∃ n, 0 < n ∧ reader_read reader n = (Ok chunk, reader').
Proof.
  intros Hb Er. unfold OperationMonitor_read in Er. destruct (OperationMonitor_check m) as [[|] m1]; [|done].
  set (n := OperationMonitor_buffer_size m1 _) in Er. exists n. split.
  - unfold n, OperationMonitor_buffer_size, CHECK_INTERVAL. destruct (om_control m1); lia.
  - destruct (reader_read reader n) as [[ch|] rd1]; [|done]. destruct (OperationMonitor_advance _ _) as [[|] ?]; [|done].
    by injection Er as <- _ <-.
Qed.

Lemma holds_read self log folders current reader r self' reader' :
  writer_holds self log folders current → ArchiveWriter_read self reader = (r, self', reader') →
  writer_holds self' log folders current ∧ aw_state self' = aw_state self ∧ aw_entries self' = aw_entries self ∧
  ∀ chunk, r = Ok chunk → ∃ n, 0 < n ∧ reader_read reader n = (Ok chunk, reader').
Proof.
  intros [Hp ? ? ? ?]. unfold ArchiveWriter_read. rewrite Hp.
  destruct (OperationMonitor_read _ reader _) as [[c m] rd] eqn:Er. intros [= <- <- <-].
  split_and!; [by split|done|done|]. intros chunk ->. by eapply monitor_read_reads.
Qed.

Lemma append_chunks_spec fuel self log folders current reader chunk seen size out self' f completed progress :
  writer_holds (set_writer_state self WriterFailed) log folders current →
  aw_state self = WriterActive f completed progress → completed = map wf_folder folders →
  folder_holds io_fuel encodes prepared (file_at folders) current f seen → size = zlen seen →
  append_chunks io_fuel fuel self reader chunk seen size = (Ok out, self') →
  ∃ f' rest, out = (seen ++ chunk ++ rest, zlen (seen ++ chunk ++ rest)) ∧ reads_all reader rest ∧
    aw_state self' = WriterActive f' completed progress ∧
    writer_holds (set_writer_state self' WriterFailed) log folders current ∧
    folder_holds io_fuel encodes prepared (file_at folders) current f' (seen ++ chunk ++ rest).
Proof.
  revert self reader chunk seen size f. induction fuel as [|fuel IH]; intros self reader chunk seen size f Hh Hst Hc Hf Hsz;
    cbn [append_chunks]; [done|].
  unfold active_folder. rewrite Hst. destruct (io_write_all io_fuel f chunk) as [[[]|] f1] eqn:Ew; [|done].
  pose proof (write_all_tracked _ (folder_holds_tracked io_fuel encodes prepared _ (file_at_tracked _) current)
    _ _ _ _ _ Hf Ew) as Hf1.
  unfold set_active_folder. rewrite Hst. set (self1 := set_writer_state self _).
  destruct (checked_add size (zlen chunk)) as [size1|] eqn:Ea; [|done]. apply checked_add_some in Ea.
  destruct (ArchiveWriter_read self1 reader) as [[[next|] self2] reader2] eqn:Er; [|done].
  assert (writer_holds (set_writer_state self1 WriterFailed) log folders current) as Hh1 by exact Hh.
  assert (aw_state self2 = WriterActive f1 completed progress ∧
    writer_holds (set_writer_state self2 WriterFailed) log folders current ∧
    ∃ n, 0 < n ∧ reader_read reader n = (Ok next, reader2)) as (Hst2 & Hh2 & n & Hn & Hread).
  { assert (ArchiveWriter_read (set_writer_state self1 WriterFailed) reader =
      (Ok next, set_writer_state self2 WriterFailed, reader2)) as Er'.
    { unfold ArchiveWriter_read in Er |- *. cbn in Er |- *. destruct (OperationMonitor_read _ _ _) as [[c m] rd].
      by injection Er as -> <- <-. }
    destruct (holds_read _ _ _ _ _ _ _ _ Hh1 Er') as (? & _ & _ & Hx). split_and!; [|done|by apply Hx].
    unfold ArchiveWriter_read in Er. destruct (OperationMonitor_read _ _ _) as [[c m] rd]. by injection Er as _ <- _. }
  assert (size1 = zlen (seen ++ chunk)) as Hsz1 by (rewrite zlen_app; lia).
  destruct next as [|b next].
  - intros [= <- <-]. exists f1, []. rewrite !app_nil_r. split_and!; try done.
    + by rewrite Hsz1.
    + exists reader, n, reader2. split_and!; [constructor|done|done].
  - intros Hrec. destruct (IH _ _ _ _ _ _ Hh2 Hst2 Hc Hf1 Hsz1 Hrec) as (f' & rest & -> & Hrest & ? & ? & Hf').
    exists f', ((b :: next) ++ rest). rewrite <- !app_assoc in *. split_and!; try done.
    destruct Hrest as (last & k & end_ & Hy & ? & ?). exists last, k, end_. split_and!; try done.
    exact (yields_some reader n (b :: next) reader2 rest last Hn Hread Hy).
Qed.

(** The entry of a stream, and its data in the open folder. *)
Lemma holds_push self log folders current name meta d f completed progress self' :
  writer_holds (set_writer_state self WriterFailed) log folders current →
  aw_state self = WriterActive f completed progress → completed = map wf_folder folders →
  folder_holds io_fuel encodes prepared (file_at folders) current f d →
  push_stream self name meta (zlen d) (crc32 d) = (Ok tt, self') →
  writer_holds self' (log ++ [{| lg_name := name; lg_kind := WriteFile; lg_meta := meta; lg_data := Some d |}])
    folders (current ++ [(zlen log, d)]).
Proof.
  intros [Hp He Hi Hd _] Hst -> Hf. cbn in Hp, He. unfold push_stream, ArchiveWriter_next_folder_id. rewrite Hst.
  unfold ArchiveWriter_record_stream, active_folder. cbn [push_entry aw_state]. rewrite Hst.
  destruct (StreamingFolder_record_stream f _ _ _) as [f'|] eqn:Er; [|done]. intros [= <-].
  assert (zlen (aw_entries self) = zlen log) as Hlen by (unfold zlen; by rewrite (Forall2_length _ _ _ He)).
  rewrite Hlen in Er. unfold set_active_folder. cbn [push_entry aw_state]. rewrite Hst. split; try done; cbn.
  - apply Forall2_app; [done|]. constructor; [|done]. by exists (zlen (map wf_folder folders)).
  - rewrite log_items_snoc, Hi. cbn. by rewrite app_assoc.
  - split; [done|]. by eapply record_stream_holds.
Qed.

Lemma holds_accounting self log folders current size self' :
  writer_holds self log folders current →
  ArchiveWriter_finish_entry_folder_accounting io_fuel self size = (Ok tt, self') →
  ∃ folders' current', writer_holds self' log folders' current'.
Proof.
  intros [Hp He Hi Hd Hs]. unfold ArchiveWriter_finish_entry_folder_accounting.
  destruct (aw_state self) as [|f completed progress|] eqn:Est; [done| |done].
  destruct (FolderProgress_record progress size) as [progress'|]; [|done].
  assert (writer_holds (set_writer_state self (WriterActive f completed progress')) log folders current) as Hh
    by by split.
  destruct (FolderProgress_reached_limit _ _).
  - intros Hseal. destruct (holds_seal _ _ _ _ _ Hh Hseal) as (folders' & out & ? & _). by exists folders', [].
  - intros [= <-]. by exists folders, current.
Qed.

Lemma holds_failed self log folders current :
  writer_holds self log folders current → writer_holds (set_writer_state self WriterFailed) log folders current.
Proof. intros []. by split. Qed.

(** The data an entry is recorded with: an empty file has no stream unless its folder was
    planned. *)
Definition recorded_data (plan : FolderPlan) (d : bytes) : option bytes :=
  if decide (plan = Automatic ∧ d = []) then None else Some d.

Lemma holds_append_streaming self log folders current name reader meta plan self' :
  writer_holds self log folders current →
  ArchiveWriter_append_streaming io_fuel self name reader meta plan = (Ok tt, self') →
  ∃ d folders' current', reads_all reader d ∧
    writer_holds self' (log ++ [{| lg_name := name; lg_kind := WriteFile; lg_meta := meta;
                                   lg_data := recorded_data plan d |}]) folders' current' ∧
    (plan ≠ Automatic → folders' = folders ∧ current' = current ++ [(zlen log, d)]).
Proof.
  intros Hh. unfold ArchiveWriter_append_streaming.
  destruct (ArchiveWriter_read self reader) as [[[first|] self1] reader1] eqn:Er; [|done].
  destruct (holds_read _ _ _ _ _ _ _ _ Hh Er) as (Hh1 & _ & _ & Hn). destruct (Hn first eq_refl) as (n & Hn0 & Hread).
  destruct first as [|b first].
  - assert (reads_all reader []) as Hnil by (exists reader, n, reader1; by split_and!; [constructor| |]).
    destruct plan as [|size].
    + destruct (ArchiveWriter_next_folder_id self1) as [id|]; [|done]. intros [= <-]. exists [], folders, current. split; [done|].
      split; [|done]. destruct Hh1 as [? He Hi ? ?]. split; try done; cbn.
      * apply Forall2_app; [done|]. constructor; [|done]. by exists id.
      * by rewrite log_items_snoc, app_nil_r.
    + destruct (ArchiveWriter_ensure_streaming_folder io_fuel self1 (Preplanned size)) as [[[]|] self2] eqn:Ee; [|done].
      destruct (holds_ensure _ _ _ _ _ _ Hh1 Ee) as (Hh2 & f & completed & progress & Hst).
      pose proof (wh_state _ _ _ _ Hh2) as Hs. rewrite Hst in Hs. destruct Hs as [Hc Hf]. intros Hr.
      exists [], folders, (current ++ [(zlen log, [])]). split; [done|].
      split; [|done]. by apply (holds_push self2 log folders current name meta [] f completed progress self' (holds_failed _ _ _ _ Hh2) Hst Hc Hf).
  - destruct (ArchiveWriter_ensure_streaming_folder io_fuel self1 plan) as [[[]|] self2] eqn:Ee; [|done].
    destruct (holds_ensure _ _ _ _ _ _ Hh1 Ee) as (Hh2 & f & completed & progress & Hst).
    pose proof (wh_state _ _ _ _ Hh2) as Hs. rewrite Hst in Hs. destruct Hs as [Hc Hf].
    destruct (append_chunks io_fuel io_fuel self2 reader1 (b :: first) [] 0) as [[[seen size]|] self3] eqn:Ea; [|done].
    destruct (append_chunks_spec _ _ _ _ _ _ _ _ _ _ _ _ _ _ (holds_failed _ _ _ _ Hh2) Hst Hc Hf eq_refl Ea)
      as (f' & rest & [= -> ->] & (last & k & end_ & Hy & Hk & Hend) & Hst' & Hh3 & Hf').
    destruct (push_stream self3 name meta _ _) as [[[]|] self4] eqn:Ep; [|done].
    pose proof (holds_push _ _ _ _ _ _ _ _ _ _ _ Hh3 Hst' Hc Hf' Ep) as Hh4.
    assert (reads_all reader ((b :: first) ++ rest)) as Hall.
    { exists last, k, end_. split_and!; [|done|done]. exact (yields_some reader n _ reader1 rest last Hn0 Hread Hy). }
    intros Hr. exists ((b :: first) ++ rest).
    assert (recorded_data plan ((b :: first) ++ rest) = Some ((b :: first) ++ rest)) as ->.
    { unfold recorded_data. rewrite decide_False; [done|]. by intros [_ ?]. }
    destruct plan.
    + by destruct (holds_accounting _ _ _ _ _ _ Hh4 Hr) as (folders' & current' & ?); exists folders', current'.
    + injection Hr as <-. by exists folders, (current ++ [(zlen log, (b :: first) ++ rest)]).
Qed.

Lemma holds_append_file self log folders current name reader meta self' :
  writer_holds self log folders current →
  ArchiveWriter_append_file io_fuel self name reader meta = (Ok tt, self') →
  ∃ d folders' current', reads_all reader d ∧
    writer_holds self' (log ++ [{| lg_name := name; lg_kind := WriteFile; lg_meta := meta;
                                   lg_data := recorded_data Automatic d |}]) folders' current'.
Proof.
  intros Hh. unfold ArchiveWriter_append_file.
  destruct (match aw_state self with WriterFailed => _ | _ => _ end) as [[[]|] self1] eqn:Ea; [|done]. intros [= <-].
  destruct (aw_state self); [..|done];
    by destruct (holds_append_streaming _ _ _ _ _ _ _ _ _ Hh Ea) as (d & folders' & current' & ? & ? & _); exists d, folders', current'.
Qed.

End reading.

(** ** The end of the archive *)

(** A header compressed, and encrypted when the options say so. *)
Definition header_material (aes : option AesMaterial) : Prop :=
  match PreparedArchiveOptions_encryption prepared, aes with
  | Some encryption, Some m => eo_encrypt_header (pe_options encryption) = true ∧ material_of encryption m
  | Some encryption, None => eo_encrypt_header (pe_options encryption) = false
  | None, None => True
  | None, Some _ => False
  end.

Definition header_encoded (raw : bytes) (e : EncodedHeaderBytes) : Prop :=
  let options := lzma_with_preset 6 in
  let props := [lzma_props_byte options] ++ to_le_bytes 4 (lz_dict_size options) in
  ∃ compressed aes, encodes (CheckedKind (EncodeLzma options)) raw compressed ∧ header_material aes ∧
    e = {| eh_packed := packed_of aes compressed;
           eh_coder_info := match aes with
                            | None => encode_coder_info_lzma props
                            | Some m => encode_coder_info_aes_then [SpecLzma props] (am_props m) end;
           eh_unpack_sizes := match aes with None => [] | Some _ => [zlen compressed] end ++ [zlen raw] |}.

(** The header a reader meets first, and the packed stream it may describe. *)
Definition next_header_of (entries : list WriteEntry) (folders : list WrittenFolder) (packed_header next_header : bytes) : Prop :=
  let raw := build_header entries (map wf_folder folders) in
  if should_encode_header (po_archive prepared) entries then
    ∃ e, header_encoded raw e ∧ packed_header = eh_packed e ∧
      next_header = build_encoded_header_descriptor (zlen (packed_streams folders)) (zlen packed_header)
                      (eh_coder_info e) (eh_unpack_sizes e)
  else packed_header = [] ∧ next_header = raw.

Definition archive_layout (data : bytes) (entries : list WriteEntry) (folders : list WrittenFolder) : Prop :=
  ∃ packed_header next_header, next_header_of entries folders packed_header next_header ∧
    holds_at 0 (signature_bytes (zlen (packed_streams folders ++ packed_header)) next_header ++
                packed_streams folders ++ packed_header ++ next_header) data.

Lemma vec_tracked : tracked (λ v d : bytes, v = d).
Proof.
  split; [|done|by intros ? ? ? -> [= <-]]. intros w d b n w' ->. cbn. intros [= <- <-]. unfold zlen.
  rewrite Nat2Z.id, firstn_all. split; [lia|done].
Qed.

Lemma compress_lzma_spec data props compressed :
  compress_lzma io_fuel data = Ok (props, compressed) →
  encodes (CheckedKind (EncodeLzma (lzma_with_preset 6))) data compressed ∧
  props = [lzma_props_byte (lzma_with_preset 6)] ++ to_le_bytes 4 (lz_dict_size (lzma_with_preset 6)).
Proof.
  destruct (Henc bytes _ _ vec_tracked) as (J & HJ). unfold compress_lzma.
  destruct (encoder_try_new _ _) as [e|] eqn:En; [|done]. cbn [map_err].
  pose proof (eb_try_new _ _ _ HJ _ [] [] _ eq_refl En) as He.
  destruct (io_write_all io_fuel e data) as [[[]|] e1] eqn:Ew; [|done]. cbn [map_err].
  pose proof (write_all_tracked _ (eb_tracked _ _ _ HJ _ []) _ _ _ _ _ He Ew) as He1. cbn in He1.
  destruct (encoder_finish e1) as [out|] eqn:Ef; [|done]. intros [= <- <-].
  split; [|by rewrite (eb_props _ _ _ HJ _ _ _ _ He1)].
  by destruct (eb_finish _ _ _ HJ _ _ _ _ _ He1 Ef) as (stream & ? & ->).
Qed.

Lemma encode_header_stream_spec raw (c : WriterContext G) e c' :
  encode_header_stream io_fuel raw prepared c = (Ok e, c') → header_encoded raw e.
Proof.
  unfold encode_header_stream. destruct (compress_lzma io_fuel raw) as [[props compressed]|] eqn:Ec; [|done].
  apply compress_lzma_spec in Ec as [? ->]. unfold header_encoded, header_material.
  destruct (PreparedArchiveOptions_encryption prepared) as [encryption|].
  - destruct (eo_encrypt_header (pe_options encryption)).
    + destruct (make_aes_material encryption c) as [[m|] c1] eqn:Em; [|done]. intros [= <- _].
      exists compressed, (Some m). split_and!; try done. by eapply make_aes_material_spec.
    + intros [= <- _]. by exists compressed, None.
  - intros [= <- _]. by exists compressed, None.
Qed.

(** The packed sizes of a folder are those of its packed streams. *)
Definition packed_sized (f : WrittenFolder) : Prop :=
  ∃ streams : list bytes, cf_pack_sizes (wf_folder f) = map zlen streams ∧ wf_packed f = concat streams.

Lemma folder_done_sized f :
  folder_done encodes prepared (wf_items f) (wf_packed f) (wf_folder f) → packed_sized f.
Proof.
  intros (aes & stream & info & specs & _ & _ & _ & _ & Hf). exists [wf_packed f]. rewrite Hf. split; [done|].
  cbn. by rewrite app_nil_r.
Qed.

Lemma checked_sum_spec (streams : list bytes) total : checked_sum (map zlen streams) = Ok total → total = zlen (concat streams).
Proof.
  assert (∀ l acc tot, try_fold (λ acc size, ok_or (checked_add acc size) Parse) acc (map zlen l) = Ok tot →
    tot = acc + zlen (concat (l : list bytes))) as Hfold.
  { induction l as [|b l IH]; intros acc tot; cbn.
    - intros [= <-]. rewrite zlen_nil. lia.
    - destruct (checked_add acc (zlen b)) as [z|] eqn:Ez; [|done]. cbn. apply checked_add_some in Ez as ->.
      intros Hr%IH. rewrite zlen_app. lia. }
  intros Hr. by apply (Hfold _ 0) in Hr.
Qed.

Lemma packed_total_spec folders total :
  Forall packed_sized folders → packed_total (map wf_folder folders) = Ok total → total = zlen (packed_streams folders).
Proof.
  assert (∀ fs acc total, Forall packed_sized fs →
    try_fold (λ acc folder, let? size := checked_sum (cf_pack_sizes folder) in ok_or (checked_add acc size) Parse) acc
      (map wf_folder fs) = Ok total → total = acc + zlen (packed_streams fs)) as Hfold.
  { induction fs as [|f fs IH]; intros acc tot Hd; cbn.
    - intros [= <-]. rewrite zlen_nil. lia.
    - apply Forall_cons in Hd as [(streams & Hs & Hp) Hd]. rewrite Hs.
      destruct (checked_sum (map zlen streams)) as [z|] eqn:Ez; [|done]. apply checked_sum_spec in Ez as ->.
      destruct (checked_add acc _) as [z|] eqn:Ez; [|done]. cbn. apply checked_add_some in Ez as ->.
      intros Hr%IH; [|done]. unfold packed_streams in *. cbn. rewrite zlen_app, Hp. lia. }
  intros Hd Hr. by apply (Hfold _ 0) in Hr.
Qed.

Lemma add_or_panic_ok a b r : add_or_panic a b = Ok r → r = a + b.
Proof.
  unfold add_or_panic. destruct (checked_add a b) eqn:Ea; [|done]. intros [= <-]. by apply checked_add_some in Ea.
Qed.

Lemma holds_at_suffix a b data : holds_at 0 (a ++ b) data → holds_at (zlen a) b data.
Proof.
  intros Hd. apply (proj1 (holds_at_prefix _ _)) in Hd. unfold holds_at, zlen. rewrite length_app in Hd.
  by rewrite Nat2Z.id, take_drop_commute, Hd, drop_app_length.
Qed.

(** The parts of an archive are written from the last to the first, over what is there. *)
Lemma write_parts pos offset packed encoded next signature out1 out2 out3 :
  0 ≤ pos → zlen signature = pos → offset = pos + zlen packed + zlen encoded → holds_at pos (packed ++ encoded) (contents out1) →
  at_got contents position offset (contents out1) out2 next →
  at_got contents position 0 (contents out2) out3 signature →
  holds_at 0 (signature ++ packed ++ encoded ++ next) (contents out3).
Proof.
  intros Hp Hs -> H1' H2' H3'. pose proof (zlen_nonneg packed). pose proof (zlen_nonneg encoded).
  assert (holds_at pos (packed ++ encoded) (contents out3)) as Ha.
  { eapply at_got_later; [exact H3'|lia|lia|]. eapply at_got_earlier; [exact H2'|lia|rewrite zlen_app; lia|done]. }
  assert (holds_at (pos + zlen packed + zlen encoded) next (contents out3)) as Hc.
  { eapply at_got_later; [exact H3'|lia|lia|]. by eapply at_got_holds. }
  apply holds_at_app; [lia|by eapply at_got_holds|]. rewrite Hs, Z.add_0_l, app_assoc.
  apply holds_at_app; [lia|done|]. by rewrite zlen_app, Z.add_assoc.
Qed.

Lemma finish_streamed_layout out entries folders (c : WriterContext G) out' :
  Forall packed_sized folders → inv out →
  (folders ≠ [] → file_at folders out []) →
  finish_streamed_archive io_fuel out entries (map wf_folder folders) prepared c = Ok out' →
  archive_layout (contents out') entries folders ∧ inv out'.
Proof.
  intros Hd Ho Hf. unfold finish_streamed_archive. destruct (OperationMonitor_check _) as [[[]|] m]; [|done].
  destruct (packed_total _) as [total|] eqn:Et; [|done]. apply packed_total_spec in Et as ->; [|done].
  set (raw := build_header entries (map wf_folder folders)).
  assert (holds_at 32 (packed_streams folders) (contents out)) as Hpacked.
  { destruct (decide (folders = [])) as [->|Hne]; [by apply holds_at_nil|]. destruct (Hf Hne) as [[Ht _] _].
    rewrite app_nil_r in Ht. apply (proj2 (holds_at_prefix _ _)) in Ht. exact (holds_at_suffix (replicate 32 0) _ _ Ht). }
  destruct (if should_encode_header _ _ then _ else _) as [[[[out1 next] offset] c1]|] eqn:Eh; [|done].
  assert (∃ encoded, next_header_of entries folders encoded next ∧
    offset = zlen (packed_streams folders) + zlen encoded ∧
    holds_at 32 (packed_streams folders ++ encoded) (contents out1) ∧ inv out1) as (encoded & Hnext & -> & H1' & Ho1).
  { unfold next_header_of. pose proof (zlen_nonneg (packed_streams folders)). destruct (should_encode_header _ _).
    - destruct (encode_header_stream io_fuel raw prepared _) as [[e|] c2] eqn:Ee; [|done].
      apply encode_header_stream_spec in Ee.
      destruct (add_or_panic 32 _) as [pos|] eqn:Epos; [|done]. apply add_or_panic_ok in Epos as ->.
      destruct (write_at io_fuel _ _ out) as [out2|] eqn:Ew; [|done].
      pose proof (write_at_preserved _ _ _ _ Ho Ew). apply write_at_got in Ew; [|lia].
      destruct (add_or_panic _ _) as [off|] eqn:Eoff; [|done]. apply add_or_panic_ok in Eoff as ->. injection Eh as <- <- <- _.
      exists (eh_packed e). split_and!; [by exists e|done| |done]. apply holds_at_app; [lia| |by eapply at_got_holds].
      eapply at_got_earlier; [exact Ew|lia|lia|done].
    - injection Eh as <- <- <- _. exists []. rewrite zlen_nil, app_nil_r. split_and!; try done. lia. }
  clear Eh. destruct (add_or_panic 32 _) as [pos|] eqn:Epos; [|done]. apply add_or_panic_ok in Epos as ->.
  pose proof (zlen_nonneg (packed_streams folders)). pose proof (zlen_nonneg encoded).
  destruct (write_at io_fuel _ next out1) as [out2|] eqn:E2; [|done]. pose proof (write_at_preserved _ _ _ _ Ho1 E2) as Ho2. apply write_at_got in E2; [|lia].
  destruct (write_at io_fuel 0 _ out2) as [out3|] eqn:E3; [|done]. pose proof (write_at_preserved _ _ _ _ Ho2 E3) as Ho3. apply write_at_got in E3; [|lia].
  destruct (w_flush out3) as [[[]|] out4] eqn:E4; [|done]. cbn [map_err].
  destruct (OperationMonitor_check _) as [[[]|] ?]; [|done]. intros [= <-].
  split; [|by eapply pr_flush]. exists encoded, next. split; [done|]. rewrite zlen_app, (proj1 (fl_flush _ _ Hlaws _ _ E4)).
  eapply (write_parts 32); [lia|done| |exact H1'|exact E2|exact E3]. lia.
Qed.

(** What a writer that finished leaves. *)
Lemma holds_finish self log folders current out :
  writer_holds self log folders current → ArchiveWriter_finish io_fuel self = Ok out →
  ∃ folders' entries, Forall2 entry_logged entries log ∧ log_items log = written_items folders' ∧
    Forall (λ f, folder_done encodes prepared (wf_items f) (wf_packed f) (wf_folder f)) folders' ∧
    archive_layout (contents out) entries folders' ∧ sealed folders current folders' ∧ inv out.
Proof.
  intros Hh. unfold ArchiveWriter_finish. destruct (ArchiveWriter_check self) as [[[]|] self1] eqn:E1; [|done].
  destruct (holds_check _ _ _ _ _ _ Hh E1) as [Hh1 _].
  destruct (ArchiveWriter_seal_streaming_folder io_fuel self1) as [[[]|] self2] eqn:Es; [|by destruct (aw_state self1)].
  destruct (holds_seal _ _ _ _ _ Hh1 Es) as (folders' & out2 & [Hp He Hi Hd Hs] & Hst & Hsealed). rewrite Hst in Hs |- *.
  destruct Hs as (_ & _ & Ho & Hf). rewrite Hp, app_nil_r in *. intros Hr.
  assert (finish_streamed_archive io_fuel out2 (aw_entries self2) (map wf_folder folders') prepared (aw_context self2) = Ok out) as Hfin
    by (by destruct (aw_state self1)).
  destruct (finish_streamed_layout _ _ _ _ _ ltac:(eapply Forall_impl; [exact Hd|]; apply folder_done_sized) Ho Hf Hfin).
  by exists folders', (aw_entries self2).
Qed.

End written.
