(* ===== verification/WrittenArchive.v ===== *)
(** * A written archive, from its first operation to its reopening

    A run of the archive writer's operations followed by [finish], what it leaves in the
    output, and that the reader of this crate opens it. *)

From stdpp Require Import base numbers list option strings gmap.
From Stdlib Require Import ZArith Lia.
From S2P Require Import Prelude Folder Error Operation Readers Resources Aes DecoderPlan FolderDecode DecoderRun Headers Archive Listing WriteHeader WriteOptions Writers Lzma2Encoder WriteFolders StreamingFolder FolderWriting ArchiveWriter ArchiveWritten.

(** ** Runs *)

(** The operations that add to an archive. *)
Inductive WriteOp (S : Type) :=
| OpEmpty (name : list Z) (kind : WriteEntryKind) (meta : EntryMeta)
| OpFile (name : list Z) (meta : EntryMeta) (reader : S)
| OpArchiveEntry (name : list Z) (kind : WriteEntryKind) (meta : EntryMeta) (reader : S)
| OpFolder.
Arguments OpEmpty {S}. Arguments OpFile {S}. Arguments OpArchiveEntry {S}. Arguments OpFolder {S}.

(** The entries they record. *)
Definition file_logged {S} `{Reader S} (name : list Z) (meta : EntryMeta) (reader : S) (l : Logged) : Prop :=
  ∃ d, reads_all reader d ∧
    l = {| lg_name := name; lg_kind := WriteFile; lg_meta := meta; lg_data := recorded_data Automatic d |}.

Fixpoint ops_log {S} `{Reader S} (ops : list (WriteOp S)) (log : list Logged) : Prop :=
  match ops with
  | [] => log = []
  | OpFolder :: ops => ops_log ops log
  | OpEmpty name kind meta :: ops => ∃ rest, ops_log ops rest ∧
      log = {| lg_name := name; lg_kind := kind; lg_meta := meta; lg_data := None |} :: rest
  | OpFile name meta reader :: ops | OpArchiveEntry name _ meta reader :: ops =>
      ∃ l rest, file_logged name meta reader l ∧ ops_log ops rest ∧ log = l :: rest
  end.

Section runs.
  Context `{Crc32} `{BlockCipher} `{Sha256} `{Host} `{EncoderLimits} `{Encoders} {G : Type} `{Entropy G}.
  Context (io_fuel : nat) {W : Type} `{Write W} `{Seek W} {S : Type} `{Reader S}.

Definition run_op (self : ArchiveWriter G W) (op : WriteOp S) : result unit R7zError * ArchiveWriter G W :=
  match op with
  | OpEmpty name kind meta => ArchiveWriter_append_empty_entry self name kind meta
  | OpFile name meta reader => ArchiveWriter_append_file io_fuel self name reader meta
  | OpArchiveEntry name kind meta reader => ArchiveWriter_append_archive_entry io_fuel self name kind meta reader
  | OpFolder => ArchiveWriter_new_folder io_fuel self
  end.

Fixpoint run_ops (self : ArchiveWriter G W) (ops : list (WriteOp S)) : result unit R7zError * ArchiveWriter G W :=
  match ops with
  | [] => (Ok tt, self)
  | op :: ops =>
      match run_op self op with
      | (Err e, self) => (Err e, self)
      | (Ok _, self) => run_ops self ops
      end
  end.

Definition write_archive (out : W) (prepared : PreparedArchiveOptions) (c : WriterContext G) (ops : list (WriteOp S)) :
    result W R7zError :=
  let '(ran, writer) := run_ops (ArchiveWriter_new_prepared out prepared c) ops in
  let? _ := ran in ArchiveWriter_finish io_fuel writer.

Context (contents : W → bytes) (position : W → Z) (Hlaws : file_laws contents position).
Context (encodes : EncoderKind → bytes → bytes → Prop) (Henc : encoders_spec encodes).
Context (prepared : PreparedArchiveOptions) (Hbuffer : 0 < st_buffer_size (ao_streaming (po_archive prepared))).
Let holds inv := writer_holds (G := G) io_fuel contents position inv encodes prepared.

Lemma holds_ops inv (Hinv : preserved inv) ops self log folders current self' :
  holds inv self log folders current → run_ops self ops = (Ok tt, self') →
  ∃ log' folders' current', ops_log ops log' ∧ holds inv self' (log ++ log') folders' current'.
Proof.
  revert self log folders current. induction ops as [|op ops IH]; intros self log folders current Hh; cbn [run_ops].
  { intros [= <-]. exists [], folders, current. by rewrite app_nil_r. }
  destruct (run_op self op) as [[[]|] self1] eqn:Eo; [|done]. intros Hr.
  assert (∀ name meta reader, ArchiveWriter_append_file io_fuel self name reader meta = (Ok tt, self1) →
    ∃ log' folders' current', (∃ l rest, file_logged name meta reader l ∧ ops_log ops rest ∧ log' = l :: rest) ∧
      holds inv self' (log ++ log') folders' current') as Hfile.
  { intros name meta reader Ha.
    destruct (holds_append_file io_fuel contents position Hlaws inv Hinv encodes Henc prepared Hbuffer _ _ _ _ _ _ _ _ Hh Ha)
      as (d & folders1 & current1 & Hd & Hh1).
    destruct (IH _ _ _ _ Hh1 Hr) as (rest & folders' & current' & Hrest & Hh').
    eexists (_ :: rest), folders', current'. split; [by eexists _, rest; split_and!; [exists d|..]|].
    by rewrite <- app_assoc in Hh'. }
  destruct op as [name kind meta|name meta reader|name kind meta reader|]; cbn [run_op ops_log] in *.
  - pose proof (holds_empty_entry io_fuel contents position inv encodes prepared _ _ _ _ _ _ _ _ Hh Eo) as Hh1.
    destruct (IH _ _ _ _ Hh1 Hr) as (rest & folders' & current' & Hrest & Hh').
    eexists (_ :: rest), folders', current'. split; [by eexists rest|]. by rewrite <- app_assoc in Hh'.
  - by apply Hfile.
  - unfold ArchiveWriter_append_archive_entry in Eo. case_decide; [done|]. by apply Hfile.
  - destruct (holds_seal io_fuel contents position Hlaws inv Hinv encodes prepared _ _ _ _ _ Hh Eo) as (folders1 & out & Hh1 & _).
    by destruct (IH _ _ _ _ Hh1 Hr) as (rest & folders' & current' & Hrest & Hh'); exists rest, folders', current'.
Qed.

(** C2. An archive whose operations and [finish] all succeed holds: its signature header, the packed
    streams of its folders one after the other, the packed header if the options ask for one, and the
    header. Each entry of the header is one the operations added, in their order; every byte of
    their readers is in the data of exactly one folder, in order; and every folder's packed
    stream is the encoding of its data with the chosen codec, encrypted if the archive is, as
    its description says. *)
Theorem written_archive_layout out c ops out' :
  write_archive out prepared c ops = Ok out' →
  ∃ log folders entries, ops_log ops log ∧ Forall2 entry_logged entries log ∧
    log_items log = written_items folders ∧
    Forall (λ f, folder_done encodes prepared (wf_items f) (wf_packed f) (wf_folder f)) folders ∧
    archive_layout encodes prepared (contents out') entries folders.
Proof.
  unfold write_archive. destruct (run_ops _ ops) as [[[]|] writer] eqn:Er; [|done]. intros Hf.
  destruct (holds_ops (λ _, True) preserved_true ops (ArchiveWriter_new_prepared out prepared c) [] [] [] writer) as (log & folders & current & Hlog & Hh); [by apply holds_new|done|].
  destruct (holds_finish io_fuel contents position Hlaws (λ _, True) preserved_true encodes Henc prepared _ _ _ _ _ Hh Hf)
    as (folders' & entries & He & Hi & Hd & Hl & _).
  by exists log, folders', entries.
Qed.

End runs.

(** ** Witnesses *)

(** Encoders that store what they are given. *)
Record StoringEncoder (W : Type) := { se_kind : EncoderKind; se_writer : W }.
Arguments se_kind {W}. Arguments se_writer {W}.
Definition store {W} (e : StoringEncoder W) (w : W) : StoringEncoder W := {| se_kind := se_kind e; se_writer := w |}.

Definition storing_encoders : Encoders := {|
  encoder := StoringEncoder;
  encoder_Write := λ W _, {|
    w_write := λ e b, let '(res, w) := w_write (se_writer e) b in (res, store e w);
    w_flush := λ e, let '(res, w) := w_flush (se_writer e) in (res, store e w) |};
  encoder_new := λ W _ k w, {| se_kind := PlainKind k; se_writer := w |};
  encoder_try_new := λ W _ k w, Ok {| se_kind := CheckedKind k; se_writer := w |};
  encoder_props := λ W _ e, match se_kind e with CheckedKind (EncodeLzma o) => lzma_props_byte o | _ => 0 end;
  encoder_set_cancellation := λ W _ _ e, (Ok tt, e);
  encoder_finish := λ W _ e, Ok (se_writer e)
|}.

Lemma storing_encoders_spec : @encoders_spec storing_encoders (λ _ data stream, stream = data).
Proof.
  intros W write got Hgot. exists (λ k e base data, se_kind e = k ∧ got (se_writer e) (base ++ data)). split; cbn.
  - intros k w d Hw. by rewrite app_nil_r.
  - intros k w d e Hw [= <-]. by rewrite app_nil_r.
  - intros k base. split; cbn.
    + intros e d b n e' [Hk Hw]. destruct (w_write (se_writer e) b) as [res w] eqn:Er. intros [= -> <-].
      rewrite app_assoc. by destruct (tr_write _ Hgot _ _ _ _ _ Hw Er).
    + intros e d b er e' [Hk Hw]. destruct (w_write (se_writer e) b) as [res w] eqn:Er. intros [= -> <-] Hi.
      split; [done|]. by apply (tr_interrupted _ Hgot _ _ _ _ _ Hw Er).
    + intros e d e' [Hk Hw]. destruct (w_flush (se_writer e)) as [res w] eqn:Er. intros [= -> <-].
      split; [done|]. by apply (tr_flush _ Hgot _ _ _ Hw Er).
  - by intros k e base d c e' Hw [= <-].
  - intros k e base d w [_ Hw] [= <-]. by exists d.
  - by intros o e base d [-> _].
Qed.

Definition no_entropy : Entropy unit := λ _ g, (None, g).

(** LZMA, with a header that is encoded since there is more than one entry. *)
Definition sample_options : ArchiveOptions := set_codec ArchiveOptions_default CodecLzma.

Definition sample_prepared : result PreparedArchiveOptions R7zError :=
  @prepare_archive_options sample_encoder_limits sample_options.

Definition sample_ops : list (WriteOp ScriptReader) :=
  let file data script := {| sr_data := data; sr_script := script |} in
  [OpEmpty [100] WriteDirectory EntryMeta_default;
   OpFile [97] EntryMeta_default (file [1; 2; 3] [AtMost 0]);
   OpFolder;
   OpFile [98] EntryMeta_default (file [] []);
   OpArchiveEntry [99] WriteFile EntryMeta_default (file [4; 5] [])].

Definition write_sample (prepared : PreparedArchiveOptions) (out : FileOutput) : result FileOutput R7zError :=
  @write_archive zero_crc counter_cipher flat_hash sample_host sample_encoder_limits storing_encoders unit no_entropy
    30 _ _ _ _ _ out prepared {| wc_operation := wb_operation (writer_budgets prepared); wc_entropy := tt |} sample_ops.

Lemma written_archive_layout_witness :
  ∃ prepared out' log folders, sample_prepared = Ok prepared ∧
    write_sample prepared {| fo_data := []; fo_pos := 0; fo_script := [WriteAtMost 3; WriteInterrupt] |} = Ok out' ∧
    ops_log sample_ops log ∧ log_items log = written_items folders ∧ sub_list 32 37 (fo_data out') = [1; 2; 3; 4; 5].
Proof.
  destruct sample_prepared as [prepared|] eqn:Ep; [|discriminate].
  destruct (write_sample prepared {| fo_data := []; fo_pos := 0; fo_script := [WriteAtMost 3; WriteInterrupt] |})
    as [out'|] eqn:Ew; [|exfalso; vm_compute in Ep; injection Ep as <-; vm_compute in Ew; discriminate].
  destruct (@written_archive_layout zero_crc counter_cipher flat_hash sample_host sample_encoder_limits storing_encoders
    unit no_entropy 30 FileOutput _ _ ScriptReader _ fo_data fo_pos FileOutput_laws _ storing_encoders_spec prepared)
    with (out := {| fo_data := []; fo_pos := 0; fo_script := [WriteAtMost 3; WriteInterrupt] |})
         (c := {| wc_operation := wb_operation (writer_budgets prepared); wc_entropy := tt |}) (ops := sample_ops) (out' := out')
    as (log & folders & entries & Hlog & _ & Hi & _).
  - vm_compute in Ep. injection Ep as <-. by vm_compute.
  - exact Ew.
  - exists prepared, out', log, folders. split_and!; try done.
    vm_compute in Ep. injection Ep as <-. vm_compute in Ew. injection Ew as <-. by vm_compute.
Defined.
