(* ===== verification/WrittenOpens.v ===== *)
(** * A written archive opens

    The archive reader on what the archive writer leaves: the signature header is found at
    the start, the header it points to is complete and has its checksum, and both of its
    sections give back what was written. *)

From stdpp Require Import base numbers list option strings gmap.
From Stdlib Require Import ZArith Lia.
From S2P Require Import Prelude PropertyId Parsers Method CoderInfo Folder Error Operation Readers Resources Aes DecoderPlan PackInfo StreamInfo FilesInfo DecoderRun Entries FolderDecode FolderRead Headers ArchiveSource PackedSource EntryReads Archive Opening Listing WriteHeader StreamRoundTrip FilesRoundTrip HeaderRoundTrip WriteOptions Writers Lzma2Encoder WriteFolders StreamingFolder FolderWriting ArchiveWriter ArchiveWritten WrittenArchive.

(** What begins a source is followed by the rest. *)
Lemma holds_at_rest a data : holds_at 0 a data → ∃ rest, data = a ++ rest.
Proof.
  intros Ha%(proj1 (holds_at_prefix _ _)). exists (drop (length a) data). by rewrite <- (take_drop (length a) data), Ha at 1.
Qed.

Section opens.
  Context `{Nom} `{Crc32}.
  Context (source : ArchiveSource) (data : bytes) (Hsource : source_is source data).
  Context (Hmax : zlen data + 32 ≤ u64_max) (Hbytes : Forall is_u8 data).
  Context (mid next rest : bytes) (Hdata : data = signature_bytes (zlen mid) next ++ mid ++ next ++ rest).

Lemma signature_bytes_len offset b : zlen (signature_bytes offset b) = 32.
Proof. done. Qed.

Lemma data_len : zlen data = 32 + zlen mid + zlen next + zlen rest.
Proof. rewrite Hdata, !zlen_app, signature_bytes_len. lia. Qed.

Lemma signature_verdict :
  ∃ sig, verdict data 0 = Valid sig ∧ sh_next_header_offset sig = zlen mid ∧
    sh_next_header_size sig = zlen next ∧ sh_next_header_crc sig = crc32 next.
Proof.
  pose proof data_len as Hl. pose proof (zlen_nonneg mid). pose proof (zlen_nonneg next). pose proof (zlen_nonneg rest).
  destruct (signature_reads_back (zlen mid) next 0 []) as (sig & Hp & _ & _ & _ & Ho & Hs & Hc & Hv);
    [unfold is_u64; lia|unfold is_u64; lia|]. exists sig. split_and!; try done.
  unfold verdict. rewrite decide_False by lia. rewrite Hdata. change (Z.to_nat 0) with 0%nat.
  rewrite drop_0. change (take 32 ?x) with (take (length (signature_bytes (zlen mid) next)) x).
  rewrite take_app_length. rewrite app_nil_r in Hp. rewrite Hp.
  unfold SignatureHeader_validate_start_header_crc in Hv. by destruct (decide _).
Qed.

Lemma signature_found limit :
  6 ≤ limit →
  ∃ sig, ArchiveSource_find_signature source limit = Ok (0, sig) ∧ sh_next_header_offset sig = zlen mid ∧
    sh_next_header_size sig = zlen next ∧ sh_next_header_crc sig = crc32 next.
Proof.
  intros Hlim. destruct signature_verdict as (sig & Hv & Hf). exists sig. split; [|done].
  pose proof data_len as Hl. pose proof (zlen_nonneg mid). pose proof (zlen_nonneg next). pose proof (zlen_nonneg rest).
  assert (is_candidate data (Z.min (zlen data) limit) 0) as Hc.
  { split_and!; [lia|lia|]. unfold magic_at. rewrite Hdata. done. }
  pose proof (signature_search source data limit Hsource Hmax ltac:(lia)) as Hs. cbv zeta in Hs.
  destruct (ArchiveSource_find_signature source limit) as [[p s]|e].
  - destruct Hs as (Hp & Hvp & Hfirst). assert (p = 0) as ->.
    { destruct Hp as [Hp _]. destruct (decide (p = 0)); [done|]. exfalso. apply (Hfirst 0); [lia|done|]. by rewrite Hv. }
    rewrite Hv in Hvp. by injection Hvp as ->.
  - exfalso. apply (proj1 Hs 0 Hc). by rewrite Hv.
Qed.

Lemma next_header_read limit :
  zlen next ≤ limit →
  ∃ range, checked_range_u64 (zlen data) (32 + zlen mid) (zlen next) = Ok range ∧
    ArchiveSource_read_range_to_vec source range limit = Ok next.
Proof.
  intros Hlim. pose proof data_len as Hl. pose proof (zlen_nonneg mid). pose proof (zlen_nonneg next). pose proof (zlen_nonneg rest).
  exists {| br_start := 32 + zlen mid; br_end := 32 + zlen mid + zlen next |}.
  split; [apply (checked_range_spec source data Hsource); [lia|lia|]; split; [done|lia]|].
  unfold ArchiveSource_read_range_to_vec, ByteRange_len. cbn [br_start br_end].
  replace (32 + zlen mid + zlen next - (32 + zlen mid)) with (zlen next) by lia.
  rewrite decide_False by lia. unfold usize_try_from. rewrite decide_True by lia. cbn [ok_or].
  destruct Hsource as (_ & _ & ->); [|lia|lia]. rewrite decide_True by lia. rewrite Hdata, (app_assoc (signature_bytes _ _)).
  replace (32 + zlen mid) with (zlen (signature_bytes (zlen mid) next ++ mid)) by (by rewrite zlen_app, signature_bytes_len).
  unfold zlen at 2. rewrite Nat2Z.id, drop_app_length. unfold zlen. by rewrite Nat2Z.id, take_app_length.
Qed.

Context `{LzmaMemory} `{Decoders} `{BlockCipher} `{Sha256} `{BytesLayout}.
Context (retries io_fuel : nat) (io_sizes : nat → Z) (address : bytes → Z) (identity : Z).
Context (password : option (list Z)) (options : ResourceLimits).

(** A header in the clear opens once it resolves. *)
Lemma plain_header_opens h :
  6 ≤ max_signature_scan_bytes options → zlen next ≤ max_metadata_bytes options →
  NextHeader_parse (place address next) = Ok Plain →
  Header_resolve_archive (place address next) = Ok (ResolvedComplete h) → hd_additional_streams_range h = None →
  ∃ self, Archive_from_source_with_password retries io_fuel io_sizes address source identity password options = Ok self ∧
    ar_source self = source ∧ ar_base_offset self = 0 ∧ ar_encoded_header self = None ∧ ar_header self = h ∧
    sh_next_header_offset (ar_signature self) = zlen mid.
Proof.
  intros Hscan Hmeta Hplain Hres Hadd. pose proof data_len as Hl.
  pose proof (zlen_nonneg mid). pose proof (zlen_nonneg next). pose proof (zlen_nonneg rest).
  destruct (signature_found _ Hscan) as (sig & Hfind & Hoff & Hsize & Hcrc).
  destruct (next_header_read _ Hmeta) as (range & Hrange & Hread).
  unfold Archive_from_source_with_password, Archive_from_source_with_budget.
  destruct Hsource as (_ & -> & _). rewrite Hfind, Hsize, decide_False by lia.
  assert (∀ a b, 0 ≤ a → 0 ≤ b → a + b ≤ zlen data → checked_add_u64 a b = Ok (a + b)) as Hadd64.
  { intros a b ? ? ?. unfold checked_add_u64, checked_add. by rewrite decide_True by lia. }
  rewrite (Hadd64 0 32) by lia. rewrite Hoff, (Hadd64 (0 + 32)) by lia. change (0 + 32) with 32.
  rewrite Hrange, Hread, Hcrc, decide_False by tauto. rewrite Hplain.
  unfold parse_header_with_external_data, charge_metadata, checked_add. cbn [OperationBudget_new ob_metadata ob_limits].
  rewrite decide_True, decide_False by lia. rewrite Hres. unfold verify_additional_stream_crcs.
  unfold Header_additional_pack_info, Header_try_additional_streams_info. rewrite Hadd. cbn.
  eexists. by split_and!.
Qed.

End opens.

(** A written archive as its reader finds it: the listing of its entries, the description of its
    folders, and their packed streams behind the signature header. *)
Record reopened `{Nom} `{Crc32} (source : ArchiveSource) (data : bytes) (entries : list WriteEntry)
    (folders : list WrittenFolder) (self : Archive) : Prop := {
  re_source : ar_source self = source;
  re_base : ar_base_offset self = 0;
  re_count : Archive_num_files self = zlen entries;
  re_files : ∃ f, Archive_try_files_info self = Ok (Some f) ∧ view f = listing_of entries;
  re_streams : match folders with
    | [] => Archive_try_streams_info self = Ok None
    | _ => ∃ u, unpack_info_of (map wf_folder folders) u ∧
        Archive_try_streams_info self =
          Ok (Some {| si_pack_info := Some (pack_info_of (map wf_folder folders)); si_unpack_info := Some u;
                      si_substream_info := Some (substream_info_of (map wf_folder folders)) |})
    end;
  re_packed : ∃ before after, data = before ++ packed_streams folders ++ after ∧ zlen before = 32
}.

(** An archive opened to the header that was written. *)
Lemma opened_with_header `{Nom} `{Crc32} source data entries folders a self h :
  let header := build_header entries (map wf_folder folders) in
  Forall is_u8 header → zlen header ≤ u32_max → Forall FilesRoundTrip.entry_ok entries → is_u64 (zlen entries) →
  StreamRoundTrip.folders_ok (map wf_folder folders) → Header_resolve_archive (Slice a header) = Ok (ResolvedComplete h) →
  ar_source self = source → ar_base_offset self = 0 → ar_header self = h →
  (∃ before after, data = before ++ packed_streams folders ++ after ∧ zlen before = 32) →
  reopened source data entries folders self.
Proof.
  intros header Hbytes H32 Hok Hn Hfs Hres Hsrc Hb Hh Hpacked.
  assert (valid_slice (Slice a header)) as Hv by (split; [done|change (zlen header ≤ usize_max); lia]).
  destruct (header_resolves entries (map wf_folder folders) a Hv H32 Hok Hn Hfs) as (h' & Hres' & Hst & Hfi & Hadd & Hnum).
  fold header in Hres'. rewrite Hres in Hres'. injection Hres' as <-. split; try done.
  - unfold Archive_num_files. rewrite Hh, Hnum. unfold usize_try_from. rewrite decide_True; [done|].
    unfold is_u64, usize_max in *. lia.
  - unfold Archive_try_files_info. by rewrite Hh.
  - unfold Archive_try_streams_info. rewrite Hh. by destruct folders.
Qed.

Lemma clear_reopens `{Nom} `{Crc32} `{LzmaMemory} `{Decoders} `{BlockCipher} `{Sha256} `{BytesLayout}
    `{EncoderLimits} encodes prepared data entries folders
    source retries io_fuel io_sizes address identity password options :
  archive_layout encodes prepared data entries folders → should_encode_header (po_archive prepared) entries = false →
  Forall FilesRoundTrip.entry_ok entries → is_u64 (zlen entries) → StreamRoundTrip.folders_ok (map wf_folder folders) →
  source_is source data → zlen data + 32 ≤ u64_max → 6 ≤ max_signature_scan_bytes options →
  let header := build_header entries (map wf_folder folders) in
  Forall is_u8 header → zlen header ≤ u32_max → zlen header ≤ max_metadata_bytes options →
  ∃ self, Archive_from_source_with_password retries io_fuel io_sizes address source identity password options = Ok self ∧
    ar_encoded_header self = None ∧ sh_next_header_offset (ar_signature self) = zlen (packed_streams folders) ∧
    reopened source data entries folders self.
Proof.
  intros (packed & next & Hnext & Hat) Hplain Hok Hn Hfs Hsource Hmax Hscan header Hh8 H32 Hmeta.
  unfold next_header_of in Hnext. rewrite Hplain in Hnext. destruct Hnext as [-> ->].
  rewrite app_nil_r in Hat. cbn [app] in Hat. fold header in Hat. apply holds_at_rest in Hat as [rest Hdata].
  rewrite <- !app_assoc in Hdata.
  assert (valid_slice (place address header)) as Hv by (split; [done|change (zlen header ≤ usize_max); lia]).
  destruct (header_resolves entries (map wf_folder folders) (address header) Hv H32 Hok Hn Hfs) as (h & Hres & _ & _ & Hadd & _).
  destruct (plain_header_opens source data Hsource Hmax (packed_streams folders) header _ Hdata retries io_fuel io_sizes
    address identity password options h Hscan Hmeta) as (self & Ho & Hsrc & Hb & He & Hh & Hoff); [done|done|done|].
  exists self. split_and!; try done. eapply opened_with_header; try done. by eexists _, _.
Qed.

(** An archive left by the writer, with its header in the clear, opens, whatever follows it in
    the source: its signature header is found at the start, the packed streams lie right
    after it, and the header gives back the listing of the entries and the description
    of the folders. *)
Theorem written_archive_opens `{Nom} `{Crc32} `{LzmaMemory} `{Decoders} `{BlockCipher} `{Sha256} `{BytesLayout}
    `{EncoderLimits} encodes prepared data entries folders
    source retries io_fuel io_sizes address identity password options :
  archive_layout encodes prepared data entries folders → should_encode_header (po_archive prepared) entries = false →
  Forall FilesRoundTrip.entry_ok entries → is_u64 (zlen entries) → StreamRoundTrip.folders_ok (map wf_folder folders) →
  source_is source data → zlen data + 32 ≤ u64_max → Forall is_u8 data → 6 ≤ max_signature_scan_bytes options →
  let header := build_header entries (map wf_folder folders) in
  zlen header ≤ u32_max → zlen header ≤ max_metadata_bytes options →
  ∃ self, Archive_from_source_with_password retries io_fuel io_sizes address source identity password options = Ok self ∧
    ar_base_offset self = 0 ∧ ar_encoded_header self = None ∧
    sh_next_header_offset (ar_signature self) = zlen (packed_streams folders) ∧
    sub_list 32 (32 + zlen (packed_streams folders)) data = packed_streams folders ∧
    (∃ f, Archive_try_files_info self = Ok (Some f) ∧ view f = listing_of entries) ∧
    match folders with
    | [] => Archive_try_streams_info self = Ok None
    | _ => ∃ u, unpack_info_of (map wf_folder folders) u ∧
        Archive_try_streams_info self =
          Ok (Some {| si_pack_info := Some (pack_info_of (map wf_folder folders)); si_unpack_info := Some u;
                      si_substream_info := Some (substream_info_of (map wf_folder folders)) |})
    end.
Proof.
  intros Hl Hplain Hok Hn Hfs Hsource Hmax Hbytes Hscan header H32 Hmeta.
  assert (Forall is_u8 header) as Hh8.
  { destruct Hl as (packed & next & Hnext & [rest Hdata]%holds_at_rest). unfold next_header_of in Hnext.
    rewrite Hplain in Hnext. destruct Hnext as [-> ->]. rewrite Hdata, !Forall_app in Hbytes. apply Hbytes. }
  destruct (clear_reopens _ _ _ _ _ _ retries io_fuel io_sizes address identity password options
    Hl Hplain Hok Hn Hfs Hsource Hmax Hscan Hh8 H32 Hmeta) as (self & Ho & He & Hoff & [_ Hb _ Hf Hst (a & b & Hdata & Ha)]).
  exists self. split_and!; try done. rewrite Hdata. unfold sub_list.
  replace (Z.to_nat 32) with (length a) by (unfold zlen in Ha; lia). rewrite drop_app_length.
  replace (32 + zlen (packed_streams folders) - 32) with (zlen (packed_streams folders)) by lia.
  by rewrite to_nat_zlen, take_app_length.
Qed.

(** ** Witness *)

#[local] Existing Instances flat_memory stored_decoders counter_cipher flat_hash sum_crc sample_layout sample_encoder_limits.

Definition clear_prepared : PreparedArchiveOptions :=
  {| po_archive := {| ao_codec := CodecLzma2; ao_header_mode := PlainHeader; ao_encryption := None;
                      ao_compression := CompressionOptions_default; ao_streaming := StreamingOptions_default |};
     po_settings := {| pr_aes := {| as_cycles_power := 19; as_salt_len := 0; as_iv_len := 16 |};
                       pr_codec := PreparedCopy |} |}.

Definition sample_folders : list WrittenFolder :=
  [{| wf_items := [(0, [1; 2; 3; 4; 5])]; wf_packed := [1; 0; 4; 1; 2; 3; 4; 5; 0]; wf_folder := sample_folder |}].

(** With two bytes after the archive. *)
Definition sample_clear : bytes :=
  let header := build_header sample_entries (map wf_folder sample_folders) in
  signature_bytes (zlen (packed_streams sample_folders)) header ++ packed_streams sample_folders ++ header ++ [7; 7].

Lemma written_archive_opens_witness :
  ∃ self, Archive_from_source_with_password 9 30 (λ _, 8) (λ _, 4096) (ArchiveSource_from_bytes sample_clear) 0 None
      ResourceLimits_default = Ok self ∧
    sh_next_header_offset (ar_signature self) = 9 ∧ sub_list 32 41 sample_clear = [1; 0; 4; 1; 2; 3; 4; 5; 0] ∧
    ∃ f, Archive_try_files_info self = Ok (Some f) ∧ view f = listing_of sample_entries.
Proof.
  destruct (written_archive_opens (λ _ _ _, True) clear_prepared sample_clear sample_entries sample_folders
    (ArchiveSource_from_bytes sample_clear) 9 30 (λ _, 8) (λ _, 4096) 0 None ResourceLimits_default)
    as (self & Ho & _ & _ & Hoff & Hsub & Hf & _).
  - exists [], (build_header sample_entries (map wf_folder sample_folders)). split; [by split|]. by vm_compute.
  - done.
  - exact sample_entries_ok.
  - done.
  - exact sample_folders_ok.
  - apply bytes_source_is. by compute.
  - by compute.
  - apply (bool_decide_eq_true_1 _). by vm_compute.
  - by compute.
  - by compute.
  - by compute.
  - exists self. by split_and!.
Defined.
