(* ===== verification/FolderCodecs.v ===== *)
(** * The folders of the writer decode (src/src/write/codec.rs, src/src/codec/plan.rs)

    The coders of a written folder make a chain whose sizes are all declared. Its decoder
    plan compiles into steps that undo, in reverse, what the writer did: decryption,
    decompression, the filter. *)

From stdpp Require Import base numbers list option strings sets.
From Stdlib Require Import ZArith Lia.
From S2P Require Import Prelude Parsers Method CoderInfo Folder Error Operation Readers Resources FolderGraph Aes DecoderPlan DecoderRun FolderDecode Listing WriteHeader RoundTrip CoderRoundTrip WriteOptions Writers Lzma2Encoder WriteFolders StreamingFolder FolderWriting.

(** ** Chains of known sizes *)

(** A coder with its plan and the size of its output. *)
Record KnownCoder := { kc_coder : CoderInfo; kc_plan : CoderPlan; kc_output : Z }.

Definition known_compiles `{LzmaMemory} (k : KnownCoder) : Prop :=
  CoderPlan_compile (kc_coder k) (Known (kc_output k)) = Ok (kc_plan k).

(** Coders that keep the size of their input declare it. *)
Fixpoint sizes_kept (input : Z) (ks : list KnownCoder) : Prop :=
  match ks with
  | [] => True
  | k :: ks => (CoderPlan_preserves_size (kc_plan k) = true → kc_output k = input) ∧ sizes_kept (kc_output k) ks
  end.

Fixpoint known_steps (input : Z) (ks : list KnownCoder) : list DecodeStep :=
  match ks with
  | [] => []
  | k :: ks => {| ds_coder := kc_plan k; ds_input := Known input; ds_output := Known (kc_output k) |} ::
      known_steps (kc_output k) ks
  end.

Definition known_sized (k : KnownCoder) : SizedCoder := {| sc_coder := kc_plan k; sc_output := Known (kc_output k) |}.

Section chains.
  Context `{LzmaMemory}.

Lemma bind_known_sizes input ks :
  sizes_kept input ks → bind_sizes (map known_sized ks) (Known input) = Ok (known_steps input ks).
Proof.
  revert input. induction ks as [|k ks IH]; intros input; cbn [sizes_kept map bind_sizes known_steps]; [done|].
  intros [Hk Hks]. unfold SizedCoder_bind_size. cbn [known_sized sc_coder sc_output].
  destruct (CoderPlan_preserves_size (kc_plan k)).
  - cbn [OutputSize_reconcile]. rewrite decide_False by (specialize (Hk eq_refl); lia). cbn [ds_output].
    by rewrite IH.
  - cbn [ds_output]. by rewrite IH.
Qed.

(** The sizes of a folder's table that declares all of them. *)
Definition known_table (ks : list KnownCoder) : CoderOutputSizes :=
  {| os_declared := map kc_output ks; os_final_index := length ks - 1;
     os_final_size := default 0 (kc_output <$> last ks) |}.

Lemma known_table_get ks i k :
  ks !! i = Some k → CoderOutputSizes_get (known_table ks) i = Known (kc_output k).
Proof.
  intros Hk. unfold CoderOutputSizes_get, known_table. cbn. case_decide as Hi.
  - rewrite last_lookup, <- Nat.sub_1_r, <- Hi, Hk. done.
  - change (map kc_output ks) with (kc_output <$> ks). by rewrite list_lookup_fmap, Hk.
Qed.

(** The output of a coder is the input of the next. *)
Lemma sizes_kept_next input ks n k k' :
  sizes_kept input ks → ks !! n = Some k → ks !! S n = Some k' →
  CoderPlan_preserves_size (kc_plan k') = true → kc_output k' = kc_output k.
Proof.
  revert input n. induction ks as [|k0 ks IH]; intros input n; [done|]. intros [_ Hkept] Hk Hk'.
  destruct n as [|n]; cbn in *.
  - injection Hk as <-. destruct ks as [|k1 ks]; [done|]. injection Hk' as ->. by apply Hkept.
  - by eapply IH.
Qed.

Lemma compile_known_steps folder ks input n next :
  coders folder = map kc_coder ks → Forall known_compiles ks → sizes_kept input ks → (n ≤ length ks)%nat →
  (∀ m k, n = S m → ks !! m = Some k → next = Unknown ∨ next = Known (kc_output k)) →
  compile_steps folder (known_table ks) (rev (seq 0 n)) next = Ok (rev (map known_sized (take n ks))).
Proof.
  intros Hc Hks Hkept. revert next. induction n as [|n IH]; intros next Hn Hnext; [done|].
  destruct (lookup_lt_is_Some_2 ks n ltac:(lia)) as [k Hk].
  rewrite seq_S, rev_app_distr. cbn [rev app Nat.add compile_steps].
  rewrite Hc. change (map kc_coder ks) with (kc_coder <$> ks). rewrite list_lookup_fmap, Hk.
  cbn [fmap option_fmap option_map ok_or].
  rewrite (known_table_get _ _ _ Hk).
  assert (OutputSize_reconcile (Known (kc_output k)) next = Ok (Known (kc_output k))) as ->.
  { destruct (Hnext n k eq_refl Hk) as [-> | ->]; [done|]. cbn. by rewrite decide_False by lia. }
  rewrite Forall_forall in Hks. unfold SizedCoder_compile.
  rewrite (Hks k) by (by eapply list_elem_of_lookup_2). cbn [sc_coder].
  rewrite (take_S_r _ _ _ Hk), map_app, rev_app_distr. cbn [map rev app].
  rewrite IH; [done|lia|]. intros m k' -> Hk'. destruct (CoderPlan_preserves_size (kc_plan k)) eqn:Ep; [|by left].
  right. f_equal. by eapply sizes_kept_next.
Qed.

Lemma chain_total cs :
  Forall simple_ok cs → zlen cs ≤ usize_max → Folder_total_out_streams (chain_folder cs) = Some (zlen cs).
Proof.
  intros Hcs. unfold Folder_total_out_streams. cbn [chain_folder coders].
  assert (∀ n, 0 ≤ n → n + zlen cs ≤ usize_max →
    foldl (λ acc c, acc ← acc; n ← usize_try_from (num_out_streams c); checked_add acc n) (Some n) cs =
    Some (n + zlen cs)) as Hfold; [|intros Hmax; apply (Hfold 0); lia].
  induction Hcs as [|c cs (_ & Ho & _) _ IH]; intros n Hn Hmax; cbn [foldl].
  { by rewrite zlen_nil, Z.add_0_r. }
  rewrite zlen_cons in *. pose proof (zlen_nonneg cs). rewrite Ho. unfold usize_try_from at 2.
  rewrite decide_True by done. cbn [mbind option_bind]. unfold checked_add at 2.
  rewrite decide_True by (unfold usize_max in *; lia). rewrite IH by lia. f_equal. lia.
Qed.

Lemma no_indices_where {A} (P : A → Prop) `{!∀ x, Decision (P x)} l :
  Forall (λ x, ¬ P x) l → indices_where P l = [].
Proof.
  intros Hl. unfold indices_where. destruct (filter _ _) as [|[i x] r] eqn:Ef; [done|].
  assert ((i, x) ∈ filter (λ p, P p.2) (imap (λ i x, (i, x)) l)) as Hin by (rewrite Ef; by left).
  apply list_elem_of_filter in Hin as [HP Hin]. apply list_elem_of_lookup in Hin as [j Hj].
  rewrite list_lookup_imap in Hj. destruct (l !! j) as [y|] eqn:Ey; [|done]. injection Hj as <- ->.
  rewrite Forall_forall in Hl. by destruct (Hl x ltac:(by eapply list_elem_of_lookup_2)).
Qed.

(** A chain of coders that are all known compiles to its steps, when the budget admits
    their memory. *)
Lemma known_chain_compiles ks input graph budget ws budget' :
  let cs := map kc_coder ks in
  let folder := chain_folder cs in
  ks ≠ [] → chain_ok cs → zlen ks ≤ MAX_FOLDER_CODERS → Forall known_compiles ks → sizes_kept input ks →
  Forall (λ c, codec_id c ≠ CODEC_BCJ2 ∧ method_from_id (codec_id c) ≠ None) cs →
  Folder_graph folder = Ok graph →
  add_working_sets 0 (known_steps input ks) = Ok ws → WorkingSet_admit ws budget = Ok (ws, budget') →
  CoderOutputSizes_complete folder graph (default 0 (kc_output <$> last ks)) (map kc_output ks) = Ok (known_table ks) ∧
  DecoderPlan_with_output_sizes folder graph (default 0 (kc_output <$> last ks)) (known_table ks) [input] budget =
    Ok ({| dp_topology := Chain (known_steps input ks); dp_memory := ws; dp_inputs := [input] |}, budget').
Proof.
  intros cs folder Hne Hok Hmax Hcomp Hkept Hids Hg Hws Hadm.
  destruct (chain_graph cs Hok) as (g & Hg' & Horder & Hpacked & Hfinal).
  fold folder in Hg'. rewrite Hg in Hg'. injection Hg' as <-.
  assert (length cs = length ks) as Hlen by (unfold cs; by rewrite length_map).
  assert (1 ≤ length ks)%nat as Hpos by (destruct ks; [done|cbn; lia]).
  assert (Forall simple_ok cs) as Hall by (eapply Forall_impl; [apply Hok|]; by intros c [? _]).
  split.
  - unfold CoderOutputSizes_complete, CoderOutputSizes_partial, total_out_streams.
    unfold folder. rewrite chain_total; [|done|unfold MAX_FOLDER_CODERS, zlen in *; rewrite Hlen; change usize_max with 18446744073709551615; lia].
    cbn [ok_or].
    assert (zlen (map kc_output ks) = zlen cs) as Hz by (unfold cs, zlen; by rewrite !length_map).
    rewrite decide_False by lia. rewrite decide_False by lia. rewrite Hfinal, Hlen.
    unfold known_table. change (map kc_output ks) with (kc_output <$> ks).
    rewrite list_lookup_fmap, last_lookup, <- Nat.sub_1_r.
    destruct (ks !! (length ks - 1)%nat); cbn; [|done]. by rewrite bool_decide_eq_false_2 by lia.
  - unfold DecoderPlan_with_output_sizes, validate_folder_coder_count. cbn [folder chain_folder coders].
    rewrite decide_False by (unfold zlen in *; lia). rewrite Hpacked. cbn [length].
    rewrite decide_False by lia.
    assert (decoder_topology folder graph = Ok None) as ->.
    { unfold decoder_topology, bcj2_layout. cbn [folder chain_folder coders].
      rewrite no_indices_where by (eapply Forall_impl; [exact Hids|]; by intros c [? _]).
      destruct (List.find _ cs) as [c|] eqn:Ef.
      { apply find_some in Ef as [Hin%list_elem_of_In Hc%bool_decide_eq_true]. rewrite Forall_forall in Hids.
        by destruct (Hids c Hin). }
      assert (forallb (λ c, bool_decide (num_in_streams c = 1 ∧ num_out_streams c = 1)) cs = true) as ->; [|done].
      apply forallb_forall. intros c Hin%list_elem_of_In. apply bool_decide_eq_true. rewrite Forall_forall in Hall.
      by destruct (Hall c Hin) as (? & ? & _). }
    unfold compile_chain. rewrite Horder, Hlen.
    rewrite (compile_known_steps folder ks input); [|done..|lia|by left].
    rewrite firstn_all, rev_involutive, bind_known_sizes by done. rewrite Hws, Hadm. done.
Qed.

End chains.

(** ** Memory *)

(** The memory of the decoders of some coders. *)
Definition plan_memory `{LzmaMemory} (plan : CoderPlan) : Z :=
  match CoderPlan_working_set plan with Ok w => w | Err _ => 0 end.
Definition chain_memory `{LzmaMemory} (ks : list KnownCoder) : Z :=
  DecoderPlan.sum_all (map (λ k, plan_memory (kc_plan k)) ks).

Definition modest_memory `{LzmaMemory} (k : KnownCoder) : Prop :=
  ∃ w, CoderPlan_working_set (kc_plan k) = Ok w ∧ 0 ≤ w ≤ 2 ^ 48.

Lemma add_known_memory `{LzmaMemory} input ks :
  Forall modest_memory ks → zlen ks ≤ MAX_FOLDER_CODERS →
  add_working_sets 0 (known_steps input ks) = Ok (chain_memory ks).
Proof.
  intros Hks Hmax. assert (∀ total input, 0 ≤ total → total + zlen ks * 2 ^ 48 ≤ u64_max →
    add_working_sets total (known_steps input ks) = Ok (total + chain_memory ks)) as Hadd.
  { clear Hmax input. unfold chain_memory, plan_memory, DecoderPlan.sum_all, add_working_sets.
    induction Hks as [|k ks (w & Hw & Hle) _ IH]; intros total input Ht Hmax; cbn [known_steps try_fold map foldr].
    { by rewrite Z.add_0_r. }
    rewrite zlen_cons in Hmax. pose proof (zlen_nonneg ks). cbn [ds_coder]. rewrite Hw.
    unfold WorkingSet_add, checked_add at 1. rewrite decide_True by lia. cbn [ok_or].
    rewrite IH by lia. f_equal. lia. }
  rewrite Hadd; [done|lia|]. unfold MAX_FOLDER_CODERS in Hmax. lia.
Qed.

Lemma modest_decoder kib : is_u32 kib → ∃ w, WorkingSet_decoder kib = Ok w ∧ 0 ≤ w ≤ 2 ^ 48.
Proof.
  intros Hk. unfold WorkingSet_decoder, checked_mul, checked_add, DECODER_OVERHEAD_BYTES, is_u32 in *.
  rewrite decide_True by lia. cbn [ok_or]. rewrite decide_True by lia. eexists. split; [done|]. lia.
Qed.

(** ** Decoders that undo encoders *)

(** The decompressors decode what the encoders of the same options make. An LZMA2
    decoder may have a larger dictionary. *)
Record codecs_inverse `{EncoderLimits} (encodes : EncoderKind → bytes → bytes → Prop)
    (plain_decodes : PlainDecoder → bytes → bytes → Prop) (checked_decodes : CheckedDecoder → bytes → bytes → Prop) : Prop := {
  ci_lzma : ∀ o data stream, encodes (CheckedKind (EncodeLzma o)) data stream →
    checked_decodes (LzmaReader (zlen data) (lzma_props_byte o) (lz_dict_size o)) stream data;
  ci_lzma2 : ∀ o dict data stream, lzma2_encodes encodes o data stream → lz_dict_size (l2_lzma_options o) ≤ dict →
    plain_decodes (Lzma2Reader dict) stream data;
  ci_ppmd : ∀ order memory data stream, encodes (CheckedKind (EncodePpmd order memory)) data stream →
    checked_decodes (Ppmd7Decoder order memory) stream data;
  ci_bcj : ∀ data filtered, encodes (PlainKind (EncodeBcjX86 0)) data filtered →
    zlen filtered = zlen data ∧ plain_decodes (BcjReader Bcj 0) filtered data
}.

(** The memory estimate of [lzma-rust2] for a dictionary of bounded size and a valid
    properties byte. *)
Definition lzma_memory_known `{LzmaMemory} : Prop :=
  ∀ dict props, 0 ≤ dict ≤ MAX_LZMA_DICTIONARY_BYTES → 0 ≤ props < 225 →
    is_Some (lzma_get_memory_usage_by_props dict props).

(** The options are those the writer validated, and the reader's limits admit the
    dictionary and the PPMd memory. *)
Record prepared_ok `{EncoderLimits} (prepared : PreparedArchiveOptions) : Prop := {
  po_valid : prepare_archive_options (po_archive prepared) = Ok prepared;
  po_options : options_ok (ao_compression (po_archive prepared));
  po_power : from_option (λ enc, 0 ≤ eo_num_cycles_power enc) True (ao_encryption (po_archive prepared));
  po_dict : match pr_codec (po_settings prepared) with
            | PreparedCopy => True
            | PreparedPpmd ppmd => ps_memory_size ppmd ≤ MAX_PPMD_MEMORY_BYTES
            | _ => lz_dict_size (lzma_options (ao_compression (po_archive prepared))) ≤ MAX_LZMA_DICTIONARY_BYTES
            end
}.

(** The password a reader needs. *)
Definition opens_with (prepared : PreparedArchiveOptions) (password : option (list Z)) : Prop :=
  from_option (λ enc, password = Some (eo_password enc)) True (ao_encryption (po_archive prepared)).

(** The memory of the decoders of a folder, by the options it was written with. *)
Definition lzma_memory `{LzmaMemory} (o : LzmaOptions) : Z :=
  match lzma_get_memory_usage_by_props (lz_dict_size o) (lzma_props_byte o) with
  | Some kib => match WorkingSet_decoder kib with Ok w => w | Err _ => 0 end
  | None => 0
  end.
Definition codec_memory `{LzmaMemory} `{EncoderLimits} (prepared : PreparedArchiveOptions) : Z :=
  let compression := ao_compression (po_archive prepared) in
  let lzma2 := match lzma2_property_byte compression with Ok prop => plan_memory (PlanLzma2 (prop_dict prop)) | Err _ => 0 end in
  match pr_codec (po_settings prepared) with
  | PreparedCopy => 0
  | PreparedLzma => lzma_memory (lzma_options compression)
  | PreparedLzma2 _ => lzma2
  | PreparedPpmd ppmd => plan_memory (PlanPpmd (ps_order ppmd) (ps_memory_size ppmd) 0)
  | PreparedLzma2Bcj _ => lzma2 + BCJ_READER_WORKING_SET_BYTES
  end.
Definition reading_memory `{LzmaMemory} `{EncoderLimits} (prepared : PreparedArchiveOptions) : Z :=
  codec_memory prepared +
  match ao_encryption (po_archive prepared) with Some _ => AES_CBC_WORKING_SET_BYTES + DECODER_OVERHEAD_BYTES | None => 0 end.

Section written.
  Context `{LzmaMemory} `{Decoders} `{BlockCipher} `{Sha256} `{EncoderLimits}.
  Context (encodes : EncoderKind → bytes → bytes → Prop).
  Context (plain_decodes : PlainDecoder → bytes → bytes → Prop)
          (checked_decodes : CheckedDecoder → bytes → bytes → Prop).
  Context (Hinv : codecs_inverse encodes plain_decodes checked_decodes) (Hmem : lzma_memory_known).
  Context (password : option (list Z)).

(** A chain of known coders that makes [data] of [packed]. *)
Record decodes_back (ks : list KnownCoder) (packed data : bytes) : Prop := {
  db_some : ks ≠ [];
  db_chain : chain_ok (map kc_coder ks);
  db_short : zlen ks ≤ 3;
  db_compiles : Forall known_compiles ks;
  db_kept : sizes_kept (zlen packed) ks;
  db_methods : Forall (λ c, codec_id c ≠ CODEC_BCJ2 ∧ method_from_id (codec_id c) ≠ None) (map kc_coder ks);
  db_memory : Forall modest_memory ks;
  db_runs : steps_run plain_decodes checked_decodes password (known_steps (zlen packed) ks) packed data;
  db_last : default 0 (kc_output <$> last ks) = zlen data
}.

(** One step of a chain. *)
Lemma known_step_runs k input data out :
  plan_decodes plain_decodes checked_decodes password (kc_plan k) (Known (kc_output k)) data out → kc_output k = zlen out → input = zlen data →
  step_runs plain_decodes checked_decodes password
    {| ds_coder := kc_plan k; ds_input := Known input; ds_output := Known (kc_output k) |} data out.
Proof. intros Hd Ho ->. split; [done|by intros n [= <-]|by intros n [= <-]]. Qed.

Definition spec_known (spec : CoderSpec) (plan : CoderPlan) (n : Z) : KnownCoder :=
  {| kc_coder := spec_coder spec; kc_plan := plan; kc_output := n |}.

(** A chain of one coder. *)
Lemma one_decodes_back spec plan packed data :
  spec_ok spec → known_compiles (spec_known spec plan (zlen data)) → modest_memory (spec_known spec plan (zlen data)) →
  (CoderPlan_preserves_size plan = true → zlen data = zlen packed) →
  plan_decodes plain_decodes checked_decodes password plan (Known (zlen data)) packed data →
  decodes_back [spec_known spec plan (zlen data)] packed data.
Proof.
  intros Hs Hc Hm Hk Hd. split; try done.
  - by apply (specs_chain_ok [spec]); [by constructor|].
  - by constructor.
  - constructor; [|constructor]. split; destruct spec; by vm_compute.
  - by constructor.
  - exists data. split; [|done]. by apply known_step_runs.
Qed.

(** The property byte of a dictionary the reader admits stands for one it admits. *)
Lemma prop_dict_admitted prop dict :
  0 ≤ prop < 40 → dict ≤ MAX_LZMA_DICTIONARY_BYTES → (∀ q, 0 ≤ q < prop → prop_dict q < dict) →
  prop_dict prop ≤ MAX_LZMA_DICTIONARY_BYTES.
Proof.
  intros Hp Hd Hq. assert (prop ≤ 32) as Hle.
  { destruct (decide (prop ≤ 32)); [done|]. specialize (Hq 32 ltac:(lia)).
    change (prop_dict 32) with MAX_LZMA_DICTIONARY_BYTES in Hq. lia. }
  assert (forallb (λ k, bool_decide (prop_dict (Z.of_nat k) ≤ MAX_LZMA_DICTIONARY_BYTES)) (seq 0 33) = true) as Hall
    by by vm_compute.
  rewrite forallb_forall in Hall. specialize (Hall (Z.to_nat prop) ltac:(apply in_seq; lia)).
  apply bool_decide_eq_true in Hall. by rewrite Z2Nat.id in Hall by lia.
Qed.

(** The compilation of a coder of a known method. *)
Ltac known_method :=
  unfold known_compiles, CoderPlan_compile;
  cbn [spec_known kc_coder kc_plan kc_output spec_coder lzma_coder lzma2_coder ppmd_coder bcj_coder aes_coder simple_coder codec_id properties];
  match goal with |- context [method_info ?id] =>
    let v := eval vm_compute in (method_info id) in
    replace (method_info id) with v by (vm_compute; reflexivity)
  end; cbn [MethodInfo_can_decode mi_decode mi_method MethodStatus_is_implemented ok_or].

(** The coder of an LZMA stream. *)
Lemma lzma_compiles o n :
  0 ≤ lz_dict_size o ≤ MAX_LZMA_DICTIONARY_BYTES → 0 ≤ lzma_props_byte o < 225 →
  let spec := SpecLzma ([lzma_props_byte o] ++ to_le_bytes 4 (lz_dict_size o)) in
  ∃ p, lp_props p = lzma_props_byte o ∧ lp_dictionary p = lz_dict_size o ∧ lp_memory p = lzma_memory o ∧
    known_compiles (spec_known spec (PlanLzma p) n) ∧ modest_memory (spec_known spec (PlanLzma p) n).
Proof.
  intros Hd Hp spec. destruct (Hmem _ _ Hd Hp) as [kib Hkib].
  destruct (modest_decoder kib) as (w & Hw & Hle); [by eapply lzma_memory_u32|].
  exists {| lp_props := lzma_props_byte o; lp_dictionary := lz_dict_size o; lp_memory := w |}.
  split_and!; [done|done|unfold lzma_memory; by rewrite Hkib, Hw| |by exists w].
  pose proof (from_to_le_bytes_id 4 (lz_dict_size o)) as Hback.
  unfold MAX_LZMA_DICTIONARY_BYTES in Hd. specialize (Hback ltac:(lia)).
  cbn [to_le_bytes] in Hback. unfold spec. cbn [to_le_bytes app]. known_method.
  unfold LzmaProperties_parse. rewrite Hback, decide_False by (unfold MAX_LZMA_DICTIONARY_BYTES; lia).
  rewrite Hkib. cbn [ok_or]. by rewrite Hw.
Qed.

(** The key material reads back. *)
Lemma material_parses encryption m :
  material_of encryption m → 0 ≤ as_cycles_power (pe_settings encryption) →
  ∃ p, AesProperties_parse (am_props m) = Ok p ∧ ap_iv p = am_iv m ∧ is_block (am_iv m) ∧ is_u64 (zlen (am_props m)) ∧
    (0 ≤ ap_num_cycles_power p ≤ MAX_AES_NUM_CYCLES_POWER ∨ ap_num_cycles_power p = 63) ∧
    derive_key_with_control (eo_password (pe_options encryption)) (ap_salt p) (ap_num_cycles_power p) None = (Ok (am_key m), None).
Proof.
  intros (salt & iv & Hkey & Hiv & Hprops) Hpow. set (power := as_cycles_power _) in *.
  assert (power ≤ MAX_AES_NUM_CYCLES_POWER ∨ power = 63) as Hpower.
  { unfold derive_key_with_control in Hkey. cbn [check_control] in Hkey. case_decide; [by right|].
    case_decide; [done|]. left. lia. }
  assert (zlen salt ≤ 16 ∧ zlen iv ≤ 16) as [Hs Hi].
  { unfold encode_aes_properties in Hprops. case_decide; [done|]. lia. }
  unfold MAX_AES_NUM_CYCLES_POWER in *.
  destruct (aes_properties_back power salt iv) as (b & Hb & Hparse); [lia|done|done|].
  rewrite Hprops in Hb. injection Hb as <-. eexists. split; [done|]. cbn [ap_iv ap_num_cycles_power ap_salt].
  assert (pad_iv iv = am_iv m) as Hpad by (rewrite Hiv, take_ge by (unfold zlen in Hi; lia); done).
  split_and!; [done| | | |done].
  - rewrite <- Hpad. unfold is_block, pad_iv, zlen in *. rewrite length_app, length_replicate. lia.
  - unfold encode_aes_properties in Hprops. rewrite decide_False in Hprops by lia. injection Hprops as <-.
    unfold is_u64, zlen in *. destruct (negb (bool_decide (salt = [])) || negb (bool_decide (iv = []))); cbn [app length];
      rewrite ?length_app; lia.
  - destruct Hpower; [left; lia|by right].
Qed.

(** Encryption only adds bytes. *)
Lemma encrypted_covers data key iv :
  cbc_inverse → zlen key = 32 → is_block iv → zlen data ≤ zlen (encrypt_aes256_cbc_zero_pad data key iv).
Proof.
  intros Hcbc Hkey Hiv. destruct (plaintext_blocks_ok data) as (Hpb & Htake & Hle & _).
  destruct (Hcbc key iv _ Hkey Hiv Hpb) as [Hcb _]. unfold encrypt_aes256_cbc_zero_pad.
  rewrite zlen_concat_blocks by done. pose proof (zlen_concat_blocks _ Hpb) as Hz.
  unfold zlen in *. rewrite length_run_blocks. lia.
Qed.

(** A chain behind a cipher. *)
Lemma encrypted_decodes_back encryption m ks stream data :
  material_of encryption m → 0 ≤ as_cycles_power (pe_settings encryption) →
  password = Some (eo_password (pe_options encryption)) → cbc_inverse →
  zlen (encrypt_aes256_cbc_zero_pad stream (am_key m) (am_iv m)) + 16 ≤ u64_max →
  decodes_back ks stream data → (length ks ≤ 2)%nat →
  ∃ k, decodes_back (k :: ks) (encrypt_aes256_cbc_zero_pad stream (am_key m) (am_iv m)) data ∧
    kc_coder k = aes_coder (am_props m) ∧ kc_output k = zlen stream ∧ zlen stream ≤ u64_max ∧
    chain_memory (k :: ks) = chain_memory ks + (AES_CBC_WORKING_SET_BYTES + DECODER_OVERHEAD_BYTES).
Proof.
  intros Hm Hpow -> Hcbc Hmax [Hne [Hchain Hn] Hshort Hcomp Hkept Hids Hmods Hruns Hlast] Hl2.
  destruct (material_parses _ _ Hm Hpow) as (p & Hparse & Hiv & Hblock & Hlen & Hpower & Hkey).
  set (k := {| kc_coder := aes_coder (am_props m); kc_plan := PlanAes p; kc_output := zlen stream |}).
  destruct (derive_key_key (eo_password (pe_options encryption)) (ap_salt p) _ Hpower) as (key & Hkey' & Hkl).
  rewrite Hkey in Hkey'. injection Hkey' as <-. pose proof (encrypted_covers stream _ _ Hcbc Hkl Hblock).
  exists k. rewrite zlen_map in Hn. split_and!; [|done|done|lia|apply Z.add_comm]. split.
  - done.
  - split; [constructor; [by apply aes_coder_ok|done]|]. cbn [map]. rewrite zlen_cons, zlen_map. unfold MAX_FOLDER_STREAMS.
    unfold zlen in *. lia.
  - rewrite zlen_cons. unfold zlen in *. lia.
  - constructor; [|done]. unfold k. known_method. by rewrite Hparse.
  - by split.
  - constructor; [|done]. split; by vm_compute.
  - constructor; [|done]. unfold modest_memory. cbn [k kc_plan CoderPlan_working_set].
    exists (AES_CBC_WORKING_SET_BYTES + DECODER_OVERHEAD_BYTES). by split.
  - exists stream. split; [|done]. apply known_step_runs; [|done|done]. cbn [k kc_plan kc_output plan_decodes].
    split_and!; [done|lia|by rewrite Hiv|done|].
    exists (eo_password (pe_options encryption)), (am_key m). split_and!; [done|done|by rewrite Hiv].
  - by destruct ks.
Qed.

(** The power of two of a validated encryption is the one of its options. *)
Lemma prepared_power prepared enc :
  prepared_ok prepared → ao_encryption (po_archive prepared) = Some enc →
  as_cycles_power (pr_aes (po_settings prepared)) = eo_num_cycles_power enc ∧ 0 ≤ eo_num_cycles_power enc.
Proof.
  intros [Hv _ Hpow _] Eenc. rewrite Eenc in Hpow. split; [|done]. unfold prepare_archive_options in Hv.
  destruct (validate_archive_options _) as [settings|] eqn:Ev; [|done]. injection Hv as Hv.
  apply (f_equal po_settings) in Hv. cbn in Hv. subst settings.
  apply validate_archive_options_ok in Ev as (codec & threads & aes & _ & _ & Ha & ->). cbn.
  unfold validate_encryption in Ha. rewrite Eenc in Ha. repeat (case_decide; [done|]).
  destruct (eo_encrypt_header enc && _); [done|]. by injection Ha as <-.
Qed.

Section codecs.
  Context (prepared : PreparedArchiveOptions) (Hok : prepared_ok prepared).
Abbreviation compression := (ao_compression (po_archive prepared)).
Abbreviation options := (lzma_options compression).

(** What the codec settings say of the dictionary, by validation. *)
Lemma prepared_settings :
  match pr_codec (po_settings prepared) with
  | PreparedCopy => True
  | PreparedPpmd ppmd => 0 ≤ ps_order ppmd ∧ 0 ≤ ps_memory_size ppmd ≤ MAX_PPMD_MEMORY_BYTES
  | PreparedLzma => 0 ≤ lz_dict_size options ≤ MAX_LZMA_DICTIONARY_BYTES ∧ 0 ≤ lzma_props_byte options < 225
  | PreparedLzma2 _ | PreparedLzma2Bcj _ => ∃ prop, lzma2_property_byte compression = Ok prop ∧
      lzma2_dict_size (Some [prop]) = Ok (prop_dict prop) ∧ lz_dict_size options ≤ prop_dict prop
  end.
Proof.
  destruct Hok as [Hvalid Hopts _ Hdict]. unfold prepare_archive_options in Hvalid.
  destruct (validate_archive_options (po_archive prepared)) as [settings|] eqn:Ev; [|done].
  injection Hvalid as Hset. apply (f_equal po_settings) in Hset. cbn in Hset. subst settings.
  destruct (options_encodable _ _ Hopts Ev) as (Hd & (Hlc & Hlp & Hsum & Hpb) & Hl2 & Hppmd).
  destruct (validate_archive_options_ok _ _ Ev) as (codec & threads & aes & [_ _ _ _ _ Hcodec] & _ & _ & Hs).
  rewrite Hs in Hppmd, Hdict |- *. cbn [pr_codec] in *.
  assert (is_lzma2 (ao_codec (po_archive prepared)) = true → lz_dict_size options ≤ MAX_LZMA_DICTIONARY_BYTES →
    ∃ prop, lzma2_property_byte compression = Ok prop ∧
      lzma2_dict_size (Some [prop]) = Ok (prop_dict prop) ∧ lz_dict_size options ≤ prop_dict prop) as Hlzma2.
  { intros Hc Hle. destruct (Hl2 Hc) as (prop & Hp & Hr & Hcov & Hleast & _ & Hread). exists prop.
    split_and!; [done| |done]. rewrite Hread. by rewrite decide_True by by eapply prop_dict_admitted. }
  destruct (ao_codec (po_archive prepared)); try (destruct Hcodec as (order & ppmd & -> & _)); subst;
    cbn [pr_codec] in Hppmd, Hdict |- *.
  - done.
  - split; [|clear Hl2 Hlzma2 Hppmd; unfold lzma_props_byte; lia]. specialize (Hd ltac:(done)). lia.
  - by apply Hlzma2.
  - destruct (Hppmd eq_refl) as (ppmd' & [= <-] & Ho & Hm). destruct ppmd_orders, ppmd_memory. lia.
  - by apply Hlzma2.
Qed.

Lemma lzma2_compiles prop n :
  lzma2_dict_size (Some [prop]) = Ok (prop_dict prop) →
  known_compiles (spec_known (SpecLzma2 prop) (PlanLzma2 (prop_dict prop)) n) ∧
  modest_memory (spec_known (SpecLzma2 prop) (PlanLzma2 (prop_dict prop)) n).
Proof.
  intros Hd. split.
  - known_method. by rewrite Hd.
  - apply modest_decoder, lzma2_memory_u32.
Qed.

Lemma ppmd_compiles ppmd n :
  0 ≤ ps_memory_size ppmd ≤ MAX_PPMD_MEMORY_BYTES →
  let spec := SpecPpmd ([ps_order ppmd] ++ to_le_bytes 4 (ps_memory_size ppmd)) in
  let plan := PlanPpmd (ps_order ppmd) (ps_memory_size ppmd) n in
  known_compiles (spec_known spec plan n) ∧ modest_memory (spec_known spec plan n).
Proof.
  intros Hm spec plan. unfold MAX_PPMD_MEMORY_BYTES in Hm. split.
  - pose proof (from_to_le_bytes_id 4 (ps_memory_size ppmd) ltac:(lia)) as Hback.
    cbn [to_le_bytes] in Hback. unfold spec, plan. cbn [to_le_bytes app]. known_method.
    unfold ppmd_properties. rewrite Hback, decide_False by (unfold MAX_PPMD_MEMORY_BYTES; lia). done.
  - unfold modest_memory. cbn [plan spec_known kc_plan CoderPlan_working_set]. unfold checked_add, DECODER_OVERHEAD_BYTES.
    rewrite decide_True by lia. eexists. split; [done|]. lia.
Qed.

(** The folder without encryption. *)
Lemma folder_stream_decodes_back data stream info specs :
  folder_stream encodes prepared data stream → folder_coders prepared info specs →
  ∃ ks, decodes_back ks stream data ∧ map kc_coder ks = map spec_coder specs ∧ Forall spec_ok specs ∧
    info = chain_bytes (map spec_coder specs) ∧ map kc_output ks = replicate (length specs) (zlen data) ∧ (length ks ≤ 2)%nat ∧
    chain_memory ks = codec_memory prepared.
Proof.
  pose proof prepared_settings as Hset. unfold folder_stream, folder_coders, codec_memory.
  destruct (pr_codec (po_settings prepared)) as [| |threads|ppmd|threads].
  - intros -> [-> ->]. exists [spec_known SpecCopy PlanCopy (zlen data)]. split_and!; try done; [|by constructor|cbn; lia].
    apply one_decodes_back; try done. by exists 0.
  - intros Hs [-> ->]. destruct Hset as [Hd Hb]. destruct (lzma_compiles _ (zlen data) Hd Hb) as (p & Hp & Hdict & Hmemory & Hc & Hm).
    eexists [_]. split_and!; [eapply (one_decodes_back (SpecLzma _)); [|done..|]| | | | | |]; try done.
    + cbn. rewrite Hp, Hdict. by apply (ci_lzma _ _ _ Hinv).
    + by constructor.
    + cbn; lia.
    + cbn. rewrite Hmemory. apply Z.add_0_r.
  - intros Hs (prop & Hprop & -> & ->). destruct Hset as (prop' & Hprop' & Hd & Hle). rewrite Hprop in Hprop'. injection Hprop' as <-.
    destruct (lzma2_compiles prop (zlen data) Hd) as [Hc Hm].
    eexists [_]. split_and!; [eapply (one_decodes_back (SpecLzma2 _)); [|done..|]| | | | | |]; try done.
    + eexists. split; [done|]. by apply (ci_lzma2 _ _ _ Hinv _ _ _ _ Hs).
    + by constructor.
    + cbn; lia.
    + rewrite Hprop. apply Z.add_0_r.
  - intros Hs [-> ->]. destruct Hset as [Ho Hb]. destruct (ppmd_compiles ppmd (zlen data) Hb) as [Hc Hm].
    eexists [_]. split_and!; [eapply (one_decodes_back (SpecPpmd _)); [|done..|]| | | | | |]; try done.
    + split; [done|]. by apply (ci_ppmd _ _ _ Hinv).
    + by constructor.
    + cbn; lia.
    + apply Z.add_0_r.
  - intros (filtered & Hf & Hs) (prop & Hprop & -> & ->). destruct Hset as (prop' & Hprop' & Hd & Hle).
    rewrite Hprop in Hprop'. injection Hprop' as <-.
    destruct (lzma2_compiles prop (zlen data) Hd) as [Hc Hm]. destruct (ci_bcj _ _ _ Hinv _ _ Hf) as [Hz Hbcj].
    exists [spec_known (SpecLzma2 prop) (PlanLzma2 (prop_dict prop)) (zlen data); spec_known SpecBcj PlanX86 (zlen data)].
    assert (Forall spec_ok [SpecLzma2 prop; SpecBcj]) as Hspecs by (constructor; [done|by constructor]).
    split_and!; try done; [|rewrite Hprop; cbn; by rewrite Z.add_0_r].
    assert (known_compiles (spec_known SpecBcj PlanX86 (zlen data))) as Hcb by by known_method.
    split; try done.
    + by apply (specs_chain_ok [SpecLzma2 prop; SpecBcj]).
    + constructor; [done|]. by constructor.
    + by do 2 (constructor; [by split; vm_compute|]).
    + constructor; [done|]. constructor; [|constructor]. by exists BCJ_READER_WORKING_SET_BYTES.
    + exists filtered. split.
      * apply known_step_runs; [|done|done]. eexists. split; [done|]. by apply (ci_lzma2 _ _ _ Hinv _ _ _ _ Hs).
      * exists data. split; [|done]. apply known_step_runs; [|done|done]. eexists. by split.
Qed.

(** A written folder decodes to its data. *)
Lemma folder_done_decodes_back `{Crc32} items packed folder :
  folder_done encodes prepared items packed folder → opens_with prepared password → cbc_inverse → zlen packed + 16 ≤ u64_max →
  ∃ ks, decodes_back ks packed (item_data items) ∧ cf_coder_info folder = chain_bytes (map kc_coder ks) ∧
    cf_coder_unpack_sizes folder = map kc_output ks ∧ chain_memory ks = reading_memory prepared.
Proof.
  intros (aes & stream & info & specs & Haes & Hstream & -> & Hcoders & ->) Hpw Hcbc Hmax.
  destruct (folder_stream_decodes_back _ _ _ _ Hstream Hcoders) as (ks & Hks & Hmap & Hspecs & -> & Hout & Hl2 & Hmemory).
  unfold aes_for, PreparedArchiveOptions_encryption in Haes. unfold opens_with in Hpw. unfold reading_memory.
  destruct (ao_encryption (po_archive prepared)) as [enc|] eqn:Eenc; cbn [fmap option_fmap option_map from_option] in *.
  2:{ destruct aes; [done|]. exists ks. cbn. by rewrite Hmap, Hout, Hmemory, Z.add_0_r. }
  destruct aes as [m|]; [|done]. cbn [packed_of cf_coder_info cf_coder_unpack_sizes] in *.
  destruct (prepared_power _ _ Hok Eenc) as [Hcycles Hpow].
  destruct (encrypted_decodes_back _ _ _ _ _ Haes ltac:(cbn [pe_settings]; by rewrite Hcycles) Hpw Hcbc Hmax Hks Hl2)
    as (k & Hback & Hk & Ho & Hlen & Hmem').
  exists (k :: ks). cbn [map]. rewrite Hk, Ho, <- Hout, <- Hmemory.
  split_and!; [done|by rewrite encode_aes_chain, <- Hmap by done|done|done].
Qed.

End codecs.
End written.
