(* ===== verification/WrittenLayouts.v ===== *)
(** * The folder layouts of a written archive (src/src/folder_decode.rs)

    The stream descriptors of the writer lead the iteration over folders to one layout per
    written folder: its chain of coders, the packed stream after those of the folders before
    it, and a substream for each of its entries. *)

From stdpp Require Import base numbers list option sets strings.
From Stdlib Require Import ZArith Lia.
From S2P Require Import Prelude PropertyId Parsers Method CoderInfo Folder Error Operation Readers Resources FolderGraph PackInfo StreamInfo Aes DecoderPlan DecoderRun FolderDecode FolderRead FileStreams Listing WriteHeader RoundTrip StreamRoundTrip CoderRoundTrip HeaderRoundTrip WriteOptions Writers Lzma2Encoder WriteFolders StreamingFolder FolderWriting ArchiveWriter ArchiveWritten FolderCodecs.

(** ** Lists cut where they were joined *)

Lemma get_range_mid {A} (pre mid post : list A) a b :
  a = zlen pre → b = a + zlen mid → get_range a b (pre ++ mid ++ post) = Some mid.
Proof.
  intros -> ->. pose proof (zlen_nonneg pre). pose proof (zlen_nonneg mid). pose proof (zlen_nonneg post).
  unfold get_range. rewrite decide_True by (rewrite !zlen_app; lia).
  rewrite Z.add_simpl_l, !to_nat_zlen, drop_app_length, take_app_length. done.
Qed.

(** The part of a concatenation that one element gives. *)
Lemma get_range_part {A B} (f : A → list B) done_ x rest a b :
  a = zlen (concat (map f done_)) → b = a + zlen (f x) →
  get_range a b (concat (map f (done_ ++ x :: rest))) = Some (f x).
Proof. intros Ha Hb. rewrite map_app, concat_app. cbn [map concat]. by apply get_range_mid. Qed.

Lemma zlen_concat_part {A B} (f : A → list B) done_ x rest :
  zlen (concat (map f done_)) + zlen (f x) ≤ zlen (concat (map f (done_ ++ x :: rest))).
Proof.
  rewrite map_app, concat_app. cbn [map concat]. rewrite !zlen_app. pose proof (zlen_nonneg (concat (map f rest))). lia.
Qed.

Lemma concat_map_snoc {A B} (f : A → list B) l x : concat (map f (l ++ [x])) = concat (map f l) ++ f x.
Proof. rewrite map_app, concat_app. cbn. by rewrite app_nil_r. Qed.

(** ** One folder *)

(** A folder of the writer with its coders: one packed stream, a size for each coder, no
    digest of its own, and a size and a digest for each entry. *)
Record folder_shape `{Crc32} (f : WrittenFolder) (cs : list CoderInfo) : Prop := {
  fp_chain : chain_ok cs;
  fp_info : cf_coder_info (wf_folder f) = chain_bytes cs;
  fp_outs : zlen (cf_coder_unpack_sizes (wf_folder f)) = zlen cs;
  fp_last : last (cf_coder_unpack_sizes (wf_folder f)) = Some (zlen (item_data (wf_items f)));
  fp_packs : cf_pack_sizes (wf_folder f) = [zlen (wf_packed f)];
  fp_crc : cf_folder_crc (wf_folder f) = None;
  fp_files : cf_file_indices (wf_folder f) = (wf_items f).*1;
  fp_sizes : cf_file_sizes (wf_folder f) = map zlen (wf_items f).*2;
  fp_crcs : cf_file_crcs (wf_folder f) = map (λ d, Some (crc32 d)) (wf_items f).*2
}.

(** The substreams of its entries. *)
Definition item_layout `{Crc32} (items : list (Z * bytes)) : FolderStreamLayout :=
  let sizes := map zlen items.*2 in
  {| fl_explicit_sizes := all_but_last sizes; fl_final_size := last sizes;
     fl_digests := map (λ d, Some (crc32 d)) items.*2 |}.

Definition written_layout `{Crc32} (f : WrittenFolder) (cs : list CoderInfo) (g : FolderGraph) (offset : Z) : FolderLayout := {|
  lo_folder := chain_folder cs;
  lo_graph := g;
  lo_streams := {| pst_sizes := [zlen (wf_packed f)]; pst_digests := [None]; pst_start := offset |};
  lo_coder_sizes := cf_coder_unpack_sizes (wf_folder f);
  lo_unpack_size := zlen (item_data (wf_items f));
  lo_crc := None;
  lo_layout := item_layout (wf_items f)
|}.

Lemma sum_zlen (l : list bytes) : sum_z (map zlen l) = zlen (concat l).
Proof. induction l as [|b l IH]; [done|]. cbn [map concat]. rewrite zlen_app, <- IH. done. Qed.

Lemma all_but_last_snoc l x : all_but_last (l ++ [x]) = l.
Proof. unfold all_but_last. rewrite length_app. cbn. replace (length l + 1 - 1)%nat with (length l) by lia. apply take_app_length. Qed.

Lemma zlens_u64 (l : list bytes) : zlen (concat l) ≤ u64_max → Forall is_u64 (map zlen l).
Proof.
  induction l as [|b l IH]; [constructor|]. cbn [map concat]. rewrite zlen_app. intros Hmax.
  pose proof (zlen_nonneg b). pose proof (zlen_nonneg (concat l)). constructor; [unfold is_u64; lia|]. apply IH. lia.
Qed.

Lemma item_layout_new `{Crc32} items :
  zlen (item_data items) ≤ u64_max →
  FolderStreamLayout_new (zlen (item_data items)) (zlen items) (all_but_last (map zlen items.*2))
    (map (λ d, Some (crc32 d)) items.*2) = Ok (item_layout items).
Proof.
  intros Hmax. unfold FolderStreamLayout_new, item_layout, item_data in *. set (ds := items.*2) in *.
  assert (zlen items = zlen ds) as -> by (unfold ds, zlen; by rewrite length_fmap). clearbody ds. clear items.
  destruct (rev_ind (λ l, l = [] ∨ ∃ i x, l = i ++ [x]) (or_introl eq_refl) (λ x l _, or_intror (ex_intro _ l (ex_intro _ x eq_refl))) ds)
    as [->|(i & x & ->)]; [by vm_compute|].
  rewrite !map_app, concat_app in *. cbn [map concat] in *. rewrite app_nil_r in *. rewrite all_but_last_snoc, last_snoc.
  rewrite zlen_app in Hmax. pose proof (zlen_nonneg x). pose proof (zlen_nonneg (concat i)).
  rewrite zlen_map, !zlen_app, zlen_map. change (zlen [x]) with 1. change (zlen [Some (crc32 x)]) with 1.
  pose proof (zlen_nonneg i). unfold saturating_sub.
  rewrite decide_False by (intros [?|[_ ?]]; lia).
  rewrite sum_sizes_total; [|apply zlens_u64; lia|lia|rewrite sum_zlen; lia].
  rewrite sum_zlen. unfold checked_sub. rewrite decide_True by lia. cbn [ok_or].
  rewrite decide_True by lia. do 3 f_equal. lia.
Qed.

(** ** The iteration *)

Section iteration.
  Context `{Nom} `{Crc32}.
  Context (folders : list WrittenFolder) (chains : list (list CoderInfo)).
  Context (Hshapes : Forall2 folder_shape folders chains).
  Context (Hok : folders_ok (map wf_folder folders)) (Hmax : zlen (packed_streams folders) ≤ u64_max).
  Context (Hdata : Forall (λ f, zlen (item_data (wf_items f)) ≤ u64_max) folders).
  Context (unpack : UnpackInfo) (Hunpack : unpack_info_of (map wf_folder folders) unpack).
Abbreviation cfs l := (map wf_folder l).
Let pack := pack_info_of (cfs folders).
Let sub := substream_info_of (cfs folders).

(** The state of the iterator after some of the folders. *)
Definition written_plans (past : list WrittenFolder) : FolderPlans := {|
  fp_pack_info := pack; fp_unpack_info := unpack; fp_substream_info := Some sub;
  fp_folder_index := zlen past;
  fp_pack_index := zlen past;
  fp_output_base := zlen (concat (map cf_coder_unpack_sizes (cfs past)));
  fp_pack_offset := zlen (packed_streams past);
  fp_stream_size_base := zlen (concat (map (λ f, all_but_last (cf_file_sizes f)) (cfs past)));
  fp_stream_digest_base := zlen (concat (map cf_file_crcs (cfs past)));
  fp_finished := false
|}.

Lemma written_plans_new : FolderPlans_new pack unpack (Some sub) = written_plans [].
Proof. done. Qed.

Lemma written_packs past cs : Forall2 folder_shape past cs →
  concat (map cf_pack_sizes (cfs past)) = map (λ f, zlen (wf_packed f)) past.
Proof. induction 1 as [|f c past cs Hf _ IH]; cbn; [done|]. by rewrite (fp_packs _ _ Hf), IH. Qed.

Lemma written_crcs past cs : Forall2 folder_shape past cs →
  concat (map cf_file_crcs (cfs past)) = map (λ d, Some (crc32 d)) (written_items past).*2.
Proof.
  unfold written_items. induction 1 as [|f c past cs Hf _ IH]; cbn; [done|]. rewrite (fp_crcs _ _ Hf), IH.
  by rewrite fmap_app, map_app.
Qed.

(** The part of a descriptor that a folder gives. *)
Lemma cut_part {A} (part : CompletedFolder → list A) past f rest n :
  folders = past ++ f :: rest → is_u64 (zlen (concat (map part (cfs folders)))) → n = zlen (part (wf_folder f)) →
  let a := zlen (concat (map part (cfs past))) in
  checked_add a n = Some (a + n) ∧ get_range a (a + n) (concat (map part (cfs folders))) = Some (part (wf_folder f)) ∧
  a + n = zlen (concat (map part (cfs (past ++ [f])))).
Proof.
  intros -> [_ Hu] -> a. rewrite map_app in *. cbn [map] in *. pose proof (zlen_concat_part part (cfs past) (wf_folder f) (cfs rest)).
  split_and!.
  - unfold checked_add. by rewrite decide_True by (unfold a; lia).
  - by apply get_range_part.
  - rewrite map_app. change (map wf_folder [f]) with [wf_folder f]. by rewrite concat_map_snoc, zlen_app.
Qed.

Lemma sub_digests : substream_digests sub = map (λ d, Some (crc32 d)) (written_items folders).*2.
Proof.
  unfold sub, substream_info_of. cbn [substream_digests]. rewrite (written_crcs _ _ Hshapes).
  by destruct ((written_items folders).*2).
Qed.

Lemma parts_u64 : is_u64 (zlen (concat (map (λ f, all_but_last (cf_file_sizes f)) (cfs folders)))) ∧
  is_u64 (zlen (concat (map cf_file_crcs (cfs folders)))).
Proof.
  pose proof (fs_files _ Hok) as Hn. unfold MAX_SUBSTREAM_DIGESTS in Hn.
  pose proof (fs_all _ Hok) as Hall. unfold is_u64. rewrite !zlen_concat_map.
  pose proof (sum_all_nonneg (λ f, zlen (all_but_last (cf_file_sizes f))) (cfs folders) (λ _, zlen_nonneg _)).
  pose proof (sum_all_nonneg (λ f, zlen (cf_file_crcs f)) (cfs folders) (λ _, zlen_nonneg _)).
  assert (sum_all (λ f, zlen (all_but_last (cf_file_sizes f))) (cfs folders) ≤ sum_all file_count (cfs folders) ∧
    sum_all (λ f, zlen (cf_file_crcs f)) (cfs folders) = sum_all file_count (cfs folders)) as [Ha Hb].
  { clear -Hall. induction Hall as [|f fs Hf _ [IH1 IH2]]; [done|]. rewrite !sum_all_cons, IH2, (fo_num_crcs _ Hf).
    split; [|done]. rewrite <- (fo_num_sizes _ Hf) at 1. unfold all_but_last, zlen in *. rewrite length_take. lia. }
  change (64 * 1024 * 1024 / 8) with 8388608 in Hn. lia.
Qed.

(** One step of the iterator. *)
Lemma written_next past f rest pcs cs rcs :
  folders = past ++ f :: rest → chains = pcs ++ cs :: rcs → length past = length pcs →
  ∃ g, Folder_graph (chain_folder cs) = Ok g ∧
    FolderPlans_next_folder (written_plans past) =
      Ok (written_layout f cs g (zlen (packed_streams past)), written_plans (past ++ [f])).
Proof.
  intros Hf Hc Hl. pose proof Hshapes as Hsh. rewrite Hf, Hc in Hsh.
  apply Forall2_app_inv in Hsh as [Hpast Hsh]; [|done]. apply Forall2_cons in Hsh as [Hfs Hrest].
  assert (folders !! length past = Some f) as Hat by (rewrite Hf; by apply list_lookup_middle).
  destruct (written_folders_parse (cfs folders) unpack (length past) (wf_folder f) cs Hunpack) as (g & Hparse & Hg & Ho);
    [change (cfs folders) with (wf_folder <$> folders); by rewrite list_lookup_fmap, Hat|apply Hfs|apply Hfs|].
  exists g. split; [done|].
  destruct (chain_graph cs (fp_chain _ _ Hfs)) as (g' & Hg' & _ & Hpacked & Hfinal). rewrite Hg in Hg'. injection Hg' as <-.
  pose proof (fp_chain _ _ Hfs) as [Hall Hlen].
  pose proof (zlen_nonneg past). pose proof (zlen_nonneg rest). pose proof (zlen_nonneg cs).
  assert (cfs folders = cfs past ++ wf_folder f :: cfs rest) as Hcfs by (rewrite Hf, map_app; done).
  assert (pack_size pack = map (λ f, zlen (wf_packed f)) folders) as Hsizes by (by eapply written_packs).
  assert (zlen (pack_size pack) = zlen past + 1 + zlen rest) as Hpl
    by (rewrite Hsizes, zlen_map, Hf, zlen_app, zlen_cons; lia).
  unfold FolderPlans_next_folder. set (st := written_plans past).
  change (fp_unpack_info st) with unpack. change (fp_pack_info st) with pack.
  change (fp_folder_index st) with (Z.of_nat (length past)). change (fp_pack_index st) with (zlen past).
  change (fp_output_base st) with (zlen (concat (map cf_coder_unpack_sizes (cfs past)))).
  change (fp_pack_offset st) with (zlen (packed_streams past)).
  change (fp_stream_size_base st) with (zlen (concat (map (λ f, all_but_last (cf_file_sizes f)) (cfs past)))).
  change (fp_stream_digest_base st) with (zlen (concat (map cf_file_crcs (cfs past)))).
  change (fp_substream_info st) with (Some sub). change (fp_finished st) with false.
  rewrite Hparse. cbv beta iota. rewrite Hpacked. change (zlen [(0%nat, 0%nat)]) with 1.
  pose proof (fs_packs _ Hok) as Hp64. rewrite <- zlen_concat_map in Hp64.
  pose proof (fs_outs _ Hok) as Ho64. rewrite <- zlen_concat_map in Ho64. destruct parts_u64 as [He64 Hd64].
  assert (zlen past = zlen (concat (map cf_pack_sizes (cfs past)))) as Hpp
    by (rewrite (written_packs _ _ Hpast), zlen_map; done).
  destruct (cut_part cf_pack_sizes past f rest 1 Hf Hp64) as (P1 & P2 & P3); [by rewrite (fp_packs _ _ Hfs)|].
  rewrite <- Hpp in P1, P2, P3.
  destruct (cut_part cf_coder_unpack_sizes past f rest (zlen cs) Hf Ho64) as (O1 & O2 & O3); [by rewrite (fp_outs _ _ Hfs)|].
  destruct (cut_part (λ f, all_but_last (cf_file_sizes f)) past f rest (saturating_sub (zlen (wf_items f)) 1) Hf He64) as (E1 & E2 & E3).
  { cbn. rewrite (fp_sizes _ _ Hfs). unfold all_but_last, saturating_sub, zlen. rewrite length_take, length_map, length_fmap. lia. }
  destruct (cut_part cf_file_crcs past f rest (zlen (wf_items f)) Hf Hd64) as (D1 & D2 & D3).
  { rewrite (fp_crcs _ _ Hfs), zlen_map. unfold zlen. by rewrite length_fmap. }
  rewrite P1. cbn [ok_or]. change (pack_size pack) with (concat (map cf_pack_sizes (cfs folders))). rewrite P2. cbn [ok_or].
  rewrite chain_total; [|eapply Forall_impl; [exact Hall|]; by intros c [? _]|unfold MAX_FOLDER_STREAMS in Hlen; lia]. cbn [ok_or].
  rewrite O1. cbn [ok_or]. rewrite (uo_sizes _ _ Hunpack), O2. cbn [ok_or].
  assert (cf_coder_unpack_sizes (wf_folder f) !! fg_final_output g = Some (zlen (item_data (wf_items f)))) as ->.
  { rewrite <- (fp_last _ _ Hfs), last_lookup, Hfinal. f_equal. pose proof (fp_outs _ _ Hfs). unfold zlen in *. lia. }
  cbn [ok_or].
  assert (FolderPlans_folder_stream_count st = Ok (zlen (wf_items f))) as ->.
  { unfold FolderPlans_folder_stream_count, st. cbn [fp_substream_info fp_folder_index written_plans].
    unfold sub, substream_info_of, file_counts. cbn [num_unpack_streams_per_folder].
    change (zlen past) with (Z.of_nat (length past)). rewrite get_lookup.
    change (map file_count (cfs folders)) with (file_count <$> (wf_folder <$> folders)). rewrite !list_lookup_fmap, Hat.
    cbn [fmap option_fmap option_map ok_or]. unfold file_count. rewrite (fp_files _ _ Hfs).
    assert (zlen (wf_items f).*1 = zlen (wf_items f)) as -> by (unfold zlen; by rewrite length_fmap).
    unfold usize_try_from. rewrite decide_True; [done|]. pose proof (zlen_nonneg (wf_items f)). unfold is_u64 in Hd64.
    pose proof (zlen_nonneg (concat (map cf_file_crcs (cfs past)))). 
    assert (zlen (concat (map cf_file_crcs (cfs (past ++ [f])))) ≤ zlen (concat (map cf_file_crcs (cfs folders)))); [|lia].
    rewrite Hcfs, map_app. change (map wf_folder [f]) with [wf_folder f]. rewrite concat_map_snoc, zlen_app. apply zlen_concat_part. }
  rewrite E1. cbn [ok_or]. change (substream_sizes sub) with (concat (map (λ f, all_but_last (cf_file_sizes f)) (cfs folders))).
  rewrite E2. cbn [ok_or]. rewrite D1. cbn [ok_or].
  assert (match substream_digests sub with
    | [] => Ok []
    | digests => ok_or (get_range (zlen (concat (map cf_file_crcs (cfs past))))
        (zlen (concat (map cf_file_crcs (cfs past))) + zlen (wf_items f)) digests) Parse
    end = Ok (cf_file_crcs (wf_folder f))) as ->.
  { assert (substream_digests sub = concat (map cf_file_crcs (cfs folders))) as -> by (by rewrite sub_digests, (written_crcs _ _ Hshapes)).
    destruct (concat (map cf_file_crcs (cfs folders))) eqn:Ec; [|by rewrite D2].
    assert (cf_file_crcs (wf_folder f) = []) as ->; [|done].
    rewrite Hcfs, map_app, concat_app in Ec. cbn [map concat] in Ec. apply app_nil in Ec as [_ Ec].
    by apply app_nil in Ec as [Ec _]. }
  rewrite (fp_sizes _ _ Hfs), (fp_crcs _ _ Hfs).
  rewrite item_layout_new by exact (Forall_lookup_1 _ _ _ _ Hdata Hat).
  assert (try_fold sum_sizes_step (zlen (packed_streams past)) (cf_pack_sizes (wf_folder f)) =
    Ok (zlen (packed_streams (past ++ [f])))) as ->.
  { rewrite (fp_packs _ _ Hfs). unfold packed_streams. rewrite concat_map_snoc, zlen_app.
    pose proof (zlen_nonneg (concat (map wf_packed past))). pose proof (zlen_nonneg (wf_packed f)).
    pose proof (zlen_concat_part wf_packed past f rest) as Hpart. rewrite <- Hf in Hpart. change (concat (map wf_packed folders)) with (packed_streams folders) in Hpart.
    rewrite sum_sizes_total; [|constructor; [unfold is_u64; lia|constructor]|lia|unfold sum_z; cbn; lia].
    f_equal. unfold sum_z. cbn. lia. }
  rewrite (fp_packs _ _ Hfs). rewrite O3, E3, D3.
  assert (zlen past + 1 = zlen (past ++ [f])) as -> by (rewrite zlen_app; done).
  assert (default [] (get_range (zlen past) (zlen (past ++ [f]) `min` zlen (pack_digests pack)) (pack_digests pack)) = [None]) as ->.
  { assert (pack_digests pack = replicate (length past) None ++ [None] ++ replicate (length rest) None) as Hpd.
    { unfold pack, pack_info_of. cbn [pack_digests]. rewrite (written_packs _ _ Hshapes), length_map, Hf, length_app. cbn [length].
      by rewrite replicate_add. }
    rewrite Hpd. rewrite (get_range_mid _ [None]); [done|unfold zlen; by rewrite length_replicate|].
    rewrite !zlen_app. unfold zlen. rewrite !length_replicate. cbn [length]. lia. }
  assert (mjoin (get (Z.of_nat (length past)) (unpack_digests unpack)) = None) as ->.
  { rewrite (uo_digests _ _ Hunpack), get_lookup. change (map cf_folder_crc (cfs folders)) with (cf_folder_crc <$> (wf_folder <$> folders)).
    rewrite !list_lookup_fmap, Hat. cbn. apply (fp_crc _ _ Hfs). }
  unfold written_layout, written_plans. change (Z.of_nat (length past) + 1) with (zlen past + 1).
  assert (zlen past + 1 = zlen (past ++ [f])) as -> by (rewrite zlen_app; done). done.
Qed.

(** All folders were handed out. *)
Lemma written_complete : FolderPlans_validate_complete (written_plans folders) = Ok tt.
Proof.
  assert (UnpackInfo_num_folders_usize unpack = zlen folders) as Hn.
  { unfold UnpackInfo_num_folders_usize. rewrite (uo_offsets _ _ Hunpack), block_offsets_length, zlen_map. lia. }
  assert (zlen (pack_size pack) = zlen folders) as Hp.
  { unfold pack, pack_info_of. cbn [pack_size]. by rewrite (written_packs _ _ Hshapes), zlen_map. }
  unfold FolderPlans_validate_complete. cbn [fp_unpack_info fp_pack_info fp_pack_index fp_output_base fp_stream_size_base
    fp_stream_digest_base fp_substream_info written_plans]. rewrite Hn, Hp.
  rewrite decide_False; [done|]. intros [?|[Hs|[Hu|[Ho|[[_ Hd]|[[_ Hd]|Hd]]]]]].
  - done.
  - rewrite <- Hp in Hs. by apply Hs.
  - rewrite (uo_num _ _ Hunpack), zlen_map in Hu. done.
  - rewrite (uo_sizes _ _ Hunpack) in Ho. done.
  - rewrite <- Hp in Hd. apply Hd. unfold pack, pack_info_of, zlen. cbn. by rewrite length_replicate.
  - rewrite (uo_digests _ _ Hunpack), !zlen_map in Hd. done.
  - apply bool_decide_eq_false in Hd. apply Hd. split_and!; [|done|].
    + unfold sub, substream_info_of, file_counts. cbn. by rewrite !zlen_map.
    + right. by rewrite sub_digests, (written_crcs _ _ Hshapes).
Qed.

(** The layouts of all folders, each after the packed streams of those before it. *)
Inductive layouts_of : Z → list WrittenFolder → list (list CoderInfo) → list FolderLayout → Prop :=
| layouts_nil offset : layouts_of offset [] [] []
| layouts_cons offset f cs g fs css ls :
    Folder_graph (chain_folder cs) = Ok g → layouts_of (offset + zlen (wf_packed f)) fs css ls →
    layouts_of offset (f :: fs) (cs :: css) (written_layout f cs g offset :: ls).

Lemma written_collect fuel past rest pcs css :
  folders = past ++ rest → chains = pcs ++ css → length past = length pcs → (length rest < fuel)%nat →
  ∃ ls st, FolderPlans_collect fuel (written_plans past) = Ok (ls, st) ∧
    layouts_of (zlen (packed_streams past)) rest css ls.
Proof.
  assert (UnpackInfo_num_folders_usize unpack = zlen folders) as Hn.
  { unfold UnpackInfo_num_folders_usize. rewrite (uo_offsets _ _ Hunpack), block_offsets_length, zlen_map. lia. }
  revert past pcs css fuel. induction rest as [|f rest IH]; intros past pcs css fuel Hf Hc Hl Hfuel;
    (destruct fuel as [|fuel]; [lia|]); cbn [FolderPlans_collect]; unfold FolderPlans_next;
    cbn [fp_finished written_plans fp_folder_index fp_unpack_info]; rewrite Hn;
    pose proof (Forall2_length _ _ _ Hshapes) as Hlen; rewrite Hf, Hc, !length_app in Hlen.
  - destruct css; [|cbn in Hlen; lia]. rewrite app_nil_r in Hf. rewrite <- Hf, decide_True by done. rewrite written_complete.
    eexists _, _. split; [done|constructor].
  - destruct css as [|cs css]; [cbn in Hlen; lia|]. rewrite decide_False
      by (rewrite Hf, zlen_app, zlen_cons; pose proof (zlen_nonneg rest); lia).
    destruct (written_next past f rest pcs cs css Hf Hc Hl) as (g & Hg & ->).
    destruct (IH (past ++ [f]) (pcs ++ [cs]) css fuel) as (ls & st & Hcol & Hls);
      [by rewrite <- app_assoc|by rewrite <- app_assoc|rewrite !length_app; cbn; lia|cbn in Hfuel; lia|].
    rewrite Hcol. eexists _, _. split; [done|]. constructor; [done|].
    unfold packed_streams in Hls. by rewrite concat_map_snoc, zlen_app in Hls.
Qed.

End iteration.
