(* ===== verification/WrittenStreams.v ===== *)
(** * The streams of a written archive (src/src/file_streams.rs)

    The traversal of a written archive joins every entry that has data with the substream
    that holds it. *)

From stdpp Require Import base numbers list option sets strings.
From Stdlib Require Import ZArith Lia.
From S2P Require Import Prelude PropertyId Parsers Method CoderInfo Folder Error Operation Readers Resources FolderGraph PackInfo StreamInfo FilesInfo Aes DecoderPlan DecoderRun Entries FolderDecode FolderRead FileStreams Listing WriteHeader RoundTrip StreamRoundTrip CoderRoundTrip FilesRoundTrip HeaderRoundTrip WriteOptions Writers Lzma2Encoder WriteFolders StreamingFolder FolderWriting ArchiveWriter ArchiveWritten FolderCodecs WrittenLayouts.

(** ** The substreams of a folder *)

Section streams.
  Context `{Crc32}.

Fixpoint item_streams (offset : Z) (ds : list bytes) : list Substream :=
  match ds with
  | [] => []
  | d :: ds => {| ss_range := {| br_start := offset; br_end := offset + zlen d |}; ss_digest := Some (crc32 d) |} ::
      item_streams (offset + zlen d) ds
  end.

Lemma item_streams_at offset past d rest :
  item_streams offset (past ++ d :: rest) !! length past =
  Some {| ss_range := {| br_start := offset + zlen (concat past); br_end := offset + zlen (concat past) + zlen d |};
          ss_digest := Some (crc32 d) |}.
Proof.
  revert offset. induction past as [|p past IH]; intros offset; cbn [app length item_streams concat lookup].
  - by rewrite Z.add_0_r.
  - rewrite zlen_app, Z.add_assoc. apply IH.
Qed.

Lemma length_item_streams offset ds : length (item_streams offset ds) = length ds.
Proof. revert offset. induction ds as [|d ds IH]; intros offset; cbn; [done|]. by rewrite IH. Qed.

Lemma all_but_last_lookup (l : list Z) k :
  (k < length l)%nat → match all_but_last l !! k with Some s => Some s | None => last l end = l !! k.
Proof.
  intros Hk. unfold all_but_last. destruct (decide (k < length l - 1)%nat).
  - rewrite lookup_take_lt by done. by destruct (lookup_lt_is_Some_2 l k Hk) as [x ->].
  - rewrite lookup_take_ge by lia. rewrite last_lookup. f_equal. lia.
Qed.

Lemma item_layout_len items : FolderStreamLayout_len (item_layout items) = zlen items.
Proof.
  unfold FolderStreamLayout_len, item_layout. cbn [fl_explicit_sizes fl_final_size]. unfold all_but_last, zlen.
  rewrite length_take, length_map, length_fmap, last_lookup. destruct items as [|i items]; [done|].
  rewrite decide_True; [cbn; lia|]. apply lookup_lt_is_Some. rewrite length_map, length_fmap. cbn. lia.
Qed.

(** A folder hands out the slices of its entries. *)
Lemma item_walks items past rest :
  items.*2 = past ++ rest → zlen (concat items.*2) ≤ u64_max →
  walks {| sub_layout := item_layout items; sub_position := zlen past; sub_offset := zlen (concat past) |}
    (item_streams (zlen (concat past)) rest)
    {| sub_layout := item_layout items; sub_position := zlen items; sub_offset := zlen (concat items.*2) |}.
Proof.
  revert past. induction rest as [|d rest IH]; intros past Hi Hmax; cbn [item_streams].
  { rewrite app_nil_r in Hi. rewrite <- Hi. unfold zlen at 1. rewrite length_fmap. constructor. }
  assert (items.*2 !! length past = Some d) as Hat by (rewrite Hi; by apply list_lookup_middle).
  assert (zlen items = zlen past + 1 + zlen rest) as Hlen.
  { apply (f_equal (@length _)) in Hi. rewrite length_fmap, length_app in Hi. cbn in Hi. unfold zlen. lia. }
  pose proof (zlen_nonneg rest). pose proof (zlen_nonneg past). pose proof (zlen_nonneg (concat past)). pose proof (zlen_nonneg d).
  assert (zlen (concat past) + zlen d ≤ u64_max) as Hle.
  { rewrite Hi, concat_app in Hmax. cbn [concat] in Hmax. rewrite !zlen_app in Hmax. pose proof (zlen_nonneg (concat rest)). lia. }
  econstructor.
  - unfold Substreams_next. cbn [sub_layout sub_position sub_offset]. rewrite item_layout_len, decide_False by lia.
    assert (∀ A (l : list A), get (zlen past) l = l !! length past) as Hget by (intros; apply get_lookup).
    rewrite !Hget. cbn [item_layout fl_explicit_sizes fl_final_size fl_digests].
    rewrite all_but_last_lookup by (apply lookup_lt_Some in Hat; by rewrite length_map).
    change (map zlen items.*2) with (zlen <$> items.*2). rewrite list_lookup_fmap, Hat. cbn [fmap option_fmap option_map].
    destruct (range_step (zlen (concat past)) (zlen d)) as [Ha Hb]; [lia..|]. rewrite Ha. cbv beta iota. rewrite Hb.
    change (map (λ d, Some (crc32 d)) items.*2) with ((λ d, Some (crc32 d)) <$> items.*2).
    rewrite list_lookup_fmap, Hat. cbn [fmap option_fmap option_map mjoin option_join]. reflexivity.
  - specialize (IH (past ++ [d])). rewrite <- app_assoc in IH. specialize (IH Hi Hmax).
    rewrite zlen_app, concat_app, zlen_app in IH. cbn [concat] in IH. rewrite app_nil_r in IH. exact IH.
Qed.

Lemma item_layout_walks items :
  zlen (concat items.*2) ≤ u64_max →
  ∃ st, walks (FolderStreamLayout_streams (item_layout items)) (item_streams 0 items.*2) st ∧ at_end st.
Proof.
  intros Hmax. eexists. split; [apply (item_walks items [] items.*2 eq_refl Hmax)|].
  unfold at_end. cbn [sub_position sub_layout]. by rewrite item_layout_len.
Qed.

(** ** The substreams of all folders *)

Fixpoint folder_locations (index : Z) (fs : list WrittenFolder) (ls : list FolderLayout) : list StreamLocation :=
  match fs, ls with
  | f :: fs, l :: ls => locations index l 0 (item_streams 0 (wf_items f).*2) ++ folder_locations (index + 1) fs ls
  | _, _ => []
  end.

Lemma layouts_located index offset fs css ls :
  layouts_of offset fs css ls → Forall (λ f, zlen (item_data (wf_items f)) ≤ u64_max) fs →
  located index ls (folder_locations index fs ls).
Proof.
  intros Hls. revert index. induction Hls as [offset|offset f cs g fs css ls Hg _ IH]; intros index Hd; [constructor|].
  apply Forall_cons in Hd as [Hf Hd]. destruct (item_layout_walks (wf_items f) Hf) as (st & Hw & He).
  cbn [folder_locations]. by eapply located_cons; [exact Hw|exact He|apply IH].
Qed.

Lemma length_folder_locations index fs ls :
  length fs = length ls → length (folder_locations index fs ls) = length (written_items fs).
Proof.
  revert index ls. induction fs as [|f fs IH]; intros index [|l ls] Hl; try done. cbn [folder_locations].
  unfold written_items in *. cbn [map concat]. rewrite !length_app, length_locations, length_item_streams, length_fmap.
  by rewrite IH by (by injection Hl).
Qed.

(** The location of an entry of a folder. *)
Lemma folder_locations_at index past f rest ls n l ipast i d irest :
  length (past ++ f :: rest) = length ls → ls !! length past = Some l → wf_items f = ipast ++ (i, d) :: irest →
  n = (length (written_items past) + length ipast)%nat →
  folder_locations index (past ++ f :: rest) ls !! n =
  Some {| loc_folder_index := index + zlen past; loc_stream_index := zlen ipast; loc_folder := l;
          loc_stream := {| ss_range := {| br_start := zlen (item_data ipast); br_end := zlen (item_data ipast) + zlen d |};
                           ss_digest := Some (crc32 d) |} |}.
Proof.
  revert index ls n. induction past as [|p past IH]; intros index ls n Hl Hat Hi ->; (destruct ls as [|l0 ls]; [done|]);
    cbn [app folder_locations].
  - cbn in Hat. injection Hat as ->. cbn [written_items map concat length Nat.add].
    rewrite lookup_app_l by (rewrite length_locations, length_item_streams, length_fmap, Hi, length_app; cbn; lia).
    pose proof (item_streams_at 0 ipast.*2 d irest.*2) as Hs. rewrite length_fmap in Hs.
    assert ((wf_items f).*2 = ipast.*2 ++ d :: irest.*2) as Hds by (rewrite Hi, fmap_app; done).
    rewrite locations_lookup, Hds, Hs. cbn [fmap option_fmap option_map].
    unfold item_data. rewrite !Z.add_0_r, ?Z.add_0_l. done.
  - unfold written_items. cbn [map concat]. fold (written_items past). rewrite length_app.
    rewrite lookup_app_r by (rewrite length_locations, length_item_streams, length_fmap; lia).
    rewrite length_locations, length_item_streams, length_fmap.
    rewrite IH; [|by injection Hl|done|done|lia].
    rewrite zlen_cons. do 2 f_equal. lia.
Qed.

End streams.

(** ** The traversal *)

Lemma walks_same st ss1 st1 ss2 st2 : walks st ss1 st1 → walks st ss2 st2 → zlen ss1 = zlen ss2 → ss1 = ss2.
Proof.
  intros H1. revert ss2. induction H1 as [st|st s st1 ss st' Hn _ IH]; intros ss2 H2 Hl.
  - destruct ss2; [done|]. rewrite zlen_cons, zlen_nil in Hl. pose proof (zlen_nonneg ss2). lia.
  - destruct H2 as [|st s2 st1' ss2 st2' Hn2 H2]; [rewrite zlen_cons, zlen_nil in Hl; pose proof (zlen_nonneg ss); lia|].
    rewrite Hn in Hn2. injection Hn2 as <- <-. rewrite !zlen_cons in Hl. f_equal. apply IH; [done|lia].
Qed.

Lemma located_same index ls a b : located index ls a → located index ls b → a = b.
Proof.
  intros Ha. revert b. induction Ha as [index|index folder ls ss st locs Hw He _ IH]; intros b Hb; [by inversion Hb|].
  apply located_cons_inv in Hb as (ss' & st' & later & Hw' & He' & Hl & ->). f_equal; [|by apply IH].
  f_equal. eapply walks_same; [exact Hw|exact Hw'|].
  rewrite <- (walks_len _ _ _ Hw He), <- (walks_len _ _ _ Hw' He'); [done|apply layout_len_nonneg..].
Qed.

Section traversal.
  Context `{Nom} `{Crc32}.
  Context (folders : list WrittenFolder) (chains : list (list CoderInfo)).
  Context (Hshapes : Forall2 folder_shape folders chains).
  Context (Hok : folders_ok (map wf_folder folders)) (Hmax : zlen (packed_streams folders) ≤ u64_max).
  Context (Hdata : Forall (λ f, zlen (item_data (wf_items f)) ≤ u64_max) folders).
  Context (unpack : UnpackInfo) (Hunpack : unpack_info_of (map wf_folder folders) unpack).
Let streams : StreamInfo := {| si_pack_info := Some (pack_info_of (map wf_folder folders)); si_unpack_info := Some unpack;
  si_substream_info := Some (substream_info_of (map wf_folder folders)) |}.

Lemma written_stream_count : substream_count (zlen folders) (si_substream_info streams) = Ok (zlen (written_items folders)).
Proof.
  unfold substream_count, streams, substream_info_of. cbn [si_substream_info num_unpack_streams_per_folder].
  assert (zlen (file_counts (map wf_folder folders)) = zlen folders) as -> by (unfold file_counts, zlen; by rewrite !length_map).
  rewrite decide_True by done.
  destruct (file_counts_u64 _ Hok) as [Hall Htotal]. unfold total_streams in Htotal.
  assert (foldr Z.add 0 (file_counts (map wf_folder folders)) = zlen (written_items folders)) as Hsum.
  { clear -Hshapes. unfold written_items, file_counts. induction Hshapes as [|f c fs cs Hf _ IH]; [done|].
    cbn [map foldr concat]. inversion Hshapes; subst. rewrite IH, zlen_app by done. unfold file_count at 1. rewrite (fp_files _ _ Hf).
    assert (zlen (wf_items f).*1 = zlen (wf_items f)) as -> by (unfold zlen; by rewrite length_fmap). done. }
  rewrite <- Hsum. clear Hsum.
  assert (∀ acc, 0 ≤ acc → acc + foldr Z.add 0 (file_counts (map wf_folder folders)) ≤ u64_max →
    try_fold (λ total count, let? count := ok_or (usize_try_from count) Parse in ok_or (checked_add total count) Parse)
      acc (file_counts (map wf_folder folders)) = Ok (acc + foldr Z.add 0 (file_counts (map wf_folder folders)))) as Hfold;
    [|apply Hfold; lia].
  clear Htotal. induction Hall as [|n ns Hn Hns IH]; intros acc Ha Hle; cbn [try_fold foldr] in *; [by rewrite Z.add_0_r|].
  assert (0 ≤ foldr Z.add 0 ns) by (clear -Hns; induction Hns as [|m ms Hm _ IH]; cbn; unfold is_u64 in *; lia).
  unfold is_u64 in Hn. unfold usize_try_from. rewrite decide_True by lia. cbn [ok_or]. unfold checked_add at 1.
  rewrite decide_True by lia. cbn [ok_or]. rewrite IH by lia. f_equal. lia.
Qed.

(** The traversal of the listing of some entries: as many with data as there are substreams. *)
Lemma written_file_streams files n :
  Entries_stream_count (Entries_new files (Z.of_nat n)) = zlen (written_items folders) →
  ∃ fs ls, FileStreams_new files (Z.of_nat n) (Some streams) = Ok fs ∧ fi_pack_pos fs = 0 ∧
    layouts_of 0 folders chains ls ∧
    files_have fs (Entries_collect n (Entries_new files (Z.of_nat n))) (folder_locations 0 folders ls).
Proof.
  intros Hcount.
  pose proof (written_collect folders chains Hshapes Hok Hmax Hdata unpack Hunpack (plans_fuel unpack) [] folders [] chains
    eq_refl eq_refl eq_refl) as (ls & st & Hcol & Hls).
  { unfold plans_fuel. rewrite (uo_offsets _ _ Hunpack). pose proof (block_offsets_length 0 (map wf_folder folders)) as Hb.
    rewrite zlen_map in Hb. unfold zlen in Hb. lia. }
  cbn in Hls. exists (default {| fi_entries := Entries_new files (Z.of_nat n); fi_streams := {| sl_folders := None; sl_current := None |}; fi_pack_pos := 0 |} (result_ok (FileStreams_new files (Z.of_nat n) (Some streams)))), ls.
  assert (UnpackInfo_num_folders_usize unpack = zlen folders) as Hn.
  { unfold UnpackInfo_num_folders_usize. rewrite (uo_offsets _ _ Hunpack), block_offsets_length, zlen_map. lia. }
  assert (∃ fs, FileStreams_new files (Z.of_nat n) (Some streams) = Ok fs ∧ fi_pack_pos fs = 0) as (fs & Hfs & Hpos).
  { unfold FileStreams_new. cbn [si_unpack_info streams]. unfold FolderLayouts_for_streams.
    assert (StreamInfo_packed_folders streams = Ok (pack_info_of (map wf_folder folders), unpack)) as -> by done.
    rewrite Hn. rewrite decide_False; [rewrite written_stream_count; cbn [result_map]|].
    - rewrite decide_False by (cbn [fls_stream_count]; rewrite Hcount; lia). by eexists.
    - rewrite (uo_num _ _ Hunpack), (uo_digests _ _ Hunpack), !zlen_map. intros [Hc|[[_ Hc]|[Hc|[_ Hc]]]]; try done.
      apply Hc. unfold pack_info_of, zlen. cbn. by rewrite length_replicate. }
  rewrite Hfs. cbn [result_ok default]. split_and!; [done|done|done|].
  destruct (FileStreams_new_spec files n streams (pack_info_of (map wf_folder folders)) unpack ls st fs) as (_ & _ & locs & Hloc & Hf).
  - done.
  - done.
  - rewrite (uo_sizes _ _ Hunpack). apply Forall_concat_map. eapply Forall_impl; [apply fs_all, Hok|]. intros f Hf. apply Hf.
  - intros info [= <-]. apply Forall_concat_map. eapply Forall_impl; [apply fs_all, Hok|]. intros f Hf.
    apply Forall_take, Hf.
  - done.
  - by rewrite (located_same _ _ _ _ (layouts_located 0 0 folders chains ls Hls Hdata) Hloc).
Qed.

End traversal.

(** ** Entries *)

(** An element of a concatenation is in one of its parts. *)
Lemma concat_map_split {A B} (f : A → list B) l a x b :
  concat (map f l) = a ++ x :: b →
  ∃ past y rest ipast irest, l = past ++ y :: rest ∧ f y = ipast ++ x :: irest ∧ a = concat (map f past) ++ ipast.
Proof.
  revert a. induction l as [|y l IH]; intros a; cbn [map concat]; [by destruct a|]. intros Heq.
  destruct (decide (length (f y) ≤ length a)%nat) as [Hle|Hlt].
  - assert (a = f y ++ drop (length (f y)) a) as Ha.
    { rewrite <- (take_drop (length (f y)) a) at 1. f_equal.
      apply (f_equal (take (length (f y)))) in Heq. rewrite take_app_length, take_app_le in Heq by done. done. }
    rewrite Ha, <- app_assoc in Heq. apply app_inv_head in Heq.
    destruct (IH _ Heq) as (past & z & rest & ipast & irest & -> & Hz & Hdrop).
    exists (y :: past), z, rest, ipast, irest. split_and!; [done|done|]. cbn [map concat]. rewrite Ha, Hdrop. by rewrite app_assoc.
  - exists [], y, l, a, (drop (S (length a)) (f y)). split_and!; [done| |done].
    rewrite <- (take_drop (length a) (f y)) at 1. apply (f_equal (λ z, (take (length a) z, drop (length a) z))) in Heq.
    rewrite take_app_le, drop_app_le, take_app_length, drop_app_length in Heq by lia. injection Heq as Ht Hd.
    rewrite Ht. f_equal. destruct (drop (length a) (f y)) as [|z zs] eqn:Ed.
    + apply (f_equal length) in Ed. rewrite length_drop in Ed. cbn in Ed. lia.
    + injection Hd as -> _. f_equal. apply (f_equal tail) in Ed. cbn in Ed. rewrite <- Ed.
      change (S (length a)) with (1 + length a)%nat. rewrite Nat.add_comm, <- drop_drop. by destruct (drop (length a) (f y)).
Qed.

Lemma log_items_from_app k a b : log_items_from k (a ++ b) = log_items_from k a ++ log_items_from (k + zlen a) b.
Proof.
  revert k. induction a as [|x a IH]; intros k; cbn [app log_items_from]; [by rewrite Z.add_0_r|].
  rewrite IH, zlen_cons, app_assoc. do 2 f_equal. lia.
Qed.

(** The item of an entry with data, after those of the entries before it. *)
Lemma log_items_at log i l d :
  log !! i = Some l → lg_data l = Some d →
  ∃ rest, log_items log = log_items (take i log) ++ (Z.of_nat i, d) :: rest.
Proof.
  intros Hl Hd. pose proof (lookup_lt_Some _ _ _ Hl) as Hlt. 
  assert (log_items log = log_items (take i log ++ l :: drop (S i) log)) as -> by by rewrite take_drop_middle.
  unfold log_items. rewrite log_items_from_app. cbn [log_items_from]. rewrite Hd. cbn [app].
  unfold zlen. rewrite length_take, Nat.min_l, Z.add_0_l by lia. by eexists.
Qed.

Lemma entry_logged_stream e l : entry_logged e l → has_stream e = bool_decide (is_Some (lg_data l)).
Proof. intros [id ->]. by destruct (lg_data l). Qed.

Lemma length_log_items log entries k :
  Forall2 entry_logged entries log →
  length (log_items_from k log) = length (filter (λ e, has_stream e = true) entries).
Proof.
  intros Hl. revert k. induction Hl as [|e l entries log He _ IH]; intros k; [done|]. cbn [log_items_from].
  rewrite length_app, IH, filter_cons, (entry_logged_stream _ _ He).
  destruct (lg_data l) as [d|].
  - rewrite decide_True by by apply bool_decide_eq_true. done.
  - rewrite decide_False; [done|]. intros Hb%bool_decide_eq_true. by destruct Hb.
Qed.

Lemma written_kind_stream e : EntryKind_has_stream (written_kind e) = has_stream e.
Proof. unfold written_kind. by destruct (has_stream e), (is_symlink_attributes _), (we_kind e). Qed.

(** The kinds of the entries of an iterator. *)
Lemma collect_kinds ents n : it_end ents = it_start ents + Z.of_nat n →
  map en_kind (Entries_collect n ents) = map (Entries_kind ents) (seqZ (it_start ents) (Z.of_nat n)).
Proof.
  revert ents. induction n as [|n IH]; intros ents Hn; [done|]. cbn [Entries_collect].
  unfold Entries_next, Entries_nth. rewrite decide_True by lia.
  destruct (match it_names ents with None => _ | Some _ => _ end) as [name names]. rewrite Z.add_0_r. cbn [map].
  rewrite seqZ_cons by lia. cbn [map]. f_equal. rewrite IH by (cbn; lia). cbn [it_start].
  replace (Z.pred (Z.of_nat (S n))) with (Z.of_nat n) by lia. replace (Z.succ (it_start ents)) with (it_start ents + 1) by lia. done.
Qed.

Section listing.
  Context (entries : list WriteEntry) (f : FilesInfo) (Hf : view f = listing_of entries).
Let ents : Entries := Entries_new (Some f) (Z.of_nat (length entries)).
Let es : list (Entry unit) := Entries_collect (length entries) ents.

Lemma written_kinds : map en_kind es = map written_kind entries.
Proof.
  unfold es. rewrite collect_kinds by done. cbn [ents Entries_new it_start].
  apply list_eq. intros i. change (map ?g ?l) with (g <$> l). rewrite !list_lookup_fmap.
  destruct (entries !! i) as [e|] eqn:Ei.
  - pose proof (lookup_lt_Some _ _ _ Ei). rewrite lookup_seqZ_lt by lia. cbn.
    rewrite Z.add_0_l. f_equal. by eapply listing_entry_kind.
  - apply lookup_ge_None in Ei. by rewrite lookup_seqZ_ge by lia.
Qed.

Lemma stream_entries_kinds (l : list (Entry unit)) k :
  map en_kind l = map written_kind k → stream_entries l = length (filter (λ e, has_stream e = true) k).
Proof.
  revert k. induction l as [|e l IH]; intros [|w k]; try done. cbn [map]. intros [= He Hl].
  rewrite stream_entries_cons, filter_cons, (IH _ Hl). unfold carries_stream. rewrite He, written_kind_stream.
  by destruct (has_stream w).
Qed.

Lemma written_entries_count log : Forall2 entry_logged entries log →
  Entries_stream_count ents = zlen (log_items log).
Proof.
  intros Hlog. destruct (enum_entries ents (length entries) ltac:(cbn; lia)) as (es' & _ & _ & Hc & Hs). fold es in Hc. subst es'.
  rewrite <- Hs, (stream_entries_kinds _ _ written_kinds). unfold zlen, log_items.
  by rewrite (length_log_items _ _ _ Hlog).
Qed.

(** An entry joined with its stream. *)
Lemma bind_entries_at (l : list (Entry unit)) locs i e :
  length locs = stream_entries l → l !! i = Some e →
  bind_entries l locs !! i =
    if carries_stream e then with_stream e <$> locs !! stream_entries (take i l) else Some (without_stream e).
Proof.
  intros Hl Hi. pose proof (bind_entries_drop i l locs Hl) as Hdrop. rewrite (drop_S _ _ _ Hi) in Hdrop. cbn [bind_entries] in Hdrop.
  assert (∀ A (m : list A) k, m !! k = head (drop k m)) as Hhead by (intros; by rewrite head_lookup, lookup_drop, Nat.add_0_r).
  rewrite !Hhead, <- Hdrop. destruct (carries_stream e); [|done]. by destruct (drop _ locs).
Qed.

End listing.
