(* ===== verification/FolderServes.v ===== *)
(** * Reading an entry of an intact folder (src/src/archive.rs, src/src/folder_decode.rs)

    A folder whose decoder delivers the data of its entries hands out each of them: the
    entries before it are skipped, its own data are copied to a writer that has room for
    them, and the folder may be left after it. *)

From stdpp Require Import base numbers list option strings.
From Stdlib Require Import ZArith Lia.
From S2P Require Import Prelude Method Error Operation Readers Resources FolderGraph Aes DecoderPlan DecoderRun FolderDecode FolderRead EntryReads WriteOptions Writers FolderWriting ArchiveWritten WrittenLayouts WrittenStreams.

(** ** Copies *)

Section copies.
  Context {W : Type} `{Writer W} (contents : W → bytes) (room : W → bytes → Prop).
  (** A writer with room for some bytes takes any beginning of them. *)
  Context (Htakes : ∀ w b more, room w (b ++ more) →
    ∃ w', write_all w b = (Ok tt, w') ∧ contents w' = contents w ++ b ∧ room w' more).
  Context (sizes : nat → N) (Hsizes : ∀ k, (0 < sizes k)%N).

Lemma copy_succeeds `{Crc32} {S} `{Reader S} rest fuel w written (s : SubstreamReader S) d :
  room w d → su_gives rest s d → (length d < fuel)%nat →
  ∃ w' s', run_consumer (copy_entry fuel sizes w written) s = ((Ok (written + zlen d), w'), s') ∧
    contents w' = contents w ++ d ∧ room w' [] ∧ su_gives rest s' [].
Proof.
  revert w written s d. induction fuel as [|fuel IH]; intros w written s d Hroom Hs Hf; [lia|].
  cbn [copy_entry run_consumer]. set (size := N.min (sizes fuel) COPY_CAPACITY).
  assert (0 < Z.of_N size) as Hpos by (unfold size, COPY_CAPACITY; specialize (Hsizes fuel); lia). clearbody size.
  destruct (reader_read s (Z.of_N size)) as [r s1] eqn:Er.
  destruct (substream_read_gives rest s d _ _ _ Hs (Z.lt_le_incl _ _ Hpos) Er) as (c & d1 & -> & -> & Hs1 & Hend).
  destruct c as [|b c].
  - cbn [app] in *. specialize (Hend Hpos eq_refl). subst d1. exists w, s1. by rewrite app_nil_r, zlen_nil, Z.add_0_r.
  - destruct (Htakes _ _ _ Hroom) as (w1 & -> & Hc1 & Hroom1). rewrite length_app in Hf. cbn in Hf.
    destruct (IH w1 (written + zlen (b :: c)) s1 d1 Hroom1 Hs1 ltac:(lia)) as (w' & s' & -> & Hc & Hr & Hs').
    exists w', s'. rewrite Hc, Hc1, <- app_assoc, zlen_app, Z.add_assoc. done.
Qed.

End copies.

(** The bounded output takes what its limit allows. *)
Definition limited_room (o : LimitedOutput) (d : bytes) : Prop :=
  ro_exceeded o = false ∧
  match ro_limit o with Some limit => zlen (ro_bytes o) + zlen d ≤ limit ≤ usize_max | None => True end.

Lemma limited_takes o b more :
  limited_room o (b ++ more) →
  ∃ o', write_all o b = (Ok tt, o') ∧ ro_bytes o' = ro_bytes o ++ b ∧ limited_room o' more.
Proof.
  intros [Hx Hl]. set (o1 := {| ro_bytes := ro_bytes o ++ b; ro_limit := ro_limit o; ro_exceeded := false |}).
  assert (limited_room o1 more) as Hroom.
  { split; [done|]. cbn. destruct (ro_limit o); [|done]. rewrite zlen_app in Hl |- *. lia. }
  change (write_all o b) with (write_all_loop (S (length b)) o b). cbn [write_all_loop].
  destruct b as [|x b]; [exists o; split_and!; [done|by rewrite app_nil_r|by split]|].
  assert (LimitedOutput_write o (x :: b) = (Ok (zlen (x :: b)), o1)) as ->.
  { unfold LimitedOutput_write. cbv zeta. set (remaining := match ro_limit o with None => _ | Some _ => _ end).
    assert (zlen (x :: b) ≤ remaining) as Hr.
    { unfold remaining, saturating_sub, usize_try_from. pose proof (zlen_nonneg (ro_bytes o)). pose proof (zlen_nonneg more).
      destruct (ro_limit o); [|lia]. rewrite zlen_app in Hl. case_decide; cbn; lia. }
    clearbody remaining. rewrite (Z.min_l _ _ Hr), decide_False by lia.
    rewrite to_nat_zlen, firstn_all, Hx. done. }
  rewrite decide_False by (rewrite zlen_cons; pose proof (zlen_nonneg b); lia).
  rewrite to_nat_zlen, drop_all. cbn [length write_all_loop]. by exists o1.
Qed.

(** ** Folders *)

Section folders.
  Context `{Crc32} {S : Type} `{Reader S}.
  Context (io_fuel : nat) (io_sizes : nat → Z) (Hsizes : ∀ k, 0 < io_sizes k).
  Implicit Types self : ActiveFolder S.

(** A callback that reads the bytes [d] to their end and accepts them. *)
Definition takes_all {E} (consume : Strategy (result unit R7zError * E)) (d : bytes) (done : E → Prop) : Prop :=
  ∀ rest (s : SubstreamReader S), su_gives rest s d →
    ∃ env' s', run_consumer consume s = ((Ok tt, env'), s') ∧ done env' ∧ su_gives rest s' [].

Lemma read_stream_with_succeeds {E} self budget (consume : E → Strategy (result unit R7zError * E)) env done st streams d rest :
  active_ok self budget → Substreams_next (af_streams self) = Ok (Some st, streams) →
  delivers 0 (af_reader self) (d ++ rest) → verified_stream st d →
  unlimited budget (af_budgeted_eagerly self) → takes_all (consume env) d done → (length d < io_fuel)%nat →
  ∃ self' budget' env', ActiveFolder_read_stream_with io_fuel io_sizes self budget consume env = (Ok self', budget', env') ∧ done env' ∧
    af_streams self' = streams ∧ af_budgeted_eagerly self' = af_budgeted_eagerly self ∧
    delivers 0 (af_reader self') rest ∧ unlimited budget' (af_budgeted_eagerly self).
Proof.
  intros Ha En Hd Hv Hun Hw Hf. unfold ActiveFolder_read_stream_with. rewrite En.
  pose proof (stream_content_gives _ _ _ _ _ _ Ha En Hd Hv Hun) as Hg.
  destruct (Hw _ _ Hg) as (env' & c1 & Ec & Hdone & Hg1).
  destruct (close_stream_succeeds io_fuel io_sizes Hsizes _ _ _ _ _ _ _ _ _ d [] Ha En Hd Hv Hf Hg Ec)
    as (self' & b' & Hc & Hrest); [by rewrite app_nil_r|done|].
  exists self', b', env'. by rewrite Ec, Hc.
Qed.

Lemma item_streams_app offset a b : item_streams offset (a ++ b) = item_streams offset a ++ item_streams (offset + zlen (concat a)) b.
Proof.
  revert offset. induction a as [|d a IH]; intros offset; cbn [app item_streams concat]; [by rewrite Z.add_0_r|].
  by rewrite IH, zlen_app, Z.add_assoc.
Qed.

Lemma item_streams_verified offset ds : Forall2 verified_stream (item_streams offset ds) ds.
Proof.
  revert offset. induction ds as [|d ds IH]; intros offset; constructor; [|done].
  split; [unfold ByteRange_len; cbn; lia|]. by intros x [= <-].
Qed.

(** A folder that holds these entries and whose decoder delivers their data. *)
Record holds_items self (budget : OperationBudget) (items : list (Z * bytes)) : Prop := {
  hi_ok : active_ok self budget;
  hi_streams : af_streams self = FolderStreamLayout_streams (item_layout items);
  hi_digest : af_digest self = Absent;
  hi_size : af_unpack_size self = zlen (item_data items);
  hi_data : delivers 0 (af_reader self) (item_data items);
  hi_free : unlimited budget (af_budgeted_eagerly self)
}.

Lemma active_serves {E} self budget items before i d after (consume : E → Strategy (result unit R7zError * E)) env done :
  holds_items self budget items → items = before ++ (i, d) :: after →
  zlen (item_data items) ≤ u64_max → (length (item_data items) < io_fuel)%nat → takes_all (consume env) d done →
  ∃ self1 b1 self2 b2 env' v b3, done env' ∧
    ActiveFolder_skip_to io_fuel io_sizes self (zlen before) budget = (Ok self1, b1) ∧
    ActiveFolder_read_stream_with io_fuel io_sizes self1 b1 consume env = (Ok self2, b2, env') ∧
    ActiveFolder_finish io_fuel io_sizes self2 SelectedStreams b2 = (Ok v, b3) ∧ om_control (ob_monitor b3) = None.
Proof.
  intros [Ha Hst Hdig Hsz Hdel Hfree] Hitems Hmax Hfuel Htake.
  assert (items.*2 = before.*2 ++ d :: after.*2) as Hds by (rewrite Hitems, fmap_app; done).
  assert (item_data items = concat before.*2 ++ d ++ concat after.*2) as Hdata
    by (unfold item_data; rewrite Hds, concat_app; done).
  pose proof (item_walks items [] items.*2 eq_refl Hmax) as Hw. change (zlen (concat [])) with 0 in Hw.
  set (last := {| sub_layout := item_layout items; sub_position := zlen items; sub_offset := zlen (concat items.*2) |}) in Hw.
  assert (sub_offset last = zlen (item_data items) ∧ sub_position last = zlen items) as [Hlo Hlp] by done. clearbody last.
  rewrite Hds, item_streams_app in Hw.
  apply walks_app_inv in Hw as (st1 & Hw1 & Hw2). cbn [item_streams] in Hw2.
  set (s := {| ss_range := _; ss_digest := _ |}) in Hw2.
  assert (∃ st2, Substreams_next st1 = Ok (Some s, st2) ∧ walks st2 (item_streams (0 + zlen (concat before.*2) + zlen d) after.*2) last)
    as (st2 & Hn & Hw3) by (inversion Hw2; eauto). clear Hw2.
  change {| sub_layout := item_layout items; sub_position := zlen []; sub_offset := 0 |}
    with (FolderStreamLayout_streams (item_layout items)) in Hw1. rewrite <- Hst in Hw1.
  rewrite Hdata in Hdel, Hfuel. rewrite !length_app in Hfuel.
  destruct (read_streams_succeeds io_fuel io_sizes Hsizes self budget (ignoring (zlen before)) _ st1 before.*2 (d ++ concat after.*2)
    Ha Hw1) as (self1 & b1 & Hr1 & Hst1 & He1 & Hd1 & Hf1); [apply item_streams_verified|done|done|..].
  { apply Forall_replicate. constructor. }
  { unfold ignoring. rewrite length_replicate, length_item_streams, length_fmap. apply to_nat_zlen. }
  { lia. }
  destruct (read_streams_spec io_fuel io_sizes Hsizes _ _ _ _ _ Ha Hr1) as (ss1 & ds1 & R1).
  assert (verified_stream s d) as Hv.
  { pose proof (item_streams_verified (0 + zlen (concat before.*2)) [d]) as Hv. by inversion Hv. }
  rewrite <- Hst1 in Hn. rewrite <- He1 in Hf1.
  destruct (read_stream_with_succeeds self1 b1 consume env done s st2 d (concat after.*2) (fr_ok _ _ _ _ _ _ _ R1) Hn Hd1 Hv Hf1 Htake ltac:(lia))
    as (self2 & b2 & env' & Hr2 & Hdone & Hst2 & He2 & Hd2 & Hf2).
  destruct (read_stream_with_spec io_fuel io_sizes Hsizes _ _ _ _ _ _ _ (fr_ok _ _ _ _ _ _ _ R1) Hr2) as [_ Hspec].
  destruct (Hspec _ eq_refl) as (s' & seen & more & _ & _ & _ & R2).
  pose proof (folder_reads_trans _ _ _ _ _ _ _ _ _ _ _ _ R1 R2) as R.
  assert (af_digest self2 = Absent) as Habs by by rewrite (fr_digest _ _ _ _ _ _ _ R), Hdig.
  exists self1, b1, self2, b2, env'. unfold ActiveFolder_skip_to, ActiveFolder_position. rewrite Hst. cbn [FolderStreamLayout_streams sub_position sub_layout].
  rewrite decide_True, Z.sub_0_r, Hr1, Hr2.
  2:{ rewrite item_layout_len, Hitems, zlen_app, zlen_cons. pose proof (zlen_nonneg before). pose proof (zlen_nonneg after). lia. }
  unfold ActiveFolder_finish. rewrite Habs. destruct (decide _) as [Hne|Heq].
  { exists SelectedEntries, b2. split_and!; try done. apply Hf2. }
  assert (Substreams_len (af_streams self2) = 0) as Hlen by lia. rewrite Hlen. change (ignoring 0) with (@nil Consumer). cbn [read_streams].
  assert (after = []) as ->.
  { pose proof (fr_walks _ _ _ _ _ _ _ R) as Hr. rewrite Hst, Hst2 in Hr.
    destruct (walks_spec _ _ _ Hr (layout_len_nonneg _)) as (Hl & _ & Hle). cbn [sub_layout FolderStreamLayout_streams] in Hl, Hle.
    destruct (walks_spec _ _ _ Hw3) as (_ & Hp & _); [by rewrite Hl|].
    unfold Substreams_len in Hlen. rewrite Hst2, Hl, item_layout_len in Hlen. rewrite Hlp, Hitems, zlen_app, zlen_cons in Hp.
    rewrite Hitems, zlen_app, zlen_cons in Hlen.
    destruct after; [done|]. unfold zlen in *. rewrite length_item_streams, length_fmap in Hp. cbn in Hp, Hlen. lia. }
  pose proof (fr_ok _ _ _ _ _ _ _ R) as (Hoff & _). rewrite Hst2 in Hoff.
  assert (st2 = last) as -> by by inversion Hw3.
  rewrite Hlo in Hoff.
  rewrite decide_False by (rewrite Hoff, (fr_size _ _ _ _ _ _ _ R), Hsz; tauto).
  destruct (delivers_read _ _ _ 1 Hd2 ltac:(lia)) as [c rest' r' m' -> _ Hc0 _ _ _|e r' m' _ _ Hm _]; [|lia].
  symmetry in Hc0. apply app_nil in Hc0 as [-> _]. rewrite Habs. cbn [DigestState_finish].
  exists CompleteFolders, b2. split_and!; try done. apply Hf2.
Qed.

End folders.
