(* ===== verification/WrittenReads.v ===== *)
(** * Reading the folders of a written archive (src/src/archive.rs, src/src/folder_decode.rs)

    The layout of a written folder binds to its packed stream, its decoder starts, and
    every entry of it reads back through the decoder that entries share. *)

From stdpp Require Import base numbers list option strings.
From Stdlib Require Import ZArith Lia.
From S2P Require Import Prelude Method CoderInfo Folder Error Operation Readers Resources FolderGraph Aes FilesInfo DecoderPlan DecoderRun Entries FolderDecode FolderRead FolderBounds FileStreams Locations ArchiveSource PackedSource ArchiveNames EntryReads Headers Archive WriteHeader RoundTrip StreamRoundTrip CoderRoundTrip WriteOptions Writers Lzma2Encoder WriteFolders FolderWriting ArchiveWritten FolderCodecs WrittenLayouts WrittenStreams FolderServes.

(** ** Free budgets *)

(** Nothing cancels or limits reading. *)
Definition free_budget (b : OperationBudget) : Prop :=
  unhindered b ∧ max_total_decoded_bytes (ob_limits b) = None.

(** The memory that the options leave to decoders. *)
Definition decoder_limit (options : ResourceLimits) : Z :=
  match max_decoder_working_set_bytes options with
  | None => MAX_DECODER_WORKING_SET_BYTES
  | Some configured => Z.min configured MAX_DECODER_WORKING_SET_BYTES
  end.

(** Decoding charges no metadata. *)
Definition same_metadata (b b' : OperationBudget) : Prop :=
  ob_metadata b' = ob_metadata b ∧ ob_limits b' = ob_limits b.

#[local] Instance same_metadata_preorder : PreOrder same_metadata.
Proof. split; [done|]. intros b1 b2 b3 [? ?] [? ?]. split; congruence. Qed.

Lemma admit_within b ws : ws ≤ decoder_limit (ob_limits b) →
  ∃ b', WorkingSet_admit ws b = Ok (ws, b') ∧ (free_budget b → free_budget b') ∧ same_metadata b b'.
Proof.
  intros Hws. unfold WorkingSet_admit, admit_decoder_working_set. fold (decoder_limit (ob_limits b)).
  rewrite decide_False by lia. eexists. by split.
Qed.

Lemma free_monitor b : free_budget b → monitor_check b = (Ok tt, set_monitor b (ob_monitor b)) ∧
  free_budget (set_monitor b (ob_monitor b)).
Proof. intros Hb. split; [apply monitor_check_free, Hb|done]. Qed.

Lemma open_metadata `{Decoders} `{BlockCipher} `{Sha256} {S} `{Reader S} retries plan (input : S) i o password b r b' :
  CoderPlan_open retries plan input i o password b = (r, b') → same_metadata b b'.
Proof.
  destruct plan; cbn [CoderPlan_open]; try (by intros [= _ <-]).
  unfold aes_coder_reader. destruct password as [pw|]; [|by intros [= _ <-]].
  destruct (kdf_cycles _) as [cycles|]; [|by intros [= _ <-]].
  destruct (charge_kdf_cycles b cycles) as [b1|] eqn:Ec; [|by intros [= _ <-]].
  destruct (derive_key_with_control _ _ _ _) as [key control]. intros [= _ <-].
  unfold charge_kdf_cycles in Ec. destruct (KdfBudget_charge _ _); [|done]. by injection Ec as <-.
Qed.

Lemma open_steps_metadata `{Decoders} `{BlockCipher} `{Sha256} {R} `{Reader R} retries password steps n
    (reader : chain_reader R n) b r b' :
  open_steps retries steps reader password b = (r, b') → same_metadata b b'.
Proof.
  revert n reader b. induction steps as [|s steps IH]; intros n reader b; cbn [open_steps]; [by intros [= _ <-]|].
  destruct (DecodeStep_open retries s reader password b) as [[r1|] b1] eqn:E; apply open_metadata in E; [|by intros [= _ <-]].
  intros Hr. etrans; [exact E|by eapply IH].
Qed.

(** A reader that only passes on what another reads. *)
Lemma unlift_delivers {A B} `{Reader A} `{Reader B} (f : A → B) m a data :
  (∀ a n, reader_read (f a) n = lift_read f (reader_read a n)) → delivers m (f a) data → delivers m a data.
Proof.
  intros Hf Hd. exists (λ m a d, delivers m (f a) d). split; [|done]. clear m a data Hd. intros m a d n Hd Hn.
  destruct (delivers_read _ _ _ n Hd Hn) as [c rest s' m' Hr Hc He Hnil Hm Hd'|e s' m' Hr Hi Hm Hd'];
    rewrite Hf in Hr; destruct (reader_read a n) as [r a'] eqn:Ea; injection Hr as -> <-.
  - by eapply read_gives.
  - by eapply read_interrupted.
Qed.

(** ** Folders *)

Section folders.
  Context `{Nom} `{Crc32} `{LzmaMemory} `{Decoders} `{BlockCipher} `{Sha256}.
  Context (plain_decodes : PlainDecoder → bytes → bytes → Prop)
          (checked_decodes : CheckedDecoder → bytes → bytes → Prop).
  Context (Hspec : decoders_spec plain_decodes checked_decodes) (Hdec : decoders_bounded) (Hcbc : cbc_inverse).
  Context (source : ArchiveSource) (data : bytes) (Hsource : source_is source data).
  Context (retries : nat) (Hretries : (0 < retries)%nat) (password : option (list Z)).

(** The packed stream of a chain where the archive holds it, and what it decodes to. *)
Record stored_chain (start : Z) (ks : list KnownCoder) (packed out : bytes) (offset : Z) : Prop := {
  sf_back : decodes_back plain_decodes checked_decodes password ks packed out;
  sf_outputs : Forall is_u64 (map kc_output ks);
  sf_start : 0 ≤ start ∧ 0 ≤ offset;
  sf_end : start + offset + zlen packed ≤ zlen data;
  sf_packed : sub_list (start + offset) (start + offset + zlen packed) data = packed;
  sf_data : zlen out ≤ u64_max
}.

Definition chain_layout (ks : list KnownCoder) (g : FolderGraph) (packed out : bytes) (offset : Z)
    (layout : FolderStreamLayout) : FolderLayout := {|
  lo_folder := chain_folder (map kc_coder ks);
  lo_graph := g;
  lo_streams := {| pst_sizes := [zlen packed]; pst_digests := [None]; pst_start := offset |};
  lo_coder_sizes := map kc_output ks;
  lo_unpack_size := zlen out;
  lo_crc := None;
  lo_layout := layout
|}.

Context (start : Z) (ks : list KnownCoder) (packed out : bytes) (offset : Z).
Context (Hstored : stored_chain start ks packed out offset).
Context (g : FolderGraph) (Hg : Folder_graph (chain_folder (map kc_coder ks)) = Ok g).
Context (layout : FolderStreamLayout).
Abbreviation packs := {| pk_source := source; pk_start := start |}.

Lemma stored_input :
  ∃ stream input, PackedStreams_iter {| pst_sizes := [zlen packed]; pst_digests := [None]; pst_start := offset |} = Ok [stream] ∧
    PackedSource_reader packs stream = Ok input ∧ pi_size input = zlen packed ∧ delivers 0 (pi_reader input) packed.
Proof.
  destruct Hstored as [_ _ [Hs Ho] He Hp _]. pose proof (zlen_nonneg packed). pose proof Hsource as (Hmax & _).
  destruct (packed_streams_scan_spec [None] offset 0 [zlen packed]) as (streams & Hout & Hr & Hc).
  { constructor; [unfold is_u64; lia|constructor]. }
  { unfold sum_z. cbn. lia. }
  destruct streams as [|stream [|]]; try done. cbn in Hr, Hc. injection Hr as Hr. injection Hc as Hc.
  destruct (PackedSource_reader_spec source data Hsource start stream Hs) as [Hread Hex]; [rewrite Hr; cbn; lia|].
  rewrite Hr in Hread, Hex. cbn [br_start br_end] in Hread, Hex. rewrite Z.add_assoc, Hp in Hread, Hex.
  destruct Hex as [input Hin]; [done|by rewrite Hc|].
  destruct (Hread _ Hin) as (_ & _ & Hsize & Hdel). exists stream, input. split_and!; [exact Hout|done|lia|done].
Qed.

Lemma stored_plan b :
  chain_memory ks ≤ decoder_limit (ob_limits b) → free_budget b →
  ∃ plan b', DecoderPlan_compile_with_budget (chain_folder (map kc_coder ks)) g (zlen out) (map kc_output ks) [zlen packed] b =
      Ok (plan, b') ∧ free_budget b' ∧ same_metadata b b' ∧
    dp_topology plan = Chain (known_steps (zlen packed) ks) ∧ dp_inputs plan = [zlen packed].
Proof.
  destruct Hstored as [[Hne Hchain Hshort Hcomp Hkept Hmeth Hmem Hruns Hlast] _ _ _ _ _]. intros Hws Hfree.
  destruct (admit_within b _ Hws) as (b' & Hadm & Hf' & Hmeta).
  destruct (known_chain_compiles ks (zlen packed) g b (chain_memory ks) b') as [Hc Hp]; try done.
  { unfold MAX_FOLDER_CODERS. lia. }
  { apply add_known_memory; [done|]. unfold MAX_FOLDER_CODERS. lia. }
  eexists _, b'. unfold DecoderPlan_compile_with_budget. rewrite <- Hlast, Hc, Hp. split_and!; auto.
Qed.

(** Its layout binds, and the decoder delivers what was packed. *)
Lemma stored_chain_binds b :
  chain_memory ks ≤ decoder_limit (ob_limits b) → free_budget b →
  ∃ decoder b1, FolderLayout_bind (chain_layout ks g packed out offset layout) (PackedSource_reader packs) b =
      (Ok {| rf_decoder := decoder; rf_layout := layout; rf_unpack_size := zlen out; rf_crc := None |}, b1) ∧
    free_budget b1 ∧ same_metadata b b1 ∧ ∀ b, unhindered b →
      ∃ reader b', ReadyDecoder_start retries decoder password b = (Ok (Stream reader), b') ∧
        delivers 0 (Stream reader) out ∧ unhindered b' ∧ same_metadata b b'.
Proof.
  intros Hws Hfree. destruct (stored_plan _ Hws Hfree) as (plan & b1 & Hplan & Hf1 & Hmeta & Htop & Hins).
  destruct stored_input as (stream & input & Hiter & Hread & Hsize & Hdel).
  assert (∃ decoder, DecoderPlan_bind plan [input] = Ok decoder) as [decoder Hbind].
  { unfold DecoderPlan_bind, PackedLayout_bind. rewrite Hins, Htop. cbn.
    rewrite bool_decide_eq_false_2 by tauto. cbn. by eexists. }
  exists decoder, b1. split_and!; [|done|done|].
  - unfold FolderLayout_bind, chain_layout.
    cbn [lo_folder lo_graph lo_unpack_size lo_coder_sizes lo_streams pst_sizes lo_layout lo_crc].
    rewrite Hplan, Hiter. cbn [try_collect]. by rewrite Hread, Hbind.
  - intros b0 Hb0.
    destruct (started_chain_delivers retries password plain_decodes checked_decodes plan _ [input] input 0 packed []
      out decoder b0 Hspec Hcbc Htop Hbind eq_refl) as (reader & b2 & m & Hs & Hd & Hm & Hu & _);
      [by rewrite app_nil_r|done|apply Hstored|done|done|].
    assert (m = 0%nat) as -> by lia.
    assert ((∃ r, reader = Stream r) ∧ same_metadata b0 b2) as [[r ->] Hmeta2]; [|by exists r, b2].
    destruct (bind_chain _ _ _ _ Htop Hbind) as (i & rest & _ & _ & ->). unfold ReadyDecoder_start in Hs. cbn [rd_topology] in Hs.
    destruct (open_steps _ _ _ _ _) as [[r|] b3] eqn:Eo; [|done]. apply open_steps_metadata in Eo.
    injection Hs as <- <-. split; [by exists r|done].
Qed.

Lemma stored_layout_sized : layout_sized (chain_layout ks g packed out offset layout).
Proof.
  pose proof (zlen_nonneg out). pose proof (zlen_nonneg packed). pose proof Hsource as (Hmax & _).
  destruct Hstored as [_ Hu [? ?] ? _ ?]. split; [unfold is_u64; cbn; lia|done|].
  constructor; [unfold is_u64; lia|constructor].
Qed.

(** A folder of entries starts at the first of them. *)
Lemma stored_chain_starts items b :
  out = item_data items → layout = item_layout items →
  chain_memory ks ≤ decoder_limit (ob_limits b) → free_budget b → budget_ok b →
  ∃ ready b1 active b2,
    FolderLayout_bind (chain_layout ks g packed out offset layout) (PackedSource_reader packs) b = (Ok ready, b1) ∧
    ReadyFolder_start retries ready password b1 = (Ok active, b2) ∧ holds_items active b2 items.
Proof.
  intros Ho Hl Hws Hfree Hok. destruct (stored_chain_binds _ Hws Hfree) as (decoder & b1 & Hb & Hf1 & Hmeta1 & Hstarts).
  set (ready := {| rf_decoder := decoder |}) in Hb.
  pose proof (proj1 (FolderLayout_bind_stays _ _ _ _ _ Hb) Hok) as Hok1.
  destruct (Hstarts b1 (proj1 Hf1)) as (reader & b2 & Hs & Hd & Hu & Hmeta2).
  set (eager := ReadyDecoder_eager_output_size decoder).
  set (active := {| af_reader := Stream reader; af_streams := FolderStreamLayout_streams layout;
    af_digest := Absent; af_decoded_len := 0; af_unpack_size := zlen out;
    af_budgeted_eagerly := bool_decide (is_Some eager) |}).
  assert (∃ b3, ReadyFolder_start retries ready password b1 = (Ok active, b3) ∧ unhindered b3) as (b3 & Hstart & Hu3).
  { unfold ReadyFolder_start. cbn [rf_decoder ready]. fold eager. destruct eager as [size|] eqn:Ee.
    - unfold with_eager_decoded_output, next_decoded. destruct Hf1 as [_ Hnone]. rewrite Hnone.
      destruct (checked_add _ size); cbn [over]; rewrite Hs; eexists; (split; [by unfold active; rewrite Ee|done]).
    - rewrite Hs. eexists. split; [by unfold active; rewrite Ee|done]. }
  pose proof stored_layout_sized as Hsized.
  destruct (open_spec retries Hdec _ _ _ _ _ _ Hsized Hb Hok1 _ _ Hstart) as [Hok3 Hact].
  destruct (Hact _ eq_refl) as [_ Ha]. exists ready, b1, active, b3.
  pose proof (FolderLayout_bind_sized _ _ _ _ _ Hsized Hb) as Hrs.
  destruct (ReadyFolder_start_spec retries password Hdec ArchiveRangeReader_ok _ _ _ _ Hrs Hstart) as [[_ Hlim] _].
  destruct Hf1 as [_ Hnone]. rewrite <- Hlim in Hnone. split_and!; [done|done|].
  split; try done; [by rewrite <- Hl|cbn; by rewrite Ho|cbn; by rewrite <- Ho|]. split; [apply Hu3|by left].
Qed.

(** A chain that holds a header is decoded whole. *)
Lemma stored_chain_collects io_fuel io_sizes limit b :
  (∀ k, 0 < io_sizes k) → (length out < io_fuel)%nat → zlen out ≤ limit → zlen out < u64_max →
  chain_memory ks ≤ decoder_limit (ob_limits b) → free_budget b →
  ∃ ready b1 b2,
    FolderLayout_bind (chain_layout ks g packed out offset layout) (PackedSource_reader packs) b = (Ok ready, b1) ∧
    ReadyFolder_collect retries io_fuel io_sizes ready password limit b1 =
      (Ok {| dec_bytes := out; dec_layout := layout |}, b2) ∧ same_metadata b b2.
Proof.
  intros Hsizes Hfuel Hlim Hmax Hws Hfree. destruct (stored_chain_binds _ Hws Hfree) as (decoder & b1 & Hb & Hf1 & Hmeta1 & Hstarts).
  destruct (Hstarts b1 (proj1 Hf1)) as (reader & b2 & Hs & Hd & Hu & Hmeta2). eexists _, b1, b2. split; [exact Hb|].
  split; [|by etrans].
  pose proof (zlen_nonneg out). unfold ReadyFolder_collect. cbn [rf_unpack_size rf_decoder rf_layout rf_crc].
  unfold usize_try_from, checked_add, usize_max. rewrite !decide_True by lia. cbn [ok_or]. rewrite decide_False by lia.
  rewrite Hs. cbn [FolderReader_read_bounded_to_vec]. apply (unlift_delivers Stream) in Hd; [|done].
  apply (Take_delivers 0 _ _ (zlen out + 1)) in Hd; [|lia]. rewrite take_ge in Hd by (unfold zlen; lia).
  destruct (read_to_end_delivers io_fuel io_sizes 0 _ out [] Hsizes Hd) as [s' ->]; [lia|].
  cbn [fst map_err app]. unfold verify_folder_output. rewrite decide_False by tauto. done.
Qed.

End folders.

(** ** Entries *)

Section entries.
  Context `{Nom} `{Crc32} `{LzmaMemory} `{Decoders} `{BlockCipher} `{Sha256}.
  Context (plain_decodes : PlainDecoder → bytes → bytes → Prop)
          (checked_decodes : CheckedDecoder → bytes → bytes → Prop).
  Context (Hspec : decoders_spec plain_decodes checked_decodes) (Hdec : decoders_bounded) (Hcbc : cbc_inverse).
  Context (source : ArchiveSource) (data : bytes) (Hsource : source_is source data).
  Context (retries io_fuel : nat) (io_sizes : nat → Z) (Hretries : (0 < retries)%nat) (Hsizes : ∀ k, 0 < io_sizes k).
  Context (password : option (list Z)) (start : Z).
Abbreviation packs := {| pk_source := source; pk_start := start |}.

(** A location in a written folder, and the data of its entry. *)
Record stored_entry (loc : StreamLocation) (limit : Z) (d : bytes) : Prop := {
  se_folder : ∃ f ks g offset before i after,
    stored_chain plain_decodes checked_decodes data password start ks (wf_packed f) (item_data (wf_items f)) offset ∧
    Folder_graph (chain_folder (map kc_coder ks)) = Ok g ∧ chain_memory ks ≤ limit ∧
    loc_folder loc = chain_layout ks g (wf_packed f) (item_data (wf_items f)) offset (item_layout (wf_items f)) ∧ loc_stream_index loc = zlen before ∧
    wf_items f = before ++ (i, d) :: after ∧ (length (item_data (wf_items f)) < io_fuel)%nat
}.

(** A decoder before it opened a folder. *)
Record fresh_decoder (self : EntryDecoder) : Prop := {
  fd_current : ed_current self = None;
  fd_source : ed_source self = packs;
  fd_password : ed_password self = password;
  fd_mode : ed_mode self = SelectedStreams;
  fd_free : free_budget (ed_budget self);
  fd_ok : budget_ok (ed_budget self)
}.

Lemma decoder_reads_entry {E} self entry loc d (callback : ArchiveEntryInfo → E → Strategy (result unit R7zError * E)) env done :
  fresh_decoder self → stored_entry loc (decoder_limit (ob_limits (ed_budget self))) d → re_content entry = ContentStream loc →
  takes_all (S := FolderReader ArchiveRangeReader) (callback (re_info entry) env) d done →
  ∃ self' env' v self'', EntryDecoder_read retries io_fuel io_sizes self entry callback env = (Ok tt, self', env') ∧ done env' ∧
    EntryDecoder_finish io_fuel io_sizes self' = (Ok v, self'').
Proof.
  intros [Hcur Hsrc Hpw Hmode Hfree Hok] [(f & ks & g & offset & before & i & after & Hst & Hg & Hws & Hlay & Hidx & Hit & Hfuel)] Hc Htake.
  destruct (free_monitor _ Hfree) as [Hm Hfree1].
  destruct (stored_chain_starts plain_decodes checked_decodes Hspec Hdec Hcbc source data Hsource retries Hretries password
    start ks _ _ offset Hst g Hg _ (wf_items f) (set_monitor (ed_budget self) (ob_monitor (ed_budget self))) eq_refl eq_refl Hws Hfree1)
    as (ready & b1 & active & b2 & Hbind & Hstart & Hholds); [by apply set_monitor_ok|].
  destruct (active_serves io_fuel io_sizes Hsizes active b2 _ _ _ _ _ _ env done Hholds Hit (sf_data _ _ _ _ _ _ _ _ _ Hst) Hfuel Htake)
    as (self1 & b3 & self2 & b4 & env' & v & b5 & Hdone & Hskip & Hread & Hfin & Hfree5).
  eexists _, env', _, _. unfold EntryDecoder_read, EntryDecoder_read_stream, EntryDecoder_open, EntryDecoder_complete.
  rewrite Hm, Hc. cbn [ed_set ed_current ed_source ed_password ed_mode ed_budget ed_verification].
  rewrite Hcur. cbn [ed_set ed_current ed_source ed_password ed_mode ed_budget ed_verification].
  rewrite Hsrc, Hpw, Hlay. cbn [ed_set ed_current ed_source ed_password ed_mode ed_budget ed_verification].
  rewrite Hbind, Hstart. cbn [ed_set ed_current ed_source ed_password ed_mode ed_budget ed_verification].
  rewrite Hidx, Hskip, Hread. split_and!; [done|done|].
  unfold EntryDecoder_finish, EntryDecoder_complete. cbn [ed_set ed_current ed_source ed_password ed_mode ed_budget ed_verification].
  rewrite Hmode, Hfin. cbn [ed_set ed_current ed_source ed_password ed_mode ed_budget ed_verification].
  by rewrite (monitor_check_free _ Hfree5).
Qed.

(** The copy of an entry to a writer with room for it. *)
Lemma copying_takes {W} `{Writer W} (contents : W → bytes) room copy_sizes (w : W) d :
  (∀ w b more, room w (b ++ more) → ∃ w', write_all w b = (Ok tt, w') ∧ contents w' = contents w ++ b ∧ room w' more) →
  (∀ k, (0 < copy_sizes k)%N) → room w d → (length d < io_fuel)%nat →
  takes_all (S := FolderReader ArchiveRangeReader) (copying io_fuel copy_sizes (0, w)) d
    (λ '(n, w'), n = zlen d ∧ contents w' = contents w ++ d ∧ room w' []).
Proof.
  intros Htakes Hcopy Hroom Hfuel rest s Hs.
  destruct (copy_succeeds contents room Htakes copy_sizes Hcopy rest io_fuel w 0 s d Hroom Hs Hfuel) as (w' & s' & Hr & Hc & Hroom' & Hs').
  exists (zlen d, w'), s'. unfold copying. rewrite run_map, Hr. by split_and!.
Qed.

End entries.

(** Reading that nothing limits. *)
Record reads_freely (config : ArchiveReadConfig) : Prop := {
  rf_limits : limits_ok (rc_options config);
  rf_decoded : max_total_decoded_bytes (rc_options config) = None;
  rf_kdf : max_total_kdf_cycles (rc_options config) = None;
  rf_control : rc_control config = None
}.

Section extraction.
  Context `{Nom} `{Crc32} `{LzmaMemory} `{Decoders} `{BlockCipher} `{Sha256}.
  Context (plain_decodes : PlainDecoder → bytes → bytes → Prop)
          (checked_decodes : CheckedDecoder → bytes → bytes → Prop).
  Context (Hspec : decoders_spec plain_decodes checked_decodes) (Hdec : decoders_bounded) (Hcbc : cbc_inverse).
  Context (retries io_fuel : nat) (io_sizes : nat → Z) (copy_sizes : nat → N).
  Context (Hretries : (0 < retries)%nat) (Hsizes : ∀ k, 0 < io_sizes k) (Hcopy : ∀ k, (0 < copy_sizes k)%N).
  Context (self : Archive) (data : bytes) (Hsource : source_is (ar_source self) data) (Hbase : ar_base_offset self = 0).
  Context (files : option FilesInfo) (Hfiles : Archive_try_files_info self = Ok files).
  Context (config : ArchiveReadConfig) (Hfree : reads_freely config).
Let ents := Entries_new files (Archive_num_files self).

Lemma extract_stored {W} `{Writer W} (contents : W → bytes) room (w : W) i entry fs file loc d :
  (∀ w b more, room w (b ++ more) → ∃ w', write_all w b = (Ok tt, w') ∧ contents w' = contents w ++ b ∧ room w' more) →
  room w d → (i < Z.to_nat (Archive_num_files self))%nat →
  fst (Entries_nth ents i) = Some entry → EntryKind_has_stream (en_kind entry) = true →
  Archive_file_streams self = Ok fs → fi_pack_pos fs = 0 → fst (FileStreams_nth fs i) = Ok (Some file) →
  (en_kind file = K_File loc ∨ en_kind file = K_Symlink loc) →
  stored_entry plain_decodes checked_decodes data io_fuel (rc_password config) 32 loc (decoder_limit (rc_options config)) d →
  ∃ w', Archive_extract_to_writer_with_options retries io_fuel io_sizes copy_sizes self (Z.of_nat i) w config = (Ok (zlen d), w') ∧
    contents w' = contents w ++ d ∧ room w' [].
Proof.
  intros Htakes Hroom Hi He Hstream Hfs Hpos Hnth Hkind Hstored.
  destruct (file_streams_entries _ _ Hfs) as (files' & Hf' & Hents). rewrite Hfiles in Hf'. injection Hf' as <-.
  pose proof Hstored as [(f & _ & _ & _ & before & j & after & _ & _ & _ & _ & _ & Hitems & Hfuel)].
  assert (length d < io_fuel)%nat as Hd.
  { revert Hfuel. unfold item_data. rewrite Hitems, fmap_app, concat_app. cbn. rewrite !length_app. lia. }
  set (decoder := {| ed_verification := CompleteFolders; ed_source := {| pk_source := ar_source self; pk_start := 32 |};
    ed_current := None; ed_password := rc_password config; ed_mode := SelectedStreams;
    ed_budget := with_control (OperationBudget_new (rc_options config)) (rc_control config) |}).
  assert (fresh_decoder (ar_source self) (rc_password config) 32 decoder) as Hfresh.
  { destruct Hfree as [Hl Hdec0 Hk Hctl]. split; try done. cbn. by apply set_monitor_ok, budget_new_ok. }
  assert (Archive_decoder self fs SelectedStreams config = Ok decoder) as Hdecoder.
  { unfold Archive_decoder, PackedSource_new. rewrite Hbase, Hpos. done. }
  change (rc_options config) with (ob_limits (ed_budget decoder)) in Hstored at 1. clearbody decoder.
  set (session := {| as_files := fs; as_decoder := decoder; as_count := Archive_num_files self |}).
  assert (Archive_read_session_with_options self config = Ok session) as Hsession.
  { unfold Archive_read_session_with_options. by rewrite Hfs, Hdecoder. }
  assert (∃ rentry, ReadableEntry_from_file file = Some rentry ∧ re_content rentry = ContentStream loc) as (rentry & Hre & Hcontent).
  { unfold ReadableEntry_from_file. by destruct Hkind as [-> | ->]; eexists. }
  destruct (decoder_reads_entry plain_decodes checked_decodes Hspec Hdec Hcbc (ar_source self) data Hsource retries io_fuel io_sizes
    Hretries Hsizes (rc_password config) 32 decoder rentry loc d (λ _, copying io_fuel copy_sizes) (0, w)
    (λ '(n, w'), n = zlen d ∧ contents w' = contents w ++ d ∧ room w' []) Hfresh Hstored Hcontent)
    as (decoder1 & [n w'] & v & decoder2 & Hread & (-> & Hc & Hr) & Hfin); [by apply copying_takes|].
  exists w'. split; [|done]. unfold Archive_extract_to_writer_with_options. rewrite Hfiles. fold ents.
  rewrite Nat2Z.id, He. cbn [ok_or].
  assert (ArchiveReadSession_extract_to_writer retries io_fuel io_sizes copy_sizes session (Z.of_nat i) w =
    (Ok (zlen d), {| as_files := snd (FileStreams_nth fs i); as_decoder := decoder1; as_count := Archive_num_files self |}, w')) as Hx.
  { unfold ArchiveReadSession_extract_to_writer, ArchiveReadSession_read_entry, FileStreams_len. cbn [as_count as_files session].
    rewrite Hents. cbn [Entries_new it_end it_start]. rewrite decide_True by lia.
    replace (Z.to_nat _) with i by lia. destruct (FileStreams_nth fs i) as [file' fs']. cbn in Hnth. subst file'.
    cbn [ok_or]. rewrite Hre. cbn [ok_or as_decoder session]. change (as_decoder session) with decoder. unfold copying in Hread. by rewrite Hread. }
  assert (ArchiveReadSession_finish io_fuel io_sizes {| as_files := snd (FileStreams_nth fs i); as_decoder := decoder1; as_count := Archive_num_files self |} =
    (Ok v, {| as_files := snd (FileStreams_nth fs i); as_decoder := decoder2; as_count := Archive_num_files self |})) as Hfinish.
  { unfold ArchiveReadSession_finish. cbn [as_decoder]. by rewrite Hfin. }
  destruct (en_kind entry); try done; by rewrite Hsession, Hx, Hfinish.
Qed.

End extraction.
