(* ===== verification/EncodedOpens.v ===== *)
(** * A written archive with an encoded header opens (src/src/archive.rs, src/src/headers.rs)

    The header was compressed, and encrypted if the options ask for it. The descriptor that
    stands in its place leads the reader to the packed header, which decodes to the header
    that was written. *)

From stdpp Require Import base numbers list option strings gmap.
From Stdlib Require Import ZArith Lia.
From S2P Require Import Prelude PropertyId Parsers Method CoderInfo Folder Error Operation Readers Resources FolderGraph PackInfo StreamInfo FilesInfo Aes DecoderPlan DecoderRun Entries FolderDecode FolderRead ArchiveSource PackedSource EntryReads Headers Archive Listing WriteHeader RoundTrip StreamRoundTrip CoderRoundTrip FilesRoundTrip HeaderRoundTrip WriteOptions Writers Lzma2Encoder WriteFolders StreamingFolder FolderWriting ArchiveWriter ArchiveWritten WrittenArchive WrittenOpens FolderCodecs WrittenLayouts WrittenReads.

(** The crates and the cipher keep what they document: decoders undo encoders. *)
Record codecs_agree `{LzmaMemory} `{Decoders} `{BlockCipher} `{EncoderLimits} (encodes : EncoderKind → bytes → bytes → Prop)
    (plain_decodes : PlainDecoder → bytes → bytes → Prop) (checked_decodes : CheckedDecoder → bytes → bytes → Prop) : Prop := {
  ca_decoders : decoders_spec plain_decodes checked_decodes;
  ca_bounded : decoders_bounded;
  ca_inverse : codecs_inverse encodes plain_decodes checked_decodes;
  ca_cipher : cbc_inverse;
  ca_memory : lzma_memory_known
}.

Lemma sub_list_mid (pre mid post : bytes) a b :
  a = zlen pre → b = a + zlen mid → sub_list a b (pre ++ mid ++ post) = mid.
Proof.
  intros -> ->. unfold sub_list. rewrite to_nat_zlen, drop_app_length, Z.add_simpl_l, to_nat_zlen. apply take_app_length.
Qed.

(** ** The folder of the header *)

(** The memory that decoding the header takes. *)
Definition header_memory `{LzmaMemory} `{EncoderLimits} (prepared : PreparedArchiveOptions) : Z :=
  lzma_memory (lzma_with_preset 6) +
  match ao_encryption (po_archive prepared) with
  | Some enc => if eo_encrypt_header enc then AES_CBC_WORKING_SET_BYTES + DECODER_OVERHEAD_BYTES else 0
  | None => 0
  end.

Section chain.
  Context `{LzmaMemory} `{Decoders} `{BlockCipher} `{Sha256} `{EncoderLimits}.
  Context (encodes : EncoderKind → bytes → bytes → Prop).
  Context (plain_decodes : PlainDecoder → bytes → bytes → Prop)
          (checked_decodes : CheckedDecoder → bytes → bytes → Prop).
  Context (Hagree : codecs_agree encodes plain_decodes checked_decodes).
  Context (prepared : PreparedArchiveOptions) (Hprep : prepared_ok prepared).
  Context (password : option (list Z)) (Hpw : opens_with prepared password).

Lemma header_decodes_back raw e :
  header_encoded encodes prepared raw e → zlen (ArchiveWriter.eh_packed e) + 16 ≤ u64_max → zlen raw ≤ u64_max →
  ∃ ks, decodes_back plain_decodes checked_decodes password ks (eh_packed e) raw ∧
    eh_coder_info e = chain_bytes (map kc_coder ks) ∧ eh_unpack_sizes e = map kc_output ks ∧
    chain_memory ks = header_memory prepared ∧ Forall is_u64 (map kc_output ks).
Proof.
  intros (compressed & aes & Hcomp & Haes & ->) Hmax Hraw. pose proof (zlen_nonneg raw). pose proof (zlen_nonneg compressed).
  cbn [eh_packed eh_coder_info eh_unpack_sizes] in *.
  destruct Hagree as [_ _ Hinv Hcbc Hmem]. set (o := lzma_with_preset 6) in *.
  destruct (lzma_preset_bits 6) as (Hlc & Hlp & Hpb). pose proof (lzma_preset_dict 6) as Hd. fold o in Hlc, Hlp, Hpb, Hd.
  assert (0 ≤ lzma_props_byte o < 225) as Hb by (unfold lzma_props_byte; rewrite Hlc, Hlp, Hpb; lia).
  destruct (lzma_compiles Hmem o (zlen raw)) as (p & Hp & Hdict & Hmemory & Hc & Hm);
    [unfold MAX_LZMA_DICTIONARY_BYTES; lia|done|].
  set (spec := SpecLzma _) in Hc, Hm.
  assert (decodes_back plain_decodes checked_decodes password [spec_known spec (PlanLzma p) (zlen raw)] compressed raw) as Hback.
  { apply one_decodes_back; try done. cbn. rewrite Hp, Hdict. by apply (ci_lzma _ _ _ Hinv). }
  unfold header_material, PreparedArchiveOptions_encryption in Haes. unfold header_memory. fold o. unfold opens_with in Hpw.
  destruct (ao_encryption (po_archive prepared)) as [enc|] eqn:Eenc; cbn [fmap option_fmap option_map from_option pe_options] in *.
  - destruct aes as [m|].
    + destruct Haes as [-> Haes]. destruct (prepared_power _ _ Hprep Eenc) as [Hcycles Hpow].
      destruct (encrypted_decodes_back plain_decodes checked_decodes password _ _ _ _ _ Haes
        ltac:(cbn [pe_settings]; by rewrite Hcycles) Hpw Hcbc Hmax Hback ltac:(cbn; lia))
        as (k & Hback' & Hk & Ho & Hlen & Hmem').
      eexists. split; [exact Hback'|]. cbn [map]. rewrite Hk, Ho, Hmem'.
      split_and!; [|done|by rewrite <- Hmemory; cbn; rewrite Z.add_0_r|].
      * apply (encode_aes_chain [spec]). by constructor.
      * constructor; [unfold is_u64; lia|]. constructor; [cbn; unfold is_u64; lia|done].
    + rewrite Haes, Z.add_0_r. eexists. split; [exact Hback|]. split_and!; [by apply encode_lzma_chain|done| |].
      * rewrite <- Hmemory. apply Z.add_0_r.
      * constructor; [cbn; unfold is_u64; lia|done].
  - destruct aes; [done|]. rewrite Z.add_0_r. eexists. split; [exact Hback|]. split_and!; [by apply encode_lzma_chain|done| |].
    + rewrite <- Hmemory. apply Z.add_0_r.
    + constructor; [cbn; unfold is_u64; lia|done].
Qed.

End chain.

Definition header_streams (raw : bytes) : FolderStreamLayout :=
  {| fl_explicit_sizes := []; fl_final_size := Some (zlen raw); fl_digests := [None] |}.

Section layout.
  Context `{Nom} (ks : list KnownCoder) (packed raw : bytes).
Abbreviation cs := (map kc_coder ks).
  Context (Hchain : chain_ok cs) (Hlast : default 0 (kc_output <$> last ks) = zlen raw).
  Context (pos : Z) (u : UnpackInfo) (Hu : unpack_info_of [encoded_folder (chain_bytes cs) (map kc_output ks)] u).
  Context (Hpacked : zlen packed ≤ u64_max) (Hraw : zlen raw ≤ u64_max).
Let pack := encoded_pack_info pos (zlen packed).

Lemma header_num_folders : UnpackInfo_num_folders_usize u = 1.
Proof. unfold UnpackInfo_num_folders_usize. by rewrite (uo_offsets _ _ Hu), block_offsets_length. Qed.

(** The iterator after the only folder. *)
Definition header_plans : FolderPlans := {|
  fp_pack_info := pack; fp_unpack_info := u; fp_substream_info := None; fp_folder_index := 1; fp_pack_index := 1;
  fp_output_base := zlen cs; fp_pack_offset := zlen packed; fp_stream_size_base := 0; fp_stream_digest_base := 1;
  fp_finished := false
|}.

Lemma header_next :
  ∃ g, Folder_graph (chain_folder cs) = Ok g ∧
    FolderPlans_next (FolderPlans_new pack u None) =
      (Some (Ok (chain_layout ks g packed raw 0 (header_streams raw))), header_plans).
Proof.
  destruct (written_folders_parse _ u 0 (encoded_folder (chain_bytes cs) (map kc_output ks)) cs Hu eq_refl eq_refl Hchain)
    as (g & Hparse & Hg & Ho). exists g. split; [done|].
  destruct (chain_graph cs Hchain) as (g' & Hg' & _ & Hpi & Hfinal). rewrite Hg in Hg'. injection Hg' as <-.
  pose proof (zlen_nonneg packed). pose proof (zlen_nonneg raw). pose proof Hchain as [Hall Hlen].
  unfold FolderPlans_next. cbn [FolderPlans_new fp_finished fp_folder_index fp_unpack_info].
  rewrite header_num_folders, decide_False by lia.
  unfold FolderPlans_next_folder, FolderPlans_folder_stream_count.
  cbn [FolderPlans_new fp_unpack_info fp_pack_info fp_substream_info fp_folder_index fp_pack_index fp_output_base
    fp_pack_offset fp_stream_size_base fp_stream_digest_base fp_finished].
  change (Z.of_nat 0) with 0 in Hparse. rewrite Hparse, Hpi.
  change (checked_add 0 (zlen [(0%nat, 0%nat)])) with (Some 1). cbn [ok_or].
  change (get_range 0 1 (pack_size pack)) with (Some [zlen packed]). cbn [ok_or].
  rewrite chain_total; [|eapply Forall_impl; [exact Hall|]; by intros c [? _]|unfold MAX_FOLDER_STREAMS in Hlen; lia]. cbn [ok_or].
  unfold checked_add at 1. rewrite decide_True by (unfold MAX_FOLDER_STREAMS in Hlen; lia). cbn [ok_or]. rewrite Z.add_0_l.
  assert (get_range 0 (zlen cs) (unpack_sizes u) = Some (map kc_output ks)) as ->.
  { rewrite (uo_sizes _ _ Hu). cbn [map concat encoded_folder cf_coder_unpack_sizes].
    apply (get_range_mid [] _ []); [done|]. by rewrite !zlen_map. }
  cbn [ok_or]. assert (map kc_output ks !! fg_final_output g = Some (zlen raw)) as ->.
  { rewrite Hfinal, <- Hlast, length_map. change (map kc_output ks) with (kc_output <$> ks).
    rewrite list_lookup_fmap, last_lookup, <- Nat.sub_1_r. rewrite length_map in *.
    destruct (ks !! (length ks - 1)%nat) eqn:El; [done|]. apply lookup_ge_None in El. unfold zlen in Hlen.
    rewrite length_map in Hlen. lia. }
  cbn [ok_or]. change (saturating_sub 1 1) with 0. change (checked_add 0 0) with (Some 0).
  change (checked_add 0 1) with (Some 1). cbn [ok_or].
  rewrite (uo_digests _ _ Hu). cbn [map encoded_folder cf_folder_crc].
  change (default [] (get_range 0 (0 + 1) [None])) with [@None Z].
  unfold FolderStreamLayout_new. rewrite decide_False by (cbn; intros [?|[_ ?]]; done). cbn [try_fold].
  unfold checked_sub at 1. rewrite decide_True by lia. cbn [ok_or]. rewrite decide_True by done.
  unfold sum_sizes_step, checked_add at 1. rewrite decide_True by lia. cbn [ok_or].
  rewrite !Z.sub_0_r, !Z.add_0_l. reflexivity.
Qed.

(** The descriptor's folder, within the limit of metadata. *)
Lemma header_folder limit :
  zlen packed ≤ limit → zlen raw ≤ limit →
  ∃ g, Folder_graph (chain_folder cs) = Ok g ∧
    EncodedHeader_folder {| eh_pack_info := pack; eh_unpack_info := u |} limit =
      Ok (chain_layout ks g packed raw 0 (header_streams raw)).
Proof.
  intros Hp Hr. destruct header_next as (g & Hg & Hnext). exists g. split; [done|].
  unfold EncodedHeader_folder. cbn [eh_pack_info eh_unpack_info].
  rewrite decide_True by (split_and!; [done|done|by rewrite (uo_num _ _ Hu)|apply header_num_folders]).
  unfold FolderLayouts_preflight, FolderLayouts_validate.
  pose proof (zlen_nonneg packed). pose proof (zlen_nonneg raw).
  assert (try_fold sum_sizes_step 0 (pack_size pack) = Ok (zlen packed)) as ->.
  { cbn. unfold sum_sizes_step, checked_add. rewrite decide_True by lia. done. }
  cbn [over_limit]. rewrite bool_decide_eq_false_2 by lia. unfold plans_fuel. cbn [validate_loop].
  rewrite Hnext. cbn [lo_unpack_size chain_layout]. unfold checked_add at 1. rewrite decide_True by lia. cbn [ok_or over_limit].
  rewrite Z.add_0_l, bool_decide_eq_false_2 by lia.
  assert (FolderPlans_next header_plans = (None, FolderPlans_finish header_plans)) as ->.
  { unfold FolderPlans_next. cbn [header_plans fp_finished fp_folder_index fp_unpack_info].
    rewrite header_num_folders, decide_True by done. unfold FolderPlans_validate_complete.
    cbn [header_plans fp_pack_info fp_unpack_info fp_substream_info fp_pack_index fp_output_base].
    rewrite header_num_folders, decide_False; [done|].
    rewrite (uo_num _ _ Hu), (uo_sizes _ _ Hu), (uo_digests _ _ Hu). cbn [map concat encoded_folder cf_coder_unpack_sizes].
    rewrite app_nil_r, !zlen_map. intros [?|[?|[?|[?|[[_ ?]|[[_ ?]|?]]]]]]; done. }
  cbn [substream_count]. rewrite header_num_folders. cbn [FolderPlans_finish header_plans fp_stream_digest_base].
  rewrite decide_False by tauto. cbn [pf_layouts fls_plans]. rewrite Hnext. done.
Qed.

End layout.

(** ** Opening *)

(** The header fits the limits of the reader: itself, or with its packed form and the
    descriptor that stands in its place. *)
Record header_fits `{Crc32} `{BlockCipher} `{Sha256} `{EncoderLimits} `{LzmaMemory} (encodes : EncoderKind → bytes → bytes → Prop)
    (prepared : PreparedArchiveOptions) (entries : list WriteEntry) (folders : list WrittenFolder) (options : ResourceLimits) : Prop := {
  hf_bytes : Forall is_u8 (build_header entries (map wf_folder folders));
  hf_length : zlen (build_header entries (map wf_folder folders)) ≤ u32_max;
  hf_limit : if should_encode_header (po_archive prepared) entries
    then header_memory prepared ≤ decoder_limit options ∧
      ∀ packed next, next_header_of encodes prepared entries folders packed next →
        zlen next ≤ u32_max ∧ zlen next + zlen packed ≤ max_metadata_bytes options ∧
        zlen next + zlen (build_header entries (map wf_folder folders)) ≤ max_metadata_bytes options
    else zlen (build_header entries (map wf_folder folders)) ≤ max_metadata_bytes options
}.

Lemma descriptor_holds_info pos size coder_info sizes :
  zlen coder_info ≤ zlen (build_encoded_header_descriptor pos size coder_info sizes).
Proof. unfold build_encoded_header_descriptor, zlen. rewrite !length_app. lia. Qed.

Section opens.
  Context `{Nom} `{Crc32} `{LzmaMemory} `{Decoders} `{BlockCipher} `{Sha256} `{BytesLayout} `{EncoderLimits}.
  Context (encodes : EncoderKind → bytes → bytes → Prop).
  Context (plain_decodes : PlainDecoder → bytes → bytes → Prop)
          (checked_decodes : CheckedDecoder → bytes → bytes → Prop).
  Context (Hagree : codecs_agree encodes plain_decodes checked_decodes).
  Context (prepared : PreparedArchiveOptions) (Hprep : prepared_ok prepared).
  Context (password : option (list Z)) (Hpw : opens_with prepared password).
  Context (source : ArchiveSource) (data : bytes) (Hsource : source_is source data) (Hmax : zlen data + 32 ≤ u64_max).
  Context (retries io_fuel : nat) (io_sizes : nat → Z) (address : bytes → Z) (identity : Z).
  Context (Hretries : (0 < retries)%nat) (Hsizes : ∀ k, 0 < io_sizes k).
  Context (options : ResourceLimits) (Hscan : 6 ≤ max_signature_scan_bytes options)
          (Hmetadata : max_metadata_bytes options ≤ u64_max).
  Context (Hdecoded : max_total_decoded_bytes options = None) (Hkdf : max_total_kdf_cycles options = None).

(** The header that the packed one decodes to opens the archive. *)
Lemma packed_header_opens ks packed raw streams rest h :
  let next := build_encoded_header_descriptor (zlen streams) (zlen packed) (chain_bytes (map kc_coder ks)) (map kc_output ks) in
  data = signature_bytes (zlen (streams ++ packed)) next ++ (streams ++ packed) ++ next ++ rest →
  decodes_back plain_decodes checked_decodes password ks packed raw → Forall is_u64 (map kc_output ks) →
  zlen (chain_bytes (map kc_coder ks)) ≤ u32_max → chain_memory ks ≤ decoder_limit options →
  zlen next + zlen packed ≤ max_metadata_bytes options → zlen next + zlen raw ≤ max_metadata_bytes options →
  zlen raw < u64_max → (length raw < io_fuel)%nat →
  Header_resolve_archive (place address raw) = Ok (ResolvedComplete h) → hd_additional_streams_range h = None →
  ∃ self, Archive_from_source_with_password retries io_fuel io_sizes address source identity password options = Ok self ∧
    ar_source self = source ∧ ar_base_offset self = 0 ∧ ar_header self = h.
Proof.
  intros next Hdata Hback Hout Hinfo Hmem Hpk Hraw Hlen Hfuel Hres Hadd. destruct Hagree as [Hspec Hdec _ Hcbc _].
  pose proof (data_len data _ _ _ Hdata) as Hl. rewrite zlen_app in Hl.
  pose proof (zlen_nonneg streams). pose proof (zlen_nonneg packed). pose proof (zlen_nonneg next). pose proof (zlen_nonneg rest).
  pose proof (zlen_nonneg raw). pose proof (db_chain _ _ _ _ _ _ Hback) as Hchain. pose proof Hchain as [Hall Hcount].
  destruct (signature_found source data Hsource Hmax _ _ _ Hdata _ Hscan) as (sig & Hfind & Hoff & Hsize & Hcrc).
  destruct (next_header_read source data Hsource Hmax _ _ _ Hdata (max_metadata_bytes options)) as (range & Hrange & Hread); [lia|].
  destruct (encoded_descriptor_reads_back (zlen streams) (zlen packed) (chain_bytes (map kc_coder ks)) (map kc_output ks) (address next))
    as (u & Hparse & Hu); [unfold is_u64; lia|unfold is_u64; lia| |done| |done| |].
  { rewrite zlen_map, <- (zlen_map kc_coder). apply chain_scans; [|lia]. eapply Forall_impl; [exact Hall|]. by intros c [? _]. }
  { rewrite zlen_map, <- (zlen_map kc_coder). destruct Hcount as [? Hcount]. unfold MAX_FOLDER_STREAMS in Hcount. unfold is_u64. lia. }
  { unfold sl_len. cbn [sl_data]. fold next. lia. }
  fold next in Hparse. change (Slice (address next) next) with (place address next) in Hparse.
  set (budget := OperationBudget_new options). set (budget1 := set_counters budget (zlen next) 0 0).
  assert (charge_metadata budget (zlen next) = Ok budget1) as Hcharge.
  { unfold charge_metadata, checked_add. cbn [budget OperationBudget_new ob_metadata ob_limits]. by rewrite decide_True, decide_False by lia. }
  assert (metadata_remaining budget1 = max_metadata_bytes options - zlen next) as Hrem.
  { unfold metadata_remaining, saturating_sub. cbn. lia. }
  destruct (header_folder ks packed raw Hchain (db_last _ _ _ _ _ _ Hback) (zlen streams) u Hu ltac:(lia) ltac:(lia)
    (metadata_remaining budget1)) as (g & Hg & Hfolder); [lia|lia|].
  assert (stored_chain plain_decodes checked_decodes data password (32 + zlen streams) ks packed raw 0) as Hstored.
  { split; try done; [lia|lia| |lia]. rewrite Hdata, <- app_assoc, (app_assoc (signature_bytes _ _)).
    apply sub_list_mid; [rewrite zlen_app, signature_bytes_len; lia|lia]. }
  assert (free_budget budget1) as Hfree by (split; [split|]; done).
  destruct (stored_chain_collects plain_decodes checked_decodes Hspec Hcbc source data Hsource retries Hretries password
    (32 + zlen streams) ks packed raw 0 Hstored g Hg (header_streams raw) io_fuel io_sizes (metadata_remaining budget1) budget1
    Hsizes Hfuel ltac:(lia) Hlen Hmem Hfree) as (ready & b1 & b2 & Hbind & Hcollect & Hm2 & Hl2).
  assert (∀ a b, 0 ≤ a → 0 ≤ b → a + b ≤ zlen data → checked_add_u64 a b = Ok (a + b)) as Hadd64.
  { intros a b ? ? ?. unfold checked_add_u64, checked_add. by rewrite decide_True by lia. }
  unfold Archive_from_source_with_password, Archive_from_source_with_budget. fold budget.
  destruct Hsource as (_ & -> & _). rewrite Hfind, Hsize, decide_False by lia.
  rewrite (Hadd64 0 32) by lia. rewrite Hoff, (Hadd64 (0 + 32)) by (rewrite ?zlen_app; lia). change (0 + 32) with 32.
  rewrite Hrange, Hread, Hcrc, decide_False by tauto. rewrite Hparse, Hcharge.
  unfold decode_encoded_header, decode_metadata_folder. rewrite Hfolder. cbn [map_err eh_pack_info encoded_pack_info pack_pos].
  unfold PackedSource_new. rewrite (Hadd64 0 32) by lia. rewrite (Hadd64 (0 + 32)) by lia. change (0 + 32) with 32.
  rewrite Hbind, Hcollect. cbn [dec_bytes].
  unfold parse_header_with_external_data. unfold charge_metadata at 1, checked_add. rewrite Hm2, Hl2.
  cbn [budget1 set_counters ob_metadata ob_limits budget OperationBudget_new]. rewrite decide_True, decide_False by lia.
  rewrite Hres. unfold verify_additional_stream_crcs.
  unfold Header_additional_pack_info, Header_try_additional_streams_info. rewrite Hadd. cbn.
  eexists. by split_and!.
Qed.

Context (entries : list WriteEntry) (folders : list WrittenFolder) (Hlayout : archive_layout encodes prepared data entries folders).
Context (Hok : Forall FilesRoundTrip.entry_ok entries) (Hn : is_u64 (zlen entries)) (Hfs : StreamRoundTrip.folders_ok (map wf_folder folders)).
Context (Hfits : header_fits encodes prepared entries folders options).

Lemma encoded_reopens :
  should_encode_header (po_archive prepared) entries = true →
  (length (build_header entries (map wf_folder folders)) < io_fuel)%nat →
  ∃ self, Archive_from_source_with_password retries io_fuel io_sizes address source identity password options = Ok self ∧
    reopened source data entries folders self.
Proof.
  intros Henc Hfuel. destruct Hfits as [H8 H32 Hlim]. rewrite Henc in Hlim. destruct Hlim as [Hmem Hlim].
  destruct Hlayout as (packed & next & Hnext & Hat). destruct (Hlim _ _ Hnext) as (Hn32 & Hpk & Hraw).
  apply holds_at_rest in Hat as [rest Hdata]. rewrite <- !app_assoc, (app_assoc (packed_streams folders)) in Hdata.
  unfold next_header_of in Hnext. rewrite Henc in Hnext. destruct Hnext as (e & He & -> & Hd).
  set (header := build_header entries _) in *.
  pose proof (data_len data _ _ _ Hdata) as Hl. rewrite zlen_app in Hl. pose proof (zlen_nonneg (packed_streams folders)).
  pose proof (zlen_nonneg next). pose proof (zlen_nonneg rest).
  assert (zlen (ArchiveWriter.eh_packed e) + 16 ≤ u64_max) as Hpmax by lia.
  destruct (header_decodes_back encodes plain_decodes checked_decodes Hagree prepared Hprep password Hpw header e He Hpmax)
    as (ks & Hback & Hinfo & Hsizes' & Hmemory & Hout); [lia|].
  pose proof (descriptor_holds_info (zlen (packed_streams folders)) (zlen (ArchiveWriter.eh_packed e)) (eh_coder_info e) (eh_unpack_sizes e)).
  rewrite <- Hd, Hinfo in *. rewrite Hsizes' in Hd. subst next.
  assert (valid_slice (place address header)) as Hv by (split; [done|change (zlen header ≤ usize_max); lia]).
  destruct (header_resolves entries (map wf_folder folders) (address header) Hv H32 Hok Hn Hfs) as (h & Hres & _ & _ & Hadd & _).
  destruct (packed_header_opens ks _ header _ _ h Hdata Hback Hout) as (self & Ho & Hsrc & Hb & Hh); try done; [lia|lia|lia|].
  exists self. split; [done|]. eapply opened_with_header; try done.
  rewrite <- app_assoc in Hdata. by eexists _, _.
Qed.

(** A written archive opens to what was written. *)
Lemma written_reopens :
  (length (build_header entries (map wf_folder folders)) < io_fuel)%nat →
  ∃ self, Archive_from_source_with_password retries io_fuel io_sizes address source identity password options = Ok self ∧
    reopened source data entries folders self.
Proof.
  intros Hfuel. destruct (should_encode_header (po_archive prepared) entries) eqn:Henc; [by apply encoded_reopens|].
  destruct Hfits as [H8 H32 Hlim]. rewrite Henc in Hlim.
  destruct (clear_reopens encodes prepared data entries folders source retries io_fuel io_sizes address identity password options
    Hlayout Henc Hok Hn Hfs Hsource Hmax Hscan H8 H32 Hlim) as (self & Ho & _ & _ & Hr). by exists self.
Qed.

End opens.
