(* ===== verification/EntryRoundTrip.v ===== *)
(** * What was written reads back (src/src/write/mod.rs, src/src/archive.rs)

    An archive from the first write to the last read: it opens, and every entry that was
    logged is extracted with the content that was given for it. *)

From stdpp Require Import base numbers list option strings gmap.
From Stdlib Require Import ZArith Lia.
From S2P Require Import Prelude PropertyId Parsers Method CoderInfo Folder Error Operation Readers Resources FolderGraph PackInfo StreamInfo FilesInfo Aes DecoderPlan DecoderRun Entries FolderDecode FolderRead FolderBounds FileStreams Locations ArchiveSource PackedSource ArchiveNames EntryReads Headers Archive Listing WriteHeader RoundTrip StreamRoundTrip CoderRoundTrip FilesRoundTrip HeaderRoundTrip WriteOptions Writers Lzma2Encoder WriteFolders StreamingFolder FolderWriting ArchiveWriter ArchiveWritten WrittenArchive WrittenOpens FolderCodecs WrittenLayouts WrittenStreams FolderServes WrittenReads EncodedOpens Opening.

(** ** Specification *)

(** What is read of an entry: its data; nothing for a file or a link without data; and
    directories and anti-items have no content. *)
Definition logged_content (l : Logged) : result bytes R7zError :=
  match lg_data l with
  | Some d => Ok d
  | None =>
      match lg_kind l, is_symlink_attributes (em_attributes (lg_meta l)) with
      | WriteAnti, _ | WriteDirectory, false => Err Directory
      | _, _ => Ok []
      end
  end.

(** The entries of the log are the header's, and their data are in the folders. *)
Record written_log `{Crc32} `{BlockCipher} `{Sha256} `{EncoderLimits} (encodes : EncoderKind → bytes → bytes → Prop)
    (prepared : PreparedArchiveOptions) (log : list Logged) (entries : list WriteEntry) (folders : list WrittenFolder) : Prop := {
  wl_entries : Forall2 entry_logged entries log;
  wl_items : log_items log = written_items folders;
  wl_folders : Forall (λ f, folder_done encodes prepared (wf_items f) (wf_packed f) (wf_folder f)) folders
}.

(** ** Lists *)

Lemma Forall_choose {A B} (P : A → B → Prop) l : Forall (λ x, ∃ y, P x y) l → ∃ k, Forall2 P l k.
Proof.
  induction 1 as [|x l [y Hy] _ [k Hk]]; [by exists []|]. exists (y :: k). by constructor.
Qed.

Lemma item_data_part (items : list (Z * bytes)) before part after :
  items = before ++ part ++ after → zlen (item_data part) ≤ zlen (item_data items).
Proof.
  intros ->. unfold item_data. rewrite !fmap_app, !concat_app, !zlen_app.
  pose proof (zlen_nonneg (concat before.*2)). pose proof (zlen_nonneg (concat after.*2)). lia.
Qed.

(** ** Folders *)

Section folders.
  Context `{Nom} `{Crc32} `{LzmaMemory} `{Decoders} `{BlockCipher} `{Sha256} `{EncoderLimits}.
  Context (encodes : EncoderKind → bytes → bytes → Prop).
  Context (plain_decodes : PlainDecoder → bytes → bytes → Prop)
          (checked_decodes : CheckedDecoder → bytes → bytes → Prop).
  Context (Hagree : codecs_agree encodes plain_decodes checked_decodes).
  Context (prepared : PreparedArchiveOptions) (Hprep : prepared_ok prepared).
  Context (password : option (list Z)) (Hpw : opens_with prepared password).

(** The coders of a written folder. *)
Record folder_chain (f : WrittenFolder) (ks : list KnownCoder) : Prop := {
  fk_back : decodes_back plain_decodes checked_decodes password ks (wf_packed f) (item_data (wf_items f));
  fk_shape : folder_shape f (map kc_coder ks);
  fk_sizes : cf_coder_unpack_sizes (wf_folder f) = map kc_output ks;
  fk_memory : chain_memory ks = reading_memory prepared
}.

Lemma folder_chain_exists f :
  folder_done encodes prepared (wf_items f) (wf_packed f) (wf_folder f) → zlen (wf_packed f) + 16 ≤ u64_max →
  ∃ ks, folder_chain f ks.
Proof.
  intros Hdone Hmax. destruct Hagree as [_ _ Hinv Hcbc Hmem].
  destruct (folder_done_decodes_back encodes plain_decodes checked_decodes Hinv Hmem password prepared Hprep _ _ _ Hdone Hpw Hcbc Hmax)
    as (ks & Hback & Hinfo & Hsizes & Hmemory).
  exists ks. split; try done. destruct Hdone as (aes & stream & info & specs & _ & _ & _ & _ & Hf).
  split; try (by rewrite Hf); [apply Hback|done| |].
  - rewrite Hsizes, !zlen_map. done.
  - rewrite Hsizes. pose proof (db_last _ _ _ _ _ _ Hback) as Hlast. pose proof (db_some _ _ _ _ _ _ Hback) as Hne.
    change (map kc_output ks) with (kc_output <$> ks). rewrite fmap_last.
    destruct (last ks) eqn:El; [cbn in *; by rewrite Hlast|]. by apply last_None in El.
Qed.

Context (folders : list WrittenFolder) (kss : list (list KnownCoder)) (Hkss : Forall2 folder_chain folders kss).
Abbreviation chains := (map (map kc_coder) kss).

Lemma folder_shapes : Forall2 folder_shape folders chains.
Proof. apply Forall2_fmap_r. eapply Forall2_impl; [exact Hkss|]. by intros f ks [_ ? _ _]. Qed.

Lemma layouts_of_length offset fs css ls : layouts_of offset fs css ls → length fs = length ls.
Proof. induction 1; cbn; congruence. Qed.

(** The layout of a folder. *)
Lemma layouts_of_at offset past f rest css ls :
  layouts_of offset (past ++ f :: rest) css ls →
  ∃ cs g, css !! length past = Some cs ∧ Folder_graph (chain_folder cs) = Ok g ∧
    ls !! length past = Some (written_layout f cs g (offset + zlen (packed_streams past))).
Proof.
  revert offset css ls. induction past as [|p past IH]; intros offset css ls; cbn [app]; inversion 1; subst.
  - cbn. rewrite Z.add_0_r. by eexists _, _.
  - destruct (IH _ _ _ ltac:(eassumption)) as (cs' & g' & Hcs & Hg & Hl). exists cs', g'. split_and!; [done|done|].
    etrans; [exact Hl|]. unfold packed_streams. cbn [map concat]. by rewrite zlen_app, Z.add_assoc.
Qed.

Context (source : ArchiveSource) (data : bytes) (Hpacked : ∃ before after, data = before ++ packed_streams folders ++ after ∧ zlen before = 32).
Context (io_fuel : nat) (Htotal : zlen (item_data (written_items folders)) ≤ u64_max)
        (Hfuel : (length (item_data (written_items folders)) < io_fuel)%nat).
Context (Hok : folders_ok (map wf_folder folders)).

Lemma folder_stored past f rest ks :
  folders = past ++ f :: rest → kss !! length past = Some ks →
  stored_chain plain_decodes checked_decodes data password 32 ks (wf_packed f) (item_data (wf_items f)) (zlen (packed_streams past)) ∧
  cf_coder_unpack_sizes (wf_folder f) = map kc_output ks ∧ (length (item_data (wf_items f)) < io_fuel)%nat ∧ chain_memory ks = reading_memory prepared.
Proof.
  intros Hf Hks. assert (folders !! length past = Some f) as Hat by (rewrite Hf; by apply list_lookup_middle).
  destruct (Forall2_lookup_lr _ _ _ _ _ _ Hkss Hat Hks) as [Hback Hshape Hsizes Hmemory].
  assert (zlen (item_data (wf_items f)) ≤ zlen (item_data (written_items folders))) as Hle.
  { apply (item_data_part _ (written_items past) (wf_items f) (written_items rest)). unfold written_items.
    by rewrite Hf, map_app, concat_app. }
  destruct Hpacked as (before & after & Hdata & Hb).
  assert (data = (before ++ packed_streams past) ++ wf_packed f ++ packed_streams rest ++ after) as Hd.
  { rewrite Hdata, Hf. unfold packed_streams. rewrite map_app, concat_app. cbn [map concat]. by rewrite <- !app_assoc. }
  assert (zlen (before ++ packed_streams past) = 32 + zlen (packed_streams past)) as Hz by (rewrite zlen_app; lia).
  split_and!; [|done|unfold zlen in Hle; lia|done]. split; try done.
  - rewrite <- Hsizes. apply (fo_unpack (wf_folder f)). eapply Forall_lookup_1 with (i := length past); [apply fs_all, Hok|].
    change (map wf_folder folders) with (wf_folder <$> folders). by rewrite list_lookup_fmap, Hat.
  - pose proof (zlen_nonneg (packed_streams past)). lia.
  - rewrite Hd, !zlen_app. pose proof (zlen_nonneg (packed_streams rest)). pose proof (zlen_nonneg after). lia.
  - rewrite Hd. apply sub_list_mid; [by rewrite Hz|done].
  - lia.
Qed.

End folders.

(** ** Entries *)

Section entries.
  Context `{Nom} `{Crc32} `{LzmaMemory} `{Decoders} `{BlockCipher} `{Sha256} `{EncoderLimits}.
  Context (encodes : EncoderKind → bytes → bytes → Prop).
  Context (plain_decodes : PlainDecoder → bytes → bytes → Prop)
          (checked_decodes : CheckedDecoder → bytes → bytes → Prop).
  Context (Hagree : codecs_agree encodes plain_decodes checked_decodes).
  Context (prepared : PreparedArchiveOptions) (Hprep : prepared_ok prepared).
  Context (config : ArchiveReadConfig) (Hfree : reads_freely config) (Hpw : opens_with prepared (rc_password config)).
  Context (Hmemory : reading_memory prepared ≤ decoder_limit (rc_options config)).
  Context (log : list Logged) (entries : list WriteEntry) (folders : list WrittenFolder).
  Context (Hlog : written_log encodes prepared log entries folders) (Hok : folders_ok (map wf_folder folders)).
  Context (source : ArchiveSource) (data : bytes) (Hsource : source_is source data) (Hmax : zlen data + 32 ≤ u64_max).
  Context (self : Archive) (Hself : reopened source data entries folders self).
  Context (io_fuel : nat) (Htotal : zlen (item_data (log_items log)) ≤ u64_max)
          (Hfuel : (length (item_data (log_items log)) < io_fuel)%nat).

(** The entry list shows the kind of a written entry. *)
Lemma listed_entry f i e :
  view f = listing_of entries → entries !! i = Some e →
  ∃ entry, fst (Entries_nth (Entries_new (Some f) (zlen entries)) i) = Some entry ∧ en_kind entry = written_kind e.
Proof.
  intros Hf Hi. pose proof (lookup_lt_Some _ _ _ Hi) as Hlt. unfold Entries_nth. cbn [Entries_new it_start it_end].
  rewrite decide_True by (unfold zlen; lia).
  destruct (match it_names _ with None => _ | Some _ => _ end) as [name names]. eexists. split; [reflexivity|].
  cbn [en_kind]. rewrite Z.add_0_l. cbn. by eapply listing_entry_kind.
Qed.

Lemma packed_short f : f ∈ folders → zlen (wf_packed f) + 16 ≤ u64_max.
Proof.
  intros (past & rest & ->)%list_elem_of_split. destruct (re_packed _ _ _ _ _ Hself) as (a & b & -> & Ha).
  pose proof (zlen_concat_part wf_packed past f rest) as Hp. unfold packed_streams in Hmax. rewrite !zlen_app in Hmax.
  pose proof (zlen_nonneg b). pose proof (zlen_nonneg (concat (map wf_packed past))). lia.
Qed.

(** The traversal joins an entry that has data with the location of its data. *)
Lemma entry_located i l d :
  log !! i = Some l → lg_data l = Some d →
  ∃ fs file loc, Archive_file_streams self = Ok fs ∧ fi_pack_pos fs = 0 ∧
    fst (FileStreams_nth fs i) = Ok (Some file) ∧ (en_kind file = K_File loc ∨ en_kind file = K_Symlink loc) ∧
    stored_entry plain_decodes checked_decodes data io_fuel (rc_password config) 32 loc (decoder_limit (rc_options config)) d.
Proof.
  intros Hl Hd. pose proof Hlog as [Hentries Hitems Hdone].
  destruct (log_items_at _ _ _ _ Hl Hd) as (later & Hat). rewrite Hitems in Hat.
  destruct (concat_map_split _ _ _ _ _ Hat) as (past & f & rest & before & after & Hf & Hwf & Hbefore).
  assert (∃ kss, Forall2 (folder_chain plain_decodes checked_decodes prepared (rc_password config)) folders kss) as [kss Hkss].
  { apply Forall_choose. eapply Forall_impl; [apply Forall_and; split; [exact Hdone|]|].
    - apply Forall_forall. exact packed_short.
    - intros g [Hg Hs]. by eapply folder_chain_exists. }
  destruct (re_files _ _ _ _ _ Hself) as (fi & Hfi & Hview).
  destruct folders as [|f0 fs0] eqn:Efs; [by destruct past|]. rewrite <- Efs in *.
  assert (∃ u, unpack_info_of (map wf_folder folders) u ∧ Archive_try_streams_info self =
    Ok (Some {| si_pack_info := Some (pack_info_of (map wf_folder folders)); si_unpack_info := Some u;
                si_substream_info := Some (substream_info_of (map wf_folder folders)) |})) as (u & Hu & Hst).
  { pose proof (re_streams _ _ _ _ _ Hself) as Hst. by rewrite Efs in Hst |- *. }
  clear f0 fs0 Efs. set (chains := map (map kc_coder) kss).
  pose proof (folder_shapes _ _ _ _ _ _ Hkss) as Hshapes. fold chains in Hshapes.
  assert (zlen (packed_streams folders) ≤ u64_max) as Hpk.
  { destruct (re_packed _ _ _ _ _ Hself) as (a & b & -> & Ha). rewrite !zlen_app in Hmax. pose proof (zlen_nonneg b). lia. }
  assert (Forall (λ f, zlen (item_data (wf_items f)) ≤ u64_max) folders) as Hdata.
  { apply Forall_forall. intros g (p & r & Hg)%list_elem_of_split. etrans; [|exact Htotal]. rewrite Hitems.
    apply (item_data_part _ (written_items p) _ (written_items r)). unfold written_items. by rewrite Hg, map_app, concat_app. }
  destruct (written_file_streams folders chains Hshapes Hok Hpk Hdata u Hu (Some fi) (length entries)) as (fs & ls & Hfs & Hpos & Hls & Hhave).
  { by rewrite (written_entries_count entries fi Hview log Hentries), Hitems. }
  fold (zlen entries) in Hfs. set (es := Entries_collect _ _) in Hhave.
  pose proof (written_kinds entries fi Hview) as Hkinds. fold es in Hkinds.
  destruct (Forall2_lookup_r _ _ _ _ _ Hentries Hl) as (e & He & Hel).
  assert (has_stream e = true) as Hes by (rewrite (entry_logged_stream _ _ Hel), Hd; done).
  assert (∃ ent, es !! i = Some ent ∧ en_kind ent = written_kind e) as (ent & Hent & Hkind).
  { apply (f_equal (lookup i)) in Hkinds. change (map ?g ?k) with (g <$> k) in Hkinds. rewrite !list_lookup_fmap, He in Hkinds.
    destruct (es !! i) as [ent|]; [|done]. exists ent. split; [done|]. by injection Hkinds. }
  destruct (layouts_of_at 0 past f rest chains ls) as (cs & g & Hcs & Hg & Hlay); [by rewrite <- Hf|].
  unfold chains in Hcs. change (map ?g ?k) with (g <$> k) in Hcs. rewrite list_lookup_fmap in Hcs.
  destruct (kss !! length past) as [ks|] eqn:Ek; [|done]. injection Hcs as <-. rewrite Z.add_0_l in Hlay.
  set (loc := {| loc_folder_index := 0 + zlen past; loc_stream_index := zlen before;
    loc_folder := written_layout f (map kc_coder ks) g (zlen (packed_streams past));
    loc_stream := {| ss_range := {| br_start := zlen (item_data before); br_end := zlen (item_data before) + zlen d |};
                     ss_digest := Some (crc32 d) |} |}).
  assert (folder_locations 0 folders ls !! stream_entries (take i es) = Some loc) as Hloc.
  { rewrite Hf. eapply folder_locations_at; [|exact Hlay|exact Hwf|].
    - rewrite <- Hf. by eapply layouts_of_length.
    - rewrite (stream_entries_kinds _ (take i entries)); [|by rewrite <- !firstn_map, Hkinds].
      rewrite <- (length_log_items (take i log) (take i entries) 0) by by apply Forall2_take.
      change (log_items_from 0) with log_items. by rewrite Hbefore, length_app. }
  destruct (FileStreams_nth_spec fs i _ _ Hhave) as (fs' & locs' & Hnth & _).
  rewrite (bind_entries_at es _ i ent) in Hnth; [|apply Hhave|done]. unfold carries_stream in Hnth.
  rewrite Hkind, written_kind_stream, Hes, Hloc in Hnth. cbn [fmap option_fmap option_map] in Hnth.
  exists fs, (with_stream ent loc), loc. split_and!.
  - unfold Archive_file_streams. by rewrite Hfi, Hst, (re_count _ _ _ _ _ Hself), Hfs.
  - done.
  - by rewrite Hnth.
  - cbn [with_stream en_kind]. rewrite Hkind. unfold written_kind. rewrite Hes. destruct (is_symlink_attributes _); auto.
  - destruct (folder_stored plain_decodes checked_decodes prepared (rc_password config) folders kss Hkss data
      (re_packed _ _ _ _ _ Hself) io_fuel) with (past := past) (f := f) (rest := rest) (ks := ks) as (Hstored & Hcs & Hlen & Hm);
      [by rewrite <- Hitems|by rewrite <- Hitems|done|done|done|].
    split. exists f, ks, g, (zlen (packed_streams past)), before, (Z.of_nat i), after.
    split_and!; try done; [lia|]. cbn. unfold written_layout, chain_layout. by rewrite Hcs.
Qed.

Context (retries : nat) (io_sizes : nat → Z) (copy_sizes : nat → N).
Context (Hretries : (0 < retries)%nat) (Hsizes : ∀ k, 0 < io_sizes k) (Hcopy : ∀ k, (0 < copy_sizes k)%N).

(** Every entry is extracted with its content. *)
Lemma entry_extracts i l :
  log !! i = Some l →
  (∀ d limit, lg_data l = Some d → max_retained_output_bytes (rc_options config) = Some limit → zlen d ≤ limit) →
  Archive_extract_to_memory_with_options retries io_fuel io_sizes copy_sizes self (Z.of_nat i) config = logged_content l.
Proof.
  intros Hl Hfits. destruct Hagree as [Hspec Hdec _ Hcbc _].
  destruct (Forall2_lookup_r _ _ _ _ _ (wl_entries _ _ _ _ _ Hlog) Hl) as (e & He & Hel).
  destruct (re_files _ _ _ _ _ Hself) as (fi & Hfi & Hview).
  destruct (listed_entry fi i e Hview He) as (entry & Hentry & Hkind).
  rewrite <- (re_count _ _ _ _ _ Hself) in Hentry.
  unfold Archive_extract_to_memory_with_options, logged_content. set (out := LimitedOutput_new _).
  destruct (lg_data l) as [d|] eqn:Ed.
  - destruct (entry_located i l d Hl Ed) as (fs & file & loc & Hfs & Hpos & Hnth & Hfk & Hstored).
    assert (limited_room out d) as Hroom.
    { split; [done|]. cbn. destruct (max_retained_output_bytes _) as [limit|] eqn:El; [|done].
      pose proof (lk_retained _ (rf_limits _ Hfree)) as Hr. rewrite El in Hr. cbn in Hr. unfold is_u64 in Hr.
      specialize (Hfits d limit eq_refl eq_refl). rewrite zlen_nil. unfold usize_max. lia. }
    assert (source_is (ar_source self) data) as Hsrc by by rewrite (re_source _ _ _ _ _ Hself).
    destruct (extract_stored plain_decodes checked_decodes Hspec Hdec Hcbc retries io_fuel io_sizes copy_sizes Hretries Hsizes Hcopy
      self data Hsrc (re_base _ _ _ _ _ Hself) (Some fi) Hfi config Hfree ro_bytes limited_room out i entry fs file loc d)
      as (w' & Hx & Hc & [Hexc _]); try done.
    + exact limited_takes.
    + apply lookup_lt_Some in He. rewrite (re_count _ _ _ _ _ Hself). unfold zlen. lia.
    + by rewrite Hkind, written_kind_stream, (entry_logged_stream _ _ Hel), Ed.
    + rewrite Hx, Hexc. by rewrite Hc.
  - unfold Archive_extract_to_writer_with_options. rewrite Hfi, Nat2Z.id, Hentry. cbn [ok_or]. rewrite Hkind.
    unfold written_kind. rewrite (entry_logged_stream _ _ Hel), Ed. destruct Hel as [id ->]. cbn [new_entry we_kind we_meta].
    by destruct (lg_kind l), (is_symlink_attributes _).
Qed.

End entries.

(** C1. What is written is read back. Take an archive that the writer left, in whatever codec,
    encrypted or not, its header in the clear or encoded: with the password it was given, within
    the limits of the reader, it opens, and every entry of the log is extracted with the content
    that was given for it. *)
Theorem written_entries_extracted `{Nom} `{Crc32} `{LzmaMemory} `{Decoders} `{BlockCipher} `{Sha256} `{BytesLayout} `{EncoderLimits}
    encodes plain_decodes checked_decodes prepared config log entries folders source data
    retries io_fuel io_sizes copy_sizes address identity :
  codecs_agree encodes plain_decodes checked_decodes → prepared_ok prepared →
  written_log encodes prepared log entries folders → archive_layout encodes prepared data entries folders →
  Forall FilesRoundTrip.entry_ok entries → is_u64 (zlen entries) → folders_ok (map wf_folder folders) →
  source_is source data → zlen data + 32 ≤ u64_max → zlen (item_data (log_items log)) ≤ u64_max →
  reads_freely config → opens_with prepared (rc_password config) →
  6 ≤ max_signature_scan_bytes (rc_options config) →
  header_fits encodes prepared entries folders (rc_options config) →
  reading_memory prepared ≤ decoder_limit (rc_options config) →
  (0 < retries)%nat → (∀ k, 0 < io_sizes k) → (∀ k, (0 < copy_sizes k)%N) →
  (length (build_header entries (map wf_folder folders)) < io_fuel)%nat → (length (item_data (log_items log)) < io_fuel)%nat →
  ∃ self, Archive_from_source_with_password retries io_fuel io_sizes address source identity (rc_password config) (rc_options config) = Ok self ∧
    ∀ i l, log !! i = Some l →
      (∀ d limit, lg_data l = Some d → max_retained_output_bytes (rc_options config) = Some limit → zlen d ≤ limit) →
      Archive_extract_to_memory_with_options retries io_fuel io_sizes copy_sizes self (Z.of_nat i) config = logged_content l.
Proof.
  intros Hagree Hprep Hlog Hlayout Hok Hn Hfs Hsource Hmax Htotal Hfree Hpw Hscan Hfits Hmem Hretries Hsizes Hcopy Hfh Hfd.
  pose proof Hfree as [Hl Hd Hk _].
  assert (max_metadata_bytes (rc_options config) ≤ u64_max) as Hmeta by (pose proof (lk_metadata _ Hl); unfold is_u64 in *; lia).
  destruct (written_reopens encodes plain_decodes checked_decodes Hagree prepared Hprep (rc_password config) Hpw source data Hsource
    Hmax retries io_fuel io_sizes address identity Hretries Hsizes (rc_options config) Hscan Hmeta Hd Hk entries folders Hlayout
    Hok Hn Hfs Hfits Hfh) as (self & Ho & Hself).
  exists self. split; [done|]. intros i l Hi Hfit. by eapply entry_extracts.
Qed.

(** ** Witness *)

#[local] Existing Instances flat_memory stored_decoders counter_cipher flat_hash sum_crc Archive.sample_layout sample_encoder_limits.

(** The encoders store, and the archive is what a run of the writer left: two folders of LZMA,
    and an encoded header. *)
Definition stored_run : option (PreparedArchiveOptions * bytes) :=
  match sample_prepared with
  | Err _ => None
  | Ok prepared =>
      match @write_archive sum_crc counter_cipher flat_hash sample_host sample_encoder_limits storing_encoders unit no_entropy
        30 _ _ _ _ _ {| fo_data := []; fo_pos := 0; fo_script := [] |} prepared
        {| wc_operation := wb_operation (writer_budgets prepared); wc_entropy := tt |} sample_ops with
      | Ok out => Some (prepared, fo_data out)
      | Err _ => None
      end
  end.

Definition stored_log : list Logged :=
  let logged name kind data := {| lg_name := name; lg_kind := kind; lg_meta := EntryMeta_default; lg_data := data |} in
  [logged [100] WriteDirectory None; logged [97] WriteFile (Some [1; 2; 3]);
   logged [98] WriteFile None; logged [99] WriteFile (Some [4; 5])].

Definition stored_entries : list WriteEntry :=
  map (λ l, new_entry (lg_name l) (lg_kind l) (lg_meta l) (match lg_data l with None => EmptyStream | Some _ => Streaming end) 0) stored_log.

Definition stored_props : bytes :=
  let options := lzma_options CompressionOptions_default in [lzma_props_byte options] ++ to_le_bytes 4 (lz_dict_size options).
Definition stored_folder (item : Z * bytes) : WrittenFolder :=
  {| wf_items := [item]; wf_packed := item.2;
     wf_folder := {| cf_file_indices := [item.1]; cf_pack_sizes := [zlen item.2]; cf_coder_info := encode_coder_info_lzma stored_props;
       cf_coder_unpack_sizes := [zlen item.2]; cf_folder_crc := None; cf_file_sizes := [zlen item.2];
       cf_file_crcs := [Some (crc32 item.2)] |} |}.
Definition stored_folders : list WrittenFolder := map stored_folder [(1, [1; 2; 3]); (3, [4; 5])].

Lemma stored_codecs_agree :
  codecs_agree (λ _ data stream, stream = data) (λ _ data out, out = data) (λ _ data out, out = data).
Proof.
  split; [exact stored_decoders_spec|exact stored_decoders_bounded| |exact counter_cipher_inverse|].
  - split; try done; [by intros o dict data stream [|[]]|by intros data filtered ->].
  - intros dict props _ Hp. cbn. rewrite decide_True by lia. by eexists.
Defined.

Lemma stored_folder_done prepared item :
  pr_codec (po_settings prepared) = PreparedLzma → ao_encryption (po_archive prepared) = None →
  ao_compression (po_archive prepared) = CompressionOptions_default →
  let f := stored_folder item in
  folder_done (λ _ data stream, stream = data) prepared (wf_items f) (wf_packed f) (wf_folder f).
Proof.
  intros Hc He Ho f. exists None, item.2. eexists _, _. unfold aes_for, PreparedArchiveOptions_encryption, folder_stream, folder_coders.
  rewrite Hc, He, Ho. split_and!; try done; cbn; by rewrite app_nil_r.
Defined.

Definition stored_header : bytes := build_header stored_entries (map wf_folder stored_folders).
Definition stored_encoded : EncodedHeaderBytes := {|
  eh_packed := stored_header;
  eh_coder_info := encode_coder_info_lzma ([lzma_props_byte (lzma_with_preset 6)] ++ to_le_bytes 4 (lz_dict_size (lzma_with_preset 6)));
  eh_unpack_sizes := [zlen stored_header]
|}.
Definition stored_next : bytes :=
  build_encoded_header_descriptor (zlen (packed_streams stored_folders)) (zlen stored_header)
    (eh_coder_info stored_encoded) (eh_unpack_sizes stored_encoded).

Lemma stored_next_header prepared :
  should_encode_header (po_archive prepared) stored_entries = true → ao_encryption (po_archive prepared) = None →
  next_header_of (λ _ data stream, stream = data) prepared stored_entries stored_folders stored_header stored_next.
Proof.
  intros Hs He. unfold next_header_of. rewrite Hs. exists stored_encoded. split; [|by split].
  exists stored_header, None. split; [reflexivity|]. split; [|reflexivity].
  unfold header_material, PreparedArchiveOptions_encryption. by rewrite He.
Defined.

Lemma stored_next_unique prepared packed next :
  next_header_of (λ _ data stream, stream = data) prepared stored_entries stored_folders packed next →
  should_encode_header (po_archive prepared) stored_entries = true → ao_encryption (po_archive prepared) = None →
  packed = stored_header ∧ next = stored_next.
Proof.
  intros Hn Hs He. unfold next_header_of in Hn. rewrite Hs in Hn. destruct Hn as (e & (compressed & aes & Hc & Haes & Hx) & Hp & Hn).
  unfold header_material, PreparedArchiveOptions_encryption in Haes. rewrite He in Haes. destruct aes; [destruct Haes|].
  subst e. cbn [eh_packed eh_coder_info eh_unpack_sizes packed_of] in *. subst compressed packed next. by split.
Qed.

Lemma stored_entries_ok : Forall FilesRoundTrip.entry_ok stored_entries.
Proof.
  apply Forall_fmap. unfold compose. repeat (apply Forall_cons; split); [..|apply Forall_nil_2];
    (split; [|exact I|exact I]); (eexists; split; [reflexivity|]); apply (bool_decide_eq_true_1 _); reflexivity.
Qed.

Lemma stored_folder_ok item : is_u64 (zlen item.2) → folder_ok (wf_folder (stored_folder item)).
Proof.
  intros Hn. split; cbn [stored_folder wf_folder cf_coder_info cf_pack_sizes cf_coder_unpack_sizes cf_folder_crc cf_file_sizes cf_file_crcs].
  - apply (chain_scans [lzma_coder stored_props]); [|by split].
    constructor; [|constructor]. by split_and!.
  - by apply Forall_singleton.
  - by apply Forall_singleton.
  - exact I.
  - by apply Forall_singleton.
  - reflexivity.
  - constructor; [apply crc32_u32|constructor].
  - reflexivity.
Qed.

Lemma stored_folders_ok : folders_ok (map wf_folder stored_folders).
Proof.
  split.
  - constructor; [by apply (stored_folder_ok (1, [1; 2; 3]))|]. constructor; [by apply (stored_folder_ok (3, [4; 5]))|done].
  - by vm_compute.
  - by vm_compute.
  - by vm_compute.
  - by vm_compute.
  - by vm_compute.
Qed.

Lemma written_entries_extracted_witness :
  ∃ prepared data self, stored_run = Some (prepared, data) ∧ should_encode_header (po_archive prepared) stored_entries = true ∧
    Archive_from_source_with_password 9 300 (λ _, 8) (λ _, 4096) (ArchiveSource_from_bytes data) 0 None ResourceLimits_default = Ok self ∧
    Archive_extract_to_memory_with_options 9 300 (λ _, 8) (λ _, 8%N) self 1 ArchiveReadConfig_default = Ok [1; 2; 3] ∧
    Archive_extract_to_memory_with_options 9 300 (λ _, 8) (λ _, 8%N) self 2 ArchiveReadConfig_default = Ok [] ∧
    Archive_extract_to_memory_with_options 9 300 (λ _, 8) (λ _, 8%N) self 0 ArchiveReadConfig_default = Err Directory.
Proof.
  destruct stored_run as [[prepared data]|] eqn:Er; [|vm_compute in Er; discriminate Er].
  destruct (written_entries_extracted _ _ _ prepared ArchiveReadConfig_default stored_log stored_entries stored_folders
    (ArchiveSource_from_bytes data) data 9 300 (λ _, 8) (λ _, 8%N) (λ _, 4096) 0 stored_codecs_agree) as (self & Ho & Hall).
  - vm_compute in Er. injection Er as <- _. split; [by vm_compute|by repeat constructor|exact I|vm_compute; discriminate].
  - vm_compute in Er. injection Er as <- _. split; [|done|].
    + repeat (apply Forall2_cons; split; [by eexists|]). apply Forall2_nil_2.
    + constructor; [by apply (stored_folder_done _ (1, [1; 2; 3]))|]. constructor; [by apply (stored_folder_done _ (3, [4; 5]))|done].
  - vm_compute in Er. injection Er as <- <-. exists stored_header, stored_next. split; [|by vm_compute].
    by apply stored_next_header.
  - exact stored_entries_ok.
  - clear Er. done.
  - exact stored_folders_ok.
  - apply bytes_source_is. vm_compute in Er. injection Er as _ <-. by compute.
  - vm_compute in Er. injection Er as _ <-. by compute.
  - clear Er. by compute.
  - clear Er. split; [exact sample_limits|reflexivity..].
  - vm_compute in Er. by injection Er as <- _.
  - clear Er. by compute.
  - split.
    + clear Er. apply (bool_decide_eq_true_1 _). by vm_compute.
    + clear Er. by compute.
    + vm_compute in Er. injection Er as <- _. split; [by vm_compute|].
      intros packed next [-> ->]%stored_next_unique; [by vm_compute|done|done].
  - vm_compute in Er. injection Er as <- _. by vm_compute.
  - clear Er. lia.
  - clear Er. done.
  - clear Er. done.
  - clear Er. apply Nat.ltb_lt. by vm_compute.
  - clear Er. apply Nat.ltb_lt. by vm_compute.
  - exists prepared, data, self. split; [reflexivity|]. split; [vm_compute in Er; injection Er as <- _; reflexivity|]. clear Er.
    split; [exact Ho|]. split; [|split].
    + apply (Hall 1%nat _ eq_refl). by intros d limit _ [=].
    + apply (Hall 2%nat _ eq_refl). by intros d limit _ [=].
    + apply (Hall 0%nat _ eq_refl). by intros d limit _ [=].
Defined.
