(* ===== verification/ArchiveBuilder.v ===== *)
(** * The archive builder (src/src/write/mod.rs)

    The builder keeps entries with their data in memory, assigns them to folders, and runs
    the archive writer over them with the folders it planned. *)

From stdpp Require Import base numbers list option strings gmap.
From Stdlib Require Import ZArith Lia.
From S2P Require Import Prelude Folder Error Operation Readers Resources Aes DecoderPlan FolderDecode DecoderRun Headers Archive Listing WriteHeader WriteOptions Writers Lzma2Encoder WriteFolders StreamingFolder FolderWriting ArchiveWriter ArchiveWritten WrittenArchive.

(** The UTF-8 bytes of a string of scalar values. *)
Definition encode_utf8_char (c : Z) : bytes :=
  let tail n := Z.lor 128 (Z.land (Z.shiftr c n) 63) in
  if decide (c < 128) then [c]
  else if decide (c < 2048) then [Z.lor 192 (Z.shiftr c 6); tail 0]
  else if decide (c < 65536) then [Z.lor 224 (Z.shiftr c 12); tail 6; tail 0]
  else [Z.lor 240 (Z.shiftr c 18); tail 12; tail 6; tail 0].
Definition as_bytes (s : list Z) : bytes := concat (map encode_utf8_char s).

(** A slice of bytes as a reader. *)
Definition slice_reader (data : bytes) : ScriptReader := {| sr_data := data; sr_script := [] |}.

(** ** Archive entries (src/src/write/model.rs) *)

Record ArchiveEntry := { ae_name : list Z; ae_kind : WriteEntryKind; ae_meta : EntryMeta }.
Definition ArchiveEntry_file (name : list Z) (meta : EntryMeta) : ArchiveEntry :=
  {| ae_name := name; ae_kind := WriteFile; ae_meta := meta |}.
Definition ArchiveEntry_directory (name : list Z) (meta : EntryMeta) : ArchiveEntry :=
  {| ae_name := name; ae_kind := WriteDirectory; ae_meta := meta |}.
Definition ArchiveEntry_anti (name : list Z) (meta : EntryMeta) : ArchiveEntry :=
  {| ae_name := name; ae_kind := WriteAnti; ae_meta := meta |}.

Definition write_entry_from_archive_entry (entry : ArchiveEntry) (data : option bytes) (folder_id : Z) :
    result WriteEntry R7zError :=
  let nonempty := match data with Some d => negb (bool_decide (d = [])) | None => false end in
  let has_stream := bool_decide (ae_kind entry = WriteFile) && nonempty in
  if bool_decide (ae_kind entry ≠ WriteFile) && nonempty
  then Err (InvalidOptions "only file entries can have stream data") else
  let? stream := (if has_stream then let? d := ok_or data Parse in Ok (Buffered d) else Ok EmptyStream) in
  Ok (new_entry (ae_name entry) (ae_kind entry) (ae_meta entry) stream folder_id).

(** ** The builder *)

Record ArchiveBuilder := { ab_entries : list WriteEntry; ab_options : ArchiveOptions }.

Definition ArchiveBuilder_new : ArchiveBuilder := {| ab_entries := []; ab_options := ArchiveOptions_default |}.
Definition ArchiveBuilder_options (self : ArchiveBuilder) (options : ArchiveOptions) : ArchiveBuilder :=
  {| ab_entries := ab_entries self; ab_options := options |}.
Definition ArchiveBuilder_compression (self : ArchiveBuilder) (codec : Codec) : ArchiveBuilder :=
  {| ab_entries := ab_entries self; ab_options := set_codec (ab_options self) codec |}.
Definition builder_push (self : ArchiveBuilder) (entry : WriteEntry) : ArchiveBuilder :=
  {| ab_entries := ab_entries self ++ [entry]; ab_options := ab_options self |}.

Definition buffered_or_empty (data : bytes) : WriteEntryStream :=
  if decide (data = []) then EmptyStream else Buffered data.

Definition ArchiveBuilder_add_file_entry (self : ArchiveBuilder) (name : list Z) (data : bytes) (meta : EntryMeta) :
    ArchiveBuilder :=
  builder_push self (new_entry name WriteFile meta (buffered_or_empty data) 0).
Definition ArchiveBuilder_add_file (self : ArchiveBuilder) (name : list Z) (data : bytes) : ArchiveBuilder :=
  if decide (data = []) then builder_push self (new_entry name WriteFile EntryMeta_default EmptyStream 0)
  else builder_push self (new_entry name WriteFile EntryMeta_default (Buffered data) 0).
(** A link with an empty target still has a stream. *)
Definition ArchiveBuilder_add_symlink (self : ArchiveBuilder) (name target : list Z) (meta : EntryMeta) : ArchiveBuilder :=
  builder_push self (new_entry name WriteFile (EntryMeta_with_symlink_default meta) (Buffered (as_bytes target)) 0).
Definition ArchiveBuilder_add_entry (self : ArchiveBuilder) (entry : ArchiveEntry) (data : option bytes) :
    result ArchiveBuilder R7zError :=
  let? entry := write_entry_from_archive_entry entry data 0 in Ok (builder_push self entry).
Definition ArchiveBuilder_add_empty_file (self : ArchiveBuilder) (name : list Z) (meta : EntryMeta) : ArchiveBuilder :=
  builder_push self (new_entry name WriteFile meta EmptyStream 0).
Definition ArchiveBuilder_add_directory (self : ArchiveBuilder) (name : list Z) (meta : EntryMeta) : ArchiveBuilder :=
  builder_push self (new_entry name WriteDirectory meta EmptyStream 0).
Definition ArchiveBuilder_add_anti_item (self : ArchiveBuilder) (name : list Z) (meta : EntryMeta) : ArchiveBuilder :=
  builder_push self (new_entry name WriteAnti meta EmptyStream 0).

(** The sizes of the folders of a builder. *)
Fixpoint builder_folder_sizes (sizes : gmap Z Z) (entries : list WriteEntry) : result (gmap Z Z) R7zError :=
  match entries with
  | [] => Ok sizes
  | entry :: entries =>
      if has_stream entry then
        let? data := ok_or (WriteEntryStream_buffered_data (we_stream entry)) Parse in
        let? size := ok_or (checked_add (default 0 (sizes !! we_folder_id entry)) (zlen data)) Parse in
        builder_folder_sizes (<[we_folder_id entry := size]> sizes) entries
      else builder_folder_sizes sizes entries
  end.

Section building.
  Context `{Crc32} `{BlockCipher} `{Sha256} `{Host} `{EncoderLimits} `{Encoders} {G : Type} `{Entropy G}.
  Context (io_fuel : nat) {W : Type} `{Write W} `{Seek W}.

Definition ArchiveWriter_append_symlink (self : ArchiveWriter G W) (name target : list Z) (meta : EntryMeta) :
    result unit R7zError * ArchiveWriter G W :=
  ArchiveWriter_append_file io_fuel self name (slice_reader (as_bytes target)) (EntryMeta_with_symlink_default meta).

Definition ArchiveWriter_append_builder_entry (self : ArchiveWriter G W) (entry : WriteEntry) (folder_size : Z) :
    result unit R7zError * ArchiveWriter G W :=
  match we_stream entry with
  | Buffered data =>
      ArchiveWriter_append_streaming io_fuel self (we_name entry) (slice_reader data) (we_meta entry) (Preplanned folder_size)
  | EmptyStream => ArchiveWriter_append_empty_entry self (we_name entry) (we_kind entry) (we_meta entry)
  | Streaming => (Err Parse, self)
  end.

(** The writer moved to the folder of an entry, at most one further. *)
Definition move_to_folder (self : ArchiveWriter G W) (folder_id : Z) : result unit R7zError * ArchiveWriter G W :=
  match ArchiveWriter_next_folder_id self with
  | Err e => (Err e, self)
  | Ok next =>
      match folder_id ?= next with
      | Lt => (Err Parse, self)
      | Eq => (Ok tt, self)
      | Gt =>
          match ArchiveWriter_new_folder io_fuel self with
          | (Err e, self) => (Err e, self)
          | (Ok _, self) =>
              match ArchiveWriter_next_folder_id self with
              | Err e => (Err e, self)
              | Ok next => (if decide (folder_id ≠ next) then Err Parse else Ok tt, self)
              end
          end
      end
  end.

Fixpoint build_entries (self : ArchiveWriter G W) (sizes : gmap Z Z) (entries : list WriteEntry) :
    result unit R7zError * ArchiveWriter G W :=
  match entries with
  | [] => (Ok tt, self)
  | entry :: entries =>
      let folder_size := default 0 (sizes !! we_folder_id entry) in
      match move_to_folder self (we_folder_id entry) with
      | (Err e, self) => (Err e, self)
      | (Ok _, self) =>
          match ArchiveWriter_append_builder_entry self entry folder_size with
          | (Err e, self) => (Err e, self)
          | (Ok _, self) => build_entries self sizes entries
          end
      end
  end.

End building.

(** The builder writes to a buffer in memory. *)
Definition ArchiveBuilder_build `{Crc32} `{BlockCipher} `{Sha256} `{Host} `{EncoderLimits} `{Encoders} {G} `{Entropy G}
    (io_fuel : nat) (self : ArchiveBuilder) (g : G) : result bytes R7zError :=
  let options := set_default_budget (ab_options self) in
  let? entries := entries_with_solid_folders (ab_entries self) (co_solid (ao_compression options)) in
  let? sizes := builder_folder_sizes ∅ entries in
  let? writer := ArchiveWriter_new new_output options g in
  let '(built, writer) := build_entries io_fuel writer sizes entries in
  let? _ := built in
  let? out := ArchiveWriter_finish io_fuel writer in
  Ok (fo_data out).

(** ** What the builder builds *)

(** What is recorded of an entry of the builder. *)
Definition entry_built (e : WriteEntry) (l : Logged) : Prop :=
  l = {| lg_name := we_name e;
         lg_kind := match we_stream e with Buffered _ => WriteFile | _ => we_kind e end;
         lg_meta := we_meta e; lg_data := WriteEntryStream_buffered_data (we_stream e) |}.

(** The data of an entry is in the folder the entry was assigned to. *)
Definition in_its_folder (entries : list WriteEntry) (folder_id : Z) (item : Z * bytes) : Prop :=
  ∃ i e, item.1 = Z.of_nat i ∧ entries !! i = Some e ∧ we_folder_id e = folder_id.
Definition folders_assigned (entries : list WriteEntry) (folders : list WrittenFolder) : Prop :=
  ∀ j f, folders !! j = Some f → Forall (in_its_folder entries (Z.of_nat j)) (wf_items f).

Lemma sealed_assigned entries folders current folders' :
  folders_assigned entries folders → Forall (in_its_folder entries (zlen folders)) current →
  sealed folders current folders' → folders_assigned entries folders'.
Proof.
  intros Hf Hc [[-> _]|(f & -> & <-)]; [done|]. intros j g [Hj|[Hl Hg]]%lookup_app_Some; [by apply (Hf j)|].
  apply list_lookup_singleton_Some in Hg as [Hz <-]. replace j with (length folders) by lia. exact Hc.
Qed.

Lemma slice_reads_all data d : reads_all (slice_reader data) d → d = data.
Proof. intros Hr. exact (reads_all_delivers _ _ 0%nat _ Hr (ScriptReader_delivers data [])). Qed.

Lemma prepared_buffer `{EncoderLimits} options prepared :
  0 ≤ st_buffer_size (ao_streaming options) → prepare_archive_options options = Ok prepared →
  0 < st_buffer_size (ao_streaming (po_archive prepared)).
Proof.
  intros Hb. unfold prepare_archive_options. destruct (validate_archive_options options) as [settings|] eqn:Ev; [|done].
  intros [= <-]. cbn. unfold validate_archive_options in Ev.
  destruct (validate_compression_options options) as [c|] eqn:Ec; [|done]. unfold validate_compression_options in Ec.
  destruct (existsb _ _); [done|]. destruct (decide (st_buffer_size (ao_streaming options) = 0)); [done|]. lia.
Qed.

Section built.
  Context `{Crc32} `{BlockCipher} `{Sha256} `{Host} `{EncoderLimits} `{Encoders} {G : Type} `{Entropy G}.
  Context (io_fuel : nat) {W : Type} `{Write W} `{Seek W} (contents : W → bytes) (position : W → Z).
  Context (Hlaws : file_laws contents position).
  Context (encodes : EncoderKind → bytes → bytes → Prop) (Henc : encoders_spec encodes).
  Context (prepared : PreparedArchiveOptions) (Hbuffer : 0 < st_buffer_size (ao_streaming (po_archive prepared))).
  Context (assigned : list WriteEntry).

(** The builder's loop has written the entries [done]. *)
Record built_holds (self : ArchiveWriter G W) (done : list WriteEntry) (log : list Logged)
    (folders : list WrittenFolder) (current : list (Z * bytes)) : Prop := {
  bh_holds : writer_holds io_fuel contents position (λ _, True) encodes prepared self log folders current;
  bh_built : Forall2 entry_built done log;
  bh_folders : folders_assigned assigned folders;
  bh_current : Forall (in_its_folder assigned (zlen folders)) current
}.

Lemma next_folder_id_spec (self : ArchiveWriter G W) log folders current id :
  writer_holds io_fuel contents position (λ _, True) encodes prepared self log folders current →
  ArchiveWriter_next_folder_id self = Ok id → id = zlen folders.
Proof.
  intros Hh. pose proof (wh_state _ _ _ _ _ _ _ _ _ _ Hh) as Hs. unfold ArchiveWriter_next_folder_id.
  destruct (aw_state self); [| |done]; destruct Hs as [-> _]; intros [= <-]; by rewrite zlen_map.
Qed.

Lemma move_to_folder_spec self done log folders current folder_id (self' : ArchiveWriter G W) :
  built_holds self done log folders current → move_to_folder io_fuel self folder_id = (Ok tt, self') →
  ∃ folders' current', built_holds self' done log folders' current' ∧ folder_id = zlen folders'.
Proof.
  intros [Hh Hb Hf Hc]. unfold move_to_folder.
  destruct (ArchiveWriter_next_folder_id self) as [next|] eqn:En; [|done].
  apply (next_folder_id_spec _ _ _ _ _ Hh) in En as ->. destruct (folder_id ?= zlen folders) eqn:Eq; [|done|].
  - intros [= <-]. exists folders, current. split; [done|]. by apply Z.compare_eq.
  - destruct (ArchiveWriter_new_folder io_fuel self) as [[[]|] self1] eqn:Es; [|done].
    destruct (holds_seal io_fuel contents position Hlaws (λ _, True) preserved_true encodes prepared _ _ _ _ _ Hh Es) as (folders' & out & Hh1 & _ & Hsealed).
    destruct (ArchiveWriter_next_folder_id self1) as [next|] eqn:En; [|done].
    apply (next_folder_id_spec _ _ _ _ _ Hh1) in En as ->.
    destruct (decide (folder_id ≠ zlen folders')) as [|Heq]; [done|]. intros [= <-]. exists folders', [].
    split; [|by destruct (decide (folder_id = zlen folders'))]. split; [done|done|by eapply sealed_assigned|constructor].
Qed.

Lemma append_builder_entry_spec self done log folders current entry rest size self' :
  assigned = done ++ entry :: rest → built_holds self done log folders current → we_folder_id entry = zlen folders →
  ArchiveWriter_append_builder_entry io_fuel self entry size = (Ok tt, self') →
  ∃ log' current', built_holds self' (done ++ [entry]) log' folders current'.
Proof.
  intros Ha [Hh Hb Hf Hc] Hid. unfold ArchiveWriter_append_builder_entry. destruct (we_stream entry) as [|data|] eqn:Es; [| |done].
  - intros Hr. pose proof (holds_empty_entry io_fuel contents position (λ _, True) encodes prepared _ _ _ _ _ _ _ _ Hh Hr) as Hh1.
    eexists _, current. split; [exact Hh1| |done|done]. apply Forall2_app; [done|]. constructor; [|done].
    unfold entry_built. by rewrite Es.
  - intros Hr. destruct (holds_append_streaming io_fuel contents position Hlaws (λ _, True) preserved_true encodes Henc prepared Hbuffer _ _ _ _ _ _ _ _ _ Hh Hr)
      as (d & folders' & current' & Hd & Hh1 & Hp). apply slice_reads_all in Hd as ->. destruct (Hp ltac:(done)) as [-> ->].
    eexists _, _. split; [exact Hh1| |done|].
    + apply Forall2_app; [done|]. constructor; [|done]. unfold entry_built, recorded_data.
      rewrite Es, decide_False by naive_solver. done.
    + apply Forall_app. split; [done|]. constructor; [|done]. exists (length done), entry. split_and!; [|by rewrite Ha, list_lookup_middle|done].
      cbn. unfold zlen. by rewrite (Forall2_length _ _ _ Hb).
Qed.

Lemma build_entries_spec rest self done log folders current sizes self' :
  assigned = done ++ rest → built_holds self done log folders current →
  build_entries io_fuel self sizes rest = (Ok tt, self') →
  ∃ log' folders' current', built_holds self' assigned log' folders' current'.
Proof.
  revert self done log folders current. induction rest as [|entry rest IH]; intros self done log folders current Ha Hh; cbn [build_entries].
  { intros [= <-]. rewrite app_nil_r in Ha. subst. by exists log, folders, current. }
  destruct (move_to_folder io_fuel self (we_folder_id entry)) as [[[]|] self1] eqn:Em; [|done].
  destruct (move_to_folder_spec _ _ _ _ _ _ _ Hh Em) as (folders1 & current1 & Hh1 & Hid).
  destruct (ArchiveWriter_append_builder_entry io_fuel self1 entry _) as [[[]|] self2] eqn:Ea; [|done].
  destruct (append_builder_entry_spec _ _ _ _ _ _ _ _ _ Ha Hh1 Hid Ea) as (log2 & current2 & Hh2).
  apply (IH self2 (done ++ [entry]) log2 folders1 current2); [by rewrite <- app_assoc|exact Hh2].
Qed.

End built.

(** C17. An archive that the builder builds holds the entries it was given, in their order: those
    with data, also links with an empty target, have it in the folder that the solid mode
    assigns to them, and in no other; the others have no stream. The archive is laid out
    as one the writer writes, under the builder's options with the default memory budget. *)
Theorem built_archive_layout `{Crc32} `{BlockCipher} `{Sha256} `{Host} `{EncoderLimits} `{Encoders} {G} `{Entropy G}
    io_fuel encodes (b : ArchiveBuilder) (g : G) data :
  encoders_spec encodes → 0 ≤ st_buffer_size (ao_streaming (ab_options b)) →
  ArchiveBuilder_build io_fuel b g = Ok data →
  ∃ prepared assigned log folders entries,
    prepare_archive_options (set_default_budget (set_default_budget (ab_options b))) = Ok prepared ∧
    entries_with_solid_folders (ab_entries b) (co_solid (ao_compression (ab_options b))) = Ok assigned ∧
    Forall2 entry_built assigned log ∧ Forall2 entry_logged entries log ∧
    log_items log = written_items folders ∧ folders_assigned assigned folders ∧
    Forall (λ f, folder_done encodes prepared (wf_items f) (wf_packed f) (wf_folder f)) folders ∧
    archive_layout encodes prepared data entries folders.
Proof.
  intros Henc Hbuf. unfold ArchiveBuilder_build. cbn [ao_compression set_default_budget set_compression co_solid set_memory_limit].
  destruct (entries_with_solid_folders _ _) as [assigned|] eqn:Ea; [|done].
  destruct (builder_folder_sizes ∅ assigned) as [sizes|]; [|done]. unfold ArchiveWriter_new.
  destruct (prepare_archive_options _) as [prepared|] eqn:Ep; [|done].
  assert (0 < st_buffer_size (ao_streaming (po_archive prepared))) as Hbuffer
    by exact (prepared_buffer (set_default_budget (set_default_budget (ab_options b))) _ Hbuf Ep).
  set (writer := ArchiveWriter_new_prepared _ _ _).
  destruct (build_entries io_fuel writer sizes assigned) as [[[]|] writer1] eqn:Eb; [|done].
  destruct (ArchiveWriter_finish io_fuel writer1) as [out|] eqn:Ef; [|done]. intros [= <-].
  destruct (build_entries_spec io_fuel fo_data fo_pos FileOutput_laws encodes Henc prepared Hbuffer assigned assigned
    writer [] [] [] [] sizes writer1 eq_refl) as (log & folders & current & [Hh Hbuilt Hf Hc]); [|done|].
  { split; [by apply holds_new|done|by intros ? ? ?|done]. }
  destruct (holds_finish io_fuel fo_data fo_pos FileOutput_laws (λ _, True) preserved_true encodes Henc prepared _ _ _ _ _ Hh Ef)
    as (folders' & entries & He & Hi & Hd & Hl & Hsealed & _).
  exists prepared, assigned, log, folders', entries. split_and!; try done. by eapply sealed_assigned.
Qed.

(** ** Witness *)

(** Two files that share a folder, an empty directory, and a link to nothing. *)
Definition sample_builder : ArchiveBuilder :=
  let b := ArchiveBuilder_compression ArchiveBuilder_new CodecLzma in
  let b := ArchiveBuilder_add_file b [97] [1; 2; 3] in
  let b := ArchiveBuilder_add_directory b [100] EntryMeta_default in
  let b := ArchiveBuilder_add_symlink b [108] [] EntryMeta_default in
  ArchiveBuilder_add_file_entry b [98] [4; 5] EntryMeta_default.

Definition built_sample : result bytes R7zError :=
  @ArchiveBuilder_build zero_crc counter_cipher flat_hash sample_host sample_encoder_limits storing_encoders unit no_entropy
    30 sample_builder tt.

Lemma built_archive_layout_witness :
  ∃ data folders, built_sample = Ok data ∧ sub_list 32 37 data = [1; 2; 3; 4; 5] ∧
    written_items folders = [(0, [1; 2; 3]); (2, []); (3, [4; 5])].
Proof.
  destruct built_sample as [data|] eqn:Eb; [|vm_compute in Eb; discriminate].
  destruct (@built_archive_layout zero_crc counter_cipher flat_hash sample_host sample_encoder_limits storing_encoders unit
    no_entropy 30 _ sample_builder tt data storing_encoders_spec) as (prepared & assigned & log & folders & entries & _ & Ea & Hb & _ & Hi & _).
  - by compute.
  - exact Eb.
  - exists data, folders. split_and!; [done|vm_compute in Eb; injection Eb as <-; by vm_compute|]. rewrite <- Hi.
    vm_compute in Ea. injection Ea as <-. repeat (apply Forall2_cons_inv_l in Hb as (? & ? & -> & Hb & ->)).
    apply Forall2_nil_inv_l in Hb as ->. by vm_compute.
Defined.
