(* ===== verification/ArchiveUpdate.v ===== *)
(** * The writing of an update (src/src/write/mod.rs)

    A new archive from the entries of an old one and new data: raw folders are copied as
    they are, the others are encoded, in the order in which the entries first use them. *)

From stdpp Require Import base numbers list option strings gmap.
From Stdlib Require Import ZArith Lia.
From S2P Require Import Prelude PropertyId Parsers Method CoderInfo Folder Error Operation Readers Resources Aes DecoderPlan PackInfo StreamInfo FilesInfo DecoderRun Entries FolderDecode FolderRead Headers ArchiveSource PackedSource EntryReads Archive Listing WriteHeader WriteOptions Writers Lzma2Encoder WriteFolders StreamingFolder FolderWriting ArchiveWriter ArchiveWritten WrittenArchive ArchiveBuilder.

Inductive StagedDataSource := SourceBytes (data : bytes) | SourcePath (path : list Z) (size : Z).
Record StagedDataEntry := { de_index : Z; de_source : StagedDataSource }.

Definition source_size (source : StagedDataSource) : Z :=
  match source with SourceBytes data => zlen data | SourcePath _ size => size end.
Definition staged_folder_size (entries : list StagedDataEntry) : result Z R7zError :=
  try_fold (λ total entry, ok_or (checked_add total (source_size (de_source entry))) Parse) 0 entries.

(** The source of an entry whose data is to be encoded. *)
Definition staged_data_entry (streams : list StagedEntry) (index : Z) : result StagedDataEntry R7zError :=
  let? stream := ok_or (get index streams) Parse in
  match sg_stream stream with
  | StagedFolder _ (StagedData data) => Ok {| de_index := index; de_source := SourceBytes data |}
  | StagedFolder _ (StagedPath path size) => Ok {| de_index := index; de_source := SourcePath path size |}
  | StagedNone | StagedFolder _ (StagedRaw _ _) => Err Parse
  end.

(** The entries of a folder. *)
Fixpoint folder_entries_from (k : Z) (entries : list StagedEntry) (folder_id : Z) : list Z :=
  match entries with
  | [] => []
  | entry :: entries =>
      (if decide (StagedEntry_folder_id entry = Some folder_id) then [k] else []) ++
      folder_entries_from (k + 1) entries folder_id
  end.
Definition folder_entries (entries : list StagedEntry) (folder_id : Z) : list Z :=
  folder_entries_from 0 entries folder_id.

(** The data of the entries is reserved as retained output. *)
Definition reserve_data (budget : RetainedOutputBudget) (entries : list PreservedArchiveEntry) :
    result RetainedOutputBudget R7zError :=
  try_fold (λ budget entry,
    match pv_stream entry with
    | PreservedData data => RetainedOutputBudget_reserve budget (zlen data)
    | _ => Ok budget
    end) budget entries.

Section update.
  Context `{Crc32} `{BlockCipher} `{Sha256} `{Host} `{EncoderLimits} `{Encoders} {G : Type} `{Entropy G}.
  Context (io_fuel : nat) {W : Type} `{Write W} `{Seek W} {S : Type} `{Reader S}.
  Context (open_file : list Z → result S IoError).
#[local] Instance update_folder_write : Write (StreamingFolder W) := StreamingFolder_Write io_fuel.

(** ** Folders that are encoded *)

(** [seen] is what the checksum covers. *)
Fixpoint write_staged_reader {R} `{Reader R} (fuel : nat) (reader : R) (out : StreamingFolder W)
    (monitor : OperationMonitor) (seen : bytes) (total : Z) :
    result (Z * Z) R7zError * StreamingFolder W * OperationMonitor :=
  match fuel with
  | O => (Err R7zOutOfFuel, out, monitor)
  | Datatypes.S fuel =>
      match OperationMonitor_read monitor reader (OperationMonitor_buffer_size monitor (1024 * 1024)) with
      | (Err e, monitor, _) => (Err e, out, monitor)
      | (Ok [], monitor, _) => (Ok (total, crc32 seen), out, monitor)
      | (Ok chunk, monitor, reader) =>
          match io_write_all io_fuel out chunk with
          | (Err e, out) => (Err (R7zError_from e), out, monitor)
          | (Ok _, out) =>
              match checked_add total (zlen chunk) with
              | None => (Err Parse, out, monitor)
              | Some total => write_staged_reader fuel reader out monitor (seen ++ chunk) total
              end
          end
      end
  end.

Definition write_staged_stream_to (source : StagedDataSource) (out : StreamingFolder W) (monitor : OperationMonitor) :
    result (Z * Z) R7zError * StreamingFolder W * OperationMonitor :=
  match source with
  | SourceBytes data => write_staged_reader io_fuel (slice_reader data) out monitor [] 0
  | SourcePath path _ =>
      match open_file path with
      | Err e => (Err (R7zError_from e), out, monitor)
      | Ok file => write_staged_reader io_fuel file out monitor [] 0
      end
  end.

Fixpoint write_data_entries (folder : StreamingFolder W) (c : WriterContext G) (entries : list StagedDataEntry) :
    result (StreamingFolder W) R7zError * WriterContext G :=
  match entries with
  | [] => (Ok folder, c)
  | entry :: entries =>
      let '(written, folder, monitor) := write_staged_stream_to (de_source entry) folder (wc_monitor c) in
      let c := set_writer_monitor c monitor in
      match written with
      | Err e => (Err e, c)
      | Ok (size, checksum) =>
          match StreamingFolder_record_stream folder (de_index entry) size checksum with
          | Err e => (Err e, c)
          | Ok folder => write_data_entries folder c entries
          end
      end
  end.

(** The output is borrowed while the folder is written. *)
Definition write_encoded_folder_streaming (out : W) (streams : list StagedEntry) (file_indices : list Z)
    (prepared : PreparedArchiveOptions) (c : WriterContext G) :
    result (W * CompletedFolder) R7zError * WriterContext G :=
  match (let? entries := try_collect (staged_data_entry streams) file_indices in
         let? known_size := staged_folder_size entries in Ok (entries, known_size)) with
  | Err e => (Err e, c)
  | Ok (entries, known_size) =>
      match StreamingFolder_encoded io_fuel out (Some known_size) prepared c with
      | (Err e, c) => (Err e, c)
      | (Ok folder, c) =>
          match write_data_entries folder c entries with
          | (Err e, c) => (Err e, c)
          | (Ok folder, c) =>
              (let? (writer, folder) := StreamingFolder_complete io_fuel folder prepared in
               Ok (cw_inner writer, folder), c)
          end
      end
  end.

(** ** The archive *)

Definition write_raw_folder (out : W) (raw : RawFolderBlock) (streams : list StagedEntry) (file_indices : list Z)
    (prepared : PreparedArchiveOptions) (c : WriterContext G) :
    result (W * CompletedFolder) R7zError * WriterContext G :=
  let writer := {| cw_inner := out; cw_count := 0 |} in
  let '(folder, monitor) := StreamingFolder_raw io_fuel open_file writer raw streams file_indices (wc_monitor c) in
  (let? folder := folder in
   let? (writer, folder) := StreamingFolder_complete io_fuel folder prepared in
   Ok (cw_inner writer, folder), set_writer_monitor c monitor).

Fixpoint write_folders (out : W) (entries : list StagedEntry) (raw_by_id : gmap Z RawFolderBlock)
    (prepared : PreparedArchiveOptions) (c : WriterContext G) (completed : list CompletedFolder) (order : list Z) :
    result (W * list CompletedFolder) R7zError * WriterContext G :=
  match order with
  | [] => (Ok (out, completed), c)
  | folder_id :: order =>
      let file_indices := folder_entries entries folder_id in
      let '(written, c) :=
        match raw_by_id !! folder_id with
        | Some raw => write_raw_folder out raw entries file_indices prepared c
        | None => write_encoded_folder_streaming out entries file_indices prepared c
        end in
      match written with
      | Err e => (Err e, c)
      | Ok (out, folder) =>
          write_folders out entries (delete folder_id raw_by_id) prepared c (completed ++ [folder]) order
      end
  end.

Definition write_preserved_archive (out : W) (entries : list PreservedArchiveEntry) (raw_folders : list RawFolderBlock)
    (options : ArchiveOptions) (g : G) : result W R7zError :=
  let? prepared := prepare_archive_options (set_default_budget options) in
  let budgets := writer_budgets prepared in
  let '(checked, monitor) := OperationMonitor_check (wo_monitor (wb_operation budgets)) in
  let? _ := checked in
  let? _ := reserve_data (sb_retained_output (wb_spool budgets)) entries in
  let? staged := stage_preserved_entries entries raw_folders (po_archive prepared) in
  let? out := write_at io_fuel 0 (replicate 32 0) out in
  let c := set_writer_monitor {| wc_operation := wb_operation budgets; wc_entropy := g |} monitor in
  let '(written, c) :=
    write_folders out (sp_entries staged) (sp_raw_by_id staged) prepared c [] (sp_folder_order staged) in
  let? (out, completed) := written in
  finish_streamed_archive io_fuel out (map StagedEntry_into_write_entry (sp_entries staged)) completed prepared c.

Definition write_archive_update `{Nom} `{LzmaMemory} `{Decoders} (source : Archive) (out : W)
    (entries : list PreservedArchiveEntry) (raw_folders : list RawFolderBlock) (options : ArchiveOptions) (g : G) :
    result W R7zError :=
  let? _ := validate_raw_folder_update source entries raw_folders in
  write_preserved_archive out entries raw_folders options g.

Definition write_archive_with_preserved_folders := write_preserved_archive.

End update.

Definition build_archive_with_preserved_folders `{Crc32} `{BlockCipher} `{Sha256} `{Host} `{EncoderLimits} `{Encoders}
    {G} `{Entropy G} (io_fuel : nat) {S} `{Reader S} (open_file : list Z → result S IoError)
    (entries : list PreservedArchiveEntry) (raw_folders : list RawFolderBlock) (options : ArchiveOptions) (g : G) :
    result bytes R7zError :=
  let? out := write_preserved_archive io_fuel open_file new_output entries raw_folders options g in Ok (fo_data out).

(** ** What an update holds *)

(** The bytes a source gives. *)
Definition source_reads {S} `{Reader S} (open_file : list Z → result S IoError) (source : StagedDataSource) (d : bytes) : Prop :=
  match source with
  | SourceBytes data => d = data
  | SourcePath path _ => ∃ file, open_file path = Ok file ∧ reads_all file d
  end.

Lemma chunks_concat fuel n b : concat (chunks fuel n b) = b.
Proof.
  revert b. induction fuel as [|fuel IH]; intros [|x b]; cbn [chunks concat]; [done|by rewrite app_nil_r|done|].
  by rewrite IH, take_drop.
Qed.

Lemma first_occurrences_nodup ids : NoDup (first_occurrences ids).
Proof.
  enough (∀ acc, NoDup acc → NoDup (foldl (λ order id, if decide (id ∈ order) then order else order ++ [id]) acc ids)) as Hacc
    by (apply Hacc; constructor).
  induction ids as [|id ids IH]; intros acc Ha; cbn; [done|]. apply IH. case_decide; [done|].
  apply NoDup_app. split_and!; [done| |apply NoDup_singleton]. by intros x Hx ->%list_elem_of_singleton.
Qed.

Section written.
  Context `{Crc32} `{BlockCipher} `{Sha256} `{Host} `{EncoderLimits} `{Encoders} {G : Type} `{Entropy G}.
  Context (io_fuel : nat) {W : Type} `{Write W} `{Seek W} {S : Type} `{Reader S}.
  Context (open_file : list Z → result S IoError).
  Context (encodes : EncoderKind → bytes → bytes → Prop) (Henc : encoders_spec encodes).
  Context (prepared : PreparedArchiveOptions).
#[local] Instance update_write : Write (StreamingFolder W) := StreamingFolder_Write io_fuel.

Section folders.
  Context (got : W → bytes → Prop) (Hgot : tracked got).
Let holds := folder_holds io_fuel encodes prepared got.

Lemma staged_reader_spec {R} `{Reader R} fuel (reader : R) f monitor seen total size crc f' monitor' items :
  holds items f seen → total = zlen seen →
  write_staged_reader io_fuel fuel reader f monitor seen total = (Ok (size, crc), f', monitor') →
  ∃ rest, reads_all reader rest ∧ size = zlen (seen ++ rest) ∧ crc = crc32 (seen ++ rest) ∧ holds items f' (seen ++ rest).
Proof.
  revert reader f monitor seen total. induction fuel as [|fuel IH]; intros reader f monitor seen total Hf Ht;
    cbn [write_staged_reader]; [done|].
  destruct (OperationMonitor_read monitor reader _) as [[[chunk|] m1] reader1] eqn:Er; [|done].
  apply monitor_read_reads in Er as (n & Hn & Hread);
    [|unfold OperationMonitor_buffer_size, CHECK_INTERVAL; destruct (om_control monitor); lia].
  destruct chunk as [|b chunk].
  - intros [= <- <- <- <-]. exists []. rewrite app_nil_r. split_and!; [|done|done|done].
    exists reader, n, reader1. by split_and!; [constructor|..].
  - destruct (io_write_all io_fuel f (b :: chunk)) as [[[]|] f1] eqn:Ew; [|done].
    pose proof (write_all_tracked _ (folder_holds_tracked io_fuel encodes prepared _ Hgot items) _ _ _ _ _ Hf Ew) as Hf1.
    destruct (checked_add total _) as [total1|] eqn:Ea; [|done]. apply checked_add_some in Ea.
    intros Hr. destruct (IH _ _ _ (seen ++ b :: chunk) total1 Hf1 ltac:(rewrite zlen_app; lia) Hr)
      as (rest & (last & k & end_ & Hy & Hk & Hend) & Hsize & Hcrc & Hf').
    exists ((b :: chunk) ++ rest). rewrite <- !app_assoc in *. split_and!; try done.
    exists last, k, end_. split_and!; [|done|done]. exact (yields_some reader n (b :: chunk) reader1 rest last Hn Hread Hy).
Qed.

Definition entry_item (entry : StagedDataEntry) (item : Z * bytes) : Prop :=
  item.1 = de_index entry ∧ source_reads open_file (de_source entry) item.2.

Lemma data_entries_spec entries f (c : WriterContext G) f' c' items :
  holds items f [] → write_data_entries io_fuel open_file f c entries = (Ok f', c') →
  ∃ items', Forall2 entry_item entries items' ∧ holds (items ++ items') f' [].
Proof.
  revert f c items. induction entries as [|entry entries IH]; intros f c items Hf; cbn [write_data_entries].
  { intros [= <- _]. exists []. by rewrite app_nil_r. }
  destruct (write_staged_stream_to io_fuel open_file (de_source entry) f (wc_monitor c)) as [[[[size crc]|] f1] m1] eqn:Ew; [|done].
  assert (∃ d, source_reads open_file (de_source entry) d ∧ size = zlen d ∧ crc = crc32 d ∧ holds items f1 d)
    as (d & Hd & -> & -> & Hf1).
  { unfold write_staged_stream_to in Ew. destruct (de_source entry) as [data|path sz].
    - destruct (staged_reader_spec _ _ _ _ [] 0 _ _ _ _ _ Hf eq_refl Ew) as (rest & Hr & ? & ? & ?).
      apply slice_reads_all in Hr. by exists rest.
    - destruct (open_file path) as [file|] eqn:Eo; [|done].
      destruct (staged_reader_spec _ _ _ _ [] 0 _ _ _ _ _ Hf eq_refl Ew) as (rest & Hr & ? & ? & ?).
      exists rest. split; [|done]. cbn. eauto. }
  destruct (StreamingFolder_record_stream f1 _ _ _) as [f2|] eqn:Er; [|done].
  pose proof (record_stream_holds io_fuel encodes prepared got _ _ _ _ _ Hf1 Er) as Hf2. intros Hr.
  destruct (IH _ _ _ Hf2 Hr) as (items' & Hi & Hf'). exists ((de_index entry, d) :: items'). split; [by constructor|].
  by rewrite <- app_assoc in Hf'.
Qed.

Definition encoded_as (entries : list StagedEntry) (indices : list Z) (f : WrittenFolder) : Prop :=
  folder_done encodes prepared (wf_items f) (wf_packed f) (wf_folder f) ∧
  ∃ sources, try_collect (staged_data_entry entries) indices = Ok sources ∧ Forall2 entry_item sources (wf_items f).

Lemma encoded_folder_spec out entries indices (c : WriterContext G) out' folder c' :
  got out [] →
  write_encoded_folder_streaming io_fuel open_file out entries indices prepared c = (Ok (out', folder), c') →
  ∃ f, wf_folder f = folder ∧ encoded_as entries indices f ∧ got out' (wf_packed f).
Proof.
  intros Hg. unfold write_encoded_folder_streaming.
  destruct (try_collect (staged_data_entry entries) indices) as [sources|] eqn:Es; [|done].
  destruct (staged_folder_size sources) as [size|]; [|done].
  destruct (StreamingFolder_encoded io_fuel out (Some size) prepared c) as [[f|] c1] eqn:Ef; [|done].
  pose proof (folder_encoded_holds io_fuel encodes Henc prepared got Hgot _ _ _ _ _ Hg Ef) as Hf.
  destruct (write_data_entries io_fuel open_file f c1 sources) as [[f1|] c2] eqn:Ew; [|done].
  destruct (data_entries_spec _ _ _ _ _ [] Hf Ew) as (items & Hi & Hf1). cbn [app] in Hf1.
  destruct (StreamingFolder_complete io_fuel f1 prepared) as [[cw cf]|] eqn:Ec; [|done]. intros [= <- <- _].
  destruct (complete_done io_fuel encodes prepared got Hgot _ _ _ _ Hf1 Ec) as (packed & Hd & Hp & _).
  exists {| wf_items := items; wf_packed := packed; wf_folder := cf |}. split_and!; [done| |done]. split; [done|]. by exists sources.
Qed.

(** ** Copied folders *)

Definition raw_file (entries : list StagedEntry) (index : Z) (file : FolderFile) : Prop :=
  ∃ entry crc, get index entries = Some entry ∧ staged_stream_crc io_fuel open_file entry = Ok crc ∧
    file = {| ff_entry_index := index; ff_size := staged_stream_size entry; ff_crc := crc |}.

(** A folder copied: its packed streams and its description, with the entries it now has. *)
Definition copied_as (entries : list StagedEntry) (indices : list Z) (raw : RawFolderBlock) (f : WrittenFolder) : Prop :=
  wf_packed f = concat (rb_packed_streams raw) ∧ rb_pack_sizes raw = map zlen (rb_packed_streams raw) ∧
  ∃ files, Forall2 (raw_file entries) indices files ∧
    wf_folder f = completed files (rb_pack_sizes raw) (rb_folder_info raw) (rb_coder_unpack_sizes raw) (rb_folder_crc raw).

Lemma copy_chunks_spec w m parts d w' m' :
  counting_got got w d → copy_chunks io_fuel w m parts = (Ok w', m') → counting_got got w' (d ++ concat parts).
Proof.
  revert w m d. induction parts as [|b parts IH]; intros w m d Hw; cbn [copy_chunks].
  { intros [= <- _]. by rewrite app_nil_r. }
  destruct (OperationMonitor_check m) as [[[]|] m1]; [|done].
  destruct (io_write_all io_fuel w b) as [[[]|] w1] eqn:Ew; [|done].
  pose proof (write_all_tracked _ (counting_tracked got Hgot) _ _ _ _ _ Hw Ew) as Hw1.
  destruct (OperationMonitor_advance m1 _) as [[[]|] m2]; [|done]. intros Hr%(IH _ _ _ Hw1). by rewrite <- app_assoc in Hr.
Qed.

Lemma copy_packed_spec w m streams d w' m' :
  counting_got got w d → copy_packed io_fuel w m streams = (Ok w', m') →
  counting_got got w' (d ++ concat streams.*1) ∧ Forall (λ p, zlen p.1 = p.2) streams.
Proof.
  revert w m d. induction streams as [|[b size] streams IH]; intros w m d Hw; cbn [copy_packed].
  { intros [= <- _]. cbn. by rewrite app_nil_r. }
  destruct (decide (zlen b ≠ size)) as [|Hs]; [done|]. apply dec_stable in Hs.
  destruct (copy_chunks io_fuel w m _) as [[w1|] m1] eqn:Ec; [|done].
  pose proof (copy_chunks_spec _ _ _ _ _ _ Hw Ec) as Hw1. rewrite chunks_concat in Hw1.
  intros Hr. destruct (IH _ _ _ Hw1 Hr) as [Hw' Hf]. split; [|by constructor]. cbn. by rewrite app_assoc.
Qed.

Lemma zip_sizes (streams : list bytes) sizes :
  length streams = length sizes → Forall (λ p, zlen p.1 = p.2) (zip streams sizes) → sizes = map zlen streams.
Proof.
  revert sizes. induction streams as [|b streams IH]; intros [|size sizes] Hl Hf; try done.
  apply Forall_cons in Hf as [Hs Hf]. cbn in *. subst. f_equal. apply IH; [lia|done].
Qed.

Lemma raw_folder_spec out raw entries indices (c : WriterContext G) out' folder c' :
  got out [] → write_raw_folder io_fuel open_file out raw entries indices prepared c = (Ok (out', folder), c') →
  ∃ f, wf_folder f = folder ∧ copied_as entries indices raw f ∧ got out' (wf_packed f).
Proof.
  intros Hg. unfold write_raw_folder, StreamingFolder_raw. destruct (OperationMonitor_check _) as [[[]|] m1]; [|done].
  destruct (decide (zlen _ ≠ zlen _)) as [|Hl]; [done|]. apply dec_stable in Hl.
  destruct (copy_packed io_fuel _ m1 _) as [[w|] m2] eqn:Ec; [|done].
  assert (counting_got got {| cw_inner := out; cw_count := 0 |} []) as Hw by (by split).
  destruct (copy_packed_spec _ _ _ _ _ _ Hw Ec) as [[Hw' _] Hs].
  destruct (try_collect _ indices) as [files|] eqn:Ef; [|done]. cbn [StreamingFolder_complete sw_encoder sw_files]. intros [= <- <- _].
  unfold zlen in Hl. apply Nat2Z.inj in Hl. rewrite fst_zip in Hw' by lia.
  exists {| wf_items := []; wf_packed := concat (rb_packed_streams raw);
            wf_folder := completed files (rb_pack_sizes raw) (rb_folder_info raw) (rb_coder_unpack_sizes raw) (rb_folder_crc raw) |}.
  split_and!; [done| |done]. split_and!; [done|by apply zip_sizes|]. exists files. split; [|done].
  apply try_collect_Forall2 in Ef. eapply Forall2_impl; [exact Ef|]. cbn. intros index file.
  destruct (get index entries) as [entry|] eqn:Eg; [|done]. cbn [ok_or].
  destruct (staged_stream_crc io_fuel open_file entry) as [crc|] eqn:Ecrc; [|done]. intros [= <-]. by exists entry, crc.
Qed.

End folders.

(** ** The whole update *)

(** The folder of an id: copied if a raw folder was given for it, encoded otherwise. *)
Definition updated_folder (staged : StagedPreserved) (folder_id : Z) (f : WrittenFolder) : Prop :=
  let indices := folder_entries (sp_entries staged) folder_id in
  match sp_raw_by_id staged !! folder_id with
  | Some raw => copied_as (sp_entries staged) indices raw f
  | None => encoded_as (sp_entries staged) indices f
  end.

Lemma updated_folder_sized staged folder_id f : updated_folder staged folder_id f → packed_sized f.
Proof.
  unfold updated_folder. destruct (sp_raw_by_id staged !! folder_id) as [raw|].
  - intros (Hp & Hs & files & _ & Hf). exists (rb_packed_streams raw). by rewrite Hf.
  - intros [Hd _]. by eapply folder_done_sized.
Qed.

Context (contents : W → bytes) (position : W → Z) (Hlaws : file_laws contents position).
Let any (_ : W) : Prop := True.
Let file_at := file_at contents position any.

Lemma file_at_snoc folders f out :
  file_got contents position (written_base folders) out (wf_packed f) → file_at (folders ++ [f]) out [].
Proof.
  intros Hg. split; [|done]. unfold file_got, written_base, packed_streams in Hg |- *. rewrite map_app, concat_app.
  cbn [map concat]. by rewrite !app_nil_r, app_assoc.
Qed.

Lemma write_folders_spec staged order out raw_by_id (c : WriterContext G) folders out' completed' c' :
  NoDup order → (∀ k, k ∈ order → raw_by_id !! k = sp_raw_by_id staged !! k) →
  file_at folders out [] →
  write_folders io_fuel open_file out (sp_entries staged) raw_by_id prepared c (map wf_folder folders) order =
    (Ok (out', completed'), c') →
  ∃ folders', Forall2 (updated_folder staged) order folders' ∧ completed' = map wf_folder (folders ++ folders') ∧
    file_at (folders ++ folders') out' [].
Proof.
  revert out raw_by_id c folders. induction order as [|k order IH]; intros out raw_by_id c folders Hnd Hraw Hout; cbn [write_folders].
  { intros [= <- <- _]. exists []. by rewrite app_nil_r. }
  apply NoDup_cons in Hnd as [Hk Hnd].
  set (written := match raw_by_id !! k with Some raw => _ | None => _ end).
  destruct written as [[[out1 folder]|] c1] eqn:Ew; [|done]. unfold written in Ew. clear written.
  assert (∃ f, wf_folder f = folder ∧ updated_folder staged k f ∧
    file_got contents position (written_base folders) out1 (wf_packed f)) as (f & <- & Hf & Hout1).
  { unfold updated_folder. rewrite <- (Hraw k) by (apply elem_of_cons; by left).
    destruct Hout as [Hout _]. pose proof (file_tracked contents position (written_base folders) Hlaws) as Ht. destruct (raw_by_id !! k) as [raw|].
    - by eapply raw_folder_spec.
    - by eapply encoded_folder_spec. }
  change [wf_folder f] with (map wf_folder [f]). rewrite <- map_app. intros Hr.
  assert (∀ j, j ∈ order → delete k raw_by_id !! j = sp_raw_by_id staged !! j) as Hraw'.
  { intros j Hj. rewrite lookup_delete_ne by (intros ->; done). apply Hraw, elem_of_cons. by right. }
  destruct (IH out1 _ _ (folders ++ [f]) Hnd Hraw' (file_at_snoc _ _ _ Hout1) Hr) as (folders' & Hall & -> & Hout').
  exists (f :: folders'). rewrite <- app_assoc in *. split_and!; [by constructor|done|done].
Qed.

Lemma write_preserved_spec out entries raw_folders options (g : G) out' :
  write_preserved_archive io_fuel open_file out entries raw_folders options g = Ok out' →
  prepare_archive_options (set_default_budget options) = Ok prepared →
  ∃ staged folders, stage_preserved_entries entries raw_folders (po_archive prepared) = Ok staged ∧
    Forall2 (updated_folder staged) (sp_folder_order staged) folders ∧
    archive_layout encodes prepared (contents out') (map StagedEntry_into_write_entry (sp_entries staged)) folders.
Proof.
  unfold write_preserved_archive. intros Hw Hp. rewrite Hp in Hw. destruct (OperationMonitor_check _) as [[[]|] m]; [|done].
  destruct (reserve_data _ entries) as [|]; [|done].
  destruct (stage_preserved_entries entries raw_folders _) as [staged|] eqn:Es; [|done].
  destruct (write_at io_fuel 0 (replicate 32 0) out) as [out1|] eqn:E1; [|done].
  pose proof (write_start io_fuel contents position Hlaws any preserved_true _ _ I E1 : file_at [] out1 []) as Hout.
  destruct (write_folders io_fuel open_file out1 _ _ prepared _ [] _) as [[[out2 completed']|] c2] eqn:Ew; [|done].
  assert (NoDup (sp_folder_order staged)) as Hnd.
  { unfold stage_preserved_entries in Es. destruct (ok_or _ _) as [next|]; [|done].
    destruct (stage_entries _ _ _ _) as [sent|]; [|done]. destruct (negb _); [done|]. injection Es as <-. apply first_occurrences_nodup. }
  destruct (write_folders_spec staged _ _ _ _ [] _ _ _ Hnd ltac:(done) Hout Ew) as (folders & Hall & -> & Hout2).
  exists staged, folders. split_and!; [done|done|].
  refine (proj1 (finish_streamed_layout io_fuel contents position Hlaws any preserved_true encodes Henc prepared _ _ _ _ _ _ I (λ _, Hout2) Hw)).
  eapply Forall2_Forall_r; [exact Hall|]. apply Forall_true. intros k f. apply updated_folder_sized.
Qed.

End written.

(** ** Properties *)

(** An update that succeeds was valid for its source, and the archive it writes has one folder
    for each folder id the new entries use, in the order of first use. A kept folder has
    the packed streams of its source byte for byte, with its coder description and its
    digest, and lists the entries kept from it with their sizes and digests. Every other folder is the
    encoding of the bytes its entries gave, one after the other, in memory or read from
    their files. The header lists the entries in the order given. *)
Theorem updated_archive_layout `{Nom} `{Crc32} `{LzmaMemory} `{Decoders} `{BlockCipher} `{Sha256} `{Host} `{EncoderLimits}
    `{Encoders} {G} `{Entropy G} io_fuel {W} `{Write W} `{Seek W} {S} `{Reader S} (open_file : list Z → result S IoError)
    contents position encodes (source : Archive) (out : W) entries raw_folders options (g : G) out' :
  encoders_spec encodes → file_laws contents position →
  write_archive_update io_fuel open_file source out entries raw_folders options g = Ok out' →
  validate_raw_folder_update source entries raw_folders = Ok tt ∧
  ∃ prepared staged folders,
    prepare_archive_options (set_default_budget options) = Ok prepared ∧
    stage_preserved_entries entries raw_folders (po_archive prepared) = Ok staged ∧
    Forall2 (updated_folder io_fuel open_file encodes prepared staged) (sp_folder_order staged) folders ∧
    archive_layout encodes prepared (contents out') (map StagedEntry_into_write_entry (sp_entries staged)) folders.
Proof.
  intros Henc Hlaws. unfold write_archive_update.
  destruct (validate_raw_folder_update source entries raw_folders) as [[]|]; [|done]. intros Hw. split; [done|].
  destruct (prepare_archive_options (set_default_budget options)) as [prepared|] eqn:Ep;
    [|unfold write_preserved_archive in Hw; by rewrite Ep in Hw].
  destruct (write_preserved_spec io_fuel open_file encodes Henc prepared contents position Hlaws _ _ _ _ _ _ Hw Ep)
    as (staged & folders & Hs & Hall & Hl).
  by exists prepared, staged, folders.
Qed.

(** ** Witness *)

#[local] Existing Instances flat_memory stored_decoders counter_cipher flat_hash sum_crc sample_host sample_encoder_limits
  storing_encoders no_entropy.

(** New data, the folder of the sample archive, and a file on disk. *)
Definition sample_update_entries : list PreservedArchiveEntry :=
  sample_preserved 98 (PreservedData [9; 9]) :: sample_kept ++ [sample_preserved 99 (PreservedPath [120] 3)].
Definition sample_open_file (path : list Z) : result ScriptReader IoError := Ok (slice_reader [6; 7; 8]).

Lemma updated_archive_layout_witness :
  ∃ source out' staged folders, sample_opened = Ok source ∧
    write_archive_update 30 sample_open_file source new_output sample_update_entries sample_supplied sample_options tt = Ok out' ∧
    sub_list 32 41 (fo_data out') = [9; 9; 1; 2; 3; 4; 6; 7; 8] ∧
    stage_preserved_entries sample_update_entries sample_supplied sample_options = Ok staged ∧
    sp_folder_order staged = [1; 0; 2] ∧ length (folders : list WrittenFolder) = 3%nat.
Proof.
  destruct sample_opened as [source|] eqn:Eo; [|vm_compute in Eo; discriminate Eo].
  destruct (write_archive_update 30 sample_open_file source new_output sample_update_entries sample_supplied sample_options tt)
    as [out'|] eqn:Ew; [|exfalso; vm_compute in Eo; injection Eo as <-; vm_compute in Ew; discriminate Ew].
  destruct (updated_archive_layout 30 sample_open_file fo_data fo_pos _ source new_output sample_update_entries sample_supplied
    sample_options tt out' storing_encoders_spec FileOutput_laws Ew) as (_ & prepared & staged & folders & Ep & Es & Hf & _).
  exists source, out', staged, folders. vm_compute in Ep. injection Ep as <-.
  assert (sp_folder_order staged = [1; 0; 2]) as Ho by (vm_compute in Es; injection Es as <-; reflexivity).
  split_and!; [done|done| |exact Es|exact Ho|].
  - vm_compute in Eo. injection Eo as <-. vm_compute in Ew. injection Ew as <-. reflexivity.
  - rewrite Ho in Hf. by rewrite <- (Forall2_length _ _ _ Hf).
Defined.
