(* ===== verification/Copying.v ===== *)
(** * Copying (src/src/operation.rs)

    The copy of a reader to a writer under the control of an operation, with the loop of
    [std::io::copy] it uses when there is no control. A reader is specified by what it has
    left to give, so that a copy from [Take] tells what the reader underneath still has. *)

From stdpp Require Import base numbers list option strings.
From Stdlib Require Import ZArith Lia.
From S2P Require Import Prelude Error Operation Readers Writers.

(** The buffer of [std::io::copy] and of the controlled copy. *)
Definition COPY_BUFFER : Z := 8 * 1024.

Section copying.
  Context (io_fuel : nat) {S : Type} `{Reader S} {W : Type} `{Write W}.

(** [std::io::copy]: interrupted reads are retried. *)
Fixpoint io_copy (fuel : nat) (reader : S) (writer : W) (total : Z) : result Z IoError * S * W :=
  match fuel with
  | O => (Err io_out_of_fuel, reader, writer)
  | Datatypes.S fuel =>
      match read_retry io_fuel reader COPY_BUFFER with
      | (Err e, reader) => (Err e, reader, writer)
      | (Ok [], reader) => (Ok total, reader, writer)
      | (Ok chunk, reader) =>
          match io_write_all io_fuel writer chunk with
          | (Err e, writer) => (Err e, reader, writer)
          | (Ok _, writer) => io_copy fuel reader writer (total + zlen chunk)
          end
      end
  end.

(** The copy that checks the control with every read. *)
Fixpoint copy_controlled (fuel : nat) (self : OperationMonitor) (reader : S) (writer : W) (total : Z) :
    result Z R7zError * OperationMonitor * S * W :=
  match fuel with
  | O => (Err R7zOutOfFuel, self, reader, writer)
  | Datatypes.S fuel =>
      match OperationMonitor_read self reader COPY_BUFFER with
      | (Err e, self, reader) => (Err e, self, reader, writer)
      | (Ok [], self, reader) => (Ok total, self, reader, writer)
      | (Ok chunk, self, reader) =>
          match io_write_all io_fuel writer chunk with
          | (Err e, writer) => (Err (Io e), self, reader, writer)
          | (Ok _, writer) =>
              match checked_add total (zlen chunk) with
              | None => (Err Parse, self, reader, writer)
              | Some total => copy_controlled fuel self reader writer total
              end
          end
      end
  end.

Definition OperationMonitor_copy_to (self : OperationMonitor) (reader : S) (writer : W) :
    result Z R7zError * OperationMonitor * S * W :=
  match om_control self with
  | None =>
      let '(res, reader, writer) := io_copy io_fuel reader writer 0 in (map_err Io res, self, reader, writer)
  | Some _ => copy_controlled io_fuel self reader writer 0
  end.

End copying.

(** ** The specification *)

(** A relation between a reader and what it has left: a read takes the next bytes, none
    only at the end, and an interrupted one takes nothing. *)
Record giving {S} `{Reader S} (I : S → bytes → Prop) : Prop := {
  gv_read : ∀ s d n c s', 0 < n → I s d → reader_read s n = (Ok c, s') →
    ∃ rest, d = c ++ rest ∧ zlen c ≤ n ∧ (c = [] → d = []) ∧ I s' rest;
  gv_interrupted : ∀ s d n e s', 0 < n → I s d → reader_read s n = (Err e, s') → interrupted e = true → I s' d
}.

(** A reader that stops after a number of bytes of one that goes on with [rest]. *)
Definition take_left {S} (I : S → bytes → Prop) (rest : bytes) (t : Take S) (d : bytes) : Prop :=
  I (tk_inner t) (d ++ rest) ∧ (tk_limit t = zlen d ∨ rest = [] ∧ zlen d ≤ tk_limit t).

Lemma take_giving {S} `{Reader S} (I : S → bytes → Prop) rest : giving I → giving (take_left I rest).
Proof.
  intros Hg. split.
  - intros [s limit] d n c s' Hn [Hs Hl]. cbn in Hs, Hl. unfold reader_read at 1, Take_read. cbn [tk_limit tk_inner].
    pose proof (zlen_nonneg d). destruct (decide (limit = 0)) as [->|Hne].
    + intros [= <- <-]. exists d. assert (d = []) as -> by (apply nil_length_inv; unfold zlen in *; destruct Hl as [?|[? ?]]; lia).
      split_and!; [done|rewrite zlen_nil; lia|done|by split].
    + destruct (reader_read s (Z.min n limit)) as [[c1|] s1] eqn:Er; [|done]. intros [= <- <-].
      assert (0 < Z.min n limit) as Hmin by (destruct Hl as [?|[? ?]]; lia).
      destruct (gv_read _ Hg _ _ _ _ _ Hmin Hs Er) as (r & Hd & Hc & He & Hs1).
      assert (d = take (length d) (c1 ++ r)) as Hd' by (by rewrite <- Hd, take_app_length).
      assert (zlen c1 ≤ zlen d) as Hle.
      { destruct Hl as [->|[-> Hl]]; [lia|]. rewrite app_nil_r in Hd. subst d. rewrite zlen_app. pose proof (zlen_nonneg r). lia. }
      rewrite take_app_ge in Hd' by (unfold zlen in *; lia).
      exists (take (length d - length c1) r). split_and!; [done|lia| |].
      * intros ->. specialize (He eq_refl). by apply app_eq_nil in He as [? _].
      * set (d2 := take _ r) in *. clearbody d2. subst d. rewrite <- app_assoc in Hd. apply app_inv_head in Hd as <-.
        split; [done|]. cbn. rewrite zlen_app in Hl. destruct Hl as [?|[? ?]]; [left|right]; repeat split; try done; lia.
  - intros [s limit] d n e s' Hn [Hs Hl]. cbn in Hs, Hl. unfold reader_read at 1, Take_read. cbn [tk_limit tk_inner].
    destruct (decide (limit = 0)); [done|]. destruct (reader_read s (Z.min n limit)) as [[c1|] s1] eqn:Er; [done|].
    intros [= <- <-] Hi. pose proof (zlen_nonneg d). split; [|done]. cbn. eapply (gv_interrupted _ Hg); [|exact Hs|exact Er|exact Hi].
    destruct Hl as [?|[? ?]]; lia.
Qed.

(** What is left of the reader underneath, whatever the limit. *)
Lemma take_left_intro {S} (I : S → bytes → Prop) s limit d :
  0 ≤ limit → I s d →
  take_left I (drop (Z.to_nat limit) d) {| tk_inner := s; tk_limit := limit |} (take (Z.to_nat limit) d).
Proof.
  intros Hl Hs. split; cbn; [by rewrite take_drop|]. unfold zlen. rewrite length_take.
  destruct (decide (Z.to_nat limit ≤ length d)%nat); [left; lia|right]. split; [by apply drop_ge; lia|lia].
Qed.

Section copied.
  Context (io_fuel : nat) {S : Type} `{Reader S} {W : Type} `{Write W}.
  Context (I : S → bytes → Prop) (HI : giving I) (got : W → bytes → Prop) (Hgot : tracked got).

Lemma read_retry_gives fuel s d n c s' :
  0 < n → I s d → read_retry fuel s n = (Ok c, s') →
  ∃ rest, d = c ++ rest ∧ zlen c ≤ n ∧ (c = [] → d = []) ∧ I s' rest.
Proof.
  intros Hn. revert s. induction fuel as [|fuel IH]; intros s Hs; cbn [read_retry]; [done|].
  destruct (reader_read s n) as [[c1|e] s1] eqn:Er.
  - intros [= <- <-]. by eapply gv_read.
  - destruct (interrupted e) eqn:Ei; [|done]. apply IH. by eapply gv_interrupted.
Qed.

Lemma monitor_read_gives (m m' : OperationMonitor) s n c s' d :
  0 < n → I s d → OperationMonitor_read m s n = (Ok c, m', s') →
  ∃ rest, d = c ++ rest ∧ zlen c ≤ n ∧ (c = [] → d = []) ∧ I s' rest.
Proof.
  intros Hn Hs. unfold OperationMonitor_read. destruct (OperationMonitor_check m) as [[|] m1]; [|done].
  set (k := OperationMonitor_buffer_size m1 n).
  assert (0 < k ≤ n) as [Hk Hkn] by (unfold k, OperationMonitor_buffer_size, CHECK_INTERVAL; destruct (om_control m1); lia).
  destruct (reader_read s k) as [[ch|] s1] eqn:Er; [|done]. destruct (OperationMonitor_advance _ _) as [[|] ?]; [|done].
  intros [= <- _ <-]. destruct (gv_read _ HI _ _ _ _ _ Hk Hs Er) as (rest & ? & ? & ? & ?). exists rest. split_and!; try done; lia.
Qed.

Lemma io_copy_gives fuel s w d acc total n s' w' :
  I s d → got w acc → io_copy io_fuel fuel s w total = (Ok n, s', w') →
  I s' [] ∧ got w' (acc ++ d) ∧ n = total + zlen d.
Proof.
  revert s w d acc total. induction fuel as [|fuel IH]; intros s w d acc total Hs Hw; cbn [io_copy]; [done|].
  destruct (read_retry io_fuel s COPY_BUFFER) as [[c|] s1] eqn:Er; [|done].
  destruct (read_retry_gives io_fuel _ _ COPY_BUFFER _ _ eq_refl Hs Er) as (rest & -> & _ & He & Hs1). destruct c as [|x c].
  - intros [= <- <- <-]. specialize (He eq_refl). cbn in He. subst rest. rewrite !app_nil_r, zlen_nil. split_and!; [done|done|lia].
  - destruct (io_write_all io_fuel w (x :: c)) as [[[]|] w1] eqn:Ew; [|done].
    pose proof (write_all_tracked _ Hgot _ _ _ _ _ Hw Ew) as Hw1. intros Hr.
    destruct (IH _ _ _ _ _ Hs1 Hw1 Hr) as (? & ? & ->). rewrite <- app_assoc in *. split_and!; [done|done|].
    rewrite (zlen_app (x :: c)). lia.
Qed.

Lemma copy_controlled_gives fuel m s w d acc total n m' s' w' :
  I s d → got w acc → copy_controlled io_fuel fuel m s w total = (Ok n, m', s', w') →
  I s' [] ∧ got w' (acc ++ d) ∧ n = total + zlen d.
Proof.
  revert m s w d acc total. induction fuel as [|fuel IH]; intros m s w d acc total Hs Hw; cbn [copy_controlled]; [done|].
  destruct (OperationMonitor_read m s COPY_BUFFER) as [[[c|] m1] s1] eqn:Er; [|done].
  destruct (monitor_read_gives m m1 _ COPY_BUFFER _ _ _ eq_refl Hs Er) as (rest & -> & _ & He & Hs1). destruct c as [|x c].
  - intros [= <- _ <- <-]. specialize (He eq_refl). cbn in He. subst rest. rewrite !app_nil_r, zlen_nil. split_and!; [done|done|lia].
  - destruct (io_write_all io_fuel w (x :: c)) as [[[]|] w1] eqn:Ew; [|done].
    pose proof (write_all_tracked _ Hgot _ _ _ _ _ Hw Ew) as Hw1.
    destruct (checked_add total (zlen (x :: c))) as [total1|] eqn:Ea; [|done]. apply checked_add_some in Ea. intros Hr.
    destruct (IH _ _ _ _ _ _ Hs1 Hw1 Hr) as (? & ? & ->). rewrite <- app_assoc in *. split_and!; [done|done|].
    rewrite (zlen_app (x :: c)). lia.
Qed.

(** A copy that succeeds has given the writer all that the reader had left. *)
Lemma copy_to_gives m s w d acc n m' s' w' :
  I s d → got w acc → OperationMonitor_copy_to io_fuel m s w = (Ok n, m', s', w') →
  I s' [] ∧ got w' (acc ++ d) ∧ n = zlen d.
Proof.
  intros Hs Hw. unfold OperationMonitor_copy_to. destruct (om_control m).
  - intros Hc. by destruct (copy_controlled_gives _ _ _ _ _ _ _ _ _ _ _ Hs Hw Hc) as (? & ? & ->).
  - destruct (io_copy io_fuel io_fuel s w 0) as [[[k|] s1] w1] eqn:Ec; [|done]. intros [= <- _ <- <-].
    by destruct (io_copy_gives _ _ _ _ _ _ _ _ _ Hs Hw Ec) as (? & ? & ->).
Qed.

End copied.

(** What reads keep of a reader, a copy keeps, also one that fails. *)
Section kept.
  Context (io_fuel : nat) {S : Type} `{Reader S} {W : Type} `{Write W} (P : S → Prop).
  Context (HP : ∀ s n r s', P s → reader_read s n = (r, s') → P s').

Lemma read_retry_keeps fuel s n r s' : P s → read_retry fuel s n = (r, s') → P s'.
Proof.
  revert s. induction fuel as [|fuel IH]; intros s Hs; cbn [read_retry]; [by intros [= _ <-]|].
  destruct (reader_read s n) as [[c|e] s1] eqn:Er; pose proof (HP _ _ _ _ Hs Er); [by intros [= _ <-]|].
  destruct (interrupted e); [by apply IH|by intros [= _ <-]].
Qed.

Lemma monitor_read_keeps (m m' : OperationMonitor) s n r s' : P s → OperationMonitor_read m s n = (r, m', s') → P s'.
Proof.
  intros Hs. unfold OperationMonitor_read. destruct (OperationMonitor_check m) as [[|] m1]; [|by intros [= _ _ <-]].
  destruct (reader_read s _) as [[c|e] s1] eqn:Er; pose proof (HP _ _ _ _ Hs Er); [|by intros [= _ _ <-]].
  destruct (OperationMonitor_advance _ _). by intros [= _ _ <-].
Qed.

Lemma copy_to_keeps m s (w : W) r m' s' w' : P s → OperationMonitor_copy_to io_fuel m s w = (r, m', s', w') → P s'.
Proof.
  intros Hs. unfold OperationMonitor_copy_to. destruct (om_control m).
  - generalize 0 as total. generalize io_fuel at 2 as fuel. intros fuel. revert m s w Hs.
    induction fuel as [|fuel IH]; intros m s w Hs total; cbn [copy_controlled]; [by intros [= _ _ <- _]|].
    destruct (OperationMonitor_read m s COPY_BUFFER) as [[[c|e] m1] s1] eqn:Er; pose proof (monitor_read_keeps _ _ _ _ _ _ Hs Er);
      [|by intros [= _ _ <- _]]. destruct c as [|x c]; [by intros [= _ _ <- _]|].
    destruct (io_write_all io_fuel w (x :: c)) as [[[]|] w1]; [|by intros [= _ _ <- _]].
    destruct (checked_add _ _); [by apply IH|by intros [= _ _ <- _]].
  - destruct (io_copy io_fuel io_fuel s w 0) as [[res s1] w1] eqn:Ec. intros [= _ _ <- _]. revert Ec.
    generalize 0 as total. generalize io_fuel at 2 as fuel. intros fuel. revert s w Hs.
    induction fuel as [|fuel IH]; intros s w Hs total; cbn [io_copy]; [by intros [= _ <- _]|].
    destruct (read_retry io_fuel s COPY_BUFFER) as [[c|e] s2] eqn:Er; pose proof (read_retry_keeps _ _ _ _ _ Hs Er);
      [|by intros [= _ <- _]]. destruct c as [|x c]; [by intros [= _ <- _]|].
    destruct (io_write_all io_fuel w (x :: c)) as [[[]|] w2]; [by apply IH|by intros [= _ <- _]].
Qed.

End kept.

(** ** Files that are read *)

#[global] Instance FileOutput_Reader : Reader FileOutput := λ self n,
  let chunk := take (Z.to_nat n) (drop (Z.to_nat (fo_pos self)) (fo_data self)) in
  (Ok chunk, {| fo_data := fo_data self; fo_pos := fo_pos self + zlen chunk; fo_script := fo_script self |}).

(** Reads give the contents from the position on; seeking moves it, and tells the length. *)
Record reading_laws {S} `{Reader S} `{Seek S} (contents : S → bytes) (position : S → Z) : Prop := {
  rl_read : ∀ s n c s', 0 < n → reader_read s n = (Ok c, s') →
    zlen c ≤ n ∧ c = take (length c) (drop (Z.to_nat (position s)) (contents s)) ∧
    (c = [] → drop (Z.to_nat (position s)) (contents s) = []) ∧
    contents s' = contents s ∧ position s' = position s + zlen c;
  rl_interrupted : ∀ s n e s', reader_read s n = (Err e, s') → interrupted e = true →
    contents s' = contents s ∧ position s' = position s;
  rl_start : ∀ s n p s', w_seek s (SeekStart n) = (Ok p, s') → contents s' = contents s ∧ position s' = n;
  rl_end : ∀ s p s', w_seek s (SeekEnd 0) = (Ok p, s') → contents s' = contents s ∧ p = zlen (contents s)
}.

Definition file_left {S} (contents : S → bytes) (position : S → Z) (s : S) (d : bytes) : Prop :=
  0 ≤ position s ∧ drop (Z.to_nat (position s)) (contents s) = d.

Lemma file_giving {S} `{Reader S} `{Seek S} (contents : S → bytes) (position : S → Z) :
  reading_laws contents position → giving (file_left contents position).
Proof.
  intros Hl. split.
  - intros s d n c s' Hn [Hp <-] Hr. destruct (rl_read _ _ Hl _ _ _ _ Hn Hr) as (Hc & Heq & He & Hc' & Hp').
    exists (drop (length c) (drop (Z.to_nat (position s)) (contents s))). pose proof (zlen_nonneg c). split_and!; [|done|done|].
    + rewrite Heq at 1. by rewrite take_drop.
    + split; [lia|]. rewrite Hc', Hp', drop_drop. f_equal. unfold zlen. lia.
  - intros s d n e s' Hn [Hp <-] Hr Hi. destruct (rl_interrupted _ _ Hl _ _ _ _ Hr Hi) as [Hc Hp']. split; [lia|]. by rewrite Hc, Hp'.
Qed.

Lemma FileOutput_reading : reading_laws fo_data fo_pos.
Proof.
  split.
  - intros s n c s' Hn. unfold reader_read, FileOutput_Reader. intros [= <- <-]. cbn. unfold zlen. rewrite length_take.
    split_and!; [lia| | |done|done].
    + set (d := drop _ _). destruct (decide (Z.to_nat n ≤ length d)%nat); [by rewrite Nat.min_l by lia|].
      rewrite Nat.min_r by lia. rewrite firstn_all. apply take_ge. lia.
    + intros He. apply (f_equal length) in He. rewrite length_take in He. apply nil_length_inv. cbn in He. lia.
  - by intros s n e s' [=].
  - exact (fl_seek _ _ FileOutput_laws).
  - intros s p s'. unfold w_seek, FileOutput_Seek. pose proof (zlen_nonneg (fo_data s)). case_decide; [done|].
    intros [= <- <-]. cbn. split; [done|lia].
Qed.
