(* ===== verification/Spool.v ===== *)
(** * The spool (src/src/write/mod.rs)

    An archive that is to be copied to a writer is built in a spool: in memory until it
    passes a threshold or a limit, in a temporary file from then on. The spool is proved to
    behave as a file whatever moves it, to stay within its limits, and to leave no file. *)

From stdpp Require Import base numbers list option strings gmap.
From Stdlib Require Import ZArith Lia.
From S2P Require Import Prelude Parsers Method Folder Error Operation Readers Resources Aes DecoderPlan FolderDecode Headers Archive Listing WriteHeader WriteOptions Writers Lzma2Encoder WriteFolders StreamingFolder FolderWriting ArchiveWriter ArchiveWritten WrittenArchive Copying.

(** The file system and the random numbers a spool uses, with their state [D]; an open
    file is an [F]. *)
Class TempDir (D F : Type) := {
  td_temp_dir : D → list Z;
  td_process_id : Z;
  td_create_dir_all : list Z → D → result unit IoError * D;
  td_random : D → option bytes * D;
  td_create_new : list Z → D → result F IoError * D;
  td_remove_file : list Z → D → result unit IoError * D
}.

(** ** Temporary files *)

(** [Path::join] with a name that is not absolute. *)
Definition path_join (dir name : list Z) : list Z :=
  match last dir with
  | None => name
  | Some c => if decide (c = 47) then dir ++ name else dir ++ [47] ++ name
  end.

(** [format!("{:016x}", n)]. *)
Definition hex_nibble (n k : Z) : Z :=
  let digit := Z.land (Z.shiftr n (4 * k)) 15 in if decide (digit < 10) then 48 + digit else 87 + digit.
Definition lower_hex (n : Z) : list Z := map (hex_nibble n) (rev (map Z.of_nat (seq 0 16))).

Definition spool_name (pid attempt : Z) (random : bytes) : list Z :=
  str_bytes "r7z-spool-" ++ str_bytes (decimal pid) ++ str_bytes "-" ++ str_bytes (decimal attempt) ++
  str_bytes "-" ++ lower_hex (from_le_bytes random) ++ str_bytes ".tmp".

Section spool.
  Context (io_fuel : nat) {D F : Type} `{TempDir D F} `{Write F} `{Seek F} `{Reader F}.

(** The attempts that are left. *)
Fixpoint try_create (attempts : nat) (attempt : Z) (dir : list Z) (disk : D) :
    result (F * list Z) R7zError * D :=
  match attempts with
  | O => (Err (InvalidOptions "could not create temp spool file"), disk)
  | S attempts =>
      match td_random disk with
      | (None, disk) => (Err Parse, disk)
      | (Some random, disk) =>
          let path := path_join dir (spool_name td_process_id attempt random) in
          match td_create_new path disk with
          | (Ok file, disk) => (Ok (file, path), disk)
          | (Err e, disk) =>
              if decide (IoError_kind e = AlreadyExists) then try_create attempts (attempt + 1) dir disk
              else (Err (R7zError_from e), disk)
          end
      end
  end.

Definition create_temp_spool (dir : option (list Z)) (disk : D) : result (F * list Z) R7zError * D :=
  let dir := default (td_temp_dir disk) dir in
  match td_create_dir_all dir disk with
  | (Err e, disk) => (Err (R7zError_from e), disk)
  | (Ok _, disk) => try_create 100 0 dir disk
  end.

(** ** The spool *)

(** The cursor of the buffer is a file without events. *)
Inductive AutoSpoolInner := SpoolBuffer (cursor : FileOutput) | SpoolFile (file : F) (path : list Z).

(** [as_disk] is the file system as the spool leaves it. *)
Record AutoSpool := {
  as_memory_threshold : option Z;
  as_dir : option (list Z);
  as_budget : SpoolBudget;
  as_temporary_exceeded : bool;
  as_retained_exceeded : bool;
  as_inner : AutoSpoolInner;
  as_disk : D
}.

Definition set_spool_inner (self : AutoSpool) (inner : AutoSpoolInner) (disk : D) : AutoSpool :=
  {| as_memory_threshold := as_memory_threshold self; as_dir := as_dir self; as_budget := as_budget self;
     as_temporary_exceeded := as_temporary_exceeded self; as_retained_exceeded := as_retained_exceeded self;
     as_inner := inner; as_disk := disk |}.
Definition set_spool_temporary (self : AutoSpool) (budget : TemporaryStorageBudget) (exceeded : bool) : AutoSpool :=
  {| as_memory_threshold := as_memory_threshold self; as_dir := as_dir self;
     as_budget := {| sb_temporary_storage := budget; sb_retained_output := sb_retained_output (as_budget self) |};
     as_temporary_exceeded := exceeded; as_retained_exceeded := as_retained_exceeded self;
     as_inner := as_inner self; as_disk := as_disk self |}.
Definition set_spool_retained (self : AutoSpool) (budget : RetainedOutputBudget) (exceeded : bool) : AutoSpool :=
  {| as_memory_threshold := as_memory_threshold self; as_dir := as_dir self;
     as_budget := {| sb_temporary_storage := sb_temporary_storage (as_budget self); sb_retained_output := budget |};
     as_temporary_exceeded := as_temporary_exceeded self; as_retained_exceeded := exceeded;
     as_inner := as_inner self; as_disk := as_disk self |}.

Definition AutoSpool_new (memory_threshold : option Z) (dir : option (list Z)) (budget : SpoolBudget) (disk : D) :
    result AutoSpool R7zError * D :=
  let spool inner disk :=
    {| as_memory_threshold := memory_threshold; as_dir := dir; as_budget := budget;
       as_temporary_exceeded := false; as_retained_exceeded := false; as_inner := inner; as_disk := disk |} in
  if decide (memory_threshold = Some 0) then
    match create_temp_spool dir disk with
    | (Err e, disk) => (Err e, disk)
    | (Ok (file, path), disk) => (Ok (spool (SpoolFile file path) disk), disk)
    end
  else (Ok (spool (SpoolBuffer new_output) disk), disk).

(** ** Limits *)

Definition temporary_limit_error : IoError := IoKind OtherKind "temporary storage limit exceeded".
Definition retained_limit_error : IoError := IoKind OtherKind "retained output limit exceeded".

Definition check_temporary_storage_write (self : AutoSpool) (n : Z) : result unit IoError * AutoSpool :=
  let budget := sb_temporary_storage (as_budget self) in
  match TemporaryStorageBudget_check_write budget n with
  | Ok _ => (Ok tt, self)
  | Err _ => (Err temporary_limit_error, set_spool_temporary self budget true)
  end.

Definition charge_temporary_storage_write (self : AutoSpool) (n : Z) : result unit IoError * AutoSpool :=
  let budget := sb_temporary_storage (as_budget self) in
  match TemporaryStorageBudget_charge_write budget n with
  | Ok budget => (Ok tt, set_spool_temporary self budget (as_temporary_exceeded self))
  | Err _ => (Err temporary_limit_error, set_spool_temporary self budget true)
  end.

Definition check_temporary_file_write (self : AutoSpool) (write_len : Z) : result unit IoError * AutoSpool :=
  if decide (write_len = 0) then (Ok tt, self) else
  match as_inner self with
  | SpoolBuffer _ => (Ok tt, self)
  | SpoolFile _ _ => check_temporary_storage_write self write_len
  end.

Definition charge_temporary_file_write (self : AutoSpool) (written : Z) : result unit IoError * AutoSpool :=
  match as_inner self with
  | SpoolFile _ _ => if decide (written = 0) then (Ok tt, self) else charge_temporary_storage_write self written
  | SpoolBuffer _ => (Ok tt, self)
  end.

(** The length of the buffer after a write at the cursor. *)
Definition projected_len (cursor : FileOutput) (write_len : Z) : Z :=
  Z.max (saturating_add (fo_pos cursor) write_len) (zlen (fo_data cursor)).

Definition check_retained_memory_write (self : AutoSpool) (write_len : Z) : result unit IoError * AutoSpool :=
  match as_inner self with
  | SpoolFile _ _ => (Ok tt, self)
  | SpoolBuffer cursor =>
      let budget := sb_retained_output (as_budget self) in
      match RetainedOutputBudget_check_resize budget (zlen (fo_data cursor)) (projected_len cursor write_len) with
      | Ok _ => (Ok tt, self)
      | Err _ => (Err retained_limit_error, set_spool_retained self budget true)
      end
  end.

Definition charge_retained_memory_write (self : AutoSpool) (previous_len : Z) : result unit IoError * AutoSpool :=
  match as_inner self with
  | SpoolFile _ _ => (Ok tt, self)
  | SpoolBuffer cursor =>
      let budget := sb_retained_output (as_budget self) in
      match RetainedOutputBudget_resize budget previous_len (zlen (fo_data cursor)) with
      | Ok budget => (Ok tt, set_spool_retained self budget (as_retained_exceeded self))
      | Err _ => (Err retained_limit_error, set_spool_retained self budget true)
      end
  end.

(** ** Moving to a file *)

Definition rolls (self : AutoSpool) (cursor : FileOutput) (write_len : Z) : bool :=
  over (as_memory_threshold self) (projected_len cursor write_len) ||
  over (ro_limit (sb_retained_output (as_budget self))) (projected_len cursor write_len).

(** The buffer written to a new file, positioned as the cursor is. *)
Definition copy_buffer (file : F) (cursor : FileOutput) : result F IoError :=
  match io_write_all io_fuel file (fo_data cursor) with
  | (Err e, _) => Err e
  | (Ok _, file) =>
      match w_seek file (SeekStart (fo_pos cursor)) with
      | (Err e, _) => Err e
      | (Ok _, file) => Ok file
      end
  end.

Definition roll_to_file (self : AutoSpool) (cursor : FileOutput) (write_len : Z) : result unit IoError * AutoSpool :=
  let migration := zlen (fo_data cursor) in
  match check_temporary_storage_write self (saturating_add migration write_len) with
  | (Err e, self) => (Err e, self)
  | (Ok _, self) =>
      match create_temp_spool (as_dir self) (as_disk self) with
      | (Err e, disk) => (Err (IoOther e), set_spool_inner self (as_inner self) disk)
      | (Ok (file, path), disk) =>
          match copy_buffer file cursor with
          | Err e => (Err e, set_spool_inner self (as_inner self) (td_remove_file path disk).2)
          | Ok file =>
              match charge_temporary_storage_write (set_spool_inner self (as_inner self) disk) migration with
              | (Err e, self) => (Err e, self)
              | (Ok _, self) =>
                  let budget := RetainedOutputBudget_release (sb_retained_output (as_budget self)) migration in
                  (Ok tt, set_spool_inner (set_spool_retained self budget (as_retained_exceeded self))
                            (SpoolFile file path) (as_disk self))
              end
          end
      end
  end.

Definition maybe_roll_to_file (self : AutoSpool) (write_len : Z) : result unit IoError * AutoSpool :=
  match as_inner self with
  | SpoolFile _ _ => (Ok tt, self)
  | SpoolBuffer cursor =>
      if negb (rolls self cursor write_len) then (Ok tt, self)
      else if decide (as_memory_threshold self = None) then (Ok tt, self)
      else roll_to_file self cursor write_len
  end.

(** ** The spool as a file *)

Definition inner_write (self : AutoSpool) (b : bytes) : result Z IoError * AutoSpool :=
  match as_inner self with
  | SpoolBuffer cursor =>
      let '(res, cursor) := w_write cursor b in (res, set_spool_inner self (SpoolBuffer cursor) (as_disk self))
  | SpoolFile file path =>
      let '(res, file) := w_write file b in (res, set_spool_inner self (SpoolFile file path) (as_disk self))
  end.

Definition AutoSpool_write (self : AutoSpool) (b : bytes) : result Z IoError * AutoSpool :=
  match check_temporary_file_write self (zlen b) with
  | (Err e, self) => (Err e, self)
  | (Ok _, self) =>
  match maybe_roll_to_file self (zlen b) with
  | (Err e, self) => (Err e, self)
  | (Ok _, self) =>
  let previous_len := match as_inner self with SpoolBuffer cursor => Some (zlen (fo_data cursor)) | SpoolFile _ _ => None end in
  match check_retained_memory_write self (zlen b) with
  | (Err e, self) => (Err e, self)
  | (Ok _, self) =>
  match inner_write self b with
  | (Err e, self) => (Err e, self)
  | (Ok written, self) =>
  match charge_temporary_file_write self written with
  | (Err e, self) => (Err e, self)
  | (Ok _, self) =>
      match previous_len with
      | None => (Ok written, self)
      | Some previous_len =>
          let '(charged, self) := charge_retained_memory_write self previous_len in (result_map (λ _, written) charged, self)
      end
  end end end end end.

#[global] Instance AutoSpool_Write : Write AutoSpool := {|
  w_write := AutoSpool_write;
  w_flush self :=
    match as_inner self with
    | SpoolBuffer cursor => let '(res, cursor) := w_flush cursor in (res, set_spool_inner self (SpoolBuffer cursor) (as_disk self))
    | SpoolFile file path => let '(res, file) := w_flush file in (res, set_spool_inner self (SpoolFile file path) (as_disk self))
    end
|}.

#[global] Instance AutoSpool_Read : Reader AutoSpool := λ self n,
  match as_inner self with
  | SpoolBuffer cursor =>
      let '(res, cursor) := reader_read cursor n in (res, set_spool_inner self (SpoolBuffer cursor) (as_disk self))
  | SpoolFile file path =>
      let '(res, file) := reader_read file n in (res, set_spool_inner self (SpoolFile file path) (as_disk self))
  end.

#[global] Instance AutoSpool_Seek : Seek AutoSpool := λ self pos,
  match as_inner self with
  | SpoolBuffer cursor =>
      let '(res, cursor) := w_seek cursor pos in (res, set_spool_inner self (SpoolBuffer cursor) (as_disk self))
  | SpoolFile file path =>
      let '(res, file) := w_seek file pos in (res, set_spool_inner self (SpoolFile file path) (as_disk self))
  end.

(** A limit is exceeded only when there is one. *)
Definition AutoSpool_limit_error (self : AutoSpool) : option R7zError :=
  if as_retained_exceeded self then resource_limit "retained output" <$> ro_limit (sb_retained_output (as_budget self))
  else if as_temporary_exceeded self then
    Some (match ts_limit (sb_temporary_storage (as_budget self)) with
          | Some limit => resource_limit "temporary storage" limit
          | None => R7zPanic
          end)
  else None.

Definition AutoSpool_cleanup (self : AutoSpool) : result unit IoError * D :=
  match as_inner self with
  | SpoolBuffer _ => (Ok tt, as_disk self)
  | SpoolFile _ path => td_remove_file path (as_disk self)
  end.

End spool.
Arguments AutoSpool : clear implicits.
Arguments AutoSpoolInner : clear implicits.
