(* ===== verification/Spooled.v ===== *)
(** * What a spool promises

    The spool refines a file: its contents and its position are those of a file, in memory
    or on disk. It keeps to its limits, and a temporary file exists exactly while the
    contents are on disk. *)

From stdpp Require Import base numbers list option strings gmap.
From Stdlib Require Import ZArith Lia.
From S2P Require Import Prelude Parsers Method Folder Error Operation Readers Resources Aes DecoderPlan FolderDecode Headers Archive Listing WriteHeader WriteOptions Writers Lzma2Encoder WriteFolders StreamingFolder FolderWriting ArchiveWriter ArchiveWritten WrittenArchive Copying Spool.

(** A value within a limit; the greatest number is no limit. *)
Definition within (limit : option Z) (n : Z) : Prop :=
  match limit with Some l => l < u64_max → n ≤ l | None => True end.

Definition finite (limit : option Z) : Prop := match limit with Some l => l < u64_max | None => True end.

Lemma over_within limit n : over limit n = false → within limit n.
Proof. destruct limit as [l|]; [|done]. cbn. intros Hb%bool_decide_eq_false. lia. Qed.

Lemma within_le limit n m : n ≤ m → within limit m → within limit n.
Proof. destruct limit; cbn; [|done]. intros ? Hw ?. specialize (Hw ltac:(done)). lia. Qed.

Lemma within_saturating limit a b c : within limit (Z.max (saturating_add a b) c) → within limit (Z.max (a + b) c).
Proof. destruct limit as [l|]; cbn; [|done]. unfold saturating_add. intros Hw Hl. specialize (Hw Hl). lia. Qed.

Lemma overwrite_length pos b data : 0 ≤ pos → zlen (overwrite pos b data) = Z.max (pos + zlen b) (zlen data).
Proof.
  intros Hp. unfold overwrite, zlen. rewrite !length_app, length_take, length_replicate, length_drop. lia.
Qed.

Lemma next_total_within used n limit resource total :
  next_total used n limit resource = Ok total → match limit with Some l => total ≤ l ∧ total = used + n | None => True end.
Proof.
  unfold next_total. destruct limit as [l|]; [|done]. destruct (checked_add used n) as [t|] eqn:Ea; [|done].
  apply checked_add_some in Ea as ->. cbn. case_bool_decide; [done|]. intros [= <-]. lia.
Qed.

Lemma next_total_mono used n m limit resource total :
  m ≤ n → next_total used n limit resource = Ok total → ∃ t, next_total used m limit resource = Ok t.
Proof.
  intros Hm Hn. unfold next_total in *. destruct limit as [l|]; [|destruct (checked_add used m); by eexists].
  unfold checked_add in *. destruct (decide (used + n ≤ u64_max)); [|done]. rewrite decide_True by lia. cbn in *.
  case_bool_decide; [done|]. rewrite bool_decide_false by lia. by eexists.
Qed.

Section spooled.
  Context (io_fuel : nat) {D F : Type} `{TempDir D F} `{Write F} `{Seek F} `{Reader F}.
  Context (fcontents : F → bytes) (fposition : F → Z) (files : D → gset (list Z)).
  Abbreviation AutoSpool := (AutoSpool D F).
  Implicit Types s : AutoSpool.
#[local] Instance spooled_write : Write AutoSpool := AutoSpool_Write io_fuel.

(** Files on disk, their names, and what may be relied on: a file is created empty under a
    name that was free, and one that was created can be removed. *)
Record temp_dir_laws : Prop := {
  tl_file : file_laws fcontents fposition;
  tl_reading : reading_laws fcontents fposition;
  tl_created : ∀ p d f d', td_create_new p d = (Ok f, d') →
    fcontents f = [] ∧ fposition f = 0 ∧ (p ∉ files d) ∧ files d' = {[p]} ∪ files d;
  tl_not_created : ∀ p d e d', td_create_new p d = (Err e, d') → files d' = files d;
  tl_dirs : ∀ p d, files (td_create_dir_all p d).2 = files d;
  tl_random : ∀ d, files (td_random d).2 = files d;
  tl_removed : ∀ p d, p ∈ files d → ∃ d', td_remove_file p d = (Ok tt, d') ∧ files d' = files d ∖ {[p]}
}.
Context (Hlaws : temp_dir_laws).

Definition spool_contents s : bytes :=
  match as_inner s with SpoolBuffer cursor => fo_data cursor | SpoolFile file _ => fcontents file end.
Definition spool_position s : Z :=
  match as_inner s with SpoolBuffer cursor => fo_pos cursor | SpoolFile file _ => fposition file end.
(** The bytes in memory. *)
Definition spool_memory s : Z :=
  match as_inner s with SpoolBuffer cursor => zlen (fo_data cursor) | SpoolFile _ _ => 0 end.
Definition same_file s s' : Prop :=
  spool_contents s' = spool_contents s ∧ spool_position s' = spool_position s.

(** ** The steps of a write *)

Lemma try_create_files attempts attempt dir d r d' :
  try_create attempts attempt dir d = (r, d') →
  match r with
  | Ok (f, p) => fcontents f = [] ∧ fposition f = 0 ∧ (p ∉ files d) ∧ files d' = {[p]} ∪ files d
  | Err _ => files d' = files d
  end.
Proof.
  revert attempt d. induction attempts as [|k IH]; intros attempt d; cbn [try_create]; [by intros [= <- <-]|].
  pose proof (tl_random Hlaws d) as Hr. destruct (td_random d) as [[random|] d1]; cbn in Hr; [|by intros [= <- <-]].
  destruct (td_create_new _ d1) as [[f|e] d2] eqn:Ec.
  - intros [= <- <-]. destruct (tl_created Hlaws _ _ _ _ Ec) as (? & ? & ? & ?). by rewrite <- Hr.
  - apply (tl_not_created Hlaws) in Ec. destruct (decide _); [|intros [= <- <-]; congruence].
    intros Ht%IH. rewrite Ec, Hr in Ht. exact Ht.
Qed.

Lemma create_temp_files dir d r d' :
  create_temp_spool dir d = (r, d') →
  match r with
  | Ok (f, p) => fcontents f = [] ∧ fposition f = 0 ∧ (p ∉ files d) ∧ files d' = {[p]} ∪ files d
  | Err _ => files d' = files d
  end.
Proof.
  unfold create_temp_spool. set (dir0 := default _ dir). pose proof (tl_dirs Hlaws dir0 d) as Hd.
  destruct (td_create_dir_all dir0 d) as [[[]|e] d1]; cbn in Hd; [|by intros [= <- <-]].
  intros Ht%try_create_files. by rewrite Hd in Ht.
Qed.

(** The buffer arrives in the file as it is. *)
Lemma copy_buffer_spec f cursor f' :
  fcontents f = [] → fposition f = 0 → copy_buffer io_fuel f cursor = Ok f' →
  fcontents f' = fo_data cursor ∧ fposition f' = fo_pos cursor.
Proof.
  intros Hc Hp. unfold copy_buffer. destruct (io_write_all io_fuel f (fo_data cursor)) as [[[]|] f1] eqn:Ew; [|done].
  destruct (w_seek f1 _) as [[p|] f2] eqn:Es; [|done]. intros [= <-].
  destruct (fl_seek _ _ (tl_file Hlaws) _ _ _ _ Es) as [Hc2 Hp2].
  assert (at_got fcontents fposition 0 [] f []) as Hg by (split; [by right|by rewrite Hp]).
  pose proof (write_all_tracked (at_got fcontents fposition 0 []) (at_tracked _ _ 0 [] (tl_file Hlaws) (Z.le_refl 0)) _ _ _ _ _ Hg Ew) as [Hg1 _].
  split; [|done]. rewrite Hc2. cbn [app] in Hg1. destruct Hg1 as [->|[-> ->]]; [|done].
  unfold overwrite. rewrite take_nil, drop_nil, app_nil_r. done.
Qed.

(** A limit that is checked or charged changes no more than the account. *)
Definition only_limits s s' : Prop :=
  as_inner s' = as_inner s ∧ as_disk s' = as_disk s ∧ as_memory_threshold s' = as_memory_threshold s ∧
  as_dir s' = as_dir s ∧ ro_limit (sb_retained_output (as_budget s')) = ro_limit (sb_retained_output (as_budget s)) ∧
  ts_limit (sb_temporary_storage (as_budget s')) = ts_limit (sb_temporary_storage (as_budget s)).
Definition limits_kept s : Prop :=
  (∀ l, ts_limit (sb_temporary_storage (as_budget s)) = Some l → ts_written (sb_temporary_storage (as_budget s)) ≤ l) ∧
  (as_temporary_exceeded s = true → is_Some (ts_limit (sb_temporary_storage (as_budget s)))).

Lemma only_limits_refl s : only_limits s s.
Proof. done. Qed.
Lemma only_limits_trans s1 s2 s3 : only_limits s1 s2 → only_limits s2 s3 → only_limits s1 s3.
Proof. unfold only_limits. intuition congruence. Qed.

Lemma exceeded_limited s n :
  (∃ e, TemporaryStorageBudget_check_write (sb_temporary_storage (as_budget s)) n = Err e) →
  is_Some (ts_limit (sb_temporary_storage (as_budget s))).
Proof.
  intros [e He]. unfold TemporaryStorageBudget_check_write, next_total in He. destruct (ts_limit _); [done|].
  by destruct (checked_add _ _).
Qed.

Lemma check_temporary_spec s n r s' :
  check_temporary_storage_write s n = (r, s') →
  only_limits s s' ∧ (limits_kept s → limits_kept s') ∧
  match r with
  | Ok _ => s' = s ∧ ∃ t, next_total (ts_written (sb_temporary_storage (as_budget s))) n
                            (ts_limit (sb_temporary_storage (as_budget s))) "temporary storage" = Ok t
  | Err e => interrupted e = false
  end.
Proof.
  unfold check_temporary_storage_write. destruct (TemporaryStorageBudget_check_write _ n) eqn:Ec.
  - intros [= <- <-]. split_and!; [done|done|done|]. unfold TemporaryStorageBudget_check_write in Ec.
    destruct (next_total _ _ _ _); [by eexists|done].
  - intros [= <- <-]. split_and!; [done| |done]. intros [Hw Hx]. split; [exact Hw|]. intros _. cbn.
    eapply exceeded_limited. by eexists.
Qed.

Lemma charge_temporary_spec s n r s' :
  charge_temporary_storage_write s n = (r, s') →
  only_limits s s' ∧ (limits_kept s → limits_kept s') ∧ match r with Ok _ => True | Err e => interrupted e = false end.
Proof.
  unfold charge_temporary_storage_write, TemporaryStorageBudget_charge_write.
  destruct (next_total _ _ _ _) as [t|] eqn:Et; intros [= <- <-]; (split_and!; [done| |done]); intros [Hw Hx]; split.
  - cbn. intros l Hl. apply next_total_within in Et. rewrite Hl in Et. lia.
  - exact Hx.
  - exact Hw.
  - intros _. cbn. unfold next_total in Et. destruct (ts_limit _); [done|]. by destruct (checked_add _ _).
Qed.

Lemma check_file_write_spec s n r s' :
  check_temporary_file_write s n = (r, s') →
  only_limits s s' ∧ (limits_kept s → limits_kept s') ∧ match r with Ok _ => s' = s | Err e => interrupted e = false end.
Proof.
  unfold check_temporary_file_write. case_decide; [by intros [= <- <-]|].
  destruct (as_inner s); [by intros [= <- <-]|]. intros Hc. destruct (check_temporary_spec _ _ _ _ Hc) as (? & ? & Hr).
  split_and!; [done|done|]. destruct r; [by destruct Hr|done].
Qed.

Lemma charge_file_write_spec s n r s' :
  charge_temporary_file_write s n = (r, s') →
  only_limits s s' ∧ (limits_kept s → limits_kept s') ∧ match r with Ok _ => True | Err e => interrupted e = false end.
Proof.
  unfold charge_temporary_file_write. destruct (as_inner s); [by intros [= <- <-]|].
  case_decide; [by intros [= <- <-]|]. apply charge_temporary_spec.
Qed.

(** Room for a write in the buffer, if the contents are there. *)
Definition room s (limit : option Z) (n : Z) : Prop :=
  match as_inner s with SpoolBuffer cursor => within limit (projected_len cursor n) | SpoolFile _ _ => True end.

Lemma check_retained_spec s n r s' :
  check_retained_memory_write s n = (r, s') →
  only_limits s s' ∧ (limits_kept s → limits_kept s') ∧
  match r with
  | Ok _ => s' = s ∧ room s (ro_limit (sb_retained_output (as_budget s))) n
  | Err e => interrupted e = false
  end.
Proof.
  unfold check_retained_memory_write, room. destruct (as_inner s) as [cursor|]; [|by intros [= <- <-]].
  destruct (RetainedOutputBudget_check_resize _ _ _) eqn:Ec; intros [= <- <-]; [|done]. split_and!; try done.
  unfold RetainedOutputBudget_check_resize, RetainedOutputBudget_resized_total in Ec.
  destruct (next_total _ _ _ _) as [t|] eqn:Et; [|done]. apply next_total_within in Et.
  destruct (ro_limit _) as [l|]; [|done]. intros _. unfold saturating_sub in Et. lia.
Qed.

Lemma charge_retained_spec s n r s' :
  charge_retained_memory_write s n = (r, s') →
  only_limits s s' ∧ (limits_kept s → limits_kept s') ∧ match r with Ok _ => True | Err e => interrupted e = false end.
Proof.
  unfold charge_retained_memory_write, RetainedOutputBudget_resize. destruct (as_inner s) as [cursor|]; [|by intros [= <- <-]].
  destruct (RetainedOutputBudget_resized_total _ _ _); by intros [= <- <-].
Qed.

(** ** The invariant *)

(** [base] are the files on disk before the spool was made. *)
Definition inner_ok (base : gset (list Z)) s : Prop :=
  match as_inner s with
  | SpoolBuffer cursor => files (as_disk s) = base ∧ 0 ≤ fo_pos cursor ∧ finite (as_memory_threshold s) ∧
      within (as_memory_threshold s) (zlen (fo_data cursor)) ∧
      within (ro_limit (sb_retained_output (as_budget s))) (zlen (fo_data cursor))
  | SpoolFile _ path => (path ∉ base) ∧ files (as_disk s) = {[path]} ∪ base
  end.
Definition spool_ok (base : gset (list Z)) s : Prop := inner_ok base s ∧ limits_kept s.

Lemma inner_ok_limits base s s' : only_limits s s' → inner_ok base s → inner_ok base s'.
Proof. intros (Hi & Hd & Ht & _ & Hr & _). unfold inner_ok. by rewrite Hi, Hd, Ht, Hr. Qed.

Lemma spool_ok_limits base s s' : only_limits s s' → (limits_kept s → limits_kept s') → spool_ok base s → spool_ok base s'.
Proof. intros Ho Hl [Hi Hk]. split; [by eapply inner_ok_limits|by apply Hl]. Qed.

Lemma room_limits s s' limit n : only_limits s s' → room s limit n → room s' limit n.
Proof. intros (Hi & _). unfold room. by rewrite Hi. Qed.

Lemma limits_same_file s s' : only_limits s s' → same_file s s'.
Proof. intros (Hi & _). unfold same_file, spool_contents, spool_position. by rewrite Hi. Qed.

Lemma same_file_trans s1 s2 s3 : same_file s1 s2 → same_file s2 s3 → same_file s1 s3.
Proof. unfold same_file. intuition congruence. Qed.

(** After a move, or none, the file is the same and there is room in the buffer. *)
Lemma roll_to_file_spec s cursor n r s' :
  as_inner s = SpoolBuffer cursor → roll_to_file io_fuel s cursor n = (r, s') →
  same_file s s' ∧ match r with Ok _ => ∃ f p, as_inner s' = SpoolFile f p | Err _ => True end.
Proof.
  intros Hi. unfold roll_to_file. destruct (check_temporary_storage_write s _) as [[[]|e] s1] eqn:E1.
  2:{ intros [= <- <-]. split; [|done]. by apply limits_same_file, (check_temporary_spec _ _ _ _ E1). }
  destruct (check_temporary_spec _ _ _ _ E1) as (_ & _ & -> & _).
  destruct (create_temp_spool (as_dir s) (as_disk s)) as [[[f p]|e] d] eqn:E2; [|by intros [= <- <-]].
  destruct (create_temp_files _ _ _ _ E2) as (Hc & Hp & _ & _).
  destruct (copy_buffer io_fuel f cursor) as [f1|e] eqn:E3; [|by intros [= <- <-]].
  destruct (copy_buffer_spec _ _ _ Hc Hp E3) as [Hc1 Hp1].
  destruct (charge_temporary_storage_write _ _) as [[[]|e] s2] eqn:E4.
  - intros [= <- <-]. split; [|by eexists _, _]. unfold same_file, spool_contents, spool_position. by rewrite Hi.
  - intros [= <- <-]. split; [|done]. apply charge_temporary_spec in E4 as (Ho & _). eapply same_file_trans, limits_same_file, Ho. done.
Qed.

Lemma roll_to_file_ok base s cursor n r s' :
  spool_ok base s → as_inner s = SpoolBuffer cursor → 0 ≤ n → as_memory_threshold s ≠ None →
  roll_to_file io_fuel s cursor n = (r, s') → spool_ok base s'.
Proof.
  intros [Hin Hk] Hi Hn Hsome. unfold roll_to_file. destruct (check_temporary_storage_write s _) as [[[]|e] s1] eqn:E1.
  2:{ intros [= <- <-]. destruct (check_temporary_spec _ _ _ _ E1) as (? & ? & _). by eapply spool_ok_limits. }
  destruct (check_temporary_spec _ _ _ _ E1) as (_ & _ & -> & t & Ht).
  unfold inner_ok in Hin. rewrite Hi in Hin. destruct Hin as (Hf & Hpos & Hfin & Hthr & Hret).
  assert (∀ disk, files disk = base → spool_ok base (set_spool_inner s (as_inner s) disk)) as Hback.
  { intros disk Hdisk. split; [|exact Hk]. unfold inner_ok. cbn. by rewrite Hi. }
  destruct (create_temp_spool (as_dir s) (as_disk s)) as [[[f p]|e] d] eqn:E2; apply create_temp_files in E2.
  2:{ intros [= <- <-]. apply Hback. congruence. }
  destruct E2 as (Hc & Hp & Hfree & Hd). rewrite Hf in Hfree, Hd.
  destruct (copy_buffer io_fuel f cursor) as [f1|e] eqn:E3.
  2:{ intros [= <- <-]. apply Hback. destruct (tl_removed Hlaws p d) as (d2 & Hr & Hd2); [set_solver|].
      rewrite Hr. cbn. rewrite Hd2, Hd. set_solver. }
  assert (zlen (fo_data cursor) ≤ u64_max) as Hlen.
  { destruct (as_memory_threshold s) as [threshold|]; [|done]. cbn in Hfin, Hthr. specialize (Hthr Hfin). lia. }
  assert (zlen (fo_data cursor) ≤ saturating_add (zlen (fo_data cursor)) n) as Hle by (unfold saturating_add; lia).
  destruct (next_total_mono _ _ _ _ _ _ Hle Ht) as (t' & Ht').
  unfold charge_temporary_storage_write. cbn [set_spool_inner as_budget]. unfold TemporaryStorageBudget_charge_write. rewrite Ht'.
  intros [= <- <-]. destruct Hk as [Hw Hx]. split; [split; cbn; [exact Hfree|exact Hd]|]. split; cbn; [|exact Hx].
  intros l Hl. apply next_total_within in Ht'. rewrite Hl in Ht'. lia.
Qed.

Lemma maybe_roll_spec s n r s' :
  maybe_roll_to_file io_fuel s n = (r, s') →
  same_file s s' ∧ match r with Ok _ => room s' (as_memory_threshold s') n | Err _ => True end.
Proof.
  unfold maybe_roll_to_file, room. destruct (as_inner s) as [cursor|] eqn:Hi; [|intros [= <- <-]; by rewrite Hi].
  destruct (rolls s cursor n) eqn:Hr; cbn [negb].
  - case_decide as Hn; [intros [= <- <-]; by rewrite Hi, Hn|]. intros Hroll.
    destruct (roll_to_file_spec _ _ _ _ _ Hi Hroll) as [Hs Hres]. split; [done|]. destruct r; [|done].
    by destruct Hres as (f & p & ->).
  - intros [= <- <-]. split; [done|]. rewrite Hi. apply over_within. by apply orb_false_iff in Hr as [].
Qed.

Lemma maybe_roll_ok base s n r s' :
  spool_ok base s → 0 ≤ n → maybe_roll_to_file io_fuel s n = (r, s') → spool_ok base s'.
Proof.
  intros Hs Hn. unfold maybe_roll_to_file. destruct (as_inner s) as [cursor|] eqn:Hi; [|by intros [= <- <-]].
  destruct (rolls s cursor n) eqn:Hr; cbn [negb]; [|by intros [= <- <-]]. case_decide; [by intros [= <- <-]|].
  by eapply roll_to_file_ok.
Qed.

(** ** Writes, seeks and reads *)

(** The operations of the cursor and of the file, on the inner output. *)
Lemma inner_write_limits s b r s' :
  inner_write s b = (r, s') → (limits_kept s → limits_kept s') ∧
  as_memory_threshold s' = as_memory_threshold s ∧ as_budget s' = as_budget s ∧ as_disk s' = as_disk s.
Proof.
  unfold inner_write. destruct (as_inner s) as [cursor|file path].
  - destruct (w_write cursor b). by intros [= _ <-].
  - destruct (w_write file b). by intros [= _ <-].
Qed.

Lemma cursor_write_length (cursor : FileOutput) b r cursor' :
  0 ≤ fo_pos cursor → w_write cursor b = (r, cursor') →
  0 ≤ fo_pos cursor' ∧ zlen (fo_data cursor') ≤ Z.max (fo_pos cursor + zlen b) (zlen (fo_data cursor)).
Proof.
  intros Hp. cbn [w_write FileOutput_Write]. unfold FileOutput_take. pose proof (zlen_nonneg b).
  assert (∀ part script, zlen part ≤ zlen b → 0 ≤ fo_pos cursor + zlen part ∧
    zlen (fo_data {| fo_data := overwrite (fo_pos cursor) part (fo_data cursor); fo_pos := fo_pos cursor + zlen part;
                     fo_script := script |}) ≤ Z.max (fo_pos cursor + zlen b) (zlen (fo_data cursor))) as Hpart.
  { intros part script Hl. pose proof (zlen_nonneg part). cbn. rewrite overwrite_length; lia. }
  destruct (fo_script cursor) as [|[|k|e] script]; intros [= <- <-]; cbn [fo_pos].
  - by apply Hpart.
  - cbn. lia.
  - apply Hpart. apply (zlen_take_le (Datatypes.S k)).
  - cbn. lia.
Qed.

Lemma inner_write_ok base s b r s' :
  spool_ok base s → room s (as_memory_threshold s) (zlen b) → room s (ro_limit (sb_retained_output (as_budget s))) (zlen b) →
  inner_write s b = (r, s') → spool_ok base s'.
Proof.
  intros [Hin Hk] Hthr Hret Hw. destruct (inner_write_limits _ _ _ _ Hw) as (Hk' & Ht & Hb & Hd). split; [|by apply Hk'].
  unfold inner_ok in *. rewrite Ht, Hb, Hd. unfold room, inner_write in *. destruct (as_inner s) as [cursor|file path].
  - destruct (w_write cursor b) as [res cursor'] eqn:Ew. injection Hw as <- <-. cbn.
    destruct Hin as (Hf & Hp & Hfin & _ & _). destruct (cursor_write_length _ _ _ _ Hp Ew) as [Hp' Hlen].
    unfold projected_len in *. apply within_saturating in Hthr, Hret. split_and!; try done; by eapply within_le.
  - destruct (w_write file b) as [res file']. by injection Hw as <- <-.
Qed.

Lemma AutoSpool_write_ok base s b r s' : spool_ok base s → AutoSpool_write io_fuel s b = (r, s') → spool_ok base s'.
Proof.
  intros Hs. unfold AutoSpool_write. pose proof (zlen_nonneg b).
  destruct (check_temporary_file_write s _) as [[[]|e] s1] eqn:E1;
    destruct (check_file_write_spec _ _ _ _ E1) as (Ho1 & Hk1 & Hr1); [subst s1|by intros [= _ <-]; eapply spool_ok_limits].
  destruct (maybe_roll_to_file io_fuel s _) as [[[]|e] s2] eqn:E2; pose proof (maybe_roll_ok _ _ _ _ _ Hs ltac:(done) E2) as Hs2;
    [|by intros [= _ <-]].
  destruct (maybe_roll_spec _ _ _ _ E2) as [_ Hroom].
  destruct (check_retained_memory_write s2 _) as [[[]|e] s3] eqn:E3; destruct (check_retained_spec _ _ _ _ E3) as (Ho3 & Hk3 & Hr3);
    [destruct Hr3 as [-> Hroom3]|by intros [= _ <-]; eapply spool_ok_limits].
  destruct (inner_write s2 b) as [[written|e] s4] eqn:E4; pose proof (inner_write_ok _ _ _ _ _ Hs2 Hroom Hroom3 E4) as Hs4;
    [|by intros [= _ <-]].
  destruct (charge_temporary_file_write s4 _) as [[[]|e] s5] eqn:E5; destruct (charge_file_write_spec _ _ _ _ E5) as (Ho5 & Hk5 & _);
    pose proof (spool_ok_limits _ _ _ Ho5 Hk5 Hs4) as Hs5; [|by intros [= _ <-]].
  destruct (match as_inner s2 with SpoolBuffer _ => _ | SpoolFile _ _ => _ end) as [previous|]; [|by intros [= _ <-]].
  destruct (charge_retained_memory_write s5 _) as [charged s6] eqn:E6. intros [= _ <-].
  destruct (charge_retained_spec _ _ _ _ E6) as (Ho6 & Hk6 & _). by eapply spool_ok_limits.
Qed.

(** A write reaches the file at most once, after moves that keep it. *)
Lemma AutoSpool_write_file s b r s' :
  AutoSpool_write io_fuel s b = (r, s') →
  same_file s s' ∧ (∃ e, r = Err e) ∨
  ∃ s1 w s2, same_file s s1 ∧ inner_write s1 b = (w, s2) ∧ same_file s2 s' ∧
    (r = w ∨ ∃ e, r = Err e ∧ interrupted e = false).
Proof.
  unfold AutoSpool_write.
  destruct (check_temporary_file_write s _) as [[[]|e] s1] eqn:E1;
    destruct (check_file_write_spec _ _ _ _ E1) as (Ho1 & _ & Hr1).
  2:{ intros [= <- <-]. left. split; [by apply limits_same_file|by eexists]. }
  subst s1. destruct (maybe_roll_to_file io_fuel s _) as [[[]|e] s2] eqn:E2; destruct (maybe_roll_spec _ _ _ _ E2) as [Hs2 _].
  2:{ intros [= <- <-]. left. split; [done|by eexists]. }
  destruct (check_retained_memory_write s2 _) as [[[]|e] s3] eqn:E3; destruct (check_retained_spec _ _ _ _ E3) as (Ho3 & _ & Hr3).
  2:{ intros [= <- <-]. left. split; [|by eexists]. eapply same_file_trans; [done|by apply limits_same_file]. }
  destruct Hr3 as [-> _]. destruct (inner_write s2 b) as [w s4] eqn:E4. intros Hr. right. exists s2, w, s4.
  split_and!; [done|done| |]; destruct w as [written|e].
  - destruct (charge_temporary_file_write s4 _) as [[[]|e] s5] eqn:E5; destruct (charge_file_write_spec _ _ _ _ E5) as (Ho5 & _ & _);
      [|by injection Hr as _ <-; apply limits_same_file].
    destruct (match as_inner s2 with SpoolBuffer _ => _ | SpoolFile _ _ => _ end) as [previous|];
      [|by injection Hr as _ <-; apply limits_same_file].
    destruct (charge_retained_memory_write s5 _) as [charged s6] eqn:E6. injection Hr as _ <-.
    destruct (charge_retained_spec _ _ _ _ E6) as (Ho6 & _ & _). by eapply limits_same_file, only_limits_trans.
  - by injection Hr as _ <-.
  - destruct (charge_temporary_file_write s4 _) as [[[]|e] s5] eqn:E5; destruct (charge_file_write_spec _ _ _ _ E5) as (_ & _ & Hr5);
      [|injection Hr as <- _; right; by eexists].
    destruct (match as_inner s2 with SpoolBuffer _ => _ | SpoolFile _ _ => _ end) as [previous|]; [|injection Hr as <- _; by left].
    destruct (charge_retained_memory_write s5 _) as [charged s6] eqn:E6. injection Hr as <- _.
    destruct (charge_retained_spec _ _ _ _ E6) as (_ & _ & Hr6). destruct charged; [by left|right; by eexists].
  - injection Hr as <- _. by left.
Qed.

Lemma inner_write_file s b n s' :
  inner_write s b = (Ok n, s') →
  0 ≤ n ≤ zlen b ∧ spool_contents s' = overwrite (spool_position s) (take (Z.to_nat n) b) (spool_contents s) ∧
  spool_position s' = spool_position s + n.
Proof.
  unfold inner_write, spool_contents, spool_position. destruct (as_inner s) as [cursor|file path].
  - destruct (w_write cursor b) as [res cursor'] eqn:Ew. intros [= -> <-]. exact (fl_write _ _ FileOutput_laws _ _ _ _ Ew).
  - destruct (w_write file b) as [res file'] eqn:Ew. intros [= -> <-]. exact (fl_write _ _ (tl_file Hlaws) _ _ _ _ Ew).
Qed.

Lemma inner_write_interrupted s b e s' :
  inner_write s b = (Err e, s') → interrupted e = true → same_file s s'.
Proof.
  unfold inner_write, same_file, spool_contents, spool_position. destruct (as_inner s) as [cursor|file path].
  - destruct (w_write cursor b) as [res cursor'] eqn:Ew. intros [= -> <-]. exact (fl_interrupted _ _ FileOutput_laws _ _ _ _ Ew).
  - destruct (w_write file b) as [res file'] eqn:Ew. intros [= -> <-]. exact (fl_interrupted _ _ (tl_file Hlaws) _ _ _ _ Ew).
Qed.

Lemma spool_file_laws : file_laws spool_contents spool_position.
Proof.
  split.
  - intros s b n s' Hw. destruct (AutoSpool_write_file _ _ _ _ Hw) as [[_ [e ?]]|(s1 & w & s2 & [Hc Hp] & Hi & [Hc' Hp'] & Hr)]; [done|].
    destruct Hr as [<-|[e [? _]]]; [|done]. destruct (inner_write_file _ _ _ _ Hi) as (Hn & Hc2 & Hp2).
    by rewrite Hc', Hp', Hc2, Hp2, Hc, Hp.
  - intros s b e s' Hw He. change (same_file s s').
    destruct (AutoSpool_write_file _ _ _ _ Hw) as [[? _]|(s1 & w & s2 & Hs & Hi & Hs' & Hr)]; [done|].
    destruct Hr as [<-|[e' [[= <-] ?]]]; [|congruence]. pose proof (inner_write_interrupted _ _ _ _ Hi He).
    by eapply same_file_trans, same_file_trans.
  - intros s s'. cbn [w_flush spooled_write AutoSpool_Write]. unfold spool_contents, spool_position. destruct (as_inner s) as [cursor|file path].
    + destruct (w_flush cursor) as [res cursor'] eqn:Ef. intros [= -> <-]. exact (fl_flush _ _ FileOutput_laws _ _ Ef).
    + destruct (w_flush file) as [res file'] eqn:Ef. intros [= -> <-]. exact (fl_flush _ _ (tl_file Hlaws) _ _ Ef).
  - intros s n p s'. unfold w_seek at 1, AutoSpool_Seek, spool_contents, spool_position. destruct (as_inner s) as [cursor|file path].
    + destruct (w_seek cursor (SeekStart n)) as [res cursor'] eqn:Es. intros [= -> <-]. exact (fl_seek _ _ FileOutput_laws _ _ _ _ Es).
    + destruct (w_seek file (SeekStart n)) as [res file'] eqn:Es. intros [= -> <-]. exact (fl_seek _ _ (tl_file Hlaws) _ _ _ _ Es).
Qed.

Lemma spool_reading_laws : reading_laws spool_contents spool_position.
Proof.
  split.
  - intros s n c s' Hn. unfold reader_read at 1, AutoSpool_Read, spool_contents, spool_position. destruct (as_inner s) as [cursor|file path].
    + destruct (reader_read cursor n) as [res cursor'] eqn:Er. intros [= -> <-]. exact (rl_read _ _ FileOutput_reading _ _ _ _ Hn Er).
    + destruct (reader_read file n) as [res file'] eqn:Er. intros [= -> <-]. exact (rl_read _ _ (tl_reading Hlaws) _ _ _ _ Hn Er).
  - intros s n e s'. unfold reader_read at 1, AutoSpool_Read, spool_contents, spool_position. destruct (as_inner s) as [cursor|file path].
    + destruct (reader_read cursor n) as [res cursor'] eqn:Er. intros [= -> <-]. exact (rl_interrupted _ _ FileOutput_reading _ _ _ _ Er).
    + destruct (reader_read file n) as [res file'] eqn:Er. intros [= -> <-]. exact (rl_interrupted _ _ (tl_reading Hlaws) _ _ _ _ Er).
  - exact (fl_seek _ _ spool_file_laws).
  - intros s p s'. unfold w_seek at 1, AutoSpool_Seek, spool_contents. destruct (as_inner s) as [cursor|file path].
    + destruct (w_seek cursor (SeekEnd 0)) as [res cursor'] eqn:Es. intros [= -> <-]. exact (rl_end _ _ FileOutput_reading _ _ _ Es).
    + destruct (w_seek file (SeekEnd 0)) as [res file'] eqn:Es. intros [= -> <-]. exact (rl_end _ _ (tl_reading Hlaws) _ _ _ Es).
Qed.

(** What an operation leaves of the inner output keeps the invariant. *)
Lemma inner_ok_set base s inner :
  spool_ok base s →
  match as_inner s, inner with
  | SpoolBuffer cursor, SpoolBuffer cursor' => fo_data cursor' = fo_data cursor ∧ 0 ≤ fo_pos cursor'
  | SpoolFile _ path, SpoolFile _ path' => path' = path
  | _, _ => False
  end → spool_ok base (set_spool_inner s inner (as_disk s)).
Proof.
  intros [Hin Hk] Hs. split; [|exact Hk]. unfold inner_ok in *. cbn.
  destruct (as_inner s) as [cursor|file path], inner as [cursor'|file' path']; try done.
  - destruct Hs as [-> ?]. by destruct Hin as (? & _ & ?).
  - by subst.
Qed.

Lemma buffer_position base s cursor : spool_ok base s → as_inner s = SpoolBuffer cursor → 0 ≤ fo_pos cursor.
Proof. intros [Hin _] Hi. unfold inner_ok in Hin. rewrite Hi in Hin. tauto. Qed.

Lemma spool_ok_flush base s r s' : spool_ok base s → w_flush s = (r, s') → spool_ok base s'.
Proof.
  intros Hs. cbn [w_flush spooled_write AutoSpool_Write]. destruct (as_inner s) as [cursor|file path] eqn:Hi.
  - cbn. intros [= _ <-]. apply inner_ok_set; [done|]. rewrite Hi. split; [done|by eapply buffer_position].
  - destruct (w_flush file). intros [= _ <-]. apply inner_ok_set; [done|]. by rewrite Hi.
Qed.

Lemma spool_ok_seek base s p r s' : spool_ok base s → w_seek s p = (r, s') → spool_ok base s'.
Proof.
  intros Hs. unfold w_seek at 1, AutoSpool_Seek. destruct (as_inner s) as [cursor|file path] eqn:Hi.
  - pose proof (buffer_position _ _ _ Hs Hi). unfold w_seek, FileOutput_Seek. set (pos := match p with SeekStart n => n | _ => _ end).
    destruct (decide (pos < 0)); intros [= _ <-]; (apply inner_ok_set; [done|]); rewrite Hi; split; cbn; try done; lia.
  - destruct (w_seek file p). intros [= _ <-]. apply inner_ok_set; [done|]. by rewrite Hi.
Qed.

Lemma spool_ok_read base s n r s' : spool_ok base s → reader_read s n = (r, s') → spool_ok base s'.
Proof.
  intros Hs. unfold reader_read at 1, AutoSpool_Read. destruct (as_inner s) as [cursor|file path] eqn:Hi.
  - pose proof (buffer_position _ _ _ Hs Hi). intros [= _ <-]. apply inner_ok_set; [done|]. rewrite Hi. split; [done|]. cbn.
    match goal with |- 0 ≤ _ + zlen ?x => pose proof (zlen_nonneg x) end. lia.
  - destruct (reader_read file n). intros [= _ <-]. apply inner_ok_set; [done|]. by rewrite Hi.
Qed.

Lemma spool_preserved base : preserved (spool_ok base).
Proof.
  split.
  - intros s b r s'. apply AutoSpool_write_ok.
  - intros s r s'. apply spool_ok_flush.
  - intros s p r s'. apply spool_ok_seek.
Qed.

(** What may be done to a spool. *)
Inductive spool_step : AutoSpool → AutoSpool → Prop :=
| step_write s b r s' : AutoSpool_write io_fuel s b = (r, s') → spool_step s s'
| step_flush s r s' : w_flush s = (r, s') → spool_step s s'
| step_seek s p r s' : w_seek s p = (r, s') → spool_step s s'
| step_read s n r s' : reader_read s n = (r, s') → spool_step s s'.

Lemma spool_steps_ok base s s' : spool_ok base s → rtc spool_step s s' → spool_ok base s'.
Proof.
  intros Hs Hr. induction Hr as [|s s1 s' Hstep _ IH]; [done|]. apply IH.
  destruct Hstep; [by eapply AutoSpool_write_ok|by eapply spool_ok_flush|by eapply spool_ok_seek|by eapply spool_ok_read].
Qed.

(** The limits a spool starts with. *)
Definition limits_given (memory_threshold : option Z) (budget : SpoolBudget) : Prop :=
  (∀ t, memory_threshold = Some t → 0 ≤ t < u64_max) ∧
  (∀ l, ro_limit (sb_retained_output budget) = Some l → 0 ≤ l) ∧
  (∀ l, ts_limit (sb_temporary_storage budget) = Some l → ts_written (sb_temporary_storage budget) ≤ l).

Lemma AutoSpool_new_ok threshold dir budget d r d' :
  limits_given threshold budget → AutoSpool_new threshold dir budget d = (r, d') →
  match r with
  | Ok s => spool_ok (files d) s ∧ as_disk s = d' ∧ as_budget s = budget ∧ as_memory_threshold s = threshold ∧
      spool_contents s = [] ∧ spool_position s = 0
  | Err _ => files d' = files d
  end.
Proof.
  intros (Ht & Hr & Hw). unfold AutoSpool_new. case_decide.
  - destruct (create_temp_spool dir d) as [[[f p]|e] d1] eqn:Ec; apply create_temp_files in Ec; intros [= <- <-]; [|done].
    by destruct Ec as (? & ? & ? & ?).
  - intros [= <- <-]. split_and!; try done. split; [|by split]. unfold inner_ok. cbn. split_and!; [done|done|..].
    + destruct threshold as [t|]; [|done]. cbn. by apply (Ht t).
    + destruct threshold as [t|]; [|done]. intros _. by apply (Ht t).
    + destruct (ro_limit _) as [l|]; [|done]. intros _. by apply Hr.
Qed.

Lemma cleanup_files base s r d : spool_ok base s → AutoSpool_cleanup s = (r, d) → r = Ok tt ∧ files d = base.
Proof.
  intros [Hin _]. unfold AutoSpool_cleanup, inner_ok in *. destruct (as_inner s) as [cursor|file path].
  - intros [= <- <-]. by destruct Hin.
  - destruct Hin as [Hp Hf]. destruct (tl_removed Hlaws path (as_disk s)) as (d1 & Hr & Hd); [set_solver|].
    rewrite Hr. intros [= <- <-]. split; [done|]. rewrite Hd, Hf. set_solver.
Qed.

(** ** The settings of a spool do not change *)

Definition spool_settings s : option Z * option Z * option Z :=
  (as_memory_threshold s, ro_limit (sb_retained_output (as_budget s)), ts_limit (sb_temporary_storage (as_budget s))).

Lemma only_limits_settings s s' : only_limits s s' → spool_settings s' = spool_settings s.
Proof. intros (_ & _ & Ht & _ & Hr & Hl). unfold spool_settings. by rewrite Ht, Hr, Hl. Qed.

Lemma maybe_roll_settings s n r s' : maybe_roll_to_file io_fuel s n = (r, s') → spool_settings s' = spool_settings s.
Proof.
  unfold maybe_roll_to_file. destruct (as_inner s) as [cursor|]; [|by intros [= _ <-]]. destruct (negb _); [by intros [= _ <-]|].
  case_decide; [by intros [= _ <-]|]. unfold roll_to_file.
  destruct (check_temporary_storage_write s _) as [[[]|e] s1] eqn:E1; destruct (check_temporary_spec _ _ _ _ E1) as (Ho & _ & Hr1);
    [destruct Hr1 as [-> _]|intros [= _ <-]; by apply only_limits_settings].
  destruct (create_temp_spool _ _) as [[[f p]|e] d]; [|by intros [= _ <-]].
  destruct (copy_buffer io_fuel f cursor); [|by intros [= _ <-]].
  destruct (charge_temporary_storage_write _ _) as [[[]|e] s2] eqn:E2; destruct (charge_temporary_spec _ _ _ _ E2) as (Ho2 & _ & _);
    intros [= _ <-]; exact (only_limits_settings _ _ Ho2).
Qed.

Lemma AutoSpool_write_settings s b r s' : AutoSpool_write io_fuel s b = (r, s') → spool_settings s' = spool_settings s.
Proof.
  unfold AutoSpool_write.
  destruct (check_temporary_file_write s _) as [[[]|e] s1] eqn:E1;
    pose proof (only_limits_settings _ _ (proj1 (check_file_write_spec _ _ _ _ E1))) as <-; [|by intros [= _ <-]].
  destruct (maybe_roll_to_file io_fuel s1 _) as [[[]|e] s2] eqn:E2; pose proof (maybe_roll_settings _ _ _ _ E2) as <-; [|by intros [= _ <-]].
  destruct (check_retained_memory_write s2 _) as [[[]|e] s3] eqn:E3;
    pose proof (only_limits_settings _ _ (proj1 (check_retained_spec _ _ _ _ E3))) as <-; [|by intros [= _ <-]].
  destruct (inner_write s3 b) as [[written|e] s4] eqn:E4; destruct (inner_write_limits _ _ _ _ E4) as (_ & Ht & Hb & _);
    (assert (spool_settings s4 = spool_settings s3) as <- by (unfold spool_settings; by rewrite Ht, Hb)); [|by intros [= _ <-]].
  destruct (charge_temporary_file_write s4 _) as [[[]|e] s5] eqn:E5;
    pose proof (only_limits_settings _ _ (proj1 (charge_file_write_spec _ _ _ _ E5))) as <-; [|by intros [= _ <-]].
  destruct (match as_inner s2 with SpoolBuffer _ => _ | SpoolFile _ _ => _ end) as [previous|]; [|by intros [= _ <-]].
  destruct (charge_retained_memory_write s5 _) as [charged s6] eqn:E6. intros [= _ <-].
  exact (only_limits_settings _ _ (proj1 (charge_retained_spec _ _ _ _ E6))).
Qed.

Lemma spool_steps_settings s s' : rtc spool_step s s' → spool_settings s' = spool_settings s.
Proof.
  intros Hr. induction Hr as [|s s1 s' Hstep _ ->]; [done|]. destruct Hstep as [s b r s1 Hw|s r s1 Hw|s p r s1 Hw|s n r s1 Hw].
  - by eapply AutoSpool_write_settings.
  - revert Hw. cbn [w_flush spooled_write AutoSpool_Write]. destruct (as_inner s) as [cursor|file]; [destruct (w_flush cursor)|destruct (w_flush file)]; by intros [= _ <-].
  - revert Hw. unfold w_seek at 1, AutoSpool_Seek. destruct (as_inner s) as [cursor|file]; [destruct (w_seek cursor p)|destruct (w_seek file p)]; by intros [= _ <-].
  - revert Hw. unfold reader_read at 1, AutoSpool_Read. destruct (as_inner s) as [cursor|file]; [destruct (reader_read cursor n)|destruct (reader_read file n)]; by intros [= _ <-].
Qed.

(** ** The bytes on disk

    What a write puts on disk, told by the spool before it, by its result and by the spool
    after it: the buffer, when the contents move to a file, and the bytes it reports as
    written when they are there. *)
Definition on_disk s : bool := match as_inner s with SpoolBuffer _ => false | SpoolFile _ _ => true end.
Definition moved_bytes s s' : Z :=
  match as_inner s with SpoolBuffer cursor => if on_disk s' then zlen (fo_data cursor) else 0 | SpoolFile _ _ => 0 end.
Definition disk_bytes s (r : result Z IoError) s' : Z :=
  moved_bytes s s' + match r with Ok n => if on_disk s' then n else 0 | Err _ => 0 end.

(** A run of a spool, with the bytes its writes put on disk. *)
Inductive spool_run : AutoSpool → Z → AutoSpool → Prop :=
| run_done s : spool_run s 0 s
| run_write s b r s1 n s' : AutoSpool_write io_fuel s b = (r, s1) → spool_run s1 n s' → spool_run s (disk_bytes s r s1 + n) s'
| run_flush s r s1 n s' : w_flush s = (r, s1) → spool_run s1 n s' → spool_run s n s'
| run_seek s p r s1 n s' : w_seek s p = (r, s1) → spool_run s1 n s' → spool_run s n s'
| run_read s m r s1 n s' : reader_read s m = (r, s1) → spool_run s1 n s' → spool_run s n s'.

Lemma spool_run_steps s n s' : spool_run s n s' → rtc spool_step s s'.
Proof.
  induction 1 as [|? ? ? ? ? ? Hw _ IH|? ? ? ? ? Hw _ IH|? ? ? ? ? ? Hw _ IH|? ? ? ? ? ? Hw _ IH]; [done|..];
    (eapply rtc_l; [|exact IH]); by econstructor.
Qed.

(** The account of the bytes on disk. *)
Abbreviation charged s := (ts_written (sb_temporary_storage (as_budget s))).
Abbreviation disk_limit s := (ts_limit (sb_temporary_storage (as_budget s))).

Lemma check_temporary_charged s n r s' : check_temporary_storage_write s n = (r, s') → charged s' = charged s.
Proof. unfold check_temporary_storage_write. destruct (TemporaryStorageBudget_check_write _ _); by intros [= _ <-]. Qed.

Lemma charge_temporary_charged s n r s' l :
  disk_limit s = Some l → charge_temporary_storage_write s n = (r, s') →
  charged s' = charged s + match r with Ok _ => n | Err _ => 0 end.
Proof.
  intros Hl. unfold charge_temporary_storage_write, TemporaryStorageBudget_charge_write.
  destruct (next_total _ _ _ _) as [t|] eqn:Et; intros [= <- <-]; cbn; [|lia].
  apply next_total_within in Et. rewrite Hl in Et. lia.
Qed.

Lemma charge_file_charged s n r s' l :
  disk_limit s = Some l → charge_temporary_file_write s n = (r, s') →
  charged s' = charged s + match r with Ok _ => if on_disk s then n else 0 | Err _ => 0 end.
Proof.
  intros Hl. unfold charge_temporary_file_write, on_disk. destruct (as_inner s); [intros [= <- <-]; lia|].
  case_decide as Hn; [intros [= <- <-]; lia|]. by eapply charge_temporary_charged.
Qed.

Lemma retained_charged s n r s' :
  check_retained_memory_write s n = (r, s') ∨ charge_retained_memory_write s n = (r, s') → charged s' = charged s.
Proof.
  unfold check_retained_memory_write, charge_retained_memory_write. destruct (as_inner s).
  - destruct (RetainedOutputBudget_check_resize _ _ _), (RetainedOutputBudget_resize _ _ _); intros [[= _ <-]|[= _ <-]]; done.
  - intros [[= _ <-]|[= _ <-]]; done.
Qed.

Lemma only_limits_disk s s' : only_limits s s' → on_disk s' = on_disk s ∧ disk_limit s' = disk_limit s.
Proof. intros (Hi & _ & _ & _ & _ & Hl). unfold on_disk. by rewrite Hi. Qed.

(** A move is charged with the buffer, and nothing else is. *)
Lemma roll_charged s cursor n r s' l :
  disk_limit s = Some l → as_inner s = SpoolBuffer cursor → roll_to_file io_fuel s cursor n = (r, s') →
  charged s' = charged s + (if on_disk s' then zlen (fo_data cursor) else 0) ∧ disk_limit s' = Some l ∧
  (on_disk s' = true → is_ok r = true).
Proof.
  intros Hl Hi. unfold roll_to_file. destruct (check_temporary_storage_write s _) as [[[]|e] s1] eqn:E1;
    destruct (check_temporary_spec _ _ _ _ E1) as (Ho & _ & Hr1).
  2:{ intros [= <- <-]. destruct (only_limits_disk _ _ Ho) as [Hd ->]. rewrite (check_temporary_charged _ _ _ _ E1), Hd.
      unfold on_disk. rewrite Hi. split_and!; [lia|done|done]. }
  destruct Hr1 as [-> _].
  assert (∀ disk, charged (set_spool_inner s (as_inner s) disk) = charged s ∧
    on_disk (set_spool_inner s (as_inner s) disk) = false ∧ disk_limit (set_spool_inner s (as_inner s) disk) = Some l) as Hset.
  { intros disk. unfold on_disk. cbn. by rewrite Hi. }
  destruct (create_temp_spool _ _) as [[[f p]|e] d].
  2:{ intros [= <- <-]. destruct (Hset d) as (-> & -> & ->). split_and!; [lia|done|done]. }
  destruct (copy_buffer io_fuel f cursor) as [f1|e].
  2:{ intros [= <- <-]. destruct (Hset (td_remove_file p d).2) as (-> & -> & ->). split_and!; [lia|done|done]. }
  destruct (charge_temporary_storage_write _ _) as [[[]|e] s2] eqn:E2;
    destruct (charge_temporary_spec _ _ _ _ E2) as (Ho2 & _ & _);
    destruct (only_limits_disk _ _ Ho2) as [Hd2 Hl2]; destruct (Hset d) as (Hc & Hd & Hsl); rewrite Hsl in Hl2;
    pose proof (charge_temporary_charged _ _ _ _ _ Hsl E2) as Hc2; rewrite Hc in Hc2; intros [= <- <-].
  - cbn. rewrite Hl2, Hc2. split_and!; [done|done|done].
  - rewrite Hc2, Hd2, Hd, Hl2. split_and!; [lia|done|done].
Qed.

Lemma maybe_roll_charged s n r s' l :
  disk_limit s = Some l → maybe_roll_to_file io_fuel s n = (r, s') →
  charged s' = charged s + moved_bytes s s' ∧ disk_limit s' = Some l ∧ (is_ok r = false → moved_bytes s s' = 0).
Proof.
  intros Hl. unfold maybe_roll_to_file, moved_bytes. destruct (as_inner s) as [cursor|file path] eqn:Hi;
    [|intros [= <- <-]; split_and!; [lia|done|done]].
  assert (on_disk s = false) as Hb by (unfold on_disk; by rewrite Hi).
  destruct (negb _); [intros [= <- <-]; rewrite Hb; split_and!; [lia|done|done]|].
  case_decide; [intros [= <- <-]; rewrite Hb; split_and!; [lia|done|done]|].
  intros Hr. destruct (roll_charged _ _ _ _ _ _ Hl Hi Hr) as (Hc & Hl' & Hok). split_and!; [done|done|].
  destruct (on_disk s'); [|done]. by rewrite Hok.
Qed.

Lemma inner_write_disk s b r s' : inner_write s b = (r, s') → on_disk s' = on_disk s ∧ as_budget s' = as_budget s.
Proof.
  unfold inner_write, on_disk. destruct (as_inner s) as [cursor|file path].
  - destruct (w_write cursor b). by intros [= _ <-].
  - destruct (w_write file b). by intros [= _ <-].
Qed.

(** What a write puts on disk is what it is charged. *)
Lemma AutoSpool_write_charged s b r s' l :
  disk_limit s = Some l → AutoSpool_write io_fuel s b = (r, s') → charged s' = charged s + disk_bytes s r s' ∧ disk_limit s' = Some l.
Proof.
  intros Hl. unfold AutoSpool_write, disk_bytes.
  destruct (check_temporary_file_write s _) as [[[]|e] s1] eqn:E1; destruct (check_file_write_spec _ _ _ _ E1) as (Ho1 & _ & Hr1).
  2:{ intros [= <- <-]. destruct (only_limits_disk _ _ Ho1) as [Hd ->]. split; [|done]. unfold moved_bytes. rewrite Hd.
      revert E1. unfold check_temporary_file_write, on_disk. case_decide; [done|]. destruct (as_inner s); [done|].
      intros ->%check_temporary_charged. lia. }
  subst s1. destruct (maybe_roll_to_file io_fuel s _) as [[[]|e] s2] eqn:E2;
    destruct (maybe_roll_charged _ _ _ _ _ Hl E2) as (Hc2 & Hl2 & Hm2).
  2:{ intros [= <- <-]. by rewrite Hc2, Z.add_0_r. }
  (* From here on the contents stay where they are. *)
  assert (∀ s3, on_disk s3 = on_disk s2 → moved_bytes s s3 = moved_bytes s s2) as Hmoved
    by (intros s3 Hd; unfold moved_bytes; by rewrite Hd).
  destruct (check_retained_memory_write s2 _) as [[[]|e] s3] eqn:E3; destruct (check_retained_spec _ _ _ _ E3) as (Ho3 & _ & Hr3).
  2:{ intros [= <- <-]. destruct (only_limits_disk _ _ Ho3) as [Hd3 ->]. rewrite (retained_charged s2 (zlen b) (Err e) s3) by (by left).
      rewrite (Hmoved _ Hd3), Hc2, Z.add_0_r. done. }
  destruct Hr3 as [-> _]. destruct (inner_write s2 b) as [w s4] eqn:E4. destruct (inner_write_disk _ _ _ _ E4) as [Hd4 Hb4].
  destruct w as [written|e]; [|intros [= <- <-]; rewrite (Hmoved _ Hd4), Hb4, Hc2, Z.add_0_r; done].
  assert (disk_limit s4 = Some l) as Hl4 by (by rewrite Hb4).
  destruct (charge_temporary_file_write s4 _) as [[[]|e] s5] eqn:E5; destruct (charge_file_write_spec _ _ _ _ E5) as (Ho5 & _ & _);
    destruct (only_limits_disk _ _ Ho5) as [Hd5 Hl5]; pose proof (charge_file_charged _ _ _ _ _ Hl4 E5) as Hc5;
    rewrite Hb4, Hc2, ?Hd4 in Hc5; rewrite Hl4 in Hl5; rewrite Hd4 in Hd5.
  2:{ intros [= <- <-]. rewrite (Hmoved _ Hd5), Hc5, Z.add_0_r. split; [lia|done]. }
  destruct (as_inner s2) as [cursor|file path] eqn:Hi2.
  - destruct (charge_retained_memory_write s5 _) as [rc s6] eqn:E6. intros [= <- <-].
    destruct (charge_retained_spec _ _ _ _ E6) as (Ho6 & _ & _). destruct (only_limits_disk _ _ Ho6) as [Hd6 ->].
    rewrite (retained_charged _ _ _ _ (or_intror E6)), Hc5. rewrite Hd5 in Hd6. rewrite (Hmoved _ Hd6), Hd6.
    assert (on_disk s2 = false) as -> by (unfold on_disk; by rewrite Hi2). split; [|done]. destruct rc; cbn; lia.
  - intros [= <- <-]. rewrite Hc5, (Hmoved _ Hd5), Hd5. split; [lia|done].
Qed.

(** A spool's account is what its writes put on disk. *)
Lemma spool_run_charged s n s' l : disk_limit s = Some l → spool_run s n s' → charged s' = charged s + n.
Proof.
  intros Hl Hr. revert Hl. induction Hr as [|s b r s1 n s' Hw _ IH|s r s1 n s' Hw _ IH|s p r s1 n s' Hw _ IH|s m r s1 n s' Hw _ IH];
    intros Hl; [lia| |rewrite IH; [|rewrite <- Hl]..].
  - destruct (AutoSpool_write_charged _ _ _ _ _ Hl Hw) as [Hc Hl1]. rewrite IH, Hc by done. lia.
  - revert Hw. cbn [w_flush spooled_write AutoSpool_Write]. destruct (as_inner s) as [cursor|file]; [destruct (w_flush cursor)|destruct (w_flush file)]; by intros [= _ <-].
  - revert Hw. cbn [w_flush spooled_write AutoSpool_Write]. destruct (as_inner s) as [cursor|file]; [destruct (w_flush cursor)|destruct (w_flush file)]; by intros [= _ <-].
  - revert Hw. unfold w_seek at 1, AutoSpool_Seek. destruct (as_inner s) as [cursor|file]; [destruct (w_seek cursor p)|destruct (w_seek file p)]; by intros [= _ <-].
  - revert Hw. unfold w_seek at 1, AutoSpool_Seek. destruct (as_inner s) as [cursor|file]; [destruct (w_seek cursor p)|destruct (w_seek file p)]; by intros [= _ <-].
  - revert Hw. unfold reader_read at 1, AutoSpool_Read. destruct (as_inner s) as [cursor|file]; [destruct (reader_read cursor m)|destruct (reader_read file m)]; by intros [= _ <-].
  - revert Hw. unfold reader_read at 1, AutoSpool_Read. destruct (as_inner s) as [cursor|file]; [destruct (reader_read cursor m)|destruct (reader_read file m)]; by intros [= _ <-].
Qed.

(** A write for which the account has no room is refused before it reaches the file. *)
Lemma write_refused s b r s' l :
  disk_limit s = Some l → on_disk s = true → charged s ≤ l < charged s + zlen b → AutoSpool_write io_fuel s b = (r, s') →
  r = Err temporary_limit_error ∧ same_file s s'.
Proof.
  intros Hl Hd Hover. unfold AutoSpool_write, check_temporary_file_write. rewrite decide_False by lia.
  unfold on_disk in Hd. destruct (as_inner s); [done|]. unfold check_temporary_storage_write, TemporaryStorageBudget_check_write.
  rewrite Hl. unfold next_total. destruct (checked_add _ _) as [t|] eqn:Et; cbn.
  - apply checked_add_some in Et as ->. rewrite bool_decide_true by lia. cbn. by intros [= <- <-].
  - by intros [= <- <-].
Qed.

End spooled.

Arguments disk_bytes {_ _}. Arguments on_disk {_ _}.
Arguments spool_contents {_ _}. Arguments spool_position {_ _}.

(** ** Properties *)

(** C20. A spool behaves as a file: a write that succeeds lays its bytes at the position and moves
    it, an interrupted one leaves everything, seeks and reads are those of the contents, and
    none of this shows when the contents move from memory to a temporary file, before or
    between writes. *)
Theorem spool_is_a_file {D F} `{TempDir D F} `{Write F} `{Seek F} `{Reader F} io_fuel fcontents fposition files :
  temp_dir_laws fcontents fposition files →
  @file_laws (AutoSpool D F) (AutoSpool_Write io_fuel) _ (spool_contents fcontents) (spool_position fposition) ∧
  @reading_laws (AutoSpool D F) _ _ (spool_contents fcontents) (spool_position fposition).
Proof. intros Hlaws. split; [by eapply spool_file_laws|by eapply spool_reading_laws]. Qed.


(** ** Witnesses *)

(** A directory in memory; the files that are open are kept by those who opened them. *)
Definition name_set : Type := gset (list Z).
#[global] Instance memory_temp_dir : TempDir name_set FileOutput := {|
  td_temp_dir := λ _, str_bytes "/tmp";
  td_process_id := 7;
  td_create_dir_all := λ _ d, (Ok tt, d);
  td_random := λ d, (Some (replicate 8 0), d);
  td_create_new := λ p d,
    if decide (p ∈ d) then (Err (IoKind AlreadyExists "file exists"), d) else (Ok new_output, {[p]} ∪ d);
  td_remove_file := λ p d,
    if decide (p ∈ d) then (Ok tt, d ∖ {[p]}) else (Err (IoKind NotFound "no such file"), d)
|}.

Lemma memory_temp_laws : temp_dir_laws fo_data fo_pos (λ d : name_set, d).
Proof.
  split; try done.
  - apply FileOutput_laws.
  - apply FileOutput_reading.
  - intros p d f d'. cbn. case_decide; [done|]. by intros [= <- <-].
  - intros p d e d'. cbn. case_decide; [by intros [= _ <-]|done].
  - intros p d Hp. cbn. rewrite decide_True by done. by eexists.
Qed.

Definition sample_spool_budget : SpoolBudget :=
  {| sb_temporary_storage := TemporaryStorageBudget_new (Some 100); sb_retained_output := RetainedOutputBudget_new (Some 50) |}.
(** A spool of four bytes in a directory where the first name it tries is taken. *)
Definition sample_taken : name_set := {[str_bytes "/tmp/r7z-spool-7-0-0000000000000000.tmp"]}.
Definition new_spool : result (AutoSpool name_set FileOutput) R7zError * name_set :=
  AutoSpool_new (Some 4) None sample_spool_budget sample_taken.
Definition sample_spool : AutoSpool name_set FileOutput :=
  {| as_memory_threshold := Some 4; as_dir := None; as_budget := sample_spool_budget; as_temporary_exceeded := false;
     as_retained_exceeded := false; as_inner := SpoolBuffer new_output; as_disk := sample_taken |}.
Definition sample_first : AutoSpool name_set FileOutput := (AutoSpool_write 20 sample_spool [1; 2; 3]).2.
Definition sample_second : AutoSpool name_set FileOutput := (AutoSpool_write 20 sample_first [4; 5; 6]).2.

Lemma sample_first_written : AutoSpool_write 20 sample_spool [1; 2; 3] = (Ok 3, sample_first).
Proof. by rewrite (surjective_pairing (AutoSpool_write _ _ _)). Qed.
Lemma sample_second_written : AutoSpool_write 20 sample_first [4; 5; 6] = (Ok 3, sample_second).
Proof. by rewrite (surjective_pairing (AutoSpool_write _ _ _)). Qed.

Lemma spool_is_a_file_witness :
  spool_memory sample_first = 3 ∧ spool_memory sample_second = 0 ∧
  spool_contents fo_data sample_second = [1; 2; 3; 4; 5; 6].
Proof.
  destruct (spool_is_a_file 20 fo_data fo_pos (λ d : name_set, d) memory_temp_laws) as [Hf _].
  split_and!; [by vm_compute|by vm_compute|].
  destruct (fl_write _ _ Hf sample_first [4; 5; 6] 3 sample_second sample_second_written) as (_ & -> & _). by vm_compute.
Defined.

