(* ===== verification/StreamedOutput.v ===== *)
(** * Archives for writers that cannot seek (src/src/write/mod.rs)

    The archive is built in a spool, then copied to the writer; the spool is cleaned up
    whatever happened. *)

From stdpp Require Import base numbers list option strings gmap.
From Stdlib Require Import ZArith Lia.
From S2P Require Import Prelude Parsers Method Folder Error Operation Readers Resources Aes DecoderPlan DecoderRun FolderDecode Headers Archive Listing WriteHeader WriteOptions Writers Lzma2Encoder WriteFolders StreamingFolder FolderWriting ArchiveWriter ArchiveWritten WrittenArchive ArchiveBuilder Copying Spool Spooled.

(** The threshold and the directory of a spool. *)
Definition spool_placement (mode : SpoolMode) : option Z * option (list Z) :=
  match mode with
  | SpoolMemory => (None, None)
  | SpoolAuto memory_threshold dir => (Some memory_threshold, dir)
  | SpoolTempFile dir => (Some 0, dir)
  end.

Record StreamingWriteBudgets := { sw_operation : WriterOperation; sw_spool : SpoolBudget }.

(** The end of a build: a limit the spool recorded comes before any other error. *)
Definition finish_spool {D F A} `{TempDir D F} (result : result A R7zError) (spool : AutoSpool D F) :
    Prelude.result A R7zError * D :=
  let limit_error := AutoSpool_limit_error spool in
  let '(cleanup_result, disk) := AutoSpool_cleanup spool in
  (match limit_error with
   | Some error => Err error
   | None =>
       match result, cleanup_result with
       | Err error, _ => Err error
       | Ok _, Err error => Err (R7zError_from error)
       | Ok a, Ok _ => Ok a
       end
   end, disk).

Section streaming.
  Context `{Crc32} `{BlockCipher} `{Sha256} `{Host} `{EncoderLimits} `{Encoders} {G : Type} `{Entropy G}.
  Context (io_fuel : nat) {D F : Type} `{TempDir D F} `{Write F} `{Seek F} `{Reader F}.
  Context {S : Type} `{Reader S} {W : Type} `{Write W}.
#[local] Instance streaming_spool_write : Write (AutoSpool D F) := AutoSpool_Write io_fuel.

(** The control is shared with other threads: [later] is what it has become once the
    archive is built. A writer that fails drops its buffers, which may write some more:
    [abandoned] is the spool after that. *)
Context (later : OperationControl → OperationControl) (abandoned : AutoSpool D F → AutoSpool D F).

Definition output_monitor (prepared : PreparedArchiveOptions) : OperationMonitor :=
  OperationMonitor_for_phase
    (OperationMonitor_new (later <$> st_control (ao_streaming (po_archive prepared)))) PhaseCopyOutput.

Definition copy_spool (monitor : OperationMonitor) (spool : AutoSpool D F) (out : W) :
    result unit R7zError * AutoSpool D F * W :=
  match w_seek spool (SeekStart 0) with
  | (Err e, spool) => (Err (R7zError_from e), spool, out)
  | (Ok _, spool) =>
      match OperationMonitor_copy_to io_fuel monitor spool out with
      | (Err e, _, spool, out) => (Err e, spool, out)
      | (Ok _, monitor, spool, out) =>
          match w_flush out with
          | (Err e, out) => (Err (R7zError_from e), spool, out)
          | (Ok _, out) => ((OperationMonitor_check monitor).1, spool, out)
          end
      end
  end.

Definition build_streaming_via_spool (entries : list (list Z * S)) (out : W) (memory_threshold : option Z)
    (dir : option (list Z)) (budgets : StreamingWriteBudgets) (prepared : PreparedArchiveOptions) (g : G) (disk : D) :
    result unit R7zError * W * D :=
  match AutoSpool_new memory_threshold dir (sw_spool budgets) disk with
  | (Err e, disk) => (Err e, out, disk)
  | (Ok spool, _) =>
      let '(result, spool, out) :=
        match build_streaming_with_prepared_options io_fuel entries spool prepared
                {| wc_operation := sw_operation budgets; wc_entropy := g |} with
        | Err e => (Err e, abandoned spool, out)
        | Ok spool => copy_spool (output_monitor prepared) spool out
        end in
      let '(result, disk) := finish_spool result spool in (result, out, disk)
  end.

Definition build_streaming_to_writer (entries : list (list Z * S)) (out : W) (options : ArchiveOptions) (g : G) (disk : D) :
    result unit R7zError * W * D :=
  match prepare_archive_options (set_default_budget options) with
  | Err e => (Err e, out, disk)
  | Ok prepared =>
      let all_budgets := writer_budgets prepared in
      let streaming_budgets := {| sw_operation := wb_operation all_budgets; sw_spool := wb_spool all_budgets |} in
      let '(memory_threshold, dir) := spool_placement (st_spool (ao_streaming (po_archive prepared))) in
      build_streaming_via_spool entries out memory_threshold dir streaming_budgets prepared g disk
  end.

End streaming.

(** ** What is delivered *)

(** An archive of some entries, in [data]. *)
Definition archive_of `{Crc32} `{BlockCipher} `{Sha256} `{Host} `{EncoderLimits} `{Encoders} {S} `{Reader S}
    (encodes : EncoderKind → bytes → bytes → Prop) (prepared : PreparedArchiveOptions) (entries : list (list Z * S))
    (data : bytes) : Prop :=
  ∃ log folders listed,
    ops_log (map (λ entry, OpFile entry.1 EntryMeta_default entry.2) entries) log ∧ Forall2 entry_logged listed log ∧
    log_items log = written_items folders ∧
    Forall (λ f, folder_done encodes prepared (wf_items f) (wf_packed f) (wf_folder f)) folders ∧
    archive_layout encodes prepared data listed folders.

Section built.
  Context `{Crc32} `{BlockCipher} `{Sha256} `{Host} `{EncoderLimits} `{Encoders} {G : Type} `{Entropy G}.
  Context (io_fuel : nat) (encodes : EncoderKind → bytes → bytes → Prop) (Henc : encoders_spec encodes).
  Context {S : Type} `{Reader S} (prepared : PreparedArchiveOptions).
  Context (Hbuffer : 0 < st_buffer_size (ao_streaming (po_archive prepared))).

Lemma append_all_ops {W} `{Write W} `{Seek W} (self : ArchiveWriter G W) (entries : list (list Z * S)) :
  append_all io_fuel self entries =
  run_ops io_fuel self (map (λ entry, OpFile entry.1 EntryMeta_default entry.2) entries).
Proof.
  revert self. induction entries as [|[name reader] entries IH]; intros self; cbn; [done|].
  destruct (ArchiveWriter_append_file _ _ _ _ _) as [[[]|] self1]; [apply IH|done].
Qed.

(** Building in any output keeps what its operations keep. *)
Lemma build_streaming_spec {W} `{Write W} `{Seek W} (contents : W → bytes) (position : W → Z) inv
    (entries : list (list Z * S)) (out : W) (c : WriterContext G) out' :
  file_laws contents position → preserved inv → inv out →
  build_streaming_with_prepared_options io_fuel entries out prepared c = Ok out' →
  inv out' ∧ archive_of encodes prepared entries (contents out').
Proof.
  intros Hlaws Hinv Hout. unfold build_streaming_with_prepared_options. rewrite append_all_ops.
  destruct (run_ops _ _ _) as [[[]|] writer] eqn:Er; [|done]. intros Hf. cbn in Hf.
  destruct (holds_ops io_fuel contents position Hlaws encodes Henc prepared Hbuffer inv Hinv _ _ [] [] [] writer
    (holds_new io_fuel contents position inv encodes prepared out c Hout) Er) as (log & folders & current & Hlog & Hh).
  destruct (holds_finish io_fuel contents position Hlaws inv Hinv encodes Henc prepared _ _ _ _ _ Hh Hf)
    as (folders' & listed & He & Hi & Hd & Hl & _ & Hi').
  split; [done|]. by exists log, folders', listed.
Qed.

  Context {D F : Type} `{TempDir D F} `{Write F} `{Seek F} `{Reader F}.
  Context (fcontents : F → bytes) (fposition : F → Z) (files : D → gset (list Z)).
  Context (Hlaws : temp_dir_laws fcontents fposition files).
#[local] Instance built_spool_write : Write (AutoSpool D F) := AutoSpool_Write io_fuel.

(** An archive built in a fresh spool. *)
Lemma built_in_spool threshold dir budget disk (spool spool' : AutoSpool D F) disk' (entries : list (list Z * S)) (c : WriterContext G) :
  limits_given threshold budget → AutoSpool_new threshold dir budget disk = (Ok spool, disk') →
  build_streaming_with_prepared_options io_fuel entries spool prepared c = Ok spool' →
  spool_ok files (files disk) spool' ∧ archive_of encodes prepared entries (spool_contents fcontents spool').
Proof.
  intros Hlim Hnew. destruct (AutoSpool_new_ok _ _ _ Hlaws _ _ _ _ _ _ Hlim Hnew) as (Hok & _).
  apply (build_streaming_spec _ (spool_position fposition)); [by eapply spool_file_laws|by eapply spool_preserved|exact Hok].
Qed.

(** The copy gives the writer the contents, and keeps the spool in order. *)
Lemma copy_spool_keeps {W} `{Write W} base m (spool : AutoSpool D F) (out : W) r spool' out' :
  spool_ok files base spool → copy_spool io_fuel m spool out = (r, spool', out') → spool_ok files base spool'.
Proof.
  intros Hok. unfold copy_spool. destruct (w_seek spool (SeekStart 0)) as [[p|e] s1] eqn:Es;
    pose proof (spool_ok_seek _ _ _ _ _ _ Hok Es) as Hok1; [|by intros [= _ <- _]].
  destruct (OperationMonitor_copy_to io_fuel m s1 out) as [[[res m1] s2] out1] eqn:Ec.
  assert (spool_ok files base s2) as Hok2 by (eapply (copy_to_keeps io_fuel (spool_ok files base)); [apply spool_ok_read|exact Hok1|exact Ec]).
  destruct res; [|by intros [= _ <- _]]. destruct (w_flush out1) as [[]]; by intros [= _ <- _].
Qed.

Lemma copy_spool_delivers {W} `{Write W} (got : W → bytes → Prop) m (spool : AutoSpool D F) (out : W) acc spool' out' :
  tracked got → got out acc → copy_spool io_fuel m spool out = (Ok tt, spool', out') →
  got out' (acc ++ spool_contents fcontents spool).
Proof.
  intros Hgot Hout. unfold copy_spool. destruct (w_seek spool (SeekStart 0)) as [[p|e] s1] eqn:Es; [|done].
  destruct (fl_seek _ _ (spool_file_laws io_fuel fcontents fposition files Hlaws) _ _ _ _ Es) as [Hc Hp].
  assert (file_left (spool_contents fcontents) (spool_position fposition) s1 (spool_contents fcontents spool)) as Hleft
    by (split; rewrite Hp; [done|by rewrite Hc]).
  destruct (OperationMonitor_copy_to io_fuel m s1 out) as [[[[n|] m1] s2] out1] eqn:Ec; [|done].
  destruct (copy_to_gives io_fuel _ (file_giving _ _ (spool_reading_laws io_fuel fcontents fposition files Hlaws)) got Hgot
    _ _ _ _ _ _ _ _ _ Hleft Hout Ec) as (_ & Hout1 & _).
  destruct (w_flush out1) as [[[]|e] out2] eqn:Ef; [|done]. intros [= _ _ <-]. by eapply tr_flush.
Qed.

End built.

(** ** Properties *)

(** What the options of an archive give its spool. *)
Definition spool_options_ok `{Host} `{EncoderLimits} (options : ArchiveOptions) : Prop :=
  ∀ prepared, prepare_archive_options (set_default_budget options) = Ok prepared →
    limits_given (spool_placement (st_spool (ao_streaming (po_archive prepared)))).1 (wb_spool (writer_budgets prepared)).

Section claims.
  Context `{Crc32} `{BlockCipher} `{Sha256} `{Host} `{EncoderLimits} `{Encoders} {G : Type} `{Entropy G}.
  Context {D F : Type} `{TempDir D F} `{Write F} `{Seek F} `{Reader F} {S : Type} `{Reader S} {W : Type} `{Write W}.

(** C18. When an archive is written to a writer that cannot seek, in memory or through a temporary
    file, and all goes well, the writer has received exactly what the spool held: an archive of
    the given entries, each with all that its reader gave, laid out as the archive writer
    lays it out. *)
Theorem streamed_archive_delivered (io_fuel : nat) (later : OperationControl → OperationControl)
    (abandoned : AutoSpool D F → AutoSpool D F) (fcontents : F → bytes) (fposition : F → Z) (files : D → gset (list Z))
    (encodes : EncoderKind → bytes → bytes → Prop)
    (got : W → bytes → Prop) (entries : list (list Z * S)) (out : W) (acc : bytes) (options : ArchiveOptions) (g : G) (disk : D) out' disk' :
  temp_dir_laws (F := F) fcontents fposition files → encoders_spec encodes → tracked got → spool_options_ok options →
  0 ≤ st_buffer_size (ao_streaming options) → got out acc →
  build_streaming_to_writer (F := F) io_fuel later abandoned entries out options g disk = (Ok tt, out', disk') →
  ∃ prepared data, prepare_archive_options (set_default_budget options) = Ok prepared ∧
    archive_of encodes prepared entries data ∧ got out' (acc ++ data).
Proof.
  intros Hlaws Henc Hgot Hopts Hbuf Hout. unfold build_streaming_to_writer.
  destruct (prepare_archive_options _) as [prepared|] eqn:Ep; [|done].
  assert (0 < st_buffer_size (ao_streaming (po_archive prepared))) as Hbuffer
    by exact (prepared_buffer (set_default_budget options) _ Hbuf Ep).
  specialize (Hopts _ Ep). destruct (spool_placement _) as [threshold dir]. unfold build_streaming_via_spool.
  destruct (AutoSpool_new threshold dir _ disk) as [[spool|] d] eqn:Enew; [|done]. cbn [sw_spool sw_operation] in *.
  destruct (build_streaming_with_prepared_options io_fuel entries spool prepared _) as [built|] eqn:Eb.
  - destruct (built_in_spool io_fuel encodes Henc prepared Hbuffer fcontents fposition files Hlaws _ _ _ _ _ _ _ _ _ Hopts Enew Eb)
      as [_ Harch].
    destruct (copy_spool io_fuel _ built out) as [[res spool2] out2] eqn:Ec.
    unfold finish_spool. destruct (AutoSpool_limit_error spool2); [by destruct (AutoSpool_cleanup spool2)|].
    destruct (AutoSpool_cleanup spool2) as [[[]|] d2]; destruct res as [[]|]; try done. intros [= <- _].
    exists prepared, (spool_contents fcontents built). split_and!; [done|done|].
    exact (copy_spool_delivers io_fuel fcontents fposition files Hlaws got _ _ _ _ _ _ Hgot Hout Ec).
  - unfold finish_spool. destruct (AutoSpool_limit_error (abandoned spool)), (AutoSpool_cleanup (abandoned spool)); by intros [=].
Qed.

(** No spool is left behind: whether the archive is written, a limit stops it, an entry or the
    writer fails, or the operation is cancelled, at the end the directory holds the files it held
    before, even if the writer that failed goes on writing to its spool while it is dropped. *)
Theorem no_spool_left (io_fuel : nat) (later : OperationControl → OperationControl)
    (abandoned : AutoSpool D F → AutoSpool D F) (fcontents : F → bytes) (fposition : F → Z) (files : D → gset (list Z))
    (encodes : EncoderKind → bytes → bytes → Prop)
    (entries : list (list Z * S)) (out : W) (options : ArchiveOptions) (g : G) (disk : D) r out' disk' :
  temp_dir_laws (F := F) fcontents fposition files → encoders_spec encodes → spool_options_ok options →
  0 ≤ st_buffer_size (ao_streaming options) → (∀ spool, rtc (spool_step io_fuel) spool (abandoned spool)) →
  build_streaming_to_writer (F := F) io_fuel later abandoned entries out options g disk = (r, out', disk') →
  files disk' = files disk.
Proof.
  intros Hlaws Henc Hopts Hbuf Hab. unfold build_streaming_to_writer.
  destruct (prepare_archive_options _) as [prepared|] eqn:Ep; [|by intros [= _ _ <-]].
  assert (0 < st_buffer_size (ao_streaming (po_archive prepared))) as Hbuffer
    by exact (prepared_buffer (set_default_budget options) _ Hbuf Ep).
  specialize (Hopts _ Ep). destruct (spool_placement _) as [threshold dir]. unfold build_streaming_via_spool. cbn [sw_spool sw_operation] in *.
  destruct (AutoSpool_new threshold dir _ disk) as [[spool|] d] eqn:Enew.
  2:{ intros [= _ _ <-]. exact (AutoSpool_new_ok _ _ _ Hlaws _ _ _ _ _ _ Hopts Enew). }
  assert (∀ (res : result unit R7zError) spool', spool_ok files (files disk) spool' →
    files (finish_spool res spool').2 = files disk) as Hend.
  { intros res spool' Hok. unfold finish_spool. destruct (AutoSpool_cleanup spool') as [cleaned d2] eqn:Ec.
    exact (proj2 (cleanup_files fcontents fposition files Hlaws _ _ _ _ Hok Ec)). }
  destruct (build_streaming_with_prepared_options io_fuel entries spool prepared _) as [built|e] eqn:Eb.
  - destruct (built_in_spool io_fuel encodes Henc prepared Hbuffer fcontents fposition files Hlaws _ _ _ _ _ _ _ _ _ Hopts Enew Eb)
      as [Hok _].
    destruct (copy_spool io_fuel _ built out) as [[res spool2] out2] eqn:Ec. pose proof (copy_spool_keeps io_fuel files _ _ _ _ _ _ _ Hok Ec) as Hok2.
    specialize (Hend res spool2 Hok2). destruct (finish_spool res spool2). by intros [= _ _ <-].
  - pose proof (proj1 (AutoSpool_new_ok _ _ _ Hlaws _ _ _ _ _ _ Hopts Enew)) as Hok.
    pose proof (spool_steps_ok _ _ _ _ Hlaws _ _ _ Hok (Hab spool)) as Hok2.
    specialize (Hend (Err e) (abandoned spool) Hok2). destruct (finish_spool _ (abandoned spool)). by intros [= _ _ <-].
Qed.

End claims.

(** ** Witnesses *)

#[local] Existing Instances zero_crc counter_cipher flat_hash sample_host sample_encoder_limits storing_encoders no_entropy.

Definition spooled_options (mode : SpoolMode) : ArchiveOptions :=
  {| ao_codec := CodecLzma; ao_header_mode := ao_header_mode sample_options; ao_encryption := None;
     ao_compression := ao_compression sample_options;
     ao_streaming := {| st_control := None; st_buffer_size := 16; st_spool := mode; st_resource_limits := ResourceLimits_default |} |}.

Definition stream_entries (script : list ReadEvent) : list (list Z * ScriptReader) :=
  [([97], {| sr_data := [1; 2; 3]; sr_script := [] |}); ([98], {| sr_data := [4; 5]; sr_script := script |})].

Abbreviation stream_sample mode script :=
  (build_streaming_to_writer (F := FileOutput) 30 id id (stream_entries script) ([0] : bytes) (spooled_options mode) tt sample_taken).

Lemma spooled_options_ok (mode : SpoolMode) :
  (∀ t, (spool_placement mode).1 = Some t → 0 ≤ t < u64_max) → spool_options_ok (spooled_options mode).
Proof.
  intros Hmode prepared. unfold prepare_archive_options. destruct (validate_archive_options _) as [settings|]; [|done].
  intros [= <-]. split_and!; [exact Hmode|by intros l [= <-]|by intros l [= <-]].
Qed.

(** The archive passes forty bytes, so that it is finished on disk. *)
Lemma streamed_archive_delivered_witness :
  ∃ out disk prepared data, stream_sample (SpoolAuto 40 None) [] = (Ok tt, out, disk) ∧
    archive_of (λ _ data stream, stream = data) prepared (stream_entries []) data ∧ out = 0 :: data ∧
    sub_list 32 37 data = [1; 2; 3; 4; 5].
Proof.
  destruct (stream_sample (SpoolAuto 40 None) []) as [[r out] disk] eqn:Es.
  assert ((stream_sample (SpoolAuto 40 None) []).1.1 = Ok tt) as Hr by (vm_compute; reflexivity).
  assert (sub_list 33 38 (stream_sample (SpoolAuto 40 None) []).1.2 = [1; 2; 3; 4; 5]) as Hd by (vm_compute; reflexivity).
  rewrite Es in Hr, Hd. cbn in Hr. subst r.
  destruct (streamed_archive_delivered 30 id id fo_data fo_pos (λ d : name_set, d) _ _ (stream_entries []) ([0] : bytes) [0]
    (spooled_options (SpoolAuto 40 None)) tt sample_taken out disk memory_temp_laws storing_encoders_spec vec_tracked)
    as (prepared & data & _ & Harch & Hout).
  - apply spooled_options_ok. intros t [= <-]. clear Es. by compute.
  - clear Es. done.
  - clear Es. done.
  - exact Es.
  - clear Es. exists out, disk, prepared, data. cbn in Hout. subst out. by split_and!.
Defined.

(** The reader of the second entry is interrupted, which stops the archive; the spool is a file by then. *)
Lemma no_spool_left_witness :
  ∃ e out disk, stream_sample (SpoolTempFile None) [Interrupt] = (Err e, out, disk) ∧ disk = sample_taken.
Proof.
  destruct (stream_sample (SpoolTempFile None) [Interrupt]) as [[r out] disk] eqn:Es.
  assert (is_ok (stream_sample (SpoolTempFile None) [Interrupt]).1.1 = false) as Hr by (vm_compute; reflexivity).
  rewrite Es in Hr. destruct r as [|e]; [discriminate Hr|]. exists e, out, disk. split; [reflexivity|].
  apply (no_spool_left 30 id id fo_data fo_pos (λ d : name_set, d) _ (stream_entries [Interrupt])
    ([0] : bytes) (spooled_options (SpoolTempFile None)) tt sample_taken (Err e) out disk memory_temp_laws storing_encoders_spec).
  - apply spooled_options_ok. intros t [= <-]. clear Es. by compute.
  - clear Es. done.
  - clear Es. done.
  - exact Es.
Defined.
