(* ===== verification/Volumes.v ===== *)
(** * Archives in volumes (src/src/write/mod.rs)

    A finished archive is cut into volumes of the given sizes, the last of which repeats,
    each in a file of its own. *)

From stdpp Require Import base numbers list option strings gmap.
From Stdlib Require Import ZArith Lia.
From S2P Require Import Prelude Folder Error Operation Readers Resources Aes DecoderPlan FolderDecode Headers Archive WriteHeader WriteOptions Writers Lzma2Encoder WriteFolders StreamingFolder FolderWriting ArchiveWriter ArchiveWritten WrittenArchive Copying Spool StreamedOutput.

(** The files volumes are written to: [vd_create] makes a file or empties it, [vd_close]
    is its end. *)
Class VolumeDir (V T : Type) := {
  vd_create : list Z → V → result T IoError * V;
  vd_close : list Z → T → V → V
}.

(** ** Names and numbers *)

Fixpoint push_digits (fuel : nat) (n : Z) (acc : list Z) : list Z :=
  match fuel with
  | O => acc
  | Datatypes.S fuel =>
      let acc := (48 + n mod 10) :: acc in if decide (n / 10 = 0) then acc else push_digits fuel (n / 10) acc
  end.
Definition decimal_digits (n : Z) : list Z := push_digits (Datatypes.S (Z.to_nat (Z.log2 n))) n [].

(** [format!("{}.{:03}", base.display(), index + 1)]. *)
Definition volume_path (base : list Z) (index : Z) : list Z :=
  let digits := decimal_digits (index + 1) in base ++ [46] ++ replicate (3 - length digits) 48 ++ digits.

(** The volumes the sizes give, or what is left after them. *)
Fixpoint count_volumes (remaining count : Z) (volume_sizes : list Z) : Z + Z :=
  match volume_sizes with
  | [] => inr remaining
  | size :: volume_sizes =>
      let count := count + 1 in
      if decide (remaining ≤ size) then inl count else count_volumes (remaining - size) count volume_sizes
  end.

Definition required_volume_count (total_size : Z) (volume_sizes : list Z) : result Z R7zError :=
  match last volume_sizes with
  | None => Err (InvalidOptions "volume options require at least one size")
  | Some last_size =>
      if decide (total_size = 0) then Ok 1 else
      match count_volumes total_size 0 volume_sizes with
      | inl count => Ok count
      | inr remaining =>
          let? count := ok_or (checked_add (zlen volume_sizes) (div_ceil remaining last_size)) Parse in
          ok_or (usize_try_from count) (resource_limit "archive volume count" usize_max)
      end
  end.

Section volumes.
  Context (io_fuel : nat) {V T : Type} `{VolumeDir V T} `{Write T} {R : Type} `{Reader R} `{Seek R}.

(** [X] is what the closure that writes the file borrows. *)
Definition write_volume_file {A X} (path : list Z) (budget : OpenVolumeBudget) (dir : V) (x : X)
    (write : T → X → result A R7zError * T * X) : result A R7zError * OpenVolumeBudget * V * X :=
  match OpenVolumeBudget_charge budget with
  | Err e => (Err e, budget, dir, x)
  | Ok budget =>
      let '(result, dir, x) :=
        match vd_create path dir with
        | (Err e, dir) => (Err (R7zError_from e), dir, x)
        | (Ok file, dir) => let '(result, file, x) := write file x in (result, vd_close path file dir, x)
        end in
      (result, OpenVolumeBudget_release budget, dir, x)
  end.

(** A volume: the byte that was read ahead, then the rest of its size. *)
Definition fill_volume (next : bytes) (remaining : Z) (file : T) (x : R * OperationMonitor) :
    result Z R7zError * T * (R * OperationMonitor) :=
  let '(archive, monitor) := x in
  match io_write_all io_fuel file next with
  | (Err e, file) => (Err (R7zError_from e), file, (archive, monitor))
  | (Ok _, file) =>
      let '(copied, monitor, archive, file) :=
        OperationMonitor_copy_to io_fuel monitor {| tk_inner := archive; tk_limit := remaining |} file in
      let archive := tk_inner archive in
      match copied with
      | Err e => (Err e, file, (archive, monitor))
      | Ok copied =>
          match w_flush file with
          | (Err e, file) => (Err (R7zError_from e), file, (archive, monitor))
          | (Ok _, file) =>
              let '(checked, monitor) := OperationMonitor_check monitor in
              (let? _ := checked in Ok copied, file, (archive, monitor))
          end
      end
  end.

Definition volume_size (volume_sizes : list Z) (volume_index : Z) : Z :=
  default 0 (get (Z.min volume_index (zlen volume_sizes - 1)) volume_sizes).

(** [fuel] is the number of volumes that are required. *)
Fixpoint write_volumes (fuel : nat) (archive : R) (base : list Z) (volume_sizes : list Z) (budget : OpenVolumeBudget)
    (monitor : OperationMonitor) (dir : V) (next : bytes) (volume_index : Z) (paths : list (list Z)) :
    result (list (list Z)) R7zError * R * V :=
  match fuel with
  | O => (Err R7zOutOfFuel, archive, dir)
  | Datatypes.S fuel =>
      let path := volume_path base volume_index in
      let remaining := volume_size volume_sizes volume_index - 1 in
      let '(copied, budget, dir, (archive, monitor)) :=
        write_volume_file path budget dir (archive, monitor) (fill_volume next remaining) in
      match copied with
      | Err e => (Err e, archive, dir)
      | Ok copied =>
          let paths := paths ++ [path] in
          if decide (copied < remaining) then (Ok paths, archive, dir) else
          match OperationMonitor_read monitor archive 1 with
          | (Err e, _, archive) => (Err e, archive, dir)
          | (Ok [], _, archive) => (Ok paths, archive, dir)
          | (Ok next, monitor, archive) =>
              write_volumes fuel archive base volume_sizes budget monitor dir next (volume_index + 1) paths
          end
      end
  end.

Definition write_volume_files (archive : R) (base : list Z) (volume_sizes : list Z) (open_volume_budget : OpenVolumeBudget)
    (volume_count_budget : VolumeCountBudget) (monitor : OperationMonitor) (dir : V) :
    result (list (list Z)) R7zError * R * V :=
  match OperationMonitor_check monitor with
  | (Err e, _) => (Err e, archive, dir)
  | (Ok _, monitor) =>
  match w_seek archive (SeekEnd 0) with
  | (Err e, archive) => (Err (R7zError_from e), archive, dir)
  | (Ok total_size, archive) =>
  match (let? count := required_volume_count total_size volume_sizes in
         let? _ := VolumeCountBudget_charge volume_count_budget count in Ok count) with
  | Err e => (Err e, archive, dir)
  | Ok volume_count =>
  match w_seek archive (SeekStart 0) with
  | (Err e, archive) => (Err (R7zError_from e), archive, dir)
  | (Ok _, archive) =>
  match OperationMonitor_read monitor archive 1 with
  | (Err e, _, archive) => (Err e, archive, dir)
  | (Ok [], _, archive) =>
      let path := volume_path base 0 in
      let '(written, _, dir, _) := write_volume_file path open_volume_budget dir tt (λ file x, (Ok tt, file, x)) in
      (let? _ := written in Ok [path], archive, dir)
  | (Ok next, monitor, archive) =>
      write_volumes (Z.to_nat volume_count) archive base volume_sizes open_volume_budget monitor dir next 0 []
  end end end end end.

End volumes.

(** ** The whole *)

Section whole.
  Context `{Crc32} `{BlockCipher} `{Sha256} `{Host} `{EncoderLimits} `{Encoders} {G : Type} `{Entropy G}.
  Context (io_fuel : nat) {D F : Type} `{TempDir D F} `{Write F} `{Seek F} `{Reader F}.
  Context {V T : Type} `{VolumeDir V T} `{Write T} {S : Type} `{Reader S}.
  Context (later : OperationControl → OperationControl) (abandoned : AutoSpool D F → AutoSpool D F).
#[local] Instance volumes_spool_write : Write (AutoSpool D F) := AutoSpool_Write io_fuel.

Definition build_streaming_volumes (entries : list (list Z * S)) (base_path : list Z) (archive_options : ArchiveOptions)
    (sizes : list Z) (g : G) (disk : D) (dir : V) : result (list (list Z)) R7zError * D * V :=
  if decide (sizes = []) then (Err (InvalidOptions "volume options require at least one size"), disk, dir) else
  match prepare_archive_options (set_default_budget archive_options) with
  | Err e => (Err e, disk, dir)
  | Ok prepared =>
      let budgets := writer_budgets prepared in
      let '(memory_threshold, spool_dir) := spool_placement (st_spool (ao_streaming (po_archive prepared))) in
      match AutoSpool_new memory_threshold spool_dir (wb_spool budgets) disk with
      | (Err e, disk) => (Err e, disk, dir)
      | (Ok archive, _) =>
          let '(result, archive, dir) :=
            match build_streaming_with_prepared_options io_fuel entries archive prepared
                    {| wc_operation := wb_operation budgets; wc_entropy := g |} with
            | Err e => (Err e, abandoned archive, dir)
            | Ok archive =>
                write_volume_files io_fuel archive base_path sizes (wb_open_volumes budgets) (wb_volume_count budgets)
                  (output_monitor later prepared) dir
            end in
          let '(result, disk) := finish_spool result archive in (result, disk, dir)
      end
  end.

End whole.
