(* ===== verification/VolumesWritten.v ===== *)
(** * What volumes hold

    The volumes of an archive are its contents cut at the sizes that were asked for: as
    many as were counted beforehand, and together the archive again. *)

From stdpp Require Import base numbers list option strings gmap.
From Stdlib Require Import ZArith Lia.
From S2P Require Import Prelude Parsers Method Folder Error Operation Readers Resources Aes DecoderPlan DecoderRun FolderDecode Headers ArchiveSource Archive WriteHeader WriteOptions Writers Lzma2Encoder WriteFolders StreamingFolder FolderWriting ArchiveWriter ArchiveWritten WrittenArchive ArchiveBuilder Copying Spool Spooled StreamedOutput Volumes.

(** ** The reference *)

(** The data cut into volumes from one of them on; an empty archive has one volume. *)
Fixpoint cut_volumes (fuel : nat) (sizes : list Z) (index : Z) (data : bytes) : list bytes :=
  match fuel with
  | O => []
  | Datatypes.S fuel =>
      let size := Z.to_nat (volume_size sizes index) in
      take size data ::
      match drop size data with
      | [] => []
      | rest => cut_volumes fuel sizes (index + 1) rest
      end
  end.
Definition volumes_of (sizes : list Z) (index : Z) (data : bytes) : list bytes :=
  cut_volumes (Datatypes.S (length data)) sizes index data.

Section cut.
  Context (sizes : list Z) (Hsizes : Forall (λ size, 0 < size) sizes) (Hne : sizes ≠ []).

Lemma sizes_length : 0 < zlen sizes.
Proof. clear Hsizes. destruct sizes as [|x l]; [done|]. rewrite zlen_cons. pose proof (zlen_nonneg l). lia. Qed.

Lemma volume_size_lookup index :
  0 ≤ index → ∃ size, volume_size sizes index = size ∧ 0 < size ∧
    sizes !! Z.to_nat (Z.min index (zlen sizes - 1)) = Some size.
Proof.
  intros Hi. pose proof sizes_length. unfold volume_size, get.
  destruct (lookup_lt_is_Some_2 sizes (Z.to_nat (Z.min index (zlen sizes - 1)))) as [size Hs]; [unfold zlen in *; lia|].
  exists size. split_and!; [|by eapply (Forall_lookup_1 _ _ _ _ Hsizes)|done].
  rewrite decide_True by lia. by rewrite Hs.
Qed.

Lemma volume_size_pos index : 0 ≤ index → 0 < volume_size sizes index.
Proof. intros Hi. by destruct (volume_size_lookup index Hi) as (? & -> & ? & _). Qed.

Lemma cut_fuel f g index data :
  0 ≤ index → (length data < f)%nat → (length data < g)%nat → cut_volumes f sizes index data = cut_volumes g sizes index data.
Proof.
  revert g index data. induction f as [|f IH]; intros [|g] index data Hi Hf Hg; try lia. cbn [cut_volumes]. f_equal.
  pose proof (volume_size_pos index Hi) as Hp. destruct (drop _ data) as [|x rest] eqn:Ed; [done|].
  apply (f_equal length) in Ed. rewrite length_drop in Ed. cbn in Ed. apply IH; cbn; lia.
Qed.

Lemma volumes_of_cons index data :
  0 ≤ index → volumes_of sizes index data =
    take (Z.to_nat (volume_size sizes index)) data ::
    match drop (Z.to_nat (volume_size sizes index)) data with [] => [] | rest => volumes_of sizes (index + 1) rest end.
Proof.
  intros Hi. unfold volumes_of at 1. cbn [cut_volumes]. f_equal. pose proof (volume_size_pos index Hi) as Hp.
  destruct (drop _ data) as [|x rest] eqn:Ed; [done|]. apply (f_equal length) in Ed. rewrite length_drop in Ed.
  apply cut_fuel; cbn in *; lia.
Qed.

(** Induction on the data that is left. *)
Lemma volumes_ind (P : Z → bytes → list bytes → Prop) :
  (∀ index data, 0 ≤ index → drop (Z.to_nat (volume_size sizes index)) data = [] → P index data [data]) →
  (∀ index data rest parts, 0 ≤ index → zlen data = volume_size sizes index → rest ≠ [] →
    P (index + 1) rest parts → P index (data ++ rest) (data :: parts)) →
  ∀ index data, 0 ≤ index → P index data (volumes_of sizes index data).
Proof.
  intros Hlast Hmore index data. remember (length data) as n eqn:Hn. revert index data Hn.
  induction (lt_wf n) as [n _ IH]; intros index data -> Hi. rewrite volumes_of_cons by done.
  pose proof (volume_size_pos index Hi) as Hp. set (size := Z.to_nat (volume_size sizes index)) in *.
  destruct (drop size data) as [|x rest] eqn:Ed.
  - rewrite take_ge; [by apply Hlast|]. apply (f_equal length) in Ed. rewrite length_drop in Ed. cbn in Ed. lia.
  - assert (length (x :: rest) = length data - size)%nat as Hl by (by rewrite <- Ed, length_drop).
    rewrite <- (take_drop size data) at 1. rewrite Ed. apply Hmore; [done| |done|].
    + unfold zlen. rewrite length_take. cbn in Hl. unfold size in *. lia.
    + eapply IH; [|reflexivity|lia]. cbn in Hl |- *. lia.
Qed.

Lemma volumes_concat index data : 0 ≤ index → concat (volumes_of sizes index data) = data.
Proof.
  revert index data. apply (volumes_ind (λ _ data parts, concat parts = data)).
  - intros index data _ _. cbn. by rewrite app_nil_r.
  - intros index data rest parts _ _ _ IH. cbn. by rewrite IH.
Qed.

(** Every volume but the last has its size; the last is not longer. *)
Lemma volumes_sized index data i part :
  0 ≤ index → volumes_of sizes index data !! i = Some part →
  zlen part ≤ volume_size sizes (index + Z.of_nat i) ∧
  ((S i < length (volumes_of sizes index data))%nat → zlen part = volume_size sizes (index + Z.of_nat i)) ∧
  (data ≠ [] → part ≠ []).
Proof.
  intros Hi. revert i part. pattern index, data, (volumes_of sizes index data). apply volumes_ind; [| |done].
  - clear data index Hi. intros index data Hi Hd i part Hp. pose proof (volume_size_pos index Hi). apply list_lookup_singleton_Some in Hp as [-> <-]. rewrite Z.add_0_r.
    apply (f_equal length) in Hd. rewrite length_drop in Hd. cbn in Hd. split_and!; [unfold zlen; lia|cbn; lia|done].
  - clear data index Hi. intros index data rest parts Hi Hz Hrest IH [|i] part Hp; cbn in Hp.
    + injection Hp as <-. rewrite Z.add_0_r. split_and!; [lia|done|]. intros _ ->. pose proof (volume_size_pos index Hi).
      rewrite zlen_nil in Hz. lia.
    + destruct (IH i part Hp) as (H1 & H2 & H3). replace (index + Z.of_nat (S i)) with (index + 1 + Z.of_nat i) by lia.
      split_and!; [done| |by intros _; apply H3]. intros Hl. apply H2. cbn in Hl. lia.
Qed.

(** ** Counting *)

Lemma volume_size_at pre size suffix : sizes = pre ++ size :: suffix → volume_size sizes (zlen pre) = size.
Proof.
  intros Heq. pose proof (zlen_nonneg pre). destruct (volume_size_lookup (zlen pre) ltac:(lia)) as (size' & -> & _ & Hl).
  rewrite Heq in Hl at 2. rewrite Z.min_l in Hl by (rewrite Heq, zlen_app, zlen_cons; pose proof (zlen_nonneg suffix); lia).
  rewrite to_nat_zlen, list_lookup_middle in Hl by done. by injection Hl.
Qed.

Lemma volume_size_last index last_size : last sizes = Some last_size → zlen sizes - 1 ≤ index → volume_size sizes index = last_size.
Proof.
  intros Hlast Hi. pose proof sizes_length. destruct (volume_size_lookup index ltac:(lia)) as (size & -> & _ & Hl).
  rewrite last_lookup in Hlast. replace (Z.to_nat (Z.min index (zlen sizes - 1))) with (pred (length sizes)) in Hl by (unfold zlen in *; lia).
  congruence.
Qed.

Lemma div_ceil_one n d : 0 < n ≤ d → div_ceil n d = 1.
Proof. intros Hn. unfold div_ceil. symmetry. apply Z.div_unique with (n - 1); lia. Qed.

Lemma div_ceil_more n d : 0 < d → div_ceil (d + n) d = 1 + div_ceil n d.
Proof. intros Hd. unfold div_ceil. replace (d + n + d - 1) with (n + d - 1 + 1 * d) by lia. rewrite Z.div_add by lia. lia. Qed.

Lemma count_tail last_size index data :
  last sizes = Some last_size → 0 ≤ index → zlen sizes - 1 ≤ index → data ≠ [] →
  zlen (volumes_of sizes index data) = div_ceil (zlen data) last_size.
Proof.
  intros Hlast. revert index data. assert (∀ index data, 0 ≤ index → zlen sizes - 1 ≤ index → data ≠ [] →
    zlen (volumes_of sizes index data) = div_ceil (zlen data) last_size) as Hc; [|done].
  apply (volumes_ind (λ index data parts, zlen sizes - 1 ≤ index → data ≠ [] → zlen parts = div_ceil (zlen data) last_size)).
  - intros index data Hi Hd Hl Hdata. pose proof (volume_size_pos index Hi) as Hp. rewrite (volume_size_last _ _ Hlast Hl) in *.
    apply (f_equal length) in Hd. rewrite length_drop in Hd. rewrite div_ceil_one; [done|].
    assert (length data ≠ 0)%nat by (by destruct data). cbn in Hd. unfold zlen. lia.
  - intros index data rest parts Hi Hz Hrest IH Hl _. pose proof (volume_size_pos index Hi) as Hp.
    rewrite (volume_size_last _ _ Hlast Hl) in *. rewrite zlen_cons, zlen_app, Hz, div_ceil_more by done. rewrite IH; [done|lia|done].
Qed.

Lemma count_volumes_spec last_size pre suffix data :
  last sizes = Some last_size → sizes = pre ++ suffix → data ≠ [] →
  match count_volumes (zlen data) (zlen pre) suffix with
  | inl count => count = zlen pre + zlen (volumes_of sizes (zlen pre) data)
  | inr remaining => zlen (volumes_of sizes (zlen pre) data) = zlen suffix + div_ceil remaining last_size
  end.
Proof.
  intros Hlast. revert pre data. induction suffix as [|size suffix IH]; intros pre data Heq Hdata; cbn [count_volumes].
  { rewrite app_nil_r in Heq. subst pre. rewrite zlen_nil. pose proof (zlen_nonneg sizes).
    rewrite (count_tail last_size) by (done || lia). lia. }
  pose proof (zlen_nonneg pre). assert (0 < size) as Hpos by (rewrite <- (volume_size_at _ _ _ Heq); apply volume_size_pos; lia).
  rewrite volumes_of_cons, (volume_size_at _ _ _ Heq) by done. case_decide as Hle.
  - rewrite drop_ge by (unfold zlen in *; lia). rewrite zlen_cons, zlen_nil. lia.
  - destruct (drop (Z.to_nat size) data) as [|x rest] eqn:Ed.
    { apply (f_equal length) in Ed. rewrite length_drop in Ed. cbn in Ed. unfold zlen in *. lia. }
    assert (zlen data - size = zlen (x :: rest)) as -> by (rewrite <- Ed; unfold zlen in *; rewrite length_drop; lia).
    specialize (IH (pre ++ [size]) (x :: rest)). rewrite zlen_app in IH. change (zlen [size]) with 1 in IH.
    rewrite <- app_assoc in IH. specialize (IH Heq ltac:(done)).
    destruct (count_volumes _ _ suffix); rewrite IH || rewrite zlen_cons, IH; rewrite !zlen_cons; lia.
Qed.

Lemma required_count_sound data count :
  required_volume_count (zlen data) sizes = Ok count → count = zlen (volumes_of sizes 0 data).
Proof.
  unfold required_volume_count. destruct (last sizes) as [last_size|] eqn:Hlast; [|done].
  destruct (decide (zlen data = 0)) as [Hz|Hz].
  { assert (data = []) as -> by (apply nil_length_inv; unfold zlen in Hz; lia). rewrite volumes_of_cons, take_nil, drop_nil by lia.
    by intros [= <-]. }
  assert (data ≠ []) as Hd by (by intros ->). pose proof (count_volumes_spec last_size [] sizes data Hlast eq_refl Hd) as Hc.
  rewrite zlen_nil in Hc. destruct (count_volumes _ _ sizes) as [n|remaining]; [intros [= <-]; lia|].
  destruct (checked_add _ _) as [n|] eqn:Ea; [|done]. apply checked_add_some in Ea as ->. cbn [ok_or].
  unfold usize_try_from. case_decide; [|done]. intros [= <-]. lia.
Qed.

Lemma required_count_spec data :
  zlen sizes + zlen data ≤ usize_max → required_volume_count (zlen data) sizes = Ok (zlen (volumes_of sizes 0 data)).
Proof.
  intros Hmax. unfold required_volume_count. pose proof sizes_length. destruct (last sizes) as [last_size|] eqn:Hlast.
  2:{ apply last_None in Hlast. done. }
  destruct (decide (zlen data = 0)) as [Hz|Hz].
  { assert (data = []) as -> by (apply nil_length_inv; unfold zlen in Hz; lia). rewrite volumes_of_cons, take_nil, drop_nil by lia. done. }
  assert (data ≠ []) as Hd by (by intros ->). pose proof (count_volumes_spec last_size [] sizes data Hlast eq_refl Hd) as Hc.
  rewrite zlen_nil in Hc. destruct (count_volumes _ _ sizes) as [count|remaining]; [by rewrite Hc, Z.add_0_l|].
  assert (zlen (volumes_of sizes 0 data) ≤ zlen data) as Hle.
  { rewrite <- (volumes_concat 0 data) at 2 by lia. pose proof (λ i part, volumes_sized 0 data i part ltac:(lia)) as Hs.
    assert (Forall (λ part, part ≠ []) (volumes_of sizes 0 data)) as Hall.
    { apply Forall_lookup. intros i part Hp. by apply (Hs i part Hp). }
    clear -Hall. induction Hall as [|part parts Hp _ IH]; [done|]. cbn [concat]. rewrite zlen_cons, zlen_app.
    assert (0 < zlen part) by (destruct part; [done|rewrite zlen_cons; pose proof (zlen_nonneg part); lia]). lia. }
  unfold checked_add, usize_try_from. rewrite <- Hc. pose proof (zlen_nonneg (volumes_of sizes 0 data)).
  rewrite decide_True by lia. cbn [ok_or]. rewrite decide_True by lia. done.
Qed.

End cut.

(** ** The names of volumes *)

Definition digits_value (digits : list Z) : Z := fold_left (λ acc c, 10 * acc + (c - 48)) digits 0.

Lemma digits_value_from digits acc :
  fold_left (λ acc c, 10 * acc + (c - 48)) digits acc = acc * 10 ^ zlen digits + digits_value digits.
Proof.
  unfold digits_value. revert acc. induction digits as [|c digits IH]; intros acc.
  { cbn. rewrite zlen_nil. lia. }
  cbn [fold_left]. rewrite IH, (IH (10 * 0 + (c - 48))), zlen_cons, Z.pow_add_r by (pose proof (zlen_nonneg digits); lia). lia.
Qed.

Lemma push_digits_value fuel n acc :
  0 ≤ n < 10 ^ Z.of_nat fuel → (0 < fuel)%nat → digits_value (push_digits fuel n acc) = n * 10 ^ zlen acc + digits_value acc.
Proof.
  revert n acc. induction fuel as [|fuel IH]; intros n acc Hn Hf; [lia|]. cbn [push_digits].
  assert (digits_value ((48 + n mod 10) :: acc) = n mod 10 * 10 ^ zlen acc + digits_value acc) as Hv.
  { unfold digits_value at 1. cbn [fold_left]. rewrite digits_value_from. f_equal. f_equal. lia. }
  pose proof (Z.div_mod n 10 ltac:(lia)) as Hdm. case_decide as Hz.
  - rewrite Hv. f_equal. f_equal. lia.
  - rewrite Nat2Z.inj_succ, Z.pow_succ_r in Hn by lia. assert (n / 10 < 10 ^ Z.of_nat fuel) by (apply Z.div_lt_upper_bound; lia).
    pose proof (Z.div_pos n 10 ltac:(lia) ltac:(lia)).
    rewrite IH, Hv, zlen_cons, Z.pow_add_r; [|pose proof (zlen_nonneg acc); lia..|destruct fuel; [cbn in *; lia|lia]].
    rewrite Hdm at 3. lia.
Qed.

Lemma decimal_digits_value n : 0 ≤ n → digits_value (decimal_digits n) = n.
Proof.
  intros Hn. unfold decimal_digits. rewrite push_digits_value; [|split; [done|]|lia].
  - rewrite zlen_nil. change (digits_value []) with 0. lia.
  - destruct (decide (n = 0)) as [->|]; [done|]. pose proof (Z.log2_spec n ltac:(lia)) as [_ Hl].
    rewrite Nat2Z.inj_succ, Z2Nat.id by apply Z.log2_nonneg. eapply Z.lt_le_trans; [exact Hl|].
    apply Z.pow_le_mono_l. lia.
Qed.

Lemma volume_path_inj base i j : 0 ≤ i → 0 ≤ j → volume_path base i = volume_path base j → i = j.
Proof.
  intros Hi Hj Heq. unfold volume_path in Heq. apply app_inv_head in Heq. apply (app_inv_head [46]) in Heq.
  assert (∀ k digits, digits_value (replicate k 48 ++ digits) = digits_value digits) as Hpad.
  { intros k digits. induction k as [|k IH]; [done|]. unfold digits_value in *. cbn. exact IH. }
  apply (f_equal digits_value) in Heq. rewrite !Hpad, !decimal_digits_value in Heq by lia. lia.
Qed.

(** ** Writing *)

(** What may be relied on of the files of volumes: a new file is empty, and what it got is
    what is found under its name when it is closed. *)
Record volume_dir_laws {V T} `{VolumeDir V T} `{Write T} (got : T → bytes → Prop) (stored : V → gmap (list Z) bytes) : Prop := {
  vl_tracked : tracked got;
  vl_created : ∀ p v t v', vd_create p v = (Ok t, v') → got t [] ∧ ∀ q, q ≠ p → stored v' !! q = stored v !! q;
  vl_closed : ∀ p t d v, got t d → stored (vd_close p t v) = <[p := d]> (stored v)
}.

Section written.
  Context (io_fuel : nat) {V T : Type} `{VolumeDir V T} `{Write T} {R : Type} `{Reader R} `{Seek R}.
  Context (got : T → bytes → Prop) (stored : V → gmap (list Z) bytes) (Hdir : volume_dir_laws got stored).
  Context (I : R → bytes → Prop) (HI : giving I).

Lemma fill_volume_spec next remaining file archive m rest copied file' archive' m' :
  0 ≤ remaining → I archive rest → got file [] →
  fill_volume io_fuel next remaining file (archive, m) = (Ok copied, file', (archive', m')) →
  I archive' (drop (Z.to_nat remaining) rest) ∧ got file' (next ++ take (Z.to_nat remaining) rest) ∧
  copied = zlen (take (Z.to_nat remaining) rest).
Proof.
  intros Hr Ha Hf. unfold fill_volume. pose proof (vl_tracked _ _ Hdir) as Ht.
  destruct (io_write_all io_fuel file next) as [[[]|] file1] eqn:Ew; [|done].
  pose proof (write_all_tracked got Ht _ _ _ _ _ Hf Ew) as Hf1.
  destruct (OperationMonitor_copy_to io_fuel m _ file1) as [[[[n|] m1] t1] file2] eqn:Ec; [|done].
  destruct (copy_to_gives io_fuel _ (take_giving I (drop (Z.to_nat remaining) rest) HI) got Ht _ _ _ _ _ _ _ _ _
    (take_left_intro I archive remaining rest Hr Ha) Hf1 Ec) as ([Ha' _] & Hf2 & ->).
  destruct (w_flush file2) as [[[]|] file3] eqn:Ef; [|done]. destruct (OperationMonitor_check m1) as [[[]|] m2]; [|done].
  intros [= <- <- <- _]. split_and!; [exact Ha'| |done]. by apply (tr_flush _ Ht _ _ _ Hf2).
Qed.

(** A volume that was written is stored; nothing else changes. *)
Lemma write_volume_file_spec {A X} path budget dir (x : X) (write : T → X → result A R7zError * T * X) a budget' dir' x' :
  write_volume_file path budget dir x write = (Ok a, budget', dir', x') →
  ∃ file file', got file [] ∧ write file x = (Ok a, file', x') ∧
    ∀ d, got file' d → stored dir' !! path = Some d ∧ ∀ q, q ≠ path → stored dir' !! q = stored dir !! q.
Proof.
  unfold write_volume_file. destruct (OpenVolumeBudget_charge budget) as [b|]; [|done].
  destruct (vd_create path dir) as [[file|] dir1] eqn:Ec; [|done]. destruct (vl_created _ _ Hdir _ _ _ _ Ec) as [Hf Hq].
  destruct (write file x) as [[res file'] x1] eqn:Ew. intros [= -> _ <- <-]. exists file, file'. split_and!; [done|done|].
  intros d Hd. rewrite (vl_closed _ _ Hdir _ _ _ _ Hd). split; [by rewrite lookup_insert_eq|].
  intros q Hne. rewrite lookup_insert_ne by done. by apply Hq.
Qed.

(** The names of some volumes in a row. *)
Definition volume_paths (base : list Z) (index : Z) (count : nat) : list (list Z) :=
  map (λ i, volume_path base (index + Z.of_nat i)) (seq 0 count).

Lemma volume_paths_succ base index count :
  volume_paths base index (Datatypes.S count) = volume_path base index :: volume_paths base (index + 1) count.
Proof.
  unfold volume_paths. cbn [seq map]. rewrite Z.add_0_r, <- seq_shift, map_map. f_equal. apply map_ext. intros i. f_equal. lia.
Qed.

Lemma volume_path_later base index count : 0 ≤ index → volume_path base index ∉ volume_paths base (index + 1) count.
Proof.
  intros Hi Hin. unfold volume_paths in Hin. apply list_elem_of_fmap in Hin as (i & Heq & _). apply volume_path_inj in Heq; lia.
Qed.

(** The names and contents of volumes, and nothing else changed. *)
Definition volumes_stored (paths : list (list Z)) (parts : list bytes) (before after : gmap (list Z) bytes) : Prop :=
  Forall2 (λ path part, after !! path = Some part) paths parts ∧ ∀ q, q ∉ paths → after !! q = before !! q.

Lemma volumes_stored_one path part before after :
  after !! path = Some part → (∀ q, q ≠ path → after !! q = before !! q) → volumes_stored [path] [part] before after.
Proof. intros Ha Hq. split; [by repeat constructor|]. intros q Hne. apply Hq. intros ->. apply Hne. by left. Qed.

Lemma volumes_stored_cons path part paths parts v1 v2 v3 :
  path ∉ paths → volumes_stored [path] [part] v1 v2 → volumes_stored paths parts v2 v3 →
  volumes_stored (path :: paths) (part :: parts) v1 v3.
Proof.
  intros Hp [Hs1 Hq1] [Hs2 Hq2]. apply Forall2_cons in Hs1 as [Hs1 _]. split.
  - constructor; [|done]. by rewrite Hq2.
  - intros q Hq. rewrite not_elem_of_cons in Hq. destruct Hq as [Hne Hn]. rewrite Hq2, Hq1; [done| |done].
    intros Hin. apply list_elem_of_singleton in Hin. done.
Qed.

Context (sizes : list Z) (Hsizes : Forall (λ size, 0 < size) sizes) (Hne : sizes ≠ []).

Lemma write_volumes_spec fuel archive base budget m dir next index paths rest out archive' dir' :
  0 ≤ index → zlen next = 1 → I archive rest →
  write_volumes io_fuel fuel archive base sizes budget m dir next index paths = (Ok out, archive', dir') →
  let parts := volumes_of sizes index (next ++ rest) in
  out = paths ++ volume_paths base index (length parts) ∧
  volumes_stored (volume_paths base index (length parts)) parts (stored dir) (stored dir').
Proof.
  revert archive budget m dir next index paths rest. induction fuel as [|fuel IH];
    intros archive budget m dir next index paths rest Hi Hn Ha; cbn [write_volumes]; [done|].
  pose proof (volume_size_pos sizes Hsizes Hne index Hi) as Hp. set (size := volume_size sizes index) in *.
  destruct (write_volume_file _ budget dir _ _) as [[[[copied|] budget1] dir1] [archive1 m1]] eqn:Ew; [|done].
  apply write_volume_file_spec in Ew as (file & file' & Hf & Hfill & Hst).
  assert (0 ≤ size - 1) as Hr by lia.
  destruct (fill_volume_spec _ _ _ _ _ _ _ _ _ _ Hr Ha Hf Hfill) as (Ha1 & Hf' & ->).
  destruct (Hst _ Hf') as [Hpart Hother]. clear Hst Hf Hfill Hf'.
  assert (Z.to_nat size = length next + Z.to_nat (size - 1))%nat as Hsz by (unfold zlen in Hn; lia).
  cbn zeta. rewrite (volumes_of_cons sizes Hsizes Hne) by done. fold size. rewrite Hsz, take_app_add, drop_app_add.
  set (part := next ++ take _ rest) in *. pose proof (volumes_stored_one _ _ _ _ Hpart Hother) as Hone.
  assert (drop (Z.to_nat (size - 1)) rest = [] → volumes_stored (volume_paths base index 1) [part] (stored dir) (stored dir1)) as Hlast
    by (intros _; unfold volume_paths; cbn; by rewrite Z.add_0_r).
  assert (paths ++ [volume_path base index] = paths ++ volume_paths base index 1) as Hpath
    by (unfold volume_paths; cbn; by rewrite Z.add_0_r).
  destruct (decide (zlen (take _ rest) < size - 1)) as [Hshort|_].
  { assert (drop (Z.to_nat (size - 1)) rest = []) as Hd
      by (apply drop_ge; unfold zlen in Hshort; rewrite length_take in Hshort; lia).
    intros [= <- _ <-]. rewrite Hd. by split; [|apply Hlast]. }
  destruct (OperationMonitor_read m1 archive1 1) as [[[c|] m2] archive2] eqn:Er; [|done].
  destruct (monitor_read_gives I HI _ _ _ 1 _ _ _ eq_refl Ha1 Er) as (rest2 & Hd & Hc & He & Ha2). destruct c as [|x c].
  - specialize (He eq_refl). intros [= <- _ <-]. rewrite He. by split; [|apply Hlast].
  - assert (c = []) as -> by (apply nil_length_inv; unfold zlen in Hc; cbn in Hc; lia). intros Hrec.
    destruct (IH _ _ _ _ [x] (index + 1) _ rest2 ltac:(lia) eq_refl Ha2 Hrec) as [-> Hrest]. rewrite Hd.
    cbn [app length] in *. rewrite volume_paths_succ, <- app_assoc. split; [done|].
    eapply volumes_stored_cons; [by apply volume_path_later|exact Hone|exact Hrest].
Qed.

(** An archive cut into volumes. *)
Lemma write_volume_files_spec (contents : R → bytes) (position : R → Z) archive base open count m dir out archive' dir' :
  reading_laws contents position → I = file_left contents position →
  write_volume_files io_fuel archive base sizes open count m dir = (Ok out, archive', dir') →
  let parts := volumes_of sizes 0 (contents archive) in
  out = volume_paths base 0 (length parts) ∧ volumes_stored out parts (stored dir) (stored dir') ∧
  ∃ count', VolumeCountBudget_charge count (zlen parts) = Ok count'.
Proof.
  intros Hl HeqI. unfold write_volume_files. destruct (OperationMonitor_check m) as [[[]|] m1]; [|done].
  destruct (w_seek archive (SeekEnd 0)) as [[total|] a1] eqn:E1; [|done]. destruct (rl_end _ _ Hl _ _ _ E1) as [Hc1 ->].
  destruct (required_volume_count _ sizes) as [n|] eqn:En; [|done]. apply (required_count_sound sizes Hsizes Hne) in En as ->.
  destruct (VolumeCountBudget_charge count _) as [count'|] eqn:Ec; [|done].
  destruct (w_seek a1 (SeekStart 0)) as [[p|] a2] eqn:E2; [|done]. destruct (rl_start _ _ Hl _ _ _ _ E2) as [Hc2 Hp2].
  assert (I a2 (contents archive)) as Ha2 by (rewrite HeqI; split; rewrite Hp2; [done|by rewrite Hc2, Hc1]).
  destruct (OperationMonitor_read m1 a2 1) as [[[c|] m2] a3] eqn:E3; [|done].
  destruct (monitor_read_gives I HI _ _ _ 1 _ _ _ eq_refl Ha2 E3) as (rest & Hd & Hc & He & Ha3). cbn zeta.
  destruct c as [|x c].
  - specialize (He eq_refl). rewrite He.
    destruct (write_volume_file _ open dir tt _) as [[[[[]|] b] dir1] u] eqn:Ew; [|done]. intros [= <- _ <-].
    apply write_volume_file_spec in Ew as (file & file' & Hf & [= <- _] & Hst). destruct (Hst _ Hf) as [Hpart Hother].
    assert (volumes_of sizes 0 [] = [[]]) as Hnil by (by rewrite (volumes_of_cons sizes Hsizes Hne), take_nil, drop_nil).
    rewrite Hnil. unfold volume_paths. cbn [length seq map]. split_and!; [done| |by eexists].
    by apply volumes_stored_one.
  - assert (c = []) as -> by (apply nil_length_inv; unfold zlen in Hc; cbn in Hc; lia). intros Hr.
    destruct (write_volumes_spec _ _ _ _ _ _ [x] 0 [] rest _ _ _ (Z.le_refl 0) eq_refl Ha3 Hr) as [-> Hst].
    rewrite Hd. split_and!; [done|exact Hst|by eexists].
Qed.

End written.

(** What reads and seeks keep of an archive, cutting it keeps. *)
Section volumes_kept.
  Context (io_fuel : nat) {V T : Type} `{VolumeDir V T} `{Write T} {R : Type} `{Reader R} `{Seek R} (P : R → Prop).
  Context (Hread : ∀ s n r s', P s → reader_read s n = (r, s') → P s').
  Context (Hseek : ∀ s p r s', P s → w_seek s p = (r, s') → P s').

Lemma take_keeps (t : Take R) n r t' : P (tk_inner t) → reader_read t n = (r, t') → P (tk_inner t').
Proof.
  intros Ht. unfold reader_read at 1, Take_read. case_decide; [by intros [= _ <-]|].
  destruct (reader_read (tk_inner t) _) as [[c|e] s] eqn:Er; pose proof (Hread _ _ _ _ Ht Er); by intros [= _ <-].
Qed.

Lemma fill_volume_keeps next remaining (file : T) archive m r file' archive' m' :
  P archive → fill_volume io_fuel next remaining file (archive, m) = (r, file', (archive', m')) → P archive'.
Proof.
  intros Ha. unfold fill_volume. destruct (io_write_all io_fuel file next) as [[[]|] file1]; [|by intros [= _ _ <- _]].
  destruct (OperationMonitor_copy_to io_fuel m _ file1) as [[[res m1] t1] file2] eqn:Ec.
  assert (P (tk_inner t1)) as Ht1 by (eapply (copy_to_keeps io_fuel (λ t, P (tk_inner t))); [apply take_keeps| |exact Ec]; done).
  destruct res; [|by intros [= _ _ <- _]]. destruct (w_flush file2) as [[[]|] file3]; [|by intros [= _ _ <- _]].
  destruct (OperationMonitor_check m1). by intros [= _ _ <- _].
Qed.

Lemma write_volumes_keeps fuel archive base sizes budget m dir next index paths r archive' dir' :
  P archive → write_volumes io_fuel fuel archive base sizes budget m dir next index paths = (r, archive', dir') → P archive'.
Proof.
  revert archive budget m dir next index paths. induction fuel as [|fuel IH]; intros archive budget m dir next index paths Ha;
    cbn [write_volumes]; [by intros [= _ <- _]|].
  destruct (write_volume_file _ budget dir _ _) as [[[copied budget1] dir1] [archive1 m1]] eqn:Ew.
  assert (P archive1) as Ha1.
  { unfold write_volume_file in Ew. destruct (OpenVolumeBudget_charge budget); [|by injection Ew as _ _ _ <- _].
    destruct (vd_create _ dir) as [[file|] dir2]; [|by injection Ew as _ _ _ <- _].
    destruct (fill_volume io_fuel next _ file (archive, m)) as [[res file'] [a2 m2]] eqn:Ef. injection Ew as _ _ _ <- _.
    by eapply fill_volume_keeps. }
  destruct copied; [|by intros [= _ <- _]]. case_decide; [by intros [= _ <- _]|].
  destruct (OperationMonitor_read m1 archive1 1) as [[[c|] m2] a2] eqn:Er; pose proof (monitor_read_keeps P Hread _ _ _ _ _ _ Ha1 Er);
    [|by intros [= _ <- _]]. destruct c; [by intros [= _ <- _]|]. by apply IH.
Qed.

Lemma write_volume_files_keeps archive base sizes open count m dir r archive' dir' :
  P archive → write_volume_files io_fuel archive base sizes open count m dir = (r, archive', dir') → P archive'.
Proof.
  intros Ha. unfold write_volume_files. destruct (OperationMonitor_check m) as [[[]|] m1]; [|by intros [= _ <- _]].
  destruct (w_seek archive (SeekEnd 0)) as [[total|] a1] eqn:E1; pose proof (Hseek _ _ _ _ Ha E1) as Ha1; [|by intros [= _ <- _]].
  destruct (let? count := required_volume_count total sizes in _) as [n|]; [|by intros [= _ <- _]].
  destruct (w_seek a1 (SeekStart 0)) as [[p|] a2] eqn:E2; pose proof (Hseek _ _ _ _ Ha1 E2) as Ha2; [|by intros [= _ <- _]].
  destruct (OperationMonitor_read m1 a2 1) as [[[c|] m2] a3] eqn:E3; pose proof (monitor_read_keeps P Hread _ _ _ _ _ _ Ha2 E3) as Ha3;
    [|by intros [= _ <- _]]. destruct c; [|by apply write_volumes_keeps].
  destruct (write_volume_file _ open dir tt _) as [[[written b] dir1] u]. by intros [= _ <- _].
Qed.

End volumes_kept.

(** ** Properties *)

(** How an archive is cut: the volumes together are the archive, each but the last has the
    size that was asked for, and none is empty unless the archive is. *)
Definition cut_into (sizes : list Z) (data : bytes) (parts : list bytes) : Prop :=
  concat parts = data ∧ (data ≠ [] → Forall (λ part, part ≠ []) parts) ∧
  ∀ i part, parts !! i = Some part →
    zlen part ≤ volume_size sizes (Z.of_nat i) ∧
    ((Datatypes.S i < length parts)%nat → zlen part = volume_size sizes (Z.of_nat i)).

Lemma volumes_cut sizes data :
  Forall (λ size, 0 < size) sizes → sizes ≠ [] → cut_into sizes data (volumes_of sizes 0 data).
Proof.
  intros Hs Hne. pose proof (λ i part, volumes_sized sizes Hs Hne 0 data i part (Z.le_refl 0)) as Hv. split_and!.
  - by apply volumes_concat.
  - intros Hd. apply Forall_lookup. intros i part Hp. by apply (Hv i part Hp).
  - intros i part Hp. by destruct (Hv i part Hp) as (? & ? & _).
Qed.

(** The number of volumes that is charged before anything is written is the number of volumes
    that the sizes cut the archive into, also when the last size repeats and when the
    archive is empty. *)
Theorem volume_count_exact sizes (data : bytes) :
  Forall (λ size, 0 < size) sizes → sizes ≠ [] → zlen sizes + zlen data ≤ usize_max →
  required_volume_count (zlen data) sizes = Ok (zlen (volumes_of sizes 0 data)) ∧ cut_into sizes data (volumes_of sizes 0 data).
Proof. intros Hs Hne Hmax. split; [by apply required_count_spec|by apply volumes_cut]. Qed.

Section claims.
  Context `{Crc32} `{BlockCipher} `{Sha256} `{Host} `{EncoderLimits} `{Encoders} {G : Type} `{Entropy G}.
  Context {D F : Type} `{TempDir D F} `{Write F} `{Seek F} `{Reader F} {S : Type} `{Reader S}.
  Context {V T : Type} `{VolumeDir V T} `{Write T}.

(** What has been written, and that its contents open as the archive. *)
Lemma volumes_written (io_fuel : nat) (later : OperationControl → OperationControl)
    (abandoned : AutoSpool D F → AutoSpool D F) (fcontents : F → bytes) (fposition : F → Z) (files : D → gset (list Z))
    (encodes : EncoderKind → bytes → bytes → Prop) (got : T → bytes → Prop) (stored : V → gmap (list Z) bytes)
    (entries : list (list Z * S)) (base : list Z) (options : ArchiveOptions) (sizes : list Z) (g : G) (disk : D) (dir : V)
    paths disk' dir' :
  temp_dir_laws (F := F) fcontents fposition files → volume_dir_laws got stored → encoders_spec encodes →
  spool_options_ok options → 0 ≤ st_buffer_size (ao_streaming options) → Forall (λ size, 0 < size) sizes →
  build_streaming_volumes (F := F) (T := T) io_fuel later abandoned entries base options sizes g disk dir = (Ok paths, disk', dir') →
  ∃ prepared data parts, prepare_archive_options (set_default_budget options) = Ok prepared ∧
    archive_of encodes prepared entries data ∧ cut_into sizes data parts ∧ parts ≠ [] ∧
    paths = volume_paths base 0 (length parts) ∧ volumes_stored paths parts (stored dir) (stored dir') ∧
    (∀ limit, vc_limit (wb_volume_count (writer_budgets prepared)) = Some limit → zlen parts ≤ limit) ∧
    files disk' = files disk ∧
    ∀ budget source budget', ArchiveSource_from_split_first_volume parts budget = Ok (Some source, budget') → source_is source data.
Proof.
  intros Hlaws Hdir Henc Hopts Hbuf Hsizes. unfold build_streaming_volumes. case_decide as Hne; [done|].
  destruct (prepare_archive_options _) as [prepared|] eqn:Ep; [|done].
  assert (0 < st_buffer_size (ao_streaming (po_archive prepared))) as Hbuffer
    by exact (prepared_buffer (set_default_budget options) _ Hbuf Ep).
  specialize (Hopts _ Ep). destruct (spool_placement _) as [threshold spool_dir].
  destruct (AutoSpool_new threshold spool_dir _ disk) as [[spool|] d] eqn:Enew; [|done].
  destruct (build_streaming_with_prepared_options io_fuel entries spool prepared _) as [built|] eqn:Eb.
  2:{ unfold finish_spool. destruct (AutoSpool_limit_error (abandoned spool)), (AutoSpool_cleanup (abandoned spool)); by intros [=]. }
  destruct (built_in_spool io_fuel encodes Henc prepared Hbuffer fcontents fposition files Hlaws _ _ _ _ _ _ _ _ _ Hopts Enew Eb)
    as [Hok Harch].
  destruct (write_volume_files io_fuel built base sizes _ _ _ dir) as [[res archive] dir1] eqn:Ew.
  assert (spool_ok files (files disk) archive) as Hok'.
  { eapply (write_volume_files_keeps io_fuel (spool_ok files (files disk))); [apply spool_ok_read|apply spool_ok_seek|exact Hok|exact Ew]. }
  unfold finish_spool. destruct (AutoSpool_cleanup archive) as [cleaned d2] eqn:Ec.
  destruct (cleanup_files fcontents fposition files Hlaws _ _ _ _ Hok' Ec) as [-> Hd].
  destruct (AutoSpool_limit_error archive); [done|]. destruct res as [paths'|]; [|done]. intros [= <- <- <-].
  pose proof (spool_reading_laws io_fuel fcontents fposition files Hlaws) as Hread.
  destruct (write_volume_files_spec io_fuel got stored Hdir _ (file_giving _ _ Hread) sizes Hsizes Hne _ _ _ _ _ _ _ _ _ _ _ Hread eq_refl Ew)
    as (Hpaths & Hst & count' & Hcount).
  set (data := spool_contents fcontents built) in *. pose proof (volumes_cut sizes data Hsizes Hne) as Hcut.
  exists prepared, data, (volumes_of sizes 0 data). split_and!; try done.
  - intros limit Hl. unfold VolumeCountBudget_charge in Hcount. rewrite Hl in Hcount.
    destruct (checked_add _ _) as [n|] eqn:Ea; [|done]. apply checked_add_some in Ea as ->. cbn in Hcount.
    case_bool_decide; [done|]. unfold writer_budgets in *. cbn in *. lia.
  - intros budget source budget' Hopen. destruct Hcut as [<- _]. by eapply split_volumes_source.
Qed.

End claims.

(** ** Witnesses *)

Lemma volume_count_exact_witness :
  required_volume_count 20 [3; 5] = Ok 5 ∧ volumes_of [3; 5] 0 [1; 2; 3; 4; 5; 6; 7; 8; 9] = [[1; 2; 3]; [4; 5; 6; 7; 8]; [9]].
Proof.
  destruct (volume_count_exact [3; 5] (replicate 20 0)) as [Hc _]; [by repeat constructor|done|by vm_compute|].
  split; [|by vm_compute]. exact Hc.
Defined.

#[local] Existing Instances zero_crc counter_cipher flat_hash sample_host sample_encoder_limits storing_encoders no_entropy.

(** Files in memory. *)
#[local] Instance memory_volumes : VolumeDir (gmap (list Z) bytes) bytes :=
  {| vd_create := λ path dir, (Ok [], <[path := []]> dir); vd_close := λ path file dir, <[path := file]> dir |}.

Lemma memory_volumes_laws : volume_dir_laws (λ v d : bytes, v = d) (λ dir, dir).
Proof.
  split; [exact vec_tracked| |by intros p t d v ->]. intros p v t v' [= <- <-]. split; [done|].
  intros q Hq. by rewrite lookup_insert_ne.
Qed.

Definition volume_names : list (list Z) :=
  [str_bytes "a.7z.001"; str_bytes "a.7z.002"; str_bytes "a.7z.003"; str_bytes "a.7z.004"].

(** Fifty bytes, then thirty at a time. *)
Abbreviation volume_sample :=
  (build_streaming_volumes (F := FileOutput) (T := bytes) 30 id id (stream_entries []) (str_bytes "a.7z")
     (spooled_options (SpoolAuto 40 None)) [50; 30] tt sample_taken (∅ : gmap (list Z) bytes)).

