(* ===== verification/OpenFiles.v ===== *)
(** * Opening archives by name (src/src/archive_source.rs, src/src/archive.rs)

    The files of an archive are found by their names: a name that ends in .001 stands for
    all volumes that are numbered from it on. *)

From stdpp Require Import base numbers list option strings gmap.
From Stdlib Require Import ZArith Lia.
From S2P Require Import Prelude PropertyId Parsers Method Folder Error Operation Readers Resources Aes DecoderPlan PackInfo StreamInfo FilesInfo DecoderRun Entries FolderDecode FolderRead FileStreams Headers ArchiveSource PackedSource ArchiveNames EntryReads Archive WriteHeader WriteOptions Writers Lzma2Encoder WriteFolders StreamingFolder FolderWriting ArchiveWriter ArchiveWritten WrittenArchive ArchiveBuilder Copying Spool Spooled StreamedOutput Volumes VolumesWritten.

(** ** The text of a path

    Separators at the end of a path, and parts there that stand for the directory itself,
    are no part of its file name. All is done on the reversed text. *)
Fixpoint skip_tail (r : list Z) : list Z :=
  match r with
  | 47 :: r => skip_tail r
  | 46 :: ((47 :: _) as r) => skip_tail r
  | _ => r
  end.
Fixpoint span_name (r : list Z) : list Z * list Z :=
  match r with
  | [] => ([], [])
  | c :: r' => if decide (c = 47) then ([], r) else let '(name, dir) := span_name r' in (c :: name, dir)
  end.
(** [Path::file_name], with what comes before it, both reversed. *)
Definition split_file_name (path : list Z) : option (list Z * list Z) :=
  let '(name, dir) := span_name (skip_tail (reverse path)) in
  if decide (name = [] ∨ name = [46] ∨ name = [46; 46]) then None else Some (name, dir).
(** A reversed name at its last dot; a dot in front starts no extension. *)
Fixpoint split_dot (r : list Z) : option (list Z * list Z) :=
  match r with
  | [] => None
  | c :: r =>
      if decide (c = 46) then Some ([], r)
      else match split_dot r with Some (ext, stem) => Some (c :: ext, stem) | None => None end
  end.
Definition split_extension (name : list Z) : option (list Z * list Z) :=
  match split_dot name with Some (_, []) | None => None | Some p => Some p end.
(** [Path::extension]. *)
Definition extension (path : list Z) : option (list Z) :=
  match split_file_name path with
  | Some (name, _) => match split_extension name with Some (ext, _) => Some (reverse ext) | None => None end
  | None => None
  end.
(** [Path::with_extension], the extension not being empty. *)
Definition with_extension (path ext : list Z) : list Z :=
  match split_file_name path with
  | Some (name, dir) =>
      let stem := match split_extension name with Some (_, stem) => stem | None => name end in
      reverse (stem ++ dir) ++ 46 :: ext
  | None => path
  end.

(** ** Files *)

(** [Path::exists] and [PositionedFile::open] with its length: a file is its contents, which
    do not change while it is open. *)
Class ArchiveFiles (V : Type) := {
  af_exists : list Z → V → bool;
  af_open : list Z → V → result bytes IoError
}.

Definition is_split_first_volume (path : list Z) : bool := bool_decide (extension path = Some (text "001")).
(** [format!("{idx:03}")]. *)
Definition volume_extension (idx : Z) : list Z :=
  let digits := decimal_digits idx in replicate (3 - length digits) 48 ++ digits.
Definition split_volume_path (first_volume : list Z) (idx : Z) : list Z := with_extension first_volume (volume_extension idx).

Section files.
  Context {V : Type} `{ArchiveFiles V} (files : V).

Definition PositionedFile_open (path : list Z) : result bytes R7zError := map_err R7zError_from (af_open path files).

(** The volumes up to the first that does not exist; [fuel] is more than their number. *)
Fixpoint open_volumes (fuel : nat) (path : list Z) (idx : Z) (st : list VolumeReader * Z * OperationBudget) :
    result (list VolumeReader * Z * OperationBudget) R7zError :=
  match fuel with
  | O => Err R7zOutOfFuel
  | Datatypes.S fuel =>
      let volume := split_volume_path path idx in
      if negb (af_exists volume files) then Ok st
      else
        let '(readers, len, budget) := st in
        let? budget := charge_open_volume budget in
        let? file := PositionedFile_open volume in
        let start := len in
        let? len := checked_add_u64 len (zlen file) in
        open_volumes fuel path (idx + 1) (readers ++ [{| vr_file := file; vr_start := start; vr_end := len |}], len, budget)
  end.

Definition ArchiveSource_from_split_path (fuel : nat) (path : list Z) (budget : OperationBudget) :
    result (option ArchiveSource * OperationBudget) R7zError :=
  if negb (is_split_first_volume path) then Ok (None, budget) else
  let? st := open_volumes fuel path 1 ([], 0, budget) in
  let '(readers, len, budget) := st in
  if decide (1 < zlen readers) then Ok (Some (Kind_Volumes readers len), budget)
  else Ok (None, release_open_volume budget).

Definition ArchiveSource_from_file (fuel : nat) (path : list Z) (budget : OperationBudget) :
    result (ArchiveSource * OperationBudget) R7zError :=
  let? (source, budget) := ArchiveSource_from_split_path fuel path budget in
  match source with
  | Some source => Ok (source, budget)
  | None =>
      let? budget := charge_open_volume budget in
      let? file := PositionedFile_open path in
      Ok (Kind_File file (zlen file), budget)
  end.

(** A mapped file is its bytes. *)
Definition ArchiveSource_from_mmap (fuel : nat) (path : list Z) (budget : OperationBudget) :
    result (ArchiveSource * OperationBudget) R7zError :=
  let? (source, budget) := ArchiveSource_from_split_path fuel path budget in
  match source with
  | Some source => Ok (source, budget)
  | None =>
      let? budget := charge_open_volume budget in
      let? file := map_err R7zError_from (af_open path files) in
      Ok (ArchiveSource_from_bytes file, budget)
  end.

End files.

(** ** Archives *)

(** What the outer header alone tells. *)
Record ArchiveMetadata := { am_signature : SignatureHeader; am_encoded_header : Headers.EncodedHeader }.

Section open.
  Context `{Nom} `{Crc32} `{LzmaMemory} `{Decoders} `{BlockCipher} `{Sha256} `{BytesLayout} {V : Type} `{ArchiveFiles V}.
  Context (retries io_fuel : nat) (io_sizes : nat → Z) (copy_sizes : nat → N) (address : bytes → Z).

Definition Archive_open_with_password_and_options (fuel : nat) (files : V) (identity : Z) (path : list Z)
    (password : option (list Z)) (options : ResourceLimits) : result Archive R7zError :=
  let? (source, budget) := ArchiveSource_from_file files fuel path (OperationBudget_new options) in
  Archive_from_source_with_budget retries io_fuel io_sizes address source identity password options budget.

Definition Archive_open_with_password (fuel : nat) (files : V) (identity : Z) (path : list Z) (password : option (list Z)) :
    result Archive R7zError :=
  Archive_open_with_password_and_options fuel files identity path password ResourceLimits_default.

Definition Archive_open_mmap_with_password_and_options (fuel : nat) (files : V) (identity : Z) (path : list Z)
    (password : option (list Z)) (options : ResourceLimits) : result Archive R7zError :=
  let? (source, budget) := ArchiveSource_from_mmap files fuel path (OperationBudget_new options) in
  Archive_from_source_with_budget retries io_fuel io_sizes address source identity password options budget.

(** *** The outer header alone *)

(** The first candidate whose start header is right, or whether one was wrong. *)
Fixpoint find_candidate (data : bytes) (offsets : list Z) (saw_bad_signature : bool) : result Z R7zError :=
  match offsets with
  | [] => Err (if saw_bad_signature then Crc else Parse)
  | offset :: offsets =>
      match get_range offset (offset + 32) data with
      | None => find_candidate data offsets saw_bad_signature
      | Some signature_bytes =>
          let? (_, signature) := parsed (SignatureHeader_parse (place address signature_bytes)) in
          match SignatureHeader_validate_start_header_crc signature with
          | Ok _ => Ok offset
          | Err Crc => find_candidate data offsets true
          | Err err => Err err
          end
      end
  end.
Definition find_signature_in_slice (data : bytes) : result Z R7zError :=
  find_candidate data (find_magic_offsets data) false.

Definition ArchiveMetadata_parse (data : bytes) : result ArchiveMetadata R7zError :=
  let? signature_offset := find_signature_in_slice data in
  let archive_data := drop (Z.to_nat signature_offset) data in
  let backing := place address archive_data in
  let? (input, signature) := parsed (SignatureHeader_parse backing) in
  let? _ := SignatureHeader_validate_start_header_crc signature in
  let? offset := ok_or (usize_try_from (sh_next_header_offset signature)) Parse in
  let? header_start := ok_or (checked_add 32 offset) Parse in
  let? header_size := ok_or (usize_try_from (sh_next_header_size signature)) Parse in
  let? header_end := ok_or (checked_add header_start header_size) Parse in
  if decide (zlen archive_data < header_end) then Err Parse else
  let? (input, prop) := parsed (find_next_property_id input offset) in
  match prop with
  | P_EncodedHeader =>
      let? (_, encoded_header) := parsed (EncodedHeader_parse input backing) in
      Ok {| am_signature := signature; am_encoded_header := encoded_header |}
  | _ => Err Parse
  end.

(** *** Entries *)

Definition ArchiveEntryInfo_is_file (self : ArchiveEntryInfo) : bool :=
  match ai_entry_type self with T_File | T_EmptyFile | T_Symlink | T_EmptySymlink => true | _ => false end.
Definition ArchiveEntryInfo_has_data_stream (self : ArchiveEntryInfo) : bool :=
  match ai_entry_type self with T_File | T_Symlink => true | _ => false end.
Definition ArchiveEntryInfo_is_directory (self : ArchiveEntryInfo) : bool :=
  match ai_entry_type self with T_Directory => true | _ => false end.
Definition ArchiveEntryInfo_is_anti (self : ArchiveEntryInfo) : bool :=
  match ai_entry_type self with T_Anti => true | _ => false end.

(** *** Targets of links *)

(** [String::from_utf8]: neither overlong forms nor surrogates. *)
Fixpoint from_utf8 (b : bytes) : option (list Z) :=
  let tail c := bool_decide (128 ≤ c ≤ 191) in
  match b with
  | [] => Some []
  | b0 :: b =>
      if decide (b0 < 128) then cons b0 <$> from_utf8 b
      else if decide (192 ≤ b0 ≤ 223) then
        match b with
        | b1 :: b =>
            let c := (b0 - 192) * 64 + (b1 - 128) in
            if tail b1 && bool_decide (128 ≤ c) then cons c <$> from_utf8 b else None
        | _ => None
        end
      else if decide (224 ≤ b0 ≤ 239) then
        match b with
        | b1 :: b2 :: b =>
            let c := (b0 - 224) * 4096 + (b1 - 128) * 64 + (b2 - 128) in
            if tail b1 && tail b2 && bool_decide (2048 ≤ c ∧ ¬ 55296 ≤ c ≤ 57343) then cons c <$> from_utf8 b else None
        | _ => None
        end
      else if decide (240 ≤ b0 ≤ 247) then
        match b with
        | b1 :: b2 :: b3 :: b =>
            let c := (b0 - 240) * 262144 + (b1 - 128) * 4096 + (b2 - 128) * 64 + (b3 - 128) in
            if tail b1 && tail b2 && tail b3 && bool_decide (65536 ≤ c ≤ 1114111) then cons c <$> from_utf8 b else None
        | _ => None
        end
      else None
  end.

Definition Archive_symlink_target_with_options (self : Archive) (file_index : Z) (config : ArchiveReadConfig) :
    result (option (list Z)) R7zError :=
  let? files := Archive_try_files_info self in
  match fst (Entries_nth (Entries_new files (Archive_num_files self)) (Z.to_nat file_index)) with
  | None => Ok None
  | Some entry =>
      match en_kind entry with
      | K_Symlink _ | K_EmptySymlink =>
          let? target := Archive_extract_to_memory_with_options retries io_fuel io_sizes copy_sizes self file_index config in
          let? target := ok_or (from_utf8 target) Parse in Ok (Some target)
      | _ => Ok None
      end
  end.

End open.

(** ** Lemmas: names *)

(** A leading byte and a byte behind it, as sums. *)
Lemma lor_multiple k a b : 0 ≤ k → 0 ≤ b < 2 ^ k → a mod 2 ^ k = 0 → Z.lor a b = a + b.
Proof.
  intros Hk Hb Ha. rewrite (Z.div_mod a (2 ^ k)), Ha, Z.add_0_r by lia.
  rewrite Z.lor_comm, lor_low_high by lia. lia.
Qed.

Lemma tail_byte c n : 0 ≤ n → Z.lor 128 (Z.land (Z.shiftr c n) 63) = 128 + (c / 2 ^ n) mod 64.
Proof.
  intros Hn. change 63 with (Z.ones 6). rewrite Z.land_ones, Z.shiftr_div_pow2 by lia.
  apply (lor_multiple 6); [lia| |done]. apply Z.mod_pos_bound. lia.
Qed.

Lemma encode_utf8_char_decoded c b : is_scalar c → from_utf8 (encode_utf8_char c ++ b) = cons c <$> from_utf8 b.
Proof.
  intros Hc. unfold is_scalar in Hc. unfold encode_utf8_char.
  rewrite !tail_byte by lia. rewrite !Z.shiftr_div_pow2 by lia. change (2 ^ 0) with 1. rewrite Z.div_1_r.
  change (2 ^ 6) with 64. change (2 ^ 12) with 4096. change (2 ^ 18) with 262144.
  repeat case_decide; cbn [app from_utf8]; [by rewrite decide_True by lia|..].
  - rewrite (lor_multiple 5 192) by (try done; Z.div_mod_to_equations; lia).
    assert (2 ≤ c / 64 < 32 ∧ 0 ≤ c mod 64 < 64 ∧ c = c / 64 * 64 + c mod 64) as (E1&E2&E3) by (Z.div_mod_to_equations; lia).
    rewrite (decide_False (P := 192 + _ < 128)), (decide_True (P := _ ≤ _ ≤ 223)) by lia.
    replace (_ * 64 + _) with c by lia. by rewrite !bool_decide_true by lia.
  - rewrite (lor_multiple 4 224) by (try done; Z.div_mod_to_equations; lia).
    assert (0 ≤ c / 4096 < 16 ∧ 0 ≤ (c / 64) mod 64 < 64 ∧ 0 ≤ c mod 64 < 64 ∧
      c = c / 4096 * 4096 + (c / 64) mod 64 * 64 + c mod 64) as (E1&E2&E3&E4) by (Z.div_mod_to_equations; lia).
    rewrite (decide_False (P := 224 + _ < 128)), (decide_False (P := _ ≤ _ ≤ 223)), (decide_True (P := _ ≤ _ ≤ 239)) by lia.
    replace (_ * 4096 + _ + _) with c by lia. by rewrite !bool_decide_true by lia.
  - rewrite (lor_multiple 3 240) by (try done; Z.div_mod_to_equations; lia).
    assert (0 ≤ c / 262144 < 5 ∧ 0 ≤ (c / 4096) mod 64 < 64 ∧ 0 ≤ (c / 64) mod 64 < 64 ∧ 0 ≤ c mod 64 < 64 ∧
      c = c / 262144 * 262144 + (c / 4096) mod 64 * 4096 + (c / 64) mod 64 * 64 + c mod 64) as (E1&E2&E3&E4&E5)
      by (Z.div_mod_to_equations; lia).
    rewrite (decide_False (P := 240 + _ < 128)), (decide_False (P := _ ≤ _ ≤ 223)), (decide_False (P := _ ≤ _ ≤ 239)),
      (decide_True (P := _ ≤ _ ≤ 247)) by lia.
    replace (_ * 262144 + _ + _ + _) with c by lia. by rewrite !bool_decide_true by lia.
Qed.

(** A string is read back from its bytes. *)
Lemma from_utf8_as_bytes s : Forall is_scalar s → from_utf8 (as_bytes s) = Some s.
Proof.
  unfold as_bytes. induction 1 as [|c s Hc Hs IH]; [done|]. cbn [map concat]. by rewrite encode_utf8_char_decoded, IH.
Qed.

(** A name with a suffix behind a dot. *)
Definition is_suffix (ext : list Z) : Prop := ext ≠ [] ∧ Forall (λ c, 48 ≤ c ≤ 57) ext.
(** A path that ends in a file name to which a suffix can be appended. *)
Definition is_base (base : list Z) : Prop := base ≠ [] ∧ last base ≠ Some 47.

Lemma span_name_spec r : let '(name, dir) := span_name r in name ++ dir = r ∧ (r ≠ [] → head r ≠ Some 47 → name ≠ []).
Proof.
  induction r as [|c r IH]; cbn [span_name]; [done|]. case_decide as Hc; [by subst c|].
  destruct (span_name r) as [name dir]. destruct IH as [IH _]. split; [by rewrite <- IH|done].
Qed.

Lemma span_name_app a r :
  Forall (λ c, c ≠ 47) a → span_name (a ++ r) = (a ++ (span_name r).1, (span_name r).2).
Proof.
  induction 1 as [|c a Hc Ha IH]; cbn [app span_name]; [by destruct (span_name r)|]. rewrite decide_False by done. by rewrite IH.
Qed.

Lemma split_dot_app a r : Forall (λ c, c ≠ 46) a → split_dot (a ++ 46 :: r) = Some (a, r).
Proof. induction 1 as [|c a Hc Ha IH]; [done|]. cbn [app split_dot]. rewrite decide_False by done. by rewrite IH. Qed.

Lemma suffix_split base ext :
  is_base base → is_suffix ext →
  ∃ name dir, split_file_name (base ++ 46 :: ext) = Some (reverse ext ++ 46 :: name, dir) ∧ name ++ dir = reverse base ∧
    split_extension (reverse ext ++ 46 :: name) = Some (reverse ext, name).
Proof.
  intros [Hb Hlast] [He Hd]. apply Forall_reverse in Hd.
  pose proof (span_name_spec (reverse base)) as Hs. destruct (span_name (reverse base)) as [name dir] eqn:Esp.
  destruct Hs as [Hs Hn]. exists name, dir.
  assert (name ≠ []) as Hname.
  { apply Hn; [intros Hr; by apply (f_equal reverse) in Hr; rewrite reverse_involutive in Hr|]. by rewrite head_reverse. }
  assert (split_extension (reverse ext ++ 46 :: name) = Some (reverse ext, name)) as Hext.
  { unfold split_extension. rewrite split_dot_app; [by destruct name|]. eapply Forall_impl; [exact Hd|]. cbn. lia. }
  split_and!; [|done|done]. unfold split_file_name.
  rewrite reverse_app, reverse_cons, <- app_assoc. cbn [app].
  assert (skip_tail (reverse ext ++ 46 :: reverse base) = reverse ext ++ 46 :: reverse base) as ->.
  { destruct (reverse ext) as [|c r] eqn:Er; [by apply (f_equal reverse) in Er; rewrite reverse_involutive in Er|]. apply Forall_cons in Hd as [Hc _].
    cbn [app skip_tail]. destruct (decide (c = 47)); [lia|]. destruct (decide (c = 46)); [lia|].
    by repeat (case_match; try lia). }
  change (46 :: reverse base) with ([46] ++ reverse base). rewrite app_assoc.
  rewrite span_name_app by (apply Forall_app; split; [eapply Forall_impl; [exact Hd|]; cbn; lia|by repeat constructor]).
  rewrite Esp, <- app_assoc. cbn [fst snd app]. rewrite decide_False; [done|].
  destruct (reverse ext) as [|c r] eqn:Er; [by apply (f_equal reverse) in Er; rewrite reverse_involutive in Er|]. apply Forall_cons in Hd as [Hc _].
  cbn [app]. intros [?|[[= -> ?]|[= -> ?]]]; [done|lia|lia].
Qed.

Lemma extension_suffix base ext : is_base base → is_suffix ext → extension (base ++ 46 :: ext) = Some ext.
Proof.
  intros Hb He. destruct (suffix_split base ext Hb He) as (name & dir & Hf & _ & Hext).
  unfold extension. by rewrite Hf, Hext, reverse_involutive.
Qed.

Lemma with_extension_suffix base ext ext' :
  is_base base → is_suffix ext → with_extension (base ++ 46 :: ext) ext' = base ++ 46 :: ext'.
Proof.
  intros Hb He. destruct (suffix_split base ext Hb He) as (name & dir & Hf & Hnd & Hext).
  unfold with_extension. by rewrite Hf, Hext, Hnd, reverse_involutive.
Qed.

(** The name of a volume, as it is found from that of the first. *)
Lemma first_volume base : is_base base → is_split_first_volume (volume_path base 0) = true.
Proof.
  intros Hb. unfold is_split_first_volume. apply bool_decide_eq_true. apply (extension_suffix base (text "001")); [done|].
  split; [done|]. by repeat constructor.
Qed.

Lemma split_volume_path_of base idx : is_base base → split_volume_path (volume_path base 0) idx = volume_path base (idx - 1).
Proof.
  intros Hb. unfold split_volume_path, volume_path. replace (idx - 1 + 1) with idx by lia.
  apply (with_extension_suffix base (text "001")); [done|]. split; [done|]. by repeat constructor.
Qed.

(** ** Lemmas: volumes *)

Section shown.
  Context {V : Type} `{ArchiveFiles V} (v : V) (stored : gmap (list Z) bytes).

(** What the files are when they are opened. *)
Definition files_show : Prop :=
  ∀ p, af_exists p v = bool_decide (is_Some (stored !! p)) ∧ ∀ d, stored !! p = Some d → af_open p v = Ok d.

Context (Hshow : files_show) (base : list Z) (Hbase : is_base base).

(** By name, the volumes are opened as by their contents. *)
Lemma open_volumes_stored parts fuel idx st :
  (length parts < fuel)%nat → 0 < idx →
  Forall2 (λ path part, stored !! path = Some part) (volume_paths base (idx - 1) (length parts)) parts →
  stored !! volume_path base (idx - 1 + zlen parts) = None →
  open_volumes v fuel (volume_path base 0) idx st = try_fold split_volume_step st parts.
Proof using Hshow Hbase.
  revert fuel idx st. induction parts as [|part parts IH]; intros [|fuel] idx st Hf Hi Hall Hnone; cbn [length] in *; try lia;
    cbn [open_volumes]; rewrite split_volume_path_of by done; destruct (Hshow (volume_path base (idx - 1))) as [Hex Hop];
    rewrite Hex.
  - rewrite Z.add_0_r in Hnone. by rewrite Hnone.
  - rewrite volume_paths_succ in Hall. apply Forall2_cons in Hall as [Hp Hall]. rewrite Hp, bool_decide_true by eauto.
    cbn [negb try_fold]. destruct st as [[readers len] budget]. unfold split_volume_step at 1.
    destruct (charge_open_volume budget) as [b|]; [|done]. unfold PositionedFile_open. rewrite (Hop _ Hp). cbn [map_err].
    unfold checked_add_u64. destruct (checked_add len (zlen part)) as [l|]; [|done]. cbn [ok_or].
    apply IH; [lia|lia| |]; replace (idx + 1 - 1) with (idx - 1 + 1) by lia; [done|].
    rewrite <- Hnone. f_equal. f_equal. unfold zlen. cbn [length]. lia.
Qed.

(** The budget admits so many volumes. *)
Lemma volumes_admitted parts st :
  zlen (concat parts) + st.1.2 ≤ u64_max → 0 ≤ st.1.2 → 0 ≤ ov_open (ob_open_volumes st.2) →
  ov_open (ob_open_volumes st.2) + zlen parts ≤ ov_limit (ob_open_volumes st.2) ≤ u64_max →
  is_ok (try_fold split_volume_step st parts) = true.
Proof.
  revert st. induction parts as [|part parts IH]; intros [[readers len] budget] Hlen H0 Ho Hl; cbn [try_fold]; [done|].
  cbn [fst snd concat] in *. rewrite zlen_app in Hlen. pose proof (zlen_nonneg part). pose proof (zlen_nonneg (concat parts)).
  assert (zlen (part :: parts) = 1 + zlen parts) as Hz by (unfold zlen; cbn [length]; lia). pose proof (zlen_nonneg parts).
  unfold split_volume_step at 1, charge_open_volume, OpenVolumeBudget_charge, checked_add.
  rewrite (decide_True (P := ov_open _ + 1 ≤ _)), (decide_False (P := _ < _)) by lia.
  rewrite decide_True by lia. cbn [ok_or]. apply IH; cbn [fst snd set_open_volumes ob_open_volumes ov_open ov_limit]; lia.
Qed.

Lemma file_source_is b : zlen b ≤ u64_max → source_is (Kind_File b (zlen b)) b.
Proof.
  intros Hb. split; [done|]. split; [done|]. intros offset n Ho Hn.
  unfold ArchiveSource_read_exact_at. destruct (decide (n = 0)) as [->|Hne]; [by rewrite decide_True by (by left)|].
  unfold checked_add. destruct (decide (offset + n ≤ zlen b)) as [Hl|Hl].
  - rewrite (decide_True (P := n = 0 ∨ _)), (decide_True (P := offset + n ≤ u64_max)) by lia. cbn [ok_or ArchiveSource_len].
    rewrite decide_False by lia. unfold PositionedFile_read_exact_at. by rewrite get_range_some by lia.
  - rewrite (decide_False (P := n = 0 ∨ _)) by lia. destruct (decide (offset + n ≤ u64_max)); [|done].
    cbn [ok_or ArchiveSource_len]. by rewrite decide_True by lia.
Qed.

(** The volumes, opened by the name of the first. *)
Lemma volumes_open parts fuel :
  (length parts < fuel)%nat → parts ≠ [] → zlen (concat parts) ≤ u64_max →
  Forall2 (λ path part, stored !! path = Some part) (volume_paths base 0 (length parts)) parts →
  stored !! volume_path base (zlen parts) = None →
  (∀ budget source budget', ArchiveSource_from_file v fuel (volume_path base 0) budget = Ok (source, budget') →
     source_is source (concat parts)) ∧
  ∀ limits, zlen parts ≤ max_open_volumes limits ≤ u64_max →
    is_ok (ArchiveSource_from_file v fuel (volume_path base 0) (OperationBudget_new limits)) = true.
Proof using Hshow Hbase.
  intros Hf Hne Hmax Hall Hnone. unfold ArchiveSource_from_file, ArchiveSource_from_split_path.
  rewrite (first_volume base Hbase). cbn [negb].
  pose proof (λ budget, open_volumes_stored parts fuel 1 ([], 0, budget) Hf ltac:(lia) Hall Hnone) as Ho.
  assert (∀ part, parts = [part] → ∀ budget,
    (let? budget := charge_open_volume budget in let? file := PositionedFile_open v (volume_path base 0) in
     Ok (Kind_File file (zlen file), budget)) =
    (let? budget := charge_open_volume budget in Ok (Kind_File part (zlen part), budget))) as Hone.
  { intros part -> budget. destruct (charge_open_volume budget); [|done].
    apply Forall2_cons_inv_r in Hall as (? & ? & Hp & _ & Hpath). injection Hpath as <- _.
    destruct (Hshow (volume_path base 0)) as [_ Hop]. unfold PositionedFile_open. by rewrite (Hop _ Hp). }
  split.
  - intros budget source budget'. rewrite Ho.
    destruct (split_volumes_spec parts [] 0 budget) as [[(b' & Hs) _]|[e Hs]]; rewrite Hs; [|done]. cbn [app].
    rewrite Z.add_0_l. case_decide as Hmany.
    + intros [= <- <-]. by apply volumes_source_is.
    + destruct parts as [|part [|]]; [done| |exfalso; apply Hmany; unfold zlen; cbn; lia]. rewrite (Hone part) by done.
      destruct (charge_open_volume _); [|done]. intros [= <- <-]. cbn [concat]. rewrite app_nil_r.
      apply file_source_is. cbn [concat] in Hmax. by rewrite app_nil_r in Hmax.
  - intros limits Hl. rewrite Ho.
    pose proof (volumes_admitted parts ([], 0, OperationBudget_new limits)) as Hadm. cbn [fst snd] in Hadm.
    destruct (split_volumes_spec parts [] 0 (OperationBudget_new limits)) as [[(b' & Hs) _]|[e Hs]]; rewrite Hs in *.
    2:{ by discriminate Hadm; cbn; lia. }
    cbn [app]. rewrite Z.add_0_l. case_decide as Hmany; [done|].
    destruct parts as [|part [|]]; [done| |exfalso; apply Hmany; unfold zlen; cbn; lia]. rewrite (Hone part) by done.
    assert (ov_open (ob_open_volumes b') = 1 ∧ ov_limit (ob_open_volumes b') = max_open_volumes limits) as [Ho1 Hl1].
    { revert Hs. cbn [try_fold split_volume_step].
      unfold charge_open_volume, OpenVolumeBudget_charge. cbn [ob_open_volumes OperationBudget_new OpenVolumeBudget_new ov_open ov_limit].
      change (checked_add 0 1) with (Some 1). change (zlen [part]) with 1 in Hl.
      cbv beta iota zeta. rewrite decide_False by lia.
      destruct (checked_add 0 (zlen part)); [|done]. cbn [ok_or]. intros [=]. by subst b'. }
    unfold charge_open_volume, release_open_volume, OpenVolumeBudget_charge, OpenVolumeBudget_release.
    cbn [ob_open_volumes set_open_volumes ov_open ov_limit]. rewrite Ho1, Hl1. change (saturating_sub 1 1) with 0.
    change (checked_add 0 1) with (Some 1).
    change (zlen [part]) with 1 in Hl. cbv beta iota zeta. by rewrite decide_False by lia.
Qed.
End shown.

(** ** Property *)

Section claims.
  Context `{Crc32} `{BlockCipher} `{Sha256} `{Host} `{EncoderLimits} `{Encoders} {G : Type} `{Entropy G}.
  Context {D F : Type} `{TempDir D F} `{Write F} `{Seek F} `{Reader F} {S : Type} `{Reader S}.
  Context {V T : Type} `{VolumeDir V T} `{Write T} `{ArchiveFiles V}.

(** C19. Volumes that were written are found again: the files numbered from 001 behind the base
    path hold the archive of the given entries, cut at the sizes asked for, and no
    other file is touched, no spool is left. Where no file had the name of a volume before,
    they read as that archive when opened by the name of the first, however many there are;
    only the limit on open volumes can refuse them. *)
Theorem written_volumes_reopen (io_fuel : nat) (later : OperationControl → OperationControl)
    (abandoned : AutoSpool D F → AutoSpool D F) (fcontents : F → bytes) (fposition : F → Z) (files : D → gset (list Z))
    (encodes : EncoderKind → bytes → bytes → Prop) (got : T → bytes → Prop) (stored : V → gmap (list Z) bytes)
    (entries : list (list Z * S)) (base : list Z) (options : ArchiveOptions) (sizes : list Z) (g : G) (disk : D) (dir : V)
    paths disk' dir' :
  temp_dir_laws (F := F) fcontents fposition files → volume_dir_laws got stored → (∀ v, files_show v (stored v)) →
  encoders_spec encodes → spool_options_ok options → 0 ≤ st_buffer_size (ao_streaming options) →
  Forall (λ size, 0 < size) sizes → is_base base → (∀ i, 0 ≤ i → stored dir !! volume_path base i = None) →
  build_streaming_volumes (F := F) (T := T) io_fuel later abandoned entries base options sizes g disk dir = (Ok paths, disk', dir') →
  ∃ prepared data parts, prepare_archive_options (set_default_budget options) = Ok prepared ∧
    archive_of encodes prepared entries data ∧ cut_into sizes data parts ∧
    paths = volume_paths base 0 (length parts) ∧ volumes_stored paths parts (stored dir) (stored dir') ∧
    files disk' = files disk ∧
    ∀ fuel, (length paths < fuel)%nat → zlen data ≤ u64_max →
      (∀ budget source budget', ArchiveSource_from_file dir' fuel (volume_path base 0) budget = Ok (source, budget') →
         source_is source data) ∧
      ∀ limits, zlen paths ≤ max_open_volumes limits ≤ u64_max →
        is_ok (ArchiveSource_from_file dir' fuel (volume_path base 0) (OperationBudget_new limits)) = true.
Proof.
  intros Hlaws Hdir Hshow Henc Hopts Hbuf Hsizes Hbase Hfree Hw.
  destruct (volumes_written _ _ _ _ _ _ _ _ _ _ _ _ _ _ _ _ _ _ _ Hlaws Hdir Henc Hopts Hbuf Hsizes Hw)
    as (prepared & data & parts & Hp & Ha & Hcut & Hne & Hpaths & Hst & _ & Hd & _).
  exists prepared, data, parts. split_and!; try done. intros fuel Hfuel Hmax.
  assert (length paths = length parts) as Hlen by (rewrite Hpaths; unfold volume_paths; by rewrite length_map, length_seq).
  assert (zlen paths = zlen parts) as Hz by (unfold zlen; by rewrite Hlen).
  destruct Hst as [Hall Hother]. destruct Hcut as [<- _]. rewrite Hz. subst paths.
  apply (volumes_open dir' (stored dir') (Hshow dir') base Hbase); [lia|done|done|done|].
  rewrite Hother; [by apply Hfree, zlen_nonneg|]. unfold volume_paths. intros (i & Heq & Hi)%list_elem_of_fmap.
  apply list_elem_of_In, in_seq in Hi. apply volume_path_inj in Heq; unfold zlen in *; lia.
Qed.

End claims.

(** ** Witness *)

#[local] Existing Instances zero_crc counter_cipher flat_hash sample_host sample_encoder_limits storing_encoders no_entropy
  memory_volumes.

#[local] Instance memory_files : ArchiveFiles (gmap (list Z) bytes) :=
  {| af_exists := λ p files, bool_decide (is_Some (files !! p)); af_open := λ p files, ok_or (files !! p) (IoKind NotFound "no file") |}.

Lemma memory_files_show (files : gmap (list Z) bytes) : files_show files files.
Proof. intros p. split; [done|]. intros d Hd. cbn. by rewrite Hd. Qed.

Lemma written_volumes_reopen_witness :
  ∃ paths disk dir data parts, volume_sample = (Ok paths, disk, dir) ∧ disk = sample_taken ∧ concat parts = data ∧
    paths = volume_names ∧ dir !! str_bytes "a.7z.002" = parts !! 1%nat ∧
    (zlen data ≤ u64_max → ∃ source budget,
       ArchiveSource_from_file dir 5 (str_bytes "a.7z.001") (OperationBudget_new ResourceLimits_default) = Ok (source, budget) ∧
       source_is source data).
Proof.
  destruct volume_sample as [[r dir0] dir] eqn:Es.
  assert (volume_sample.1.1 = Ok volume_names) as Hr
    by (vm_compute; reflexivity).
  rewrite Es in Hr. cbn [fst] in Hr. subst r.
  destruct (written_volumes_reopen 30 id id fo_data fo_pos (λ d : name_set, d) _ (λ v d : bytes, v = d) (λ dir, dir) (stream_entries [])
    (str_bytes "a.7z") (spooled_options (SpoolAuto 40 None)) [50; 30] tt sample_taken ∅ volume_names dir0 dir
    memory_temp_laws memory_volumes_laws memory_files_show storing_encoders_spec)
    as (prepared & data & parts & _ & _ & (Hcat & _) & Hpaths & (Hst & _) & Hdisk & Hopen).
  - clear Es. apply spooled_options_ok. intros t [= <-]. by compute.
  - clear Es. by compute.
  - clear Es. by repeat constructor.
  - clear Es. split; by vm_compute.
  - clear Es. intros i _. apply lookup_empty.
  - exact Es.
  - clear Es. eexists _, dir0, dir, data, parts. split_and!; [reflexivity|exact Hdisk|exact Hcat|reflexivity| |].
    { destruct (Forall2_lookup_l _ _ _ 1%nat (str_bytes "a.7z.002") Hst eq_refl) as (part & Hp & Hd). by rewrite Hp, Hd. }
    intros Hmax. destruct (Hopen 5%nat) as [Hsource Hok]; [vm_compute; lia|done|].
    specialize (Hok ResourceLimits_default ltac:(vm_compute; split; discriminate)).
    change (str_bytes "a.7z.001") with (volume_path (str_bytes "a.7z") 0).
    destruct (ArchiveSource_from_file _ _ _ _) as [[source budget]|] eqn:Eo; [|done].
    exists source, budget. split; [reflexivity|]. exact (Hsource _ _ _ Eo).
Defined.
