(* ===== verification/EntryPatterns.v ===== *)
(** * Entry patterns of the command-line tool (src/src/bin/r7z.rs)

    The wildcard matcher, the selection of entries by patterns, and the grouping of a
    listing by folder. *)

From stdpp Require Import base numbers list option strings.
From Stdlib Require Import ZArith Lia.
From S2P Require Import Prelude Error FilesInfo Entries EntryReads Archive Listing.

(** ** Symbols and the matcher *)

(** A character of a name, or half of a surrogate pair that stands alone. *)
Inductive NameSymbol := Unicode (character : Z) | UnpairedSurrogate (unit : Z).

#[global] Instance NameSymbol_eq_dec : EqDecision NameSymbol.
Proof. solve_decision. Defined.

Definition STAR : NameSymbol := Unicode 42.
Definition QUESTION : NameSymbol := Unicode 63.

(** The table [matched], a row for each position of the pattern. *)
Definition table_get (matched : list (list bool)) (p t : nat) : bool :=
  match matched !! p with Some row => default false (row !! t) | None => false end.
Definition table_set (matched : list (list bool)) (p t : nat) : list (list bool) :=
  alter (λ row : list bool, <[t := true]> row) p matched.

Section matcher.
  Context (pattern text : list NameSymbol).

(** The body of the inner loop. *)
Definition match_cell (matched : list (list bool)) (p_idx t_idx : nat) : list (list bool) :=
  if negb (table_get matched p_idx t_idx) then matched else
  let more := bool_decide (t_idx < length text)%nat in
  match pattern !! p_idx with
  | Some symbol =>
      if decide (symbol = STAR) then
        let matched := table_set matched (S p_idx) t_idx in
        if more then table_set matched p_idx (S t_idx) else matched
      else if bool_decide (symbol = QUESTION) && more then table_set matched (S p_idx) (S t_idx)
      else if more && bool_decide (text !! t_idx = Some symbol) then table_set matched (S p_idx) (S t_idx)
      else matched
  | None => matched
  end.

Definition match_row (matched : list (list bool)) (p_idx : nat) : list (list bool) :=
  fold_left (λ matched t_idx, match_cell matched p_idx t_idx) (seq 0 (S (length text))) matched.

Definition wildcard_match_symbols : bool :=
  let matched := replicate (S (length pattern)) (replicate (S (length text)) false) in
  let matched := table_set matched 0 0 in
  table_get (fold_left match_row (seq 0 (length pattern)) matched) (length pattern) (length text).

End matcher.

Definition wildcard_match (pattern text : list Z) : bool :=
  wildcard_match_symbols (map Unicode pattern) (map Unicode text).

(** [char::decode_utf16], each error as the surrogate that has no partner. *)
Fixpoint decode_utf16 (units : list Z) : list NameSymbol :=
  match units with
  | [] => []
  | u :: rest =>
      if is_surrogate u then
        if is_low_surrogate u then UnpairedSurrogate u :: decode_utf16 rest
        else
          match rest with
          | u2 :: rest2 =>
              if is_low_surrogate u2
              then Unicode (65536 + Z.lor (Z.shiftl (Z.land u 1023) 10) (Z.land u2 1023)) :: decode_utf16 rest2
              else UnpairedSurrogate u :: decode_utf16 rest
          | [] => [UnpairedSurrogate u]
          end
      else Unicode u :: decode_utf16 rest
  end.

(** The name is its UTF-16LE bytes. *)
Definition wildcard_match_raw (pattern : list Z) (name : bytes) : bool :=
  wildcard_match_symbols (map Unicode pattern) (decode_utf16 (fst (as_units name))).

(** ** Patterns *)

Definition slashes (path : list Z) : list Z := map (λ c, if decide (c = 92) then 47 else c) path.

Inductive EntryPatterns := AllEntries | Matching (patterns : list (list Z)).

Definition EntryPatterns_from_paths (paths : list (list Z)) : EntryPatterns :=
  match paths with [] => AllEntries | _ => Matching (map slashes paths) end.

Definition EntryPatterns_matches (self : EntryPatterns) (name : list Z) : bool :=
  match self with
  | AllEntries => true
  | Matching patterns => existsb (λ pattern, wildcard_match pattern name) patterns
  end.

Definition EntryPatterns_matches_entry (self : EntryPatterns) (entry : ArchiveEntryInfo) : bool :=
  match self with
  | AllEntries => true
  | Matching patterns =>
      existsb (λ pattern,
        match ai_raw_name entry with
        | None => wildcard_match pattern (ai_name entry)
        | Some name => wildcard_match_raw pattern (sl_data name)
        end) patterns
  end.

(** The entries are peeked at for patterns only. *)
Definition EntryPatterns_resolve_entries (self : EntryPatterns) (archive : Archive) : option (list ArchiveEntryInfo) :=
  let entries := filter (λ entry, EntryPatterns_matches self (ai_name entry) = true) (Archive_entries archive) in
  match self with
  | AllEntries => Some entries
  | Matching _ => match entries with [] => None | _ => Some entries end
  end.

(** ** Listings by folder *)

Record SelectedListing := { sel_entries : list ArchiveListingEntry; sel_patterns : EntryPatterns }.

(** The entries from the first match on. *)
Fixpoint from_first_match (patterns : EntryPatterns) (entries : list ArchiveListingEntry) :
    option (list ArchiveListingEntry) :=
  match entries with
  | [] => None
  | entry :: rest => if EntryPatterns_matches patterns (le_path entry) then Some entries else from_first_match patterns rest
  end.

Definition EntryPatterns_resolve_listing (self : EntryPatterns) (entries : list ArchiveListingEntry) : option SelectedListing :=
  let selected :=
    match self with AllEntries => Some entries | Matching _ => from_first_match self entries end in
  (λ entries, {| sel_entries := entries; sel_patterns := self |}) <$> selected.

(** The first entry with a stream, with the entries from it on. *)
Fixpoint first_block (entries : list ArchiveListingEntry) : option (Z * list ArchiveListingEntry) :=
  match entries with
  | [] => None
  | entry :: rest => match le_block entry with Some folder => Some (folder, entries) | None => first_block rest end
  end.

(** Split before the first entry of another folder. *)
Fixpoint split_group (folder : Z) (entries : list ArchiveListingEntry) :
    list ArchiveListingEntry * list ArchiveListingEntry :=
  match entries with
  | [] => ([], [])
  | entry :: rest =>
      if bool_decide (is_Some (le_block entry) ∧ le_block entry ≠ Some folder) then ([], entries)
      else let '(group, remaining) := split_group folder rest in (entry :: group, remaining)
  end.

Fixpoint folder_groups (fuel : nat) (entries : list ArchiveListingEntry) : list (Z * list ArchiveListingEntry) :=
  match fuel with
  | O => []
  | S fuel =>
      match first_block entries with
      | None => []
      | Some (folder, data_entries) =>
          let '(group, remaining) := split_group folder data_entries in
          (folder, group) :: folder_groups fuel remaining
      end
  end.
(** Each group has an entry, so there are at most as many groups as entries. *)
Definition listing_folder_groups (entries : list ArchiveListingEntry) : list (Z * list ArchiveListingEntry) :=
  folder_groups (length entries) entries.

Definition folder_indices (patterns : EntryPatterns) (entries : list ArchiveListingEntry) : list Z :=
  map le_index
    (filter (λ entry, is_Some (le_block entry) ∧ EntryPatterns_matches patterns (le_path entry) = true) entries).

Definition SelectedListing_folders (self : SelectedListing) : list (Z * list Z) :=
  omap (λ '(folder, entries),
    match folder_indices (sel_patterns self) entries with [] => None | indices => Some (folder, indices) end)
    (listing_folder_groups (sel_entries self)).

(** ** Lemmas: the matcher

    The reference: what a pattern means, by the shape of the pattern. *)

Inductive wildcard : list NameSymbol → list NameSymbol → Prop :=
| wildcard_nil : wildcard [] []
| wildcard_star_end pattern text : wildcard pattern text → wildcard (STAR :: pattern) text
| wildcard_star_more pattern c text : wildcard (STAR :: pattern) text → wildcard (STAR :: pattern) (c :: text)
| wildcard_question pattern c text : wildcard pattern text → wildcard (QUESTION :: pattern) (c :: text)
| wildcard_same pattern c text :
    c ≠ STAR → wildcard pattern text → wildcard (c :: pattern) (c :: text).

(** A table with a row for each position of the pattern and a column for each of the text. *)
Definition table_shape (rows columns : nat) (matched : list (list bool)) : Prop :=
  length matched = rows ∧ Forall (λ row, length row = columns) matched.

Lemma table_set_shape rows columns matched p t :
  table_shape rows columns matched → table_shape rows columns (table_set matched p t).
Proof.
  intros [Hl Hr]. split; [unfold table_set; by rewrite length_alter|].
  apply Forall_alter; [done|]. intros row _ <-. by rewrite length_insert.
Qed.

Lemma table_get_set rows columns matched p t p' t' :
  table_shape rows columns matched → (p < rows)%nat → (t < columns)%nat →
  table_get (table_set matched p t) p' t' = true ↔ (p' = p ∧ t' = t) ∨ table_get matched p' t' = true.
Proof.
  intros [Hl Hr] Hp Ht. unfold table_get, table_set.
  destruct (decide (p' = p)) as [->|Hne]; [|rewrite list_lookup_alter_ne by done; naive_solver].
  rewrite list_lookup_alter, decide_True by done. destruct (matched !! p) as [row|] eqn:E;
    [|apply lookup_ge_None in E; lia].
  assert (length row = columns) by (eapply Forall_lookup_1 in Hr; [exact Hr|exact E]).
  cbn [fmap option_fmap option_map].
  destruct (decide (t' = t)) as [->|Hne].
  - assert (<[t:=true]> row !! t = Some true) as -> by (apply list_lookup_insert_eq; lia). naive_solver.
  - assert (<[t:=true]> row !! t' = row !! t') as -> by (apply list_lookup_insert_ne; done). naive_solver.
Qed.

Lemma cons_drop {A} n (x : A) r l :
  x :: r = drop n l → l !! n = Some x ∧ r = drop (S n) l ∧ (n < length l)%nat.
Proof.
  intros E. assert (Hn : l !! n = Some x).
  { rewrite <- (Nat.add_0_r n), <- lookup_drop. by rewrite <- E. }
  split; [done|]. split; [|by eapply lookup_lt_Some]. rewrite (drop_S _ _ _ Hn) in E. by injection E.
Qed.
Lemma nil_drop {A} n (l : list A) : [] = drop n l → (length l ≤ n)%nat.
Proof. intros E. assert (length (drop n l) = 0%nat) as E' by (by rewrite <- E). rewrite length_drop in E'. lia. Qed.
Ltac split_drops :=
  repeat match goal with
  | H : _ :: _ = drop _ _ |- _ => let E := fresh "E" in let Hl := fresh "Hl" in apply cons_drop in H as (E & H & Hl)
  end.

Section correctness.
  Context (pattern text : list NameSymbol).

(** The cells a cell leads to. *)
Inductive leads (p t : nat) : nat → nat → Prop :=
| leads_star_end : pattern !! p = Some STAR → leads p t (S p) t
| leads_star_more : pattern !! p = Some STAR → (t < length text)%nat → leads p t p (S t)
| leads_question : pattern !! p = Some QUESTION → (t < length text)%nat → leads p t (S p) (S t)
| leads_same c : pattern !! p = Some c → c ≠ STAR → text !! t = Some c → leads p t (S p) (S t).

Abbreviation shaped := (table_shape (S (length pattern)) (S (length text))).

Lemma match_cell_shape matched p t : shaped matched → shaped (match_cell pattern text matched p t).
Proof.
  intros Hs. unfold match_cell. repeat case_match; auto using table_set_shape.
Qed.

(** A cell keeps what was marked and marks what it leads to. *)
Lemma match_cell_spec matched p t p' t' :
  shaped matched → (t ≤ length text)%nat →
  table_get (match_cell pattern text matched p t) p' t' = true ↔
  table_get matched p' t' = true ∨ (table_get matched p t = true ∧ leads p t p' t').
Proof.
  intros Hs Ht. unfold match_cell.
  destruct (table_get matched p t) eqn:Eg; cbn [negb]; [|naive_solver].
  destruct (pattern !! p) as [symbol|] eqn:Ep;
    [|split; [by left|intros [?|[_ Hl]]; [done|inversion Hl; congruence]]].
  pose proof (lookup_lt_Some _ _ _ Ep) as Hp.
  destruct (decide (symbol = STAR)) as [->|Hstar].
  - case_bool_decide as Hlt.
    + rewrite (table_get_set (S (length pattern)) (S (length text))) by (try apply table_set_shape; auto; lia).
      rewrite (table_get_set (S (length pattern)) (S (length text))) by (auto; lia).
      split.
      * intros [[-> ->]|[[-> ->]|?]]; [right|right|by left]; (split; [done|]); by constructor.
      * intros [?|[_ Hl]]; [by do 2 right|]. inversion Hl; subst; try naive_solver; congruence.
    + rewrite (table_get_set (S (length pattern)) (S (length text))) by (auto; lia).
      split.
      * intros [[-> ->]|?]; [right|by left]. split; [done|]. by constructor.
      * intros [?|[_ Hl]]; [by right|]. inversion Hl; subst; try naive_solver; try lia; congruence.
  - destruct (bool_decide (symbol = QUESTION) && bool_decide (t < length text)%nat) eqn:Eq.
    + apply andb_true_iff in Eq as [->%bool_decide_eq_true Hlt%bool_decide_eq_true].
      rewrite (table_get_set (S (length pattern)) (S (length text))) by (auto; lia). split.
      * intros [[-> ->]|?]; [right|by left]. split; [done|]. by apply leads_question.
      * intros [?|[_ Hl]]; [by right|]. inversion Hl; subst; try naive_solver; congruence.
    + destruct (bool_decide (t < length text)%nat && bool_decide (text !! t = Some symbol)) eqn:Es.
      * apply andb_true_iff in Es as [Hlt%bool_decide_eq_true Et%bool_decide_eq_true].
        rewrite (table_get_set (S (length pattern)) (S (length text))) by (auto; lia). split.
        -- intros [[-> ->]|?]; [right|by left]. split; [done|]. by eapply leads_same.
        -- intros [?|[_ Hl]]; [by right|]. inversion Hl; subst; try naive_solver; congruence.
      * split; [by left|]. intros [?|[_ Hl]]; [done|].
        inversion Hl as [E|E|E Hlt|c E Hc Et]; subst; rewrite Ep in E; injection E as ->; try congruence.
        -- rewrite (bool_decide_eq_true_2 (t < _)%nat) in Eq by done.
           rewrite bool_decide_eq_true_2 in Eq by done. done.
        -- pose proof (lookup_lt_Some _ _ _ Et).
           rewrite !bool_decide_eq_true_2 in Es by done. done.
Qed.

(** Marks are sound: what a marked cell still matches makes the whole match. *)
Definition sound (matched : list (list bool)) : Prop :=
  ∀ p t, table_get matched p t = true → (p ≤ length pattern)%nat ∧ (t ≤ length text)%nat ∧
    (wildcard (drop p pattern) (drop t text) → wildcard pattern text).

Lemma leads_within p t p' t' :
  (t ≤ length text)%nat → leads p t p' t' →
  (p' ≤ length pattern)%nat ∧ (t' ≤ length text)%nat ∧
  (wildcard (drop p' pattern) (drop t' text) → wildcard (drop p pattern) (drop t text)).
Proof.
  intros Ht Hl. inversion Hl as [E|E Hlt|E Hlt|c E Hc Et]; subst;
    pose proof (lookup_lt_Some _ _ _ E) as Hp; (split; [lia|]); try (pose proof (lookup_lt_Some _ _ _ Et)); (split; [lia|]);
    intros Hw; rewrite (drop_S _ _ _ E) in *.
  - by constructor.
  - destruct (lookup_lt_is_Some_2 text t Hlt) as [c Ec]. rewrite (drop_S _ _ _ Ec). by constructor.
  - destruct (lookup_lt_is_Some_2 text t Hlt) as [c Ec]. rewrite (drop_S _ _ _ Ec). by constructor.
  - rewrite (drop_S _ _ _ Et). by constructor.
Qed.

(** Marks are closed at the cells the loops are done with. *)
Definition closed_at (matched : list (list bool)) (p t : nat) : Prop :=
  ∀ p' t', table_get matched p t = true → leads p t p' t' → table_get matched p' t' = true.
Definition done_before (p t p' t' : nat) : Prop := (p' < p ∨ (p' = p ∧ t' < t))%nat ∧ (t' ≤ length text)%nat.

Record scanned (p t : nat) (matched : list (list bool)) : Prop := {
  sc_shape : shaped matched;
  sc_start : table_get matched 0 0 = true;
  sc_sound : sound matched;
  sc_closed : ∀ p' t', done_before p t p' t' → closed_at matched p' t'
}.

Lemma leads_later p t p' t' : leads p t p' t' → (p < p' ∨ (p = p' ∧ t < t'))%nat.
Proof. inversion 1; lia. Qed.

Lemma match_cell_scanned matched p t :
  scanned p t matched → (t ≤ length text)%nat → scanned p (S t) (match_cell pattern text matched p t).
Proof.
  intros [Hs H0 Hso Hc] Ht. constructor.
  - by apply match_cell_shape.
  - apply match_cell_spec; [done..|]. by left.
  - intros p' t' [Hg|[Hg Hl]]%match_cell_spec; [by apply Hso| |done..].
    destruct (leads_within p t p' t' Ht Hl) as (?&?&?). destruct (Hso p t Hg) as (?&?&?).
    split_and!; [done..|auto].
  - intros p' t' Hd p'' t'' [Hg|[Hg Hl]]%match_cell_spec Hl'; [| |done..].
    + apply match_cell_spec; [done..|]. destruct (decide (p' = p ∧ t' = t)) as [[-> ->]|Hne].
      * right. by split.
      * left. eapply Hc; [|exact Hg|exact Hl']. unfold done_before in *. lia.
    + apply leads_later in Hl. unfold done_before in Hd. lia.
Qed.

Lemma match_row_scanned matched p :
  scanned p 0 matched → scanned (S p) 0 (match_row pattern text matched p).
Proof.
  intros Hs. unfold match_row.
  enough (Hgo : ∀ n t m, (t + n = S (length text))%nat → scanned p t m →
    scanned p (S (length text)) (fold_left (λ m t, match_cell pattern text m p t) (seq t n) m)).
  { destruct (Hgo (S (length text)) 0%nat matched eq_refl Hs) as [? ? ? Hc]. constructor; [done..|].
    intros p' t' Hd. apply Hc. unfold done_before in *. lia. }
  induction n as [|n IH]; intros t m Hn Hm; cbn [seq fold_left].
  - by replace t with (S (length text)) in Hm by lia.
  - apply IH; [lia|]. apply match_cell_scanned; [done|lia].
Qed.

Lemma all_rows_scanned n p matched :
  scanned p 0 matched → scanned (p + n) 0 (fold_left (match_row pattern text) (seq p n) matched).
Proof.
  revert p matched. induction n as [|n IH]; intros p matched Hs; cbn [seq fold_left].
  - by rewrite Nat.add_0_r.
  - replace (p + S n)%nat with (S p + n)%nat by lia. by apply IH, match_row_scanned.
Qed.

Lemma table_start_scanned :
  scanned 0 0 (table_set (replicate (S (length pattern)) (replicate (S (length text)) false)) 0 0).
Proof.
  set (blank := replicate _ _).
  assert (Hb : shaped blank).
  { split; [apply length_replicate|]. apply Forall_replicate. apply length_replicate. }
  assert (Hf : ∀ p t, table_get blank p t = false).
  { intros p t. unfold table_get, blank. destruct (replicate _ _ !! p) as [row|] eqn:E; [|done].
    apply lookup_replicate in E as [-> _]. destruct (replicate _ false !! t) eqn:E'; [|done].
    by apply lookup_replicate in E' as [-> _]. }
  constructor.
  - by apply table_set_shape.
  - eapply table_get_set; [exact Hb|lia|lia|]. by left.
  - intros p t Hg. eapply table_get_set in Hg as [[-> ->]|Hg]; [| |exact Hb|lia|lia].
    + split_and!; [lia|lia|done].
    + by rewrite Hf in Hg.
  - intros p' t' Hd. unfold done_before in Hd. lia.
Qed.

(** In a closed table a match leads from a marked cell to the last one. *)
Lemma closed_reaches matched ps ts :
  wildcard ps ts →
  (∀ p t, (p < length pattern)%nat → (t ≤ length text)%nat → closed_at matched p t) →
  ∀ p t, (p ≤ length pattern)%nat → (t ≤ length text)%nat → ps = drop p pattern → ts = drop t text →
  table_get matched p t = true → table_get matched (length pattern) (length text) = true.
Proof.
  intros Hw Hc.
  assert (Hstep : ∀ p t p' t', table_get matched p t = true → (p < length pattern)%nat → (t ≤ length text)%nat →
    leads p t p' t' → table_get matched p' t' = true).
  { intros p t p' t' Hg Hp Ht Hl. by eapply Hc. }
  induction Hw; intros p t Hp Ht Eps Ets Hg; split_drops.
  - apply nil_drop in Eps, Ets. by replace (length pattern) with p by lia; replace (length text) with t by lia.
  - apply (IHHw (S p) t); [lia..|done|done|]. eapply Hstep; eauto using leads.
  - apply (IHHw p (S t)); [lia..|by rewrite Eps, <- (drop_S _ _ _ E0)|done|]. eapply Hstep; eauto using leads.
  - apply (IHHw (S p) (S t)); [lia..|done|done|]. eapply Hstep; eauto using leads.
  - apply (IHHw (S p) (S t)); [lia..|done|done|]. eapply Hstep; eauto using leads.
Qed.

Lemma wildcard_match_symbols_iff : wildcard_match_symbols pattern text = true ↔ wildcard pattern text.
Proof.
  unfold wildcard_match_symbols.
  pose proof (all_rows_scanned (length pattern) 0 _ table_start_scanned) as [Hs H0 Hso Hc]. cbn [Nat.add] in *.
  set (final := fold_left _ _ _) in *. split.
  - intros Hg. destruct (Hso _ _ Hg) as (_&_&Hw). apply Hw. rewrite !drop_all. constructor.
  - intros Hw. eapply (closed_reaches final _ _ Hw); [|apply Nat.le_0_l|apply Nat.le_0_l|by rewrite drop_0..|done].
    intros p t Hp Ht. apply Hc. unfold done_before. lia.
Qed.

End correctness.

(** ** Lemmas: names and groups *)

(** A name of scalar values is decoded to them. *)
Lemma decode_utf16_char c rest :
  is_scalar c → decode_utf16 (encode_utf16_char c ++ rest) = Unicode c :: decode_utf16 rest.
Proof.
  intros Hc. pose proof (decode_encode_char c [] Hc) as Hd. unfold encode_utf16_char in *.
  destruct (decide (c < 65536)) as [Hlt|Hge].
  - cbn. unfold is_surrogate. by rewrite bool_decide_eq_false_2 by (unfold is_scalar in Hc; lia).
  - cbn [app decode_utf16 decode_utf16_lossy] in *.
    set (high := 55296 + _) in *. set (low := 56320 + _) in *.
    assert (Hh : is_surrogate high = true ∧ is_low_surrogate high = false ∧ is_low_surrogate low = true).
    { assert (0 ≤ Z.shiftr (c - 65536) 10 < 1024).
      { rewrite Z.shiftr_div_pow2 by lia. unfold is_scalar in Hc. change (2 ^ 10) with 1024.
        split; [apply Z.div_pos; lia|apply Z.div_lt_upper_bound; lia]. }
      assert (0 ≤ Z.land (c - 65536) 1023 < 1024) by (rewrite land_1023; apply Z.mod_pos_bound; lia).
      unfold is_surrogate, is_low_surrogate, high, low.
      rewrite !bool_decide_eq_true, bool_decide_eq_false. lia. }
    destruct Hh as (E1&E2&E3). rewrite E1, E2, E3 in Hd. rewrite E1, E2, E3.
    injection Hd as Hd. by rewrite Hd.
Qed.

Lemma decode_utf16_encode s : Forall is_scalar s → decode_utf16 (encode_utf16 s) = map Unicode s.
Proof.
  unfold encode_utf16. induction 1 as [|c s Hc Hs IH]; [done|]. cbn [map concat].
  by rewrite decode_utf16_char, IH.
Qed.

Lemma split_group_app folder entries group remaining :
  split_group folder entries = (group, remaining) →
  entries = group ++ remaining ∧ Forall (λ entry, is_Some (le_block entry) → le_block entry = Some folder) group.
Proof.
  revert group remaining. induction entries as [|entry entries IH]; intros group remaining; cbn.
  - intros [= <- <-]. by split.
  - case_bool_decide as Hb; [intros [= <- <-]; by split|].
    destruct (split_group folder entries) as [g r] eqn:E. intros [= <- <-].
    destruct (IH _ _ eq_refl) as [-> Hg]. split; [done|]. constructor; [|done].
    intros Hs. destruct (decide (le_block entry = Some folder)); tauto.
Qed.

Lemma first_block_spec entries :
  match first_block entries with
  | Some (folder, data) =>
      ∃ skipped entry rest, entries = skipped ++ data ∧ data = entry :: rest ∧ le_block entry = Some folder ∧
        Forall (λ entry, le_block entry = None) skipped
  | None => Forall (λ entry, le_block entry = None) entries
  end.
Proof.
  induction entries as [|entry entries IH]; cbn; [done|].
  destruct (le_block entry) as [folder|] eqn:E; [by exists [], entry, entries|].
  destruct (first_block entries) as [[folder data]|]; [|by constructor].
  destruct IH as (skipped&e&rest&->&->&?&?). exists (entry :: skipped), e, rest. split_and!; try done. by constructor.
Qed.

Definition has_block (entry : ArchiveListingEntry) : Prop := is_Some (le_block entry).
#[global] Instance has_block_dec entry : Decision (has_block entry).
Proof. unfold has_block. apply _. Defined.

Lemma filter_no_block entries : Forall (λ entry, le_block entry = None) entries → filter has_block entries = [].
Proof.
  induction 1 as [|entry entries He Hr IH]; [done|]. rewrite filter_cons_False; [done|].
  unfold has_block. rewrite He. by intros [? ?].
Qed.

(** The groups hold the entries with a stream, in order, each group those of one folder. *)
Lemma folder_groups_spec fuel entries :
  (length entries ≤ fuel)%nat →
  concat (map (λ group : Z * list ArchiveListingEntry, filter has_block group.2) (folder_groups fuel entries))
    = filter has_block entries ∧
  Forall (λ group : Z * list ArchiveListingEntry,
    Forall (λ entry, has_block entry → le_block entry = Some group.1) group.2 ∧
    ∃ entry rest, group.2 = entry :: rest ∧ le_block entry = Some group.1) (folder_groups fuel entries).
Proof.
  revert entries. induction fuel as [|fuel IH]; intros entries Hl; cbn [folder_groups].
  { destruct entries; [by split|cbn in Hl; lia]. }
  pose proof (first_block_spec entries) as Hf. destruct (first_block entries) as [[folder data]|].
  2:{ split; [by rewrite filter_no_block|constructor]. }
  destruct Hf as (skipped&entry&rest&->&->&Hb&Hs).
  destruct (split_group folder (entry :: rest)) as [group remaining] eqn:Eg.
  destruct (split_group_app _ _ _ _ Eg) as [Ee Hg].
  cbn in Eg. rewrite bool_decide_eq_false_2 in Eg by tauto.
  destruct (split_group folder rest) as [g r]. injection Eg as <- <-.
  rewrite Ee, length_app in Hl. cbn [length app] in Hl. rewrite length_app in Hl.
  destruct (IH r ltac:(lia)) as [IHc IHf]. split.
  - cbn [map concat snd]. rewrite IHc, <- filter_app, (filter_app _ skipped), (filter_no_block skipped) by done.
    by rewrite Ee.
  - constructor; [|done]. split; [done|]. by exists entry, g.
Qed.

Lemma folder_indices_filter patterns entries :
  folder_indices patterns entries =
    map le_index (filter (λ entry, EntryPatterns_matches patterns (le_path entry) = true) (filter has_block entries)).
Proof. unfold folder_indices. rewrite list_filter_filter. f_equal. apply list_filter_iff. intros x. cbn. unfold has_block. tauto. Qed.

Lemma from_first_match_filter patterns entries :
  match from_first_match patterns entries with
  | Some selected => ∃ skipped, entries = skipped ++ selected ∧
      Forall (λ entry, EntryPatterns_matches patterns (le_path entry) = false) skipped
  | None => Forall (λ entry, EntryPatterns_matches patterns (le_path entry) = false) entries
  end.
Proof.
  induction entries as [|entry entries IH]; cbn; [done|].
  destruct (EntryPatterns_matches patterns (le_path entry)) eqn:E; [by exists []|].
  destruct (from_first_match patterns entries); [|by constructor].
  destruct IH as (skipped&->&?). exists (entry :: skipped). split; [done|]. by constructor.
Qed.

Lemma filter_blocks_twice (entries : list ArchiveListingEntry) : filter has_block (filter has_block entries) = filter has_block entries.
Proof. rewrite list_filter_filter. apply list_filter_iff. tauto. Qed.

(** The groups that keep an index, with all their indices. *)
Lemma selected_indices patterns groups :
  concat (map snd (omap (λ '(folder, entries),
    match folder_indices patterns entries with [] => None | indices => Some (folder, indices) end) groups)) =
  folder_indices patterns (concat (map (λ group : Z * list ArchiveListingEntry, filter has_block group.2) groups)).
Proof.
  rewrite folder_indices_filter. induction groups as [|[folder entries] groups IH]; [done|].
  cbn [map concat omap list_omap snd]. rewrite !filter_app, map_app.
  rewrite filter_blocks_twice.
  rewrite <- folder_indices_filter. rewrite <- IH.
  destruct (folder_indices patterns entries) as [|i indices] eqn:E; [done|].
  done.
Qed.

Lemma folder_indices_skip patterns skipped entries :
  Forall (λ entry, EntryPatterns_matches patterns (le_path entry) = false) skipped →
  folder_indices patterns (skipped ++ entries) = folder_indices patterns entries.
Proof.
  intros Hs. unfold folder_indices. rewrite filter_app. f_equal.
  induction Hs as [|entry skipped He Hr IH]; [done|].
  rewrite (filter_cons_False _ entry); [done|]. rewrite He. by intros [_ ?].
Qed.

Lemma folder_indices_with_block patterns entries :
  folder_indices patterns (filter has_block entries) = folder_indices patterns entries.
Proof. by rewrite !folder_indices_filter, filter_blocks_twice. Qed.

(** A listed folder: its indices are those of matching entries of that folder. *)
Definition indices_of_folder (patterns : EntryPatterns) (entries : list ArchiveListingEntry) (group : Z * list Z) : Prop :=
  group.2 ≠ [] ∧
  ∀ index, index ∈ group.2 → ∃ entry, entry ∈ entries ∧ le_index entry = index ∧
    le_block entry = Some group.1 ∧ EntryPatterns_matches patterns (le_path entry) = true.

Lemma listed_folders patterns entries :
  let folders := SelectedListing_folders {| sel_entries := entries; sel_patterns := patterns |} in
  concat (map snd folders) = folder_indices patterns entries ∧ Forall (indices_of_folder patterns entries) folders.
Proof.
  cbn zeta. unfold SelectedListing_folders, listing_folder_groups. cbn [sel_patterns sel_entries].
  destruct (folder_groups_spec (length entries) entries ltac:(done)) as [Hc Hf].
  rewrite selected_indices, Hc, folder_indices_with_block. split; [done|].
  assert (Hin : ∀ group entry, group ∈ folder_groups (length entries) entries → entry ∈ filter has_block group.2 → entry ∈ entries).
  { intros group entry Hg He. eapply (list_elem_of_filter has_block). rewrite <- Hc.
    apply list_elem_of_In, in_concat. exists (filter has_block group.2). split; [|by apply list_elem_of_In].
    apply in_map_iff. exists group. split; [done|]. by apply list_elem_of_In. }
  apply Forall_forall. intros group Hg. apply list_elem_of_omap in Hg as ([folder group']&Hg&E).
  rewrite Forall_forall in Hf. destruct (Hf _ Hg) as [Hb _]. cbn in Hb.
  assert (Hi : group = (folder, folder_indices patterns group') ∧ folder_indices patterns group' ≠ []).
  { destruct (folder_indices patterns group'); [done|]. by injection E as <-. }
  destruct Hi as [-> Hne]. split; [done|]. intros index Hi. cbn in Hi.
  apply list_elem_of_fmap in Hi as (entry&->&[[Hblock Hm] He]%list_elem_of_filter).
  exists entry. split_and!; try done.
  - eapply Hin; [exact Hg|]. by apply list_elem_of_filter.
  - rewrite Forall_forall in Hb. by apply Hb.
Qed.

(** The symbols of an entry's name: the stored units where the name is stored. *)
Definition entry_symbols (entry : ArchiveEntryInfo) : list NameSymbol :=
  match ai_raw_name entry with
  | None => map Unicode (ai_name entry)
  | Some name => decode_utf16 (fst (as_units (sl_data name)))
  end.

(** What a selection of a listing is. *)
Lemma resolve_listing_spec self entries :
  match EntryPatterns_resolve_listing self entries with
  | Some selected =>
      concat (map snd (SelectedListing_folders selected)) = folder_indices self entries ∧
      Forall (indices_of_folder self entries) (SelectedListing_folders selected)
  | None =>
      self ≠ AllEntries ∧ Forall (λ entry, EntryPatterns_matches self (le_path entry) = false) entries
  end.
Proof.
  unfold EntryPatterns_resolve_listing. destruct self as [|patterns]; [apply listed_folders|].
  pose proof (from_first_match_filter (Matching patterns) entries) as Hf.
  destruct (from_first_match (Matching patterns) entries) as [selected|]; cbn [fmap option_fmap option_map]; [|by split].
  destruct Hf as (skipped&->&Hs). destruct (listed_folders (Matching patterns) selected) as [Hc Hg].
  split; [by rewrite Hc, folder_indices_skip|].
  eapply Forall_impl; [exact Hg|]. intros group [Hne Hi]. split; [done|]. intros index Hin.
  destruct (Hi index Hin) as (entry&He&?). exists entry. split; [|done]. apply elem_of_app. by right.
Qed.

(** ** Properties *)

(** C33. The table of reachable positions decides the wildcard language: a star stands for
    any symbols, a question mark for one, every other symbol for itself. An entry of an
    archive is selected for deletion exactly if there are no patterns or one of them, with
    its backslashes as slashes, matches the entry's stored units or, without a stored name, its text; a stored
    name that encodes a text is matched as that text. *)
Theorem patterns_decide_the_wildcard_language :
  (∀ pattern text, wildcard_match_symbols pattern text = true ↔ wildcard pattern text) ∧
  (∀ paths entry, EntryPatterns_matches_entry (EntryPatterns_from_paths paths) entry = true ↔
     paths = [] ∨ ∃ path, path ∈ paths ∧ wildcard (map Unicode (slashes path)) (entry_symbols entry)) ∧
  (∀ pattern name raw, Forall is_scalar name → as_units raw = (encode_utf16 name, []) →
     wildcard_match_raw pattern raw = wildcard_match pattern name).
Proof.
  split_and!.
  - apply wildcard_match_symbols_iff.
  - intros paths entry. destruct paths as [|path paths]; [cbn; naive_solver|].
    cbn [EntryPatterns_from_paths EntryPatterns_matches_entry]. rewrite existsb_exists. split.
    + intros (p&Hp%list_elem_of_In&Hm). right. apply list_elem_of_fmap in Hp as (path'&->&Hp). exists path'. split; [done|].
      apply wildcard_match_symbols_iff. unfold entry_symbols. by destruct (ai_raw_name entry).
    + intros [?|(path'&Hp&Hw)]; [done|]. exists (slashes path'). split; [by apply list_elem_of_In, list_elem_of_fmap_2|].
      apply wildcard_match_symbols_iff in Hw. unfold entry_symbols in Hw. by destruct (ai_raw_name entry).
  - intros pattern name raw Hn Hr. unfold wildcard_match_raw, wildcard_match. rewrite Hr. cbn [fst]. by rewrite decode_utf16_encode.
Qed.

(** A selection of a listing by patterns is refused exactly if nothing matches, and its
    folders are a partition of what was selected: put together, their indices are those of
    the matching entries with a stream, in the listing's order, and each
    folder has an index and only indices of its own entries. *)
Theorem selected_folders_partition self entries :
  match EntryPatterns_resolve_listing self entries with
  | Some selected =>
      concat (map snd (SelectedListing_folders selected)) = folder_indices self entries ∧
      Forall (indices_of_folder self entries) (SelectedListing_folders selected)
  | None =>
      self ≠ AllEntries ∧ Forall (λ entry, EntryPatterns_matches self (le_path entry) = false) entries
  end.
Proof. apply resolve_listing_spec. Qed.

Example wildcards :
  wildcard_match [42; 46; 116; 63; 116] [97; 46; 98; 46; 116; 120; 116] = true ∧
  wildcard_match [42; 46; 116; 63; 116] [97; 46; 116; 116] = false ∧
  wildcard_match [] [] = true ∧ wildcard_match [42] [] = true ∧
  wildcard_match_raw [63] [0; 216] = true.
Proof. vm_compute. done. Qed.
