(* ===== verification/CommandLine.v ===== *)
(** * The command line (src/src/bin/r7z.rs)

    The switches of the tool and what they set in the archive options, the parsing of a
    command line, and the exit codes. Strings are lists of scalar values; a path given on
    the command line is its string. *)

From stdpp Require Import base numbers list option strings.
From Stdlib Require Import ZArith Lia.
From S2P Require Import Prelude Method Error WriteOptions Lzma2Encoder ArchiveWriter ArchiveBuilder Listing Volumes.

(** ** Strings *)

(** [str::starts_with] and [str::split_once]. *)
Definition starts_with (p s : list Z) : bool := match strip_prefix p s with Some _ => true | None => false end.
Fixpoint split_once (c : Z) (s : list Z) : option (list Z * list Z) :=
  match s with
  | [] => None
  | x :: s =>
      if decide (x = c) then Some ([], s)
      else match split_once c s with Some (a, b) => Some (x :: a, b) | None => None end
  end.
(** [str::trim_start_matches] with a prefix that is not empty; each step shortens the string. *)
Fixpoint trim_start_matches (fuel : nat) (p s : list Z) : list Z :=
  match fuel with
  | O => s
  | S fuel => match strip_prefix p s with Some s => trim_start_matches fuel p s | None => s end
  end.
Definition lowercase (s : list Z) : list Z := map to_ascii_lowercase s.
(** [str::parse::<u32>]. *)
Definition parse_u32 (s : list Z) : option Z :=
  match parse_u64 s with Some v => if decide (v ≤ u32_max) then Some v else None | None => None end.
(** The value after an equals sign that may be left out. *)
Definition strip_equals (s : list Z) : list Z := default s (strip_prefix [61] s).

(** ** Errors and exit codes *)

Inductive CliError := Usage (message : list Z) | Fatal (error : R7zError) | FatalMessage (message : list Z).

Definition EXIT_OK : Z := 0.
Definition EXIT_WARNING : Z := 1.
Definition EXIT_FATAL : Z := 2.
Definition EXIT_COMMAND_LINE : Z := 7.
Definition CLI_MAX_LZMA2_CHUNK_SIZE : Z := 1024 * 1024 * 1024.

(** The exit code of [main] for what [run] returns. *)
Definition exit_code (outcome : result Z CliError) : Z :=
  match outcome with
  | Ok code => code
  | Err (Usage _) => EXIT_COMMAND_LINE
  | Err (Fatal _) | Err (FatalMessage _) => EXIT_FATAL
  end.

Definition is_help (s : list Z) : bool :=
  bool_decide (s ∈ [text "-h"; text "--help"; text "h"; text "help"]).

(** The code prints it over two lines. *)
Definition usage : list Z :=
  text "usage: r7z <l|x|e|t|a|d|u> [switches] <archive.7z> [files...]" ++ [10] ++
  text "switches: -oDIR -pPASS -m0=METHOD -mx=N -ms=on|off -mf=BCJ -mhe=on|off -vSIZE -aoa|-aos -slt -mmt=off|on|N".

(** ** Commands *)

Inductive CommandKind := KindList | KindTest | KindExtractFull | KindExtractFlat | KindAdd | KindUpdate | KindDelete.

(** The operands of the last three are [NonEmptyPaths]. *)
Inductive Command :=
| CommandList (operands : list (list Z))
| CommandTest (operands : list (list Z))
| CommandExtractFull (operands : list (list Z))
| CommandExtractFlat (operands : list (list Z))
| CommandAdd (operands : list (list Z))
| CommandUpdate (operands : list (list Z))
| CommandDelete (operands : list (list Z)).

Definition NonEmptyPaths_new (paths : list (list Z)) (empty_message : string) : result (list (list Z)) CliError :=
  match paths with [] => Err (Usage (text empty_message)) | _ => Ok paths end.

Definition CommandKind_with_operands (self : CommandKind) (paths : list (list Z)) : result Command CliError :=
  match self with
  | KindList => Ok (CommandList paths)
  | KindTest => Ok (CommandTest paths)
  | KindExtractFull => Ok (CommandExtractFull paths)
  | KindExtractFlat => Ok (CommandExtractFlat paths)
  | KindAdd => result_map CommandAdd (NonEmptyPaths_new paths "no input files were provided")
  | KindUpdate => result_map CommandUpdate (NonEmptyPaths_new paths "no input files were provided")
  | KindDelete => result_map CommandDelete (NonEmptyPaths_new paths "no archive entries were provided")
  end.

Inductive OverwriteMode := Ask | Overwrite | SkipExisting.
Inductive SettingOrigin := OriginDefault | OriginExplicit.
#[global] Instance OverwriteMode_eq_dec : EqDecision OverwriteMode.
Proof. solve_decision. Defined.
#[global] Instance SettingOrigin_eq_dec : EqDecision SettingOrigin.
Proof. solve_decision. Defined.

Record Cli := {
  cli_command : Command;
  cli_archive : list Z;
  cli_output_dir : list Z;
  cli_password : option (list Z);
  cli_options : ArchiveOptions;
  cli_technical : bool;
  cli_volume_sizes : list Z;
  cli_overwrite_mode : OverwriteMode;
  cli_assume_yes : bool
}.

Record CliParseState := {
  ps_output_dir : list Z;
  ps_password : option (list Z);
  ps_options : ArchiveOptions;
  ps_technical : bool;
  ps_method_origin : SettingOrigin;
  ps_threading_origin : SettingOrigin;
  ps_volume_sizes : list Z;
  ps_overwrite_mode : OverwriteMode;
  ps_assume_yes : bool
}.

Definition CliParseState_default : CliParseState :=
  {| ps_output_dir := text "."; ps_password := None; ps_options := ArchiveOptions_default; ps_technical := false;
     ps_method_origin := OriginDefault; ps_threading_origin := OriginDefault; ps_volume_sizes := [];
     ps_overwrite_mode := Ask; ps_assume_yes := false |}.

(** ** Assignments to fields *)

Section assignments.
  Context (c : CompressionOptions).
Definition rebuild (level : CompressionLevel) (dict fast lc lp pb : option Z) (mf : option MatchFinder)
    (algorithm : option LzmaAlgorithm) (cycles : option Z) (solid : SolidMode) (chunk : option Z)
    (threads : EncoderThreads) : CompressionOptions :=
  {| co_level := level; co_dictionary_size := dict; co_fast_bytes := fast; co_literal_context_bits := lc;
     co_literal_position_bits := lp; co_position_bits := pb; co_match_finder := mf; co_lzma_algorithm := algorithm;
     co_match_cycles := cycles; co_solid := solid; co_lzma2_chunk_size := chunk; co_threads := threads;
     co_encoder_memory_limit := co_encoder_memory_limit c |}.
Definition with_level (v : CompressionLevel) : CompressionOptions :=
  rebuild v (co_dictionary_size c) (co_fast_bytes c) (co_literal_context_bits c) (co_literal_position_bits c)
    (co_position_bits c) (co_match_finder c) (co_lzma_algorithm c) (co_match_cycles c) (co_solid c) (co_lzma2_chunk_size c) (co_threads c).
Definition with_dictionary_size (v : Z) : CompressionOptions :=
  rebuild (co_level c) (Some v) (co_fast_bytes c) (co_literal_context_bits c) (co_literal_position_bits c)
    (co_position_bits c) (co_match_finder c) (co_lzma_algorithm c) (co_match_cycles c) (co_solid c) (co_lzma2_chunk_size c) (co_threads c).
Definition with_fast_bytes (v : Z) : CompressionOptions :=
  rebuild (co_level c) (co_dictionary_size c) (Some v) (co_literal_context_bits c) (co_literal_position_bits c)
    (co_position_bits c) (co_match_finder c) (co_lzma_algorithm c) (co_match_cycles c) (co_solid c) (co_lzma2_chunk_size c) (co_threads c).
Definition with_literal_context_bits (v : Z) : CompressionOptions :=
  rebuild (co_level c) (co_dictionary_size c) (co_fast_bytes c) (Some v) (co_literal_position_bits c)
    (co_position_bits c) (co_match_finder c) (co_lzma_algorithm c) (co_match_cycles c) (co_solid c) (co_lzma2_chunk_size c) (co_threads c).
Definition with_literal_position_bits (v : Z) : CompressionOptions :=
  rebuild (co_level c) (co_dictionary_size c) (co_fast_bytes c) (co_literal_context_bits c) (Some v)
    (co_position_bits c) (co_match_finder c) (co_lzma_algorithm c) (co_match_cycles c) (co_solid c) (co_lzma2_chunk_size c) (co_threads c).
Definition with_position_bits (v : Z) : CompressionOptions :=
  rebuild (co_level c) (co_dictionary_size c) (co_fast_bytes c) (co_literal_context_bits c) (co_literal_position_bits c)
    (Some v) (co_match_finder c) (co_lzma_algorithm c) (co_match_cycles c) (co_solid c) (co_lzma2_chunk_size c) (co_threads c).
Definition with_match_finder (v : MatchFinder) : CompressionOptions :=
  rebuild (co_level c) (co_dictionary_size c) (co_fast_bytes c) (co_literal_context_bits c) (co_literal_position_bits c)
    (co_position_bits c) (Some v) (co_lzma_algorithm c) (co_match_cycles c) (co_solid c) (co_lzma2_chunk_size c) (co_threads c).
Definition with_lzma_algorithm (v : LzmaAlgorithm) : CompressionOptions :=
  rebuild (co_level c) (co_dictionary_size c) (co_fast_bytes c) (co_literal_context_bits c) (co_literal_position_bits c)
    (co_position_bits c) (co_match_finder c) (Some v) (co_match_cycles c) (co_solid c) (co_lzma2_chunk_size c) (co_threads c).
Definition with_match_cycles (v : Z) : CompressionOptions :=
  rebuild (co_level c) (co_dictionary_size c) (co_fast_bytes c) (co_literal_context_bits c) (co_literal_position_bits c)
    (co_position_bits c) (co_match_finder c) (co_lzma_algorithm c) (Some v) (co_solid c) (co_lzma2_chunk_size c) (co_threads c).
Definition with_solid (v : SolidMode) : CompressionOptions :=
  rebuild (co_level c) (co_dictionary_size c) (co_fast_bytes c) (co_literal_context_bits c) (co_literal_position_bits c)
    (co_position_bits c) (co_match_finder c) (co_lzma_algorithm c) (co_match_cycles c) v (co_lzma2_chunk_size c) (co_threads c).
Definition with_chunk_size (v : Z) : CompressionOptions :=
  rebuild (co_level c) (co_dictionary_size c) (co_fast_bytes c) (co_literal_context_bits c) (co_literal_position_bits c)
    (co_position_bits c) (co_match_finder c) (co_lzma_algorithm c) (co_match_cycles c) (co_solid c) (Some v) (co_threads c).
Definition with_threads (v : EncoderThreads) : CompressionOptions :=
  rebuild (co_level c) (co_dictionary_size c) (co_fast_bytes c) (co_literal_context_bits c) (co_literal_position_bits c)
    (co_position_bits c) (co_match_finder c) (co_lzma_algorithm c) (co_match_cycles c) (co_solid c) (co_lzma2_chunk_size c) v.
End assignments.

Definition with_compression (o : ArchiveOptions) (c : CompressionOptions) : ArchiveOptions :=
  {| ao_codec := ao_codec o; ao_header_mode := ao_header_mode o; ao_encryption := ao_encryption o;
     ao_compression := c; ao_streaming := ao_streaming o |}.
Definition with_encryption (o : ArchiveOptions) (e : option EncryptionOptions) : ArchiveOptions :=
  {| ao_codec := ao_codec o; ao_header_mode := ao_header_mode o; ao_encryption := e;
     ao_compression := ao_compression o; ao_streaming := ao_streaming o |}.
Definition with_header_mode (o : ArchiveOptions) (mode : HeaderMode) : ArchiveOptions :=
  {| ao_codec := ao_codec o; ao_header_mode := mode; ao_encryption := ao_encryption o;
     ao_compression := ao_compression o; ao_streaming := ao_streaming o |}.
Definition with_encrypt_header (e : EncryptionOptions) (enabled : bool) : EncryptionOptions :=
  {| eo_password := eo_password e; eo_encrypt_header := enabled; eo_num_cycles_power := eo_num_cycles_power e;
     eo_salt_len := eo_salt_len e; eo_iv_len := eo_iv_len e |}.

(** ** Values *)

Definition usage_of {A} (before value after : list Z) : result A CliError := Err (Usage (before ++ value ++ after)).

Definition parse_size_with_label (s : list Z) (label : string) : result Z CliError :=
  match reverse s with
  | [] => Err (Usage (text "-v requires an attached size"))
  | last :: init =>
      let '(digits, multiplier) :=
        if decide (last = 107 ∨ last = 75) then (reverse init, 1024)
        else if decide (last = 109 ∨ last = 77) then (reverse init, 1024 * 1024)
        else if decide (last = 103 ∨ last = 71) then (reverse init, 1024 * 1024 * 1024)
        else (s, 1) in
      let invalid := Usage (text "invalid " ++ text label ++ text ": " ++ s) in
      let? value := ok_or (parse_u64 digits) invalid in
      match checked_mul value multiplier with
      | Some value => if decide (value > 0) then Ok value else Err invalid
      | None => Err invalid
      end
  end.
Definition parse_size (s : list Z) : result Z CliError := parse_size_with_label s "volume size".

(** [get] is only asked behind a prefix of ASCII letters, where bytes are characters. *)
Definition parse_attached_value (switch : list Z) (name : string) : result (list Z) CliError :=
  let missing := Usage (text "-" ++ text name ++ text " requires a value") in
  let? value := ok_or (if decide (zlen (text name) ≤ zlen switch) then Some (drop (length (text name)) switch) else None) missing in
  let value := strip_equals value in
  match value with [] => Err missing | _ => Ok value end.

Definition parse_lzma_property_bits (value : list Z) (name : string) : result Z CliError :=
  let invalid := text "invalid LZMA " ++ text name ++ text " value: " ++ value in
  let? bits := ok_or (parse_u32 value) (Usage invalid) in
  let? max :=
    if decide (name = "lc"%string) then Ok 8
    else if decide (name = "lp"%string ∨ name = "pb"%string) then Ok 4
    else usage_of (text "unknown LZMA property: ") (text name) [] in
  if decide (bits > max) then usage_of invalid (text "; expected 0..=") (text (decimal max)) else Ok bits.

Definition validate_lzma_property_bit_combination (compression : CompressionOptions) : result unit CliError :=
  let lc := default 3 (co_literal_context_bits compression) in
  let lp := default 0 (co_literal_position_bits compression) in
  if decide (lc + lp > 4)
  then Err (Usage (text "invalid LZMA lc/lp combination: lc + lp must be <= 4 (got " ++ text (decimal lc) ++
                   text " + " ++ text (decimal lp) ++ text ")"))
  else Ok tt.

Definition parse_chunk_size (value : list Z) : result Z CliError :=
  let? size := parse_size_with_label value "LZMA2 chunk size" in
  if decide (size > CLI_MAX_LZMA2_CHUNK_SIZE) then Err (Usage (text "lzma2_chunk_size must be <= 1g"))
  else if decide (size = 0) then usage_of (text "invalid LZMA2 chunk size: ") value [] else Ok size.

Definition parse_dictionary_size (value : list Z) : result Z CliError :=
  let? size := parse_size value in
  if decide (size ≤ u32_max) then Ok size else usage_of (text "dictionary size is too large: ") value [].

Definition parse_fast_bytes (value : list Z) : result Z CliError :=
  ok_or (parse_u32 value) (Usage (text "invalid fast bytes: " ++ value)).

Definition parse_lzma_algorithm (value : list Z) : result LzmaAlgorithm CliError :=
  if decide (value = text "0") then Ok AlgorithmFast
  else if decide (value = text "1") then Ok AlgorithmNormal
  else usage_of (text "invalid LZMA algorithm value: ") value (text "; expected 0 or 1").

(** [i32::try_from]. *)
Definition parse_match_cycles (value : list Z) : result Z CliError :=
  let? match_cycles := ok_or (parse_u32 value) (Usage (text "invalid LZMA match cycles: " ++ value)) in
  if decide (match_cycles < 2 ^ 31) then Ok match_cycles
  else usage_of (text "LZMA match cycles is too large: ") value [].

Definition parse_match_finder (value : list Z) : result MatchFinder CliError :=
  if decide (lowercase value = text "hc4") then Ok Hc4
  else if decide (lowercase value = text "bt4") then Ok Bt4
  else usage_of (text "invalid LZMA match finder: ") value [].

Definition parse_threading_value (value : list Z) (option_name : string) : result EncoderThreads CliError :=
  let lower := lowercase value in
  if decide (lower ∈ [text "off"; text "no"; text "0"; text "1"]) then Ok ThreadsSingle
  else if decide (lower ∈ [[]; text "on"; text "yes"]) then Ok ThreadsAuto
  else
    let invalid := Usage (text "invalid threading value for " ++ text option_name ++ text ": " ++ value) in
    match parse_u32 lower with
    | Some threads => if decide (2 ≤ threads ≤ 256) then Ok (ThreadsFixed threads) else Err invalid
    | None => Err invalid
    end.

(** The whole switch is trimmed, in the case it was given. *)
Definition parse_level (switch : list Z) : result CompressionLevel CliError :=
  let value :=
    match split_once 61 switch with
    | Some (_, value) => value
    | None => trim_start_matches (length switch) (text "mx") switch
    end in
  if decide (value ∈ [[]; text "5"]) then Ok Normal
  else if decide (value = text "0") then Ok Store
  else if decide (value = text "1") then Ok Fastest
  else if decide (value = text "3") then Ok Fast
  else if decide (value = text "7") then Ok Maximum
  else if decide (value = text "9") then Ok Ultra
  else usage_of (text "unsupported compression level: ") value [].

Definition parse_log_level_switch (switch : list Z) : result unit CliError :=
  if decide (switch ∈ [text "bb"; text "bb0"; text "bb1"; text "bb2"; text "bb3"]) then Ok tt
  else Err (Usage (text "-bb expects 0, 1, 2, or 3")).

Definition is_on (value : list Z) : bool := bool_decide (value ∈ [text "on"; text "1"; text "yes"]).
Definition is_off (value : list Z) : bool := bool_decide (value ∈ [text "off"; text "0"; text "no"]).

Definition parse_solid (switch : list Z) : result SolidMode CliError :=
  match split_once 61 switch with
  | None => Ok Solid
  | Some (_, value) =>
      let value := lowercase value in
      if is_on value then Ok Solid
      else if is_off value then Ok NonSolid
      else if decide (list.last value = Some 102) then
        let invalid := Usage (text "invalid solid file limit: " ++ value) in
        match parse_u64 (take (length value - 1) value) with
        | Some files => if decide (files = 0) then Err invalid else Ok (SolidLimit (Some files) None)
        | None => Err invalid
        end
      else
        let? bytes := parse_size_with_label value "solid byte limit" in
        Ok (SolidLimit None (Some bytes))
  end.

Definition parse_on_off_value (switch : list Z) (name : string) : result bool CliError :=
  match split_once 61 switch with
  | None => Ok true
  | Some (_, value) =>
      let value := lowercase value in
      if is_on value then Ok true
      else if is_off value then Ok false
      else usage_of (text "-") (text name) (text " expects on or off")
  end.

(** ** Switches *)

Definition codec_from_method_name (name : list Z) : result Codec CliError :=
  let? method := ok_or (method_from_name (as_bytes name)) (Usage (text "unknown method: " ++ name)) in
  match method with
  | Copy => Ok CodecCopy
  | Lzma => Ok CodecLzma
  | Lzma2 | FastLzma2 => Ok CodecLzma2
  | Ppmd => Ok CodecPpmd
  | other => usage_of (text "method ") (text (method_text other)) (text " is tracked for parity but not yet supported by r7z")
  end.

Definition parse_filter (switch : list Z) (options : ArchiveOptions) : result ArchiveOptions CliError :=
  match split_once 61 switch with
  | None => Ok options
  | Some (_, value) =>
      let? method := ok_or (method_from_name (as_bytes value)) (Usage (text "unknown filter: " ++ value)) in
      match method with
      | Bcj => Ok (if decide (ao_codec options = CodecLzma2) then set_codec options CodecLzma2Bcj else options)
      | other => usage_of (text "filter ") (text (method_text other)) (text " is tracked for parity but not yet supported by r7z")
      end
  end.

(** One [key=value] parameter; also says whether it set the threading. *)
Definition apply_method_param (options : ArchiveOptions * bool) (param : list Z) : result (ArchiveOptions * bool) CliError :=
  let '(options, explicit) := options in
  let? parts := ok_or (split_once 61 param) (Usage (text "invalid method option: " ++ param)) in
  let '(key, value) := parts in
  let lower := lowercase key in
  let c := ao_compression options in
  let set {A} (parsed : result A CliError) (assign : A → CompressionOptions) : result (ArchiveOptions * bool) CliError :=
    let? v := parsed in Ok (with_compression options (assign v), explicit) in
  if decide (lower = text "d") then set (parse_dictionary_size value) (with_dictionary_size c)
  else if decide (lower = text "fb") then set (parse_fast_bytes value) (with_fast_bytes c)
  else if decide (lower = text "c") then set (parse_chunk_size value) (with_chunk_size c)
  else if decide (lower = text "a") then set (parse_lzma_algorithm value) (with_lzma_algorithm c)
  else if decide (lower = text "lc") then set (parse_lzma_property_bits value "lc") (with_literal_context_bits c)
  else if decide (lower = text "lp") then set (parse_lzma_property_bits value "lp") (with_literal_position_bits c)
  else if decide (lower = text "pb") then set (parse_lzma_property_bits value "pb") (with_position_bits c)
  else if decide (lower = text "mf") then set (parse_match_finder value) (with_match_finder c)
  else if decide (lower = text "mc") then set (parse_match_cycles value) (with_match_cycles c)
  else if decide (lower = text "mt") then
    let? threads := parse_threading_value value "mt" in
    Ok (with_compression options (with_threads c threads), true)
  else usage_of (text "unsupported method option: ") key [].

(** The method's name and its parameters. *)
Definition method_spec_parts (spec : list Z) : list Z * list (list Z) :=
  match split_on (λ c, c =? 58) spec with method :: params => (method, params) | [] => ([], []) end.

Definition apply_method_spec (spec : list Z) (options : ArchiveOptions) : result (ArchiveOptions * bool) CliError :=
  let '(method, params) := method_spec_parts spec in
  let? codec := codec_from_method_name method in
  let? outcome := try_fold apply_method_param (set_codec options codec, false) params in
  let? _ := validate_lzma_property_bit_combination (ao_compression (fst outcome)) in
  Ok outcome.

(** *** Assignments to the state *)

Definition with_options (state : CliParseState) (options : ArchiveOptions) : CliParseState :=
  {| ps_output_dir := ps_output_dir state; ps_password := ps_password state; ps_options := options;
     ps_technical := ps_technical state; ps_method_origin := ps_method_origin state;
     ps_threading_origin := ps_threading_origin state; ps_volume_sizes := ps_volume_sizes state;
     ps_overwrite_mode := ps_overwrite_mode state; ps_assume_yes := ps_assume_yes state |}.
Definition with_origins (state : CliParseState) (method threading : SettingOrigin) : CliParseState :=
  {| ps_output_dir := ps_output_dir state; ps_password := ps_password state; ps_options := ps_options state;
     ps_technical := ps_technical state; ps_method_origin := method;
     ps_threading_origin := threading; ps_volume_sizes := ps_volume_sizes state;
     ps_overwrite_mode := ps_overwrite_mode state; ps_assume_yes := ps_assume_yes state |}.
Definition with_flags (state : CliParseState) (output_dir : list Z) (password : option (list Z)) (technical : bool)
    (volume_sizes : list Z) (overwrite_mode : OverwriteMode) (assume_yes : bool) : CliParseState :=
  {| ps_output_dir := output_dir; ps_password := password; ps_options := ps_options state;
     ps_technical := technical; ps_method_origin := ps_method_origin state;
     ps_threading_origin := ps_threading_origin state; ps_volume_sizes := volume_sizes;
     ps_overwrite_mode := overwrite_mode; ps_assume_yes := assume_yes |}.

(** The value behind a switch, parsed and assigned to a compression setting. *)
Definition set_attached {A} (switch : list Z) (name : string) (parse : list Z → result A CliError)
    (assign : CompressionOptions → A → CompressionOptions) (state : CliParseState) : result CliParseState CliError :=
  let options := ps_options state in
  let? value := parse_attached_value switch name in
  let? v := parse value in
  Ok (with_options state (with_compression options (assign (ao_compression options) v))).

Definition checked_bits (state : CliParseState) : result CliParseState CliError :=
  let? _ := validate_lzma_property_bit_combination (ao_compression (ps_options state)) in Ok state.

Definition apply_header_encryption (state : CliParseState) (enabled : bool) : CliParseState :=
  let options := ps_options state in
  let encryption := with_encrypt_header (default (EncryptionOptions_default_for_password []) (ao_encryption options)) enabled in
  let options := if enabled then with_header_mode options EncodedHeader else options in
  with_options state (with_encryption options (Some encryption)).

Definition parse_compression_switch (switch lower : list Z) (state : CliParseState) : result CliParseState CliError :=
  let options := ps_options state in
  let c := ao_compression options in
  let set_compression c := with_options state (with_compression options c) in
  if starts_with (text "m0=") lower then
    let? outcome := apply_method_spec (drop 3 switch) options in
    let '(options, explicit) := outcome in
    let threading := if explicit : bool then OriginExplicit else ps_threading_origin state in
    Ok (with_origins (with_options state options) OriginExplicit threading)
  else if starts_with (text "mc") lower then set_attached switch "mc" parse_chunk_size with_chunk_size state
  else if starts_with (text "ma") lower then set_attached switch "ma" parse_lzma_algorithm with_lzma_algorithm state
  else if starts_with (text "mlc") lower then
    let? state := set_attached switch "mlc" (λ v, parse_lzma_property_bits v "lc") with_literal_context_bits state in
    checked_bits state
  else if starts_with (text "mlp") lower then
    let? state := set_attached switch "mlp" (λ v, parse_lzma_property_bits v "lp") with_literal_position_bits state in
    checked_bits state
  else if starts_with (text "mmf") lower then set_attached switch "mmf" parse_match_finder with_match_finder state
  else if starts_with (text "mmc") lower then set_attached switch "mmc" parse_match_cycles with_match_cycles state
  else if starts_with (text "mpb") lower then
    set_attached switch "mpb" (λ v, parse_lzma_property_bits v "pb") with_position_bits state
  else match strip_prefix (text "mmt") lower with
  | Some thread_value =>
      let? threads := parse_threading_value (strip_equals thread_value) "-mmt" in
      Ok (with_origins (set_compression (with_threads c threads)) (ps_method_origin state) OriginExplicit)
  | None =>
  if starts_with (text "mx") lower then
    let? level := parse_level switch in Ok (set_compression (with_level c level))
  else if starts_with (text "md") lower then set_attached switch "md" parse_dictionary_size with_dictionary_size state
  else if starts_with (text "mfb") lower then set_attached switch "mfb" parse_fast_bytes with_fast_bytes state
  else if starts_with (text "ms") lower then
    let? solid := parse_solid switch in Ok (set_compression (with_solid c solid))
  else if starts_with (text "mf") lower then
    let? options := parse_filter switch options in Ok (with_options state options)
  else if starts_with (text "mhe") lower then
    let? enabled := parse_on_off_value switch "mhe" in Ok (apply_header_encryption state enabled)
  else usage_of (text "unsupported switch: -") switch []
  end.

Definition parse_switch (switch : list Z) (state : CliParseState) : result CliParseState CliError :=
  let lower := lowercase switch in
  let flags := λ dir password technical volumes mode yes, Ok (with_flags state dir password technical volumes mode yes) in
  let dir := ps_output_dir state in
  let password := ps_password state in
  let technical := ps_technical state in
  let volumes := ps_volume_sizes state in
  let mode := ps_overwrite_mode state in
  let yes := ps_assume_yes state in
  if decide (lower = text "slt") then flags dir password true volumes mode yes
  else if decide (lower = text "y") then flags dir password technical volumes mode true
  else if decide (lower = text "bd") then Ok state
  else if starts_with (text "bb") lower then let? _ := parse_log_level_switch lower in Ok state
  else if decide (lower = text "aoa") then flags dir password technical volumes Overwrite yes
  else if decide (lower = text "aos") then flags dir password technical volumes SkipExisting yes
  else match strip_prefix (text "o") switch with
  | Some [] => Err (Usage (text "-o requires an attached directory"))
  | Some dir => flags dir password technical volumes mode yes
  | None =>
  match strip_prefix (text "p") switch with
  | Some pass => flags dir (Some pass) technical volumes mode yes
  | None =>
  if starts_with (text "m") lower then parse_compression_switch switch lower state
  else match strip_prefix (text "v") switch with
  | Some size => let? size := parse_size size in flags dir password technical (volumes ++ [size]) mode yes
  | None => usage_of (text "unsupported switch: -") switch []
  end end end.

(** ** Command lines *)

Fixpoint parse_args (args : list (list Z)) (state : CliParseState) (positional : list (list Z)) :
    result (CliParseState * list (list Z)) CliError :=
  match args with
  | [] => Ok (state, positional)
  | arg :: args =>
      match strip_prefix (text "-") arg with
      | Some [] | None => parse_args args state (positional ++ [arg])
      | Some switch => let? state := parse_switch switch state in parse_args args state positional
      end
  end.

Definition command_kind (name : list Z) : result CommandKind CliError :=
  if decide (name = text "l") then Ok KindList
  else if decide (name = text "t") then Ok KindTest
  else if decide (name = text "x") then Ok KindExtractFull
  else if decide (name = text "e") then Ok KindExtractFlat
  else if decide (name = text "a") then Ok KindAdd
  else if decide (name = text "u") then Ok KindUpdate
  else if decide (name = text "d") then Ok KindDelete
  else usage_of (text "unsupported command: ") name [].

(** The encryption once all switches are read. *)
Definition resolve_encryption (password : option (list Z)) (options : ArchiveOptions) : result ArchiveOptions CliError :=
  match password with
  | Some password =>
      let encrypt_header := match ao_encryption options with Some enc => eo_encrypt_header enc | None => false end in
      Ok (with_encryption options
            (Some (with_encrypt_header (EncryptionOptions_default_for_password password) encrypt_header)))
  | None =>
      match ao_encryption options with
      | Some encryption =>
          if eo_encrypt_header encryption then Err (Usage (text "-mhe=on requires -pPASS"))
          else Ok (with_encryption options None)
      | None => Ok options
      end
  end.

Definition is_store (level : CompressionLevel) : bool := match level with Store => true | _ => false end.
Definition is_single (threads : EncoderThreads) : bool := match threads with ThreadsSingle => true | _ => false end.

Definition Cli_parse (args : list (list Z)) : result Cli CliError :=
  match args with
  | [] => Err (Usage usage)
  | name :: args =>
      let? command := command_kind name in
      let? parsed := parse_args args CliParseState_default [] in
      let '(state, positional) := parsed in
      match positional with
      | [] => Err (Usage (text "archive path is required"))
      | archive :: operands =>
          let? options := resolve_encryption (ps_password state) (ps_options state) in
          let options :=
            if bool_decide (ps_method_origin state = OriginDefault) && is_store (co_level (ao_compression options))
            then set_codec options CodecCopy else options in
          if bool_decide (ps_threading_origin state = OriginExplicit) && negb (is_lzma2 (ao_codec options)) &&
             negb (is_single (co_threads (ao_compression options)))
          then Err (Usage (text "multiple encoder threads require LZMA2"))
          else
          let? command := CommandKind_with_operands command operands in
          Ok {| cli_command := command; cli_archive := archive; cli_output_dir := ps_output_dir state;
                cli_password := ps_password state; cli_options := options; cli_technical := ps_technical state;
                cli_volume_sizes := ps_volume_sizes state; cli_overwrite_mode := ps_overwrite_mode state;
                cli_assume_yes := ps_assume_yes state |}
      end
  end.

(** ** Lemmas: parsed values *)

Lemma parse_digits_bounds acc s v : 0 ≤ acc ≤ u64_max → parse_digits acc s = Some v → 0 ≤ v ≤ u64_max.
Proof.
  revert acc. induction s as [|c s IH]; intros acc Ha; cbn [parse_digits]; [by intros [= ->]|].
  unfold digit, checked_mul, checked_add. repeat case_decide; try done. intros E. eapply IH; [|exact E]. lia.
Qed.

Lemma parse_u64_bounds s v : parse_u64 s = Some v → 0 ≤ v ≤ u64_max.
Proof.
  unfold parse_u64. set (s' := match s with 43 :: s => s | s => s end). clearbody s'.
  destruct s' as [|c s']; [done|]. by apply parse_digits_bounds.
Qed.

Lemma parse_u32_bounds s v : parse_u32 s = Some v → is_u32 v.
Proof.
  unfold parse_u32, is_u32. destruct (parse_u64 s) as [v'|] eqn:E; [|done]. apply parse_u64_bounds in E.
  case_decide; [|done]. intros [= <-]. lia.
Qed.

Lemma parse_size_bounds s label v : parse_size_with_label s label = Ok v → 0 < v ≤ u64_max.
Proof.
  unfold parse_size_with_label. destruct (reverse s) as [|last init]; [done|].
  set (dm := if decide (last = 107 ∨ last = 75) then _ else _).
  destruct dm as [digits multiplier]. destruct (parse_u64 digits); cbn [ok_or]; [|done].
  unfold checked_mul. repeat case_decide; try done. intros [= <-]. lia.
Qed.

Lemma property_bits_bounds s name v : parse_lzma_property_bits s name = Ok v →
  0 ≤ v ∧ v ≤ if decide (name = "lc"%string) then 8 else 4.
Proof.
  unfold parse_lzma_property_bits. destruct (parse_u32 s) as [bits|] eqn:E; cbn [ok_or]; [|done].
  apply parse_u32_bounds in E. unfold is_u32 in E.
  repeat case_decide; try done; intros [= <-]; lia.
Qed.

Lemma chunk_size_bounds s v : parse_chunk_size s = Ok v → 0 < v ≤ CLI_MAX_LZMA2_CHUNK_SIZE.
Proof.
  unfold parse_chunk_size. destruct (parse_size_with_label s _) as [size|] eqn:E; [|done].
  apply parse_size_bounds in E. repeat case_decide; try done. intros [= <-]. lia.
Qed.

Lemma dictionary_size_bounds s v : parse_dictionary_size s = Ok v → 0 < v ≤ u32_max.
Proof.
  unfold parse_dictionary_size, parse_size. destruct (parse_size_with_label s _) as [size|] eqn:E; [|done].
  apply parse_size_bounds in E. case_decide; [|done]. intros [= <-]. lia.
Qed.

Lemma fast_bytes_bounds s v : parse_fast_bytes s = Ok v → is_u32 v.
Proof. unfold parse_fast_bytes. destruct (parse_u32 s) eqn:E; [|done]. intros [= <-]. by eapply parse_u32_bounds. Qed.

Lemma match_cycles_bounds s v : parse_match_cycles s = Ok v → 0 ≤ v < 2 ^ 31.
Proof.
  unfold parse_match_cycles. destruct (parse_u32 s) as [n|] eqn:E; cbn [ok_or]; [|done].
  apply parse_u32_bounds in E. unfold is_u32 in E. case_decide; [|done]. intros [= <-]. lia.
Qed.

Definition threads_ok (threads : EncoderThreads) : Prop :=
  match threads with ThreadsFixed n => 2 ≤ n ≤ 256 | _ => True end.
Definition solid_ok (solid : SolidMode) : Prop :=
  match solid with
  | SolidLimit (Some n) None | SolidLimit None (Some n) => 0 < n ≤ u64_max
  | SolidLimit _ _ => False
  | _ => True
  end.

Lemma threading_value_ok s name v : parse_threading_value s name = Ok v → threads_ok v.
Proof.
  unfold parse_threading_value. do 2 (case_decide; [by intros [= <-]|]).
  destruct (parse_u32 _); [|done]. case_decide; [|done]. by intros [= <-].
Qed.

Lemma parse_solid_ok s v : parse_solid s = Ok v → solid_ok v.
Proof.
  unfold parse_solid. destruct (split_once 61 s) as [[a value]|]; [|by intros [= <-]].
  destruct (is_on _); [by intros [= <-]|]. destruct (is_off _); [by intros [= <-]|]. case_decide.
  - destruct (parse_u64 _) as [files|] eqn:E; [|done]. apply parse_u64_bounds in E.
    case_decide; [done|]. intros [= <-]. cbn. lia.
  - destruct (parse_size_with_label _ _) as [size|] eqn:E; [|done]. apply parse_size_bounds in E.
    intros [= <-]. cbn. lia.
Qed.

(** ** Lemmas: the invariant of the switches *)

(** The settings a command line can give. *)
Record settings_ok (c : CompressionOptions) : Prop := {
  so_dict : from_option (λ n, 0 < n ≤ u32_max) True (co_dictionary_size c);
  so_fast : from_option is_u32 True (co_fast_bytes c);
  so_lc : from_option (λ n, 0 ≤ n ≤ 8) True (co_literal_context_bits c);
  so_lp : from_option (λ n, 0 ≤ n ≤ 4) True (co_literal_position_bits c);
  so_pb : from_option (λ n, 0 ≤ n ≤ 4) True (co_position_bits c);
  so_cycles : from_option (λ n, 0 ≤ n < 2 ^ 31) True (co_match_cycles c);
  so_chunk : from_option (λ n, 0 < n ≤ CLI_MAX_LZMA2_CHUNK_SIZE) True (co_lzma2_chunk_size c);
  so_solid : solid_ok (co_solid c);
  so_threads : threads_ok (co_threads c)
}.
Definition bits_combined (c : CompressionOptions) : Prop :=
  default 3 (co_literal_context_bits c) + default 0 (co_literal_position_bits c) ≤ 4.

(** The encryption before a password is known: only the header switch was read. *)
Definition header_switch (o : ArchiveOptions) : Prop :=
  ∀ e, ao_encryption o = Some e →
    ∃ enabled, e = with_encrypt_header (EncryptionOptions_default_for_password []) enabled ∧
      (enabled = true → ao_header_mode o = EncodedHeader).

(** Threads that were not set are the default ones. *)
Definition threads_origin (explicit : bool) (c : CompressionOptions) : Prop :=
  explicit = false → co_threads c = ThreadsAuto.
Definition is_explicit (origin : SettingOrigin) : bool := bool_decide (origin = OriginExplicit).

Record state_ok (state : CliParseState) : Prop := {
  st_settings : settings_ok (ao_compression (ps_options state));
  st_bits : bits_combined (ao_compression (ps_options state));
  st_header : header_switch (ps_options state);
  st_threads : threads_origin (is_explicit (ps_threading_origin state)) (ao_compression (ps_options state));
  st_volumes : Forall (λ n, 0 < n ≤ u64_max) (ps_volume_sizes state);
  st_streaming : ao_streaming (ps_options state) = StreamingOptions_default
}.

(** What a new value of a setting keeps. *)
Ltac keep_settings := intros; destruct_and?; by match goal with H : settings_ok ?c |- _ => destruct c, H; constructor end.

Section assigned.
  Context (c : CompressionOptions) (Hc : settings_ok c).
Lemma with_level_ok v : settings_ok (with_level c v). Proof. keep_settings. Qed.
Lemma with_dictionary_size_ok v : 0 < v ≤ u32_max → settings_ok (with_dictionary_size c v). Proof. keep_settings. Qed.
Lemma with_fast_bytes_ok v : is_u32 v → settings_ok (with_fast_bytes c v). Proof. keep_settings. Qed.
Lemma with_literal_context_bits_ok v : 0 ≤ v ≤ 8 → settings_ok (with_literal_context_bits c v). Proof. keep_settings. Qed.
Lemma with_literal_position_bits_ok v : 0 ≤ v ≤ 4 → settings_ok (with_literal_position_bits c v). Proof. keep_settings. Qed.
Lemma with_position_bits_ok v : 0 ≤ v ≤ 4 → settings_ok (with_position_bits c v). Proof. keep_settings. Qed.
Lemma with_match_finder_ok v : settings_ok (with_match_finder c v). Proof. keep_settings. Qed.
Lemma with_lzma_algorithm_ok v : settings_ok (with_lzma_algorithm c v). Proof. keep_settings. Qed.
Lemma with_match_cycles_ok v : 0 ≤ v < 2 ^ 31 → settings_ok (with_match_cycles c v). Proof. keep_settings. Qed.
Lemma with_solid_ok v : solid_ok v → settings_ok (with_solid c v). Proof. keep_settings. Qed.
Lemma with_chunk_size_ok v : 0 < v ≤ CLI_MAX_LZMA2_CHUNK_SIZE → settings_ok (with_chunk_size c v). Proof. keep_settings. Qed.
Lemma with_threads_ok v : threads_ok v → settings_ok (with_threads c v). Proof. keep_settings. Qed.
End assigned.

Create HintDb settings.
#[export] Hint Resolve with_level_ok with_dictionary_size_ok with_fast_bytes_ok with_literal_context_bits_ok
  with_literal_position_bits_ok with_position_bits_ok with_match_finder_ok with_lzma_algorithm_ok with_match_cycles_ok
  with_solid_ok with_chunk_size_ok with_threads_ok chunk_size_bounds dictionary_size_bounds fast_bytes_bounds
  match_cycles_bounds threading_value_ok parse_solid_ok : settings.

(** What a method's parameters do to the options: the settings stay within bounds, and threads
    are set with their origin only; [set] is an origin that was explicit before. *)
Definition params_keep (options : ArchiveOptions) (explicit : bool) (options' : ArchiveOptions) (explicit' : bool) : Prop :=
  settings_ok (ao_compression options') ∧
  (∀ set, threads_origin (explicit || set) (ao_compression options) →
          threads_origin (explicit' || set) (ao_compression options')) ∧
  ∃ c, options' = with_compression options c.

Lemma method_param_ok options explicit param options' explicit' :
  apply_method_param (options, explicit) param = Ok (options', explicit') →
  settings_ok (ao_compression options) → params_keep options explicit options' explicit'.
Proof.
  unfold apply_method_param, params_keep. destruct (split_once 61 param) as [[key value]|]; cbn [ok_or]; [|done].
  cbv zeta. intros E Hc.
  repeat (case_decide; [
    match type of E with match ?parsed with _ => _ end = _ => destruct parsed eqn:Ep end; [|done];
    injection E as <- <-; split_and!; [|intros set Ht; exact Ht|by eexists]; cbn [ao_compression with_compression];
    try (apply property_bits_bounds in Ep; cbn in Ep); eauto with settings; fail |]).
  case_decide; [|done].
  destruct (parse_threading_value value "mt") eqn:Ep; [|done]. injection E as <- <-.
  split_and!; [|done|by eexists]. cbn [ao_compression with_compression]. eauto with settings.
Qed.

Lemma method_params_ok params options explicit options' explicit' :
  try_fold apply_method_param (options, explicit) params = Ok (options', explicit') →
  settings_ok (ao_compression options) → params_keep options explicit options' explicit'.
Proof.
  revert options explicit. induction params as [|param params IH]; intros options explicit; cbn [try_fold].
  { intros [= <- <-] Hc. split; [done|]. split; [done|]. exists (ao_compression options). by destruct options. }
  destruct (apply_method_param (options, explicit) param) as [[o1 e1]|] eqn:E1; [|done]. intros E Hc.
  destruct (method_param_ok _ _ _ _ _ E1 Hc) as (Hc1&Ht1&c1&->).
  destruct (IH _ _ E Hc1) as (?&?&c2&->). split; [done|]. split; [auto|]. by exists c2.
Qed.

Lemma bits_checked c r : validate_lzma_property_bit_combination c = Ok r → bits_combined c.
Proof. unfold validate_lzma_property_bit_combination, bits_combined. case_decide; [done|]. intros _. lia. Qed.

Lemma method_spec_ok spec options options' explicit :
  apply_method_spec spec options = Ok (options', explicit) → settings_ok (ao_compression options) →
  bits_combined (ao_compression options') ∧
  ∃ codec, params_keep (set_codec options codec) false options' explicit.
Proof.
  unfold apply_method_spec. destruct (method_spec_parts spec) as [method params].
  destruct (codec_from_method_name method) as [codec|]; [|done].
  destruct (try_fold _ _ params) as [[o e]|] eqn:E; [|done]. cbn [fst].
  destruct (validate_lzma_property_bit_combination _) eqn:Eb; [|done].
  intros [= <- <-] Hc. split; [by eapply bits_checked|]. exists codec. by apply (method_params_ok params).
Qed.

(** A new value of a setting that is not one of the combined bits or the threads. *)
Definition other_setting {A} (assign : CompressionOptions → A → CompressionOptions) : Prop :=
  ∀ c v, co_literal_context_bits (assign c v) = co_literal_context_bits c ∧
    co_literal_position_bits (assign c v) = co_literal_position_bits c ∧ co_threads (assign c v) = co_threads c.

Lemma with_compression_ok state c :
  state_ok state → settings_ok c → bits_combined c → co_threads c = co_threads (ao_compression (ps_options state)) →
  state_ok (with_options state (with_compression (ps_options state) c)).
Proof.
  intros [? ? Hh Ht ? ?] Hc Hb Et. constructor; try done.
  cbn. intros Ho. rewrite Et. by apply Ht.
Qed.

Lemma set_attached_ok {A} switch name (parse : list Z → result A CliError) assign (P : A → Prop) state state' :
  set_attached switch name parse assign state = Ok state' → state_ok state →
  (∀ v x, parse v = Ok x → P x) → (∀ c x, settings_ok c → P x → settings_ok (assign c x)) →
  (∀ c x, co_threads (assign c x) = co_threads c) →
  ∃ x, P x ∧ state' = with_options state (with_compression (ps_options state) (assign (ao_compression (ps_options state)) x)) ∧
    (bits_combined (assign (ao_compression (ps_options state)) x) → state_ok state').
Proof.
  unfold set_attached. destruct (parse_attached_value switch name) as [value|]; [|done].
  destruct (parse value) as [x|] eqn:Ep; [|done]. intros [= <-] Hs Hp Ha Et.
  exists x. split; [by eapply Hp|]. split; [done|]. intros Hb. apply with_compression_ok; [done| |done|apply Et].
  apply Ha; [by destruct Hs|by eapply Hp].
Qed.

(** A setting apart from the bits. *)
Lemma set_other_ok {A} switch name (parse : list Z → result A CliError) assign (P : A → Prop) state state' :
  set_attached switch name parse assign state = Ok state' → state_ok state →
  (∀ v x, parse v = Ok x → P x) → (∀ c x, settings_ok c → P x → settings_ok (assign c x)) →
  other_setting assign → state_ok state'.
Proof.
  intros E Hs Hp Ha Ho. destruct (set_attached_ok _ _ _ _ P _ _ E Hs Hp Ha) as (x&Hx&_&Hok).
  { intros c x. by destruct (Ho c x) as (_&_&?). }
  apply Hok. unfold bits_combined. destruct (Ho (ao_compression (ps_options state)) x) as (->&->&_). apply Hs.
Qed.

(** One of the bits, checked with the other. *)
Lemma set_bits_ok switch name label assign max state state' :
  (let? state := set_attached switch name (λ v, parse_lzma_property_bits v label) assign state in checked_bits state) = Ok state' →
  state_ok state → max = (if decide (label = "lc"%string) then 8 else 4) →
  (∀ c x, settings_ok c → 0 ≤ x ≤ max → settings_ok (assign c x)) →
  (∀ c x, co_threads (assign c x) = co_threads c) → state_ok state'.
Proof.
  destruct (set_attached _ _ _ _ _) as [state1|] eqn:E; [|done]. unfold checked_bits.
  destruct (validate_lzma_property_bit_combination _) eqn:Eb; [|done]. intros [= <-] Hs -> Ha Et.
  destruct (set_attached_ok _ _ _ _ (λ x, 0 ≤ x ≤ if decide (label = "lc"%string) then 8 else 4) _ _ E Hs) as (x&Hx&->&Hok);
    [intros v b Eb'; by apply property_bits_bounds in Eb'|done|done|]. apply Hok. by eapply bits_checked.
Qed.

Lemma filter_ok switch options state :
  parse_filter switch (ps_options state) = Ok options → state_ok state → state_ok (with_options state options).
Proof.
  unfold parse_filter. destruct (split_once 61 switch) as [[a value]|].
  - destruct (ok_or _ _) as [method|]; [|done]. destruct method; try done. intros [= <-] Hs. destruct Hs.
    case_decide; by constructor.
  - intros [= <-] Hs. by destruct Hs.
Qed.

Lemma header_encryption_ok state enabled : state_ok state → state_ok (apply_header_encryption state enabled).
Proof.
  intros [? ? Hh ? ? ?]. constructor; try (by destruct enabled).
  intros e. unfold apply_header_encryption. cbn. intros E.
  assert (Hd : e = with_encrypt_header (EncryptionOptions_default_for_password []) enabled).
  { destruct enabled; cbn in E; injection E as <-;
      (destruct (ao_encryption (ps_options state)) as [e'|] eqn:Ee; [|done]); destruct (Hh _ Ee) as (b&->&_); done. }
  exists enabled. split; [done|]. by intros ->.
Qed.

Ltac setting_within P :=
  eapply (set_other_ok _ _ _ _ P);
  [eassumption|assumption|cbv beta; by eauto with settings|cbv beta; by eauto with settings|by intros ? ?].

Lemma compression_switch_ok switch lower state state' :
  parse_compression_switch switch lower state = Ok state' → state_ok state → state_ok state'.
Proof.
  unfold parse_compression_switch. cbv zeta. intros E Hs.
  destruct (starts_with (text "m0=") lower).
  { destruct (apply_method_spec _ _) as [[options explicit]|] eqn:Em; [|done]. injection E as <-. pose proof Hs as [? ? Hh Ht ? Hst].
    destruct (method_spec_ok _ _ _ _ Em ltac:(done)) as (Hb&codec&Hc&Hth&c&->). constructor; try done.
    cbn. specialize (Hth _ Ht). by destruct explicit. }
  destruct (starts_with (text "mc") lower); [setting_within (λ n : Z, 0 < n ≤ CLI_MAX_LZMA2_CHUNK_SIZE)|].
  destruct (starts_with (text "ma") lower); [setting_within (λ _ : LzmaAlgorithm, True)|].
  destruct (starts_with (text "mlc") lower); [by eapply set_bits_ok; eauto with settings|].
  destruct (starts_with (text "mlp") lower); [by eapply set_bits_ok; eauto with settings|].
  destruct (starts_with (text "mmf") lower); [setting_within (λ _ : MatchFinder, True)|].
  destruct (starts_with (text "mmc") lower); [setting_within (λ n : Z, 0 ≤ n < 2 ^ 31)|].
  destruct (starts_with (text "mpb") lower).
  { eapply (set_other_ok _ _ _ _ (λ x, 0 ≤ x ≤ 4)); [exact E|done| |auto with settings|done].
    intros v x Ex. apply property_bits_bounds in Ex. done. }
  destruct (strip_prefix (text "mmt") lower) as [thread_value|].
  { destruct (parse_threading_value _ _) as [threads|] eqn:Et; [|done]. injection E as <-. destruct Hs.
    constructor; try done. cbn. eauto with settings. }
  destruct (starts_with (text "mx") lower).
  { destruct (parse_level switch) as [level|]; [|done]. injection E as <-.
    apply with_compression_ok; [done| |by destruct Hs|done]. apply with_level_ok. by destruct Hs. }
  destruct (starts_with (text "md") lower); [setting_within (λ n : Z, 0 < n ≤ u32_max)|].
  destruct (starts_with (text "mfb") lower); [setting_within (is_u32)|].
  destruct (starts_with (text "ms") lower).
  { destruct (parse_solid switch) as [solid|] eqn:Es; [|done]. injection E as <-.
    apply with_compression_ok; [done| |by destruct Hs|done]. apply with_solid_ok; [by destruct Hs|]. eauto with settings. }
  destruct (starts_with (text "mf") lower).
  { destruct (parse_filter switch _) as [options|] eqn:Ef; [|done]. injection E as <-. apply (filter_ok _ _ _ Ef Hs). }
  destruct (starts_with (text "mhe") lower); [|done].
  destruct (parse_on_off_value _ _) as [enabled|]; [|done]. injection E as <-. by apply header_encryption_ok.
Qed.

Lemma switch_ok switch state state' : parse_switch switch state = Ok state' → state_ok state → state_ok state'.
Proof.
  unfold parse_switch. cbv zeta. intros E Hs.
  assert (Hflags : ∀ dir password technical volumes mode yes, Forall (λ n, 0 < n ≤ u64_max) volumes →
    state_ok (with_flags state dir password technical volumes mode yes)) by (intros; by destruct Hs).
  pose proof (st_volumes _ Hs) as Hv.
  do 3 (case_decide; [injection E as <-; auto|]).
  destruct (starts_with (text "bb") _).
  { destruct (parse_log_level_switch _); [|done]. by injection E as <-. }
  do 2 (case_decide; [injection E as <-; auto|]).
  destruct (strip_prefix (text "o") switch) as [[|]|]; [done|injection E as <-; auto|].
  destruct (strip_prefix (text "p") switch) as [pass|]; [injection E as <-; auto|].
  destruct (starts_with (text "m") _); [by eapply compression_switch_ok|].
  destruct (strip_prefix (text "v") switch) as [size|]; [|done].
  destruct (parse_size size) as [n|] eqn:En; [|done]. injection E as <-. apply Hflags, Forall_app. split; [done|].
  constructor; [|done]. by eapply parse_size_bounds.
Qed.

Lemma args_ok args state positional state' positional' :
  parse_args args state positional = Ok (state', positional') → state_ok state → state_ok state'.
Proof.
  revert state positional. induction args as [|arg args IH]; intros state positional; cbn [parse_args].
  { by intros [= <- <-]. }
  destruct (strip_prefix (text "-") arg) as [[|c switch]|]; [apply IH| |apply IH].
  destruct (parse_switch _ state) as [state1|] eqn:E1; [|done]. intros E Hs.
  eapply IH; [exact E|]. by eapply switch_ok.
Qed.

Lemma default_state_ok : state_ok CliParseState_default.
Proof. by constructor. Qed.

(** ** Properties *)

Definition command_operands (command : Command) : list (list Z) :=
  match command with
  | CommandList operands | CommandTest operands | CommandExtractFull operands | CommandExtractFlat operands
  | CommandAdd operands | CommandUpdate operands | CommandDelete operands => operands
  end.
Definition changes_archive (command : Command) : bool :=
  match command with CommandAdd _ | CommandUpdate _ | CommandDelete _ => true | _ => false end.

(** The encryption is the one of the password, with the header where the switch asked for it. *)
Definition encryption_of (password : option (list Z)) (options : ArchiveOptions) : Prop :=
  ∃ encrypt_header,
    ao_encryption options = (λ p, with_encrypt_header (EncryptionOptions_default_for_password p) encrypt_header) <$> password ∧
    (encrypt_header = true → is_Some password ∧ ao_header_mode options = EncodedHeader).

Record command_line_ok (cli : Cli) : Prop := {
  cl_operands : changes_archive (cli_command cli) = true → command_operands (cli_command cli) ≠ [];
  cl_volumes : Forall (λ n, 0 < n ≤ u64_max) (cli_volume_sizes cli);
  cl_settings : settings_ok (ao_compression (cli_options cli));
  cl_encryption : encryption_of (cli_password cli) (cli_options cli)
}.

Lemma resolved_encryption password options options' :
  resolve_encryption password options = Ok options' → header_switch options →
  encryption_of password options' ∧ ao_compression options' = ao_compression options ∧ ao_codec options' = ao_codec options.
Proof.
  unfold resolve_encryption, encryption_of. intros E Hh. destruct password as [password|].
  - injection E as <-. split; [|done]. eexists. split; [done|]. intros He. split; [done|]. cbn.
    destruct (ao_encryption options) as [e|] eqn:Ee; [|done]. destruct (Hh _ Ee) as (b&->&Hb). by apply Hb.
  - destruct (ao_encryption options) as [e|] eqn:Ee.
    + destruct (eo_encrypt_header e); [done|]. injection E as <-. split; [|done]. by exists false.
    + injection E as <-. split; [|done]. exists false. by rewrite Ee.
Qed.

Lemma with_operands_ok kind paths command :
  CommandKind_with_operands kind paths = Ok command →
  command_operands command = paths ∧ (changes_archive command = true → paths ≠ []).
Proof. by destruct kind, paths; intros [= <-]. Qed.

Lemma settings_validated c : settings_ok c → bits_combined c →
  validate_lzma_property_bits c = Ok tt ∧ validate_match_cycles c = Ok tt.
Proof.
  intros [? ? Hlc Hlp Hpb Hcy ? ? ?] Hb. unfold validate_lzma_property_bits, validate_match_cycles, bits_combined in *.
  destruct (co_literal_context_bits c), (co_literal_position_bits c), (co_position_bits c), (co_match_cycles c);
    cbn in *; repeat case_decide; try done; lia.
Qed.

Lemma encryption_validated password options : encryption_of password options → is_ok (validate_encryption options) = true.
Proof.
  intros (b&Ee&Hb). unfold validate_encryption. rewrite Ee. destruct password as [p|]; [|done]. cbn.
  destruct b; [|done]. destruct (Hb eq_refl) as [_ ->]. done.
Qed.

(** The check of the parser covers the library's. *)
Lemma threads_validated origin options :
  threads_ok (co_threads (ao_compression options)) → threads_origin (is_explicit origin) (ao_compression options) →
  bool_decide (origin = OriginExplicit) && negb (is_lzma2 (ao_codec options)) &&
    negb (is_single (co_threads (ao_compression options))) = false →
  is_ok (validate_threads options) = true.
Proof.
  unfold validate_threads, threads_origin, is_explicit. intros Hok Ho Hr.
  destruct (co_threads (ao_compression options)) as [| |n] eqn:Et; [done..|]. cbn in Hok.
  rewrite decide_False by lia. destruct (bool_decide (origin = OriginExplicit)); [|by specialize (Ho eq_refl)].
  destruct (is_lzma2 (ao_codec options)); [|done]. cbn [negb]. unfold MAX_WORKERS. by rewrite decide_False by lia.
Qed.

(** C16. A command line that is read is consistent: the commands that change an archive have
    operands, volume sizes are positive, the settings are those the switches can express
    (a positive dictionary of 32 bits, fast bytes of 32 bits, at most 8 literal context and 4
    position bits, fewer than 2^31 match cycles, a chunk within the tool's maximum, a positive
    solid limit, a number of threads from 2 to 256), and the encryption is that of the password, with an
    encoded header where the header is encrypted. The library's own checks of the threads,
    the bits of the literal coder, the match cycles and the encryption accept these options;
    the other ranges of the encoders are left to them, which can refuse a dictionary or a
    number of fast bytes read here. *)
Theorem parsed_command_line_consistent args cli :
  Cli_parse args = Ok cli →
  command_line_ok cli ∧
  is_ok (validate_threads (cli_options cli)) = true ∧
  is_ok (validate_encryption (cli_options cli)) = true ∧
  validate_lzma_property_bits (ao_compression (cli_options cli)) = Ok tt ∧
  validate_match_cycles (ao_compression (cli_options cli)) = Ok tt.
Proof.
  destruct args as [|name args]; [done|]. cbn [Cli_parse].
  destruct (command_kind name) as [kind|]; [|done].
  destruct (parse_args args _ _) as [[state [|archive operands]]|] eqn:Ep; [done| |done].
  pose proof (args_ok _ _ _ _ _ Ep default_state_ok) as [Hc Hb Hh Ht Hv Hst].
  destruct (resolve_encryption _ _) as [options|] eqn:Er; [|done].
  destruct (resolved_encryption _ _ _ Er Hh) as (He&Ec&_).
  set (options' := if bool_decide _ && is_store _ then set_codec options CodecCopy else options).
  assert (Ho : ao_compression options' = ao_compression options ∧ encryption_of (ps_password state) options').
  { unfold options'. by destruct (bool_decide _ && is_store _). }
  destruct Ho as [Ho He']. clearbody options'. rewrite <- Ec, <- Ho in Hc, Hb, Ht.
  match goal with |- context [if ?b then Err _ else _] => destruct b eqn:Hr; [done|] end.
  destruct (CommandKind_with_operands kind operands) as [command|] eqn:Eo; [|done]. intros [= <-].
  destruct (with_operands_ok _ _ _ Eo) as [Eops Hne]. cbn [cli_options].
  destruct (settings_validated _ Hc Hb) as [Hbits Hcycles].
  split_and!; [constructor; cbn; [by rewrite Eops|done..]| |by eapply encryption_validated|done|done].
  apply (threads_validated (ps_threading_origin state)); [by destruct Hc|done|done].
Qed.

Definition sample_command_line : list (list Z) :=
  map text ["a"; "-mx9"; "-m0=LZMA2:d=16m:mt=4"; "-mf=BCJ"; "-mhe"; "-pabc"; "x.7z"; "f"; "-v10k"].

Lemma parsed_command_line_consistent_witness :
  ∃ cli, Cli_parse sample_command_line = Ok cli ∧ ao_codec (cli_options cli) = CodecLzma2Bcj ∧ command_line_ok cli.
Proof.
  eexists. split; [vm_compute; reflexivity|]. split; [reflexivity|].
  apply (parsed_command_line_consistent sample_command_line). vm_compute. reflexivity.
Defined.

(** ** Sizes *)

(** The suffixes of a size with what they multiply by. *)
Definition size_units : list (list Z * Z) :=
  [([], 1); (text "k", 2 ^ 10); (text "K", 2 ^ 10); (text "m", 2 ^ 20); (text "M", 2 ^ 20); (text "g", 2 ^ 30); (text "G", 2 ^ 30)].

Lemma parse_push_digits fuel n rest :
  0 ≤ n ≤ u64_max → n < 10 ^ Z.of_nat fuel → (0 < fuel)%nat →
  parse_digits 0 (push_digits fuel n rest) = parse_digits n rest.
Proof.
  assert (Hdigit : ∀ a d rest, 0 ≤ d < 10 → 0 ≤ a → a * 10 + d ≤ u64_max →
    parse_digits a ((48 + d) :: rest) = parse_digits (a * 10 + d) rest).
  { intros a d r Hd Ha Hb. cbn [parse_digits]. unfold digit, checked_mul, checked_add. rewrite !decide_True by lia.
    f_equal. lia. }
  revert n rest. induction fuel as [|fuel IH]; intros n rest Hn Hf Hpos; [lia|]. cbn [push_digits].
  pose proof (Z.div_mod n 10 ltac:(lia)). pose proof (Z.mod_pos_bound n 10 ltac:(lia)).
  case_decide as Hz.
  - rewrite Hdigit by lia. f_equal. lia.
  - destruct fuel as [|fuel]; [change (10 ^ Z.of_nat 1) with 10 in Hf; lia|].
    replace (Z.of_nat (S (S fuel))) with (Z.succ (Z.of_nat (S fuel))) in Hf by lia. rewrite Z.pow_succ_r in Hf by lia.
    rewrite IH; [|lia| |lia].
    + rewrite Hdigit by lia. f_equal. lia.
    + apply Z.div_lt_upper_bound; lia.
Qed.

Lemma push_digits_shape fuel n rest : 0 ≤ n → (0 < fuel)%nat →
  ∃ d digits, push_digits fuel n rest = d :: digits ++ rest ∧ Forall (λ c, 48 ≤ c ≤ 57) (d :: digits).
Proof.
  revert n rest. induction fuel as [|fuel IH]; intros n rest Hn Hpos; [lia|]. cbn [push_digits].
  pose proof (Z.mod_pos_bound n 10 ltac:(lia)).
  case_decide; [exists (48 + n mod 10), []; split; [done|]; repeat constructor; lia|].
  destruct fuel as [|fuel]; [exists (48 + n mod 10), []; split; [done|]; repeat constructor; lia|].
  destruct (IH (n / 10) ((48 + n mod 10) :: rest)) as (d&digits&->&Hd); [apply Z.div_pos; lia|lia|].
  exists d, (digits ++ [48 + n mod 10]). split; [by rewrite <- app_assoc|].
  inversion Hd; subst. constructor; [done|]. apply Forall_app. split; [done|]. repeat constructor; lia.
Qed.

Lemma decimal_shape n : 0 ≤ n → ∃ d digits, decimal_digits n = d :: digits ∧ Forall (λ c, 48 ≤ c ≤ 57) (d :: digits).
Proof.
  intros Hn. unfold decimal_digits. destruct (push_digits_shape (S (Z.to_nat (Z.log2 n))) n [] Hn ltac:(lia)) as (d&digits&E&Hd).
  rewrite app_nil_r in E. eauto.
Qed.

Lemma parse_unsigned d digits : 48 ≤ d → parse_u64 (d :: digits) = parse_digits 0 (d :: digits).
Proof.
  intros Hd. destruct d as [|d|d]; [done| |done].
  do 6 (destruct d as [d|d|]; try reflexivity). lia.
Qed.

Lemma parse_decimal n : 0 ≤ n ≤ u64_max → parse_u64 (decimal_digits n) = Some n.
Proof.
  intros Hn. pose proof (decimal_shape n ltac:(lia)) as (d&digits&E&Hd). inversion Hd; subst.
  rewrite E, parse_unsigned, <- E by lia. unfold decimal_digits. rewrite parse_push_digits; [done|done| |lia].
  destruct (decide (n = 0)) as [->|Hnz]; [done|]. pose proof (Z.log2_spec n ltac:(lia)).
  assert (2 ^ Z.succ (Z.log2 n) ≤ 10 ^ Z.succ (Z.log2 n)) by (apply Z.pow_le_mono_l; lia).
  pose proof (Z.log2_nonneg n). rewrite Nat2Z.inj_succ, Z2Nat.id by lia. lia.
Qed.

(** The sizes of the switches are read back from decimal digits with a suffix in either
    case: the number times the suffix's unit where that is positive and fits 64 bits, and a
    usage error where it is zero or does not fit. *)
Theorem sizes_read_back n suffix unit label :
  0 ≤ n ≤ u64_max → (suffix, unit) ∈ size_units →
  if decide (0 < n * unit ≤ u64_max)
  then parse_size_with_label (decimal_digits n ++ suffix) label = Ok (n * unit)
  else ∃ message, parse_size_with_label (decimal_digits n ++ suffix) label = Err (Usage message).
Proof.
  intros Hn Hu. unfold parse_size_with_label. pose proof (parse_decimal n Hn) as Hp.
  destruct (decimal_shape n ltac:(lia)) as (d&digits&Ed&Hd). rewrite reverse_app.
  assert (Hmul : ∀ s, 0 < unit →
    if decide (0 < n * unit ≤ u64_max)
    then (match checked_mul n unit with
          | Some value => if decide (value > 0) then Ok value else Err (Usage s)
          | None => Err (Usage s) end) = Ok (n * unit)
    else ∃ message, (match checked_mul n unit with
          | Some value => if decide (value > 0) then Ok value else Err (Usage s)
          | None => Err (Usage s) end) = Err (Usage message)).
  { intros s Hpos. unfold checked_mul. case_decide; [by rewrite !decide_True by lia|].
    repeat case_decide; try (by eexists); lia. }
  unfold size_units in Hu. rewrite !elem_of_cons, elem_of_nil in Hu.
  destruct Hu as [Hu|Hu].
  - injection Hu as -> ->. rewrite app_nil_r. cbn [reverse rev_append app].
    destruct (reverse (decimal_digits n)) as [|last init] eqn:Er.
    { apply (f_equal length) in Er. rewrite length_reverse, Ed in Er. done. }
    assert (Hl : 48 ≤ last ≤ 57).
    { rewrite <- Ed in Hd. rewrite Forall_forall in Hd. apply Hd. apply elem_of_reverse. rewrite Er. left. }
    cbn [app]. destruct (decide (last = 107 ∨ _)); [lia|]. destruct (decide (last = 109 ∨ _)); [lia|].
    destruct (decide (last = 103 ∨ _)); [lia|]. rewrite Hp. cbn [ok_or]. by apply Hmul.
  - repeat (destruct Hu as [Hu|Hu]); try done; injection Hu as -> ->;
      match goal with |- context [reverse (text ?u)] => let r := eval vm_compute in (reverse (text u)) in change (reverse (text u)) with r end;
      cbn [app];
      repeat match goal with |- context [decide (?P ∨ ?Q)] => destruct (decide (P ∨ Q)); try lia end;
      rewrite reverse_involutive, Hp; cbn [ok_or]; by apply Hmul.
Qed.

Lemma sizes_read_back_witness :
  parse_size (decimal_digits 64 ++ text "m") = Ok (64 * 2 ^ 20) ∧
  ∃ message, parse_size_with_label (decimal_digits (2 ^ 40) ++ text "G") "volume size" = Err (Usage message).
Proof.
  split.
  - apply (sizes_read_back 64 (text "m") (2 ^ 20) "volume size"); [by vm_compute|]. apply (bool_decide_unpack _). by vm_compute.
  - apply (sizes_read_back (2 ^ 40) (text "G") (2 ^ 30) "volume size"); [by vm_compute|]. apply (bool_decide_unpack _). by vm_compute.
Defined.

(** The level is trimmed in the case it was given, repeatedly; a filter before the method is
    dropped with it. *)
Example switches_as_read :
  is_ok (Cli_parse (map text ["a"; "-MX9"; "x.7z"; "f"])) = false ∧
  is_ok (Cli_parse (map text ["a"; "-MD=1m"; "x.7z"; "f"])) = true ∧
  is_ok (Cli_parse (map text ["a"; "-mxmx9"; "x.7z"; "f"])) = true ∧
  result_map (λ cli, ao_codec (cli_options cli)) (Cli_parse (map text ["a"; "-mf=BCJ"; "-m0=LZMA2"; "x.7z"; "f"])) = Ok CodecLzma2 ∧
  result_map (λ cli, ao_codec (cli_options cli)) (Cli_parse (map text ["a"; "-m0=LZMA2"; "-mf=BCJ"; "x.7z"; "f"])) = Ok CodecLzma2Bcj.
Proof. by vm_compute. Qed.
