(* ===== verification/ListingOutput.v ===== *)
(** * The listing as it is printed (src/src/bin/r7z.rs)

    The lines of a listing, in the short and in the technical form. The text of a point of
    time in the local zone is a library's, and a parameter. *)

From stdpp Require Import base numbers list option strings.
From Stdlib Require Import ZArith Lia.
From S2P Require Import Prelude PropertyId Parsers Method Folder Error Entries FolderDecode EntryReads Archive Listing WriteHeader Lzma2Encoder Volumes EntryPatterns CommandLine.

(** ** Formats *)

(** [{:n}] and [{:>n}] of a text, counted in characters. *)
Definition pad_right (n : nat) (s : list Z) : list Z := s ++ replicate (n - length s) 32.
Definition pad_left (n : nat) (s : list Z) : list Z := replicate (n - length s) 32 ++ s.
(** [{:08X}] of a 32-bit number. *)
Definition upper_nibble (n k : Z) : Z := let d := Z.land (Z.shiftr n (4 * k)) 15 in if decide (d < 10) then 48 + d else 55 + d.
Definition upper_hex8 (n : Z) : list Z := map (upper_nibble n) [7; 6; 5; 4; 3; 2; 1; 0].
(** [join(" ")]. *)
Definition join_spaces (names : list string) : list Z :=
  match names with [] => [] | name :: names => text name ++ concat (map (λ n, 32 :: text n) names) end.

(** ** Columns *)

Definition size_text (size : option Z) : list Z := from_option decimal_digits [] size.

Definition is_anti (kind : ListingEntryKind) : bool := match kind with L_Anti => true | _ => false end.
Definition is_directory (kind : ListingEntryKind) : bool := match kind with L_Directory => true | _ => false end.

Definition entry_packed_for_row (entry : ArchiveListingEntry) : option Z :=
  if is_directory (le_kind entry) || bool_decide (le_size entry = Some 0) then Some 0 else le_packed_size entry.
Definition entry_packed_for_summary (entry : ArchiveListingEntry) : Z :=
  if is_anti (le_kind entry) then 0 else default 0 (entry_packed_for_row entry).

Definition newest_time (a b : option Z) : option Z :=
  match a, b with
  | Some a, Some b => Some (Z.max a b)
  | Some a, None => Some a
  | None, Some b => Some b
  | None, None => None
  end.

Definition human_attributes (entry : ArchiveListingEntry) : list Z :=
  match le_attributes entry with
  | None => text "....."
  | Some _ =>
      match le_kind entry with
      | L_Directory => text "D...."
      | L_File | L_Symlink => text "....A"
      | L_Anti => text "....."
      end
  end.

Definition unix_mode_text (mode : Z) : list Z :=
  let kind := Z.land mode 61440 in
  let flag bit c := if decide (Z.land mode bit ≠ 0) then c else 45 in
  (if decide (kind = 16384) then 100 else if decide (kind = 40960) then 108 else 45) ::
  map (λ bit,
    if decide (bit ∈ [256; 32; 4]) then flag bit 114
    else if decide (bit ∈ [128; 16; 2]) then flag bit 119
    else flag bit 120) [256; 128; 64; 32; 16; 8; 4; 2; 1].

Definition technical_attributes (entry : ArchiveListingEntry) : option (list Z) :=
  if is_anti (le_kind entry) then None else
  let class := if is_directory (le_kind entry) then [68] else [65] in
  match le_attributes entry with
  | None => None
  | Some attrs =>
      let mode := Z.shiftr attrs 16 in
      if decide (mode = 0) then Some (class ++ 32 :: upper_hex8 attrs)
      else
        let separator := match le_kind entry with L_Symlink => [] | _ => text "_" end in
        Some (class ++ separator ++ 32 :: unix_mode_text mode)
  end.

Definition summary_text (files folders : Z) : list Z :=
  if decide (folders = 0) then decimal_digits files ++ text " files"
  else if decide (files = 0) then decimal_digits folders ++ text " folders"
  else decimal_digits files ++ text " files, " ++ decimal_digits folders ++ text " folders".

Section output.
  Context (format_time : Z → list Z).

Definition format_listing_time (time : option Z) : list Z := from_option format_time [] time.

Definition print_listing_header (listing : ArchiveListing) (archive_path : list Z) : list (list Z) :=
  [text "Path = " ++ archive_path; text "Type = " ++ text (al_archive_type listing)] ++
  match al_physical_size listing with Some size => [text "Physical Size = " ++ decimal_digits size] | None => [] end ++
  match al_headers_size listing with Some size => [text "Headers Size = " ++ decimal_digits size] | None => [] end ++
  match al_methods listing with [] => [] | methods => [text "Method = " ++ join_spaces methods] end ++
  [text "Solid = " ++ (if al_solid listing then text "+" else text "-"); text "Blocks = " ++ decimal_digits (al_blocks listing)].

(** The columns of the table. *)
Definition row (time attributes size packed name : list Z) : list Z :=
  pad_right 19 time ++ 32 :: pad_right 5 attributes ++ 32 :: pad_left 12 size ++ 32 :: pad_left 12 packed ++
  32 :: 32 :: name.

(** What the loop over the entries changes. *)
Record Summary := { sm_size : Z; sm_packed : Z; sm_files : Z; sm_folders : Z; sm_time : option Z; sm_rows : list (list Z) }.
Definition no_rows : Summary :=
  {| sm_size := 0; sm_packed := 0; sm_files := 0; sm_folders := 0; sm_time := None; sm_rows := [] |}.

(** A sum beyond 64 bits is an overflow. *)
Definition print_entry (summary : Summary) (entry : ArchiveListingEntry) : result Summary R7zError :=
  if is_anti (le_kind entry) then Ok summary else
  let folder := is_directory (le_kind entry) in
  let? size := add_u64 (sm_size summary) (default 0 (le_size entry)) in
  let? packed := add_u64 (sm_packed summary) (entry_packed_for_summary entry) in
  Ok {| sm_size := size; sm_packed := packed;
        sm_files := if folder then sm_files summary else sm_files summary + 1;
        sm_folders := if folder then sm_folders summary + 1 else sm_folders summary;
        sm_time := newest_time (sm_time summary) (le_modified entry);
        sm_rows := sm_rows summary ++
          [row (format_listing_time (le_modified entry)) (human_attributes entry) (size_text (le_size entry))
               (size_text (entry_packed_for_row entry)) (le_path entry)] |}.

Definition ruler : list Z := text "------------------- ----- ------------ ------------  ------------------------".
Definition selected_entries (selected : EntryPatterns) (listing : ArchiveListing) : list ArchiveListingEntry :=
  filter (λ entry, EntryPatterns_matches selected (le_path entry) = true) (al_entries listing).

Definition print_listing (listing : ArchiveListing) (archive_path : list Z) (selected : EntryPatterns) :
    result (list (list Z)) R7zError :=
  let? summary := try_fold print_entry no_rows (selected_entries selected listing) in
  Ok ([[]] ++ print_listing_header listing archive_path ++
      [[]; text "   Date      Time    Attr         Size   Compressed  Name"; ruler] ++ sm_rows summary ++
      [ruler; row (format_listing_time (sm_time summary)) [] (decimal_digits (sm_size summary))
                  (decimal_digits (sm_packed summary)) (summary_text (sm_files summary) (sm_folders summary)); []]).

Definition technical_lines (entry : ArchiveListingEntry) : list (list Z) :=
  [text "Path = " ++ le_path entry; text "Size = " ++ size_text (le_size entry);
   text "Packed Size = " ++ size_text (entry_packed_for_row entry);
   text "Modified = " ++ format_listing_time (le_modified entry)] ++
  match technical_attributes entry with Some attrs => [text "Attributes = " ++ attrs] | None => [] end ++
  match le_crc entry with
  | Some crc => [text "CRC = " ++ upper_hex8 crc]
  | None => if is_anti (le_kind entry) then [] else [text "CRC = "]
  end ++
  [text "Encrypted = " ++ (if le_encrypted entry then text "+" else text "-"); text "Method = " ++ join_spaces (le_methods entry);
   text "Block = " ++ from_option decimal_digits [] (le_block entry); []].

Definition print_technical_listing (listing : ArchiveListing) (archive_path : list Z) (selected : EntryPatterns) : list (list Z) :=
  print_listing_header listing archive_path ++ [[]; text "----------"] ++
  concat (map technical_lines (selected_entries selected listing)).

(** [list_archive] from the opened archive on: the lines it prints. *)
Definition list_lines (archive : Archive) (physical_size : option Z) (technical : bool) (archive_path : list Z)
    (operands : list (list Z)) : result (list (list Z)) R7zError :=
  let? listing := Archive_listing archive physical_size in
  let selected := EntryPatterns_from_paths operands in
  if technical then Ok (print_technical_listing listing archive_path selected)
  else print_listing listing archive_path selected.

End output.

(** ** Lemmas *)

(** The permissions and the kind of a file can be read off its mode text. *)
Definition mode_text_value (s : list Z) : Z :=
  fold_left (λ acc c, 2 * acc + (if decide (c = 45) then 0 else 1)) (tail s) 0.

Lemma mode_text_low mode : tail (unix_mode_text mode) = tail (unix_mode_text (Z.land mode 511)).
Proof. unfold unix_mode_text. cbn [tail map]. by rewrite <- !Z.land_assoc. Qed.

Lemma mode_text_read_back mode : mode_text_value (unix_mode_text mode) = Z.land mode 511.
Proof.
  assert (forallb (λ m, mode_text_value (unix_mode_text m) =? m) (seqZ 0 512) = true) as Hall by (vm_compute; reflexivity).
  rewrite forallb_forall in Hall. unfold mode_text_value in *. rewrite mode_text_low.
  apply Z.eqb_eq, Hall, list_elem_of_In, elem_of_seqZ. change 511 with (Z.ones 9). rewrite Z.land_ones by lia.
  pose proof (Z.mod_pos_bound mode (2 ^ 9)). lia.
Qed.

Section table.
  Context (format_time : Z → list Z).
Definition entry_row (entry : ArchiveListingEntry) : list Z :=
  row (format_listing_time format_time (le_modified entry)) (human_attributes entry) (size_text (le_size entry))
      (size_text (entry_packed_for_row entry)) (le_path entry).
Definition total (f : ArchiveListingEntry → Z) (entries : list ArchiveListingEntry) : Z := sum_z (map f entries).
Definition row_size (entry : ArchiveListingEntry) : Z := default 0 (le_size entry).
Definition newest (entries : list ArchiveListingEntry) : option Z := foldl newest_time None (map le_modified entries).
Definition count (folder : bool) (entries : list ArchiveListingEntry) : Z :=
  zlen (filter (λ entry, is_directory (le_kind entry) = folder) entries).
Definition in_table (entries : list ArchiveListingEntry) : list ArchiveListingEntry :=
  filter (λ entry, is_anti (le_kind entry) = false) entries.
Definition sizes_ok (entry : ArchiveListingEntry) : Prop := 0 ≤ row_size entry ∧ 0 ≤ entry_packed_for_summary entry.

Lemma total_nonneg f entries : (∀ entry, entry ∈ entries → 0 ≤ f entry) → 0 ≤ total f entries.
Proof.
  unfold total. induction entries as [|entry entries IH]; intros Hf; [done|]. cbn.
  pose proof (Hf entry ltac:(by left)). assert (0 ≤ sum_z (map f entries)) by (apply IH; intros; apply Hf; by right).
  unfold sum_z in *. lia.
Qed.

Lemma count_cons folder entry entries :
  count folder (entry :: entries) = (if decide (is_directory (le_kind entry) = folder) then 1 else 0) + count folder entries.
Proof. unfold count. rewrite filter_cons. case_decide; [by rewrite zlen_cons|lia]. Qed.

(** The loop is the sum of the entries shown, or stops at an overflow. *)
Lemma print_entries_spec entries summary :
  Forall sizes_ok entries → 0 ≤ sm_size summary ≤ u64_max → 0 ≤ sm_packed summary ≤ u64_max →
  let shown := in_table entries in
  try_fold (print_entry format_time) summary entries =
  if decide (sm_size summary + total row_size shown ≤ u64_max ∧
             sm_packed summary + total entry_packed_for_summary shown ≤ u64_max)
  then Ok {| sm_size := sm_size summary + total row_size shown;
             sm_packed := sm_packed summary + total entry_packed_for_summary shown;
             sm_files := sm_files summary + count false shown; sm_folders := sm_folders summary + count true shown;
             sm_time := foldl newest_time (sm_time summary) (map le_modified shown);
             sm_rows := sm_rows summary ++ map entry_row shown |}
  else Err R7zPanic.
Proof.
  intros Hok. revert summary. induction Hok as [|entry entries [Hs Hp] Hok IH]; intros summary Hsize Hpacked; cbn [try_fold].
  - unfold total, count, zlen. cbn. rewrite decide_True by lia. destruct summary. cbn. by rewrite !Z.add_0_r, app_nil_r.
  - unfold in_table. rewrite filter_cons. unfold print_entry at 1. destruct (is_anti (le_kind entry)) eqn:Ea.
    { rewrite (decide_False (P := true = false)) by done. by apply IH. }
    rewrite (decide_True (P := false = false)) by done. fold (in_table entries).
    assert (0 ≤ total row_size (in_table entries) ∧ 0 ≤ total entry_packed_for_summary (in_table entries)) as [Ht1 Ht2].
    { split; apply total_nonneg; intros e He; apply list_elem_of_filter in He as [_ He];
        by apply (proj1 (Forall_forall _ _) Hok e He). }
    unfold total in *. cbn [map]. unfold sum_z in *. cbn [foldr].
    change (default 0 (le_size entry)) with (row_size entry). unfold add_u64, checked_add.
    destruct (decide (sm_size summary + row_size entry ≤ u64_max)); [|cbn [ok_or]; rewrite decide_False by lia; done]. cbn [ok_or].
    destruct (decide (sm_packed summary + entry_packed_for_summary entry ≤ u64_max)); [|cbn [ok_or]; rewrite decide_False by lia; done].
    cbn [ok_or]. rewrite IH by (cbn; lia). cbn [sm_size sm_packed sm_files sm_folders sm_time sm_rows foldl].
    rewrite !count_cons, <- !Z.add_assoc, <- app_assoc. cbn [app].
    case_decide; [|done]. destruct (is_directory (le_kind entry)); cbn; by rewrite ?Z.add_assoc, ?Z.add_0_r, ?Z.add_0_l.
Qed.

End table.

(** ** Property *)

(** The table of a listing has a row for each selected entry that is no anti-item, in
    the order of the archive, and its last line has their total sizes, their numbers and
    the newest of their times. It is printed in full exactly when the two
    totals fit 64 bits. *)
Theorem listing_table_adds_up (format_time : Z → list Z) (listing : ArchiveListing) (archive_path : list Z)
    (selected : EntryPatterns) :
  Forall sizes_ok (al_entries listing) →
  let shown := in_table (selected_entries selected listing) in
  print_listing format_time listing archive_path selected =
  if decide (total row_size shown ≤ u64_max ∧ total entry_packed_for_summary shown ≤ u64_max)
  then Ok ([[]] ++ print_listing_header listing archive_path ++
           [[]; text "   Date      Time    Attr         Size   Compressed  Name"; ruler] ++ map (entry_row format_time) shown ++
           [ruler; row (format_listing_time format_time (newest shown)) [] (decimal_digits (total row_size shown))
                       (decimal_digits (total entry_packed_for_summary shown))
                       (summary_text (count false shown) (count true shown)); []])
  else Err R7zPanic.
Proof.
  intros Hok shown. unfold print_listing.
  assert (Forall sizes_ok (selected_entries selected listing)) as Hok'.
  { apply Forall_forall. intros e He. apply list_elem_of_filter in He as [_ He]. by apply (proj1 (Forall_forall _ _) Hok e He). }
  rewrite (print_entries_spec _ _ no_rows Hok') by (cbn; lia). fold shown. cbn [no_rows sm_size sm_packed sm_files sm_folders sm_time sm_rows].
  rewrite !Z.add_0_l. by case_decide.
Qed.

(** ** Witness *)

Definition sample_row (name : string) (kind : ListingEntryKind) (size : Z) : ArchiveListingEntry :=
  {| le_index := 0; le_path := text name; le_kind := kind; le_size := Some size; le_packed_size := Some 3;
     le_modified := None; le_attributes := Some 32; le_crc := Some 1; le_encrypted := false; le_methods := []; le_block := Some 0 |}.
Definition sample_rows (sizes : list Z) : ArchiveListing :=
  {| al_archive_type := "7z"; al_physical_size := None; al_headers_size := None; al_methods := []; al_solid := false;
     al_blocks := 1; al_entries := map (sample_row "f" L_File) sizes |}.

Lemma listing_table_adds_up_witness :
  ∃ lines, print_listing (λ _, []) (sample_rows [5; 12]) (text "a.7z") AllEntries = Ok lines ∧ length lines = 13%nat ∧
    lines !! 11%nat = Some (text "                                    17            6  2 files") ∧
  print_listing (λ _, []) (sample_rows [2 ^ 63; 2 ^ 63]) (text "a.7z") AllEntries = Err R7zPanic.
Proof.
  assert (Forall sizes_ok (al_entries (sample_rows [5; 12])) ∧ Forall sizes_ok (al_entries (sample_rows [2 ^ 63; 2 ^ 63]))) as [H1 H2]
    by (split; repeat apply Forall_cons_2; try apply Forall_nil_2; split; vm_compute; discriminate).
  rewrite (listing_table_adds_up _ _ _ _ H1), (listing_table_adds_up _ _ _ _ H2).
  rewrite decide_True by (vm_compute; split; discriminate).
  rewrite decide_False by (intros [Hl _]; by vm_compute in Hl).
  eexists. split_and!; [reflexivity|reflexivity|reflexivity|reflexivity].
Defined.
