(* ===== verification/Rewrite.v ===== *)
(** * Rewriting an archive from the command line (src/src/bin/r7z.rs)

    An update or a deletion keeps the entries it does not replace: folders that are kept
    whole are copied as they are, the entries left of the others are decoded. *)

From stdpp Require Import base numbers list option strings gmap sorting.
From Stdlib Require Import ZArith Lia.
From S2P Require Import Prelude PropertyId Parsers PackInfo StreamInfo Folder Error Resources Aes DecoderPlan FilesInfo DecoderRun Entries FolderDecode FolderRead FileStreams Headers ArchiveSource PackedSource EntryReads Archive Listing WriteHeader Lzma2Encoder WriteFolders ArchiveBuilder CommandLine.

(** ** Entries from the disk *)

(** A path is its string. *)
Inductive PendingKind :=
| PendingFile (path : list Z) (size : Z)
| PendingEmptyFile
| PendingDirectory
| PendingSymlink (target : list Z).
Record PendingEntry := { pe_name : list Z; pe_kind : PendingKind; pe_meta : EntryMeta }.

Definition pending_to_preserved_entry (entry : PendingEntry) : PreservedArchiveEntry :=
  let '(kind, stream) :=
    match pe_kind entry with
    | PendingFile path size => (WriteFile, PreservedPath path size)
    | PendingEmptyFile => (WriteFile, PreservedNone)
    | PendingDirectory => (WriteDirectory, PreservedNone)
    | PendingSymlink target => (WriteFile, PreservedData (as_bytes target))
    end in
  {| pv_name := pe_name entry; pv_raw_name := None; pv_kind := kind; pv_meta := pe_meta entry; pv_stream := stream |}.

(** ** Entries of the old archive *)

(** [u32::try_from] cannot fail: the remainder is below 10^7. *)
Definition cli_filetime_to_system_time (filetime : Z) : option SystemTime :=
  let secs := filetime / 10000000 in
  let nanos := filetime mod 10000000 * 100 in
  if decide (secs < 11644473600) then None
  else if decide (nanos ≤ u32_max) then Some ((secs - 11644473600) * 1000000000 + nanos) else None.

Definition entry_meta_from_archive (files : FilesInfo) (index : Z) : EntryMeta :=
  {| em_ctime := mjoin (get index (ctimes files)) ≫= cli_filetime_to_system_time;
     em_atime := mjoin (get index (atimes files)) ≫= cli_filetime_to_system_time;
     em_mtime := mjoin (get index (mtimes files)) ≫= cli_filetime_to_system_time;
     WriteHeader.em_attributes := mjoin (get index (FilesInfo.attributes files));
     em_start_pos := mjoin (get index (FilesInfo.start_positions files)) |}.

Definition preserved_entry_kind (kind : ListingEntryKind) : WriteEntryKind :=
  match kind with
  | L_Anti => WriteAnti
  | L_Directory => WriteDirectory
  | L_File | L_Symlink => WriteFile
  end.

(** ** The plan *)

Inductive RetainedEntryAction := Drop | NoStream | CopyRaw (folder : Z) | Decode.
#[global] Instance RetainedEntryAction_eq_dec : EqDecision RetainedEntryAction.
Proof. solve_decision. Defined.

(** The keys of a [BTreeMap] or the elements of a [BTreeSet], in order. *)
Definition btree_order (keys : list Z) : list Z := merge_sort Z.le (remove_dups keys).

(** Indices are those of entries, so they are in range. *)
Definition is_retained (retained : list bool) (index : Z) : bool := default false (get index retained).
Definition set_action (actions : list RetainedEntryAction) (index : Z) (action : RetainedEntryAction) :
    list RetainedEntryAction := <[Z.to_nat index := action]> actions.

(** The entries of each folder, and the entries that stay without a stream. *)
Definition plan_listed (retained : list bool) (state : gmap Z (list Z) * list RetainedEntryAction)
    (entry : ArchiveListingEntry) : gmap Z (list Z) * list RetainedEntryAction :=
  let '(folder_entries, actions) := state in
  match le_block entry with
  | Some block => (<[block := default [] (folder_entries !! block) ++ [le_index entry]]> folder_entries, actions)
  | None =>
      (folder_entries, if is_retained retained (le_index entry) then set_action actions (le_index entry) NoStream else actions)
  end.

Definition plan_folder (retained : list bool) (folder_entries : gmap Z (list Z)) (actions : list RetainedEntryAction)
    (folder : Z) : list RetainedEntryAction :=
  let indices := default [] (folder_entries !! folder) in
  let kept := filter (λ index, is_retained retained index = true) indices in
  if decide (zlen kept = zlen indices)
  then fold_left (λ actions index, set_action actions index (CopyRaw folder)) indices actions
  else if decide (0 < zlen kept)
  then fold_left (λ actions index, set_action actions index Decode) kept actions
  else actions.

Definition plan_actions (retained : list bool) (entries : list ArchiveListingEntry) (count : nat) : list RetainedEntryAction :=
  let '(folder_entries, actions) := fold_left (plan_listed retained) entries (∅, replicate count Drop) in
  fold_left (plan_folder retained folder_entries) (btree_order (map fst (map_to_list folder_entries))) actions.

Definition copied_folder (action : RetainedEntryAction) : option Z :=
  match action with CopyRaw folder => Some folder | _ => None end.

Section rewrite.
  Context `{Nom} `{Crc32} `{LzmaMemory} `{Decoders} `{BlockCipher} `{Sha256}.
  Context (retries io_fuel : nat) (io_sizes : nat → Z) (copy_sizes : nat → N).
  (** The messages of the error type are derived by a crate. *)
  Context (display : R7zError → list Z).

Definition preserved_raw_folders (archive : Archive) (actions : list RetainedEntryAction) : result (list RawFolderBlock) CliError :=
  map_err Fatal (try_collect (Archive_raw_folder archive) (btree_order (omap copied_folder actions))).

(** [Archive::extract_to_memory_with_password]. *)
Definition Archive_extract_to_memory_with_password (self : Archive) (file_index : Z) (password : option (list Z)) :
    result bytes R7zError :=
  Archive_extract_to_memory_with_options retries io_fuel io_sizes copy_sizes self file_index
    (ArchiveReadConfig_with_optional_password ArchiveReadConfig_default password).

(** The errors of a decoder the user can do something about. *)
Definition is_decode_refusal (e : R7zError) : bool :=
  match e with UnsupportedCodec _ | PasswordRequired | Decompression | Crc => true | _ => false end.

Definition decode_retained (archive : Archive) (password : option (list Z)) (index : Z) (name : list Z) : result bytes CliError :=
  match Archive_extract_to_memory_with_password archive index password with
  | Ok data => Ok data
  | Err err =>
      if is_decode_refusal err
      then Err (FatalMessage (text "operation would require decoding retained entry '" ++ name ++
                              text "' in a partially changed archive folder: " ++ display err))
      else Err (Fatal err)
  end.

(** The stream of an entry that is not dropped. *)
Definition retained_stream (archive : Archive) (password : option (list Z)) (handles : gmap Z RawFolderHandle)
    (listed : ArchiveListingEntry) (entry : ArchiveEntryInfo) (action : RetainedEntryAction) :
    result PreservedEntryStream CliError :=
  match action with
  | Drop | NoStream => Ok PreservedNone
  | CopyRaw folder =>
      let? handle := ok_or (handles !! folder) (Fatal Parse) in
      let? size := ok_or (le_size listed) (Fatal Parse) in
      Ok (PreservedRaw handle (le_index listed) size (le_crc listed))
  | Decode => result_map PreservedData (decode_retained archive password (le_index listed) (ai_name entry))
  end.

(** Indexing an entry that is not there panics. *)
Fixpoint retained_entries (archive : Archive) (files : FilesInfo) (password : option (list Z)) (handles : gmap Z RawFolderHandle)
    (archive_entries : list ArchiveEntryInfo) (planned : list (ArchiveListingEntry * RetainedEntryAction)) :
    result (list PreservedArchiveEntry) CliError :=
  match planned with
  | [] => Ok []
  | (listed, action) :: planned =>
      if decide (action = Drop) then retained_entries archive files password handles archive_entries planned else
      let? entry := ok_or (get (le_index listed) archive_entries) (Fatal R7zPanic) in
      let? stream := retained_stream archive password handles listed entry action in
      let? rest := retained_entries archive files password handles archive_entries planned in
      Ok ({| pv_name := ai_name entry; pv_raw_name := sl_data <$> ai_raw_name entry;
             pv_kind := preserved_entry_kind (le_kind listed);
             pv_meta := entry_meta_from_archive files (le_index listed); pv_stream := stream |} :: rest)
  end.

Definition raw_folder_handles (raw_folders : list RawFolderBlock) : gmap Z RawFolderHandle :=
  fold_left (λ handles folder, <[rh_index (rb_handle folder) := rb_handle folder]> handles) raw_folders ∅.

Definition preserved_rewrite_entries (archive : Archive) (password : option (list Z)) (should_drop : ArchiveEntryInfo → bool)
    (append_entries : list PendingEntry) : result (list PreservedArchiveEntry * list RawFolderBlock) CliError :=
  match Archive_files_info archive with
  | None => Ok (map pending_to_preserved_entry append_entries, [])
  | Some files =>
      let? listing := map_err Fatal (Archive_listing archive None) in
      let archive_entries := Archive_entries archive in
      let retained := map (λ entry, negb (should_drop entry)) archive_entries in
      let actions := plan_actions retained (al_entries listing) (length archive_entries) in
      let? raw_folders := preserved_raw_folders archive actions in
      let? entries :=
        retained_entries archive files password (raw_folder_handles raw_folders) archive_entries (zip (al_entries listing) actions) in
      Ok (entries ++ map pending_to_preserved_entry append_entries, raw_folders)
  end.

End rewrite.

(** ** Lemmas: indices *)

Lemma next_entry es :
  match Entries_next es with
  | (Some e, es') => it_start es < it_end es ∧ em_index (en_metadata e) = it_start es ∧
      it_start es' = it_start es + 1 ∧ it_end es' = it_end es
  | (None, _) => it_end es ≤ it_start es
  end.
Proof.
  unfold Entries_next, Entries_nth. rewrite Z.add_0_r. case_decide; [|lia].
  destruct (it_names es) as [names|]; [destruct (name_slices_nth 0 names)|]; by cbn.
Qed.

(** A file is the next entry, with its metadata. *)
Lemma next_file `{Nom} fs r fs' :
  FileStreams_next fs = (Ok r, fs') →
  match r with
  | Some file => it_start (fi_entries fs) < it_end (fi_entries fs) ∧ em_index (en_metadata file) = it_start (fi_entries fs) ∧
      it_start (fi_entries fs') = it_start (fi_entries fs) + 1 ∧ it_end (fi_entries fs') = it_end (fi_entries fs)
  | None => it_end (fi_entries fs) ≤ it_start (fi_entries fs)
  end.
Proof.
  unfold FileStreams_next. pose proof (next_entry (fi_entries fs)) as Hn.
  destruct (Entries_next (fi_entries fs)) as [[entry|] entries].
  - assert (Hbind : ∀ stream file, Entry_bind (T := StreamLocation) entry stream = Ok file → en_metadata file = en_metadata entry).
    { intros stream file. unfold Entry_bind. destruct (EntryKind_bind _ _); [|done]. by intros [= <-]. }
    destruct (EntryKind_has_stream _); [destruct (StreamLocations_nth _ _) as [[loc|] st]; [|done]|];
      (destruct (Entry_bind entry _) as [file|] eqn:Eb; [|done]); intros [= <- <-]; by rewrite (Hbind _ _ Eb).
  - destruct (StreamLocations_finish _); [|done]. by intros [= <- <-].
Qed.

(** A listing gives its entries in order. *)
Lemma list_entries_indices `{Nom} `{Crc32} fuel fs es :
  list_entries fuel fs = Ok es →
  map le_index es = seqZ (it_start (fi_entries fs)) (it_end (fi_entries fs) - it_start (fi_entries fs)).
Proof.
  revert fs es. induction fuel as [|fuel IH]; intros fs es; cbn [list_entries]; [done|].
  destruct (FileStreams_next fs) as [[r|] fs'] eqn:En; [|done]. apply next_file in En. destruct r as [file|].
  - destruct (listing_entry file) as [e|] eqn:El; [|done].
    destruct (list_entries fuel fs') as [rest|] eqn:Er; [|done]. intros [= <-].
    destruct En as (Hlt&Hi&Hs&He). rewrite seqZ_cons by lia. cbn [map]. f_equal.
    + unfold listing_entry in El. rewrite <- Hi.
      destruct (en_kind file); try (destruct (if decide _ then _ else _); [|done]); by injection El as <-.
    + rewrite (IH _ _ Er), Hs, He. f_equal; lia.
  - intros [= <-]. by rewrite seqZ_nil by lia.
Qed.

(** A listed entry is that of an entry of the archive: both are of one file. *)
Definition listed_as (listed : ArchiveListingEntry) (entry : ArchiveEntryInfo) : Prop :=
  ∃ file : Entry StreamLocation, listing_entry file = Ok listed ∧ ArchiveEntryInfo_from_entry file = entry.

(** The entries that have a stream. *)
Definition has_stream (entry : ArchiveEntryInfo) : bool :=
  match ai_entry_type entry with T_File | T_Symlink => true | _ => false end.

Lemma listed_as_spec listed entry :
  listed_as listed entry →
  le_index listed = ai_index entry ∧ le_kind listed = listing_kind (ai_entry_type entry) ∧
  (has_stream entry = true ↔ is_Some (le_block listed)).
Proof.
  intros (file & Hl & <-). unfold listing_entry in Hl. unfold has_stream, ArchiveEntryInfo_from_entry. cbn.
  destruct (en_kind file); cbn in Hl |- *; try (destruct (if decide _ then _ else _); [|done]); injection Hl as <-; cbn;
    (split; [done|]; split; [done|]; split; [by eauto|by intros []]).
Qed.

(** A file that is read is the next entry, with its stream bound. *)
Lemma next_bound `{Nom} fs file fs' :
  FileStreams_next fs = (Ok (Some file), fs') →
  ∃ entry, Entries_next (fi_entries fs) = (Some entry, fi_entries fs') ∧
    ArchiveEntryInfo_from_entry file = ArchiveEntryInfo_from_entry entry.
Proof.
  unfold FileStreams_next. destruct (Entries_next (fi_entries fs)) as [[entry|] entries].
  2:{ by destruct (StreamLocations_finish _). }
  assert (Hbind : ∀ stream, Entry_bind (T := StreamLocation) entry stream = Ok file →
    ArchiveEntryInfo_from_entry file = ArchiveEntryInfo_from_entry entry).
  { intros stream. unfold Entry_bind, ArchiveEntryInfo_from_entry. destruct (en_kind entry); cbn;
      try (destruct (stream _); [|done]); by intros [= <-]. }
  destruct (EntryKind_has_stream _); [destruct (StreamLocations_nth _ _) as [[loc|] st]; [|done]|];
    (destruct (Entry_bind entry _) as [bound|] eqn:Eb; [|done]); intros [= -> <-]; exists entry; (split; [done|by eapply Hbind]).
Qed.

Lemma list_entries_listed `{Nom} `{Crc32} fuel n fs es :
  list_entries fuel fs = Ok es → Z.of_nat n = it_end (fi_entries fs) - it_start (fi_entries fs) →
  Forall2 listed_as es (map ArchiveEntryInfo_from_entry (Entries_collect n (fi_entries fs))).
Proof.
  revert n fs es. induction fuel as [|fuel IH]; intros n fs es; cbn [list_entries]; [done|].
  destruct (FileStreams_next fs) as [[r|] fs'] eqn:En; [|done]. pose proof (next_file _ _ _ En) as Hn. destruct r as [file|].
  - apply next_bound in En as (entry & Ee & Hf). destruct (listing_entry file) as [e|] eqn:El; [|done].
    destruct (list_entries fuel fs') as [rest|] eqn:Er; [|done]. intros [= <-] Hc. destruct Hn as (Hlt & _ & Hs & He).
    destruct n as [|n]; [lia|]. cbn [Entries_collect]. rewrite Ee. cbn [map]. constructor; [by exists file|].
    apply (IH _ _ _ Er). lia.
  - intros [= <-] Hc. destruct n as [|n]; [constructor|lia].
Qed.

(** The next fallible step of a computation that succeeds. *)
Ltac ok_step := match goal with |- match ?m with Ok _ => _ | Err _ => _ end = _ → _ => destruct m; [|done] end.

Lemma listing_indices `{Nom} `{Crc32} archive physical listing :
  Archive_listing archive physical = Ok listing → map le_index (al_entries listing) = seqZ 0 (Archive_num_files archive).
Proof.
  unfold Archive_listing. do 4 ok_step. destruct (FileStreams_new _ _ _) as [fs|] eqn:Ef; [|done].
  destruct (list_entries _ fs) as [es|] eqn:El; [|done]. intros [= <-]. cbn [al_entries].
  rewrite (list_entries_indices _ _ _ El). unfold FileStreams_new in Ef. revert Ef. ok_step. case_decide; [done|].
  intros [= <-]. cbn. by rewrite Z.sub_0_r.
Qed.

Lemma archive_files_info_ok `{Nom} archive files :
  Archive_try_files_info archive = Ok files → Archive_files_info archive = files.
Proof.
  unfold Archive_try_files_info, Archive_files_info, Header_files_info.
  destruct (Header_try_files_info (ar_header archive)) as [r header]. cbn. by intros ->.
Qed.

(** The entries of a listing are those of the archive, one for one. *)
Lemma listing_listed `{Nom} `{Crc32} archive physical listing :
  0 ≤ Archive_num_files archive → Archive_listing archive physical = Ok listing →
  Forall2 listed_as (al_entries listing) (Archive_entries archive).
Proof.
  intros Hn. unfold Archive_listing. do 3 ok_step. destruct (Archive_try_files_info archive) as [files|] eqn:Ea; [|done].
  destruct (FileStreams_new _ _ _) as [fs|] eqn:Ef; [|done].
  destruct (list_entries _ fs) as [es|] eqn:El; [|done]. intros [= <-]. cbn [al_entries].
  assert (fi_entries fs = Entries_new files (Archive_num_files archive)) as Hfi.
  { unfold FileStreams_new in Ef. revert Ef. ok_step. case_decide; [done|]. by intros [= <-]. }
  unfold Archive_entries. rewrite (archive_files_info_ok _ _ Ea), <- Hfi. eapply list_entries_listed; [exact El|]. rewrite Hfi. cbn. lia.
Qed.

Lemma entries_collected fuel es :
  (Z.of_nat fuel = it_end es - it_start es) →
  map (λ e, em_index (en_metadata e)) (Entries_collect fuel es) = seqZ (it_start es) (it_end es - it_start es).
Proof.
  revert es. induction fuel as [|fuel IH]; intros es Hf; cbn [Entries_collect]; [by rewrite seqZ_nil by lia|].
  pose proof (next_entry es) as Hn. destruct (Entries_next es) as [[e|] es']; [|lia].
  destruct Hn as (Hlt&Hi&Hs&He). rewrite seqZ_cons by lia. cbn [map]. rewrite Hi, IH by lia. f_equal. f_equal; lia.
Qed.

Lemma archive_entry_indices `{Nom} archive : 0 ≤ Archive_num_files archive →
  map ai_index (Archive_entries archive) = seqZ 0 (Archive_num_files archive).
Proof.
  intros Hn. unfold Archive_entries. rewrite map_map. cbn.
  rewrite (entries_collected _ (Entries_new _ _)) by (cbn; lia). cbn. by rewrite Z.sub_0_r.
Qed.

(** ** Lemmas: the plan *)

(** Assignments to the table of actions. *)
Definition assign (assignments : list (Z * RetainedEntryAction)) (actions : list RetainedEntryAction) :
    list RetainedEntryAction :=
  fold_left (λ actions p, set_action actions p.1 p.2) assignments actions.

Lemma assign_app a b actions : assign (a ++ b) actions = assign b (assign a actions).
Proof. apply fold_left_app. Qed.

Lemma fold_assign (f : Z → RetainedEntryAction) indices actions :
  fold_left (λ actions index, set_action actions index (f index)) indices actions =
  assign (map (λ index, (index, f index)) indices) actions.
Proof. revert actions. induction indices as [|i indices IH]; intros actions; [done|]. cbn. by rewrite IH. Qed.

Lemma length_assign a actions : length (assign a actions) = length actions.
Proof.
  revert actions. induction a as [|p a IH]; intros actions; [done|].
  cbn. fold (assign a). rewrite IH. apply length_insert.
Qed.

(** Consistent assignments: an assigned place has its value, the others are kept. *)
Lemma assign_lookup (f : Z → RetainedEntryAction) a actions :
  Forall (λ p, p.2 = f p.1 ∧ 0 ≤ p.1 < zlen actions) a →
  ∀ i : nat, assign a actions !! i =
    if decide (Z.of_nat i ∈ map fst a) then Some (f (Z.of_nat i)) else actions !! i.
Proof.
  revert actions. induction a as [|[j x] a IH]; intros actions Ha i; [done|].
  inversion Ha as [|? ? [Hx Hj] Ha']; subst. cbn [fst snd] in *. subst x.
  assert (Hl : length (set_action actions j (f j)) = length actions) by apply length_insert.
  change (assign ((j, f j) :: a) actions) with (assign a (set_action actions j (f j))).
  rewrite IH.
  2:{ eapply Forall_impl; [exact Ha'|]. intros p [? ?]. unfold zlen in *. by rewrite Hl. }
  cbn [map fst]. unfold zlen, set_action in *.
  destruct (decide (Z.of_nat i ∈ map fst a)) as [Hin|Hin].
  - by rewrite decide_True by (by right).
  - destruct (decide (Z.of_nat i = j)) as [<-|Hne].
    + rewrite decide_True by left. rewrite Nat2Z.id. apply list_lookup_insert_eq. lia.
    + rewrite decide_False by (rewrite elem_of_cons; tauto). apply list_lookup_insert_ne. lia.
Qed.

Lemma filter_all {A} (P : A → Prop) `{!∀ x, Decision (P x)} l :
  zlen (filter P l) = zlen l → Forall P l.
Proof.
  unfold zlen. induction l as [|x l IH]; intros E; [constructor|]. rewrite filter_cons in E.
  pose proof (length_filter P l). destruct (decide (P x)); cbn [length] in E; [|lia].
  constructor; [done|]. apply IH. lia.
Qed.

Lemma btree_order_elem keys k : k ∈ btree_order keys ↔ k ∈ keys.
Proof. unfold btree_order. by rewrite merge_sort_Permutation, elem_of_remove_dups. Qed.
Lemma btree_order_nodup keys : NoDup (btree_order keys).
Proof. unfold btree_order. rewrite merge_sort_Permutation. apply NoDup_remove_dups. Qed.

Section plan.
  Context (entries : list ArchiveListingEntry) (retained : list bool) (n : Z).
  Context (Hindices : map le_index entries = seqZ 0 n) (Hn : 0 ≤ n).

(** The indices of a folder, and what each entry is to become. *)
Definition block_ids (block : Z) : list Z := map le_index (filter (λ entry, le_block entry = Some block) entries).
Definition planned_action (entry : ArchiveListingEntry) : RetainedEntryAction :=
  if is_retained retained (le_index entry) then
    match le_block entry with
    | None => NoStream
    | Some block => if forallb (is_retained retained) (block_ids block) then CopyRaw block else Decode
    end
  else Drop.
Definition planned_at (index : Z) : RetainedEntryAction :=
  match get index entries with Some entry => planned_action entry | None => Drop end.

Lemma entry_at_index entry : entry ∈ entries → get (le_index entry) entries = Some entry ∧ 0 ≤ le_index entry < n.
Proof.
  intros [i Hi]%list_elem_of_lookup.
  assert (E : map le_index entries !! i = Some (le_index entry)) by (rewrite list_lookup_fmap, Hi; done).
  rewrite Hindices in E. apply lookup_seqZ in E as [E Hlt]. rewrite Z.add_0_l in E.
  unfold get. rewrite E, decide_True by lia. rewrite Nat2Z.id. split; [done|lia].
Qed.

Lemma index_of_entry (i : nat) entry : entries !! i = Some entry → le_index entry = Z.of_nat i.
Proof.
  intros Hi. assert (E : map le_index entries !! i = Some (le_index entry)) by (rewrite list_lookup_fmap, Hi; done).
  rewrite Hindices in E. apply lookup_seqZ in E as [E _]. lia.
Qed.

Definition unstreamed_assignments (es : list ArchiveListingEntry) : list (Z * RetainedEntryAction) :=
  map (λ entry, (le_index entry, NoStream))
    (filter (λ entry, le_block entry = None ∧ is_retained retained (le_index entry) = true) es).
Definition folder_assignments (indices : list Z) (folder : Z) : list (Z * RetainedEntryAction) :=
  let kept := filter (λ index, is_retained retained index = true) indices in
  if decide (zlen kept = zlen indices) then map (λ index, (index, CopyRaw folder)) indices
  else if decide (0 < zlen kept) then map (λ index, (index, Decode)) kept
  else [].

Lemma plan_folder_assigns folder_entries actions folder :
  plan_folder retained folder_entries actions folder =
  assign (folder_assignments (default [] (folder_entries !! folder)) folder) actions.
Proof.
  unfold plan_folder, folder_assignments. case_decide; [by rewrite (fold_assign (λ _, CopyRaw folder))|].
  case_decide; [by rewrite (fold_assign (λ _, Decode))|done].
Qed.

Lemma plan_folders_assign folder_entries folders actions :
  fold_left (plan_folder retained folder_entries) folders actions =
  assign (concat (map (λ folder, folder_assignments (default [] (folder_entries !! folder)) folder) folders)) actions.
Proof.
  revert actions. induction folders as [|folder folders IH]; intros actions; [done|].
  cbn [fold_left map concat]. by rewrite IH, plan_folder_assigns, assign_app.
Qed.

Lemma plan_listed_assigns es m actions :
  ∃ m', fold_left (plan_listed retained) es (m, actions) = (m', assign (unstreamed_assignments es) actions) ∧
    ∀ k, default [] (m' !! k) = default [] (m !! k) ++ map le_index (filter (λ entry, le_block entry = Some k) es) ∧
      (is_Some (m !! k) ∨ (∃ entry, entry ∈ es ∧ le_block entry = Some k) → is_Some (m' !! k)).
Proof.
  revert m actions. induction es as [|entry es IH]; intros m actions.
  { exists m. split; [done|]. intros k. cbn. rewrite app_nil_r. split; [done|]. intros [?|(?&Hin&_)]; [done|].
    by apply elem_of_nil in Hin. }
  cbn [fold_left plan_listed]. unfold unstreamed_assignments. rewrite filter_cons.
  destruct (le_block entry) as [block|] eqn:Eb.
  - rewrite decide_False by (by intros [? ?]).
    destruct (IH (<[block := default [] (m !! block) ++ [le_index entry]]> m) actions) as (m'&E&Hm). exists m'.
    split; [exact E|]. intros k. destruct (Hm k) as [Hk Hs]. rewrite filter_cons.
    destruct (decide (k = block)) as [->|Hne].
    + rewrite lookup_insert_eq in Hk, Hs. rewrite decide_True by done. cbn [map from_option id] in *. rewrite Hk, <- app_assoc.
      split; [done|]. intros _. apply Hs. by left.
    + rewrite lookup_insert_ne in Hk, Hs by done. rewrite decide_False by congruence. split; [done|].
      intros [?|(e&Hin&He)]; [by apply Hs; left|]. apply Hs. right. exists e.
      apply elem_of_cons in Hin as [->|Hin]; [congruence|done].
  - assert (Hk : ∀ k, filter (λ entry, le_block entry = Some k) (entry :: es) = filter (λ entry, le_block entry = Some k) es).
    { intros k. rewrite filter_cons, decide_False; [done|congruence]. }
    destruct (is_retained retained (le_index entry)) eqn:Er.
    + rewrite decide_True by done. destruct (IH m (set_action actions (le_index entry) NoStream)) as (m'&E&Hm).
      exists m'. split; [exact E|]. intros k. rewrite Hk. destruct (Hm k) as [? Hs]. split; [done|].
      intros [?|(e&[->|Hin]%elem_of_cons&He)]; [auto|congruence|]. apply Hs. right. by exists e.
    + rewrite decide_False by (by intros [? ?]). destruct (IH m actions) as (m'&E&Hm).
      exists m'. split; [exact E|]. intros k. rewrite Hk. destruct (Hm k) as [? Hs]. split; [done|].
      intros [?|(e&[->|Hin]%elem_of_cons&He)]; [auto|congruence|]. apply Hs. right. by exists e.
Qed.

Lemma block_ids_elem k index : index ∈ block_ids k ↔ ∃ entry, entry ∈ entries ∧ le_index entry = index ∧ le_block entry = Some k.
Proof.
  unfold block_ids. rewrite list_elem_of_fmap. setoid_rewrite list_elem_of_filter. naive_solver.
Qed.

Lemma kept_all k :
  zlen (filter (λ index, is_retained retained index = true) (block_ids k)) = zlen (block_ids k) ↔
  forallb (is_retained retained) (block_ids k) = true.
Proof.
  rewrite forallb_forall. split.
  - intros Hf%filter_all index Hi%list_elem_of_In. rewrite Forall_forall in Hf. by apply Hf.
  - intros Hall. f_equal. induction (block_ids k) as [|i ids IH]; [done|]. rewrite filter_cons, decide_True.
    + f_equal. apply IH. intros x Hx. apply Hall. by right.
    + apply Hall. by left.
Qed.

(** A folder's assignments are the planned ones, and all that are planned for its entries. *)
Lemma folder_assignments_planned k :
  (∀ entry, entry ∈ entries → planned_at (le_index entry) = planned_action entry ∧ 0 ≤ le_index entry < n) →
  Forall (λ p, p.2 = planned_at p.1 ∧ 0 ≤ p.1 < n) (folder_assignments (block_ids k) k).
Proof.
  intros Hrange. unfold folder_assignments. pose proof (kept_all k) as Hall. cbv zeta.
  case_decide as Hk; [|case_decide; [|constructor]]; apply Forall_fmap, Forall_forall; intros index Hi; cbn.
  - pose proof (proj1 Hall Hk) as Hr. pose proof Hi as (entry&He&<-&Hb)%block_ids_elem. destruct (Hrange entry He) as [-> ?].
    split; [|done]. unfold planned_action. rewrite Hb, Hr.
    rewrite forallb_forall in Hr. rewrite Hr; [done|by apply list_elem_of_In].
  - apply list_elem_of_filter in Hi as [Hr Hi]. apply block_ids_elem in Hi as (entry&He&<-&Hb).
    destruct (Hrange entry He) as [-> ?]. split; [|done]. unfold planned_action. rewrite Hr, Hb.
    destruct (forallb _ _) eqn:Ef; [|done]. by destruct Hk; apply Hall.
Qed.

Lemma folder_assignments_complete entry k :
  entry ∈ entries → le_block entry = Some k → is_retained retained (le_index entry) = true →
  le_index entry ∈ map fst (folder_assignments (block_ids k) k).
Proof.
  intros He Hb Hr. assert (Hi : le_index entry ∈ block_ids k) by (apply block_ids_elem; eauto).
  unfold folder_assignments. cbv zeta. case_decide; [by rewrite map_map, map_id|].
  assert (Hk : le_index entry ∈ filter (λ index, is_retained retained index = true) (block_ids k)) by by apply list_elem_of_filter.
  rewrite decide_True, map_map, map_id; [done|]. unfold zlen. destruct (filter _ _); [by apply elem_of_nil in Hk|cbn; lia].
Qed.

(** The plan is the action planned for each entry. *)
Lemma plan_actions_spec : plan_actions retained entries (Z.to_nat n) = map planned_action entries.
Proof.
  unfold plan_actions. destruct (plan_listed_assigns entries ∅ (replicate (Z.to_nat n) Drop)) as (folders&->&Hf).
  rewrite plan_folders_assign, <- assign_app. set (keys := btree_order _). set (all := _ ++ _).
  assert (Hfolder : ∀ k, default [] (folders !! k) = block_ids k) by (intros k; by destruct (Hf k) as [-> _]).
  assert (Hrange : ∀ entry, entry ∈ entries → planned_at (le_index entry) = planned_action entry ∧ 0 ≤ le_index entry < n).
  { intros entry He. destruct (entry_at_index entry He) as [Hg ?]. unfold planned_at. by rewrite Hg. }
  assert (Hcons : Forall (λ p, p.2 = planned_at p.1 ∧ 0 ≤ p.1 < zlen (replicate (Z.to_nat n) Drop)) all).
  { unfold zlen. rewrite length_replicate, Z2Nat.id by lia. apply Forall_app. split.
    - unfold unstreamed_assignments. apply Forall_fmap, Forall_forall. intros entry [[Hb Hr] He]%list_elem_of_filter. cbn.
      destruct (Hrange entry He) as [-> ?]. split; [|done]. unfold planned_action. by rewrite Hr, Hb.
    - apply Forall_concat, Forall_fmap, Forall_forall. intros k _. cbn. rewrite Hfolder.
      apply folder_assignments_planned. intros e He. by apply Hrange. }
  assert (Hcomplete : ∀ entry, entry ∈ entries → planned_action entry ≠ Drop → le_index entry ∈ map fst all).
  { intros entry He Hp. unfold all. rewrite map_app. apply elem_of_app. unfold planned_action in Hp.
    destruct (is_retained retained (le_index entry)) eqn:Er; [|done]. destruct (le_block entry) as [block|] eqn:Eb.
    - right. rewrite concat_map, map_map. apply list_elem_of_In, in_concat. eexists. split.
      + apply in_map_iff. exists block. split; [reflexivity|]. apply list_elem_of_In. unfold keys. rewrite btree_order_elem.
        destruct (Hf block) as [_ Hs]. destruct Hs as [ids Hids]; [right; by exists entry|].
        apply list_elem_of_fmap. exists (block, ids). split; [done|]. by apply elem_of_map_to_list.
      + apply list_elem_of_In. rewrite Hfolder. by apply folder_assignments_complete.
    - left. unfold unstreamed_assignments. rewrite map_map. apply list_elem_of_fmap. exists entry. split; [done|].
      by apply list_elem_of_filter. }
  apply list_eq. intros i. rewrite (assign_lookup planned_at) by done. rewrite list_lookup_fmap.
  destruct (entries !! i) as [entry|] eqn:Ei; cbn [fmap option_fmap option_map].
  - pose proof (index_of_entry i entry Ei) as Hi. pose proof (list_elem_of_lookup_2 _ _ _ Ei) as He.
    destruct (Hrange entry He) as [Hp ?]. rewrite <- Hi. case_decide as Hin; [by rewrite Hp|].
    rewrite lookup_replicate_2 by lia. f_equal. symmetry. apply dec_stable. intros Hd. by apply Hin, Hcomplete.
  - apply lookup_ge_None in Ei. assert (Hlen : length entries = Z.to_nat n).
    { apply (f_equal length) in Hindices. rewrite length_map, length_seqZ in Hindices. done. }
    rewrite decide_False.
    + apply lookup_replicate_None. lia.
    + intros ((j&x)&Ej&Hin)%list_elem_of_fmap. rewrite Forall_forall in Hcons. destruct (Hcons _ Hin) as [_ Hr].
      unfold zlen in Hr. rewrite length_replicate in Hr. cbn in *. lia.
Qed.

End plan.

(** ** Lemmas: the entries that are kept *)

Lemma Forall2_filter {A B} (R : A → B → Prop) (P : A → Prop) (Q : B → Prop)
    `{!∀ x, Decision (P x)} `{!∀ x, Decision (Q x)} l k :
  Forall2 (λ x y, R x y ∧ (P x ↔ Q y)) l k → Forall2 R (filter P l) (filter Q k).
Proof.
  induction 1 as [|x y l k [Hr Hpq] Hf IH]; [constructor|]. rewrite (filter_cons P), (filter_cons Q).
  destruct (decide (P x)); destruct (decide (Q y)); try tauto. by constructor.
Qed.

Lemma filter_iff_in {A} (P Q : A → Prop) `{!∀ x, Decision (P x)} `{!∀ x, Decision (Q x)} (l : list A) :
  (∀ x, x ∈ l → P x ↔ Q x) → filter P l = filter Q l.
Proof.
  induction l as [|x l IH]; intros Hpq; [done|]. rewrite (filter_cons P), (filter_cons Q).
  rewrite IH by (intros y Hy; apply Hpq; by right). pose proof (Hpq x ltac:(by left)).
  destruct (decide (P x)), (decide (Q x)); tauto.
Qed.

Lemma filter_none {A} (P : A → Prop) `{!∀ x, Decision (P x)} (l : list A) : (∀ x, x ∈ l → ¬ P x) → filter P l = [].
Proof.
  induction l as [|x l IH]; intros Hp; [done|]. rewrite filter_cons, decide_False by (apply Hp; by left).
  apply IH. intros y Hy. apply Hp. by right.
Qed.

Lemma omap_filter {A B} (P : A → Prop) `{!∀ x, Decision (P x)} (f : A → B) l :
  omap (λ x, if decide (P x) then Some (f x) else None) l = map f (filter P l).
Proof. induction l as [|x l IH]; [done|]. cbn [omap list_omap]. rewrite filter_cons. case_decide; cbn; by rewrite IH. Qed.

Section kept.
  Context `{Nom} `{Crc32} `{LzmaMemory} `{Decoders} `{BlockCipher} `{Sha256}.
  Context (retries io_fuel : nat) (io_sizes : nat → Z) (copy_sizes : nat → N) (display : R7zError → list Z).
  Context (archive : Archive) (files : FilesInfo) (password : option (list Z)).

Abbreviation extract := (Archive_extract_to_memory_with_password retries io_fuel io_sizes copy_sizes).

(** What an entry is written as. *)
Definition written_kind (entry : ArchiveEntryInfo) : WriteEntryKind :=
  match ai_entry_type entry with T_Anti => WriteAnti | T_Directory => WriteDirectory | _ => WriteFile end.

(** An entry of the archive that is kept: as what it is, with its names and times. One without
    a stream stays so; one with a stream keeps its data, as the extraction decodes them, or
    still in their folder, with the size and checksum the archive lists. *)
Definition kept_as (entry : ArchiveEntryInfo) (preserved : PreservedArchiveEntry) : Prop :=
  pv_name preserved = ai_name entry ∧ pv_raw_name preserved = sl_data <$> ai_raw_name entry ∧
  pv_kind preserved = written_kind entry ∧
  pv_meta preserved = entry_meta_from_archive files (ai_index entry) ∧
  match pv_stream preserved with
  | PreservedNone => has_stream entry = false
  | PreservedData data => has_stream entry = true ∧ extract archive (ai_index entry) password = Ok data
  | PreservedRaw folder source_entry size crc =>
      has_stream entry = true ∧ source_entry = ai_index entry ∧ rh_archive_identity folder = ar_identity archive ∧
      ∃ listing listed, Archive_listing archive None = Ok listing ∧ get (ai_index entry) (al_entries listing) = Some listed ∧
        le_block listed = Some (rh_index folder) ∧ le_size listed = Some size ∧ le_crc listed = crc
  | PreservedPath _ _ => False
  end.

Lemma kept_kind listed entry : listed_as listed entry → preserved_entry_kind (le_kind listed) = written_kind entry.
Proof. intros (_ & -> & _)%listed_as_spec. unfold written_kind. by destruct (ai_entry_type entry). Qed.

Lemma raw_folder_handle k raw :
  Archive_raw_folder archive k = Ok raw → rb_handle raw = {| rh_archive_identity := ar_identity archive; rh_index := k |}.
Proof.
  unfold Archive_raw_folder, Archive_read_raw_folder_block. do 2 ok_step.
  destruct (StreamInfo_packed_folders _) as [[? ?]|]; [|done]. do 8 ok_step. by intros [= <-].
Qed.

Lemma raw_folders_handles ids raws :
  try_collect (Archive_raw_folder archive) ids = Ok raws →
  ∀ raw, raw ∈ raws → rh_archive_identity (rb_handle raw) = ar_identity archive.
Proof.
  intros E raw Hin. apply try_collect_Forall2 in E.
  apply list_elem_of_lookup in Hin as [i Hi]. destruct (Forall2_lookup_r _ _ _ _ _ E Hi) as (k&Hk&Hr). by rewrite (raw_folder_handle _ _ Hr).
Qed.

Lemma raw_folder_handles_lookup raws (m : gmap Z RawFolderHandle) k h :
  fold_left (λ handles folder, <[rh_index (rb_handle folder) := rb_handle folder]> handles) raws m !! k = Some h →
  m !! k = Some h ∨ ∃ raw, raw ∈ raws ∧ rb_handle raw = h ∧ rh_index h = k.
Proof.
  revert m. induction raws as [|raw raws IH]; intros m; cbn; [by left|].
  intros [Hm|(r&Hr&?&?)]%IH; [|right; exists r; split; [by right|done]].
  destruct (decide (rh_index (rb_handle raw) = k)) as [<-|Hne].
  - rewrite lookup_insert_eq in Hm. injection Hm as <-. right. exists raw. split; [by left|done].
  - rewrite lookup_insert_ne in Hm by done. by left.
Qed.

(** The handles of folders that were read, under their folders. *)
Definition handles_ok (raws : list RawFolderBlock) (handles : gmap Z RawFolderHandle) : Prop :=
  ∀ k h, handles !! k = Some h → rh_index h = k ∧ ∃ raw, raw ∈ raws ∧ rb_handle raw = h.

Lemma raw_folder_handles_ok raws : handles_ok raws (raw_folder_handles raws).
Proof. intros k h [Hm|(raw&?&?&?)]%raw_folder_handles_lookup; [by rewrite lookup_empty in Hm|eauto]. Qed.

Section entries.
  Context (listing : ArchiveListing) (archive_entries : list ArchiveEntryInfo) (raws : list RawFolderBlock).
  Context (handles : gmap Z RawFolderHandle) (Hhandles : handles_ok raws handles).
  Context (Hlisted : ∀ listed, listed ∈ al_entries listing → get (le_index listed) (al_entries listing) = Some listed).
  Context (Hlisting : Archive_listing archive None = Ok listing).
  Context (Hraws : ∀ raw, raw ∈ raws → rh_archive_identity (rb_handle raw) = ar_identity archive).

(** What the plan promises of an entry. *)
Definition planned_ok (p : ArchiveListingEntry * RetainedEntryAction) : Prop :=
  p.1 ∈ al_entries listing ∧ (p.2 = NoStream → le_block p.1 = None) ∧ (p.2 = Decode → is_Some (le_block p.1)) ∧
  ∀ k, p.2 = CopyRaw k → le_block p.1 = Some k.

Lemma retained_entries_spec planned kept :
  retained_entries retries io_fuel io_sizes copy_sizes display archive files password handles archive_entries planned = Ok kept →
  Forall planned_ok planned →
  Forall2 (λ p preserved, ∃ entry, get (le_index p.1) archive_entries = Some entry ∧ (listed_as p.1 entry → kept_as entry preserved))
    (filter (λ p, p.2 ≠ Drop) planned) kept ∧
  Forall (kept_ok listing raws) kept ∧
  ∀ k, omap (kept_from k) kept = omap (λ p, if decide (p.2 = CopyRaw k) then Some (le_index p.1) else None) planned.
Proof.
  revert kept. induction planned as [|[listed action] planned IH]; intros kept; cbn [retained_entries].
  { intros [= <-] _. split; [constructor|]. by split. }
  rewrite filter_cons. cbn [omap list_omap fst snd]. intros E Hp. inversion Hp as [|? ? (Hin & Hnone & Hsome & Hcopy) Hp']; subst. cbn [fst snd] in *.
  destruct (decide (action = Drop)) as [->|Hdrop].
  { rewrite decide_False by tauto. destruct (IH _ E Hp') as (?&?&Hk). split_and!; [done..|]. intros k. by rewrite Hk. }
  rewrite decide_True by done.
  destruct (get (le_index listed) archive_entries) as [entry|] eqn:Eg; cbn [ok_or] in E; [|done].
  destruct (retained_stream _ _ _ _ _ _ _ _ listed entry action) as [stream|] eqn:Es; [|done].
  destruct (retained_entries _ _ _ _ _ _ _ _ _ _ planned) as [rest|] eqn:Er; [|done]. injection E as <-.
  destruct (IH _ eq_refl Hp') as (Hf&Hok&Hk).
  destruct action as [| |folder|]; [done|..]; cbn [retained_stream] in Es.
  - injection Es as <-. split_and!.
    + constructor; [|done]. exists entry. split; [done|]. intros Hla. cbn [fst] in Hla. destruct (listed_as_spec _ _ Hla) as (Hai & _ & Hst).
      unfold kept_as. cbn. rewrite (kept_kind _ _ Hla), Hai. split_and!; [done..|]. destruct (has_stream entry); [|done].
      destruct (proj1 Hst eq_refl) as [k Hb]. by rewrite Hnone in Hb.
    + by constructor.
    + intros k. cbn. by rewrite Hk.
  - destruct (handles !! folder) as [handle|] eqn:Eh; cbn [ok_or] in Es; [|done].
    destruct (le_size listed) as [size|] eqn:Ez; cbn [ok_or] in Es; [|done]. injection Es as <-.
    destruct (Hhandles _ _ Eh) as [Hi Hraw]. specialize (Hcopy _ eq_refl). split_and!.
    + constructor; [|done]. exists entry. split; [done|]. intros Hla. cbn [fst] in Hla. destruct (listed_as_spec _ _ Hla) as (Hai & _ & Hst).
      unfold kept_as. cbn. rewrite (kept_kind _ _ Hla), Hai, Hi. split_and!; [done..|by apply Hst; rewrite Hcopy|done| |].
      * destruct Hraw as (raw & Hr & <-). by apply Hraws.
      * exists listing, listed. rewrite <- Hai. split_and!; [done|by apply Hlisted|done..].
    + constructor; [|done]. cbn. split; [|done]. exists listed. rewrite Hi. split_and!; [by apply Hlisted|done..].
    + intros k. cbn [omap list_omap]. unfold kept_from at 1. cbn [pv_stream fst snd]. rewrite Hi, Hk.
      destruct (decide (folder = k)) as [->|Hne]; [by rewrite decide_True|].
      rewrite decide_False; [done|]. intros E. by injection E.
  - unfold decode_retained in Es.
    destruct (extract archive (le_index listed) password) as [data|e] eqn:Ex; [|by destruct (is_decode_refusal e)].
    injection Es as <-. split_and!.
    + constructor; [|done]. exists entry. split; [done|]. intros Hla. cbn [fst] in Hla. destruct (listed_as_spec _ _ Hla) as (Hai & _ & Hst).
      unfold kept_as. cbn. rewrite (kept_kind _ _ Hla), Hai. split_and!; [done..|by apply Hst, Hsome|by rewrite <- Hai].
    + by constructor.
    + intros k. cbn. by rewrite Hk.
Qed.

End entries.

End kept.

Section accepted.
  Context `{Nom} `{Crc32} `{LzmaMemory} `{Decoders} `{BlockCipher} `{Sha256}.

(** Kept entries whose folders were supplied are collected. *)
Lemma collect_raw_entries_ok source listing raws m entries :
  Forall (kept_ok listing raws) entries →
  (∀ raw, raw ∈ raws → rh_archive_identity (rb_handle raw) = ar_identity source) →
  (∀ k found, m !! k = Some found → found ≠ []) →
  ∃ m', collect_raw_entries source listing raws m entries = Ok m' ∧ ∀ k found, m' !! k = Some found → found ≠ [].
Proof.
  intros Hk Hraws. revert m. induction Hk as [|e entries He Hk IH]; intros m Hm; cbn [collect_raw_entries]; [eauto|].
  unfold kept_ok in He. destruct (pv_stream e) as [| | |folder index size crc]; [by apply IH..|].
  destruct He as [(info&Hg&Hi&Hb&Hz&Hc) (raw&Hraw&Hh)]. rewrite Hg, decide_True by done.
  assert (RawFolderHandle_belongs_to folder source = true) as ->.
  { unfold RawFolderHandle_belongs_to. apply bool_decide_eq_true. rewrite <- Hh. by apply Hraws. }
  assert (existsb (λ raw, RawFolderHandle_eq (rb_handle raw) folder) raws = true) as ->.
  { apply existsb_exists. exists raw. split; [by apply list_elem_of_In|]. rewrite Hh. unfold RawFolderHandle_eq.
    by rewrite !bool_decide_eq_true_2. }
  cbn [negb orb]. rewrite decide_False by naive_solver. apply IH. intros k found.
  destruct (decide (rh_index folder = k)) as [<-|Hne].
  - rewrite lookup_insert_eq. intros [= <-]. by destruct (default [] _).
  - rewrite lookup_insert_ne by done. apply Hm.
Qed.

Lemma update_accepted source listing entries raws :
  Archive_listing source None = Ok listing → Forall (kept_ok listing raws) entries →
  (∀ raw, raw ∈ raws → rh_archive_identity (rb_handle raw) = ar_identity source) →
  (∀ k, omap (kept_from k) entries = [] ∨ omap (kept_from k) entries = block_entries listing k) →
  validate_raw_folder_update source entries raws = Ok tt.
Proof.
  intros Hl Hk Hraws Hblocks. unfold validate_raw_folder_update.
  destruct (existsb _ raws) eqn:Ex.
  { apply existsb_exists in Ex as (raw&Hin%list_elem_of_In&Hb). unfold RawFolderHandle_belongs_to in Hb.
    by rewrite bool_decide_eq_true_2 in Hb by (by apply Hraws). }
  rewrite Hl. destruct (collect_raw_entries_ok source listing raws ∅ entries Hk Hraws) as (m&Em&Hne).
  { intros k found Hf. by rewrite lookup_empty in Hf. }
  rewrite Em. apply collect_raw_entries_spec in Em as [_ Hm].
  assert (forallb (λ '(folder_index, found), bool_decide (found = block_entries listing folder_index)) (map_to_list m) = true) as ->;
    [|done]. apply forallb_forall. intros [k found] Hin%list_elem_of_In%elem_of_map_to_list.
  apply bool_decide_eq_true. specialize (Hm k). rewrite Hin, lookup_empty in Hm. cbn in Hm. rewrite Hm in *.
  pose proof (Hne _ _ Hin). destruct (Hblocks k) as [E|E]; [congruence|done].
Qed.

End accepted.

Section planned.
  Context (entries : list ArchiveListingEntry) (retained : list bool).

(** A folder is copied exactly if all its entries stay. *)
Lemma planned_copies k :
  map le_index (filter (λ entry, planned_action entries retained entry = CopyRaw k) entries) =
    if forallb (is_retained retained) (block_ids entries k) then block_ids entries k else [].
Proof.
  assert (Hc : ∀ entry, planned_action entries retained entry = CopyRaw k ↔
    is_retained retained (le_index entry) = true ∧ le_block entry = Some k ∧ forallb (is_retained retained) (block_ids entries k) = true).
  { intros entry. unfold planned_action. destruct (is_retained retained (le_index entry)); [|naive_solver].
    destruct (le_block entry) as [b|]; [|naive_solver]. destruct (forallb _ (block_ids entries b)) eqn:E.
    - split; [intros [= <-]; done|]. by intros (_&[= <-]&_).
    - split; [done|]. intros (_&[= <-]&?). congruence. }
  destruct (forallb (is_retained retained) (block_ids entries k)) eqn:Ef.
  - unfold block_ids. f_equal. rewrite forallb_forall in Ef.
    apply filter_iff_in. intros entry He. rewrite Hc. split; [tauto|]. intros Hb. split_and!; [|done|done].
    apply Ef, list_elem_of_In, block_ids_elem. eauto.
  - rewrite filter_none; [done|]. intros entry _ Hp%Hc. destruct Hp as (_&_&?). congruence.
Qed.

End planned.

Section rewritten.
  Context `{Nom} `{Crc32} `{LzmaMemory} `{Decoders} `{BlockCipher} `{Sha256}.
  Context (retries io_fuel : nat) (io_sizes : nat → Z) (copy_sizes : nat → N) (display : R7zError → list Z).
  Context (archive : Archive) (files : FilesInfo) (password : option (list Z)) (should_drop : ArchiveEntryInfo → bool).
  Context (listing : ArchiveListing) (Hlisting : Archive_listing archive None = Ok listing).
  Context (Hnum : 0 ≤ Archive_num_files archive).

Abbreviation all_entries := (Archive_entries archive).
Abbreviation retained := (map (λ entry, negb (should_drop entry)) all_entries).
Abbreviation planned := (map (planned_action (al_entries listing) retained) (al_entries listing)).

Lemma rewrite_lengths : length (al_entries listing) = Z.to_nat (Archive_num_files archive) ∧
  length all_entries = Z.to_nat (Archive_num_files archive).
Proof.
  pose proof (f_equal length (listing_indices _ _ _ Hlisting)) as Hl.
  pose proof (f_equal length (archive_entry_indices archive Hnum)) as Ha.
  rewrite length_map, length_seqZ in Hl, Ha. done.
Qed.

Lemma rewrite_plan : plan_actions retained (al_entries listing) (length all_entries) = planned.
Proof.
  destruct rewrite_lengths as [_ ->]. apply plan_actions_spec; [|done]. by eapply listing_indices.
Qed.

(** Listed entries and entries at the same place have that place's index. *)
Lemma same_place i listed entry :
  al_entries listing !! i = Some listed → all_entries !! i = Some entry →
  le_index listed = Z.of_nat i ∧ ai_index entry = Z.of_nat i ∧ get (le_index listed) all_entries = Some entry ∧
  (is_retained retained (le_index listed) = true ↔ should_drop entry = false).
Proof.
  intros Hl He. pose proof (index_of_entry _ _ (listing_indices _ _ _ Hlisting) _ _ Hl) as Hi.
  assert (Ha : map ai_index all_entries !! i = Some (ai_index entry)) by (rewrite list_lookup_fmap, He; done).
  rewrite archive_entry_indices in Ha by done. apply lookup_seqZ in Ha as [Ha _].
  rewrite Hi. unfold is_retained, get. rewrite !decide_True, !Nat2Z.id by lia. split; [done|]. split; [lia|]. split; [done|].
  rewrite list_lookup_fmap, He. cbn. by destruct (should_drop entry).
Qed.

Lemma zip_planned_ok : Forall (planned_ok listing) (zip (al_entries listing) planned).
Proof.
  apply Forall_forall. intros [listed action] Hin. apply list_elem_of_lookup in Hin as [i Hi].
  apply lookup_zip_Some in Hi as [Hl Ha]. rewrite list_lookup_fmap, Hl in Ha. injection Ha as <-.
  split; [by eapply list_elem_of_lookup_2|]. cbn. unfold planned_action.
  destruct (is_retained _ _); [|done]. destruct (le_block listed) as [block|]; [|done]. destruct (forallb _ _); [|by eauto].
  split_and!; [done..|]. by intros k [= ->].
Qed.

(** The entries that are kept are those that are not dropped, in order. *)
Lemma kept_in_order kept :
  Forall2 (λ p preserved, ∃ entry, get (le_index p.1) all_entries = Some entry ∧
      (listed_as p.1 entry → kept_as retries io_fuel io_sizes copy_sizes archive files password entry preserved))
    (filter (λ p, p.2 ≠ Drop) (zip (al_entries listing) planned)) kept →
  Forall2 (kept_as retries io_fuel io_sizes copy_sizes archive files password)
    (filter (λ entry, should_drop entry = false) all_entries) kept.
Proof.
  intros Hk. pose proof (Forall2_filter
    (λ (entry : ArchiveEntryInfo) (p : ArchiveListingEntry * RetainedEntryAction),
       listed_as p.1 entry ∧ get (le_index p.1) all_entries = Some entry)
    (λ entry, should_drop entry = false) (λ p, p.2 ≠ Drop) all_entries (zip (al_entries listing) planned)) as Hz.
  eapply Forall2_trans; [|apply Hz|exact Hk]; clear Hz.
  - intros entry p preserved [Hi Hg] (entry'&Hg'&Hp). rewrite Hg in Hg'. injection Hg' as <-. by apply Hp.
  - destruct rewrite_lengths as [Hl1 Hl2]. apply Forall2_same_length_lookup. split.
    { rewrite length_zip_with, length_map. lia. }
    intros i entry [listed action] He Hp. apply lookup_zip_Some in Hp as [Hl Ha].
    rewrite list_lookup_fmap, Hl in Ha. injection Ha as <-. destruct (same_place _ _ _ Hl He) as (Hi&Hi'&Hg&Hr).
    pose proof (Forall2_lookup_lr _ _ _ _ _ _ (listing_listed _ _ _ Hnum Hlisting) Hl He) as Hla.
    cbn [fst snd]. split; [by split|]. rewrite <- Hr. unfold planned_action.
    destruct (is_retained _ _); [|naive_solver]. split; [|done].
    intros _. destruct (le_block listed); [destruct (forallb _ _)|]; done.
Qed.

Lemma kept_folders k :
  omap (λ p : ArchiveListingEntry * RetainedEntryAction, if decide (p.2 = CopyRaw k) then Some (le_index p.1) else None)
    (zip (al_entries listing) planned) =
  if forallb (is_retained retained) (block_ids (al_entries listing) k) then block_ids (al_entries listing) k else [].
Proof.
  rewrite <- planned_copies, <- (omap_filter (λ entry, planned_action (al_entries listing) retained entry = CopyRaw k)).
  generalize (planned_action (al_entries listing) retained). intros f.
  induction (al_entries listing) as [|e es IH]; [done|]. cbn. rewrite <- IH. by destruct (decide (f e = CopyRaw k)).
Qed.

End rewritten.

(** ** Properties *)

(** A rewrite keeps exactly the entries that are not to be dropped, in their order, with
    their names and times, each with the bytes the extraction gives, with its place in a
    folder that is copied, or without a stream; the new entries come after them. The
    library accepts the result: only whole folders of this archive are copied, each with
    all its entries in the archive's order. *)
Theorem rewrite_keeps_the_rest `{Nom} `{Crc32} `{LzmaMemory} `{Decoders} `{BlockCipher} `{Sha256}
    (retries io_fuel : nat) (io_sizes : nat → Z) (copy_sizes : nat → N) (display : R7zError → list Z)
    (archive : Archive) (files : FilesInfo) (password : option (list Z)) (should_drop : ArchiveEntryInfo → bool)
    (appended : list PendingEntry) (entries : list PreservedArchiveEntry) (raw_folders : list RawFolderBlock) :
  Archive_files_info archive = Some files → 0 ≤ Archive_num_files archive →
  preserved_rewrite_entries retries io_fuel io_sizes copy_sizes display archive password should_drop appended =
    Ok (entries, raw_folders) →
  validate_raw_folder_update archive entries raw_folders = Ok tt ∧
  ∃ kept, entries = kept ++ map pending_to_preserved_entry appended ∧
    Forall2 (kept_as retries io_fuel io_sizes copy_sizes archive files password)
      (filter (λ entry, should_drop entry = false) (Archive_entries archive)) kept.
Proof.
  intros Hfiles Hnum. unfold preserved_rewrite_entries. rewrite Hfiles.
  destruct (Archive_listing archive None) as [listing|] eqn:El; [|done]. cbn [map_err].
  rewrite (rewrite_plan archive should_drop listing El Hnum). set (plan := map _ (al_entries listing)).
  unfold preserved_raw_folders. destruct (try_collect _ _) as [raws|] eqn:Er; [|done]. cbn [map_err].
  destruct (retained_entries _ _ _ _ _ _ _ _ _ _ _) as [kept|] eqn:Ek; [|done]. intros [= <- <-].
  destruct (retained_entries_spec _ _ _ _ _ _ _ _ listing _ raws _ (raw_folder_handles_ok raws)
    (λ listed Hin, proj1 (entry_at_index _ _ (listing_indices _ _ _ El) listed Hin)) El (raw_folders_handles _ _ _ Er) _ _ Ek
    (zip_planned_ok archive should_drop listing)) as (Hf&Hok&Hfrom).
  split; [|exists kept; split; [done|by eapply kept_in_order]].
  assert (Hnone : ∀ p, In p (map pending_to_preserved_entry appended) → ∀ f s z c, pv_stream p ≠ PreservedRaw f s z c).
  { intros p (e&<-&_)%in_map_iff. by destruct e as [? []]. }
  eapply (update_accepted archive listing); [exact El| |by eapply raw_folders_handles|].
  - apply Forall_app. split; [done|]. apply Forall_forall. intros p Hin%list_elem_of_In. unfold kept_ok.
    destruct (pv_stream p) eqn:Ep; try done. by destruct (Hnone p Hin _ _ _ _ Ep).
  - intros k. rewrite omap_app, Hfrom. unfold plan. rewrite (kept_folders archive should_drop listing).
    assert (omap (kept_from k) (map pending_to_preserved_entry appended) = []) as ->.
    { clear -Hnone. induction (map pending_to_preserved_entry appended) as [|p ps IH]; [done|]. cbn.
      unfold kept_from at 1. destruct (pv_stream p) eqn:Ep; try (apply IH; intros; apply Hnone; by right).
      by destruct (Hnone p (or_introl eq_refl) _ _ _ _ Ep). }
    rewrite app_nil_r. destruct (forallb _ _); [right; done|by left].
Qed.

(** ** Witnesses *)

#[local] Existing Instances flat_memory stored_decoders counter_cipher flat_hash sum_crc.

Definition sample_appended : list PendingEntry :=
  [{| pe_name := [98]; pe_kind := PendingSymlink [99]; pe_meta := EntryMeta_default |}].

Lemma rewrite_keeps_the_rest_witness :
  ∃ self entries raws, sample_opened = Ok self ∧
    preserved_rewrite_entries 9 30 (λ _, 8) (λ _, 8%N) (λ _, []) self None (λ _, false) sample_appended = Ok (entries, raws) ∧
    validate_raw_folder_update self entries raws = Ok tt ∧ map pv_name entries = [[97]; [98]].
Proof.
  destruct sample_opened as [self|] eqn:Eo; [|vm_compute in Eo; discriminate Eo].
  destruct (preserved_rewrite_entries 9 30 (λ _, 8) (λ _, 8%N) (λ _, []) self None (λ _, false) sample_appended)
    as [[entries raws]|] eqn:Er; [|vm_compute in Eo; injection Eo as <-; vm_compute in Er; discriminate Er].
  destruct (Archive_files_info self) as [files|] eqn:Ef; [|vm_compute in Eo; injection Eo as <-; vm_compute in Ef; discriminate Ef].
  destruct (rewrite_keeps_the_rest 9 30 (λ _, 8) (λ _, 8%N) (λ _, []) self files None (λ _, false) sample_appended entries raws Ef)
    as [Hv _]; [vm_compute in Eo; injection Eo as <-; vm_compute; discriminate|exact Er|].
  exists self, entries, raws. split; [reflexivity|]. split; [exact Er|]. split; [exact Hv|].
  vm_compute in Eo. injection Eo as <-. vm_compute in Er. injection Er as <- _. reflexivity.
Defined.

(** Dropping one of two files of a folder decodes the other; an entry without a stream stays
    as it is. *)
Example plan_of_a_deletion :
  let listed index block := {| le_index := index; le_path := []; le_kind := L_File; le_size := Some 1; le_packed_size := None;
    le_modified := None; le_attributes := None; le_crc := None; le_encrypted := false; le_methods := []; le_block := block |} in
  plan_actions [true; false; true; true; true] [listed 0 (Some 1); listed 1 (Some 0); listed 2 (Some 0); listed 3 None; listed 4 (Some 1)] 5
  = [CopyRaw 1; Drop; Decode; NoStream; CopyRaw 1].
Proof. by vm_compute. Qed.
