(* ===== verification/ArchiveTest.v ===== *)
(** * Testing an archive from the command line (src/src/bin/r7z.rs)

    The selected entries are decoded folder by folder into a sink; the exit code is a
    warning as soon as one of them fails. *)

From stdpp Require Import base numbers list option strings.
From Stdlib Require Import ZArith Lia Sorted.
From S2P Require Import Prelude PropertyId Parsers Folder Error Operation Resources Aes DecoderPlan PackInfo StreamInfo FilesInfo DecoderRun Entries FolderDecode FolderRead FileStreams Headers ArchiveSource PackedSource EntryReads Archive Sessions Listing Lzma2Encoder EntryPatterns CommandLine.

(** ** The test *)

(** [std::io::Sink]. *)
#[export] Instance sink_writer : Writer unit := {|
  write_all := λ sink _, (Ok tt, sink);
  writer_flush := λ sink, (Ok tt, sink)
|}.

Section test.
  Context `{Nom} `{Crc32} `{LzmaMemory} `{Decoders} `{BlockCipher} `{Sha256}.
  Context (retries io_fuel : nat) (io_sizes : nat → Z) (copy_sizes : nat → N).

(** [Archive::read_session] and [ArchiveReadSession::finish_folder]. *)
Definition Archive_read_session (self : Archive) (password : option (list Z)) : result ArchiveReadSession R7zError :=
  Archive_read_session_with_options self (ArchiveReadConfig_with_optional_password ArchiveReadConfig_default password).
Definition ArchiveReadSession_finish_folder (self : ArchiveReadSession) :
    result ReadVerification R7zError * ArchiveReadSession := ArchiveReadSession_finish io_fuel io_sizes self.

Fixpoint test_indices (session : ArchiveReadSession) (indices : list Z) : result unit R7zError * ArchiveReadSession :=
  match indices with
  | [] => (Ok tt, session)
  | index :: indices =>
      match ArchiveReadSession_extract_to_writer retries io_fuel io_sizes copy_sizes session index tt with
      | (Err e, session, _) => (Err e, session)
      | (Ok _, session, _) => test_indices session indices
      end
  end.

(** A folder is finished only if all its entries were read. *)
Definition test_folder (session : ArchiveReadSession) (indices : list Z) : result unit R7zError * ArchiveReadSession :=
  match test_indices session indices with
  | (Err e, session) => (Err e, session)
  | (Ok _, session) =>
      let '(finished, session) := ArchiveReadSession_finish_folder session in
      (result_map (λ _, tt) finished, session)
  end.

(** A failure makes the result a warning, and the next folder is tested. *)
Fixpoint test_folders (warnings : Z) (session : ArchiveReadSession) (folders : list (Z * list Z)) : Z * ArchiveReadSession :=
  match folders with
  | [] => (warnings, session)
  | (_, indices) :: folders =>
      match test_folder session indices with
      | (Ok _, session) => test_folders warnings session folders
      | (Err _, session) => test_folders EXIT_WARNING session folders
      end
  end.

Definition test_selected_folders (archive : Archive) (password : option (list Z)) (selected : SelectedListing) : result Z CliError :=
  match SelectedListing_folders selected with
  | [] => Ok EXIT_OK
  | folders =>
      let? session := map_err Fatal (Archive_read_session archive password) in
      let '(warnings, session) := test_folders EXIT_OK session folders in
      let? _ := map_err Fatal (fst (ArchiveReadSession_finish io_fuel io_sizes session)) in
      Ok warnings
  end.

(** From the opened archive on. *)
Definition test_archive (archive : Archive) (password : option (list Z)) (operands : list (list Z)) : result Z CliError :=
  let? listing := map_err Fatal (Archive_listing archive None) in
  match EntryPatterns_resolve_listing (EntryPatterns_from_paths operands) (al_entries listing) with
  | Some selected => test_selected_folders archive password selected
  | None => Ok EXIT_WARNING
  end.

End test.

(** ** Lemmas *)

Section lemmas.
  Context `{Nom} `{Crc32} `{LzmaMemory} `{Decoders} `{BlockCipher} `{Sha256}.
  Context (retries io_fuel : nat) (io_sizes : nat → Z) (copy_sizes : nat → N).

Abbreviation run := (session_run retries io_fuel io_sizes).

Lemma run_app a t b u c : run a t b → run b u c → run a (t ++ u) c.
Proof. intros Ha Hb. induction Ha; cbn; [done|..]; eauto using session_run. Qed.

(** A request of the test reads its entry to the end. *)
Definition test_request (q : request) : Prop := ∃ written m, q =
  {| rq_env := Z * unit; rq_index := rq_index q; rq_callback := copying io_fuel copy_sizes;
     rq_before := (written, tt); rq_after := (m, tt) |}.

(** The entries that are read without a failure are requests of the run. *)
Lemma test_indices_run indices session r session' :
  test_indices retries io_fuel io_sizes copy_sizes session indices = (r, session') →
  ∃ trace, run session trace session' ∧ Forall test_request trace ∧ (r = Ok tt → map rq_index trace = indices).
Proof.
  revert session. induction indices as [|index indices IH]; intros session; cbn [test_indices].
  { intros [= <- <-]. exists []. split; [constructor|done]. }
  destruct (ArchiveReadSession_extract_to_writer _ _ _ _ session index tt) as [[res s1] []] eqn:Ex.
  unfold ArchiveReadSession_extract_to_writer in Ex.
  destruct (ArchiveReadSession_read_entry _ _ _ session index _ (0, tt)) as [[res' s1'] [m []]] eqn:Er.
  change (λ '(written, writer), strategy_map _ _) with (copying (W := unit) io_fuel copy_sizes) in Er.
  destruct res' as [[]|e]; injection Ex as <- <-.
  - intros Ht. destruct (IH _ Ht) as (trace&Hr&Hq&Hi).
    exists ({| rq_env := Z * unit; rq_index := index; rq_callback := copying io_fuel copy_sizes; rq_before := (0, tt); rq_after := (m, tt) |} :: trace).
    split; [by eapply run_served|]. split; [constructor; [by exists 0, m|done]|]. intros Ho. cbn. f_equal. auto.
  - intros [= <- <-]. exists []. split; [eapply run_failed; [exact Er|constructor]|done].
Qed.

Lemma test_folders_run folders warnings session code session' :
  test_folders retries io_fuel io_sizes copy_sizes warnings session folders = (code, session') →
  ∃ trace, run session trace session' ∧ Forall test_request trace ∧
    (code = EXIT_OK → warnings = EXIT_OK ∧ map rq_index trace = concat (map snd folders)).
Proof.
  revert warnings session. induction folders as [|[folder indices] folders IH]; intros warnings session; cbn [test_folders].
  { intros [= <- <-]. exists []. split; [constructor|done]. }
  unfold test_folder. destruct (test_indices _ _ _ _ session indices) as [r s1] eqn:Et.
  destruct (test_indices_run _ _ _ _ Et) as (trace1&Hr1&Hq1&Hi1). destruct r as [[]|e].
  - unfold ArchiveReadSession_finish_folder. destruct (ArchiveReadSession_finish io_fuel io_sizes s1) as [f s2] eqn:Ef.
    intros Hrest. destruct f as [v|e]; cbn [result_map] in Hrest; destruct (IH _ _ Hrest) as (trace2&Hr2&Hq2&Hi2);
      exists (trace1 ++ trace2); (split; [eapply run_app; [exact Hr1|by eapply run_finished]|]);
      (split; [by apply Forall_app|]); intros Hc; destruct (Hi2 Hc) as [Hw Hi]; [|done].
    split; [done|]. cbn [map concat snd]. rewrite map_app. f_equal; [by apply Hi1|done].
  - intros Hrest. destruct (IH _ _ Hrest) as (trace2&Hr2&Hq2&Hi2). exists (trace1 ++ trace2).
    split; [by eapply run_app|]. split; [by apply Forall_app|]. intros Hc. by destruct (Hi2 Hc) as [? _].
Qed.

(** What a request of the test was served is the whole of its stream, in the pieces the
    sink was given. *)
Definition whole_stream (verified : StreamLocation → bytes → Prop) (items : list (Entry StreamLocation)) (index : Z) : Prop :=
  ∃ file entry, items !! Z.to_nat index = Some file ∧ ReadableEntry_from_file file = Some entry ∧
    ∀ loc, re_content entry = ContentStream loc →
      ∃ data written m, verified loc data ∧ saw (copying io_fuel copy_sizes (written, tt)) data (Ok tt, (m, tt)).

Lemma test_request_whole items verified q :
  (∀ k, (0 < copy_sizes k)%N) → test_request q → served verified items q → whole_stream verified items (rq_index q).
Proof.
  intros Hcopy (written&m&Eq) (file&entry&Hf&He&Hc). exists file, entry. split; [done|]. split; [done|].
  intros loc Hl. rewrite Hl in Hc. rewrite Eq in Hc. cbn [content_given rq_callback rq_before rq_after] in Hc.
  destruct Hc as (seen&rest&Hv&Hs&Hall). exists seen, written, m. split; [|done].
  by rewrite Hall, app_nil_r in Hv by apply (copying_reads_all io_fuel copy_sizes Hcopy (written, tt)).
Qed.

End lemmas.

Lemma first_match_some patterns entries :
  is_Some (from_first_match patterns entries) →
  ∃ entry, entry ∈ entries ∧ EntryPatterns_matches patterns (le_path entry) = true.
Proof.
  induction entries as [|entry entries IH]; cbn [from_first_match]; [by intros [? ?]|].
  destruct (EntryPatterns_matches patterns (le_path entry)) eqn:Em; [exists entry; split; [by left|done]|].
  intros Hs. destruct (IH Hs) as (e&He&?). exists e. split; [by right|done].
Qed.

(** A selection that was made is of something. *)
Lemma selected_some operands entries selected :
  EntryPatterns_resolve_listing (EntryPatterns_from_paths operands) entries = Some selected →
  operands = [] ∨ ∃ entry, entry ∈ entries ∧ EntryPatterns_matches (EntryPatterns_from_paths operands) (le_path entry) = true.
Proof.
  destruct operands as [|path operands]; [by left|]. intros E. right. apply first_match_some.
  unfold EntryPatterns_resolve_listing in E. cbn [EntryPatterns_from_paths] in *.
  destruct (from_first_match _ entries); [eauto|done].
Qed.

(** ** Property *)

(** C15. When the test of an archive whose folders iterate to the end exits without a warning, it was honest: some entry was
    selected, or all were; and every selected entry with a stream was decoded to its end
    into the sink, the bytes its folder's decoder gave, with the declared size and
    digest. *)
Theorem tested_archive_is_readable `{Nom} `{Crc32} `{LzmaMemory} `{Decoders} `{BlockCipher} `{Sha256}
    (retries io_fuel : nat) (io_sizes : nat → Z) (copy_sizes : nat → N) (archive : Archive)
    (password : option (list Z)) (operands : list (list Z)) :
  (∀ k, 0 < io_sizes k) → (∀ k, (0 < copy_sizes k)%N) → decoders_bounded →
  (∀ streams, Archive_try_streams_info archive = Ok streams → tables_ok streams) → 0 ≤ Archive_num_files archive →
  test_archive retries io_fuel io_sizes copy_sizes archive password operands = Ok EXIT_OK →
  let patterns := EntryPatterns_from_paths operands in
  ∃ listing, Archive_listing archive None = Ok listing ∧
    (operands = [] ∨ ∃ entry, entry ∈ al_entries listing ∧ EntryPatterns_matches patterns (le_path entry) = true) ∧
    ∀ index, index ∈ folder_indices patterns (al_entries listing) →
      ∃ fs items, Archive_file_streams archive = Ok fs ∧
        FileStreams_map_all (S (Z.to_nat (Archive_num_files archive))) fs = Ok items ∧
        whole_stream io_fuel copy_sizes
          (archive_read retries archive (ArchiveReadConfig_with_optional_password ArchiveReadConfig_default password)) items index.
Proof.
  intros Hsizes Hcopy Hdec Ht Hn. unfold test_archive. cbv zeta.
  destruct (Archive_listing archive None) as [listing|] eqn:El; [|done]. cbn [map_err].
  pose proof (resolve_listing_spec (EntryPatterns_from_paths operands) (al_entries listing)) as Hsel.
  pose proof (selected_some operands (al_entries listing)) as Hsome.
  destruct (EntryPatterns_resolve_listing _ _) as [selected|] eqn:Es; [|done]. specialize (Hsome _ eq_refl).
  destruct Hsel as [Hidx _]. unfold test_selected_folders. intros E. exists listing. split; [done|]. split; [done|].
  rewrite <- Hidx. destruct (SelectedListing_folders selected) as [|folder folders].
  { intros index Hi. by apply elem_of_nil in Hi. }
  set (all := folder :: folders) in *. clearbody all.
  destruct (Archive_read_session archive password) as [session|] eqn:Ers; [|done]. cbn [map_err] in E.
  destruct (test_folders _ _ _ _ EXIT_OK session all) as [warnings session'] eqn:Ef.
  destruct (ArchiveReadSession_finish io_fuel io_sizes session') as [[v|] s2]; [|done]. cbn in E. injection E as ->.
  destruct (test_folders_run _ _ _ _ _ _ _ _ _ Ef) as (trace&Hrun&Hq&Hi). destruct (Hi eq_refl) as [_ Hmap].
  destruct (session_run_verified retries io_fuel io_sizes archive
    (ArchiveReadConfig_with_optional_password ArchiveReadConfig_default password) session trace session' Hsizes Hdec
    sample_limits Ht Hn Ers Hrun) as (fs&items&Hfs&Hall&_&_&Hserved&_).
  intros index Hin. rewrite <- Hmap in Hin. apply list_elem_of_fmap in Hin as (q&->&Hq').
  exists fs, items. split; [done|]. split; [done|]. rewrite Forall_forall in Hq, Hserved.
  apply test_request_whole; auto.
Qed.

#[local] Existing Instances flat_memory stored_decoders counter_cipher flat_hash sum_crc.

Lemma tested_archive_is_readable_witness :
  ∃ self, sample_opened = Ok self ∧ test_archive 9 30 (λ _, 8) (λ _, 8%N) self None [[42]] = Ok EXIT_OK ∧
    test_archive 9 30 (λ _, 8) (λ _, 8%N) self None [[98]] = Ok EXIT_WARNING ∧
    ∃ listing, Archive_listing self None = Ok listing ∧ folder_indices (EntryPatterns_from_paths [[42]]) (al_entries listing) = [0].
Proof.
  destruct sample_opened as [self|] eqn:Eo; [|vm_compute in Eo; discriminate Eo].
  destruct (tested_archive_is_readable 9 30 (λ _, 8) (λ _, 8%N) self None [[42]] (λ _, eq_refl) (λ _, eq_refl) stored_decoders_bounded)
    as (listing&Hl&_&_).
  - vm_compute in Eo. injection Eo as <-. intros streams Hs. vm_compute in Hs. injection Hs as <-.
    intros s unpack [= <-] [= <-]. do 3 eexists. split; [reflexivity|]. split; [vm_compute; reflexivity|].
    split; [repeat constructor; by compute|]. split; [repeat constructor; by compute|]. intros info Hi. discriminate Hi.
  - vm_compute in Eo. injection Eo as <-. vm_compute. discriminate.
  - vm_compute in Eo. injection Eo as <-. vm_compute. reflexivity.
  - exists self. split; [reflexivity|]. vm_compute in Eo. injection Eo as <-. split; [vm_compute; reflexivity|].
    split; [vm_compute; reflexivity|]. exists listing. split; [exact Hl|].
    vm_compute in Hl. injection Hl as <-. reflexivity.
Defined.
