(* ===== verification/CliExtraction.v ===== *)
(** * Extraction from the command line (src/src/bin/r7z.rs)

    Each selected entry is given a target inside the output directory; what exists there
    is replaced only with consent, given by a switch or by an answer. The directory is a
    capability of a library, known by its operations. *)

From stdpp Require Import base numbers list option strings gmap.
From Stdlib Require Import ZArith Lia.
From S2P Require Import Prelude PropertyId Parsers Method Folder Error Operation Resources Aes DecoderPlan PackInfo StreamInfo FilesInfo DecoderRun Entries FolderDecode FolderRead FileStreams Headers ArchiveSource PackedSource ArchiveNames EntryReads Archive Listing Lzma2Encoder EntryPatterns CommandLine ArchiveTest.

(** A path below the output directory is its components. *)
Abbreviation path := (list (list Z)).

(** The output directory: [dir_is_dir] is what [symlink_metadata] tells, if it succeeds;
    [dir_create_new] opens a file that did not exist, [dir_close] is its end. *)
Class ExtractDir (D F : Type) := {
  dir_is_dir : path → D → option bool;
  dir_remove_file : path → D → result unit IoError * D;
  dir_create_all : path → D → result unit IoError * D;
  dir_create_new : path → D → result F IoError * D;
  dir_close : path → F → D → D
}.

(** ** Answers and decisions *)

Inductive OverwriteAnswer := AnswerYes | AnswerNo | AnswerAll | AnswerSkipAll | AnswerQuit.
Inductive CollisionAction := CollisionOverwrite | CollisionSkip (warning : bool) | CollisionQuit.

(** The interface to the user; a target's path is the output directory with the components. *)
Class OverwriteUi (U : Type) := {
  ui_is_interactive : U → bool;
  ui_prompt_overwrite : list Z * path → U → result OverwriteAnswer CliError * U;
  ui_warn_skip_existing : list Z * path → U → result unit CliError * U
}.

Definition parse_overwrite_answer (input : list Z) : option OverwriteAnswer :=
  let answer := lowercase (trim input) in
  if decide (answer ∈ [text "y"; text "yes"]) then Some AnswerYes
  else if decide (answer ∈ [[]; text "n"; text "no"]) then Some AnswerNo
  else if decide (answer ∈ [text "a"; text "all"]) then Some AnswerAll
  else if decide (answer ∈ [text "s"; text "skip"; text "skip all"]) then Some AnswerSkipAll
  else if decide (answer ∈ [text "q"; text "quit"]) then Some AnswerQuit
  else None.

Inductive FileContents := FileEmpty | FileStream (index : Z).
Inductive ExtractionKind := ExtractDirectory | ExtractFile (contents : FileContents).
Record ExtractionTarget := { et_path : list Z * path; et_relative_path : path; et_kind : ExtractionKind }.

(** The entry's target: nothing for anti-items, and for directories in a flat extraction. *)
Definition ExtractionTarget_from_entry (entry : ArchiveEntryInfo) (output_dir : list Z) (flat : bool) :
    option (result ExtractionTarget CliError) :=
  match (match ai_entry_type entry with
         | T_Anti => None
         | T_Directory => Some ExtractDirectory
         | T_EmptyFile | T_EmptySymlink => Some (ExtractFile FileEmpty)
         | T_File | T_Symlink => Some (ExtractFile (FileStream (ai_index entry)))
         end) with
  | None => None
  | Some kind =>
      let target :=
        let? safe_name := map_err Fatal (safe_archive_name (ai_name entry)) in
        if flat then
          match last safe_name with
          | Some part => if decide (part = []) then Err (Fatal (UnsafePath (ai_name entry))) else Ok [part]
          | None => Err (Fatal (UnsafePath (ai_name entry)))
          end
        else Ok safe_name in
      match target, kind, flat with
      | Err error, _, _ => Some (Err error)
      | Ok _, ExtractDirectory, true => None
      | Ok relative_path, kind, _ =>
          Some (Ok {| et_path := (output_dir, relative_path); et_relative_path := relative_path; et_kind := kind |})
      end
  end.

Inductive Destination := DestinationMissing | DestinationDirectory | DestinationOther.

Section extraction.
  Context `{Nom} `{Crc32} `{LzmaMemory} `{Decoders} `{BlockCipher} `{Sha256}.
  Context (retries io_fuel : nat) (io_sizes : nat → Z) (copy_sizes : nat → N).
  Context {D F : Type} `{ExtractDir D F} `{Writer F} {U : Type} `{OverwriteUi U}.
  Context (archive : Archive) (password : option (list Z)) (assume_yes : bool).

Definition Destination_at (destination : D) (p : path) : Destination :=
  match dir_is_dir p destination with
  | Some true => DestinationDirectory
  | Some false => DestinationOther
  | None => DestinationMissing
  end.

Definition decide_overwrite (mode : OverwriteMode) (ui : U) (p : list Z * path) :
    result CollisionAction CliError * OverwriteMode * U :=
  let skip mode ui :=
    let '(warned, ui) := ui_warn_skip_existing p ui in
    (result_map (λ _, CollisionSkip true) warned, mode, ui) in
  match mode with
  | Overwrite => (Ok CollisionOverwrite, mode, ui)
  | SkipExisting => (Ok (CollisionSkip false), mode, ui)
  | Ask =>
      if assume_yes then (Ok CollisionOverwrite, mode, ui)
      else if negb (ui_is_interactive ui) then skip mode ui
      else
        match ui_prompt_overwrite p ui with
        | (Err e, ui) => (Err e, mode, ui)
        | (Ok AnswerYes, ui) => (Ok CollisionOverwrite, mode, ui)
        | (Ok AnswerNo, ui) => skip mode ui
        | (Ok AnswerAll, ui) => (Ok CollisionOverwrite, Overwrite, ui)
        | (Ok AnswerSkipAll, ui) => skip SkipExisting ui
        | (Ok AnswerQuit, ui) => (Ok CollisionQuit, mode, ui)
        end
  end.

Definition ExtractionTarget_prepare (self : ExtractionTarget) (destination : D) (mode : OverwriteMode) (ui : U) :
    result CollisionAction CliError * D * OverwriteMode * U :=
  match et_kind self, Destination_at destination (et_relative_path self) with
  | _, DestinationMissing | ExtractDirectory, DestinationDirectory => (Ok CollisionOverwrite, destination, mode, ui)
  | ExtractFile _, DestinationDirectory =>
      let '(warned, ui) := ui_warn_skip_existing (et_path self) ui in
      (result_map (λ _, CollisionSkip true) warned, destination, mode, ui)
  | _, DestinationOther =>
      match decide_overwrite mode ui (et_path self) with
      | (Ok CollisionOverwrite, mode, ui) =>
          let '(removed, destination) := dir_remove_file (et_relative_path self) destination in
          (match removed with Ok _ => Ok CollisionOverwrite | Err e => Err (Fatal (R7zError_from e)) end, destination, mode, ui)
      | (action, mode, ui) => (action, destination, mode, ui)
      end
  end.

Record Extraction := {
  ex_destination : D;
  ex_session : option ArchiveReadSession;
  ex_overwrite_mode : OverwriteMode;
  ex_ui : U
}.
Definition with_destination (self : Extraction) (destination : D) : Extraction :=
  {| ex_destination := destination; ex_session := ex_session self; ex_overwrite_mode := ex_overwrite_mode self; ex_ui := ex_ui self |}.
Definition with_session (self : Extraction) (session : ArchiveReadSession) : Extraction :=
  {| ex_destination := ex_destination self; ex_session := Some session; ex_overwrite_mode := ex_overwrite_mode self; ex_ui := ex_ui self |}.

(** An operation of the directory in the extraction. *)
Definition in_directory {A} (self : Extraction) (operation : D → result A IoError * D) : result A CliError * Extraction :=
  let '(r, destination) := operation (ex_destination self) in
  (map_err (λ e, Fatal (R7zError_from e)) r, with_destination self destination).

(** The contents of a new file; the session is opened for the first stream. *)
Definition write_contents (self : Extraction) (contents : FileContents) (file : F) : result unit CliError * Extraction * F :=
  match contents with
  | FileEmpty => (Ok tt, self, file)
  | FileStream index =>
      match (match ex_session self with Some session => Ok session | None => Archive_read_session archive password end) with
      | Err e => (Err (Fatal e), self, file)
      | Ok session =>
          let '(r, session, file) :=
            ArchiveReadSession_extract_to_writer retries io_fuel io_sizes copy_sizes session index file in
          (match r with Ok _ => Ok tt | Err e => Err (Fatal e) end, with_session self session, file)
      end
  end.

(** The file is closed when it goes out of scope, after an error too. *)
Definition write_new_file (self : Extraction) (p : path) (contents : FileContents) : result unit CliError * Extraction :=
  match in_directory self (dir_create_new p) with
  | (Err e, self) => (Err e, self)
  | (Ok file, self) =>
      let '(r, self, file) := write_contents self contents file in
      (r, with_destination self (dir_close p file (ex_destination self)))
  end.

Definition write_target (self : Extraction) (target : ExtractionTarget) : result unit CliError * Extraction :=
  match et_kind target with
  | ExtractDirectory => in_directory self (dir_create_all (et_relative_path target))
  | ExtractFile contents =>
      let parent := removelast (et_relative_path target) in
      match (if decide (parent = []) then (Ok tt, self) else in_directory self (dir_create_all parent)) with
      | (Err e, self) => (Err e, self)
      | (Ok _, self) => write_new_file self (et_relative_path target) contents
      end
  end.

(** [None] stands for the break. *)
Definition Extraction_write (self : Extraction) (target : ExtractionTarget) : result (option Z) CliError * Extraction :=
  let '(action, destination, mode, ui) :=
    ExtractionTarget_prepare target (ex_destination self) (ex_overwrite_mode self) (ex_ui self) in
  let self := {| ex_destination := destination; ex_session := ex_session self; ex_overwrite_mode := mode; ex_ui := ui |} in
  match action with
  | Err e => (Err e, self)
  | Ok (CollisionSkip warning) => (Ok (Some (if warning : bool then 1 else 0)), self)
  | Ok CollisionQuit => (Ok None, self)
  | Ok CollisionOverwrite =>
      let '(r, self) := write_target self target in (result_map (λ _, Some EXIT_OK) r, self)
  end.

Definition Extraction_finish (self : Extraction) : result unit CliError :=
  match ex_session self with
  | Some session => map_err Fatal (result_map (λ _, tt) (fst (ArchiveReadSession_finish io_fuel io_sizes session)))
  | None => Ok tt
  end.

(** The entries in order, up to the first error or the user's quitting; the warnings are
    the bits of the exit code. *)
Fixpoint extract_entries (output_dir : list Z) (flat : bool) (warnings : Z) (self : Extraction) (entries : list ArchiveEntryInfo) :
    result Z CliError * Extraction :=
  match entries with
  | [] => (Ok warnings, self)
  | entry :: entries =>
      match ExtractionTarget_from_entry entry output_dir flat with
      | None => extract_entries output_dir flat warnings self entries
      | Some (Err e) => (Err e, self)
      | Some (Ok target) =>
          match Extraction_write self target with
          | (Err e, self) => (Err e, self)
          | (Ok None, self) => (Ok EXIT_WARNING, self)
          | (Ok (Some warning), self) => extract_entries output_dir flat (Z.lor warnings warning) self entries
          end
      end
  end.

(** From the opened archive and output directory on. *)
Definition extract_archive_with_ui (destination : D) (overwrite_mode : OverwriteMode) (output_dir : list Z) (flat : bool)
    (operands : list (list Z)) (ui : U) : result Z CliError * D :=
  match EntryPatterns_resolve_entries (EntryPatterns_from_paths operands) archive with
  | None => (Ok EXIT_WARNING, destination)
  | Some entries =>
      let extraction := {| ex_destination := destination; ex_session := None; ex_overwrite_mode := overwrite_mode; ex_ui := ui |} in
      let '(r, extraction) := extract_entries output_dir flat EXIT_OK extraction entries in
      (let? warnings := r in let? _ := Extraction_finish extraction in Ok warnings, ex_destination extraction)
  end.

End extraction.

(** ** Existing files

    What the directory's operations do to the files that exist, in it and elsewhere, under
    the names [K] of the file system: [leads_to p q d] says that the path [p] below the
    directory is that of the file named [q]. An operation that keeps a file does not make
    other paths lead to it. Nothing but a removal, and the writing of a file that was made
    new, touches the files. *)
Definition kept_at {K D : Type} (file_at : K → D → option bytes) (leads_to : path → K → D → Prop) (q : K) (b : bytes) (d d' : D) : Prop :=
  file_at q d = Some b → file_at q d' = Some b ∧ ∀ p, leads_to p q d' → leads_to p q d.

Class ExtractDirLaws (D F K : Type) `{ExtractDir D F} := {
  file_at : K → D → option bytes;
  leads_to : path → K → D → Prop;
  create_all_keeps p d r d' q b : dir_create_all p d = (r, d') → kept_at file_at leads_to q b d d';
  create_new_keeps p d r d' q b : dir_create_new p d = (r, d') → kept_at file_at leads_to q b d d';
  create_new_fresh p d f d' q : dir_create_new p d = (Ok f, d') → leads_to p q d' → file_at q d = None;
  close_keeps p f d q b : ¬ leads_to p q d → kept_at file_at leads_to q b d (dir_close p f d);
  remove_keeps p d r d' q b : dir_remove_file p d = (r, d') → ¬ leads_to p q d → kept_at file_at leads_to q b d d'
}.

(** A user who is asked does not agree to overwrite. *)
Definition never_agrees (U : Type) `{OverwriteUi U} : Prop :=
  ∀ (ui : U) p answer ui', ui_is_interactive ui = true → ui_prompt_overwrite p ui = (Ok answer, ui') →
    answer ≠ AnswerYes ∧ answer ≠ AnswerAll.
Definition withholds (assume_yes : bool) (mode : OverwriteMode) : Prop :=
  mode = SkipExisting ∨ (mode = Ask ∧ assume_yes = false).

Section kept.
  Context `{Nom} `{Crc32} `{LzmaMemory} `{Decoders} `{BlockCipher} `{Sha256}.
  Context (retries io_fuel : nat) (io_sizes : nat → Z) (copy_sizes : nat → N).
  Context {D F K : Type} `{ExtractDirLaws D F K} `{Writer F} {U : Type} `{OverwriteUi U}.
  Context (archive : Archive) (password : option (list Z)) (assume_yes : bool).

Abbreviation prepare := (ExtractionTarget_prepare (D := D) (F := F) (U := U) assume_yes).
Abbreviation kept q b d d' := (kept_at (D := D) (K := K) file_at leads_to q b d d').

Lemma kept_refl q b d : kept q b d d.
Proof. by intros Hf. Qed.
Lemma kept_trans q b d1 d2 d3 : kept q b d1 d2 → kept q b d2 d3 → kept q b d1 d3.
Proof. intros H12 H23 Hf. destruct (H12 Hf) as [Hf2 Hl2]. destruct (H23 Hf2) as [Hf3 Hl3]. split; auto. Qed.

(** Nobody consents: not the switches, and not the user either. *)
Definition no_consent (mode : OverwriteMode) : Prop := never_agrees U ∧ withholds assume_yes mode.

(** Without consent the directory is left as it is when a target is prepared, and what
    exists is skipped. *)
Lemma decide_withheld mode ui p r mode' ui' :
  no_consent mode → decide_overwrite (U := U) assume_yes mode ui p = (r, mode', ui') →
  no_consent mode' ∧ r ≠ Ok CollisionOverwrite.
Proof.
  intros [Hnever Hw]. unfold decide_overwrite. destruct Hw as [->|[-> Hy]]; [intros [= <- <- <-]; by split; [split; [|left]|]|].
  unfold no_consent. destruct assume_yes; [done|]. assert (Ha : withholds false Ask) by by right.
  assert (Hskip : ∀ m u, withholds false m → (let '(warned, u) := ui_warn_skip_existing p u in
    (result_map (λ _ : unit, CollisionSkip true) warned, m, u)) = (r, mode', ui') →
    (never_agrees U ∧ withholds false mode') ∧ r ≠ Ok CollisionOverwrite).
  { intros m u Hm. destruct (ui_warn_skip_existing p u) as [[[]|e] u']; intros [= <- <- <-]; by split. }
  destruct (ui_is_interactive ui) eqn:Ei; cbn [negb]; [|by apply Hskip].
  destruct (ui_prompt_overwrite p ui) as [[answer|e] u1] eqn:Ep; [|intros [= <- <- <-]; by split].
  destruct (Hnever _ _ _ _ Ei Ep) as [Hyes Hall].
  destruct answer; [done|by apply Hskip|done|apply Hskip; by left|intros [= <- <- <-]; by split].
Qed.

Lemma prepare_withheld target d mode ui r d' mode' ui' :
  no_consent mode → prepare target d mode ui = (r, d', mode', ui') → no_consent mode' ∧ d' = d.
Proof.
  intros Hw. unfold ExtractionTarget_prepare.
  destruct (et_kind target) as [|contents]; destruct (Destination_at d (et_relative_path target));
    try (intros [= <- <- <- <-]; by split).
  - destruct (decide_overwrite _ mode ui _) as [[action m] u] eqn:Ed. destruct (decide_withheld _ _ _ _ _ _ Hw Ed) as [Hm Hr].
    destruct action as [[]|]; try done; intros [= <- <- <- <-]; by split.
  - destruct (ui_warn_skip_existing _ ui). intros [= <- <- <- <-]. by split.
  - destruct (decide_overwrite _ mode ui _) as [[action m] u] eqn:Ed. destruct (decide_withheld _ _ _ _ _ _ Hw Ed) as [Hm Hr].
    destruct action as [[]|]; try done; intros [= <- <- <- <-]; by split.
Qed.

(** With or without consent, only what is at the target's path is removed. *)
Lemma prepare_elsewhere target d mode ui r d' mode' ui' q b :
  prepare target d mode ui = (r, d', mode', ui') → ¬ leads_to (et_relative_path target) q d → kept q b d d'.
Proof.
  intros Ep Hq. revert Ep. unfold ExtractionTarget_prepare.
  destruct (et_kind target) as [|contents]; destruct (Destination_at d (et_relative_path target));
    try (intros [= _ <- _ _]; apply kept_refl); [| |].
  - destruct (decide_overwrite _ mode ui _) as [[[[]|] m] u]; try (intros [= _ <- _ _]; apply kept_refl).
    destruct (dir_remove_file _ d) as [rm d1] eqn:Erm. intros [= _ <- _ _]. by eapply remove_keeps.
  - destruct (ui_warn_skip_existing _ ui). intros [= _ <- _ _]. apply kept_refl.
  - destruct (decide_overwrite _ mode ui _) as [[[[]|] m] u]; try (intros [= _ <- _ _]; apply kept_refl).
    destruct (dir_remove_file _ d) as [rm d1] eqn:Erm. intros [= _ <- _ _]. by eapply remove_keeps.
Qed.

Abbreviation extraction := (Extraction (D := D) (U := U)).

(** What an extraction keeps of a file. *)
Definition keeps_file (q : K) (b : bytes) (self self' : extraction) : Prop :=
  kept q b (ex_destination self) (ex_destination self').

Lemma write_new_file_keeps self p contents r self' q b :
  write_new_file retries io_fuel io_sizes copy_sizes archive password self p contents = (r, self') →
  keeps_file q b self self' ∧ ex_overwrite_mode self' = ex_overwrite_mode self.
Proof.
  unfold write_new_file, in_directory, keeps_file.
  destruct (dir_create_new p (ex_destination self)) as [[file|e] d1] eqn:Ec; cbn [map_err].
  2:{ intros [= _ <-]. split; [|done]. cbn. by eapply create_new_keeps. }
  destruct (write_contents _ _ _ _ _ _ _ contents file) as [[r1 self1] file1] eqn:Ew. intros [= _ <-].
  assert (Hs : ex_destination self1 = d1 ∧ ex_overwrite_mode self1 = ex_overwrite_mode self).
  { revert Ew. unfold write_contents. destruct contents as [|index]; [by intros [= _ <- _]|].
    destruct (match ex_session _ with Some _ => _ | None => _ end) as [session|]; [|by intros [= _ <- _]].
    destruct (ArchiveReadSession_extract_to_writer _ _ _ _ session index file) as [[? ?] ?]. by intros [= _ <- _]. }
  destruct Hs as [-> Hm]. split; [|done]. cbn. intros Hf.
  assert (kept q b d1 (dir_close p file1 d1)) as Hclose.
  { apply close_keeps. intros Hl. pose proof (create_new_fresh _ _ _ _ _ Ec Hl) as Hn. congruence. }
  exact (kept_trans _ _ _ _ _ (create_new_keeps _ _ _ _ q b Ec) Hclose Hf).
Qed.

Lemma write_target_keeps self target r self' q b :
  write_target retries io_fuel io_sizes copy_sizes archive password self target = (r, self') →
  keeps_file q b self self' ∧ ex_overwrite_mode self' = ex_overwrite_mode self.
Proof.
  unfold write_target.
  assert (Hall : ∀ p r1 self1, in_directory self (dir_create_all p) = (r1, self1) →
    keeps_file q b self self1 ∧ ex_overwrite_mode self1 = ex_overwrite_mode self).
  { intros p r1 self1. unfold in_directory. destruct (dir_create_all p _) as [r2 d1] eqn:Ec. intros [= _ <-]. split; [|done].
    by eapply create_all_keeps. }
  destruct (et_kind target) as [|contents]; [apply Hall|].
  destruct (if decide _ then _ else _) as [r1 self1] eqn:E1.
  assert (Hf1 : keeps_file q b self self1 ∧ ex_overwrite_mode self1 = ex_overwrite_mode self).
  { revert E1. case_decide; [intros [= _ <-]; by split; [apply kept_refl|]|apply Hall]. }
  destruct Hf1 as [Hf1 Hm1]. destruct r1 as [[]|e]; [|intros [= _ <-]; by split].
  intros Hw. destruct (write_new_file_keeps _ _ _ _ _ q b Hw) as [Hf2 Hm2]. split; [|congruence].
  by eapply kept_trans.
Qed.

(** A target is written over nothing that exists elsewhere, and over nothing at all without
    consent. *)
Lemma write_keeps self target r self' q b :
  Extraction_write retries io_fuel io_sizes copy_sizes archive password assume_yes self target = (r, self') →
  (no_consent (ex_overwrite_mode self) → no_consent (ex_overwrite_mode self')) ∧
  (no_consent (ex_overwrite_mode self) ∨ ¬ leads_to (et_relative_path target) q (ex_destination self) → keeps_file q b self self').
Proof.
  unfold Extraction_write.
  destruct (prepare target (ex_destination self) (ex_overwrite_mode self) (ex_ui self)) as [[[action d] m] ui] eqn:Ep.
  set (self1 := Build_Extraction _ _ _ _).
  assert (Hmode : no_consent (ex_overwrite_mode self) → no_consent (ex_overwrite_mode self1)).
  { intros Hw. by destruct (prepare_withheld _ _ _ _ _ _ _ _ Hw Ep). }
  assert (Hfile : no_consent (ex_overwrite_mode self) ∨ ¬ leads_to (et_relative_path target) q (ex_destination self) →
    keeps_file q b self self1).
  { intros [Hw|Hq].
    - unfold keeps_file. destruct (prepare_withheld _ _ _ _ _ _ _ _ Hw Ep) as [_ Hd]. cbn. rewrite Hd. apply kept_refl.
    - exact (prepare_elsewhere _ _ _ _ _ _ _ _ _ _ Ep Hq). }
  destruct action as [[|warning|]|e]; try (intros [= _ <-]; by split).
  destruct (write_target _ _ _ _ _ _ self1 target) as [r2 self2] eqn:Ew. intros [= _ <-].
  destruct (write_target_keeps _ _ _ _ q b Ew) as [Hk Hm]. rewrite Hm. split; [done|].
  intros Hc. eapply kept_trans; [by apply Hfile|exact Hk].
Qed.

(** The paths of the targets of some entries. *)
Definition target_paths (output_dir : list Z) (flat : bool) (entries : list ArchiveEntryInfo) : list path :=
  omap (λ entry, match ExtractionTarget_from_entry entry output_dir flat with
                 | Some (Ok target) => Some (et_relative_path target) | _ => None end) entries.

(** None of some paths is that of a file. *)
Definition not_led_to (paths : list path) (q : K) (d : D) : Prop := ∀ p, p ∈ paths → ¬ leads_to p q d.

Lemma extract_entries_keeps output_dir flat q b entries : ∀ warnings self r self',
  extract_entries retries io_fuel io_sizes copy_sizes archive password assume_yes output_dir flat warnings self entries = (r, self') →
  no_consent (ex_overwrite_mode self) ∨ not_led_to (target_paths output_dir flat entries) q (ex_destination self) →
  file_at q (ex_destination self) = Some b → file_at q (ex_destination self') = Some b.
Proof.
  induction entries as [|entry entries IH]; intros warnings self r self'; cbn [extract_entries]; [intros [= _ <-] _ Hf; exact Hf|].
  cbn [target_paths omap list_omap]. destruct (ExtractionTarget_from_entry entry output_dir flat) as [[target|e]|];
    [|intros [= _ <-] _ Hf; exact Hf|apply IH].
  destruct (Extraction_write _ _ _ _ _ _ _ self target) as [w self1] eqn:Ew. destruct (write_keeps _ _ _ _ q b Ew) as [Hm Hk].
  intros Hrest Hc Hf. assert (keeps_file q b self self1) as Hfirst.
  { apply Hk. destruct Hc as [?|Hq]; [by left|right]. apply Hq. left. }
  destruct (Hfirst Hf) as [Hf1 Hl].
  destruct w as [[warning|]|e]; try (by injection Hrest as _ <-).
  eapply (IH _ _ _ _ Hrest); [|exact Hf1].
  destruct Hc as [?|Hq]; [left; auto|right]. intros p Hin Hp. eapply Hq; [right; exact Hin|by apply Hl].
Qed.

(** What an extraction keeps of the files, whatever its outcome. *)
Lemma extract_archive_keeps destination mode output_dir flat operands ui r destination' q b :
  extract_archive_with_ui (F := F) retries io_fuel io_sizes copy_sizes archive password assume_yes destination mode output_dir flat operands ui
    = (r, destination') →
  no_consent mode ∨ not_led_to (target_paths output_dir flat
    (default [] (EntryPatterns_resolve_entries (EntryPatterns_from_paths operands) archive))) q destination →
  file_at q destination = Some b → file_at q destination' = Some b.
Proof.
  unfold extract_archive_with_ui.
  destruct (EntryPatterns_resolve_entries _ archive) as [entries|]; [|by intros [= _ <-]]. cbn [default from_option id].
  destruct (extract_entries _ _ _ _ _ _ _ _ _ _ _ entries) as [w self'] eqn:Ee. intros [= _ <-].
  exact (extract_entries_keeps _ _ q b _ _ _ _ _ Ee).
Qed.

End kept.

(** ** Property *)

(** C14. Extraction replaces only what it may. Whatever its outcome, and whatever the user
    answers, a file that exists, in the output directory or elsewhere, is as it was unless
    it is at the path of a selected entry. It is as it was there too when nobody consents:
    existing files are to be skipped, or the user is to be asked, [-y] is not given, and
    the user never answers yes or all. *)
Theorem extraction_respects_existing_files `{Nom} `{Crc32} `{LzmaMemory} `{Decoders} `{BlockCipher} `{Sha256}
    (retries io_fuel : nat) (io_sizes : nat → Z) (copy_sizes : nat → N)
    {D F K : Type} `{ExtractDirLaws D F K} `{Writer F} {U : Type} `{OverwriteUi U}
    (archive : Archive) (password : option (list Z)) (assume_yes : bool) (destination destination' : D) (mode : OverwriteMode)
    (output_dir : list Z) (flat : bool) (operands : list (list Z)) (ui : U) (r : result Z CliError) (q : K) (b : bytes) :
  extract_archive_with_ui (F := F) retries io_fuel io_sizes copy_sizes archive password assume_yes destination mode output_dir flat operands ui
    = (r, destination') →
  ((never_agrees U ∧ withholds assume_yes mode) ∨
   not_led_to (target_paths output_dir flat
     (default [] (EntryPatterns_resolve_entries (EntryPatterns_from_paths operands) archive))) q destination) →
  file_at q destination = Some b → file_at q destination' = Some b.
Proof. apply extract_archive_keeps. Qed.

(** ** Witness

    A directory in memory, where [None] is a directory, and a user who cannot be asked. *)

Definition map_dir : ExtractDir (gmap path (option bytes)) bytes := {|
  dir_is_dir := λ p d, match d !! p with Some (Some _) => Some false | Some None => Some true | None => None end;
  dir_remove_file := λ p d, (Ok tt, delete p d);
  dir_create_all := λ p d, (Ok tt, match d !! p with Some _ => d | None => <[p := None]> d end);
  dir_create_new := λ p d, match d !! p with
                           | Some _ => (Err (IoKind AlreadyExists "file exists"), d)
                           | None => (Ok [], <[p := Some []]> d)
                           end;
  dir_close := λ p f d, <[p := Some f]> d
|}.
#[local] Existing Instance map_dir.

Definition map_dir_laws : ExtractDirLaws (gmap path (option bytes)) bytes path.
Proof.
  refine {| file_at := λ p d, mjoin (d !! p); leads_to := λ p q _, p = q |}; unfold kept_at; cbn.
  - intros p d r d' q b [= _ <-]. destruct (d !! p) as [o|] eqn:E; [done|].
    destruct (decide (q = p)) as [->|]; [by rewrite E|by rewrite lookup_insert_ne].
  - intros p d r d' q b. destruct (d !! p) as [o|] eqn:E; intros [= _ <-]; [done|].
    destruct (decide (q = p)) as [->|]; [by rewrite E|by rewrite lookup_insert_ne].
  - intros p d f d' q E <-. by destruct (d !! p).
  - intros p f d q b Hq. by rewrite lookup_insert_ne.
  - intros p d r d' q b [= _ <-] Hq. by rewrite lookup_delete_ne.
Defined.
#[local] Existing Instance map_dir_laws.

Definition list_writer : Writer bytes := {| write_all := λ w b, (Ok tt, w ++ b); writer_flush := λ w, (Ok tt, w) |}.
Definition silent_ui : OverwriteUi unit := {|
  ui_is_interactive := λ _, false;
  ui_prompt_overwrite := λ _ ui, (Ok AnswerQuit, ui);
  ui_warn_skip_existing := λ _ ui, (Ok tt, ui)
|}.
#[local] Existing Instances list_writer silent_ui.
#[local] Existing Instances flat_memory stored_decoders counter_cipher flat_hash sum_crc.

Definition sample_extraction (mode : OverwriteMode) (d : gmap path (option bytes)) : result Z CliError * gmap path (option bytes) :=
  match sample_opened with
  | Ok self => extract_archive_with_ui 9 30 (λ _, 8) (λ _, 8%N) self None false d mode [46] false [] tt
  | Err e => (Err (Fatal e), d)
  end.

(** The sample archive has one file [a]: it is kept if it exists, replaced with [-aoa], and
    made with its directory otherwise. *)
Lemma extraction_respects_existing_files_witness :
  let existing : gmap path (option bytes) := {[ [[97]] := Some [9] ]} in
  (sample_extraction Ask existing).1 = Ok EXIT_WARNING ∧
  file_at [[97]] (sample_extraction Ask existing).2 = Some [9] ∧
  file_at [[97]] (sample_extraction Overwrite existing).2 = Some [1; 2; 3; 4] ∧
  file_at [[97]] (sample_extraction Ask ∅).2 = Some [1; 2; 3; 4].
Proof.
  intros existing. split; [vm_compute; reflexivity|]. split; [|split; vm_compute; reflexivity].
  unfold sample_extraction. destruct sample_opened as [self|] eqn:Eo; [|vm_compute in Eo; discriminate Eo].
  destruct (extract_archive_with_ui 9 30 (λ _, 8) (λ _, 8%N) self None false existing Ask [46] false [] tt) as [r d'] eqn:Ex.
  apply (extraction_respects_existing_files 9 30 (λ _, 8) (λ _, 8%N) self None false existing d' Ask [46] false [] tt r).
  - exact Ex.
  - left. split; [intros ui p answer ui' Hi; discriminate Hi|right; split; reflexivity].
  - reflexivity.
Defined.

Example overwrite_answers :
  parse_overwrite_answer (text " YES " ++ [10]) = Some AnswerYes ∧ parse_overwrite_answer [10] = Some AnswerNo ∧
  parse_overwrite_answer (text "Skip All") = Some AnswerSkipAll ∧ parse_overwrite_answer (text "maybe") = None.
Proof. by vm_compute. Qed.
