(* ===== verification/DiskScan.v ===== *)
(** * Scanning the disk from the command line (src/src/bin/r7z.rs)

    The operands of an update are expanded to paths, and each path to the entries of the
    tree below it. The file system is known by what the scan asks it. *)

From stdpp Require Import base numbers list option strings sorting.
From Stdlib Require Import ZArith Lia Sorted.
From S2P Require Import Prelude Error WriteHeader Lzma2Encoder EntryPatterns CommandLine Rewrite.

(** ** Paths

    A Unix path is whether it starts at the root, and its parts; empty parts and those that
    stand for the directory itself mean nothing. *)
Record Path := { pa_absolute : bool; pa_parts : list (list Z) }.

Definition Path_from (s : list Z) : Path :=
  {| pa_absolute := starts_with [47] s;
     pa_parts := filter (λ part, part ≠ [] ∧ part ≠ text ".") (split_on (λ c, c =? 47) s) |}.
Definition Path_join (self : Path) (name : list Z) : Path :=
  {| pa_absolute := pa_absolute self; pa_parts := pa_parts self ++ [name] |}.
(** [Path::file_name]: none where the last part leads upwards. *)
Definition Path_file_name (self : Path) : option (list Z) :=
  match last (pa_parts self) with
  | Some part => if decide (part = text "..") then None else Some part
  | None => None
  end.
(** [Path::parent]; the empty path is the current directory, as ["."] is. *)
Definition Path_parent (self : Path) : option Path :=
  match pa_parts self with
  | [] => None
  | parts => Some {| pa_absolute := pa_absolute self; pa_parts := removelast parts |}
  end.

(** [Path::join] with a name, on the text of a path. *)
Definition join_text (p name : list Z) : list Z :=
  if decide (last p = Some 47) then p ++ name else p ++ 47 :: name.

(** The order of names: that of their bytes, which for UTF-8 is that of the scalar values. *)
Fixpoint name_le (a b : list Z) : bool :=
  match a, b with
  | [], _ => true
  | _ :: _, [] => false
  | x :: a, y :: b => if decide (x = y) then name_le a b else bool_decide (x < y)
  end.
Definition sort_names (names : list (list Z)) : list (list Z) := merge_sort (λ a b, Is_true (name_le a b)) names.

(** ** The file system *)

Inductive FileType := TypeSymlink | TypeDirectory | TypeFile | TypeOther.
(** The times are those that can be had. *)
Record Metadata := {
  md_type : FileType; md_len : Z; md_mode : Z;
  md_modified : option SystemTime; md_accessed : option SystemTime; md_created : option SystemTime
}.

(** [fs_read_dir] is the names of all entries, or the first error. *)
Class FileSystem := {
  fs_symlink_metadata : Path → result Metadata IoError;
  fs_read_link : Path → result (list Z) IoError;
  fs_read_dir : Path → result (list (list Z)) IoError
}.

Definition entry_meta_from_fs (metadata : Metadata) : EntryMeta :=
  {| em_ctime := md_created metadata; em_atime := md_accessed metadata; em_mtime := md_modified metadata;
     em_attributes := Some (Z.lor (Z.shiftl (md_mode metadata) 16 mod 2 ^ 32)
                              (match md_type metadata with TypeDirectory => 16 | _ => 32 end));
     em_start_pos := None |}.

(** ** The scan *)

(** The name in the archive: its parts behind slashes. *)
Definition join_names (names : list (list Z)) : list Z :=
  match names with [] => [] | name :: names => name ++ concat (map (λ n, 47 :: n) names) end.
Definition archive_name_to_string (names : list (list Z)) : result (list Z) CliError :=
  let value := slashes (join_names names) in
  match value with [] => Err (Usage (text "empty archive entry name")) | _ => Ok value end.

Definition has_wildcard (s : list Z) : bool := bool_decide (42 ∈ s ∨ 63 ∈ s).

Definition cli_io {A} (r : result A IoError) : result A CliError := map_err (λ e, Fatal (R7zError_from e)) r.

Section scan.
  Context `{FileSystem}.

(** [fuel] is more than the depth of the tree. *)
Fixpoint collect_path (fuel : nat) (path : Path) (path_text : list Z) (archive_name : list (list Z)) (entries : list PendingEntry) :
    result (list PendingEntry) CliError :=
  match fuel with
  | O => Err (Fatal R7zOutOfFuel)
  | S fuel =>
      let? metadata := cli_io (fs_symlink_metadata path) in
      let meta := entry_meta_from_fs metadata in
      let push kind :=
        let? name := archive_name_to_string archive_name in
        Ok (entries ++ [{| pe_name := name; pe_kind := kind; pe_meta := meta |}]) in
      match md_type metadata with
      | TypeSymlink => let? target := cli_io (fs_read_link path) in push (PendingSymlink target)
      | TypeDirectory =>
          let? entries := push PendingDirectory in
          let? children := cli_io (fs_read_dir path) in
          try_fold (λ entries child,
            collect_path fuel (Path_join path child) (join_text path_text child) (archive_name ++ [child]) entries)
            entries (sort_names children)
      | TypeFile =>
          push (if decide (md_len metadata = 0) then PendingEmptyFile else PendingFile path_text (md_len metadata))
      | TypeOther => Ok entries
      end
  end.

Definition collect_disk_entries (fuel : nat) (paths : list (list Z)) : result (list PendingEntry) CliError :=
  try_fold (λ entries path,
    match Path_file_name (Path_from path) with
    | None => Err (Usage (text "cannot infer archive name for " ++ path))
    | Some base_name => collect_path fuel (Path_from path) path [base_name] entries
    end) [] paths.

(** The expanded paths with the warnings: those that were not found. *)
Record DiskScan := { ds_paths : list (list Z); ds_warnings : list (list Z) }.

(** Redundant separators of the parent are not kept. *)
Definition parent_text (parent : Path) : list Z :=
  match (if pa_absolute parent then [47] else []) ++ join_names (pa_parts parent) with [] => text "." | s => s end.

(** The children of a directory that match, as paths below it. *)
Definition expand_wildcard (parent : Path) (pattern : list Z) : result (list (list Z)) CliError :=
  let? entries :=
    match fs_read_dir parent with
    | Ok entries => Ok entries
    | Err err => if decide (IoError_kind err = NotFound) then Ok [] else Err (Fatal (R7zError_from err))
    end in
  let matches := sort_names (filter (λ name, wildcard_match pattern name = true) entries) in
  Ok (map (λ name, join_text (parent_text parent) name) matches).

Definition scan_operand (scan : DiskScan) (path : list Z) : result DiskScan CliError :=
  if negb (has_wildcard path) then
    match fs_symlink_metadata (Path_from path) with
    | Ok _ => Ok {| ds_paths := ds_paths scan ++ [path]; ds_warnings := ds_warnings scan |}
    | Err err =>
        if decide (IoError_kind err = NotFound)
        then Ok {| ds_paths := ds_paths scan; ds_warnings := ds_warnings scan ++ [path] |}
        else Err (Fatal (R7zError_from err))
    end
  else
    let parent := default {| pa_absolute := false; pa_parts := [] |} (Path_parent (Path_from path)) in
    if has_wildcard (parent_text parent)
    then usage_of (text "wildcards are only supported in the final path component: ") path []
    else
    let? pattern := ok_or (Path_file_name (Path_from path)) (Usage (text "invalid wildcard path: " ++ path)) in
    let? matches := expand_wildcard parent pattern in
    Ok {| ds_paths := ds_paths scan ++ matches; ds_warnings := ds_warnings scan |}.

Definition scan_disk_operands (paths : list (list Z)) : result DiskScan CliError :=
  try_fold scan_operand {| ds_paths := []; ds_warnings := [] |} paths.

End scan.

(** ** Trees

    What the file system shows at a path, the children of a directory in the order of their
    names. *)
#[warnings="-register-all"]
Inductive DiskTree :=
| DiskLink (metadata : Metadata) (target : list Z)
| DiskFile (metadata : Metadata)
| DiskOther
| DiskDirectory (metadata : Metadata) (children : list (list Z * DiskTree)).

Inductive shows `{FileSystem} : Path → DiskTree → Prop :=
| shows_link p m target :
    fs_symlink_metadata p = Ok m → md_type m = TypeSymlink → fs_read_link p = Ok target → shows p (DiskLink m target)
| shows_file p m : fs_symlink_metadata p = Ok m → md_type m = TypeFile → shows p (DiskFile m)
| shows_other p m : fs_symlink_metadata p = Ok m → md_type m = TypeOther → shows p DiskOther
| shows_directory p m names children :
    fs_symlink_metadata p = Ok m → md_type m = TypeDirectory → fs_read_dir p = Ok names →
    names ≡ₚ map fst children → StronglySorted (λ a b, Is_true (name_le a b)) (map fst children) →
    (∀ name child, (name, child) ∈ children → shows (Path_join p name) child) → shows p (DiskDirectory m children).

Fixpoint tree_height (t : DiskTree) : nat :=
  match t with
  | DiskDirectory _ children => S (foldr Nat.max 0%nat (map (λ c, tree_height c.2) children))
  | _ => 0
  end.

(** The reference: the entries of a tree, each directory before its children. *)
Fixpoint preorder (path_text : list Z) (name : list (list Z)) (t : DiskTree) : list PendingEntry :=
  let entry kind metadata := {| pe_name := slashes (join_names name); pe_kind := kind; pe_meta := entry_meta_from_fs metadata |} in
  match t with
  | DiskLink m target => [entry (PendingSymlink target) m]
  | DiskFile m => [entry (if decide (md_len m = 0) then PendingEmptyFile else PendingFile path_text (md_len m)) m]
  | DiskOther => []
  | DiskDirectory m children =>
      entry PendingDirectory m ::
      concat (map (λ c, preorder (join_text path_text c.1) (name ++ [c.1]) c.2) children)
  end.

(** ** Lemmas *)

Lemma name_le_refl a : name_le a a = true.
Proof. induction a as [|x a IH]; cbn; [done|]. by rewrite decide_True. Qed.
Lemma name_le_total a b : name_le a b = true ∨ name_le b a = true.
Proof.
  revert b. induction a as [|x a IH]; intros [|y b]; cbn; auto.
  destruct (decide (x = y)) as [->|]; [rewrite decide_True by done; apply IH|]. rewrite decide_False by done.
  rewrite !bool_decide_eq_true. lia.
Qed.
Lemma name_le_trans a b c : name_le a b = true → name_le b c = true → name_le a c = true.
Proof.
  revert b c. induction a as [|x a IH]; intros [|y b] [|z c]; cbn; try done.
  repeat case_decide; rewrite ?bool_decide_eq_true; intros; subst; try done; try lia. by eapply IH.
Qed.
Lemma name_le_antisym a b : name_le a b = true → name_le b a = true → a = b.
Proof.
  revert b. induction a as [|x a IH]; intros [|y b]; cbn; try done.
  repeat case_decide; rewrite ?bool_decide_eq_true; intros; subst; try done; try lia. f_equal. auto.
Qed.

(** Names that are sorted are what sorting any order of them gives. *)
Lemma sort_names_unique names sorted :
  names ≡ₚ sorted → StronglySorted (λ a b, Is_true (name_le a b)) sorted → sort_names names = sorted.
Proof.
  intros Hp Hs. unfold sort_names.
  assert (Ht : Transitive (λ a b, Is_true (name_le a b))).
  { intros a b c. rewrite !Is_true_true. apply name_le_trans. }
  assert (Htot : Total (λ a b, Is_true (name_le a b))).
  { intros a b. rewrite !Is_true_true. apply name_le_total. }
  assert (Ha : AntiSymm eq (λ a b, Is_true (name_le a b))).
  { intros a b. rewrite !Is_true_true. apply name_le_antisym. }
  apply (StronglySorted_unique (λ a b, Is_true (name_le a b))).
  - apply (StronglySorted_merge_sort (λ a b, Is_true (name_le a b))).
  - done.
  - by rewrite merge_sort_Permutation.
Qed.

Lemma join_names_snoc names child : join_names names ≠ [] → join_names (names ++ [child]) ≠ [].
Proof. destruct names as [|n names]; [done|]. cbn. rewrite map_app, concat_app. by destruct n, (concat _). Qed.

Lemma archive_name_ok names : join_names names ≠ [] → archive_name_to_string names = Ok (slashes (join_names names)).
Proof. unfold archive_name_to_string. by destruct (join_names names). Qed.

Lemma child_height m children name child :
  (name, child) ∈ children → (tree_height child < tree_height (DiskDirectory m children))%nat.
Proof.
  cbn. induction children as [|c children IH]; intros Hin; [by apply elem_of_nil in Hin|].
  apply elem_of_cons in Hin as [<-|Hin]; cbn; [lia|]. specialize (IH Hin). lia.
Qed.

Section trees.
  Context `{FileSystem}.

(** The entries of children, one after the other. *)
Lemma children_collected fuel path path_text name entries children :
  (∀ c t entries, (c, t) ∈ children →
     collect_path fuel (Path_join path c) (join_text path_text c) (name ++ [c]) entries =
     Ok (entries ++ preorder (join_text path_text c) (name ++ [c]) t)) →
  try_fold (λ entries child, collect_path fuel (Path_join path child) (join_text path_text child) (name ++ [child]) entries)
    entries (map fst children) =
  Ok (entries ++ concat (map (λ c, preorder (join_text path_text c.1) (name ++ [c.1]) c.2) children)).
Proof.
  revert entries. induction children as [|[c t] children IH]; intros entries Hc; cbn [map try_fold fst]; [by rewrite app_nil_r|].
  rewrite (Hc c t) by left. rewrite IH by (intros; apply Hc; by right). cbn. by rewrite app_assoc.
Qed.

Lemma collect_path_shown path t :
  shows path t → ∀ fuel path_text name entries,
  (tree_height t < fuel)%nat → join_names name ≠ [] →
  collect_path fuel path path_text name entries = Ok (entries ++ preorder path_text name t).
Proof.
  induction 1 as [p m target Hm Ht Hl|p m Hm Ht|p m Hm Ht|p m names children Hm Ht Hd Hp Hs Hc IH];
    intros [|fuel] path_text name entries Hf Hn; try lia; cbn [collect_path]; rewrite Hm; cbn [cli_io map_err];
    rewrite Ht, ?archive_name_ok by done.
  - by rewrite Hl.
  - done.
  - by rewrite app_nil_r.
  - rewrite Hd. cbn [cli_io map_err]. rewrite (sort_names_unique _ _ Hp Hs), children_collected.
    + by rewrite <- app_assoc.
    + intros c t es Hin. apply IH; [done| |by apply join_names_snoc].
      pose proof (child_height m _ _ _ Hin). lia.
Qed.

End trees.

(** ** Property *)

(** C34. The entries collected from the disk are those of the trees at the operands, in the
    order of the operands, each directory before its children and these in the order of
    their names, whatever order the file system gives them in: links with their targets,
    empty files without data, files with their path and size, other kinds of file left out,
    each with its name from the operand's last part on. *)
Theorem disk_entries_in_preorder `{FileSystem} (fuel : nat) (operands : list (list Z)) (trees : list (list Z * DiskTree)) :
  Forall2 (λ path base, Path_file_name (Path_from path) = Some base.1 ∧ base.1 ≠ [] ∧
    shows (Path_from path) base.2 ∧ (tree_height base.2 < fuel)%nat) operands trees →
  collect_disk_entries fuel operands =
    Ok (concat (zip_with (λ path base, preorder path [base.1] base.2) operands trees)).
Proof.
  intros Hf. unfold collect_disk_entries. change (concat ?l) with ([] ++ concat l). generalize (@nil PendingEntry) at 1 2.
  induction Hf as [|path [base t] operands trees (Hb&Hne&Hs&Hh) Hf IH]; intros entries; cbn [try_fold]; [by rewrite app_nil_r|].
  cbn [fst snd] in *. rewrite Hb, (collect_path_shown _ _ Hs); [|done|cbn; by rewrite app_nil_r].
  rewrite IH. cbn [zip_with concat fst snd]. by rewrite app_assoc.
Qed.

(** ** Witness: a directory with a file and a link *)

Definition sample_metadata (type : FileType) (len : Z) : Metadata :=
  {| md_type := type; md_len := len; md_mode := 0; md_modified := None; md_accessed := None; md_created := None |}.

Definition sample_fs : FileSystem := {|
  fs_symlink_metadata := λ p,
    if decide (pa_parts p = [text "d"]) then Ok (sample_metadata TypeDirectory 0)
    else if decide (pa_parts p = [text "d"; text "b"]) then Ok (sample_metadata TypeFile 2)
    else if decide (pa_parts p = [text "d"; text "a"]) then Ok (sample_metadata TypeSymlink 0)
    else Err (IoKind NotFound "not found");
  fs_read_link := λ _, Ok (text "b");
  fs_read_dir := λ _, Ok [text "b"; text "a"]
|}.
#[local] Existing Instance sample_fs.

Definition sample_tree : DiskTree :=
  DiskDirectory (sample_metadata TypeDirectory 0)
    [(text "a", DiskLink (sample_metadata TypeSymlink 0) (text "b")); (text "b", DiskFile (sample_metadata TypeFile 2))].

Lemma disk_entries_in_preorder_witness :
  result_map (map pe_name) (collect_disk_entries 2 [text "./d/"]) = Ok [text "d"; text "d/a"; text "d/b"] ∧
  collect_disk_entries 2 [text "./d/"] = Ok (concat [preorder (text "./d/") [text "d"] sample_tree]).
Proof.
  split; [vm_compute; reflexivity|].
  apply (disk_entries_in_preorder 2 [text "./d/"] [(text "d", sample_tree)]). constructor; [|constructor].
  split; [vm_compute; reflexivity|]. split; [discriminate|]. split; [|cbn; lia].
  eapply shows_directory; [reflexivity..| | |].
  - apply Permutation_swap.
  - repeat constructor.
  - intros name child Hin. apply elem_of_cons in Hin as [[= -> ->]|Hin]; [by apply shows_link|].
    apply elem_of_cons in Hin as [[= -> ->]|Hin]; [by apply shows_file|by apply elem_of_nil in Hin].
Defined.

Example scanned_operands :
  result_map ds_paths (scan_disk_operands [text "d/?"; text "d"; text "x"]) = Ok [text "d/a"; text "d/b"; text "d"] ∧
  result_map ds_warnings (scan_disk_operands [text "d/?"; text "d"; text "x"]) = Ok [text "x"] ∧
  is_ok (scan_disk_operands [text "*/d"]) = false.
Proof. by vm_compute. Qed.
