(* ===== verification/Commands.v ===== *)
(** * The commands (src/src/bin/r7z.rs)

    What each command of the tool does once the command line is read, from opening the
    archive to the exit code. An archive is replaced by writing a new file beside it and
    renaming that over it. *)

From stdpp Require Import base numbers list option strings gmap.
From Stdlib Require Import ZArith Lia.
From S2P Require Import Prelude PropertyId Parsers Method Folder Error Operation Readers Resources Aes DecoderPlan PackInfo StreamInfo FilesInfo DecoderRun Entries FolderDecode FolderRead FileStreams Headers ArchiveSource PackedSource ArchiveNames EntryReads Archive Listing WriteHeader WriteOptions Writers Lzma2Encoder WriteFolders StreamingFolder FolderWriting ArchiveWriter ArchiveWritten WrittenArchive ArchiveBuilder ArchiveUpdate Copying Spool Spooled StreamedOutput Volumes VolumesWritten OpenFiles EntryPatterns CommandLine ListingOutput Rewrite ArchiveTest CliExtraction DiskScan.

(** The directory an archive is in. [ad_tempfile_in] makes a new file under a name of its
    own ([tempfile::Builder]); [ad_rename] gives a file that is open another name; a
    temporary file that is dropped is removed ([ad_discard]), also when it cannot be
    renamed ([ad_persist]). *)
Class ArchiveDir (V T : Type) := {
  ad_process_id : list Z;
  ad_tempfile_in : list Z → V → result (list Z * T) IoError * V;
  ad_persist : list Z → T → list Z → V → result unit IoError * V;
  ad_discard : list Z → V → V;
  ad_rename : list Z → T → list Z → V → result unit IoError * V;
  ad_remove_file : list Z → V → result unit IoError * V
}.

(** [Path::parent] of the destination, or the current directory. *)
Definition parent_directory (destination : list Z) : list Z :=
  parent_text (default {| pa_absolute := false; pa_parts := [] |} (Path_parent (Path_from destination))).

Section replace.
  Context (io_fuel : nat) {V T : Type} `{VolumeDir V T} `{ArchiveDir V T} `{Write T} `{ArchiveFiles V}.

Definition io_error {A} (r : result A IoError) : result A CliError := cli_io r.

(** All that can fail comes before the renaming. *)
Definition replace_archive (destination : list Z) (write : T → result T CliError) (dir : V) : result unit CliError * V :=
  match ad_tempfile_in (parent_directory destination) dir with
  | (Err e, dir) => (Err (Fatal (R7zError_from e)), dir)
  | (Ok (temporary, file), dir) =>
      match write file with
      | Err e => (Err e, ad_discard temporary dir)
      | Ok file =>
          match w_flush file with
          | (Err e, _) => (Err (Fatal (R7zError_from e)), ad_discard temporary dir)
          | (Ok _, file) =>
              let '(renamed, dir) := ad_persist temporary file destination dir in (io_error renamed, dir)
          end
      end
  end.

(** *** Volumes *)

Definition temp_path (path default_extension : list Z) : list Z :=
  with_extension path (default default_extension (extension path) ++ text ".tmp-" ++ ad_process_id).
Definition temp_archive_path (archive_path : list Z) : list Z := temp_path archive_path (text "7z").

(** One volume: as many bytes of the input written under another name, which is then
    changed. *)
Definition write_renamed_volume (path : list Z) (size : Z) (input : ScriptReader) (dir : V) :
    result Z CliError * ScriptReader * V :=
  let tmp_path := temp_path path (text "vol") in
  match vd_create tmp_path dir with
  | (Err e, dir) => (Err (Fatal (R7zError_from e)), input, dir)
  | (Ok output, dir) =>
      let '(copied, limited, output) := io_copy io_fuel io_fuel {| tk_inner := input; tk_limit := size |} output 0 in
      let input := tk_inner limited in
      match copied with
      | Err e => (Err (Fatal (R7zError_from e)), input, vd_close tmp_path output dir)
      | Ok written =>
          match w_flush output with
          | (Err e, output) => (Err (Fatal (R7zError_from e)), input, vd_close tmp_path output dir)
          | (Ok _, output) =>
              let '(renamed, dir) := ad_rename tmp_path output path dir in
              (let? _ := io_error renamed in Ok written, input, dir)
          end
      end
  end.

(** Volumes until the input is used up; an empty input is one empty volume. *)
Fixpoint write_cut_volumes (fuel : nat) (base : list Z) (sizes : list Z) (idx offset input_len : Z) (input : ScriptReader) (dir : V) :
    result unit CliError * V :=
  match fuel with
  | O => (Err (Fatal R7zOutOfFuel), dir)
  | Datatypes.S fuel =>
      if bool_decide (offset < input_len) || bool_decide (idx = 0) && bool_decide (input_len = 0) then
        let end_ := Z.min (saturating_add offset (volume_size sizes idx)) input_len in
        match write_renamed_volume (volume_path base idx) (end_ - offset) input dir with
        | (Err e, _, dir) => (Err e, dir)
        | (Ok written, input, dir) =>
            if decide (written > 0) then write_cut_volumes fuel base sizes (idx + 1) end_ input_len input dir else (Ok tt, dir)
        end
      else (Ok tt, dir)
  end.

(** The sizes are not empty and positive, so there is at most one volume for each byte. *)
Definition write_volumes_from_file (base archive_path : list Z) (sizes : list Z) (dir : V) : result unit CliError * V :=
  match af_open archive_path dir with
  | Err e => (Err (Fatal (R7zError_from e)), dir)
  | Ok input =>
      write_cut_volumes (Datatypes.S (Datatypes.S (length input))) base sizes 0 0 (zlen input) (slice_reader input) dir
  end.

End replace.

(** ** The archive *)

Section commands.
  Context `{Nom} `{Crc32} `{LzmaMemory} `{Decoders} `{BlockCipher} `{Sha256} `{BytesLayout} `{Host} `{EncoderLimits}
    `{Encoders} {G : Type} `{Entropy G}.
  Context (retries io_fuel : nat) (io_sizes : nat → Z) (copy_sizes : nat → N) (address : bytes → Z).
  Context {V T : Type} `{VolumeDir V T} `{ArchiveDir V T} `{Write T} `{Seek T} `{ArchiveFiles V}.
  Context {S : Type} `{Reader S} (open_file : list Z → result S IoError) `{FileSystem}.
  Context (display : R7zError → list Z) (format_time : Z → list Z).
  (** Fuel for the volumes of an archive and for the depth of the trees on the disk, the
      address of an archive that is opened, and the generator of random bytes. *)
  Context (volume_fuel depth_fuel : nat) (identity : Z) (g : G).

Definition open_archive (cli : Cli) (dir : V) : result Archive CliError :=
  map_err Fatal (Archive_open_with_password retries io_fuel io_sizes address volume_fuel dir identity (cli_archive cli) (cli_password cli)).

Definition write_preserved_archive_entries_atomic (source : option Archive) (archive_path : list Z)
    (entries : list PreservedArchiveEntry) (raw_folders : list RawFolderBlock) (options : ArchiveOptions) (dir : V) :
    result unit CliError * V :=
  replace_archive archive_path (λ file,
    match source with
    | Some source => map_err Fatal (write_archive_update io_fuel open_file source file entries raw_folders options g)
    | None =>
        if bool_decide (length raw_folders = 0%nat)
        then map_err Fatal (write_archive_with_preserved_folders io_fuel open_file file entries raw_folders options g)
        else Err (Fatal ArchiveMismatch)
    end) dir.

Definition write_archive_entries (archive_path : list Z) (entries : list PendingEntry) (options : ArchiveOptions)
    (volume_sizes : list Z) (dir : V) : result unit CliError * V :=
  let preserved := map pending_to_preserved_entry entries in
  match volume_sizes with
  | [] => write_preserved_archive_entries_atomic None archive_path preserved [] options dir
  | _ =>
      let tmp_archive := temp_archive_path archive_path in
      match write_preserved_archive_entries_atomic None tmp_archive preserved [] options dir with
      | (Err e, dir) => (Err e, dir)
      | (Ok _, dir) =>
          let '(result, dir) := write_volumes_from_file io_fuel archive_path tmp_archive volume_sizes dir in
          let '(cleanup, dir) := ad_remove_file tmp_archive dir in
          (let? _ := result in
           match cleanup with
           | Err err => if decide (IoError_kind err = NotFound) then Ok tt else Err (Fatal (R7zError_from err))
           | Ok _ => Ok tt
           end, dir)
      end
  end.

Definition scan_exit_code (scan : DiskScan) : Z := match ds_warnings scan with [] => EXIT_OK | _ => EXIT_WARNING end.

(** [create_archive] that does not merge. *)
Definition create_new_archive (cli : Cli) (operands : list (list Z)) (dir : V) : result Z CliError * V :=
  match (let? scan := scan_disk_operands operands in
         let? entries := collect_disk_entries depth_fuel (ds_paths scan) in Ok (scan, entries)) with
  | Err e => (Err e, dir)
  | Ok (scan, entries) =>
      let '(written, dir) := write_archive_entries (cli_archive cli) entries (cli_options cli) (cli_volume_sizes cli) dir in
      (let? _ := written in Ok (scan_exit_code scan), dir)
  end.

(** The entries that are not to be dropped, then the new ones, in the place of the archive. *)
Definition rewrite_archive (cli : Cli) (should_drop : ArchiveEntryInfo → bool) (new_entries : list PendingEntry) (dir : V) :
    result unit CliError * V :=
  match (let? archive := open_archive cli dir in
         let? (entries, raw_folders) :=
           preserved_rewrite_entries retries io_fuel io_sizes copy_sizes display archive (cli_password cli) should_drop new_entries in
         Ok (archive, entries, raw_folders)) with
  | Err e => (Err e, dir)
  | Ok (archive, entries, raw_folders) =>
      write_preserved_archive_entries_atomic (Some archive) (cli_archive cli) entries raw_folders (cli_options cli) dir
  end.

(** Entries that new ones of the same name replace. *)
Definition replaced_by (new_entries : list PendingEntry) (entry : ArchiveEntryInfo) : bool :=
  match ai_raw_name entry with
  | None => bool_decide (ai_name entry ∈ map pe_name new_entries)
  | Some name => bool_decide (sl_data name ∈ map (λ e, concat (map (to_le_bytes 2) (encode_utf16 (pe_name e)))) new_entries)
  end.

Definition update_archive (cli : Cli) (operands : list (list Z)) (dir : V) : result Z CliError * V :=
  if negb (af_exists (cli_archive cli) dir) then create_new_archive cli operands dir else
  match (let? scan := scan_disk_operands operands in
         let? new_entries := collect_disk_entries depth_fuel (ds_paths scan) in Ok (scan, new_entries)) with
  | Err e => (Err e, dir)
  | Ok (scan, new_entries) =>
      let '(written, dir) := rewrite_archive cli (replaced_by new_entries) new_entries dir in
      (let? _ := written in Ok (scan_exit_code scan), dir)
  end.

Definition create_archive (cli : Cli) (allow_existing_merge : bool) (operands : list (list Z)) (dir : V) : result Z CliError * V :=
  if allow_existing_merge && af_exists (cli_archive cli) dir then update_archive cli operands dir
  else create_new_archive cli operands dir.

Definition delete_from_archive (cli : Cli) (operands : list (list Z)) (dir : V) : result unit CliError * V :=
  rewrite_archive cli (EntryPatterns_matches_entry (EntryPatterns_from_paths operands)) [] dir.

(** ** The tool *)

Context {D F : Type} `{ExtractDir D F} `{Writer F} {U : Type} `{OverwriteUi U}.
(** [fs::metadata]; the capability for the output directory, which is made if need be (an
    error comes with the files as they are then); and the files as a capability leaves
    them. There is one file system: the output directory may be that of the archive. *)
Context (file_size : list Z → V → option Z) (open_destination : list Z → V → result D (IoError * V)) (released : D → V).

(** The files, and the lines on the terminal. *)
Record World := { wo_files : V; wo_lines : list (list Z) }.

Definition list_archive (cli : Cli) (operands : list (list Z)) (dir : V) : result (list (list Z)) CliError :=
  let? archive := open_archive cli dir in
  map_err Fatal (list_lines format_time archive (file_size (cli_archive cli) dir) (cli_technical cli) (cli_archive cli) operands).

Definition run_test (cli : Cli) (operands : list (list Z)) (dir : V) : result Z CliError :=
  let? archive := open_archive cli dir in
  test_archive retries io_fuel io_sizes copy_sizes archive (cli_password cli) operands.

Definition extract_archive (cli : Cli) (flat : bool) (operands : list (list Z)) (ui : U) (dir : V) : result Z CliError * V :=
  match open_archive cli dir with
  | Err e => (Err e, dir)
  | Ok archive =>
      match open_destination (cli_output_dir cli) dir with
      | Err (e, dir) => (Err (Fatal (R7zError_from e)), dir)
      | Ok destination =>
          let '(r, destination) :=
            extract_archive_with_ui (F := F) retries io_fuel io_sizes copy_sizes archive (cli_password cli) (cli_assume_yes cli) destination
              (cli_overwrite_mode cli) (cli_output_dir cli) flat operands ui in
          (r, released destination)
      end
  end.

Definition run_command (cli : Cli) (ui : U) (w : World) : result Z CliError * World :=
  let files := wo_files w in
  let in_files (r : result Z CliError * V) := (r.1, {| wo_files := r.2; wo_lines := wo_lines w |}) in
  match cli_command cli with
  | CommandList operands =>
      match list_archive cli operands files with
      | Err e => (Err e, w)
      | Ok lines => (Ok EXIT_OK, {| wo_files := files; wo_lines := wo_lines w ++ lines |})
      end
  | CommandTest operands =>
      let tested := run_test cli operands files in
      let lines := match tested with Ok 0 => [text "Everything is Ok"] | _ => [] end in
      (tested, {| wo_files := files; wo_lines := wo_lines w ++ lines |})
  | CommandExtractFull operands => in_files (extract_archive cli false operands ui files)
  | CommandExtractFlat operands => in_files (extract_archive cli true operands ui files)
  | CommandAdd operands => in_files (create_archive cli true operands files)
  | CommandUpdate operands => in_files (update_archive cli operands files)
  | CommandDelete operands =>
      let '(deleted, dir) := delete_from_archive cli operands files in in_files (let? _ := deleted in Ok EXIT_OK, dir)
  end.

Definition run (args : list (list Z)) (ui : U) (w : World) : result Z CliError * World :=
  match Cli_parse args with
  | Err e => (Err e, w)
  | Ok cli => run_command cli ui w
  end.

(** [main], with the arguments behind the program's name: the exit code. *)
Definition main (args : list (list Z)) (ui : U) (w : World) : Z * World :=
  match args with
  | arg :: _ =>
      if is_help arg then (EXIT_OK, {| wo_files := wo_files w; wo_lines := wo_lines w ++ [usage] |})
      else let '(outcome, w) := run args ui w in (exit_code outcome, w)
  | [] => let '(outcome, w) := run args ui w in (exit_code outcome, w)
  end.

End commands.

(** ** Replacing a file

    What may be relied on of the directory: a temporary file has a name that was free, and a
    file that is renamed has the contents that were written to it. *)
Record archive_dir_laws {V T} `{ArchiveDir V T} `{Write T} `{Seek T} (contents : T → bytes) (position : T → Z)
    (stored : V → gmap (list Z) bytes) : Prop := {
  dl_file : file_laws contents position;
  dl_temporary : ∀ d v p t v', ad_tempfile_in d v = (Ok (p, t), v') → stored v !! p = None ∧ stored v' = <[p := []]> (stored v);
  dl_no_temporary : ∀ d v e v', ad_tempfile_in d v = (Err e, v') → stored v' = stored v;
  dl_persisted : ∀ p t q v v', ad_persist p t q v = (Ok tt, v') → stored v' = <[q := contents t]> (delete p (stored v));
  dl_not_persisted : ∀ p t q v e v', ad_persist p t q v = (Err e, v') → stored v' = delete p (stored v);
  dl_discarded : ∀ p v, stored (ad_discard (T := T) p v) = delete p (stored v)
}.

(** What may be relied on of a file that is written under a name of its own: no other name is
    touched, also when an operation fails. *)
Record touching_laws {V T} `{VolumeDir V T} `{ArchiveDir V T} (stored : V → gmap (list Z) bytes) : Prop := {
  to_create : ∀ p v r v' q, vd_create p v = (r, v') → q ≠ p → stored v' !! q = stored v !! q;
  to_close : ∀ p t v q, q ≠ p → stored (vd_close p t v) !! q = stored v !! q;
  to_rename : ∀ p t p' v r v' q, ad_rename p t p' v = (r, v') → q ≠ p → q ≠ p' → stored v' !! q = stored v !! q;
  to_remove : ∀ p v r v' q, ad_remove_file (T := T) p v = (r, v') → q ≠ p → stored v' !! q = stored v !! q
}.

(** What may be relied on of the output directory: making and opening it keeps the files, and
    they are released as they are seen through it. *)
Record output_laws {V D F} `{ExtractDirLaws D F (list Z)} (stored : V → gmap (list Z) bytes)
    (open_destination : list Z → V → result D (IoError * V)) (released : D → V) : Prop := {
  ol_opened : ∀ o v d q b, open_destination o v = Ok d → stored v !! q = Some b → file_at q d = Some b;
  ol_not_opened : ∀ o v e v' q b, open_destination o v = Err (e, v') → stored v !! q = Some b → stored v' !! q = Some b;
  ol_released : ∀ d q b, file_at q d = Some b → stored (released d) !! q = Some b
}.

Section replaced.
  Context {V T : Type} `{VolumeDir V T} `{ArchiveDir V T} `{Write T} `{Seek T} `{ArchiveFiles V}.
  Context (contents : T → bytes) (position : T → Z) (stored : V → gmap (list Z) bytes) (Hlaws : archive_dir_laws contents position stored).

(** The outcome of a replacement: the file as a whole, or nothing. *)
Lemma replace_archive_spec destination write dir r dir' :
  replace_archive destination write dir = (r, dir') →
  match r with
  | Ok _ => ∃ file file', write file = Ok file' ∧ stored dir' = <[destination := contents file']> (stored dir)
  | Err _ => stored dir' = stored dir
  end.
Proof.
  unfold replace_archive. destruct (ad_tempfile_in _ dir) as [[[tmp file]|e] dir1] eqn:Et.
  2:{ intros [= <- <-]. by eapply dl_no_temporary. }
  destruct (dl_temporary _ _ _ Hlaws _ _ _ _ _ Et) as [Hfree Hd1].
  assert (delete tmp (stored dir1) = stored dir) as Hback by (rewrite Hd1; by apply delete_insert_id).
  assert (stored (ad_discard tmp dir1) = stored dir) as Hdrop by (by rewrite (dl_discarded _ _ _ Hlaws)).
  destruct (write file) as [file1|e] eqn:Ew; [|by intros [= <- <-]].
  destruct (w_flush file1) as [[[]|e] file2] eqn:Ef; [|by intros [= <- <-]].
  destruct (fl_flush _ _ (dl_file _ _ _ Hlaws) _ _ Ef) as [Hc _].
  destruct (ad_persist tmp file2 destination dir1) as [[[]|e] dir2] eqn:Ep; intros [= <- <-].
  - exists file, file1. split; [done|]. by rewrite (dl_persisted _ _ _ Hlaws _ _ _ _ _ Ep), Hback, Hc.
  - by rewrite (dl_not_persisted _ _ _ Hlaws _ _ _ _ _ _ Ep).
Qed.

End replaced.

(** ** Volumes of a file *)

(** The names that a new archive in volumes is written under: its volumes, the archive they
    are cut from, and the temporary files. *)
Definition volume_run_name {V T} `{ArchiveDir V T} (archive q : list Z) : Prop :=
  q = temp_archive_path (V := V) (T := T) archive ∨
  ∃ i, 0 ≤ i ∧ (q = volume_path archive i ∨ q = temp_path (V := V) (T := T) (volume_path archive i) (text "vol")).

Section touched.
  Context (io_fuel : nat) {V T : Type} `{VolumeDir V T} `{ArchiveDir V T} `{Write T} `{ArchiveFiles V}.
  Context (stored : V → gmap (list Z) bytes) (Hlaws : touching_laws (T := T) stored).
  Context (q : list Z).

Abbreviation same dir dir' := (stored dir' !! q = stored dir !! q).

Lemma renamed_volume_touches path size input dir r input' dir' :
  q ≠ path → q ≠ temp_path (V := V) (T := T) path (text "vol") →
  write_renamed_volume io_fuel path size input dir = (r, input', dir') → same dir dir'.
Proof using Hlaws.
  intros Hq Ht. unfold write_renamed_volume. destruct (vd_create _ dir) as [[output|] dir1] eqn:Ec;
    pose proof (to_create _ Hlaws _ _ _ _ _ Ec Ht) as Hd1; [|by intros [= _ _ <-]].
  destruct (io_copy io_fuel io_fuel _ output 0) as [[[written|] limited] output1];
    [|intros [= _ _ <-]; by rewrite (to_close _ Hlaws)].
  destruct (w_flush output1) as [[[]|] output2]; [|intros [= _ _ <-]; by rewrite (to_close _ Hlaws)].
  destruct (ad_rename _ _ _ _) as [renamed dir2] eqn:Er. intros [= _ _ <-].
  by rewrite (to_rename _ Hlaws _ _ _ _ _ _ _ Er).
Qed.

Lemma cut_volumes_touch base sizes fuel idx offset len input dir r dir' :
  ¬ volume_run_name (V := V) (T := T) base q → 0 ≤ idx →
  write_cut_volumes io_fuel fuel base sizes idx offset len input dir = (r, dir') → same dir dir'.
Proof using Hlaws.
  intros Hq. revert idx offset input dir. induction fuel as [|fuel IH]; intros idx offset input dir Hi;
    cbn [write_cut_volumes]; [by intros [= _ <-]|]. destruct (_ || _); [|by intros [= _ <-]].
  destruct (write_renamed_volume _ _ _ _ _) as [[[written|] input1] dir1] eqn:Ew;
    (apply renamed_volume_touches in Ew; [|intros ->; apply Hq; right; exists idx; by auto..]).
  - case_decide; [|by intros [= _ <-]]. intros Hrest. by rewrite (IH (idx + 1) _ _ _ ltac:(lia) Hrest).
  - by intros [= _ <-].
Qed.

Lemma volumes_from_file_touch base archive_path sizes dir r dir' :
  ¬ volume_run_name (V := V) (T := T) base q →
  write_volumes_from_file (T := T) io_fuel base archive_path sizes dir = (r, dir') → same dir dir'.
Proof using Hlaws.
  intros Hq. unfold write_volumes_from_file. destruct (af_open archive_path dir); [|by intros [= _ <-]].
  by apply cut_volumes_touch.
Qed.

End touched.

(** What may be relied on of files that are renamed when they are complete. *)
Record rename_laws {V T} `{VolumeDir V T} `{ArchiveDir V T} `{Write T} (got : T → bytes → Prop)
    (stored : V → gmap (list Z) bytes) : Prop := {
  rl_tracked : tracked got;
  rl_created : ∀ p v t v', vd_create p v = (Ok t, v') → got t [] ∧ ∀ q, q ≠ p → stored v' !! q = stored v !! q;
  rl_renamed : ∀ p t q v v' d, ad_rename p t q v = (Ok tt, v') → got t d → stored v' = <[q := d]> (delete p (stored v))
}.

Definition slice_left (s : ScriptReader) (d : bytes) : Prop := s = slice_reader d.

Lemma slice_giving : giving slice_left.
Proof.
  split; [|by intros s d n e s' _ ->].
  intros s d n c s' Hn -> [= <- <-]. exists (drop (Z.to_nat (Z.min n n)) d). rewrite Z.min_id, take_drop.
  split_and!; [done| | |done].
  - unfold zlen. rewrite length_take. lia.
  - intros Ht. apply (f_equal length) in Ht. rewrite length_take in Ht. cbn in Ht. apply nil_length_inv. lia.
Qed.

Lemma push_digits_are fuel n acc :
  0 ≤ n → Forall (λ c, 48 ≤ c ≤ 57) acc → Forall (λ c, 48 ≤ c ≤ 57) (push_digits fuel n acc).
Proof.
  revert n acc. induction fuel as [|fuel IH]; intros n acc Hn Ha; cbn [push_digits]; [done|].
  assert (Forall (λ c, 48 ≤ c ≤ 57) ((48 + n mod 10) :: acc)) as Ha'.
  { constructor; [|done]. pose proof (Z.mod_pos_bound n 10). lia. }
  case_decide; [done|]. apply IH; [by apply Z.div_pos|done].
Qed.

Lemma volume_extension_suffix idx : 0 ≤ idx → is_suffix (volume_extension idx).
Proof.
  intros Hi. assert (Forall (λ c, 48 ≤ c ≤ 57) (volume_extension idx)) as Hd.
  { apply Forall_app. split; [apply Forall_replicate; lia|]. by apply push_digits_are. }
  split; [|done]. unfold volume_extension, decimal_digits. cbn [push_digits].
  set (n := Z.to_nat (Z.log2 idx)). clearbody n.
  intros [Hr Hp]%app_eq_nil. case_decide; [done|]. rewrite Hp in Hr. done.
Qed.

Section cut.
  Context (io_fuel : nat) {V T : Type} `{VolumeDir V T} `{ArchiveDir V T} `{Write T} `{ArchiveFiles V}.
  Context (got : T → bytes → Prop) (stored : V → gmap (list Z) bytes) (Hlaws : rename_laws got stored).
  Context (base : list Z) (Hbase : is_base base).

Abbreviation tmp path := (temp_path path (text "vol")).

Lemma temp_is_no_volume i j : 0 ≤ i → 0 ≤ j → tmp (volume_path base i) ≠ volume_path base j.
Proof using Hbase.
  intros Hi Hj. unfold temp_path.
  change (volume_path base i) with (base ++ 46 :: volume_extension (i + 1)).
  change (volume_path base j) with (base ++ 46 :: volume_extension (j + 1)).
  pose proof (volume_extension_suffix (i + 1) ltac:(lia)) as Hs.
  rewrite (extension_suffix base _ Hbase Hs), (with_extension_suffix base _ _ Hbase Hs). cbn [default].
  intros Heq. apply app_inv_head in Heq. injection Heq as Heq.
  destruct (volume_extension_suffix (j + 1) ltac:(lia)) as [_ Hd]. rewrite <- Heq in Hd.
  apply Forall_app in Hd as [_ Hd]. apply Forall_cons in Hd as [[Hc _] _]. vm_compute in Hc. by apply Hc.
Qed.

Lemma renamed_volume_spec path size input dir n input' dir' rest :
  0 ≤ size → slice_left input rest → write_renamed_volume io_fuel path size input dir = (Ok n, input', dir') →
  n = zlen (take (Z.to_nat size) rest) ∧ slice_left input' (drop (Z.to_nat size) rest) ∧
  stored dir' !! path = Some (take (Z.to_nat size) rest) ∧
  ∀ q, q ≠ path → q ≠ tmp path → stored dir' !! q = stored dir !! q.
Proof using Hlaws.
  intros Hsize Hin. unfold write_renamed_volume. destruct (vd_create (tmp path) dir) as [[output|] dir1] eqn:Ec; [|done].
  destruct (rl_created _ _ Hlaws _ _ _ _ Ec) as [Hout Hd1].
  destruct (io_copy io_fuel io_fuel _ output 0) as [[[written|] limited] output1] eqn:Ecopy; [|done].
  pose proof (rl_tracked _ _ Hlaws) as Ht.
  destruct (io_copy_gives io_fuel _ (take_giving slice_left (drop (Z.to_nat size) rest) slice_giving) got Ht _ _ _ _ _ _ _ _ _
    (take_left_intro slice_left input size rest Hsize Hin) Hout Ecopy) as ([Hleft _] & Hgot & ->).
  destruct (w_flush output1) as [[[]|] output2] eqn:Ef; [|done]. apply (tr_flush _ Ht _ _ _ Hgot) in Ef.
  destruct (ad_rename _ _ _ _) as [[[]|] dir2] eqn:Er; [|done]. intros [= <- <- <-].
  pose proof (rl_renamed _ _ Hlaws _ _ _ _ _ _ Er Ef) as ->. cbn [app] in *.
  split_and!; [lia|exact Hleft|by rewrite lookup_insert_eq|].
  intros q Hq Hqt. rewrite lookup_insert_ne, lookup_delete_ne by done. by apply Hd1.
Qed.

Context (sizes : list Z) (Hsizes : Forall (λ size, 0 < size) sizes) (Hne : sizes ≠ []).

(** The volumes are those that the library writes itself: the cut of the file. *)
Lemma cut_volumes_spec fuel idx offset input rest dir dir' :
  0 ≤ idx → 0 ≤ offset → (idx = 0 → offset = 0) → offset + zlen rest ≤ u64_max → (rest ≠ [] ∨ idx = 0) → slice_left input rest →
  write_cut_volumes io_fuel fuel base sizes idx offset (offset + zlen rest) input dir = (Ok tt, dir') →
  let parts := volumes_of sizes idx rest in
  Forall2 (λ path part, stored dir' !! path = Some part) (volume_paths base idx (length parts)) parts ∧
  ∀ i, 0 ≤ i < idx → stored dir' !! volume_path base i = stored dir !! volume_path base i.
Proof using Hlaws Hbase Hsizes Hne.
  revert idx offset input rest dir. induction fuel as [|fuel IH]; intros idx offset input rest dir Hi Ho Hzero Hmax Hrest Hin;
    cbn [write_cut_volumes]; [done|].
  pose proof (zlen_nonneg rest) as Hlen. pose proof (volume_size_pos sizes Hsizes Hne idx Hi) as Hpos.
  assert (rest ≠ [] → 0 < zlen rest) as Hrlen by (destruct rest; [done|unfold zlen; cbn; lia]).
  assert (bool_decide (offset < offset + zlen rest) || bool_decide (idx = 0) && bool_decide (offset + zlen rest = 0) = true) as ->.
  { destruct (decide (offset < offset + zlen rest)) as [Hlt|Hge]; [by rewrite (bool_decide_true _ Hlt)|].
    destruct rest as [|b r]; [|specialize (Hrlen ltac:(done)); lia]. destruct Hrest as [?|Hz]; [done|].
    rewrite (bool_decide_true (idx = 0)), (bool_decide_true (offset + _ = 0)); [by destruct (bool_decide _)| |done].
    rewrite (Hzero Hz). done. }
  set (size := volume_size sizes idx) in *. set (end_ := Z.min (saturating_add offset size) (offset + zlen rest)).
  assert (end_ - offset = Z.min size (zlen rest)) as Hend by (unfold end_, saturating_add; lia).
  destruct (write_renamed_volume _ _ _ _ _) as [[[written|] input1] dir1] eqn:Ew; [|done].
  apply (renamed_volume_spec _ _ _ _ _ _ _ rest) in Ew as (-> & Hin1 & Hst & Hkeep); [|lia|done].
  assert (take (Z.to_nat (end_ - offset)) rest = take (Z.to_nat size) rest ∧ drop (Z.to_nat (end_ - offset)) rest = drop (Z.to_nat size) rest) as [Htake Hdrop].
  { rewrite Hend. destruct (decide (size ≤ zlen rest)); [by rewrite Z.min_l by lia|]. rewrite Z.min_r by lia. unfold zlen in *.
    rewrite !take_ge, !drop_ge by lia. done. }
  rewrite Htake, Hdrop in *. rewrite (volumes_of_cons sizes Hsizes Hne idx rest Hi). fold size.
  set (left := drop (Z.to_nat size) rest) in *.
  assert (zlen (take (Z.to_nat size) rest) + zlen left = zlen rest) as Hcat by (unfold left; by rewrite <- zlen_app, take_drop).
  assert (end_ = offset + zlen (take (Z.to_nat size) rest)) as He.
  { unfold zlen at 1. rewrite length_take. unfold zlen in *. lia. }
  assert (∀ i, 0 ≤ i < idx → stored dir1 !! volume_path base i = stored dir !! volume_path base i) as Hbefore.
  { intros i Hlt. apply Hkeep; [intros Heq; apply volume_path_inj in Heq; lia|intros Heq; symmetry in Heq; revert Heq; apply temp_is_no_volume; lia]. }
  destruct (decide (left = [])) as [Hl|Hl].
  - rewrite Hl. cbn [length]. case_decide; [|intros [= <-]].
    + destruct fuel as [|fuel]; [done|]. cbn [write_cut_volumes].
      rewrite Hl in Hcat. change (zlen []) with 0 in Hcat.
      rewrite bool_decide_false, (bool_decide_false (idx + 1 = 0)) by lia. intros [= <-].
      split; [|exact Hbefore]. unfold volume_paths. cbn. rewrite Z.add_0_r. by constructor.
    + split; [|exact Hbefore]. unfold volume_paths. cbn. rewrite Z.add_0_r. by constructor.
  - case_decide as Hw; [|exfalso].
    2:{ assert (rest ≠ []) as Hr by (intros ->; apply Hl; by apply drop_nil). specialize (Hrlen Hr).
        apply Hw. unfold zlen at 1. rewrite length_take. unfold zlen in *. lia. }
    intros Hrec. replace (offset + zlen rest) with (end_ + zlen left) in Hrec by lia.
    destruct (IH (idx + 1) end_ input1 left dir1) as [Hall Hold]; try done; [lia|lia|lia|lia|by left|].
    assert (match left with [] => [] | x :: l => volumes_of sizes (idx + 1) (x :: l) end = volumes_of sizes (idx + 1) left) as ->
      by (by destruct left).
    cbn [length]. rewrite volume_paths_succ. split; [constructor; [by rewrite Hold by lia|done]|].
    intros i Hlt. rewrite Hold by lia. by apply Hbefore.
Qed.

(** The volumes written from a file, one after the other, are the file. *)
Lemma volumes_from_file_spec archive_path input dir dir' :
  af_open archive_path dir = Ok input → zlen input ≤ u64_max →
  write_volumes_from_file io_fuel base archive_path sizes dir = (Ok tt, dir') →
  Forall2 (λ path part, stored dir' !! path = Some part) (volume_paths base 0 (length (volumes_of sizes 0 input)))
    (volumes_of sizes 0 input) ∧ cut_into sizes input (volumes_of sizes 0 input).
Proof using Hlaws Hbase Hsizes Hne.
  intros Ho Hmax. unfold write_volumes_from_file. rewrite Ho. intros Hw. split; [|by apply volumes_cut].
  replace (zlen input) with (0 + zlen input) in Hw by lia.
  assert (input ≠ [] ∨ 0 = 0) as Hor by (by right).
  by destruct (cut_volumes_spec _ 0 0 (slice_reader input) input dir dir' ltac:(lia) ltac:(lia) ltac:(done) ltac:(lia) Hor eq_refl Hw).
Qed.

End cut.

(** ** What the commands change *)

Section claims.
  Context `{Nom} `{Crc32} `{LzmaMemory} `{Decoders} `{BlockCipher} `{Sha256} `{BytesLayout} `{Host} `{EncoderLimits}
    `{Encoders} {G : Type} `{Entropy G}.
  Context (retries io_fuel : nat) (io_sizes : nat → Z) (copy_sizes : nat → N) (address : bytes → Z).
  Context {V T : Type} `{VolumeDir V T} `{ArchiveDir V T} `{Write T} `{Seek T} `{ArchiveFiles V}.
  Context {S : Type} `{Reader S} (open_file : list Z → result S IoError) `{FileSystem}.
  Context (display : R7zError → list Z) (format_time : Z → list Z).
  Context (volume_fuel depth_fuel : nat) (identity : Z) (g : G).
  Context (contents : T → bytes) (position : T → Z) (stored : V → gmap (list Z) bytes).
  Context (encodes : EncoderKind → bytes → bytes → Prop).

Abbreviation opened := (open_archive retries io_fuel io_sizes address volume_fuel identity).
Abbreviation rewriting := (rewrite_archive retries io_fuel io_sizes copy_sizes address open_file display volume_fuel identity g).
Abbreviation update := (update_archive retries io_fuel io_sizes copy_sizes address open_file display volume_fuel depth_fuel identity g).
Abbreviation deletion := (delete_from_archive retries io_fuel io_sizes copy_sizes address open_file display volume_fuel identity g).
Abbreviation creation := (create_archive retries io_fuel io_sizes copy_sizes address open_file display volume_fuel depth_fuel identity g).

(** An archive that holds the entries of another that are not dropped, and the new ones. *)
Definition archive_rewritten (archive : Archive) (cli : Cli) (should_drop : ArchiveEntryInfo → bool) (new_entries : list PendingEntry)
    (data : bytes) : Prop :=
  ∃ entries raw_folders prepared staged folders,
    match Archive_files_info archive with
    | Some files =>
        ∃ kept, entries = kept ++ map pending_to_preserved_entry new_entries ∧
          Forall2 (kept_as retries io_fuel io_sizes copy_sizes archive files (cli_password cli))
            (filter (λ entry, should_drop entry = false) (Archive_entries archive)) kept
    | None => entries = map pending_to_preserved_entry new_entries
    end ∧
    validate_raw_folder_update archive entries raw_folders = Ok tt ∧
    prepare_archive_options (set_default_budget (cli_options cli)) = Ok prepared ∧
    stage_preserved_entries entries raw_folders (po_archive prepared) = Ok staged ∧
    Forall2 (updated_folder io_fuel open_file encodes prepared staged) (sp_folder_order staged) folders ∧
    archive_layout encodes prepared data (map StagedEntry_into_write_entry (sp_entries staged)) folders.

(** The outcome of a rewrite. *)
Definition rewrite_outcome (cli : Cli) (should_drop : ArchiveEntryInfo → bool) (new_entries : list PendingEntry) (dir dir' : V) : Prop :=
  ∃ archive data, opened cli dir = Ok archive ∧ stored dir' = <[cli_archive cli := data]> (stored dir) ∧
    archive_rewritten archive cli should_drop new_entries data.

Lemma archive_num_files_nonneg archive : 0 ≤ Archive_num_files archive.
Proof. unfold Archive_num_files, usize_try_from. by case_decide; cbn; lia. Qed.

Lemma rewrite_archive_spec cli should_drop new_entries dir r dir' :
  archive_dir_laws contents position stored → encoders_spec encodes →
  rewriting cli should_drop new_entries dir = (r, dir') →
  match r with Ok _ => rewrite_outcome cli should_drop new_entries dir dir' | Err _ => stored dir' = stored dir end.
Proof.
  intros Hlaws Henc. unfold rewrite_archive. destruct (open_archive _ _ _ _ _ _ cli dir) as [archive|] eqn:Eo; [|by intros [= <- <-]].
  destruct (preserved_rewrite_entries _ _ _ _ _ archive _ _ _) as [[entries raw_folders]|] eqn:Er; [|by intros [= <- <-]].
  unfold write_preserved_archive_entries_atomic. intros Hrep.
  pose proof (replace_archive_spec contents position stored Hlaws _ _ _ _ _ Hrep) as Hspec. destruct r as [[]|e]; [|done].
  destruct Hspec as (file & file' & Hw & Hst). exists archive, (contents file'). split_and!; [exact Eo|exact Hst|].
  destruct (write_archive_update _ _ _ _ _ _ _ _) as [out|] eqn:Eu; [|done]. injection Hw as <-.
  destruct (updated_archive_layout _ _ contents position encodes _ _ _ _ _ _ _ Henc (dl_file _ _ _ Hlaws) Eu)
    as (Hval & prepared & staged & folders & Hp & Hs & Hf & Hl).
  exists entries, raw_folders, prepared, staged, folders. split_and!; try done.
  destruct (Archive_files_info archive) as [files|] eqn:Ef.
  - by destruct (rewrite_keeps_the_rest _ _ _ _ _ _ _ _ _ _ _ _ Ef (archive_num_files_nonneg archive) Er) as [_ ?].
  - unfold preserved_rewrite_entries in Er. rewrite Ef in Er. by injection Er as <- _.
Qed.


(** *** The whole tool *)

Context (Hlaws : archive_dir_laws contents position stored).

(** A new archive. *)
Definition written_or_kept {A} (path : list Z) (dir : V) (r : result A CliError) (dir' : V) : Prop :=
  match r with
  | Ok _ => ∃ data, stored dir' = <[path := data]> (stored dir)
  | Err _ => stored dir' = stored dir
  end.

Lemma written_code {A B} path dir (r : result A CliError) dir' (b : B) :
  written_or_kept path dir r dir' → written_or_kept path dir (let? _ := r in Ok b) dir'.
Proof. by destruct r. Qed.

Lemma create_new_archive_spec cli operands dir r dir' :
  cli_volume_sizes cli = [] → create_new_archive io_fuel open_file depth_fuel g cli operands dir = (r, dir') →
  written_or_kept (cli_archive cli) dir r dir'.
Proof.
  intros Hv. unfold create_new_archive. destruct (scan_disk_operands operands) as [scan|]; [|by intros [= <- <-]].
  destruct (collect_disk_entries depth_fuel _) as [entries|]; [|by intros [= <- <-]].
  unfold write_archive_entries, write_preserved_archive_entries_atomic. rewrite Hv.
  destruct (replace_archive _ _ dir) as [written dir1] eqn:Er. intros [= <- <-]. apply written_code.
  apply (replace_archive_spec contents position stored Hlaws) in Er. destruct written as [[]|]; [|exact Er].
  destruct Er as (? & file & _ & Hst). by exists (contents file).
Qed.

Lemma rewriting_spec cli should_drop new_entries dir r dir' :
  rewriting cli should_drop new_entries dir = (r, dir') → written_or_kept (cli_archive cli) dir r dir'.
Proof.
  unfold rewrite_archive. destruct (let? _ := _ in _) as [[[archive entries] raw_folders]|]; [|by intros [= <- <-]].
  unfold write_preserved_archive_entries_atomic. intros Er.
  apply (replace_archive_spec contents position stored Hlaws) in Er. destruct r as [[]|]; [|exact Er].
  destruct Er as (? & file & _ & Hst). by exists (contents file).
Qed.

Lemma update_spec cli operands dir r dir' :
  cli_volume_sizes cli = [] → update cli operands dir = (r, dir') → written_or_kept (cli_archive cli) dir r dir'.
Proof.
  intros Hv. unfold update_archive. destruct (af_exists (cli_archive cli) dir); cbn [negb]; [|by apply create_new_archive_spec].
  destruct (let? _ := _ in _) as [[scan new_entries]|]; [|by intros [= <- <-]].
  destruct (rewriting _ _ _ _) as [w dir1] eqn:Er. intros [= <- <-]. apply written_code. by eapply rewriting_spec.
Qed.

(** Exit codes of commands that end well. *)
Definition good_code (r : result Z CliError) : Prop := match r with Ok code => code = EXIT_OK ∨ code = EXIT_WARNING | Err _ => True end.

Lemma good_code_exit r : good_code r → exit_code r ∈ [EXIT_OK; EXIT_WARNING; EXIT_FATAL; EXIT_COMMAND_LINE].
Proof. rewrite !elem_of_cons. destruct r as [code|[]]; cbn; naive_solver. Qed.

Lemma good_code_bind {A} (r : result A CliError) k : (∀ a, good_code (k a)) → good_code (let? a := r in k a).
Proof. destruct r; [by intros Hk|done]. Qed.

Lemma scan_code (r : result unit CliError) scan : good_code (let? _ := r in Ok (scan_exit_code scan)).
Proof. apply good_code_bind. intros []. unfold scan_exit_code. destruct (ds_warnings scan); [by left|by right]. Qed.

Lemma create_new_code cli operands dir : good_code (create_new_archive io_fuel open_file depth_fuel g cli operands dir).1.
Proof.
  unfold create_new_archive. destruct (let? _ := scan_disk_operands operands in _) as [[scan entries]|]; [|done].
  destruct (write_archive_entries _ _ _ _ _ _ _ _). apply scan_code.
Qed.

Lemma update_code cli operands dir : good_code (update cli operands dir).1.
Proof.
  unfold update_archive. destruct (negb _); [apply create_new_code|].
  destruct (let? _ := scan_disk_operands operands in _) as [[scan entries]|]; [|done].
  destruct (rewriting _ _ _ _). apply scan_code.
Qed.

Lemma test_folders_code warnings session folders :
  good_code (Ok warnings) → good_code (Ok (test_folders retries io_fuel io_sizes copy_sizes warnings session folders).1).
Proof.
  revert warnings session. induction folders as [|[folder indices] folders IH]; intros warnings session Hw; cbn [test_folders]; [done|].
  destruct (test_folder _ _ _ _ session indices) as [[[]|] s]; [by apply IH|]. apply IH. by right.
Qed.

Lemma test_code cli operands dir :
  good_code (run_test retries io_fuel io_sizes copy_sizes address volume_fuel identity cli operands dir).
Proof.
  unfold run_test, test_archive. do 2 (apply good_code_bind; intros ?).
  destruct (EntryPatterns_resolve_listing _ _) as [selected|]; [|by right]. unfold test_selected_folders.
  destruct (SelectedListing_folders selected) as [|f fs]; [by left|]. apply good_code_bind. intros session.
  pose proof (test_folders_code EXIT_OK session (f :: fs) ltac:(by left)) as Hc.
  destruct (test_folders _ _ _ _ EXIT_OK session (f :: fs)) as [warnings s]. by apply good_code_bind.
Qed.

Context (Htouch : touching_laws (T := T) stored).

(** A new archive in volumes changes nothing but files of their names. *)
Lemma new_volumes_touch cli operands dir r dir' q :
  cli_volume_sizes cli ≠ [] → create_new_archive io_fuel open_file depth_fuel g cli operands dir = (r, dir') →
  ¬ volume_run_name (V := V) (T := T) (cli_archive cli) q → stored dir' !! q = stored dir !! q.
Proof using Hlaws Htouch.
  intros Hv Hrun Hq. revert Hrun. unfold create_new_archive.
  destruct (scan_disk_operands operands) as [scan|]; [|by intros [= _ <-]].
  destruct (collect_disk_entries depth_fuel _) as [entries|]; [|by intros [= _ <-]].
  destruct (write_archive_entries _ _ _ _ _ _ _ dir) as [written dir1] eqn:Ew. intros [= _ <-]. revert Ew.
  unfold write_archive_entries, write_preserved_archive_entries_atomic. destruct (cli_volume_sizes cli) as [|size sizes]; [done|].
  assert (q ≠ temp_archive_path (V := V) (T := T) (cli_archive cli)) as Hqt by (intros ->; apply Hq; by left).
  destruct (replace_archive _ _ dir) as [[[]|e] dir2] eqn:Er;
    apply (replace_archive_spec contents position stored Hlaws) in Er; [|intros [= _ <-]; by rewrite Er].
  destruct Er as (? & file & _ & Hd2).
  destruct (write_volumes_from_file _ _ _ _ dir2) as [result dir3] eqn:Ev.
  pose proof (volumes_from_file_touch io_fuel stored Htouch q _ _ _ _ _ _ Hq Ev) as Hd3.
  destruct (ad_remove_file _ dir3) as [cleanup dir4] eqn:Ec. intros [= _ <-].
  by rewrite (to_remove _ Htouch _ _ _ _ _ Ec Hqt), Hd3, Hd2, lookup_insert_ne.
Qed.

Context {D F : Type} `{ExtractDirLaws D F (list Z)} `{Writer F} {U : Type} `{OverwriteUi U}.
Context (file_size : list Z → V → option Z) (open_destination : list Z → V → result D (IoError * V)) (released : D → V).

Lemma extract_entries_code archive password assume_yes output_dir flat warnings (self : Extraction (D := D) (U := U)) entries :
  good_code (Ok warnings) →
  good_code (extract_entries (F := F) retries io_fuel io_sizes copy_sizes archive password assume_yes output_dir flat warnings self entries).1.
Proof.
  revert warnings self. induction entries as [|entry entries IH]; intros warnings self Hw; cbn [extract_entries]; [done|].
  destruct (ExtractionTarget_from_entry entry output_dir flat) as [[target|e]|]; [|done|by apply IH].
  destruct (Extraction_write _ _ _ _ _ _ _ self target) as [[[warning|]|e] self'] eqn:Ew; [|by right|done].
  apply IH. assert (warning = 0 ∨ warning = 1) as Hwarn.
  { revert Ew. unfold Extraction_write. destruct (ExtractionTarget_prepare _ _ _ _ _) as [[[[action|] d] m] u]; [|done].
    destruct action as [|[]|]; [|intros [= <- _]; by right|intros [= <- _]; by left|done].
    destruct (write_target _ _ _ _ _ _ _ _) as [[[]|] ?]; [|done]. intros [= <- _]. by left. }
  destruct Hw as [->| ->], Hwarn as [->| ->]; cbn; [by left|by right..].
Qed.

Abbreviation extracting := (extract_archive (F := F) (U := U) retries io_fuel io_sizes copy_sizes address volume_fuel identity
  open_destination released).

Lemma extract_code cli flat operands ui dir : good_code (extracting cli flat operands ui dir).1.
Proof.
  unfold extract_archive. destruct (opened cli dir) as [archive|]; [|done].
  destruct (open_destination _ dir) as [output1|[]]; [|done].
  unfold extract_archive_with_ui. destruct (EntryPatterns_resolve_entries _ archive) as [entries|]; [|by right].
  pose proof (extract_entries_code archive (cli_password cli) (cli_assume_yes cli) (cli_output_dir cli) flat EXIT_OK
    {| ex_destination := output1; ex_session := None; ex_overwrite_mode := cli_overwrite_mode cli; ex_ui := ui |} entries ltac:(by left)) as Hc.
  destruct (extract_entries _ _ _ _ _ _ _ _ _ _ _ _) as [[warnings|] self]; [|done]. cbn [fst]. by apply good_code_bind.
Qed.

(** A file that an extraction must leave as it is: nobody consents, or it is not at the path
    of a selected entry below the output directory. *)
Definition extraction_spares (cli : Cli) (flat : bool) (operands : list (list Z)) (dir : V) (q : list Z) : Prop :=
  (never_agrees U ∧ withholds (cli_assume_yes cli) (cli_overwrite_mode cli)) ∨
  ∀ archive destination, opened cli dir = Ok archive → open_destination (cli_output_dir cli) dir = Ok destination →
    not_led_to (target_paths (cli_output_dir cli) flat
      (default [] (EntryPatterns_resolve_entries (EntryPatterns_from_paths operands) archive))) q destination.

Lemma extract_archive_spares cli flat operands ui dir r dir' q b :
  output_laws stored open_destination released → extracting cli flat operands ui dir = (r, dir') →
  extraction_spares cli flat operands dir q → stored dir !! q = Some b → stored dir' !! q = Some b.
Proof.
  intros Hout. unfold extract_archive, extraction_spares. destruct (opened cli dir) as [archive|]; [|by intros [= _ <-]].
  destruct (open_destination _ dir) as [destination|[e dir1]] eqn:Eo.
  2:{ intros [= _ <-] _. by eapply ol_not_opened. }
  destruct (extract_archive_with_ui _ _ _ _ _ _ _ _ _ _ _ _ _) as [r1 destination'] eqn:Ex. intros [= _ <-] Hs Hf.
  apply (ol_released _ _ _ Hout). eapply extract_archive_keeps; [exact Ex| |by eapply ol_opened].
  destruct Hs as [Hs|Hs]; [by left|right]. by apply Hs.
Qed.

(** Whether a command that changes an archive puts a whole file in its place: it is not to be
    in volumes, or it is one that exists. *)
Definition replaces_archive (cli : Cli) (dir : V) : bool :=
  match cli_volume_sizes cli, cli_command cli with
  | [], _ | _, CommandDelete _ => true
  | _, _ => af_exists (cli_archive cli) dir
  end.

(** What a command that changes an archive does to the files. *)
Definition archive_changed (cli : Cli) (dir : V) (r : result Z CliError) (dir' : V) : Prop :=
  if replaces_archive cli dir then written_or_kept (cli_archive cli) dir r dir'
  else ∀ q, ¬ volume_run_name (V := V) (T := T) (cli_archive cli) q → stored dir' !! q = stored dir !! q.

Lemma update_existing_spec cli operands dir r dir' :
  af_exists (cli_archive cli) dir = true → update cli operands dir = (r, dir') → written_or_kept (cli_archive cli) dir r dir'.
Proof using Hlaws.
  intros Hex. unfold update_archive. rewrite Hex. cbn [negb].
  destruct (let? _ := _ in _) as [[scan new_entries]|]; [|by intros [= <- <-]].
  destruct (rewriting _ _ _ _) as [w dir1] eqn:Er. intros [= <- <-]. apply written_code. by eapply rewriting_spec.
Qed.

Lemma update_changes cli operands dir r dir' :
  (∀ ops, cli_command cli ≠ CommandDelete ops) → update cli operands dir = (r, dir') → archive_changed cli dir r dir'.
Proof using Hlaws Htouch.
  intros Hc. unfold archive_changed.
  assert (replaces_archive cli dir = match cli_volume_sizes cli with [] => true | _ => af_exists (cli_archive cli) dir end) as ->.
  { unfold replaces_archive. destruct (cli_volume_sizes cli), (cli_command cli) eqn:E; try done. by edestruct Hc. }
  destruct (af_exists (cli_archive cli) dir) eqn:Ex.
  { destruct (cli_volume_sizes cli); by apply update_existing_spec. }
  unfold update_archive. rewrite Ex. cbn [negb]. intros Hn. destruct (cli_volume_sizes cli) as [|size sizes] eqn:Ev.
  - by eapply create_new_archive_spec.
  - intros q. eapply new_volumes_touch; [by rewrite Ev|exact Hn].
Qed.

Lemma creation_changes cli operands dir r dir' :
  (∀ ops, cli_command cli ≠ CommandDelete ops) → creation cli true operands dir = (r, dir') → archive_changed cli dir r dir'.
Proof using Hlaws Htouch.
  intros Hc Hrun. eapply update_changes; [done|]. rewrite <- Hrun. unfold create_archive, update_archive. cbn [andb].
  by destruct (af_exists (cli_archive cli) dir).
Qed.

Abbreviation running := (run (F := F) (U := U) retries io_fuel io_sizes copy_sizes address open_file display format_time
  volume_fuel depth_fuel identity g file_size open_destination released).

Lemma run_code_good args ui w : good_code (running args ui w).1.
Proof.
  unfold run. destruct (Cli_parse args) as [cli|]; [|done].
  unfold run_command. destruct (cli_command cli) as [ops|ops|ops|ops|ops|ops|ops].
  - destruct (list_archive _ _ _ _ _ _ _ _ _ _ _) as [lines|]; [by left|done].
  - apply test_code.
  - apply extract_code.
  - apply extract_code.
  - unfold create_archive. destruct (true && _); [apply update_code|apply create_new_code].
  - apply update_code.
  - destruct (deletion cli ops (wo_files w)) as [[[]|] d]; [by left|done].
Qed.

(** C13. Every run ends with one of four exit codes, and the files it changes, in the one file
    system of the archive and the output directory, are these. A command line that cannot be
    read, a listing and a test change none. An extraction changes, of the files that exist,
    only those at the paths of the selected entries below the output directory, and with
    consent only. Adding, updating or deleting either puts one whole new file in the place
    of the archive, or fails and leaves every file as it was; except for a new archive in
    volumes, which changes at most the volumes, the archive beside them that they are cut
    from and temporary files of their names, and may leave some of these when it fails. *)
Theorem commands_replace_or_keep (args : list (list Z)) (ui : U) (w w' : World (V := V)) r :
  output_laws stored open_destination released → running args ui w = (r, w') →
  exit_code r ∈ [EXIT_OK; EXIT_WARNING; EXIT_FATAL; EXIT_COMMAND_LINE] ∧
  match Cli_parse args with
  | Err _ => w' = w
  | Ok cli =>
      let extracted flat operands := ∀ q b, extraction_spares cli flat operands (wo_files w) q →
        stored (wo_files w) !! q = Some b → stored (wo_files w') !! q = Some b in
      match cli_command cli with
      | CommandList _ | CommandTest _ => wo_files w' = wo_files w
      | CommandExtractFull operands => extracted false operands
      | CommandExtractFlat operands => extracted true operands
      | CommandAdd _ | CommandUpdate _ | CommandDelete _ => archive_changed cli (wo_files w) r (wo_files w')
      end
  end.
Proof.
  intros Hout Hrun. split; [apply good_code_exit; pose proof (run_code_good args ui w) as Hg; by rewrite Hrun in Hg|].
  revert Hrun. unfold run. destruct (Cli_parse args) as [cli|]; [|by intros [= _ <-]].
  unfold run_command. cbv zeta. destruct (cli_command cli) as [ops|ops|ops|ops|ops|ops|ops] eqn:Ec.
  - destruct (list_archive _ _ _ _ _ _ _ _ _ _ _) as [lines|]; by intros [= _ <-].
  - by intros [= _ <-].
  - destruct (extracting cli false ops ui (wo_files w)) as [r1 d1] eqn:Ex. intros [= _ <-] q b.
    by eapply extract_archive_spares.
  - destruct (extracting cli true ops ui (wo_files w)) as [r1 d1] eqn:Ex. intros [= _ <-] q b.
    by eapply extract_archive_spares.
  - destruct (creation cli true ops (wo_files w)) as [r1 d1] eqn:Ecr. intros [= <- <-].
    eapply creation_changes; [by rewrite Ec|exact Ecr].
  - destruct (update cli ops (wo_files w)) as [r1 d1] eqn:Eu. intros [= <- <-].
    eapply update_changes; [by rewrite Ec|exact Eu].
  - destruct (deletion cli ops (wo_files w)) as [r1 d1] eqn:Ed. intros [= <- <-]. unfold archive_changed.
    assert (replaces_archive cli (wo_files w) = true) as -> by (unfold replaces_archive; rewrite Ec; by destruct (cli_volume_sizes cli)).
    apply written_code. by eapply rewriting_spec.
Qed.

End claims.

(** ** Witnesses: files in memory *)

#[local] Existing Instances flat_memory stored_decoders counter_cipher flat_hash sum_crc sample_host sample_encoder_limits
  storing_encoders no_entropy sample_layout sample_fs list_writer silent_ui.

Abbreviation memory := (gmap (list Z) bytes).
Definition temporary_name : list Z := Eval vm_compute in text ".r7z-0".

#[local] Instance memory_dir : ArchiveDir memory FileOutput := {|
  ad_process_id := text "7";
  ad_tempfile_in := λ _ v, match v !! temporary_name with
                           | Some _ => (Err (IoKind AlreadyExists "file exists"), v)
                           | None => (Ok (temporary_name, new_output), <[temporary_name := []]> v)
                           end;
  ad_persist := λ p t q v, (Ok tt, <[q := fo_data t]> (delete p v));
  ad_discard := λ p v, delete p v;
  ad_rename := λ p t q v, (Ok tt, <[q := fo_data t]> (delete p v));
  ad_remove_file := λ p v, (Ok tt, delete p v)
|}.
#[local] Instance memory_file_volumes : VolumeDir memory FileOutput :=
  {| vd_create := λ p v, (Ok new_output, <[p := []]> v); vd_close := λ p t v, <[p := fo_data t]> v |}.
#[local] Instance memory_archives : ArchiveFiles memory :=
  {| af_exists := λ p files, bool_decide (is_Some (files !! p)); af_open := λ p files, ok_or (files !! p) (IoKind NotFound "no file") |}.

Lemma memory_dir_laws : archive_dir_laws fo_data fo_pos (λ v : memory, v).
Proof.
  split; [exact FileOutput_laws|..]; cbn -[temporary_name].
  - intros d v p t v'. destruct (v !! temporary_name) eqn:E; [done|]. by intros [= <- <- <-].
  - intros d v e v'. destruct (v !! temporary_name) eqn:E; [|done]. by intros [= _ <-].
  - by intros p t q v v' [= <-].
  - done.
  - done.
Qed.

Lemma memory_touching : touching_laws (T := FileOutput) (λ v : memory, v).
Proof.
  split; cbn.
  - intros p v r v' q [= _ <-] Hq. by rewrite lookup_insert_ne.
  - intros p t v q Hq. by rewrite lookup_insert_ne.
  - intros p t p' v r v' q [= _ <-] Hq Hq'. by rewrite lookup_insert_ne, lookup_delete_ne.
  - intros p v r v' q [= _ <-] Hq. by rewrite lookup_delete_ne.
Qed.

(** The same files as an output directory: the current one, of which only the files are kept. *)
Definition path_name (p : path) : list Z := tail (concat (map (λ part, 47 :: part) p)).
#[local] Instance memory_output : ExtractDir memory bytes := {|
  dir_is_dir := λ p v, match v !! path_name p with Some _ => Some false | None => None end;
  dir_remove_file := λ p v, (Ok tt, delete (path_name p) v);
  dir_create_all := λ p v, (Ok tt, v);
  dir_create_new := λ p v, match v !! path_name p with
                           | Some _ => (Err (IoKind AlreadyExists "file exists"), v)
                           | None => (Ok [], <[path_name p := []]> v)
                           end;
  dir_close := λ p f v, <[path_name p := f]> v
|}.
#[local] Instance memory_output_laws : ExtractDirLaws memory bytes (list Z).
Proof.
  refine {| file_at := λ q v, v !! q; leads_to := λ p q _, path_name p = q |}; unfold kept_at; cbn.
  - by intros p v r v' q b [= _ <-].
  - intros p v r v' q b. destruct (v !! path_name p) as [o|] eqn:E; intros [= _ <-]; [done|].
    intros Hf. rewrite lookup_insert_ne; [done|congruence].
  - intros p v f v' q E <-. by destruct (v !! path_name p).
  - intros p f v q b Hq. by rewrite lookup_insert_ne.
  - intros p v r v' q b [= _ <-] Hq. by rewrite lookup_delete_ne.
Defined.
Definition open_memory : list Z → memory → result memory (IoError * memory) := λ _ v, Ok v.

Lemma memory_output_released : output_laws (λ v : memory, v) open_memory (λ v : memory, v).
Proof. split; unfold open_memory; cbn; [by intros o v d q b [= <-]|done|done]. Qed.

(** The archive of one file beside another file. *)
Definition sample_dir : memory := {[ text "a.7z" := sample_archive_bytes; text "b" := [1] ]}.
Definition sample_world : World (V := memory) := {| wo_files := sample_dir; wo_lines := [] |}.
Abbreviation sample_run := (run (F := bytes) (U := unit) 9 30 (λ _, 8) (λ _, 8%N) (λ _, 0)
  (T := FileOutput) sample_open_file (λ _, []) (λ _, []) 3 3 7 tt (λ _ _, None) open_memory (λ v, v)).
Definition run_code (args : list (list Z)) : Z := exit_code (sample_run args tt sample_world).1.
Definition delete_args : list (list Z) := [text "d"; text "a.7z"; text "z*"].
Definition extract_args : list (list Z) := [text "x"; text "a.7z"].


(** What the property says of runs on the sample files. *)
Abbreviation sample_claim := (λ args w r Er, commands_replace_or_keep 9 30 (λ _, 8) (λ _, 8%N) (λ _, 0) sample_open_file
  (λ _, []) (λ _, []) 3 3 7 tt fo_data fo_pos (λ v : memory, v) memory_dir_laws memory_touching (F := bytes) (λ _ _, None)
  open_memory (λ v, v) args tt sample_world w r memory_output_released Er).

(** A deletion replaces the archive; an extraction into the directory of the archive, which
    makes the file of its entry, leaves the archive and the file beside it. *)
Lemma commands_replace_or_keep_witness :
  (∃ data, (sample_run delete_args tt sample_world).1 = Ok EXIT_OK ∧
    wo_files (sample_run delete_args tt sample_world).2 = <[text "a.7z" := data]> sample_dir) ∧
  let files := wo_files (sample_run extract_args tt sample_world).2 in
  files !! text "a.7z" = Some sample_archive_bytes ∧ files !! text "b" = Some [1] ∧ files !! text "a" = Some [1; 2; 3; 4].
Proof.
  split.
  - destruct (sample_run delete_args tt sample_world) as [r w] eqn:Er.
    assert (r = Ok EXIT_OK) as -> by (change r with (r, w).1; rewrite <- Er; vm_compute; reflexivity).
    destruct (Cli_parse delete_args) as [cli|] eqn:Ec; [|vm_compute in Ec; discriminate Ec].
    assert (Ha : cli_archive cli = text "a.7z" ∧ cli_command cli = CommandDelete [text "z*"] ∧ cli_volume_sizes cli = []).
    { vm_compute in Ec. injection Ec as <-. split_and!; reflexivity. }
    destruct Ha as (Ha & Hc & Hv). destruct (sample_claim delete_args w (Ok EXIT_OK) Er) as [_ Hkept].
    rewrite Ec, Hc in Hkept. unfold archive_changed, replaces_archive in Hkept. rewrite Hv in Hkept.
    destruct Hkept as [data Hd]. exists data. split; [reflexivity|]. cbn [snd]. rewrite Hd, Ha. reflexivity.
  - destruct (sample_run extract_args tt sample_world) as [r w] eqn:Er.
    destruct (Cli_parse extract_args) as [cli|] eqn:Ec; [|vm_compute in Ec; discriminate Ec].
    assert (Ha : cli_command cli = CommandExtractFull [] ∧ cli_assume_yes cli = false ∧ cli_overwrite_mode cli = Ask).
    { vm_compute in Ec. injection Ec as <-. split_and!; reflexivity. }
    destruct Ha as (Hc & Hy & Hm). destruct (sample_claim extract_args w r Er) as [_ Hkept].
    rewrite Ec, Hc in Hkept. cbv zeta beta in Hkept. cbn [snd].
    assert (∀ q, extraction_spares 9 30 (λ _, 8) (λ _, 0) 3 7 (U := unit) (F := bytes) open_memory cli false [] sample_dir q) as Hs.
    { intros q. left. rewrite Hy, Hm. split; [intros ui p answer ui' Hi; discriminate Hi|right; split; reflexivity]. }
    split_and!; [apply Hkept; [apply Hs|reflexivity]..|].
    change (wo_files (r, w).2 !! text "a" = Some [1; 2; 3; 4]). rewrite <- Er. vm_compute. reflexivity.
Defined.

Definition sample_cli (command : Command) : Cli :=
  {| cli_command := command; cli_archive := text "a.7z"; cli_output_dir := text "."; cli_password := None;
     cli_options := sample_options; cli_technical := false; cli_volume_sizes := []; cli_overwrite_mode := Ask; cli_assume_yes := false |}.
Definition sample_deletion : result unit CliError * memory :=
  delete_from_archive (T := FileOutput) 9 30 (λ _, 8) (λ _, 8%N) (λ _, 0) sample_open_file (λ _, []) 3 7 tt
    (sample_cli (CommandDelete [text "z*"])) [text "z*"] sample_dir.


(** The exit codes of some runs, and an archive in volumes beside the same in one file. *)
Example exit_codes :
  run_code [text "l"; text "a.7z"] = 0 ∧ run_code [text "t"; text "a.7z"] = 0 ∧ run_code [text "x"; text "a.7z"] = 0 ∧
  run_code [text "u"; text "a.7z"; text "d"] = 0 ∧ run_code [text "u"; text "a.7z"; text "x"] = 1 ∧
  run_code [text "l"; text "c.7z"] = 2 ∧ run_code [text "q"] = 7.
Proof. vm_compute. split_and!; reflexivity. Qed.

Example volumes_of_a_new_archive :
  let files args := wo_files (sample_run args tt sample_world).2 in
  let whole := files [text "a"; text "c.7z"; text "d"] in
  let parts := files [text "a"; text "c.7z"; text "d"; text "-v50"] in
  whole !! text "c.7z" = mjoin <$> mapM (λ name, parts !! name) [text "c.7z.001"; text "c.7z.002"; text "c.7z.003"] ∧
  size parts = 5%nat.
Proof. vm_compute. split; reflexivity. Qed.
